(* ===== verification/_CoqProject ===== *)
-Q . S2P
Prelude.v
LockModes.v
LockRequestList.v
LockManager.v
LockHeadInv.v
LockManagerInv.v
LockUnlocking.v
LockManagerSafety.v
FastMap.v
Locker.v
LockerInv.v
LockerUnits.v
LockerService.v
LockerProps.v
OpTimes.v
ReplSetTag.v
ReplSetConfig.v
ReplSetConfigFacts.v
TagCounting.v
MemberData.v
TopologyCoordinator.v
TopologyInv.v
TopologyProps.v
Handoff.v
CommitProps.v
StepDown.v
VoteRequester.v
ReplicationCoordinator.v
Election.v
ElectionSafety.v
Sdam.v
SdamProps.v
FieldRef.v
FieldRefProps.v
MatchExpression.v
MatchExpressionProps.v
ComparisonExpression.v
QueryProps.v
Initializer.v
InitializerProps.v
TransactionState.v
TransactionParticipant.v
TransactionSession.v
TransactionInv.v
TransactionPhases.v
TransactionRun.v
TransactionCommands.v
TransactionLog.v
TransactionWrites.v
TransactionRequests.v
TransactionSteps.v
TransactionOpen.v
TransactionProps.v
TransactionDecision.v
TransactionCoordinator.v
CoordinatorInv.v
TwoPhaseCommit.v
TwoPhaseInv.v
ShardParticipant.v
TwoPhaseRun.v
TwoPhaseProps.v
KeyBytes.v
BsonValue.v
KeyString.v
DoubleFacts.v
KeyStringNumbers.v
KeyStringNumberCode.v
KeyStringEncoding.v
KeyStringOrder.v
KeyStringKeys.v
KeyStringProps.v
KeyStringDecode.v
KeyStringReading.v
KeyStringNumberReading.v
KeyStringRoundTrip.v
KeyStringSkipping.v
BsonValidate.v
BsonGrammar.v
BsonValidateProps.v
