(* ===== verification/Prelude.v ===== *)
(** * A verification development for the MongoDB 4.4 server

    All source paths are relative to src/mongo-r4.4.6/src/mongo.  The development
    models nine groups of components of the server and its driver code, as executable
    definitions, and proves what makes each of them correct.

    ** 1. Locking (db/concurrency)

    - LockModes (lock_manager_defs.h): the modes, the conflict masks as
      32-bit words, the packing of a type and a hash in 64 bits.
    - LockManager (lock_manager.{cpp,h}): the requests, the lock heads and the
      partitioned lock heads, and [lock], [convert], [unlock], [downgrade] and
      [cleanupUnusedLocks].  A pointer is a key of a heap; an operation is one step, as
      it runs under a mutex; [lock] takes two mutexes in turn and is two steps, and so is [unlock],
      which counts a reference down before it takes one.
      LockHeadInv, LockManagerInv and LockManagerSafety hold the invariant (mode counts,
      masks, queues, which list a request is on), the step relation with the callers'
      obligations, and the theorems on every reachable state: holders are compatible,
      no [invariant] of the code fails, a waiting request has a holder to wait for, and
      what decides whether a request is granted at once.  LockUnlocking shows that the operations
      on other requests run alike between the halves of an [unlock].  One interleaving is left out,
      for there the code goes wrong: [unlock_race] has the run.
    - LockRequestList (lock_request_list.h), FastMap (fast_map_noalloc.h): the two
      containers, with pointers and recycled entries, and their refinement of lists and
      of finite maps.
    - Locker (lock_state.{cpp,h}): one operation's locks, the two-phase units of work,
      saving and restoring.  It is written against the class [LockService], what it uses of
      the lock manager; LockerInv states the laws as [LockServiceSpec], LockerUnits
      proves the Locker from these laws alone, and LockerService discharges them for
      LockManager.v.  LockerProps holds the theorems: unlocks inside a unit of work are delayed and
      the end of the unit releases exactly them; release and restore, and unlock and
      relock, are inverses; a positive answer of [isCollectionLockedForMode] excludes
      conflicting holders in the lock manager.

    ** 2. Replication (db/repl, bson/timestamp.h)

    - OpTimes (optime.h), ReplSetTag (repl_set_tag.cpp),
      ReplSetConfig with ReplSetConfigFacts (repl_set_config.cpp, member_config.cpp,
      util/net/hostandport.h), TagCounting, MemberData (member_data.cpp, member_state.h): the data, the
      validation of configurations and the quorums computed from them.
    - TopologyCoordinator with its Module CommitPoint, Handoff (topology_coordinator.cpp): one node's
      view of its set.  TopologyInv shows that the calls the replication coordinator
      makes succeed and keep the state in step, TopologyProps that this holds in every reachable state;
      CommitProps and StepDown state what the majority commit point, the wait for a
      number of nodes and the step down guarantee, Handoff which candidate is chosen.
    - VoteRequester (vote_requester.cpp, scatter_gather_runner.cpp): one round of vote
      requests; it ends when no request to the primary fails, and is won only by a majority.
    - ReplicationCoordinator (replication_coordinator_impl.cpp and
      replication_coordinator_impl_elect_v1.cpp, what runs under the mutex), Election,
      ElectionSafety: a network of nodes whose messages may be lost, delayed and
      reordered has at most one leader per term, as long as a node does not vote in a term that
      it has not seen while it steps down ([double_vote_while_stepping_down]).

    ** 3. Server discovery in the driver (client/sdam)

    - Sdam: server and topology descriptions, the transition table and the manager.
      SdamProps: the topology stays well typed, versions never go back, a stale primary
      is refused, a primary's lists are the membership.

    ** 4. Query predicates (db/matcher, db/field_ref.cpp)

    - FieldRef, FieldRefProps: dotted names as views into a cached string, with
      replacements, and their refinement of lists of names.
    - MatchExpression, MatchExpressionProps: the logical nodes with the optimizer,
      equivalence, the subset test and the splitting; leaves are the classes stated
      there.  ComparisonExpression: comparisons over an interface of values and
      document paths, as an instance.  QueryProps: optimizing preserves matching and
      reaches a normal form and the subset test is sound, for trees of comparisons; a split is exact.

    ** 5. Server start-up (base)

    - Initializer, InitializerProps (initializer_dependency_graph.cpp, initializer.cpp):
      the sort of the initializers by prerequisites, with its one vector of three
      regions, and the execution of their functions in that order.

    ** 6. Transactions and retryable writes (db)

    - TransactionState, TransactionParticipant (transaction_participant.{h,cpp}, the
      transaction part of op_observer_impl.cpp): the states of a session's transaction, the
      participant's data and its methods, in a monad of state, exceptions and
      termination.  The other components are an [Env]: which of the calls to them throw,
      and what they answer.
    - TransactionSession (service_entry_point_common.cpp, commands/txn_cmds.cpp,
      s/txn_two_phase_commit_cmds.cpp, ops/write_ops_exec.cpp, kill_sessions_local.cpp,
      session_catalog_mongod.cpp, repl/transaction_oplog_application.cpp,
      initialize_operation_session_info.cpp): a whole request on a session, and what the
      server does to a session by itself.  A checked-out session belongs to one
      operation, so each of these is one step.
    - TransactionInv, with the weakest preconditions of the monad, the invariant of the
      session and of its durable record and oplog; TransactionPhases, TransactionRun,
      TransactionCommands, TransactionWrites, TransactionRequests, TransactionSteps and
      TransactionOpen prove the specification of every method, command and step,
      TransactionLog that each only appends to the oplog, and what it may append.  The invariant
      has a parameter, [Reuse]: whether a shard may use the number of an aborted transaction again.
    - TransactionProps: in every history no call terminates the server, a prepared
      transaction ends only by its decision, a transaction takes effect as a whole or not
      at all and a commit is its end, a retryable statement is executed once, and one that is
      acknowledged has been executed.  A history begins with an empty oplog; what a node replicates, rolls
      back to or starts from is what some node reached in the same way ([history]).  Statement ids are
      assumed to be non-negative and those of one batch distinct; lemmas there show what
      happens otherwise, and what else goes wrong ([prepare_entry_misplaced]).

    ** 7. Two-phase commit (db/s)

    - TransactionCoordinator (transaction_coordinator.{h,cpp}, transaction_coordinator_util.cpp,
      transaction_coordinator_futures_util.{h,cpp}): the coordinator of one transaction. The chain
      of futures of its constructor is a state machine whose state says which future it
      waits for; an event function is what runs when that future is set.  The durable document is
      what its three writes make of it.  CoordinatorInv has the invariant, kept by every event.
    - TwoPhaseCommit: a network of shards, coordinators of successive primaries, the document
      in the coordinating shard's oplog with its majority commit point, and messages that
      may be lost, delayed, repeated and reordered.  An election may drop what no majority has; a
      primary that does not know it was superseded goes on, writing to an oplog of its own; the next one
      recovers from the document (transaction_coordinator_service.cpp, [onStepUp]).  A shard is
      the class [Participant] with its laws.  TwoPhaseInv has the invariant of the network
      and its simulation by atomic commit.
    - TransactionDecision and ShardParticipant discharge the laws of [Participant] for the
      sessions of group 6, with the requests the coordinator sends.  A shard is one node that keeps
      what it wrote: writes with a majority write concern are not rolled back.  As the protocol asks, only the
      coordinator decides a transaction that is prepared, and its number is used once.  TwoPhaseRun runs the network.
    - TwoPhaseProps: the network refines atomic commit, the shards of a transaction commit
      together or not at all, an acknowledged commit holds, a coordinator dies at exactly two events (the
      coordinating shard not found, or a participant not found when there is a decision), what was asked to prepare
      is recovered, and how votes make a decision.  A shard's clock has passed the commit timestamp it is sent, as
      the cluster time in the request makes sure; the reason of an abort is its code.

    ** 8. The order of documents and the keys of indexes (bson, db/storage)

    - KeyBytes: sequences of bytes, big endian words, and relations that say where two encodings
      first differ and survive appending and the inversion of all bits.
    - BsonValue (bsonelement.cpp, bsonobj.cpp, bsontypes.h, ordering.h, base/compare_numbers.h): values
      of every type but decimals, and their comparison with orderings and collators.
      A double is its 64 bits; its value is an integer of units of 2^-1074, and conversions and products
      by powers of two round to the nearest, ties to even.  DoubleFacts has the facts on them.
    - KeyString (storage/key_string.{h,cpp}): the builder of keys with its states, type bits,
      discriminators and record ids, in both versions of the format; released keys, their
      comparison, reading record ids back.  KeyStringDecode: reading whole keys back, with the
      type bits.  What is read for a number whose type bits are those of a decimal is an argument there.
      Also the serialized form of keys, reading over a key without type bits, for its size and its
      discriminator, and keys for queries read back with their discriminators.
    - KeyStringNumbers gives the encoding of a number as a function of its value and shows that it
      keeps the order; KeyStringNumberCode that the builder's code for ints, longs and doubles
      computes it.  KeyStringEncoding has the encoding of all values, shows that the
      builder appends it and that it fails for none; KeyStringOrder that it is ordered as
      the values are; KeyStringKeys treats record ids and whole keys.  KeyStringReading
      shows that type bits, bytes, names and strings are read back, KeyStringNumberReading that numbers
      are, by each of their formats, KeyStringRoundTrip that values and whole keys are.
      KeyStringSkipping does the same for what is read over.
    - KeyStringProps: the keys of an index compare as its fields do, then as the record ids;
      the keys of queries with discriminators separate its entries; numbers compare
      exactly; the comparison of documents is an order.  A collation is
      assumed to compare strings as the bytes of their comparison keys.  KeyStringRoundTrip ends with
      the round trip of keys: the fields are read back with their types.  KeyStringSkipping ends with that of the
      keys of queries and of record ids; its last lemma shows what happens where the end of a key is
      in a descending place.

    ** 9. Documents that come from outside (bson/bson_validate.cpp)

    - BsonValidate: the validator, a machine with a stack of frames over a buffer of bytes.  The memory
      ends where the buffer does, and reading behind it is an outcome of its own.
    - BsonGrammar: documents as trees, their encoding, when they are well typed and how deep they are;
      each of the validator's reads is that of a part of the encoding.
    - BsonValidateProps: it accepts exactly the buffers that begin with the encoding of a well-typed document that is
      not too deep; on any other bytes it ends with an error, without reading behind the buffer, and the element
      that is printed with the error is a valid one.  An invariant says what the frames have read, as
      a grammar with holes.

    ** Conventions

    - A failed [invariant] or [fassert], which terminates the server, is [None] ([Die] in the
      transactions, [Terminated] in key strings); an error
      returned as a Status and a thrown exception are values of a result type.
      Theorems named "never aborts" are about the absence of [None].
    - A mutable object is a record passed through the operations.  Where objects are
      shared by pointers (lock requests, list nodes) the model has a heap.
    - 32 and 64-bit words are integers in Z with the masks and the wrap-around written
      out; priorities, which are doubles, are the Standard Library's [spec_float], the doubles of
      documents are their bits.
    - What is not the repository's own code, or is outside a component, is an argument:
      the hash of resource names, the collator, BSON values and document paths, how long a
      wait lasts, random numbers, clocks.  Classes state the laws that are relied on and each has an
      instance or a witness.

    ** Bounds and fuel

    Loops over lists are structural.  The loops that follow iterators or pointers carry fuel, and
    running out of it is [None]: the Locker's loops get the number of entries of its map, at
    most one per turn of the loop ([endLoop_ok], [releaseLoop_ok],
    [findHeld_ok]), [flushPending] gets the number of pending unlocks, which every turn
    decreases, and the traversals [walk] and [visit] get the length of their container
    ([walk_seg], [visit_spec]).  The sort of initializers is a machine whose steps decrease a measure;
    its fuel is that measure at the start.  The loop over the zeros of a string gets the string's
    length ([appendStringLoop_spec]), and reading a key back the number of its bytes ([value_read],
    [key_fields_read], [value_skip]).  The validator of documents gets more than twice the number of bytes, and its
    turns decrease twice the bytes that are left plus the frames ([loop_finished]).  So no theorem has to assume that there is enough fuel.

    ** What is not modelled

    Parsing and printing (the fields of BSON documents, strings, logging, diagnostics) and network input and output;
    the storage engine and its cursors, the catalog, query planning and execution,
    aggregation; oplog application, sharding,
    authentication.  In the modelled files: statistics, tickets and flow control of the
    Locker, sync source selection, heartbeat messages and their scheduling, write
    concern waiters, catch-up, reconfiguration between nodes, the catalog of coordinators and the targeting of
    their requests, index tags of query predicates,
    leaves other than comparisons, decimals, server selection, metrics and read snapshots of
    transactions, direct writes to config.transactions in the middle of a request.  These either are glue around
    input and output, or rest on a storage engine whose code is not the program's
    own, or are left for their size. *)
From Stdlib Require Export ZArith Lia.
From stdpp Require Export strings functions gmap fin_maps option base list.

(** Notations of the development live in a scope of their own. *)
Declare Scope mongo_scope.
Delimit Scope mongo_scope with mongo.
Open Scope mongo_scope.
Open Scope Z_scope.

(** [invariant b ;; k]: the server's [invariant(b)] macro.  A failed invariant
    terminates the process, which the model renders as [None]. *)
Notation "'invariant' b ';;' k" := (if b then k else None)
  (at level 100, b at level 99, k at level 200, right associativity) : mongo_scope.

(** ** Automation *)

Create HintDb mongo discriminated.

(** Splits every conjunction of the context. *)
Ltac split_hyps :=
  repeat match goal with H : _ ∧ _ |- _ => destruct H end.

(** Turns boolean tests of the context and of the goal into propositions. *)
Ltac to_prop :=
  repeat match goal with
  | H : _ && _ = true |- _ => apply andb_true_iff in H; destruct H
  | H : _ || _ = false |- _ => apply orb_false_iff in H; destruct H
  | H : _ || _ = true |- _ => apply orb_true_iff in H
  | H : _ && _ = false |- _ => apply andb_false_iff in H
  | H : negb _ = true |- _ => apply negb_true_iff in H
  | H : negb _ = false |- _ => apply negb_false_iff in H
  | H : (_ <? _)%Z = true |- _ => apply Z.ltb_lt in H
  | H : (_ <? _)%Z = false |- _ => apply Z.ltb_ge in H
  | H : (_ <=? _)%Z = true |- _ => apply Z.leb_le in H
  | H : (_ <=? _)%Z = false |- _ => apply Z.leb_gt in H
  | H : (_ =? _)%Z = true |- _ => apply Z.eqb_eq in H
  | H : (_ =? _)%Z = false |- _ => apply Z.eqb_neq in H
  | H : bool_decide _ = true |- _ => apply bool_decide_eq_true in H
  | H : bool_decide _ = false |- _ => apply bool_decide_eq_false in H
  end.

(** Case analysis on the scrutinee of the first [match] or [if] of a hypothesis. *)
Ltac case_in H :=
  match type of H with
  | context [match ?x with _ => _ end] => destruct x eqn:?
  end.

(** Runs a successful computation [H : prog = Some _] backwards. *)
Ltac run H := repeat (case_in H; try discriminate H; simplify_eq/=).

(** ** Sums over a list *)

(** [lsum f l] is the sum of [f] over the elements of [l]. *)
Fixpoint lsum {A} (f : A → Z) (l : list A) : Z :=
  match l with
  | [] => 0
  | x :: l' => f x + lsum f l'
  end.

Section Lsum.
Context {A : Type} `{EqDecision A}.
Implicit Types (f g : A → Z) (l : list A).

Lemma lsum_app f l1 l2 : lsum f (l1 ++ l2) = lsum f l1 + lsum f l2.
Proof. induction l1; simpl; lia. Qed.

Lemma lsum_ext f g l : (∀ x, x ∈ l → f x = g x) → lsum f l = lsum g l.
Proof.
  induction l as [|x l IH]; simpl; [done|]. intros H.
  rewrite (H x) by apply list_elem_of_here. f_equal.
  apply IH. intros y Hy. apply H. by apply list_elem_of_further.
Qed.

Lemma lsum_nonneg f l : (∀ x, x ∈ l → 0 <= f x) → 0 <= lsum f l.
Proof.
  induction l as [|x l IH]; simpl; [lia|]. intros H.
  assert (0 <= f x) by (apply H, list_elem_of_here).
  assert (0 <= lsum f l) by (apply IH; intros; apply H; by apply list_elem_of_further). lia.
Qed.

Lemma lsum_elem f l x :
  (∀ y, y ∈ l → 0 <= f y) → x ∈ l → f x <= lsum f l.
Proof.
  induction l as [|y l IH]; simpl; [set_solver|]. intros H Hx.
  assert (∀ z, z ∈ l → 0 <= f z) by (intros; apply H; by apply list_elem_of_further).
  assert (0 <= f y) by (apply H, list_elem_of_here).
  assert (0 <= lsum f l) by (by apply lsum_nonneg).
  apply elem_of_cons in Hx as [->|Hx]; [lia|].
  assert (f x <= lsum f l) by (by apply IH). lia.
Qed.

(** Changing the summand at one element of a duplicate-free list. *)
Lemma lsum_update f g l x :
  NoDup l → x ∈ l → (∀ y, y ≠ x → f y = g y) →
  lsum g l = lsum f l - f x + g x.
Proof.
  induction l as [|y l IH]; simpl; [set_solver|].
  intros [Hy Hnd]%NoDup_cons Hx Hfg.
  apply elem_of_cons in Hx as [->|Hx].
  - rewrite (lsum_ext g f l); [lia|].
    intros z Hz. symmetry. apply Hfg. intros ->. done.
  - rewrite IH by done. rewrite (Hfg y); [lia|]. intros ->. done.
Qed.

(** Changing the summand at an element that is not in the list. *)
Lemma lsum_update_ne f g l x :
  x ∉ l → (∀ y, y ≠ x → f y = g y) → lsum g l = lsum f l.
Proof. intros Hx Hfg. apply lsum_ext. intros y Hy. symmetry. apply Hfg. intros ->. done. Qed.

Lemma lsum_pair f l x y :
  (∀ z, z ∈ l → 0 <= f z) → NoDup l → x ∈ l → y ∈ l → x ≠ y →
  f x + f y <= lsum f l.
Proof.
  intros Hf Hnd Hx Hy Hne.
  pose (g := λ z, if decide (z = x) then 0 else f z).
  assert (lsum g l = lsum f l - f x + g x) as E.
  { apply lsum_update; [done|done|]. intros z Hz. unfold g. by rewrite decide_False. }
  unfold g in E at 2. rewrite decide_True in E by done.
  assert (g y <= lsum g l) as L.
  { apply lsum_elem; [|done]. intros z Hz. unfold g. case_decide; [lia|auto]. }
  unfold g in L at 1. rewrite decide_False in L by done. lia.
Qed.
End Lsum.

(** ** Removal of one element, as an intrusive list does it *)

Section RemoveId.
Context {A : Type} `{EqDecision A}.
Implicit Types (l : list A).

(** The list without the node [x]. *)
Definition remove_id (x : A) (l : list A) : list A := filter (λ y, y ≠ x) l.

Lemma elem_of_remove_id x y l : y ∈ remove_id x l ↔ y ≠ x ∧ y ∈ l.
Proof. unfold remove_id. by rewrite list_elem_of_filter. Qed.

Lemma remove_id_notin x l : x ∉ l → remove_id x l = l.
Proof.
  unfold remove_id. induction l as [|y l IH]; [done|]. intros H.
  rewrite filter_cons_True by set_solver. rewrite IH; set_solver.
Qed.

Lemma remove_id_cons_eq x l : x ∉ l → remove_id x (x :: l) = l.
Proof.
  intros H. unfold remove_id. rewrite filter_cons_False by (intros ?; done).
  by apply remove_id_notin.
Qed.

Lemma remove_id_cons_ne x y l : y ≠ x → remove_id x (y :: l) = y :: remove_id x l.
Proof. intros H. unfold remove_id. by rewrite filter_cons_True. Qed.

Lemma remove_id_app x l1 l2 : remove_id x (l1 ++ l2) = remove_id x l1 ++ remove_id x l2.
Proof. apply filter_app. Qed.

Lemma NoDup_remove_id x l : NoDup l → NoDup (remove_id x l).
Proof. apply NoDup_filter. Qed.

Lemma lsum_remove_id f x l :
  NoDup l → x ∈ l → lsum f (remove_id x l) = lsum f l - f x.
Proof.
  induction l as [|y l IH]; [set_solver|].
  intros [Hy Hnd]%NoDup_cons Hx.
  destruct (decide (y = x)) as [->|Hne].
  - rewrite remove_id_cons_eq by done. simpl. lia.
  - rewrite remove_id_cons_ne by done. simpl. rewrite IH; [lia|done|set_solver].
Qed.
End RemoveId.

#[export] Hint Resolve NoDup_remove_id : mongo.
