(* ===== verification/LockModes.v ===== *)
(** Lock modes, their compatibility matrix and the packing of resource ids
    (src: db/concurrency/lock_manager_defs.h, lock_manager.cpp). *)
From S2P Require Import Prelude.

(** ** Lock modes *)

(** [enum LockMode] without the counter [LockModesCount]. *)
Inductive LockMode := MODE_NONE | MODE_IS | MODE_IX | MODE_S | MODE_X.

#[export] Instance LockMode_eq_dec : EqDecision LockMode.
Proof. solve_decision. Defined.

(** The numeric value of the enumerator. *)
Definition lm_val (m : LockMode) : Z :=
  match m with MODE_NONE => 0 | MODE_IS => 1 | MODE_IX => 2 | MODE_S => 3 | MODE_X => 4 end.

(** The modes an acquisition can ask for: the loops over modes start at 1. *)
Definition realModes : list LockMode := [MODE_IS; MODE_IX; MODE_S; MODE_X].

Definition modeMask (mode : LockMode) : Z := Z.shiftl 1 (lm_val mode).

Definition LockConflictsTable (m : LockMode) : Z :=
  match m with
  | MODE_NONE => 0
  | MODE_IS => modeMask MODE_X
  | MODE_IX => Z.lor (modeMask MODE_S) (modeMask MODE_X)
  | MODE_S => Z.lor (modeMask MODE_IX) (modeMask MODE_X)
  | MODE_X => Z.lor (Z.lor (Z.lor (modeMask MODE_S) (modeMask MODE_X)) (modeMask MODE_IS))
                    (modeMask MODE_IX)
  end.

Definition intentModes : Z := Z.lor (modeMask MODE_IS) (modeMask MODE_IX).

Definition conflicts (newMode : LockMode) (existingModesMask : Z) : bool :=
  negb (Z.land (LockConflictsTable newMode) existingModesMask =? 0).

Definition isModeCovered (mode coveringMode : LockMode) : bool :=
  Z.lor (LockConflictsTable coveringMode) (LockConflictsTable mode)
    =? LockConflictsTable coveringMode.

Definition isSharedLockMode (mode : LockMode) : bool :=
  bool_decide (mode = MODE_IS) || bool_decide (mode = MODE_S).

Definition modeName (mode : LockMode) : string :=
  match mode with
  | MODE_NONE => "NONE" | MODE_IS => "IS" | MODE_IX => "IX" | MODE_S => "S" | MODE_X => "X"
  end%string.

Definition legacyModeName (mode : LockMode) : string :=
  match mode with
  | MODE_NONE => "" | MODE_IS => "r" | MODE_IX => "w" | MODE_S => "R" | MODE_X => "W"
  end%string.

Inductive LockResult := LOCK_OK | LOCK_WAITING | LOCK_TIMEOUT | LOCK_INVALID.

#[export] Instance LockResult_eq_dec : EqDecision LockResult.
Proof. solve_decision. Defined.

(** ** The documented compatibility matrix *)

(** The "+" entries of the matrix in the header's comment: whether a request
    for [req] can be granted next to a lock held in [held]. *)
Definition compatible (req held : LockMode) : bool :=
  match req, held with
  | MODE_NONE, _ | _, MODE_NONE => true
  | MODE_IS, (MODE_IS | MODE_IX | MODE_S) => true
  | MODE_IX, (MODE_IS | MODE_IX) => true
  | MODE_S, (MODE_IS | MODE_S) => true
  | _, _ => false
  end.

(** Bit mask of a set of modes given by its characteristic function. *)
Definition mask_of (c : LockMode → bool) : Z :=
  Z.lor (if c MODE_NONE then 1 else 0)
   (Z.lor (if c MODE_IS then 2 else 0)
    (Z.lor (if c MODE_IX then 4 else 0)
     (Z.lor (if c MODE_S then 8 else 0) (if c MODE_X then 16 else 0)))).

Lemma mask_of_ext c d : (∀ m, c m = d m) → mask_of c = mask_of d.
Proof. intros H. unfold mask_of. by rewrite !H. Qed.

Ltac case_modes c :=
  destruct (c MODE_NONE), (c MODE_IS), (c MODE_IX), (c MODE_S), (c MODE_X).

(** The test of the code against a mask is the matrix against every mode of it. *)
Lemma conflicts_mask_of m c :
  conflicts m (mask_of c) = false ↔ ∀ m', c m' = true → compatible m m' = true.
Proof.
  split.
  - intros H m' Hm'. revert H. unfold mask_of.
    destruct m'; rewrite Hm'; case_modes c; destruct m; vm_compute; done.
  - intros H.
    pose proof (H MODE_IS) as H1. pose proof (H MODE_IX) as H2.
    pose proof (H MODE_S) as H3. pose proof (H MODE_X) as H4. clear H.
    unfold mask_of. destruct m; simpl in *;
      case_modes c; vm_compute;
      first [ reflexivity | discriminate (H1 eq_refl) | discriminate (H2 eq_refl)
            | discriminate (H3 eq_refl) | discriminate (H4 eq_refl) ].
Qed.

Lemma mask_of_set c m :
  Z.lor (mask_of c) (modeMask m) = mask_of (λ m', if decide (m' = m) then true else c m').
Proof. unfold mask_of. destruct m; simpl; case_modes c; reflexivity. Qed.

Lemma mask_of_clear c m :
  Z.ldiff (mask_of c) (modeMask m) = mask_of (λ m', if decide (m' = m) then false else c m').
Proof. unfold mask_of. destruct m; simpl; case_modes c; reflexivity. Qed.

Lemma mask_of_test c m :
  Z.land (mask_of c) (modeMask m) = if c m then modeMask m else 0.
Proof. unfold mask_of. destruct m; simpl; case_modes c; reflexivity. Qed.

Lemma mask_of_zero c : mask_of c = 0 ↔ ∀ m, c m = false.
Proof.
  split.
  - intros H m. revert H. unfold mask_of.
    destruct m; case_modes c; vm_compute; congruence.
  - intros H. unfold mask_of. by rewrite !H.
Qed.

Lemma mask_of_intent c :
  Z.ldiff (mask_of c) intentModes = 0 ↔
  ∀ m, c m = true → m = MODE_IS ∨ m = MODE_IX.
Proof.
  split.
  - intros H m. revert H. unfold mask_of.
    destruct m; case_modes c; vm_compute; auto; congruence.
  - intros H. pose proof (H MODE_NONE). pose proof (H MODE_S). pose proof (H MODE_X).
    unfold mask_of. case_modes c; vm_compute;
      first [ reflexivity | by destruct (H0 eq_refl) | by destruct (H1 eq_refl)
            | by destruct (H2 eq_refl) ].
Qed.

(** ** Resource ids

    The packing of a resource type and a 61-bit hash in 64 bits ([class ResourceId]).  The hash of
    a name is MurmurHash3 (third-party), an argument of [ofName]. *)
Module ResourceId.

Inductive ResourceType :=
  | RESOURCE_INVALID | RESOURCE_PBWM | RESOURCE_RSTL | RESOURCE_GLOBAL | RESOURCE_DATABASE
  | RESOURCE_COLLECTION | RESOURCE_METADATA | RESOURCE_MUTEX.

#[export] Instance ResourceType_eq_dec : EqDecision ResourceType.
Proof. solve_decision. Defined.

(** The value of the enumerator. *)
Definition rt_val (t : ResourceType) : Z :=
  match t with
  | RESOURCE_INVALID => 0 | RESOURCE_PBWM => 1 | RESOURCE_RSTL => 2 | RESOURCE_GLOBAL => 3
  | RESOURCE_DATABASE => 4 | RESOURCE_COLLECTION => 5 | RESOURCE_METADATA => 6
  | RESOURCE_MUTEX => 7
  end.

(** The cast of an integer to the enumeration; three bits always name a type. *)
Definition rt_of (z : Z) : option ResourceType :=
  nth_error [RESOURCE_INVALID; RESOURCE_PBWM; RESOURCE_RSTL; RESOURCE_GLOBAL; RESOURCE_DATABASE;
             RESOURCE_COLLECTION; RESOURCE_METADATA; RESOURCE_MUTEX] (Z.to_nat z).

Definition resourceTypeName (t : ResourceType) : string :=
  match t with
  | RESOURCE_INVALID => "Invalid" | RESOURCE_PBWM => "ParallelBatchWriterMode"
  | RESOURCE_RSTL => "ReplicationStateTransition" | RESOURCE_GLOBAL => "Global"
  | RESOURCE_DATABASE => "Database" | RESOURCE_COLLECTION => "Collection"
  | RESOURCE_METADATA => "Metadata" | RESOURCE_MUTEX => "Mutex"
  end%string.

Definition resourceTypeBits : Z := 3.
Definition uint64_max : Z := 2 ^ 64 - 1.

Definition hashMask : Z := Z.shiftr uint64_max resourceTypeBits.

(** [fullHash], with the wrap-around of the 64-bit addition and shift. *)
Definition fullHash (type : ResourceType) (hashId : Z) : Z :=
  (Z.shiftl (rt_val type) (64 - resourceTypeBits) mod 2 ^ 64 + Z.land hashId hashMask) mod 2 ^ 64.

Definition getType (full : Z) : option ResourceType := rt_of (Z.shiftr full (64 - resourceTypeBits)).
Definition getHashId (full : Z) : Z := Z.land full hashMask.
Definition isValid (full : Z) : bool := negb (bool_decide (getType full = Some RESOURCE_INVALID)).

(** [operator<]: the canonical locking order. *)
Definition lt (a b : Z) : bool := a <? b.

(** The constructor from a name; [murmur] is the low half of the 128-bit hash. *)
Definition ofName (murmur : string → Z) (type : ResourceType) (ns : string) : Z :=
  fullHash type (murmur ns).

#[global] Arguments getType _ : simpl never.
#[global] Arguments getHashId _ : simpl never.
#[global] Arguments fullHash _ _ : simpl never.

Lemma rt_val_range t : 0 <= rt_val t < 8.
Proof. destruct t; simpl; lia. Qed.

Lemma rt_of_val t : rt_of (rt_val t) = Some t.
Proof. by destruct t. Qed.

Lemma hashMask_land h : Z.land h hashMask = h mod 2 ^ 61.
Proof. change hashMask with (Z.ones 61). by rewrite Z.land_ones. Qed.

Lemma fullHash_eq t h : fullHash t h = rt_val t * 2 ^ 61 + h mod 2 ^ 61.
Proof.
  unfold fullHash. rewrite hashMask_land, Z.shiftl_mul_pow2 by (compute; congruence).
  change (64 - resourceTypeBits) with 61. pose proof (rt_val_range t).
  pose proof (Z.mod_pos_bound h (2 ^ 61)).
  rewrite (Z.mod_small (rt_val t * 2 ^ 61)) by lia. rewrite Z.mod_small; lia.
Qed.

Lemma fullHash_range t h : 0 <= fullHash t h < 2 ^ 64.
Proof.
  rewrite fullHash_eq. pose proof (rt_val_range t). pose proof (Z.mod_pos_bound h (2 ^ 61)). lia.
Qed.

Lemma fullHash_type t h : getType (fullHash t h) = Some t.
Proof.
  unfold getType. rewrite fullHash_eq, Z.shiftr_div_pow2 by (compute; congruence).
  change (64 - resourceTypeBits) with 61.
  rewrite Z.div_add_l by lia. rewrite Z.div_small by (apply Z.mod_pos_bound; lia).
  by rewrite Z.add_0_r, rt_of_val.
Qed.

Lemma fullHash_hashId t h : getHashId (fullHash t h) = h mod 2 ^ 61.
Proof.
  unfold getHashId. rewrite hashMask_land, fullHash_eq.
  rewrite Z.add_comm, Z.mod_add by lia. by rewrite Z.mod_mod by lia.
Qed.

Lemma fullHash_lt t1 h1 t2 h2 :
  lt (fullHash t1 h1) (fullHash t2 h2) = true ↔
  rt_val t1 < rt_val t2 ∨ (t1 = t2 ∧ h1 mod 2 ^ 61 < h2 mod 2 ^ 61).
Proof.
  unfold lt. rewrite Z.ltb_lt, !fullHash_eq.
  pose proof (Z.mod_pos_bound h1 (2 ^ 61)). pose proof (Z.mod_pos_bound h2 (2 ^ 61)).
  split; [|intros [?|[-> ?]]; lia].
  intros Hl. destruct (Z.lt_trichotomy (rt_val t1) (rt_val t2)) as [?|[E|?]]; [by left| |lia].
  right. split; [by destruct t1, t2|lia].
Qed.

End ResourceId.
