(* ===== verification/LockRequestList.v ===== *)
(** The intrusive doubly linked list of lock requests, with its pointers
    (src: db/concurrency/lock_request_list.h), and its refinement of the
    sequences that LockManager.v uses for the granted and conflict queues. *)
From S2P Require Import Prelude.

Module LockRequestList.

(** The [prev] and [next] fields of a request, and the heap of requests. *)
Record Node := mkNode { prev : option positive; next : option positive }.
Abbreviation Heap := (gmap positive Node).

Record List_ := mkList { _front : option positive; _back : option positive }.

Definition set_prev (x : positive) (p : option positive) (h : Heap) : option Heap :=
  nd ← h !! x; Some (<[x := mkNode p (next nd)]> h).
Definition set_next (x : positive) (n : option positive) (h : Heap) : option Heap :=
  nd ← h !! x; Some (<[x := mkNode (prev nd) n]> h).

Definition reset : List_ := mkList None None.

Definition empty (L : List_) : bool := bool_decide (_front L = None).

Definition push_front (request : positive) (h : Heap) (L : List_) : option (Heap * List_) :=
  nd ← h !! request;
  invariant (bool_decide (next nd = None)) ;;
  invariant (bool_decide (prev nd = None)) ;;
  match _front L with
  | None => Some (h, mkList (Some request) (Some request))
  | Some f =>
      h ← set_next request (Some f) h;
      h ← set_prev f (Some request) h;
      Some (h, mkList (Some request) (_back L))
  end.

(** [_back->next] dereferences [_back]: null there is a crash. *)
Definition push_back (request : positive) (h : Heap) (L : List_) : option (Heap * List_) :=
  nd ← h !! request;
  invariant (bool_decide (next nd = None)) ;;
  invariant (bool_decide (prev nd = None)) ;;
  match _front L with
  | None => Some (h, mkList (Some request) (Some request))
  | Some _ =>
      h ← set_prev request (_back L) h;
      b ← _back L;
      h ← set_next b (Some request) h;
      Some (h, mkList (_front L) (Some request))
  end.

Definition remove (request : positive) (h : Heap) (L : List_) : option (Heap * List_) :=
  nd ← h !! request;
  '(h, L) ← match prev nd with
            | Some p => h ← set_next p (next nd) h; Some (h, L)
            | None => Some (h, mkList (next nd) (_back L))
            end;
  nd ← h !! request;
  '(h, L) ← match next nd with
            | Some n => h ← set_prev n (prev nd) h; Some (h, L)
            | None => Some (h, mkList (_front L) (prev nd))
            end;
  h ← set_prev request None h;
  h ← set_next request None h;
  Some (h, L).

(** The loop [for (it = _front; it != nullptr; it = it->next)]. *)
Fixpoint walk (fuel : nat) (it : option positive) (h : Heap) : option (list positive) :=
  match it with
  | None => Some []
  | Some x =>
      match fuel with
      | O => None
      | S fuel' => nd ← h !! x; l ← walk fuel' (next nd) h; Some (x :: l)
      end
  end.

(** ** The abstraction *)

Definition first_or (l : list positive) (n : option positive) : option positive :=
  match l with [] => n | y :: _ => Some y end.
Definition last_or (l : list positive) (p : option positive) : option positive :=
  match last l with Some y => Some y | None => p end.

(** The nodes of [l] are linked in order, between [p] and [n]. *)
Fixpoint seg (h : Heap) (p : option positive) (l : list positive) (n : option positive) : Prop :=
  match l with
  | [] => True
  | x :: l' => h !! x = Some (mkNode p (first_or l' n)) ∧ seg h (Some x) l' n
  end.

Definition rep (h : Heap) (L : List_) (l : list positive) : Prop :=
  NoDup l ∧ seg h None l None ∧ _front L = first_or l None ∧ _back L = last_or l None.

Definition clean (h : Heap) (x : positive) : Prop := h !! x = Some (mkNode None None).

Inductive op := PushFront (x : positive) | PushBack (x : positive) | Remove (x : positive).

Definition cstep (o : op) (h : Heap) (L : List_) : option (Heap * List_) :=
  match o with
  | PushFront x => push_front x h L
  | PushBack x => push_back x h L
  | Remove x => remove x h L
  end.

Definition astep (o : op) (l : list positive) : list positive :=
  match o with
  | PushFront x => x :: l
  | PushBack x => l ++ [x]
  | Remove x => remove_id x l
  end.

(** When an operation is used properly. *)
Definition proper (o : op) (h : Heap) (l : list positive) : Prop :=
  match o with
  | PushFront x | PushBack x => clean h x ∧ (x ∉ l)
  | Remove x => x ∈ l
  end.

Definition target (o : op) : positive :=
  match o with PushFront x | PushBack x | Remove x => x end.

(** ** Lemmas *)

Lemma last_or_app l1 l2 p : last_or (l1 ++ l2) p = last_or l2 (last_or l1 p).
Proof. unfold last_or. rewrite last_app. by destruct (last l2). Qed.

Lemma last_or_cons x l p : last_or (x :: l) p = last_or l (Some x).
Proof. change (x :: l) with ([x] ++ l). by rewrite last_or_app. Qed.

Lemma first_or_app l1 l2 n : first_or (l1 ++ l2) n = first_or l1 (first_or l2 n).
Proof. by destruct l1. Qed.

Lemma seg_app h p l1 l2 n :
  seg h p (l1 ++ l2) n ↔ seg h p l1 (first_or l2 n) ∧ seg h (last_or l1 p) l2 n.
Proof.
  revert p. induction l1 as [|x l1 IH]; intros p; simpl; [tauto|].
  rewrite IH, first_or_app, last_or_cons. tauto.
Qed.

Lemma seg_frame h h' p l n :
  (∀ y, y ∈ l → h' !! y = h !! y) → seg h p l n → seg h' p l n.
Proof.
  revert p. induction l as [|x l IH]; intros p Hf; simpl; [done|]. intros [Hx Hl].
  split; [rewrite Hf; [done|left]|]. apply IH; [|done]. intros y Hy. apply Hf. by right.
Qed.

Lemma seg_insert_notin h p l n x nd :
  x ∉ l → seg h p l n → seg (<[x := nd]> h) p l n.
Proof.
  intros Hx. apply seg_frame. intros y Hy. rewrite lookup_insert_ne; [done|]. by intros ->.
Qed.

Lemma split_last l b : last_or l None = Some b → ∃ l0, l = l0 ++ [b].
Proof.
  unfold last_or. destruct (last l) eqn:E; [|done]. intros [= ->]. by apply last_Some.
Qed.

Lemma last_or_nonempty x l p : is_Some (last_or (x :: l) p).
Proof. rewrite last_or_cons. unfold last_or. destruct (last l); eauto. Qed.

Lemma walk_seg h p l fuel :
  (length l <= fuel)%nat → seg h p l None → walk fuel (first_or l None) h = Some l.
Proof.
  revert p fuel. induction l as [|x l IH]; intros p fuel Hl Hs; [by destruct fuel|].
  destruct fuel as [|fuel]; simpl in *; [lia|]. destruct Hs as [-> Hs]. simpl.
  rewrite (IH (Some x)) by (done || lia). done.
Qed.

Lemma push_front_ok x h L l :
  rep h L l → x ∉ l → clean h x →
  ∃ h' L', push_front x h L = Some (h', L') ∧ rep h' L' (x :: l) ∧
    ∀ y, y ∉ l → y ≠ x → h' !! y = h !! y.
Proof.
  intros (Hnd & Hs & Hf & Hb) Hx Hc. unfold push_front, clean in *. rewrite Hc. simpl.
  rewrite Hf.
  destruct l as [|f l]; simpl in *.
  - do 2 eexists. split; [done|]. split; [|done].
    split; [apply NoDup_singleton|]. repeat split; done.
  - destruct Hs as [Hff Hs]. apply NoDup_cons in Hnd as [Hfl Hnd].
    unfold set_next, set_prev. rewrite Hc. simpl.
    rewrite lookup_insert_ne by set_solver. rewrite Hff. simpl.
    do 2 eexists. split; [done|]. split.
    + split; [constructor; [done|by constructor]|]. simpl. split; [|split; [done|]].
      { split; [rewrite lookup_insert_ne by set_solver; by rewrite lookup_insert_eq|].
        split; [by rewrite lookup_insert_eq|].
        apply seg_insert_notin; [done|]. apply seg_insert_notin; [set_solver|done]. }
      rewrite Hb, !last_or_cons. done.
    + intros y Hy Hyx. rewrite !lookup_insert_ne by set_solver. done.
Qed.

Lemma push_back_ok x h L l :
  rep h L l → x ∉ l → clean h x →
  ∃ h' L', push_back x h L = Some (h', L') ∧ rep h' L' (l ++ [x]) ∧
    ∀ y, y ∉ l → y ≠ x → h' !! y = h !! y.
Proof.
  intros (Hnd & Hs & Hf & Hb) Hx Hc. unfold push_back, clean in *. rewrite Hc. simpl.
  rewrite Hf.
  destruct l as [|f l]; simpl in *.
  - do 2 eexists. split; [done|]. split; [|done].
    split; [apply NoDup_singleton|]. repeat split; done.
  - destruct (last_or_nonempty f l None) as [b Eb]. rewrite Eb in Hb.
    destruct (split_last _ _ Eb) as [l0 El].
    change (f :: l ++ [x]) with ((f :: l) ++ [x]). rewrite El in *.
    change (h !! f = _ ∧ _) with (seg h None (f :: l) None) in Hs. rewrite El in Hs.
    apply seg_app in Hs as [Hs0 [Hbb _]]. apply NoDup_app in Hnd as (Hnd0 & Hd & _).
    assert (b ∉ l0) as Hbl by (intros H; apply (Hd b H); left).
    unfold set_next, set_prev. rewrite Hc, Hb. simpl.
    rewrite lookup_insert_ne by set_solver. rewrite Hbb. simpl.
    do 2 eexists. split; [done|]. split.
    + split.
      { apply NoDup_app. split; [|split; [|apply NoDup_singleton]].
        - apply NoDup_app. split; [done|]. split; [done|apply NoDup_singleton].
        - intros y Hy. set_solver. }
      split; [|split].
      * rewrite <- app_assoc. apply seg_app. split.
        { apply seg_insert_notin; [done|]. apply seg_insert_notin; [set_solver|done]. }
        simpl. split; [by rewrite lookup_insert_eq|]. split; [|done].
        rewrite lookup_insert_ne by set_solver. by rewrite lookup_insert_eq.
      * simpl. rewrite <- El. done.
      * simpl. by rewrite last_or_app.
    + intros y Hy Hyx. rewrite !lookup_insert_ne by set_solver. done.
Qed.

(** Relinking the last, or the first, node of a segment. *)
Lemma seg_relink_last h p l a n n' :
  NoDup (l ++ [a]) → seg h p (l ++ [a]) n →
  h !! a = Some (mkNode (last_or l p) n) ∧
  seg (<[a := mkNode (last_or l p) n']> h) p (l ++ [a]) n'.
Proof.
  intros (Hnd & Hd & _)%NoDup_app [H1 [H2 _]]%seg_app. split; [done|].
  apply seg_app. split.
  - apply seg_insert_notin; [|done]. intros H. apply (Hd a H). left.
  - simpl. by rewrite lookup_insert_eq.
Qed.

Lemma seg_relink_first h p p' a l n :
  NoDup (a :: l) → seg h p (a :: l) n →
  h !! a = Some (mkNode p (first_or l n)) ∧
  seg (<[a := mkNode p' (first_or l n)]> h) p' (a :: l) n.
Proof.
  intros [Ha Hnd]%NoDup_cons [H1 H2]. split; [done|]. simpl.
  rewrite lookup_insert_eq. split; [done|]. by apply seg_insert_notin.
Qed.

Lemma last_or_case l p :
  (l = [] ∧ last_or l p = p) ∨ ∃ l0 a, l = l0 ++ [a] ∧ last_or l p = Some a.
Proof.
  destruct l as [|x l _] using rev_ind; [by left|]. right. exists l, x.
  by rewrite last_or_app.
Qed.

Lemma remove_id_mid (x : positive) l1 l2 : NoDup (l1 ++ x :: l2) → remove_id x (l1 ++ x :: l2) = l1 ++ l2.
Proof.
  intros (_ & Hd & Hnd)%NoDup_app. apply NoDup_cons in Hnd as [Hx _].
  rewrite remove_id_app, remove_id_cons_eq, remove_id_notin; [done| |done].
  intros H. apply (Hd x H). left.
Qed.

Lemma remove_ok x h L l :
  rep h L l → x ∈ l →
  ∃ h' L', remove x h L = Some (h', L') ∧ rep h' L' (remove_id x l) ∧ clean h' x ∧
    ∀ y, y ∉ l → h' !! y = h !! y.
Proof.
  intros (Hnd & Hs & Hf & Hb) Hx. apply list_elem_of_split in Hx as (l1 & l2 & ->).
  rewrite remove_id_mid by done.
  pose proof Hnd as (Hnd1 & Hd & Hnd2)%NoDup_app. pose proof Hnd2 as [Hx2 Hnd2']%NoDup_cons.
  assert (x ∉ l1) as Hx1 by (intros H; apply (Hd x H); left).
  assert (NoDup (l1 ++ l2)) as Hnd'.
  { apply NoDup_app. split; [done|]. split; [|done]. intros y Hy Hy2. apply (Hd y Hy). by right. }
  apply seg_app in Hs as [Hs1 [Hxx Hs2]]. simpl in Hs1.
  rewrite last_or_app, last_or_cons in Hb. rewrite first_or_app in Hf. simpl in Hf.
  unfold remove. rewrite Hxx. simpl.
  destruct (last_or_case l1 None) as [[-> E1]|(l0 & a & -> & E1)]; rewrite ?E1 in *;
    destruct l2 as [|b l2]; simpl; unfold set_next, set_prev.
  - rewrite Hxx. simpl. rewrite Hxx. simpl. rewrite lookup_insert_eq. simpl.
    do 2 eexists. split; [done|]. split; [repeat split; done|]. split.
    + unfold clean. by rewrite insert_insert_eq, lookup_insert_eq.
    + intros y Hy. rewrite !lookup_insert_ne by set_solver. done.
  - destruct (seg_relink_first h (Some x) None b l2 None) as [Hbb Hs2']; [done..|].
    rewrite Hxx. simpl. rewrite Hbb. simpl. rewrite lookup_insert_ne by set_solver.
    rewrite Hxx. simpl. rewrite lookup_insert_eq. simpl.
    do 2 eexists. split; [done|]. split; [|split].
    + split; [done|]. split; [|split; [done|]].
      * apply seg_insert_notin; [done|]. by apply seg_insert_notin.
      * simpl. rewrite Hb, !last_or_cons. done.
    + unfold clean. by rewrite lookup_insert_eq.
    + intros y Hy. rewrite !lookup_insert_ne by set_solver. done.
  - destruct (seg_relink_last h None l0 a (Some x) None) as [Haa Hs1']; [done..|].
    rewrite Haa. simpl. rewrite lookup_insert_ne by set_solver. rewrite Hxx. simpl.
    rewrite lookup_insert_ne by set_solver. rewrite Hxx. simpl. rewrite lookup_insert_eq. simpl.
    do 2 eexists. split; [done|]. rewrite app_nil_r. split; [|split].
    + split; [done|]. split; [|split].
      * apply seg_insert_notin; [done|]. by apply seg_insert_notin.
      * rewrite Hf. by destruct l0.
      * done.
    + unfold clean. by rewrite lookup_insert_eq.
    + intros y Hy. rewrite !lookup_insert_ne by set_solver. done.
  - destruct (seg_relink_last h None l0 a (Some x) (Some b)) as [Haa Hs1']; [done..|].
    destruct (seg_relink_first h (Some x) (Some a) b l2 None) as [Hbb Hs2']; [done..|].
    assert (a ≠ b) as Hab by set_solver.
    rewrite Haa. simpl. rewrite lookup_insert_ne by set_solver. rewrite Hxx. simpl.
    rewrite lookup_insert_ne by done. rewrite Hbb. simpl.
    rewrite lookup_insert_ne by set_solver. rewrite lookup_insert_ne by set_solver.
    rewrite Hxx. simpl. rewrite lookup_insert_eq. simpl.
    do 2 eexists. split; [done|]. split; [|split].
    + split; [done|]. split; [|split].
      * apply seg_insert_notin; [set_solver|]. apply seg_insert_notin; [set_solver|].
        apply seg_app. simpl first_or. split.
        { apply seg_insert_notin; [set_solver|]. done. }
        rewrite last_or_app. simpl last_or.
        rewrite insert_insert_ne by done. apply seg_insert_notin; [set_solver|done].
      * simpl. rewrite Hf. by destruct l0.
      * simpl. rewrite Hb, !last_or_app, !last_or_cons. done.
    + unfold clean. by rewrite lookup_insert_eq.
    + intros y Hy. rewrite !lookup_insert_ne by set_solver. done.
Qed.

(** ** The refinement *)

(** C24: the list refines a sequence: a proper operation on a well-formed
    list never trips an invariant or a null pointer, turns the list into the one
    of the abstract operation, leaves a removed node clean and no other node
    changed, and the traversal the lock manager runs then yields the sequence. *)
Theorem list_refines o h L l :
  rep h L l → proper o h l →
  ∃ h' L', cstep o h L = Some (h', L') ∧ rep h' L' (astep o l) ∧
    (∀ y, y ∉ l → y ≠ target o → h' !! y = h !! y) ∧
    (∀ x, o = Remove x → clean h' x) ∧
    walk (length (astep o l)) (_front L') h' = Some (astep o l).
Proof.
  intros H Hp.
  assert (∀ h' L' l', rep h' L' l' → walk (length l') (_front L') h' = Some l') as Hw.
  { intros h' L' l' (_ & Hs & -> & _). by eapply walk_seg. }
  destruct o as [x|x|x]; cbn [cstep astep proper target] in *.
  - destruct Hp as [Hc Hx]. destruct (push_front_ok x h L l H Hx Hc) as (h' & L' & E & R & F).
    exists h', L'. split; [done|]. split; [done|]. split; [exact F|]. split; [done|]. by apply Hw.
  - destruct Hp as [Hc Hx]. destruct (push_back_ok x h L l H Hx Hc) as (h' & L' & E & R & F).
    exists h', L'. split; [done|]. split; [done|]. split; [exact F|]. split; [done|]. by apply Hw.
  - destruct (remove_ok x h L l H Hp) as (h' & L' & E & R & C & F).
    exists h', L'. split; [done|]. split; [done|]. split; [auto|].
    split; [by intros ? [= ->]|]. by apply Hw.
Qed.

Definition demo_heap : Heap :=
  <[1%positive := mkNode None (Some 2%positive)]>
   (<[2%positive := mkNode (Some 1%positive) (Some 3%positive)]>
    (<[3%positive := mkNode (Some 2%positive) None]> ∅)).

Lemma list_refines_witness :
  ∃ h' L', cstep (Remove 2) demo_heap (mkList (Some 1%positive) (Some 3%positive)) = Some (h', L') ∧
    walk 2 (_front L') h' = Some [1; 3]%positive.
Proof.
  destruct (list_refines (Remove 2) demo_heap (mkList (Some 1%positive) (Some 3%positive))
              [1; 2; 3]%positive) as (h' & L' & E & _ & _ & _ & W).
  - split; [|by repeat split].
    apply (bool_decide_unpack _). vm_compute. exact I.
  - simpl. set_solver.
  - exists h', L'. split; [exact E|]. exact W.
Defined.

End LockRequestList.
