(* ===== verification/LockManager.v ===== *)
(** The lock manager: requests, lock heads, partitioned lock heads and the
    operations [lock], [convert], [unlock], [downgrade] and
    [cleanupUnusedLocks] (src: db/concurrency/lock_manager.cpp, lock_manager.h,
    lock_manager_defs.h).

    A [LockRequest*] is a key of the request heap, a [LockHead*] is the resource
    id it is filed under, a [PartitionedLockHead*] is the pair of a partition
    index and a resource id.  The intrusive lists are sequences of request keys;
    the pointer-level list is in LockRequestList.v.  Each operation is one atomic
    step, as it runs under the bucket's or the partition's mutex; [lock] takes
    the two mutexes one after the other and is therefore two steps, and so is [unlock], which
    counts a reference less and reads the status before it takes one. *)
From S2P Require Import Prelude LockModes.

Abbreviation ReqId := positive (only parsing).
Abbreviation ResourceId := Z (only parsing).

(** ** Data *)

Inductive Status := STATUS_NEW | STATUS_GRANTED | STATUS_WAITING | STATUS_CONVERTING.

#[export] Instance Status_eq_dec : EqDecision Status.
Proof. solve_decision. Defined.

(** [unlockPending], which only the owning Locker reads and writes, is in the
    Locker's entry for the request (Locker.v). *)
Record LockRequest := mkRequest {
  lr_locker : Z;
  lr_enqueueAtFront : bool;
  lr_compatibleFirst : bool;
  lr_partitioned : bool;
  lr_recursiveCount : Z;
  lr_lock : option ResourceId;
  lr_partitionedLock : option (Z * ResourceId);
  lr_status : Status;
  lr_mode : LockMode;
  lr_convertMode : LockMode
}.

(** [LockRequest::initNew]. *)
Definition initNew (locker : Z) : LockRequest :=
  mkRequest locker false false false 1 None None STATUS_NEW MODE_NONE MODE_NONE.

Definition set_flags (front compat : bool) (q : LockRequest) : LockRequest :=
  mkRequest (lr_locker q) front compat (lr_partitioned q) (lr_recursiveCount q) (lr_lock q)
    (lr_partitionedLock q) (lr_status q) (lr_mode q) (lr_convertMode q).
Definition set_partitioned (b : bool) (q : LockRequest) : LockRequest :=
  mkRequest (lr_locker q) (lr_enqueueAtFront q) (lr_compatibleFirst q) b (lr_recursiveCount q)
    (lr_lock q) (lr_partitionedLock q) (lr_status q) (lr_mode q) (lr_convertMode q).
Definition set_recursiveCount (n : Z) (q : LockRequest) : LockRequest :=
  mkRequest (lr_locker q) (lr_enqueueAtFront q) (lr_compatibleFirst q) (lr_partitioned q) n
    (lr_lock q) (lr_partitionedLock q) (lr_status q) (lr_mode q) (lr_convertMode q).
Definition set_lock (l : option ResourceId) (q : LockRequest) : LockRequest :=
  mkRequest (lr_locker q) (lr_enqueueAtFront q) (lr_compatibleFirst q) (lr_partitioned q)
    (lr_recursiveCount q) l (lr_partitionedLock q) (lr_status q) (lr_mode q)
    (lr_convertMode q).
Definition set_partitionedLock (l : option (Z * ResourceId)) (q : LockRequest) : LockRequest :=
  mkRequest (lr_locker q) (lr_enqueueAtFront q) (lr_compatibleFirst q) (lr_partitioned q)
    (lr_recursiveCount q) (lr_lock q) l (lr_status q) (lr_mode q) (lr_convertMode q).
Definition set_status (st : Status) (q : LockRequest) : LockRequest :=
  mkRequest (lr_locker q) (lr_enqueueAtFront q) (lr_compatibleFirst q) (lr_partitioned q)
    (lr_recursiveCount q) (lr_lock q) (lr_partitionedLock q) st (lr_mode q) (lr_convertMode q).
Definition set_mode (m : LockMode) (q : LockRequest) : LockRequest :=
  mkRequest (lr_locker q) (lr_enqueueAtFront q) (lr_compatibleFirst q) (lr_partitioned q)
    (lr_recursiveCount q) (lr_lock q) (lr_partitionedLock q) (lr_status q) m (lr_convertMode q).
Definition set_convertMode (m : LockMode) (q : LockRequest) : LockRequest :=
  mkRequest (lr_locker q) (lr_enqueueAtFront q) (lr_compatibleFirst q) (lr_partitioned q)
    (lr_recursiveCount q) (lr_lock q) (lr_partitionedLock q) (lr_status q) (lr_mode q) m.
Abbreviation ReqMap := (gmap positive LockRequest).
Abbreviation Counts := (LockMode → Z).

Record LockHead := mkHead {
  lh_resourceId : ResourceId;
  lh_grantedList : list ReqId;
  lh_grantedCounts : Counts;
  lh_grantedModes : Z;
  lh_conflictList : list ReqId;
  lh_conflictCounts : Counts;
  lh_conflictModes : Z;
  lh_partitions : list Z;
  lh_conversionsCount : Z;
  lh_compatibleFirstCount : Z
}.

(** The notifications delivered so far, oldest first. *)
Abbreviation Notes := (list (positive * Z * LockResult)).

(** [LockHead::initNew] on a freshly allocated head. *)
Definition LockHead_initNew (resId : ResourceId) : LockHead :=
  mkHead resId [] (λ _, 0) 0 [] (λ _, 0) 0 [] 0 0.

(** ** LockHead *)

Module LockHead.

Definition with_granted (l : list ReqId) (h : LockHead) : LockHead :=
  mkHead (lh_resourceId h) l (lh_grantedCounts h) (lh_grantedModes h) (lh_conflictList h)
    (lh_conflictCounts h) (lh_conflictModes h) (lh_partitions h) (lh_conversionsCount h)
    (lh_compatibleFirstCount h).
Definition with_gcounts (c : Counts) (m : Z) (h : LockHead) : LockHead :=
  mkHead (lh_resourceId h) (lh_grantedList h) c m (lh_conflictList h)
    (lh_conflictCounts h) (lh_conflictModes h) (lh_partitions h) (lh_conversionsCount h)
    (lh_compatibleFirstCount h).
Definition with_conflict (l : list ReqId) (h : LockHead) : LockHead :=
  mkHead (lh_resourceId h) (lh_grantedList h) (lh_grantedCounts h) (lh_grantedModes h) l
    (lh_conflictCounts h) (lh_conflictModes h) (lh_partitions h) (lh_conversionsCount h)
    (lh_compatibleFirstCount h).
Definition with_ccounts (c : Counts) (m : Z) (h : LockHead) : LockHead :=
  mkHead (lh_resourceId h) (lh_grantedList h) (lh_grantedCounts h) (lh_grantedModes h)
    (lh_conflictList h) c m (lh_partitions h) (lh_conversionsCount h)
    (lh_compatibleFirstCount h).
Definition with_partitions (l : list Z) (h : LockHead) : LockHead :=
  mkHead (lh_resourceId h) (lh_grantedList h) (lh_grantedCounts h) (lh_grantedModes h)
    (lh_conflictList h) (lh_conflictCounts h) (lh_conflictModes h) l (lh_conversionsCount h)
    (lh_compatibleFirstCount h).
Definition with_conversions (n : Z) (h : LockHead) : LockHead :=
  mkHead (lh_resourceId h) (lh_grantedList h) (lh_grantedCounts h) (lh_grantedModes h)
    (lh_conflictList h) (lh_conflictCounts h) (lh_conflictModes h) (lh_partitions h) n
    (lh_compatibleFirstCount h).
Definition with_compatibleFirst (n : Z) (h : LockHead) : LockHead :=
  mkHead (lh_resourceId h) (lh_grantedList h) (lh_grantedCounts h) (lh_grantedModes h)
    (lh_conflictList h) (lh_conflictCounts h) (lh_conflictModes h) (lh_partitions h)
    (lh_conversionsCount h) n.

(** [partitioned()]. *)
Definition is_partitioned (h : LockHead) : bool :=
  negb (bool_decide (lh_partitions h = [])).

(** The search of one of the two queues by [findRequest]. *)
Fixpoint findIn (rm : ReqMap) (lockerId : Z) (l : list ReqId) : option ReqId :=
  match l with
  | [] => None
  | it :: l' =>
      q ← rm !! it;
      if lr_locker q =? lockerId then Some it else findIn rm lockerId l'
  end.

Definition findRequest (rm : ReqMap) (h : LockHead) (lockerId : Z) : option ReqId :=
  match findIn rm lockerId (lh_grantedList h) with
  | Some r => Some r
  | None => findIn rm lockerId (lh_conflictList h)
  end.

Definition incGrantedModeCount (m : LockMode) (h : LockHead) : option LockHead :=
  let c := lh_grantedCounts h m + 1 in
  let counts := <[m := c]> (lh_grantedCounts h) in
  if c =? 1 then
    invariant (Z.land (lh_grantedModes h) (modeMask m) =? 0) ;;
    Some (with_gcounts counts (Z.lor (lh_grantedModes h) (modeMask m)) h)
  else Some (with_gcounts counts (lh_grantedModes h) h).

Definition decGrantedModeCount (m : LockMode) (h : LockHead) : option LockHead :=
  invariant (1 <=? lh_grantedCounts h m) ;;
  let c := lh_grantedCounts h m - 1 in
  let counts := <[m := c]> (lh_grantedCounts h) in
  if c =? 0 then
    invariant (Z.land (lh_grantedModes h) (modeMask m) =? modeMask m) ;;
    Some (with_gcounts counts (Z.ldiff (lh_grantedModes h) (modeMask m)) h)
  else Some (with_gcounts counts (lh_grantedModes h) h).

Definition incConflictModeCount (m : LockMode) (h : LockHead) : option LockHead :=
  let c := lh_conflictCounts h m + 1 in
  let counts := <[m := c]> (lh_conflictCounts h) in
  if c =? 1 then
    invariant (Z.land (lh_conflictModes h) (modeMask m) =? 0) ;;
    Some (with_ccounts counts (Z.lor (lh_conflictModes h) (modeMask m)) h)
  else Some (with_ccounts counts (lh_conflictModes h) h).

Definition decConflictModeCount (m : LockMode) (h : LockHead) : option LockHead :=
  invariant (1 <=? lh_conflictCounts h m) ;;
  let c := lh_conflictCounts h m - 1 in
  let counts := <[m := c]> (lh_conflictCounts h) in
  if c =? 0 then
    invariant (Z.land (lh_conflictModes h) (modeMask m) =? modeMask m) ;;
    Some (with_ccounts counts (Z.ldiff (lh_conflictModes h) (modeMask m)) h)
  else Some (with_ccounts counts (lh_conflictModes h) h).

(** [newRequest]: puts the request on the conflict or on the granted queue. *)
Definition newRequest (r : ReqId) (h : LockHead) (rm : ReqMap)
    : option (LockResult * LockHead * ReqMap) :=
  q ← rm !! r;
  invariant (bool_decide (lr_partitionedLock q = None)) ;;
  let q := set_lock (Some (lh_resourceId h)) q in
  if conflicts (lr_mode q) (lh_grantedModes h)
     || ((lh_compatibleFirstCount h =? 0) && conflicts (lr_mode q) (lh_conflictModes h))
  then
    let q := set_status STATUS_WAITING q in
    let h := if lr_enqueueAtFront q then with_conflict (r :: lh_conflictList h) h
             else with_conflict (lh_conflictList h ++ [r]) h in
    h ← incConflictModeCount (lr_mode q) h;
    Some (LOCK_WAITING, h, <[r := q]> rm)
  else
    let q := set_status STATUS_GRANTED q in
    let h := with_granted (lh_grantedList h ++ [r]) h in
    h ← incGrantedModeCount (lr_mode q) h;
    let h := if lr_compatibleFirst q
             then with_compatibleFirst (lh_compatibleFirstCount h + 1) h else h in
    Some (LOCK_OK, h, <[r := q]> rm).

(** The inner loop of [migratePartitionedLockHeads]: the requests of one
    partitioned lock head move to the lock head, front to back. *)
Fixpoint migrateRequests (l : list ReqId) (h : LockHead) (rm : ReqMap)
    : option (LockHead * ReqMap) :=
  match l with
  | [] => Some (h, rm)
  | request :: l' =>
      q ← rm !! request;
      '(res, h, rm) ← newRequest request h (<[request := set_partitionedLock None q]> rm);
      invariant (bool_decide (res = LOCK_OK)) ;;
      migrateRequests l' h rm
  end.

(** The outer loop, over the partitions in the order it visits them (last
    first).  [pd] is the partitions' data, keyed by partition and resource. *)
Fixpoint migratePartitions (ps : list Z) (h : LockHead) (rm : ReqMap)
    (pd : gmap (Z * Z) (list ReqId)) : option (LockHead * ReqMap * gmap (Z * Z) (list ReqId)) :=
  match ps with
  | [] => Some (h, rm, pd)
  | p :: ps' =>
      match pd !! (p, lh_resourceId h) with
      | Some l =>
          '(h, rm) ← migrateRequests l h rm;
          migratePartitions ps' h rm (delete (p, lh_resourceId h) pd)
      | None => migratePartitions ps' h rm pd
      end
  end.

Definition migratePartitionedLockHeads (h : LockHead) (rm : ReqMap)
    (pd : gmap (Z * Z) (list ReqId)) : option (LockHead * ReqMap * gmap (Z * Z) (list ReqId)) :=
  invariant (is_partitioned h) ;;
  invariant ((Z.ldiff (lh_grantedModes h) intentModes =? 0) && (lh_conflictModes h =? 0)) ;;
  '(h, rm, pd) ← migratePartitions (reverse (lh_partitions h)) h rm pd;
  Some (with_partitions [] h, rm, pd).

(** The granted modes without the contribution of one request, which is given
    as the number of times it is counted for each mode. *)
Definition grantedModesWithout (contrib : Counts) (h : LockHead) : Z :=
  foldl (λ acc m, if contrib m <? lh_grantedCounts h m then Z.lor acc (modeMask m) else acc)
    0 realModes.

End LockHead.

(** ** LockManager *)

Record LMState := mkLM {
  lm_requests : ReqMap;
  lm_heads : gmap Z LockHead;
  lm_partitions : gmap (Z * Z) (list ReqId);
  lm_notes : Notes
}.

Module LockManager.
Import LockHead.

Definition _numLockBuckets : Z := 128.
Definition _numPartitions : Z := 32.

(** The bucket a resource lives in.  The buckets partition the map [lm_heads]
    by this function; two resources of one bucket share only its mutex. *)
Definition _getBucket (resId : ResourceId) : Z := resId mod _numLockBuckets.

Definition _getPartition (q : LockRequest) : Z := lr_locker q mod _numPartitions.

(** [LockBucket::findOrInsert] and [Partition::findOrInsert]. *)
Definition head_findOrInsert (resId : ResourceId) (heads : gmap Z LockHead) : LockHead :=
  match heads !! resId with Some h => h | None => LockHead_initNew resId end.

Definition partition_findOrInsert (k : Z * Z) (pd : gmap (Z * Z) (list ReqId)) : list ReqId :=
  match pd !! k with Some l => l | None => [] end.

(** [PartitionedLockHead::newRequest] of the head at [k]. *)
Definition partition_newRequest (k : Z * Z) (l : list ReqId) (r : ReqId) (rm : ReqMap)
    (pd : gmap (Z * Z) (list ReqId)) : option (ReqMap * gmap (Z * Z) (list ReqId)) :=
  q ← rm !! r;
  invariant (lr_partitioned q) ;;
  invariant (bool_decide (lr_lock q = None)) ;;
  let q := set_status STATUS_GRANTED (set_partitionedLock (Some k) q) in
  Some (<[r := q]> rm, <[k := l ++ [r]]> pd).

(** First half of [lock], under the partition's mutex; the flag tells whether
    the fast path for intent locks served the request. *)
Definition lockFast (resId : ResourceId) (r : ReqId) (m : LockMode) (s : LMState)
    : option (bool * LMState) :=
  q ← lm_requests s !! r;
  invariant (bool_decide (lr_status q = STATUS_NEW)) ;;
  invariant (lr_recursiveCount q =? 1) ;;
  let q := set_mode m
    (set_partitioned (bool_decide (m = MODE_IX) || bool_decide (m = MODE_IS)) q) in
  let rm := <[r := q]> (lm_requests s) in
  let s1 := mkLM rm (lm_heads s) (lm_partitions s) (lm_notes s) in
  if lr_partitioned q then
    let k := (_getPartition q, resId) in
    match lm_partitions s !! k with
    | Some l =>
        '(rm, pd) ← partition_newRequest k l r rm (lm_partitions s);
        Some (true, mkLM rm (lm_heads s) pd (lm_notes s))
    | None => Some (false, s1)
    end
  else Some (false, s1).

(** Second half of [lock], under the bucket's mutex. *)
Definition lockSlow (resId : ResourceId) (r : ReqId) (s : LMState)
    : option (LockResult * LMState) :=
  q ← lm_requests s !! r;
  let h := head_findOrInsert resId (lm_heads s) in
  if lr_partitioned q && (Z.ldiff (lh_grantedModes h) intentModes =? 0)
     && (lh_conflictModes h =? 0)
  then
    let p := _getPartition q in
    let l := partition_findOrInsert (p, resId) (lm_partitions s) in
    let h := with_partitions (lh_partitions h ++ [p]) h in
    '(rm, pd) ← partition_newRequest (p, resId) l r (lm_requests s) (lm_partitions s);
    Some (LOCK_OK, mkLM rm (<[resId := h]> (lm_heads s)) pd (lm_notes s))
  else
    '(h, rm, pd) ← (if is_partitioned h
                    then migratePartitionedLockHeads h (lm_requests s) (lm_partitions s)
                    else Some (h, lm_requests s, lm_partitions s));
    q ← rm !! r;
    '(res, h, rm) ← newRequest r h (<[r := set_partitioned false q]> rm);
    Some (res, mkLM rm (<[resId := h]> (lm_heads s)) pd (lm_notes s)).

Definition lock (resId : ResourceId) (r : ReqId) (m : LockMode) (s : LMState)
    : option (LockResult * LMState) :=
  '(served, s) ← lockFast resId r m s;
  if (served : bool) then Some (LOCK_OK, s) else lockSlow resId r s.

(** The loop of [_onLockModeChanged] over the granted queue. *)
Fixpoint grantConversions (l : list ReqId) (h : LockHead) (rm : ReqMap) (nt : Notes)
    : option (LockHead * ReqMap * Notes) :=
  match l with
  | [] => Some (h, rm, nt)
  | iter :: l' =>
      if lh_conversionsCount h <=? 0 then Some (h, rm, nt) else
      q ← rm !! iter;
      if bool_decide (lr_status q = STATUS_CONVERTING) then
        invariant (negb (bool_decide (lr_convertMode q = MODE_NONE))) ;;
        invariant (negb (bool_decide (lr_mode q = lr_convertMode q ∧ lr_mode q ≠ MODE_NONE))) ;;
        let without := grantedModesWithout
          (λ m, (if decide (lr_mode q = m) then 1 else 0)
                + (if decide (lr_convertMode q = m) then 1 else 0)) h in
        if conflicts (lr_convertMode q) without then grantConversions l' h rm nt
        else
          let h := with_conversions (lh_conversionsCount h - 1) h in
          h ← decGrantedModeCount (lr_mode q) h;
          let q := set_convertMode MODE_NONE
                     (set_mode (lr_convertMode q) (set_status STATUS_GRANTED q)) in
          grantConversions l' h (<[iter := q]> rm) (nt ++ [(iter, lh_resourceId h, LOCK_OK)])
      else grantConversions l' h rm nt
  end.

(** The loop of [_onLockModeChanged] over the conflict queue.  [l] is the rest
    of the queue; [iter->prev] is null when [iter] is the queue's front. *)
Fixpoint grantConflicts (l : list ReqId) (newlyCompatibleFirst : bool) (h : LockHead)
    (rm : ReqMap) (nt : Notes) : option (LockHead * ReqMap * Notes) :=
  match l with
  | [] => Some (h, rm, nt)
  | iter :: iterNext =>
      q ← rm !! iter;
      invariant (bool_decide (lr_status q = STATUS_WAITING)) ;;
      if conflicts (lr_mode q) (lh_grantedModes h) then
        if bool_decide (head (lh_conflictList h) = Some iter) && negb newlyCompatibleFirst
        then Some (h, rm, nt)
        else grantConflicts iterNext newlyCompatibleFirst h rm nt
      else
        let q := set_status STATUS_GRANTED q in
        let h := with_conflict (remove_id iter (lh_conflictList h)) h in
        h ← decConflictModeCount (lr_mode q) h;
        let h := with_granted (lh_grantedList h ++ [iter]) h in
        h ← incGrantedModeCount (lr_mode q) h;
        let newly := newlyCompatibleFirst
                     || (lr_compatibleFirst q && (lh_compatibleFirstCount h =? 0)) in
        let h := if lr_compatibleFirst q
                 then with_compatibleFirst (lh_compatibleFirstCount h + 1) h else h in
        let rm := <[iter := q]> rm in
        let nt := nt ++ [(iter, lh_resourceId h, LOCK_OK)] in
        if bool_decide (lr_mode q = MODE_X) then Some (h, rm, nt)
        else grantConflicts iterNext newly h rm nt
  end.

Definition _onLockModeChanged (h : LockHead) (checkConflictQueue : bool) (rm : ReqMap)
    (nt : Notes) : option (LockHead * ReqMap * Notes) :=
  '(h, rm, nt) ← grantConversions (lh_grantedList h) h rm nt;
  '(h, rm, nt) ← (if checkConflictQueue then grantConflicts (lh_conflictList h) false h rm nt
                  else Some (h, rm, nt));
  invariant (xorb (lh_grantedModes h =? 0) (negb (bool_decide (lh_grantedList h = [])))) ;;
  invariant (xorb (lh_conflictModes h =? 0) (negb (bool_decide (lh_conflictList h = [])))) ;;
  Some (h, rm, nt).

Definition convert (resId : ResourceId) (r : ReqId) (newMode : LockMode) (s : LMState)
    : option (LockResult * LMState) :=
  q ← lm_requests s !! r;
  invariant (bool_decide (lr_status q = STATUS_GRANTED)) ;;
  invariant (0 <? lr_recursiveCount q) ;;
  let rm := <[r := set_recursiveCount (lr_recursiveCount q + 1) q]> (lm_requests s) in
  if Z.lor (LockConflictsTable (lr_mode q)) (LockConflictsTable newMode)
       =? LockConflictsTable (lr_mode q)
  then Some (LOCK_OK, mkLM rm (lm_heads s) (lm_partitions s) (lm_notes s))
  else
    invariant (Z.lor (LockConflictsTable (lr_mode q)) (LockConflictsTable newMode)
                 =? LockConflictsTable newMode) ;;
    h ← lm_heads s !! resId;
    '(h, rm, pd) ← (if is_partitioned h
                    then migratePartitionedLockHeads h rm (lm_partitions s)
                    else Some (h, rm, lm_partitions s));
    q ← rm !! r;
    let without := grantedModesWithout (λ m, if decide (lr_mode q = m) then 1 else 0) h in
    if conflicts newMode without then
      let q := set_convertMode newMode (set_status STATUS_CONVERTING q) in
      let h := with_conversions (lh_conversionsCount h + 1) h in
      h ← incGrantedModeCount (lr_convertMode q) h;
      Some (LOCK_WAITING, mkLM (<[r := q]> rm) (<[resId := h]> (lm_heads s)) pd (lm_notes s))
    else
      h ← incGrantedModeCount newMode h;
      h ← decGrantedModeCount (lr_mode q) h;
      Some (LOCK_OK, mkLM (<[r := set_mode newMode q]> rm) (<[resId := h]> (lm_heads s)) pd
                       (lm_notes s)).

(** The part of [unlock] that runs under the bucket's mutex.  The request's
    recursive count has already been decremented. *)
Definition unlockInHead (r : ReqId) (q : LockRequest) (s : LMState) : option LMState :=
  resId ← lr_lock q;
  h ← lm_heads s !! resId;
  let rm := lm_requests s in
  match lr_status q with
  | STATUS_GRANTED =>
      let h := with_granted (remove_id r (lh_grantedList h)) h in
      h ← decGrantedModeCount (lr_mode q) h;
      h ← (if lr_compatibleFirst q then
             invariant (0 <? lh_compatibleFirstCount h) ;;
             let h := with_compatibleFirst (lh_compatibleFirstCount h - 1) h in
             invariant ((lh_compatibleFirstCount h =? 0)
                        || negb (bool_decide (lh_grantedList h = []))) ;;
             Some h
           else Some h);
      '(h, rm, nt) ← _onLockModeChanged h (lh_grantedCounts h (lr_mode q) =? 0) rm (lm_notes s);
      Some (mkLM rm (<[resId := h]> (lm_heads s)) (lm_partitions s) nt)
  | STATUS_WAITING =>
      invariant (lr_recursiveCount q =? 0) ;;
      let h := with_conflict (remove_id r (lh_conflictList h)) h in
      h ← decConflictModeCount (lr_mode q) h;
      '(h, rm, nt) ← _onLockModeChanged h true rm (lm_notes s);
      Some (mkLM rm (<[resId := h]> (lm_heads s)) (lm_partitions s) nt)
  | STATUS_CONVERTING =>
      invariant (0 <? lr_recursiveCount q) ;;
      invariant (0 <? lh_conversionsCount h) ;;
      let q1 := set_status STATUS_GRANTED q in
      let h := with_conversions (lh_conversionsCount h - 1) h in
      h ← decGrantedModeCount (lr_convertMode q) h;
      let q1 := set_convertMode MODE_NONE q1 in
      '(h, rm, nt) ← _onLockModeChanged h (lh_grantedCounts h (lr_convertMode q1) =? 0)
                       (<[r := q1]> rm) (lm_notes s);
      Some (mkLM rm (<[resId := h]> (lm_heads s)) (lm_partitions s) nt)
  | STATUS_NEW => None
  end.

(** First half of [unlock], which takes no mutex: the flag tells whether the request keeps the
    lock, with fewer references. *)
Definition unlockFast (r : ReqId) (s : LMState) : option (bool * LMState) :=
  q ← lm_requests s !! r;
  invariant (0 <? lr_recursiveCount q) ;;
  let q := set_recursiveCount (lr_recursiveCount q - 1) q in
  Some (bool_decide (lr_status q = STATUS_GRANTED) && (0 <? lr_recursiveCount q),
        mkLM (<[r := q]> (lm_requests s)) (lm_heads s) (lm_partitions s) (lm_notes s)).

(** Second half of [unlock], under the mutex of the partition or, for a request that is not
    partitioned (any more), of the bucket. *)
Definition unlockSlow (r : ReqId) (s : LMState) : option (bool * LMState) :=
  q ← lm_requests s !! r;
  invariant (negb (lr_partitioned q)
             || bool_decide (lr_status q = STATUS_GRANTED)
             || bool_decide (lr_status q = STATUS_CONVERTING)) ;;
  match lr_partitioned q, lr_partitionedLock q with
  | true, Some k =>
      l ← lm_partitions s !! k;
      Some (true, mkLM (lm_requests s) (lm_heads s)
                    (<[k := remove_id r l]> (lm_partitions s)) (lm_notes s))
  | _, _ =>
      s ← unlockInHead r q s;
      Some (lr_recursiveCount q =? 0, s)
  end.

Definition unlock (r : ReqId) (s : LMState) : option (bool * LMState) :=
  '(kept, s) ← unlockFast r s;
  if (kept : bool) then Some (false, s) else unlockSlow r s.

Definition downgrade (r : ReqId) (newMode : LockMode) (s : LMState) : option LMState :=
  q ← lm_requests s !! r;
  resId ← lr_lock q;
  invariant (bool_decide (lr_status q = STATUS_GRANTED)) ;;
  invariant (0 <? lr_recursiveCount q) ;;
  invariant (Z.lor (LockConflictsTable (lr_mode q)) (LockConflictsTable newMode)
               =? LockConflictsTable (lr_mode q)) ;;
  h ← lm_heads s !! resId;
  h ← incGrantedModeCount newMode h;
  h ← decGrantedModeCount (lr_mode q) h;
  '(h, rm, nt) ← _onLockModeChanged h true (<[r := set_mode newMode q]> (lm_requests s))
                   (lm_notes s);
  Some (mkLM rm (<[resId := h]> (lm_heads s)) (lm_partitions s) nt).

(** One iteration of [_cleanupUnusedLocksInBucket], for the lock of [resId]. *)
Definition cleanupOne (resId : ResourceId) (s : LMState) : option LMState :=
  h ← lm_heads s !! resId;
  '(h, rm, pd) ← (if is_partitioned h
                  then migratePartitionedLockHeads h (lm_requests s) (lm_partitions s)
                  else Some (h, lm_requests s, lm_partitions s));
  if lh_grantedModes h =? 0 then
    invariant (bool_decide (lh_grantedList h = [])) ;;
    invariant (lh_conflictModes h =? 0) ;;
    invariant (bool_decide (lh_conflictList h = [])) ;;
    invariant (lh_conversionsCount h =? 0) ;;
    invariant (lh_compatibleFirstCount h =? 0) ;;
    Some (mkLM rm (delete resId (lm_heads s)) pd (lm_notes s))
  else Some (mkLM rm (<[resId := h]> (lm_heads s)) pd (lm_notes s)).

(** The visit of a list of locks, bucket after bucket. *)
Fixpoint cleanupList (l : list ResourceId) (s : LMState) : option LMState :=
  match l with
  | [] => Some s
  | resId :: l' => s ← cleanupOne resId s; cleanupList l' s
  end.

(** [cleanupUnusedLocks]: every lock of every bucket is visited once. *)
Definition cleanupUnusedLocks (s : LMState) : option LMState :=
  cleanupList (map_to_list (lm_heads s)).*1 s.

End LockManager.
