(* ===== verification/LockHeadInv.v ===== *)
(** The invariant of a lock head and its preservation by the operations on one
    lock head (new requests, the two grant loops, mode counts). *)
From S2P Require Import Prelude LockModes LockManager.
Import LockHead LockManager.

(** ** Counting the requests of a list *)

(** Sum of [g] over the requests of the list [l]. *)
Definition rsum (g : LockRequest → Z) (rm : ReqMap) (l : list ReqId) : Z :=
  lsum (λ r, from_option g 0 (rm !! r)) l.

(** How many times a request on the granted queue is counted for mode [m]: once
    for the mode it holds and once for the mode it waits to convert to. *)
Definition holds (m : LockMode) (q : LockRequest) : Z :=
  (if decide (lr_mode q = m) then 1 else 0)
  + (if decide (lr_status q = STATUS_CONVERTING ∧ lr_convertMode q = m) then 1 else 0).

Definition converting (q : LockRequest) : Z :=
  if decide (lr_status q = STATUS_CONVERTING) then 1 else 0.

Definition compatFirst (q : LockRequest) : Z := if lr_compatibleFirst q then 1 else 0.

Lemma holds_nonneg m q : 0 <= holds m q.
Proof. unfold holds. repeat case_decide; lia. Qed.
Lemma holds_mode q : 1 <= holds (lr_mode q) q.
Proof. unfold holds. rewrite decide_True by done. case_decide; lia. Qed.
Lemma holds_quiet m q :
  lr_status q ≠ STATUS_CONVERTING → holds m q = if decide (lr_mode q = m) then 1 else 0.
Proof. intros H. unfold holds. rewrite (decide_False (P := _ ∧ _)) by naive_solver. lia. Qed.
Lemma converting_quiet q : lr_status q ≠ STATUS_CONVERTING → converting q = 0.
Proof. intros H. unfold converting. by rewrite decide_False. Qed.
Lemma converting_nonneg q : 0 <= converting q.
Proof. unfold converting. case_decide; lia. Qed.
Lemma compatFirst_nonneg q : 0 <= compatFirst q.
Proof. unfold compatFirst. case_match; lia. Qed.
#[export] Hint Resolve holds_nonneg converting_nonneg compatFirst_nonneg : mongo.

Section Rsum.
Context (g : LockRequest → Z).
Implicit Types (rm : ReqMap) (l : list positive).

Lemma rsum_app rm l1 l2 : rsum g rm (l1 ++ l2) = rsum g rm l1 + rsum g rm l2.
Proof. apply lsum_app. Qed.

Lemma rsum_cons rm r l : rsum g rm (r :: l) = from_option g 0 (rm !! r) + rsum g rm l.
Proof. done. Qed.

Lemma rsum_nil rm : rsum g rm [] = 0.
Proof. done. Qed.

Lemma rsum_insert_notin rm l r q : r ∉ l → rsum g (<[r := q]> rm) l = rsum g rm l.
Proof.
  intros H. apply lsum_ext. intros y Hy. rewrite lookup_insert_ne; [done|].
  intros ->. done.
Qed.

Lemma rsum_insert_in rm l r q q' :
  NoDup l → r ∈ l → rm !! r = Some q →
  rsum g (<[r := q']> rm) l = rsum g rm l - g q + g q'.
Proof.
  intros Hnd Hr Hq. unfold rsum.
  rewrite (lsum_update (λ x, from_option g 0 (rm !! x)) _ l r Hnd Hr).
  - by rewrite lookup_insert_eq, Hq.
  - intros y Hy. by rewrite lookup_insert_ne.
Qed.

Lemma rsum_remove rm l r q :
  NoDup l → r ∈ l → rm !! r = Some q → rsum g rm (remove_id r l) = rsum g rm l - g q.
Proof. intros Hnd Hr Hq. unfold rsum. rewrite lsum_remove_id by done. by rewrite Hq. Qed.

Lemma rsum_frame rm rm' l :
  (∀ r, r ∈ l → rm' !! r = rm !! r) → rsum g rm' l = rsum g rm l.
Proof. intros H. apply lsum_ext. intros y Hy. by rewrite H. Qed.

Hypothesis g_nonneg : ∀ q, 0 <= g q.

Lemma rsum_nonneg rm l : 0 <= rsum g rm l.
Proof. apply lsum_nonneg. intros x _. destruct (rm !! x); simpl; [auto|lia]. Qed.

Lemma rsum_elem rm l r q : r ∈ l → rm !! r = Some q → g q <= rsum g rm l.
Proof.
  intros Hr Hq. unfold rsum.
  pose proof (lsum_elem (λ x, from_option g 0 (rm !! x)) l r) as H. simpl in H.
  rewrite Hq in H. apply H; [|done]. intros y _. destruct (rm !! y); simpl; [auto|lia].
Qed.

Lemma rsum_pair rm l r1 r2 q1 q2 :
  NoDup l → r1 ∈ l → r2 ∈ l → r1 ≠ r2 → rm !! r1 = Some q1 → rm !! r2 = Some q2 →
  g q1 + g q2 <= rsum g rm l.
Proof.
  intros Hnd H1 H2 Hne Hq1 Hq2. unfold rsum.
  pose proof (lsum_pair (λ x, from_option g 0 (rm !! x)) l r1 r2) as H. simpl in H.
  rewrite Hq1, Hq2 in H. apply H; [|done..].
  intros y _. destruct (rm !! y); simpl; [auto|lia].
Qed.
End Rsum.

(** ** Mode counts *)

(** The mask that belongs to an array of counts. *)
Definition mask_for (c : Counts) : Z := mask_of (λ m, 0 <? c m).

Lemma counts_insert (c : Counts) m v m' :
  (<[m := v]> c : Counts) m' = if decide (m = m') then v else c m'.
Proof. reflexivity. Qed.

Lemma inc_mask (c : Counts) m :
  (∀ m, 0 <= c m) → Z.lor (mask_for c) (modeMask m) = mask_for (<[m := c m + 1]> c).
Proof.
  intros Hc. unfold mask_for. rewrite mask_of_set. apply mask_of_ext. intros m'.
  rewrite counts_insert. pose proof (Hc m). repeat case_decide; simplify_eq; [lia|done].
Qed.

Lemma inc_mask_same (c : Counts) m :
  0 < c m → mask_for c = mask_for (<[m := c m + 1]> c).
Proof.
  intros Hc. apply mask_of_ext. intros m'. rewrite counts_insert. case_decide; simplify_eq; lia.
Qed.

Lemma dec_mask (c : Counts) m :
  c m = 1 → Z.ldiff (mask_for c) (modeMask m) = mask_for (<[m := 0]> c).
Proof.
  intros Hc. unfold mask_for. rewrite mask_of_clear. apply mask_of_ext. intros m'.
  rewrite counts_insert. repeat case_decide; simplify_eq; done.
Qed.

Lemma dec_mask_same (c : Counts) m :
  1 < c m → mask_for c = mask_for (<[m := c m - 1]> c).
Proof.
  intros Hc. apply mask_of_ext. intros m'. rewrite counts_insert. case_decide; simplify_eq; lia.
Qed.

(** The four count operations succeed on a consistent head and keep it so. *)
Lemma incGranted_spec m h :
  (∀ m, 0 <= lh_grantedCounts h m) → lh_grantedModes h = mask_for (lh_grantedCounts h) →
  let c := <[m := lh_grantedCounts h m + 1]> (lh_grantedCounts h) in
  incGrantedModeCount m h = Some (with_gcounts c (mask_for c) h).
Proof.
  intros Hc Hm c. unfold incGrantedModeCount, c. pose proof (Hc m).
  destruct (_ =? 1) eqn:E; to_prop.
  - rewrite Hm. unfold mask_for at 1. rewrite mask_of_test.
    replace (0 <? _) with false by lia. simpl. by rewrite inc_mask.
  - rewrite Hm, (inc_mask_same _ m) by lia. done.
Qed.

Lemma decGranted_spec m h :
  1 <= lh_grantedCounts h m → lh_grantedModes h = mask_for (lh_grantedCounts h) →
  let c := <[m := lh_grantedCounts h m - 1]> (lh_grantedCounts h) in
  decGrantedModeCount m h = Some (with_gcounts c (mask_for c) h).
Proof.
  intros Hc Hm c. unfold decGrantedModeCount, c.
  replace (1 <=? _) with true by lia.
  destruct (_ =? 0) eqn:E; to_prop.
  - rewrite Hm. unfold mask_for at 1. rewrite mask_of_test.
    replace (0 <? _) with true by lia. rewrite Z.eqb_refl, dec_mask by lia.
    by replace (_ - 1) with 0 by lia.
  - rewrite Hm, (dec_mask_same _ m) by lia. done.
Qed.

Lemma incConflict_spec m h :
  (∀ m, 0 <= lh_conflictCounts h m) → lh_conflictModes h = mask_for (lh_conflictCounts h) →
  let c := <[m := lh_conflictCounts h m + 1]> (lh_conflictCounts h) in
  incConflictModeCount m h = Some (with_ccounts c (mask_for c) h).
Proof.
  intros Hc Hm c. unfold incConflictModeCount, c. pose proof (Hc m).
  destruct (_ =? 1) eqn:E; to_prop.
  - rewrite Hm. unfold mask_for at 1. rewrite mask_of_test.
    replace (0 <? _) with false by lia. simpl. by rewrite inc_mask.
  - rewrite Hm, (inc_mask_same _ m) by lia. done.
Qed.

Lemma decConflict_spec m h :
  1 <= lh_conflictCounts h m → lh_conflictModes h = mask_for (lh_conflictCounts h) →
  let c := <[m := lh_conflictCounts h m - 1]> (lh_conflictCounts h) in
  decConflictModeCount m h = Some (with_ccounts c (mask_for c) h).
Proof.
  intros Hc Hm c. unfold decConflictModeCount, c.
  replace (1 <=? _) with true by lia.
  destruct (_ =? 0) eqn:E; to_prop.
  - rewrite Hm. unfold mask_for at 1. rewrite mask_of_test.
    replace (0 <? _) with true by lia. rewrite Z.eqb_refl, dec_mask by lia.
    by replace (_ - 1) with 0 by lia.
  - rewrite Hm, (dec_mask_same _ m) by lia. done.
Qed.

Lemma compatible_sym m1 m2 : compatible m1 m2 = compatible m2 m1.
Proof. by destruct m1, m2. Qed.

Lemma conflicts_mask_for m (c : Counts) :
  conflicts m (mask_for c) = false ↔ ∀ m', 0 < c m' → compatible m m' = true.
Proof.
  unfold mask_for. rewrite conflicts_mask_of. split; intros H m' Hm'; apply H; lia.
Qed.

Lemma mask_for_zero c : (∀ m, 0 <= c m) → mask_for c = 0 ↔ ∀ m, c m = 0.
Proof.
  intros Hc. unfold mask_for. rewrite mask_of_zero.
  split; intros H m; specialize (H m); specialize (Hc m); lia.
Qed.

(** ** The invariant *)

(** A request on the granted queue of the lock of [res]. *)
Definition granted_ok (res : ResourceId) (q : LockRequest) : Prop :=
  lr_lock q = Some res ∧ lr_partitionedLock q = None ∧ lr_mode q ≠ MODE_NONE ∧
  ((lr_status q = STATUS_GRANTED ∧ lr_convertMode q = MODE_NONE ∧ 0 < lr_recursiveCount q) ∨
   (lr_status q = STATUS_CONVERTING ∧ lr_convertMode q ≠ MODE_NONE ∧
    lr_convertMode q ≠ lr_mode q ∧ 1 < lr_recursiveCount q)).

(** A request on the conflict queue. *)
Definition waiting_ok (res : ResourceId) (q : LockRequest) : Prop :=
  lr_lock q = Some res ∧ lr_partitionedLock q = None ∧ lr_mode q ≠ MODE_NONE ∧
  lr_status q = STATUS_WAITING ∧ lr_convertMode q = MODE_NONE ∧
  lr_recursiveCount q = 1 ∧ lr_partitioned q = false.

Definition is_intent (m : LockMode) : Prop := m = MODE_IS ∨ m = MODE_IX.

(** Everything but the progress clause, which the grant loops restore. *)
Record HCore (h : LockHead) (rm : ReqMap) : Prop := {
  hc_nodup_g : NoDup (lh_grantedList h);
  hc_nodup_c : NoDup (lh_conflictList h);
  hc_granted : ∀ r, r ∈ lh_grantedList h →
    ∃ q, rm !! r = Some q ∧ granted_ok (lh_resourceId h) q;
  hc_conflict : ∀ r, r ∈ lh_conflictList h →
    ∃ q, rm !! r = Some q ∧ waiting_ok (lh_resourceId h) q;
  hc_gcounts : ∀ m, lh_grantedCounts h m = rsum (holds m) rm (lh_grantedList h);
  hc_gmodes : lh_grantedModes h = mask_for (lh_grantedCounts h);
  hc_ccounts : ∀ m, lh_conflictCounts h m = rsum (holds m) rm (lh_conflictList h);
  hc_cmodes : lh_conflictModes h = mask_for (lh_conflictCounts h);
  hc_conv : lh_conversionsCount h = rsum converting rm (lh_grantedList h);
  hc_cf : lh_compatibleFirstCount h = rsum compatFirst rm (lh_grantedList h);
  hc_compat : ∀ r1 r2 q1 q2, r1 ∈ lh_grantedList h → r2 ∈ lh_grantedList h → r1 ≠ r2 →
    rm !! r1 = Some q1 → rm !! r2 = Some q2 → compatible (lr_mode q1) (lr_mode q2) = true;
  hc_parts : lh_partitions h ≠ [] →
    (∀ m, 0 < lh_grantedCounts h m → is_intent m) ∧ lh_conflictList h = []
}.

(** Nobody waits for a lock that nobody holds. *)
Definition no_idle_wait (h : LockHead) : Prop :=
  lh_conflictList h ≠ [] → lh_grantedList h ≠ [].

Definition HInv (h : LockHead) (rm : ReqMap) : Prop := HCore h rm ∧ no_idle_wait h.

(** All the requests filed on a head. *)
Definition members (h : LockHead) : list ReqId := lh_grantedList h ++ lh_conflictList h.

Section HCoreFacts.
Context (h : LockHead) (rm : ReqMap) (H : HCore h rm).

Lemma hc_gcounts_nonneg m : 0 <= lh_grantedCounts h m.
Proof. rewrite (hc_gcounts h rm H). apply rsum_nonneg. auto with mongo. Qed.

Lemma hc_ccounts_nonneg m : 0 <= lh_conflictCounts h m.
Proof. rewrite (hc_ccounts h rm H). apply rsum_nonneg. auto with mongo. Qed.

Lemma hc_gcount_elem r q m :
  r ∈ lh_grantedList h → rm !! r = Some q → holds m q <= lh_grantedCounts h m.
Proof. intros Hr Hq. rewrite (hc_gcounts h rm H). apply rsum_elem with r; auto with mongo. Qed.

Lemma hc_gcount_pos r q :
  r ∈ lh_grantedList h → rm !! r = Some q → 0 < lh_grantedCounts h (lr_mode q).
Proof.
  intros Hr Hq. pose proof (hc_gcount_elem r q (lr_mode q) Hr Hq).
  pose proof (holds_mode q). lia.
Qed.

Lemma hc_ccount_pos r q :
  r ∈ lh_conflictList h → rm !! r = Some q → 0 < lh_conflictCounts h (lr_mode q).
Proof.
  intros Hr Hq. rewrite (hc_ccounts h rm H).
  pose proof (rsum_elem (holds (lr_mode q)) (holds_nonneg _) rm _ r q Hr Hq).
  pose proof (holds_mode q). lia.
Qed.

Lemma hc_disjoint r : r ∈ lh_grantedList h → r ∈ lh_conflictList h → False.
Proof.
  intros Hg Hc. destruct (hc_granted h rm H r Hg) as (q & Hq & G).
  destruct (hc_conflict h rm H r Hc) as (q' & Hq' & C). simplify_eq.
  destruct G as (_ & _ & _ & [(G & _)|(G & _)]), C as (_ & _ & _ & C & _); congruence.
Qed.

(** The counts that are all zero belong to an empty queue. *)
Lemma hc_granted_empty : lh_grantedModes h = 0 ↔ lh_grantedList h = [].
Proof.
  rewrite (hc_gmodes h rm H), mask_for_zero by apply hc_gcounts_nonneg. split.
  - intros Hz. destruct (lh_grantedList h) as [|r l] eqn:E; [done|].
    destruct (hc_granted h rm H r) as (q & Hq & _); [rewrite E; left|].
    pose proof (hc_gcount_pos r q) as P. rewrite E, Hz in P.
    assert (0 < 0) by (apply P; [left|done]). lia.
  - intros E m. rewrite (hc_gcounts h rm H). by rewrite E.
Qed.

Lemma hc_conflict_empty : lh_conflictModes h = 0 ↔ lh_conflictList h = [].
Proof.
  rewrite (hc_cmodes h rm H), mask_for_zero by apply hc_ccounts_nonneg. split.
  - intros Hz. destruct (lh_conflictList h) as [|r l] eqn:E; [done|].
    destruct (hc_conflict h rm H r) as (q & Hq & _); [rewrite E; left|].
    pose proof (hc_ccount_pos r q) as P. rewrite E, Hz in P.
    assert (0 < 0) by (apply P; [left|done]). lia.
  - intros E m. rewrite (hc_ccounts h rm H). by rewrite E.
Qed.

Lemma hc_intent_mask :
  Z.ldiff (lh_grantedModes h) intentModes = 0 ↔ ∀ m, 0 < lh_grantedCounts h m → is_intent m.
Proof.
  rewrite (hc_gmodes h rm H). unfold mask_for. rewrite mask_of_intent. unfold is_intent.
  split; intros G m Hm; apply G; lia.
Qed.

(** A request whose mode passes the test against the granted modes is
    compatible with every granted request. *)
Lemma hc_no_conflict m r q :
  conflicts m (lh_grantedModes h) = false → r ∈ lh_grantedList h → rm !! r = Some q →
  compatible m (lr_mode q) = true.
Proof.
  rewrite (hc_gmodes h rm H). rewrite conflicts_mask_for. intros G Hr Hq.
  apply G. by apply (hc_gcount_pos r).
Qed.
End HCoreFacts.

(** The invariant only reads the requests filed on the head. *)
Lemma HCore_frame h rm rm' :
  (∀ r, r ∈ members h → rm' !! r = rm !! r) → HCore h rm → HCore h rm'.
Proof.
  unfold members. intros F H.
  assert (∀ r, r ∈ lh_grantedList h → rm' !! r = rm !! r) as Fg by (intros; apply F; set_solver).
  assert (∀ r, r ∈ lh_conflictList h → rm' !! r = rm !! r) as Fc by (intros; apply F; set_solver).
  destruct H. split; try done.
  - intros r Hr. rewrite Fg by done. auto.
  - intros r Hr. rewrite Fc by done. auto.
  - intros m. rewrite (rsum_frame _ rm rm'); auto.
  - intros m. rewrite (rsum_frame _ rm rm'); auto.
  - rewrite (rsum_frame _ rm rm'); auto.
  - rewrite (rsum_frame _ rm rm'); auto.
  - intros r1 r2 q1 q2 H1 H2 Hne. rewrite !Fg by done. eauto.
Qed.

(** ** Putting a request on one of the queues *)

(** Adding a granted request to a head it is not yet filed on. *)
Lemma HCore_add_granted h rm r q c :
  HCore h rm → r ∉ members h → granted_ok (lh_resourceId h) q →
  lr_status q = STATUS_GRANTED →
  (∀ m, c m = lh_grantedCounts h m + (if decide (lr_mode q = m) then 1 else 0)) →
  conflicts (lr_mode q) (lh_grantedModes h) = false →
  (lh_partitions h = [] ∨ is_intent (lr_mode q)) →
  HCore (with_compatibleFirst (lh_compatibleFirstCount h + compatFirst q)
           (with_gcounts c (mask_for c) (with_granted (lh_grantedList h ++ [r]) h)))
        (<[r := q]> rm).
Proof.
  unfold members. intros H Hr Hok Hst Hc Hnc Hp.
  assert (r ∉ lh_grantedList h) as Hrg by set_solver.
  assert (r ∉ lh_conflictList h) as Hrc by set_solver.
  assert (∀ y, y ∈ lh_grantedList h → <[r:=q]> rm !! y = rm !! y) as Fg.
  { intros y Hy. apply lookup_insert_ne. intros ->. done. }
  assert (∀ y, y ∈ lh_conflictList h → <[r:=q]> rm !! y = rm !! y) as Fc.
  { intros y Hy. apply lookup_insert_ne. intros ->. done. }
  pose proof H as H'. destruct H. split; simpl.
  - apply NoDup_app. split; [done|]. split; [|apply NoDup_singleton]. set_solver.
  - done.
  - intros y [Hy|Hy%list_elem_of_singleton]%elem_of_app.
    + rewrite Fg by done. auto.
    + subst. exists q. by rewrite lookup_insert_eq.
  - intros y Hy. rewrite Fc by done. auto.
  - intros m. rewrite Hc, hc_gcounts0, rsum_app, rsum_insert_notin, rsum_cons by done.
    rewrite lookup_insert_eq. simpl. rewrite (holds_quiet m q) by congruence.
    rewrite rsum_nil. lia.
  - done.
  - intros m. by rewrite rsum_insert_notin.
  - done.
  - rewrite rsum_app, rsum_insert_notin, rsum_cons by done. rewrite lookup_insert_eq.
    simpl. rewrite (converting_quiet q) by congruence. rewrite rsum_nil. lia.
  - rewrite rsum_app, rsum_insert_notin, rsum_cons by done. rewrite lookup_insert_eq.
    simpl. rewrite rsum_nil. lia.
  - intros r1 r2 q1 q2 [H1|H1%list_elem_of_singleton]%elem_of_app
      [H2|H2%list_elem_of_singleton]%elem_of_app Hne.
    + rewrite !Fg by done. eauto.
    + subst. rewrite Fg, lookup_insert_eq by done. intros ? ?. simplify_eq.
      rewrite compatible_sym. eapply hc_no_conflict; eauto.
    + subst. rewrite lookup_insert_eq, Fg by done. intros ? ?. simplify_eq.
      eapply hc_no_conflict; eauto.
    + congruence.
  - intros Hne. destruct Hp as [?|Hi]; [done|]. destruct (hc_parts0 Hne) as [P1 P2].
    split; [|done]. intros m. rewrite Hc. case_decide; [congruence|]. intros. apply P1. lia.
Qed.

Lemma HCore_add_waiting h rm r q c l :
  HCore h rm → r ∉ members h → waiting_ok (lh_resourceId h) q →
  (l = r :: lh_conflictList h ∨ l = lh_conflictList h ++ [r]) →
  (∀ m, c m = lh_conflictCounts h m + (if decide (lr_mode q = m) then 1 else 0)) →
  lh_partitions h = [] →
  HCore (with_ccounts c (mask_for c) (with_conflict l h)) (<[r := q]> rm).
Proof.
  unfold members. intros H Hr Hok Hl Hc Hp.
  assert (r ∉ lh_grantedList h) as Hrg by set_solver.
  assert (r ∉ lh_conflictList h) as Hrc by set_solver.
  assert (Permutation l (r :: lh_conflictList h)) as Hperm.
  { destruct Hl; subst; [done|]. symmetry. apply Permutation_cons_append. }
  assert (∀ y, y ∈ lh_grantedList h → <[r:=q]> rm !! y = rm !! y) as Fg.
  { intros y Hy. apply lookup_insert_ne. intros ->. done. }
  assert (∀ y, y ∈ lh_conflictList h → <[r:=q]> rm !! y = rm !! y) as Fc.
  { intros y Hy. apply lookup_insert_ne. intros ->. done. }
  pose proof H as H'. destruct H. split; simpl; try done.
  - rewrite Hperm. by apply NoDup_cons.
  - intros y Hy. rewrite Fg by done. auto.
  - intros y. rewrite Hperm. intros [->|Hy]%elem_of_cons.
    + exists q. by rewrite lookup_insert_eq.
    + rewrite Fc by done. auto.
  - intros m. by rewrite rsum_insert_notin.
  - intros m. rewrite Hc, hc_ccounts0.
    assert (rsum (holds m) (<[r:=q]> rm) l = holds m q + rsum (holds m) rm (lh_conflictList h)) as ->.
    { destruct Hl; subst; rewrite ?rsum_app, rsum_cons, rsum_insert_notin, lookup_insert_eq
        by done; [done|].
      simpl. rewrite rsum_nil. lia. }
    destruct Hok as (_ & _ & _ & Hst & _). rewrite (holds_quiet m q) by congruence. lia.
  - by rewrite rsum_insert_notin.
  - by rewrite rsum_insert_notin.
  - intros r1 r2 q1 q2 H1 H2 Hne. rewrite !Fg by done. eauto.
Qed.

(** The head record after a grant, in the shape the operations build it. *)
Lemma with_cf_if b n h :
  lh_compatibleFirstCount h = n →
  (if (b : bool) then with_compatibleFirst (n + 1) h else h)
  = with_compatibleFirst (n + (if b then 1 else 0)) h.
Proof. intros <-. destruct b; [done|]. rewrite Z.add_0_r. by destruct h. Qed.

(** Where [newRequest] may be applied: to a head without partitions, or to
    a partitioned one whose partitioned requests, all intents, move to it. *)
Definition may_file (h : LockHead) (q : LockRequest) : Prop :=
  (lh_partitions h = [] ∧ lr_partitioned q = false ∧ lr_recursiveCount q = 1) ∨
  (lh_partitions h ≠ [] ∧ is_intent (lr_mode q)).

Definition filed (st : Status) (h : LockHead) (q : LockRequest) : LockRequest :=
  set_status st (set_lock (Some (lh_resourceId h)) q).

Definition same_lock (h h' : LockHead) : Prop :=
  lh_resourceId h' = lh_resourceId h ∧ lh_partitions h' = lh_partitions h.

Lemma newRequest_ok h rm r q :
  HInv h rm → rm !! r = Some q → r ∉ members h → lr_partitionedLock q = None →
  lr_convertMode q = MODE_NONE → lr_mode q ≠ MODE_NONE → 0 < lr_recursiveCount q →
  may_file h q →
  ∃ h', same_lock h h' ∧
    ((newRequest r h rm = Some (LOCK_OK, h', <[r := filed STATUS_GRANTED h q]> rm) ∧
      HInv h' (<[r := filed STATUS_GRANTED h q]> rm) ∧
      lh_grantedList h' = lh_grantedList h ++ [r] ∧ lh_conflictList h' = lh_conflictList h) ∨
     (newRequest r h rm = Some (LOCK_WAITING, h', <[r := filed STATUS_WAITING h q]> rm) ∧
      HInv h' (<[r := filed STATUS_WAITING h q]> rm) ∧
      lh_grantedList h' = lh_grantedList h ∧ lh_partitions h = [] ∧
      (lh_conflictList h' = r :: lh_conflictList h ∨
       lh_conflictList h' = lh_conflictList h ++ [r]))).
Proof.
  intros [H Hn] Hq Hr Hpl Hcm Hm Hrc Hf. unfold newRequest. rewrite Hq. simpl.
  rewrite bool_decide_eq_true_2 by done.
  destruct (_ || _) eqn:E.
  - assert (lh_partitions h = [] ∧ lr_partitioned q = false ∧ lr_recursiveCount q = 1)
      as (Hp & Hpf & Hr1).
    { destruct Hf as [?|[Hne Hi]]; [done|]. exfalso.
      destruct (hc_parts h rm H Hne) as [P1 P2].
      assert (conflicts (lr_mode q) (lh_grantedModes h) = false) as E1.
      { rewrite (hc_gmodes h rm H), conflicts_mask_for. intros m' Hm'.
        destruct Hi as [->| ->], (P1 m' Hm') as [->| ->]; done. }
      assert (conflicts (lr_mode q) (lh_conflictModes h) = false) as E2.
      { apply (hc_conflict_empty h rm H) in P2. rewrite P2. by destruct (lr_mode q). }
      rewrite E1, E2, andb_false_r in E. done. }
    set (l := if lr_enqueueAtFront q then r :: lh_conflictList h else lh_conflictList h ++ [r]).
    replace (if lr_enqueueAtFront q then with_conflict (r :: lh_conflictList h) h
             else with_conflict (lh_conflictList h ++ [r]) h) with (with_conflict l h)
      by (unfold l; by destruct (lr_enqueueAtFront q)).
    rewrite incConflict_spec; simpl; [|apply (hc_ccounts_nonneg h rm H)|apply (hc_cmodes h rm H)].
    eexists. split; [|right; split_and!; [reflexivity|split| | | ]]; try done.
    + apply HCore_add_waiting; try done.
      * unfold l. destruct (lr_enqueueAtFront q); auto.
      * intros m. rewrite counts_insert. simpl. repeat case_decide; simplify_eq; lia.
    + intros _. simpl.
      destruct (lh_grantedList h) eqn:Eg; [|done].
      assert (lh_grantedModes h = 0) as Hz by by apply (hc_granted_empty h rm H).
      destruct (lh_conflictList h) eqn:Ec.
      * assert (lh_conflictModes h = 0) as Hz' by by apply (hc_conflict_empty h rm H).
        rewrite Hz, Hz', andb_comm in E. revert E. by destruct (lr_mode q).
      * exfalso. apply Hn; [by rewrite Ec|done].
    + simpl. unfold l. destruct (lr_enqueueAtFront q); auto.
  - to_prop. rewrite incGranted_spec; simpl;
      [|apply (hc_gcounts_nonneg h rm H)|apply (hc_gmodes h rm H)].
    rewrite with_cf_if by done. simpl.
    eexists. split; [|left; split_and!; [reflexivity|split| | ]]; try done.
    + apply (HCore_add_granted h rm r (filed STATUS_GRANTED h q)); try done.
      * unfold granted_ok. simpl. naive_solver.
      * intros m. rewrite counts_insert. simpl. repeat case_decide; simplify_eq; lia.
      * destruct Hf as [[? _]|[? ?]]; auto.
    + intros _. simpl. by destruct (lh_grantedList h).
Qed.

(** ** The loop over the conversions *)

Lemma without_mask (contrib : Counts) h :
  grantedModesWithout contrib h
  = mask_of (λ m, negb (bool_decide (m = MODE_NONE)) && (contrib m <? lh_grantedCounts h m)).
Proof.
  unfold grantedModesWithout, mask_of. simpl.
  destruct (contrib MODE_IS <? _), (contrib MODE_IX <? _), (contrib MODE_S <? _),
    (contrib MODE_X <? _); reflexivity.
Qed.

(** A mode that passes the test against the granted modes less the request's
    own contribution is compatible with every other granted request. *)
Lemma without_compatible h rm r q r2 q2 m :
  HCore h rm → r ∈ lh_grantedList h → rm !! r = Some q → r2 ∈ lh_grantedList h →
  rm !! r2 = Some q2 → r ≠ r2 →
  conflicts m (grantedModesWithout (λ m', holds m' q) h) = false →
  compatible m (lr_mode q2) = true.
Proof.
  intros H Hr Hq Hr2 Hq2 Hne. rewrite without_mask, conflicts_mask_of. intros G. apply G.
  apply andb_true_iff. split.
  - apply negb_true_iff, bool_decide_eq_false. destruct (hc_granted h rm H r2 Hr2) as (q' & ? & Hok).
    simplify_eq. by destruct Hok as (_ & _ & ? & _).
  - apply Z.ltb_lt. rewrite (hc_gcounts h rm H).
    pose proof (rsum_pair (holds (lr_mode q2)) (holds_nonneg _) rm _ r r2 q q2
                  (hc_nodup_g h rm H) Hr Hr2 Hne Hq Hq2).
    pose proof (holds_mode q2). lia.
Qed.

(** Replacing one granted request: its mode and conversion state change, the
    counts follow. *)
Lemma HCore_replace h rm r q q' c n :
  HCore h rm → r ∈ lh_grantedList h → rm !! r = Some q → granted_ok (lh_resourceId h) q' →
  lr_compatibleFirst q' = lr_compatibleFirst q →
  (∀ m, c m = lh_grantedCounts h m - holds m q + holds m q') →
  n = lh_conversionsCount h - converting q + converting q' →
  (∀ r2 q2, r2 ∈ lh_grantedList h → r ≠ r2 → rm !! r2 = Some q2 →
     compatible (lr_mode q') (lr_mode q2) = true) →
  (lh_partitions h = [] ∨ ∀ m, 0 < c m → is_intent m ∨ 0 < lh_grantedCounts h m) →
  HCore (with_gcounts c (mask_for c) (with_conversions n h)) (<[r := q']> rm).
Proof.
  intros H Hr Hq Hok Hcf Hc Hn Hcompat Hp.
  assert (∀ y, y ∈ lh_conflictList h → <[r:=q']> rm !! y = rm !! y) as Fc.
  { intros y Hy. apply lookup_insert_ne. intros ->. by eapply hc_disjoint. }
  pose proof H as H'. destruct H. split; simpl; try done.
  - intros y Hy. destruct (decide (r = y)) as [->|].
    + exists q'. by rewrite lookup_insert_eq.
    + rewrite lookup_insert_ne by done. auto.
  - intros y Hy. rewrite Fc by done. auto.
  - intros m. rewrite Hc, hc_gcounts0. by rewrite (rsum_insert_in _ rm _ r q q').
  - intros m. rewrite hc_ccounts0. symmetry. by apply rsum_frame.
  - rewrite Hn, hc_conv0. by rewrite (rsum_insert_in _ rm _ r q q').
  - rewrite hc_cf0. rewrite (rsum_insert_in _ rm _ r q q') by done.
    unfold compatFirst. rewrite Hcf. lia.
  - intros r1 r2 q1 q2 H1 H2 Hne.
    destruct (decide (r = r1)) as [<-|]; [|destruct (decide (r = r2)) as [<-|]].
    + rewrite lookup_insert_eq, lookup_insert_ne by done. intros. simplify_eq. eauto.
    + rewrite lookup_insert_eq, lookup_insert_ne by done. intros. simplify_eq.
      rewrite compatible_sym. eauto.
    + rewrite !lookup_insert_ne by done. eauto.
  - intros Hne. destruct Hp as [?|Hle]; [done|]. destruct (hc_parts0 Hne) as [P1 P2].
    split; [|done]. intros m Hm. destruct (Hle m Hm); auto.
Qed.

(** What the grant loops may change of a head and of the request heap. *)
Definition loop_frame (h h' : LockHead) (rm rm' : ReqMap) : Prop :=
  same_lock h h' ∧ members h' ≡ₚ members h ∧
  (∀ r, r ∉ members h → rm' !! r = rm !! r).

Lemma loop_frame_refl h rm : loop_frame h h rm rm.
Proof. unfold loop_frame, same_lock. done. Qed.

Lemma loop_frame_trans h1 h2 h3 rm1 rm2 rm3 :
  loop_frame h1 h2 rm1 rm2 → loop_frame h2 h3 rm2 rm3 → loop_frame h1 h3 rm1 rm3.
Proof.
  intros ([A1 A2] & A3 & A4) ([B1 B2] & B3 & B4). repeat split; try congruence.
  - by rewrite B3.
  - intros r Hr. rewrite B4, A4; [done|done|]. by rewrite A3.
Qed.

Lemma holds_converting m q :
  lr_status q = STATUS_CONVERTING →
  holds m q = (if decide (lr_mode q = m) then 1 else 0)
              + (if decide (lr_convertMode q = m) then 1 else 0).
Proof. intros H. unfold holds. rewrite H. repeat case_decide; naive_solver lia. Qed.

Lemma grantedModesWithout_ext c1 c2 h :
  (∀ m, c1 m = c2 m) → grantedModesWithout c1 h = grantedModesWithout c2 h.
Proof. intros H. unfold grantedModesWithout. simpl. by rewrite !H. Qed.

Lemma grantConversions_ok l h rm nt :
  HCore h rm → (∀ r, r ∈ l → r ∈ lh_grantedList h) →
  ∃ h' rm' nt', grantConversions l h rm nt = Some (h', rm', nt') ∧ HCore h' rm' ∧
    loop_frame h h' rm rm' ∧ lh_grantedList h' = lh_grantedList h ∧
    lh_conflictList h' = lh_conflictList h.
Proof.
  revert h rm nt. induction l as [|r l IH]; intros h rm nt H Hl; simpl.
  { exists h, rm, nt. split_and!; auto using loop_frame_refl. }
  destruct (lh_conversionsCount h <=? 0) eqn:E0.
  { exists h, rm, nt. split_and!; auto using loop_frame_refl. }
  assert (r ∈ lh_grantedList h) as Hr by (apply Hl; left).
  assert (∀ y, y ∈ l → y ∈ lh_grantedList h) as Hl' by (intros; apply Hl; by right).
  destruct (hc_granted h rm H r Hr) as (q & Hq & Hok). rewrite Hq. simpl.
  case_bool_decide as Hst; [|by apply IH].
  destruct Hok as (Hk1 & Hk2 & Hk3 & [(? & _)|(_ & Hk4 & Hk5 & Hk6)]); [congruence|].
  rewrite bool_decide_eq_false_2 by done. rewrite bool_decide_eq_false_2 by naive_solver. simpl.
  rewrite (grantedModesWithout_ext _ (λ m, holds m q))
    by (intros m; by rewrite holds_converting).
  destruct (conflicts _ _) eqn:Ec; [by apply IH|].
  rewrite decGranted_spec; simpl.
  2: { pose proof (hc_gcount_pos h rm H r q Hr Hq). lia. }
  2: { apply (hc_gmodes h rm H). }
  set (q' := set_convertMode MODE_NONE (set_mode (lr_convertMode q) (set_status STATUS_GRANTED q))).
  set (h1 := with_gcounts _ _ _).
  assert (HCore h1 (<[r := q']> rm)) as H1.
  { apply HCore_replace with q; try done.
    - unfold granted_ok. simpl. split_and!; try done. left. split_and!; try done. lia.
    - intros m. rewrite counts_insert, (holds_converting m q), holds_quiet by done. simpl.
      repeat case_decide; simplify_eq; lia.
    - unfold converting. rewrite Hst. simpl. lia.
    - intros r2 q2 Hr2 Hne Hq2. simpl. by apply (without_compatible h rm r q r2 q2).
    - right. intros m. rewrite counts_insert. case_decide; subst; auto with lia. }
  destruct (IH h1 (<[r := q']> rm) (nt ++ [(r, lh_resourceId h, LOCK_OK)]) H1 Hl')
    as (h' & rm' & nt' & E & H' & F & G1 & G2).
  exists h', rm', nt'. split_and!; try done.
  eapply loop_frame_trans; [|apply F]. repeat split; try done.
  intros y Hy. apply lookup_insert_ne. intros ->. apply Hy. unfold members. set_solver.
Qed.

(** ** Taking a request off one of the queues *)

Lemma HCore_remove_waiting h rm rm' r q c :
  HCore h rm → r ∈ lh_conflictList h → rm !! r = Some q →
  (∀ y, y ≠ r → rm' !! y = rm !! y) →
  (∀ m, c m = lh_conflictCounts h m - (if decide (lr_mode q = m) then 1 else 0)) →
  HCore (with_ccounts c (mask_for c) (with_conflict (remove_id r (lh_conflictList h)) h)) rm'.
Proof.
  intros H Hr Hq F Hc.
  assert (∀ y, y ∈ lh_grantedList h → rm' !! y = rm !! y) as Fg.
  { intros y Hy. apply F. intros ->. by eapply hc_disjoint. }
  destruct (hc_conflict h rm H r Hr) as (q0 & ? & Hok). simplify_eq.
  destruct Hok as (_ & _ & _ & Hst & _).
  destruct H. split; simpl; try done.
  - by apply NoDup_remove_id.
  - intros y Hy. rewrite Fg by done. auto.
  - intros y [Hne Hy]%elem_of_remove_id. rewrite F by done. auto.
  - intros m. rewrite hc_gcounts0. symmetry. by apply rsum_frame.
  - intros m. rewrite (rsum_frame _ rm rm').
    + rewrite (rsum_remove _ rm _ r q) by done. rewrite Hc, holds_quiet by congruence.
      by rewrite hc_ccounts0.
    + intros y [Hne _]%elem_of_remove_id. auto.
  - rewrite hc_conv0. symmetry. by apply rsum_frame.
  - rewrite hc_cf0. symmetry. by apply rsum_frame.
  - intros r1 r2 q1 q2 H1 H2 Hne. rewrite !Fg by done. eauto.
  - intros Hne. destruct (hc_parts0 Hne) as [P1 P2]. split; [done|]. by rewrite P2.
Qed.

Lemma HCore_remove_granted h rm rm' r q c :
  HCore h rm → r ∈ lh_grantedList h → rm !! r = Some q → lr_status q = STATUS_GRANTED →
  (∀ y, y ≠ r → rm' !! y = rm !! y) →
  (∀ m, c m = lh_grantedCounts h m - (if decide (lr_mode q = m) then 1 else 0)) →
  HCore (with_compatibleFirst (lh_compatibleFirstCount h - compatFirst q)
           (with_gcounts c (mask_for c) (with_granted (remove_id r (lh_grantedList h)) h))) rm'.
Proof.
  intros H Hr Hq Hst F Hc.
  assert (∀ y, y ∈ lh_conflictList h → rm' !! y = rm !! y) as Fc.
  { intros y Hy. apply F. intros ->. by eapply hc_disjoint. }
  assert (∀ g, rsum g rm' (remove_id r (lh_grantedList h)) = rsum g rm (lh_grantedList h) - g q)
    as Frem.
  { intros g. rewrite (rsum_frame _ rm rm'); [|intros y [? _]%elem_of_remove_id; auto].
    apply rsum_remove; [apply H|done..]. }
  destruct H. split; simpl; try done.
  - by apply NoDup_remove_id.
  - intros y [Hne Hy]%elem_of_remove_id. rewrite F by done. auto.
  - intros y Hy. rewrite Fc by done. auto.
  - intros m. rewrite Frem, Hc, holds_quiet by congruence. by rewrite hc_gcounts0.
  - intros m. rewrite hc_ccounts0. symmetry. by apply rsum_frame.
  - rewrite Frem, converting_quiet by congruence. lia.
  - rewrite Frem. lia.
  - intros r1 r2 q1 q2 [N1 H1]%elem_of_remove_id [N2 H2]%elem_of_remove_id Hne.
    rewrite !F by done. eauto.
  - intros Hne. destruct (hc_parts0 Hne) as [P1 P2]. split; [|done].
    intros m. rewrite Hc. intros. apply P1. case_decide; lia.
Qed.

(** ** The loop over the conflict queue *)

(** The front of the conflict queue conflicts with the granted modes. *)
Definition front_blocked (h : LockHead) (rm : ReqMap) : Prop :=
  ∀ r q, head (lh_conflictList h) = Some r → rm !! r = Some q →
    conflicts (lr_mode q) (lh_grantedModes h) = true.

Lemma front_blocked_no_idle h rm : HCore h rm → front_blocked h rm → no_idle_wait h.
Proof.
  intros H F Hc Hg. apply (hc_granted_empty h rm H) in Hg.
  destruct (lh_conflictList h) as [|r l] eqn:E; [done|].
  destruct (hc_conflict h rm H r) as (q & Hq & _); [rewrite E; left|].
  specialize (F r q). rewrite E, Hg in F. specialize (F eq_refl Hq).
  by destruct (lr_mode q).
Qed.

Lemma conflicts_mono m c c' :
  (∀ m, c m <= c' m) → conflicts m (mask_for c) = true → conflicts m (mask_for c') = true.
Proof.
  intros Hle H. destruct (conflicts m (mask_for c')) eqn:E; [done|].
  rewrite conflicts_mask_for in E. rewrite <- H. symmetry. apply conflicts_mask_for.
  intros m' Hm'. apply E. specialize (Hle m'). lia.
Qed.

Definition all_blocked (h : LockHead) (rm : ReqMap) (l : list ReqId) : Prop :=
  ∀ r q, r ∈ l → rm !! r = Some q → conflicts (lr_mode q) (lh_grantedModes h) = true.

Lemma grantConflicts_ok l pre newly h rm nt :
  HCore h rm → lh_conflictList h = pre ++ l → all_blocked h rm pre →
  ∃ h' rm' nt', grantConflicts l newly h rm nt = Some (h', rm', nt') ∧ HCore h' rm' ∧
    loop_frame h h' rm rm' ∧ front_blocked h' rm'.
Proof.
  revert pre newly h rm nt.
  induction l as [|r l IH]; intros pre newly h rm nt H Hl Hpre; simpl.
  { exists h, rm, nt. split_and!; auto using loop_frame_refl.
    intros r q Hr Hq. rewrite app_nil_r in Hl. apply (Hpre r q); [|done].
    rewrite Hl in Hr. destruct pre; simplify_eq/=. left. }
  assert (r ∈ lh_conflictList h) as Hr by (rewrite Hl; set_solver).
  destruct (hc_conflict h rm H r Hr) as (q & Hq & Hok). rewrite Hq. simpl.
  pose proof Hok as (Hk1 & Hk2 & Hk3 & Hk4 & Hk5 & Hk6 & Hk7).
  rewrite bool_decide_eq_true_2 by done.
  destruct (conflicts (lr_mode q) (lh_grantedModes h)) eqn:Ec.
  { destruct (bool_decide _ && _) eqn:Eb.
    - exists h, rm, nt. split_and!; auto using loop_frame_refl. to_prop.
      intros r' q' Hr' Hq'. simplify_eq. done.
    - apply (IH (pre ++ [r])); [done|by rewrite <- app_assoc|].
      intros r' q' [Hr'|Hr'%list_elem_of_singleton]%elem_of_app Hq'; [by eapply Hpre|].
      by simplify_eq. }
  assert (NoDup (pre ++ r :: l)) as Hnd by (rewrite <- Hl; apply H).
  assert (remove_id r (lh_conflictList h) = pre ++ l) as Erem.
  { rewrite Hl, remove_id_app. apply NoDup_app in Hnd as (_ & N1 & [N2 _]%NoDup_cons).
    rewrite remove_id_cons_eq by done. rewrite remove_id_notin; [done|].
    intros Hin. apply (N1 r Hin). left. }
  rewrite decConflict_spec; simpl.
  2: { pose proof (hc_ccount_pos h rm H r q Hr Hq). lia. }
  2: { apply (hc_cmodes h rm H). }
  set (c := <[lr_mode q := lh_conflictCounts h (lr_mode q) - 1]> (lh_conflictCounts h)).
  assert (HCore (with_ccounts c (mask_for c) (with_conflict (remove_id r (lh_conflictList h)) h)) rm)
    as H1.
  { apply (HCore_remove_waiting h rm rm r q); try done.
    intros m. unfold c. rewrite counts_insert. repeat case_decide; simplify_eq; lia. }
  set (h1 := with_ccounts _ _ _) in H1 |- *.
  rewrite incGranted_spec; simpl;
    [|apply (hc_gcounts_nonneg h rm H)|apply (hc_gmodes h rm H)].
  set (q' := set_status STATUS_GRANTED q).
  rewrite with_cf_if by done.
  set (c' := <[lr_mode q := lh_grantedCounts h (lr_mode q) + 1]> (lh_grantedCounts h)).
  assert (∀ m, lh_grantedCounts h m <= c' m) as Hmono.
  { intros m. unfold c'. rewrite counts_insert. case_decide; simplify_eq; lia. }
  set (h2 := with_compatibleFirst _ _).
  assert (HCore h2 (<[r := q']> rm)) as H2.
  { apply (HCore_add_granted h1 rm r q'); try done.
    - unfold members, h1. simpl. intros [Hg|[? _]%elem_of_remove_id]%elem_of_app; [|done].
      by eapply (hc_disjoint h rm H).
    - unfold granted_ok. simpl. split_and!; try done. left. split_and!; try done. lia.
    - intros m. unfold c'. rewrite counts_insert. simpl. repeat case_decide; simplify_eq; lia.
    - unfold h1. simpl. destruct (lh_partitions h) eqn:Ep; [by left|].
      destruct (hc_parts h rm H) as [_ P]; [by rewrite Ep|]. rewrite P in Hr. set_solver. }
  assert (loop_frame h h2 rm (<[r := q']> rm)) as F.
  { repeat split; try done.
    - unfold members, h2, h1. simpl. rewrite Erem, Hl, <- app_assoc. apply Permutation_app_head.
      simpl. apply Permutation_middle.
    - intros y Hy. apply lookup_insert_ne. intros ->. apply Hy. unfold members. set_solver. }
  case_bool_decide as HX.
  - eexists _, _, _. split_and!; [done..|].
    intros r' q'' Hr' Hq''.
    destruct (conflicts (lr_mode q'') (lh_grantedModes h2)) eqn:E; [done|].
    rewrite (hc_gmodes h2 _ H2), conflicts_mask_for in E.
    assert (r' ∈ lh_conflictList h2) as Hin.
    { destruct (lh_conflictList h2); simplify_eq/=. left. }
    destruct (hc_conflict h2 _ H2 r' Hin) as (q0 & ? & (_ & _ & Hm & _)). simplify_eq.
    specialize (E MODE_X). revert E. change (lh_grantedCounts h2) with c'. unfold c'.
    rewrite counts_insert. simpl in HX. rewrite HX, decide_True by done.
    pose proof (hc_gcounts_nonneg h rm H MODE_X).
    destruct (lr_mode q''); naive_solver lia.
  - set (nw := newly || _).
    destruct (IH pre nw h2 (<[r := q']> rm) (nt ++ [(r, lh_resourceId h, LOCK_OK)]) H2 Erem)
      as (h' & rm' & nt' & E & H' & F' & G).
    { intros r' q'' Hr' Hq''. unfold h2. simpl.
      rewrite lookup_insert_ne in Hq''.
      2: { intros ->. apply NoDup_app in Hnd as (_ & N1 & _). apply (N1 _ Hr'). left. }
      apply (conflicts_mono _ (lh_grantedCounts h)); [done|].
      rewrite <- (hc_gmodes h rm H). by apply (Hpre r'). }
    eexists _, _, _. split_and!; [apply E|done|by eapply loop_frame_trans|done].
Qed.

(** ** [_onLockModeChanged] *)

Lemma onLockModeChanged_ok h check rm nt :
  HCore h rm → (check = true ∨ no_idle_wait h) →
  ∃ h' rm' nt', _onLockModeChanged h check rm nt = Some (h', rm', nt') ∧ HInv h' rm' ∧
    loop_frame h h' rm rm' ∧ (check = true → front_blocked h' rm').
Proof.
  intros H Hn. unfold _onLockModeChanged.
  destruct (grantConversions_ok (lh_grantedList h) h rm nt H) as (h1 & rm1 & nt1 & E1 & H1 & F1 & G1 & C1);
    [done|].
  rewrite E1. simpl.
  assert (∃ h2 rm2 nt2,
    (if check then grantConflicts (lh_conflictList h1) false h1 rm1 nt1 else Some (h1, rm1, nt1))
      = Some (h2, rm2, nt2) ∧ HInv h2 rm2 ∧ loop_frame h1 h2 rm1 rm2 ∧
    (check = true → front_blocked h2 rm2)) as (h2 & rm2 & nt2 & E2 & [H2 Hn2] & F2 & B2).
  { destruct check.
    - destruct (grantConflicts_ok (lh_conflictList h1) [] false h1 rm1 nt1 H1)
        as (h2 & rm2 & nt2 & E2 & H2 & F2 & B2); [done|intros ? ?; set_solver|].
      exists h2, rm2, nt2. split_and!; try done. split; [done|]. by eapply front_blocked_no_idle.
    - exists h1, rm1, nt1. split_and!; auto using loop_frame_refl; [|done].
      split; [done|]. destruct Hn as [?|Hn]; [done|]. unfold no_idle_wait in *. by rewrite C1, G1. }
  rewrite E2. simpl.
  assert (xorb (lh_grantedModes h2 =? 0) (negb (bool_decide (lh_grantedList h2 = []))) = true) as ->.
  { pose proof (hc_granted_empty h2 rm2 H2). case_bool_decide; destruct (_ =? 0) eqn:E; naive_solver lia. }
  assert (xorb (lh_conflictModes h2 =? 0) (negb (bool_decide (lh_conflictList h2 = []))) = true) as ->.
  { pose proof (hc_conflict_empty h2 rm2 H2). case_bool_decide; destruct (_ =? 0) eqn:E; naive_solver lia. }
  exists h2, rm2, nt2. split_and!; try done. by eapply loop_frame_trans.
Qed.
