(* ===== verification/LockManagerInv.v ===== *)
(** The invariant of the whole lock manager and its preservation by every
    operation, as a step relation with the callers' obligations. *)
From S2P Require Import Prelude LockModes LockManager LockHeadInv.
Import LockHead LockManager.

(** ** The invariant *)

(** A request that has not been passed to [lock] yet, or is between the two
    halves of [lock]. *)
Definition new_ok (q : LockRequest) : Prop :=
  lr_lock q = None ∧ lr_partitionedLock q = None ∧ lr_recursiveCount q = 1 ∧
  lr_status q = STATUS_NEW ∧ lr_convertMode q = MODE_NONE.

(** A request on the partitioned lock head [k]. *)
Definition part_ok (k : Z * Z) (q : LockRequest) : Prop :=
  lr_lock q = None ∧ lr_partitionedLock q = Some k ∧ lr_partitioned q = true ∧
  lr_status q = STATUS_GRANTED ∧ is_intent (lr_mode q) ∧ lr_convertMode q = MODE_NONE ∧
  0 < lr_recursiveCount q.

Record LInv (s : LMState) : Prop := {
  li_heads : ∀ res h, lm_heads s !! res = Some h →
    lh_resourceId h = res ∧ HInv h (lm_requests s);
  li_parts : ∀ k l, lm_partitions s !! k = Some l →
    NoDup l ∧ (∃ h, lm_heads s !! k.2 = Some h ∧ k.1 ∈ lh_partitions h) ∧
    ∀ r, r ∈ l → ∃ q, lm_requests s !! r = Some q ∧ part_ok k q;
  li_placed : ∀ r q, lm_requests s !! r = Some q →
    new_ok q ∨
    (∃ res h, lr_lock q = Some res ∧ lm_heads s !! res = Some h ∧ r ∈ members h) ∨
    (∃ k l, lr_partitionedLock q = Some k ∧ lm_partitions s !! k = Some l ∧ r ∈ l)
}.

Lemma member_ok h rm r :
  HCore h rm → r ∈ members h →
  ∃ q, rm !! r = Some q ∧ lr_lock q = Some (lh_resourceId h) ∧ lr_partitionedLock q = None ∧
    lr_mode q ≠ MODE_NONE ∧ (granted_ok (lh_resourceId h) q ∨ waiting_ok (lh_resourceId h) q).
Proof.
  intros H [Hr|Hr]%elem_of_app.
  - destruct (hc_granted h rm H r Hr) as (q & Hq & G). exists q.
    pose proof G as (? & ? & ? & _). auto 10.
  - destruct (hc_conflict h rm H r Hr) as (q & Hq & G). exists q.
    pose proof G as (? & ? & ? & _). auto 10.
Qed.

(** Where a request that is not new stands. *)
Lemma li_locked s r q res :
  LInv s → lm_requests s !! r = Some q → lr_lock q = Some res →
  ∃ h, lm_heads s !! res = Some h ∧ lh_resourceId h = res ∧ HInv h (lm_requests s) ∧ r ∈ members h.
Proof.
  intros H Hq Hl. destruct (li_placed s H r q Hq) as [N|[(res' & h & E & Hh & Hr)|(k & l & E & Hk & Hr)]].
  - destruct N as (? & _). congruence.
  - simplify_eq. exists h. destruct (li_heads s H _ h Hh). done.
  - destruct (li_parts s H k l Hk) as (_ & _ & P). destruct (P r Hr) as (q' & ? & (? & _)). congruence.
Qed.

Lemma li_partitioned s r q k :
  LInv s → lm_requests s !! r = Some q → lr_partitionedLock q = Some k →
  ∃ l, lm_partitions s !! k = Some l ∧ NoDup l ∧ r ∈ l ∧ part_ok k q.
Proof.
  intros H Hq Hl. destruct (li_placed s H r q Hq) as [N|[(res' & h & E & Hh & Hr)|(k' & l & E & Hk & Hr)]].
  - destruct N as (_ & ? & _). congruence.
  - destruct (li_heads s H res' h Hh) as [_ [HC _]].
    destruct (member_ok h _ r HC Hr) as (q' & ? & _ & ? & _). congruence.
  - simplify_eq. destruct (li_parts s H _ l Hk) as (N & _ & P).
    destruct (P r Hr) as (q' & ? & ?). simplify_eq. eauto.
Qed.

(** Replacing the head of [res], the requests filed on it and some of the
    partitions of [res] that moved to it. *)
Lemma LInv_update s res h' rm' pd' nt' :
  LInv s → lh_resourceId h' = res → HInv h' rm' →
  (∀ r, r ∉ members h' → rm' !! r = lm_requests s !! r ∨
     (rm' !! r = None ∧ ∃ q, lm_requests s !! r = Some q ∧ lr_lock q = Some res)) →
  (∀ r, r ∈ members h' → ∃ q, lm_requests s !! r = Some q ∧
     (new_ok q ∨ lr_lock q = Some res ∨
      ∃ p, lr_partitionedLock q = Some (p, res) ∧ pd' !! (p, res) = None)) →
  (∀ k l, pd' !! k = Some l → lm_partitions s !! k = Some l ∧ (k.2 = res → k.1 ∈ lh_partitions h')) →
  (∀ k l, lm_partitions s !! k = Some l → k.2 ≠ res → pd' !! k = Some l) →
  (∀ p l r, lm_partitions s !! (p, res) = Some l → pd' !! (p, res) = None → r ∈ l → r ∈ members h') →
  (∀ r q, rm' !! r = Some q → r ∉ members h' → lr_lock q ≠ Some res) →
  LInv (mkLM rm' (<[res := h']> (lm_heads s)) pd' nt').
Proof.
  intros H Hres Hh' A B C D E F.
  assert (∀ r q, lm_requests s !! r = Some q → r ∈ members h' →
    ¬ new_ok q → lr_lock q ≠ Some res →
    (∀ p, lr_partitionedLock q = Some (p, res) → pd' !! (p, res) ≠ None) → False) as B'.
  { intros r q Hq Hr N1 N2 N3. destruct (B r Hr) as (q' & ? & [?|[?|(p & ? & ?)]]); simplify_eq; try done.
    by apply (N3 p). }
  split; simpl.
  - intros res2 h2. rewrite lookup_insert. case_decide as Hd; [intros ?; simplify_eq; done|].
    intros Hh2. destruct (li_heads s H res2 h2 Hh2) as [Hr2 [HC2 HN2]]. split; [done|].
    split; [|done]. eapply HCore_frame; [|done]. intros r Hr.
    destruct (member_ok h2 _ r HC2 Hr) as (q & Hq & Hl & Hp & _).
    destruct (decide (r ∈ members h')) as [Hin|Hout].
    + exfalso. apply (B' r q Hq Hin); [|congruence|congruence]. intros (? & _). congruence.
    + destruct (A r Hout) as [?|(_ & q' & ? & ?)]; [done|]. exfalso; congruence.
  - intros k l Hk. destruct (C k l Hk) as [Hk' Hkp]. destruct (li_parts s H k l Hk') as (N & (h & Hh & Hp) & P).
    split; [done|]. split.
    + destruct (decide (k.2 = res)) as [e|ne].
      * exists h'. rewrite e, lookup_insert_eq. auto.
      * exists h. by rewrite lookup_insert_ne.
    + intros r Hr. destruct (P r Hr) as (q & Hq & Hok). exists q. split; [|done].
      destruct Hok as (Hl & Hpl & _ & Hst & _).
      destruct (decide (r ∈ members h')) as [Hin|Hout].
      * exfalso. apply (B' r q Hq Hin); [intros (_ & ? & _); congruence|congruence|].
        intros p Hp'. rewrite Hpl in Hp'. simplify_eq. congruence.
      * destruct (A r Hout) as [->|(_ & q' & ? & ?)]; [done|]. exfalso; congruence.
  - intros r q Hq. destruct (decide (r ∈ members h')) as [Hin|Hout].
    + right. left. destruct Hh' as [HC' _]. destruct (member_ok h' rm' r HC' Hin) as (q' & ? & ? & _).
      simplify_eq. eexists _, h'. split_and!; [done|by rewrite lookup_insert_eq|done].
    + destruct (A r Hout) as [Hs|(? & _)]; [|congruence]. rewrite Hs in Hq.
      destruct (li_placed s H r q Hq) as [N|[(res' & h & El & Hh & Hr)|(k & l & El & Hk & Hr)]]; [by left| |].
      * right. left. exists res', h. split_and!; try done.
        rewrite lookup_insert_ne; [done|]. intros ->. apply (F r q); try done. congruence.
      * right. right. exists k, l. split_and!; try done.
        destruct (decide (k.2 = res)) as [e|ne]; [|by apply D].
        destruct k as [p res0]; simpl in *; subst res0.
        destruct (pd' !! (p, res)) as [l'|] eqn:El'.
        -- destruct (C _ _ El') as [? _]. simplify_eq. done.
        -- exfalso. apply Hout. by apply (E p l).
Qed.

(** ** Migration of the partitioned lock heads *)

(** What becomes of a request that moves from its partition to the head. *)
Definition migrated (h : LockHead) (q : LockRequest) : LockRequest :=
  filed STATUS_GRANTED h (set_partitionedLock None q).

Lemma part_not_member h rm r q k :
  HCore h rm → rm !! r = Some q → part_ok k q → r ∉ members h.
Proof.
  intros H Hq (Hl & _) Hr. destruct (member_ok h rm r H Hr) as (q' & ? & ? & _). congruence.
Qed.

Lemma migrateRequests_ok l h rm p :
  HInv h rm → lh_partitions h ≠ [] → NoDup l →
  (∀ r, r ∈ l → ∃ q, rm !! r = Some q ∧ part_ok (p, lh_resourceId h) q) →
  ∃ h' rm', migrateRequests l h rm = Some (h', rm') ∧ HInv h' rm' ∧ same_lock h h' ∧
    lh_grantedList h' = lh_grantedList h ++ l ∧ lh_conflictList h' = lh_conflictList h ∧
    (∀ r, r ∉ l → rm' !! r = rm !! r) ∧
    (∀ r q, r ∈ l → rm !! r = Some q → rm' !! r = Some (migrated h q)).
Proof.
  revert h rm. induction l as [|r l IH]; intros h rm H Hp Hnd Hl; simpl.
  { exists h, rm. rewrite app_nil_r. split_and!; try done. intros r q Hr. set_solver. }
  apply NoDup_cons in Hnd as [Hrl Hnd].
  destruct (Hl r) as (q & Hq & Hok); [left|]. rewrite Hq. simpl.
  pose proof Hok as (K1 & K2 & K3 & K4 & K5 & K6 & K7).
  assert (r ∉ members h) as Hr by (eapply part_not_member; [apply H|done..]).
  set (q1 := set_partitionedLock None q).
  assert (HInv h (<[r := q1]> rm)) as H1.
  { destruct H as [HC HN]. split; [|done]. eapply HCore_frame; [|done].
    intros y Hy. apply lookup_insert_ne. intros ->. done. }
  destruct (newRequest_ok h (<[r := q1]> rm) r q1 H1) as (h' & Hs & [(E & H' & G & C)|(E & _ & _ & P & _)]);
    try done; try by apply lookup_insert_eq.
  { simpl. destruct K5 as [->| ->]; done. }
  { right. done. }
  rewrite E. simpl. rewrite insert_insert_eq in *.
  destruct Hs as [Hs1 Hs2].
  destruct (IH h' (<[r := filed STATUS_GRANTED h q1]> rm) H') as (h2 & rm2 & E2 & H2 & [Hs3 Hs4] & G2 & C2 & F2 & M2).
  { by rewrite Hs2. }
  { done. }
  { intros y Hy. rewrite lookup_insert_ne by (intros ->; done). rewrite Hs1. apply Hl. by right. }
  exists h2, rm2. split_and!; try done.
  - split; congruence.
  - rewrite G2, G, <- app_assoc. done.
  - congruence.
  - intros y [Hy1 Hy2]%not_elem_of_cons. rewrite F2 by done. by rewrite lookup_insert_ne.
  - intros y qy [->|Hy]%elem_of_cons Hqy.
    + rewrite F2 by done. rewrite lookup_insert_eq. by simplify_eq.
    + assert (y ≠ r) by (intros ->; done). rewrite (M2 y qy); try done.
      * unfold migrated, filed. by rewrite Hs1.
      * by rewrite lookup_insert_ne.
Qed.

(** All the requests of the partitions [ps] move to the head. *)
Lemma migratePartitions_ok ps h rm pd :
  HInv h rm → lh_partitions h ≠ [] →
  (∀ p l, p ∈ ps → pd !! (p, lh_resourceId h) = Some l → NoDup l ∧
    ∀ r, r ∈ l → ∃ q, rm !! r = Some q ∧ part_ok (p, lh_resourceId h) q) →
  ∃ h' rm' pd', migratePartitions ps h rm pd = Some (h', rm', pd') ∧ HInv h' rm' ∧
    same_lock h h' ∧
    (∀ r, r ∈ members h' ↔ r ∈ members h ∨
       ∃ p l, p ∈ ps ∧ pd !! (p, lh_resourceId h) = Some l ∧ r ∈ l) ∧
    (∀ k, pd' !! k = if decide (k.2 = lh_resourceId h ∧ k.1 ∈ ps) then None else pd !! k) ∧
    (∀ r, rm' !! r = rm !! r ∨ ∃ q p, rm !! r = Some q ∧ part_ok (p, lh_resourceId h) q ∧
       r ∈ lh_grantedList h' ∧ rm' !! r = Some (migrated h q)) ∧
    (∀ r, r ∈ members h → rm' !! r = rm !! r).
Proof.
  revert h rm pd. induction ps as [|p ps IH]; intros h rm pd H Hp Hps; simpl.
  { exists h, rm, pd. split_and!; auto.
    - done.
    - intros r. set_solver.
    - intros k. rewrite decide_False; [done|]. set_solver. }
  destruct (pd !! (p, lh_resourceId h)) as [l|] eqn:El.
  - destruct (Hps p l) as [Hnd Hl]; [left|done|].
    destruct (migrateRequests_ok l h rm p H Hp Hnd Hl)
      as (h1 & rm1 & E1 & H1 & [Hs1 Hs2] & G1 & C1 & F1 & M1).
    rewrite E1. simpl.
    destruct (IH h1 rm1 (delete (p, lh_resourceId h) pd) H1)
      as (h' & rm' & pd' & E & H' & [Hs3 Hs4] & Hm & Hpd & Hrm & Hold).
    { by rewrite Hs2. }
    { rewrite Hs1. intros p' l' Hp'. rewrite lookup_delete. case_decide as Hd; [done|]. intros Hl'.
      destruct (Hps p' l') as [N' P']; [by right|done|]. split; [done|].
      intros r Hr. destruct (P' r Hr) as (q & Hq & Hok). exists q. split; [|done].
      rewrite F1; [done|]. intros Hrl. destruct (Hl r Hrl) as (q' & ? & Hok').
      destruct Hok as (_ & E2 & _), Hok' as (_ & E3 & _). by simplify_eq. }
    rewrite Hs1 in *. rewrite E. exists h', rm', pd'. split_and!; try done.
    + split; congruence.
    + intros r. rewrite Hm. unfold members. rewrite G1, C1.
      setoid_rewrite lookup_delete. split.
      * intros [Hr|(p' & l' & ? & Hl' & ?)].
        -- rewrite !elem_of_app in *. destruct Hr as [[?|Hr]|?]; [auto| |auto].
           right. exists p, l. split_and!; [left|done..].
        -- case_decide; [done|]. right. exists p', l'. split_and!; [by right|done..].
      * rewrite !elem_of_app. intros [[?|?]|(p' & l' & Hp' & Hl' & ?)]; [auto|auto|].
        destruct (decide (p = p')) as [->|]; [left; left; right; congruence|].
        right. exists p', l'. rewrite decide_False by congruence.
        split_and!; [set_solver|done..].
    + intros k. rewrite Hpd, lookup_delete. destruct k as [p' res']. simpl.
      repeat case_decide; try done; set_solver.
    + intros r. destruct (Hrm r) as [Hr|(q & p' & Hq & Hok & Hg & Hr)].
      * destruct (decide (r ∈ l)) as [Hin|Hout].
        -- right. destruct (Hl r Hin) as (q & Hq & Hok). exists q, p. split_and!; try done.
           ++ assert (r ∈ members h') as Hr'.
              { apply Hm. left. unfold members. rewrite G1. set_solver. }
              unfold members in Hr'. apply elem_of_app in Hr' as [?|Hc]; [done|].
              exfalso. destruct (hc_conflict h' rm' (proj1 H') r Hc) as (q' & Hq' & Hw).
              rewrite Hr, (M1 r q Hin Hq) in Hq'. destruct Hw as (_ & _ & _ & Hw & _). simplify_eq/=.
           ++ rewrite Hr. by apply M1.
        -- left. by rewrite Hr, F1.
      * destruct (decide (r ∈ l)) as [Hin|Hout].
        -- exfalso. destruct (Hl r Hin) as (q' & Hq' & Hok').
           rewrite (M1 r q' Hin Hq') in Hq. destruct Hok as (? & _). simplify_eq/=.
        -- right. exists q, p'. rewrite F1 in Hq by done. split_and!; try done.
           rewrite Hr. unfold migrated, filed. by rewrite Hs1.
    + intros r Hr. rewrite Hold.
      * apply F1. intros Hrl. destruct (Hl r Hrl) as (q & Hq & Hok).
        by eapply part_not_member; [apply H|..].
      * unfold members in *. rewrite G1, C1. set_solver.
  - destruct (IH h rm pd H Hp) as (h' & rm' & pd' & E & H' & Hs & Hm & Hpd & Hrm & Hold).
    { intros p' l' Hp'. apply Hps. by right. }
    rewrite E. exists h', rm', pd'. split_and!; try done.
    + intros r. rewrite Hm. split; (intros [?|(p' & l' & Hp' & Hl' & ?)]; [by left|]).
      * right. exists p', l'. split_and!; [by right|done..].
      * apply elem_of_cons in Hp' as [->|Hp']; [congruence|]. right. exists p', l'. done.
    + intros k. rewrite Hpd. destruct k as [p' res']. simpl.
      repeat case_decide; try done; set_solver.
Qed.

(** The conditional migration that [lock], [convert] and the cleanup start
    with, on the whole state. *)
Definition migrateIfPartitioned (h : LockHead) (rm : ReqMap) (pd : gmap (Z * Z) (list ReqId))
    : option (LockHead * ReqMap * gmap (Z * Z) (list ReqId)) :=
  if is_partitioned h then migratePartitionedLockHeads h rm pd else Some (h, rm, pd).

Lemma with_partitions_HInv h rm : HInv h rm → HInv (with_partitions [] h) rm.
Proof. intros [H Hn]. split; [|done]. destruct H. by split. Qed.

(** A request that is not new, before and after a migration: only its place
    changes. *)
Definition moved (h : LockHead) (q q' : LockRequest) : Prop :=
  q' = q ∨ q' = migrated h q.

Lemma migrate_LInv s res h :
  LInv s → lm_heads s !! res = Some h →
  ∃ h' rm' pd', migrateIfPartitioned h (lm_requests s) (lm_partitions s) = Some (h', rm', pd') ∧
    (∀ nt, LInv (mkLM rm' (<[res := h']> (lm_heads s)) pd' nt)) ∧
    lh_resourceId h' = res ∧ lh_partitions h' = [] ∧
    (∀ p, pd' !! (p, res) = None) ∧
    (∀ r q, lm_requests s !! r = Some q → ∃ q', rm' !! r = Some q' ∧ moved h q q') ∧
    (∀ r q, lm_requests s !! r = Some q → new_ok q → rm' !! r = Some q).
Proof.
  intros H Hh. destruct (li_heads s H res h Hh) as [Hres HI].
  unfold migrateIfPartitioned, is_partitioned. case_bool_decide as Hp; simpl.
  { exists h, (lm_requests s), (lm_partitions s). split_and!; try done.
    - intros nt. destruct H as [A B C]. by split; simpl; rewrite ?insert_id by done.
    - intros p. destruct (lm_partitions s !! (p, res)) as [l|] eqn:E; [|done].
      destruct (li_parts s H _ _ E) as (_ & (h' & Hh' & Hin) & _). simpl in *. simplify_eq.
      rewrite Hp in Hin. set_solver.
    - intros r q Hq. exists q. split; [done|]. by left. }
  unfold migratePartitionedLockHeads, is_partitioned. rewrite bool_decide_eq_false_2 by done. simpl.
  destruct HI as [HC HN]. destruct (hc_parts _ _ HC Hp) as [P1 P2].
  apply (hc_intent_mask h _ HC) in P1. apply (hc_conflict_empty h _ HC) in P2.
  rewrite P1, P2. simpl.
  destruct (migratePartitions_ok (reverse (lh_partitions h)) h (lm_requests s) (lm_partitions s))
    as (h' & rm' & pd' & E & H' & [Hs1 Hs2] & Hm & Hpd & Hrm & Hold); [done|done| |].
  { intros p l _ Hl. destruct (li_parts s H _ l Hl) as (N & _ & P). rewrite Hres in *. done. }
  rewrite E. simpl. exists (with_partitions [] h'), rm', pd'.
  assert (∀ p l, lm_partitions s !! (p, res) = Some l → p ∈ reverse (lh_partitions h)) as Hall.
  { intros p l Hl. destruct (li_parts s H _ l Hl) as (_ & (h0 & ? & Hin) & _). simpl in *.
    simplify_eq. by apply elem_of_reverse. }
  assert (∀ p, pd' !! (p, res) = None) as Hgone.
  { intros p. rewrite Hpd. simpl. case_decide as Hd; [done|].
    destruct (lm_partitions s !! (p, res)) as [l|] eqn:El; [|done].
    exfalso. apply Hd. split; [done|]. by eapply Hall. }
  split_and!; try done.
  - intros nt. apply LInv_update; try done.
    + simpl. congruence.
    + by apply with_partitions_HInv.
    + intros r Hr. destruct (Hrm r) as [?|(q & p & Hq & Hok & Hg & ?)]; [by left|].
      exfalso. apply Hr. unfold members. simpl. set_solver.
    + intros r Hr. change (members (with_partitions [] h')) with (members h') in Hr.
      apply Hm in Hr as [Hr|(p & l & Hp' & Hl & Hr)].
      * destruct (member_ok h _ r HC Hr) as (q & Hq & Hl & _). exists q. split; [done|].
        right. left. congruence.
      * rewrite Hres in Hl. destruct (li_parts s H _ l Hl) as (_ & _ & P).
        destruct (P r Hr) as (q & Hq & (_ & ? & _)). exists q. split; [done|].
        right. right. exists p. split; [done|]. apply Hgone.
    + intros [p res'] l. rewrite Hpd. case_decide as Hd; [done|]. intros Hl. split; [done|]. simpl.
      intros ->. exfalso. apply Hd. split; [done|]. by eapply Hall.
    + intros [p res'] l Hl Hne. rewrite Hpd. rewrite decide_False; [done|]. simpl in *. naive_solver.
    + intros p l r Hl _ Hr. change (members (with_partitions [] h')) with (members h').
      apply Hm. right. exists p, l. rewrite Hres. split_and!; [by eapply Hall|done..].
    + intros r q Hq Hr. change (members (with_partitions [] h')) with (members h') in Hr.
      intros Hl. destruct (Hrm r) as [Hsame|(q' & p & ? & ? & Hg & ?)].
      * rewrite Hsame in Hq. destruct (li_locked s r q res H Hq Hl) as (h0 & ? & _ & _ & Hin).
        simplify_eq. apply Hr, Hm. by left.
      * apply Hr. unfold members. set_solver.
  - simpl. congruence.
  - intros r q Hq. destruct (Hrm r) as [Hsame|(q' & p & Hq' & ? & Hg & Hr)].
    + exists q. rewrite Hsame. split; [done|]. by left.
    + simplify_eq. eexists. split; [done|]. by right.
  - intros r q Hq Hnew. destruct (Hrm r) as [Hsame|(q' & p & Hq' & Hok & _)]; [congruence|].
    simplify_eq. destruct Hnew as (_ & ? & _), Hok as (_ & ? & _). congruence.
Qed.

(** ** The operations *)

Definition with_requests (rm : ReqMap) (s : LMState) : LMState :=
  mkLM rm (lm_heads s) (lm_partitions s) (lm_notes s).

(** Changes of a request that none of the invariants looks at. *)
Definition same_for_head (q q' : LockRequest) : Prop :=
  lr_lock q' = lr_lock q ∧ lr_partitionedLock q' = lr_partitionedLock q ∧
  lr_mode q' = lr_mode q ∧ lr_status q' = lr_status q ∧ lr_convertMode q' = lr_convertMode q ∧
  lr_compatibleFirst q' = lr_compatibleFirst q ∧ lr_partitioned q' = lr_partitioned q.

(** Bumping or dropping the recursive count of a granted request. *)
Lemma LInv_set_rec s r q n :
  LInv s → lm_requests s !! r = Some q → lr_status q = STATUS_GRANTED → 0 < n →
  LInv (with_requests (<[r := set_recursiveCount n q]> (lm_requests s)) s).
Proof.
  intros H Hq Hst Hn. set (q' := set_recursiveCount n q).
  destruct (li_placed s H r q Hq) as [N|[(res & h & El & Hh & Hr)|(k & l & El & Hk & Hr)]].
  - destruct N as (_ & _ & _ & ? & _). congruence.
  - destruct (li_heads s H res h Hh) as [Hres [HC HN]].
    replace (with_requests _ s) with
      (mkLM (<[r := q']> (lm_requests s)) (<[res := h]> (lm_heads s)) (lm_partitions s) (lm_notes s))
      by (unfold with_requests; by rewrite (insert_id (lm_heads s))).
    assert (r ∈ lh_grantedList h) as Hg.
    { apply elem_of_app in Hr as [?|Hc]; [done|].
      destruct (hc_conflict h _ HC r Hc) as (? & ? & (_ & _ & _ & ? & _)). congruence. }
    assert (HInv h (<[r := q']> (lm_requests s))) as HI.
    { split; [|done].
      replace h with (with_gcounts (lh_grantedCounts h) (mask_for (lh_grantedCounts h))
                        (with_conversions (lh_conversionsCount h) h))
        by (rewrite <- (hc_gmodes h _ HC); by destruct h).
      apply HCore_replace with q; try done.
      - destruct (hc_granted h _ HC r Hg) as (q0 & ? & (G1 & G2 & G3 & [G4|(? & _)]));
          [|congruence]. simplify_eq. unfold granted_ok. simpl. split_and!; try done. left. naive_solver.
      - intros m. unfold holds. simpl. lia.
      - unfold converting. simpl. lia.
      - intros r2 q2 Hr2 Hne Hq2. by apply (hc_compat h _ HC r r2 q q2).
      - right. intros. auto. }
    apply LInv_update; try done.
    + intros y Hy. left. apply lookup_insert_ne. intros ->. done.
    + intros y Hy. destruct (member_ok h _ y HC Hy) as (q0 & ? & ? & _). exists q0.
      split; [done|]. right. left. congruence.
    + intros k l Hk. split; [done|]. intros Hk2. destruct (li_parts s H k l Hk) as (_ & (h0 & ? & ?) & _).
      rewrite Hk2 in *. by simplify_eq.
    + intros p l y Hk Hk' _. congruence.
    + intros y qy Hy Hout Hl. rewrite lookup_insert_ne in Hy by (intros ->; done).
      destruct (li_locked s y qy res H Hy Hl) as (h0 & ? & _ & _ & ?). by simplify_eq.
  - destruct (li_parts s H k l Hk) as (Nd & Hex & P). destruct (P r Hr) as (q0 & ? & Hok). simplify_eq.
    assert (part_ok k q') as Hok' by (unfold part_ok in *; simpl; naive_solver).
    destruct H as [A B C]. split; simpl.
    + intros res h Hh. destruct (A res h Hh) as [? [HC HN]]. split; [done|]. split; [|done].
      eapply HCore_frame; [|done]. intros y Hy. apply lookup_insert_ne. intros ->.
      by eapply part_not_member.
    + intros k' l' Hk'. destruct (B k' l' Hk') as (? & ? & P'). split_and!; try done.
      intros y Hy. destruct (decide (r = y)) as [->|].
      * exists q'. rewrite lookup_insert_eq. split; [done|].
        destruct (P' y Hy) as (q1 & ? & (_ & E1 & _)). destruct Hok as (_ & E2 & _). simplify_eq. congruence.
      * rewrite lookup_insert_ne by done. auto.
    + intros y qy. rewrite lookup_insert. case_decide; [|auto]. intros. simplify_eq.
      right. right. exists k, l. done.
Qed.

(** A resource without a lock head may be given an empty one. *)
Lemma LInv_findOrInsert s res :
  LInv s →
  LInv (mkLM (lm_requests s) (<[res := head_findOrInsert res (lm_heads s)]> (lm_heads s))
          (lm_partitions s) (lm_notes s)).
Proof.
  intros H. unfold head_findOrInsert. destruct (lm_heads s !! res) as [h|] eqn:E.
  { rewrite insert_id by done. by destruct s. }
  assert (HInv (LockHead_initNew res) (lm_requests s)) as HI.
  { split; [|by intros []]. split; simpl; try done; try apply NoDup_nil_2; set_solver. }
  apply LInv_update; try done.
  - intros. by left.
  - simpl. intros r Hr. unfold members in Hr. simpl in Hr. set_solver.
  - intros k l Hk. split; [done|]. intros Hk2. destruct (li_parts s H k l Hk) as (_ & (h0 & ? & ?) & _).
    congruence.
  - intros p l r Hk Hk'. congruence.
  - intros r q Hq _ Hl. destruct (li_locked s r q res H Hq Hl) as (h0 & ? & _). congruence.
Qed.

(** Putting a new request on the partitioned lock head of its resource. *)
Lemma LInv_partition_new s res h p l r q :
  LInv s → lm_heads s !! res = Some h → lm_requests s !! r = Some q → new_ok q →
  lr_partitioned q = true → is_intent (lr_mode q) → p ∈ lh_partitions h →
  l = partition_findOrInsert (p, res) (lm_partitions s) →
  LInv (mkLM (<[r := set_status STATUS_GRANTED (set_partitionedLock (Some (p, res)) q)]> (lm_requests s))
          (lm_heads s) (<[(p, res) := l ++ [r]]> (lm_partitions s)) (lm_notes s)).
Proof.
  intros H Hh Hq (N1 & N2 & N3 & N4 & N5) Hp Hi Hin Hl.
  set (q' := set_status _ _).
  assert (∀ y q0, y ≠ r → <[r:=q']> (lm_requests s) !! y = Some q0 ↔ lm_requests s !! y = Some q0) as Fr.
  { intros. by rewrite lookup_insert_ne. }
  assert (∀ k l', lm_partitions s !! k = Some l' → r ∉ l') as Hfresh.
  { intros k l' Hk Hr. destruct (li_parts s H k l' Hk) as (_ & _ & P).
    destruct (P r Hr) as (q0 & ? & (_ & _ & _ & ? & _)). congruence. }
  assert (NoDup l ∧ ∀ y, y ∈ l → ∃ q, lm_requests s !! y = Some q ∧ part_ok (p, res) q) as [Hnd Hok].
  { subst l. unfold partition_findOrInsert.
    destruct (lm_partitions s !! (p, res)) as [l'|] eqn:E; [|split; [apply NoDup_nil_2|set_solver]].
    by destruct (li_parts s H _ l' E) as (? & _ & ?). }
  assert (r ∉ l) as Hrl.
  { intros Hr. destruct (Hok r Hr) as (q0 & ? & (_ & _ & _ & ? & _)). congruence. }
  split; simpl.
  - intros res2 h2 Hh2. destruct (li_heads s H res2 h2 Hh2) as [? [HC HN]].
    split; [done|]. split; [|done]. eapply HCore_frame; [|done]. intros y Hy.
    apply lookup_insert_ne. intros ->. destruct (member_ok h2 _ y HC Hy) as (? & ? & ? & _). congruence.
  - intros k l'. rewrite lookup_insert. case_decide as Hd.
    + intros ?. simplify_eq. split_and!.
      * apply NoDup_app. split; [done|]. split; [|apply NoDup_singleton]. set_solver.
      * exists h. done.
      * intros y [Hy|Hy%list_elem_of_singleton]%elem_of_app.
        -- destruct (Hok y Hy) as (q0 & ? & ?). exists q0. split; [|done]. apply Fr; [|done].
           intros ->. done.
        -- subst. exists q'. rewrite lookup_insert_eq. split; [done|].
           unfold part_ok. simpl. split_and!; try done. lia.
    + intros Hk. destruct (li_parts s H k l' Hk) as (? & ? & P). split_and!; try done.
      intros y Hy. destruct (P y Hy) as (q0 & ? & ?). exists q0. split; [|done]. apply Fr; [|done].
      intros ->. by eapply Hfresh.
  - intros y qy. rewrite lookup_insert. case_decide as Hd.
    + intros. simplify_eq. right. right. exists (p, res). eexists. split; [done|].
      rewrite lookup_insert_eq. split; [done|]. set_solver.
    + intros Hy. destruct (li_placed s H y qy Hy) as [?|[?|(k & l' & ? & Hk & ?)]]; [auto|auto|].
      right. right. destruct (decide ((p, res) = k)) as [e|].
      * exists k. eexists. rewrite e, lookup_insert_eq. split_and!; [done..|].
        unfold partition_findOrInsert in Hl. rewrite e, Hk in Hl. set_solver.
      * exists k, l'. by rewrite lookup_insert_ne.
Qed.

(** Updating the head of [res] in place: the requests that are filed on the new
    head are those of the old one and possibly new ones, and a request that
    left the head is gone. *)
Lemma LInv_head_step s res h h' rm' nt' :
  LInv s → lm_heads s !! res = Some h → same_lock h h' → HInv h' rm' →
  (∀ r, r ∉ members h' → r ∉ members h → rm' !! r = lm_requests s !! r) →
  (∀ r, r ∉ members h' → r ∈ members h → rm' !! r = None) →
  (∀ r, r ∈ members h' → r ∈ members h ∨ ∃ q, lm_requests s !! r = Some q ∧ new_ok q) →
  LInv (mkLM rm' (<[res := h']> (lm_heads s)) (lm_partitions s) nt').
Proof.
  intros H Hh [S1 S2] HI A1 A2 B. destruct (li_heads s H res h Hh) as [Hres [HC HN]].
  apply LInv_update; try done.
  - congruence.
  - intros r Hr. destruct (decide (r ∈ members h)) as [Hin|Hout]; [|left; auto].
    right. split; [auto|]. destruct (member_ok h _ r HC Hin) as (q & ? & ? & _).
    exists q. split; congruence.
  - intros r Hr. destruct (B r Hr) as [Hin|(q & ? & ?)].
    + destruct (member_ok h _ r HC Hin) as (q & ? & ? & _). exists q. split; [done|].
      right. left. congruence.
    + exists q. auto.
  - intros k l Hk. split; [done|]. intros Hk2.
    destruct (li_parts s H k l Hk) as (_ & (h0 & ? & ?) & _). rewrite Hk2 in *. simplify_eq. congruence.
  - intros p l r Hk Hk'. congruence.
  - intros r q Hq Hout Hl. destruct (decide (r ∈ members h)) as [Hin|Hin].
    + rewrite A2 in Hq by done. done.
    + rewrite A1 in Hq by done. destruct (li_locked s r q res H Hq Hl) as (h0 & ? & _ & _ & ?).
      by simplify_eq.
Qed.

Lemma new_not_member s res h r q :
  LInv s → lm_heads s !! res = Some h → lm_requests s !! r = Some q → new_ok q → r ∉ members h.
Proof.
  intros H Hh Hq (N & _) Hr. destruct (li_heads s H res h Hh) as [_ [HC _]].
  destruct (member_ok h _ r HC Hr) as (q' & ? & ? & _). congruence.
Qed.

(** A new request may change in the fields that are set before filing. *)
Lemma LInv_new_change s r q q' :
  LInv s → (lm_requests s !! r = None ∨ (lm_requests s !! r = Some q ∧ new_ok q)) → new_ok q' →
  LInv (with_requests (<[r := q']> (lm_requests s)) s).
Proof.
  intros H Hq N'.
  assert (∀ k l, lm_partitions s !! k = Some l → r ∉ l) as Hfresh.
  { intros k l Hk Hr. destruct (li_parts s H k l Hk) as (_ & _ & P).
    destruct (P r Hr) as (q0 & ? & (_ & ? & _)).
    destruct Hq as [?|(? & (_ & ? & _))]; congruence. }
  split; simpl.
  - intros res h Hh. destruct (li_heads s H res h Hh) as [? [HC HN]]. split; [done|]. split; [|done].
    eapply HCore_frame; [|done]. intros y Hy. apply lookup_insert_ne. intros ->.
    destruct (member_ok h _ y HC Hy) as (q0 & ? & ? & _).
    destruct Hq as [?|(? & (? & _))]; congruence.
  - intros k l Hk. destruct (li_parts s H k l Hk) as (? & ? & P). split_and!; try done.
    intros y Hy. rewrite lookup_insert_ne; [auto|]. intros ->. by eapply Hfresh.
  - intros y qy. rewrite lookup_insert. case_decide; [|apply H]. intros. simplify_eq. by left.
Qed.

Lemma lockFast_ok s res r m q :
  LInv s → lm_requests s !! r = Some q → new_ok q → m ≠ MODE_NONE →
  ∃ served s', lockFast res r m s = Some (served, s') ∧ LInv s' ∧
    (served = false → ∃ q', lm_requests s' !! r = Some q' ∧ new_ok q' ∧ lr_mode q' = m ∧
       (lr_partitioned q' = true → is_intent (lr_mode q'))).
Proof.
  intros H Hq N Hm. pose proof N as (N1 & N2 & N3 & N4 & N5). unfold lockFast. rewrite Hq. simpl.
  rewrite bool_decide_eq_true_2 by done. rewrite N3. simpl.
  set (b := bool_decide (m = MODE_IX) || bool_decide (m = MODE_IS)).
  set (q1 := set_mode m (set_partitioned b q)).
  assert (new_ok q1) as N' by done.
  assert (b = true → is_intent m) as Hb.
  { unfold b. intros [E|E]%orb_true_iff; to_prop; unfold is_intent; auto. }
  pose proof (LInv_new_change s r q q1 H (or_intror (conj Hq N)) N') as H1.
  assert (∃ q', lm_requests (with_requests (<[r := q1]> (lm_requests s)) s) !! r = Some q' ∧
    new_ok q' ∧ lr_mode q' = m ∧ (lr_partitioned q' = true → is_intent (lr_mode q'))) as Hend.
  { exists q1. simpl. rewrite lookup_insert_eq. done. }
  destruct b eqn:Eb; [|by eexists false, _].
  destruct (lm_partitions s !! _) as [l|] eqn:El; [|by eexists false, _].
  unfold partition_newRequest. rewrite lookup_insert_eq. simpl.
  rewrite bool_decide_eq_true_2 by done. simpl. eexists true, _. split; [done|]. split; [|done].
  destruct (li_parts s H _ l El) as (_ & (h & Hh & Hin) & _). simpl in Hh, Hin.
  eapply (LInv_partition_new _ res h _ l r q1 H1); simpl.
  - done.
  - by rewrite lookup_insert_eq.
  - done.
  - done.
  - auto.
  - done.
  - unfold partition_findOrInsert. by rewrite El.
Qed.

Lemma lockSlow_ok s res r q :
  LInv s → lm_requests s !! r = Some q → new_ok q → lr_mode q ≠ MODE_NONE →
  (lr_partitioned q = true → is_intent (lr_mode q)) →
  ∃ result s', lockSlow res r s = Some (result, s') ∧ LInv s'.
Proof.
  intros H Hq N Hm Hi. unfold lockSlow. rewrite Hq. simpl.
  apply (LInv_findOrInsert s res) in H.
  set (h := head_findOrInsert res (lm_heads s)) in *.
  set (s0 := mkLM _ _ _ _) in H.
  assert (lm_heads s0 !! res = Some h) as Hh by apply lookup_insert_eq.
  destruct (li_heads s0 H res h Hh) as [Hres [HC HN]].
  destruct (_ && _) eqn:E.
  - apply andb_true_iff in E as [[Ep Eg]%andb_true_iff Ec]. to_prop.
    unfold partition_newRequest. rewrite Hq. simpl. rewrite Ep. destruct N as (N1 & N2). rewrite bool_decide_eq_true_2 by done. simpl.
    eexists _, _. split; [done|].
    set (p := _getPartition q).
    set (h1 := with_partitions (lh_partitions h ++ [p]) h).
    assert (LInv (mkLM (lm_requests s) (<[res := h1]> (<[res := h]> (lm_heads s))) (lm_partitions s) (lm_notes s)))
      as H'.
    { apply (LInv_update s0); try done.
      - split; [|done]. pose proof HC as HC0. destruct HC. split; try done. intros _. simpl. split.
        + by apply (hc_intent_mask h _ HC0).
        + by apply (hc_conflict_empty h _ HC0).
      - auto.
      - intros y Hy. destruct (member_ok h _ y HC Hy) as (q0 & ? & ? & _). exists q0.
        split; [done|]. right. left. congruence.
      - intros k l Hk. split; [done|]. intros Hk2. destruct (li_parts s0 H k l Hk) as (_ & (h0 & ? & ?) & _).
        rewrite Hk2 in *. simplify_eq. simpl. set_solver.
      - intros p' l y Hk Hk'. simpl in Hk. congruence.
      - intros y qy Hy Hout Hl. destruct (li_locked s0 y qy res H Hy Hl) as (h0 & ? & _ & _ & ?).
        by simplify_eq. }
    rewrite insert_insert_eq in H'.
    apply (LInv_partition_new _ res h1 p _ r q H'); simpl; try done.
    + by rewrite lookup_insert_eq.
    + auto.
    + set_solver.
  - destruct (migrate_LInv s0 res h H Hh) as (h1 & rm1 & pd1 & E1 & H1 & Hr1 & Hp1 & Hpd1 & _ & Hnew).
    change (if is_partitioned h then _ else _) with
      (migrateIfPartitioned h (lm_requests s0) (lm_partitions s0)).
    rewrite E1. simpl. rewrite (Hnew r q Hq N). simpl.
    specialize (H1 (lm_notes s)). set (s1 := mkLM _ _ _ _) in H1.
    assert (lm_heads s1 !! res = Some h1) as Hh1 by apply lookup_insert_eq.
    destruct (li_heads s1 H1 res h1 Hh1) as [_ [HC1 HN1]].
    set (q1 := set_partitioned false q). pose proof N as (N1 & N2 & N3 & N4 & N5).
    assert (new_ok q1) as Nq1 by done.
    assert (r ∉ members h1) as Hr by (by apply (new_not_member s1 res h1 r q H1 Hh1 (Hnew r q Hq N))).
    assert (HInv h1 (<[r := q1]> rm1)) as HI1.
    { split; [|done]. eapply HCore_frame; [|done]. intros y Hy. apply lookup_insert_ne. intros ->. done. }
    destruct (newRequest_ok h1 (<[r := q1]> rm1) r q1 HI1) as (h2 & Hs & Hcase); try done.
    { apply lookup_insert_eq. }
    { simpl. lia. }
    { left. split_and!; try done. }
    rewrite !insert_insert_eq in Hcase.
    assert (∃ result q2, newRequest r h1 (<[r := q1]> rm1) = Some (result, h2, <[r := q2]> rm1) ∧
      HInv h2 (<[r := q2]> rm1) ∧ members h2 ≡ₚ r :: members h1) as (result & q2 & E2 & H2 & Hmem).
    { unfold members.
      destruct Hcase as [(E2 & HI2 & G2 & C2)|(E2 & HI2 & G2 & _ & C2)];
        (eexists _, _; split_and!; [exact E2|exact HI2|]).
      - rewrite G2, C2, <- app_assoc. simpl. symmetry. apply Permutation_middle.
      - rewrite G2. destruct C2 as [->| ->].
        + symmetry. apply Permutation_middle.
        + rewrite (Permutation_app_comm _ [r]). simpl. symmetry. apply Permutation_middle. }
    rewrite E2. simpl. eexists _, _. split; [done|].
    change (lm_heads s) with (lm_heads s).
    replace (<[res:=h2]> (lm_heads s)) with (<[res:=h2]> (lm_heads s1))
      by (unfold s1, s0; simpl; by rewrite !insert_insert_eq).
    apply (LInv_head_step s1 res h1 h2); try done.
    + intros y Hy _. rewrite Hmem in Hy. apply lookup_insert_ne. set_solver.
    + intros y Hy Hin. rewrite Hmem in Hy. set_solver.
    + intros y. rewrite Hmem. intros [->|?]%elem_of_cons; [right|by left].
      exists q. split; [|done]. by apply Hnew.
Qed.
