(* ===== verification/LockUnlocking.v ===== *)
(** Between the two halves of [unlock] a request has one reference less than its owner still
    holds.  No operation on other requests looks at that count, so that each of them runs as it
    would if the reference were still counted. *)
From S2P Require Import Prelude LockModes LockManager LockHeadInv LockManagerInv.
Import LockHead LockManager.

(** ** Counting the references of requests that are being unlocked *)

Section Counted.
Context (U : gset positive).

(** A request with the reference that its owner is about to release. *)
Definition counted (r : ReqId) (q : LockRequest) : LockRequest :=
  if decide (r ∈ U) then set_recursiveCount (lr_recursiveCount q + 1) q else q.

Definition countedMap (rm : ReqMap) : ReqMap := map_imap (λ r q, Some (counted r q)) rm.

Definition countedState (s : LMState) : LMState := with_requests (countedMap (lm_requests s)) s.

Lemma lookup_counted rm r : countedMap rm !! r = counted r <$> rm !! r.
Proof. unfold countedMap. rewrite map_lookup_imap. by destruct (rm !! r). Qed.

Lemma insert_counted rm r q : <[r := counted r q]> (countedMap rm) = countedMap (<[r := q]> rm).
Proof.
  apply map_eq. intros i. rewrite lookup_counted, !lookup_insert. case_decide; [by subst|].
  by rewrite lookup_counted.
Qed.

Lemma delete_counted rm r : delete r (countedMap rm) = countedMap (delete r rm).
Proof. apply map_eq. intros i. rewrite lookup_counted, !lookup_delete. case_decide; [done|]. by rewrite lookup_counted. Qed.

Lemma counted_out r q : r ∉ U → counted r q = q.
Proof. intros Hr. unfold counted. by rewrite decide_False. Qed.

Lemma insert_counted_out rm r q : r ∉ U → <[r := q]> (countedMap rm) = countedMap (<[r := q]> rm).
Proof. intros Hr. by rewrite <- insert_counted, counted_out. Qed.

(** What the operations read and change. *)
Lemma counted_locker r q : lr_locker (counted r q) = lr_locker q.
Proof. unfold counted. by case_decide. Qed.
Lemma counted_front r q : lr_enqueueAtFront (counted r q) = lr_enqueueAtFront q.
Proof. unfold counted. by case_decide. Qed.
Lemma counted_compatible r q : lr_compatibleFirst (counted r q) = lr_compatibleFirst q.
Proof. unfold counted. by case_decide. Qed.
Lemma counted_partitioned r q : lr_partitioned (counted r q) = lr_partitioned q.
Proof. unfold counted. by case_decide. Qed.
Lemma counted_lock r q : lr_lock (counted r q) = lr_lock q.
Proof. unfold counted. by case_decide. Qed.
Lemma counted_partitionedLock r q : lr_partitionedLock (counted r q) = lr_partitionedLock q.
Proof. unfold counted. by case_decide. Qed.
Lemma counted_status r q : lr_status (counted r q) = lr_status q.
Proof. unfold counted. by case_decide. Qed.
Lemma counted_mode r q : lr_mode (counted r q) = lr_mode q.
Proof. unfold counted. by case_decide. Qed.
Lemma counted_convertMode r q : lr_convertMode (counted r q) = lr_convertMode q.
Proof. unfold counted. by case_decide. Qed.
Lemma counted_set_status r q v : set_status v (counted r q) = counted r (set_status v q).
Proof. unfold counted. by case_decide. Qed.
Lemma counted_set_mode r q v : set_mode v (counted r q) = counted r (set_mode v q).
Proof. unfold counted. by case_decide. Qed.
Lemma counted_set_convertMode r q v : set_convertMode v (counted r q) = counted r (set_convertMode v q).
Proof. unfold counted. by case_decide. Qed.
Lemma counted_set_lock r q v : set_lock v (counted r q) = counted r (set_lock v q).
Proof. unfold counted. by case_decide. Qed.
Lemma counted_set_partitionedLock r q v :
  set_partitionedLock v (counted r q) = counted r (set_partitionedLock v q).
Proof. unfold counted. by case_decide. Qed.
Lemma counted_set_partitioned r q v : set_partitioned v (counted r q) = counted r (set_partitioned v q).
Proof. unfold counted. by case_decide. Qed.
End Counted.

Create Rewrite HintDb counted.
#[export] Hint Rewrite lookup_counted counted_locker counted_front counted_compatible counted_partitioned counted_lock
  counted_partitionedLock counted_status counted_mode counted_convertMode counted_set_status counted_set_mode
  counted_set_convertMode counted_set_lock counted_set_partitionedLock counted_set_partitioned insert_counted : counted.

(** ** The operations run alike *)

Section Alike.
Context (U : gset positive).

Lemma newRequest_counted r h rm :
  newRequest r h (countedMap U rm) = (λ x, (x.1, countedMap U x.2)) <$> newRequest r h rm.
Proof.
  unfold newRequest. rewrite lookup_counted. destruct (rm !! r) as [q|]; [|done]. simpl.
  autorewrite with counted. case_match; [|done]. simpl. autorewrite with counted. simpl.
  destruct (_ || _); simpl; autorewrite with counted.
  - by destruct (incConflictModeCount _ _).
  - by destruct (incGrantedModeCount _ _).
Qed.

Lemma migrateRequests_counted l h rm :
  migrateRequests l h (countedMap U rm) = (λ x, (x.1, countedMap U x.2)) <$> migrateRequests l h rm.
Proof.
  revert h rm. induction l as [|r l IH]; intros h rm; simpl; [done|].
  rewrite lookup_counted. destruct (rm !! r) as [q|]; [|done]. simpl. autorewrite with counted.
  rewrite newRequest_counted. destruct (newRequest _ _ _) as [[[res h'] rm']|]; [|done]. simpl.
  case_match; [apply IH|done].
Qed.

Lemma migratePartitions_counted ps h rm pd :
  migratePartitions ps h (countedMap U rm) pd
  = (λ x, (x.1.1, countedMap U x.1.2, x.2)) <$> migratePartitions ps h rm pd.
Proof.
  revert h rm pd. induction ps as [|p ps IH]; intros h rm pd; simpl; [done|].
  destruct (pd !! _) as [l|]; [|apply IH]. rewrite migrateRequests_counted.
  destruct (migrateRequests _ _ _) as [[h' rm']|]; [|done]. simpl. apply IH.
Qed.

Lemma migrate_counted h rm pd :
  migratePartitionedLockHeads h (countedMap U rm) pd
  = (λ x, (x.1.1, countedMap U x.1.2, x.2)) <$> migratePartitionedLockHeads h rm pd.
Proof.
  unfold migratePartitionedLockHeads. do 2 (case_match; [|done]). simpl.
  rewrite migratePartitions_counted. by destruct (migratePartitions _ _ _ _) as [[[]]|].
Qed.

Lemma migrateIf_counted (b : bool) h rm pd :
  (if b then migratePartitionedLockHeads h (countedMap U rm) pd else Some (h, countedMap U rm, pd))
  = (λ x, (x.1.1, countedMap U x.1.2, x.2)) <$>
      (if b then migratePartitionedLockHeads h rm pd else Some (h, rm, pd)).
Proof. destruct b; [apply migrate_counted|done]. Qed.

Lemma partition_newRequest_counted k l r rm pd :
  partition_newRequest k l r (countedMap U rm) pd
  = (λ x, (countedMap U x.1, x.2)) <$> partition_newRequest k l r rm pd.
Proof.
  unfold partition_newRequest. rewrite lookup_counted. destruct (rm !! r) as [q|]; [|done]. simpl.
  autorewrite with counted. do 2 (case_match; [|done]). simpl. by autorewrite with counted.
Qed.

Lemma grantConversions_counted l h rm nt :
  grantConversions l h (countedMap U rm) nt
  = (λ x, (x.1.1, countedMap U x.1.2, x.2)) <$> grantConversions l h rm nt.
Proof.
  revert h rm nt. induction l as [|r l IH]; intros h rm nt; simpl; [done|].
  destruct (_ <=? 0); [done|]. rewrite lookup_counted. destruct (rm !! r) as [q|]; [|done]. simpl.
  autorewrite with counted. case_bool_decide; [|apply IH]. do 2 (case_match; [|done]). simpl.
  destruct (conflicts _ _); [apply IH|]. destruct (decGrantedModeCount _ _); [|done]. simpl.
  autorewrite with counted. apply IH.
Qed.

Lemma grantConflicts_counted l b h rm nt :
  grantConflicts l b h (countedMap U rm) nt
  = (λ x, (x.1.1, countedMap U x.1.2, x.2)) <$> grantConflicts l b h rm nt.
Proof.
  revert b h rm nt. induction l as [|r l IH]; intros b h rm nt; simpl; [done|].
  rewrite lookup_counted. destruct (rm !! r) as [q|]; [|done]. simpl.
  autorewrite with counted. case_match; [|done]. simpl. autorewrite with counted.
  destruct (conflicts _ _); [destruct (_ && _); [done|apply IH]|].
  destruct (decConflictModeCount _ _) as [h1|]; [|done]. simpl.
  destruct (incGrantedModeCount _ _) as [h2|]; [|done]. simpl.
  autorewrite with counted. destruct (bool_decide (lr_mode q = MODE_X)); [done|apply IH].
Qed.

Lemma onLockModeChanged_counted h b rm nt :
  _onLockModeChanged h b (countedMap U rm) nt
  = (λ x, (x.1.1, countedMap U x.1.2, x.2)) <$> _onLockModeChanged h b rm nt.
Proof.
  unfold _onLockModeChanged. rewrite grantConversions_counted.
  destruct (grantConversions _ _ _ _) as [[[h1 rm1] nt1]|]; [|done]. simpl. destruct b.
  - rewrite grantConflicts_counted. destruct (grantConflicts _ _ _ _ _) as [[[h2 rm2] nt2]|]; [|done]. simpl.
    by do 2 (case_match; [|done]).
  - simpl. by do 2 (case_match; [|done]).
Qed.

Lemma unlockInHead_counted r q s :
  r ∉ U → unlockInHead r q (countedState U s) = countedState U <$> unlockInHead r q s.
Proof.
  intros Hr. unfold unlockInHead. destruct (lr_lock q) as [res|]; [|done]. simpl.
  destruct (lm_heads s !! res) as [h|]; [|done]. simpl. destruct (lr_status q); [done|..].
  - destruct (decGrantedModeCount _ _) as [h1|]; [|done]. simpl.
    destruct (if lr_compatibleFirst q then _ else _) as [h2|]; [|done]. simpl.
    rewrite onLockModeChanged_counted. by destruct (_onLockModeChanged _ _ _ _) as [[[]]|].
  - case_match; [|done]. destruct (decConflictModeCount _ _) as [h1|]; [|done]. simpl.
    rewrite onLockModeChanged_counted. by destruct (_onLockModeChanged _ _ _ _) as [[[]]|].
  - do 2 (case_match; [|done]). destruct (decGrantedModeCount _ _) as [h1|]; [|done]. simpl.
    rewrite insert_counted_out, onLockModeChanged_counted by done.
    by destruct (_onLockModeChanged _ _ _ _) as [[[]]|].
Qed.

Lemma unlockSlow_counted r s :
  r ∉ U → unlockSlow r (countedState U s) = (λ x, (x.1, countedState U x.2)) <$> unlockSlow r s.
Proof.
  intros Hr. unfold unlockSlow. simpl. rewrite lookup_counted. destruct (lm_requests s !! r) as [q|]; [|done].
  simpl. rewrite counted_out by done. case_match; [|done].
  destruct (lr_partitioned q); [destruct (lr_partitionedLock q) as [k|]|];
    [by destruct (lm_partitions s !! k)|..]; rewrite unlockInHead_counted by done;
    by destruct (unlockInHead r q s).
Qed.

Lemma lockFast_counted res r m s :
  r ∉ U → lockFast res r m (countedState U s) = (λ x, (x.1, countedState U x.2)) <$> lockFast res r m s.
Proof.
  intros Hr. unfold lockFast. simpl. rewrite lookup_counted. destruct (lm_requests s !! r) as [q|]; [|done].
  simpl. rewrite counted_out by done. do 2 (case_match; [|done]). rewrite insert_counted_out by done.
  destruct (_ || _); [|done]. destruct (lm_partitions s !! _) as [l|]; [|done].
  rewrite partition_newRequest_counted. by destruct (partition_newRequest _ _ _ _ _) as [[]|].
Qed.

Lemma lockSlow_counted res r s :
  r ∉ U → lockSlow res r (countedState U s) = (λ x, (x.1, countedState U x.2)) <$> lockSlow res r s.
Proof.
  intros Hr. unfold lockSlow. simpl. rewrite lookup_counted. destruct (lm_requests s !! r) as [q|]; [|done].
  simpl. rewrite counted_out by done. destruct (_ && _).
  - rewrite partition_newRequest_counted. by destruct (partition_newRequest _ _ _ _ _) as [[]|].
  - rewrite migrateIf_counted. destruct (if is_partitioned _ then _ else _) as [[[h rm] pd]|]; [|done]. simpl.
    rewrite lookup_counted. destruct (rm !! r) as [q1|]; [|done]. simpl.
    rewrite counted_out, insert_counted_out, newRequest_counted by done. by destruct (newRequest _ _ _) as [[[]]|].
Qed.

Lemma convert_counted res r m s :
  r ∉ U → convert res r m (countedState U s) = (λ x, (x.1, countedState U x.2)) <$> convert res r m s.
Proof.
  intros Hr. unfold convert. simpl. rewrite lookup_counted. destruct (lm_requests s !! r) as [q|]; [|done].
  simpl. rewrite counted_out, insert_counted_out by done. do 2 (case_match; [|done]). case_match; [done|].
  case_match; [|done]. destruct (lm_heads s !! res) as [h|]; [|done]. simpl.
  rewrite migrateIf_counted. destruct (if is_partitioned _ then _ else _) as [[[h1 rm] pd]|]; [|done]. simpl.
  rewrite lookup_counted. destruct (rm !! r) as [q1|]; [|done]. simpl. rewrite counted_out by done.
  destruct (conflicts _ _); simpl.
  - destruct (incGrantedModeCount _ _); [|done]. simpl. by rewrite insert_counted_out.
  - destruct (incGrantedModeCount _ _) as [h2|]; [|done]. simpl. destruct (decGrantedModeCount _ _); [|done].
    simpl. by rewrite insert_counted_out.
Qed.

Lemma downgrade_counted r m s :
  r ∉ U → downgrade r m (countedState U s) = countedState U <$> downgrade r m s.
Proof.
  intros Hr. unfold downgrade. simpl. rewrite lookup_counted. destruct (lm_requests s !! r) as [q|]; [|done].
  simpl. rewrite counted_out by done. destruct (lr_lock q) as [res|]; [|done]. simpl. do 3 (case_match; [|done]).
  destruct (lm_heads s !! res) as [h|]; [|done]. simpl. destruct (incGrantedModeCount _ _) as [h1|]; [|done]. simpl.
  destruct (decGrantedModeCount _ _) as [h2|]; [|done]. simpl. rewrite insert_counted_out, onLockModeChanged_counted by done.
  by destruct (_onLockModeChanged _ _ _ _) as [[[]]|].
Qed.

Lemma cleanupOne_counted res s : cleanupOne res (countedState U s) = countedState U <$> cleanupOne res s.
Proof.
  unfold cleanupOne. simpl. destruct (lm_heads s !! res) as [h|]; [|done]. simpl.
  rewrite migrateIf_counted. destruct (if is_partitioned _ then _ else _) as [[[h1 rm] pd]|]; [|done]. simpl.
  case_match; [|done]. by do 5 (case_match; [|done]).
Qed.

Lemma cleanup_counted s : cleanupUnusedLocks (countedState U s) = countedState U <$> cleanupUnusedLocks s.
Proof.
  unfold cleanupUnusedLocks. simpl. generalize (map_to_list (lm_heads s)).*1. intros l. revert s.
  induction l as [|res l IH]; intros s; simpl; [done|]. rewrite cleanupOne_counted.
  destruct (cleanupOne res s) as [s'|]; [|done]. apply IH.
Qed.
End Alike.

(** ** A request that was passed to [lock] stays one *)

Definition filedKept (rm rm' : ReqMap) : Prop :=
  ∀ r q, rm !! r = Some q → lr_status q ≠ STATUS_NEW →
    ∃ q', rm' !! r = Some q' ∧ lr_status q' ≠ STATUS_NEW.

#[export] Instance filedKept_preorder : PreOrder filedKept.
Proof.
  split; [intros rm r q; eauto|]. intros rm1 rm2 rm3 H12 H23 r q Hq Hst.
  destruct (H12 r q Hq Hst) as (q2 & Hq2 & Hst2). by apply (H23 r q2).
Qed.

Lemma filedKept_insert rm r q' :
  (lr_status q' = STATUS_NEW → ∀ q, rm !! r = Some q → lr_status q = STATUS_NEW) →
  filedKept rm (<[r := q']> rm).
Proof.
  intros Hn r2 q2 Hq2 Hst. rewrite lookup_insert. case_decide as Hd; [subst|by exists q2].
  exists q'. split; [done|]. intros E. apply Hst. by apply Hn.
Qed.

Section Kept.
Lemma newRequest_filedKept r h rm x : newRequest r h rm = Some x → filedKept rm x.2.
Proof.
  unfold newRequest. destruct (rm !! r) as [q|] eqn:Hq; [|done]. simpl. case_match; [|done].
  destruct (_ || _); simpl; [destruct (incConflictModeCount _ _)|destruct (incGrantedModeCount _ _)]; try done;
    intros [= <-]; by apply filedKept_insert.
Qed.

Lemma migrateRequests_filedKept l h rm x : migrateRequests l h rm = Some x → filedKept rm x.2.
Proof.
  revert h rm. induction l as [|r l IH]; intros h rm; simpl; [by intros [= <-]|].
  destruct (rm !! r) as [q|] eqn:Hq; [|done]. simpl.
  destruct (newRequest _ _ _) as [[[res h'] rm']|] eqn:E; [|done]. simpl. case_match; [|done].
  intros Hx%IH. apply newRequest_filedKept in E. etrans; [|done]. etrans; [|exact E].
  apply filedKept_insert. simpl. intros Hn q2 Hq2. congruence.
Qed.

Lemma migratePartitions_filedKept ps h rm pd x : migratePartitions ps h rm pd = Some x → filedKept rm x.1.2.
Proof.
  revert h rm pd. induction ps as [|p ps IH]; intros h rm pd; simpl; [by intros [= <-]|].
  destruct (pd !! _) as [l|]; [|apply IH]. destruct (migrateRequests l h rm) as [[h' rm']|] eqn:E; [|done]. simpl.
  intros Hx%IH. apply migrateRequests_filedKept in E. by etrans.
Qed.

Lemma migrateIf_filedKept (b : bool) h rm pd x :
  (if b then migratePartitionedLockHeads h rm pd else Some (h, rm, pd)) = Some x → filedKept rm x.1.2.
Proof.
  destruct b; [|by intros [= <-]]. unfold migratePartitionedLockHeads. do 2 (case_match; [|done]). simpl.
  destruct (migratePartitions _ _ _ _) as [[[h' rm'] pd']|] eqn:E; [|done]. intros [= <-].
  by apply migratePartitions_filedKept in E.
Qed.

Lemma partition_newRequest_filedKept k l r rm pd x : partition_newRequest k l r rm pd = Some x → filedKept rm x.1.
Proof.
  unfold partition_newRequest. destruct (rm !! r) as [q|] eqn:Hq; [|done]. simpl. do 2 (case_match; [|done]).
  intros [= <-]. by apply filedKept_insert.
Qed.

Lemma grantConversions_filedKept l h rm nt x : grantConversions l h rm nt = Some x → filedKept rm x.1.2.
Proof.
  revert h rm nt. induction l as [|r l IH]; intros h rm nt; simpl; [by intros [= <-]|].
  destruct (_ <=? 0); [by intros [= <-]|]. destruct (rm !! r) as [q|] eqn:Hq; [|done]. simpl.
  case_bool_decide; [|apply IH]. do 2 (case_match; [|done]). destruct (conflicts _ _); [apply IH|].
  destruct (decGrantedModeCount _ _); [|done]. simpl. intros Hx%IH. etrans; [|done]. by apply filedKept_insert.
Qed.

Lemma grantConflicts_filedKept l b h rm nt x : grantConflicts l b h rm nt = Some x → filedKept rm x.1.2.
Proof.
  revert b h rm nt. induction l as [|r l IH]; intros b h rm nt; simpl; [by intros [= <-]|].
  destruct (rm !! r) as [q|] eqn:Hq; [|done]. simpl. case_match; [|done].
  destruct (conflicts _ _); [destruct (_ && _); [by intros [= <-]|apply IH]|].
  destruct (decConflictModeCount _ _); [|done]. simpl. destruct (incGrantedModeCount _ _); [|done]. simpl.
  destruct (bool_decide (lr_mode q = MODE_X)).
  - intros [= <-]. by apply filedKept_insert.
  - intros Hx%IH. etrans; [|done]. by apply filedKept_insert.
Qed.

Lemma onLockModeChanged_filedKept h b rm nt x : _onLockModeChanged h b rm nt = Some x → filedKept rm x.1.2.
Proof.
  unfold _onLockModeChanged. destruct (grantConversions _ _ _ _) as [[[h1 rm1] nt1]|] eqn:E; [|done]. simpl.
  apply grantConversions_filedKept in E. destruct b.
  - destruct (grantConflicts _ _ _ _ _) as [[[h2 rm2] nt2]|] eqn:E2; [|done]. simpl.
    apply grantConflicts_filedKept in E2. do 2 (case_match; [|done]). intros [= <-]. by etrans.
  - simpl. do 2 (case_match; [|done]). by intros [= <-].
Qed.

Lemma unlockInHead_filedKept r q s s' :
  unlockInHead r q s = Some s' → filedKept (lm_requests s) (lm_requests s').
Proof.
  unfold unlockInHead. destruct (lr_lock q) as [res|]; [|done]. simpl.
  destruct (lm_heads s !! res) as [h|]; [|done]. simpl. destruct (lr_status q); [done|..].
  - destruct (decGrantedModeCount _ _) as [h1|]; [|done]. simpl.
    destruct (if lr_compatibleFirst q then _ else _) as [h2|]; [|done]. simpl.
    destruct (_onLockModeChanged _ _ _ _) as [[[]]|] eqn:E; [|done]. intros [= <-]. by apply onLockModeChanged_filedKept in E.
  - case_match; [|done]. destruct (decConflictModeCount _ _) as [h1|]; [|done]. simpl.
    destruct (_onLockModeChanged _ _ _ _) as [[[]]|] eqn:E; [|done]. intros [= <-]. by apply onLockModeChanged_filedKept in E.
  - do 2 (case_match; [|done]). destruct (decGrantedModeCount _ _) as [h1|]; [|done]. simpl.
    destruct (_onLockModeChanged _ _ _ _) as [[[]]|] eqn:E; [|done]. intros [= <-]. apply onLockModeChanged_filedKept in E.
    etrans; [|exact E]. by apply filedKept_insert.
Qed.

Lemma unlockSlow_filedKept r s x : unlockSlow r s = Some x → filedKept (lm_requests s) (lm_requests x.2).
Proof.
  unfold unlockSlow. destruct (lm_requests s !! r) as [q|]; [|done]. simpl. case_match; [|done].
  destruct (lr_partitioned q); [destruct (lr_partitionedLock q) as [k|]|].
  - destruct (lm_partitions s !! k); [|done]. by intros [= <-].
  - destruct (unlockInHead r q s) as [s'|] eqn:E; [|done]. intros [= <-]. by apply unlockInHead_filedKept in E.
  - destruct (unlockInHead r q s) as [s'|] eqn:E; [|done]. intros [= <-]. by apply unlockInHead_filedKept in E.
Qed.

Lemma lockFast_filedKept res r m s x : lockFast res r m s = Some x → filedKept (lm_requests s) (lm_requests x.2).
Proof.
  unfold lockFast. destruct (lm_requests s !! r) as [q|] eqn:Hq; [|done]. simpl. do 2 (case_match; [|done]).
  set (q1 := set_mode _ _). assert (K1 : filedKept (lm_requests s) (<[r := q1]> (lm_requests s))).
  { apply filedKept_insert. simpl. intros Hn q2 Hq2. congruence. }
  destruct (_ || _); [|by intros [= <-]]. destruct (lm_partitions s !! _) as [l|]; [|by intros [= <-]].
  destruct (partition_newRequest _ _ _ _ _) as [[rm pd]|] eqn:E; [|done]. intros [= <-].
  apply partition_newRequest_filedKept in E. by etrans.
Qed.

Lemma lockSlow_filedKept res r s x : lockSlow res r s = Some x → filedKept (lm_requests s) (lm_requests x.2).
Proof.
  unfold lockSlow. destruct (lm_requests s !! r) as [q|] eqn:Hq; [|done]. simpl. destruct (_ && _).
  - destruct (partition_newRequest _ _ _ _ _) as [[rm pd]|] eqn:E; [|done]. intros [= <-].
    by apply partition_newRequest_filedKept in E.
  - destruct (if is_partitioned _ then _ else _) as [[[h rm] pd]|] eqn:E; [|done]. simpl.
    apply migrateIf_filedKept in E. destruct (rm !! r) as [q1|] eqn:Hq1; [|done]. simpl.
    destruct (newRequest _ _ _) as [[[v h2] rm2]|] eqn:E2; [|done]. intros [= <-].
    apply newRequest_filedKept in E2. simpl in *. etrans; [exact E|]. etrans; [|exact E2].
    apply filedKept_insert. simpl. intros Hn q2 Hq2. congruence.
Qed.

Lemma convert_filedKept res r m s x : convert res r m s = Some x → filedKept (lm_requests s) (lm_requests x.2).
Proof.
  unfold convert. destruct (lm_requests s !! r) as [q|] eqn:Hq; [|done]. simpl. case_match eqn:Hst; [|done].
  apply bool_decide_eq_true in Hst. case_match; [|done].
  set (q1 := set_recursiveCount _ _). assert (K1 : filedKept (lm_requests s) (<[r := q1]> (lm_requests s))).
  { apply filedKept_insert. simpl. congruence. }
  case_match; [by intros [= <-]|]. case_match; [|done]. destruct (lm_heads s !! res) as [h|]; [|done]. simpl.
  destruct (if is_partitioned _ then _ else _) as [[[h1 rm] pd]|] eqn:E; [|done]. simpl. apply migrateIf_filedKept in E.
  assert (K2 : filedKept (lm_requests s) rm) by (by etrans). clear K1 E.
  destruct (K2 r q Hq) as (q3 & Hq3 & Hst3); [congruence|]. rewrite Hq3. simpl.
  destruct (conflicts _ _); simpl.
  - destruct (incGrantedModeCount _ _); [|done]. intros [= <-]. simpl. etrans; [exact K2|]. by apply filedKept_insert.
  - destruct (incGrantedModeCount _ _) as [h2|]; [|done]. simpl. destruct (decGrantedModeCount _ _); [|done].
    intros [= <-]. simpl. etrans; [exact K2|]. apply filedKept_insert. simpl. congruence.
Qed.

Lemma downgrade_filedKept r m s s' : downgrade r m s = Some s' → filedKept (lm_requests s) (lm_requests s').
Proof.
  unfold downgrade. destruct (lm_requests s !! r) as [q|] eqn:Hq; [|done]. simpl.
  destruct (lr_lock q) as [res|]; [|done]. simpl. case_match eqn:Hst; [|done]. apply bool_decide_eq_true in Hst.
  do 2 (case_match; [|done]). destruct (lm_heads s !! res) as [h|]; [|done]. simpl.
  destruct (incGrantedModeCount _ _) as [h1|]; [|done]. simpl. destruct (decGrantedModeCount _ _) as [h2|]; [|done]. simpl.
  destruct (_onLockModeChanged _ _ _ _) as [[[]]|] eqn:E; [|done]. intros [= <-]. apply onLockModeChanged_filedKept in E.
  etrans; [|exact E]. apply filedKept_insert. simpl. congruence.
Qed.

Lemma cleanup_filedKept s s' : cleanupUnusedLocks s = Some s' → filedKept (lm_requests s) (lm_requests s').
Proof.
  unfold cleanupUnusedLocks. generalize (map_to_list (lm_heads s)).*1. intros l. revert s.
  induction l as [|res l IH]; intros s; simpl; [by intros [= <-]|].
  destruct (cleanupOne res s) as [s1|] eqn:E; [|done]. intros Hx%IH. etrans; [|exact Hx].
  unfold cleanupOne in E. destruct (lm_heads s !! res) as [h|]; [|done]. simpl in E.
  destruct (if is_partitioned _ then _ else _) as [[[h1 rm] pd]|] eqn:E1; [|done]. simpl in E.
  apply migrateIf_filedKept in E1. simpl in E1. destruct (lh_grantedModes h1 =? 0); [|by simplify_eq].
  by do 5 (case_in E; [|done]); simplify_eq.
Qed.
End Kept.

(** ** Taking a reference, and the request that is being unlocked *)

Lemma counted_empty s : countedState ∅ s = s.
Proof.
  destruct s as [rm hs ps ns]. unfold countedState, with_requests. simpl. f_equal. apply map_eq. intros r.
  rewrite lookup_counted. destruct (rm !! r) as [q|]; [|done]. simpl. by rewrite counted_out by set_solver.
Qed.

(** The first half of [unlock] leaves the counted state, unless the request keeps the lock. *)
Lemma counted_unlocking U s r q :
  r ∉ U → lm_requests s !! r = Some q →
  countedState ({[r]} ∪ U) (with_requests (<[r := set_recursiveCount (lr_recursiveCount q - 1) q]> (lm_requests s)) s)
  = countedState U s.
Proof.
  intros Hr Hq. destruct s as [rm hs ps ns]. unfold countedState, with_requests. simpl in *. f_equal.
  apply map_eq. intros i. rewrite !lookup_counted. destruct (decide (i = r)) as [->|Hne].
  - rewrite lookup_insert_eq, Hq. simpl. f_equal. unfold counted. rewrite decide_True by set_solver.
    rewrite decide_False by done. destruct q. unfold set_recursiveCount. simpl. f_equal. lia.
  - rewrite lookup_insert_ne by done. destruct (rm !! i) as [qi|]; [|done]. simpl. f_equal. unfold counted.
    by rewrite (decide_ext (i ∈ {[r]} ∪ U) (i ∈ U)) by set_solver.
Qed.

(** Before its second half: the whole of [unlock] in the counted state goes on with what is left. *)
Lemma counted_unlockFast U s r q :
  r ∈ U → lm_requests s !! r = Some q → 0 <= lr_recursiveCount q →
  unlockFast r (countedState U s)
  = Some (bool_decide (lr_status q = STATUS_GRANTED) && (0 <? lr_recursiveCount q), countedState (U ∖ {[r]}) s).
Proof.
  intros Hr Hq Hc. unfold unlockFast. destruct s as [rm hs ps ns]. unfold countedState, with_requests. simpl in *.
  rewrite lookup_counted, Hq. simpl. unfold counted. rewrite decide_True by done. simpl.
  replace (0 <? lr_recursiveCount q + 1) with true by (symmetry; apply Z.ltb_lt; lia).
  replace (lr_recursiveCount q + 1 - 1) with (lr_recursiveCount q) by lia. f_equal. f_equal. f_equal.
  apply map_eq. intros i. rewrite lookup_insert, !lookup_counted. case_decide as Hd.
  - subst. rewrite Hq. simpl. f_equal. rewrite counted_out by set_solver.
    by destruct q.
  - destruct (rm !! i) as [qi|]; [|done]. simpl. f_equal. unfold counted.
    by rewrite (decide_ext (i ∈ U) (i ∈ U ∖ {[r]})) by set_solver.
Qed.
