(* ===== verification/LockManagerSafety.v ===== *)
(** Preservation of the lock manager's invariant by [convert], [unlock],
    [downgrade] and the cleanup, the step relation of the lock manager and the
    theorems about every reachable state. *)
From S2P Require Import Prelude LockModes LockManager LockHeadInv LockManagerInv LockUnlocking.
Import LockHead LockManager.

(** ** Conversions *)

Lemma NEW_is_new s r q :
  LInv s → lm_requests s !! r = Some q → lr_status q = STATUS_NEW → new_ok q.
Proof.
  intros H Hq Hst. destruct (li_placed s H r q Hq) as [?|[(res & h & _ & Hh & Hr)|(k & l & _ & Hk & Hr)]].
  - done.
  - destruct (li_heads s H res h Hh) as [_ [HC _]].
    destruct (member_ok h _ r HC Hr) as (q0 & ? & _ & _ & _ & [G|G]); simplify_eq.
    + destruct G as (_ & _ & _ & [(? & _)|(? & _)]); congruence.
    + destruct G as (_ & _ & _ & ? & _). congruence.
  - destruct (li_parts s H k l Hk) as (_ & _ & P). destruct (P r Hr) as (q0 & ? & (_ & _ & _ & ? & _)).
    congruence.
Qed.

(** A granted request filed on a head is on its granted queue. *)
Lemma granted_in_list h rm r q :
  HCore h rm → r ∈ members h → rm !! r = Some q → lr_status q ≠ STATUS_WAITING →
  r ∈ lh_grantedList h ∧ granted_ok (lh_resourceId h) q.
Proof.
  intros H [Hr|Hr]%elem_of_app Hq Hst.
  - destruct (hc_granted h rm H r Hr) as (q0 & ? & ?). by simplify_eq.
  - destruct (hc_conflict h rm H r Hr) as (q0 & ? & (_ & _ & _ & ? & _)). congruence.
Qed.

(** The request of a caller stands on the resource it names. *)
Definition on_resource (res : ResourceId) (q : LockRequest) : Prop :=
  lr_lock q = Some res ∨ ∃ p, lr_partitionedLock q = Some (p, res).

Definition convertible (m newMode : LockMode) : Prop :=
  isModeCovered newMode m = true ∨ isModeCovered m newMode = true.

(** The covering test as [convert] and [downgrade] write it. *)
Lemma covered_test m newMode :
  (Z.lor (LockConflictsTable m) (LockConflictsTable newMode) =? LockConflictsTable m)
  = isModeCovered newMode m.
Proof. done. Qed.

Lemma covering_test m newMode :
  (Z.lor (LockConflictsTable m) (LockConflictsTable newMode) =? LockConflictsTable newMode)
  = isModeCovered m newMode.
Proof. unfold isModeCovered. by rewrite Z.lor_comm. Qed.

Lemma isModeCovered_refl m : isModeCovered m m = true.
Proof. by destruct m. Qed.

Lemma isModeCovered_compatible m newMode x :
  isModeCovered newMode m = true → compatible m x = true → compatible newMode x = true.
Proof. by destruct m, newMode, x. Qed.

Lemma with_conversions_same h c k :
  with_gcounts c k h = with_gcounts c k (with_conversions (lh_conversionsCount h) h).
Proof. done. Qed.

(** The head of a request that was converted or downgraded in place. *)
Lemma switch_mode_ok h rm r q newMode :
  HCore h rm → r ∈ lh_grantedList h → rm !! r = Some q → lr_status q = STATUS_GRANTED →
  newMode ≠ MODE_NONE →
  (lh_partitions h = [] ∨ is_intent newMode) →
  (∀ r2 q2, r2 ∈ lh_grantedList h → r ≠ r2 → rm !! r2 = Some q2 →
     compatible newMode (lr_mode q2) = true) →
  ∃ h' h1, incGrantedModeCount newMode h = Some h1 ∧ decGrantedModeCount (lr_mode q) h1 = Some h' ∧
    HCore h' (<[r := set_mode newMode q]> rm) ∧ same_lock h h' ∧
    lh_grantedList h' = lh_grantedList h ∧ lh_conflictList h' = lh_conflictList h.
Proof.
  intros H Hr Hq Hst Hm Hp Hcompat.
  pose proof (hc_gcount_pos h rm H r q Hr Hq) as Hpos.
  rewrite incGranted_spec by (apply (hc_gcounts_nonneg h rm H) || apply (hc_gmodes h rm H)).
  set (c1 := <[newMode := _]> _).
  eexists _, _. split; [done|].
  assert (1 <= c1 (lr_mode q)) as Hc1.
  { unfold c1. rewrite counts_insert. case_decide; simplify_eq; lia. }
  rewrite decGranted_spec by done. split; [done|]. simpl.
  split; [|done]. set (c2 := <[lr_mode q := _]> _).
  assert (∀ m, c2 m = lh_grantedCounts h m - (if decide (lr_mode q = m) then 1 else 0)
                      + (if decide (newMode = m) then 1 else 0)) as Hc2.
  { intros m. unfold c2, c1. rewrite !counts_insert. repeat case_decide; simplify_eq; lia. }
  change (with_gcounts c2 (mask_for c2) (with_gcounts c1 (mask_for c1) h))
    with (with_gcounts c2 (mask_for c2) (with_conversions (lh_conversionsCount h) h)).
  destruct (hc_granted h rm H r Hr) as (q0 & ? & (K1 & K2 & K3 & [(_ & K4 & K5)|(? & _)]));
    [|congruence]. simplify_eq.
  apply HCore_replace with q; try done.
  - unfold granted_ok. simpl. split_and!; try done. by left.
  - intros m. rewrite Hc2, !holds_quiet by (simpl; congruence). simpl. lia.
  - rewrite !converting_quiet by (simpl; congruence). lia.
  - destruct Hp as [Hp|Hi]; [by left|]. right. intros m. rewrite Hc2. intros Hpos'.
    destruct (decide (newMode = m)); [subst; by left|]. right. case_decide; lia.
Qed.

Lemma convert_ok s res r q newMode :
  LInv s → lm_requests s !! r = Some q → lr_status q = STATUS_GRANTED → on_resource res q →
  newMode ≠ MODE_NONE → convertible (lr_mode q) newMode →
  ∃ result s', convert res r newMode s = Some (result, s') ∧ LInv s'.
Proof.
  intros H Hq Hst Hres Hm Hcv. unfold convert. rewrite Hq. simpl.
  rewrite bool_decide_eq_true_2 by done.
  assert (0 < lr_recursiveCount q ∧ ∃ h, lm_heads s !! res = Some h) as [Hrc [h Hh]].
  { destruct Hres as [Hl|[p Hl]].
    - destruct (li_locked s r q res H Hq Hl) as (h & Hh & _ & [HC _] & Hr).
      destruct (granted_in_list h _ r q HC Hr Hq) as [_ (_ & _ & _ & [(_ & _ & ?)|(? & _)])];
        [congruence| |congruence]. eauto.
    - destruct (li_partitioned s r q _ H Hq Hl) as (l & Hk & _ & _ & (_ & _ & _ & _ & _ & _ & ?)).
      destruct (li_parts s H _ l Hk) as (_ & (h & ? & _) & _). eauto. }
  replace (0 <? lr_recursiveCount q) with true by lia.
  set (q1 := set_recursiveCount (lr_recursiveCount q + 1) q).
  pose proof (LInv_set_rec s r q (lr_recursiveCount q + 1) H Hq Hst ltac:(lia)) as H1.
  fold q1 in H1. set (s1 := with_requests _ s) in H1.
  rewrite covered_test, covering_test.
  destruct (isModeCovered newMode (lr_mode q)) eqn:Ecov; [by eexists _, _|].
  destruct Hcv as [?|Hcv]; [congruence|]. rewrite Hcv. rewrite Hh. simpl.
  destruct (migrate_LInv s1 res h H1 Hh) as (h1 & rm1 & pd1 & E1 & H2 & Hr1 & Hp1 & Hpd1 & Hmv & _).
  change (if is_partitioned h then _ else _) with
    (migrateIfPartitioned h (lm_requests s1) (lm_partitions s1)).
  rewrite E1. simpl. specialize (H2 (lm_notes s)). set (s2 := mkLM _ _ _ _) in H2.
  destruct (Hmv r q1) as (q2 & Hq2 & Hmoved); [apply lookup_insert_eq|].
  rewrite Hq2. simpl.
  assert (lm_heads s2 !! res = Some h1) as Hh1 by apply lookup_insert_eq.
  destruct (li_heads s2 H2 res h1 Hh1) as [Hres1 [HC1 HN1]].
  assert (lr_lock q2 = Some res) as Hl2.
  { destruct Hmoved as [->| ->]; [|simpl; destruct (li_heads s H res h Hh); congruence].
    destruct Hres as [?|[p Hl]]; [done|]. exfalso.
    destruct (li_partitioned s2 r q1 (p, res) H2 Hq2 Hl) as (l & Hk & _).
    simpl in Hk. rewrite Hpd1 in Hk. done. }
  assert (lr_mode q2 = lr_mode q ∧ lr_status q2 = STATUS_GRANTED ∧
          lr_recursiveCount q2 = lr_recursiveCount q + 1 ∧ lr_compatibleFirst q2 = lr_compatibleFirst q)
    as (Em & Est & Erc & Ecf) by (destruct Hmoved as [->| ->]; done).
  assert (r ∈ lh_grantedList h1 ∧ granted_ok (lh_resourceId h1) q2) as [Hg Hok].
  { destruct (li_locked s2 r q2 res H2 Hq2 Hl2) as (h0 & ? & _ & _ & ?).
    assert (h0 = h1) as -> by congruence.
    apply (granted_in_list h1 rm1 r q2 HC1); [done|done|congruence]. }
  assert (∀ res' h', lh_grantedList h' = lh_grantedList h1 → lh_conflictList h' = lh_conflictList h1 →
    same_lock h1 h' → ∀ q3, HCore h' (<[r := q3]> rm1) →
    res' = res →
    LInv (mkLM (<[r := q3]> rm1) (<[res' := h']> (lm_heads s)) pd1 (lm_notes s))) as Hstep.
  { intros res' h' G C S q3 HC' ->.
    replace (<[res:=h']> (lm_heads s)) with (<[res:=h']> (lm_heads s2))
      by (unfold s2, s1; simpl; by rewrite insert_insert_eq).
    assert (members h' = members h1) as Em' by (unfold members; congruence).
    apply (LInv_head_step s2 res h1 h'); try done.
    - split; [done|]. unfold no_idle_wait in *. by rewrite G, C.
    - intros y _ Hy. apply lookup_insert_ne. intros ->. apply Hy. unfold members. set_solver.
    - intros y Hy Hy'. congruence.
    - intros y Hy. left. congruence. }
  rewrite (grantedModesWithout_ext _ (λ m, holds m q2))
    by (intros m; rewrite holds_quiet by congruence; done).
  pose proof Hok as (K1 & K2 & K3 & [(_ & K4 & K5)|(? & _)]); [|congruence].
  destruct (conflicts newMode _) eqn:Ec.
  - rewrite incGranted_spec; simpl; [|apply (hc_gcounts_nonneg h1 rm1 HC1)|apply (hc_gmodes h1 rm1 HC1)].
    eexists _, _. split; [done|]. apply Hstep; try done.
    apply HCore_replace with q2; try done.
    + unfold granted_ok. simpl. split_and!; try done. right. split_and!; try done.
      * rewrite Em. intros ->. by rewrite isModeCovered_refl in Ecov.
      * lia.
    + intros m. rewrite counts_insert, (holds_quiet m q2) by congruence.
      rewrite holds_converting by done. simpl. repeat case_decide; simplify_eq; lia.
    + rewrite converting_quiet by congruence. unfold converting. simpl. lia.
    + intros r2 q3 Hr2 Hne Hq3. simpl. by apply (hc_compat h1 rm1 HC1 r r2 q2 q3).
    + by left.
  - destruct (switch_mode_ok h1 rm1 r q2 newMode) as (h' & h0 & E2 & E3 & HC' & S & G & C); try done.
    { by left. }
    { intros r2 q3 Hr2 Hne Hq3. by apply (without_compatible h1 rm1 r q2 r2 q3). }
    rewrite E2. simpl. rewrite E3. simpl. eexists _, _. split; [done|]. by apply Hstep.
Qed.

(** ** Unlock *)

(** When [unlock] says that the last reference is dropped, the Locker removes the request object
    from its map. *)
Definition freeing (r : ReqId) (res : option (bool * LMState)) : option (bool * LMState) :=
  '(freed, s') ← res;
  Some (freed, if freed : bool then with_requests (delete r (lm_requests s')) s' else s').

(** [unlock] as the Locker uses it, without other calls between its halves, and its second half. *)
Definition release (r : ReqId) (s : LMState) : option (bool * LMState) := freeing r (unlock r s).
Definition releaseSlow (r : ReqId) (s : LMState) : option (bool * LMState) := freeing r (unlockSlow r s).

(** A request has left the head [h]; the rest of the queues was rescanned. *)
Lemma leave_head s res h h1 h2 rm1 rm2 r q1 nt :
  LInv s → lm_heads s !! res = Some h → r ∈ members h → same_lock h h1 →
  (∀ y, y ∈ members h1 ↔ y ≠ r ∧ y ∈ members h) →
  rm1 = <[r := q1]> (lm_requests s) →
  loop_frame h1 h2 rm1 rm2 → HInv h2 rm2 →
  LInv (mkLM (delete r rm2) (<[res := h2]> (lm_heads s)) (lm_partitions s) nt).
Proof.
  intros H Hh Hr [S1 S2] Hm -> ([S3 S4] & Hperm & F) [HC HN].
  assert (∀ y, y ∈ members h2 ↔ y ≠ r ∧ y ∈ members h) as Hm2.
  { intros y. by rewrite Hperm, Hm. }
  apply (LInv_head_step s res h h2); try done.
  - split; congruence.
  - split; [|done]. eapply HCore_frame; [|done]. intros y Hy. apply lookup_delete_ne.
    intros ->. apply Hm2 in Hy as [? _]. done.
  - intros y Hy1 Hy2. assert (y ≠ r) by (intros ->; done).
    rewrite lookup_delete_ne, F, lookup_insert_ne by (done || by rewrite Hm; naive_solver). done.
  - intros y Hy1 Hy2. destruct (decide (y = r)) as [->|]; [apply lookup_delete_eq|].
    exfalso. apply Hy1, Hm2. done.
  - intros y Hy%Hm2. left. naive_solver.
Qed.

Lemma unlockInHead_granted s r q q1 h res :
  LInv s → lm_heads s !! res = Some h → lm_requests s !! r = Some q →
  lr_lock q = Some res → r ∈ lh_grantedList h → lr_status q = STATUS_GRANTED →
  q1 = set_recursiveCount (lr_recursiveCount q - 1) q →
  let s1 := with_requests (<[r := q1]> (lm_requests s)) s in
  ∃ s', unlockInHead r q1 s1 = Some s' ∧ LInv (with_requests (delete r (lm_requests s')) s').
Proof.
  intros H Hh Hq Hl Hg Hst -> s1. destruct (li_heads s H res h Hh) as [Hres [HC HN]].
  pose proof (hc_gcount_pos h _ HC r q Hg Hq) as Hpos.
  unfold unlockInHead. simpl. rewrite Hl. simpl. rewrite Hh. simpl. rewrite Hst.
  rewrite decGranted_spec by (simpl; lia || apply (hc_gmodes h _ HC)). simpl.
  set (c := <[lr_mode q := _]> _).
  set (rm1 := <[r := _]> (lm_requests s)).
  assert (HCore (with_compatibleFirst (lh_compatibleFirstCount h - compatFirst q)
           (with_gcounts c (mask_for c) (with_granted (remove_id r (lh_grantedList h)) h))) rm1) as HC1.
  { apply (HCore_remove_granted h (lm_requests s) rm1 r q c); try done.
    - intros y Hy. by apply lookup_insert_ne.
    - intros m. unfold c. rewrite counts_insert. repeat case_decide; simplify_eq; lia. }
  set (h1 := with_compatibleFirst _ _) in HC1.
  assert ((if lr_compatibleFirst q then
      invariant (0 <? lh_compatibleFirstCount h) ;;
      invariant ((lh_compatibleFirstCount h - 1 =? 0) || negb (bool_decide (remove_id r (lh_grantedList h) = []))) ;;
      Some (with_compatibleFirst (lh_compatibleFirstCount h - 1)
         (with_gcounts c (mask_for c) (with_granted (remove_id r (lh_grantedList h)) h)))
    else Some (with_gcounts c (mask_for c) (with_granted (remove_id r (lh_grantedList h)) h))) = Some h1) as Ecf.
  { unfold h1, compatFirst. destruct (lr_compatibleFirst q) eqn:E; [|by rewrite Z.sub_0_r; destruct h].
    assert (1 <= lh_compatibleFirstCount h) as Hcf.
    { rewrite (hc_cf h _ HC).
      pose proof (rsum_elem compatFirst compatFirst_nonneg _ _ r q Hg Hq) as L.
      unfold compatFirst in L at 1. rewrite E in L. lia. }
    replace (0 <? _) with true by lia.
    assert ((lh_compatibleFirstCount h - 1 =? 0)
            || negb (bool_decide (remove_id r (lh_grantedList h) = [])) = true) as ->; [|done].
    case_bool_decide as Hnil; [|by rewrite orb_true_r]. apply orb_true_iff. left. apply Z.eqb_eq.
    pose proof (hc_cf h1 rm1 HC1) as E2. unfold h1 in E2. simpl in E2. rewrite Hnil in E2.
    unfold compatFirst in E2 at 1. rewrite E in E2. done. }
  rewrite Ecf. clear Ecf. simpl.
  destruct (onLockModeChanged_ok h1 (c (lr_mode q) =? 0) rm1 (lm_notes s) HC1)
    as (h2 & rm2 & nt2 & E2 & HI2 & F2 & _).
  { destruct (c (lr_mode q) =? 0) eqn:E; [by left|]. right. intros _ Hnil.
    apply (hc_granted_empty h1 rm1 HC1) in Hnil.
    rewrite (hc_gmodes h1 rm1 HC1), mask_for_zero in Hnil by apply (hc_gcounts_nonneg h1 rm1 HC1).
    specialize (Hnil (lr_mode q)). change (lh_grantedCounts h1) with c in Hnil. to_prop. lia. }
  change (lh_grantedCounts h1 (lr_mode q) =? 0) with (c (lr_mode q) =? 0).
  rewrite E2. simpl. eexists. split; [done|]. unfold with_requests. simpl.
  eapply (leave_head s res h h1 h2 rm1 rm2 r); try done.
  - unfold members. set_solver.
  - intros y. unfold members, h1. simpl. rewrite !elem_of_app, elem_of_remove_id.
    split; [|naive_solver]. intros [?|Hy]; [naive_solver|]. split; [|by right].
    intros ->. by eapply (hc_disjoint h _ HC).
Qed.

Lemma unlockInHead_waiting s r q q1 h res :
  LInv s → lm_heads s !! res = Some h → lm_requests s !! r = Some q →
  lr_lock q = Some res → r ∈ lh_conflictList h →
  q1 = set_recursiveCount (lr_recursiveCount q - 1) q →
  let s1 := with_requests (<[r := q1]> (lm_requests s)) s in
  ∃ s', unlockInHead r q1 s1 = Some s' ∧ LInv (with_requests (delete r (lm_requests s')) s').
Proof.
  intros H Hh Hq Hl Hg -> s1. destruct (li_heads s H res h Hh) as [Hres [HC HN]].
  destruct (hc_conflict h _ HC r Hg) as (q0 & ? & (_ & _ & _ & Hst & _ & Hrc & _)). assert (q0 = q) as -> by congruence.
  pose proof (hc_ccount_pos h _ HC r q Hg Hq) as Hpos.
  unfold unlockInHead. simpl. rewrite Hl. simpl. rewrite Hh. simpl. rewrite Hst, Hrc. simpl.
  rewrite decConflict_spec by (simpl; lia || apply (hc_cmodes h _ HC)). simpl.
  set (c := <[lr_mode q := _]> _). set (rm1 := <[r := _]> (lm_requests s)).
  assert (HCore (with_ccounts c (mask_for c) (with_conflict (remove_id r (lh_conflictList h)) h)) rm1) as HC1.
  { apply (HCore_remove_waiting h (lm_requests s) rm1 r q c); try done.
    - intros y Hy. by apply lookup_insert_ne.
    - intros m. unfold c. rewrite counts_insert. repeat case_decide; simplify_eq; lia. }
  set (h1 := with_ccounts _ _ _) in HC1 |- *.
  destruct (onLockModeChanged_ok h1 true rm1 (lm_notes s) HC1 (or_introl eq_refl))
    as (h2 & rm2 & nt2 & E2 & HI2 & F2 & _).
  rewrite E2. simpl. eexists. split; [done|]. unfold with_requests. simpl.
  eapply (leave_head s _ h h1 h2 rm1 rm2 r); try done.
  - unfold members. set_solver.
  - intros y. unfold members, h1. simpl. rewrite !elem_of_app, elem_of_remove_id.
    split; [|naive_solver]. intros [Hy|?]; [|naive_solver]. split; [|by left].
    intros ->. by eapply (hc_disjoint h _ HC).
Qed.

(** Giving up a conversion: the request goes back to the mode it held. *)
Lemma unlockInHead_converting s r q q1 h res :
  LInv s → lm_heads s !! res = Some h → lm_requests s !! r = Some q →
  lr_lock q = Some res → r ∈ lh_grantedList h → lr_status q = STATUS_CONVERTING →
  q1 = set_recursiveCount (lr_recursiveCount q - 1) q →
  let s1 := with_requests (<[r := q1]> (lm_requests s)) s in
  ∃ s', unlockInHead r q1 s1 = Some s' ∧ LInv s'.
Proof.
  intros H Hh Hq Hl Hg Hst -> s1. destruct (li_heads s H res h Hh) as [Hres [HC HN]].
  destruct (hc_granted h _ HC r Hg) as (q0 & ? & Hok). assert (q0 = q) as -> by congruence.
  pose proof Hok as (K1 & K2 & K3 & [(? & _)|(_ & K4 & K5 & K6)]); [congruence|].
  assert (1 <= lh_grantedCounts h (lr_convertMode q)) as Hpos.
  { pose proof (hc_gcount_elem h _ HC r q (lr_convertMode q) Hg Hq) as L.
    rewrite holds_converting in L by done. rewrite (decide_True (P := lr_convertMode q = _)) in L by done.
    case_decide; lia. }
  assert (1 <= lh_conversionsCount h) as Hcv.
  { rewrite (hc_conv h _ HC).
    pose proof (rsum_elem converting converting_nonneg _ _ r q Hg Hq) as L.
    unfold converting in L at 1. rewrite decide_True in L by done. lia. }
  unfold unlockInHead. simpl. rewrite Hl. simpl. rewrite Hh. simpl. rewrite Hst. simpl.
  replace (0 <? lr_recursiveCount q - 1) with true by lia.
  replace (0 <? lh_conversionsCount h) with true by lia.
  rewrite decGranted_spec by (simpl; lia || apply (hc_gmodes h _ HC)). simpl.
  rewrite insert_insert_eq. set (c := <[lr_convertMode q := _]> _). set (q2 := set_convertMode _ _).
  set (rm1 := <[r := q2]> (lm_requests s)).
  assert (HCore (with_gcounts c (mask_for c) (with_conversions (lh_conversionsCount h - 1) h)) rm1) as HC1.
  { apply HCore_replace with q; try done.
    - unfold granted_ok. simpl. split_and!; try done. left. split_and!; try done. lia.
    - intros m. unfold c. rewrite counts_insert, holds_converting, holds_quiet by done. simpl.
      repeat case_decide; simplify_eq; lia.
    - unfold converting. rewrite Hst. simpl. lia.
    - intros r2 q3 Hr2 Hne Hq3. simpl. by apply (hc_compat h _ HC r r2 q q3).
    - right. intros m. unfold c. rewrite counts_insert. case_decide; subst; auto with lia. }
  set (h1 := with_gcounts _ _ _) in HC1.
  destruct (onLockModeChanged_ok h1 (lh_grantedCounts h1 MODE_NONE =? 0) rm1 (lm_notes s) HC1)
    as (h2 & rm2 & nt2 & E2 & HI2 & ([S1 S2] & Hperm & F2) & _); [by right|].
  unfold h1 in E2 at 2. simpl in E2. fold h1. rewrite E2. simpl.
  eexists. split; [done|]. simpl.
  apply (LInv_head_step s _ h h2); try done.
  - intros y Hy Hy'. rewrite F2 by done. apply lookup_insert_ne. intros ->.
    apply Hy'. unfold members. set_solver.
  - intros y Hy Hy'. exfalso. apply Hy. rewrite Hperm. done.
  - intros y Hy. left. rewrite Hperm in Hy. done.
Qed.

Lemma release_ok s r q :
  LInv s → lm_requests s !! r = Some q → lr_status q ≠ STATUS_NEW →
  ∃ freed s', release r s = Some (freed, s') ∧ LInv s'.
Proof.
  intros H Hq Hst. unfold release, freeing, unlock, unlockFast, unlockSlow. rewrite Hq. simpl.
  destruct (li_placed s H r q Hq) as [(_ & _ & _ & ? & _)|[(res & h & Hl & Hh & Hr)|(k & l & Hl & Hk & Hr)]];
    [done| |].
  - destruct (li_heads s H res h Hh) as [Hres [HC HN]].
    destruct (member_ok h _ r HC Hr) as (q0 & ? & _ & Hpl & _ & Hcase). assert (q0 = q) as -> by congruence.
    set (q1 := set_recursiveCount (lr_recursiveCount q - 1) q).
    set (s1 := mkLM (<[r:=q1]> (lm_requests s)) _ _ _).
    assert (0 < lr_recursiveCount q) as Hrc.
    { destruct Hcase as [(_ & _ & _ & [G|G])|G]; unfold waiting_ok in *; naive_solver lia. }
    replace (0 <? lr_recursiveCount q) with true by lia.
    destruct (decide (lr_status q = STATUS_GRANTED)) as [Hg|Hng].
    + rewrite bool_decide_eq_true_2 by done. simpl.
      destruct (0 <? lr_recursiveCount q - 1) eqn:E.
      * eexists _, _. split; [done|]. apply LInv_set_rec; try done. to_prop. lia.
      * rewrite lookup_insert_eq. simpl. rewrite (bool_decide_eq_true_2 (lr_status q = _)), orb_true_r by done. simpl. rewrite Hpl.
        destruct (granted_in_list h _ r q HC Hr Hq) as [Hin _]; [congruence|].
        destruct (unlockInHead_granted s r q q1 h _ H Hh Hq Hl Hin Hg eq_refl) as (s' & E1 & HL).
        fold s1 in E1. assert (lr_recursiveCount q - 1 = 0) as -> by (to_prop; lia).
        destruct (lr_partitioned q); change (with_requests (<[r:=q1]> (lm_requests s)) s) with s1 in E1;
          rewrite E1; eexists _, _; (split; [done|done]).
    + rewrite bool_decide_eq_false_2 by done. simpl. rewrite lookup_insert_eq. simpl.
      rewrite (bool_decide_eq_false_2 (lr_status q = STATUS_GRANTED)) by done. rewrite Hpl.
      destruct (decide (lr_status q = STATUS_CONVERTING)) as [Hc|Hnc].
      * rewrite (bool_decide_eq_true_2 (_ = STATUS_CONVERTING)) by done. rewrite orb_true_r.
        destruct (granted_in_list h _ r q HC Hr Hq) as [Hin (_ & _ & _ & [(? & _)|(_ & _ & _ & K)])];
          [congruence|congruence|].
        destruct (unlockInHead_converting s r q q1 h _ H Hh Hq Hl Hin Hc eq_refl) as (s' & E1 & HL).
        change (with_requests (<[r:=q1]> (lm_requests s)) s) with s1 in E1.
        replace (lr_recursiveCount q - 1 =? 0) with false by lia.
        destruct (lr_partitioned q); rewrite E1; eexists _, _; (split; [done|done]).
      * destruct Hcase as [(_ & _ & _ & [(? & _)|(? & _)])|(_ & _ & _ & Hw & _ & Hr1 & Hp)]; [done|done|].
        assert (r ∈ lh_conflictList h) as Hin.
        { apply elem_of_app in Hr as [Hg|?]; [|done]. exfalso.
          destruct (hc_granted h _ HC r Hg) as (? & ? & (_ & _ & _ & [(? & _)|(? & _)])); congruence. }
        destruct (unlockInHead_waiting s r q q1 h _ H Hh Hq Hl Hin eq_refl) as (s' & E1 & HL).
        change (with_requests (<[r:=q1]> (lm_requests s)) s) with s1 in E1.
        rewrite Hp, Hr1. simpl. rewrite E1. eexists _, _. split; [done|done].
  - destruct (li_parts s H k l Hk) as (Hnd & Hex & P).
    destruct (P r Hr) as (q0 & ? & Hok). assert (q0 = q) as -> by congruence.
    pose proof Hok as (K1 & K2 & K3 & K4 & K5 & K6 & K7).
    replace (0 <? lr_recursiveCount q) with true by lia.
    rewrite bool_decide_eq_true_2 by done. simpl.
    destruct (0 <? lr_recursiveCount q - 1) eqn:E.
    { eexists _, _. split; [done|]. apply LInv_set_rec; try done. to_prop. lia. }
    rewrite lookup_insert_eq. simpl. rewrite (bool_decide_eq_true_2 (lr_status q = _)) by done.
    rewrite orb_true_r, K3, K2. simpl. rewrite Hk. simpl. eexists _, _. split; [done|].
    unfold with_requests. simpl. rewrite delete_insert_eq. clear Hst.
    assert (∀ y q, y ≠ r → lm_requests s !! y = Some q → delete r (lm_requests s) !! y = Some q) as Fr.
    { intros. by rewrite lookup_delete_ne. }
    destruct H as [A B C]. split; simpl.
    + intros res h Hh. destruct (A res h Hh) as [? [HC HN]]. split; [done|]. split; [|done].
      eapply HCore_frame; [|done]. intros y Hy. apply lookup_delete_ne. intros ->.
      by eapply part_not_member.
    + intros k' l'. rewrite lookup_insert. case_decide as Hd.
      * intros ?. simplify_eq. split_and!; [by apply NoDup_remove_id|done|].
        intros y [Hy1 Hy2]%elem_of_remove_id. destruct (P y Hy2) as (q1 & ? & ?). eauto.
      * intros Hk'. destruct (B k' l' Hk') as (? & ? & P'). split_and!; try done.
        intros y Hy. destruct (P' y Hy) as (q1 & ? & Hq1). exists q1. split; [|done]. apply Fr; [|done].
        intros ->. destruct Hq1 as (_ & E1 & _). simplify_eq.
    + intros y qy. rewrite lookup_delete. case_decide; [done|]. intros Hy.
      destruct (C y qy Hy) as [?|[?|(k' & l' & E1 & Hk' & Hin)]]; [auto|auto|].
      right. right. destruct (decide (k = k')) as [->|].
      * exists k'. eexists. rewrite lookup_insert_eq. split_and!; [done..|].
        apply elem_of_remove_id. simplify_eq. done.
      * exists k', l'. by rewrite lookup_insert_ne.
Qed.

(** ** Downgrade and cleanup *)

Lemma downgrade_ok s r q res newMode :
  LInv s → lm_requests s !! r = Some q → lr_lock q = Some res → lr_status q = STATUS_GRANTED →
  newMode ≠ MODE_NONE → isModeCovered newMode (lr_mode q) = true →
  ∃ s', downgrade r newMode s = Some s' ∧ LInv s'.
Proof.
  intros H Hq Hl Hst Hm Hcov. unfold downgrade. rewrite Hq. simpl. rewrite Hl. simpl.
  rewrite bool_decide_eq_true_2 by done.
  destruct (li_locked s r q res H Hq Hl) as (h & Hh & Hres & [HC HN] & Hr).
  destruct (granted_in_list h _ r q HC Hr Hq) as [Hg Hok]; [congruence|].
  pose proof Hok as (_ & _ & K3 & [(_ & _ & K5)|(? & _)]); [|congruence].
  replace (0 <? lr_recursiveCount q) with true by lia.
  rewrite covered_test, Hcov, Hh. simpl.
  destruct (switch_mode_ok h (lm_requests s) r q newMode) as (h1 & h0 & E2 & E3 & HC1 & S & G & C);
    try done.
  { destruct (lh_partitions h) eqn:Ep; [by left|]. right.
    destruct (hc_parts h _ HC) as [P1 _]; [by rewrite Ep|].
    destruct (P1 (lr_mode q)) as [E|E]; [by apply (hc_gcount_pos h _ HC r)| |];
      rewrite E in Hcov; unfold is_intent; destruct newMode; naive_solver. }
  { intros r2 q2 Hr2 Hne Hq2. eapply isModeCovered_compatible; [done|].
    by apply (hc_compat h _ HC r r2 q q2). }
  rewrite E2. simpl. rewrite E3. simpl.
  destruct (onLockModeChanged_ok h1 true (<[r:=set_mode newMode q]> (lm_requests s)) (lm_notes s) HC1
    (or_introl eq_refl)) as (h2 & rm2 & nt2 & E4 & HI2 & ([S1 S2] & Hperm & F2) & _).
  rewrite E4. simpl. eexists. split; [done|]. destruct S as [S3 S4].
  assert (members h1 = members h) as Em by (unfold members; congruence).
  apply (LInv_head_step s res h h2); try done.
  - split; congruence.
  - intros y Hy Hy'. rewrite F2 by congruence. apply lookup_insert_ne. intros ->. done.
  - intros y Hy Hy'. exfalso. apply Hy. rewrite Hperm, Em. done.
  - intros y Hy. left. rewrite Hperm, Em in Hy. done.
Qed.

Lemma cleanupOne_ok s res h :
  LInv s → lm_heads s !! res = Some h →
  ∃ s', cleanupOne res s = Some s' ∧ LInv s' ∧
    ∀ res', res' ≠ res → lm_heads s' !! res' = lm_heads s !! res'.
Proof.
  intros H Hh. unfold cleanupOne. rewrite Hh. simpl.
  destruct (migrate_LInv s res h H Hh) as (h1 & rm1 & pd1 & E1 & H2 & Hr1 & Hp1 & Hpd1 & _).
  change (if is_partitioned h then _ else _) with
    (migrateIfPartitioned h (lm_requests s) (lm_partitions s)).
  rewrite E1. simpl. specialize (H2 (lm_notes s)).
  set (s1 := mkLM _ _ _ _) in H2.
  assert (lm_heads s1 !! res = Some h1) as Hh1 by apply lookup_insert_eq.
  destruct (li_heads s1 H2 res h1 Hh1) as [Hres [HC HN]].
  destruct (lh_grantedModes h1 =? 0) eqn:E.
  2: { eexists. split; [done|]. split; [done|]. intros res' Hne. simpl. by apply lookup_insert_ne. }
  to_prop. apply (hc_granted_empty h1 _ HC) in E as Eg.
  assert (lh_conflictList h1 = []) as Ec.
  { destruct (lh_conflictList h1) eqn:Ec; [done|]. exfalso. apply HN; by rewrite ?Ec. }
  pose proof (proj2 (hc_conflict_empty h1 _ HC) Ec) as Em.
  pose proof (hc_conv h1 _ HC) as Ecv. rewrite Eg in Ecv.
  pose proof (hc_cf h1 _ HC) as Ecf. rewrite Eg in Ecf.
  rewrite rsum_nil in Ecv, Ecf. rewrite Eg, Ec, Em, Ecv, Ecf. simpl.
  eexists. split; [done|]. split; [|intros res' Hne; simpl; by apply lookup_delete_ne].
  assert (members h1 = []) as Hnone by (unfold members; by rewrite Eg, Ec).
  split; simpl.
  - intros res2 h2. rewrite lookup_delete. case_decide; [done|]. intros Hh2.
    apply (li_heads s1 H2). simpl. by rewrite lookup_insert_ne.
  - intros [p res'] l Hk. destruct (li_parts s1 H2 _ l Hk) as (? & (h2 & Hh2 & Hin) & ?).
    split_and!; try done. simpl in *. destruct (decide (res' = res)) as [->|Hne].
    + rewrite Hpd1 in Hk. done.
    + exists h2. rewrite lookup_insert_ne in Hh2 by done. by rewrite lookup_delete_ne.
  - intros r q Hq. destruct (li_placed s1 H2 r q Hq) as [?|[(res' & h2 & Hl & Hh2 & Hin)|?]]; [auto| |auto].
    right. left. exists res', h2. simpl in Hh2. destruct (decide (res' = res)) as [->|Hne].
    + rewrite lookup_insert_eq in Hh2. simplify_eq. rewrite Hnone in Hin. set_solver.
    + rewrite lookup_insert_ne in Hh2 by done. rewrite lookup_delete_ne by done. done.
Qed.

Lemma cleanupList_ok l s :
  LInv s → NoDup l → (∀ res, res ∈ l → is_Some (lm_heads s !! res)) →
  ∃ s', cleanupList l s = Some s' ∧ LInv s'.
Proof.
  revert s. induction l as [|res l IH]; intros s H Hnd Hl; simpl; [by exists s|].
  apply NoDup_cons in Hnd as [Hr Hnd]. destruct (Hl res) as [h Hh]; [left|].
  destruct (cleanupOne_ok s res h H Hh) as (s' & E & H' & F). rewrite E. simpl.
  apply IH; [done|done|]. intros res' Hin. rewrite F; [apply Hl; by right|]. intros ->. done.
Qed.

Lemma cleanupUnusedLocks_ok s :
  LInv s → ∃ s', cleanupUnusedLocks s = Some s' ∧ LInv s'.
Proof.
  intros H. apply cleanupList_ok; [done|apply NoDup_fst_map_to_list|].
  intros res Hin. apply list_elem_of_fmap in Hin as ([k h] & -> & Hin). simpl.
  apply elem_of_map_to_list in Hin. eauto.
Qed.

(** ** The lock manager as a transition system *)

(** The calls of the lock manager's clients.  [CCreate] stands for the creation
    of a request object by a Locker; [CLockFast] and [CLockSlow] are the two
    critical sections of [lock], and [CUnlockFast] and [CUnlockSlow] the two halves of [unlock],
    between which other calls may run. *)
Inductive call :=
| CCreate (r : ReqId) (locker : Z) (front compat : bool)
| CLockFast (res : ResourceId) (r : ReqId) (m : LockMode)
| CLockSlow (res : ResourceId) (r : ReqId)
| CConvert (res : ResourceId) (r : ReqId) (m : LockMode)
| CUnlockFast (r : ReqId)
| CUnlockSlow (r : ReqId)
| CDowngrade (r : ReqId) (m : LockMode)
| CCleanup.

Definition run (c : call) (s : LMState) : option LMState :=
  match c with
  | CCreate r locker front compat =>
      Some (with_requests (<[r := set_flags front compat (initNew locker)]> (lm_requests s)) s)
  | CLockFast res r m => '(_, s') ← lockFast res r m s; Some s'
  | CLockSlow res r => '(_, s') ← lockSlow res r s; Some s'
  | CConvert res r m => '(_, s') ← convert res r m s; Some s'
  | CUnlockFast r => '(_, s') ← unlockFast r s; Some s'
  | CUnlockSlow r => '(_, s') ← releaseSlow r s; Some s'
  | CDowngrade r m => downgrade r m s
  | CCleanup => cleanupUnusedLocks s
  end.

(** The requests that are between the two halves of [unlock]. *)
Definition unlocking (c : call) (s : LMState) (U : gset positive) : gset positive :=
  match c with
  | CUnlockFast r => if from_option fst false (unlockFast r s) then U else {[r]} ∪ U
  | CUnlockSlow r => U ∖ {[r]}
  | _ => U
  end.

(** The request that the call is made for, by the thread that owns it. *)
Definition owned (c : call) : option ReqId :=
  match c with
  | CCreate r _ _ _ | CLockFast _ r _ | CLockSlow _ r | CConvert _ r _ | CUnlockFast r | CDowngrade r _ => Some r
  | CUnlockSlow _ | CCleanup => None
  end.

(** What the interface asks of the callers: a thread makes one call after the other, requests are
    created once and locked once, conversions and downgrades name the resource of a granted
    request and a mode its current one is comparable with, and only requests
    that were passed to [lock] are unlocked.  One interleaving is left out, in which the code
    itself goes wrong ([unlock_race]): that a conversion is granted between the halves of the
    [unlock] that is to cancel it. *)
Definition allowed (U : gset positive) (c : call) (s : LMState) : Prop :=
  (∀ r, owned c = Some r → r ∉ U) ∧
  match c with
  | CCreate r _ _ _ => lm_requests s !! r = None
  | CLockFast res r m =>
      m ≠ MODE_NONE ∧ ∃ q, lm_requests s !! r = Some q ∧ lr_status q = STATUS_NEW
  | CLockSlow res r =>
      ∃ q, lm_requests s !! r = Some q ∧ lr_status q = STATUS_NEW ∧ lr_mode q ≠ MODE_NONE ∧
        (lr_partitioned q = true → is_intent (lr_mode q))
  | CConvert res r m =>
      m ≠ MODE_NONE ∧ ∃ q, lm_requests s !! r = Some q ∧ lr_status q = STATUS_GRANTED ∧
        on_resource res q ∧ convertible (lr_mode q) m
  | CUnlockFast r => ∃ q, lm_requests s !! r = Some q ∧ lr_status q ≠ STATUS_NEW
  | CUnlockSlow r =>
      r ∈ U ∧ ∀ q, lm_requests s !! r = Some q →
        ¬ (lr_status q = STATUS_GRANTED ∧ 0 < lr_recursiveCount q)
  | CDowngrade r m =>
      m ≠ MODE_NONE ∧ ∃ q, lm_requests s !! r = Some q ∧ lr_status q = STATUS_GRANTED ∧
        lr_lock q ≠ None ∧ isModeCovered m (lr_mode q) = true
  | CCleanup => True
  end.

Definition initial : LMState := mkLM ∅ ∅ ∅ [].

(** The states that can be reached, with the requests that are being unlocked. *)
Inductive reaches : gset positive → LMState → Prop :=
| reach_initial : reaches ∅ initial
| reach_step U s c s' :
    reaches U s → allowed U c s → run c s = Some s' → reaches (unlocking c s U) s'.

Definition reachable (s : LMState) : Prop := ∃ U, reaches U s.

(** The invariant holds of the state in which the references being released still count. *)
Definition UInv (U : gset positive) (s : LMState) : Prop :=
  LInv (countedState U s) ∧
  ∀ r, r ∈ U → ∃ q, lm_requests s !! r = Some q ∧ lr_status q ≠ STATUS_NEW.

Lemma counted_request U s r q :
  r ∉ U → lm_requests s !! r = Some q → lm_requests (countedState U s) !! r = Some q.
Proof. intros Hr Hq. simpl. rewrite lookup_counted, Hq. simpl. by rewrite counted_out. Qed.

(** A request that was passed to [lock] has a reference. *)
Lemma filed_count s r q : LInv s → lm_requests s !! r = Some q → lr_status q ≠ STATUS_NEW → 0 < lr_recursiveCount q.
Proof.
  intros H Hq Hst.
  destruct (li_placed s H r q Hq) as [(_ & _ & _ & ? & _)|[(res & h & Hl & Hh & Hr)|(k & l & Hl & Hk & Hr)]];
    [done| |].
  - destruct (li_heads s H res h Hh) as [_ [HC _]].
    destruct (member_ok h _ r HC Hr) as (q0 & ? & _ & _ & _ & Hcase). assert (q0 = q) as -> by congruence.
    destruct Hcase as [(_ & _ & _ & [G|G])|G]; unfold waiting_ok in *; naive_solver lia.
  - destruct (li_parts s H k l Hk) as (_ & _ & P). destruct (P r Hr) as (q0 & ? & (_ & _ & _ & _ & _ & _ & ?)).
    naive_solver lia.
Qed.

Lemma UInv_step U s s' :
  UInv U s → LInv (countedState U s') → filedKept (lm_requests s) (lm_requests s') → UInv U s'.
Proof. intros [_ HU] H Hk. split; [done|]. intros r Hr. destruct (HU r Hr) as (q & Hq & Hst). by apply (Hk r q). Qed.

(** An operation that runs alike in the counted state, where it keeps the invariant. *)
Lemma counted_result {A} U (f : LMState → option (A * LMState)) s a s1 :
  f (countedState U s) = (λ x, (x.1, countedState U x.2)) <$> f s →
  f (countedState U s) = Some (a, s1) → ∃ s', f s = Some (a, s') ∧ s1 = countedState U s'.
Proof. intros ->. destruct (f s) as [[a' s']|]; simpl; [|done]. intros [= <- <-]. by exists s'. Qed.

Lemma counted_state U (f : LMState → option LMState) s s1 :
  f (countedState U s) = countedState U <$> f s →
  f (countedState U s) = Some s1 → ∃ s', f s = Some s' ∧ s1 = countedState U s'.
Proof. intros ->. destruct (f s) as [s'|]; simpl; [|done]. intros [= <-]. by exists s'. Qed.

Lemma unlockFast_UInv U s r q :
  UInv U s → r ∉ U → lm_requests s !! r = Some q → lr_status q ≠ STATUS_NEW →
  ∃ kept s', unlockFast r s = Some (kept, s') ∧ UInv (if kept : bool then U else {[r]} ∪ U) s'.
Proof.
  intros HI Hr Hq Hst. pose proof HI as [H HU]. pose proof (counted_request U s r q Hr Hq) as Hq1.
  pose proof (filed_count _ r q H Hq1 Hst) as Hrc. unfold unlockFast. rewrite Hq. simpl.
  replace (0 <? lr_recursiveCount q) with true by lia. simpl. eexists _, _. split; [done|].
  set (rm' := <[r := _]> _).
  assert (filedKept (lm_requests s) rm') as Hk by (apply filedKept_insert; simpl; congruence).
  destruct (bool_decide (lr_status q = STATUS_GRANTED) && _) eqn:E.
  - apply andb_true_iff in E as [E1 E2]. to_prop. apply (UInv_step U s _ HI); [|done].
    pose proof (LInv_set_rec _ r q (lr_recursiveCount q - 1) H Hq1 E1 ltac:(lia)) as H1.
    simpl in H1. rewrite insert_counted_out in H1 by done. exact H1.
  - split; [|intros r' [->%elem_of_singleton|Hr']%elem_of_union].
    + pose proof (counted_unlocking U s r q Hr Hq) as E1. unfold with_requests in E1. fold rm' in E1.
      rewrite E1. exact H.
    + apply (Hk r q Hq Hst).
    + destruct (HU r' Hr') as (q' & Hq' & Hst'). by apply (Hk r' q').
Qed.

Lemma releaseSlow_UInv U s r :
  UInv U s → r ∈ U →
  (∀ q, lm_requests s !! r = Some q → ¬ (lr_status q = STATUS_GRANTED ∧ 0 < lr_recursiveCount q)) →
  ∃ freed s', releaseSlow r s = Some (freed, s') ∧ UInv (U ∖ {[r]}) s'.
Proof.
  intros [H HU] Hr Hn. destruct (HU r Hr) as (q & Hq & Hst). specialize (Hn q Hq).
  assert (lm_requests (countedState U s) !! r = Some (counted U r q)) as Hq1 by (simpl; by rewrite lookup_counted, Hq).
  assert (lr_status (counted U r q) ≠ STATUS_NEW) as Hst1 by (by rewrite counted_status).
  pose proof (filed_count _ r _ H Hq1 Hst1) as Hrc. unfold counted in Hrc. rewrite decide_True in Hrc by done. simpl in Hrc.
  destruct (release_ok _ r _ H Hq1 Hst1) as (freed & s1 & E & H1).
  unfold release, unlock in E. rewrite (counted_unlockFast U s r q Hr Hq) in E by lia. simpl in E.
  replace (bool_decide (lr_status q = STATUS_GRANTED) && (0 <? lr_recursiveCount q)) with false in E
    by (symmetry; apply andb_false_iff; case_bool_decide; [right; apply Z.ltb_ge|by left]; destruct (Z.lt_ge_cases 0 (lr_recursiveCount q)); [by destruct Hn|done]).
  unfold releaseSlow, freeing in *. rewrite unlockSlow_counted in E by set_solver.
  destruct (unlockSlow r s) as [[b s2]|] eqn:E2; [|done]. simpl in *. simplify_eq. eexists _, _. split; [done|].
  apply unlockSlow_filedKept in E2. simpl in E2. split.
  - destruct freed; [|done]. simpl in H1. rewrite delete_counted in H1. exact H1.
  - intros r' [Hr' Hne%not_elem_of_singleton]%elem_of_difference. destruct (HU r' Hr') as (q' & Hq' & Hst').
    destruct (E2 r' q' Hq' Hst') as (q2 & Hq2 & Hst2). exists q2. split; [|done].
    destruct freed; [|done]. simpl. by rewrite lookup_delete_ne.
Qed.

(** Every allowed call runs to completion and keeps the invariant. *)
Lemma run_ok U c s : UInv U s → allowed U c s → ∃ s', run c s = Some s' ∧ UInv (unlocking c s U) s'.
Proof.
  intros HI [Ho Ha]. pose proof HI as [H HU].
  destruct c as [r locker front compat|res r m|res r|res r m|r|r|r m|]; simpl in *;
    try (pose proof (Ho r eq_refl) as Hr).
  - eexists. split; [done|]. apply (UInv_step U s _ HI); [|apply filedKept_insert; congruence].
    unfold countedState, with_requests. simpl. rewrite <- insert_counted_out by done.
    apply (LInv_new_change _ r (initNew locker) _ H); [left; simpl; by rewrite lookup_counted, Ha|done].
  - destruct Ha as (Hm & q & Hq & Hst). pose proof (counted_request U s r q Hr Hq) as Hq1.
    destruct (lockFast_ok _ res r m q H Hq1 (NEW_is_new _ r q H Hq1 Hst) Hm) as (b & s1 & E & H' & _).
    destruct (counted_result U _ s b s1 (lockFast_counted U res r m s Hr) E) as (s' & E' & ->). rewrite E'. simpl.
    eexists. split; [done|]. by apply (UInv_step U s _ HI); [|apply lockFast_filedKept in E'].
  - destruct Ha as (q & Hq & Hst & Hm & Hi). pose proof (counted_request U s r q Hr Hq) as Hq1.
    destruct (lockSlow_ok _ res r q H Hq1 (NEW_is_new _ r q H Hq1 Hst) Hm Hi) as (b & s1 & E & H').
    destruct (counted_result U _ s b s1 (lockSlow_counted U res r s Hr) E) as (s' & E' & ->). rewrite E'. simpl.
    eexists. split; [done|]. by apply (UInv_step U s _ HI); [|apply lockSlow_filedKept in E'].
  - destruct Ha as (Hm & q & Hq & Hst & Hres & Hcv). pose proof (counted_request U s r q Hr Hq) as Hq1.
    destruct (convert_ok _ res r q m H Hq1 Hst Hres Hm Hcv) as (b & s1 & E & H').
    destruct (counted_result U _ s b s1 (convert_counted U res r m s Hr) E) as (s' & E' & ->). rewrite E'. simpl.
    eexists. split; [done|]. by apply (UInv_step U s _ HI); [|apply convert_filedKept in E'].
  - destruct Ha as (q & Hq & Hst). destruct (unlockFast_UInv U s r q HI Hr Hq Hst) as (b & s' & E & H').
    rewrite E. simpl. eauto.
  - destruct Ha as [Hr Hn]. destruct (releaseSlow_UInv U s r HI Hr Hn) as (b & s' & E & H'). rewrite E. simpl. eauto.
  - destruct Ha as (Hm & q & Hq & Hst & Hl & Hcov). pose proof (counted_request U s r q Hr Hq) as Hq1.
    destruct (lr_lock q) as [res|] eqn:El; [|done].
    destruct (downgrade_ok _ r q res m H Hq1 El Hst Hm Hcov) as (s1 & E & H').
    destruct (counted_state U _ s s1 (downgrade_counted U r m s Hr) E) as (s' & E' & ->).
    eexists. split; [done|]. by apply (UInv_step U s _ HI); [|apply downgrade_filedKept in E'].
  - destruct (cleanupUnusedLocks_ok _ H) as (s1 & E & H').
    destruct (counted_state U _ s s1 (cleanup_counted U s) E) as (s' & E' & ->).
    eexists. split; [done|]. by apply (UInv_step U s _ HI); [|apply cleanup_filedKept in E'].
Qed.

Lemma LInv_initial : LInv initial.
Proof. split; simpl; intros; rewrite lookup_empty in *; done. Qed.

Lemma reaches_UInv U s : reaches U s → UInv U s.
Proof.
  induction 1 as [|U s c s' _ IH Ha E].
  - split; [rewrite counted_empty; apply LInv_initial|set_solver].
  - destruct (run_ok U c s IH Ha) as (s2 & E2 & H2). congruence.
Qed.

Lemma reachable_LInv s : reachable s → ∃ U, LInv (countedState U s).
Proof. intros [U [H _]%reaches_UInv]. by exists U. Qed.

(** A request that holds the resource: granted or converting on its lock head,
    or granted on one of its partitions. *)
Definition holder (s : LMState) (res : ResourceId) (r : ReqId) (q : LockRequest) : Prop :=
  lm_requests s !! r = Some q ∧
  ((lr_lock q = Some res ∧ (lr_status q = STATUS_GRANTED ∨ lr_status q = STATUS_CONVERTING)) ∨
   ∃ p, lr_partitionedLock q = Some (p, res)).

(** A request that waits for the resource. *)
Definition waiter (s : LMState) (res : ResourceId) (r : ReqId) (q : LockRequest) : Prop :=
  lm_requests s !! r = Some q ∧ lr_lock q = Some res ∧ lr_status q = STATUS_WAITING.

(** A holder is on the granted queue, or it is an intent request and all the
    granted requests of the head are intents. *)
Lemma holder_place s res r q :
  LInv s → holder s res r q →
  ∃ h, lm_heads s !! res = Some h ∧ HInv h (lm_requests s) ∧
    (r ∈ lh_grantedList h ∨
     (is_intent (lr_mode q) ∧ ∀ m, 0 < lh_grantedCounts h m → is_intent m)).
Proof.
  intros H [Hq [[Hl Hst]|[p Hl]]].
  - destruct (li_locked s r q res H Hq Hl) as (h & Hh & _ & HI & Hr). exists h. split_and!; try done.
    left. eapply granted_in_list; [apply HI|done..|]. destruct Hst; congruence.
  - destruct (li_partitioned s r q _ H Hq Hl) as (l & Hk & _ & Hr & Hok).
    destruct (li_parts s H _ l Hk) as (_ & (h & Hh & Hp) & _). simpl in *.
    destruct (li_heads s H res h Hh) as [_ HI]. exists h. split_and!; try done. right.
    destruct Hok as (_ & _ & _ & _ & Hi & _). split; [done|].
    destruct HI as [HC _]. apply (hc_parts h _ HC). intros E. rewrite E in Hp. set_solver.
Qed.

Lemma intents_compatible m1 m2 : is_intent m1 → is_intent m2 → compatible m1 m2 = true.
Proof. by intros [->| ->] [->| ->]. Qed.

(** ** Running scripts of calls *)

(** [allowed] as a test. *)
Definition allowed_b (U : gset positive) (c : call) (s : LMState) : bool :=
  from_option (λ r, bool_decide (r ∉ U)) true (owned c) &&
  match c with
  | CCreate r _ _ _ => bool_decide (lm_requests s !! r = None)
  | CLockFast res r m =>
      negb (bool_decide (m = MODE_NONE)) &&
      match lm_requests s !! r with
      | Some q => bool_decide (lr_status q = STATUS_NEW)
      | None => false
      end
  | CLockSlow res r =>
      match lm_requests s !! r with
      | Some q => bool_decide (lr_status q = STATUS_NEW) && negb (bool_decide (lr_mode q = MODE_NONE))
                  && (negb (lr_partitioned q) || bool_decide (lr_mode q = MODE_IS)
                      || bool_decide (lr_mode q = MODE_IX))
      | None => false
      end
  | CConvert res r m =>
      negb (bool_decide (m = MODE_NONE)) &&
      match lm_requests s !! r with
      | Some q => bool_decide (lr_status q = STATUS_GRANTED)
                  && (bool_decide (lr_lock q = Some res)
                      || match lr_partitionedLock q with Some (_, res') => res' =? res | None => false end)
                  && (isModeCovered m (lr_mode q) || isModeCovered (lr_mode q) m)
      | None => false
      end
  | CUnlockFast r =>
      match lm_requests s !! r with
      | Some q => negb (bool_decide (lr_status q = STATUS_NEW))
      | None => false
      end
  | CUnlockSlow r =>
      bool_decide (r ∈ U) &&
      match lm_requests s !! r with
      | Some q => negb (bool_decide (lr_status q = STATUS_GRANTED) && (0 <? lr_recursiveCount q))
      | None => true
      end
  | CDowngrade r m =>
      negb (bool_decide (m = MODE_NONE)) &&
      match lm_requests s !! r with
      | Some q => bool_decide (lr_status q = STATUS_GRANTED)
                  && negb (bool_decide (lr_lock q = None)) && isModeCovered m (lr_mode q)
      | None => false
      end
  | CCleanup => true
  end.

Lemma allowed_b_sound U c s : allowed_b U c s = true → allowed U c s.
Proof.
  unfold allowed_b, allowed. intros [Ho E]%andb_true_iff. split.
  { intros r Hr. rewrite Hr in Ho. simpl in Ho. by to_prop. }
  clear Ho. revert E.
  destruct c; simpl; try done; try (by intros ?%bool_decide_eq_true);
    try (intros [Hm E]%andb_true_iff; (apply negb_true_iff, bool_decide_eq_false in Hm || apply bool_decide_eq_true in Hm);
         split; [done|]; revert E);
    (destruct (lm_requests s !! r) as [q|]; [|done]); intros E; try (exists q; split; try done).
  - by apply bool_decide_eq_true in E.
  - apply andb_true_iff in E as [[E1 E2]%andb_true_iff E3]. to_prop. split_and!; try done.
    intros Hp. rewrite Hp in E3. simpl in E3. unfold is_intent. destruct E3; to_prop; auto.
  - apply andb_true_iff in E as [[E1 E2]%andb_true_iff E3]. to_prop. split_and!; try done.
    unfold on_resource. destruct E2 as [E2|E2]; to_prop; [by left|right].
    destruct (lr_partitionedLock q) as [[p res']|]; [|done]. to_prop. subst. eauto.
  - to_prop. done.
  - intros q' [= <-] [G1 G2]. rewrite bool_decide_eq_true_2 in E by done.
    replace (0 <? lr_recursiveCount q) with true in E by lia. done.
  - to_prop. done.
Qed.

(** Runs a script of allowed calls. *)
Fixpoint exec (cs : list call) (U : gset positive) (s : LMState) : option (gset positive * LMState) :=
  match cs with
  | [] => Some (U, s)
  | c :: cs' => if allowed_b U c s then s' ← run c s; exec cs' (unlocking c s U) s' else None
  end.

Definition after (cs : list call) : LMState := from_option snd initial (exec cs ∅ initial).

Lemma exec_reaches cs U s U' s' : reaches U s → exec cs U s = Some (U', s') → reaches U' s'.
Proof.
  revert U s. induction cs as [|c cs IH]; simpl; intros U s H E; [by simplify_eq|].
  destruct (allowed_b U c s) eqn:Ea; [|done]. destruct (run c s) as [s1|] eqn:Er; [|done].
  simpl in E. apply (IH (unlocking c s U) s1); [|done]. eapply reach_step; [done| |done]. by apply allowed_b_sound.
Qed.

Lemma after_reachable cs : reachable (after cs).
Proof.
  unfold after. destruct (exec cs ∅ initial) as [[U s]|] eqn:E; [|eexists; constructor]. exists U.
  by apply (exec_reaches cs ∅ initial); [constructor|].
Qed.

(** Without an unlock under way the invariant holds of the state itself. *)
Lemma after_LInv cs : from_option (λ x, bool_decide (x.1 = ∅)) false (exec cs ∅ initial) = true → LInv (after cs).
Proof.
  unfold after. destruct (exec cs ∅ initial) as [[U s]|] eqn:E; [|done]. simpl. intros ->%bool_decide_eq_true.
  apply (exec_reaches cs ∅ initial) in E as [H _]%reaches_UInv; [|constructor]. by rewrite counted_empty in H.
Qed.

(** [lock] as a script. *)
Definition CLock (res : ResourceId) (r : ReqId) (m : LockMode) : list call :=
  [CLockFast res r m; CLockSlow res r].

(** The interleaving that [allowed] leaves out.  The first request is held in IS and waits to be converted
    to X; its owner gives the conversion up and reads that the request is not granted; the second
    request is released, which grants X to the first one; the owner goes on and takes the request
    off the queue, though it still counts one reference and is granted in X; a third request is
    granted X. *)
Definition race : list call :=
  CCreate 1 1 false false :: CLock 7 1 MODE_IS ++ CCreate 2 2 false false :: CLock 7 2 MODE_IS ++
  [CConvert 7 1 MODE_X; CUnlockFast 1; CUnlockFast 2; CUnlockSlow 2] ++
  CCreate 3 3 false false :: [CLockFast 7 3 MODE_X].

Example unlock_race :
  ∃ U s1 s2 s3 q1 q3, exec race ∅ initial = Some (U, s1) ∧ unlockSlow 1 s1 = Some (false, s2) ∧
    lockSlow 7 3 s2 = Some (LOCK_OK, s3) ∧
    lm_requests s3 !! 1%positive = Some q1 ∧ lm_requests s3 !! 3%positive = Some q3 ∧
    (lr_status q1, lr_mode q1, lr_recursiveCount q1) = (STATUS_GRANTED, MODE_X, 1) ∧
    (lr_status q3, lr_mode q3, lr_recursiveCount q3) = (STATUS_GRANTED, MODE_X, 1).
Proof.
  pose (s1 := from_option snd initial (exec race ∅ initial)).
  pose (s2 := from_option snd initial (unlockSlow 1 s1)).
  pose (s3 := from_option snd initial (lockSlow 7 3 s2)).
  exists (from_option fst ∅ (exec race ∅ initial)), s1, s2, s3.
  eexists _, _. split_and!; vm_compute; reflexivity.
Qed.

(** ** The rule that grants or queues a new request *)

(** The mask of the conflict queue answers for every waiting request. *)
Lemma conflict_mask_spec h rm m :
  HCore h rm →
  (conflicts m (lh_conflictModes h) = false ↔
   ∀ r q, r ∈ lh_conflictList h → rm !! r = Some q → compatible m (lr_mode q) = true).
Proof.
  intros H. rewrite (hc_cmodes h rm H), conflicts_mask_for. split.
  - intros G r q Hr Hq. apply G. by apply (hc_ccount_pos h rm H r).
  - intros G m' Hm'. rewrite (hc_ccounts h rm H) in Hm'.
    destruct (decide (Exists (λ r, from_option lr_mode MODE_NONE (rm !! r) = m') (lh_conflictList h)))
      as [Hex|Hno].
    + apply Exists_exists in Hex as (r & Hr & E). destruct (hc_conflict h rm H r Hr) as (q & Hq & _).
      rewrite Hq in E. simpl in E. subst m'. by apply (G r).
    + exfalso. assert (rsum (holds m') rm (lh_conflictList h) = 0) as Hz; [|lia].
      apply not_Exists_Forall in Hno; [|apply _]. rewrite Forall_forall in Hno.
      assert (rsum (holds m') rm (lh_conflictList h) = rsum (λ _, 0) rm (lh_conflictList h)) as ->.
      { apply lsum_ext. intros r Hr. destruct (hc_conflict h rm H r Hr) as (q & Hq & W).
        specialize (Hno r Hr). unfold compose in Hno. rewrite Hq in *. simpl in *. destruct W as (_ & _ & _ & W & _).
        rewrite holds_quiet by congruence. by rewrite decide_False. }
      unfold rsum. clear. induction (lh_conflictList h); simpl; [done|].
      rewrite IHl. by destruct (rm !! a).
Qed.

(** The mask of the granted queue answers for the modes held and for the modes
    waited for by pending conversions. *)
Lemma granted_mask_spec h rm m :
  HCore h rm →
  (conflicts m (lh_grantedModes h) = false ↔
   ∀ r q, r ∈ lh_grantedList h → rm !! r = Some q →
     compatible m (lr_mode q) = true ∧ compatible m (lr_convertMode q) = true).
Proof.
  intros H. rewrite (hc_gmodes h rm H), conflicts_mask_for. split.
  - intros G r q Hr Hq. split; [apply G; by apply (hc_gcount_pos h rm H r)|].
    destruct (hc_granted h rm H r Hr) as (q0 & ? & (_ & _ & _ & Hcase)). simplify_eq.
    destruct Hcase as [(_ & -> & _)|(Hst & _)]; [by destruct m|]. apply G.
    pose proof (hc_gcount_elem h rm H r q (lr_convertMode q) Hr Hq) as L.
    rewrite holds_converting, (decide_True (P := lr_convertMode q = _)) in L by done.
    case_decide; lia.
  - intros G m' Hm'. rewrite (hc_gcounts h rm H) in Hm'.
    destruct (decide (Exists (λ r, from_option lr_mode MODE_NONE (rm !! r) = m' ∨
        from_option lr_convertMode MODE_NONE (rm !! r) = m') (lh_grantedList h))) as [Hex|Hno].
    + apply Exists_exists in Hex as (r & Hr & E). destruct (hc_granted h rm H r Hr) as (q & Hq & _).
      rewrite Hq in E. simpl in E. destruct (G r q Hr Hq). by destruct E as [<-|<-].
    + exfalso. assert (rsum (holds m') rm (lh_grantedList h) = 0) as Hz; [|lia].
      apply not_Exists_Forall in Hno; [|apply _]. rewrite Forall_forall in Hno.
      assert (rsum (holds m') rm (lh_grantedList h) = rsum (λ _, 0) rm (lh_grantedList h)) as ->.
      { apply lsum_ext. intros r Hr. destruct (hc_granted h rm H r Hr) as (q & Hq & _).
        specialize (Hno r Hr). unfold compose in Hno. rewrite Hq in *. simpl in *. unfold holds.
        rewrite !decide_False by naive_solver. done. }
      unfold rsum. clear. induction (lh_grantedList h); simpl; [done|].
      rewrite IHl. by destruct (rm !! a).
Qed.

(** ** Properties *)

(** The roles of a request do not depend on its count. *)
Lemma holder_counted U s res r q : holder s res r q → holder (countedState U s) res r (counted U r q).
Proof.
  intros [Hq Hh]. split; [simpl; by rewrite lookup_counted, Hq|].
  by rewrite counted_lock, counted_status, counted_partitionedLock.
Qed.

Lemma counted_holder U s res r q : holder (countedState U s) res r q → ∃ q', holder s res r q' ∧ q = counted U r q'.
Proof.
  intros [Hq Hh]. simpl in Hq. rewrite lookup_counted in Hq. apply fmap_Some in Hq as (q' & Hq & ->).
  exists q'. split; [|done]. split; [done|]. by rewrite counted_lock, counted_status, counted_partitionedLock in Hh.
Qed.

Lemma counted_forall U rm (P : LockMode → LockMode → Prop) (l : list ReqId) :
  (∀ r q, r ∈ l → countedMap U rm !! r = Some q → P (lr_mode q) (lr_convertMode q)) ↔
  (∀ r q, r ∈ l → rm !! r = Some q → P (lr_mode q) (lr_convertMode q)).
Proof.
  split; intros G r q Hin Hq.
  - rewrite <- (counted_mode U r), <- (counted_convertMode U r). apply (G r); [done|]. by rewrite lookup_counted, Hq.
  - rewrite lookup_counted in Hq. apply fmap_Some in Hq as (q0 & Hq & ->).
    rewrite counted_mode, counted_convertMode. by apply (G r).
Qed.

(** C1: mutual exclusion.  In every state the lock manager can reach, two
    different requests that hold the same resource (on its lock head or on one
    of its partitions, converting or not) hold it in compatible modes.  Other calls may run
    between the two halves of [lock] and of [unlock]; left out is the grant of a conversion
    between the halves of the [unlock] that is to cancel it, after which the code lets
    incompatible requests hold the resource ([unlock_race]). *)
Theorem holders_compatible s res r1 r2 q1 q2 :
  reachable s → holder s res r1 q1 → holder s res r2 q2 → r1 ≠ r2 →
  compatible (lr_mode q1) (lr_mode q2) = true.
Proof.
  intros [U H]%reachable_LInv H1%(holder_counted U) H2%(holder_counted U) Hne.
  rewrite <- (counted_mode U r1 q1), <- (counted_mode U r2 q2).
  destruct (holder_place _ res r1 _ H H1) as (h & Hh & [HC _] & P1).
  destruct (holder_place _ res r2 _ H H2) as (h' & ? & _ & P2). simplify_eq.
  destruct H1 as [Hq1 _], H2 as [Hq2 _].
  destruct P1 as [G1|[I1 A1]], P2 as [G2|[I2 A2]].
  - by apply (hc_compat h _ HC r1 r2).
  - apply intents_compatible; [|done]. apply A2. by apply (hc_gcount_pos h _ HC r1).
  - apply intents_compatible; [done|]. apply A1. by apply (hc_gcount_pos h _ HC r2).
  - by apply intents_compatible.
Qed.

(** Two lockers share a collection in intent modes, one of them converts to S
    and a third one queues for X. *)
Definition demo : list call :=
  CCreate 1 1 false false :: CLockFast 7 1 MODE_IS :: CLockSlow 7 1 ::
  CCreate 2 2 false false :: CLockFast 7 2 MODE_IS :: CLockSlow 7 2 ::
  CConvert 7 1 MODE_S ::
  CCreate 3 3 false false :: CLockFast 7 3 MODE_X :: CLockSlow 7 3 :: [].

Lemma holders_compatible_witness :
  ∃ q1 q2, holder (after demo) 7 1 q1 ∧ holder (after demo) 7 2 q2 ∧
    compatible (lr_mode q1) (lr_mode q2) = true ∧ lr_mode q1 = MODE_S.
Proof.
  assert (∃ q1 q2, holder (after demo) 7 1 q1 ∧ holder (after demo) 7 2 q2 ∧ lr_mode q1 = MODE_S)
    as (q1 & q2 & H1 & H2 & E).
  { eexists _, _. split_and!.
    - split; [vm_compute; reflexivity|left; split; [reflexivity|left; reflexivity]].
    - split; [vm_compute; reflexivity|left; split; [reflexivity|left; reflexivity]].
    - reflexivity. }
  exists q1, q2. split_and!; [done|done| |done].
  by apply (holders_compatible (after demo) 7 1 2 q1 q2 (after_reachable demo) H1 H2).
Defined.

(** C2: no invariant of the lock manager fails and no pointer dangles:
    in every reachable state every allowed call runs to completion, also between the halves of
    the [lock] or the [unlock] of another thread.  [allowed] leaves out the second half of an
    [unlock] whose conversion was granted since the first half ([unlock_race]). *)
Theorem lock_manager_never_aborts U s c :
  reaches U s → allowed U c s → ∃ s', run c s = Some s' ∧ reaches (unlocking c s U) s'.
Proof.
  intros H Ha. destruct (run_ok U c s (reaches_UInv U s H) Ha) as (s' & E & _).
  exists s'. split; [done|]. by eapply reach_step.
Qed.

Lemma lock_manager_never_aborts_witness :
  ∃ U s s', exec (demo ++ [CUnlockFast 2; CUnlockFast 1]) ∅ initial = Some (U, s) ∧ 2%positive ∈ U ∧
    run (CUnlockSlow 2) s = Some s' ∧ reaches (unlocking (CUnlockSlow 2) s U) s'.
Proof.
  assert (from_option (λ x, allowed_b x.1 (CUnlockSlow 2) x.2) false (exec (demo ++ [CUnlockFast 2; CUnlockFast 1]) ∅ initial) = true)
    as Ha by (vm_compute; reflexivity).
  destruct (exec (demo ++ [CUnlockFast 2; CUnlockFast 1]) ∅ initial) as [[U s]|] eqn:E; [|done]. apply allowed_b_sound in Ha.
  destruct (lock_manager_never_aborts U s (CUnlockSlow 2)) as (s' & Hs' & H'); [|done|].
  { apply (exec_reaches _ ∅ initial U s reach_initial E). }
  exists U, s, s'. split_and!; [done|by destruct Ha as (_ & ? & _)|done|done].
Defined.

(** C3: nobody waits for a free resource.  In every reachable state, a request
    on the conflict queue of a resource has another request that holds it. *)
Theorem waiter_has_holder s res r q :
  reachable s → waiter s res r q → ∃ r' q', r' ≠ r ∧ holder s res r' q'.
Proof.
  intros [U H]%reachable_LInv (Hq & Hl & Hst).
  cut (∃ r' q', r' ≠ r ∧ holder (countedState U s) res r' q').
  { intros (r' & q' & ? & (q0 & ? & _)%counted_holder). by exists r', q0. }
  assert (lm_requests (countedState U s) !! r = Some (counted U r q)) as Hq1 by (simpl; by rewrite lookup_counted, Hq).
  clear Hq. rewrite <- (counted_lock U r) in Hl. rewrite <- (counted_status U r) in Hst.
  revert Hq1 Hl Hst. generalize (counted U r q). revert H. generalize (countedState U s). clear.
  intros s H q Hq Hl Hst. destruct (li_locked s r q res H Hq Hl) as (h & Hh & Hres & [HC HN] & Hr).
  assert (r ∈ lh_conflictList h) as Hc.
  { apply elem_of_app in Hr as [Hg|?]; [|done].
    destruct (hc_granted h _ HC r Hg) as (q0 & ? & (_ & _ & _ & [(? & _)|(? & _)])); congruence. }
  destruct (lh_grantedList h) as [|r' l] eqn:Eg.
  { exfalso. apply HN; [|done]. intros E. rewrite E in Hc. set_solver. }
  destruct (hc_granted h _ HC r') as (q' & Hq' & (G1 & _ & _ & G2)); [rewrite Eg; left|].
  exists r', q'. split.
  - intros ->. eapply (hc_disjoint h _ HC r); [rewrite Eg; left|done].
  - split; [done|]. left. split; [congruence|]. destruct G2 as [(? & _)|(? & _)]; auto.
Qed.

Lemma waiter_has_holder_witness :
  ∃ q, waiter (after demo) 7 3 q ∧ ∃ r' q', r' ≠ 3%positive ∧ holder (after demo) 7 r' q'.
Proof.
  assert (∃ q, waiter (after demo) 7 3 q) as [q H].
  { eexists. split_and!; [vm_compute; reflexivity|reflexivity|reflexivity]. }
  exists q. split; [done|]. apply (waiter_has_holder (after demo) 7 3 q (after_reachable demo) H).
Defined.

(** The rule for new requests.  A request filed on a lock head is granted
    exactly when its mode is compatible with the modes held and the modes
    waited for by pending conversions, and, unless a compatible-first request
    is granted, with every request already queued: nobody overtakes a
    conflicting waiter. *)
Theorem newRequest_granted_iff s res h r q :
  reachable s → lm_heads s !! res = Some h → lm_requests s !! r = Some q →
  lr_status q = STATUS_NEW → lr_mode q ≠ MODE_NONE → lr_partitioned q = false →
  lh_partitions h = [] →
  ∃ result h' rm', newRequest r h (lm_requests s) = Some (result, h', rm') ∧
    (result = LOCK_OK ↔
     (∀ r' q', r' ∈ lh_grantedList h → lm_requests s !! r' = Some q' →
        compatible (lr_mode q) (lr_mode q') = true ∧
        compatible (lr_mode q) (lr_convertMode q') = true) ∧
     (0 < lh_compatibleFirstCount h ∨
      ∀ r' q', r' ∈ lh_conflictList h → lm_requests s !! r' = Some q' →
        compatible (lr_mode q) (lr_mode q') = true)).
Proof.
  intros [U [H HU]%reaches_UInv] Hh Hq Hst Hm Hpf Hp.
  assert (r ∉ U) as Hr by (intros (q0 & ? & ?)%HU; congruence).
  cut (∃ result h' rm', newRequest r h (countedMap U (lm_requests s)) = Some (result, h', rm') ∧
    (result = LOCK_OK ↔
     (∀ r' q', r' ∈ lh_grantedList h → countedMap U (lm_requests s) !! r' = Some q' →
        compatible (lr_mode q) (lr_mode q') = true ∧ compatible (lr_mode q) (lr_convertMode q') = true) ∧
     (0 < lh_compatibleFirstCount h ∨
      ∀ r' q', r' ∈ lh_conflictList h → countedMap U (lm_requests s) !! r' = Some q' →
        compatible (lr_mode q) (lr_mode q') = true))).
  { intros (result & h' & rm' & E & Hiff). rewrite newRequest_counted in E.
    destruct (newRequest _ _ _) as [[[x h2] rm2]|]; [|done]. simpl in E. simplify_eq. eexists _, _, _. split; [done|].
    pose proof (counted_forall U (lm_requests s) (λ m c, compatible (lr_mode q) m = true ∧
      compatible (lr_mode q) c = true) (lh_grantedList h)) as A.
    pose proof (counted_forall U (lm_requests s) (λ m c, compatible (lr_mode q) m = true) (lh_conflictList h)) as B.
    simpl in A, B. tauto. }
  apply (counted_request U s r q Hr) in Hq. revert H Hq. clear HU Hr.
  change (lm_heads (countedState U s) !! res = Some h) in Hh. revert Hh.
  change (countedMap U (lm_requests s)) with (lm_requests (countedState U s)). generalize (countedState U s). clear s.
  intros s Hh H Hq. pose proof (NEW_is_new s r q H Hq Hst) as N. pose proof N as (N1 & N2 & N3 & N4 & N5).
  destruct (li_heads s H res h Hh) as [Hres HI]. pose proof HI as [HC _].
  assert (0 <= lh_compatibleFirstCount h) as Hcf.
  { rewrite (hc_cf h _ HC). apply rsum_nonneg. auto with mongo. }
  destruct (newRequest_ok h (lm_requests s) r q HI Hq) as (h' & _ & Hcase); try done.
  { by eapply new_not_member. }
  { lia. }
  { left. done. }
  assert (∀ result h' rm', newRequest r h (lm_requests s) = Some (result, h', rm') →
    result = LOCK_OK ↔ conflicts (lr_mode q) (lh_grantedModes h)
      || ((lh_compatibleFirstCount h =? 0) && conflicts (lr_mode q) (lh_conflictModes h)) = false) as Hrule.
  { unfold newRequest. rewrite Hq. simpl. rewrite bool_decide_eq_true_2 by done. intros result h1 rm1.
    destruct (_ || _); intros E1; repeat (case_in E1; try discriminate E1);
      apply bind_Some in E1 as (? & _ & [= <- _ _]); split; congruence. }
  destruct Hcase as [(E & _)|(E & _)]; eexists _, _, _; (split; [exact E|]);
    rewrite <- (granted_mask_spec h _ _ HC), <- (conflict_mask_spec h _ _ HC), (Hrule _ _ _ E), orb_false_iff, andb_false_iff; repeat apply and_iff_compat_l;
    apply or_iff_compat_r; rewrite Z.eqb_neq; lia.
Qed.

Definition demo_S : list call := demo ++ [CCreate 4 4 false false; CLockFast 7 4 MODE_S].

Lemma newRequest_granted_iff_witness :
  ∃ h q result h' rm',
    lm_heads (after demo_S) !! 7 = Some h ∧ lm_requests (after demo_S) !! 4%positive = Some q ∧
    newRequest 4 h (lm_requests (after demo_S)) = Some (result, h', rm') ∧
    (result = LOCK_OK → lr_mode q = MODE_S).
Proof.
  assert (∃ h, lm_heads (after demo_S) !! 7 = Some h ∧ lh_partitions h = []) as (h & Hh & Hp).
  { eexists. split; [vm_compute; reflexivity|reflexivity]. }
  assert (∃ q, lm_requests (after demo_S) !! 4%positive = Some q ∧ lr_status q = STATUS_NEW ∧
    lr_mode q = MODE_S ∧ lr_partitioned q = false) as (q & Hq & Hst & Hm & Hpf).
  { eexists. split_and!; [vm_compute; reflexivity|reflexivity..]. }
  assert (lr_mode q ≠ MODE_NONE) as Hm' by congruence.
  destruct (newRequest_granted_iff (after demo_S) 7 h 4 q (after_reachable demo_S) Hh Hq Hst Hm' Hpf Hp)
    as (result & h' & rm' & E & _).
  exists h, q, result, h', rm'. split; [exact Hh|]. split; [exact Hq|]. split; [exact E|].
  intros _. exact Hm.
Defined.

(** A rescan leaves no grantable request at the front.  After
    [_onLockModeChanged] with the conflict queue checked, the request at the
    front of the queue conflicts with the granted modes. *)
Theorem rescan_front_conflicts s res h h' rm' nt' r q :
  reachable s → lm_heads s !! res = Some h →
  _onLockModeChanged h true (lm_requests s) (lm_notes s) = Some (h', rm', nt') →
  head (lh_conflictList h') = Some r → rm' !! r = Some q →
  conflicts (lr_mode q) (lh_grantedModes h') = true.
Proof.
  intros [U H]%reachable_LInv Hh E Hr Hq. destruct (li_heads _ H res h Hh) as [_ [HC _]].
  destruct (onLockModeChanged_ok h true (lm_requests (countedState U s)) (lm_notes s) HC (or_introl eq_refl))
    as (h2 & rm2 & nt2 & E2 & _ & _ & B).
  simpl in E2. rewrite onLockModeChanged_counted, E in E2. simpl in E2. simplify_eq. rewrite <- (counted_mode U r).
  apply (B eq_refl r); [done|]. by rewrite lookup_counted, Hq.
Qed.

Lemma rescan_front_conflicts_witness :
  ∃ h h' rm' nt' q, lm_heads (after demo) !! 7 = Some h ∧
    _onLockModeChanged h true (lm_requests (after demo)) (lm_notes (after demo)) = Some (h', rm', nt') ∧
    head (lh_conflictList h') = Some 3%positive ∧ rm' !! 3%positive = Some q ∧
    conflicts (lr_mode q) (lh_grantedModes h') = true.
Proof.
  assert (match lm_heads (after demo) !! 7 with
          | Some h =>
              match _onLockModeChanged h true (lm_requests (after demo)) (lm_notes (after demo)) with
              | Some (h', rm', _) =>
                  bool_decide (head (lh_conflictList h') = Some 3%positive)
                  && bool_decide (is_Some (rm' !! 3%positive))
              | None => false
              end
          | None => false
          end = true) as T by (vm_compute; reflexivity).
  destruct (lm_heads (after demo) !! 7) as [h|] eqn:Hh; [|discriminate].
  destruct (_onLockModeChanged h true _ _) as [[[h' rm'] nt']|] eqn:E; [|discriminate].
  to_prop. destruct H0 as [q Hq]. exists h, h', rm', nt', q.
  split; [done|]. split; [exact E|]. split; [done|]. split; [done|].
  apply (rescan_front_conflicts (after demo) 7 h h' rm' nt' 3 q (after_reachable demo) Hh E H Hq).
Defined.
