(* ===== verification/FastMap.v ===== *)
(** The associative array of the Locker's requests, with its recycled entries
    and its iterators (src: db/concurrency/fast_map_noalloc.h), and its
    refinement of finite maps.

    The deque is a list of entries and an iterator is a position in it.  The
    value of an entry outlives its removal, as the entry is recycled. *)
From S2P Require Import Prelude.

Record PreallocEntry (K V : Type) := mkEntry { inUse : bool; key : K; value : V }.
Arguments mkEntry {K V} _ _ _.
Arguments inUse {K V} _.
Arguments key {K V} _.
Arguments value {K V} _.

Record FastMapNoAlloc (K V : Type) := mkFast {
  _fastAccess : list (PreallocEntry K V);
  _fastAccessUsedSize : nat
}.
Arguments mkFast {K V} _ _.
Arguments _fastAccess {K V} _.
Arguments _fastAccessUsedSize {K V} _.

Module FastMap.

Section Operations.
Context {K V : Type} `{EqDecision K}.
Implicit Types (m : FastMapNoAlloc K V) (l : list (PreallocEntry K V)) (it : nat).

Definition new_map : FastMapNoAlloc K V := mkFast [] 0.

Definition size m : nat := _fastAccessUsedSize m.
Definition empty m : bool := (size m =? 0)%nat.

(** Position of the first entry of [l] that satisfies the test, or its end. *)
Fixpoint seek (test : PreallocEntry K V → bool) l (pos : nat) : nat :=
  match l with
  | [] => pos
  | e :: l' => if test e then pos else seek test l' (S pos)
  end.

(** ** Iterators *)

Definition begin m : nat := seek inUse (_fastAccess m) 0.

Definition find (k : K) m : nat :=
  seek (λ e, inUse e && bool_decide (key e = k)) (_fastAccess m) 0.

Definition finished it m : bool := (it =? length (_fastAccess m))%nat.

(** [objAddr], [operator->] and [key]: [None] past the end. *)
Definition entry_at it m : option (PreallocEntry K V) := _fastAccess m !! it.
Definition objAddr it m : option V := value <$> entry_at it m.
Definition key_at it m : option K := key <$> entry_at it m.

Definition next it m : option nat :=
  invariant (negb (finished it m)) ;;
  Some (seek inUse (drop (S it) (_fastAccess m)) (S it)).

(** [remove()] marks the entry unused and advances. *)
Definition remove it m : option (nat * FastMapNoAlloc K V) :=
  e ← entry_at it m;
  invariant (inUse e) ;;
  let m' := mkFast (<[it := mkEntry false (key e) (value e)]> (_fastAccess m))
                   (_fastAccessUsedSize m - 1) in
  it' ← next it m';
  Some (it', m').

(** [insert]; [k0] and [fresh] are the key and the value of an entry that
    [emplace_front] has just constructed. *)
Definition insert (k0 : K) (fresh : V) (k : K) m : option (nat * FastMapNoAlloc K V) :=
  let l := if (_fastAccessUsedSize m =? length (_fastAccess m))%nat
           then mkEntry false k0 fresh :: _fastAccess m else _fastAccess m in
  let it := seek (λ e, negb (inUse e)) l 0 in
  e ← l !! it;
  Some (it, mkFast (<[it := mkEntry true k (value e)]> l) (S (_fastAccessUsedSize m))).

(** Assignment through the iterator. *)
Definition store it (v : V) m : option (FastMapNoAlloc K V) :=
  e ← entry_at it m;
  Some (mkFast (<[it := mkEntry (inUse e) (key e) v]> (_fastAccess m)) (_fastAccessUsedSize m)).

(** The loop [for (it = begin(); !it.finished(); it.next())]. *)
Fixpoint visit (fuel : nat) it m : option (list nat) :=
  if finished it m then Some [] else
  match fuel with
  | O => None
  | S fuel' => it' ← next it m; l ← visit fuel' it' m; Some (it :: l)
  end.

(** ** Contents *)

Definition binding (e : PreallocEntry K V) : list (K * V) :=
  if inUse e then [(key e, value e)] else [].

Definition contents_of l : list (K * V) := l ≫= binding.
Definition contents m : list (K * V) := contents_of (_fastAccess m).

(** The positions in use, in iteration order. *)
Fixpoint used_from (pos : nat) l : list nat :=
  match l with
  | [] => []
  | e :: l' => if inUse e then pos :: used_from (S pos) l' else used_from (S pos) l'
  end.

Definition FInv m : Prop :=
  _fastAccessUsedSize m = length (contents m) ∧ NoDup (contents m).*1.

(** ** Lemmas *)

Lemma contents_app l1 l2 : contents_of (l1 ++ l2) = contents_of l1 ++ contents_of l2.
Proof. apply bind_app. Qed.

Lemma elem_of_contents l k v :
  (k, v) ∈ contents_of l ↔ ∃ i, l !! i = Some (mkEntry true k v).
Proof.
  unfold contents_of. rewrite list_elem_of_bind. split.
  - intros ([b k' v'] & Hb & He). unfold binding in Hb. simpl in Hb. destruct b; [|set_solver].
    apply list_elem_of_singleton in Hb as [= -> ->]. by apply list_elem_of_lookup in He.
  - intros [i Hi]. exists (mkEntry true k v). split; [by left|]. by eapply list_elem_of_lookup_2.
Qed.

Lemma length_contents l : (length (contents_of l) <= length l)%nat.
Proof.
  induction l as [|[b k v] l IH]; [done|]. change (mkEntry b k v :: l) with ([mkEntry b k v] ++ l).
  rewrite contents_app, length_app. destruct b; simpl; lia.
Qed.

(** Where [seek] stops. *)
Lemma seek_spec test l pos :
  (∃ i e, seek test l pos = (pos + i)%nat ∧ l !! i = Some e ∧ test e = true ∧
     ∀ j e', (j < i)%nat → l !! j = Some e' → test e' = false) ∨
  (seek test l pos = (pos + length l)%nat ∧ ∀ e, e ∈ l → test e = false).
Proof.
  revert pos. induction l as [|e l IH]; intros pos; simpl.
  { right. split; [lia|set_solver]. }
  destruct (test e) eqn:E.
  - left. exists 0%nat, e. split; [lia|]. split; [done|]. split; [done|]. intros; lia.
  - destruct (IH (S pos)) as [(i & e1 & E1 & Hi & Ht & Hm)|[E1 Hn]].
    + left. exists (S i), e1. split; [lia|]. split; [done|]. split; [done|].
      intros [|j] e' Hj Hl; simpl in *; [congruence|]. apply (Hm j); [lia|done].
    + right. split; [lia|]. intros e' [->|He]%elem_of_cons; auto.
Qed.

Lemma contents_insert l i e e' :
  l !! i = Some e →
  contents_of (<[i := e']> l) = contents_of (take i l) ++ binding e' ++ contents_of (drop (S i) l) ∧
  contents_of l = contents_of (take i l) ++ binding e ++ contents_of (drop (S i) l).
Proof.
  intros Hi. split.
  - rewrite insert_take_drop by (by apply lookup_lt_Some in Hi).
    rewrite contents_app. done.
  - rewrite <- (take_drop_middle l i e Hi) at 1. by rewrite contents_app.
Qed.

Lemma find_spec k m :
  NoDup (contents m).*1 →
  (finished (find k m) m = true ∧ k ∉ (contents m).*1) ∨
  (∃ v, entry_at (find k m) m = Some (mkEntry true k v) ∧ (k, v) ∈ contents m).
Proof.
  intros Hnd. unfold find, finished, entry_at.
  destruct (seek_spec (λ e, inUse e && bool_decide (key e = k)) (_fastAccess m) 0)
    as [(i & [b k' v] & E & Hi & Ht & _)|[E Hn]]; rewrite E; simpl.
  - right. simpl in Ht. to_prop. subst. exists v. split; [done|]. apply elem_of_contents. eauto.
  - left. split; [by apply Nat.eqb_eq|]. intros H.
    apply list_elem_of_fmap in H as ([k' v] & -> & H). apply elem_of_contents in H as [i Hi].
    specialize (Hn _ (list_elem_of_lookup_2 _ _ _ Hi)). simpl in Hn.
    by rewrite bool_decide_eq_true_2 in Hn.
Qed.

Lemma insert_spec k0 fresh k m :
  FInv m → k ∉ (contents m).*1 →
  ∃ it m' v, insert k0 fresh k m = Some (it, m') ∧ FInv m' ∧
    entry_at it m' = Some (mkEntry true k v) ∧ contents m' ≡ₚ (k, v) :: contents m ∧
    (v = fresh ∨ ∃ e, e ∈ _fastAccess m ∧ inUse e = false ∧ value e = v).
Proof.
  intros [Hsz Hnd] Hk. unfold insert.
  set (l := if (_fastAccessUsedSize m =? length (_fastAccess m))%nat
            then mkEntry false k0 fresh :: _fastAccess m else _fastAccess m).
  assert (contents_of l = contents m ∧ (length (contents m) < length l)%nat ∧
    (∀ e, e ∈ l → inUse e = false → value e = fresh ∨ e ∈ _fastAccess m)) as (Hl & Hlen & Hval).
  { unfold l. destruct (_ =? _)%nat eqn:E.
    - split; [done|]. apply Nat.eqb_eq in E. split; [simpl; lia|].
      intros e [->|?]%elem_of_cons; auto.
    - split; [done|]. apply Nat.eqb_neq in E. pose proof (length_contents (_fastAccess m)).
      unfold contents in *. split; [lia|]. auto. }
  destruct (seek_spec (λ e, negb (inUse e)) l 0) as [(i & e & E & Hi & Ht & _)|[_ Hn]].
  2: { exfalso. assert (length (contents_of l) = length l); [|rewrite Hl in *; lia].
       clear -Hn. induction l as [|e l IH]; [done|]. change (e :: l) with ([e] ++ l).
       rewrite contents_app, !length_app, IH by (intros; apply Hn; by right).
       unfold contents_of. simpl. unfold binding. assert (negb (inUse e) = false) as He by (apply Hn; left).
       apply negb_false_iff in He. by rewrite He. }
  rewrite E. simpl. rewrite Hi. simpl. apply negb_true_iff in Ht.
  destruct (contents_insert l i e (mkEntry true k (value e)) Hi) as [C1 C2].
  unfold binding in C1, C2. rewrite Ht in C2. simpl in C1, C2.
  assert (contents_of (<[i:=mkEntry true k (value e)]> l) ≡ₚ (k, value e) :: contents m) as P.
  { rewrite <- Hl, C1, C2. symmetry. apply Permutation_middle. }
  do 3 eexists. split; [done|]. split; [split|split; [|split; [exact P|]]].
  - unfold contents. simpl. rewrite P. simpl. by rewrite Hsz.
  - unfold contents. simpl. rewrite P. simpl. by constructor.
  - unfold entry_at. simpl. apply list_lookup_insert_eq. by apply lookup_lt_Some in Hi.
  - assert (e ∈ l) as He by (by eapply list_elem_of_lookup_2).
    destruct (Hval e He Ht) as [?|?]; [by left|right; eauto].
Qed.

Lemma remove_spec it k v m :
  FInv m → entry_at it m = Some (mkEntry true k v) →
  ∃ it' m', remove it m = Some (it', m') ∧ FInv m' ∧ contents m ≡ₚ (k, v) :: contents m' ∧
    entry_at it m' = Some (mkEntry false k v) ∧
    ∀ i, i ≠ it → entry_at i m' = entry_at i m.
Proof.
  intros [Hsz Hnd] Hit. unfold remove. rewrite Hit. simpl.
  destruct (contents_insert _ _ _ (mkEntry false k v) Hit) as [C1 C2]. simpl in C1, C2.
  assert (contents m ≡ₚ (k, v) :: contents_of (<[it:=mkEntry false k v]> (_fastAccess m))) as P.
  { unfold contents. rewrite C1, C2. symmetry. apply Permutation_middle. }
  pose proof (lookup_lt_Some _ _ _ Hit) as Hlt. unfold next, finished. simpl.
  rewrite length_insert. replace (it =? length (_fastAccess m))%nat with false
    by (symmetry; apply Nat.eqb_neq; lia). simpl.
  do 2 eexists. split; [done|]. split; [|split; [exact P|split]].
  - rewrite P in Hsz, Hnd. simpl in *. apply NoDup_cons in Hnd as [_ Hnd]. split; [|done].
    unfold contents at 1. simpl. lia.
  - unfold entry_at. simpl. by apply list_lookup_insert_eq.
  - intros i Hi. unfold entry_at. simpl. by apply list_lookup_insert_ne.
Qed.

Lemma store_spec it k v w m :
  FInv m → entry_at it m = Some (mkEntry true k v) →
  ∃ m', store it w m = Some m' ∧ FInv m' ∧ entry_at it m' = Some (mkEntry true k w) ∧
    (∀ i, i ≠ it → entry_at i m' = entry_at i m) ∧ (contents m').*1 = (contents m).*1 ∧
    _fastAccessUsedSize m' = _fastAccessUsedSize m ∧
    length (_fastAccess m') = length (_fastAccess m).
Proof.
  intros [Hsz Hnd] Hit. unfold store. rewrite Hit. simpl.
  destruct (contents_insert _ _ _ (mkEntry true k w) Hit) as [C1 C2]. simpl in C1, C2.
  assert ((contents_of (<[it:=mkEntry true k w]> (_fastAccess m))).*1 = (contents m).*1) as P.
  { unfold contents. by rewrite C1, C2, !fmap_app, !fmap_cons. }
  eexists. split; [done|]. split; [split|split; [|split; [|split; [exact P|split]]]].
  - unfold contents at 1. simpl. rewrite <- (length_fmap fst), P, length_fmap. done.
  - unfold contents at 1. simpl. by rewrite P.
  - apply list_lookup_insert_eq. by apply lookup_lt_Some in Hit.
  - intros i Hi. by apply list_lookup_insert_ne.
  - done.
  - apply length_insert.
Qed.

(** A loop from [begin] by [next] visits the used positions in order. *)
Lemma used_from_seek pos l :
  used_from pos l = match drop (seek inUse l pos - pos) l with
                    | [] => [] | e :: l' => seek inUse l pos :: used_from (S (seek inUse l pos)) l'
                    end.
Proof.
  revert pos. induction l as [|e l IH]; intros pos; simpl; [by rewrite drop_nil|].
  destruct (inUse e) eqn:E.
  - by rewrite Nat.sub_diag.
  - rewrite IH. pose proof (seek_spec inUse l (S pos)) as Hs.
    assert (S pos <= seek inUse l (S pos))%nat by (destruct Hs as [(i & ? & ? & _)|[? _]]; lia).
    replace (seek inUse l (S pos) - pos)%nat with (S (seek inUse l (S pos) - S pos)) by lia. done.
Qed.

Lemma visit_spec fuel it m :
  (length (_fastAccess m) - it <= fuel)%nat → (it <= length (_fastAccess m))%nat →
  (finished it m = false → ∃ e, entry_at it m = Some e ∧ inUse e = true) →
  visit fuel it m = Some (used_from it (drop it (_fastAccess m))).
Proof.
  revert it. induction fuel as [|fuel IH]; intros it Hf Hle Hin; cbn [visit];
    (destruct (finished it m) eqn:Efin;
     [apply Nat.eqb_eq in Efin; rewrite drop_ge by lia; done|]);
    apply Nat.eqb_neq in Efin; [lia|].
  destruct (Hin eq_refl) as (e & He & Hu). unfold next.
  replace (finished it m) with false by (symmetry; by apply Nat.eqb_neq). simpl.
  rewrite (drop_S _ _ _ He). simpl. rewrite Hu.
  set (l := drop (S it) (_fastAccess m)).
  assert (length l = length (_fastAccess m) - S it)%nat as Hlen by apply length_drop.
  rewrite (IH (seek inUse l (S it))).
  - simpl. do 2 f_equal. rewrite (used_from_seek (S it) l).
    destruct (seek_spec inUse l (S it)) as [(i & e1 & E & Hi & Hu1 & _)|[E _]]; rewrite E.
    + replace (S it + i - S it)%nat with i by lia. rewrite (drop_S _ _ _ Hi).
      unfold l. unfold l in Hi. rewrite lookup_drop in Hi. rewrite (drop_S _ _ _ Hi), drop_drop.
      replace (S it + S i)%nat with (S (S it + i)) by lia. simpl. by rewrite Hu1.
    + rewrite !drop_ge by lia. done.
  - destruct (seek_spec inUse l (S it)) as [(i & e1 & E & _)|[E _]]; rewrite E; lia.
  - destruct (seek_spec inUse l (S it)) as [(i & e1 & E & Hi & _)|[E _]]; rewrite E; [|lia].
    apply lookup_lt_Some in Hi. lia.
  - destruct (seek_spec inUse l (S it)) as [(i & e1 & E & Hi & Hu1 & _)|[E _]]; rewrite E.
    + intros _. exists e1. split; [|done]. unfold entry_at. by rewrite <- lookup_drop.
    + unfold finished. intros ?%Nat.eqb_neq. lia.
Qed.

Lemma visit_all m :
  visit (length (_fastAccess m)) (begin m) m = Some (used_from 0 (_fastAccess m)).
Proof.
  unfold begin. rewrite (used_from_seek 0), Nat.sub_0_r.
  destruct (seek_spec inUse (_fastAccess m) 0) as [(i & e & E & Hi & Hu & _)|[E Hn]]; rewrite E; simpl.
  - pose proof (lookup_lt_Some _ _ _ Hi). rewrite visit_spec; [|lia|lia|].
    + rewrite (drop_S _ _ _ Hi). simpl. by rewrite Hu.
    + intros _. exists e. done.
  - rewrite visit_spec; [by rewrite drop_ge by lia|lia|lia|].
    unfold finished. rewrite Nat.eqb_refl. done.
Qed.

(** The bindings at the used positions are the contents. *)
Lemma used_from_contents L pos :
  omap (λ i, e ← L !! i; Some (key e, value e)) (used_from pos (drop pos L)) =
  contents_of (drop pos L).
Proof.
  remember (drop pos L) as l eqn:E. revert pos E.
  induction l as [|e l IH]; intros pos E; [done|].
  assert (L !! pos = Some e) as Hp.
  { rewrite <- (Nat.add_0_r pos), <- lookup_drop, <- E. done. }
  assert (l = drop (S pos) L) as El.
  { rewrite (drop_S _ _ _ Hp) in E. by injection E. }
  change (e :: l) with ([e] ++ l) at 2. rewrite contents_app, <- (IH (S pos) El). simpl.
  unfold contents_of, binding. simpl. destruct (inUse e); [|done]. simpl. by rewrite Hp.
Qed.

End Operations.

(** ** Refinement of finite maps *)

Section Refinement.
Context {K V : Type} `{Countable K}.
Implicit Types (m : FastMapNoAlloc K V).

Definition toMap m : gmap K V := list_to_map (contents m).

Lemma toMap_perm m l : FInv m → contents m ≡ₚ l → toMap m = list_to_map l.
Proof. intros [_ Hnd] P. by apply list_to_map_proper. Qed.

(** C25: the map behaves as a finite map: [find], [size], [insert], [remove] and
    the iteration are lookup, cardinality, insertion, deletion and an
    enumeration, and none of their assertions fails. *)
Theorem fast_map_refines m k k0 fresh :
  FInv m →
  objAddr (find k m) m = toMap m !! k ∧
  (finished (find k m) m = true ↔ toMap m !! k = None) ∧
  size m = base.size (toMap m) ∧
  (toMap m !! k = None → ∃ it m' v,
     insert k0 fresh k m = Some (it, m') ∧ FInv m' ∧ toMap m' = <[k := v]> (toMap m)) ∧
  (∀ v, toMap m !! k = Some v → ∃ it' m',
     remove (find k m) m = Some (it', m') ∧ FInv m' ∧ toMap m' = delete k (toMap m)) ∧
  (∃ its, visit (length (_fastAccess m)) (begin m) m = Some its ∧
     omap (λ i, e ← entry_at i m; Some (key e, value e)) its = contents m).
Proof.
  intros HI. pose proof HI as [Hsz Hnd].
  assert (∀ v, toMap m !! k = Some v ↔ (k, v) ∈ contents m) as Hl
    by (intros v; symmetry; by apply elem_of_list_to_map).
  assert (k ∉ (contents m).*1 ↔ toMap m !! k = None) as Hn by apply not_elem_of_list_to_map.
  assert ((objAddr (find k m) m = toMap m !! k ∧ (finished (find k m) m = true ↔ toMap m !! k = None)) ∧
    ∀ v, toMap m !! k = Some v → entry_at (find k m) m = Some (mkEntry true k v)) as [[F1 F2] F3].
  { destruct (find_spec k m Hnd) as [[Hf Hk]|(v & Hv & Hin)].
    - apply Hn in Hk. rewrite Hk. split; [|done]. split; [|done]. unfold objAddr, entry_at.
      unfold finished in Hf. apply Nat.eqb_eq in Hf. rewrite lookup_ge_None_2; [done|lia].
    - apply Hl in Hin. rewrite Hin. split; [split|].
      + unfold objAddr. by rewrite Hv.
      + unfold finished. rewrite Nat.eqb_eq. apply lookup_lt_Some in Hv. split; [lia|done].
      + intros w. congruence. }
  split; [done|]. split; [done|]. split.
  { unfold size, toMap. by rewrite map_size_list_to_map. }
  split; [|split].
  - intros Hk. destruct (insert_spec k0 fresh k m HI) as (it & m' & v & E & HI' & _ & P & _);
      [by apply Hn|]. exists it, m', v. split; [done|]. split; [done|].
    by rewrite (toMap_perm m' _ HI' P).
  - intros v Hv. destruct (remove_spec (find k m) k v m HI (F3 v Hv)) as (it' & m' & E & HI' & P & _).
    exists it', m'. split; [done|]. split; [done|]. rewrite (toMap_perm m _ HI P). simpl.
    rewrite delete_insert_id; [done|]. apply not_elem_of_list_to_map_1.
    rewrite P in Hnd. simpl in Hnd. by apply NoDup_cons in Hnd as [? _].
  - eexists. split; [apply visit_all|]. unfold contents, entry_at.
    pose proof (used_from_contents (_fastAccess m) 0) as U. by rewrite drop_0 in U.
Qed.

End Refinement.

Definition demo_map : FastMapNoAlloc Z Z :=
  mkFast [mkEntry true 5 50; mkEntry false 7 70; mkEntry true 9 90] 2.

Lemma fast_map_refines_witness :
  FInv demo_map ∧ ∃ it m' v, insert 0 1 7 demo_map = Some (it, m') ∧
    toMap m' = <[7 := v]> (toMap demo_map).
Proof.
  assert (FInv demo_map) as HI.
  { split; [reflexivity|]. apply (bool_decide_unpack _). vm_compute. exact I. }
  split; [exact HI|].
  destruct (fast_map_refines demo_map 7 0 1 HI) as (_ & _ & _ & Hins & _).
  destruct (Hins eq_refl) as (it & m' & v & E & _ & M). exists it, m', v. split; [exact E|exact M].
Defined.

End FastMap.
