(* ===== verification/Locker.v ===== *)
(** The Locker: the per-operation lock state and its two-phase locking
    (src: db/concurrency/lock_state.cpp, lock_state.h, locker.h).

    The Locker is written against [LockService], what it uses of the global lock
    manager; LockerService.v gives the instance of LockManager.v.  A state is
    the pair of the Locker and of the lock service.  [None] is a failed
    invariant or a dangling iterator; a thrown exception is a result.  The time
    other threads take while a request waits is an argument of the operations
    that wait.  Statistics, tickets' counters and debug checks are left out. *)
From stdpp Require Import sorting.
From S2P Require Import Prelude LockModes FastMap LockManager.
Export ResourceId.

(** ** The interface of the lock manager *)

(** What a Locker reads of its own requests. *)
Record ReqView := mkView { rv_count : Z; rv_status : Status; rv_mode : LockMode }.

Class LockService (S : Type) := {
  svc_view : S → ReqId → option ReqView;
  svc_init : ReqId → Z → S → S;
  svc_prioritize : ReqId → S → S;
  svc_set_count : ReqId → Z → S → S;
  svc_lock : Z → ReqId → LockMode → S → option (LockResult * S);
  svc_convert : Z → ReqId → LockMode → S → option (LockResult * S);
  svc_unlock : ReqId → S → option (bool * S);
  svc_downgrade : ReqId → LockMode → S → option S
}.

(** ** Data *)

Inductive ClientState := kInactive | kActiveReader | kActiveWriter | kQueuedReader | kQueuedWriter.

#[export] Instance ClientState_eq_dec : EqDecision ClientState.
Proof. solve_decision. Defined.

(** The value of a map entry: the address of the request and the request's
    [unlockPending]. *)
Record Slot := mkSlot { sl_req : ReqId; sl_unlockPending : Z }.

Record Locker := mkLocker {
  _id : Z;
  _requests : FastMapNoAlloc Z Slot;
  _numResourcesToUnlockAtEndUnitOfWork : Z;
  _wuowNestingLevel : Z;
  _modeForTicket : LockMode;
  _clientState : ClientState;
  _sharedLocksShouldTwoPhaseLock : bool;
  _shouldConflictWithSecondaryBatchApplication : bool;
  _globalLockMode : Z;
  _wasGlobalLockTakenInModeConflictingWithWrites : bool
}.

Record OneLock := mkOneLock { ol_resourceId : Z; ol_mode : LockMode }.
Record LockSnapshot := mkLockSnapshot { ls_locks : list OneLock; ls_globalMode : LockMode }.
Record WUOWLockSnapshot := mkWUOWSnapshot {
  ws_wuowNestingLevel : Z; ws_unlockPendingLocks : list OneLock }.

#[export] Instance OneLock_eq_dec : EqDecision OneLock.
Proof. solve_decision. Defined.

(** [OneLock::operator<] orders by resource. *)
Definition ol_le (a b : OneLock) : Prop := ol_resourceId a <= ol_resourceId b.

#[export] Instance ol_le_dec a b : Decision (ol_le a b).
Proof. unfold ol_le. apply _. Defined.

Definition resourceIdGlobal : Z := fullHash RESOURCE_GLOBAL 1.
Definition resourceIdParallelBatchWriterMode : Z := fullHash RESOURCE_PBWM 1.
Definition resourceIdReplicationStateTransitionLock : Z := fullHash RESOURCE_RSTL 1.

#[global] Arguments resourceIdGlobal : simpl never.
#[global] Arguments resourceIdParallelBatchWriterMode : simpl never.
#[global] Arguments resourceIdReplicationStateTransitionLock : simpl never.

Definition new_locker (id : Z) : Locker :=
  mkLocker id FastMap.new_map 0 0 MODE_NONE kInactive false true (modeMask MODE_NONE) false.

Definition with_map (m : FastMapNoAlloc Z Slot) (l : Locker) : Locker :=
  mkLocker (_id l) m (_numResourcesToUnlockAtEndUnitOfWork l) (_wuowNestingLevel l)
    (_modeForTicket l) (_clientState l) (_sharedLocksShouldTwoPhaseLock l)
    (_shouldConflictWithSecondaryBatchApplication l) (_globalLockMode l)
    (_wasGlobalLockTakenInModeConflictingWithWrites l).
Definition with_num (n : Z) (l : Locker) : Locker :=
  mkLocker (_id l) (_requests l) n (_wuowNestingLevel l)
    (_modeForTicket l) (_clientState l) (_sharedLocksShouldTwoPhaseLock l)
    (_shouldConflictWithSecondaryBatchApplication l) (_globalLockMode l)
    (_wasGlobalLockTakenInModeConflictingWithWrites l).
Definition with_nesting (n : Z) (l : Locker) : Locker :=
  mkLocker (_id l) (_requests l) (_numResourcesToUnlockAtEndUnitOfWork l) n
    (_modeForTicket l) (_clientState l) (_sharedLocksShouldTwoPhaseLock l)
    (_shouldConflictWithSecondaryBatchApplication l) (_globalLockMode l)
    (_wasGlobalLockTakenInModeConflictingWithWrites l).
Definition with_ticket (m : LockMode) (c : ClientState) (l : Locker) : Locker :=
  mkLocker (_id l) (_requests l) (_numResourcesToUnlockAtEndUnitOfWork l) (_wuowNestingLevel l)
    m c (_sharedLocksShouldTwoPhaseLock l)
    (_shouldConflictWithSecondaryBatchApplication l) (_globalLockMode l)
    (_wasGlobalLockTakenInModeConflictingWithWrites l).
Definition with_taken (g : Z) (b : bool) (l : Locker) : Locker :=
  mkLocker (_id l) (_requests l) (_numResourcesToUnlockAtEndUnitOfWork l) (_wuowNestingLevel l)
    (_modeForTicket l) (_clientState l) (_sharedLocksShouldTwoPhaseLock l)
    (_shouldConflictWithSecondaryBatchApplication l) g b.

(** How an acquisition ends: granted, queued, or with an exception. *)
Inductive Acquired := AOk | AWaiting | AThrow.

Module LockerImpl.

Section Operations.
Context {S : Type} `{LockService S}.
Implicit Types (l : Locker) (s : S) (it : nat).

Definition inAWriteUnitOfWork l : bool := 0 <? _wuowNestingLevel l.

Definition _shouldDelayUnlock l (resId : Z) (mode : LockMode) : option bool :=
  match getType resId with
  | Some RESOURCE_MUTEX => Some false
  | Some RESOURCE_GLOBAL | Some RESOURCE_PBWM | Some RESOURCE_RSTL | Some RESOURCE_DATABASE
  | Some RESOURCE_COLLECTION | Some RESOURCE_METADATA =>
      match mode with
      | MODE_X | MODE_IX => Some true
      | MODE_IS | MODE_S => Some (_sharedLocksShouldTwoPhaseLock l)
      | MODE_NONE => None
      end
  | Some RESOURCE_INVALID | None => None
  end.

(** ** Queries *)

(** The view of the request an iterator points to. *)
Definition view_at it l s : option ReqView :=
  sl ← FastMap.objAddr it (_requests l); svc_view s (sl_req sl).

Definition getLockMode l s (resId : Z) : option LockMode :=
  let it := FastMap.find resId (_requests l) in
  if FastMap.finished it (_requests l) then Some MODE_NONE
  else v ← view_at it l s; Some (rv_mode v).

Definition isW l s : option bool :=
  m ← getLockMode l s resourceIdGlobal; Some (bool_decide (m = MODE_X)).
Definition isR l s : option bool :=
  m ← getLockMode l s resourceIdGlobal; Some (bool_decide (m = MODE_S)).
Definition isLocked l s : option bool :=
  m ← getLockMode l s resourceIdGlobal; Some (negb (bool_decide (m = MODE_NONE))).

Definition isLockHeldForMode l s (resId : Z) (mode : LockMode) : option bool :=
  m ← getLockMode l s resId; Some (isModeCovered mode m).

Definition isWriteLocked l s : option bool := isLockHeldForMode l s resourceIdGlobal MODE_IX.
Definition isReadLocked l s : option bool := isLockHeldForMode l s resourceIdGlobal MODE_IS.
Definition isRSTLExclusive l s : option bool :=
  m ← getLockMode l s resourceIdReplicationStateTransitionLock; Some (bool_decide (m = MODE_X)).
Definition isRSTLLocked l s : option bool :=
  m ← getLockMode l s resourceIdReplicationStateTransitionLock;
  Some (negb (bool_decide (m = MODE_NONE))).

(** [isDbLockedForMode]; [resIdDb] is the resource of the database's name. *)
Definition isDbLockedForMode l s (resIdDb : Z) (mode : LockMode) : option bool :=
  w ← isW l s;
  if (w : bool) then Some true else
  r ← isR l s;
  if r && isSharedLockMode mode then Some true else isLockHeldForMode l s resIdDb mode.

(** [isCollectionLockedForMode] for the resources of the database and of the
    collection. *)
Definition isCollectionLockedForMode l s (resIdDb resIdColl : Z) (mode : LockMode)
    : option bool :=
  w ← isW l s;
  if (w : bool) then Some true else
  r ← isR l s;
  if r && isSharedLockMode mode then Some true else
  dbMode ← getLockMode l s resIdDb;
  if negb (_shouldConflictWithSecondaryBatchApplication l) then Some true else
  match dbMode with
  | MODE_NONE => Some false
  | MODE_X => Some true
  | MODE_S => Some (isSharedLockMode mode)
  | MODE_IX | MODE_IS => isLockHeldForMode l s resIdColl mode
  end.

Definition wasGlobalLockTakenForWrite l : bool :=
  negb (Z.land (_globalLockMode l) (Z.lor (modeMask MODE_IX) (modeMask MODE_X)) =? 0).
Definition wasGlobalLockTaken l : bool := negb (_globalLockMode l =? modeMask MODE_NONE).
Definition setGlobalLockTakenInMode (mode : LockMode) l : Locker :=
  with_taken (Z.lor (_globalLockMode l) (modeMask mode))
    (_wasGlobalLockTakenInModeConflictingWithWrites l
     || bool_decide (mode = MODE_IX) || bool_decide (mode = MODE_X) || bool_decide (mode = MODE_S)) l.

(** The loop of [getWaitingResource] from an iterator. *)
Fixpoint waitingFrom (fuel : nat) it l s : option (option Z) :=
  if FastMap.finished it (_requests l) then Some None else
  match fuel with
  | O => None
  | Datatypes.S fuel' =>
      v ← view_at it l s;
      match rv_status v with
      | STATUS_WAITING | STATUS_CONVERTING => Some <$> FastMap.key_at it (_requests l)
      | _ => it' ← FastMap.next it (_requests l); waitingFrom fuel' it' l s
      end
  end.
Definition getWaitingResource l s : option (option Z) :=
  waitingFrom (length (_fastAccess (_requests l))) (FastMap.begin (_requests l)) l s.

Definition isGlobalLockedRecursively l s : option bool :=
  let it := FastMap.find resourceIdGlobal (_requests l) in
  if FastMap.finished it (_requests l) then Some false
  else v ← view_at it l s; Some (1 <? rv_count v).

(** ** Tickets *)

(** How the wait for a ticket ends. *)
Inductive TicketWait := TGot | TTimedOut | TInterrupted.

(** [_acquireTicket]; [holder] tells whether the mode is throttled.  The result
    is [None] for an exception. *)
Definition _acquireTicket (holder : bool) (w : TicketWait) (mode : LockMode) l
    : option bool * Locker :=
  let reader := isSharedLockMode mode in
  let active := with_ticket (_modeForTicket l) (if reader then kActiveReader else kActiveWriter) in
  if holder then
    match w with
    | TGot => (Some true, active l)
    | TTimedOut => (Some false, with_ticket (_modeForTicket l) kInactive l)
    | TInterrupted => (None, with_ticket (_modeForTicket l) kInactive l)
    end
  else (Some true, active l).

Definition _releaseTicket l : Locker := with_ticket (_modeForTicket l) kInactive l.

Definition releaseTicket l : option Locker :=
  invariant (negb (bool_decide (_modeForTicket l = MODE_NONE))) ;; Some (_releaseTicket l).

(** [reacquireTicket]; [bounded] tells whether a maximal lock timeout applies. *)
Definition reacquireTicket (bounded holder : bool) (w : TicketWait) l : option (Acquired * Locker) :=
  invariant (negb (bool_decide (_modeForTicket l = MODE_NONE))) ;;
  let reader := isSharedLockMode (_modeForTicket l) in
  invariant (bool_decide (_clientState l = kInactive)
             || (bool_decide (_clientState l = kActiveReader) && reader)
             || (bool_decide (_clientState l = kActiveWriter) && negb reader)) ;;
  if negb (bool_decide (_clientState l = kInactive)) then Some (AOk, l) else
  match _acquireTicket holder w (_modeForTicket l) l with
  | (Some true, l) => Some (AOk, l)
  | (Some false, l) => invariant bounded ;; Some (AThrow, l)
  | (None, l) => Some (AThrow, l)
  end.

(** ** Releasing *)

(** [_unlockImpl]: the flag tells whether the last reference was dropped. *)
Definition _unlockImpl it l s : option (bool * nat * Locker * S) :=
  sl ← FastMap.objAddr it (_requests l);
  '(freed, s) ← svc_unlock (sl_req sl) s;
  if (freed : bool) then
    k ← FastMap.key_at it (_requests l);
    l ← (if k =? resourceIdGlobal then
           invariant (negb (bool_decide (_modeForTicket l = MODE_NONE))) ;;
           let l := if negb (bool_decide (_clientState l = kInactive)) then _releaseTicket l else l in
           Some (with_ticket MODE_NONE (_clientState l) l)
         else Some l);
    '(it, m) ← FastMap.remove it (_requests l);
    Some (true, it, with_map m l, s)
  else Some (false, it, l, s).

Definition unlock (resId : Z) l s : option (bool * Locker * S) :=
  let it := FastMap.find resId (_requests l) in
  if FastMap.finished it (_requests l) then Some (false, l, s) else
  sl ← FastMap.objAddr it (_requests l);
  v ← svc_view s (sl_req sl);
  delay ← (if inAWriteUnitOfWork l then _shouldDelayUnlock l resId (rv_mode v) else Some false);
  if (delay : bool) then
    if 1 <? rv_count v then
      '(freed, _, l, s) ← _unlockImpl it l s;
      invariant (negb freed) ;;
      Some (false, l, s)
    else
      let l := if sl_unlockPending sl =? 0
               then with_num (_numResourcesToUnlockAtEndUnitOfWork l + 1) l else l in
      m ← FastMap.store it (mkSlot (sl_req sl) (sl_unlockPending sl + 1)) (_requests l);
      invariant (sl_unlockPending sl + 1 <=? rv_count v) ;;
      Some (false, with_map m l, s)
  else
    '(freed, _, l, s) ← _unlockImpl it l s;
    Some (freed, l, s).

(** The loop of [unlockGlobal] over the other requests. *)
Fixpoint unlockGlobalLoop (fuel : nat) it l s : option (Locker * S) :=
  if FastMap.finished it (_requests l) then Some (l, s) else
  match fuel with
  | O => None
  | Datatypes.S fuel' =>
      k ← FastMap.key_at it (_requests l);
      match getType k with
      | Some RESOURCE_GLOBAL | Some RESOURCE_PBWM | Some RESOURCE_RSTL | Some RESOURCE_MUTEX =>
          it ← FastMap.next it (_requests l); unlockGlobalLoop fuel' it l s
      | _ =>
          '(freed, it, l, s) ← _unlockImpl it l s;
          invariant (freed : bool) ;;
          unlockGlobalLoop fuel' it l s
      end
  end.

Definition unlockGlobal l s : option (bool * Locker * S) :=
  '(freed, l, s) ← unlock resourceIdGlobal l s;
  if negb freed then Some (false, l, s) else
  invariant (negb (inAWriteUnitOfWork l)) ;;
  '(l, s) ← unlockGlobalLoop (length (_fastAccess (_requests l))) (FastMap.begin (_requests l)) l s;
  Some (true, l, s).

Definition unlockRSTLforPrepare l s : option (bool * Locker * S) :=
  let it := FastMap.find resourceIdReplicationStateTransitionLock (_requests l) in
  if FastMap.finished it (_requests l) then Some (false, l, s) else
  sl ← FastMap.objAddr it (_requests l);
  l ← (if negb (sl_unlockPending sl =? 0) then
         m ← FastMap.store it (mkSlot (sl_req sl) 0) (_requests l);
         Some (with_num (_numResourcesToUnlockAtEndUnitOfWork l - 1) (with_map m l))
       else Some l);
  let s := svc_set_count (sl_req sl) 1 s in
  '(freed, _, l, s) ← _unlockImpl it l s;
  Some (freed, l, s).

Definition downgrade (resId : Z) (newMode : LockMode) l s : option (Locker * S) :=
  sl ← FastMap.objAddr (FastMap.find resId (_requests l)) (_requests l);
  s ← svc_downgrade (sl_req sl) newMode s;
  Some (l, s).

(** ** Write units of work *)

Definition beginWriteUnitOfWork l : Locker := with_nesting (_wuowNestingLevel l + 1) l.

(** The inner loop of [endWriteUnitOfWork]: the pending unlocks of one entry. *)
Fixpoint flushPending (fuel : nat) it l s : option (Locker * S) :=
  sl ← FastMap.objAddr it (_requests l);
  if sl_unlockPending sl <=? 0 then Some (l, s) else
  match fuel with
  | O => None
  | Datatypes.S fuel' =>
      m ← FastMap.store it (mkSlot (sl_req sl) (sl_unlockPending sl - 1)) (_requests l);
      k ← FastMap.key_at it m;
      '(_, l, s) ← unlock k (with_map m l) s;
      flushPending fuel' it l s
  end.

(** The outer loop. *)
Fixpoint endLoop (fuel : nat) it l s : option (Locker * S) :=
  if _numResourcesToUnlockAtEndUnitOfWork l <=? 0 then Some (l, s) else
  match fuel with
  | O => None
  | Datatypes.S fuel' =>
      sl ← FastMap.objAddr it (_requests l);
      let l := if negb (sl_unlockPending sl =? 0)
               then with_num (_numResourcesToUnlockAtEndUnitOfWork l - 1) l else l in
      '(l, s) ← flushPending (Z.to_nat (sl_unlockPending sl)) it l s;
      it ← FastMap.next it (_requests l);
      endLoop fuel' it l s
  end.

Definition endWriteUnitOfWork l s : option (Locker * S) :=
  invariant (0 <? _wuowNestingLevel l) ;;
  let l := with_nesting (_wuowNestingLevel l - 1) l in
  if 0 <? _wuowNestingLevel l then Some (l, s)
  else endLoop (length (_fastAccess (_requests l))) (FastMap.begin (_requests l)) l s.

(** The loop of [releaseWriteUnitOfWork]. *)
Fixpoint releaseLoop (fuel : nat) it l s (out : list OneLock) : option (Locker * list OneLock) :=
  if _numResourcesToUnlockAtEndUnitOfWork l <=? 0 then Some (l, out) else
  match fuel with
  | O => None
  | Datatypes.S fuel' =>
      sl ← FastMap.objAddr it (_requests l);
      '(l, out) ←
        (if negb (sl_unlockPending sl =? 0) then
           k ← FastMap.key_at it (_requests l);
           v ← svc_view s (sl_req sl);
           m ← FastMap.store it (mkSlot (sl_req sl) 0) (_requests l);
           Some (with_num (_numResourcesToUnlockAtEndUnitOfWork l - 1) (with_map m l),
                 out ++ replicate (Z.to_nat (sl_unlockPending sl)) (mkOneLock k (rv_mode v)))
         else Some (l, out));
      it ← FastMap.next it (_requests l);
      releaseLoop fuel' it l s out
  end.

Definition releaseWriteUnitOfWork l s : option (WUOWLockSnapshot * Locker) :=
  let nesting := _wuowNestingLevel l in
  let l := with_nesting 0 l in
  '(l, out) ← releaseLoop (length (_fastAccess (_requests l))) (FastMap.begin (_requests l)) l s [];
  Some (mkWUOWSnapshot nesting out, l).

(** The search of [restoreWriteUnitOfWork] for a resource held in a mode. *)
Fixpoint findHeld (fuel : nat) it (lock : OneLock) l s : option nat :=
  if FastMap.finished it (_requests l) then None else
  match fuel with
  | O => None
  | Datatypes.S fuel' =>
      k ← FastMap.key_at it (_requests l);
      v ← view_at it l s;
      if (k =? ol_resourceId lock) && bool_decide (rv_mode v = ol_mode lock) then Some it
      else it ← FastMap.next it (_requests l); findHeld fuel' it lock l s
  end.

Fixpoint restoreLoop (locks : list OneLock) l s : option Locker :=
  match locks with
  | [] => Some l
  | lock :: locks' =>
      it ← findHeld (length (_fastAccess (_requests l))) (FastMap.begin (_requests l)) lock l s;
      sl ← FastMap.objAddr it (_requests l);
      let l := if sl_unlockPending sl =? 0
               then with_num (_numResourcesToUnlockAtEndUnitOfWork l + 1) l else l in
      m ← FastMap.store it (mkSlot (sl_req sl) (sl_unlockPending sl + 1)) (_requests l);
      restoreLoop locks' (with_map m l) s
  end.

Definition restoreWriteUnitOfWork (st : WUOWLockSnapshot) l s : option Locker :=
  invariant (_numResourcesToUnlockAtEndUnitOfWork l =? 0) ;;
  invariant (negb (inAWriteUnitOfWork l)) ;;
  l ← restoreLoop (ws_unlockPendingLocks st) l s;
  Some (with_nesting (ws_wuowNestingLevel st) l).

(** ** Acquiring *)

(** [_lockBegin].  [fresh] is the address of a newly constructed entry and
    [interrupted] tells that the operation is interruptible and was killed. *)
Definition _lockBegin (fresh : ReqId) (interrupted : bool) (resId : Z) (mode : LockMode) l s
    : option (Acquired * Locker * S) :=
  let it := FastMap.find resId (_requests l) in
  let isNew := FastMap.finished it (_requests l) in
  '(it, l, s) ←
    (if isNew then
       '(it, m) ← FastMap.insert 0 (mkSlot fresh 0) resId (_requests l);
       sl ← FastMap.objAddr it m;
       m ← FastMap.store it (mkSlot (sl_req sl) 0) m;
       Some (it, with_map m l, svc_init (sl_req sl) (_id l) s)
     else Some (it, l, s));
  sl ← FastMap.objAddr it (_requests l);
  v ← svc_view s (sl_req sl);
  if negb (sl_unlockPending sl =? 0) && isModeCovered mode (rv_mode v) then
    m ← FastMap.store it (mkSlot (sl_req sl) (sl_unlockPending sl - 1)) (_requests l);
    let l := with_map m l in
    Some (AOk, if sl_unlockPending sl - 1 =? 0
               then with_num (_numResourcesToUnlockAtEndUnitOfWork l - 1) l else l, s)
  else
    let s :=
      match getType resId with
      | Some RESOURCE_GLOBAL | Some RESOURCE_PBWM | Some RESOURCE_RSTL =>
          match mode with
          | MODE_S | MODE_X => svc_prioritize (sl_req sl) s
          | _ => s
          end
      | _ => s
      end in
    '(result, s) ← (if isNew then svc_lock resId (sl_req sl) mode s
                    else svc_convert resId (sl_req sl) mode s);
    match result with
    | LOCK_WAITING => Some (AWaiting, l, s)
    | _ =>
        if interrupted then
          let it := FastMap.find resId (_requests l) in
          invariant (negb (FastMap.finished it (_requests l))) ;;
          '(_, _, l, s) ← _unlockImpl it l s;
          Some (AThrow, l, s)
        else Some (AOk, l, s)
    end.

(** [_lockComplete]; [result] is what the wait on the notification ended with:
    LOCK_OK, LOCK_TIMEOUT or an interruption (LOCK_INVALID). *)
Definition _lockComplete (resId : Z) (result : LockResult) l s : option (Acquired * Locker * S) :=
  match result with
  | LOCK_OK => Some (AOk, l, s)
  | _ =>
      let it := FastMap.find resId (_requests l) in
      invariant (negb (FastMap.finished it (_requests l))) ;;
      '(_, _, l, s) ← _unlockImpl it l s;
      Some (AThrow, l, s)
  end.

(** What the other threads do while a request waits, and how the wait ends. *)
Variable wait : Z → S → LockResult * S.

Definition finishLock (resId : Z) (r : option (Acquired * Locker * S)) : option (Acquired * Locker * S) :=
  '(a, l, s) ← r;
  match a with
  | AWaiting => let '(result, s) := wait resId s in _lockComplete resId result l s
  | _ => Some (a, l, s)
  end.

Definition lock (fresh : ReqId) (interrupted : bool) (resId : Z) (mode : LockMode) l s
    : option (Acquired * Locker * S) :=
  invariant (negb (resId =? resourceIdGlobal)) ;;
  finishLock resId (_lockBegin fresh interrupted resId mode l s).

(** [lockGlobal]; [holder] and [w] are the ticket holder of the mode and the end
    of its wait, [dbLocking] is [supportsDBLocking()]. *)
Definition lockGlobal (fresh : ReqId) (interrupted holder : bool) (w : TicketWait)
    (dbLocking : bool) (mode : LockMode) l s : option (Acquired * Locker * S) :=
  let '(got, l) := if bool_decide (_modeForTicket l = MODE_NONE)
                   then match _acquireTicket holder w mode l with
                        | (Some true, l) => (true, with_ticket mode (_clientState l) l)
                        | (_, l) => (false, l)
                        end
                   else (true, l) in
  if negb got then Some (AThrow, l, s) else
  let actual := if dbLocking then mode else if isSharedLockMode mode then MODE_S else MODE_X in
  finishLock resourceIdGlobal (_lockBegin fresh interrupted resourceIdGlobal actual l s).

Definition lockRSTLBegin (fresh : ReqId) (interrupted : bool) (mode : LockMode) l s
    : option (Acquired * Locker * S) :=
  invariant (bool_decide (mode = MODE_IX) || bool_decide (mode = MODE_X)) ;;
  _lockBegin fresh interrupted resourceIdReplicationStateTransitionLock mode l s.

(** ** Saving and restoring the lock state *)

(** The loop over the non-global locks. *)
Fixpoint saveLoop (fuel : nat) it l s (out : list OneLock) : option (Locker * S * list OneLock) :=
  if FastMap.finished it (_requests l) then Some (l, s, out) else
  match fuel with
  | O => None
  | Datatypes.S fuel' =>
      k ← FastMap.key_at it (_requests l);
      '(l, s, out) ←
        match getType k with
        | Some RESOURCE_MUTEX => Some (l, s, out)
        | ty =>
            v ← view_at it l s;
            invariant (bool_decide (ty = Some RESOURCE_DATABASE)
                       || bool_decide (ty = Some RESOURCE_COLLECTION)
                       || (bool_decide (ty = Some RESOURCE_PBWM) && isSharedLockMode (rv_mode v))
                       || (bool_decide (ty = Some RESOURCE_RSTL)
                           && bool_decide (rv_mode v = MODE_IX))) ;;
            '(freed, l, s) ← unlock k l s;
            invariant (freed : bool) ;;
            Some (l, s, out ++ [mkOneLock k (rv_mode v)])
        end;
      it ← FastMap.next it (_requests l);
      saveLoop fuel' it l s out
  end.

(** Without a global lock only mutexes may be held. *)
Definition onlyMutexes l : bool :=
  forallb (λ e, negb (inUse e) || bool_decide (getType (key e) = Some RESOURCE_MUTEX))
    (_fastAccess (_requests l)).

Definition saveLockStateAndUnlock l s : option (bool * LockSnapshot * Locker * S) :=
  invariant (negb (inAWriteUnitOfWork l)) ;;
  let none := mkLockSnapshot [] MODE_NONE in
  let itG := FastMap.find resourceIdGlobal (_requests l) in
  if FastMap.finished itG (_requests l) then
    invariant (onlyMutexes l) ;; Some (false, none, l, s)
  else
    g ← view_at itG l s;
    let itR := FastMap.find resourceIdReplicationStateTransitionLock (_requests l) in
    rstlTwice ← (if FastMap.finished itR (_requests l) then Some false
                 else r ← view_at itR l s; Some (1 <? rv_count r));
    if (1 <? rv_count g) || rstlTwice then Some (false, none, l, s) else
    '(freed, l, s) ← unlock resourceIdGlobal l s;
    invariant (freed : bool) ;;
    '(l, s, out) ← saveLoop (length (_fastAccess (_requests l))) (FastMap.begin (_requests l)) l s [];
    locked ← isLocked l s;
    invariant (negb locked) ;;
    Some (true, mkLockSnapshot (merge_sort ol_le out) (rv_mode g), l, s).

(** Locks a list of resources in order; the addresses are those of the entries
    that have to be constructed. *)
Fixpoint lockAll (intr : Z → bool) (fresh : list ReqId) (locks : list OneLock) l s : option (Acquired * Locker * S) :=
  match locks, fresh with
  | [], _ => Some (AOk, l, s)
  | lk :: locks', f :: fresh' =>
      '(a, l, s) ← lock f (intr (ol_resourceId lk)) (ol_resourceId lk) (ol_mode lk) l s;
      match a with
      | AOk => lockAll intr fresh' locks' l s
      | _ => Some (AThrow, l, s)
      end
  | _, [] => None
  end.

(** The locks taken before the global one: the PBWM lock, then the RSTL. *)
Definition splitFirst (resId : Z) (locks : list OneLock) : list OneLock * list OneLock :=
  match locks with
  | lk :: locks' => if ol_resourceId lk =? resId then ([lk], locks') else ([], locks)
  | [] => ([], [])
  end.

Definition restoreLockState (intr : Z → bool) (fresh : list ReqId) (holder : bool) (w : TicketWait)
    (dbLocking : bool) (st : LockSnapshot) l s : option (Acquired * Locker * S) :=
  invariant (negb (inAWriteUnitOfWork l)) ;;
  invariant (bool_decide (_modeForTicket l = MODE_NONE)) ;;
  invariant (bool_decide (_clientState l = kInactive)) ;;
  let '(pbwm, rest) := splitFirst resourceIdParallelBatchWriterMode (ls_locks st) in
  let '(rstl, rest) := splitFirst resourceIdReplicationStateTransitionLock rest in
  '(a, l, s) ← lockAll intr fresh (pbwm ++ rstl) l s;
  match a with
  | AOk =>
      fg ← head (drop 2 fresh);
      '(a, l, s) ← lockGlobal fg (intr resourceIdGlobal) holder w dbLocking (ls_globalMode st) l s;
      match a with
      | AOk =>
          '(a, l, s) ← lockAll intr (drop 3 fresh) rest l s;
          match a with
          | AOk => invariant (negb (bool_decide (_modeForTicket l = MODE_NONE))) ;; Some (AOk, l, s)
          | _ => Some (AThrow, l, s)
          end
      | _ => Some (AThrow, l, s)
      end
  | _ => Some (AThrow, l, s)
  end.

(** Clearing or setting the pending unlock of every request. *)
Definition map_pending (f : Z → Z) (m : FastMapNoAlloc Z Slot) : FastMapNoAlloc Z Slot :=
  mkFast ((λ e, if inUse e then mkEntry true (key e) (mkSlot (sl_req (value e))
                                                       (f (sl_unlockPending (value e)))) else e)
          <$> _fastAccess m) (_fastAccessUsedSize m).

Definition all_used (P : Z → Slot → bool) (m : FastMapNoAlloc Z Slot) : bool :=
  forallb (λ e, negb (inUse e) || P (key e) (value e)) (_fastAccess m).

Definition releaseWriteUnitOfWorkAndUnlock l s : option (bool * LockSnapshot * Locker * S) :=
  invariant (_wuowNestingLevel l =? 1) ;;
  let l := with_nesting (_wuowNestingLevel l - 1) l in
  rec ← isGlobalLockedRecursively l s;
  invariant (negb rec) ;;
  invariant (Z.of_nat (FastMap.size (_requests l)) =? _numResourcesToUnlockAtEndUnitOfWork l) ;;
  invariant (all_used (λ _ sl, sl_unlockPending sl =? 1) (_requests l)) ;;
  saveLockStateAndUnlock (with_num 0 (with_map (map_pending (λ n, n - 1) (_requests l)) l)) s.

Definition restoreWriteUnitOfWorkAndLock (intr : Z → bool) (fresh : list ReqId) (holder : bool) (w : TicketWait)
    (dbLocking : bool) (st : LockSnapshot) l s : option (Acquired * Locker * S) :=
  '(a, l, s) ← (if negb (bool_decide (ls_globalMode st = MODE_NONE))
                then restoreLockState intr fresh holder w dbLocking st l s
                else Some (AOk, l, s));
  match a with
  | AOk =>
      invariant (_numResourcesToUnlockAtEndUnitOfWork l =? 0) ;;
      invariant (all_used (λ k sl,
        match svc_view s (sl_req sl) with
        | Some v => bool_decide (_shouldDelayUnlock l k (rv_mode v) = Some true)
        | None => false
        end && (sl_unlockPending sl =? 0)) (_requests l)) ;;
      let m := map_pending (λ n, n + 1) (_requests l) in
      Some (AOk, beginWriteUnitOfWork (with_num (Z.of_nat (FastMap.size m)) (with_map m l)), s)
  | _ => Some (AThrow, l, s)
  end.

End Operations.
End LockerImpl.
