(* ===== verification/LockerInv.v ===== *)
(** The Locker's invariant and its write units of work: what the Locker needs of
    the lock manager as a class of laws, the two-phase rule of [unlock], the end
    of a unit of work and the release and restoration of its pending unlocks
    (src: db/concurrency/lock_state.cpp). *)
From S2P Require Import Prelude LockModes FastMap LockManager Locker.
Import LockerImpl.

(** ** The laws of the lock service *)

Abbreviation granted c m := (mkView c STATUS_GRANTED m).

Class LockServiceSpec (S : Type) `{LockService S} := {
  svc_inv : S → Prop;
  svc_granted_count : ∀ s r c m, svc_inv s → svc_view s r = Some (granted c m) → 1 <= c;
  svc_unlock_spec : ∀ s r c m, svc_inv s → svc_view s r = Some (granted c m) →
    ∃ s', svc_unlock r s = Some (c =? 1, s') ∧ svc_inv s' ∧
      (1 < c → svc_view s' r = Some (granted (c - 1) m)) ∧
      (∀ r' c' m', r' ≠ r → svc_view s r' = Some (granted c' m') →
         svc_view s' r' = Some (granted c' m'))
}.

(** ** Positions and keys of the map *)

Section Keys.
Context {K V : Type} `{EqDecision K}.
Implicit Types (m : FastMapNoAlloc K V).

Lemma used_key_inj m i j k v w :
  FastMap.FInv m → FastMap.entry_at i m = Some (mkEntry true k v) →
  FastMap.entry_at j m = Some (mkEntry true k w) → i = j.
Proof.
  intros [_ Hnd] Hi Hj. unfold FastMap.entry_at in *.
  destruct (decide (i = j)) as [|Hne]; [done|exfalso].
  destruct (FastMap.contents_insert _ _ _ (mkEntry true k v) Hi) as [_ C].
  unfold FastMap.contents in Hnd. rewrite C, fmap_app in Hnd. simpl in Hnd.
  apply NoDup_app in Hnd as (_ & Hd & Hnd). apply NoDup_cons in Hnd as [Hn _].
  destruct (decide (j < i)%nat).
  - apply (Hd k); [|left]. apply list_elem_of_fmap. exists (k, w). split; [done|].
    apply FastMap.elem_of_contents. exists j. by rewrite lookup_take_lt.
  - apply Hn. apply list_elem_of_fmap. exists (k, w). split; [done|].
    apply FastMap.elem_of_contents. exists (j - Datatypes.S i)%nat. rewrite lookup_drop.
    by replace (Datatypes.S i + (j - Datatypes.S i))%nat with j by lia.
Qed.

Lemma find_used m i k v :
  FastMap.FInv m → FastMap.entry_at i m = Some (mkEntry true k v) →
  FastMap.find k m = i ∧ FastMap.finished i m = false.
Proof.
  intros HI Hi. destruct (FastMap.find_spec k m (proj2 HI)) as [[_ Hn]|(w & Hw & _)].
  - exfalso. apply Hn. apply list_elem_of_fmap. exists (k, v). split; [done|].
    apply FastMap.elem_of_contents. by exists i.
  - split; [by apply (used_key_inj m _ _ k w v)|].
    apply Nat.eqb_neq. apply lookup_lt_Some in Hi. lia.
Qed.
End Keys.

(** ** The invariant *)

Section LockerInv.
Context {S : Type} `{LockServiceSpec S}.
Implicit Types (l : Locker) (s : S) (it : nat) (k : Z) (r : ReqId).

Abbreviation slotAt l it b k r p :=
  (FastMap.entry_at it (_requests l) = Some (mkEntry b k (mkSlot r p))).

(** The Locker holds resource [k] through request [r], [c] times in mode [m],
    with [p] unlocks pending. *)
Definition held l s k r p c m : Prop :=
  (∃ it, slotAt l it true k r p) ∧ svc_view s r = Some (granted c m).

Definition lockable k : Prop := ∃ t, getType k = Some t ∧ t ≠ RESOURCE_INVALID.

Definition pendingBit (e : PreallocEntry Z Slot) : Z :=
  if inUse e && negb (sl_unlockPending (value e) =? 0) then 1 else 0.

Record LkStruct l s : Prop := {
  lk_map : FastMap.FInv (_requests l);
  lk_addr : NoDup ((λ e, sl_req (value e)) <$> _fastAccess (_requests l));
  lk_slot : ∀ it k r p, slotAt l it true k r p →
    lockable k ∧ ∃ c m, svc_view s r = Some (granted c m) ∧ m ≠ MODE_NONE ∧ 0 <= p <= c;
  lk_ticket : ∀ it r p, slotAt l it true resourceIdGlobal r p → _modeForTicket l ≠ MODE_NONE;
  lk_svc : svc_inv s
}.

Record LkInv l s : Prop := {
  lk_struct : LkStruct l s;
  lk_num : _numResourcesToUnlockAtEndUnitOfWork l = lsum pendingBit (_fastAccess (_requests l));
  lk_nesting : 0 <= _wuowNestingLevel l;
  lk_outside : _wuowNestingLevel l = 0 → ∀ it k r p, slotAt l it true k r p → p = 0
}.

Lemma slot_req_inj l s i j b b' k k' r p p' :
  LkStruct l s → slotAt l i b k r p → slotAt l j b' k' r p' → i = j.
Proof.
  intros L Hi Hj. eapply (NoDup_lookup _ i j r (lk_addr l s L));
    rewrite list_lookup_fmap; unfold FastMap.entry_at in *; [by rewrite Hi|by rewrite Hj].
Qed.

(** Entries other than the one at [it] and their requests are untouched. *)
Definition others it l l' s s' : Prop :=
  (∀ j, j ≠ it → FastMap.entry_at j (_requests l') = FastMap.entry_at j (_requests l)) ∧
  length (_fastAccess (_requests l')) = length (_fastAccess (_requests l)) ∧
  (∀ r' c m b k r p, slotAt l it b k r p → r' ≠ r → svc_view s r' = Some (granted c m) →
     svc_view s' r' = Some (granted c m)).

Lemma others_refl it l s : others it l l s s.
Proof. split; [done|]. split; [done|]. by intros. Qed.

Lemma addr_insert (fa : list (PreallocEntry Z Slot)) i e e' :
  fa !! i = Some e → sl_req (value e') = sl_req (value e) →
  (λ e, sl_req (value e)) <$> <[i := e']> fa = (λ e, sl_req (value e)) <$> fa.
Proof.
  intros Hi E. rewrite list_fmap_insert, E. apply list_insert_id. by rewrite list_lookup_fmap, Hi.
Qed.

(** Dropping one reference of a held resource. *)
Lemma unlockImpl_ok l s it k r p c m :
  LkStruct l s → slotAt l it true k r p → svc_view s r = Some (granted c m) → p <= c - 1 →
  ∃ it' l' s', _unlockImpl it l s = Some (c =? 1, it', l', s') ∧ LkStruct l' s' ∧
    slotAt l' it (negb (c =? 1)) k r p ∧ others it l l' s s' ∧
    (1 < c → svc_view s' r = Some (granted (c - 1) m)) ∧
    _numResourcesToUnlockAtEndUnitOfWork l' = _numResourcesToUnlockAtEndUnitOfWork l ∧
    _wuowNestingLevel l' = _wuowNestingLevel l.
Proof.
  intros L Hit Hv Hp. unfold _unlockImpl, FastMap.objAddr, FastMap.key_at. rewrite Hit. simpl.
  destruct (svc_unlock_spec s r c m (lk_svc l s L) Hv) as (s' & E & HI & V1 & V2).
  pose proof (svc_granted_count s r c m (lk_svc l s L) Hv) as Hc.
  destruct (lk_slot l s L it k r p Hit) as (Hk & c0 & m0 & Hv0 & Hm & Hp0).
  assert (c0 = c ∧ m0 = m) as [-> ->] by (rewrite Hv in Hv0; by simplify_eq).
  assert (∀ l' , FastMap.FInv (_requests l') →
    (∀ j, j ≠ it → FastMap.entry_at j (_requests l') = FastMap.entry_at j (_requests l)) →
    slotAt l' it (negb (c =? 1)) k r p →
    (λ e, sl_req (value e)) <$> _fastAccess (_requests l') =
    (λ e, sl_req (value e)) <$> _fastAccess (_requests l) →
    (k ≠ resourceIdGlobal ∨ 1 < c → _modeForTicket l' = _modeForTicket l) → LkStruct l' s') as Hstep.
  { intros l' F O I A T. split; [done|by rewrite A; apply (lk_addr l s)| | |done].
    - intros j k' r' p' Hj. destruct (decide (j = it)) as [->|Hne].
      + rewrite Hj in I. simplify_eq. assert (c ≠ 1) by (intros ->; done). split; [done|].
        exists (c - 1), m. split; [apply V1; lia|]. split; [done|lia].
      + rewrite O in Hj by done. destruct (lk_slot l s L j k' r' p' Hj) as (Hk' & c' & m' & Hv' & Hr).
        split; [done|]. exists c', m'. split; [|done]. apply V2; [|done].
        intros ->. apply Hne. by apply (slot_req_inj l s j it true true k' k r p' p).
    - intros j r' p' Hj. rewrite T.
      + destruct (decide (j = it)) as [->|Hne].
        * rewrite Hj in I. simplify_eq. by apply (lk_ticket l s L it r p).
        * rewrite O in Hj by done. by apply (lk_ticket l s L j r' p').
      + destruct (decide (j = it)) as [->|Hne].
        * rewrite Hj in I. simplify_eq. right. assert (c ≠ 1) by (intros ->; done). lia.
        * left. intros ->. apply Hne. rewrite O in Hj by done.
          by apply (used_key_inj (_requests l) j it _ _ _ (lk_map l s L) Hj Hit). }
  assert (∀ r' c m b k' r0 p0, slotAt l it b k' r0 p0 → r' ≠ r0 → svc_view s r' = Some (granted c m) →
     svc_view s' r' = Some (granted c m)) as Hoth.
  { intros r' c' m' b k' r0 p0 Hs Hne Hv'. rewrite Hit in Hs. simplify_eq. by apply V2. }
  rewrite E. simpl. destruct (c =? 1) eqn:E1.
  - set (l0 := with_ticket MODE_NONE _ _).
    assert ((if k =? resourceIdGlobal then
         invariant (negb (bool_decide (_modeForTicket l = MODE_NONE))) ;; Some l0
       else Some l) = Some (if k =? resourceIdGlobal then l0 else l)) as ->.
    { destruct (k =? resourceIdGlobal) eqn:Ek; [|done]. apply Z.eqb_eq in Ek. subst k.
      rewrite bool_decide_eq_false_2; [done|]. by apply (lk_ticket l s L it r p). }
    simpl. set (l1 := if k =? resourceIdGlobal then l0 else l).
    assert (_requests l1 = _requests l ∧
      _numResourcesToUnlockAtEndUnitOfWork l1 = _numResourcesToUnlockAtEndUnitOfWork l ∧
      _wuowNestingLevel l1 = _wuowNestingLevel l) as (R1 & R2 & R3).
    { unfold l1, l0. repeat case_match; done. }
    rewrite R1.
    destruct (FastMap.remove_spec it k _ _ (lk_map l s L) Hit) as (it' & m' & Er & F & _ & I & O).
    rewrite Er. simpl. do 3 eexists. split; [done|].
    assert (_fastAccess m' = <[it := mkEntry false k (mkSlot r p)]> (_fastAccess (_requests l))) as Hfa.
    { unfold FastMap.remove in Er. rewrite Hit in Er. simpl in Er. unfold FastMap.next in Er.
      case_match; [|done]. simpl in Er. by simplify_eq. }
    split; [|split; [exact I|split; [|split; [intros; to_prop; lia|done]]]].
    + apply Hstep; try done; simpl.
      * rewrite Hfa. by apply addr_insert with (mkEntry true k (mkSlot r p)).
      * intros [Hk'|?]; [|to_prop; lia]. unfold l1.
        replace (k =? resourceIdGlobal) with false by (symmetry; by apply Z.eqb_neq). done.
    + split; [done|]. split; [|done]. simpl. by rewrite Hfa, length_insert.
  - do 3 eexists. split; [done|]. apply Z.eqb_neq in E1.
    split; [apply Hstep; [apply (lk_map l s L)|done..]|]. split; [done|]. split; [by repeat split|].
    split; [done|done].
Qed.

(** Storing another count of pending unlocks in an entry. *)
Lemma store_pending_ok l s it k r p p' c m :
  LkStruct l s → slotAt l it true k r p → svc_view s r = Some (granted c m) → 0 <= p' <= c →
  ∃ mp, FastMap.store it (mkSlot r p') (_requests l) = Some mp ∧
    mp = mkFast (<[it := mkEntry true k (mkSlot r p')]> (_fastAccess (_requests l)))
                (_fastAccessUsedSize (_requests l)) ∧
    slotAt (with_map mp l) it true k r p' ∧ others it l (with_map mp l) s s ∧
    ∀ n g, LkStruct (with_num n (with_nesting g (with_map mp l))) s ∧
           LkStruct (with_num n (with_map mp l)) s ∧ LkStruct (with_map mp l) s.
Proof.
  intros L Hit Hv Hp.
  destruct (FastMap.store_spec it k (mkSlot r p) (mkSlot r p') _ (lk_map l s L) Hit)
    as (mp & E & F & I & O & _ & _ & Hlen).
  pose proof E as E'. unfold FastMap.store in E'. rewrite Hit in E'. simpl in E'. injection E' as <-.
  eexists. split; [exact E|]. split; [done|]. split; [exact I|].
  split; [split; [exact O|split; [exact Hlen|by intros]]|].
  assert (∀ l', _requests l' = _requests (with_map (mkFast (<[it := mkEntry true k (mkSlot r p')]>
      (_fastAccess (_requests l))) (_fastAccessUsedSize (_requests l))) l) →
    _modeForTicket l' = _modeForTicket l → LkStruct l' s) as Hall; [|intros n g; split; [|split]; by apply Hall].
  intros l' R T. split; rewrite ?R, ?T.
  - exact F.
  - simpl. rewrite (addr_insert _ it (mkEntry true k (mkSlot r p))); [apply (lk_addr l s L)|done|done].
  - intros j k' r' p0. destruct (decide (j = it)) as [->|Hne].
    + simpl in *. rewrite I. intros [= <- <- <-].
      destruct (lk_slot l s L it k r p Hit) as (? & c0 & m0 & Hv0 & ? & _).
      split; [done|]. exists c, m. split; [done|]. rewrite Hv in Hv0. by simplify_eq.
    + simpl in *. rewrite O by done. apply (lk_slot l s L).
  - intros j r' p0. destruct (decide (j = it)) as [->|Hne].
    + simpl in *. rewrite I. intros [= E1 <- <-]. apply (lk_ticket l s L it r p).
      rewrite Hit. by rewrite E1.
    + simpl in *. rewrite O by done. apply (lk_ticket l s L).
  - apply (lk_svc l s L).
Qed.

(** The sum of the pending bits when one entry changes. *)
Lemma pending_insert (fa : list (PreallocEntry Z Slot)) it e e' :
  fa !! it = Some e →
  lsum pendingBit (<[it := e']> fa) = lsum pendingBit fa - pendingBit e + pendingBit e'.
Proof.
  intros Hi. rewrite <- (take_drop_middle fa it e Hi) at 2.
  rewrite insert_take_drop by (by eapply lookup_lt_Some). rewrite !lsum_app. simpl. lia.
Qed.

Lemma others_trans it l1 l2 l3 s1 s2 s3 b k r p p' :
  slotAt l1 it true k r p → slotAt l2 it b k r p' →
  others it l1 l2 s1 s2 → others it l2 l3 s2 s3 → others it l1 l3 s1 s3.
Proof.
  intros I1 I2 (A1 & A2 & A3) (B1 & B2 & B3). split; [|split].
  - intros j Hj. by rewrite B1, A1.
  - congruence.
  - intros r' c m b' k' r0 p0 Hs Hne Hv. rewrite I1 in Hs. simplify_eq.
    eapply B3; [exact I2|done|]. by eapply A3.
Qed.

Lemma find_slot l s it k r p :
  LkStruct l s → slotAt l it true k r p →
  FastMap.find k (_requests l) = it ∧ FastMap.finished it (_requests l) = false.
Proof. intros L. apply find_used. apply (lk_map l s L). Qed.

(** [unlock] outside a unit of work drops a reference at once. *)
Lemma unlock_now_ok l s it k r p c m :
  LkStruct l s → slotAt l it true k r p → svc_view s r = Some (granted c m) → p <= c - 1 →
  (inAWriteUnitOfWork l = false ∨ _shouldDelayUnlock l k m = Some false) →
  ∃ l' s', unlock k l s = Some (c =? 1, l', s') ∧ LkStruct l' s' ∧
    slotAt l' it (negb (c =? 1)) k r p ∧ others it l l' s s' ∧
    (1 < c → svc_view s' r = Some (granted (c - 1) m)) ∧
    _numResourcesToUnlockAtEndUnitOfWork l' = _numResourcesToUnlockAtEndUnitOfWork l ∧
    _wuowNestingLevel l' = _wuowNestingLevel l.
Proof.
  intros L Hit Hv Hp Hd. unfold unlock.
  destruct (find_slot l s it k r p L Hit) as [-> ->].
  destruct (unlockImpl_ok l s it k r p c m L Hit Hv Hp) as (it' & l' & s' & E & R).
  unfold FastMap.objAddr. rewrite Hit. simpl. rewrite Hv. simpl.
  assert ((if inAWriteUnitOfWork l then _shouldDelayUnlock l k m else Some false) = Some false) as ->.
  { destruct Hd as [->| ->]; [done|]. by destruct (inAWriteUnitOfWork l). }
  simpl. rewrite E. simpl. by exists l', s'.
Qed.

(** The pending unlocks of one entry are all performed. *)
Lemma flushPending_ok n l s it k r p c m :
  LkStruct l s → _wuowNestingLevel l = 0 → slotAt l it true k r p →
  svc_view s r = Some (granted c m) → p = Z.of_nat n → p <= c →
  ∃ l' s', flushPending n it l s = Some (l', s') ∧ LkStruct l' s' ∧
    slotAt l' it (negb (c =? p)) k r 0 ∧ others it l l' s s' ∧
    (p < c → svc_view s' r = Some (granted (c - p) m)) ∧
    _numResourcesToUnlockAtEndUnitOfWork l' = _numResourcesToUnlockAtEndUnitOfWork l ∧
    _wuowNestingLevel l' = 0.
Proof.
  revert l s p c. induction n as [|n IH]; intros l s p c L Hn Hit Hv Hp Hpc.
  - pose proof (svc_granted_count s r c m (lk_svc l s L) Hv). assert (p = 0) as -> by lia.
    cbn [flushPending]. unfold FastMap.objAddr. rewrite Hit. simpl.
    replace (c =? 0) with false by lia. rewrite Z.sub_0_r. simpl.
    exists l, s. split; [done|]. split; [done|]. split; [exact Hit|].
    split; [apply others_refl|]. done.
  - cbn [flushPending]. unfold FastMap.objAddr. rewrite Hit. simpl.
    replace (p <=? 0) with false by lia.
    destruct (store_pending_ok l s it k r p (p - 1) c m L Hit Hv) as (mp & E & _ & I1 & O1 & L1);
      [lia|]. destruct (L1 0 0) as (_ & _ & L1'). clear L1.
    rewrite E. simpl. unfold FastMap.key_at.
    change (FastMap.entry_at it mp) with (FastMap.entry_at it (_requests (with_map mp l))).
    rewrite I1. simpl.
    destruct (unlock_now_ok (with_map mp l) s it k r (p - 1) c m L1' I1 Hv)
      as (l2 & s2 & E2 & L2 & I2 & O2 & V2 & N2 & G2); [lia| |].
    { left. unfold inAWriteUnitOfWork. simpl. by rewrite Hn. }
    rewrite E2. simpl.
    destruct (decide (c = 1)) as [->|Hc].
    + assert (p = 1) as -> by lia. assert (n = 0%nat) as -> by lia.
      cbn [flushPending]. unfold FastMap.objAddr. rewrite I2. simpl.
      exists l2, s2. split; [done|]. split; [done|]. split; [exact I2|].
      split; [eapply others_trans; [exact Hit|exact I1|exact O1|exact O2]|].
      split; [lia|]. split; [by rewrite N2|]. by rewrite G2.
    + pose proof (svc_granted_count s r c m (lk_svc l s L) Hv).
      replace (c =? 1) with false in I2 by lia.
      destruct (IH l2 s2 (p - 1) (c - 1)) as (l3 & s3 & E3 & L3 & I3 & O3 & V3 & N3 & G3).
      * done.
      * by rewrite G2.
      * exact I2.
      * apply V2. lia.
      * lia.
      * lia.
      * exists l3, s3. split; [exact E3|]. split; [done|].
        replace (c - 1 =? p - 1) with (c =? p) in I3 by lia. split; [exact I3|].
        split; [eapply others_trans; [exact Hit|exact I1|exact O1|]; eapply others_trans;
                [exact I1|exact I2|exact O2|exact O3]|].
        replace (c - 1 - (p - 1)) with (c - p) in V3 by lia.
        split; [intros; apply V3; lia|]. split; [by rewrite N3, N2|done].
Qed.

(** ** Positions after the iterator *)

Lemma drop_others it l l' s s' :
  others it l l' s s' →
  drop (Datatypes.S it) (_fastAccess (_requests l')) = drop (Datatypes.S it) (_fastAccess (_requests l)).
Proof.
  intros (O & _ & _). apply list_eq. intros i. rewrite !lookup_drop.
  apply (O (Datatypes.S it + i)%nat). lia.
Qed.

Lemma pendingBit_nonneg e : 0 <= pendingBit e.
Proof. unfold pendingBit. case_match; lia. Qed.

Lemma pendingBit_slot b k r p : pendingBit (mkEntry b k (mkSlot r p)) = if b && negb (p =? 0) then 1 else 0.
Proof. done. Qed.

(** Skipping unused entries skips no pending unlock. *)
Lemma pending_seek (fa : list (PreallocEntry Z Slot)) pos :
  lsum pendingBit fa = lsum pendingBit (drop (FastMap.seek inUse fa pos - pos) fa).
Proof.
  revert pos. induction fa as [|e fa IH]; intros pos; simpl; [by rewrite drop_nil|].
  destruct (inUse e) eqn:E; [by rewrite Nat.sub_diag|].
  unfold pendingBit at 1. rewrite E. simpl. rewrite (IH (Datatypes.S pos)).
  assert (Datatypes.S pos <= FastMap.seek inUse fa (Datatypes.S pos))%nat.
  { destruct (FastMap.seek_spec inUse fa (Datatypes.S pos)) as [(i & ? & E' & _)|[E' _]]; rewrite E'; lia. }
  by replace (FastMap.seek inUse fa (Datatypes.S pos) - pos)%nat
    with (Datatypes.S (FastMap.seek inUse fa (Datatypes.S pos) - Datatypes.S pos)) by lia.
Qed.

(** Where a loop that advances by [next] stands: at the end or at a used entry,
    with only unused entries skipped. *)
Definition at_entry it (m : FastMapNoAlloc Z Slot) : Prop :=
  (it <= length (_fastAccess m))%nat ∧
  (FastMap.finished it m = false → ∃ k r p, FastMap.entry_at it m = Some (mkEntry true k (mkSlot r p))).

Lemma seek_at_entry (m : FastMapNoAlloc Z Slot) pos :
  (pos <= length (_fastAccess m))%nat →
  let it := FastMap.seek inUse (drop pos (_fastAccess m)) pos in
  (pos <= it)%nat ∧ at_entry it m ∧
  lsum pendingBit (drop pos (_fastAccess m)) = lsum pendingBit (drop it (_fastAccess m)) ∧
  ∀ j e, (pos <= j < it)%nat → FastMap.entry_at j m = Some e → inUse e = false.
Proof.
  intros Hpos it.
  assert (lsum pendingBit (drop pos (_fastAccess m)) = lsum pendingBit (drop it (_fastAccess m)) ∨ (it < pos)%nat) as Hsum.
  { destruct (decide (it < pos)%nat); [by right|left]. rewrite (pending_seek _ pos), drop_drop. fold it.
    do 2 f_equal. lia. }
  destruct (FastMap.seek_spec inUse (drop pos (_fastAccess m)) pos) as [(i & [b k [r p]] & E & Hi & Hu & Hn)|[E Hn]];
    fold it in E; rewrite lookup_drop in * || idtac; simpl in *.
  - pose proof (lookup_lt_Some _ _ _ Hi). subst b. rewrite E in *.
    split; [lia|]. split; [split; [lia|intros _; exists k, r, p; exact Hi]|].
    split; [destruct Hsum; [done|lia]|].
    intros j e Hj He. apply (Hn (j - pos)%nat); [lia|]. rewrite lookup_drop.
    by replace (pos + (j - pos))%nat with j by lia.
  - rewrite length_drop in E. assert (it = length (_fastAccess m)) as Eit by lia.
    split; [lia|]. split; [split; [lia|]|].
    { rewrite Eit. unfold FastMap.finished. by rewrite Nat.eqb_refl. }
    split; [destruct Hsum; [done|lia]|].
    intros j e Hj He. apply Hn. apply list_elem_of_lookup. exists (j - pos)%nat. rewrite lookup_drop.
    by replace (pos + (j - pos))%nat with j by lia.
Qed.

Lemma next_ok it (m : FastMapNoAlloc Z Slot) :
  (it < length (_fastAccess m))%nat →
  FastMap.next it m = Some (FastMap.seek inUse (drop (Datatypes.S it) (_fastAccess m)) (Datatypes.S it)).
Proof.
  intros Hlt. unfold FastMap.next, FastMap.finished.
  by replace (it =? length (_fastAccess m))%nat with false by (symmetry; apply Nat.eqb_neq; lia).
Qed.

End LockerInv.
