(* ===== verification/LockerUnits.v ===== *)
(** Write units of work: the two-phase rule, the end of a unit of work, and the
    release and restoration of the pending unlocks
    (src: db/concurrency/lock_state.cpp). *)
From S2P Require Import Prelude LockModes FastMap LockManager Locker LockerInv.
Import LockerImpl.

Abbreviation granted c m := (mkView c STATUS_GRANTED m).

Section Units.
Context {S : Type} `{LockServiceSpec S}.
Implicit Types (l : Locker) (s : S) (it : nat) (k : Z) (r : ReqId).

Abbreviation slotAt l it b k r p :=
  (FastMap.entry_at it (_requests l) = Some (mkEntry b k (mkSlot r p))).

Lemma lsum_pending_zero (fa : list (PreallocEntry Z Slot)) i k r p :
  lsum pendingBit fa <= 0 → fa !! i = Some (mkEntry true k (mkSlot r p)) → p = 0.
Proof.
  intros Hs Hi. apply list_elem_of_lookup_2 in Hi.
  pose proof (lsum_elem pendingBit fa _ (λ y _, pendingBit_nonneg y) Hi) as L.
  rewrite pendingBit_slot in L. simpl in L. destruct (p =? 0) eqn:E; [by to_prop|simpl in L; lia].
Qed.

(** Reads of later entries do not see what happened at [it]. *)
Lemma others_slot it l l' s s' j b k r p :
  others it l l' s s' → j ≠ it → slotAt l' j b k r p ↔ slotAt l j b k r p.
Proof. intros (O & _) Hj. by rewrite O. Qed.

(** What the loop of [endWriteUnitOfWork] has done from position [it] on. *)
Definition flushed it l l' s s' : Prop :=
  length (_fastAccess (_requests l')) = length (_fastAccess (_requests l)) ∧
  (∀ j k r p c m, (it <= j)%nat → slotAt l j true k r p → svc_view s r = Some (granted c m) →
     slotAt l' j (negb (c =? p)) k r 0 ∧ (p < c → svc_view s' r = Some (granted (c - p) m))) ∧
  (∀ j, (j < it)%nat → FastMap.entry_at j (_requests l') = FastMap.entry_at j (_requests l)) ∧
  (∀ j e, (it <= j)%nat → FastMap.entry_at j (_requests l) = Some e → inUse e = false →
     FastMap.entry_at j (_requests l') = Some e) ∧
  (∀ r' c m, (∀ j k p, (it <= j)%nat → ¬ slotAt l j true k r' p) →
     svc_view s r' = Some (granted c m) → svc_view s' r' = Some (granted c m)).

(** Nothing is pending from [it] on. *)
Lemma flushed_refl it l s :
  LkStruct l s → lsum pendingBit (drop it (_fastAccess (_requests l))) <= 0 → flushed it l l s s.
Proof.
  intros L Hs. split; [done|]. split; [|done]. intros j k r p c m Hj Hsl Hv.
  assert (p = 0) as ->.
  { apply (lsum_pending_zero _ (j - it) k r p Hs). rewrite lookup_drop.
    replace (it + (j - it))%nat with j by lia. exact Hsl. }
  pose proof (svc_granted_count s r c m (lk_svc l s L) Hv).
  replace (c =? 0) with false by lia. by rewrite Z.sub_0_r.
Qed.

(** One entry flushed, then the later ones. *)
Lemma flushed_step it it' l l2 l3 s s2 s3 k r p c m :
  LkStruct l s → slotAt l it true k r p → svc_view s r = Some (granted c m) →
  slotAt l2 it (negb (c =? p)) k r 0 → others it l l2 s s2 →
  (p < c → svc_view s2 r = Some (granted (c - p) m)) → p <= c →
  (it < it')%nat →
  (∀ j e, (it < j < it')%nat → FastMap.entry_at j (_requests l) = Some e → inUse e = false) →
  flushed it' l2 l3 s2 s3 → flushed it l l3 s s3.
Proof.
  intros L Hit Hv I2 O V2 Hpc Hlt Hskip (F0 & F1 & F2 & F3 & F4). pose proof O as (O1 & O2 & O3).
  assert (∀ j, (j < it')%nat → j ≠ it →
    FastMap.entry_at j (_requests l3) = FastMap.entry_at j (_requests l)) as Hlow.
  { intros j Hj Hne. by rewrite F2, O1. }
  assert (∀ r' j k' p', (it' <= j)%nat → r' = r → ¬ slotAt l2 j true k' r' p') as Hr.
  { intros r' j k' p' Hj -> Hs. assert (j ≠ it) as Hne by lia. apply (others_slot _ _ _ _ _ j _ _ _ _ O Hne) in Hs.
    apply Hne. by eapply slot_req_inj. }
  split; [congruence|]. split; [|split; [|split]].
  - intros j k' r' p' c' m' Hj Hs Hv'. destruct (decide (j = it)) as [->|Hne].
    + rewrite Hit in Hs. simplify_eq.
      split; [by rewrite F2|]. intros Hp. apply F4; [|by apply V2]. intros j k0 p0 Hj'. by apply Hr.
    + destruct (decide (j < it')%nat) as [Hl|Hge].
      { specialize (Hskip j _ ltac:(lia) Hs). done. }
      apply F1; [lia|by apply (others_slot _ _ _ _ _ j _ _ _ _ O Hne)|].
      apply (O3 r' c' m' true k r p Hit); [|done]. intros ->. apply Hne. by eapply slot_req_inj.
  - intros j Hj. apply Hlow; lia.
  - intros j e Hj He Hu. destruct (decide (j = it)) as [->|Hne].
    + rewrite Hit in He. by simplify_eq.
    + destruct (decide (j < it')%nat) as [Hl|Hge]; [rewrite Hlow; done|].
      apply F3; [lia| |done]. by rewrite O1.
  - intros r' c' m' Hno Hv'. assert (r' ≠ r) as Hne.
    { intros ->. by apply (Hno it k p). }
    apply F4.
    + intros j k' p' Hj Hs. assert (j ≠ it) as Hji by lia.
      apply (Hno j k' p'); [lia|]. by apply (others_slot _ _ _ _ _ j _ _ _ _ O Hji).
    + by apply (O3 r' c' m' true k r p Hit).
Qed.

Lemma endLoop_ok fuel l s it :
  LkStruct l s → _wuowNestingLevel l = 0 →
  _numResourcesToUnlockAtEndUnitOfWork l = lsum pendingBit (drop it (_fastAccess (_requests l))) →
  (length (_fastAccess (_requests l)) - it <= fuel)%nat → at_entry it (_requests l) →
  ∃ l' s', endLoop fuel it l s = Some (l', s') ∧ LkStruct l' s' ∧
    _numResourcesToUnlockAtEndUnitOfWork l' = 0 ∧ _wuowNestingLevel l' = 0 ∧ flushed it l l' s s'.
Proof.
  revert l s it. induction fuel as [|fuel IH]; intros l s it L Hn Hnum Hf [Hle Hat];
    cbn [endLoop]; destruct (_numResourcesToUnlockAtEndUnitOfWork l <=? 0) eqn:E0; to_prop.
  1, 3: exists l, s; split; [done|]; split; [done|]; split;
    [pose proof (lsum_nonneg pendingBit (drop it (_fastAccess (_requests l)))
                   (λ y _, pendingBit_nonneg y)); lia|]; split; [done|];
    apply flushed_refl; [done|lia].
  { exfalso. rewrite drop_ge in Hnum by lia. simpl in Hnum. lia. }
  destruct (FastMap.finished it (_requests l)) eqn:Efin.
  { exfalso. apply Nat.eqb_eq in Efin. rewrite drop_ge in Hnum by lia. simpl in Hnum. lia. }
  destruct (Hat eq_refl) as (k & r & p & Hit). clear Hat.
  unfold FastMap.objAddr. rewrite Hit. simpl.
  destruct (lk_slot l s L it k r p Hit) as (_ & c & m & Hv & _ & Hp).
  set (l1 := if negb (p =? 0) then _ else l).
  assert (LkStruct l1 s ∧ _requests l1 = _requests l ∧ _wuowNestingLevel l1 = 0 ∧
    _numResourcesToUnlockAtEndUnitOfWork l1
      = lsum pendingBit (drop (Datatypes.S it) (_fastAccess (_requests l)))) as (L1 & R1 & G1 & N1).
  { rewrite (drop_S _ _ _ Hit) in Hnum. simpl in Hnum. rewrite pendingBit_slot in Hnum. simpl in Hnum.
    unfold l1. destruct (p =? 0); simpl in *; [split; [done|split; [done|split; [done|lia]]]|].
    split; [|split; [done|split; [done|lia]]]. by destruct L; split. }
  destruct (flushPending_ok (Z.to_nat p) l1 s it k r p c m) as (l2 & s2 & E2 & L2 & I2 & O2 & V2 & N2 & G2);
    [done|done|by rewrite R1|done|lia|lia|].
  rewrite E2. simpl. pose proof (drop_others _ _ _ _ _ O2) as Hd. pose proof O2 as (O2a & O2b & _).
  rewrite R1 in Hd, O2b, O2a.
  assert (it < length (_fastAccess (_requests l)))%nat as Hlt by (by eapply lookup_lt_Some).
  rewrite next_ok by lia. simpl.
  destruct (seek_at_entry (_requests l2) (Datatypes.S it)) as (Hge & Hat & Hsum & Hskip); [lia|].
  set (it' := FastMap.seek _ _ _) in *.
  destruct (IH l2 s2 it') as (l3 & s3 & E3 & L3 & N3 & G3 & F3);
    [done|done|by rewrite N2, N1, <- Hsum, Hd|lia|done|].
  exists l3, s3. split; [done|]. split; [done|]. split; [done|]. split; [done|].
  apply (flushed_step it it' l l2 l3 s s2 s3 k r p c m); try done.
  - unfold others in *. by rewrite R1 in O2.
  - lia.
  - intros j e Hj He. apply (Hskip j); [lia|]. rewrite O2a by lia. done.
Qed.

(** ** The end of a unit of work *)

Lemma begin_at_entry (m : FastMapNoAlloc Z Slot) :
  at_entry (FastMap.begin m) m ∧
  lsum pendingBit (_fastAccess m) = lsum pendingBit (drop (FastMap.begin m) (_fastAccess m)) ∧
  ∀ j e, (j < FastMap.begin m)%nat → FastMap.entry_at j m = Some e → inUse e = false.
Proof.
  destruct (seek_at_entry m 0) as (_ & Hat & Hs & Hu); [lia|]. rewrite drop_0 in *.
  split; [exact Hat|]. split; [exact Hs|]. intros j e Hj. apply Hu. unfold FastMap.begin in Hj. lia.
Qed.

(** An entry of the flushed map comes from an entry of the old one. *)
Lemma flushed_back l l' s s' j k r p :
  LkStruct l s → flushed (FastMap.begin (_requests l)) l l' s s' → slotAt l' j true k r p →
  ∃ p0 c m, slotAt l j true k r p0 ∧ svc_view s r = Some (granted c m) ∧ p = 0 ∧ c ≠ p0.
Proof.
  intros L (F0 & F1 & F2 & F3 & _) Hj. destruct (begin_at_entry (_requests l)) as (_ & _ & Hlow).
  pose proof (lookup_lt_Some _ _ _ Hj) as Hlt. rewrite F0 in Hlt.
  destruct (lookup_lt_is_Some_2 _ _ Hlt) as [[b k0 [r0 p0]] E].
  change (FastMap.entry_at j (_requests l) = Some (mkEntry b k0 (mkSlot r0 p0))) in E.
  assert (∀ e, FastMap.entry_at j (_requests l) = Some e → inUse e = false →
    FastMap.entry_at j (_requests l') = Some e) as Hun.
  { intros e He Hu. destruct (decide (j < FastMap.begin (_requests l))%nat) as [Hl|Hge].
    - by rewrite F2.
    - apply F3; [lia|done..]. }
  destruct b; [|rewrite (Hun _ E eq_refl) in Hj; congruence].
  assert (FastMap.begin (_requests l) <= j)%nat as Hge.
  { destruct (decide (FastMap.begin (_requests l) <= j)%nat); [done|].
    discriminate (Hlow j _ ltac:(lia) E). }
  destruct (lk_slot l s L j k0 r0 p0 E) as (_ & c & m & Hv & _).
  destruct (F1 j k0 r0 p0 c m Hge E Hv) as [Hs _].
  rewrite Hj in Hs. simplify_eq. exists p0, c, m. split; [done|]. split; [done|].
  split; [done|]. intros ->. by rewrite Z.eqb_refl in *.
Qed.

Lemma pending_all_zero (m : FastMapNoAlloc Z Slot) :
  (∀ j k r p, FastMap.entry_at j m = Some (mkEntry true k (mkSlot r p)) → p = 0) →
  lsum pendingBit (_fastAccess m) = 0.
Proof.
  intros Hz. rewrite (lsum_ext pendingBit (λ _, 0)); [induction (_fastAccess m); simpl; lia|].
  intros [b k [r p]] [j Hj]%list_elem_of_lookup. rewrite pendingBit_slot. destruct b; [|done].
  by rewrite (Hz j k r p Hj).
Qed.

Definition gone l k : Prop := ∀ j r p, ¬ slotAt l j true k r p.

(** The end of the outermost unit of work, as seen by resource. *)
Lemma endWriteUnitOfWork_ok l s :
  LkInv l s → _wuowNestingLevel l = 1 →
  ∃ l' s', endWriteUnitOfWork l s = Some (l', s') ∧ LkInv l' s' ∧ _wuowNestingLevel l' = 0 ∧
    ∀ k r p c m, held l s k r p c m →
      (p = c → gone l' k) ∧ (p ≠ c → held l' s' k r 0 (c - p) m).
Proof.
  intros [L N G O] H1. unfold endWriteUnitOfWork. rewrite H1. simpl.
  change (1 - 1) with 0. set (l0 := with_nesting 0 l). destruct (begin_at_entry (_requests l)) as (Hat & Hsum & Hlow).
  assert (LkStruct l0 s) as L0 by (by destruct L; split).
  destruct (endLoop_ok (length (_fastAccess (_requests l))) l0 s (FastMap.begin (_requests l)))
    as (l' & s' & E & L' & N' & G' & F); [done|done|by simpl; rewrite <- Hsum|simpl; lia|done|].
  rewrite E. exists l', s'. split; [done|].
  assert (∀ j k r p, slotAt l' j true k r p → p = 0) as Hz.
  { intros j k r p Hj. by destruct (flushed_back l0 l' s s' j k r p L0 F Hj) as (? & ? & ? & ? & ? & ? & ?). }
  split; [split; [done|by rewrite N', pending_all_zero|lia|eauto]|]. split; [done|].
  intros k r p c m [[it Hit] Hv].
  assert (FastMap.begin (_requests l) <= it)%nat as Hge.
  { destruct (decide (FastMap.begin (_requests l) <= it)%nat); [done|].
    discriminate (Hlow it _ ltac:(lia) Hit). }
  pose proof F as (_ & F1 & _). destruct (F1 it k r p c m Hge Hit Hv) as [Hs Hv'].
  destruct (lk_slot l s L it k r p Hit) as (_ & c0 & m0 & Hv0 & _ & Hp).
  assert (c0 = c) as -> by congruence.
  split.
  - intros -> j r' p' Hj. rewrite Z.eqb_refl in Hs.
    destruct (flushed_back l0 l' s s' j k r' p' L0 F Hj) as (p1 & c1 & m1 & Hj1 & _).
    assert (j = it) as -> by (by apply (used_key_inj (_requests l) j it k _ _ (lk_map l s L) Hj1 Hit)).
    rewrite Hj in Hs. simplify_eq.
  - intros Hne. replace (c =? p) with false in Hs by lia. split; [by exists it|]. apply Hv'. lia.
Qed.

(** ** Unlocking *)

(** One entry of the Locker changed in a way that keeps the count of entries
    with pending unlocks. *)
Lemma LkInv_others l l' s s' it k r p b p' d :
  LkInv l s → slotAt l it true k r p → slotAt l' it b k r p' → others it l l' s s' →
  LkStruct l' s' →
  _numResourcesToUnlockAtEndUnitOfWork l' = _numResourcesToUnlockAtEndUnitOfWork l + d →
  d = pendingBit (mkEntry b k (mkSlot r p')) - pendingBit (mkEntry true k (mkSlot r p)) →
  _wuowNestingLevel l' = _wuowNestingLevel l → (_wuowNestingLevel l = 0 → p' = 0) →
  LkInv l' s'.
Proof.
  intros [L N G O] Hit Hit' (A1 & A2 & A3) L' N' -> G' Hp. split; [done| |lia|].
  - rewrite N', N.
    assert (_fastAccess (_requests l') = <[it := mkEntry b k (mkSlot r p')]> (_fastAccess (_requests l))) as ->.
    { apply list_eq. intros j. pose proof (lookup_lt_Some _ _ _ Hit).
      destruct (decide (j = it)) as [->|Hne].
      - by rewrite list_lookup_insert_eq.
      - rewrite list_lookup_insert_ne by done. by apply A1. }
    rewrite (pending_insert _ _ _ _ Hit). lia.
  - intros Hn j k' r' p'' Hj. rewrite G' in Hn. destruct (decide (j = it)) as [->|Hne].
    + rewrite Hj in Hit'. simplify_eq. by apply Hp.
    + rewrite A1 in Hj by done. by apply (O Hn j k' r').
Qed.

(** [unlock] of a resource that is held more often than unlocks are pending. *)
Lemma unlock_ok l s k r p c m :
  LkInv l s → held l s k r p c m → p < c →
  ∃ b l' s', unlock k l s = Some (b, l', s') ∧ LkInv l' s' ∧
    _wuowNestingLevel l' = _wuowNestingLevel l ∧
    (if inAWriteUnitOfWork l && bool_decide (_shouldDelayUnlock l k m = Some true)
     then b = false ∧ ((1 < c ∧ held l' s' k r p (c - 1) m) ∨ (c = 1 ∧ s' = s ∧ held l' s' k r (p + 1) c m))
     else b = (c =? 1) ∧ (c = 1 → gone l' k) ∧ (1 < c → held l' s' k r p (c - 1) m)).
Proof.
  intros HI [[it Hit] Hv] Hpc. pose proof HI as [L N G O].
  destruct (lk_slot l s L it k r p Hit) as ((t & Ht & Hne) & c0 & m0 & Hv0 & Hm & Hp).
  assert (c0 = c ∧ m0 = m) as [-> ->] by (rewrite Hv in Hv0; by simplify_eq).
  assert (∃ d, _shouldDelayUnlock l k m = Some d) as [d Hd].
  { unfold _shouldDelayUnlock. rewrite Ht. destruct t, m; eauto; done. }
  destruct (inAWriteUnitOfWork l && bool_decide (_shouldDelayUnlock l k m = Some true)) eqn:Edel.
  - to_prop. unfold unlock. destruct (find_slot l s it k r p L Hit) as [-> ->].
    unfold FastMap.objAddr. rewrite Hit. simpl. rewrite Hv. simpl.
    replace (inAWriteUnitOfWork l) with true by done.
    replace (_shouldDelayUnlock l k m) with (Some true) by done. simpl.
    destruct (1 <? c) eqn:Ec; to_prop.
    + destruct (unlockImpl_ok l s it k r p c m L Hit Hv ltac:(lia))
        as (it' & l' & s' & E & L' & I' & O' & V' & N' & G').
      replace (c =? 1) with false in * by lia. rewrite E. simpl. exists false, l', s'.
      split; [done|]. split; [|split; [done|split; [done|left; split; [done|split; [by exists it|auto]]]]].
      apply (LkInv_others l l' s s' it k r p true p 0); try done; [lia|lia|].
      intros Hz. apply (O Hz it k r p Hit).
    + pose proof (svc_granted_count s r c m (lk_svc l s L) Hv). assert (c = 1) as -> by lia.
      assert (p = 0) as -> by lia. change (0 + 1) with 1. simpl.
      destruct (store_pending_ok l s it k r 0 1 1 m L Hit Hv ltac:(lia)) as (mp & E & _ & I1 & O1 & L1).
      rewrite E. simpl. do 3 eexists. split; [done|].
      split; [|split; [done|split; [done|right; split; [done|split; [done|split; [by exists it|done]]]]]].
      apply (LkInv_others l _ s s it k r 0 true 1 1); try done.
      * apply (L1 (_numResourcesToUnlockAtEndUnitOfWork l + 1) 0).
      * intros Hz. unfold inAWriteUnitOfWork in *. to_prop. lia.
  - assert (inAWriteUnitOfWork l = false ∨ _shouldDelayUnlock l k m = Some false) as Hnow.
    { apply andb_false_iff in Edel as [?|Hb]; [by left|right]. apply bool_decide_eq_false in Hb.
      destruct d; congruence. }
    destruct (unlock_now_ok l s it k r p c m L Hit Hv ltac:(lia) Hnow)
      as (l' & s' & E & L' & I' & O' & V' & N' & G').
    exists (c =? 1), l', s'. split; [done|]. split; [|split; [done|split; [done|split]]].
    + apply (LkInv_others l l' s s' it k r p (negb (c =? 1)) p 0); try done; [lia| |].
      * rewrite !pendingBit_slot. destruct (c =? 1) eqn:E1; to_prop; [|simpl; lia].
        assert (p = 0) as -> by lia. done.
      * intros Hz. apply (O Hz it k r p Hit).
    + intros -> j r' p' Hj. simpl in I'. destruct (decide (j = it)) as [->|Hne']; [congruence|].
      destruct O' as (O' & _). rewrite O' in Hj by done. apply Hne'.
      by apply (used_key_inj (_requests l) j it k _ _ (lk_map l s L) Hj Hit).
    + intros Hc. replace (c =? 1) with false in I' by lia. split; [by exists it|by apply V'].
Qed.

(** ** Releasing and restoring the pending unlocks *)

Definition zeroed (e : PreallocEntry Z Slot) : PreallocEntry Z Slot :=
  if inUse e then mkEntry true (key e) (mkSlot (sl_req (value e)) 0) else e.

Definition modeOf s r : LockMode := from_option rv_mode MODE_NONE (svc_view s r).

(** What the snapshot holds for an entry. *)
Definition snap s (e : PreallocEntry Z Slot) : list OneLock :=
  if inUse e then replicate (Z.to_nat (sl_unlockPending (value e)))
                    (mkOneLock (key e) (modeOf s (sl_req (value e))))
  else [].

Definition snaps s (fa : list (PreallocEntry Z Slot)) : list OneLock := fa ≫= snap s.

Definition zeroed_from it (fa : list (PreallocEntry Z Slot)) : list (PreallocEntry Z Slot) :=
  take it fa ++ (zeroed <$> drop it fa).

Definition rebuilt (n : Z) fa l : Locker :=
  with_num n (with_map (mkFast fa (_fastAccessUsedSize (_requests l))) l).

Lemma rebuilt_eta l : rebuilt (_numResourcesToUnlockAtEndUnitOfWork l) (_fastAccess (_requests l)) l = l.
Proof. by destruct l as [? [??]]. Qed.

Lemma rebuilt_rebuilt n fa n' fa' l : rebuilt n fa (rebuilt n' fa' l) = rebuilt n fa l.
Proof. done. Qed.

Lemma zeroed_unused e : inUse e = false → zeroed e = e.
Proof. unfold zeroed. by intros ->. Qed.

Lemma zeroed_zero k r : zeroed (mkEntry true k (mkSlot r 0)) = mkEntry true k (mkSlot r 0).
Proof. done. Qed.

Lemma lookup_zeroed_from it fa j :
  zeroed_from it fa !! j = if decide (j < it)%nat then fa !! j else zeroed <$> fa !! j.
Proof.
  unfold zeroed_from. case_decide as Hj.
  - destruct (decide (j < length fa)%nat).
    + rewrite lookup_app_l by (rewrite length_take; lia). by rewrite lookup_take_lt.
    + rewrite (lookup_ge_None_2 fa) by lia. apply lookup_ge_None_2.
      rewrite length_app, length_fmap, length_take, length_drop. lia.
  - destruct (decide (j < length fa)%nat).
    + rewrite lookup_app_r by (rewrite length_take; lia).
      rewrite list_lookup_fmap, lookup_drop, length_take. do 2 f_equal. lia.
    + rewrite (lookup_ge_None_2 fa) by lia. apply lookup_ge_None_2.
      rewrite length_app, length_fmap, length_take, length_drop. lia.
Qed.

Lemma snaps_seek s (fa : list (PreallocEntry Z Slot)) pos :
  snaps s fa = snaps s (drop (FastMap.seek inUse fa pos - pos) fa).
Proof.
  revert pos. induction fa as [|e fa IH]; intros pos; simpl; [by rewrite drop_nil|].
  destruct (inUse e) eqn:E; [by rewrite Nat.sub_diag|].
  unfold snap at 1. rewrite E. simpl. rewrite (IH (Datatypes.S pos)).
  assert (Datatypes.S pos <= FastMap.seek inUse fa (Datatypes.S pos))%nat.
  { destruct (FastMap.seek_spec inUse fa (Datatypes.S pos)) as [(i & ? & E' & _)|[E' _]]; rewrite E'; lia. }
  by replace (FastMap.seek inUse fa (Datatypes.S pos) - pos)%nat
    with (Datatypes.S (FastMap.seek inUse fa (Datatypes.S pos) - Datatypes.S pos)) by lia.
Qed.

Lemma rebuilt_zero_refl it l s :
  LkStruct l s → _numResourcesToUnlockAtEndUnitOfWork l = 0 →
  lsum pendingBit (drop it (_fastAccess (_requests l))) <= 0 →
  rebuilt 0 (zeroed_from it (_fastAccess (_requests l))) l = l ∧
  snaps s (drop it (_fastAccess (_requests l))) = [].
Proof.
  intros L Hn Hs.
  assert (∀ e, e ∈ drop it (_fastAccess (_requests l)) → zeroed e = e ∧ snap s e = []) as Hz.
  { intros [b k [r p]] He. destruct b; [|done]. pose proof He as [j Hj]%list_elem_of_lookup.
    by rewrite (lsum_pending_zero _ j k r p Hs Hj). }
  split.
  - rewrite <- (rebuilt_eta l) at 3. rewrite Hn. f_equal. apply list_eq. intros j.
    rewrite lookup_zeroed_from. case_decide; [done|].
    destruct (_ !! j) as [e|] eqn:Ej; [|done]. simpl. f_equal. apply Hz.
    apply list_elem_of_lookup. exists (j - it)%nat. rewrite lookup_drop, <- Ej. f_equal. lia.
  - generalize (drop it (_fastAccess (_requests l))) Hz. intros fa. induction fa as [|e fa IH]; [done|].
    intros Hz'. unfold snaps in *. rewrite bind_cons, (proj2 (Hz' e (list_elem_of_here _ _))), IH; [done|].
    intros e' He'. apply Hz'. by right.
Qed.

Lemma releaseLoop_ok fuel l s it out :
  LkStruct l s →
  _numResourcesToUnlockAtEndUnitOfWork l = lsum pendingBit (drop it (_fastAccess (_requests l))) →
  (length (_fastAccess (_requests l)) - it <= fuel)%nat → at_entry it (_requests l) →
  releaseLoop fuel it l s out =
    Some (rebuilt 0 (zeroed_from it (_fastAccess (_requests l))) l,
          out ++ snaps s (drop it (_fastAccess (_requests l)))).
Proof.
  revert l it out. induction fuel as [|fuel IH]; intros l it out L Hnum Hf [Hle Hat];
    cbn [releaseLoop]; destruct (_numResourcesToUnlockAtEndUnitOfWork l <=? 0) eqn:E0; to_prop.
  1, 3: pose proof (lsum_nonneg pendingBit (drop it (_fastAccess (_requests l)))
          (λ y _, pendingBit_nonneg y)); destruct (rebuilt_zero_refl it l s L) as [-> ->]; [lia|lia|];
        by rewrite app_nil_r.
  { exfalso. rewrite drop_ge in Hnum by lia. simpl in Hnum. lia. }
  destruct (FastMap.finished it (_requests l)) eqn:Efin.
  { exfalso. apply Nat.eqb_eq in Efin. rewrite drop_ge in Hnum by lia. simpl in Hnum. lia. }
  destruct (Hat eq_refl) as (k & r & p & Hit). clear Hat.
  unfold FastMap.objAddr, FastMap.key_at. rewrite Hit. simpl.
  destruct (lk_slot l s L it k r p Hit) as (_ & c & m & Hv & _ & Hp). rewrite Hv. simpl.
  rewrite (drop_S _ _ _ Hit). unfold snaps at 1. rewrite bind_cons.
  change (drop (Datatypes.S it) _ ≫= snap s) with (snaps s (drop (Datatypes.S it) (_fastAccess (_requests l)))).
  unfold snap at 1. simpl. unfold modeOf. rewrite Hv. simpl.
  rewrite (drop_S _ _ _ Hit) in Hnum. simpl in Hnum. rewrite pendingBit_slot in Hnum. simpl in Hnum.
  set (fa1 := <[it := mkEntry true k (mkSlot r 0)]> (_fastAccess (_requests l))).
  set (l1 := rebuilt (lsum pendingBit (drop (Datatypes.S it) (_fastAccess (_requests l)))) fa1 l).
  assert (LkStruct l1 s) as L1.
  { destruct (store_pending_ok l s it k r p 0 c m L Hit Hv ltac:(lia)) as (mp & _ & -> & _ & _ & L1).
    apply (L1 _ 0). }
  match goal with |- (?X ≫= _) = _ =>
    assert (X = Some (l1, out ++ replicate (Z.to_nat p) (mkOneLock k m))) as -> end.
  { destruct (p =? 0) eqn:Ep; to_prop; simpl.
    - subst p. rewrite app_nil_r. do 2 f_equal. unfold l1, fa1. rewrite list_insert_id by exact Hit.
      rewrite Z.add_0_l in Hnum. rewrite <- Hnum. by rewrite rebuilt_eta.
    - unfold FastMap.store. rewrite Hit. simpl. unfold l1, rebuilt. simpl in Hnum. do 4 f_equal. lia. }
  simpl. pose proof (lookup_lt_Some _ _ _ Hit) as Hlt.
  rewrite next_ok by (simpl; unfold fa1; rewrite length_insert; lia). simpl.
  assert (drop (Datatypes.S it) fa1 = drop (Datatypes.S it) (_fastAccess (_requests l))) as Hd.
  { unfold fa1. rewrite drop_insert_lt by lia. done. }
  destruct (seek_at_entry (_requests l1) (Datatypes.S it)) as (Hge & Hat & Hsum & Hskip).
  { simpl. unfold fa1. rewrite length_insert. lia. }
  pose proof (snaps_seek s (drop (Datatypes.S it) fa1) (Datatypes.S it)) as Hsn.
  simpl in Hsum, Hat, Hskip, Hge. set (it' := FastMap.seek _ _ _) in *.
  rewrite (IH l1 it' _ L1); [|simpl; rewrite <- Hd; exact Hsum|simpl; unfold fa1; rewrite length_insert; lia|exact Hat].
  rewrite <- app_assoc. f_equal. f_equal.
  - change (rebuilt 0 (zeroed_from it' fa1) l = rebuilt 0 (zeroed_from it (_fastAccess (_requests l))) l).
    f_equal. apply list_eq. intros j.
    rewrite !lookup_zeroed_from. destruct (decide (j = it)) as [->|Hne].
    + rewrite decide_True by lia. rewrite decide_False by lia. unfold fa1.
      rewrite list_lookup_insert_eq by done. unfold FastMap.entry_at in Hit. by rewrite Hit.
    + unfold fa1 at 1 2. rewrite !list_lookup_insert_ne by done. repeat case_decide; try lia; try done.
      destruct (_ !! j) as [e|] eqn:Ej; [|done]. simpl. f_equal. symmetry. apply zeroed_unused.
      apply (Hskip j); [lia|]. unfold FastMap.entry_at. simpl. unfold fa1. by rewrite list_lookup_insert_ne.
  - rewrite <- Hd, Hsn, drop_drop.
    by replace (Datatypes.S it + (it' - Datatypes.S it))%nat with it' by lia.
Qed.

Lemma findHeld_ok fuel l s it0 it k r p c m :
  LkStruct l s → slotAt l it true k r p → svc_view s r = Some (granted c m) →
  (it0 <= it)%nat → at_entry it0 (_requests l) →
  (length (_fastAccess (_requests l)) - it0 <= fuel)%nat →
  findHeld fuel it0 (mkOneLock k m) l s = Some it.
Proof.
  intros L Hit Hv. revert it0. pose proof (lookup_lt_Some _ _ _ Hit) as Hlt.
  induction fuel as [|fuel IH]; intros it0 Hle [Hle0 Hat] Hf; [lia|]. cbn [findHeld].
  destruct (FastMap.finished it0 (_requests l)) eqn:Efin.
  { apply Nat.eqb_eq in Efin. lia. }
  destruct (Hat eq_refl) as (k0 & r0 & p0 & H0').
  destruct (lk_slot l s L it0 k0 r0 p0 H0') as (_ & c0 & m0 & Hv0 & _).
  unfold FastMap.key_at, view_at, FastMap.objAddr. rewrite H0'. simpl. rewrite Hv0. simpl.
  destruct (decide (it0 = it)) as [->|Hne].
  { rewrite Hit in H0'. simplify_eq. rewrite Z.eqb_refl, bool_decide_eq_true_2; done. }
  assert (k0 ≠ k) as Hk.
  { intros ->. apply Hne. by apply (used_key_inj (_requests l) it0 it k _ _ (lk_map l s L) H0' Hit). }
  replace (k0 =? k) with false by (symmetry; by apply Z.eqb_neq). simpl.
  rewrite next_ok by lia. simpl.
  destruct (seek_at_entry (_requests l) (Datatypes.S it0)) as (Hge & Hat' & _ & Hskip); [lia|].
  apply IH; [|done|lia].
  destruct (decide (FastMap.seek inUse (drop (Datatypes.S it0) (_fastAccess (_requests l))) (Datatypes.S it0) <= it)%nat);
    [done|]. discriminate (Hskip it _ ltac:(lia) Hit).
Qed.

(** Restoring the [n] pending unlocks of one entry. *)
Lemma restore_entry n l s it k r q c m rest :
  LkStruct l s → slotAt l it true k r q → svc_view s r = Some (granted c m) → 0 <= q →
  q + Z.of_nat n <= c →
  restoreLoop (replicate n (mkOneLock k m) ++ rest) l s =
  restoreLoop rest
    (rebuilt (_numResourcesToUnlockAtEndUnitOfWork l + (if (q =? 0) && negb (n =? 0)%nat then 1 else 0))
       (<[it := mkEntry true k (mkSlot r (q + Z.of_nat n))]> (_fastAccess (_requests l))) l) s.
Proof.
  revert l q. induction n as [|n IH]; intros l q L Hit Hv Hq Hc.
  - simpl. rewrite andb_false_r, !Z.add_0_r, list_insert_id by exact Hit. by rewrite rebuilt_eta.
  - cbn [replicate app restoreLoop]. destruct (begin_at_entry (_requests l)) as (Hat & _ & Hlow).
    rewrite (findHeld_ok _ l s _ it k r q c m L Hit Hv); [|  |done|lia].
    2: { destruct (decide (FastMap.begin (_requests l) <= it)%nat); [done|].
         discriminate (Hlow it _ ltac:(lia) Hit). }
    cbn [mbind option_bind]. unfold FastMap.objAddr. rewrite Hit. simpl.
    destruct (store_pending_ok l s it k r q (q + 1) c m L Hit Hv ltac:(lia)) as (mp & E & -> & I1 & _ & L1).
    assert (_requests (if q =? 0 then with_num (_numResourcesToUnlockAtEndUnitOfWork l + 1) l else l)
            = _requests l) as -> by (by destruct (q =? 0)).
    rewrite E. simpl.
    set (n' := _numResourcesToUnlockAtEndUnitOfWork l + (if q =? 0 then 1 else 0)).
    assert (with_map (mkFast (<[it := mkEntry true k (mkSlot r (q + 1))]> (_fastAccess (_requests l)))
               (_fastAccessUsedSize (_requests l)))
              (if q =? 0 then with_num (_numResourcesToUnlockAtEndUnitOfWork l + 1) l else l)
            = rebuilt n' (<[it := mkEntry true k (mkSlot r (q + 1))]> (_fastAccess (_requests l))) l) as ->.
    { unfold n', rebuilt. destruct (q =? 0); [done|]. rewrite Z.add_0_r. done. }
    rewrite IH with (q := q + 1); [|apply (L1 n' 0)|exact I1|done|lia|lia].
    rewrite rebuilt_rebuilt. f_equal. f_equal; simpl.
    + replace (q + 1 =? 0) with false by lia. simpl. unfold n'. rewrite Z.add_0_r, andb_true_r. done.
    + rewrite list_insert_insert_eq. do 3 f_equal. lia.
Qed.

Lemma restoreLoop_ok suf pre l s :
  LkStruct l s → _fastAccess (_requests l) = pre ++ (zeroed <$> suf) →
  (∀ k r p, mkEntry true k (mkSlot r p) ∈ suf →
     ∃ c m, svc_view s r = Some (granted c m) ∧ 0 <= p <= c) →
  restoreLoop (snaps s suf) l s =
  Some (rebuilt (_numResourcesToUnlockAtEndUnitOfWork l + lsum pendingBit suf) (pre ++ suf) l).
Proof.
  revert pre l. induction suf as [|[b k [r p]] suf IH]; intros pre l L Hfa Hin.
  - simpl in *. rewrite app_nil_r in Hfa |- *. by rewrite Z.add_0_r, <- Hfa, rebuilt_eta.
  - unfold snaps. rewrite bind_cons. change (suf ≫= snap s) with (snaps s suf).
    assert (∀ k r p, mkEntry true k (mkSlot r p) ∈ suf →
      ∃ c m, svc_view s r = Some (granted c m) ∧ 0 <= p <= c) as Hin' by (intros; apply (Hin k0); by right).
    simpl. rewrite pendingBit_slot. destruct b; simpl.
    2: { rewrite (IH (pre ++ [mkEntry false k (mkSlot r p)])); [|done|by rewrite <- app_assoc|done].
         by rewrite <- app_assoc. }
    destruct (Hin k r p) as (c & m & Hv & Hp); [by left|].
    unfold snap. simpl. unfold modeOf. rewrite Hv. simpl.
    assert (slotAt l (length pre) true k r 0) as Hit.
    { unfold FastMap.entry_at. rewrite Hfa, fmap_cons. by apply list_lookup_middle. }
    rewrite (restore_entry _ l s (length pre) k r 0 c m _ L Hit Hv) by lia.
    destruct (store_pending_ok l s (length pre) k r 0 p c m L Hit Hv Hp) as (mp & _ & -> & _ & _ & L1).
    rewrite Z.add_0_l, Z2Nat.id by lia.
    rewrite (IH (pre ++ [mkEntry true k (mkSlot r p)])); [|apply (L1 _ 0)| |done].
    + rewrite rebuilt_rebuilt, <- app_assoc. do 2 f_equal. simpl. rewrite <- Z.add_assoc. do 2 f_equal.
      destruct (decide (p = 0)) as [->|]; [done|].
      replace (p =? 0) with false by lia.
      by replace (Z.to_nat p =? 0)%nat with false by (symmetry; apply Nat.eqb_neq; lia).
    + simpl. rewrite Hfa. rewrite insert_app_r_alt by lia. rewrite Nat.sub_diag. simpl.
      by rewrite <- app_assoc.
Qed.

(** Releasing the pending unlocks of a unit of work and restoring them is the
    identity; in between, the Locker is outside of any unit of work. *)
Lemma release_restore_ok l s :
  LkInv l s →
  ∃ st l1, releaseWriteUnitOfWork l s = Some (st, l1) ∧ LkInv l1 s ∧ inAWriteUnitOfWork l1 = false ∧
    (∀ it k r p, slotAt l it true k r p → slotAt l1 it true k r 0) ∧
    restoreWriteUnitOfWork st l1 s = Some l.
Proof.
  intros [L N G O]. unfold releaseWriteUnitOfWork.
  destruct (begin_at_entry (_requests l)) as (Hat & Hsum & Hlow).
  set (l0 := with_nesting 0 l).
  assert (LkStruct l0 s) as L0 by (by destruct L; split).
  rewrite (releaseLoop_ok _ l0 s _ [] L0); [|by simpl; rewrite <- Hsum|simpl; lia|done].
  simpl. do 2 eexists. split; [done|].
  set (fa := _fastAccess (_requests l)).
  assert (zeroed_from (FastMap.begin (_requests l)) fa = zeroed <$> fa) as Hz.
  { apply list_eq. intros j. rewrite lookup_zeroed_from, list_lookup_fmap. case_decide; [|done].
    destruct (fa !! j) as [e|] eqn:Ej; [|done]. simpl. rewrite zeroed_unused; [done|]. by apply (Hlow j). }
  rewrite Hz. set (l1 := rebuilt 0 (zeroed <$> fa) l0).
  assert (∀ it k r p, slotAt l1 it true k r p → p = 0 ∧ ∃ p0, slotAt l it true k r p0) as Hback.
  { intros it k r p Hs. unfold FastMap.entry_at in Hs. simpl in Hs. rewrite list_lookup_fmap in Hs.
    destruct (fa !! it) as [[b k0 [r0 p0]]|] eqn:Ej; [|done]. simpl in Hs. destruct b; [|done].
    unfold zeroed in Hs. simpl in Hs. simplify_eq. split; [done|]. by exists p0. }
  assert (LkStruct l1 s) as L1.
  { split.
    - pose proof (lk_map l s L) as [F1 F2]. unfold FastMap.FInv, FastMap.contents in *. simpl. fold fa in F1, F2.
      assert ((FastMap.contents_of (zeroed <$> fa)).*1 = (FastMap.contents_of fa).*1) as E.
      { clear. induction fa as [|[b k [r p]] fa' IH]; [done|].
        change (zeroed <$> _) with ([zeroed (mkEntry b k (mkSlot r p))] ++ (zeroed <$> fa')).
        change (mkEntry b k (mkSlot r p) :: fa') with ([mkEntry b k (mkSlot r p)] ++ fa').
        rewrite !FastMap.contents_app, !fmap_app, IH. by destruct b. }
      rewrite E. split; [|done]. by rewrite <- (length_fmap fst), E, length_fmap.
    - simpl. rewrite <- list_fmap_compose. pose proof (lk_addr l s L) as A. fold fa in A.
      rewrite (list_fmap_ext _ (λ e, sl_req (value e)) fa); [done|].
      intros _ [b k [r p]] _. by destruct b.
    - intros it k r p Hs. destruct (Hback it k r p Hs) as (-> & p0 & Hs0).
      destruct (lk_slot l s L it k r p0 Hs0) as (? & c & m & ? & ? & ?).
      split; [done|]. exists c, m. split; [done|]. split; [done|lia].
    - intros it r p Hs. destruct (Hback it _ r p Hs) as (-> & p0 & Hs0). by apply (lk_ticket l s L it r p0).
    - apply (lk_svc l s L). }
  split; [|split; [done|split]].
  - split; [done| |done|].
    + symmetry. apply (pending_all_zero (_requests l1)). intros j k r p Hs. by destruct (Hback j k r p Hs).
    + intros _ it k r p Hs. by destruct (Hback it k r p Hs).
  - intros it k r p Hs. unfold FastMap.entry_at. simpl. rewrite list_lookup_fmap. fold fa.
    unfold FastMap.entry_at in Hs. fold fa in Hs. by rewrite Hs.
  - unfold restoreWriteUnitOfWork. simpl.
    assert (snaps s (drop (FastMap.begin (_requests l)) fa) = snaps s fa) as ->.
    { unfold FastMap.begin. by rewrite (snaps_seek s fa 0), Nat.sub_0_r. }
    rewrite (restoreLoop_ok fa []); [|done|done|].
    + simpl. unfold rebuilt. simpl. fold fa in N. rewrite <- N. unfold fa. by destruct l as [? [??]].
    + intros k r p [it Hit]%list_elem_of_lookup. destruct (lk_slot l s L it k r p Hit) as (_ & c & m & ? & _ & ?). eauto.
Qed.

End Units.
