(* ===== verification/LockerService.v ===== *)
(** The lock manager implements the interface of the Locker: the instance of
    [LockService] for LockManager.v and its laws, and what the Locker's mode
    queries guarantee about the lock manager's holders
    (src: db/concurrency/lock_manager.cpp, lock_state.cpp). *)
From S2P Require Import Prelude LockModes FastMap LockManager LockHeadInv LockManagerInv LockManagerSafety Locker LockerInv LockerUnits.
Import LockHead LockManager.

Definition view_of (q : LockRequest) : ReqView :=
  mkView (lr_recursiveCount q) (lr_status q) (lr_mode q).

#[export] Instance lm_service : LockService LMState := {
  svc_view s r := view_of <$> lm_requests s !! r;
  svc_init r id s := with_requests (<[r := initNew id]> (lm_requests s)) s;
  svc_prioritize r s := with_requests (alter (set_flags true true) r (lm_requests s)) s;
  svc_set_count r n s := with_requests (alter (set_recursiveCount n) r (lm_requests s)) s;
  svc_lock := LockManager.lock;
  svc_convert := LockManager.convert;
  svc_unlock := release;
  svc_downgrade := LockManager.downgrade
}.

(** ** Granted requests are left alone by the rescans *)

Definition granted_kept (rm rm' : ReqMap) : Prop :=
  ∀ r q, rm !! r = Some q → lr_status q = STATUS_GRANTED → rm' !! r = Some q.

Lemma granted_kept_refl rm : granted_kept rm rm.
Proof. by intros r q ? _. Qed.

#[local] Hint Resolve granted_kept_refl : core.

Lemma granted_kept_trans rm1 rm2 rm3 :
  granted_kept rm1 rm2 → granted_kept rm2 rm3 → granted_kept rm1 rm3.
Proof. intros A B r q Hq Hst. apply B; [by apply A|done]. Qed.

Lemma granted_kept_insert rm r q q' :
  rm !! r = Some q → lr_status q ≠ STATUS_GRANTED → granted_kept rm (<[r := q']> rm).
Proof.
  intros Hq Hst r' q2 Hr' Hst'. rewrite lookup_insert_ne; [done|]. intros ->. congruence.
Qed.

Lemma grantConversions_kept l h rm nt h' rm' nt' :
  grantConversions l h rm nt = Some (h', rm', nt') → granted_kept rm rm'.
Proof.
  revert h rm nt. induction l as [|r l IH]; simpl; intros h rm nt E; [by simplify_eq|].
  destruct (lh_conversionsCount h <=? 0); [by simplify_eq|].
  destruct (rm !! r) as [q|] eqn:Hq; [|done]. simpl in E.
  case_bool_decide as Hst; [|by apply (IH h rm nt)].
  do 2 (case_match; [|done]). case_match; [by apply (IH h rm nt)|].
  destruct (decGrantedModeCount _ _) as [h1|]; [|done]. simpl in E.
  eapply granted_kept_trans; [|by eapply IH].
  eapply granted_kept_insert; [exact Hq|congruence].
Qed.

Lemma grantConflicts_kept l b h rm nt h' rm' nt' :
  grantConflicts l b h rm nt = Some (h', rm', nt') → granted_kept rm rm'.
Proof.
  revert b h rm nt. induction l as [|r l IH]; simpl; intros b h rm nt E; [by simplify_eq|].
  destruct (rm !! r) as [q|] eqn:Hq; [|done]. simpl in E.
  case_bool_decide as Hst; [|done].
  case_match; [case_match; [by simplify_eq|by eapply IH]|].
  destruct (decConflictModeCount _ _) as [h1|]; [|done]. simpl in E.
  destruct (incGrantedModeCount _ _) as [h2|]; [|done]. simpl in E.
  assert (granted_kept rm (<[r := set_status STATUS_GRANTED q]> rm)) as K.
  { eapply granted_kept_insert; [exact Hq|congruence]. }
  case_match; [by simplify_eq|]. eapply granted_kept_trans; [exact K|by eapply IH].
Qed.

Lemma onLockModeChanged_kept h b rm nt h' rm' nt' :
  _onLockModeChanged h b rm nt = Some (h', rm', nt') → granted_kept rm rm'.
Proof.
  unfold _onLockModeChanged. intros E.
  destruct (grantConversions _ h rm nt) as [[[h1 rm1] nt1]|] eqn:E1; [|done]. simpl in E.
  eapply granted_kept_trans; [by eapply grantConversions_kept|].
  destruct b; [|simpl in E; do 2 (case_match; [|done]); by simplify_eq].
  destruct (grantConflicts _ false h1 rm1 nt1) as [[[h2 rm2] nt2]|] eqn:E2; [|done]. simpl in E.
  do 2 (case_match; [|done]). simplify_eq. by eapply grantConflicts_kept.
Qed.

Lemma unlockInHead_kept r q s s' :
  lr_status q = STATUS_GRANTED → unlockInHead r q s = Some s' →
  granted_kept (lm_requests s) (lm_requests s').
Proof.
  unfold unlockInHead. intros Hst E. destruct (lr_lock q) as [res|]; [|done]. simpl in E.
  destruct (lm_heads s !! res) as [h|]; [|done]. simpl in E. rewrite Hst in E.
  destruct (decGrantedModeCount _ _) as [h1|]; [|done]. simpl in E.
  match type of E with (?X ≫= _) = _ => destruct X as [h2|]; [|done] end. simpl in E.
  destruct (_onLockModeChanged _ _ _ _) as [[[h3 rm3] nt3]|] eqn:E3; [|done]. simpl in E.
  simplify_eq. by eapply onLockModeChanged_kept.
Qed.

(** ** The laws *)

Lemma granted_positive s r q :
  LInv s → lm_requests s !! r = Some q → lr_status q = STATUS_GRANTED → 1 <= lr_recursiveCount q.
Proof.
  intros H Hq Hst. destruct (li_placed s H r q Hq) as [N|[(res & h & Hl & _)|(k & l & Hl & _)]].
  - destruct N as (_ & _ & _ & ? & _). congruence.
  - destruct (li_locked s r q res H Hq Hl) as (h' & _ & _ & [HC _] & Hr).
    destruct (granted_in_list h' _ r q HC Hr Hq) as [_ (_ & _ & _ & [(_ & _ & ?)|(? & _)])];
      [congruence|lia|congruence].
  - destruct (li_partitioned s r q k H Hq Hl) as (_ & _ & _ & _ & (_ & _ & _ & _ & _ & _ & ?)). lia.
Qed.

Lemma release_view s r q :
  LInv s → lm_requests s !! r = Some q → lr_status q = STATUS_GRANTED →
  ∃ s', release r s = Some (lr_recursiveCount q =? 1, s') ∧ LInv s' ∧
    (1 < lr_recursiveCount q →
       lm_requests s' !! r = Some (set_recursiveCount (lr_recursiveCount q - 1) q)) ∧
    (∀ r' q', r' ≠ r → lm_requests s !! r' = Some q' → lr_status q' = STATUS_GRANTED →
       lm_requests s' !! r' = Some q').
Proof.
  intros H Hq Hst. pose proof (granted_positive s r q H Hq Hst) as Hc.
  destruct (release_ok s r q H Hq) as (b & s' & E & H'); [congruence|].
  pose proof E as E'. unfold release, freeing, unlock, unlockFast in E'. rewrite Hq in E'. simpl in E'.
  replace (0 <? lr_recursiveCount q) with true in E' by lia. rewrite Hst in E'.
  rewrite bool_decide_eq_true_2 in E' by done. simpl in E'.
  destruct (0 <? lr_recursiveCount q - 1) eqn:E0; simpl in E'.
  - simplify_eq. exists (with_requests (<[r := set_recursiveCount (lr_recursiveCount q - 1) q]>
                           (lm_requests s)) s).
    replace (lr_recursiveCount q =? 1) with false by lia. split; [exact E|]. split; [exact H'|].
    split; [intros _; apply lookup_insert_eq|]. intros r' q' Hne Hr' _. simpl. by rewrite lookup_insert_ne.
  - assert (lr_recursiveCount q = 1) as E1 by lia. rewrite E1 in *. simpl in E'.
    exists s'. assert (b = true ∧ ∀ r' q', r' ≠ r → lm_requests s !! r' = Some q' →
        lr_status q' = STATUS_GRANTED → lm_requests s' !! r' = Some q') as [-> K].
    { unfold unlockSlow in E'. simpl in E'. rewrite lookup_insert_eq in E'. simpl in E'.
      rewrite Hst, bool_decide_eq_true_2, orb_true_r in E' by done. simpl in E'.
      set (s1 := mkLM (<[r := set_recursiveCount 0 q]> (lm_requests s)) (lm_heads s)
                      (lm_partitions s) (lm_notes s)) in *.
      assert (∀ s2, granted_kept (lm_requests s1) (lm_requests s2) →
        ∀ r' q', r' ≠ r → lm_requests s !! r' = Some q' → lr_status q' = STATUS_GRANTED →
        delete r (lm_requests s2) !! r' = Some q') as Hk.
      { intros s2 K r' q' Hne Hr' Hst'. rewrite lookup_delete_ne by done. apply K; [|done].
        simpl. by rewrite lookup_insert_ne. }
      destruct (lr_partitioned q), (lr_partitionedLock q) as [k|]; simpl in E';
        try (destruct (lm_partitions s !! k) as [l|]; [|done]; simpl in E'; simplify_eq;
             split; [done|]; by apply (Hk s1));
        (destruct (unlockInHead r _ _) as [s2|] eqn:E2; [|done]; simpl in E'; simplify_eq;
         split; [done|]; apply Hk; by eapply unlockInHead_kept; [|exact E2]). }
    split; [done|]. split; [done|]. split; [lia|done].
Qed.

#[export] Program Instance lm_service_spec : LockServiceSpec LMState := { svc_inv := LInv }.
Next Obligation.
  intros s r c m H Hv. simpl in Hv. destruct (lm_requests s !! r) as [q|] eqn:Hq; [|done].
  simpl in Hv. unfold view_of in Hv. simplify_eq. by apply (granted_positive s r q).
Qed.
Next Obligation.
  intros s r c m H Hv. simpl in *. destruct (lm_requests s !! r) as [q|] eqn:Hq; [|done].
  simpl in Hv. unfold view_of in Hv. injection Hv as <- Hst <-.
  destruct (release_view s r q H Hq Hst) as (s' & E & H' & V1 & V2).
  exists s'. split; [done|]. split; [done|]. split.
  - intros Hc. rewrite V1 by done. simpl. unfold view_of. simpl. by rewrite Hst.
  - intros r' c' m' Hne Hv'. destruct (lm_requests s !! r') as [q'|] eqn:Hq'; [|done].
    simpl in Hv'. unfold view_of in Hv'. injection Hv' as <- Hst' <-.
    rewrite (V2 r' q' Hne Hq' Hst'). simpl. unfold view_of. by rewrite Hst'.
Qed.
