(* ===== verification/LockerProps.v ===== *)
(** Properties of the Locker: two-phase locking, the end of a write unit of
    work, releasing and restoring it, taking a delayed unlock back, and the
    soundness of the mode queries against the lock manager's holders
    (src: db/concurrency/lock_state.cpp). *)
From S2P Require Import Prelude LockModes FastMap LockManager LockHeadInv LockManagerInv LockManagerSafety Locker LockerInv LockerUnits LockerService.
Import LockerImpl.

(** ** Checking the invariant of a concrete Locker *)

Definition slot_check (l : Locker) (s : LMState) (e : PreallocEntry Z Slot) : bool :=
  negb (inUse e) ||
  match getType (key e), svc_view s (sl_req (value e)) with
  | Some t, Some v =>
      negb (bool_decide (t = RESOURCE_INVALID)) && bool_decide (rv_status v = STATUS_GRANTED)
      && negb (bool_decide (rv_mode v = MODE_NONE)) && (0 <=? sl_unlockPending (value e))
      && (sl_unlockPending (value e) <=? rv_count v)
      && (negb (key e =? resourceIdGlobal) || negb (bool_decide (_modeForTicket l = MODE_NONE)))
      && ((0 <? _wuowNestingLevel l) || (sl_unlockPending (value e) =? 0))
  | _, _ => false
  end.

Definition lk_check (l : Locker) (s : LMState) : bool :=
  (_fastAccessUsedSize (_requests l) =? length (FastMap.contents (_requests l)))%nat
  && bool_decide (NoDup (FastMap.contents (_requests l)).*1)
  && bool_decide (NoDup ((λ e, sl_req (value e)) <$> _fastAccess (_requests l)))
  && forallb (slot_check l s) (_fastAccess (_requests l))
  && (_numResourcesToUnlockAtEndUnitOfWork l =? lsum pendingBit (_fastAccess (_requests l)))
  && (0 <=? _wuowNestingLevel l).

Lemma lk_check_sound l s : LInv s → lk_check l s = true → LkInv l s.
Proof.
  intros HI Hc. unfold lk_check in Hc. rewrite !andb_true_iff in Hc.
  destruct Hc as (((((C1 & C2) & C3) & C4) & C5) & C6). rewrite forallb_forall in C4. to_prop.
  assert (∀ it k r p, FastMap.entry_at it (_requests l) = Some (mkEntry true k (mkSlot r p)) →
    slot_check l s (mkEntry true k (mkSlot r p)) = true) as Hs.
  { intros it k r p Hit. apply C4. apply list_elem_of_In. by eapply list_elem_of_lookup_2. }
  assert (∀ it k r p, FastMap.entry_at it (_requests l) = Some (mkEntry true k (mkSlot r p)) →
    (lockable k ∧ ∃ c m, svc_view s r = Some (mkView c STATUS_GRANTED m) ∧ m ≠ MODE_NONE ∧ 0 <= p <= c)
    ∧ (k = resourceIdGlobal → _modeForTicket l ≠ MODE_NONE)
    ∧ (_wuowNestingLevel l = 0 → p = 0)) as Hall.
  { intros it k r p Hit. pose proof (Hs it k r p Hit) as Hsl. unfold slot_check in Hsl.
    cbn [inUse key value sl_req sl_unlockPending negb orb] in Hsl.
    destruct (getType k) as [t|] eqn:Et; [|done].
    destruct (svc_view s r) as [[c st m]|]; [|done]. cbn [rv_status rv_mode rv_count] in Hsl.
    rewrite !andb_true_iff in Hsl. destruct Hsl as ((((((B1 & B2) & B3) & B4) & B5) & B6) & B7).
    to_prop. subst st. split; [split; [by exists t|by exists c, m]|]. split.
    - intros ->. destruct B6 as [B6|B6]; [by rewrite Z.eqb_refl in B6|by to_prop].
    - intros Hn. rewrite Hn in B7. destruct B7 as [B7|B7]; [done|by to_prop]. }
  split.
  - split.
    + split; [by apply Nat.eqb_eq|done].
    + done.
    + intros it k r p Hit. by apply (Hall it k r p Hit).
    + intros it r p Hit. by apply (Hall it _ r p Hit).
    + exact HI.
  - done.
  - done.
  - intros Hn it k r p Hit. by apply (Hall it k r p Hit).
Qed.

(** ** Properties *)

Section Properties.
Context {S : Type} `{LockServiceSpec S}.
Implicit Types (l : Locker) (s : S).

(** Two-phase locking.  Inside a write unit of work, unlocking a resource
    whose release must be delayed never releases it: it stays held in the same
    mode, and only the balance of references minus pending unlocks drops. *)
Theorem two_phase_unlock l s k r p c m :
  LkInv l s → held l s k r p c m → p < c →
  inAWriteUnitOfWork l = true → _shouldDelayUnlock l k m = Some true →
  ∃ l' s' p' c', unlock k l s = Some (false, l', s') ∧ LkInv l' s' ∧
    _wuowNestingLevel l' = _wuowNestingLevel l ∧
    held l' s' k r p' c' m ∧ c' - p' = c - p - 1 ∧ 1 <= c'.
Proof.
  intros HI Hh Hpc Hw Hd. pose proof Hh as [_ Hv].
  pose proof (svc_granted_count s r c m (lk_svc l s (lk_struct l s HI)) Hv) as Hc.
  destruct (unlock_ok l s k r p c m HI Hh Hpc) as (b & l' & s' & E & HI' & Hn & Hcase).
  rewrite Hw, Hd, bool_decide_eq_true_2 in Hcase by done. simpl in Hcase.
  destruct Hcase as [-> [[Hlt Hh']|(-> & -> & Hh')]].
  - exists l', s', p, (c - 1). repeat (split; [done|]). split; lia.
  - exists l', s, (p + 1), 1. repeat (split; [done|]). split; lia.
Qed.

(** The end of the outermost write unit of work performs exactly the
    delayed unlocks.  It runs to completion, leaves nothing pending, and a
    resource is given up if and only if all its references were unlocked;
    otherwise it stays held in its mode with the remaining references. *)
Theorem end_unit_releases l s :
  LkInv l s → _wuowNestingLevel l = 1 →
  ∃ l' s', endWriteUnitOfWork l s = Some (l', s') ∧ LkInv l' s' ∧ _wuowNestingLevel l' = 0 ∧
    _numResourcesToUnlockAtEndUnitOfWork l' = 0 ∧
    ∀ k r p c m, held l s k r p c m →
      (p = c → FastMap.finished (FastMap.find k (_requests l')) (_requests l') = true) ∧
      (p ≠ c → held l' s' k r 0 (c - p) m).
Proof.
  intros HI Hn. destruct (endWriteUnitOfWork_ok l s HI Hn) as (l' & s' & E & HI' & Hn' & Hh).
  exists l', s'. split; [done|]. split; [done|]. split; [done|]. split.
  { rewrite (lk_num l' s' HI'). apply pending_all_zero. intros j k r p.
    by apply (lk_outside l' s' HI' Hn'). }
  intros k r p c m Hk. destruct (Hh k r p c m Hk) as [H1 H2]. split; [|done].
  intros Hp. specialize (H1 Hp).
  destruct (FastMap.find_spec k (_requests l') (proj2 (lk_map l' s' (lk_struct l' s' HI'))))
    as [[? _]|([r' p'] & Hj & _)]; [done|]. by destruct (H1 _ _ _ Hj).
Qed.

(** Releasing a write unit of work and restoring it is the identity.  In
    between the Locker is outside of any unit of work, holds the same resources
    and has no pending unlock. *)
Theorem release_restore_unit l s :
  LkInv l s →
  ∃ st l1, releaseWriteUnitOfWork l s = Some (st, l1) ∧ LkInv l1 s ∧
    inAWriteUnitOfWork l1 = false ∧
    (∀ k r p c m, held l s k r p c m → held l1 s k r 0 c m) ∧
    restoreWriteUnitOfWork st l1 s = Some l.
Proof.
  intros HI. destruct (release_restore_ok l s HI) as (st & l1 & E & HI1 & Hw & Hs & R).
  exists st, l1. repeat (split; [done|]). split; [|done].
  intros k r p c m [[it Hit] Hv]. split; [|done]. exists it. by eapply Hs.
Qed.

(** A delayed unlock can be taken back.  Inside a write unit of work,
    unlocking a resource held once and locking it again in a covered mode gives
    back the state before, without calling the lock manager. *)
Theorem unlock_relock l s k r m mode fresh interrupted :
  LkInv l s → held l s k r 0 1 m → inAWriteUnitOfWork l = true →
  _shouldDelayUnlock l k m = Some true → isModeCovered mode m = true →
  ∃ l1, unlock k l s = Some (false, l1, s) ∧
    _lockBegin fresh interrupted k mode l1 s = Some (AOk, l, s).
Proof.
  intros HI [[it Hit] Hv] Hw Hd Hcov. pose proof (lk_struct l s HI) as L.
  unfold unlock. destruct (find_slot l s it k r 0 L Hit) as [-> ->].
  unfold FastMap.objAddr. rewrite Hit. simpl. rewrite Hv. simpl. rewrite Hw, Hd. simpl.
  destruct (store_pending_ok l s it k r 0 1 1 m L Hit Hv ltac:(lia)) as (mp & E & Emp & I1 & _ & L1).
  change (0 + 1) with 1. rewrite E. simpl. eexists. split; [done|].
  set (l1 := with_map mp _). assert (LkStruct l1 s) as Ls by apply (L1 _ 0).
  unfold _lockBegin. destruct (find_slot l1 s it k r 1 Ls I1) as [-> ->].
  assert (FastMap.entry_at it (_requests l1) = Some (mkEntry true k (mkSlot r 1))) as I1' by exact I1.
  unfold FastMap.objAddr, FastMap.store. cbn [mbind option_bind]. rewrite I1'.
  cbn [mbind option_bind fmap option_fmap option_map value sl_req]. rewrite Hv.
  cbn [mbind option_bind sl_unlockPending rv_mode]. rewrite Hcov. cbn [Z.eqb negb andb].
  change (1 - 1) with 0. cbn [Z.eqb]. do 3 f_equal. subst mp. unfold with_num, with_map. simpl.
  rewrite list_insert_insert_eq, list_insert_id by exact Hit.
  rewrite Z.add_simpl_r. by destruct l as [? [??]].
Qed.

End Properties.

(** ** The mode queries and the lock manager *)

(** Every request of the Locker holds its resource in the lock manager. *)
Definition holding (l : Locker) (s : LMState) : Prop :=
  FastMap.FInv (_requests l) ∧
  ∀ it k r p, FastMap.entry_at it (_requests l) = Some (mkEntry true k (mkSlot r p)) →
    ∃ q, holder s k r q.

(** The intent a mode on a collection requires on its database and globally. *)
Definition intentFor (m : LockMode) : LockMode := if isSharedLockMode m then MODE_IS else MODE_IX.

(** Another operation holds the collection properly, with requests that are not
    the Locker's own. *)
Definition other_holds (l : Locker) (s : LMState) (resIdDb resIdColl : Z) (m : LockMode) : Prop :=
  ∃ rg rd rc qg qd qc,
    holder s resourceIdGlobal rg qg ∧ holder s resIdDb rd qd ∧ holder s resIdColl rc qc ∧
    lr_mode qc = m ∧ m ≠ MODE_NONE ∧
    isModeCovered (intentFor m) (lr_mode qg) = true ∧ isModeCovered (intentFor m) (lr_mode qd) = true ∧
    ∀ it k r p, FastMap.entry_at it (_requests l) = Some (mkEntry true k (mkSlot r p)) →
      r ≠ rg ∧ r ≠ rd ∧ r ≠ rc.

(** What [getLockMode] reports is the mode of a holder of the resource. *)
Lemma getLockMode_holder l s k m :
  holding l s → getLockMode l s k = Some m →
  m = MODE_NONE ∨ ∃ it r p q, FastMap.entry_at it (_requests l) = Some (mkEntry true k (mkSlot r p)) ∧
    holder s k r q ∧ lr_mode q = m.
Proof.
  intros [HF Hh] E. unfold getLockMode in E.
  destruct (FastMap.find_spec k (_requests l) (proj2 HF)) as [[Hf _]|([r p] & Hit & _)].
  - rewrite Hf in E. left. congruence.
  - destruct (find_used _ _ _ _ HF Hit) as [_ Hnf]. rewrite Hnf in E.
    destruct (Hh _ _ _ _ Hit) as (q & Hq). right. eexists _, r, p, q. split; [exact Hit|].
    split; [exact Hq|]. unfold view_at, FastMap.objAddr in E. rewrite Hit in E. simpl in E.
    rewrite (proj1 Hq) in E. simpl in E. congruence.
Qed.

(** C23: the answer of [isCollectionLockedForMode] is sound, for an operation whose flag
    [_shouldConflictWithSecondaryBatchApplication] is set (without it the code answers true
    whatever is locked).  In a reachable
    state of the lock manager, if such a Locker whose requests hold their resources
    is told that a collection is locked for a mode, no other operation that
    follows the locking hierarchy holds that collection in a mode that is
    incompatible with it. *)
Theorem isCollectionLockedForMode_sound l s resIdDb resIdColl mode m :
  reachable s → holding l s → _shouldConflictWithSecondaryBatchApplication l = true →
  isCollectionLockedForMode l s resIdDb resIdColl mode = Some true →
  other_holds l s resIdDb resIdColl m → compatible mode m = true.
Proof.
  intros Hs Hl Hsc E (rg & rd & rc & qg & qd & qc & Hg & Hd & Hc & Em & Hm & Ig & Id & Hne).
  assert (∀ k x r q, getLockMode l s k = Some x → holder s k r q →
    (∀ it r' p, FastMap.entry_at it (_requests l) = Some (mkEntry true k (mkSlot r' p)) → r' ≠ r) →
    compatible x (lr_mode q) = true) as Hcomp.
  { intros k x r q Hx Hr Hn. destruct (getLockMode_holder l s k x Hl Hx) as [->|(it & r' & p & q' & Hit & Hq' & <-)];
      [by destruct (lr_mode q)|].
    apply (holders_compatible s k r' r q' q Hs Hq' Hr). by eapply Hn. }
  unfold isCollectionLockedForMode, isW, isR, isLockHeldForMode in E.
  destruct (getLockMode l s resourceIdGlobal) as [mg|] eqn:Eg; [|done].
  pose proof (Hcomp _ _ _ _ Eg Hg (λ it r' p Hit, proj1 (Hne it _ r' p Hit))) as Cg.
  cbn [mbind option_bind] in E.
  destruct (bool_decide (mg = MODE_X)) eqn:EX; to_prop.
  { subst mg. destruct (lr_mode qg), m; done. }
  destruct (bool_decide (mg = MODE_S) && isSharedLockMode mode) eqn:ES.
  { to_prop. subst mg. destruct (lr_mode qg), m, mode; done. }
  destruct (getLockMode l s resIdDb) as [md|] eqn:Ed; [|done].
  pose proof (Hcomp _ _ _ _ Ed Hd (λ it r' p Hit, proj1 (proj2 (Hne it _ r' p Hit)))) as Cd.
  cbn [mbind option_bind] in E. rewrite Hsc in E. cbn [negb] in E.
  assert (∀ b, (m' ← getLockMode l s resIdColl; Some (isModeCovered mode m')) = Some b → b = true →
    compatible mode m = true) as Hcoll.
  { intros b Eb ->. destruct (getLockMode l s resIdColl) as [mc|] eqn:Ec; [|done].
    pose proof (Hcomp _ _ _ _ Ec Hc (λ it r' p Hit, proj2 (proj2 (Hne it _ r' p Hit)))) as Cc.
    cbn [mbind option_bind] in Eb. injection Eb as Eb. rewrite Em in Cc.
    by apply (isModeCovered_compatible mc mode m). }
  destruct md; [done|by apply (Hcoll true)|by apply (Hcoll true)| |].
  - injection E as E. destruct (lr_mode qd), m, mode; done.
  - destruct (lr_mode qd), m; done.
Qed.

(** ** A concrete state *)

Definition dbA : Z := fullHash RESOURCE_DATABASE 100.
Definition collA : Z := fullHash RESOURCE_COLLECTION 200.

(** Two operations hold the hierarchy of one collection in IX. *)
Definition two_writers : list call :=
  CCreate 1 1 false false :: CLock resourceIdGlobal 1 MODE_IX ++
  CCreate 2 1 false false :: CLock dbA 2 MODE_IX ++
  CCreate 3 1 false false :: CLock collA 3 MODE_IX ++
  CCreate 4 2 false false :: CLock resourceIdGlobal 4 MODE_IX ++
  CCreate 5 2 false false :: CLock dbA 5 MODE_IX ++
  CCreate 6 2 false false :: CLock collA 6 MODE_IX.

Definition writer : Locker :=
  mkLocker 1 (mkFast [mkEntry true collA (mkSlot 3 0); mkEntry true dbA (mkSlot 2 0);
                      mkEntry true resourceIdGlobal (mkSlot 1 0)] 3)
    0 1 MODE_IX kActiveWriter false true (modeMask MODE_NONE) false.

Definition writers_state : LMState := after two_writers.

Lemma writer_inv : LkInv writer writers_state.
Proof.
  apply lk_check_sound; [by apply after_LInv; vm_compute|]. vm_compute. reflexivity.
Qed.

(** The demo Locker holds the collection once. *)
Lemma writer_held : held writer writers_state collA 3 0 1 MODE_IX.
Proof. split; [by exists 0%nat|]. vm_compute. reflexivity. Qed.

Lemma two_phase_unlock_witness :
  ∃ l' s', unlock collA writer writers_state = Some (false, l', s') ∧ LkInv l' s'.
Proof.
  destruct (two_phase_unlock writer writers_state collA 3 0 1 MODE_IX writer_inv writer_held)
    as (l' & s' & p' & c' & E & H & _); [reflexivity|reflexivity|vm_compute; reflexivity|].
  exists l', s'. split; [exact E|exact H].
Defined.

Lemma end_unit_releases_witness :
  ∃ l' s', endWriteUnitOfWork writer writers_state = Some (l', s') ∧ held l' s' collA 3 0 (1 - 0) MODE_IX.
Proof.
  destruct (end_unit_releases writer writers_state writer_inv eq_refl)
    as (l' & s' & E & _ & _ & _ & Hk).
  exists l', s'. split; [exact E|].
  destruct (Hk collA 3%positive 0 1 MODE_IX writer_held) as [_ Hh]. apply Hh. discriminate.
Defined.

Lemma release_restore_unit_witness :
  ∃ st l1, releaseWriteUnitOfWork writer writers_state = Some (st, l1) ∧
    restoreWriteUnitOfWork st l1 writers_state = Some writer.
Proof.
  destruct (release_restore_unit writer writers_state writer_inv) as (st & l1 & E & _ & _ & _ & R).
  exists st, l1. split; [exact E|exact R].
Defined.

Lemma unlock_relock_witness :
  ∃ l1, unlock collA writer writers_state = Some (false, l1, writers_state) ∧
    _lockBegin 9 false collA MODE_IS l1 writers_state = Some (AOk, writer, writers_state).
Proof.
  apply (unlock_relock writer writers_state collA 3 MODE_IX MODE_IS 9 false writer_inv writer_held);
    vm_compute; reflexivity.
Defined.

Lemma writer_holding : holding writer writers_state.
Proof.
  split; [apply writer_inv|]. intros it k r p Hit. unfold FastMap.entry_at in Hit.
  destruct it as [|[|[|it]]]; simpl in Hit; [| | |by destruct it]; injection Hit as <- <- <-;
    (eexists; split; [vm_compute; reflexivity|right; eexists; reflexivity]).
Qed.

Lemma isCollectionLockedForMode_sound_witness :
  isCollectionLockedForMode writer writers_state dbA collA MODE_IX = Some true ∧
  other_holds writer writers_state dbA collA MODE_IX ∧ compatible MODE_IX MODE_IX = true.
Proof.
  assert (isCollectionLockedForMode writer writers_state dbA collA MODE_IX = Some true) as E
    by (vm_compute; reflexivity).
  assert (other_holds writer writers_state dbA collA MODE_IX) as O.
  { exists 4%positive, 5%positive, 6%positive. do 3 eexists.
    split; [split; [vm_compute; reflexivity|right; eexists; reflexivity]|].
    split; [split; [vm_compute; reflexivity|right; eexists; reflexivity]|].
    split; [split; [vm_compute; reflexivity|right; eexists; reflexivity]|].
    split; [reflexivity|]. split; [discriminate|]. split; [reflexivity|]. split; [reflexivity|].
    intros it k r p Hit. unfold FastMap.entry_at in Hit.
    destruct it as [|[|[|it]]]; simpl in Hit; [| | |by destruct it];
      injection Hit as <- <- <-; repeat split; discriminate. }
  split; [exact E|]. split; [exact O|].
  apply (isCollectionLockedForMode_sound writer writers_state dbA collA MODE_IX MODE_IX
    (after_reachable two_writers) writer_holding eq_refl E O).
Defined.

(** ** Upgrading the global lock under a waiting exclusive request *)

(** The first operation takes the global lock in IX, the second one queues for
    X, the first one upgrades to X and drops one of its two references. *)
Definition upgrade_script : option (Locker * LMState) :=
  '(_, l1, s) ← lockGlobal (λ _ s, (LOCK_INVALID, s)) 1 false false TGot true MODE_IX (new_locker 1) initial;
  '(_, l2, s) ← _lockBegin 2 false resourceIdGlobal MODE_X (new_locker 2) s;
  '(a, l1, s) ← lockGlobal (λ _ s, (LOCK_INVALID, s)) 3 false false TGot true MODE_X l1 s;
  invariant (match a with AOk => true | _ => false end) ;;
  '(_, l1, s) ← unlock resourceIdGlobal l1 s;
  Some (l1, s).

(** The upgrade raises [compatibleFirst] on a request that is already granted, so
    the release of the last reference fails [invariant(compatibleFirstCount > 0)]. *)
Lemma upgrade_breaks_compatibleFirst :
  ∃ l s, upgrade_script = Some (l, s) ∧ getLockMode l s resourceIdGlobal = Some MODE_X ∧
    unlock resourceIdGlobal l s = None.
Proof.
  assert (match upgrade_script with
          | Some (l, s) => bool_decide (getLockMode l s resourceIdGlobal = Some MODE_X) &&
              match unlock resourceIdGlobal l s with None => true | Some _ => false end
          | None => false end = true) as T by (vm_compute; reflexivity).
  destruct upgrade_script as [[l s]|]; [|done]. apply andb_true_iff in T as [T1 T2].
  exists l, s. split; [done|]. split; [by apply bool_decide_eq_true in T1|].
  by destruct (unlock resourceIdGlobal l s).
Qed.
