(* ===== verification/OpTimes.v ===== *)
(** Positions in the oplog: src/mongo/bson/timestamp.h and
    src/mongo/db/repl/optime.h.  A [Timestamp] is a pair of 32-bit unsigned
    integers ordered lexicographically; an [OpTime] adds the 64-bit term in which
    the entry was written.  The comparison operators of [OpTime] ignore the term
    as soon as one side carries the term -1 of protocol version 0, so they form a
    total order only on the optimes that carry a term. *)
From S2P Require Import Prelude.

Module Timestamp.
Record t := mk { secs : Z; inc : Z }.

#[global] Instance t_eq_dec : EqDecision t.
Proof. solve_decision. Defined.

(** [Timestamp()]: both fields zero. *)
Definition null : t := mk 0 0.

Definition isNull (x : t) : bool := secs x =? 0.

(** The 64-bit integer [secs << 32 | i]. *)
Definition asULL (x : t) : Z := Z.lor (Z.shiftl (secs x) 32) (inc x).

(** [Timestamp(unsigned long long v)]: both halves are narrowed to 32 bits. *)
Definition ofULL (v : Z) : t := mk (Z.shiftr v 32 mod 2^32) (v mod 2^32).

(** Comparison of the tuples [(secs, i)]. *)
Definition lt (a b : t) : bool :=
  (secs a <? secs b) || ((secs a =? secs b) && (inc a <? inc b)).
Definition eqb (a b : t) : bool := (secs a =? secs b) && (inc a =? inc b).

(** Both fields fit their 32-bit type. *)
Definition wf (x : t) : Prop := 0 <= secs x < 2^32 ∧ 0 <= inc x < 2^32.

Lemma eqb_eq a b : eqb a b = true ↔ a = b.
Proof.
  destruct a, b; unfold eqb; simpl. split.
  - intros H; to_prop. congruence.
  - intros [= -> ->]. by rewrite !Z.eqb_refl.
Qed.

Lemma lt_spec a b :
  lt a b = true ↔ secs a < secs b ∨ (secs a = secs b ∧ inc a < inc b).
Proof. unfold lt. rewrite orb_true_iff, andb_true_iff, !Z.ltb_lt, Z.eqb_eq. done. Qed.

Lemma asULL_value x : wf x → asULL x = secs x * 2^32 + inc x.
Proof.
  intros [Hs Hi]. unfold asULL. rewrite Z.shiftl_mul_pow2 by lia.
  apply Z.bits_inj'. intros n Hn.
  destruct (Z.lt_ge_cases n 32) as [Hlt|Hge].
  - rewrite Z.lor_spec, Z.mul_pow2_bits_low by lia. simpl.
    rewrite <- (Z.mod_pow2_bits_low (secs x * 2^32 + inc x) 32) by lia.
    rewrite Z.add_comm, Z.mod_add by lia. by rewrite Z.mod_small.
  - rewrite Z.lor_spec, Z.mul_pow2_bits by lia.
    assert (Z.testbit (inc x) n = false) as ->.
    { rewrite <- (Z.mod_small (inc x) (2^32)) by lia. apply Z.mod_pow2_bits_high. lia. }
    rewrite orb_false_r.
    replace n with (n - 32 + 32) at 2 by lia. rewrite <- Z.div_pow2_bits by lia.
    rewrite Z.div_add_l by lia. rewrite (Z.div_small (inc x)) by lia. by rewrite Z.add_0_r.
Qed.

Lemma ofULL_asULL x : wf x → ofULL (asULL x) = x.
Proof.
  intros Hwf. pose proof Hwf as [Hs Hi]. unfold ofULL. rewrite asULL_value by done.
  rewrite Z.shiftr_div_pow2 by lia. rewrite Z.div_add_l, (Z.div_small (inc x)) by lia.
  rewrite Z.add_0_r, (Z.mod_small (secs x)) by lia.
  rewrite Z.add_comm, Z.mod_add, Z.mod_small by lia. by destruct x.
Qed.

(** The 64-bit encoding is monotone. *)
Lemma asULL_lt a b : wf a → wf b → lt a b = (asULL a <? asULL b).
Proof.
  intros Ha Hb. rewrite !asULL_value by done. destruct Ha, Hb.
  apply eq_true_iff_eq. rewrite lt_spec, Z.ltb_lt. lia.
Qed.
End Timestamp.

Module OpTime.
Record t := mk { timestamp : Timestamp.t; term : Z }.

#[global] Instance t_eq_dec : EqDecision t.
Proof. solve_decision. Defined.

Definition kUninitializedTerm : Z := -1.
Definition kInitialTerm : Z := 0.

(** The default constructor. *)
Definition null : t := mk Timestamp.null kUninitializedTerm.

(** [OpTime::max()]. *)
Definition max : t := mk (Timestamp.mk (2^32 - 1) (2^32 - 1)) (2^63 - 1).

Definition isNull (x : t) : bool := Timestamp.isNull (timestamp x).

Definition eqb (a b : t) : bool :=
  if (term a =? kUninitializedTerm) || (term b =? kUninitializedTerm) then
    Timestamp.eqb (timestamp a) (timestamp b)
  else (term a =? term b) && Timestamp.eqb (timestamp a) (timestamp b).

Definition lt (a b : t) : bool :=
  if (term a =? kUninitializedTerm) || (term b =? kUninitializedTerm) then
    Timestamp.lt (timestamp a) (timestamp b)
  else (term a <? term b)
       || ((term a =? term b) && Timestamp.lt (timestamp a) (timestamp b)).

(** The derived operators, written as the class writes them. *)
Definition neb (a b : t) : bool := negb (eqb a b).
Definition le (a b : t) : bool := lt a b || eqb a b.
Definition gt (a b : t) : bool := negb (le a b).
Definition ge (a b : t) : bool := negb (lt a b).

(** An optime of protocol version 1. *)
Definition initialized (x : t) : Prop := term x ≠ kUninitializedTerm.

#[global] Instance initialized_dec x : Decision (initialized x).
Proof. unfold initialized. apply _. Defined.

Lemma initialized_test a b :
  initialized a → initialized b →
  (term a =? kUninitializedTerm) || (term b =? kUninitializedTerm) = false.
Proof. unfold initialized. intros. apply orb_false_iff. split; by apply Z.eqb_neq. Qed.

Lemma eqb_init a b : initialized a → initialized b → eqb a b = true ↔ a = b.
Proof.
  intros Ha Hb. unfold eqb. rewrite initialized_test by done.
  rewrite andb_true_iff, Z.eqb_eq, Timestamp.eqb_eq. destruct a, b; simpl.
  split; [intros [-> ->]; done | by intros [= -> ->]].
Qed.

(** The position of an optime as one tuple of integers. *)
Lemma lt_init a b : initialized a → initialized b →
  lt a b = true ↔
  term a < term b ∨ (term a = term b ∧ Timestamp.lt (timestamp a) (timestamp b) = true).
Proof.
  intros Ha Hb. unfold lt. rewrite initialized_test by done.
  by rewrite orb_true_iff, andb_true_iff, Z.ltb_lt, Z.eqb_eq.
Qed.

Lemma lt_irrefl a : lt a a = false.
Proof.
  apply not_true_iff_false. unfold lt.
  assert (Timestamp.lt (timestamp a) (timestamp a) ≠ true) as Hn
    by (rewrite Timestamp.lt_spec; lia).
  destruct (_ || _); [done|].
  rewrite orb_true_iff, andb_true_iff, Z.ltb_lt, Z.eqb_eq. intuition lia.
Qed.

Lemma eqb_refl a : eqb a a = true.
Proof.
  unfold eqb. assert (Timestamp.eqb (timestamp a) (timestamp a) = true) as -> by
    by apply Timestamp.eqb_eq. rewrite Z.eqb_refl. by destruct (_ || _).
Qed.

Lemma le_refl a : le a a = true.
Proof. unfold le. by rewrite eqb_refl, orb_true_r. Qed.

Lemma lt_trans a b c :
  initialized a → initialized b → initialized c →
  lt a b = true → lt b c = true → lt a c = true.
Proof. intros Ha Hb Hc. rewrite !lt_init, !Timestamp.lt_spec by done. lia. Qed.

Lemma lt_total a b :
  initialized a → initialized b → lt a b = false → lt b a = false → a = b.
Proof.
  intros Ha Hb. rewrite <- !not_true_iff_false, !lt_init, !Timestamp.lt_spec by done.
  destruct a as [[s i] t], b as [[s' i'] t']; simpl. intros H1 H2.
  assert (t = t') as -> by lia. assert (s = s') as -> by lia.
  by assert (i = i') as -> by lia.
Qed.

Lemma lt_asym a b : lt a b = true → lt b a = false.
Proof.
  unfold lt. rewrite (orb_comm (term b =? _)). destruct (_ || _);
  rewrite <- not_true_iff_false, ?orb_true_iff, ?andb_true_iff, ?Z.ltb_lt, ?Z.eqb_eq,
    !Timestamp.lt_spec; lia.
Qed.

(** [a <= b] and [!(b < a)] agree, whatever the terms. *)
Lemma le_ge a b : le a b = negb (lt b a).
Proof.
  unfold le, lt, eqb. rewrite (orb_comm (term b =? _)).
  apply eq_true_iff_eq.
  destruct ((term a =? _) || _).
  - rewrite negb_true_iff, <- not_true_iff_false, orb_true_iff, !Timestamp.lt_spec,
      Timestamp.eqb_eq.
    destruct (timestamp a) as [s i], (timestamp b) as [s' i']; simpl. split.
    + intros [?|[= -> ->]]; lia.
    + intros ?. destruct (decide (s = s')) as [->|], (decide (i = i')) as [->|];
      [by right|left;lia..].
  - rewrite negb_true_iff, <- not_true_iff_false, !orb_true_iff, !andb_true_iff,
      !Timestamp.lt_spec, !Z.ltb_lt, !Z.eqb_eq, Timestamp.eqb_eq.
    destruct (timestamp a) as [s i], (timestamp b) as [s' i']; simpl. split.
    + intros [?|[? [= -> ->]]]; lia.
    + intros ?. destruct (decide (s = s')) as [->|], (decide (i = i')) as [->|];
      [|left;lia..].
      destruct (decide (term a = term b)); [by right|left; lia].
Qed.

Lemma le_trans a b c :
  initialized a → initialized b → initialized c →
  le a b = true → le b c = true → le a c = true.
Proof.
  intros Ha Hb Hc. unfold le. rewrite !orb_true_iff, !eqb_init by done.
  intros [?| ->] [?| ->]; eauto using lt_trans.
Qed.

Lemma le_antisym a b :
  initialized a → initialized b → le a b = true → le b a = true → a = b.
Proof. intros Ha Hb. rewrite !le_ge, !negb_true_iff. eauto using lt_total. Qed.

Lemma le_lt_trans a b c :
  initialized a → initialized b → initialized c →
  le a b = true → lt b c = true → lt a c = true.
Proof.
  intros Ha Hb Hc. unfold le. rewrite orb_true_iff, eqb_init by done.
  intros [?| ->]; eauto using lt_trans.
Qed.

(** Whatever the terms, an optime compared with [null] only shows its timestamp. *)
Lemma le_null x : Timestamp.wf (timestamp x) → le null x = true.
Proof.
  intros [Hs Hi]. rewrite le_ge, negb_true_iff, <- not_true_iff_false.
  unfold lt. simpl. rewrite orb_true_r, Timestamp.lt_spec. simpl. lia.
Qed.

(** The optimes a member can report: the null one, or one with a term and a time
    past zero.  Among these the comparison is one total order as well, with the
    null optime below all others. *)
Definition regular (x : t) : Prop :=
  x = null ∨ (0 <= term x ∧ Timestamp.lt Timestamp.null (timestamp x) = true).

Lemma lt_regular a b : regular a → regular b →
  lt a b = true ↔
  term a < term b ∨ (term a = term b ∧ Timestamp.lt (timestamp a) (timestamp b) = true).
Proof.
  intros Ha Hb. destruct (decide (initialized a)) as [Ia|Ia], (decide (initialized b)) as [Ib|Ib].
  - by apply lt_init.
  - destruct Hb as [->|[Hb _]]; [|unfold initialized, kUninitializedTerm in Ib; lia].
    destruct Ha as [->|[Ha Ht]]; [done|].
    unfold lt. rewrite orb_true_r. rewrite Timestamp.lt_spec in Ht.
    rewrite !Timestamp.lt_spec. unfold null, Timestamp.null, kUninitializedTerm in *. simpl in *. lia.
  - destruct Ha as [->|[Ha _]]; [|unfold initialized, kUninitializedTerm in Ia; lia].
    destruct Hb as [->|[Hb Ht]]; [done|].
    unfold lt. rewrite Timestamp.lt_spec in Ht. simpl. rewrite !Timestamp.lt_spec.
    unfold null, Timestamp.null, kUninitializedTerm in *. simpl in *. lia.
  - destruct Ha as [->|[Ha _]]; [|unfold initialized, kUninitializedTerm in Ia; lia].
    destruct Hb as [->|[Hb _]]; [|unfold initialized, kUninitializedTerm in Ib; lia].
    unfold lt. rewrite orb_true_r, Timestamp.lt_spec. lia.
Qed.

Lemma lt_trans_regular a b c :
  regular a → regular b → regular c → lt a b = true → lt b c = true → lt a c = true.
Proof. intros Ha Hb Hc. rewrite !lt_regular, !Timestamp.lt_spec by done. lia. Qed.

Lemma ge_trans_regular a b c :
  regular a → regular b → regular c → ge a b = true → ge b c = true → ge a c = true.
Proof.
  intros Ha Hb Hc. unfold ge. rewrite !negb_true_iff, <- !not_true_iff_false.
  rewrite !lt_regular, !Timestamp.lt_spec by done. lia.
Qed.

Lemma le_lt_trans_regular a b c :
  regular a → regular b → regular c → lt b a = false → lt b c = true → lt a c = true.
Proof.
  intros Ha Hb Hc. rewrite <- not_true_iff_false.
  rewrite !lt_regular, !Timestamp.lt_spec by done. lia.
Qed.

Lemma lt_le_trans_regular a b c :
  regular a → regular b → regular c → lt a b = true → lt c b = false → lt a c = true.
Proof.
  intros Ha Hb Hc. rewrite <- not_true_iff_false.
  rewrite !lt_regular, !Timestamp.lt_spec by done. lia.
Qed.

Lemma null_least a : regular a → lt a null ≠ true.
Proof.
  intros Ha. rewrite lt_regular by (done || by left). rewrite Timestamp.lt_spec.
  destruct Ha as [->|[Ht Hs]]; [lia|]. rewrite Timestamp.lt_spec in Hs.
  unfold null, Timestamp.null, kUninitializedTerm in *. simpl in *. lia.
Qed.

#[export] Hint Resolve le_refl lt_trans le_trans le_lt_trans : mongo.

(** On optimes that carry a term, the operators [<], [<=], [==] of optime.h
    form a strict total order with its reflexive closure and Leibniz equality:
    transitive, irreflexive, total, antisymmetric, ordered by term first; and
    [>], [>=] are their mirror images. *)
Theorem optime_total_order (a b c : t)
    (Ha : initialized a) (Hb : initialized b) (Hc : initialized c) :
  (lt a b = true → lt b c = true → lt a c = true) ∧
  (le a b = true → le b c = true → le a c = true) ∧
  (le a b = true ∨ le b a = true) ∧
  (le a b = true → le b a = true → a = b) ∧
  (eqb a b = true ↔ a = b) ∧
  (lt a b = true ↔ le a b = true ∧ a ≠ b) ∧
  gt a b = lt b a ∧ ge a b = le b a ∧
  (term a < term b → lt a b = true).
Proof.
  split_and!; eauto using lt_trans, le_trans, le_antisym.
  - rewrite !le_ge, !negb_true_iff. destruct (lt b a) eqn:E; [right|by left].
    by apply lt_asym.
  - by apply eqb_init.
  - unfold le. rewrite orb_true_iff, eqb_init by done. split.
    + intros H. split; [by left|]. intros ->. by rewrite lt_irrefl in H.
    + by intros [[?| ->] ?].
  - unfold gt. by rewrite le_ge, negb_involutive.
  - unfold ge. by rewrite le_ge.
  - intros H. apply lt_init; auto.
Qed.

Lemma optime_total_order_witness :
  let a := mk (Timestamp.mk 100 1) 3 in
  let b := mk (Timestamp.mk 99 7) 4 in
  let c := mk (Timestamp.mk 120 0) 4 in
  lt a b = true ∧ lt b c = true ∧ lt a c = true.
Proof.
  intros a b c.
  assert (lt a b = true) as H1 by reflexivity. assert (lt b c = true) as H2 by reflexivity.
  split; [done|]. split; [done|].
  exact (proj1 (optime_total_order a b c ltac:(vm_compute; discriminate)
    ltac:(vm_compute; discriminate) ltac:(vm_compute; discriminate)) H1 H2).
Defined.

(** Without terms on one side the comparison falls back to timestamps, and the
    relation is no longer transitive. *)
Lemma lt_not_transitive_across_versions :
  ∃ a b c, lt a b = true ∧ lt b c = true ∧ lt c a = true.
Proof.
  exists (mk (Timestamp.mk 5 0) 1), (mk (Timestamp.mk 7 0) (-1)), (mk (Timestamp.mk 9 0) 0).
  done.
Qed.
End OpTime.

Module OpTimeAndWallTime.
(** Wall clock times are [Date_t]: milliseconds since the epoch, [Date_t()] is 0. *)
Record t := mk { opTime : OpTime.t; wallTime : Z }.

#[global] Instance t_eq_dec : EqDecision t.
Proof. solve_decision. Defined.

Definition null : t := mk OpTime.null 0.

Definition eqb (a b : t) : bool :=
  OpTime.eqb (opTime a) (opTime b) && (wallTime a =? wallTime b).

(** The wall clock does not take part in the order. *)
Definition lt (a b : t) : bool := OpTime.lt (opTime a) (opTime b).
End OpTimeAndWallTime.
