(* ===== verification/ReplSetTag.v ===== *)
(** Tags of replica set members: src/mongo/db/repl/repl_set_tag.{h,cpp}.  A tag is
    a pair of indices into the set's table of keys and values ([ReplSetTagConfig]);
    a pattern is a list of constraints "at least [minCount] distinct values under
    this key"; a match object is fed the tags of the members that satisfy some
    condition and says when all constraints hold. *)
From S2P Require Import Prelude.

(** First index, from [i] on, of an element that satisfies [p]; the length when
    there is none (the loops that [break] at the first hit). *)
Fixpoint find_index_from {A} (p : A → bool) (i : Z) (l : list A) : Z :=
  match l with
  | [] => i
  | x :: l' => if p x then i else find_index_from p (i + 1) l'
  end.

Module ReplSetTag.
Record t := mk { keyIndex : Z; valueIndex : Z }.

#[global] Instance t_eq_dec : EqDecision t.
Proof. solve_decision. Defined.

Definition isValid (x : t) : bool := 0 <=? keyIndex x.
Definition eqb (a b : t) : bool :=
  (keyIndex a =? keyIndex b) && (valueIndex a =? valueIndex b).
End ReplSetTag.

Module ReplSetTagPattern.
Record TagCountConstraint := mkC { cKey : Z; minCount : Z }.
(** [_constraints]. *)
Abbreviation t := (list TagCountConstraint).

(** One constraint per key; a larger count replaces a smaller one in place. *)
Fixpoint addTagCountConstraint (p : t) (keyIndex count : Z) : t :=
  match p with
  | [] => [mkC keyIndex count]
  | x :: p' =>
      if keyIndex =? cKey x then
        (if minCount x <? count then mkC keyIndex count else x) :: p'
      else x :: addTagCountConstraint p' keyIndex count
  end.
End ReplSetTagPattern.

Module ReplSetTagMatch.
Import ReplSetTagPattern.

Record BoundTagValue := mkB { constraint : TagCountConstraint; boundValues : list Z }.
(** [_boundTagValues]. *)
Abbreviation t := (list BoundTagValue).

Definition ofPattern (p : ReplSetTagPattern.t) : t := (λ c, mkB c []) <$> p.

Definition boundSatisfied (b : BoundTagValue) : bool :=
  minCount (constraint b) <=? Z.of_nat (length (boundValues b)).

Definition isSatisfied (m : t) : bool := forallb boundSatisfied m.

(** The value is added to the first entry with the tag's key, once. *)
Fixpoint bindTag (m : t) (tag : ReplSetTag.t) : t :=
  match m with
  | [] => []
  | b :: m' =>
      if ReplSetTag.keyIndex tag =? cKey (constraint b) then
        (if existsb (Z.eqb (ReplSetTag.valueIndex tag)) (boundValues b) then b
         else mkB (constraint b) (boundValues b ++ [ReplSetTag.valueIndex tag])) :: m'
      else b :: bindTag m' tag
  end.

(** [update(tag)]: the new state, and whether the pattern is satisfied now. *)
Definition update (m : t) (tag : ReplSetTag.t) : t * bool :=
  let m' := bindTag m tag in (m', isSatisfied m').

(** The loop of the callers: feed tags until one completes the pattern. *)
Fixpoint updateUntil (m : t) (tags : list ReplSetTag.t) : bool * t :=
  match tags with
  | [] => (false, m)
  | tg :: tags' =>
      let '(m', done) := update m tg in
      if done then (true, m') else updateUntil m' tags'
  end.
End ReplSetTagMatch.

Module ReplSetTagConfig.
(** [_tagData]: keys with their values, both in order of first use. *)
Abbreviation t := (list (string * list string)).

Definition _findKeyIndex (c : t) (key : string) : Z :=
  find_index_from (λ e, bool_decide (e.1 = key)) 0 c.

(** [makeTag]: finds or creates the key, then finds or creates the value. *)
Definition makeTag (c : t) (key value : string) : t * ReplSetTag.t :=
  let keyIndex := _findKeyIndex c key in
  let c := if keyIndex =? Z.of_nat (length c) then c ++ [(key, [])] else c in
  match c !! Z.to_nat keyIndex with
  | None => (c, ReplSetTag.mk keyIndex 0)
  | Some (k, values) =>
      let valueIndex := find_index_from (λ v, bool_decide (v = value)) 0 values in
      if valueIndex <? Z.of_nat (length values) then (c, ReplSetTag.mk keyIndex valueIndex)
      else (<[Z.to_nat keyIndex := (k, values ++ [value])]> c,
            ReplSetTag.mk keyIndex (Z.of_nat (length (values ++ [value])) - 1))
  end.

Definition findTag (c : t) (key value : string) : ReplSetTag.t :=
  let keyIndex := _findKeyIndex c key in
  match c !! Z.to_nat keyIndex with
  | None => ReplSetTag.mk (-1) (-1)
  | Some (_, values) =>
      let valueIndex := find_index_from (λ v, bool_decide (v = value)) 0 values in
      if valueIndex <? Z.of_nat (length values) then ReplSetTag.mk keyIndex valueIndex
      else ReplSetTag.mk (-1) (-1)
  end.

(** [None]: the status [NoSuchKey]. *)
Definition addTagCountConstraintToPattern (c : t) (pattern : ReplSetTagPattern.t)
    (tagKey : string) (minCount : Z) : option ReplSetTagPattern.t :=
  let keyIndex := _findKeyIndex c tagKey in
  if keyIndex =? Z.of_nat (length c) then None
  else Some (ReplSetTagPattern.addTagCountConstraint pattern keyIndex minCount).

Definition getTagKey (c : t) (tag : ReplSetTag.t) : option string :=
  invariant (ReplSetTag.isValid tag
             && (ReplSetTag.keyIndex tag <? Z.of_nat (length c))) ;;
  fst <$> c !! Z.to_nat (ReplSetTag.keyIndex tag).

Definition getTagValue (c : t) (tag : ReplSetTag.t) : option string :=
  invariant (ReplSetTag.isValid tag
             && (ReplSetTag.keyIndex tag <? Z.of_nat (length c))) ;;
  e ← c !! Z.to_nat (ReplSetTag.keyIndex tag);
  invariant ((0 <=? ReplSetTag.valueIndex tag)
             && (ReplSetTag.valueIndex tag <? Z.of_nat (length e.2))) ;;
  e.2 !! Z.to_nat (ReplSetTag.valueIndex tag).
End ReplSetTagConfig.

(** ** The linear searches *)

Section FindIndex.
Context {A : Type} (p : A → bool).

Lemma find_index_from_bounds i l :
  i <= find_index_from p i l <= i + Z.of_nat (length l).
Proof. revert i. induction l as [|x l IH]; intros i; simpl; [lia|].
  destruct (p x); [lia|]. specialize (IH (i + 1)). lia. Qed.

Lemma find_index_from_shift i l :
  find_index_from p i l = i + find_index_from p 0 l.
Proof.
  revert i. induction l as [|x l IH]; intros i; simpl; [lia|].
  destruct (p x); [lia|]. rewrite (IH (i + 1)), (IH (0 + 1)). lia.
Qed.

(** A hit is an element that satisfies the predicate. *)
Lemma find_index_hit l :
  find_index_from p 0 l < Z.of_nat (length l) →
  ∃ x, l !! Z.to_nat (find_index_from p 0 l) = Some x ∧ p x = true.
Proof.
  induction l as [|x l IH]; simpl; [lia|].
  destruct (p x) eqn:E; [by exists x|].
  rewrite (find_index_from_shift (0 + 1)). intros H.
  pose proof (find_index_from_bounds 0 l).
  replace (Z.to_nat (0 + 1 + find_index_from p 0 l))
    with (S (Z.to_nat (find_index_from p 0 l))) by lia.
  simpl. apply IH. lia.
Qed.

(** No hit: the predicate fails everywhere. *)
Lemma find_index_miss l :
  find_index_from p 0 l = Z.of_nat (length l) → ∀ x, x ∈ l → p x = false.
Proof.
  induction l as [|x l IH]; simpl; [set_solver|].
  destruct (p x) eqn:E; [lia|].
  rewrite (find_index_from_shift (0 + 1)). intros H y Hy.
  apply elem_of_cons in Hy as [->|Hy]; [done|]. apply IH; [lia|done].
Qed.

Lemma find_index_app_hit l l' :
  find_index_from p 0 l < Z.of_nat (length l) →
  find_index_from p 0 (l ++ l') = find_index_from p 0 l.
Proof.
  induction l as [|x l IH]; simpl; [lia|]. destruct (p x); [done|].
  rewrite !(find_index_from_shift (0 + 1)). intros. rewrite IH; lia.
Qed.

Lemma find_index_app_miss l l' :
  find_index_from p 0 l = Z.of_nat (length l) →
  find_index_from p 0 (l ++ l') = Z.of_nat (length l) + find_index_from p 0 l'.
Proof.
  induction l as [|x l IH]; simpl; [lia|]. destruct (p x); [lia|].
  rewrite !(find_index_from_shift (0 + 1)). intros. rewrite IH; lia.
Qed.

(** Replacing the hit by another hit does not move it. *)
Lemma find_index_insert l y :
  find_index_from p 0 l < Z.of_nat (length l) → p y = true →
  find_index_from p 0 (<[Z.to_nat (find_index_from p 0 l) := y]> l)
  = find_index_from p 0 l.
Proof.
  induction l as [|x l IH]; simpl; [lia|]. intros H Hy. destruct (p x) eqn:E.
  - simpl. by rewrite Hy.
  - rewrite (find_index_from_shift (0 + 1)) in *.
    pose proof (find_index_from_bounds 0 l).
    replace (Z.to_nat (0 + 1 + find_index_from p 0 l))
      with (S (Z.to_nat (find_index_from p 0 l))) by lia.
    simpl. rewrite E, find_index_from_shift, IH; [lia|lia|done].
Qed.
End FindIndex.

(** ** Matching counts distinct values *)

Module TagMatchFacts.
Import ReplSetTagPattern ReplSetTagMatch.

(** The values under a key among the tags fed so far. *)
Definition taggedValues (key : Z) (tags : list ReplSetTag.t) : gset Z :=
  list_to_set (ReplSetTag.valueIndex <$> filter (λ tg, ReplSetTag.keyIndex tg = key) tags).

(** What a pattern asks of a collection of tags. *)
Definition patternHolds (p : ReplSetTagPattern.t) (tags : list ReplSetTag.t) : Prop :=
  ∀ c, c ∈ p → minCount c <= Z.of_nat (size (taggedValues (cKey c) tags)).

(** The state of one entry after the tags [seen]. *)
Definition entryOk (seen : list ReplSetTag.t) (b : BoundTagValue)
    (c : TagCountConstraint) : Prop :=
  constraint b = c ∧ NoDup (boundValues b) ∧
  list_to_set (boundValues b) = taggedValues (cKey c) seen.

Lemma taggedValues_snoc_eq key seen tg :
  ReplSetTag.keyIndex tg = key →
  taggedValues key (seen ++ [tg])
  = taggedValues key seen ∪ {[ ReplSetTag.valueIndex tg ]}.
Proof.
  intros H. unfold taggedValues. rewrite filter_app, fmap_app, list_to_set_app_L.
  rewrite filter_cons_True by done. simpl. set_solver.
Qed.

Lemma taggedValues_snoc_ne key seen tg :
  ReplSetTag.keyIndex tg ≠ key → taggedValues key (seen ++ [tg]) = taggedValues key seen.
Proof.
  intros H. unfold taggedValues. rewrite filter_app, filter_cons_False by done.
  by rewrite filter_nil, app_nil_r.
Qed.

Lemma existsb_eqb v (l : list Z) : existsb (Z.eqb v) l = bool_decide (v ∈ l).
Proof.
  apply eq_true_iff_eq. rewrite existsb_exists, bool_decide_eq_true. split.
  - intros (x & Hx & E%Z.eqb_eq). subst. by apply list_elem_of_In.
  - intros H. exists v. split; [by apply list_elem_of_In|apply Z.eqb_refl].
Qed.

Lemma entries_ne seen tg m p :
  (∀ c, c ∈ p → cKey c ≠ ReplSetTag.keyIndex tg) →
  Forall2 (entryOk seen) m p → Forall2 (entryOk (seen ++ [tg])) m p.
Proof.
  intros Hk H. induction H as [|b c m p (Hc & Hnd & Hs) H IH]; constructor.
  - split_and!; [done|done|]. rewrite taggedValues_snoc_ne; [done|].
    intros E. by apply (Hk c); [apply list_elem_of_here|].
  - apply IH. intros c' Hc'. apply Hk. by apply list_elem_of_further.
Qed.

Lemma bindTag_ok seen tg m p :
  NoDup (cKey <$> p) → Forall2 (entryOk seen) m p →
  Forall2 (entryOk (seen ++ [tg])) (bindTag m tg) p.
Proof.
  intros Hnd H. induction H as [|b c m p (Hc & Hb & Hs) H IH]; [constructor|].
  rewrite fmap_cons in Hnd. apply NoDup_cons in Hnd as [Hn Hnd]. simpl. subst c.
  destruct (Z.eqb_spec (ReplSetTag.keyIndex tg) (cKey (constraint b))) as [E|E].
  - constructor.
    + rewrite existsb_eqb. case_bool_decide as Hv.
      * split_and!; [done|done|]. rewrite taggedValues_snoc_eq, <- Hs by done. set_solver.
      * split_and!; simpl; [done| |].
        { apply NoDup_app. split_and!; [done|set_solver|apply NoDup_singleton]. }
        rewrite taggedValues_snoc_eq, <- Hs by done. set_solver.
    + apply entries_ne; [|done]. intros c Hc E'. apply Hn. rewrite <- E, <- E'.
      by apply list_elem_of_fmap_2.
  - constructor; [|by apply IH].
    split_and!; [done|done|]. by rewrite taggedValues_snoc_ne.
Qed.

Lemma ofPattern_ok p : Forall2 (entryOk []) (ofPattern p) p.
Proof.
  induction p as [|c p IH]; simpl; constructor; [|done].
  split_and!; [done|constructor|done].
Qed.

Lemma satisfied_spec seen m p :
  Forall2 (entryOk seen) m p → isSatisfied m = true ↔ patternHolds p seen.
Proof.
  unfold patternHolds. induction 1 as [|b c m p (Hc & Hb & Hs) H IH]; simpl.
  - split; [|done]. intros _ c Hc. by apply elem_of_nil in Hc.
  - subst c. rewrite andb_true_iff, IH. unfold boundSatisfied at 1. rewrite Z.leb_le.
    rewrite <- (size_list_to_set (C := gset Z) (boundValues b)) by done. rewrite Hs.
    split.
    + intros [H1 H2] c [->|Hc]%elem_of_cons; auto.
    + intros Hall. split; [apply Hall; by left|].
      intros c Hc. apply Hall. by apply list_elem_of_further.
Qed.

Lemma feed_ok p tags seen m :
  NoDup (cKey <$> p) → Forall2 (entryOk seen) m p →
  Forall2 (entryOk (seen ++ tags)) (foldl bindTag m tags) p.
Proof.
  intros Hnd. revert seen m. induction tags as [|tg tags IH]; intros seen m H; simpl.
  - by rewrite app_nil_r.
  - replace (seen ++ tg :: tags) with ((seen ++ [tg]) ++ tags) by by rewrite <- app_assoc.
    apply IH. by apply bindTag_ok.
Qed.

Lemma taggedValues_mono key tags tags' :
  taggedValues key tags ⊆ taggedValues key (tags ++ tags').
Proof. unfold taggedValues. rewrite filter_app, fmap_app, list_to_set_app_L. set_solver. Qed.

Lemma patternHolds_mono p tags tags' :
  patternHolds p tags → patternHolds p (tags ++ tags').
Proof.
  intros H c Hc. specialize (H c Hc).
  pose proof (subseteq_size _ _ (taggedValues_mono (cKey c) tags tags')). lia.
Qed.

Lemma updateUntil_spec p tags seen m :
  NoDup (cKey <$> p) → Forall2 (entryOk seen) m p →
  (updateUntil m tags).1 = true ↔ tags ≠ [] ∧ patternHolds p (seen ++ tags).
Proof.
  intros Hnd. revert seen m. induction tags as [|tg tags IH]; intros seen m H; simpl.
  - split; [done|]. by intros [? _].
  - pose proof (bindTag_ok seen tg m p Hnd H) as H'.
    replace (seen ++ tg :: tags) with ((seen ++ [tg]) ++ tags) by by rewrite <- app_assoc.
    destruct (isSatisfied (bindTag m tg)) eqn:E.
    + apply (satisfied_spec _ _ _ H') in E. split; [|done]. intros _.
      split; [done|]. by apply patternHolds_mono.
    + rewrite (IH _ _ H'). split; [by intros [_ ?]|]. intros [_ Hp]. split; [|done].
      intros ->. rewrite app_nil_r in Hp. apply (satisfied_spec _ _ _ H') in Hp. congruence.
Qed.

Lemma addTagCountConstraint_keys p k n :
  (cKey <$> addTagCountConstraint p k n)
  = if decide (k ∈ cKey <$> p) then cKey <$> p else (cKey <$> p) ++ [k].
Proof.
  induction p as [|x p IH]; [done|]. cbn [addTagCountConstraint].
  destruct (Z.eqb_spec k (cKey x)) as [->|Hk].
  - rewrite decide_True by (rewrite fmap_cons; apply list_elem_of_here).
    by destruct (minCount x <? n).
  - rewrite !fmap_cons, IH. case_decide as H; case_decide as H'; try done.
    + exfalso. apply H'. by apply list_elem_of_further.
    + apply elem_of_cons in H' as [?|?]; done.
Qed.

Lemma addTagCountConstraint_NoDup p k n :
  NoDup (cKey <$> p) → NoDup (cKey <$> addTagCountConstraint p k n).
Proof.
  intros H. rewrite addTagCountConstraint_keys. case_decide; [done|].
  apply NoDup_app. split_and!; [done|set_solver|apply NoDup_singleton].
Qed.

(** A tag match fed with any sequence of tags is satisfied exactly when every
    constraint of its pattern sees at least its count of distinct values under
    its key, whatever order and repetition the tags come in; and the loop that
    stops at the first satisfying tag gives the same answer as feeding all of
    them. *)
Theorem match_counts_distinct (p : ReplSetTagPattern.t) (tags : list ReplSetTag.t)
    (Hkeys : NoDup (cKey <$> p)) :
  (isSatisfied (foldl bindTag (ofPattern p) tags) = true ↔ patternHolds p tags) ∧
  ((updateUntil (ofPattern p) tags).1 = true ↔ tags ≠ [] ∧ patternHolds p tags).
Proof.
  split.
  - apply satisfied_spec. apply (feed_ok p tags []); [done|]. apply ofPattern_ok.
  - apply (updateUntil_spec p tags []); [done|]. apply ofPattern_ok.
Qed.

Lemma match_counts_distinct_witness :
  let p := addTagCountConstraint (addTagCountConstraint [] 0 2) 1 1 in
  let tags := [ReplSetTag.mk 0 3; ReplSetTag.mk 0 3; ReplSetTag.mk 1 0; ReplSetTag.mk 0 4] in
  patternHolds p tags ∧ (updateUntil (ofPattern p) (take 3 tags)).1 = false.
Proof.
  intros p tags. split; [|reflexivity].
  apply (match_counts_distinct p tags); [|reflexivity].
  apply (bool_decide_eq_true_1 (NoDup (cKey <$> p))). reflexivity.
Defined.
End TagMatchFacts.

(** ** The tag table *)

Module TagConfigFacts.
Import ReplSetTagConfig.

(** [c] extends to [c'] without moving a key or a value. *)
Definition extends (c c' : t) : Prop :=
  ∀ i k vs, c !! i = Some (k, vs) → ∃ vs', c' !! i = Some (k, vs ++ vs').

Lemma getTagKey_spec c tag k :
  getTagKey c tag = Some k ↔
  0 <= ReplSetTag.keyIndex tag ∧ ∃ vs, c !! Z.to_nat (ReplSetTag.keyIndex tag) = Some (k, vs).
Proof.
  unfold getTagKey, ReplSetTag.isValid. split.
  - intros H. destruct (_ && _) eqn:E; [|done]. to_prop. split; [done|].
    destruct (c !! _) as [[k' vs]|] eqn:El; simplify_eq/=. by exists vs.
  - intros [Hk [vs E]]. pose proof (lookup_lt_Some _ _ _ E).
    assert ((0 <=? ReplSetTag.keyIndex tag) = true) as -> by by apply Z.leb_le.
    assert ((ReplSetTag.keyIndex tag <? Z.of_nat (length c)) = true) as -> by (apply Z.ltb_lt; lia).
    simpl. by rewrite E.
Qed.

Lemma getTagValue_spec c tag v :
  getTagValue c tag = Some v ↔
  0 <= ReplSetTag.keyIndex tag ∧ 0 <= ReplSetTag.valueIndex tag ∧
  ∃ k vs, c !! Z.to_nat (ReplSetTag.keyIndex tag) = Some (k, vs)
          ∧ vs !! Z.to_nat (ReplSetTag.valueIndex tag) = Some v.
Proof.
  unfold getTagValue, ReplSetTag.isValid. split.
  - intros H. destruct (_ && _) eqn:E; [|done]. to_prop.
    destruct (c !! _) as [[k' vs]|] eqn:El; simpl in H; [|done].
    destruct (_ && _) eqn:E; [|done]. to_prop. split_and!; [done..|]. by exists k', vs.
  - intros (Hk & Hv & k & vs & E & Ev). pose proof (lookup_lt_Some _ _ _ E).
    pose proof (lookup_lt_Some _ _ _ Ev).
    assert ((0 <=? ReplSetTag.keyIndex tag) = true) as -> by by apply Z.leb_le.
    assert ((ReplSetTag.keyIndex tag <? Z.of_nat (length c)) = true) as -> by (apply Z.ltb_lt; lia).
    simpl. rewrite E. simpl.
    assert ((0 <=? ReplSetTag.valueIndex tag) = true) as -> by by apply Z.leb_le.
    by assert ((ReplSetTag.valueIndex tag <? Z.of_nat (length vs)) = true) as -> by (apply Z.ltb_lt; lia).
Qed.

(** The table after the key has been found or created. *)
Definition ensureKey (c : t) (key : string) : t :=
  if _findKeyIndex c key =? Z.of_nat (length c) then c ++ [(key, [])] else c.

Lemma extends_refl c : extends c c.
Proof. intros i k vs H. exists []. by rewrite app_nil_r. Qed.

Lemma extends_trans c1 c2 c3 : extends c1 c2 → extends c2 c3 → extends c1 c3.
Proof.
  intros H1 H2 i k vs H. destruct (H1 _ _ _ H) as [vs1 E1].
  destruct (H2 _ _ _ E1) as [vs2 E2]. exists (vs1 ++ vs2). by rewrite app_assoc.
Qed.

Lemma key_of_hit c key :
  _findKeyIndex c key < Z.of_nat (length c) →
  ∃ vs, c !! Z.to_nat (_findKeyIndex c key) = Some (key, vs).
Proof.
  intros [[k vs] [E Ek%bool_decide_eq_true]]%find_index_hit. simpl in Ek. subst k. by exists vs.
Qed.

Lemma ensureKey_spec c key :
  _findKeyIndex (ensureKey c key) key = _findKeyIndex c key ∧
  0 <= _findKeyIndex c key < Z.of_nat (length (ensureKey c key)) ∧
  extends c (ensureKey c key).
Proof.
  unfold ensureKey. pose proof (find_index_from_bounds (λ e : string * list string,
    bool_decide (e.1 = key)) 0 c) as Hb. fold (_findKeyIndex c key) in Hb.
  destruct (Z.eqb_spec (_findKeyIndex c key) (Z.of_nat (length c))) as [E|E].
  - rewrite length_app. simpl. split_and!; [|lia|lia|].
    + unfold _findKeyIndex at 1. rewrite find_index_app_miss by done. simpl.
      rewrite bool_decide_true by done. lia.
    + intros i k vs H. exists []. rewrite app_nil_r.
      rewrite lookup_app_l; [done|]. by eapply lookup_lt_Some.
  - split_and!; [done|lia|lia|apply extends_refl].
Qed.

Lemma getTag_extends c c' old k v :
  extends c c' → getTagKey c old = Some k → getTagValue c old = Some v →
  getTagKey c' old = Some k ∧ getTagValue c' old = Some v.
Proof.
  intros Hx [Hk [vs E]]%getTagKey_spec (_ & Hv & k' & vs' & E' & Ev)%getTagValue_spec.
  rewrite E in E'. injection E' as <- <-.
  destruct (Hx _ _ _ E) as [ws E']. split.
  - apply getTagKey_spec. eauto.
  - apply getTagValue_spec. split_and!; [done|done|]. eexists _, _. split; [done|].
    by apply lookup_app_l_Some.
Qed.

(** A tag whose entry is the hit of both searches is the one [findTag] returns. *)
Lemma findTag_hit c key value vs :
  c !! Z.to_nat (_findKeyIndex c key) = Some (key, vs) →
  find_index_from (λ v, bool_decide (v = value)) 0 vs < Z.of_nat (length vs) →
  findTag c key value
  = ReplSetTag.mk (_findKeyIndex c key)
      (find_index_from (λ v, bool_decide (v = value)) 0 vs).
Proof. intros E H. unfold findTag. rewrite E. apply Z.ltb_lt in H. by rewrite H. Qed.

Lemma makeTag_hit c key value vs :
  _findKeyIndex c key < Z.of_nat (length c) →
  c !! Z.to_nat (_findKeyIndex c key) = Some (key, vs) →
  find_index_from (λ v, bool_decide (v = value)) 0 vs < Z.of_nat (length vs) →
  makeTag c key value = (c, findTag c key value).
Proof.
  intros Hl E H. rewrite (findTag_hit _ _ _ vs) by done. unfold makeTag.
  assert ((_findKeyIndex c key =? Z.of_nat (length c)) = false) as -> by (apply Z.eqb_neq; lia).
  rewrite E. apply Z.ltb_lt in H. by rewrite H.
Qed.

(** What [makeTag] builds: the searches of both indices hit in the new table. *)
Lemma makeTag_spec c key value :
  let '(c', tag) := makeTag c key value in
  ∃ vs, extends c c' ∧
    0 <= _findKeyIndex c' key < Z.of_nat (length c') ∧
    c' !! Z.to_nat (_findKeyIndex c' key) = Some (key, vs) ∧
    find_index_from (λ v, bool_decide (v = value)) 0 vs < Z.of_nat (length vs) ∧
    tag = findTag c' key value.
Proof.
  destruct (ensureKey_spec c key) as (Hi & Hl & Hx).
  unfold makeTag. fold (ensureKey c key). rewrite <- Hi in *.
  set (c1 := ensureKey c key) in *.
  destruct (key_of_hit c1 key) as [vs E]; [lia|]. rewrite E.
  pose proof (find_index_from_bounds (λ v, bool_decide (v = value)) 0 vs) as Hb.
  destruct (Z.ltb_spec (find_index_from (λ v, bool_decide (v = value)) 0 vs)
              (Z.of_nat (length vs))) as [Hv|Hv].
  - exists vs. split_and!; [done|lia|lia|done|done|]. by rewrite (findTag_hit _ _ _ vs).
  - set (vs' := vs ++ [value]).
    set (c2 := <[Z.to_nat (_findKeyIndex c1 key):=(key, vs')]> c1).
    assert (_findKeyIndex c2 key = _findKeyIndex c1 key) as Hi2.
    { apply (find_index_insert (λ e : string * list string, bool_decide (e.1 = key)));
      [|by apply bool_decide_true]. fold (_findKeyIndex c1 key). lia. }
    assert (find_index_from (λ v, bool_decide (v = value)) 0 vs' = Z.of_nat (length vs)) as Hf.
    { unfold vs'. rewrite find_index_app_miss by lia. simpl.
      rewrite bool_decide_true by done. lia. }
    assert (c2 !! Z.to_nat (_findKeyIndex c1 key) = Some (key, vs')) as E2
      by (apply list_lookup_insert_eq; lia).
    exists vs'. rewrite Hi2. split_and!.
    + apply (extends_trans _ c1); [done|]. intros i k ws H.
      destruct (decide (i = Z.to_nat (_findKeyIndex c1 key))) as [->|Hne].
      * rewrite E in H. injection H as <- <-. exists [value]. exact E2.
      * exists []. rewrite app_nil_r. unfold c2. by rewrite list_lookup_insert_ne.
    + lia.
    + unfold c2. rewrite length_insert. lia.
    + done.
    + rewrite Hf. unfold vs'. rewrite length_app. simpl. lia.
    + rewrite (findTag_hit _ _ _ vs'); rewrite ?Hi2, ?Hf; [|done|].
      * f_equal. unfold vs'. rewrite length_app. simpl. lia.
      * unfold vs'. rewrite length_app. simpl. lia.
Qed.

(** Interning a tag round-trips: the tag [makeTag] returns is valid, its key
    and value read back as the strings given, [findTag] finds the same tag,
    interning it again changes nothing, and every tag of the table before keeps
    its key and its value. *)
Theorem tag_table_roundtrip (c : t) (key value : string) :
  let '(c', tag) := makeTag c key value in
  ReplSetTag.isValid tag = true ∧
  getTagKey c' tag = Some key ∧ getTagValue c' tag = Some value ∧
  findTag c' key value = tag ∧ makeTag c' key value = (c', tag) ∧
  ∀ old k v, getTagKey c old = Some k ∧ getTagValue c old = Some v →
    getTagKey c' old = Some k ∧ getTagValue c' old = Some v.
Proof.
  pose proof (makeTag_spec c key value) as H.
  destruct (makeTag c key value) as [c' tag]. destruct H as (vs & Hx & Hl & E & Hv & ->).
  pose proof (find_index_from_bounds (λ v, bool_decide (v = value)) 0 vs) as Hb.
  rewrite (makeTag_hit _ _ _ vs) by (done || lia). rewrite (findTag_hit _ _ _ vs) by done.
  split_and!; [|apply getTagKey_spec|apply getTagValue_spec|done|done|].
  - apply Z.leb_le. simpl. lia.
  - simpl. split; [lia|eauto].
  - simpl. split_and!; [lia|lia|]. exists key, vs. split; [done|].
    destruct (find_index_hit _ _ Hv) as (x & Ex & Hx'%bool_decide_eq_true). by subst.
  - intros old k v [H1 H2]. by eapply getTag_extends.
Qed.

Lemma tag_table_roundtrip_witness :
  let '(c', tag) := makeTag [("dc", ["ny"]); ("rack", ["r1"; "r2"])] "dc" "sf" in
  tag = ReplSetTag.mk 0 1 ∧ getTagValue c' tag = Some "sf"%string.
Proof.
  pose proof (tag_table_roundtrip [("dc", ["ny"]); ("rack", ["r1"; "r2"])] "dc" "sf") as H.
  vm_compute in H |- *. split; [reflexivity|]. exact (proj1 (proj2 (proj2 H))).
Defined.
End TagConfigFacts.
