(* ===== verification/ReplSetConfig.v ===== *)
(** Replica set configurations: src/mongo/db/repl/{member_config,repl_set_config}.cpp
    with the host names of src/mongo/util/net/hostandport.cpp.  Parsing BSON is not
    modelled: a member is built from its parsed fields (the tags it gets and the
    order in which they are interned are), a configuration from its members. *)
From Stdlib Require Import SpecFloat.
From stdpp Require Import gmap strings pretty.
From S2P Require Import Prelude OpTimes ReplSetTag.

(** [std::string::operator[](0) == c] on a C string. *)
Definition startsWith (p s : string) : bool := String.prefix p s.

Module HostAndPort.
Record t := mk { host : string; _port : Z }.

(** [HostAndPort()]. *)
Definition null : t := mk "" (-1).
Definition DefaultDBPort : Z := 27017.

Definition hasPort (h : t) : bool := 0 <=? _port h.
Definition port (h : t) : Z := if hasPort h then _port h else DefaultDBPort.
Definition eqb (a b : t) : bool :=
  bool_decide (host a = host b) && (port a =? port b).
(** [HostAndPort::operator<]: the host names' bytes first, then the ports. *)
Definition lt (a b : t) : bool :=
  match String.compare (host a) (host b) with
  | Eq => port a <? port b
  | Lt => true
  | Gt => false
  end.
Definition empty (h : t) : bool := bool_decide (host h = "") && (_port h <? 0).

Definition isLocalHost (h : t) : bool :=
  bool_decide (host h = "localhost") || startsWith "127." (host h)
  || bool_decide (host h = "::1") || bool_decide (host h = "anonymous unix socket")
  || startsWith "/" (host h).

(** What equality and order look at. *)
Definition key (h : t) : string * Z := (host h, port h).

#[global] Instance t_eq_dec : EqDecision t.
Proof. solve_decision. Defined.

Lemma eqb_key a b : eqb a b = true ↔ key a = key b.
Proof.
  unfold eqb, key. rewrite andb_true_iff, bool_decide_eq_true, Z.eqb_eq.
  split; [intros [-> ->]; done | by intros [= -> ->]].
Qed.
End HostAndPort.

(** The configuration's own version order: like [OpTime]'s, with the term ignored
    as soon as one side has none (forced reconfigurations). *)
Module ConfigVersionAndTerm.
Record t := mk { version : Z; term : Z }.

Definition eqb (a b : t) : bool :=
  if (term a =? OpTime.kUninitializedTerm) || (term b =? OpTime.kUninitializedTerm) then
    version a =? version b
  else (term a =? term b) && (version a =? version b).
Definition lt (a b : t) : bool :=
  if (term a =? OpTime.kUninitializedTerm) || (term b =? OpTime.kUninitializedTerm) then
    version a <? version b
  else (term a <? term b) || ((term a =? term b) && (version a <? version b)).
Definition le (a b : t) : bool := lt a b || eqb a b.
Definition gt (a b : t) : bool := negb (le a b).
End ConfigVersionAndTerm.

(** ** Doubles *)

(** A [double] is an IEEE value of [SpecFloat]; the code only compares them. *)
Abbreviation double := spec_float.
Definition dzero : double := S754_zero false.
(** 1000.0, with its 53-bit mantissa. *)
Definition d1000 : double := S754_finite false 8796093022208000 (-43).
Definition d1 : double := S754_finite false 4503599627370496 (-52).
Definition dlt (a b : double) : bool := SFltb a b.
Definition dne (a b : double) : bool := negb (SFeqb a b).

(** What [validate] can object to; every one of them carries the code BadValue. *)
Inductive ConfigError :=
  | PriorityRange | VotesRange | ArbiterMustVote | ArbiterTags | SlaveDelayRange
  | PriorityNonVoting | PrioritySlaveDelay | PriorityHidden | PriorityNoIndexes
  | VersionRange | TermRange | EmptyName | HeartbeatIntervalRange | MemberCount
  | SameId | SameHost | HorizonsDiffer | HostsNotUnique | LocalhostMix
  | VoterCount | NoElectable | DefaultWZero | DefaultWMode
  | ProtocolVersion0 | ProtocolVersionOther
  | ConfigSvrArbiter | ConfigSvrIndexes | ConfigSvrSlaveDelay | ConfigSvrFlag
  | ConfigSvrJournal | NotConfigSvr | BadConnectionString.

(** [StatusWith]-like results: an error, or success. *)
Abbreviation Status := (option ConfigError).
Abbreviation OK := (@None ConfigError).

(** Early return of an error. *)
Notation "'fail_if' b 'with' e ';;' k" := (if b then Some e else k)
  (at level 100, b at level 99, e at level 99, k at level 200, right associativity, only parsing)
  : mongo_scope.

(** ** Members *)

Module MemberConfig.
Definition kInternalVoterTagName : string := "$voter".
Definition kInternalElectableTagName : string := "$electable".
Definition kInternalAllTagName : string := "$all".
Definition kConfigAllTagName : string := "$configAll".
Definition kConfigVoterTagName : string := "$configVoter".
Definition kMaxSlaveDelay : Z := 3600 * 24 * 366.
Definition kDefaultHorizon : string := "__default".

(** The fields of one element of the members array. *)
Record t := mk {
  _id : Z;
  _host : HostAndPort.t;
  _horizons : gmap string HostAndPort.t;   (* the named ones, without the default *)
  _priority : double;
  _votes : Z;
  _arbiterOnly : bool;
  _slaveDelay : Z;                         (* seconds *)
  _hidden : bool;
  _buildIndexes : bool;
  _tags : list ReplSetTag.t
}.

Definition isVoter (m : t) : bool := negb (_votes m =? 0).
Definition getNumVotes (m : t) : Z := if isVoter m then 1 else 0.
Definition isArbiter (m : t) : bool := _arbiterOnly m.
Definition getPriority (m : t) : double := _priority m.
Definition isElectable (m : t) : bool := negb (isArbiter m) && dlt dzero (getPriority m).
Definition getHostAndPort (m : t) : HostAndPort.t := _host m.

(** The forward mapping of the split horizon, the default included. *)
Definition getHorizonMappings (m : t) : gmap string HostAndPort.t :=
  <[kDefaultHorizon := _host m]> (_horizons m).

Definition set_tags (m : t) (tags : list ReplSetTag.t) : t :=
  mk (_id m) (_host m) (_horizons m) (_priority m) (_votes m) (_arbiterOnly m)
     (_slaveDelay m) (_hidden m) (_buildIndexes m) tags.

(** Interns one tag and appends it. *)
Definition push_tag (st : ReplSetTagConfig.t * list ReplSetTag.t) (kv : string * string)
    : ReplSetTagConfig.t * list ReplSetTag.t :=
  let '(c, tg) := ReplSetTagConfig.makeTag st.1 kv.1 kv.2 in (c, st.2 ++ [tg]).

(** The internal tags of a member, in the order the constructor adds them. *)
Definition internalTags (m : t) : list (string * string) :=
  let id := pretty (_id m) in
  (if isVoter m && negb (_arbiterOnly m) then [(kInternalVoterTagName, id)] else [])
  ++ (if isElectable m then [(kInternalElectableTagName, id)] else [])
  ++ (if negb (_arbiterOnly m) then [(kInternalAllTagName, id)] else [])
  ++ (if isVoter m then [(kConfigVoterTagName, id)] else [])
  ++ [(kConfigAllTagName, id)].

(** The constructor, from the parsed fields ([_tags] of [m] is not used) and the
    key-value pairs of the tags field. *)
Definition construct (tagConfig : ReplSetTagConfig.t) (m : t)
    (userTags : list (string * string)) : ReplSetTagConfig.t * t :=
  let '(c, tags) := foldl push_tag (tagConfig, []) (userTags ++ internalTags m) in
  (c, set_tags m tags).

Definition validate (m : t) : Status :=
  fail_if dlt (_priority m) dzero || dlt d1000 (_priority m) with PriorityRange ;;
  fail_if negb (_votes m =? 0) && negb (_votes m =? 1) with VotesRange ;;
  fail_if _arbiterOnly m && negb (isVoter m) with ArbiterMustVote ;;
  fail_if _arbiterOnly m && negb (Z.of_nat (length (_tags m)) =? 2) with ArbiterTags ;;
  fail_if (_slaveDelay m <? 0) || (kMaxSlaveDelay <? _slaveDelay m) with SlaveDelayRange ;;
  if dne (_priority m) dzero then
    fail_if _votes m =? 0 with PriorityNonVoting ;;
    fail_if 0 <? _slaveDelay m with PrioritySlaveDelay ;;
    fail_if _hidden m with PriorityHidden ;;
    fail_if negb (_buildIndexes m) with PriorityNoIndexes ;;
    OK
  else OK.
End MemberConfig.

Module WriteConcernOptions.
Definition kMajority : string := "majority".
Record t := mk { wMode : string; wNumNodes : Z }.
End WriteConcernOptions.

(** The process-wide settings [validate] and the topology coordinator read. *)
Record ServerParams := mkServerParams {
  clusterRoleConfigServer : bool;
  skipShardingConfigurationChecks : bool
}.

(** [std::count_if]. *)
Fixpoint count_if {A} (p : A → bool) (l : list A) : Z :=
  match l with
  | [] => 0
  | x :: l' => (if p x then 1 else 0) + count_if p l'
  end.

(** ** Configurations *)

Module ReplSetConfig.
Import MemberConfig.

Definition kMaxMembers : Z := 50.
Definition kMaxVotingMembers : Z := 7.
Definition kMajorityWriteConcernModeName : string := "$majority".
Definition kVotingMembersWriteConcernModeName : string := "$votingMembers".
Definition kStepDownCheckWriteConcernModeName : string := "$stepDownCheck".
Definition kConfigMajorityWriteConcernModeName : string := "$configMajority".
Definition kConfigAllWriteConcernName : string := "$configAll".

Record t := mk {
  _isInitialized : bool;
  _version : Z;
  _term : Z;
  _replSetName : string;
  _members : list MemberConfig.t;
  _defaultWriteConcern : WriteConcernOptions.t;
  _electionTimeoutPeriod : Z;              (* milliseconds *)
  _heartbeatInterval : Z;                  (* milliseconds *)
  _chainingAllowed : bool;
  _writeConcernMajorityJournalDefault : bool;
  _majorityVoteCount : Z;
  _writableVotingMembersCount : Z;
  _writeMajority : Z;
  _totalVotingMembers : Z;
  _tagConfig : ReplSetTagConfig.t;
  _customWriteConcernModes : gmap string ReplSetTagPattern.t;
  _protocolVersion : Z;
  _configServer : bool;
  _connectionStringValid : bool
}.

(** The default-constructed configuration a node starts with. *)
Definition empty : t :=
  mk false 1 OpTime.kUninitializedTerm "" [] (WriteConcernOptions.mk "" 1) 10000 2000 true false
     0 0 0 0 [] ∅ 1 false false.

Definition getNumMembers (c : t) : Z := Z.of_nat (length (_members c)).
Definition getConfigVersionAndTerm (c : t) : ConfigVersionAndTerm.t :=
  ConfigVersionAndTerm.mk (_version c) (_term c).

(** [getMemberAt(size_t i)]: a negative index wraps to a huge one. *)
Definition getMemberAt (c : t) (i : Z) : option MemberConfig.t :=
  invariant ((0 <=? i) && (i <? getNumMembers c)) ;; _members c !! Z.to_nat i.

(** The first index of a member that satisfies [p]; -1 when there is none. *)
Definition indexOr (p : MemberConfig.t → bool) (ms : list MemberConfig.t) : Z :=
  let i := find_index_from p 0 ms in
  if i =? Z.of_nat (length ms) then -1 else i.

Definition findMemberByID (c : t) (id : Z) : option MemberConfig.t :=
  List.find (λ m, _id m =? id) (_members c).
Definition findMemberIndexByHostAndPort (c : t) (hap : HostAndPort.t) : Z :=
  indexOr (λ m, HostAndPort.eqb (getHostAndPort m) hap) (_members c).
Definition findMemberIndexByConfigId (c : t) (configId : Z) : Z :=
  indexOr (λ m, _id m =? configId) (_members c).
(** The outer option is the invariant of [getMemberAt], the inner one the null pointer. *)
Definition findMemberByHostAndPort (c : t) (hap : HostAndPort.t)
    : option (option MemberConfig.t) :=
  let idx := findMemberIndexByHostAndPort c hap in
  if idx =? -1 then Some None else Some <$> getMemberAt c idx.

Definition getNumDataBearingMembers (c : t) : Z :=
  getNumMembers c - count_if isArbiter (_members c).
Definition isLocalHostAllowed (c : t) : bool :=
  match _members c with [] => false | m :: _ => HostAndPort.isLocalHost (getHostAndPort m) end.
Definition containsArbiter (c : t) : bool := existsb isArbiter (_members c).
Definition calculatePriorityRank (c : t) (priority : double) : Z :=
  count_if (λ m, dlt priority (getPriority m)) (_members c).
Definition getPriorityTakeoverDelay (c : t) (memberIdx : Z) : option Z :=
  m ← getMemberAt c memberIdx;
  Some ((calculatePriorityRank c (getPriority m) + 1) * _electionTimeoutPeriod c).

(** [None]: the status UnknownReplWriteConcern. *)
Definition findCustomWriteMode (c : t) (patternName : string)
    : option ReplSetTagPattern.t := _customWriteConcernModes c !! patternName.

(** The counters and collections [validate] builds member by member. *)
Record Tally := mkTally {
  localhostCount : Z; voterCount : Z; arbiterCount : Z; electableCount : Z;
  nonUniversalHorizons : gset string;
  horizonHostNameCounts : gmap (string * Z) Z
}.

Definition bump (b : bool) (n : Z) : Z := if b then n + 1 else n.

Definition countHosts (counts : gmap (string * Z) Z) (m : MemberConfig.t)
    : gmap (string * Z) Z :=
  foldl (λ acc h, <[HostAndPort.key h := default 0 (acc !! HostAndPort.key h) + 1]> acc)
        counts ((map_to_list (getHorizonMappings m)).*2).

(** One round of the loop, after the member's own [validate]. *)
Definition tallyMember (expected : gset string) (st : Tally) (m : MemberConfig.t) : Tally :=
  let seen := dom (getHorizonMappings m) in
  let same := bool_decide (seen = expected) in
  {| localhostCount := bump (HostAndPort.isLocalHost (getHostAndPort m)) (localhostCount st);
     voterCount := bump (isVoter m) (voterCount st);
     arbiterCount := bump (isArbiter m) (arbiterCount st);
     electableCount :=
       bump (negb (isArbiter m) && dlt dzero (getPriority m)) (electableCount st);
     nonUniversalHorizons :=
       if same then nonUniversalHorizons st
       else nonUniversalHorizons st ∪ ((expected ∖ seen) ∪ (seen ∖ expected));
     horizonHostNameCounts :=
       if same then countHosts (horizonHostNameCounts st) m else horizonHostNameCounts st |}.

(** The inner loop over the other members. *)
Fixpoint checkPairs (i j : nat) (m : MemberConfig.t) (ms : list MemberConfig.t) : Status :=
  match ms with
  | [] => OK
  | m' :: ms' =>
      if (i =? j)%nat then checkPairs i (S j) m ms' else
      fail_if _id m =? _id m' with SameId ;;
      fail_if HostAndPort.eqb (getHostAndPort m) (getHostAndPort m') with SameHost ;;
      checkPairs i (S j) m ms'
  end.

Fixpoint checkMembers (expected : gset string) (all : list MemberConfig.t) (i : nat)
    (ms : list MemberConfig.t) (st : Tally) : ConfigError + Tally :=
  match ms with
  | [] => inr st
  | m :: ms' =>
      match MemberConfig.validate m with
      | Some e => inl e
      | None =>
          match checkPairs i 0 m all with
          | Some e => inl e
          | None => checkMembers expected all (S i) ms' (tallyMember expected st m)
          end
      end
  end.

(** The checks of a config server's set. *)
Definition validateConfigServer (c : t) (sp : ServerParams) (arbiters : Z) : Status :=
  fail_if 0 <? arbiters with ConfigSvrArbiter ;;
  match List.find (λ m, negb (_buildIndexes m) || negb (_slaveDelay m =? 0)) (_members c) with
  | Some m => Some (if negb (_buildIndexes m) then ConfigSvrIndexes else ConfigSvrSlaveDelay)
  | None =>
      fail_if negb (clusterRoleConfigServer sp)
              && negb (skipShardingConfigurationChecks sp) with ConfigSvrFlag ;;
      fail_if negb (_writeConcernMajorityJournalDefault c) with ConfigSvrJournal ;;
      OK
  end.

Definition validate (c : t) (sp : ServerParams) : Status :=
  fail_if (_version c <=? 0) || (2^31 - 1 <? _version c) with VersionRange ;;
  fail_if (_term c <? -1) || (2^31 - 1 <? _term c) with TermRange ;;
  fail_if bool_decide (_replSetName c = "") with EmptyName ;;
  fail_if _heartbeatInterval c <? 0 with HeartbeatIntervalRange ;;
  match _members c with
  | [] => Some MemberCount
  | m0 :: _ =>
      fail_if kMaxMembers <? getNumMembers c with MemberCount ;;
      match checkMembers (dom (getHorizonMappings m0)) (_members c) 0 (_members c)
              (mkTally 0 0 0 0 ∅ ∅) with
      | inl e => Some e
      | inr st =>
          fail_if bool_decide (nonUniversalHorizons st ≠ ∅) with HorizonsDiffer ;;
          fail_if existsb (λ n, 1 <? n) ((map_to_list (horizonHostNameCounts st)).*2)
            with HostsNotUnique ;;
          fail_if negb (localhostCount st =? 0)
                  && negb (localhostCount st =? getNumMembers c) with LocalhostMix ;;
          fail_if (kMaxVotingMembers <? voterCount st) || (voterCount st =? 0)
            with VoterCount ;;
          fail_if electableCount st =? 0 with NoElectable ;;
          fail_if bool_decide (WriteConcernOptions.wMode (_defaultWriteConcern c) = "")
                  && (WriteConcernOptions.wNumNodes (_defaultWriteConcern c) =? 0)
            with DefaultWZero ;;
          fail_if bool_decide (WriteConcernOptions.wMode (_defaultWriteConcern c) ≠ "")
                  && bool_decide (WriteConcernOptions.kMajority
                                  ≠ WriteConcernOptions.wMode (_defaultWriteConcern c))
                  && negb (bool_decide (is_Some (findCustomWriteMode c
                            (WriteConcernOptions.wMode (_defaultWriteConcern c)))))
            with DefaultWMode ;;
          fail_if _protocolVersion c =? 0 with ProtocolVersion0 ;;
          fail_if negb (_protocolVersion c =? 1) with ProtocolVersionOther ;;
          match (if _configServer c then validateConfigServer c sp (arbiterCount st)
                 else if clusterRoleConfigServer sp then Some NotConfigSvr else OK) with
          | Some e => Some e
          | None =>
              fail_if negb (_connectionStringValid c) with BadConnectionString ;;
              OK
          end
      end
  end.

(** Whether the set could ever satisfy a write concern: [inl true] is OK. *)
Inductive WriteConcernStatus :=
  | Satisfiable | UnknownReplWriteConcern | UnsatisfiableWriteConcern.

(** The loop that counts data-bearing members down. *)
Fixpoint enoughDataBearing (nodesRemaining : Z) (ms : list MemberConfig.t) : bool :=
  match ms with
  | [] => false
  | m :: ms' =>
      if isArbiter m then enoughDataBearing nodesRemaining ms'
      else if nodesRemaining - 1 <=? 0 then true
      else enoughDataBearing (nodesRemaining - 1) ms'
  end.

Definition checkIfWriteConcernCanBeSatisfied (c : t) (wc : WriteConcernOptions.t)
    : WriteConcernStatus :=
  if bool_decide (WriteConcernOptions.wMode wc ≠ "")
     && bool_decide (WriteConcernOptions.wMode wc ≠ WriteConcernOptions.kMajority) then
    match findCustomWriteMode c (WriteConcernOptions.wMode wc) with
    | None => UnknownReplWriteConcern
    | Some pattern =>
        if (ReplSetTagMatch.updateUntil (ReplSetTagMatch.ofPattern pattern)
              (_members c ≫= _tags)).1
        then Satisfiable else UnsatisfiableWriteConcern
    end
  else if enoughDataBearing (WriteConcernOptions.wNumNodes wc) (_members c)
       then Satisfiable else UnsatisfiableWriteConcern.

(** [_calculateMajorities]; [int] division truncates. *)
Definition _calculateMajorities (c : t) : t :=
  let voters := count_if isVoter (_members c) in
  let arbiters := count_if isArbiter (_members c) in
  let majorityVoteCount := Z.quot voters 2 + 1 in
  let writable := voters - arbiters in
  {| _isInitialized := _isInitialized c; _version := _version c; _term := _term c;
     _replSetName := _replSetName c; _members := _members c;
     _defaultWriteConcern := _defaultWriteConcern c;
     _electionTimeoutPeriod := _electionTimeoutPeriod c;
     _heartbeatInterval := _heartbeatInterval c; _chainingAllowed := _chainingAllowed c;
     _writeConcernMajorityJournalDefault := _writeConcernMajorityJournalDefault c;
     _majorityVoteCount := majorityVoteCount;
     _writableVotingMembersCount := writable;
     _writeMajority := Z.min majorityVoteCount writable;
     _totalVotingMembers := voters;
     _tagConfig := _tagConfig c; _customWriteConcernModes := _customWriteConcernModes c;
     _protocolVersion := _protocolVersion c; _configServer := _configServer c;
     _connectionStringValid := _connectionStringValid c |}.

Definition set_modes (c : t) (modes : gmap string ReplSetTagPattern.t) : t :=
  {| _isInitialized := _isInitialized c; _version := _version c; _term := _term c;
     _replSetName := _replSetName c; _members := _members c;
     _defaultWriteConcern := _defaultWriteConcern c;
     _electionTimeoutPeriod := _electionTimeoutPeriod c;
     _heartbeatInterval := _heartbeatInterval c; _chainingAllowed := _chainingAllowed c;
     _writeConcernMajorityJournalDefault := _writeConcernMajorityJournalDefault c;
     _majorityVoteCount := _majorityVoteCount c;
     _writableVotingMembersCount := _writableVotingMembersCount c;
     _writeMajority := _writeMajority c; _totalVotingMembers := _totalVotingMembers c;
     _tagConfig := _tagConfig c; _customWriteConcernModes := modes;
     _protocolVersion := _protocolVersion c; _configServer := _configServer c;
     _connectionStringValid := _connectionStringValid c |}.

(** One internal mode: nothing is added when no member has the tag key. *)
Definition addMode (c : t) (name tagKey : string) (minCount : Z) : t :=
  match ReplSetTagConfig.addTagCountConstraintToPattern (_tagConfig c) [] tagKey minCount with
  | Some pattern => set_modes c (<[name := pattern]> (_customWriteConcernModes c))
  | None => c
  end.

(** [_addInternalWriteConcernModes]; the count of the config majority is written
    as the code has it, half of the vote majority plus one. *)
Definition _addInternalWriteConcernModes (c : t) : t :=
  let c := addMode c kMajorityWriteConcernModeName kInternalVoterTagName (_writeMajority c) in
  let c := addMode c kVotingMembersWriteConcernModeName kInternalVoterTagName
             (_writableVotingMembersCount c) in
  let c := addMode c kStepDownCheckWriteConcernModeName kInternalElectableTagName 2 in
  let c := addMode c kConfigMajorityWriteConcernModeName kConfigVoterTagName
             (Z.quot (_majorityVoteCount c) 2 + 1) in
  addMode c kConfigAllWriteConcernName kConfigAllTagName (getNumMembers c).

(** The members of the array, built one after the other in one tag table. *)
Fixpoint constructMembers (tagConfig : ReplSetTagConfig.t)
    (ms : list (MemberConfig.t * list (string * string)))
    : ReplSetTagConfig.t * list MemberConfig.t :=
  match ms with
  | [] => (tagConfig, [])
  | (m, userTags) :: ms' =>
      let '(tc1, m1) := MemberConfig.construct tagConfig m userTags in
      let '(tc2, rest) := constructMembers tc1 ms' in
      (tc2, m1 :: rest)
  end.
End ReplSetConfig.
