(* ===== verification/ReplSetConfigFacts.v ===== *)
(** What a validated configuration guarantees: unique members, bounded votes, and
    majorities that meet; and the counting done through the internal tags. *)
From stdpp Require Import gmap strings pretty.
From S2P Require Import Prelude OpTimes ReplSetTag ReplSetConfig.
Import MemberConfig ReplSetConfig.

(** ** Sets of member indices *)

Section IdxSet.
Context {A : Type} (p : A → bool).

(** The indices, counted from [i], of the elements that satisfy [p]. *)
Fixpoint idx_set (i : nat) (l : list A) : gset nat :=
  match l with
  | [] => ∅
  | x :: l' => (if p x then {[ i ]} else ∅) ∪ idx_set (S i) l'
  end.

Lemma elem_of_idx_set i j l :
  j ∈ idx_set i l ↔ ∃ x, (i <= j)%nat ∧ l !! (j - i)%nat = Some x ∧ p x = true.
Proof.
  revert i. induction l as [|x l IH]; intros i; simpl.
  - split; [set_solver|]. by intros (? & _ & ? & _).
  - rewrite elem_of_union, IH. split.
    + intros [H|(y & Hle & Hl & Hp)].
      * destruct (p x) eqn:E; [|set_solver]. apply elem_of_singleton in H as ->.
        exists x. rewrite Nat.sub_diag. done.
      * exists y. split_and!; [lia| |done]. by replace (j - i)%nat with (S (j - S i)) by lia.
    + intros (y & Hle & Hl & Hp). destruct (decide (i = j)) as [->|Hne].
      * left. rewrite Nat.sub_diag in Hl. simplify_eq/=. rewrite Hp. set_solver.
      * right. exists y. split_and!; [lia| |done].
        by replace (j - i)%nat with (S (j - S i)) in Hl by lia.
Qed.

Lemma size_idx_set i l : Z.of_nat (size (idx_set i l)) = count_if p l.
Proof.
  revert i. induction l as [|x l IH]; intros i; simpl; [done|].
  rewrite size_union.
  - rewrite Nat2Z.inj_add, IH. destruct (p x); [by rewrite size_singleton|done].
  - intros j H1 H2. destruct (p x); [|set_solver]. apply elem_of_singleton in H1 as ->.
    apply elem_of_idx_set in H2 as (y & H & _). lia.
Qed.

Lemma count_if_bounds l : 0 <= count_if p l <= Z.of_nat (length l).
Proof. induction l as [|x l IH]; simpl; [lia|]. destruct (p x); lia. Qed.

Lemma count_if_pos l : 0 < count_if p l ↔ ∃ x, x ∈ l ∧ p x = true.
Proof.
  induction l as [|x l IH]; simpl.
  - split; [lia|]. by intros (? & ?%elem_of_nil & _).
  - pose proof (count_if_bounds l). destruct (p x) eqn:E.
    + split; [|lia]. intros _. exists x. split; [left|done].
    + rewrite Z.add_0_l, IH. split; intros (y & Hy & Hp); exists y; (split; [|done]).
      * by right.
      * apply elem_of_cons in Hy as [->|Hy]; [congruence|done].
Qed.
End IdxSet.

Lemma count_if_split {A} (p q : A → bool) l :
  (∀ x, x ∈ l → q x = true → p x = true) →
  count_if (λ x, p x && negb (q x)) l = count_if p l - count_if q l.
Proof.
  induction l as [|x l IH]; simpl; [done|]. intros H.
  rewrite IH by (intros; apply H; [by right|done]).
  destruct (q x) eqn:E; [rewrite (H x) by (done || left)|]; destruct (p x); simpl; lia.
Qed.

(** Two subsets of a finite set that are together larger than it share an element. *)
Lemma sets_meet {A} `{Countable A} (U V W : gset A) :
  V ⊆ U → W ⊆ U → (size U < size V + size W)%nat → ∃ x, x ∈ V ∧ x ∈ W.
Proof.
  intros HV HW Hsz. destruct (decide (V ∩ W = ∅)) as [E|E].
  - exfalso. assert (V ## W) as Hd by set_solver.
    pose proof (size_union V W Hd). assert (size (V ∪ W) <= size U)%nat; [|lia].
    apply subseteq_size. set_solver.
  - apply set_choose_L in E as [x Hx]. exists x. set_solver.
Qed.

(** ** Validated members *)

Lemma dlt_zero_ne p : dlt dzero p = true → dne p dzero = true.
Proof. destruct p as [[]|[]| |[] m e]; done. Qed.

(** A valid member: votes are 0 or 1, arbiters vote, electable members vote, do not
    delay and are visible. *)
Lemma member_validate_ok m :
  MemberConfig.validate m = OK →
  (_votes m = 0 ∨ _votes m = 1) ∧
  (isArbiter m = true → isVoter m = true) ∧
  (isElectable m = true →
   isVoter m = true ∧ isArbiter m = false ∧ _slaveDelay m = 0
   ∧ _hidden m = false ∧ _buildIndexes m = true) ∧
  0 <= _slaveDelay m <= kMaxSlaveDelay.
Proof.
  unfold MemberConfig.validate, isArbiter, isElectable. intros H.
  destruct (_ || _); [done|]. destruct (_ && _) eqn:Ev; [done|].
  destruct (_ && _) eqn:Ea in H; [done|]. destruct (_ && _) in H; [done|].
  destruct (_ || _) eqn:Ed in H; [done|]. to_prop.
  assert (_votes m = 0 ∨ _votes m = 1) by (destruct Ev; to_prop; auto).
  split_and!; [done| | |lia|lia].
  - intros Hm. destruct Ea as [?|?]; to_prop; congruence.
  - unfold isArbiter. intros [Hb Hp]%andb_true_iff. unfold getPriority in Hp.
    rewrite (dlt_zero_ne _ Hp) in H. unfold isVoter.
    destruct (_votes m =? 0); [done|]. destruct (0 <? _slaveDelay m) eqn:E; [done|].
    destruct (_hidden m); [done|]. destruct (_buildIndexes m); [|done]. to_prop.
    split_and!; [done|done|lia|done|done].
Qed.

(** What [validate] establishes about the members. *)
Record ValidConfig (c : ReplSetConfig.t) : Prop := {
  vc_size : 1 <= getNumMembers c <= kMaxMembers;
  vc_ids : NoDup (_id <$> _members c);
  vc_hosts : NoDup ((λ m, HostAndPort.key (getHostAndPort m)) <$> _members c);
  vc_voters : 1 <= count_if isVoter (_members c) <= kMaxVotingMembers;
  vc_electable : ∃ m, m ∈ _members c ∧ isElectable m = true;
  vc_members : ∀ m, m ∈ _members c → MemberConfig.validate m = OK
}.

Lemma checkPairs_ok i j m ms :
  checkPairs i j m ms = OK →
  ∀ k m', ms !! k = Some m' → (k + j)%nat ≠ i →
  _id m ≠ _id m' ∧ HostAndPort.key (getHostAndPort m) ≠ HostAndPort.key (getHostAndPort m').
Proof.
  revert j. induction ms as [|x ms IH]; intros j H k m' Hk Hne; [done|]. simpl in H.
  destruct k as [|k]; simplify_eq/=.
  - destruct (Nat.eqb_spec i j); [lia|].
    destruct (_ =? _) eqn:E in H; [done|]. destruct (HostAndPort.eqb _ _) eqn:Eh; [done|].
    to_prop. split; [done|]. rewrite <- HostAndPort.eqb_key. congruence.
  - destruct (Nat.eqb_spec i j).
    + apply (IH (S j) H k m'); [done|lia].
    + destruct (_ =? _) in H; [done|]. destruct (HostAndPort.eqb _ _); [done|].
      apply (IH (S j) H k m'); [done|lia].
Qed.

Lemma checkMembers_ok expected all i ms st st' :
  checkMembers expected all i ms st = inr st' →
  (∀ k m, ms !! k = Some m →
     MemberConfig.validate m = OK ∧ checkPairs (k + i) 0 m all = OK) ∧
  voterCount st' = voterCount st + count_if isVoter ms ∧
  electableCount st' = electableCount st + count_if isElectable ms ∧
  arbiterCount st' = arbiterCount st + count_if isArbiter ms.
Proof.
  revert i st. induction ms as [|m ms IH]; intros i st H; simpl in H.
  - injection H as <-. split_and!; [done|simpl; lia..].
  - destruct (MemberConfig.validate m) eqn:Ev; [done|].
    destruct (checkPairs i 0 m all) eqn:Ep; [done|].
    apply IH in H as (Hk & Hv & He & Ha). split_and!.
    + intros [|k] m' Hl; simplify_eq/=; [done|].
      replace (S (k + i)) with (k + S i)%nat by lia. by apply Hk.
    + rewrite Hv. simpl. destruct (isVoter m); simpl; lia.
    + rewrite He. simpl. unfold isElectable at 2.
      destruct (negb (isArbiter m) && dlt dzero (getPriority m)); simpl; lia.
    + rewrite Ha. simpl. destruct (isArbiter m); simpl; lia.
Qed.

Lemma NoDup_by_index {A B} (f : A → B) l :
  (∀ i j x y, l !! i = Some x → l !! j = Some y → i ≠ j → f x ≠ f y) → NoDup (f <$> l).
Proof.
  intros H. apply NoDup_alt. intros i j b Hi Hj.
  apply list_lookup_fmap_Some in Hi as (x & -> & Hi).
  apply list_lookup_fmap_Some in Hj as (y & E & Hj).
  destruct (decide (i = j)); [done|]. by destruct (H _ _ _ _ Hi Hj n).
Qed.

Lemma validate_ok_valid c sp : ReplSetConfig.validate c sp = OK → ValidConfig c.
Proof.
  unfold ReplSetConfig.validate. intros H.
  destruct (_ || _) in H; [done|]. destruct (_ || _) in H; [done|].
  destruct (bool_decide _) in H; [done|]. destruct (_ <? 0) in H; [done|].
  destruct (_members c) as [|m0 ms0] eqn:Em; [done|]. rewrite <- Em in H.
  destruct (kMaxMembers <? _) eqn:Emax; [done|].
  destruct (checkMembers _ _ _ _ _) as [e|st] eqn:Ec; [done|].
  destruct (bool_decide _) in H; [done|]. destruct (existsb _ _) in H; [done|].
  destruct (_ && _) in H; [done|].
  destruct (_ || _) eqn:Evc in H; [done|]. destruct (_ =? 0) eqn:Eel in H; [done|]. clear H.
  apply checkMembers_ok in Ec as (Hk & Hv & He & _). simpl in Hv, He. to_prop.
  assert (∀ i j x y, _members c !! i = Some x → _members c !! j = Some y → i ≠ j →
    _id x ≠ _id y ∧
    HostAndPort.key (getHostAndPort x) ≠ HostAndPort.key (getHostAndPort y)) as Hpair.
  { intros i j x y Hi Hj Hij. destruct (Hk i x Hi) as [_ Hp]. rewrite Nat.add_0_r in Hp.
    by apply (checkPairs_ok _ _ _ _ Hp j y Hj); lia. }
  pose proof (count_if_bounds isVoter (_members c)).
  pose proof (count_if_bounds isElectable (_members c)).
  constructor.
  - unfold getNumMembers in *. rewrite Em in *. simpl in *. lia.
  - apply NoDup_by_index. intros. by eapply Hpair.
  - apply NoDup_by_index. intros. by eapply Hpair.
  - unfold kMaxVotingMembers in *. lia.
  - apply (count_if_pos isElectable). lia.
  - intros m [i Hi]%list_elem_of_lookup. by apply (Hk i).
Qed.

(** ** Majorities *)

(** The members that vote, and those among them that hold data. *)
Definition voters (c : ReplSetConfig.t) : gset nat := idx_set isVoter 0 (_members c).
Definition isWritableVoter (m : MemberConfig.t) : bool := isVoter m && negb (isArbiter m).
Definition writableVoters (c : ReplSetConfig.t) : gset nat :=
  idx_set isWritableVoter 0 (_members c).

(** [c] is a validated configuration whose majorities were computed. *)
Definition Installed (c : ReplSetConfig.t) : Prop :=
  ValidConfig c ∧ ∃ c0, c = _calculateMajorities c0.

Lemma writable_subseteq c : writableVoters c ⊆ voters c.
Proof.
  intros i. unfold writableVoters, voters. rewrite !elem_of_idx_set.
  intros (m & Hi & Hl & Hp). exists m. apply andb_true_iff in Hp as [Hp _]. done.
Qed.

Lemma writable_count c :
  ValidConfig c →
  count_if isWritableVoter (_members c)
  = count_if isVoter (_members c) - count_if isArbiter (_members c).
Proof.
  intros Hv. apply count_if_split. intros m Hm Ha.
  destruct (member_validate_ok m (vc_members _ Hv m Hm)) as (_ & H & _). auto.
Qed.

Lemma installed_counts c :
  Installed c →
  let n := count_if isVoter (_members c) in
  let w := count_if isWritableVoter (_members c) in
  _totalVotingMembers c = n ∧ _majorityVoteCount c = n / 2 + 1 ∧
  _writableVotingMembersCount c = w ∧ _writeMajority c = Z.min (n / 2 + 1) w ∧
  1 <= w <= n ∧ n <= 7.
Proof.
  intros [Hv [c0 ->]]. cbn zeta. rewrite writable_count by done.
  pose proof (vc_voters _ Hv) as Hn. unfold kMaxVotingMembers in Hn.
  unfold _calculateMajorities in *. simpl in *.
  rewrite Z.quot_div_nonneg by lia. split_and!; [done..| | |lia].
  - pose proof (writable_count _ Hv) as Hw. simpl in Hw. rewrite <- Hw.
    assert (0 < count_if isWritableVoter (_members c0)); [|lia].
    apply count_if_pos. destruct (vc_electable _ Hv) as (m & Hm & He). exists m.
    split; [done|]. destruct (member_validate_ok m (vc_members _ Hv m Hm)) as (_ & _ & H & _).
    destruct (H He) as (H1 & H2 & _). unfold isWritableVoter. by rewrite H1, H2.
  - pose proof (count_if_bounds isArbiter (_members c0)). lia.
Qed.

Lemma size_voters c : Z.of_nat (size (voters c)) = count_if isVoter (_members c).
Proof. apply size_idx_set. Qed.
Lemma size_writable c :
  Z.of_nat (size (writableVoters c)) = count_if isWritableVoter (_members c).
Proof. apply size_idx_set. Qed.

(** Two vote majorities share a voter. *)
Lemma vote_majorities_meet c (V V' : gset nat) :
  Installed c → V ⊆ voters c → V' ⊆ voters c →
  _majorityVoteCount c <= Z.of_nat (size V) → _majorityVoteCount c <= Z.of_nat (size V') →
  ∃ i, i ∈ V ∧ i ∈ V'.
Proof.
  intros Hc HV HV' HnV HnV'. destruct (installed_counts c Hc) as (_ & Hmaj & _).
  apply (sets_meet (voters c)); [done|done|].
  pose proof (size_voters c). rewrite Hmaj in *.
  pose proof (Z.div_mod (count_if isVoter (_members c)) 2).
  pose proof (Z.mod_pos_bound (count_if isVoter (_members c)) 2). lia.
Qed.

(** A write majority meets a vote majority that holds a data-bearing voter. *)
Lemma write_vote_majorities_meet c (V W : gset nat) i :
  Installed c → V ⊆ voters c → W ⊆ writableVoters c →
  _majorityVoteCount c <= Z.of_nat (size V) → _writeMajority c <= Z.of_nat (size W) →
  i ∈ V → i ∈ writableVoters c → ∃ j, j ∈ V ∧ j ∈ W.
Proof.
  intros Hc HV HW HnV HnW HiV Hi. destruct (installed_counts c Hc) as (_ & Hmaj & _ & Hw & _).
  rewrite Hw in HnW. rewrite Hmaj in HnV.
  pose proof (size_writable c). pose proof (size_voters c).
  destruct (Z.le_gt_cases (count_if isVoter (_members c) / 2 + 1)
              (count_if isWritableVoter (_members c))) as [Hle|Hgt].
  - apply (sets_meet (voters c)); [done| |].
    + etrans; [done|]. apply writable_subseteq.
    + pose proof (Z.div_mod (count_if isVoter (_members c)) 2).
      pose proof (Z.mod_pos_bound (count_if isVoter (_members c)) 2). lia.
  - exists i. split; [done|].
    assert (W = writableVoters c) as ->; [|done].
    apply set_subseteq_size_eq; [done|]. lia.
Qed.

(** C26: in a configuration that [validate] accepts, with the counts of
    [_calculateMajorities]: the write majority is between 1 and the vote majority,
    which is at most the number of voters; any two vote majorities share a voter;
    and any write majority of data-bearing voters shares a voter with any vote
    majority that elected a data-bearing voter, even when most voters are arbiters
    and the write majority is smaller than the vote majority. *)
Theorem majorities_intersect (c c0 : ReplSetConfig.t) (sp : ServerParams)
    (Hv : ReplSetConfig.validate c sp = OK) (Hc : c = _calculateMajorities c0) :
  1 <= _writeMajority c <= _majorityVoteCount c ∧
  _majorityVoteCount c <= _totalVotingMembers c <= kMaxVotingMembers ∧
  (∀ V V', V ⊆ voters c → V' ⊆ voters c →
     _majorityVoteCount c <= Z.of_nat (size V) →
     _majorityVoteCount c <= Z.of_nat (size V') → ∃ i, i ∈ V ∧ i ∈ V') ∧
  (∀ V W i, V ⊆ voters c → W ⊆ writableVoters c →
     _majorityVoteCount c <= Z.of_nat (size V) →
     _writeMajority c <= Z.of_nat (size W) →
     i ∈ V → i ∈ writableVoters c → ∃ j, j ∈ V ∧ j ∈ W).
Proof.
  assert (Installed c) as HI by (split; [by eapply validate_ok_valid|by exists c0]).
  destruct (installed_counts c HI) as (Ht & Hm & Hw & Hwm & Hb & H7).
  rewrite Ht, Hwm, Hm. unfold kMaxVotingMembers.
  pose proof (Z.div_mod (count_if isVoter (_members c)) 2).
  pose proof (Z.mod_pos_bound (count_if isVoter (_members c)) 2).
  split_and!; [lia|lia|lia|lia| |].
  - intros V V'. rewrite <- Hm. by apply vote_majorities_meet.
  - intros V W i. rewrite <- Hwm, <- Hm. by apply write_vote_majorities_meet.
Qed.

(** A member of a sample configuration, with its tags left to the constructor. *)
Definition sampleMember (id : Z) (arbiter voter : bool) : MemberConfig.t :=
  MemberConfig.mk id (HostAndPort.mk (String.append "h" (pretty id)) 27017) ∅
    (if arbiter || negb voter then dzero else d1) (if voter then 1 else 0)
    arbiter 0 false true [].

Definition sampleConfig (specs : list (MemberConfig.t * list (string * string)))
    : ReplSetConfig.t :=
  let '(tc, ms) := constructMembers [] specs in
  _addInternalWriteConcernModes (_calculateMajorities
    (ReplSetConfig.mk true 1 1 "rs" ms (WriteConcernOptions.mk "" 1) 10000 2000 true true
       0 0 0 0 tc ∅ 1 false true)).

(** One data-bearing member and two arbiters. *)
Definition samplePSA : ReplSetConfig.t :=
  sampleConfig [(sampleMember 0 false true, []); (sampleMember 1 true true, []);
                (sampleMember 2 true true, [])].

Lemma majorities_intersect_witness :
  ReplSetConfig.validate samplePSA (mkServerParams false false) = OK ∧
  (_writeMajority samplePSA, _majorityVoteCount samplePSA) = (1, 2).
Proof.
  assert (ReplSetConfig.validate samplePSA (mkServerParams false false) = OK) as Hv
    by (vm_compute; reflexivity).
  assert (samplePSA = _calculateMajorities samplePSA) as Hc by (vm_compute; reflexivity).
  pose proof (majorities_intersect samplePSA samplePSA _ Hv Hc) as [_ _].
  split; [exact Hv|vm_compute; reflexivity].
Defined.

(** ** What a validated configuration promises *)

Lemma enoughDataBearing_spec n ms :
  enoughDataBearing n ms = true ↔
  1 <= count_if (λ m, negb (isArbiter m)) ms ∧ n <= count_if (λ m, negb (isArbiter m)) ms.
Proof.
  revert n. induction ms as [|m ms IH]; intros n; simpl; [split; [done|lia]|].
  pose proof (count_if_bounds (λ m, negb (isArbiter m)) ms).
  destruct (isArbiter m); simpl; [by rewrite IH|].
  destruct (Z.leb_spec (n - 1) 0); [split; [lia|done]|]. rewrite IH. lia.
Qed.

Lemma count_data_bearing ms :
  count_if (λ m, negb (isArbiter m)) ms = Z.of_nat (length ms) - count_if isArbiter ms.
Proof. induction ms as [|m ms IH]; simpl; [done|]. destruct (isArbiter m); simpl; lia. Qed.

(** C28: a configuration that [validate] accepts has between 1 and 50 members with
    distinct ids and distinct host names, between 1 and 7 of them voting, every
    arbiter voting, every electable member voting, undelayed and visible, and at
    least one electable; and a numeric write concern can be satisfied in it exactly
    when it does not ask for more members than hold data. *)
Theorem validate_sound (c : ReplSetConfig.t) (sp : ServerParams)
    (Hv : ReplSetConfig.validate c sp = OK) :
  1 <= getNumMembers c <= kMaxMembers ∧
  NoDup (_id <$> _members c) ∧
  NoDup ((λ m, HostAndPort.key (getHostAndPort m)) <$> _members c) ∧
  1 <= count_if isVoter (_members c) <= kMaxVotingMembers ∧
  (∃ m, m ∈ _members c ∧ isElectable m = true) ∧
  (∀ m, m ∈ _members c →
     (isArbiter m = true → isVoter m = true) ∧
     (isElectable m = true → isVoter m = true ∧ isArbiter m = false ∧ _slaveDelay m = 0
        ∧ _hidden m = false ∧ _buildIndexes m = true)) ∧
  (∀ n, checkIfWriteConcernCanBeSatisfied c (WriteConcernOptions.mk "" n) = Satisfiable
        ↔ n <= getNumDataBearingMembers c).
Proof.
  apply validate_ok_valid in Hv. destruct Hv as [Hsz Hids Hhosts Hvot Hel Hall].
  split_and!; [lia|lia|done|done|lia|lia|done| |].
  - intros m Hm. destruct (member_validate_ok m (Hall m Hm)) as (_ & H1 & H2 & _). done.
  - intros n. destruct Hel as (m & Hm & He).
    unfold checkIfWriteConcernCanBeSatisfied, getNumDataBearingMembers, getNumMembers. simpl.
    rewrite <- count_data_bearing. pose proof (enoughDataBearing_spec n (_members c)) as Hs.
    assert (0 < count_if (λ m, negb (isArbiter m)) (_members c)).
    { apply count_if_pos. exists m. split; [done|]. by apply andb_true_iff in He as [? _]. }
    destruct (enoughDataBearing n (_members c)); [split; [|done]; intros _; apply Hs; done|].
    split; [done|]. intros Hn. assert (false = true) by (apply Hs; lia). done.
Qed.

Lemma validate_sound_witness :
  ReplSetConfig.validate samplePSA (mkServerParams false false) = OK ∧
  checkIfWriteConcernCanBeSatisfied samplePSA (WriteConcernOptions.mk "" 2) ≠ Satisfiable.
Proof.
  assert (ReplSetConfig.validate samplePSA (mkServerParams false false) = OK) as Hv
    by (vm_compute; reflexivity).
  split; [exact Hv|]. intros H.
  pose proof (validate_sound samplePSA _ Hv) as (_ & _ & _ & _ & _ & _ & Hn).
  apply Hn in H. vm_compute in H. by apply H.
Defined.
