(* ===== verification/TagCounting.v ===== *)
(** The internal tags at work: what the modes "$majority" and "$configMajority" of
    a configuration built from its members really ask for. *)
From stdpp Require Import gmap strings pretty.
From S2P Require Import Prelude OpTimes ReplSetTag ReplSetConfig ReplSetConfigFacts.
Import MemberConfig ReplSetConfig ReplSetTagConfig TagConfigFacts TagMatchFacts.

(** The strings behind a tag. *)
Definition tagReads (c : ReplSetTagConfig.t) (tg : ReplSetTag.t) (kv : string * string)
    : Prop := getTagKey c tg = Some kv.1 ∧ getTagValue c tg = Some kv.2.

(** No key occurs twice in the table. *)
Definition uniqueKeys (c : ReplSetTagConfig.t) : Prop := NoDup c.*1.

Lemma tagReads_extends c c' tg kv : extends c c' → tagReads c tg kv → tagReads c' tg kv.
Proof. intros H [H1 H2]. by apply (getTag_extends c). Qed.

Lemma makeTag_reads c k v :
  let '(c', tg) := makeTag c k v in extends c c' ∧ tagReads c' tg (k, v).
Proof.
  pose proof (makeTag_spec c k v) as H. destruct (makeTag c k v) as [c' tag].
  destruct H as (vs & Hx & Hl & E & Hv & ->). split; [done|].
  pose proof (find_index_from_bounds (λ x, bool_decide (x = v)) 0 vs) as Hb.
  rewrite (findTag_hit _ _ _ vs) by done. split; simpl.
  - apply getTagKey_spec. simpl. split; [lia|eauto].
  - apply getTagValue_spec. simpl. split_and!; [lia|lia|]. exists k, vs. split; [done|].
    destruct (find_index_hit _ _ Hv) as (x & Ex & Hx'%bool_decide_eq_true). by subst.
Qed.

Lemma ensureKey_unique c k : uniqueKeys c → uniqueKeys (ensureKey c k).
Proof.
  unfold uniqueKeys, ensureKey. intros H.
  destruct (Z.eqb_spec (_findKeyIndex c k) (Z.of_nat (length c))) as [E|E]; [|done].
  rewrite fmap_app. apply NoDup_app. split_and!; [done| |apply NoDup_singleton].
  intros x Hx Hk%list_elem_of_singleton. apply list_elem_of_fmap in Hx as (e & -> & He).
  pose proof (find_index_miss _ _ E e He) as Hm. simpl in Hm.
  by rewrite bool_decide_true in Hm.
Qed.

Lemma makeTag_unique c k v : uniqueKeys c → uniqueKeys (makeTag c k v).1.
Proof.
  intros H%(ensureKey_unique _ k). unfold makeTag. fold (ensureKey c k).
  destruct (ensureKey c k !! _) as [[k' vs]|] eqn:E; [|done].
  case_match; [done|]. unfold uniqueKeys in *. simpl. rewrite list_fmap_insert. simpl.
  rewrite list_insert_id; [done|]. by rewrite list_lookup_fmap, E.
Qed.

(** A member's tags read as its user tags followed by its internal ones. *)
Lemma push_tags_reads kvs c tags done :
  uniqueKeys c → Forall2 (tagReads c) tags done →
  let '(c', tags') := foldl push_tag (c, tags) kvs in
  extends c c' ∧ uniqueKeys c' ∧ Forall2 (tagReads c') tags' (done ++ kvs).
Proof.
  revert c tags done. induction kvs as [|[k v] kvs IH]; intros c tags done Hu Hd; simpl.
  - rewrite app_nil_r. split_and!; [apply extends_refl|done|done].
  - unfold push_tag at 2. simpl. pose proof (makeTag_reads c k v) as Hr.
    pose proof (makeTag_unique c k v Hu) as Hu'.
    destruct (makeTag c k v) as [c1 tg]. destruct Hr as [Hx Hr].
    assert (Forall2 (tagReads c1) (tags ++ [tg]) (done ++ [(k, v)])) as Hd1.
    { apply Forall2_app; [|constructor; [done|constructor]].
      eapply Forall2_impl; [done|]. intros. by eapply tagReads_extends. }
    specialize (IH c1 _ _ Hu' Hd1). destruct (foldl push_tag _ kvs) as [c2 tags2].
    destruct IH as (Hx2 & Hu2 & Hd2). split_and!; [by eapply extends_trans|done|].
    by rewrite <- app_assoc in Hd2.
Qed.

(** The strings of the tags of one constructed member. *)
Definition memberTags (spec : MemberConfig.t * list (string * string))
    : list (string * string) := spec.2 ++ internalTags spec.1.

(** What construction keeps of the parsed fields. *)
Definition sameFields (m : MemberConfig.t) (spec : MemberConfig.t * list (string * string))
    : Prop :=
  m = set_tags spec.1 (_tags m).

Lemma constructMembers_spec specs c :
  uniqueKeys c →
  let '(c', ms) := constructMembers c specs in
  extends c c' ∧ uniqueKeys c' ∧
  Forall2 (λ m spec, sameFields m spec ∧ Forall2 (tagReads c') (_tags m) (memberTags spec))
    ms specs.
Proof.
  revert c. induction specs as [|[m user] specs IH]; intros c Hu; simpl.
  - split_and!; [apply extends_refl|done|constructor].
  - unfold construct. pose proof (push_tags_reads (user ++ internalTags m) c [] []
      Hu (proj2 (Forall2_nil _) I)) as Hp.
    destruct (foldl push_tag _ _) as [c1 tags]. destruct Hp as (Hx1 & Hu1 & Ht).
    specialize (IH c1 Hu1). destruct (constructMembers c1 specs) as [c2 rest].
    destruct IH as (Hx2 & Hu2 & Hrest).
    split_and!; [by eapply extends_trans|done|]. constructor; [|done].
    split; [done|]. simpl. eapply Forall2_impl; [done|].
    intros. by eapply tagReads_extends.
Qed.

(** ** One key's values among the tags of some members *)

Section OneKey.
Context (c : ReplSetTagConfig.t) (Hu : uniqueKeys c) (key : string).
Let kidx : Z := _findKeyIndex c key.
Context (Hhit : kidx < Z.of_nat (length c)).

Lemma key_index_iff tg kv :
  tagReads c tg kv → ReplSetTag.keyIndex tg = kidx ↔ kv.1 = key.
Proof.
  intros [[H0 [vs E]]%getTagKey_spec _]. destruct (key_of_hit c key Hhit) as [vs' E'].
  fold kidx in E'. split.
  - intros Ek. rewrite Ek, E' in E. by simplify_eq.
  - intros <-. pose proof (find_index_from_bounds
      (λ e : string * list string, bool_decide (e.1 = kv.1)) 0 c) as Hb.
    change (0 <= kidx <= 0 + Z.of_nat (length c)) in Hb.
    assert (Z.to_nat (ReplSetTag.keyIndex tg) = Z.to_nat kidx); [|lia].
    apply (NoDup_lookup c.*1 _ _ kv.1 Hu); rewrite list_lookup_fmap.
    + by rewrite E.
    + by rewrite E'.
Qed.

(** The value indices under the key stand for the value strings under the key. *)
Definition valueReads (vi : Z) (v : string) : Prop :=
  getTagValue c (ReplSetTag.mk kidx vi) = Some v.

Lemma filter_reads tgs kvs :
  Forall2 (tagReads c) tgs kvs →
  Forall2 valueReads
    (ReplSetTag.valueIndex <$> filter (λ tg, ReplSetTag.keyIndex tg = kidx) tgs)
    (filter (λ kv, kv.1 = key) kvs).*2.
Proof.
  induction 1 as [|tg kv tgs kvs Hr H IH]; [constructor|].
  destruct (decide (ReplSetTag.keyIndex tg = kidx)) as [E|E].
  - rewrite !filter_cons_True by (done || by apply (key_index_iff tg kv Hr)). simpl.
    constructor; [|done]. unfold valueReads. rewrite <- E. destruct Hr as [_ Hr]. by destruct tg.
  - rewrite !filter_cons_False; [done| |done].
    intros Hk. by apply E, (key_index_iff tg kv Hr).
Qed.

(** [q] says which members carry a tag under the key; its value is their id. *)
Context (q : MemberConfig.t → bool) (specs : list (MemberConfig.t * list (string * string))).
Context (Hq : ∀ spec, spec ∈ specs →
  filter (λ kv, kv.1 = key) (memberTags spec)
  = if q spec.1 then [(key, pretty (_id spec.1))] else []).
Context (Hqf : ∀ m tags, q (set_tags m tags) = q m).

Lemma flat_reads (p : MemberConfig.t → bool) ms :
  Forall2 (λ m spec, sameFields m spec ∧ Forall2 (tagReads c) (_tags m) (memberTags spec))
    ms specs →
  Forall2 valueReads
    (ReplSetTag.valueIndex <$> filter (λ tg, ReplSetTag.keyIndex tg = kidx)
       (filter (λ m, p m = true) ms ≫= _tags))
    ((λ m, pretty (_id m)) <$> filter (λ m, p m && q m = true) ms).
Proof.
  intros H. induction H as [|m spec ms specs' [Hf Hr] H IH]; [constructor|].
  assert (q m = q spec.1) as Eq by (rewrite Hf; apply Hqf).
  assert (_id m = _id spec.1) as Ei by by rewrite Hf.
  specialize (IH (λ s Hs, Hq s (list_elem_of_further _ _ _ Hs))).
  destruct (p m) eqn:Ep.
  - rewrite (filter_cons_True (λ m, p m = true)) by done.
    rewrite bind_cons, filter_app, fmap_app.
    pose proof (filter_reads _ _ Hr) as Hm. rewrite Hq in Hm by left.
    rewrite <- Eq, <- Ei in Hm. destruct (q m) eqn:Eqm.
    + rewrite filter_cons_True by by rewrite Ep. rewrite fmap_cons.
      apply (Forall2_app (l1' := [pretty (_id m)])); done.
    + rewrite (filter_cons_False (λ m, p m && q m = true)) by by rewrite Ep, Eqm.
      apply (Forall2_app (l1' := [])); done.
  - rewrite !filter_cons_False; [done|by rewrite Ep|by rewrite Ep].
Qed.

(** The distinct values under the key are as many as the selected members that
    carry it, since member ids differ. *)
Lemma flat_count (p : MemberConfig.t → bool) ms :
  Forall2 (λ m spec, sameFields m spec ∧ Forall2 (tagReads c) (_tags m) (memberTags spec))
    ms specs →
  NoDup (_id <$> ms) →
  Z.of_nat (size (taggedValues kidx (filter (λ m, p m = true) ms ≫= _tags)))
  = count_if (λ m, p m && q m) ms.
Proof.
  intros H Hnd. pose proof (flat_reads p ms H) as Hr. unfold taggedValues.
  set (vis := ReplSetTag.valueIndex <$> _) in *.
  set (sel := filter (λ m, p m && q m = true) ms) in *.
  assert (NoDup ((λ m, pretty (_id m)) <$> sel : list string)) as Hns.
  { change (NoDup (pretty ∘ _id <$> sel)). rewrite list_fmap_compose. apply NoDup_fmap_2; [apply _|].
    eapply sublist_NoDup; [done|]. apply fmap_sublist, sublist_filter. }
  assert (NoDup vis) as Hnv.
  { apply NoDup_alt. intros i j vi Hi Hj.
    destruct (Forall2_lookup_l _ _ _ _ _ Hr Hi) as (s & Hs & Hvs).
    destruct (Forall2_lookup_l _ _ _ _ _ Hr Hj) as (s' & Hs' & Hvs').
    unfold valueReads in *. rewrite Hvs in Hvs'. simplify_eq.
    eapply (NoDup_lookup _ _ _ _ Hns); done. }
  rewrite size_list_to_set by done. rewrite (Forall2_length _ _ _ Hr), length_fmap.
  unfold sel. clear. induction ms as [|m ms IH]; [done|]. simpl.
  destruct (p m && q m) eqn:E.
  - rewrite filter_cons_True by done. simpl. lia.
  - rewrite filter_cons_False by congruence. lia.
Qed.
End OneKey.

(** ** The modes of a constructed configuration *)

(** The user's tags leave the names reserved for the server alone. *)
Definition userTagsClean (specs : list (MemberConfig.t * list (string * string))) : Prop :=
  ∀ spec kv, spec ∈ specs → kv ∈ spec.2 →
    kv.1 ∉ [kInternalVoterTagName; kConfigVoterTagName].

Lemma filter_user_clean key (user : list (string * string)) :
  (∀ kv, kv ∈ user → kv.1 ≠ key) → filter (λ kv, kv.1 = key) user = [].
Proof.
  induction user as [|kv user IH]; intros H; [done|].
  rewrite filter_cons_False by (apply H; left). apply IH. intros. apply H. by right.
Qed.

Lemma voter_tag_values specs :
  userTagsClean specs → ∀ spec, spec ∈ specs →
  filter (λ kv, kv.1 = kInternalVoterTagName) (memberTags spec)
  = (if isWritableVoter spec.1 then [(kInternalVoterTagName, pretty (_id spec.1))] else []) ∧
  filter (λ kv, kv.1 = kConfigVoterTagName) (memberTags spec)
  = (if isVoter spec.1 then [(kConfigVoterTagName, pretty (_id spec.1))] else []).
Proof.
  intros Hc spec Hs. unfold memberTags.
  rewrite !filter_app, !(filter_user_clean _ spec.2);
    [|intros kv Hkv; pose proof (Hc spec kv Hs Hkv); set_solver..].
  unfold internalTags, isWritableVoter, isArbiter, isElectable, isArbiter.
  destruct (isVoter spec.1), (_arbiterOnly spec.1), (dlt dzero (getPriority spec.1)); done.
Qed.

Lemma q_set_tags :
  (∀ m tags, isWritableVoter (set_tags m tags) = isWritableVoter m) ∧
  (∀ m tags, isVoter (set_tags m tags) = isVoter m).
Proof. done. Qed.

(** The pattern of a mode with one constraint on a key that exists. *)
Lemma addConstraint_pattern tc key n pat :
  addTagCountConstraintToPattern tc [] key n = Some pat →
  pat = [ReplSetTagPattern.mkC (_findKeyIndex tc key) n] ∧
  _findKeyIndex tc key < Z.of_nat (length tc).
Proof.
  unfold addTagCountConstraintToPattern. case_match eqn:E; [done|]. intros [= <-].
  apply Z.eqb_neq in E. split; [done|].
  pose proof (find_index_from_bounds (λ e : string * list string,
    bool_decide (e.1 = key)) 0 tc). unfold _findKeyIndex in *. lia.
Qed.

(** A match of one positive count over the members that satisfy [p]. *)
Lemma one_key_match specs tc ms key n pat (p q : MemberConfig.t → bool) :
  constructMembers [] specs = (tc, ms) →
  NoDup (_id <$> ms) →
  (∀ spec, spec ∈ specs → filter (λ kv, kv.1 = key) (memberTags spec)
     = if q spec.1 then [(key, pretty (_id spec.1))] else []) →
  (∀ m tags, q (set_tags m tags) = q m) →
  addTagCountConstraintToPattern tc [] key n = Some pat → 0 < n →
  (ReplSetTagMatch.updateUntil (ReplSetTagMatch.ofPattern pat)
     (filter (λ m, p m = true) ms ≫= _tags)).1 = true
  ↔ n <= count_if (λ m, p m && q m) ms.
Proof.
  intros Hcm Hnd Hq Hqf [-> Hhit]%addConstraint_pattern Hn.
  pose proof (constructMembers_spec specs [] (NoDup_nil_2)) as H. rewrite Hcm in H.
  destruct H as (_ & Hu & Hms).
  rewrite (updateUntil_spec [ReplSetTagPattern.mkC (_findKeyIndex tc key) n] _ []);
    [|apply NoDup_singleton|apply ofPattern_ok].
  pose proof (flat_count tc Hu key Hhit q specs Hq Hqf p ms Hms Hnd) as Hc.
  unfold patternHolds. rewrite <- Hc. split.
  - intros [_ Hall]. by apply (Hall (ReplSetTagPattern.mkC _ n)), list_elem_of_here.
  - intros Hle. split.
    + intros E. rewrite E in Hle. vm_compute in Hle. destruct n; done.
    + intros c ->%list_elem_of_singleton. done.
Qed.

(** The pattern that was added under the name "$majority". *)
Lemma majority_pattern c1 pat :
  findCustomWriteMode (_addInternalWriteConcernModes c1) kMajorityWriteConcernModeName = Some pat →
  findCustomWriteMode c1 kMajorityWriteConcernModeName = None →
  addTagCountConstraintToPattern (_tagConfig c1) [] kInternalVoterTagName (_writeMajority c1)
  = Some pat.
Proof.
  intros Hpat Hfresh. unfold _addInternalWriteConcernModes, addMode in Hpat.
  unfold findCustomWriteMode in *. simpl in *.
  repeat (case_match; simpl in *; rewrite ?lookup_insert_ne in Hpat by done);
    rewrite ?lookup_insert_eq in Hpat; congruence.
Qed.

(** The mode "$majority" of a configuration built from its members counts
    what it should: whatever members have acknowledged, its pattern is satisfied
    exactly when at least [getWriteMajority()] of them are voting members that
    hold data; arbiters and non-voting members do not count.  The user's tags
    must not use the server's own keys, which the parser does not forbid. *)
Theorem majority_mode_counts_voters
    (specs : list (MemberConfig.t * list (string * string))) tc ms c c1
    (pat : ReplSetTagPattern.t) (acked : MemberConfig.t → bool)
    (Hm : constructMembers [] specs = (tc, ms)) (Hids : NoDup (_id <$> ms))
    (Hclean : userTagsClean specs)
    (Hc : c1 = _calculateMajorities c) (Hcm : _members c = ms) (Hct : _tagConfig c = tc)
    (Hpos : 0 < _writeMajority c1)
    (Hpat : findCustomWriteMode (_addInternalWriteConcernModes c1)
              kMajorityWriteConcernModeName = Some pat)
    (Hfresh : findCustomWriteMode c kMajorityWriteConcernModeName = None) :
  (ReplSetTagMatch.updateUntil (ReplSetTagMatch.ofPattern pat)
     (filter (λ m, acked m = true) (_members c1) ≫= _tags)).1 = true
  ↔ _writeMajority c1 <= count_if (λ m, acked m && isWritableVoter m) (_members c1).
Proof.
  assert (addTagCountConstraintToPattern tc [] kInternalVoterTagName (_writeMajority c1)
          = Some pat) as Hadd.
  { replace tc with (_tagConfig c1) by by subst. apply majority_pattern; [done|by subst]. }
  assert (_members c1 = ms) as -> by by subst.
  apply (one_key_match specs tc ms kInternalVoterTagName); try done.
  intros spec Hs. by apply (voter_tag_values specs).
Qed.

Lemma majority_mode_counts_voters_witness :
  (_writeMajority samplePSA <=? count_if (λ m, (_id m =? 0) && isWritableVoter m)
     (_members samplePSA)) = true.
Proof.
  pose (specs := [(sampleMember 0 false true, [] : list (string * string));
                  (sampleMember 1 true true, []); (sampleMember 2 true true, [])]).
  destruct (constructMembers [] specs) as [tc ms] eqn:Hm.
  pose (c := ReplSetConfig.mk true 1 1 "rs" ms (WriteConcernOptions.mk "" 1) 10000 2000 true
     true 0 0 0 0 tc ∅ 1 false true).
  vm_compute in Hm. injection Hm as Etc Ems.
  destruct (findCustomWriteMode (_addInternalWriteConcernModes (_calculateMajorities c))
    kMajorityWriteConcernModeName) as [pat|] eqn:Hpat;
    [|subst tc ms; vm_compute in Hpat; discriminate Hpat].
  apply Z.leb_le.
  change (_writeMajority samplePSA) with 1.
  assert (_members samplePSA = _members (_calculateMajorities c)) as ->
    by (subst tc ms; vm_compute; reflexivity).
  assert (1 = _writeMajority (_calculateMajorities c)) as Ewm
    by (subst tc ms; vm_compute; reflexivity).
  rewrite Ewm.
  apply (majority_mode_counts_voters specs tc ms c _ pat (λ m, _id m =? 0)).
  - subst tc ms. vm_compute. reflexivity.
  - subst ms. apply (bool_decide_eq_true_1 (NoDup _)). vm_compute. reflexivity.
  - intros spec kv Hs Hkv. exfalso.
    repeat (apply elem_of_cons in Hs as [->|Hs]; [by apply elem_of_nil in Hkv|]).
    by apply elem_of_nil in Hs.
  - reflexivity.
  - reflexivity.
  - reflexivity.
  - rewrite <- Ewm. lia.
  - exact Hpat.
  - reflexivity.
  - subst tc ms. injection Hpat as <-. vm_compute. reflexivity.
Defined.

(** Members whose parsed id and vote are given, with five voters: the sample the
    next facts are about. *)
Definition sampleFive : ReplSetConfig.t :=
  sampleConfig ((λ i, (sampleMember i false true, [])) <$> [0; 1; 2; 3; 4]).

(** C27: what the mode "$configMajority" asks for in a configuration whose users' tags do
    not take the names of the internal tags (they would count too, as
    [user_tag_counts_as_voter] shows): its pattern is satisfied exactly
    when [majorityVoteCount / 2 + 1] of the acknowledging members vote, and that
    number is more than half of the voters only when the set has at most three of
    them.  From four voters on, two disjoint groups can each be a "config
    majority", although the comment calls it the majority of all voting members. *)
Theorem config_majority_mode_counts
    (specs : list (MemberConfig.t * list (string * string))) tc ms c c1
    (pat : ReplSetTagPattern.t) (acked : MemberConfig.t → bool)
    (Hm : constructMembers [] specs = (tc, ms)) (Hids : NoDup (_id <$> ms))
    (Hclean : userTagsClean specs)
    (Hc : c1 = _calculateMajorities c) (Hcm : _members c = ms) (Hct : _tagConfig c = tc)
    (Hpat : findCustomWriteMode (_addInternalWriteConcernModes c1)
              kConfigMajorityWriteConcernModeName = Some pat)
    (Hfresh : findCustomWriteMode c kConfigMajorityWriteConcernModeName = None) :
  let need := Z.quot (_majorityVoteCount c1) 2 + 1 in
  ((ReplSetTagMatch.updateUntil (ReplSetTagMatch.ofPattern pat)
      (filter (λ m, acked m = true) (_members c1) ≫= _tags)).1 = true
   ↔ need <= count_if (λ m, acked m && isVoter m) (_members c1)) ∧
  (_totalVotingMembers c1 < 2 * need ↔ _totalVotingMembers c1 <= 3).
Proof.
  intros need.
  pose proof (count_if_bounds isVoter (_members c)) as Hb.
  assert (_totalVotingMembers c1 = count_if isVoter (_members c) ∧
          need = Z.quot (Z.quot (count_if isVoter (_members c)) 2 + 1) 2 + 1) as [Ht Hn]
    by by subst.
  split; [|rewrite Ht, Hn; Z.to_euclidean_division_equations; lia].
  assert (0 < need) by (rewrite Hn; Z.to_euclidean_division_equations; lia).
  assert (addTagCountConstraintToPattern tc [] kConfigVoterTagName need = Some pat) as Hadd.
  { subst. unfold need. unfold _addInternalWriteConcernModes, addMode in Hpat.
    unfold findCustomWriteMode in *. simpl in *.
    repeat (case_match; simpl in *; rewrite ?lookup_insert_ne in Hpat by done);
      rewrite ?lookup_insert_eq in Hpat; try congruence. }
  assert (_members c1 = ms) as -> by by subst.
  apply (one_key_match specs tc ms kConfigVoterTagName need); try done.
  intros spec Hs. by apply (voter_tag_values specs).
Qed.

(** Five voters: members 0 and 1 satisfy the config majority, and so do 2 and 3. *)
Lemma config_majority_mode_counts_witness :
  match findCustomWriteMode sampleFive kConfigMajorityWriteConcernModeName with
  | Some pat =>
      let sat p := (ReplSetTagMatch.updateUntil (ReplSetTagMatch.ofPattern pat)
                      (filter (λ m, p m = true) (_members sampleFive) ≫= _tags)).1 = true in
      ReplSetConfig.validate sampleFive (mkServerParams false false) = OK ∧
      sat (λ m, _id m <? 2) ∧ sat (λ m, (_id m =? 2) || (_id m =? 3))
  | None => False
  end.
Proof.
  pose (specs := (λ i, (sampleMember i false true, [] : list (string * string)))
                   <$> [0; 1; 2; 3; 4]).
  assert (sampleFive = _addInternalWriteConcernModes (_calculateMajorities sampleFive)) as E
    by (vm_compute; reflexivity).
  pose (fresh := set_modes sampleFive ∅).
  assert (_addInternalWriteConcernModes (_calculateMajorities fresh) = sampleFive) as Ef
    by (vm_compute; reflexivity).
  destruct (constructMembers [] specs) as [tc ms] eqn:Hm.
  assert (_members fresh = ms ∧ _tagConfig fresh = tc) as [Ems Etc]
    by (vm_compute in Hm; injection Hm as <- <-; split; vm_compute; reflexivity).
  destruct (findCustomWriteMode sampleFive kConfigMajorityWriteConcernModeName) as [pat|] eqn:Hp;
    [|vm_compute in Hp; discriminate Hp].
  rewrite <- Ef in Hp.
  assert (NoDup (_id <$> ms)) as Hids
    by (rewrite <- Ems; apply (bool_decide_eq_true_1 (NoDup _)); vm_compute; reflexivity).
  assert (userTagsClean specs) as Hclean.
  { intros spec kv Hs Hkv. exfalso. unfold specs in Hs.
    apply list_elem_of_fmap in Hs as (i & -> & _). by apply elem_of_nil in Hkv. }
  pose proof (λ acked, config_majority_mode_counts specs tc ms fresh _ pat acked
    Hm Hids Hclean eq_refl Ems Etc Hp eq_refl) as T.
  split_and!; [vm_compute; reflexivity| |].
  - apply (T (λ m, _id m <? 2)). vm_compute. discriminate.
  - apply (T (λ m, (_id m =? 2) || (_id m =? 3))). vm_compute. discriminate.
Defined.

(** A user tag may carry the server's own key: two members without a vote then
    satisfy "$majority" of a set with three voters. *)
Lemma user_tag_counts_as_voter :
  let c := sampleConfig
    [(sampleMember 0 false true, []); (sampleMember 1 false true, []);
     (sampleMember 2 false true, []);
     (sampleMember 3 false false, [("$voter", "a")]);
     (sampleMember 4 false false, [("$voter", "b")])] in
  ReplSetConfig.validate c (mkServerParams false false) = OK ∧
  match findCustomWriteMode c kMajorityWriteConcernModeName with
  | Some pat =>
      (ReplSetTagMatch.updateUntil (ReplSetTagMatch.ofPattern pat)
         (filter (λ m, negb (isVoter m) = true) (_members c) ≫= _tags)).1 = true
  | None => False
  end.
Proof. vm_compute. split; reflexivity. Qed.
