(* ===== verification/MemberData.v ===== *)
(** What a node knows about one member: src/mongo/db/repl/member_data.{h,cpp}, with
    the fields of the heartbeat response it keeps
    (src/mongo/db/repl/repl_set_heartbeat_response.h). *)
From stdpp Require Import strings.
From S2P Require Import Prelude OpTimes ReplSetTag ReplSetConfig.

(** ** States of a member: src/mongo/db/repl/member_state.h

    The class wraps an integer: [create] lets every value from 0 to [RS_MAX] through, 4
    included, which names no state. *)
Module MemberState.
(** The value [s]. *)
Abbreviation t := Z.

Definition RS_STARTUP : t := 0.
Definition RS_PRIMARY : t := 1.
Definition RS_SECONDARY : t := 2.
Definition RS_RECOVERING : t := 3.
Definition RS_STARTUP2 : t := 5.
Definition RS_UNKNOWN : t := 6.
Definition RS_ARBITER : t := 7.
Definition RS_DOWN : t := 8.
Definition RS_ROLLBACK : t := 9.
Definition RS_REMOVED : t := 10.
Definition RS_MAX : t := 10.

(** [create] at a 64-bit signed argument: the value is narrowed to the 32-bit
    unsigned underlying type before it is compared with [RS_MAX]. *)
Definition create (v : Z) : option t :=
  if v <? 0 then None
  else
    let asUnderlying := v mod 2^32 in
    if RS_MAX <? asUnderlying then None else Some asUnderlying.

Definition startup (s : t) : bool := s =? RS_STARTUP.
Definition primary (s : t) : bool := s =? RS_PRIMARY.
Definition secondary (s : t) : bool := s =? RS_SECONDARY.
Definition recovering (s : t) : bool := s =? RS_RECOVERING.
Definition startup2 (s : t) : bool := s =? RS_STARTUP2.
Definition rollback (s : t) : bool := s =? RS_ROLLBACK.
Definition readable (s : t) : bool := (s =? RS_PRIMARY) || (s =? RS_SECONDARY).
Definition removed (s : t) : bool := s =? RS_REMOVED.
Definition arbiter (s : t) : bool := s =? RS_ARBITER.

Definition toString (s : t) : string :=
  if s =? RS_STARTUP then "STARTUP" else
  if s =? RS_PRIMARY then "PRIMARY" else
  if s =? RS_SECONDARY then "SECONDARY" else
  if s =? RS_RECOVERING then "RECOVERING" else
  if s =? RS_STARTUP2 then "STARTUP2" else
  if s =? RS_ARBITER then "ARBITER" else
  if s =? RS_DOWN then "DOWN" else
  if s =? RS_ROLLBACK then "ROLLBACK" else
  if s =? RS_UNKNOWN then "UNKNOWN" else
  if s =? RS_REMOVED then "REMOVED" else "".

(** A value that [create] rejects is negative, or its low 32 bits name no state;
    a value above 2^32 whose low bits do name one is accepted. *)
Lemma create_wraps : create (2^32 + RS_PRIMARY) = Some RS_PRIMARY.
Proof. reflexivity. Qed.

Lemma create_named s :
  0 <= s <= RS_MAX → create s = Some s.
Proof.
  intros H. unfold create, RS_MAX in *.
  destruct (Z.ltb_spec s 0); [lia|]. rewrite Z.mod_small by lia.
  by destruct (Z.ltb_spec 10 s); [lia|].
Qed.
End MemberState.

(** [Date_t]: milliseconds; [Date_t()] is 0 and [Date_t::max()] the largest value. *)
Abbreviation Date_t := Z.
Definition Date_max : Date_t := 2^63 - 1.

Module ReplSetHeartbeatResponse.
(** Optional fields are the pairs of a value and its [...Set] flag. *)
Record t := mk {
  _state : option MemberState.t;
  _electionTime : option Timestamp.t;
  _appliedOpTime : option OpTimeAndWallTime.t;
  _durableOpTime : option OpTimeAndWallTime.t;
  _electable : option bool;
  _term : Z;
  _configVersion : Z;
  _configTerm : Z;
  _syncingTo : HostAndPort.t
}.

(** The default constructor. *)
Definition empty : t :=
  mk None None None None None (-1) (-1) OpTime.kUninitializedTerm HostAndPort.null.

Definition getConfigVersionAndTerm (r : t) : ConfigVersionAndTerm.t :=
  ConfigVersionAndTerm.mk (_configVersion r) (_configTerm r).
End ReplSetHeartbeatResponse.

Module MemberData.
Import ReplSetHeartbeatResponse.

Record t := mkMD {
  _health : Z;                        (* -1 not checked, 0 down, 1 up *)
  _upSince : Date_t;
  _lastHeartbeat : Date_t;
  _lastHeartbeatMessage : string;
  _authIssue : bool;
  _lastResponse : ReplSetHeartbeatResponse.t;
  _updatedSinceRestart : bool;
  _lastUpdate : Date_t;
  _lastUpdateStale : bool;
  _lastDurableOpTime : OpTime.t;
  _lastDurableWallTime : Date_t;
  _lastAppliedOpTime : OpTime.t;
  _lastAppliedWallTime : Date_t;
  _mdConfigVersion : Z;
  _mdConfigTerm : Z;
  _configIndex : Z;
  _isSelf : bool;
  _memberId : Z;
  _hostAndPort : HostAndPort.t
}.

(** The response a member without a fresh heartbeat is given. *)
Definition blankResponse (state : MemberState.t) : ReplSetHeartbeatResponse.t :=
  mk (Some state) (Some Timestamp.null) (Some OpTimeAndWallTime.null) None None
     (-1) (-1) OpTime.kUninitializedTerm HostAndPort.null.

Definition default : t :=
  mkMD (-1) 0 0 "" false (blankResponse MemberState.RS_UNKNOWN) false 0 false
       OpTime.null 0 OpTime.null 0 (-1) OpTime.kUninitializedTerm (-1) false (-1)
       HostAndPort.null.

(** Getters of the response; its setters are always called before it is stored
    (see [wf]), so the defaults here stand for the getters' invariants. *)
Definition getState (m : t) : MemberState.t :=
  option.default MemberState.RS_UNKNOWN (_state (_lastResponse m)).
Definition getElectionTime (m : t) : Timestamp.t :=
  option.default Timestamp.null (_electionTime (_lastResponse m)).
Definition getHeartbeatAppliedOpTime (m : t) : OpTime.t :=
  OpTimeAndWallTime.opTime
    (option.default OpTimeAndWallTime.null (_appliedOpTime (_lastResponse m))).
Definition getHeartbeatDurableOpTime (m : t) : OpTime.t :=
  match _durableOpTime (_lastResponse m) with
  | Some o => OpTimeAndWallTime.opTime o
  | None => OpTime.null
  end.
Definition getTerm (m : t) : Z := _term (_lastResponse m).
Definition getConfigVersionAndTerm (m : t) : ConfigVersionAndTerm.t :=
  ConfigVersionAndTerm.mk (_mdConfigVersion m) (_mdConfigTerm m).
Definition up (m : t) : bool := 0 <? _health m.
Definition maybeUp (m : t) : bool := negb (_health m =? 0).
Definition isUnelectable (m : t) : bool :=
  match _electable (_lastResponse m) with Some e => negb e | None => false end.

(** The stored response has the three fields the getters insist on. *)
Definition wf (m : t) : Prop :=
  is_Some (_state (_lastResponse m)) ∧ is_Some (_electionTime (_lastResponse m)) ∧
  is_Some (_appliedOpTime (_lastResponse m)).

(** Setters. *)
Definition markLastUpdateStale (m : t) : t :=
  let 'mkMD h us lh lm ai lr ur lu _ d dw a aw cv ct ci se mi hp := m in
  mkMD h us lh lm ai lr ur lu true d dw a aw cv ct ci se mi hp.
Definition updateLiveness (now : Date_t) (m : t) : t :=
  let 'mkMD h us lh lm ai lr ur _ _ d dw a aw cv ct ci se mi hp := m in
  mkMD h us lh lm ai lr ur now false d dw a aw cv ct ci se mi hp.
Definition restart (m : t) : t :=
  let 'mkMD h us lh lm ai lr _ lu ls d dw a aw cv ct ci se mi hp := m in
  mkMD h us lh lm ai lr false lu ls d dw a aw cv ct ci se mi hp.
Definition setConfigVersionTerm (v tm : Z) (m : t) : t :=
  let 'mkMD h us lh lm ai lr ur lu ls d dw a aw _ _ ci se mi hp := m in
  mkMD h us lh lm ai lr ur lu ls d dw a aw v tm ci se mi hp.
Definition setIdentity (configIndex : Z) (isSelf : bool) (memberId : Z)
    (hp : HostAndPort.t) (m : t) : t :=
  let 'mkMD h us lh lm ai lr ur lu ls d dw a aw cv ct _ _ _ _ := m in
  mkMD h us lh lm ai lr ur lu ls d dw a aw cv ct configIndex isSelf memberId hp.
Definition setApplied (o : OpTimeAndWallTime.t) (m : t) : t :=
  let 'mkMD h us lh lm ai lr ur lu ls d dw _ _ cv ct ci se mi hp := m in
  mkMD h us lh lm ai lr ur lu ls d dw (OpTimeAndWallTime.opTime o)
       (OpTimeAndWallTime.wallTime o) cv ct ci se mi hp.
Definition setDurable (o : OpTimeAndWallTime.t) (m : t) : t :=
  let 'mkMD h us lh lm ai lr ur lu ls _ _ a aw cv ct ci se mi hp := m in
  mkMD h us lh lm ai lr ur lu ls (OpTimeAndWallTime.opTime o)
       (OpTimeAndWallTime.wallTime o) a aw cv ct ci se mi hp.

(** A non-null optime comes with a wall clock time. *)
Definition wallOk (o : OpTimeAndWallTime.t) : bool :=
  OpTime.isNull (OpTimeAndWallTime.opTime o) || (0 <? OpTimeAndWallTime.wallTime o).

Definition setLastAppliedOpTimeAndWallTime (o : OpTimeAndWallTime.t) (now : Date_t) (m : t)
    : option t :=
  invariant (wallOk o) ;; Some (setApplied o (updateLiveness now m)).

(** The durable optime only follows the applied one. *)
Definition setLastDurableOpTimeAndWallTime (o : OpTimeAndWallTime.t) (now : Date_t) (m : t)
    : option t :=
  invariant (wallOk o) ;;
  let m := updateLiveness now m in
  Some (if OpTime.ge (_lastAppliedOpTime m) (OpTimeAndWallTime.opTime o)
        then setDurable o m else m).

Definition advanceLastAppliedOpTimeAndWallTime (o : OpTimeAndWallTime.t) (now : Date_t) (m : t)
    : option (t * bool) :=
  invariant (wallOk o) ;;
  let m := updateLiveness now m in
  if OpTime.lt (_lastAppliedOpTime m) (OpTimeAndWallTime.opTime o) then
    m ← setLastAppliedOpTimeAndWallTime o now m; Some (m, true)
  else Some (m, false).

Definition advanceLastDurableOpTimeAndWallTime (o : OpTimeAndWallTime.t) (now : Date_t) (m : t)
    : option (t * bool) :=
  invariant (wallOk o) ;;
  let m := updateLiveness now m in
  if OpTime.lt (_lastDurableOpTime m) (OpTimeAndWallTime.opTime o) then
    Some (setDurable o m, true)
  else Some (m, false).

(** [setUpValues]: a heartbeat response came in.  Missing fields are taken over
    from the last response; the result says whether an optime or the member's
    configuration advanced. *)
Definition setUpValues (now : Date_t) (hb : ReplSetHeartbeatResponse.t) (m : t)
    : option (t * bool) :=
  let hb :=
    mk (Some (option.default MemberState.RS_UNKNOWN (_state hb)))
       (Some (option.default (getElectionTime m) (_electionTime hb)))
       (Some (option.default
                (option.default OpTimeAndWallTime.null (_appliedOpTime (_lastResponse m)))
                (_appliedOpTime hb)))
       (_durableOpTime hb) (_electable hb) (_term hb) (_configVersion hb) (_configTerm hb)
       (_syncingTo hb) in
  let '(mkMD _ us _ _ _ lr _ _ _ d dw a aw cv ct ci se mi hp) := m in
  let m := mkMD 1 (if us =? 0 then now else us) now "" false lr true now false
                d dw a aw cv ct ci se mi hp in
  r1 ← advanceLastAppliedOpTimeAndWallTime
         (option.default OpTimeAndWallTime.null (_appliedOpTime hb)) now m;
  let '(m, adv1) := r1 in
  r2 ← advanceLastDurableOpTimeAndWallTime
         (option.default OpTimeAndWallTime.null (_durableOpTime hb)) now m;
  let '(m, adv2) := r2 in
  let configChanged := ConfigVersionAndTerm.lt (getConfigVersionAndTerm m)
                         (ReplSetHeartbeatResponse.getConfigVersionAndTerm hb) in
  let '(mkMD h us lh lm ai _ ur lu ls d dw a aw _ _ ci se mi hp) := m in
  Some (mkMD h us lh lm ai hb ur lu ls d dw a aw
          (ReplSetHeartbeatResponse._configVersion hb) (ReplSetHeartbeatResponse._configTerm hb)
          ci se mi hp,
        (adv2 || adv1) || configChanged).

(** [setDownValues]: the optimes and the update time stay. *)
Definition setDownValues (now : Date_t) (heartbeatMessage : string) (m : t) : t :=
  let 'mkMD _ _ _ _ _ _ _ lu ls d dw a aw cv ct ci se mi hp := m in
  mkMD 0 0 now heartbeatMessage false (blankResponse MemberState.RS_DOWN) true lu ls
       d dw a aw cv ct ci se mi hp.

Definition setAuthIssue (now : Date_t) (m : t) : t :=
  let 'mkMD _ _ _ _ _ _ _ lu ls d dw a aw cv ct ci se mi hp := m in
  mkMD 0 0 now "" true (blankResponse MemberState.RS_UNKNOWN) true lu ls
       d dw a aw cv ct ci se mi hp.
End MemberData.
