(* ===== verification/TopologyCoordinator.v ===== *)
(** The topology coordinator: src/mongo/db/repl/topology_coordinator.{h,cpp}.  One
    node's view of its replica set: its role and leader mode, its election term and
    last vote, what it knows about the other members, and the commit point.  Every
    operation is a function of the state; a failed [invariant] (which terminates
    the server) is [None]. *)
From stdpp Require Import gmap strings.
From S2P Require Import Prelude OpTimes ReplSetTag ReplSetConfig ReplSetConfigFacts MemberData.

(** ** State *)

Inductive Role := kLeader | kFollower | kCandidate.
Inductive LeaderMode :=
  | kNotLeader | kLeaderElect | kMaster | kSteppingDown | kAttemptingStepDown.
Inductive ReadCommittedSupport := kUnknown | kNo | kYes.
Inductive UpdateTermResult := kAlreadyUpToDate | kTriggerStepDown | kUpdatedTerm.
Inductive StartElectionReason :=
  | kElectionTimeout | kPriorityTakeover | kStepUpRequest | kStepUpRequestSkipDryRun
  | kCatchupTakeover | kSingleNodePromptElection.

#[export] Instance Role_eq_dec : EqDecision Role.
Proof. solve_decision. Defined.
#[export] Instance LeaderMode_eq_dec : EqDecision LeaderMode.
Proof. solve_decision. Defined.
#[export] Instance ReadCommittedSupport_eq_dec : EqDecision ReadCommittedSupport.
Proof. solve_decision. Defined.
#[export] Instance UpdateTermResult_eq_dec : EqDecision UpdateTermResult.
Proof. solve_decision. Defined.
#[export] Instance StartElectionReason_eq_dec : EqDecision StartElectionReason.
Proof. solve_decision. Defined.

Record LastVote := mkLastVote { lvTerm : Z; lvCandidate : Z }.

#[export] Instance LastVote_eq_dec : EqDecision LastVote.
Proof. solve_decision. Defined.

Module TopologyCoordinator.
Import ReplSetConfig.

(** Object ids ([_electionId]) are numbers here; [OID()] is 0. *)
Record t := mkTC {
  _role : Role;
  _leaderMode : LeaderMode;
  _followerMode : MemberState.t;
  _term : Z;
  _currentPrimaryIndex : Z;
  _selfIndex : Z;
  _rsConfig : ReplSetConfig.t;
  _memberData : list MemberData.t;
  _stepDownUntil : Date_t;
  _electionSleepUntil : Date_t;
  _lastCommittedOpTimeAndWallTime : OpTimeAndWallTime.t;
  _firstOpTimeOfMyTerm : OpTime.t;
  _lastCommittedInPrevConfig : OpTime.t;
  _maintenanceModeCalls : Z;
  _lastVote : LastVote;
  _syncSource : HostAndPort.t;
  _forceSyncSourceIndex : Z;
  _electionId : Z;
  _electionTime : Timestamp.t;
  _readCommitted : ReadCommittedSupport;
  _hbmsg : string;
  _hbmsgTime : Date_t
}.

(** One setter per field. *)
Definition set_role (v : Role) (s : t) : t :=
  mkTC v (_leaderMode s) (_followerMode s) (_term s) (_currentPrimaryIndex s) (_selfIndex s)
    (_rsConfig s) (_memberData s) (_stepDownUntil s) (_electionSleepUntil s)
    (_lastCommittedOpTimeAndWallTime s) (_firstOpTimeOfMyTerm s)
    (_lastCommittedInPrevConfig s) (_maintenanceModeCalls s) (_lastVote s) (_syncSource s)
    (_forceSyncSourceIndex s) (_electionId s) (_electionTime s) (_readCommitted s)
    (_hbmsg s) (_hbmsgTime s).
Definition set_leaderMode (v : LeaderMode) (s : t) : t :=
  mkTC (_role s) v (_followerMode s) (_term s) (_currentPrimaryIndex s) (_selfIndex s)
    (_rsConfig s) (_memberData s) (_stepDownUntil s) (_electionSleepUntil s)
    (_lastCommittedOpTimeAndWallTime s) (_firstOpTimeOfMyTerm s)
    (_lastCommittedInPrevConfig s) (_maintenanceModeCalls s) (_lastVote s) (_syncSource s)
    (_forceSyncSourceIndex s) (_electionId s) (_electionTime s) (_readCommitted s)
    (_hbmsg s) (_hbmsgTime s).
Definition set_followerMode (v : MemberState.t) (s : t) : t :=
  mkTC (_role s) (_leaderMode s) v (_term s) (_currentPrimaryIndex s) (_selfIndex s)
    (_rsConfig s) (_memberData s) (_stepDownUntil s) (_electionSleepUntil s)
    (_lastCommittedOpTimeAndWallTime s) (_firstOpTimeOfMyTerm s)
    (_lastCommittedInPrevConfig s) (_maintenanceModeCalls s) (_lastVote s) (_syncSource s)
    (_forceSyncSourceIndex s) (_electionId s) (_electionTime s) (_readCommitted s)
    (_hbmsg s) (_hbmsgTime s).
Definition set_term (v : Z) (s : t) : t :=
  mkTC (_role s) (_leaderMode s) (_followerMode s) v (_currentPrimaryIndex s) (_selfIndex s)
    (_rsConfig s) (_memberData s) (_stepDownUntil s) (_electionSleepUntil s)
    (_lastCommittedOpTimeAndWallTime s) (_firstOpTimeOfMyTerm s)
    (_lastCommittedInPrevConfig s) (_maintenanceModeCalls s) (_lastVote s) (_syncSource s)
    (_forceSyncSourceIndex s) (_electionId s) (_electionTime s) (_readCommitted s)
    (_hbmsg s) (_hbmsgTime s).
Definition set_currentPrimaryIndex (v : Z) (s : t) : t :=
  mkTC (_role s) (_leaderMode s) (_followerMode s) (_term s) v (_selfIndex s) (_rsConfig s)
    (_memberData s) (_stepDownUntil s) (_electionSleepUntil s)
    (_lastCommittedOpTimeAndWallTime s) (_firstOpTimeOfMyTerm s)
    (_lastCommittedInPrevConfig s) (_maintenanceModeCalls s) (_lastVote s) (_syncSource s)
    (_forceSyncSourceIndex s) (_electionId s) (_electionTime s) (_readCommitted s)
    (_hbmsg s) (_hbmsgTime s).
Definition set_selfIndex (v : Z) (s : t) : t :=
  mkTC (_role s) (_leaderMode s) (_followerMode s) (_term s) (_currentPrimaryIndex s) v
    (_rsConfig s) (_memberData s) (_stepDownUntil s) (_electionSleepUntil s)
    (_lastCommittedOpTimeAndWallTime s) (_firstOpTimeOfMyTerm s)
    (_lastCommittedInPrevConfig s) (_maintenanceModeCalls s) (_lastVote s) (_syncSource s)
    (_forceSyncSourceIndex s) (_electionId s) (_electionTime s) (_readCommitted s)
    (_hbmsg s) (_hbmsgTime s).
Definition set_rsConfig (v : ReplSetConfig.t) (s : t) : t :=
  mkTC (_role s) (_leaderMode s) (_followerMode s) (_term s) (_currentPrimaryIndex s)
    (_selfIndex s) v (_memberData s) (_stepDownUntil s) (_electionSleepUntil s)
    (_lastCommittedOpTimeAndWallTime s) (_firstOpTimeOfMyTerm s)
    (_lastCommittedInPrevConfig s) (_maintenanceModeCalls s) (_lastVote s) (_syncSource s)
    (_forceSyncSourceIndex s) (_electionId s) (_electionTime s) (_readCommitted s)
    (_hbmsg s) (_hbmsgTime s).
Definition set_memberData (v : list MemberData.t) (s : t) : t :=
  mkTC (_role s) (_leaderMode s) (_followerMode s) (_term s) (_currentPrimaryIndex s)
    (_selfIndex s) (_rsConfig s) v (_stepDownUntil s) (_electionSleepUntil s)
    (_lastCommittedOpTimeAndWallTime s) (_firstOpTimeOfMyTerm s)
    (_lastCommittedInPrevConfig s) (_maintenanceModeCalls s) (_lastVote s) (_syncSource s)
    (_forceSyncSourceIndex s) (_electionId s) (_electionTime s) (_readCommitted s)
    (_hbmsg s) (_hbmsgTime s).
Definition set_stepDownUntil (v : Date_t) (s : t) : t :=
  mkTC (_role s) (_leaderMode s) (_followerMode s) (_term s) (_currentPrimaryIndex s)
    (_selfIndex s) (_rsConfig s) (_memberData s) v (_electionSleepUntil s)
    (_lastCommittedOpTimeAndWallTime s) (_firstOpTimeOfMyTerm s)
    (_lastCommittedInPrevConfig s) (_maintenanceModeCalls s) (_lastVote s) (_syncSource s)
    (_forceSyncSourceIndex s) (_electionId s) (_electionTime s) (_readCommitted s)
    (_hbmsg s) (_hbmsgTime s).
Definition set_electionSleepUntil (v : Date_t) (s : t) : t :=
  mkTC (_role s) (_leaderMode s) (_followerMode s) (_term s) (_currentPrimaryIndex s)
    (_selfIndex s) (_rsConfig s) (_memberData s) (_stepDownUntil s) v
    (_lastCommittedOpTimeAndWallTime s) (_firstOpTimeOfMyTerm s)
    (_lastCommittedInPrevConfig s) (_maintenanceModeCalls s) (_lastVote s) (_syncSource s)
    (_forceSyncSourceIndex s) (_electionId s) (_electionTime s) (_readCommitted s)
    (_hbmsg s) (_hbmsgTime s).
Definition set_lastCommittedOpTimeAndWallTime (v : OpTimeAndWallTime.t) (s : t) : t :=
  mkTC (_role s) (_leaderMode s) (_followerMode s) (_term s) (_currentPrimaryIndex s)
    (_selfIndex s) (_rsConfig s) (_memberData s) (_stepDownUntil s) (_electionSleepUntil s)
    v (_firstOpTimeOfMyTerm s) (_lastCommittedInPrevConfig s) (_maintenanceModeCalls s)
    (_lastVote s) (_syncSource s) (_forceSyncSourceIndex s) (_electionId s)
    (_electionTime s) (_readCommitted s) (_hbmsg s) (_hbmsgTime s).
Definition set_firstOpTimeOfMyTerm (v : OpTime.t) (s : t) : t :=
  mkTC (_role s) (_leaderMode s) (_followerMode s) (_term s) (_currentPrimaryIndex s)
    (_selfIndex s) (_rsConfig s) (_memberData s) (_stepDownUntil s) (_electionSleepUntil s)
    (_lastCommittedOpTimeAndWallTime s) v (_lastCommittedInPrevConfig s)
    (_maintenanceModeCalls s) (_lastVote s) (_syncSource s) (_forceSyncSourceIndex s)
    (_electionId s) (_electionTime s) (_readCommitted s) (_hbmsg s) (_hbmsgTime s).
Definition set_lastCommittedInPrevConfig (v : OpTime.t) (s : t) : t :=
  mkTC (_role s) (_leaderMode s) (_followerMode s) (_term s) (_currentPrimaryIndex s)
    (_selfIndex s) (_rsConfig s) (_memberData s) (_stepDownUntil s) (_electionSleepUntil s)
    (_lastCommittedOpTimeAndWallTime s) (_firstOpTimeOfMyTerm s) v (_maintenanceModeCalls s)
    (_lastVote s) (_syncSource s) (_forceSyncSourceIndex s) (_electionId s)
    (_electionTime s) (_readCommitted s) (_hbmsg s) (_hbmsgTime s).
Definition set_maintenanceModeCalls (v : Z) (s : t) : t :=
  mkTC (_role s) (_leaderMode s) (_followerMode s) (_term s) (_currentPrimaryIndex s)
    (_selfIndex s) (_rsConfig s) (_memberData s) (_stepDownUntil s) (_electionSleepUntil s)
    (_lastCommittedOpTimeAndWallTime s) (_firstOpTimeOfMyTerm s)
    (_lastCommittedInPrevConfig s) v (_lastVote s) (_syncSource s) (_forceSyncSourceIndex s)
    (_electionId s) (_electionTime s) (_readCommitted s) (_hbmsg s) (_hbmsgTime s).
Definition set_lastVote (v : LastVote) (s : t) : t :=
  mkTC (_role s) (_leaderMode s) (_followerMode s) (_term s) (_currentPrimaryIndex s)
    (_selfIndex s) (_rsConfig s) (_memberData s) (_stepDownUntil s) (_electionSleepUntil s)
    (_lastCommittedOpTimeAndWallTime s) (_firstOpTimeOfMyTerm s)
    (_lastCommittedInPrevConfig s) (_maintenanceModeCalls s) v (_syncSource s)
    (_forceSyncSourceIndex s) (_electionId s) (_electionTime s) (_readCommitted s)
    (_hbmsg s) (_hbmsgTime s).
Definition set_syncSource (v : HostAndPort.t) (s : t) : t :=
  mkTC (_role s) (_leaderMode s) (_followerMode s) (_term s) (_currentPrimaryIndex s)
    (_selfIndex s) (_rsConfig s) (_memberData s) (_stepDownUntil s) (_electionSleepUntil s)
    (_lastCommittedOpTimeAndWallTime s) (_firstOpTimeOfMyTerm s)
    (_lastCommittedInPrevConfig s) (_maintenanceModeCalls s) (_lastVote s) v
    (_forceSyncSourceIndex s) (_electionId s) (_electionTime s) (_readCommitted s)
    (_hbmsg s) (_hbmsgTime s).
Definition set_forceSyncSourceIndex (v : Z) (s : t) : t :=
  mkTC (_role s) (_leaderMode s) (_followerMode s) (_term s) (_currentPrimaryIndex s)
    (_selfIndex s) (_rsConfig s) (_memberData s) (_stepDownUntil s) (_electionSleepUntil s)
    (_lastCommittedOpTimeAndWallTime s) (_firstOpTimeOfMyTerm s)
    (_lastCommittedInPrevConfig s) (_maintenanceModeCalls s) (_lastVote s) (_syncSource s) v
    (_electionId s) (_electionTime s) (_readCommitted s) (_hbmsg s) (_hbmsgTime s).
Definition set_electionId (v : Z) (s : t) : t :=
  mkTC (_role s) (_leaderMode s) (_followerMode s) (_term s) (_currentPrimaryIndex s)
    (_selfIndex s) (_rsConfig s) (_memberData s) (_stepDownUntil s) (_electionSleepUntil s)
    (_lastCommittedOpTimeAndWallTime s) (_firstOpTimeOfMyTerm s)
    (_lastCommittedInPrevConfig s) (_maintenanceModeCalls s) (_lastVote s) (_syncSource s)
    (_forceSyncSourceIndex s) v (_electionTime s) (_readCommitted s) (_hbmsg s)
    (_hbmsgTime s).
Definition set_electionTime (v : Timestamp.t) (s : t) : t :=
  mkTC (_role s) (_leaderMode s) (_followerMode s) (_term s) (_currentPrimaryIndex s)
    (_selfIndex s) (_rsConfig s) (_memberData s) (_stepDownUntil s) (_electionSleepUntil s)
    (_lastCommittedOpTimeAndWallTime s) (_firstOpTimeOfMyTerm s)
    (_lastCommittedInPrevConfig s) (_maintenanceModeCalls s) (_lastVote s) (_syncSource s)
    (_forceSyncSourceIndex s) (_electionId s) v (_readCommitted s) (_hbmsg s) (_hbmsgTime s).
Definition set_readCommitted (v : ReadCommittedSupport) (s : t) : t :=
  mkTC (_role s) (_leaderMode s) (_followerMode s) (_term s) (_currentPrimaryIndex s)
    (_selfIndex s) (_rsConfig s) (_memberData s) (_stepDownUntil s) (_electionSleepUntil s)
    (_lastCommittedOpTimeAndWallTime s) (_firstOpTimeOfMyTerm s)
    (_lastCommittedInPrevConfig s) (_maintenanceModeCalls s) (_lastVote s) (_syncSource s)
    (_forceSyncSourceIndex s) (_electionId s) (_electionTime s) v (_hbmsg s) (_hbmsgTime s).
Definition set_hbmsg (v : string) (s : t) : t :=
  mkTC (_role s) (_leaderMode s) (_followerMode s) (_term s) (_currentPrimaryIndex s)
    (_selfIndex s) (_rsConfig s) (_memberData s) (_stepDownUntil s) (_electionSleepUntil s)
    (_lastCommittedOpTimeAndWallTime s) (_firstOpTimeOfMyTerm s)
    (_lastCommittedInPrevConfig s) (_maintenanceModeCalls s) (_lastVote s) (_syncSource s)
    (_forceSyncSourceIndex s) (_electionId s) (_electionTime s) (_readCommitted s) v
    (_hbmsgTime s).
Definition set_hbmsgTime (v : Date_t) (s : t) : t :=
  mkTC (_role s) (_leaderMode s) (_followerMode s) (_term s) (_currentPrimaryIndex s)
    (_selfIndex s) (_rsConfig s) (_memberData s) (_stepDownUntil s) (_electionSleepUntil s)
    (_lastCommittedOpTimeAndWallTime s) (_firstOpTimeOfMyTerm s)
    (_lastCommittedInPrevConfig s) (_maintenanceModeCalls s) (_lastVote s) (_syncSource s)
    (_forceSyncSourceIndex s) (_electionId s) (_electionTime s) (_readCommitted s)
    (_hbmsg s) v.

(** The constructor's state: no configuration, one entry for the node itself. *)
Definition initial (emptyConfig : ReplSetConfig.t) : t :=
  mkTC kFollower kNotLeader MemberState.RS_STARTUP2 OpTime.kUninitializedTerm (-1) (-1)
    emptyConfig [MemberData.setIdentity (-1) true (-1) HostAndPort.null MemberData.default]
    0 0 OpTimeAndWallTime.null OpTime.null OpTime.null 0
    (mkLastVote OpTime.kInitialTerm (-1)) HostAndPort.null (-1) 0 Timestamp.null kUnknown "" 0.

(** ** Leader mode *)

(** The transitions [_setLeaderMode] lets through. *)
Definition leaderModeStep (old new : LeaderMode) : bool :=
  match old with
  | kNotLeader => bool_decide (new = kLeaderElect)
  | kLeaderElect =>
      bool_decide (new = kNotLeader) || bool_decide (new = kMaster)
      || bool_decide (new = kAttemptingStepDown) || bool_decide (new = kSteppingDown)
  | kMaster =>
      bool_decide (new = kNotLeader) || bool_decide (new = kAttemptingStepDown)
      || bool_decide (new = kSteppingDown)
  | kAttemptingStepDown =>
      bool_decide (new = kNotLeader) || bool_decide (new = kMaster)
      || bool_decide (new = kSteppingDown) || bool_decide (new = kLeaderElect)
  | kSteppingDown => bool_decide (new = kNotLeader)
  end.

Definition _setLeaderMode (newMode : LeaderMode) (s : t) : option t :=
  invariant (leaderModeStep (_leaderMode s) newMode) ;; Some (set_leaderMode newMode s).

Definition canAcceptWrites (s : t) : bool := bool_decide (_leaderMode s = kMaster).

(** ** The node's own entries *)

(** [None]: an empty vector, or a self index outside it. *)
Definition _selfMemberDataIndex (s : t) : option nat :=
  match _memberData s with
  | [] => None
  | _ => Some (if 0 <=? _selfIndex s then Z.to_nat (_selfIndex s) else O)
  end.
Definition _selfMemberData (s : t) : option MemberData.t :=
  i ← _selfMemberDataIndex s; _memberData s !! i.
Definition _selfConfig (s : t) : option MemberConfig.t :=
  getMemberAt (_rsConfig s) (_selfIndex s).

Definition getMyLastAppliedOpTime (s : t) : option OpTime.t :=
  MemberData._lastAppliedOpTime <$> _selfMemberData s.
Definition getMyLastDurableOpTime (s : t) : option OpTime.t :=
  MemberData._lastDurableOpTime <$> _selfMemberData s.
Definition getMyLastAppliedOpTimeAndWallTime (s : t) : option OpTimeAndWallTime.t :=
  m ← _selfMemberData s;
  Some (OpTimeAndWallTime.mk (MemberData._lastAppliedOpTime m)
                             (MemberData._lastAppliedWallTime m)).

(** [_memberData.at(i)]. *)
Definition memberDataAt (s : t) (i : Z) : option MemberData.t :=
  if (0 <=? i) && (i <? Z.of_nat (length (_memberData s)))
  then _memberData s !! Z.to_nat i else None.

(** [_memberData[i]] rewritten by [f]. *)
Definition updateMemberData (i : nat) (f : MemberData.t → option MemberData.t) (s : t)
    : option t :=
  m ← _memberData s !! i; m' ← f m; Some (set_memberData (<[i := m']> (_memberData s)) s).

Definition setMyLastAppliedOpTimeAndWallTime (o : OpTimeAndWallTime.t) (now : Date_t)
    (isRollbackAllowed : bool) (s : t) : option t :=
  i ← _selfMemberDataIndex s;
  my ← _memberData s !! i;
  let opTime := OpTimeAndWallTime.opTime o in
  let mine := MemberData._lastAppliedOpTime my in
  invariant (isRollbackAllowed || OpTime.eqb opTime mine
             || (OpTime.gt opTime mine
                 && ((OpTime.term opTime =? OpTime.kUninitializedTerm)
                     || (OpTime.term mine =? OpTime.kUninitializedTerm)
                     || Timestamp.lt (OpTime.timestamp mine) (OpTime.timestamp opTime)))) ;;
  updateMemberData i (MemberData.setLastAppliedOpTimeAndWallTime o now) s.

Definition setMyLastDurableOpTimeAndWallTime (o : OpTimeAndWallTime.t) (now : Date_t)
    (isRollbackAllowed : bool) (s : t) : option t :=
  i ← _selfMemberDataIndex s;
  my ← _memberData s !! i;
  invariant (isRollbackAllowed
             || OpTime.ge (OpTimeAndWallTime.opTime o) (MemberData._lastDurableOpTime my)) ;;
  updateMemberData i (MemberData.setLastDurableOpTimeAndWallTime o now) s.

Definition _iAmPrimary (s : t) : option bool :=
  if bool_decide (_role s = kLeader) then
    invariant ((_currentPrimaryIndex s =? _selfIndex s)
               && negb (bool_decide (_leaderMode s = kNotLeader))) ;; Some true
  else Some false.

(** ** The state shown to others *)

Fixpoint onlyAuthErrors (selfIndex i : Z) (found : bool) (l : list MemberData.t) : bool :=
  match l with
  | [] => found
  | m :: l' =>
      if i =? selfIndex then onlyAuthErrors selfIndex (i + 1) found l'
      else if MemberData.up m then false
      else onlyAuthErrors selfIndex (i + 1) (MemberData._authIssue m || found) l'
  end.
Definition _hasOnlyAuthErrorUpHeartbeats (hbdata : list MemberData.t) (selfIndex : Z) : bool :=
  onlyAuthErrors selfIndex 0 false hbdata.

Definition getMemberState (sp : ServerParams) (s : t) : option MemberState.t :=
  if _selfIndex s =? -1 then
    Some (if _isInitialized (_rsConfig s) then MemberState.RS_REMOVED
          else MemberState.RS_STARTUP)
  else
    let removed :=
      if _configServer (_rsConfig s) then
        if negb (clusterRoleConfigServer sp) && negb (skipShardingConfigurationChecks sp)
        then Some true
        else invariant (negb (bool_decide (_readCommitted s = kUnknown))) ;;
             Some (bool_decide (_readCommitted s = kNo))
      else Some (clusterRoleConfigServer sp && negb (skipShardingConfigurationChecks sp)) in
    r ← removed;
    if (r : bool) then Some MemberState.RS_REMOVED else
    primary ← _iAmPrimary s;
    if (primary : bool) then Some MemberState.RS_PRIMARY else
    myConfig ← _selfConfig s;
    if MemberConfig.isArbiter myConfig then Some MemberState.RS_ARBITER else
    if ((0 <? _maintenanceModeCalls s)
        || _hasOnlyAuthErrorUpHeartbeats (_memberData s) (_selfIndex s))
       && (_followerMode s =? MemberState.RS_SECONDARY)
    then Some MemberState.RS_RECOVERING
    else Some (_followerMode s).

(** ** Elections *)

Definition setElectionInfo (electionId : Z) (electionOpTime : Timestamp.t) (s : t)
    : option t :=
  invariant (bool_decide (_role s = kLeader)) ;;
  Some (set_electionId electionId (set_electionTime electionOpTime s)).

(** The optime no commit point can reach: set until the drain is over. *)
Definition unreachableOpTime : OpTime.t :=
  OpTime.mk (Timestamp.mk (2^31 - 1) 0) (2^31 - 1).

Definition processWinElection (electionId : Z) (electionOpTime : Timestamp.t) (s : t)
    : option t :=
  invariant (bool_decide (_role s = kCandidate)) ;;
  invariant (bool_decide (_leaderMode s = kNotLeader)) ;;
  s ← _setLeaderMode kLeaderElect (set_role kLeader s);
  s ← setElectionInfo electionId electionOpTime s;
  Some (set_firstOpTimeOfMyTerm unreachableOpTime
          (set_forceSyncSourceIndex (-1)
             (set_syncSource HostAndPort.null
                (set_currentPrimaryIndex (_selfIndex s) s)))).

Definition processLoseElection (s : t) : option t :=
  invariant (bool_decide (_role s = kCandidate)) ;;
  invariant (bool_decide (_leaderMode s = kNotLeader)) ;;
  Some (set_role kFollower (set_electionId 0 (set_electionTime Timestamp.null s))).

(** [_aMajoritySeemsToBeUp]: the votes of the members that are up, the node itself
    included. *)
Fixpoint countUpVotes (c : ReplSetConfig.t) (selfIndex i : Z) (l : list MemberData.t)
    : option Z :=
  match l with
  | [] => Some 0
  | m :: l' =>
      rest ← countUpVotes c selfIndex (i + 1) l';
      if (i =? selfIndex) || MemberData.up m then
        mc ← getMemberAt c i; Some (MemberConfig.getNumVotes mc + rest)
      else Some rest
  end.
Definition _aMajoritySeemsToBeUp (s : t) : option bool :=
  vUp ← countUpVotes (_rsConfig s) (_selfIndex s) 0 (_memberData s);
  Some (_totalVotingMembers (_rsConfig s) <? vUp * 2).

(** Comparison [>=] of doubles. *)
Definition dge (a b : double) : bool := SpecFloat.SFleb b a.

Fixpoint findHealthyPrimary (c : ReplSetConfig.t) (candidateIndex i : Z) (p : double)
    (l : list MemberData.t) : option Z :=
  match l with
  | [] => Some (-1)
  | m :: l' =>
      if negb (MemberData.up m)
         || negb (MemberData.getState m =? MemberState.RS_PRIMARY)
      then findHealthyPrimary c candidateIndex (i + 1) p l'
      else
        mc ← getMemberAt c i;
        if negb (i =? candidateIndex) && dge (MemberConfig.getPriority mc) p then Some i
        else findHealthyPrimary c candidateIndex (i + 1) p l'
  end.
Definition _findHealthyPrimaryOfEqualOrGreaterPriority (candidateIndex : Z) (s : t)
    : option Z :=
  mc ← getMemberAt (_rsConfig s) candidateIndex;
  findHealthyPrimary (_rsConfig s) candidateIndex 0 (MemberConfig.getPriority mc)
    (_memberData s).

(** The freshest optime of this node and of the up members that are not removed. *)
Fixpoint latestKnown (latest : OpTime.t) (l : list MemberData.t) : OpTime.t :=
  match l with
  | [] => latest
  | m :: l' =>
      let skip := MemberData._isSelf m || negb (MemberData.up m)
                  || MemberState.removed (MemberData.getState m) in
      let optime := MemberData.getHeartbeatAppliedOpTime m in
      latestKnown (if negb skip && OpTime.gt optime latest then optime else latest) l'
  end.
Definition latestKnownOpTime (s : t) : option OpTime.t :=
  mine ← getMyLastAppliedOpTime s; Some (latestKnown mine (_memberData s)).

(** [window]: the server parameter gPriorityTakeoverFreshnessWindowSeconds. The sum of
    the first comparison is [unsigned + int], so it wraps at 32 bits. *)
Definition _amIFreshEnoughForPriorityTakeover (window : Z) (s : t) : option bool :=
  latest ← latestKnownOpTime s;
  mine ← getMyLastAppliedOpTime s;
  let ts := OpTime.timestamp mine in
  let lts := OpTime.timestamp latest in
  Some (if negb (OpTime.term mine =? OpTime.term latest) then false
        else if negb (Timestamp.secs ts =? Timestamp.secs lts) then
          Timestamp.secs lts <=? (Timestamp.secs ts + window) mod 2^32
        else Timestamp.inc lts <=? (Timestamp.inc ts + 1000) mod 2^32).

Definition _amIFreshEnoughForCatchupTakeover (s : t) : option bool :=
  latest ← latestKnownOpTime s;
  mine ← getMyLastAppliedOpTime s;
  if OpTime.lt mine latest then Some false else
  if _currentPrimaryIndex s =? -1 then Some false else
  primary ← memberDataAt s (_currentPrimaryIndex s);
  Some (if OpTime.le mine (MemberData._lastAppliedOpTime primary) then false
        else OpTime.term mine <? _term s).

(** The reasons not to stand for election, as the bits of the mask. *)
Definition CannotSeeMajority : Z := Z.shiftl 1 0.
Definition ArbiterIAm : Z := Z.shiftl 1 1.
Definition NotSecondary : Z := Z.shiftl 1 2.
Definition NoPriority : Z := Z.shiftl 1 3.
Definition StepDownPeriodActive : Z := Z.shiftl 1 4.
Definition NoData : Z := Z.shiftl 1 5.
Definition NotInitialized : Z := Z.shiftl 1 6.
Definition NotCloseEnoughToLatestForPriorityTakeover : Z := Z.shiftl 1 7.
Definition NotFreshEnoughForCatchupTakeover : Z := Z.shiftl 1 8.

(** [if (b) result |= reason]. *)
Definition add_reason (b : bool) (reason result : Z) : Z :=
  if b then Z.lor result reason else result.

Definition _getUnelectableReason (index : Z) (s : t) : option Z :=
  invariant (negb (index =? _selfIndex s)) ;;
  memberConfig ← getMemberAt (_rsConfig s) index;
  hbData ← memberDataAt s index;
  let result := add_reason (MemberConfig.isArbiter memberConfig) ArbiterIAm 0 in
  let result := add_reason (SpecFloat.SFleb (MemberConfig.getPriority memberConfig) dzero)
                  NoPriority result in
  let result := add_reason (negb (MemberData.getState hbData =? MemberState.RS_SECONDARY))
                  NotSecondary result in
  let result := add_reason (MemberData.up hbData && MemberData.isUnelectable hbData)
                  StepDownPeriodActive result in
  invariant (negb (result =? 0) || MemberConfig.isElectable memberConfig) ;;
  Some result.

Definition _getMyUnelectableReason (sp : ServerParams) (window : Z) (now : Date_t)
    (reason : StartElectionReason) (s : t) : option Z :=
  lastApplied ← getMyLastAppliedOpTime s;
  let result := add_reason (OpTime.isNull lastApplied) NoData 0 in
  majority ← _aMajoritySeemsToBeUp s;
  let result := add_reason (negb majority) CannotSeeMajority result in
  if _selfIndex s =? -1 then Some (Z.lor result NotInitialized) else
  self ← _selfConfig s;
  let result := add_reason (MemberConfig.isArbiter self) ArbiterIAm result in
  let result := add_reason (SpecFloat.SFleb (MemberConfig.getPriority self) dzero)
                  NoPriority result in
  let result := add_reason (now <? _stepDownUntil s) StepDownPeriodActive result in
  state ← getMemberState sp s;
  primary ← _iAmPrimary s;
  let result := add_reason (negb (MemberState.secondary state) && negb primary)
                  NotSecondary result in
  close ← (if bool_decide (reason = kPriorityTakeover)
           then _amIFreshEnoughForPriorityTakeover window s else Some true);
  let result := add_reason (negb close) NotCloseEnoughToLatestForPriorityTakeover result in
  fresh ← (if bool_decide (reason = kCatchupTakeover)
           then _amIFreshEnoughForCatchupTakeover s else Some true);
  Some (add_reason (negb fresh) NotFreshEnoughForCatchupTakeover result).

(** The boolean: whether the status is OK. *)
Definition becomeCandidateIfElectable (sp : ServerParams) (window : Z) (now : Date_t)
    (reason : StartElectionReason) (s : t) : option (t * bool) :=
  if bool_decide (_role s = kLeader) then Some (s, false) else
  if bool_decide (_role s = kCandidate) then Some (s, false) else
  unelectable ← _getMyUnelectableReason sp window now reason s;
  if negb (unelectable =? 0) then Some (s, false)
  else Some (set_role kCandidate s, true).

(** ** Terms and votes *)

Definition updateTerm (term : Z) (now : Date_t) (s : t) : option (t * UpdateTermResult) :=
  if term <=? _term s then Some (s, kAlreadyUpToDate) else
  let s := set_electionSleepUntil (now + _electionTimeoutPeriod (_rsConfig s)) s in
  primary ← _iAmPrimary s;
  if (primary : bool) then Some (s, kTriggerStepDown)
  else Some (set_term term s, kUpdatedTerm).

Definition loadLastVote (lastVote : LastVote) (s : t) : t := set_lastVote lastVote s.
Definition voteForMyselfV1 (s : t) : t :=
  set_lastVote (mkLastVote (_term s) (_selfIndex s)) s.
Definition setPrimaryIndex (primaryIndex : Z) (s : t) : t :=
  set_currentPrimaryIndex primaryIndex s.

Record RequestVotesArgs := mkArgs {
  argSetName : string; argTerm : Z; argCandidateIndex : Z;
  argConfigVersionAndTerm : ConfigVersionAndTerm.t;
  argLastAppliedOpTime : OpTime.t; argDryRun : bool
}.
Record RequestVotesResponse := mkResponse { respTerm : Z; respVoteGranted : bool }.

(** The two fail points are off. *)
Definition processReplSetRequestVotes (args : RequestVotesArgs) (s : t)
    : option (t * RequestVotesResponse) :=
  let no := mkResponse (_term s) false in
  if negb (ConfigVersionAndTerm.eqb (argConfigVersionAndTerm args)
             (getConfigVersionAndTerm (_rsConfig s))) then Some (s, no) else
  if argTerm args <? _term s then Some (s, no) else
  if negb (bool_decide (argSetName args = _replSetName (_rsConfig s))) then Some (s, no) else
  mine ← getMyLastAppliedOpTime s;
  if OpTime.lt (argLastAppliedOpTime args) mine then Some (s, no) else
  if negb (argDryRun args) && (lvTerm (_lastVote s) =? argTerm args) then
    (* the host of the candidate voted for goes into the reason *)
    _ ← getMemberAt (_rsConfig s) (lvCandidate (_lastVote s)); Some (s, no)
  else
    betterPrimary ← _findHealthyPrimaryOfEqualOrGreaterPriority (argCandidateIndex args) s;
    self ← _selfConfig s;
    if MemberConfig.isArbiter self && (0 <=? betterPrimary) then Some (s, no)
    else
      Some (if argDryRun args then s
            else set_lastVote (mkLastVote (argTerm args) (argCandidateIndex args)) s,
            mkResponse (_term s) true).

(** ** Stepping down *)

(** The boolean: whether this call started the stepdown. *)
Definition prepareForUnconditionalStepDown (s : t) : option (t * bool) :=
  if bool_decide (_leaderMode s = kSteppingDown) then Some (s, false)
  else s ← _setLeaderMode kSteppingDown s; Some (s, true).

Inductive StepDownStatus := StepDownAlready | NotWritablePrimary | StepDownPrepared (previous : LeaderMode).

Definition prepareForStepDownAttempt (s : t) : option (t * StepDownStatus) :=
  match _leaderMode s with
  | kSteppingDown | kAttemptingStepDown => Some (s, StepDownAlready)
  | kNotLeader => Some (s, NotWritablePrimary)
  | kMaster | kLeaderElect =>
      let previousLeaderMode := _leaderMode s in
      s ← _setLeaderMode kAttemptingStepDown s; Some (s, StepDownPrepared previousLeaderMode)
  end.

(** The function [prepareForStepDownAttempt] returns. *)
Definition abortStepDownAttempt (previousLeaderMode : LeaderMode) (s : t) : option t :=
  if bool_decide (_leaderMode s = kAttemptingStepDown)
  then _setLeaderMode previousLeaderMode s else Some s.

Definition _isCaughtUpAndElectable (memberIndex : Z) (lastApplied : OpTime.t) (s : t)
    : option bool :=
  reason ← _getUnelectableReason memberIndex s;
  if negb (reason =? 0) then Some false else
  m ← memberDataAt s memberIndex;
  Some (OpTime.ge (MemberData._lastAppliedOpTime m) lastApplied).

(** The condition of [makeOpTimePredicate] and of [haveNumNodesReachedOpTime]: the
    member is in the term of the target and at or past its timestamp. *)
Definition memberOpTime (durablyWritten : bool) (m : MemberData.t) : OpTime.t :=
  if durablyWritten then MemberData._lastDurableOpTime m else MemberData._lastAppliedOpTime m.
Definition hasReached (target : OpTime.t) (durablyWritten : bool) (m : MemberData.t) : bool :=
  (OpTime.term (memberOpTime durablyWritten m) =? OpTime.term target)
  && negb (Timestamp.lt (OpTime.timestamp (memberOpTime durablyWritten m))
             (OpTime.timestamp target)).

(** The tags of the members that satisfy the predicate, in the order the loop
    feeds them to the matcher. *)
Fixpoint satisfiedTags (c : ReplSetConfig.t) (pred : MemberData.t → bool)
    (l : list MemberData.t) : option (list ReplSetTag.t) :=
  match l with
  | [] => Some []
  | m :: l' =>
      if pred m then
        invariant (0 <=? MemberData._configIndex m) ;;
        mc ← getMemberAt c (MemberData._configIndex m);
        rest ← satisfiedTags c pred l'; Some (MemberConfig._tags mc ++ rest)
      else satisfiedTags c pred l'
  end.

(** [haveTaggedNodesSatisfiedCondition]; the loop stops at the first tag that
    completes the pattern. *)
Definition haveTaggedNodesSatisfiedCondition (pred : MemberData.t → bool)
    (pattern : ReplSetTagPattern.t) (s : t) : option bool :=
  tags ← satisfiedTags (_rsConfig s) pred (_memberData s);
  Some (ReplSetTagMatch.updateUntil (ReplSetTagMatch.ofPattern pattern) tags).1.

Definition makeConfigPredicate (s : t) (m : MemberData.t) : bool :=
  ConfigVersionAndTerm.eqb (MemberData.getConfigVersionAndTerm m)
    (getConfigVersionAndTerm (_rsConfig s)).

Definition haveTaggedNodesReachedOpTime (opTime : OpTime.t) (pattern : ReplSetTagPattern.t)
    (durablyWritten : bool) (s : t) : option bool :=
  mine ← getMyLastAppliedOpTime s;
  invariant (OpTime.term opTime =? OpTime.term mine) ;;
  haveTaggedNodesSatisfiedCondition (hasReached opTime durablyWritten) pattern s.

(** The loop over the other members; [n] indices from [i] on. *)
Fixpoint anyCaughtUp (n : nat) (i : Z) (lastApplied : OpTime.t) (s : t) : option bool :=
  match n with
  | O => Some false
  | S n' =>
      if i =? _selfIndex s then anyCaughtUp n' (i + 1) lastApplied s else
      b ← _isCaughtUpAndElectable i lastApplied s;
      if (b : bool) then Some true else anyCaughtUp n' (i + 1) lastApplied s
  end.

Definition isSafeToStepDown (s : t) : option bool :=
  if negb (_isInitialized (_rsConfig s)) || (_selfIndex s <? 0) then Some false else
  lastApplied ← getMyLastAppliedOpTime s;
  if negb (OpTime.term lastApplied =? _term s) then Some true else
  pattern ← findCustomWriteMode (_rsConfig s) kMajorityWriteConcernModeName;
  reached ← haveTaggedNodesReachedOpTime lastApplied pattern false s;
  if negb reached then Some false
  else anyCaughtUp (Z.to_nat (getNumMembers (_rsConfig s))) 0 lastApplied s.

Definition _canCompleteStepDownAttempt (now waitUntil : Date_t) (force : bool) (s : t)
    : option bool :=
  let forceNow := force && (waitUntil <=? now) in
  if forceNow then Some true else isSafeToStepDown s.

(** The outcomes of [tryToStartStepDown]: the two errors it throws, and its result. *)
Inductive StepDownResult := PrimarySteppedDown | ExceededTimeLimit | Retry | Started.

Definition tryToStartStepDown (termAtStart : Z) (now waitUntil stepDownUntil : Date_t)
    (force : bool) (s : t) : option (t * StepDownResult) :=
  if negb (bool_decide (_role s = kLeader)) || bool_decide (_leaderMode s = kSteppingDown)
     || negb (_term s =? termAtStart) then Some (s, PrimarySteppedDown) else
  invariant (bool_decide (_leaderMode s = kAttemptingStepDown)) ;;
  if stepDownUntil <=? now then Some (s, ExceededTimeLimit) else
  can ← _canCompleteStepDownAttempt now waitUntil force s;
  if negb can then
    Some (s, if waitUntil <=? now then ExceededTimeLimit else Retry)
  else
    r ← prepareForUnconditionalStepDown (set_stepDownUntil stepDownUntil s);
    Some (fst r, Started).

(** [-1] when no other member, or more than one, looks like an up primary. *)
Fixpoint remotePrimary (selfIndex i found : Z) (l : list MemberData.t) : Z :=
  match l with
  | [] => found
  | m :: l' =>
      if negb (i =? selfIndex)
         && (MemberState.primary (MemberData.getState m) && MemberData.up m) then
        if negb (found =? -1) then -1 else remotePrimary selfIndex (i + 1) i l'
      else remotePrimary selfIndex (i + 1) found l'
  end.

Definition _stepDownSelfAndReplaceWith (newPrimary : Z) (s : t) : option t :=
  invariant (bool_decide (_role s = kLeader)) ;;
  invariant (negb (_selfIndex s =? -1)) ;;
  invariant (negb (_selfIndex s =? newPrimary)) ;;
  invariant (_selfIndex s =? _currentPrimaryIndex s) ;;
  _setLeaderMode kNotLeader (set_role kFollower (set_currentPrimaryIndex newPrimary s)).

Definition finishUnconditionalStepDown (s : t) : option t :=
  invariant (bool_decide (_leaderMode s = kSteppingDown)) ;;
  _stepDownSelfAndReplaceWith (remotePrimary (_selfIndex s) 0 (-1) (_memberData s)) s.

(** Conversions between [double] and [int]: truncation, and the exact double of a
    small integer. *)
Definition dtrunc (f : double) : Z :=
  match f with
  | SpecFloat.S754_finite neg m e =>
      (if neg then -1 else 1)
      * (if e <? 0 then Z.shiftr (Zpos m) (- e) else Z.shiftl (Zpos m) e)
  | _ => 0
  end.
Definition dofZ (n : Z) : double := SpecFloat.binary_normalize 53 1024 n 0 false.

(** The search for the handoff candidate; [highestPriority] is an [int], so the
    double priority is truncated when it is stored. *)
Fixpoint bestCandidate (n : nat) (i best highestPriority : Z) (lastApplied : OpTime.t) (s : t)
    : option Z :=
  match n with
  | O => Some best
  | S n' =>
      if i =? _selfIndex s then bestCandidate n' (i + 1) best highestPriority lastApplied s else
      ok ← _isCaughtUpAndElectable i lastApplied s;
      if negb ok then bestCandidate n' (i + 1) best highestPriority lastApplied s else
      mc ← getMemberAt (_rsConfig s) i;
      let memberPriority := MemberConfig.getPriority mc in
      if dlt (dofZ highestPriority) memberPriority
      then bestCandidate n' (i + 1) i (dtrunc memberPriority) lastApplied s
      else bestCandidate n' (i + 1) best highestPriority lastApplied s
  end.

Definition chooseElectionHandoffCandidate (s : t) : option Z :=
  lastApplied ← getMyLastAppliedOpTime s;
  bestCandidate (Z.to_nat (getNumMembers (_rsConfig s))) 0 (-1) (-1) lastApplied s.

(** ** Follower mode, drain, maintenance *)

Definition setFollowerMode (newMode : MemberState.t) (s : t) : option t :=
  invariant (bool_decide (_role s = kFollower)) ;;
  if existsb (Z.eqb newMode) [MemberState.RS_RECOVERING; MemberState.RS_ROLLBACK;
                              MemberState.RS_SECONDARY; MemberState.RS_STARTUP2]
  then Some (set_followerMode newMode s) else None.

Definition isElectableNodeInSingleNodeReplicaSet (sp : ServerParams) (s : t) : option bool :=
  let isSingleNode := (getNumMembers (_rsConfig s) =? 1) && (_selfIndex s =? 0) in
  electable ← (if isSingleNode then MemberConfig.isElectable <$> _selfConfig s else Some true);
  invariant (electable : bool) ;;
  state ← getMemberState sp s;
  Some ((state =? MemberState.RS_SECONDARY) && isSingleNode).

Definition canCompleteTransitionToPrimary (termWhenDrainCompleted : Z) (s : t) : bool :=
  (termWhenDrainCompleted =? _term s)
  && (bool_decide (_leaderMode s = kLeaderElect)
      || bool_decide (_leaderMode s = kAttemptingStepDown)
      || bool_decide (_leaderMode s = kSteppingDown)).

Definition completeTransitionToPrimary (firstOpTimeOfTerm : OpTime.t) (s : t) : option t :=
  invariant (canCompleteTransitionToPrimary (OpTime.term firstOpTimeOfTerm) s) ;;
  s ← (if bool_decide (_leaderMode s = kLeaderElect) then _setLeaderMode kMaster s else Some s);
  Some (set_firstOpTimeOfMyTerm firstOpTimeOfTerm s).

Definition adjustMaintenanceCountBy (inc : Z) (s : t) : option t :=
  invariant (bool_decide (_role s = kFollower)) ;;
  invariant (0 <=? _maintenanceModeCalls s + inc) ;;
  Some (set_maintenanceModeCalls (_maintenanceModeCalls s + inc) s).

(** ** Installing a configuration *)

(** The heartbeat data a member of the new configuration starts with. *)
Definition carriedOver (selfIndex index : Z) (mc : MemberConfig.t) (old : MemberData.t) : bool :=
  ((MemberData._memberId old =? MemberConfig._id mc)
   && HostAndPort.eqb (MemberData._hostAndPort old) (MemberConfig.getHostAndPort mc))
  || ((index =? selfIndex) && MemberData._isSelf old).

Fixpoint newMemberData (old : list MemberData.t) (selfIndex index : Z)
    (ms : list MemberConfig.t) : list MemberData.t :=
  match ms with
  | [] => []
  | mc :: ms' =>
      MemberData.setIdentity index (index =? selfIndex) (MemberConfig._id mc)
        (MemberConfig.getHostAndPort mc)
        (option.default MemberData.default (List.find (carriedOver selfIndex index mc) old))
      :: newMemberData old selfIndex (index + 1) ms'
  end.

Definition _updateHeartbeatDataForReconfig (newConfig : ReplSetConfig.t) (selfIndex : Z) (s : t)
    : t :=
  let old := _memberData s in
  if selfIndex <? 0 then
    let m := option.default MemberData.default (List.find MemberData._isSelf old) in
    set_syncSource HostAndPort.null
      (set_memberData
         [MemberData.setIdentity (-1) true (MemberData._memberId m) (MemberData._hostAndPort m) m]
         s)
  else set_memberData (newMemberData old selfIndex 0 (_members newConfig)) s.

Definition updateConfig (newConfig : ReplSetConfig.t) (selfIndex : Z) (s : t) : option t :=
  invariant (negb (bool_decide (_role s = kCandidate))) ;;
  invariant (selfIndex <? getNumMembers newConfig) ;;
  let s := if negb (_isInitialized (_rsConfig s))
           then set_term OpTime.kInitialTerm s else s in
  let s := set_selfIndex selfIndex
             (set_rsConfig newConfig (_updateHeartbeatDataForReconfig newConfig selfIndex s)) in
  s ← (if 0 <=? selfIndex then
         updateMemberData (Z.to_nat selfIndex)
           (λ m, Some (MemberData.setConfigVersionTerm (_version newConfig) (ReplSetConfig._term newConfig) m)) s
       else Some s);
  let s := set_forceSyncSourceIndex (-1) s in
  if bool_decide (_role s = kLeader) then
    keep ← (if selfIndex =? -1 then Some false
            else MemberConfig.isElectable <$> _selfConfig s);
    if (keep : bool) then Some (set_currentPrimaryIndex selfIndex s)
    else
      s ← _setLeaderMode kNotLeader (set_role kFollower s);
      Some (set_currentPrimaryIndex (-1) s)
  else Some (set_currentPrimaryIndex (-1) s).

(** [setForceSyncSourceIndex]: the invariant tests the old index. *)
Definition setForceSyncSourceIndex (index : Z) (s : t) : option t :=
  invariant (_forceSyncSourceIndex s <? getNumMembers (_rsConfig s)) ;;
  Some (set_forceSyncSourceIndex index s).

(** ** Heartbeats of others *)

Definition setMyHeartbeatMessage (now : Date_t) (message : string) (s : t) : t :=
  set_hbmsg message (set_hbmsgTime now s).

(** The up primary with the greatest term, the first one among equals. *)
Fixpoint scanPrimary (i best bestTerm : Z) (l : list MemberData.t) : Z :=
  match l with
  | [] => best
  | m :: l' =>
      if MemberState.primary (MemberData.getState m) && MemberData.up m
         && ((best =? -1) || (bestTerm <? MemberData.getTerm m))
      then scanPrimary (i + 1) i (MemberData.getTerm m) l'
      else scanPrimary (i + 1) best bestTerm l'
  end.

Definition _updatePrimaryFromHBDataV1 (now : Date_t) (s : t) : option t :=
  invariant (negb (_selfIndex s =? -1)) ;;
  if _currentPrimaryIndex s =? _selfIndex s then Some s
  else Some (setMyHeartbeatMessage now ""
               (set_currentPrimaryIndex (scanPrimary 0 (-1) 0 (_memberData s)) s)).

(** How a heartbeat request ended. *)
Inductive HeartbeatOutcome :=
  | HbResponse (hb : ReplSetHeartbeatResponse.t)
  | HbUnauthorized
  | HbFailed (reason : string)      (* retries used up, or the timeout is over *)
  | HbRetry.

(** The part of [processHeartbeatResponse] that updates the member's data and the
    primary; the boolean is the one [setUpValues] returns. *)
Definition updateFromHeartbeat (now : Date_t) (memberIndex : Z) (outcome : HeartbeatOutcome)
    (s : t) : option (t * bool) :=
  invariant (negb (memberIndex =? _selfIndex s)) ;;
  hbData ← memberDataAt s memberIndex;
  _ ← getMemberAt (_rsConfig s) memberIndex;
  r ← match outcome with
      | HbResponse hb => MemberData.setUpValues now hb hbData
      | HbUnauthorized => Some (MemberData.setAuthIssue now hbData, false)
      | HbFailed reason => Some (MemberData.setDownValues now reason hbData, false)
      | HbRetry => Some (hbData, false)
      end;
  s ← _updatePrimaryFromHBDataV1 now
        (set_memberData (<[Z.to_nat memberIndex := fst r]> (_memberData s)) s);
  Some (s, snd r).

(** The boolean: step down. *)
Definition setMemberAsDown (sp : ServerParams) (window : Z) (now : Date_t) (memberIndex : Z)
    (s : t) : option (t * bool) :=
  invariant (negb (memberIndex =? _selfIndex s)) ;;
  invariant (negb (memberIndex =? -1)) ;;
  invariant (_currentPrimaryIndex s =? _selfIndex s) ;;
  m ← memberDataAt s memberIndex;
  let m := MemberData.setDownValues now "no response within election timeout period" m in
  let s := set_memberData (<[Z.to_nat memberIndex := m]> (_memberData s)) s in
  reason ← _getMyUnelectableReason sp window now kElectionTimeout s;
  Some (s, negb (Z.land CannotSeeMajority reason =? 0)).

(** The loop of [checkMemberTimeouts]: [stepdown || setMemberAsDown(...)] does not
    call [setMemberAsDown] any more once a stepdown is due. *)
Fixpoint checkTimeoutsFrom (sp : ServerParams) (window : Z) (now : Date_t) (n : nat) (i : nat)
    (stepdown : bool) (s : t) : option (t * bool) :=
  match n with
  | O => Some (s, stepdown)
  | S n' =>
      m ← _memberData s !! i;
      if negb (MemberData._isSelf m) && negb (MemberData._lastUpdateStale m)
         && (_electionTimeoutPeriod (_rsConfig s) <=? now - MemberData._lastUpdate m) then
        let s := set_memberData (<[i := MemberData.markLastUpdateStale m]> (_memberData s)) s in
        primary ← _iAmPrimary s;
        if (primary : bool) && negb stepdown then
          r ← setMemberAsDown sp window now (Z.of_nat i) s;
          checkTimeoutsFrom sp window now n' (S i) (snd r) (fst r)
        else checkTimeoutsFrom sp window now n' (S i) stepdown s
      else checkTimeoutsFrom sp window now n' (S i) stepdown s
  end.
Definition checkMemberTimeouts (sp : ServerParams) (window : Z) (now : Date_t) (s : t)
    : option (t * bool) :=
  checkTimeoutsFrom sp window now (length (_memberData s)) 0 false s.

(** The live member heard from longest ago: its id and the time. *)
Fixpoint stalest (id : Z) (earliest : Date_t) (l : list MemberData.t) : Z * Date_t :=
  match l with
  | [] => (id, earliest)
  | m :: l' =>
      if negb (MemberData._isSelf m) && negb (MemberData._lastUpdateStale m)
         && (MemberData._lastUpdate m <? earliest)
      then stalest (MemberData._memberId m) (MemberData._lastUpdate m) l'
      else stalest id earliest l'
  end.
Definition getStalestLiveMember (s : t) : Z * Date_t := stalest (-1) Date_max (_memberData s).

Definition restartHeartbeat (now : Date_t) (target : HostAndPort.t) (s : t) : t :=
  let hit m := HostAndPort.eqb (MemberData._hostAndPort m) target in
  let i := find_index_from hit 0 (_memberData s) in
  match _memberData s !! Z.to_nat i with
  | Some m => set_memberData
      (<[Z.to_nat i := MemberData.updateLiveness now (MemberData.restart m)]> (_memberData s)) s
  | None => s
  end.

Definition resetMemberTimeouts (now : Date_t) (member_set : list HostAndPort.t) (s : t) : t :=
  set_memberData
    ((λ m, if existsb (HostAndPort.eqb (MemberData._hostAndPort m)) member_set
           then MemberData.updateLiveness now m else m) <$> _memberData s) s.
End TopologyCoordinator.

(** * Replication progress and the majority commit point:
    src/mongo/db/repl/topology_coordinator.cpp, haveNumNodesReachedOpTime,
    updateLastCommittedOpTimeAndWallTime, advanceLastCommittedOpTimeAndWallTime and
    setLastOptime. *)
Import ReplSetConfig TopologyCoordinator.

(** ** Definitions *)

Module CommitPoint.

(** The loop of [haveNumNodesReachedOpTime]: a member that holds data counts when
    it reached the target, and the loop ends as soon as none is missing. *)
Fixpoint countDown (c : ReplSetConfig.t) (target : OpTime.t) (durablyWritten : bool)
    (numNodes : Z) (l : list MemberData.t) : option bool :=
  match l with
  | [] => Some false
  | m :: l' =>
      mc ← getMemberAt c (MemberData._configIndex m);
      if MemberConfig.isArbiter mc then countDown c target durablyWritten numNodes l'
      else
        let numNodes := if hasReached target durablyWritten m then numNodes - 1 else numNodes in
        if numNodes <=? 0 then Some true
        else countDown c target durablyWritten numNodes l'
  end.

Definition haveNumNodesReachedOpTime (target : OpTime.t) (numNodes : Z)
    (durablyWritten : bool) (s : t) : option bool :=
  my ← (if durablyWritten then getMyLastDurableOpTime s else getMyLastAppliedOpTime s);
  if OpTime.lt my target then Some false else
  applied ← getMyLastAppliedOpTime s;
  invariant (OpTime.term target =? OpTime.term applied) ;;
  countDown (_rsConfig s) target durablyWritten numNodes (_memberData s).

(** The hosts whose optime is not before [op]. *)
Definition getHostsWrittenTo (op : OpTime.t) (durablyWritten : bool) (s : t)
    : list HostAndPort.t :=
  MemberData._hostAndPort <$>
    filter (λ m, OpTime.lt (memberOpTime durablyWritten m) op = false) (_memberData s).

(** The optime of a member that goes into the commit point. *)
Definition commitOpTime (useDurableOpTime : bool) (m : MemberData.t) : OpTimeAndWallTime.t :=
  if useDurableOpTime
  then OpTimeAndWallTime.mk (MemberData._lastDurableOpTime m) (MemberData._lastDurableWallTime m)
  else OpTimeAndWallTime.mk (MemberData._lastAppliedOpTime m) (MemberData._lastAppliedWallTime m).

Fixpoint votingOpTimes (c : ReplSetConfig.t) (useDurableOpTime : bool)
    (l : list MemberData.t) : option (list OpTimeAndWallTime.t) :=
  match l with
  | [] => Some []
  | m :: l' =>
      invariant (0 <=? MemberData._configIndex m) ;;
      mc ← getMemberAt c (MemberData._configIndex m);
      rest ← votingOpTimes c useDurableOpTime l';
      Some (if MemberConfig.isVoter mc then commitOpTime useDurableOpTime m :: rest else rest)
  end.

(** [std::sort] with [OpTimeAndWallTime::operator<]; entries the order does not
    tell apart (same optime, other wall clock) may come in any order. *)
Fixpoint insertOpTime (x : OpTimeAndWallTime.t) (l : list OpTimeAndWallTime.t)
    : list OpTimeAndWallTime.t :=
  match l with
  | [] => [x]
  | y :: l' => if OpTimeAndWallTime.lt y x then y :: insertOpTime x l' else x :: l
  end.
Definition sortOpTimes (l : list OpTimeAndWallTime.t) : list OpTimeAndWallTime.t :=
  foldr insertOpTime [] l.

Definition advanceLastCommittedOpTimeAndWallTime (committed : OpTimeAndWallTime.t)
    (fromSyncSource : bool) (s : t) : option (t * bool) :=
  if _selfIndex s =? -1 then Some (s, false) else
  primary ← _iAmPrimary s;
  if (primary : bool)
     && OpTime.lt (OpTimeAndWallTime.opTime committed) (_firstOpTimeOfMyTerm s)
  then Some (s, false) else
  self ← _selfConfig s;
  mine ← getMyLastAppliedOpTimeAndWallTime s;
  let otherTerm := negb (OpTime.term (OpTimeAndWallTime.opTime mine)
                         =? OpTime.term (OpTimeAndWallTime.opTime committed)) in
  if negb (MemberConfig.isArbiter self) && otherTerm && negb fromSyncSource
  then Some (s, false)
  else
    (* std::min of the two *)
    let committed :=
      if negb (MemberConfig.isArbiter self) && otherTerm
      then (if OpTimeAndWallTime.lt mine committed then mine else committed)
      else committed in
    let opTime := OpTimeAndWallTime.opTime committed in
    let last := OpTimeAndWallTime.opTime (_lastCommittedOpTimeAndWallTime s) in
    if OpTime.eqb opTime last then Some (s, false) else
    if OpTime.lt opTime last then Some (s, false) else
    Some (set_lastCommittedOpTimeAndWallTime committed s, true).

Definition updateLastCommittedOpTimeAndWallTime (s : t) : option (t * bool) :=
  primary ← _iAmPrimary s;
  if negb primary || bool_decide (_leaderMode s = kSteppingDown) then Some (s, false) else
  let useDurableOpTime := _writeConcernMajorityJournalDefault (_rsConfig s) in
  l ← votingOpTimes (_rsConfig s) useDurableOpTime (_memberData s);
  invariant (0 <? Z.of_nat (length l)) ;;
  if Z.of_nat (length l) <? _writeMajority (_rsConfig s) then Some (s, false) else
  (* vector index: size() - getWriteMajority() *)
  committed ← sortOpTimes l !! Z.to_nat (Z.of_nat (length l) - _writeMajority (_rsConfig s));
  advanceLastCommittedOpTimeAndWallTime committed false s.

Definition updateLastCommittedInPrevConfig (s : t) : t :=
  set_lastCommittedInPrevConfig (OpTimeAndWallTime.opTime (_lastCommittedOpTimeAndWallTime s)) s.

(** [std::max(a, b)]: the first unless it is smaller. *)
Definition getConfigOplogCommitmentOpTime (s : t) : OpTime.t :=
  if OpTime.lt (_lastCommittedInPrevConfig s) (_firstOpTimeOfMyTerm s)
  then _firstOpTimeOfMyTerm s else _lastCommittedInPrevConfig s.

(** One entry of a replSetUpdatePosition command. *)
Record UpdateInfo := mkUpdateInfo {
  uiMemberId : Z; uiCfgver : Z;
  uiApplied : OpTimeAndWallTime.t; uiDurable : OpTimeAndWallTime.t
}.
Inductive SetLastOptimeResult :=
  | NotPrimaryOrSecondary | BadMemberId | InvalidReplicaSetConfig | NodeNotFound
  | Advanced (b : bool).

(** [fullyUpgradedTo44]: the feature compatibility version; a [MemberId] cannot be
    negative. *)
Definition setLastOptime (fullyUpgradedTo44 : bool) (args : UpdateInfo)
    (now : Date_t) (s : t) : option (t * SetLastOptimeResult) :=
  if _selfIndex s =? -1 then Some (s, NotPrimaryOrSecondary) else
  invariant (_isInitialized (_rsConfig s)) ;;
  if uiMemberId args <? 0 then Some (s, BadMemberId) else
  self ← _selfConfig s;
  if uiMemberId args =? MemberConfig._id self then Some (s, Advanced false) else
  if negb fullyUpgradedTo44 && negb (uiCfgver args =? _version (_rsConfig s))
  then Some (s, InvalidReplicaSetConfig) else
  let i := findMemberIndexByConfigId (_rsConfig s) (uiMemberId args) in
  if i =? -1 then
    invariant (negb (bool_decide (is_Some (findMemberByID (_rsConfig s) (uiMemberId args))))) ;;
    Some (s, NodeNotFound)
  else
    m ← memberDataAt s i;
    invariant (uiMemberId args =? MemberData._memberId m) ;;
    r1 ← MemberData.advanceLastAppliedOpTimeAndWallTime (uiApplied args) now m;
    r2 ← MemberData.advanceLastDurableOpTimeAndWallTime (uiDurable args) now (fst r1);
    Some (set_memberData (<[Z.to_nat i := fst r2]> (_memberData s)) s,
          Advanced (snd r2 || snd r1)).
End CommitPoint.
Import CommitPoint.

(** ** Facts *)

Lemma insertOpTime_perm x l : insertOpTime x l ≡ₚ x :: l.
Proof.
  induction l as [|y l IH]; simpl; [done|]. case_match; [|done].
  rewrite IH. apply Permutation_swap.
Qed.

Lemma sortOpTimes_perm l : sortOpTimes l ≡ₚ l.
Proof.
  induction l as [|x l IH]; [done|]. unfold sortOpTimes in *. simpl. by rewrite insertOpTime_perm, IH.
Qed.

Lemma sortOpTimes_length l : length (sortOpTimes l) = length l.
Proof. by rewrite sortOpTimes_perm. Qed.

(** The optimes that go into the commit point are those of the voting members, in
    the order of the configuration. *)
Definition isVotingEntry (e : MemberConfig.t * MemberData.t) : bool := MemberConfig.isVoter e.1.

Lemma votingOpTimes_zip c dur ms : ∀ k l,
  length l = length ms →
  (∀ i m, l !! i = Some m → MemberData._configIndex m = Z.of_nat (k + i)) →
  (∀ i mc, ms !! i = Some mc → getMemberAt c (Z.of_nat (k + i)) = Some mc) →
  votingOpTimes c dur l
  = Some (commitOpTime dur ∘ snd <$> filter (λ e, isVotingEntry e = true) (zip ms l)).
Proof.
  induction ms as [|mc ms IH]; intros k [|m l] Hl Hidx Hmem; try done.
  cbn [votingOpTimes zip zip_with]. rewrite (Hidx 0%nat m eq_refl).
  destruct (Z.leb_spec 0 (Z.of_nat (k + 0))); [|lia].
  rewrite (Hmem 0%nat mc eq_refl). cbn [mbind option_bind].
  rewrite (IH (S k)).
  - cbn [mbind option_bind]. destruct (MemberConfig.isVoter mc) eqn:E.
    + by rewrite (filter_cons_True (λ e, isVotingEntry e = true)).
    + rewrite (filter_cons_False (λ e, isVotingEntry e = true)); [done|].
      unfold isVotingEntry. simpl. by rewrite E.
  - simpl in Hl. lia.
  - intros i m' Hm'. rewrite (Hidx (S i) m' Hm'). f_equal. lia.
  - intros i mc' Hmc'. rewrite <- (Hmem (S i) mc' Hmc'). f_equal. lia.
Qed.

Lemma count_if_length {A} (p : A → bool) l :
  count_if p l = Z.of_nat (length (filter (λ x, p x = true) l)).
Proof.
  induction l as [|x l IH]; [done|]. rewrite filter_cons. simpl. rewrite IH.
  destruct (p x); simpl; [|done]. destruct (decide (true = true)); [simpl; lia|done].
Qed.

Lemma count_voting_zip ms (l : list MemberData.t) :
  length l = length ms → count_if isVotingEntry (zip ms l) = count_if MemberConfig.isVoter ms.
Proof.
  revert l. induction ms as [|mc ms IH]; intros [|m l] H; try done. simpl in *.
  rewrite IH by lia. done.
Qed.
