(* ===== verification/TopologyInv.v ===== *)
(** The topology coordinator never fails one of its invariants: the calls the
    replication coordinator makes, under the conditions it makes them, always
    succeed and keep role, leader mode, primary index and member data in step. *)
From stdpp Require Import gmap strings.
From S2P Require Import Prelude OpTimes ReplSetTag ReplSetConfig ReplSetConfigFacts MemberData TopologyCoordinator.
Import ReplSetConfig TopologyCoordinator CommitPoint.

(** ** The invariant *)

(** The modes a follower can be in. *)
Definition followerModes : list Z :=
  [MemberState.RS_RECOVERING; MemberState.RS_ROLLBACK; MemberState.RS_SECONDARY;
   MemberState.RS_STARTUP2].

(** The member data mirrors the configuration, or holds the node's own entry only. *)
Definition DataOk (c : ReplSetConfig.t) (selfIndex : Z) (l : list MemberData.t) : Prop :=
  if 0 <=? selfIndex then
    length l = length (_members c) ∧
    ∀ i m, l !! i = Some m →
      MemberData._configIndex m = Z.of_nat i ∧
      MemberData._isSelf m = (Z.of_nat i =? selfIndex)
  else ∃ m, l = [m] ∧ MemberData._isSelf m = true ∧
            (MemberData.up m = true → 1 <= getNumMembers c).

(** The index of the primary the node believes in, when it believes in one. *)
Definition PrimaryIndexOk (s : t) : Prop :=
  _currentPrimaryIndex s = -1 ∨ 0 <= _currentPrimaryIndex s < Z.of_nat (length (_memberData s)).

(** The applied optime of the last response comes with a wall clock time. *)
Definition wallResponse (m : MemberData.t) : Prop :=
  ∀ o, ReplSetHeartbeatResponse._appliedOpTime (MemberData._lastResponse m) = Some o →
    MemberData.wallOk o = true.

Record Inv (s : t) : Prop := {
  inv_role : _role s = kLeader ↔ _leaderMode s ≠ kNotLeader;
  inv_primary : _role s = kLeader → _currentPrimaryIndex s = _selfIndex s;
  inv_self : -1 <= _selfIndex s ∧ (0 <= _selfIndex s → _selfIndex s < getNumMembers (_rsConfig s));
  inv_member : _role s ≠ kFollower → 0 <= _selfIndex s;
  inv_data : DataOk (_rsConfig s) (_selfIndex s) (_memberData s);
  inv_wall : Forall wallResponse (_memberData s);
  inv_pidx : PrimaryIndexOk s;
  inv_maintenance : 0 <= _maintenanceModeCalls s;
  inv_mode : _followerMode s ∈ followerModes;
  inv_readCommitted : _configServer (_rsConfig s) = true → _readCommitted s ≠ kUnknown;
  inv_priority : ∀ m, m ∈ _members (_rsConfig s) → MemberConfig.getPriority m ≠ SpecFloat.S754_nan;
  inv_ids : 0 <= _selfIndex s →
    MemberData._memberId <$> _memberData s = MemberConfig._id <$> _members (_rsConfig s);
  inv_installed : 0 <= _selfIndex s → Installed (_rsConfig s);
  inv_init : 0 <= _selfIndex s → _isInitialized (_rsConfig s) = true;
  inv_majority : 0 <= _selfIndex s →
    ∃ p, findCustomWriteMode (_rsConfig s) kMajorityWriteConcernModeName = Some p
}.

(** ** Reads that cannot fail *)

Lemma getMemberAt_some c i :
  0 <= i < getNumMembers c → ∃ m, getMemberAt c i = Some m ∧ _members c !! Z.to_nat i = Some m.
Proof.
  intros H. unfold getMemberAt, getNumMembers in *.
  destruct (Z.leb_spec 0 i); [|lia]. destruct (Z.ltb_spec i (Z.of_nat (length (_members c)))); [|lia].
  simpl. destruct (lookup_lt_is_Some_2 (_members c) (Z.to_nat i)) as [m Hm]; [lia|]. eauto.
Qed.

Lemma memberDataAt_some s i :
  0 <= i < Z.of_nat (length (_memberData s)) →
  ∃ m, memberDataAt s i = Some m ∧ _memberData s !! Z.to_nat i = Some m.
Proof.
  intros H. unfold memberDataAt.
  destruct (Z.leb_spec 0 i); [|lia]. destruct (Z.ltb_spec i (Z.of_nat (length (_memberData s)))); [|lia].
  simpl. destruct (lookup_lt_is_Some_2 (_memberData s) (Z.to_nat i)) as [m Hm]; [lia|]. eauto.
Qed.

Lemma data_length s :
  Inv s → 0 <= _selfIndex s →
  Z.of_nat (length (_memberData s)) = getNumMembers (_rsConfig s).
Proof.
  intros Hi H. pose proof (inv_data s Hi) as Hd. unfold DataOk in Hd.
  destruct (Z.leb_spec 0 (_selfIndex s)); [|lia]. destruct Hd as [Hd _].
  unfold getNumMembers. lia.
Qed.

Lemma selfMemberData_some s : Inv s → ∃ i m,
  _selfMemberDataIndex s = Some i ∧ _selfMemberData s = Some m ∧ _memberData s !! i = Some m.
Proof.
  intros Hi. pose proof (inv_data s Hi) as Hd. pose proof (inv_self s Hi) as Hs.
  unfold _selfMemberData, _selfMemberDataIndex. unfold DataOk in Hd.
  destruct (Z.leb_spec 0 (_selfIndex s)).
  - destruct Hd as [Hd _]. unfold getNumMembers in Hs.
    destruct (lookup_lt_is_Some_2 (_memberData s) (Z.to_nat (_selfIndex s))) as [m Hm]; [lia|].
    exists (Z.to_nat (_selfIndex s)), m. destruct (_memberData s); done.
  - destruct Hd as (m & -> & _). by exists 0%nat, m.
Qed.

Lemma selfConfig_some s :
  Inv s → 0 <= _selfIndex s → ∃ m, _selfConfig s = Some m.
Proof.
  intros Hi H. destruct (inv_self s Hi) as [_ Hs].
  destruct (getMemberAt_some (_rsConfig s) (_selfIndex s)) as (m & E & _); [lia|]. by exists m.
Qed.

Lemma lastApplied_some s : Inv s → ∃ o, getMyLastAppliedOpTime s = Some o.
Proof.
  intros Hi. destruct (selfMemberData_some s Hi) as (i & m & _ & E & _).
  unfold getMyLastAppliedOpTime. rewrite E. simpl. eauto.
Qed.

Lemma iAmPrimary_spec s :
  Inv s → _iAmPrimary s = Some (bool_decide (_role s = kLeader)).
Proof.
  intros Hi. unfold _iAmPrimary. case_bool_decide as Hr; [|done].
  rewrite (inv_primary s Hi Hr), Z.eqb_refl. apply (inv_role s Hi) in Hr.
  by rewrite bool_decide_false.
Qed.

Lemma getMemberState_some sp s : Inv s → ∃ st, getMemberState sp s = Some st.
Proof.
  intros Hi. unfold getMemberState. destruct (Z.eqb_spec (_selfIndex s) (-1)); [eauto|].
  pose proof (inv_self s Hi).
  destruct (selfConfig_some s Hi) as [m Hm]; [lia|].
  set (removed := if _configServer (_rsConfig s) then _ else _).
  assert (∃ b, removed = Some b) as [b ->].
  { unfold removed. destruct (_configServer (_rsConfig s)) eqn:Ec; [|eauto].
    destruct (_ && _); [eauto|].
    rewrite bool_decide_false by (by apply inv_readCommitted). eauto. }
  cbn [mbind option_bind]. destruct b; [eauto|].
  rewrite iAmPrimary_spec by done. cbn [mbind option_bind].
  case_bool_decide; [eauto|]. rewrite Hm. cbn [mbind option_bind].
  destruct (MemberConfig.isArbiter m); [eauto|]. destruct (_ && _); eauto.
Qed.

Lemma countUpVotes_some c selfIndex i l :
  0 <= i → (i + Z.of_nat (length l) <= getNumMembers c
   ∨ ∃ m, l = [m] ∧ i ≠ selfIndex ∧ (MemberData.up m = true → i < getNumMembers c)) →
  ∃ v, countUpVotes c selfIndex i l = Some v.
Proof.
  intros H0 [H|(m & -> & Hi & Hup)].
  - revert i H0 H. induction l as [|m l IH]; intros i H0 H; simpl in *; [eauto|].
    destruct (IH (i + 1)) as [v ->]; [lia|lia|]. cbn [mbind option_bind].
    destruct (_ || _); [|eauto].
    destruct (getMemberAt_some c i) as (mc & -> & _); [lia|]. simpl. eauto.
  - simpl. destruct (Z.eqb_spec i selfIndex); [done|]. simpl.
    destruct (MemberData.up m); [|eauto].
    destruct (getMemberAt_some c i) as (mc & -> & _); [|simpl; eauto].
    split; [done|auto].
Qed.

Lemma majorityUp_some s : Inv s → ∃ b, _aMajoritySeemsToBeUp s = Some b.
Proof.
  intros Hi. unfold _aMajoritySeemsToBeUp.
  destruct (countUpVotes_some (_rsConfig s) (_selfIndex s) 0 (_memberData s)) as [v ->];
    [lia| |simpl; eauto].
  pose proof (inv_data s Hi) as Hd. unfold DataOk in Hd.
  destruct (Z.leb_spec 0 (_selfIndex s)).
  - left. destruct Hd as [Hd _]. unfold getNumMembers. lia.
  - right. destruct Hd as (m & -> & _ & Hup). exists m. split_and!; [done|lia|].
    intros Hu. specialize (Hup Hu). lia.
Qed.

Lemma latestKnownOpTime_some s : Inv s → ∃ o, latestKnownOpTime s = Some o.
Proof.
  intros Hi. unfold latestKnownOpTime. destruct (lastApplied_some s Hi) as [o ->]. simpl. eauto.
Qed.

Lemma freshForCatchup_some s :
  Inv s → ∃ b, _amIFreshEnoughForCatchupTakeover s = Some b.
Proof.
  intros Hi. pose proof (inv_pidx s Hi) as Hp. unfold _amIFreshEnoughForCatchupTakeover.
  destruct (latestKnownOpTime_some s Hi) as [o ->]. destruct (lastApplied_some s Hi) as [o' ->].
  cbn [mbind option_bind]. destruct (OpTime.lt o' o); [eauto|].
  destruct (Z.eqb_spec (_currentPrimaryIndex s) (-1)); [eauto|].
  destruct Hp as [|Hp]; [done|].
  destruct (memberDataAt_some s _ Hp) as (m & -> & _). simpl. eauto.
Qed.

Lemma myUnelectableReason_some sp w now reason s :
  Inv s → ∃ r, _getMyUnelectableReason sp w now reason s = Some r.
Proof.
  intros Hi. unfold _getMyUnelectableReason.
  destruct (lastApplied_some s Hi) as [o Eo]. rewrite Eo. cbn [mbind option_bind].
  destruct (majorityUp_some s Hi) as [b ->]. cbn [mbind option_bind].
  destruct (Z.eqb_spec (_selfIndex s) (-1)); [eauto|].
  pose proof (inv_self s Hi). destruct (selfConfig_some s Hi) as [m ->]; [lia|].
  cbn [mbind option_bind]. destruct (getMemberState_some sp s Hi) as [st ->].
  rewrite iAmPrimary_spec by done. cbn [mbind option_bind].
  assert (∃ b, (if bool_decide (reason = kPriorityTakeover)
                then _amIFreshEnoughForPriorityTakeover w s else Some true) = Some b) as [b1 ->].
  { case_bool_decide; [|eauto]. unfold _amIFreshEnoughForPriorityTakeover.
    destruct (latestKnownOpTime_some s Hi) as [o2 ->]. rewrite Eo. simpl. eauto. }
  cbn [mbind option_bind].
  assert (∃ b, (if bool_decide (reason = kCatchupTakeover)
                then _amIFreshEnoughForCatchupTakeover s else Some true) = Some b) as [b2 ->].
  { case_bool_decide; [|eauto]. by apply freshForCatchup_some. }
  simpl. eauto.
Qed.

(** ** The calls of the replication coordinator *)

(** One call on the coordinator, with its arguments. *)
Inductive Call :=
  | CBecome (now : Date_t) (reason : StartElectionReason)
  | CWin (electionId : Z) (electionOpTime : Timestamp.t)
  | CLose
  | CUpdateTerm (term : Z) (now : Date_t)
  | CVoteForMyself
  | CRequestVotes (args : RequestVotesArgs)
  | CPrepareStepDown
  | CPrepareAttempt
  | CAbortAttempt (previous : LeaderMode)
  | CTryStepDown (termAtStart : Z) (now waitUntil stepDownUntil : Date_t) (force : bool)
  | CFinishStepDown
  | CSetFollowerMode (mode : MemberState.t)
  | CCompleteTransition (firstOpTime : OpTime.t)
  | CMaintenance (inc : Z)
  | CCheckTimeouts (now : Date_t)
  | CUpdatePrimary (now : Date_t)
  | CResetTimeouts (now : Date_t) (hosts : list HostAndPort.t)
  | CSetApplied (o : OpTimeAndWallTime.t) (now : Date_t) (isRollbackAllowed : bool)
  | CSetDurable (o : OpTimeAndWallTime.t) (now : Date_t) (isRollbackAllowed : bool)
  | CHeartbeat (now : Date_t) (memberIndex : Z) (outcome : HeartbeatOutcome)
  | CUpdateConfig (newConfig : ReplSetConfig.t) (selfIndex : Z)
  | CSetLastOptime (fullyUpgradedTo44 : bool) (args : UpdateInfo) (now : Date_t)
  | CUpdateCommitted
  | CAdvanceCommitted (committed : OpTimeAndWallTime.t) (fromSyncSource : bool)
  | CUpdatePrevConfig.

Section Calls.
Context (sp : ServerParams) (window : Z).

Definition exec (c : Call) (s : t) : option t :=
  match c with
  | CBecome now reason => fst <$> becomeCandidateIfElectable sp window now reason s
  | CWin id ts => processWinElection id ts s
  | CLose => processLoseElection s
  | CUpdateTerm term now => fst <$> updateTerm term now s
  | CVoteForMyself => Some (voteForMyselfV1 s)
  | CRequestVotes args => fst <$> processReplSetRequestVotes args s
  | CPrepareStepDown => fst <$> prepareForUnconditionalStepDown s
  | CPrepareAttempt => fst <$> prepareForStepDownAttempt s
  | CAbortAttempt previous => abortStepDownAttempt previous s
  | CTryStepDown term now wait until force => fst <$> tryToStartStepDown term now wait until force s
  | CFinishStepDown => finishUnconditionalStepDown s
  | CSetFollowerMode mode => setFollowerMode mode s
  | CCompleteTransition o => completeTransitionToPrimary o s
  | CMaintenance inc => adjustMaintenanceCountBy inc s
  | CCheckTimeouts now => fst <$> checkMemberTimeouts sp window now s
  | CUpdatePrimary now => _updatePrimaryFromHBDataV1 now s
  | CResetTimeouts now hosts => Some (resetMemberTimeouts now hosts s)
  | CSetApplied o now rollback => setMyLastAppliedOpTimeAndWallTime o now rollback s
  | CSetDurable o now rollback => setMyLastDurableOpTimeAndWallTime o now rollback s
  | CHeartbeat now i outcome => fst <$> updateFromHeartbeat now i outcome s
  | CUpdateConfig c i => updateConfig c i s
  | CSetLastOptime full args now => fst <$> setLastOptime full args now s
  | CUpdateCommitted => fst <$> updateLastCommittedOpTimeAndWallTime s
  | CAdvanceCommitted o sync => fst <$> advanceLastCommittedOpTimeAndWallTime o sync s
  | CUpdatePrevConfig => Some (updateLastCommittedInPrevConfig s)
  end.

(** What the replication coordinator has checked before each call. *)
Definition guard (c : Call) (s : t) : Prop :=
  match c with
  | CBecome _ _ | CUpdateTerm _ _ | CPrepareAttempt | CCheckTimeouts _ | CUpdateCommitted
  | CAdvanceCommitted _ _ | CUpdatePrevConfig => True
  | CSetLastOptime _ args _ =>
      MemberData.wallOk (uiApplied args) = true ∧ MemberData.wallOk (uiDurable args) = true
  | CWin _ _ | CLose => _role s = kCandidate
  | CVoteForMyself => _role s = kCandidate
  | CRequestVotes args =>
      0 <= argCandidateIndex args < getNumMembers (_rsConfig s) ∧ _selfIndex s ≠ -1
  | CPrepareStepDown => _role s = kLeader
  | CAbortAttempt previous => previous = kMaster ∨ previous = kLeaderElect
  | CTryStepDown term _ _ _ _ =>
      _role s = kLeader → _term s = term →
      _leaderMode s = kAttemptingStepDown ∨ _leaderMode s = kSteppingDown
  | CFinishStepDown => _leaderMode s = kSteppingDown
  | CSetFollowerMode mode => _role s = kFollower ∧ mode ∈ followerModes
  | CCompleteTransition o => canCompleteTransitionToPrimary (OpTime.term o) s = true
  | CMaintenance inc =>
      _role s = kFollower ∧ (inc = 1 ∨ (inc = -1 ∧ 0 < _maintenanceModeCalls s))
  | CUpdatePrimary _ => 0 <= _selfIndex s
  | CResetTimeouts _ _ => True
  | CSetApplied o _ rollback =>
      MemberData.wallOk o = true ∧
      ∀ mine, getMyLastAppliedOpTime s = Some mine →
        rollback = true ∨ OpTimeAndWallTime.opTime o = mine ∨
        (OpTime.lt mine (OpTimeAndWallTime.opTime o) = true ∧
         Timestamp.lt (OpTime.timestamp mine)
           (OpTime.timestamp (OpTimeAndWallTime.opTime o)) = true)
  | CSetDurable o _ rollback =>
      MemberData.wallOk o = true ∧
      ∀ mine, getMyLastDurableOpTime s = Some mine →
        rollback = true ∨ OpTime.ge (OpTimeAndWallTime.opTime o) mine = true
  | CHeartbeat _ i outcome =>
      0 <= _selfIndex s ∧ 0 <= i < getNumMembers (_rsConfig s) ∧ i ≠ _selfIndex s ∧
      match outcome with
      | HbResponse hb =>
          (∀ o, ReplSetHeartbeatResponse._appliedOpTime hb = Some o → MemberData.wallOk o = true) ∧
          (∀ o, ReplSetHeartbeatResponse._durableOpTime hb = Some o → MemberData.wallOk o = true)
      | _ => True
      end
  | CUpdateConfig c i =>
      _role s ≠ kCandidate ∧ _isInitialized c = true ∧ Installed c ∧
      -1 <= i < getNumMembers c ∧ 1 <= getNumMembers c ∧
      (_configServer c = true → _readCommitted s ≠ kUnknown) ∧
      ∃ p, findCustomWriteMode c kMajorityWriteConcernModeName = Some p
  end.

(** What nobody checks, and invariants of the code rely on: a configuration has no priority that is NaN,
    and the member that the last vote went to is still in the configuration when the node is
    asked again in that term. *)
Definition sane (c : Call) (s : t) : Prop :=
  match c with
  | CRequestVotes args =>
      lvTerm (_lastVote s) = argTerm args → 0 <= lvCandidate (_lastVote s) < getNumMembers (_rsConfig s)
  | CUpdateConfig c _ => ∀ m, m ∈ _members c → MemberConfig.getPriority m ≠ SpecFloat.S754_nan
  | _ => True
  end.

(** ** Preservation *)

Lemma leaderModeStep_kNotLeader old : old ≠ kNotLeader → leaderModeStep old kNotLeader = true.
Proof. by destruct old. Qed.

Lemma leaderModeStep_kSteppingDown old :
  old ≠ kNotLeader → old ≠ kSteppingDown → leaderModeStep old kSteppingDown = true.
Proof. by destruct old. Qed.

(** Data of members may change as long as identities stay. *)
Definition sameIdentity (m m' : MemberData.t) : Prop :=
  MemberData._configIndex m' = MemberData._configIndex m ∧
  MemberData._isSelf m' = MemberData._isSelf m ∧
  MemberData._memberId m' = MemberData._memberId m ∧
  (MemberData.up m' = true → MemberData.up m = true) ∧
  (wallResponse m → wallResponse m').

Lemma sameIdentity_refl m : sameIdentity m m.
Proof. done. Qed.

Lemma DataOk_change c si l l' :
  Forall2 sameIdentity l l' → DataOk c si l → DataOk c si l'.
Proof.
  intros H. unfold DataOk. destruct (0 <=? si).
  - intros [Hl Hd]. split; [by rewrite <- (Forall2_length _ _ _ H)|].
    intros i m' Hm'. destruct (Forall2_lookup_r _ _ _ _ _ H Hm') as (m & Hm & E1 & E2 & _).
    rewrite E1, E2. by apply Hd.
  - intros (m & -> & Hs & Hu). destruct l' as [|m' [|]]; inversion H as [|? ? ? ? Hh Ht]; subst;
      [|by inversion Ht].
    destruct Hh as (_ & E & _ & Hup & _). exists m'. rewrite E. auto.
Qed.

Lemma sameIdentity_insert l i m m' :
  l !! i = Some m → sameIdentity m m' → Forall2 sameIdentity l (<[i := m']> l).
Proof.
  intros H Hs. apply Forall2_same_length_lookup_2; [by rewrite length_insert|].
  intros j x y Hx Hy. destruct (decide (i = j)) as [<-|Hne].
  - rewrite list_lookup_insert_eq in Hy by (by eapply lookup_lt_Some).
    rewrite H in Hx. by simplify_eq.
  - rewrite list_lookup_insert_ne in Hy by done. rewrite Hx in Hy. simplify_eq.
    apply sameIdentity_refl.
Qed.

Lemma sameIdentity_ids l l' :
  Forall2 sameIdentity l l' → MemberData._memberId <$> l = MemberData._memberId <$> l'.
Proof.
  induction 1 as [|m m' l l' (_ & _ & E & _) _ IH]; [done|]. by rewrite !fmap_cons, E, IH.
Qed.

(** New member data of the same shape keeps the invariant. *)
Lemma Inv_memberData s l :
  Inv s → Forall2 sameIdentity (_memberData s) l → Inv (set_memberData l s).
Proof.
  intros Hi H. destruct Hi. constructor; simpl; try done.
  - by eapply DataOk_change.
  - apply Forall_forall. intros m' [i Hm']%list_elem_of_lookup.
    destruct (Forall2_lookup_r _ _ _ _ _ H Hm') as (m & Hm & _ & _ & _ & _ & Hw).
    apply Hw. by eapply Forall_lookup_1.
  - unfold PrimaryIndexOk in *. simpl. by rewrite <- (Forall2_length _ _ _ H).
  - intros Hs. rewrite <- inv_ids0 by done. symmetry. by apply sameIdentity_ids.
Qed.

Lemma markStale_identity m : sameIdentity m (MemberData.markLastUpdateStale m).
Proof. by destruct m. Qed.
Lemma liveness_identity now m : sameIdentity m (MemberData.updateLiveness now m).
Proof. by destruct m. Qed.
Lemma down_identity now msg m : sameIdentity m (MemberData.setDownValues now msg m).
Proof. destruct m. split_and!; [done..|]. intros _. by intros o [= <-]. Qed.

Lemma become_ok now reason s :
  Inv s → ∃ s', exec (CBecome now reason) s = Some s' ∧ Inv s'.
Proof.
  intros Hi. simpl. unfold becomeCandidateIfElectable.
  case_bool_decide as H1; [eauto|]. case_bool_decide as H2; [eauto|].
  destruct (myUnelectableReason_some sp window now reason s Hi) as [r Er]. rewrite Er.
  cbn [mbind option_bind]. destruct (Z.eqb_spec r 0) as [->|]; [|eauto]. eexists. split; [done|].
  pose proof Hi as [Hrole]. constructor; simpl; try done.
  - split; [done|]. intros Hlm. by apply Hrole in Hlm.
  - intros _. destruct (Z.lt_ge_cases (_selfIndex s) 0); [exfalso|done].
    assert (_selfIndex s = -1) as Hs by (pose proof (inv_self s Hi); lia).
    unfold _getMyUnelectableReason in Er. rewrite Hs in Er.
    destruct (getMyLastAppliedOpTime s) as [o|]; cbn [mbind option_bind] in Er; [|done].
    destruct (_aMajoritySeemsToBeUp s) as [b|]; cbn [mbind option_bind] in Er; [|done].
    simpl in Er. unfold add_reason in Er.
    destruct (OpTime.isNull o), b; vm_compute in Er; done.
Qed.

Lemma win_ok id ts s :
  Inv s → _role s = kCandidate → ∃ s', exec (CWin id ts) s = Some s' ∧ Inv s'.
Proof.
  intros Hi Hr. pose proof (data_length s Hi) as Hlen. destruct Hi.
  assert (_leaderMode s = kNotLeader) as Hlm.
  { destruct (_leaderMode s) eqn:E; [done|..];
      (assert (_role s = kLeader) by (by apply inv_role0)); congruence. }
  simpl. unfold processWinElection, _setLeaderMode, setElectionInfo. simpl.
  rewrite Hr, Hlm. simpl. eexists. split; [done|].
  assert (0 <= _selfIndex s) by (apply inv_member0; congruence).
  constructor; simpl; try done.
  unfold PrimaryIndexOk. simpl. right. rewrite Hlen by done. split; [done|].
  by apply inv_self0.
Qed.

Lemma lose_ok s : Inv s → _role s = kCandidate → ∃ s', exec CLose s = Some s' ∧ Inv s'.
Proof.
  intros Hi Hr. destruct Hi.
  assert (_leaderMode s = kNotLeader) as Hlm.
  { destruct (_leaderMode s) eqn:E; [done|..];
      (assert (_role s = kLeader) by (by apply inv_role0)); congruence. }
  simpl. unfold processLoseElection. rewrite Hr, Hlm. simpl. eexists. split; [done|].
  constructor; simpl; done.
Qed.

Lemma updateTerm_ok term now s :
  Inv s → ∃ s', exec (CUpdateTerm term now) s = Some s' ∧ Inv s'.
Proof.
  intros Hi. simpl. unfold updateTerm. destruct (term <=? _term s); [eauto|].
  rewrite iAmPrimary_spec by (destruct Hi; constructor; done). simpl.
  destruct Hi. case_bool_decide; eexists; (split; [done|]); constructor; done.
Qed.

Lemma setLeaderMode_ok m s :
  Inv s → _role s = kLeader → m ≠ kNotLeader → leaderModeStep (_leaderMode s) m = true →
  _setLeaderMode m s = Some (set_leaderMode m s) ∧ Inv (set_leaderMode m s).
Proof.
  intros Hi Hr Hm Hs. unfold _setLeaderMode. rewrite Hs. split; [done|].
  destruct Hi. constructor; simpl; done.
Qed.

Lemma prepareUnconditional_ok s :
  Inv s → _role s = kLeader →
  ∃ r, prepareForUnconditionalStepDown s = Some r ∧ Inv (fst r).
Proof.
  intros Hi Hr. unfold prepareForUnconditionalStepDown.
  case_bool_decide as H; [by eexists|].
  pose proof (proj1 (inv_role s Hi) Hr) as Hn.
  destruct (setLeaderMode_ok kSteppingDown s Hi Hr) as [-> Hi']; [done| |].
  - by apply leaderModeStep_kSteppingDown.
  - simpl. by eexists.
Qed.

Lemma role_of_mode s : Inv s → _leaderMode s ≠ kNotLeader → _role s = kLeader.
Proof. intros Hi. apply (inv_role s Hi). Qed.

Lemma prepareAttempt_ok s : Inv s → ∃ s', exec CPrepareAttempt s = Some s' ∧ Inv s'.
Proof.
  intros Hi. simpl. unfold prepareForStepDownAttempt.
  destruct (_leaderMode s) eqn:E; try (by eexists);
    (destruct (setLeaderMode_ok kAttemptingStepDown s Hi) as [-> Hi'];
     [by apply role_of_mode; [|rewrite E]|done|by rewrite E|by eexists]).
Qed.

Lemma abort_ok p s :
  Inv s → p = kMaster ∨ p = kLeaderElect → ∃ s', exec (CAbortAttempt p) s = Some s' ∧ Inv s'.
Proof.
  intros Hi Hp. simpl. unfold abortStepDownAttempt. case_bool_decide as E; [|eauto].
  destruct (setLeaderMode_ok p s Hi) as [-> Hi'];
    [by apply role_of_mode; [|rewrite E]|by destruct Hp as [-> | ->]
    |rewrite E; by destruct Hp as [-> | ->]|by eexists].
Qed.

(** *** Stepping down *)

Lemma leb_ltb_not_nan p : p ≠ SpecFloat.S754_nan → SpecFloat.SFleb p dzero = false → dlt dzero p = true.
Proof. destruct p as [[]|[]| |[] m e]; done. Qed.

Lemma unelectableReason_some i s :
  Inv s → 0 <= _selfIndex s → 0 <= i < getNumMembers (_rsConfig s) → i ≠ _selfIndex s →
  ∃ r, _getUnelectableReason i s = Some r.
Proof.
  intros Hi Hs Hb Hne. unfold _getUnelectableReason.
  destruct (Z.eqb_spec i (_selfIndex s)); [done|]. simpl.
  destruct (getMemberAt_some _ _ Hb) as (mc & -> & Hmc). cbn [mbind option_bind].
  destruct (memberDataAt_some s i) as (m & -> & _); [by rewrite data_length|].
  cbn [mbind option_bind]. set (r := add_reason _ StepDownPeriodActive _).
  assert ((negb (r =? 0) || MemberConfig.isElectable mc) = true) as ->; [|eauto].
  unfold r, add_reason, MemberConfig.isElectable, MemberConfig.isArbiter.
  destruct (MemberConfig._arbiterOnly mc), (SpecFloat.SFleb _ dzero) eqn:Ep,
    (negb (_ =? MemberState.RS_SECONDARY)), (MemberData.up m && MemberData.isUnelectable m);
    try reflexivity.
  apply leb_ltb_not_nan in Ep; [by rewrite Ep|].
  apply (inv_priority s Hi). by eapply list_elem_of_lookup_2.
Qed.

Lemma caughtUp_some i o s :
  Inv s → 0 <= _selfIndex s → 0 <= i < getNumMembers (_rsConfig s) → i ≠ _selfIndex s →
  ∃ b, _isCaughtUpAndElectable i o s = Some b.
Proof.
  intros Hi Hs Hb Hne. unfold _isCaughtUpAndElectable.
  destruct (unelectableReason_some i s Hi Hs Hb Hne) as [r ->]. cbn [mbind option_bind].
  destruct (negb _); [eauto|].
  destruct (memberDataAt_some s i) as (m & -> & _); [by rewrite data_length|]. simpl. eauto.
Qed.

Lemma anyCaughtUp_some n i o s :
  Inv s → 0 <= _selfIndex s → 0 <= i → i + Z.of_nat n <= getNumMembers (_rsConfig s) →
  ∃ b, anyCaughtUp n i o s = Some b.
Proof.
  intros Hi Hs. revert i. induction n as [|n IH]; intros i H0 Hb; simpl; [eauto|].
  destruct (Z.eqb_spec i (_selfIndex s)); [apply IH; lia|].
  destruct (caughtUp_some i o s) as [b ->]; [done|done|lia|done|].
  cbn [mbind option_bind]. destruct b; [eauto|]. apply IH; lia.
Qed.

Lemma satisfiedTags_some c si pred l :
  DataOk c si l → 0 <= si → ∃ tags, satisfiedTags c pred l = Some tags.
Proof.
  intros Hd Hs. unfold DataOk in Hd. destruct (Z.leb_spec 0 si); [|lia]. destruct Hd as [Hl Hd].
  assert (∀ m, m ∈ l → 0 <= MemberData._configIndex m < getNumMembers c) as Hb.
  { intros m [i Hi]%list_elem_of_lookup. destruct (Hd i m Hi) as [-> _].
    apply lookup_lt_Some in Hi. unfold getNumMembers. lia. }
  clear Hl Hd. induction l as [|m l IH]; simpl; [eauto|].
  destruct IH as [tags E]; [intros; apply Hb; by right|].
  destruct (pred m); [|eauto]. pose proof (Hb m (list_elem_of_here _ _)).
  destruct (Z.leb_spec 0 (MemberData._configIndex m)); [|lia].
  destruct (getMemberAt_some c (MemberData._configIndex m)) as (mc & -> & _); [done|].
  cbn [mbind option_bind]. rewrite E. simpl. eauto.
Qed.

Lemma isSafeToStepDown_some s : Inv s → ∃ b, isSafeToStepDown s = Some b.
Proof.
  intros Hi. unfold isSafeToStepDown. destruct (_ || _) eqn:E; [eauto|]. to_prop.
  destruct (lastApplied_some s Hi) as [o Eo]. rewrite Eo. cbn [mbind option_bind].
  destruct (negb _); [eauto|]. destruct (inv_majority s Hi) as [p ->]; [lia|].
  cbn [mbind option_bind]. unfold haveTaggedNodesReachedOpTime, haveTaggedNodesSatisfiedCondition.
  rewrite Eo. cbn [mbind option_bind]. rewrite Z.eqb_refl.
  destruct (satisfiedTags_some _ _ (hasReached o false) _ (inv_data s Hi)) as [tags ->]; [lia|].
  cbn [mbind option_bind]. destruct (negb _); [eauto|].
  apply anyCaughtUp_some; [done|lia|lia|]. unfold getNumMembers. lia.
Qed.

Lemma try_ok term now wait until force s :
  Inv s → guard (CTryStepDown term now wait until force) s →
  ∃ s', exec (CTryStepDown term now wait until force) s = Some s' ∧ Inv s'.
Proof.
  intros Hi Hg. simpl in *. unfold tryToStartStepDown.
  destruct (_ || _) eqn:E; [eauto|].
  apply orb_false_iff in E as [[E1 E2]%orb_false_iff E3]. to_prop.
  - destruct (Hg ltac:(done) ltac:(done)) as [Hm|Hm]; [|done].
    rewrite bool_decide_true by done. destruct (until <=? now); [eauto|].
    unfold _canCompleteStepDownAttempt.
    assert (∃ b, (if force && (wait <=? now) then Some true else isSafeToStepDown s) = Some b)
      as [b ->] by (destruct (_ && _); [eauto|by apply isSafeToStepDown_some]).
    cbn [mbind option_bind]. destruct (negb b); [eauto|].
    destruct (prepareUnconditional_ok (set_stepDownUntil until s)) as (r & -> & Hr).
    + by destruct Hi; constructor.
    + simpl. apply role_of_mode; [done|]. by rewrite Hm.
    + simpl. eauto.
Qed.

Lemma remotePrimary_bounds si i found l :
  0 <= i → found = -1 ∨ (0 <= found < i ∧ found ≠ si) →
  remotePrimary si i found l = -1 ∨
  (0 <= remotePrimary si i found l < i + Z.of_nat (length l) ∧ remotePrimary si i found l ≠ si).
Proof.
  revert i found. induction l as [|m l IH]; intros i found H0 Hf; simpl; [lia|].
  destruct (_ && _) eqn:E.
  - to_prop. destruct (negb (found =? -1)); [by left|].
    destruct (IH (i + 1) i) as [?|?]; [lia|lia|by left|right; lia].
  - destruct (IH (i + 1) found) as [?|?]; [lia|lia|by left|right; lia].
Qed.

Lemma finish_ok s :
  Inv s → _leaderMode s = kSteppingDown → ∃ s', exec CFinishStepDown s = Some s' ∧ Inv s'.
Proof.
  intros Hi Hm. assert (_role s = kLeader) as Hr by (apply role_of_mode; [done|by rewrite Hm]).
  simpl. unfold finishUnconditionalStepDown. rewrite bool_decide_true by done.
  assert (0 <= _selfIndex s) as Hs by (apply inv_member; [done|by rewrite Hr]).
  pose proof (remotePrimary_bounds (_selfIndex s) 0 (-1) (_memberData s)) as Hb.
  set (p := remotePrimary (_selfIndex s) 0 (-1) (_memberData s)) in *.
  unfold _stepDownSelfAndReplaceWith. rewrite Hr, (inv_primary s Hi Hr), Z.eqb_refl. simpl.
  destruct (Z.eqb_spec (_selfIndex s) (-1)); [lia|].
  destruct (Z.eqb_spec (_selfIndex s) p); [destruct Hb; [lia|by left|lia|lia]|]. simpl.
  unfold _setLeaderMode. simpl. rewrite Hm. simpl. eexists. split; [done|].
  destruct Hi. constructor; simpl; try done.
  unfold PrimaryIndexOk. simpl. destruct Hb as [?|?]; [lia|by left|by left|right; lia].
Qed.

(** *** The rest *)

Lemma setFollowerMode_ok m s :
  Inv s → guard (CSetFollowerMode m) s → ∃ s', exec (CSetFollowerMode m) s = Some s' ∧ Inv s'.
Proof.
  intros Hi [Hr Hm]. simpl. unfold setFollowerMode. rewrite bool_decide_true by done.
  change [MemberState.RS_RECOVERING; MemberState.RS_ROLLBACK; MemberState.RS_SECONDARY;
    MemberState.RS_STARTUP2] with followerModes.
  assert (existsb (Z.eqb m) followerModes = true) as ->.
  { apply existsb_exists. exists m. split; [by apply list_elem_of_In|apply Z.eqb_refl]. }
  eexists. split; [done|]. destruct Hi. by constructor.
Qed.

Lemma complete_ok o s :
  Inv s → guard (CCompleteTransition o) s →
  ∃ s', exec (CCompleteTransition o) s = Some s' ∧ Inv s'.
Proof.
  intros Hi Hg. simpl in *. unfold completeTransitionToPrimary. rewrite Hg.
  case_bool_decide as E.
  - destruct (setLeaderMode_ok kMaster s Hi) as [-> Hi'];
      [by apply role_of_mode; [|rewrite E]|done|by rewrite E|].
    simpl. eexists. split; [done|]. destruct Hi'. by constructor.
  - simpl. eexists. split; [done|]. destruct Hi. by constructor.
Qed.

Lemma maintenance_ok inc s :
  Inv s → guard (CMaintenance inc) s → ∃ s', exec (CMaintenance inc) s = Some s' ∧ Inv s'.
Proof.
  intros Hi [Hr Hinc]. simpl. unfold adjustMaintenanceCountBy. rewrite bool_decide_true by done.
  destruct (Z.leb_spec 0 (_maintenanceModeCalls s + inc)).
  - eexists. split; [done|]. destruct Hi. by constructor.
  - pose proof (inv_maintenance s Hi). destruct Hinc as [-> |[-> ?]]; lia.
Qed.

Lemma setMemberAsDown_ok now i s :
  Inv s → _role s = kLeader → 0 <= i < Z.of_nat (length (_memberData s)) → i ≠ _selfIndex s →
  ∃ s' b, setMemberAsDown sp window now i s = Some (s', b) ∧ Inv s' ∧
    _role s' = kLeader ∧ Forall2 sameIdentity (_memberData s) (_memberData s') ∧
    _selfIndex s' = _selfIndex s.
Proof.
  intros Hi Hr Hb Hne. unfold setMemberAsDown.
  destruct (Z.eqb_spec i (_selfIndex s)); [done|].
  destruct (Z.eqb_spec i (-1)); [lia|]. rewrite (inv_primary s Hi Hr), Z.eqb_refl. simpl.
  destruct (memberDataAt_some s i Hb) as (m & -> & Hm). cbn [mbind option_bind].
  set (m' := MemberData.setDownValues _ _ m).
  assert (Forall2 sameIdentity (_memberData s) (<[Z.to_nat i:=m']> (_memberData s))) as Hf
    by (eapply sameIdentity_insert; [done|apply down_identity]).
  assert (Inv (set_memberData (<[Z.to_nat i:=m']> (_memberData s)) s)) as Hi'
    by by apply Inv_memberData.
  destruct (myUnelectableReason_some sp window now kElectionTimeout _ Hi') as [r ->].
  simpl. eauto 10.
Qed.

Lemma timeouts_ok now n i stepdown s :
  Inv s → (i + n = length (_memberData s))%nat →
  ∃ s' b, checkTimeoutsFrom sp window now n i stepdown s = Some (s', b) ∧ Inv s'.
Proof.
  revert i stepdown s. induction n as [|n IH]; intros i stepdown s Hi Hn; simpl; [eauto|].
  destruct (lookup_lt_is_Some_2 (_memberData s) i) as [m Hm]; [lia|]. rewrite Hm.
  cbn [mbind option_bind]. destruct (_ && _) eqn:E; [|apply IH; [done|lia]]. to_prop.
  set (s1 := set_memberData _ s).
  assert (Forall2 sameIdentity (_memberData s) (_memberData s1)) as Hf
    by (eapply sameIdentity_insert; [done|apply markStale_identity]).
  assert (Inv s1) as Hi1 by by apply Inv_memberData.
  pose proof (Forall2_length _ _ _ Hf) as Hl.
  rewrite iAmPrimary_spec by done. cbn [mbind option_bind].
  destruct (_ && _) eqn:E2; [|apply IH; [done|lia]]. to_prop.
  destruct (setMemberAsDown_ok now (Z.of_nat i) s1) as (s2 & b & -> & Hi2 & _ & Hf2 & _);
    [done|done|lia| |].
  - change (Z.of_nat i ≠ _selfIndex s). intros Heq. pose proof (inv_data s Hi) as Hd.
    unfold DataOk in Hd. destruct (Z.leb_spec 0 (_selfIndex s)); [|lia].
    destruct Hd as [_ Hd]. destruct (Hd i m Hm) as [_ Hself].
    rewrite Heq, Z.eqb_refl in Hself. congruence.
  - cbn [mbind option_bind fst snd]. apply IH; [done|].
    pose proof (Forall2_length _ _ _ Hf2). lia.
Qed.

Lemma scanPrimary_bounds i best bt l :
  0 <= i → best = -1 ∨ 0 <= best < i →
  scanPrimary i best bt l = -1 ∨ 0 <= scanPrimary i best bt l < i + Z.of_nat (length l).
Proof.
  revert i best bt. induction l as [|m l IH]; intros i best bt H0 Hb; simpl; [lia|].
  destruct (_ && _).
  - destruct (IH (i + 1) i (MemberData.getTerm m)); lia.
  - destruct (IH (i + 1) best bt); lia.
Qed.

Lemma updatePrimary_ok now s :
  Inv s → 0 <= _selfIndex s → ∃ s', exec (CUpdatePrimary now) s = Some s' ∧ Inv s'.
Proof.
  intros Hi Hs. simpl. unfold _updatePrimaryFromHBDataV1.
  destruct (Z.eqb_spec (_selfIndex s) (-1)); [lia|]. simpl.
  destruct (Z.eqb_spec (_currentPrimaryIndex s) (_selfIndex s)) as [E|E]; [eauto|].
  eexists. split; [done|]. destruct Hi. constructor; simpl; try done.
  - intros Hr. by apply inv_primary0 in Hr.
  - unfold PrimaryIndexOk. simpl.
    destruct (scanPrimary_bounds 0 (-1) 0 (_memberData s)) as [?|?]; [lia|by left|by left|right; lia].
Qed.

Lemma resetTimeouts_ok now hosts s : Inv s → Inv (resetMemberTimeouts now hosts s).
Proof.
  intros Hi. apply Inv_memberData; [done|]. apply Forall2_fmap_r.
  apply Forall_Forall2_diag, Forall_forall. intros m _.
  unfold compose; case_match; [apply liveness_identity|apply sameIdentity_refl].
Qed.

Lemma requestVotes_ok args s :
  Inv s → guard (CRequestVotes args) s → sane (CRequestVotes args) s →
  ∃ s' r, processReplSetRequestVotes args s = Some (s', r) ∧ Inv s' ∧
    (s' = s ∨ s' = set_lastVote (mkLastVote (argTerm args) (argCandidateIndex args)) s).
Proof.
  intros Hi [Hc Hs] Hv. unfold processReplSetRequestVotes.
  pose proof (inv_self s Hi).
  destruct (negb _); [eauto 6|]. destruct (argTerm args <? _term s); [eauto 6|].
  destruct (negb _); [eauto 6|]. destruct (lastApplied_some s Hi) as [o ->].
  cbn [mbind option_bind]. destruct (OpTime.lt _ o); [eauto 6|].
  destruct (negb (argDryRun args) && (lvTerm (_lastVote s) =? argTerm args)) eqn:E.
  - to_prop. destruct (getMemberAt_some (_rsConfig s) (lvCandidate (_lastVote s))) as (m & -> & _);
      [auto|]. simpl. eauto 6.
  - unfold _findHealthyPrimaryOfEqualOrGreaterPriority.
    destruct (getMemberAt_some _ _ Hc) as (mc & -> & _). cbn [mbind option_bind].
    assert (∀ l i, 0 <= i → i + Z.of_nat (length l) <= getNumMembers (_rsConfig s) →
      ∃ z, findHealthyPrimary (_rsConfig s) (argCandidateIndex args) i
             (MemberConfig.getPriority mc) l = Some z) as Hf.
    { intros l. induction l as [|m l IH]; intros i H0 Hl; simpl in *; [eauto|].
      destruct (_ || _); [apply IH; lia|].
      destruct (getMemberAt_some (_rsConfig s) i) as (mi & -> & _); [lia|].
      cbn [mbind option_bind]. case_match; [eauto|apply IH; lia]. }
    destruct (Hf (_memberData s) 0) as [z ->]; [lia|rewrite data_length by (done || lia); lia|].
    cbn [mbind option_bind]. destruct (selfConfig_some s Hi) as [self ->]; [lia|].
    cbn [mbind option_bind].
    destruct (MemberConfig.isArbiter self && (0 <=? z)); [eauto 6|].
    destruct (argDryRun args); [eauto 6|]. eexists _, _. split; [done|]. split; [|by right].
    destruct Hi. by constructor.
Qed.

(** *** Optimes and heartbeats *)

Lemma setApplied_ok o now rb s :
  Inv s → guard (CSetApplied o now rb) s →
  ∃ s', exec (CSetApplied o now rb) s = Some s' ∧ Inv s'.
Proof.
  intros Hi [Hw Hg]. simpl. unfold setMyLastAppliedOpTimeAndWallTime.
  destruct (selfMemberData_some s Hi) as (i & m & -> & Em & Hm).
  cbn [mbind option_bind]. rewrite Hm. cbn [mbind option_bind].
  specialize (Hg (MemberData._lastAppliedOpTime m)).
  unfold getMyLastAppliedOpTime in Hg. rewrite Em in Hg. specialize (Hg eq_refl).
  set (ok := rb || _ || _).
  assert (ok = true) as ->.
  { unfold ok. destruct Hg as [-> | [-> | [H1 H2]]]; [done| |].
    - by rewrite OpTime.eqb_refl, orb_true_r.
    - assert (OpTime.gt (OpTimeAndWallTime.opTime o) (MemberData._lastAppliedOpTime m) = true)
        as -> by (unfold OpTime.gt; by rewrite OpTime.le_ge, negb_involutive).
      by rewrite H2, !orb_true_r. }
  unfold updateMemberData. rewrite Hm. cbn [mbind option_bind].
  unfold MemberData.setLastAppliedOpTimeAndWallTime. rewrite Hw. cbn [mbind option_bind].
  eexists. split; [done|]. apply Inv_memberData; [done|].
  eapply sameIdentity_insert; [done|]. by destruct m.
Qed.

Lemma setDurable_ok o now rb s :
  Inv s → guard (CSetDurable o now rb) s →
  ∃ s', exec (CSetDurable o now rb) s = Some s' ∧ Inv s'.
Proof.
  intros Hi [Hw Hg]. simpl. unfold setMyLastDurableOpTimeAndWallTime.
  destruct (selfMemberData_some s Hi) as (i & m & -> & Em & Hm).
  cbn [mbind option_bind]. rewrite Hm. cbn [mbind option_bind].
  specialize (Hg (MemberData._lastDurableOpTime m)).
  unfold getMyLastDurableOpTime in Hg. rewrite Em in Hg. specialize (Hg eq_refl).
  assert ((rb || OpTime.ge (OpTimeAndWallTime.opTime o) (MemberData._lastDurableOpTime m)) = true)
    as -> by (destruct Hg as [-> | ->]; [done|by rewrite orb_true_r]).
  unfold updateMemberData. rewrite Hm. cbn [mbind option_bind].
  unfold MemberData.setLastDurableOpTimeAndWallTime. rewrite Hw. cbn [mbind option_bind].
  eexists. split; [done|]. apply Inv_memberData; [done|].
  eapply sameIdentity_insert; [done|]. destruct m. by case_match.
Qed.

(** The optimes the stored response carries come with wall clock times, so that a
    response without them can take them over. *)
Lemma setUpValues_some now hb m :
  (∀ o, ReplSetHeartbeatResponse._appliedOpTime hb = Some o → MemberData.wallOk o = true) →
  (∀ o, ReplSetHeartbeatResponse._durableOpTime hb = Some o → MemberData.wallOk o = true) →
  wallResponse m →
  ∃ m' b, MemberData.setUpValues now hb m = Some (m', b) ∧
    MemberData._configIndex m' = MemberData._configIndex m ∧
    MemberData._isSelf m' = MemberData._isSelf m ∧
    MemberData._memberId m' = MemberData._memberId m ∧ wallResponse m'.
Proof.
  intros Ha Hd Hl. unfold wallResponse in *. destruct m. unfold MemberData.setUpValues. simpl in *.
  set (applied := option.default _ (ReplSetHeartbeatResponse._appliedOpTime hb)).
  set (durable := option.default _ (ReplSetHeartbeatResponse._durableOpTime hb)).
  assert (MemberData.wallOk applied = true) as Hwa.
  { unfold applied. destruct (ReplSetHeartbeatResponse._appliedOpTime hb); [by apply Ha|].
    simpl. destruct (ReplSetHeartbeatResponse._appliedOpTime _lastResponse); [by apply Hl|done]. }
  assert (MemberData.wallOk durable = true) as Hwd.
  { unfold durable. destruct (ReplSetHeartbeatResponse._durableOpTime hb); [by apply Hd|done]. }
  unfold MemberData.advanceLastAppliedOpTimeAndWallTime,
    MemberData.setLastAppliedOpTimeAndWallTime, MemberData.advanceLastDurableOpTimeAndWallTime.
  rewrite Hwa. simpl. rewrite Hwd.
  destruct (OpTime.lt _lastAppliedOpTime (OpTimeAndWallTime.opTime applied)); simpl;
    (destruct (OpTime.lt _lastDurableOpTime (OpTimeAndWallTime.opTime durable)); simpl;
     eexists _, _; (split; [done|]); simpl; split_and!; try done; by intros o [= <-]).
Qed.

(** New data for one other member: only its identity must stay. *)
Lemma Inv_member_update s i m m' :
  Inv s → 0 <= _selfIndex s → _memberData s !! i = Some m →
  MemberData._configIndex m' = MemberData._configIndex m →
  MemberData._isSelf m' = MemberData._isSelf m →
  MemberData._memberId m' = MemberData._memberId m → wallResponse m' →
  Inv (set_memberData (<[i := m']> (_memberData s)) s).
Proof.
  intros Hi Hs Hm E1 E2 E3 Hw. destruct Hi. constructor; simpl; try done.
  - unfold DataOk in *. destruct (Z.leb_spec 0 (_selfIndex s)); [|lia].
    destruct inv_data0 as [Hl Hd]. split; [by rewrite length_insert|]. intros j x Hx.
    destruct (decide (i = j)) as [<-|Hne].
    + rewrite list_lookup_insert_eq in Hx by (by eapply lookup_lt_Some). simplify_eq.
      rewrite E1, E2. by apply Hd.
    + rewrite list_lookup_insert_ne in Hx by done. by apply Hd.
  - by apply Forall_insert.
  - unfold PrimaryIndexOk in *. simpl. by rewrite length_insert.
  - intros _. rewrite list_fmap_insert, E3, list_insert_id; [by apply inv_ids0|].
    by rewrite list_lookup_fmap, Hm.
Qed.

Lemma heartbeat_ok now i outcome s :
  Inv s → guard (CHeartbeat now i outcome) s →
  ∃ s', exec (CHeartbeat now i outcome) s = Some s' ∧ Inv s'.
Proof.
  intros Hi (Hs & Hb & Hne & Hg). simpl. unfold updateFromHeartbeat.
  destruct (Z.eqb_spec i (_selfIndex s)); [done|]. simpl.
  destruct (memberDataAt_some s i) as (m & -> & Hm); [by rewrite data_length|].
  destruct (getMemberAt_some _ _ Hb) as (mc & -> & _). cbn [mbind option_bind].
  assert (wallResponse m) as Hw by (eapply Forall_lookup_1; [by apply inv_wall|done]).
  set (r := match outcome with HbResponse _ => _ | _ => _ end).
  assert (∃ m' b, r = Some (m', b) ∧
    MemberData._configIndex m' = MemberData._configIndex m ∧
    MemberData._isSelf m' = MemberData._isSelf m ∧
    MemberData._memberId m' = MemberData._memberId m ∧ wallResponse m') as (m' & b & -> & E1 & E2 & E3 & Hw').
  { unfold r. destruct outcome as [hb| |reason|].
    - destruct Hg as [Ha Hd]. by apply setUpValues_some.
    - eexists _, _. split; [done|]. destruct m. split_and!; [done..|by intros o [= <-]].
    - eexists _, _. split; [done|]. destruct m. split_and!; [done..|by intros o [= <-]].
    - by eexists _, _. }
  cbn [mbind option_bind fst snd].
  pose proof (Inv_member_update s _ m m' Hi Hs Hm E1 E2 E3 Hw') as Hi'.
  destruct (updatePrimary_ok now _ Hi') as (s' & E & Hs'); [done|]. simpl in E. rewrite E.
  simpl. eauto.
Qed.

Lemma sameIdentity_trans m1 m2 m3 :
  sameIdentity m1 m2 → sameIdentity m2 m3 → sameIdentity m1 m3.
Proof.
  intros (A1 & A2 & A3 & A4 & A5) (B1 & B2 & B3 & B4 & B5).
  split_and!; [congruence..|auto|auto].
Qed.

Lemma advanceApplied_some o now m :
  MemberData.wallOk o = true →
  ∃ m' b, MemberData.advanceLastAppliedOpTimeAndWallTime o now m = Some (m', b) ∧
          sameIdentity m m'.
Proof.
  intros Hw. destruct m. unfold MemberData.advanceLastAppliedOpTimeAndWallTime,
    MemberData.setLastAppliedOpTimeAndWallTime. rewrite Hw. simpl.
  destruct (OpTime.lt _ _); eexists _, _; by split.
Qed.

Lemma advanceDurable_some o now m :
  MemberData.wallOk o = true →
  ∃ m' b, MemberData.advanceLastDurableOpTimeAndWallTime o now m = Some (m', b) ∧
          sameIdentity m m'.
Proof.
  intros Hw. destruct m. unfold MemberData.advanceLastDurableOpTimeAndWallTime. rewrite Hw. simpl.
  destruct (OpTime.lt _ _); eexists _, _; by split.
Qed.

(** Looking a member up by its id and by the index of its id agree. *)
Lemma find_id_index id c :
  (findMemberIndexByConfigId c id = -1 ∧ findMemberByID c id = None) ∨
  (∃ i mc, findMemberIndexByConfigId c id = Z.of_nat i ∧ _members c !! i = Some mc ∧
           MemberConfig._id mc = id).
Proof.
  unfold findMemberIndexByConfigId, findMemberByID, indexOr.
  induction (_members c) as [|mc ms IH]; simpl; [by left|].
  destruct (Z.eqb_spec (MemberConfig._id mc) id) as [E|E].
  - right. exists 0%nat, mc. done.
  - rewrite (find_index_from_shift _ 1). pose proof (find_index_from_bounds
      (λ m, MemberConfig._id m =? id) 0 ms) as Hb.
    set (k := find_index_from _ 0 ms) in *. simpl in IH.
    assert ((1 + k =? Z.of_nat (S (length ms))) = (k =? Z.of_nat (length ms))) as ->
      by (apply eq_true_iff_eq; rewrite !Z.eqb_eq; lia).
    destruct IH as [[H1 H2]|(i & m & H1 & H2 & H3)];
      destruct (Z.eqb_spec k (Z.of_nat (length ms))); try lia.
    + by left.
    + right. exists (S i), m. split_and!; [lia|done|done].
Qed.

(** *** Reconfiguration *)

Lemma newMemberData_spec old si ms i :
  length (newMemberData old si i ms) = length ms ∧
  ∀ k m, newMemberData old si i ms !! k = Some m →
    MemberData._configIndex m = i + Z.of_nat k ∧
    MemberData._isSelf m = (i + Z.of_nat k =? si).
Proof.
  revert i. induction ms as [|mc ms IH]; intros i; simpl; [split; [done|by intros []]|].
  destruct (IH (i + 1)) as [Hl Hk]. split; [by rewrite Hl|].
  intros [|k] m Hm; simplify_eq/=.
  - rewrite Z.add_0_r. by destruct (option.default _ _).
  - destruct (Hk k m Hm) as [-> ->]. split; [lia|]. f_equal. lia.
Qed.

Lemma find_wall p l :
  Forall wallResponse l → wallResponse (option.default MemberData.default (List.find p l)).
Proof.
  intros H. destruct (List.find p l) as [m|] eqn:E; simpl; [|by intros o [= <-]].
  apply find_some in E as [Hin _]. rewrite Forall_forall in H. apply H.
  by apply list_elem_of_In.
Qed.

Lemma identity_wall i b id hp m :
  wallResponse m → wallResponse (MemberData.setIdentity i b id hp m).
Proof. by destruct m. Qed.

Lemma reconfig_wall newConfig si s :
  Forall wallResponse (_memberData s) →
  Forall wallResponse (_memberData (_updateHeartbeatDataForReconfig newConfig si s)).
Proof.
  intros H. unfold _updateHeartbeatDataForReconfig. destruct (si <? 0); simpl.
  - constructor; [|constructor]. by apply identity_wall, find_wall.
  - generalize 0. induction (_members newConfig) as [|mc ms IH]; intros i; simpl; constructor.
    + by apply identity_wall, find_wall.
    + apply IH.
Qed.

Lemma reconfig_data newConfig si s :
  -1 <= si < getNumMembers newConfig → 1 <= getNumMembers newConfig →
  DataOk newConfig si (_memberData (_updateHeartbeatDataForReconfig newConfig si s)).
Proof.
  intros Hsi Hn. unfold DataOk, _updateHeartbeatDataForReconfig.
  destruct (Z.leb_spec 0 si), (Z.ltb_spec si 0); try lia; simpl.
  - destruct (newMemberData_spec (_memberData s) si (_members newConfig) 0) as [Hl Hk].
    split; [done|]. intros i m Hm. by apply Hk in Hm.
  - eexists. split; [done|]. destruct (option.default _ _). done.
Qed.

Lemma newMemberData_ids old si i ms :
  MemberData._memberId <$> newMemberData old si i ms = MemberConfig._id <$> ms.
Proof.
  revert i. induction ms as [|mc ms IH]; intros i; [done|].
  cbn [newMemberData]. rewrite !fmap_cons, IH. by destruct (option.default _ _).
Qed.

Lemma reconfig_ids newConfig si s :
  0 <= si → MemberData._memberId <$> _memberData (_updateHeartbeatDataForReconfig newConfig si s)
            = MemberConfig._id <$> _members newConfig.
Proof.
  intros H. unfold _updateHeartbeatDataForReconfig. destruct (Z.ltb_spec si 0); [lia|].
  apply newMemberData_ids.
Qed.

(** Everything but the member data is set field by field. *)
Lemma reconfig_fields newConfig si s :
  _role (_updateHeartbeatDataForReconfig newConfig si s) = _role s ∧
  _leaderMode (_updateHeartbeatDataForReconfig newConfig si s) = _leaderMode s ∧
  _maintenanceModeCalls (_updateHeartbeatDataForReconfig newConfig si s)
  = _maintenanceModeCalls s ∧
  _followerMode (_updateHeartbeatDataForReconfig newConfig si s) = _followerMode s ∧
  _readCommitted (_updateHeartbeatDataForReconfig newConfig si s) = _readCommitted s.
Proof. unfold _updateHeartbeatDataForReconfig. by destruct (si <? 0). Qed.

Lemma updateMember_self si v tm s :
  DataOk (_rsConfig s) si (_memberData s) → 0 <= si → si < getNumMembers (_rsConfig s) →
  ∃ l, updateMemberData (Z.to_nat si)
         (λ m, Some (MemberData.setConfigVersionTerm v tm m)) s = Some (set_memberData l s) ∧
       Forall2 sameIdentity (_memberData s) l.
Proof.
  intros Hd H0 Hn. pose proof Hd as Hd'. unfold DataOk in Hd'.
  destruct (Z.leb_spec 0 si); [|lia]. destruct Hd' as [Hl _]. unfold getNumMembers in Hn.
  unfold updateMemberData.
  destruct (lookup_lt_is_Some_2 (_memberData s) (Z.to_nat si)) as [m Hm]; [lia|].
  rewrite Hm. cbn [mbind option_bind]. eexists. split; [done|].
  eapply sameIdentity_insert; [done|]. by destruct m.
Qed.

(** A node outside the leader role, pointing at no primary. *)
Lemma Inv_follower s :
  _role s = kFollower → _leaderMode s = kNotLeader →
  -1 <= _selfIndex s ∧ (0 <= _selfIndex s → _selfIndex s < getNumMembers (_rsConfig s)) →
  DataOk (_rsConfig s) (_selfIndex s) (_memberData s) →
  Forall wallResponse (_memberData s) →
  0 <= _maintenanceModeCalls s → _followerMode s ∈ followerModes →
  (_configServer (_rsConfig s) = true → _readCommitted s ≠ kUnknown) →
  (∀ m, m ∈ _members (_rsConfig s) → MemberConfig.getPriority m ≠ SpecFloat.S754_nan) →
  (0 <= _selfIndex s →
    MemberData._memberId <$> _memberData s = MemberConfig._id <$> _members (_rsConfig s)) →
  _isInitialized (_rsConfig s) = true → Installed (_rsConfig s) →
  (∃ p, findCustomWriteMode (_rsConfig s) kMajorityWriteConcernModeName = Some p) →
  Inv (set_currentPrimaryIndex (-1) s).
Proof.
  intros Hr Hm Hs Hd Hwall Hc Hf Hrc Hp Hids Hinit Hinst Hmaj. constructor; simpl; try done.
  - rewrite Hr, Hm. split; done.
  - by rewrite Hr.
  - by left.
Qed.

Lemma updateConfig_ok c i s :
  Inv s → guard (CUpdateConfig c i) s → sane (CUpdateConfig c i) s →
  ∃ s', exec (CUpdateConfig c i) s = Some s' ∧ Inv s'.
Proof.
  intros Hi (Hcand & Hinit & Hinst & Hsi & Hn & Hrc & Hmaj) Hprio. simpl in *. unfold updateConfig.
  rewrite (bool_decide_false _ Hcand).
  assert ((i <? getNumMembers c) = true) as -> by (apply Z.ltb_lt; lia). simpl.
  set (s0 := if negb (_isInitialized (_rsConfig s)) then _ else s).
  assert (Inv s0) as Hi0.
  { unfold s0. destruct (negb _); [|done]. destruct Hi. by constructor. }
  assert (_role s0 ≠ kCandidate ∧ _readCommitted s0 = _readCommitted s) as [Hcand0 Hrc0]
    by (unfold s0; by destruct (negb _)).
  clearbody s0. rewrite <- Hrc0 in Hrc. clear Hcand Hrc0 Hi s.
  destruct (reconfig_fields c i s0) as (Er & El & Em & Ef & Ec).
  pose proof (reconfig_data c i s0 Hsi Hn) as Hd.
  pose proof (reconfig_wall c i s0 (inv_wall s0 Hi0)) as Hwall.
  pose proof (reconfig_ids c i s0) as Hids.
  set (s1 := _updateHeartbeatDataForReconfig c i s0) in *.
  rewrite <- Er in Hcand0. rewrite <- Ec in Hrc.
  pose proof (inv_role s0 Hi0) as Hrole. rewrite <- Er, <- El in Hrole.
  pose proof (inv_maintenance s0 Hi0) as Hmaint. rewrite <- Em in Hmaint.
  pose proof (inv_mode s0 Hi0) as Hmode. rewrite <- Ef in Hmode.
  clear Hi0 Er El Em Ef Ec. clearbody s1.
  set (s2 := set_selfIndex i (set_rsConfig c s1)).
  assert (∃ l, (if 0 <=? i then updateMemberData (Z.to_nat i)
      (λ m, Some (MemberData.setConfigVersionTerm (_version c) (ReplSetConfig._term c) m)) s2
      else Some s2) = Some (set_memberData l s2) ∧
      Forall2 sameIdentity (_memberData s2) l) as (l & -> & Hl).
  { destruct (Z.leb_spec 0 i).
    - apply (updateMember_self i); [done|done|simpl; lia].
    - exists (_memberData s2). split; [by destruct s1|].
      apply Forall_Forall2_diag, Forall_forall. done. }
  cbn [mbind option_bind]. unfold s2. simpl.
  assert (Forall wallResponse l) as Hwl.
  { apply Forall_forall. intros m' [k Hm']%list_elem_of_lookup.
    destruct (Forall2_lookup_r _ _ _ _ _ Hl Hm') as (m & Hm & _ & _ & _ & _ & Hw).
    apply Hw. by eapply (Forall_lookup_1 _ _ _ _ Hwall). }
  assert (0 <= i → MemberData._memberId <$> l = MemberConfig._id <$> _members c) as Hids'.
  { intros H0. rewrite <- (sameIdentity_ids _ _ Hl). by apply Hids. }
  apply (DataOk_change c i) in Hl; [|done].
  case_bool_decide as Hr.
  - destruct (Z.eqb_spec i (-1)) as [->|Hne].
    + cbn [mbind option_bind]. unfold _setLeaderMode. simpl.
      rewrite leaderModeStep_kNotLeader by by apply Hrole. simpl. eexists. split; [done|].
      apply Inv_follower; simpl; done || lia.
    + unfold _selfConfig. simpl. destruct (getMemberAt_some c i) as (mc & -> & _); [lia|].
      simpl. destruct (MemberConfig.isElectable mc).
      * eexists. split; [done|]. constructor; simpl; try done; [lia|lia|].
        unfold PrimaryIndexOk. simpl. right. unfold DataOk in Hl.
        destruct (Z.leb_spec 0 i); [|lia]. destruct Hl as [-> _]. unfold getNumMembers in Hsi. lia.
      * unfold _setLeaderMode. simpl.
        rewrite leaderModeStep_kNotLeader by by apply Hrole. simpl. eexists. split; [done|].
        apply Inv_follower; simpl; done || lia.
  - assert (_leaderMode s1 = kNotLeader) as Hlm.
    { destruct (_leaderMode s1) eqn:E; [done|..]; exfalso; apply Hr; by apply Hrole. }
    assert (_role s1 = kFollower) as Hfr by by destruct (_role s1).
    eexists. split; [done|]. apply (Inv_follower (set_forceSyncSourceIndex (-1)
      (set_memberData l (set_selfIndex i (set_rsConfig c s1))))); simpl; done || lia.
Qed.

(** *** Replication progress and the commit point *)

Lemma setLastOptime_ok full args now s :
  Inv s → guard (CSetLastOptime full args now) s →
  ∃ s', exec (CSetLastOptime full args now) s = Some s' ∧ Inv s'.
Proof.
  intros Hi [Ha Hd]. simpl. unfold setLastOptime. pose proof (inv_self s Hi) as Hs.
  destruct (Z.eqb_spec (_selfIndex s) (-1)); [eauto|].
  rewrite (inv_init s Hi) by lia. simpl. destruct (uiMemberId args <? 0); [eauto|].
  destruct (selfConfig_some s Hi) as [self ->]; [lia|]. cbn [mbind option_bind].
  destruct (uiMemberId args =? _); [eauto|].
  destruct (negb full && _); [eauto|].
  destruct (find_id_index (uiMemberId args) (_rsConfig s)) as [(E & En)|(i & mc & E & Hmc & Eid)].
  - rewrite E, En. simpl. eauto.
  - rewrite E. destruct (Z.eqb_spec (Z.of_nat i) (-1)); [lia|].
    assert (0 <= _selfIndex s) as H0 by lia.
    destruct (memberDataAt_some s (Z.of_nat i)) as (m & -> & Hm).
    { rewrite data_length by done. apply lookup_lt_Some in Hmc. unfold getNumMembers. lia. }
    cbn [mbind option_bind]. rewrite Nat2Z.id in *.
    assert (MemberData._memberId m = uiMemberId args) as Hid.
    { pose proof (f_equal (.!! i) (inv_ids s Hi H0)) as H. rewrite !list_lookup_fmap, Hm, Hmc in H.
      injection H as ->. done. }
    rewrite Hid, Z.eqb_refl. cbn [mbind option_bind].
    destruct (advanceApplied_some (uiApplied args) now m Ha) as (m1 & b1 & -> & I1).
    cbn [mbind option_bind fst].
    destruct (advanceDurable_some (uiDurable args) now m1 Hd) as (m2 & b2 & -> & I2).
    cbn [mbind option_bind fst]. eexists. split; [done|].
    apply Inv_memberData; [done|]. eapply sameIdentity_insert; [done|].
    by eapply sameIdentity_trans.
Qed.

Lemma voting_some s :
  Inv s → 0 <= _selfIndex s →
  ∃ l, votingOpTimes (_rsConfig s) (_writeConcernMajorityJournalDefault (_rsConfig s))
         (_memberData s) = Some l ∧
       l = commitOpTime (_writeConcernMajorityJournalDefault (_rsConfig s)) ∘ snd <$>
             filter (λ e, isVotingEntry e = true) (zip (_members (_rsConfig s)) (_memberData s)) ∧
       Z.of_nat (length l) = _totalVotingMembers (_rsConfig s) ∧
       1 <= _writeMajority (_rsConfig s) <= Z.of_nat (length l).
Proof.
  intros Hi Hs. pose proof (inv_data s Hi) as Hd. unfold DataOk in Hd.
  destruct (Z.leb_spec 0 (_selfIndex s)); [|lia]. destruct Hd as [Hl Hd].
  eexists. split; [|split; [done|]].
  - apply (votingOpTimes_zip _ _ _ 0); [done|intros i m Hm; by apply Hd|].
    intros i mc Hmc. change (0 + i)%nat with i.
    destruct (getMemberAt_some (_rsConfig s) (Z.of_nat i)) as (mc' & -> & Hmc').
    { apply lookup_lt_Some in Hmc. unfold getNumMembers. lia. }
    rewrite Nat2Z.id in Hmc'. by rewrite Hmc in Hmc'.
  - rewrite length_fmap, <- count_if_length, count_voting_zip by done.
    destruct (installed_counts _ (inv_installed s Hi Hs)) as (-> & _ & _ & -> & Hb & _).
    pose proof (Z.div_pos (count_if MemberConfig.isVoter (_members (_rsConfig s))) 2). lia.
Qed.

Lemma advance_some o sync s : Inv s →
  ∃ s' b, advanceLastCommittedOpTimeAndWallTime o sync s = Some (s', b) ∧
    (s' = s ∨ ∃ o', s' = set_lastCommittedOpTimeAndWallTime o' s).
Proof.
  intros Hi. unfold advanceLastCommittedOpTimeAndWallTime. pose proof (inv_self s Hi).
  destruct (Z.eqb_spec (_selfIndex s) (-1)); [eauto 6|].
  rewrite iAmPrimary_spec by done. cbn [mbind option_bind].
  destruct (bool_decide _ && _); [eauto 6|].
  destruct (selfConfig_some s Hi) as [self ->]; [lia|].
  unfold getMyLastAppliedOpTimeAndWallTime.
  destruct (selfMemberData_some s Hi) as (i & m & _ & -> & _). cbn [mbind option_bind].
  repeat case_match; eauto 6.
Qed.

Lemma advance_ok o sync s : Inv s → ∃ s', exec (CAdvanceCommitted o sync) s = Some s' ∧ Inv s'.
Proof.
  intros Hi. simpl. destruct (advance_some o sync s Hi) as (s' & b & -> & H). exists s'.
  split; [done|]. destruct H as [->|[o' ->]]; [done|]. destruct Hi. by constructor.
Qed.

Lemma updateCommitted_ok s : Inv s → ∃ s', exec CUpdateCommitted s = Some s' ∧ Inv s'.
Proof.
  intros Hi. simpl. unfold updateLastCommittedOpTimeAndWallTime. rewrite iAmPrimary_spec by done.
  cbn [mbind option_bind]. case_bool_decide as Hr; simpl; [|eauto].
  case_bool_decide as Hm; simpl; [eauto|].
  assert (0 <= _selfIndex s) as Hs by (apply (inv_member s Hi); by rewrite Hr).
  destruct (voting_some s Hi Hs) as (l & -> & _ & _ & Hw). cbn [mbind option_bind].
  destruct (Z.ltb_spec 0 (Z.of_nat (length l))); [|lia]. simpl.
  destruct (Z.ltb_spec (Z.of_nat (length l)) (_writeMajority (_rsConfig s))); [lia|].
  destruct (lookup_lt_is_Some_2 (sortOpTimes l)
    (Z.to_nat (Z.of_nat (length l) - _writeMajority (_rsConfig s)))) as [o ->].
  { rewrite sortOpTimes_length. lia. }
  cbn [mbind option_bind]. by apply advance_ok.
Qed.
End Calls.
