(* ===== verification/TopologyProps.v ===== *)
(** What holds in every state the topology coordinator can reach: no invariant of
    the code fails, only a leader accepts writes, the last vote never runs ahead of
    the term.  And what a step down leaves behind: a safe successor. *)
From stdpp Require Import gmap strings.
From S2P Require Import Prelude OpTimes ReplSetTag ReplSetConfig ReplSetConfigFacts MemberData TopologyCoordinator TopologyInv.
Import ReplSetConfig TopologyCoordinator CommitPoint.

(** ** Reachable states *)

Section Reachable.
Context (sp : ServerParams) (window : Z).

(** States reached from start-up by guarded calls. *)
Inductive Reachable : t → Prop :=
  | reach_initial : Reachable (initial ReplSetConfig.empty)
  | reach_call s c s' :
      Reachable s → guard c s → sane c s → exec sp window c s = Some s' → Reachable s'.

Lemma exec_ok c s : Inv s → guard c s → sane c s → ∃ s', exec sp window c s = Some s' ∧ Inv s'.
Proof.
  intros Hi Hg Hsane. destruct c.
  - by apply become_ok.
  - by apply win_ok.
  - by apply lose_ok.
  - by apply updateTerm_ok.
  - eexists. split; [done|]. destruct Hi. by constructor.
  - destruct (requestVotes_ok args s Hi Hg Hsane) as (s' & r & E & Hi' & _).
    exists s'. simpl. by rewrite E.
  - destruct (prepareUnconditional_ok s Hi Hg) as (r & E & Hi'). exists (fst r). simpl. by rewrite E.
  - by apply prepareAttempt_ok.
  - by apply abort_ok.
  - by apply try_ok.
  - by apply finish_ok.
  - by apply setFollowerMode_ok.
  - by apply complete_ok.
  - by apply maintenance_ok.
  - destruct (timeouts_ok sp window now (length (_memberData s)) 0 false s Hi) as (s' & b & E & Hi');
      [lia|]. exists s'. simpl. unfold checkMemberTimeouts. by rewrite E.
  - by apply updatePrimary_ok.
  - eexists. split; [done|]. by apply resetTimeouts_ok.
  - by apply setApplied_ok.
  - by apply setDurable_ok.
  - by apply heartbeat_ok.
  - by apply updateConfig_ok.
  - by apply setLastOptime_ok.
  - by apply updateCommitted_ok.
  - by apply advance_ok.
  - eexists. split; [done|]. destruct Hi. by constructor.
Qed.

Lemma initial_inv : Inv (initial ReplSetConfig.empty).
Proof.
  constructor; simpl; try done; try lia.
  - by eexists.
  - constructor; [by intros o [= <-]|constructor].
  - by left.
  - unfold followerModes. set_solver.
  - intros m Hm. by apply elem_of_nil in Hm.
Qed.

Lemma reachable_inv s : Reachable s → Inv s.
Proof.
  induction 1 as [|s c s' H IH Hg Hsane E]; [apply initial_inv|].
  destruct (exec_ok c s IH Hg Hsane) as (s2 & E2 & Hi). by simplify_eq.
Qed.
End Reachable.


(** Runs calls one after the other. *)
Fixpoint execAll (sp : ServerParams) (window : Z) (cs : list Call) (s : t) : option t :=
  match cs with
  | [] => Some s
  | c :: cs' => s ← exec sp window c s; execAll sp window cs' s
  end.

Definition sampleParams : ServerParams := mkServerParams false false.
Definition sampleOp (term secs : Z) : OpTimeAndWallTime.t :=
  OpTimeAndWallTime.mk (OpTime.mk (Timestamp.mk secs 1) term) 1000.

(** The guards along a run. *)
Fixpoint guards (cs : list Call) (s : t) : Prop :=
  match cs with
  | [] => True
  | c :: cs' => guard c s ∧ sane c s ∧ ∀ s', exec sampleParams 2 c s = Some s' → guards cs' s'
  end.

Lemma execAll_reachable cs s s' :
  Reachable sampleParams 2 s → guards cs s → execAll sampleParams 2 cs s = Some s' →
  Reachable sampleParams 2 s'.
Proof.
  revert s. induction cs as [|c cs IH]; intros s Hr Hg E; simpl in *; [by simplify_eq|].
  destruct Hg as (Hg & Hsane & Hgs). destruct (exec sampleParams 2 c s) as [s1|] eqn:E1; [|done].
  cbn [mbind option_bind] in E. apply (IH s1); [by eapply reach_call|by apply Hgs|done].
Qed.

(** A heartbeat response of a secondary. *)
Definition sampleUp (o : OpTimeAndWallTime.t) : HeartbeatOutcome :=
  HbResponse (ReplSetHeartbeatResponse.mk (Some MemberState.RS_SECONDARY) None (Some o) (Some o)
    (Some true) 0 1 1 HostAndPort.null).

(** The first node of [samplePSA] becomes primary. *)
Definition sampleElection : list Call :=
  [CUpdateConfig samplePSA 0; CSetFollowerMode MemberState.RS_SECONDARY;
   CSetApplied (sampleOp 0 5) 1 false; CHeartbeat 2 1 (sampleUp (sampleOp 0 5));
   CBecome 3 kElectionTimeout; CUpdateTerm 1 4; CVoteForMyself; CWin 7 (Timestamp.mk 6 1);
   CSetApplied (sampleOp 1 7) 5 false; CCompleteTransition (OpTimeAndWallTime.opTime (sampleOp 1 7))].

Lemma sampleElection_leads :
  match execAll sampleParams 2 sampleElection (initial ReplSetConfig.empty) with
  | Some s => canAcceptWrites s = true ∧ _term s = 1
              ∧ getMemberState sampleParams s = Some MemberState.RS_PRIMARY
  | None => False
  end.
Proof. vm_compute. done. Qed.

(** Concrete configurations are validated by computation. *)
Ltac config_installed :=
  match goal with |- Installed ?c =>
    split; [apply (validate_ok_valid _ sampleParams); vm_compute; reflexivity
           |exists c; vm_compute; reflexivity] end.

(** The guard of installing a concrete configuration. *)
Ltac config_guard :=
  split_and!;
  [vm_compute; discriminate|reflexivity|config_installed|vm_compute; discriminate|reflexivity
  |vm_compute; discriminate|vm_compute; discriminate
  |match goal with |- ∃ p, ?x = Some p =>
     let r := eval vm_compute in x in
     match r with Some ?p => exists p; vm_compute; reflexivity end end].

(** What is assumed of it. *)
Ltac config_sane :=
  let m := fresh in let Hm := fresh in
  intros m Hm; vm_compute in Hm;
  repeat (apply elem_of_cons in Hm as [-> |Hm]; [vm_compute; discriminate|]);
  by apply elem_of_nil in Hm.

(** The guards of the calls of a sample run, one call after the other. *)
Ltac next_state H := vm_compute in H; injection H as <-.

Ltac call_guard :=
  let E := fresh in
  lazymatch goal with
  | |- guard (CUpdateConfig _ _) _ => config_guard
  | |- guard (CSetFollowerMode _) _ => split; [reflexivity|unfold followerModes; set_solver]
  | |- guard (CSetApplied _ _ _) _ =>
      split; [reflexivity|intros ? E; next_state E; right; right; split; reflexivity]
  | |- guard (CSetDurable _ _ _) _ =>
      split; [reflexivity|intros ? E; next_state E; right; reflexivity]
  | |- guard (CHeartbeat _ _ (HbResponse _)) _ =>
      split; [vm_compute; discriminate|split; [vm_compute; split; [discriminate|reflexivity]|
        split; [vm_compute; discriminate|split; intros ? [= <-]; reflexivity]]]
  | |- guard (CBecome _ _) _ => exact I
  | |- guard (CUpdateTerm _ _) _ => exact I
  | |- _ => vm_compute; reflexivity
  end.

Ltac call_step :=
  let s := fresh in let H := fresh in
  lazymatch goal with
  | |- guards [] _ => fail
  | |- _ =>
      cbn [guards]; split; [call_guard|split; [first [exact I|config_sane]|intros s H; next_state H]]
  end.

