(* ===== verification/Handoff.v ===== *)
(** Choosing the node an election is handed off to, and stepping down safely:
    src/mongo/db/repl/topology_coordinator.cpp, chooseElectionHandoffCandidate and
    isSafeToStepDown. *)
From Stdlib Require Import SpecFloat.
From stdpp Require Import gmap strings.
From S2P Require Import Prelude OpTimes ReplSetTag ReplSetConfig ReplSetConfigFacts MemberData TopologyCoordinator TopologyInv TopologyProps.
Import ReplSetConfig TopologyCoordinator CommitPoint.

(** ** Integers as doubles *)

(** The integers priorities may be, for which storing one in an [int] loses nothing. *)
Definition smallInts : list Z := seqZ 0 1001.

Definition isInt (p : double) : Prop := ∃ n, 0 <= n <= 1000 ∧ p = dofZ n.

(** A positive number by exponent and mantissa. *)
Definition posKey (p : double) : option (Z * positive) :=
  match p with S754_finite false m e => Some (e, m) | _ => None end.

Definition keyLt (a b : Z * positive) : Prop := a.1 < b.1 ∨ (a.1 = b.1 ∧ (a.2 < b.2)%positive).

Lemma dlt_posKey p q a b :
  posKey p = Some a → posKey q = Some b → dlt p q = true ↔ keyLt a b.
Proof.
  destruct p as [| | |[] m e]; simpl; try done. destruct q as [| | |[] m' e']; simpl; try done.
  intros [= <-] [= <-]. unfold keyLt, dlt, SFltb, SFcompare. simpl.
  destruct (Z.compare_spec e e') as [->|H|H].
  - change (Pos.compare_cont Eq m m') with (Pos.compare m m').
    destruct (Pos.compare_spec m m') as [->|H|H]; split; try done; try lia; (intros [?|[? ?]]; lia).
  - split; [by left|done].
  - split; [done|]. intros [?|[? ?]]; lia.
Qed.

Lemma keyLt_trans a b c : keyLt a b → keyLt b c → keyLt a c.
Proof. unfold keyLt. lia. Qed.

(** The facts about the doubles of 1 to 1000 that are checked one by one. *)
Definition stepOk (n : Z) : bool :=
  match posKey (dofZ (n + 1)) with
  | Some _ => dlt (dofZ n) (dofZ (n + 1)) && (dtrunc (dofZ n) =? n)
              && dlt (dofZ (-1)) (dofZ n) && negb (dlt (dofZ n) (dofZ n))
  | None => false
  end.

Lemma steps_ok : forallb stepOk smallInts = true.
Proof. vm_compute. reflexivity. Qed.

Lemma stepOk_at n : 0 <= n <= 1000 → stepOk n = true.
Proof.
  intros H. pose proof steps_ok as Hs. rewrite forallb_forall in Hs. apply Hs.
  apply list_elem_of_In, elem_of_seqZ. lia.
Qed.

Lemma posKey_dofZ n : 1 <= n <= 1000 → ∃ a, posKey (dofZ n) = Some a.
Proof.
  intros H. pose proof (stepOk_at (n - 1)) as Hs. unfold stepOk in Hs.
  replace (n - 1 + 1) with n in Hs by lia.
  destruct (posKey (dofZ n)); [eauto|]. specialize (Hs ltac:(lia)). done.
Qed.

Lemma dofZ_step n : 0 <= n < 1000 → dlt (dofZ n) (dofZ (n + 1)) = true.
Proof.
  intros H. pose proof (stepOk_at n ltac:(lia)) as Hs. unfold stepOk in Hs.
  destruct (posKey _); [|done]. by apply andb_true_iff in Hs as [[[? _]%andb_true_iff _]%andb_true_iff _].
Qed.

Lemma dofZ_facts n :
  0 <= n <= 1000 →
  dtrunc (dofZ n) = n ∧ dlt (dofZ (-1)) (dofZ n) = true ∧ dlt (dofZ n) (dofZ n) = false.
Proof.
  intros H. pose proof (stepOk_at n ltac:(lia)) as Hs. unfold stepOk in Hs.
  destruct (posKey _); [|done].
  apply andb_true_iff in Hs as [[[_ H1]%andb_true_iff H2]%andb_true_iff H3].
  to_prop. done.
Qed.

Lemma dofZ_zero_lt b : 1 <= b <= 1000 → dlt (dofZ 0) (dofZ b) = true.
Proof. intros H. destruct (posKey_dofZ b H) as [a E]. by destruct (dofZ b) as [| | |[]]. Qed.

Lemma dofZ_mono a b : 0 <= a → a < b → b <= 1000 → dlt (dofZ a) (dofZ b) = true.
Proof.
  intros Ha Hab Hb. destruct (Z.eq_dec a 0) as [->|Hne]; [apply dofZ_zero_lt; lia|].
  assert (∀ k : nat, a + 1 + Z.of_nat k <= 1000 →
    dlt (dofZ a) (dofZ (a + 1 + Z.of_nat k)) = true) as Hk.
  { induction k as [|k IH]; intros Hk.
    - rewrite Z.add_0_r. apply dofZ_step. lia.
    - destruct (posKey_dofZ a) as [ka Ea]; [lia|].
      destruct (posKey_dofZ (a + 1 + Z.of_nat k)) as [kb Eb]; [lia|].
      destruct (posKey_dofZ (a + 1 + Z.of_nat (S k))) as [kc Ec]; [lia|].
      apply (dlt_posKey _ _ _ _ Ea Ec). apply (keyLt_trans _ kb).
      + apply (dlt_posKey _ _ _ _ Ea Eb), IH. lia.
      + apply (dlt_posKey _ _ _ _ Eb Ec).
        replace (a + 1 + Z.of_nat (S k)) with (a + 1 + Z.of_nat k + 1) by lia.
        apply dofZ_step. lia. }
  specialize (Hk (Z.to_nat (b - a - 1))).
  replace (a + 1 + Z.of_nat (Z.to_nat (b - a - 1))) with b in Hk by lia. auto.
Qed.

(** Comparing the doubles of two such integers compares the integers. *)
Lemma dlt_dofZ a b : -1 <= a <= 1000 → 0 <= b <= 1000 → dlt (dofZ a) (dofZ b) = (a <? b).
Proof.
  intros Ha Hb. destruct (Z.ltb_spec a b) as [H|H].
  - destruct (Z.eq_dec a (-1)) as [->|]; [by apply dofZ_facts|apply dofZ_mono; lia].
  - destruct (Z.eq_dec a b) as [->|]; [by apply dofZ_facts|].
    pose proof (dofZ_mono b a ltac:(lia) ltac:(lia) ltac:(lia)) as Hm.
    destruct (posKey_dofZ a) as [ka Ea]; [lia|].
    destruct (Z.eq_dec b 0) as [->|].
    + by destruct (dofZ a) as [| | |[]].
    + destruct (posKey_dofZ b) as [kb Eb]; [lia|].
      apply (dlt_posKey _ _ _ _ Eb Ea) in Hm. apply not_true_iff_false.
      rewrite (dlt_posKey _ _ _ _ Ea Eb). unfold keyLt in *. lia.
Qed.

(** ** The handoff candidate *)

Section Best.
Context (s : t) (o : OpTime.t).
Context (Hi : Inv s) (Hself : 0 <= _selfIndex s).
Context (Hint : ∀ m, m ∈ _members (_rsConfig s) → isInt (MemberConfig.getPriority m)).

(** The other members that are caught up with this node and electable. *)
Definition Eligible (i : Z) : Prop :=
  0 <= i < getNumMembers (_rsConfig s) ∧ i ≠ _selfIndex s ∧
  _isCaughtUpAndElectable i o s = Some true.

(** The priority of a member, as an integer. *)
Definition prioIs (i n : Z) : Prop :=
  0 <= n <= 1000 ∧
  ∃ m, getMemberAt (_rsConfig s) i = Some m ∧ MemberConfig.getPriority m = dofZ n.

Lemma prioIs_ex i : 0 <= i < getNumMembers (_rsConfig s) → ∃ n, prioIs i n.
Proof.
  intros H. destruct (getMemberAt_some _ _ H) as (m & E & Hm).
  destruct (Hint m) as (n & Hn & Ep); [by eapply list_elem_of_lookup_2|].
  exists n. split; [done|eauto].
Qed.

Lemma prioIs_fun i n n' : prioIs i n → prioIs i n' → n = n'.
Proof.
  intros (Hn & m & E & Ep) (Hn' & m' & E' & Ep'). simplify_eq.
  rewrite <- (proj1 (dofZ_facts n Hn)), <- (proj1 (dofZ_facts n' Hn')). congruence.
Qed.

(** [b] is the best of the eligible members below [i], with priority [p]. *)
Definition BestBelow (i b p : Z) : Prop :=
  (b = -1 ∧ p = -1 ∧ ∀ j, Eligible j → j < i → False) ∨
  (Eligible b ∧ b < i ∧ prioIs b p ∧
   ∀ j n, Eligible j → j < i → prioIs j n → n <= p ∧ (j < b → n < p)).

(** An index that is skipped changes nothing. *)
Lemma best_skip i b p : ¬ Eligible i → BestBelow i b p → BestBelow (i + 1) b p.
Proof.
  intros Hn [(-> & -> & H)|(Hb & Hbi & Hp & H)].
  - left. split_and!; [done|done|]. intros j Hj Hlt.
    destruct (Z.eq_dec j i) as [->|]; [done|]. apply (H j Hj). lia.
  - right. split_and!; [done|lia|done|]. intros j n Hj Hlt Hpj.
    destruct (Z.eq_dec j i) as [->|]; [done|]. apply (H j n); [done|lia|done].
Qed.

Lemma best_step i b p n :
  Eligible i → prioIs i n → BestBelow i b p →
  if p <? n then BestBelow (i + 1) i n else BestBelow (i + 1) b p.
Proof.
  intros He Hn HB. destruct (Z.ltb_spec p n) as [Hlt|Hge].
  - right. split_and!; [done|lia|done|]. intros j k Hj Hji Hpj.
    destruct (Z.eq_dec j i) as [->|Hne].
    + rewrite (prioIs_fun i k n) by done. lia.
    + destruct HB as [(_ & _ & H)|(_ & _ & _ & H)]; [destruct (H j Hj); lia|].
      destruct (H j k Hj) as [Hle _]; [lia|done|]. lia.
  - destruct HB as [(_ & -> & _)|(Hb & Hbi & Hp & H)]; [destruct Hn; lia|].
    right. split_and!; [done|lia|done|]. intros j k Hj Hji Hpj.
    destruct (Z.eq_dec j i) as [->|Hne]; [|by apply (H j k Hj); [lia|done]].
    rewrite (prioIs_fun i k n) by done. lia.
Qed.

Lemma bestCandidate_spec n i b p :
  0 <= i → i + Z.of_nat n = getNumMembers (_rsConfig s) → -1 <= p <= 1000 →
  BestBelow i b p →
  ∃ b' p', bestCandidate n i b p o s = Some b' ∧ BestBelow (getNumMembers (_rsConfig s)) b' p'.
Proof.
  revert i b p. induction n as [|n IH]; intros i b p H0 Hn Hp HB.
  - exists b, p. replace (getNumMembers (_rsConfig s)) with i by lia. done.
  - simpl. destruct (Z.eqb_spec i (_selfIndex s)) as [E|E].
    + apply IH; [lia|lia|done|]. apply best_skip; [|done]. by intros (_ & ? & _).
    + destruct (caughtUp_some i o s) as [ok Eok]; [done|done|lia|done|].
      rewrite Eok. cbn [mbind option_bind]. destruct ok; simpl.
      * assert (Eligible i) as He by (split_and!; [lia|lia|done|done]).
        destruct (prioIs_ex i) as [k Hk]; [lia|].
        pose proof Hk as (Hkb & mc & -> & Epc). cbn [mbind option_bind]. rewrite Epc.
        rewrite dlt_dofZ by lia. pose proof (best_step i b p k He Hk HB) as Hb.
        destruct (p <? k); [|apply IH; [lia|lia|done|done]].
        rewrite (proj1 (dofZ_facts k Hkb)). apply IH; [lia|lia|lia|done].
      * apply IH; [lia|lia|done|]. apply best_skip; [|done]. intros (_ & _ & H). congruence.
Qed.
End Best.

(** With integral priorities, the election is handed off to the best successor:
    the result is -1 exactly when no other member is caught up and electable;
    otherwise it is such a member, none of them has a higher priority, and among
    those of equal priority it has the lowest index. *)
Theorem handoff_candidate_best (s : t) (o : OpTime.t)
    (Hi : Inv s) (Hself : 0 <= _selfIndex s) (Ho : getMyLastAppliedOpTime s = Some o)
    (Hint : ∀ m, m ∈ _members (_rsConfig s) → isInt (MemberConfig.getPriority m)) :
  ∃ b, chooseElectionHandoffCandidate s = Some b ∧
    ((b = -1 ∧ ∀ i, ¬ Eligible s o i) ∨
     (Eligible s o b ∧ ∃ p, prioIs s b p ∧
      ∀ i n, Eligible s o i → prioIs s i n → n <= p ∧ (i < b → n < p))).
Proof.
  unfold chooseElectionHandoffCandidate. rewrite Ho. cbn [mbind option_bind].
  destruct (bestCandidate_spec s o Hi Hself Hint
    (Z.to_nat (getNumMembers (_rsConfig s))) 0 (-1) (-1)) as (b & p & -> & HB);
    [lia|unfold getNumMembers; lia|lia| |].
  - left. split_and!; [done|done|]. intros j (Hj & _) Hlt. lia.
  - exists b. split; [done|]. destruct HB as [(-> & _ & H)|(Hb & _ & Hp & H)].
    + left. split; [done|]. intros i Hei. apply (H i Hei). by destruct Hei as ((_ & ?) & _).
    + right. split; [done|]. exists p. split; [done|]. intros i n Hei.
      apply H; [done|]. by destruct Hei as ((_ & ?) & _).
Qed.

(** Three electable members with the priorities given; the first one leads in term 1. *)
Definition prioMember (id : Z) (priority : double) : MemberConfig.t :=
  MemberConfig.mk id (HostAndPort.mk (String.append "h" (pretty.pretty id)) 27017) ∅
    priority 1 false 0 false true [].
Definition prioConfig (p0 p1 p2 : double) : ReplSetConfig.t :=
  sampleConfig [(prioMember 0 p0, []); (prioMember 1 p1, []); (prioMember 2 p2, [])].

Definition handoffCalls (c : ReplSetConfig.t) : list Call :=
  [CUpdateConfig c 0; CSetFollowerMode MemberState.RS_SECONDARY;
   CSetApplied (sampleOp 0 5) 1 false;
   CHeartbeat 2 1 (sampleUp (sampleOp 0 5)); CHeartbeat 2 2 (sampleUp (sampleOp 0 5))].

(** The state after the calls (the initial one if they abort, which they do not). *)
Definition handoffState (c : ReplSetConfig.t) : t :=
  match execAll sampleParams 2 (handoffCalls c) (initial ReplSetConfig.empty) with
  | Some s => s
  | None => initial ReplSetConfig.empty
  end.

(** With fractional priorities the truncated [int] loses the order: the member with
    priority 1.25 is preferred to the one with 1.5, and a tie goes to the later one. *)
Definition d1_5 : double := S754_finite false 6755399441055744 (-52).
Definition d1_25 : double := S754_finite false 5629499534213120 (-52).

Lemma handoff_truncates :
  dlt d1_25 d1_5 = true ∧
  chooseElectionHandoffCandidate (handoffState (prioConfig d1 d1_5 d1_25)) = Some 2 ∧
  chooseElectionHandoffCandidate (handoffState (prioConfig d1 d1_5 d1_5)) = Some 2.
Proof. vm_compute. done. Qed.

(** A priority that is not a number passes validation, and aborts the search for a
    successor: the member is neither "not electable" nor electable. *)
Lemma nan_priority_aborts :
  let c := prioConfig d1 S754_nan d1 in
  ReplSetConfig.validate c (mkServerParams false false) = OK ∧
  _getUnelectableReason 1 (handoffState c) = None ∧
  chooseElectionHandoffCandidate (handoffState c) = None.
Proof. vm_compute. done. Qed.

(** A set of three, and the first two of its members after a reconfiguration. *)
Definition threeConfig : ReplSetConfig.t := prioConfig d1 d1 d1.
Definition twoConfig : ReplSetConfig.t :=
  let '(tc, ms) := constructMembers [] [(prioMember 0 d1, []); (prioMember 1 d1, [])] in
  _addInternalWriteConcernModes (_calculateMajorities
    (ReplSetConfig.mk true 2 1 "rs" ms (WriteConcernOptions.mk "" 1) 10000 2000 true true
       0 0 0 0 tc ∅ 1 false true)).
Definition askedBy (c : ReplSetConfig.t) (i : Z) : RequestVotesArgs :=
  mkArgs "rs" 1 i (getConfigVersionAndTerm c) (OpTimeAndWallTime.opTime (sampleOp 0 5)) false.

(** A node votes for the third member, the set shrinks, and another member asks in the same
    term: the member that was voted for is looked up, only for a message, and is out of range. *)
Lemma stale_vote_aborts :
  ReplSetConfig.validate twoConfig (mkServerParams false false) = OK ∧
  execAll sampleParams 2
    (handoffCalls threeConfig ++ [CUpdateTerm 1 3; CRequestVotes (askedBy threeConfig 2); CUpdateConfig twoConfig 0])
    (initial ReplSetConfig.empty) ≫= processReplSetRequestVotes (askedBy twoConfig 1) = None ∧
  is_Some (execAll sampleParams 2
    (handoffCalls threeConfig ++ [CUpdateTerm 1 3; CRequestVotes (askedBy threeConfig 1); CUpdateConfig twoConfig 0])
    (initial ReplSetConfig.empty) ≫= processReplSetRequestVotes (askedBy twoConfig 1)).
Proof. split_and!; [vm_compute; reflexivity..|]. apply (bool_decide_unpack _). vm_compute. reflexivity. Qed.

(** ** Sample runs *)

Definition handoffConfig : ReplSetConfig.t := prioConfig d1 (dofZ 2) (dofZ 2).

(** Every call of the sample run is allowed. *)
Lemma handoff_guards : guards (handoffCalls handoffConfig) (initial ReplSetConfig.empty).
Proof.
  unfold handoffCalls, sampleUp. repeat call_step. exact I.
Qed.

Lemma handoff_state_eq :
  execAll sampleParams 2 (handoffCalls handoffConfig) (initial ReplSetConfig.empty)
  = Some (handoffState handoffConfig).
Proof.
  unfold handoffState.
  destruct (execAll sampleParams 2 (handoffCalls handoffConfig) (initial ReplSetConfig.empty))
    as [s|] eqn:E; [done|]. vm_compute in E. discriminate E.
Qed.

Lemma handoff_state_inv : Inv (handoffState handoffConfig).
Proof.
  apply (reachable_inv sampleParams 2).
  eapply execAll_reachable; [apply reach_initial|apply handoff_guards|apply handoff_state_eq].
Qed.

Lemma handoff_candidate_best_witness :
  chooseElectionHandoffCandidate (handoffState handoffConfig) = Some 1 ∧
  ∃ b, chooseElectionHandoffCandidate (handoffState handoffConfig) = Some b ∧ b ≠ -1 ∧
    Eligible (handoffState handoffConfig) (OpTimeAndWallTime.opTime (sampleOp 0 5)) b.
Proof.
  assert (chooseElectionHandoffCandidate (handoffState handoffConfig) = Some 1) as E1
    by (vm_compute; reflexivity).
  split; [exact E1|].
  destruct (handoff_candidate_best (handoffState handoffConfig)
    (OpTimeAndWallTime.opTime (sampleOp 0 5)) handoff_state_inv) as (b & Eb & Hb).
  - vm_compute. discriminate.
  - vm_compute. reflexivity.
  - intros m Hm. vm_compute in Hm.
    apply elem_of_cons in Hm as [-> |Hm]; [exists 1; split; [lia|vm_compute; reflexivity]|].
    apply elem_of_cons in Hm as [-> |Hm]; [exists 2; split; [lia|vm_compute; reflexivity]|].
    apply elem_of_cons in Hm as [-> |Hm]; [exists 2; split; [lia|vm_compute; reflexivity]|].
    exact (False_ind _ (proj1 (elem_of_nil _) Hm)).
  - exists b. split; [exact Eb|]. rewrite E1 in Eb. injection Eb as <-.
    destruct Hb as [[Hb _]|[He _]]; [discriminate Hb|]. split; [intros Hb; discriminate Hb|exact He].
Defined.
