(* ===== verification/CommitProps.v ===== *)
(** What the majority commit point guarantees: the new point was reached by a write
    majority of the voters, it is the largest such optime, and it only moves forward;
    so every vote majority that elects a data-bearing node has a voter that holds it.
    Waiting for a number of nodes, and stepping down with a successor, are exact. *)
From stdpp Require Import gmap strings sorting.
From S2P Require Import Prelude OpTimes ReplSetTag ReplSetConfig ReplSetConfigFacts TagCounting MemberData TopologyCoordinator TopologyInv TopologyProps Handoff.
Import ReplSetConfig TopologyCoordinator CommitPoint.

(** ** The sorted optimes *)

Definition optime (x : OpTimeAndWallTime.t) : OpTime.t := OpTimeAndWallTime.opTime x.
Definition notAfter (x y : OpTimeAndWallTime.t) : Prop := OpTimeAndWallTime.lt y x = false.
Definition regularOp (x : OpTimeAndWallTime.t) : Prop := OpTime.regular (optime x).

Lemma notAfter_ge x y : notAfter x y ↔ OpTime.ge (optime y) (optime x) = true.
Proof. unfold notAfter, OpTime.ge, optime, OpTimeAndWallTime.lt. by rewrite negb_true_iff. Qed.

Lemma notAfter_refl x : notAfter x x.
Proof. apply OpTime.lt_irrefl. Qed.

Lemma insert_sorted x l :
  regularOp x → Forall regularOp l → StronglySorted notAfter l →
  StronglySorted notAfter (insertOpTime x l).
Proof.
  intros Hx Hl H. induction H as [|y l H IH Hy]; simpl; [repeat constructor|].
  apply Forall_cons in Hl as [Hry Hl]. destruct (OpTimeAndWallTime.lt y x) eqn:E.
  - constructor; [by apply IH|]. rewrite insertOpTime_perm. constructor; [|done].
    by apply OpTime.lt_asym.
  - constructor; [by constructor|]. constructor; [done|].
    rewrite Forall_forall in Hl, Hy |- *. intros z Hz.
    apply notAfter_ge. eapply OpTime.ge_trans_regular; [by apply Hl|exact Hry|done| |];
      apply notAfter_ge; [by apply Hy|done].
Qed.

Lemma sort_sorted l : Forall regularOp l → StronglySorted notAfter (sortOpTimes l).
Proof.
  induction 1 as [|x l Hx Hl IH]; [constructor|]. unfold sortOpTimes. simpl.
  apply insert_sorted; [done| |done]. by rewrite (sortOpTimes_perm l).
Qed.

Lemma count_if_app {A} (p : A → bool) l l' : count_if p (l ++ l') = count_if p l + count_if p l'.
Proof. induction l as [|x l IH]; simpl; lia. Qed.

Lemma count_if_perm {A} (p : A → bool) l l' : l ≡ₚ l' → count_if p l = count_if p l'.
Proof. intros H. by rewrite !count_if_length, H. Qed.

Lemma count_if_all {A} (p : A → bool) l :
  (∀ x, x ∈ l → p x = true) → count_if p l = Z.of_nat (length l).
Proof.
  induction l as [|x l IH]; intros H; [done|]. simpl. rewrite (H x) by left.
  rewrite IH by (intros; apply H; by right). lia.
Qed.

Lemma count_if_none {A} (p : A → bool) l : (∀ x, x ∈ l → p x = false) → count_if p l = 0.
Proof.
  induction l as [|x l IH]; intros H; [done|]. simpl. rewrite (H x) by left.
  rewrite IH by (intros; apply H; by right). done.
Qed.

(** The element at a position of a sorted list splits it. *)
Lemma sorted_at k c l :
  StronglySorted notAfter l → l !! k = Some c →
  (∀ x, x ∈ drop k l → notAfter c x) ∧ (∀ x, x ∈ take (S k) l → notAfter x c).
Proof.
  intros H. revert k. induction H as [|y l H IH Hy]; intros [|k] E; simplify_eq/=.
  - rewrite Forall_forall in Hy. split.
    + intros x [->|Hx]%elem_of_cons; [apply notAfter_refl|by apply Hy].
    + intros x. rewrite take_0, list_elem_of_singleton. intros ->. apply notAfter_refl.
  - destruct (IH k E) as [H1 H2]. split; [done|]. intros x [->|Hx]%elem_of_cons; [|by apply H2].
    rewrite Forall_forall in Hy. apply Hy. by eapply list_elem_of_lookup_2.
Qed.

Definition atLeast (o : OpTime.t) (x : OpTimeAndWallTime.t) : bool := OpTime.ge (optime x) o.

(** The entry [w] from the end is reached by [w] entries, and no later optime is. *)
Lemma sorted_majority l w c :
  Forall regularOp l → 1 <= w <= Z.of_nat (length l) →
  sortOpTimes l !! Z.to_nat (Z.of_nat (length l) - w) = Some c →
  w <= count_if (atLeast (optime c)) l ∧
  ∀ o, OpTime.regular o → w <= count_if (atLeast o) l → OpTime.ge (optime c) o = true.
Proof.
  intros Hr Hw E. set (k := Z.to_nat _) in E.
  assert (Z.of_nat k = Z.of_nat (length l) - w) as Hk by (unfold k; lia). clearbody k.
  assert (Forall regularOp (sortOpTimes l)) as Hrs by by rewrite sortOpTimes_perm.
  destruct (sorted_at k c _ (sort_sorted l Hr) E) as [Hge Hle].
  assert (regularOp c) as Hrc by (rewrite Forall_forall in Hrs; by eapply Hrs, list_elem_of_lookup_2).
  pose proof (sortOpTimes_length l) as Hlen.
  split.
  - rewrite <- (count_if_perm _ _ _ (sortOpTimes_perm l)).
    rewrite <- (take_drop k (sortOpTimes l)), count_if_app.
    rewrite (count_if_all _ (drop k _)).
    + rewrite length_drop, Hlen. pose proof (count_if_bounds (atLeast (optime c)) (take k (sortOpTimes l))).
      lia.
    + intros x Hx. by apply notAfter_ge, Hge.
  - intros o Ho Hcount. destruct (OpTime.ge (optime c) o) eqn:Ec; [done|exfalso].
    unfold OpTime.ge in Ec. apply negb_false_iff in Ec.
    rewrite <- (count_if_perm _ _ _ (sortOpTimes_perm l)),
      <- (take_drop (S k) (sortOpTimes l)), count_if_app in Hcount.
    rewrite (count_if_none _ (take (S k) _)) in Hcount.
    + pose proof (count_if_bounds (atLeast o) (drop (S k) (sortOpTimes l))) as Hb.
      rewrite length_drop, Hlen in Hb. lia.
    + intros x Hx. unfold atLeast, OpTime.ge. apply negb_false_iff.
      assert (regularOp x) as Hrx.
      { rewrite Forall_forall in Hrs. apply Hrs.
        rewrite <- (take_drop (S k) (sortOpTimes l)). apply elem_of_app. by left. }
      apply Hle in Hx. unfold notAfter, OpTimeAndWallTime.lt in Hx.
      by apply (OpTime.le_lt_trans_regular _ (optime c)).
Qed.

(** ** The commit point *)

(** The optime of a member that counts towards the commit point. *)
Definition journaled (s : t) : bool := _writeConcernMajorityJournalDefault (_rsConfig s).
Definition countedOpTime (s : t) (m : MemberData.t) : OpTime.t :=
  optime (commitOpTime (journaled s) m).

Definition reachedEntry (s : t) (o : OpTime.t) (e : MemberConfig.t * MemberData.t) : bool :=
  isVotingEntry e && OpTime.ge (countedOpTime s e.2) o.

(** The voters that reached [o], as far as this node knows. *)
Definition reachedVoters (s : t) (o : OpTime.t) : gset nat :=
  idx_set (reachedEntry s o) 0 (zip (_members (_rsConfig s)) (_memberData s)).

Lemma count_fmap_filter {A B} (f : A → B) (q : A → bool) (p : B → bool) l :
  count_if p (f <$> filter (λ x, q x = true) l) = count_if (λ x, q x && p (f x)) l.
Proof.
  induction l as [|x l IH]; [done|]. destruct (q x) eqn:E.
  - rewrite filter_cons_True, fmap_cons by done. cbn [count_if]. by rewrite IH, E.
  - rewrite filter_cons_False by congruence. rewrite IH. cbn [count_if]. by rewrite E.
Qed.

Lemma elem_reachedVoters s o i :
  i ∈ reachedVoters s o ↔
  ∃ mc m, _members (_rsConfig s) !! i = Some mc ∧ _memberData s !! i = Some m ∧
          MemberConfig.isVoter mc = true ∧ OpTime.ge (countedOpTime s m) o = true.
Proof.
  unfold reachedVoters. rewrite elem_of_idx_set. rewrite Nat.sub_0_r. split.
  - intros ([mc m] & _ & Hl & Hp). apply lookup_zip_Some in Hl as [H1 H2].
    unfold reachedEntry, isVotingEntry in Hp. simpl in Hp. apply andb_true_iff in Hp as [H3 H4].
    by exists mc, m.
  - intros (mc & m & H1 & H2 & H3 & H4). exists (mc, m). split_and!; [lia| |].
    + by apply lookup_zip_Some.
    + unfold reachedEntry, isVotingEntry. simpl. by rewrite H3, H4.
Qed.

Lemma reachedVoters_subseteq s o : reachedVoters s o ⊆ voters (_rsConfig s).
Proof.
  intros i (mc & m & H1 & _ & H2 & _)%elem_reachedVoters. apply elem_of_idx_set.
  exists mc. rewrite Nat.sub_0_r. split_and!; [lia|done|done].
Qed.

(** What the advance to [cp] is allowed to do, besides setting it. *)
Record Advances (s : t) (cp : OpTimeAndWallTime.t) : Prop := {
  adv_leader : _role s = kLeader ∧ _leaderMode s ≠ kSteppingDown;
  adv_forward : OpTime.lt (optime (_lastCommittedOpTimeAndWallTime s)) (optime cp) = true;
  adv_first : OpTime.ge (optime cp) (_firstOpTimeOfMyTerm s) = true;
  adv_term : ∀ self mine, _selfConfig s = Some self → getMyLastAppliedOpTime s = Some mine →
    MemberConfig.isArbiter self = true ∨ OpTime.term (optime cp) = OpTime.term mine
}.

Lemma advance_spec s o : Inv s → 0 <= _selfIndex s → _role s = kLeader →
  _leaderMode s ≠ kSteppingDown →
  (∃ s' b, advanceLastCommittedOpTimeAndWallTime o false s = Some (s', b) ∧
    if (b : bool) then s' = set_lastCommittedOpTimeAndWallTime o s ∧ Advances s o else s' = s).
Proof.
  intros Hi Hs Hr Hm. unfold advanceLastCommittedOpTimeAndWallTime.
  destruct (Z.eqb_spec (_selfIndex s) (-1)); [lia|].
  rewrite iAmPrimary_spec, bool_decide_true by done. cbn [mbind option_bind].
  destruct (OpTime.lt _ (_firstOpTimeOfMyTerm s)) eqn:Ef; [by exists s, false|]. simpl.
  destruct (selfConfig_some s Hi Hs) as [self Es]. rewrite Es.
  unfold getMyLastAppliedOpTimeAndWallTime.
  destruct (selfMemberData_some s Hi) as (i & m & _ & Em & _). rewrite Em.
  cbn [mbind option_bind OpTimeAndWallTime.opTime]. rewrite andb_true_r.
  destruct (negb (MemberConfig.isArbiter self) && _) eqn:Et; [by exists s, false|].
  destruct (OpTime.eqb _ _) eqn:Ee; [by exists s, false|].
  destruct (OpTime.lt (OpTimeAndWallTime.opTime o)
    (OpTimeAndWallTime.opTime (_lastCommittedOpTimeAndWallTime s))) eqn:El; [by exists s, false|].
  exists (set_lastCommittedOpTimeAndWallTime o s), true. split; [done|]. split; [done|].
  constructor; unfold optime.
  - done.
  - pose proof (OpTime.le_ge (OpTimeAndWallTime.opTime o)
      (OpTimeAndWallTime.opTime (_lastCommittedOpTimeAndWallTime s))) as H.
    unfold OpTime.le in H. rewrite El, Ee in H. symmetry in H. by apply negb_false_iff in H.
  - unfold OpTime.ge. by rewrite Ef.
  - intros self' mine E1 E2. rewrite Es in E1. unfold getMyLastAppliedOpTime in E2.
    rewrite Em in E2. injection E1 as <-. injection E2 as <-.
    destruct (MemberConfig.isArbiter self); [by left|right]. simpl in Et.
    apply negb_false_iff, Z.eqb_eq in Et. done.
Qed.

(** The core: the update either leaves the state alone, or moves the commit point
    to the largest optime a write majority has reached. *)
Lemma update_spec s :
  Inv s → (∀ m, m ∈ _memberData s → OpTime.regular (countedOpTime s m)) →
  ∃ s' b, updateLastCommittedOpTimeAndWallTime s = Some (s', b) ∧
    if (b : bool) then ∃ cp, s' = set_lastCommittedOpTimeAndWallTime cp s ∧ Advances s cp ∧
      OpTime.regular (optime cp) ∧
      _writeMajority (_rsConfig s) <= Z.of_nat (size (reachedVoters s (optime cp))) ∧
      ∀ o, OpTime.regular o →
        _writeMajority (_rsConfig s) <= Z.of_nat (size (reachedVoters s o)) →
        OpTime.ge (optime cp) o = true
    else s' = s.
Proof.
  intros Hi Hreg. unfold updateLastCommittedOpTimeAndWallTime. rewrite iAmPrimary_spec by done.
  cbn [mbind option_bind]. case_bool_decide as Hr; simpl; [|by exists s, false].
  case_bool_decide as Hm; simpl; [by exists s, false|].
  assert (0 <= _selfIndex s) as Hs by (apply (inv_member s Hi); by rewrite Hr).
  destruct (voting_some s Hi Hs) as (l & -> & El & _ & Hw). cbn [mbind option_bind].
  destruct (Z.ltb_spec 0 (Z.of_nat (length l))); [|lia]. simpl.
  destruct (Z.ltb_spec (Z.of_nat (length l)) (_writeMajority (_rsConfig s))); [lia|].
  destruct (lookup_lt_is_Some_2 (sortOpTimes l)
    (Z.to_nat (Z.of_nat (length l) - _writeMajority (_rsConfig s)))) as [cp Ecp].
  { rewrite sortOpTimes_length. lia. }
  rewrite Ecp. cbn [mbind option_bind].
  assert (Forall regularOp l) as Hrl.
  { rewrite El. apply Forall_fmap, Forall_forall. intros [mc m] [_ Hin]%list_elem_of_filter.
    apply elem_of_zip_r in Hin. by apply Hreg. }
  destruct (sorted_majority l _ cp Hrl Hw Ecp) as [Hmaj Hbest].
  assert (∀ o, count_if (atLeast o) l = Z.of_nat (size (reachedVoters s o))) as Hc.
  { intros o. rewrite El, count_fmap_filter. symmetry. apply size_idx_set. }
  destruct (advance_spec s cp Hi Hs Hr Hm) as (s' & b & -> & Hb). exists s', b. split; [done|].
  destruct b; [|done]. destruct Hb as [-> Hadv]. exists cp. rewrite <- Hc.
  split_and!; [done|done| |done|].
  - rewrite Forall_forall in Hrl. apply Hrl. rewrite <- (sortOpTimes_perm l).
    by eapply list_elem_of_lookup_2.
  - intros o Ho H'. rewrite <- Hc in H'. by apply Hbest.
Qed.

(** C30: [updateLastCommittedOpTimeAndWallTime] never aborts; it reports an advance
    exactly when it changed the state, and then only the commit point changed, on
    a leader that is not stepping down: the new point is after the old one, not
    before the first optime of the leader's term, in the term of its last applied
    optime, and it is the greatest optime that a write majority of the voters has
    reached. *)
Theorem commit_point_majority (s : t) (Hi : Inv s)
    (Hreg : ∀ m, m ∈ _memberData s → OpTime.regular (countedOpTime s m)) :
  ∃ s' b, updateLastCommittedOpTimeAndWallTime s = Some (s', b) ∧
    (b = false → s' = s) ∧
    (b = true → ∃ cp, s' = set_lastCommittedOpTimeAndWallTime cp s ∧ Advances s cp ∧
      _writeMajority (_rsConfig s) <= Z.of_nat (size (reachedVoters s (optime cp))) ∧
      ∀ o, OpTime.regular o →
        _writeMajority (_rsConfig s) <= Z.of_nat (size (reachedVoters s o)) →
        OpTime.ge (optime cp) o = true).
Proof.
  destruct (update_spec s Hi Hreg) as (s' & b & E & H). exists s', b. split; [done|].
  destruct b; [|by split]. split; [done|]. intros _.
  destruct H as (cp & E1 & E2 & _ & E3 & E4). eauto.
Qed.

(** A vote request from a node that is behind is refused. *)
Lemma behind_is_refused args s s' r mine :
  getMyLastAppliedOpTime s = Some mine →
  OpTime.lt (argLastAppliedOpTime args) mine = true →
  processReplSetRequestVotes args s = Some (s', r) → respVoteGranted r = false.
Proof.
  intros E El. unfold processReplSetRequestVotes. rewrite E. cbn [mbind option_bind]. rewrite El.
  repeat case_match; intros [= <- <-]; done.
Qed.

(** C31: once a leader has advanced the commit point to [cp], no node that is behind
    [cp] can be elected without a vote that is refused: every vote majority with a
    data-bearing voter contains a voter other than the candidate which, being at
    least where the leader knew it to be, refuses the request. *)
Theorem commit_survives_election (s s' : t) (Hi : Inv s)
    (Hreg : ∀ m, m ∈ _memberData s → OpTime.regular (countedOpTime s m))
    (Hlast : OpTime.regular (optime (_lastCommittedOpTimeAndWallTime s)))
    (Harb : ∀ i mc m, _members (_rsConfig s) !! i = Some mc → _memberData s !! i = Some m →
       MemberConfig.isArbiter mc = true → countedOpTime s m = OpTime.null)
    (Hup : updateLastCommittedOpTimeAndWallTime s = Some (s', true))
    (V : gset nat) (HV : V ⊆ voters (_rsConfig s))
    (Hmaj : _majorityVoteCount (_rsConfig s) <= Z.of_nat (size V))
    (cand : nat) (Hcand : cand ∈ V) (Hdata : cand ∈ writableVoters (_rsConfig s))
    (node : nat → t) (args : RequestVotesArgs)
    (Hnode : ∀ i m, _memberData s !! i = Some m → ∃ mine,
       getMyLastAppliedOpTime (node i) = Some mine ∧ OpTime.regular mine ∧
       OpTime.ge mine (countedOpTime s m) = true)
    (Hargs : getMyLastAppliedOpTime (node cand) = Some (argLastAppliedOpTime args))
    (Hbehind : OpTime.lt (argLastAppliedOpTime args)
                 (optime (_lastCommittedOpTimeAndWallTime s')) = true) :
  ∃ j, j ∈ V ∧ j ≠ cand ∧ ∀ st r,
    processReplSetRequestVotes args (node j) = Some (st, r) → respVoteGranted r = false.
Proof.
  destruct (update_spec s Hi Hreg) as (s1 & b & E & H). rewrite Hup in E. injection E as <- <-.
  destruct H as (cp & -> & Hadv & Hrcp & HW & _). simpl in Hbehind.
  assert (0 <= _selfIndex s) as Hs
    by (apply (inv_member s Hi); destruct (adv_leader s cp Hadv) as [-> _]; done).
  assert (reachedVoters s (optime cp) ⊆ writableVoters (_rsConfig s)) as Hsub.
  { intros i (mc & m & H1 & H2 & H3 & H4)%elem_reachedVoters. apply elem_of_idx_set. exists mc.
    rewrite Nat.sub_0_r. split_and!; [lia|done|]. unfold isWritableVoter. rewrite H3.
    destruct (MemberConfig.isArbiter mc) eqn:Ea; [exfalso|done].
    rewrite (Harb i mc m H1 H2 Ea) in H4. pose proof (adv_forward s cp Hadv) as Hf.
    assert (OpTime.lt (optime (_lastCommittedOpTimeAndWallTime s)) OpTime.null = true) as Hn.
    { apply (OpTime.lt_le_trans_regular _ (optime cp)); [done|done|by left|done|].
      by apply negb_true_iff. }
    by apply OpTime.null_least in Hn. }
  destruct (write_vote_majorities_meet (_rsConfig s) V (reachedVoters s (optime cp)) cand)
    as (j & HjV & HjW); try done; [by apply inv_installed|].
  apply elem_reachedVoters in HjW as (mc & m & H1 & H2 & H3 & H4).
  destruct (Hnode j m H2) as (mine & Em & Hrm & Hge).
  assert (OpTime.regular (countedOpTime s m)) as Hrc by (apply Hreg; by eapply list_elem_of_lookup_2).
  assert (OpTime.ge mine (optime cp) = true) as Hge' by (by eapply OpTime.ge_trans_regular).
  destruct (lookup_lt_is_Some_2 (_memberData s) cand) as [mcand Hmcand].
  { apply HV, elem_of_idx_set in Hcand as (x & _ & Hx & _). rewrite Nat.sub_0_r in Hx.
    apply lookup_lt_Some in Hx. pose proof (data_length s Hi Hs) as Hl.
    unfold getNumMembers in Hl. lia. }
  destruct (Hnode cand mcand Hmcand) as (mine' & Em' & Hrm' & _).
  rewrite Hargs in Em'. injection Em' as <-.
  assert (OpTime.lt (argLastAppliedOpTime args) mine = true) as Hlt.
  { apply (OpTime.lt_le_trans_regular _ (optime cp)); try done. by apply negb_true_iff. }
  exists j. split; [done|]. split.
  - intros ->. rewrite Hargs in Em. injection Em as <-. by rewrite OpTime.lt_irrefl in Hlt.
  - intros st r. by eapply behind_is_refused.
Qed.

(** ** A sample run: a leader of three, one of which has caught up *)

Definition commitCalls : list Call :=
  [CUpdateConfig handoffConfig 0; CSetFollowerMode MemberState.RS_SECONDARY;
   CSetApplied (sampleOp 0 5) 1 false; CHeartbeat 2 1 (sampleUp (sampleOp 0 5));
   CBecome 3 kElectionTimeout; CUpdateTerm 1 4; CVoteForMyself; CWin 7 (Timestamp.mk 6 1);
   CSetApplied (sampleOp 1 7) 5 false; CSetDurable (sampleOp 1 7) 5 false;
   CCompleteTransition (OpTimeAndWallTime.opTime (sampleOp 1 7));
   CHeartbeat 6 1 (sampleUp (sampleOp 1 7))].

Definition commitState : t :=
  match execAll sampleParams 2 commitCalls (initial ReplSetConfig.empty) with
  | Some s => s
  | None => initial ReplSetConfig.empty
  end.

Lemma commit_guards : guards commitCalls (initial ReplSetConfig.empty).
Proof. unfold commitCalls, sampleUp. repeat call_step. exact I. Qed.

Lemma commit_state_eq :
  execAll sampleParams 2 commitCalls (initial ReplSetConfig.empty) = Some commitState.
Proof.
  unfold commitState.
  destruct (execAll sampleParams 2 commitCalls (initial ReplSetConfig.empty)) as [s|] eqn:E; [done|].
  vm_compute in E. discriminate E.
Qed.

Lemma commit_state_inv : Inv commitState.
Proof.
  apply (reachable_inv sampleParams 2).
  eapply execAll_reachable; [apply reach_initial|apply commit_guards|apply commit_state_eq].
Qed.

(** Optimes of concrete members are regular. *)
Ltac regular_members m Hm :=
  intros m Hm; vm_compute in Hm;
  repeat (apply elem_of_cons in Hm as [-> |Hm];
    [first [left; vm_compute; reflexivity
           |right; split; [vm_compute; discriminate|vm_compute; reflexivity]]|]);
  exact (False_ind _ (proj1 (elem_of_nil _) Hm)).

Lemma commit_state_regular m :
  m ∈ _memberData commitState → OpTime.regular (countedOpTime commitState m).
Proof. revert m. let m := fresh in let Hm := fresh in regular_members m Hm. Qed.

Lemma commit_point_majority_witness :
  ∃ s', updateLastCommittedOpTimeAndWallTime commitState = Some (s', true) ∧
    optime (_lastCommittedOpTimeAndWallTime s') = OpTimeAndWallTime.opTime (sampleOp 1 7).
Proof.
  destruct (commit_point_majority commitState commit_state_inv commit_state_regular)
    as (s' & b & E & _).
  exists s'. assert (b = true ∧ optime (_lastCommittedOpTimeAndWallTime s')
    = OpTimeAndWallTime.opTime (sampleOp 1 7)) as [Hb Ho].
  { vm_compute in E. injection E as <- <-. split; reflexivity. }
  rewrite Hb in E. split; [exact E|exact Ho].
Defined.

(** The third node, which has nothing, asks the second one for its vote. *)
Definition behindNode (i : nat) : t :=
  if decide (i = 2%nat) then initial ReplSetConfig.empty else commitState.
Definition behindArgs : RequestVotesArgs :=
  mkArgs "rs" 2 2 (getConfigVersionAndTerm handoffConfig) OpTime.null false.

Lemma commit_survives_election_witness :
  ∃ j, j ∈ ({[1%nat; 2%nat]} : gset nat) ∧ j ≠ 2%nat ∧ ∀ st r,
    processReplSetRequestVotes behindArgs (behindNode j) = Some (st, r) →
    respVoteGranted r = false.
Proof.
  destruct (updateLastCommittedOpTimeAndWallTime commitState) as [[s' b]|] eqn:E;
    [|vm_compute in E; discriminate E].
  assert (b = true) as Hb by (vm_compute in E; injection E as <- <-; reflexivity).
  assert (OpTime.lt (argLastAppliedOpTime behindArgs)
    (optime (_lastCommittedOpTimeAndWallTime s')) = true) as Hlt
    by (vm_compute in E; injection E as <- <-; reflexivity).
  rewrite Hb in E.
  apply (commit_survives_election commitState s' commit_state_inv commit_state_regular) with (node := behindNode) (cand := 2%nat).
  - left. vm_compute. reflexivity.
  - intros i mc m Hmc _ Ha. destruct i as [|[|[|i]]]; vm_compute in Hmc;
      try discriminate Hmc; injection Hmc as <-; vm_compute in Ha; discriminate Ha.
  - exact E.
  - intros i Hi. apply elem_of_union in Hi as [->%elem_of_singleton| ->%elem_of_singleton];
      apply elem_of_idx_set; eexists; (split; [lia|split; vm_compute; reflexivity]).
  - vm_compute. discriminate.
  - set_solver.
  - apply elem_of_idx_set; eexists; (split; [lia|split; vm_compute; reflexivity]).
  - intros i m Hm. destruct i as [|[|[|i]]]; vm_compute in Hm; try discriminate Hm;
      injection Hm as <-; eexists; (split; [vm_compute; reflexivity|]);
      (split; [|vm_compute; reflexivity]);
      first [left; reflexivity|right; split; [vm_compute; discriminate|vm_compute; reflexivity]].
  - vm_compute. reflexivity.
  - exact Hlt.
Defined.
