(* ===== verification/StepDown.v ===== *)
(** Waiting for nodes to reach an optime, and stepping down: the counting loop of
    haveNumNodesReachedOpTime, the tagged wait on "$majority", and the conditions under
    which tryToStartStepDown (src/mongo/db/repl/topology_coordinator.cpp) lets a
    primary go. *)
From stdpp Require Import gmap strings.
From S2P Require Import Prelude OpTimes ReplSetTag ReplSetConfig ReplSetConfigFacts TagCounting MemberData TopologyCoordinator TopologyInv TopologyProps Handoff CommitProps.
Import ReplSetConfig TopologyCoordinator CommitPoint.

(** ** Predicates on members and on their data *)

Section Aligned.
Context (pred : MemberData.t → bool).

(** Members have distinct ids, so a test of the data is a test of the member. *)
Lemma aligned_predicate ms l :
  NoDup (MemberConfig._id <$> ms) → length l = length ms →
  ∃ p : MemberConfig.t → bool, ∀ i mc m, ms !! i = Some mc → l !! i = Some m → p mc = pred m.
Proof.
  revert l. induction ms as [|mc ms IH]; intros [|m l] Hnd Hl; try done.
  - by exists (λ _, false).
  - apply NoDup_cons in Hnd as [Hni Hnd]. destruct (IH l Hnd) as [p Hp]; [simpl in Hl; lia|].
    exists (λ x, if MemberConfig._id x =? MemberConfig._id mc then pred m else p x).
    intros [|i] x y Hx Hy; simplify_eq/=; [by rewrite Z.eqb_refl|].
    destruct (Z.eqb_spec (MemberConfig._id x) (MemberConfig._id mc)) as [E|E]; [|by eapply Hp].
    exfalso. apply Hni. rewrite <- E. apply list_elem_of_fmap. exists x. split; [done|].
    by eapply list_elem_of_lookup_2.
Qed.

Lemma satisfiedTags_zip c (p : MemberConfig.t → bool) ms : ∀ k l,
  length l = length ms →
  (∀ i m, l !! i = Some m → MemberData._configIndex m = Z.of_nat (k + i)) →
  (∀ i mc, ms !! i = Some mc → getMemberAt c (Z.of_nat (k + i)) = Some mc) →
  (∀ i mc m, ms !! i = Some mc → l !! i = Some m → p mc = pred m) →
  satisfiedTags c pred l = Some (filter (λ mc, p mc = true) ms ≫= MemberConfig._tags).
Proof.
  induction ms as [|mc ms IH]; intros k [|m l] Hl Hidx Hmem Hp; try done.
  cbn [satisfiedTags]. rewrite <- (Hp 0%nat mc m eq_refl eq_refl).
  rewrite (Hidx 0%nat m eq_refl), (Hmem 0%nat mc eq_refl).
  destruct (Z.leb_spec 0 (Z.of_nat (k + 0))); [|lia]. cbn [mbind option_bind].
  rewrite (IH (S k)).
  - destruct (p mc) eqn:E.
    + rewrite filter_cons_True by done. done.
    + rewrite filter_cons_False by congruence. done.
  - simpl in Hl. lia.
  - intros i m' Hm'. rewrite (Hidx (S i) m' Hm'). f_equal. lia.
  - intros i mc' Hmc'. rewrite <- (Hmem (S i) mc' Hmc'). f_equal. lia.
  - intros i mc' m' H1 H2. by apply (Hp (S i)).
Qed.

Lemma count_aligned (p q : MemberConfig.t → bool) ms l :
  length l = length ms →
  (∀ i mc m, ms !! i = Some mc → l !! i = Some m → p mc = pred m) →
  count_if (λ mc, p mc && q mc) ms = count_if (λ e, q e.1 && pred e.2) (zip ms l).
Proof.
  revert l. induction ms as [|mc ms IH]; intros [|m l] Hl Hp; try done. simpl in *.
  rewrite (Hp 0%nat mc m eq_refl eq_refl), (andb_comm (q mc)).
  rewrite (IH l); [done|lia|]. intros i mc' m' H1 H2. by apply (Hp (S i)).
Qed.
End Aligned.

(** ** The nodes that satisfy a condition *)

(** The data-bearing voters whose data satisfies [pred]. *)
Definition writableWith (pred : MemberData.t → bool) (s : t) : gset nat :=
  idx_set (λ e, isWritableVoter e.1 && pred e.2) 0
    (zip (_members (_rsConfig s)) (_memberData s)).

(** A configuration as the parser builds it: tags interned member by member, then
    the majorities, then the internal modes. *)
Record Built (c : ReplSetConfig.t) (specs : list (MemberConfig.t * list (string * string)))
    (c0 : ReplSetConfig.t) : Prop := {
  built_members : constructMembers [] specs = (_tagConfig c0, _members c0);
  built_clean : userTagsClean specs;
  built_fresh : findCustomWriteMode c0 kMajorityWriteConcernModeName = None;
  built_modes : c = _addInternalWriteConcernModes (_calculateMajorities c0)
}.

Lemma addModes_fields c :
  _members (_addInternalWriteConcernModes c) = _members c ∧
  _tagConfig (_addInternalWriteConcernModes c) = _tagConfig c ∧
  _writeMajority (_addInternalWriteConcernModes c) = _writeMajority c.
Proof.
  unfold _addInternalWriteConcernModes, addMode. repeat case_match; done.
Qed.

(** The wait on "$majority" over any condition on the members' data is the count of
    the data-bearing voters that satisfy it. *)
Lemma majority_condition s specs c0 pattern pred :
  Inv s → 0 <= _selfIndex s → Built (_rsConfig s) specs c0 →
  findCustomWriteMode (_rsConfig s) kMajorityWriteConcernModeName = Some pattern →
  ∃ b, haveTaggedNodesSatisfiedCondition pred pattern s = Some b ∧
    (b = true ↔ _writeMajority (_rsConfig s) <= Z.of_nat (size (writableWith pred s))).
Proof.
  intros Hi Hs [Hm Hclean Hfresh Hc] Hpat.
  pose proof (addModes_fields (_calculateMajorities c0)) as (Fm & Ft & Fw).
  rewrite <- Hc in Fm, Ft, Fw.
  assert (NoDup (MemberConfig._id <$> _members (_rsConfig s))) as Hids.
  { destruct (inv_installed s Hi Hs) as [Hv _]. apply (vc_ids _ Hv). }
  pose proof (inv_data s Hi) as Hd. unfold DataOk in Hd.
  destruct (Z.leb_spec 0 (_selfIndex s)); [|lia]. destruct Hd as [Hl Hd].
  destruct (aligned_predicate pred _ _ Hids Hl) as [p Hp].
  unfold haveTaggedNodesSatisfiedCondition.
  rewrite (satisfiedTags_zip pred (_rsConfig s) p (_members (_rsConfig s)) 0);
    [|done|intros i m Hi'; by apply Hd| |done].
  2: { intros i mc Hmc. change (0 + i)%nat with i. pose proof (lookup_lt_Some _ _ _ Hmc).
       destruct (getMemberAt_some (_rsConfig s) (Z.of_nat i)) as (x & -> & Hx);
         [unfold getNumMembers; lia|]. rewrite Nat2Z.id in Hx. congruence. }
  cbn [mbind option_bind]. eexists. split; [done|].
  rewrite Hc in Hpat. apply majority_pattern in Hpat; [|done].
  assert (0 < _writeMajority (_rsConfig s)) as Hpos.
  { destruct (voting_some s Hi Hs) as (? & _ & _ & _ & ?). lia. }
  rewrite <- Fw in Hpat.
  unfold writableWith. rewrite size_idx_set, <- (count_aligned pred p isWritableVoter _ _ Hl Hp).
  rewrite Fm in Hids |- *.
  apply (one_key_match specs (_tagConfig c0) (_members c0) MemberConfig.kInternalVoterTagName); try done.
  intros spec Hsp. by apply (voter_tag_values specs).
Qed.

(** ** Stepping down *)

Lemma anyCaughtUp_spec s o n : ∀ i,
  Inv s → 0 <= i → 0 <= _selfIndex s → i + Z.of_nat n = getNumMembers (_rsConfig s) →
  ∃ b, anyCaughtUp n i o s = Some b ∧ (b = true ↔ ∃ j, i <= j ∧ Eligible s o j).
Proof.
  induction n as [|n IH]; intros i Hi H0 Hs Hn; simpl.
  - exists false. split; [done|]. split; [done|]. intros (j & Hj & (Hb & _)). lia.
  - destruct (IH (i + 1) Hi) as (b & E & Hb); [lia..|].
    assert (∀ P : Prop, (P ↔ ∃ j, i + 1 <= j ∧ Eligible s o j) → ¬ Eligible s o i →
      P ↔ ∃ j, i <= j ∧ Eligible s o j) as Hstep.
    { intros P -> Hne. split; intros (j & Hj & He); exists j; (split; [|done]); [lia|].
      destruct (decide (i = j)) as [->|]; [done|lia]. }
    destruct (Z.eqb_spec i (_selfIndex s)) as [Ei|Ei].
    + exists b. split; [done|]. apply Hstep; [done|]. by intros (_ & ? & _).
    + destruct (caughtUp_some i o s) as [b' E']; [done|done|lia|done|].
      rewrite E'. cbn [mbind option_bind]. destruct b'.
      * exists true. split; [done|]. split; [|done]. intros _. exists i.
        split; [lia|]. split; [lia|]. done.
      * exists b. split; [done|]. apply Hstep; [done|]. intros (_ & _ & He). congruence.
Qed.

(** C32: of a primary whose last applied optime is of its current term, in a configuration
    whose users' tags do not take the names of the internal tags (a user tag [$voter]
    counts as a voter, as [user_tag_counts_as_voter] shows): an attempt to step down without
    force, before it times out, succeeds exactly when a write majority of data-bearing voters has reached the
    last applied optime and some other electable node has caught up with it; it is
    then stepping down.  Otherwise the attempt leaves the state as it was. *)
Theorem step_down_needs_successor (s : t) specs c0 (o : OpTime.t)
    (termAtStart : Z) (now waitUntil stepDownUntil : Date_t)
    (Hi : Inv s) (Hb : Built (_rsConfig s) specs c0)
    (Hmode : _leaderMode s = kAttemptingStepDown)
    (Hterm : termAtStart = _term s) (Htime : now < stepDownUntil)
    (Ho : getMyLastAppliedOpTime s = Some o) (Hot : OpTime.term o = _term s) :
  ∃ s' r, tryToStartStepDown termAtStart now waitUntil stepDownUntil false s = Some (s', r) ∧
    (r = Started ↔
       _writeMajority (_rsConfig s) <= Z.of_nat (size (writableWith (hasReached o false) s)) ∧
       ∃ i, Eligible s o i) ∧
    (r = Started → _leaderMode s' = kSteppingDown) ∧
    (r ≠ Started → s' = s).
Proof.
  assert (_role s = kLeader) as Hr by (apply (inv_role s Hi); by rewrite Hmode).
  assert (0 <= _selfIndex s) as Hs by (apply (inv_member s Hi); by rewrite Hr).
  unfold tryToStartStepDown, _canCompleteStepDownAttempt, isSafeToStepDown.
  rewrite (bool_decide_true _ Hr), (bool_decide_false (_leaderMode s = kSteppingDown))
    by (by rewrite Hmode).
  rewrite Hterm, Z.eqb_refl, (bool_decide_true _ Hmode). cbn [negb orb mbind option_bind].
  destruct (Z.leb_spec stepDownUntil now); [lia|]. simpl.
  rewrite (inv_init s Hi Hs). destruct (Z.ltb_spec (_selfIndex s) 0); [lia|]. simpl.
  rewrite Ho. cbn [mbind option_bind]. rewrite Hot, Z.eqb_refl. simpl.
  destruct (inv_majority s Hi Hs) as [pat Epat]. rewrite Epat. cbn [mbind option_bind].
  unfold haveTaggedNodesReachedOpTime. rewrite Ho. cbn [mbind option_bind]. rewrite Z.eqb_refl.
  destruct (majority_condition s specs c0 pat (hasReached o false) Hi Hs Hb Epat)
    as (b1 & -> & H1). cbn [mbind option_bind].
  destruct (anyCaughtUp_spec s o (Z.to_nat (getNumMembers (_rsConfig s))) 0 Hi)
    as (b2 & E2 & H2); [lia|lia|unfold getNumMembers; lia|].
  assert ((∃ i, Eligible s o i) ↔ b2 = true) as H2'.
  { rewrite H2. split; intros (i & Hx); exists i; [split; [|done]; by destruct Hx as [[? _] _]|by destruct Hx]. }
  setoid_rewrite H2'. setoid_rewrite <- H1. clear H1 H2 H2'.
  destruct b1; simpl; [rewrite E2; simpl; destruct b2; simpl|].
  - unfold prepareForUnconditionalStepDown. simpl. rewrite Hmode. simpl.
    unfold _setLeaderMode. simpl. rewrite Hmode. simpl. eexists _, _. split; [done|].
    split_and!; done.
  - eexists _, _. split; [done|]. destruct (waitUntil <=? now);
      (split_and!; [split; [done|by intros [_ ?]]|done|done]).
  - eexists _, _. split; [done|]. destruct (waitUntil <=? now);
      (split_and!; [split; [done|by intros [? _]]|done|done]).
Qed.

(** ** Counting nodes *)

(** The data-bearing members, voting or not. *)
Definition dataBearing (mc : MemberConfig.t) : bool := negb (MemberConfig.isArbiter mc).
Definition nodesReached (target : OpTime.t) (durablyWritten : bool) (s : t) : gset nat :=
  idx_set (λ e, dataBearing e.1 && hasReached target durablyWritten e.2) 0
    (zip (_members (_rsConfig s)) (_memberData s)).

Lemma countDown_zip c target dur ms : ∀ k l n,
  length l = length ms →
  (∀ i m, l !! i = Some m → MemberData._configIndex m = Z.of_nat (k + i)) →
  (∀ i mc, ms !! i = Some mc → getMemberAt c (Z.of_nat (k + i)) = Some mc) →
  ∃ b, countDown c target dur n l = Some b ∧
    (b = true ↔ (∃ mc, mc ∈ ms ∧ dataBearing mc = true) ∧
       n <= count_if (λ e, dataBearing e.1 && hasReached target dur e.2) (zip ms l)).
Proof.
  induction ms as [|mc ms IH]; intros k [|m l] n Hl Hidx Hmem; try done.
  - exists false. split; [done|]. split; [done|]. intros [(mc & H & _) _]. by apply elem_of_nil in H.
  - cbn [countDown]. rewrite (Hidx 0%nat m eq_refl), (Hmem 0%nat mc eq_refl).
    cbn [mbind option_bind].
    assert (∀ n', ∃ b, countDown c target dur n' l = Some b ∧
      (b = true ↔ (∃ mc, mc ∈ ms ∧ dataBearing mc = true) ∧
       n' <= count_if (λ e, dataBearing e.1 && hasReached target dur e.2) (zip ms l))) as IH'.
    { intros n'. apply (IH (S k)); [simpl in Hl; lia| |].
      - intros i m' Hm'. rewrite (Hidx (S i) m' Hm'). f_equal. lia.
      - intros i mc' Hmc'. rewrite <- (Hmem (S i) mc' Hmc'). f_equal. lia. }
    cbn [zip zip_with count_if fst snd]. unfold dataBearing at 2.
    destruct (MemberConfig.isArbiter mc) eqn:Ea; simpl.
    + destruct (IH' n) as (b & E & Hb). exists b. split; [done|]. rewrite Hb, Z.add_0_l.
      split; intros [(x & Hx & Hd) Hn]; (split; [|done]); exists x; (split; [|done]).
      * by right.
      * apply elem_of_cons in Hx as [->|Hx]; [|done]. unfold dataBearing in Hd. by rewrite Ea in Hd.
    + set (n' := if hasReached _ _ _ then _ else _).
      assert (n' = n - (if hasReached target dur m then 1 else 0)) as En
        by (unfold n'; destruct (hasReached _ _ _); lia).
      assert (∃ x, x ∈ mc :: ms ∧ dataBearing x = true) as Hdb
        by (exists mc; split; [left|unfold dataBearing; by rewrite Ea]).
      pose proof (count_if_bounds (λ e, dataBearing e.1 && hasReached target dur e.2) (zip ms l)).
      destruct (Z.leb_spec n' 0).
      * exists true. split; [done|]. split; [|done]. intros _. split; [done|lia].
      * destruct (IH' n') as (b & E & Hb). exists b. split; [done|]. rewrite Hb.
        split; [intros [_ Hn]; split; [done|lia]|]. intros [_ Hn]. split; [|lia].
        assert (0 < count_if (λ e, dataBearing e.1 && hasReached target dur e.2) (zip ms l)) as Hc
          by lia.
        apply count_if_pos in Hc as ([x y] & Hx & Hp). simpl in Hp. apply andb_true_iff in Hp as [Hp _].
        exists x. split; [by apply elem_of_zip_l in Hx|done].
Qed.

(** Waiting for a number of nodes is exact: on a member node, for a target in
    the term of the last applied optime, the answer is true exactly when the node
    itself has reached the target, some member holds data, and at least the asked
    number of data-bearing members (voting or not, itself included) is in the
    target's term at or past its timestamp. *)
Theorem wait_counts_nodes (s : t) (target : OpTime.t) (numNodes : Z) (durablyWritten : bool)
    (my applied : OpTime.t) (Hi : Inv s) (Hs : 0 <= _selfIndex s)
    (Hmy : (if durablyWritten then getMyLastDurableOpTime s else getMyLastAppliedOpTime s) = Some my)
    (Happ : getMyLastAppliedOpTime s = Some applied)
    (Hterm : OpTime.term target = OpTime.term applied) :
  ∃ b, haveNumNodesReachedOpTime target numNodes durablyWritten s = Some b ∧
    (b = true ↔ OpTime.ge my target = true ∧
       (∃ mc, mc ∈ _members (_rsConfig s) ∧ dataBearing mc = true) ∧
       numNodes <= Z.of_nat (size (nodesReached target durablyWritten s))).
Proof.
  unfold haveNumNodesReachedOpTime. rewrite Hmy. cbn [mbind option_bind].
  unfold OpTime.ge. destruct (OpTime.lt my target) eqn:E.
  { exists false. split; [done|]. split; [done|by intros [? _]]. }
  rewrite Happ. cbn [mbind option_bind]. rewrite Hterm, Z.eqb_refl.
  pose proof (inv_data s Hi) as Hd. unfold DataOk in Hd.
  destruct (Z.leb_spec 0 (_selfIndex s)); [|lia]. destruct Hd as [Hl Hd].
  destruct (countDown_zip (_rsConfig s) target durablyWritten (_members (_rsConfig s)) 0
    (_memberData s) numNodes Hl) as (b & Eb & Hb).
  - intros i m Hm. by apply Hd.
  - intros i mc Hmc. change (0 + i)%nat with i. pose proof (lookup_lt_Some _ _ _ Hmc).
    destruct (getMemberAt_some (_rsConfig s) (Z.of_nat i)) as (x & -> & Hx);
      [unfold getNumMembers; lia|]. rewrite Nat2Z.id in Hx. congruence.
  - exists b. split; [done|]. rewrite Hb. unfold nodesReached. rewrite size_idx_set.
    split; [by intros [? ?]|by intros (_ & ? & ?)].
Qed.

(** ** Witnesses: the leader of the sample run *)

Definition stepDownState : t :=
  match exec sampleParams 2 CPrepareAttempt commitState with Some s => s | None => commitState end.

Lemma stepDownState_inv : Inv stepDownState.
Proof.
  destruct (exec_ok sampleParams 2 CPrepareAttempt commitState commit_state_inv I I)
    as (s & E & Hs).
  unfold stepDownState. by rewrite E.
Qed.

Definition handoffSpecs : list (MemberConfig.t * list (string * string)) :=
  [(prioMember 0 d1, []); (prioMember 1 (dofZ 2), []); (prioMember 2 (dofZ 2), [])].
Definition handoffBase : ReplSetConfig.t :=
  let '(tc, ms) := constructMembers [] handoffSpecs in
  ReplSetConfig.mk true 1 1 "rs" ms (WriteConcernOptions.mk "" 1) 10000 2000 true true
    0 0 0 0 tc ∅ 1 false true.

Lemma handoff_built : Built handoffConfig handoffSpecs handoffBase.
Proof.
  constructor; [vm_compute; reflexivity| |vm_compute; reflexivity|vm_compute; reflexivity].
  intros spec kv Hs Hkv. unfold handoffSpecs in Hs.
  repeat (apply elem_of_cons in Hs as [-> |Hs]; [by apply elem_of_nil in Hkv|]).
  by apply elem_of_nil in Hs.
Qed.

Lemma stepDown_built : Built (_rsConfig stepDownState) handoffSpecs handoffBase.
Proof.
  assert (_rsConfig stepDownState = handoffConfig) as -> by (vm_compute; reflexivity).
  apply handoff_built.
Qed.

Lemma step_down_needs_successor_witness :
  ∃ s' r, tryToStartStepDown 1 10 20 30 false stepDownState = Some (s', r) ∧
    r = Started ∧ _leaderMode s' = kSteppingDown.
Proof.
  destruct (step_down_needs_successor stepDownState handoffSpecs handoffBase
    (OpTimeAndWallTime.opTime (sampleOp 1 7)) 1 10 20 30 stepDownState_inv stepDown_built)
    as (s' & r & E & _ & Hm & _); [vm_compute; reflexivity..|].
  exists s', r. assert (r = Started) as Hr by (vm_compute in E; injection E as <- <-; reflexivity).
  split; [exact E|]. split; [exact Hr|exact (Hm Hr)].
Defined.

Lemma wait_counts_nodes_witness :
  ∃ b, haveNumNodesReachedOpTime (OpTimeAndWallTime.opTime (sampleOp 1 7)) 2 false commitState
       = Some b ∧ b = true.
Proof.
  destruct (wait_counts_nodes commitState (OpTimeAndWallTime.opTime (sampleOp 1 7)) 2 false
    (OpTimeAndWallTime.opTime (sampleOp 1 7)) (OpTimeAndWallTime.opTime (sampleOp 1 7))
    commit_state_inv) as (b & E & _);
    [vm_compute; discriminate|vm_compute; reflexivity|vm_compute; reflexivity|reflexivity|].
  exists b. split; [exact E|]. vm_compute in E. injection E as <-. reflexivity.
Defined.
