(* ===== verification/VoteRequester.v ===== *)
(** Asking for votes: src/mongo/db/repl/vote_requester.cpp (the algorithm that counts
    the answers) on top of src/mongo/db/repl/scatter_gather_runner.cpp (the runner that
    sends the requests, feeds the answers to the algorithm one at a time, and signals
    the end of the round). *)
From stdpp Require Import gmap strings.
From S2P Require Import Prelude OpTimes ReplSetTag ReplSetConfig ReplSetConfigFacts MemberData TopologyCoordinator.
Import ReplSetConfig TopologyCoordinator.

Module VoteRequester.
Inductive Result :=
  | kSuccessfullyElected | kStaleTerm | kInsufficientVotes | kPrimaryRespondedNo | kCancelled.
Inductive PrimaryVote := Pending | Yes | No.

#[global] Instance PrimaryVote_eq_dec : EqDecision PrimaryVote.
Proof. solve_decision. Defined.
#[global] Instance Result_eq_dec : EqDecision Result.
Proof. solve_decision. Defined.

(** What comes back from a target: a failure to get an answer at all, an answer that
    is an error or does not parse, or a vote. *)
Inductive Response :=
  | Failed
  | Invalid
  | Vote (r : RequestVotesResponse).

(** [_responders] is a set of hosts, here without order or repetition. *)
Record Algorithm := mkAlgorithm {
  _rsConfig : ReplSetConfig.t;
  _candidateIndex : Z;
  _term : Z;
  _dryRun : bool;
  _lastAppliedOpTime : OpTime.t;
  _targets : list HostAndPort.t;
  _responders : list HostAndPort.t;
  _staleTerm : bool;
  _responsesProcessed : Z;
  _votes : Z;
  _primaryHost : option HostAndPort.t;
  _primaryVote : PrimaryVote
}.

(** The loop of the constructor over the members, with its running index. *)
Fixpoint collectTargets (candidateIndex index : Z) (ms : list MemberConfig.t)
    : list HostAndPort.t :=
  match ms with
  | [] => []
  | m :: ms' =>
      (if MemberConfig.isVoter m && negb (index =? candidateIndex)
       then [MemberConfig.getHostAndPort m] else [])
      ++ collectTargets candidateIndex (index + 1) ms'
  end.
Fixpoint findPrimaryHost (primaryIndex index : Z) (ms : list MemberConfig.t)
    : option HostAndPort.t :=
  match ms with
  | [] => None
  | m :: ms' =>
      if index =? primaryIndex then Some (MemberConfig.getHostAndPort m)
      else findPrimaryHost primaryIndex (index + 1) ms'
  end.

Definition construct (rsConfig : ReplSetConfig.t) (candidateIndex term : Z) (dryRun : bool)
    (lastAppliedOpTime : OpTime.t) (primaryIndex : Z) : Algorithm :=
  mkAlgorithm rsConfig candidateIndex term dryRun lastAppliedOpTime
    (collectTargets candidateIndex 0 (_members rsConfig)) [] false 0 1
    (findPrimaryHost primaryIndex 0 (_members rsConfig)) Pending.

(** The command every target is sent; the receiving side's parsed arguments. *)
Definition requestArgs (a : Algorithm) : RequestVotesArgs :=
  mkArgs (_replSetName (_rsConfig a)) (_term a) (_candidateIndex a)
    (getConfigVersionAndTerm (_rsConfig a)) (_lastAppliedOpTime a) (_dryRun a).
Definition getRequests (a : Algorithm) : list (HostAndPort.t * RequestVotesArgs) :=
  (λ target, (target, requestArgs a)) <$> _targets a.

Definition isPrimaryHost (a : Algorithm) (target : HostAndPort.t) : bool :=
  match _primaryHost a with Some h => HostAndPort.eqb h target | None => false end.

Definition insertHost (h : HostAndPort.t) (l : list HostAndPort.t) : list HostAndPort.t :=
  if existsb (HostAndPort.eqb h) l then l else h :: l.

Definition processResponse (target : HostAndPort.t) (response : Response) (a : Algorithm)
    : Algorithm :=
  let 'mkAlgorithm c ci tm dr la ts rs st n v ph pv := a in
  let n := n + 1 in
  match response with
  | Failed => mkAlgorithm c ci tm dr la ts rs st n v ph pv
  | _ =>
      let rs := insertHost target rs in
      let pv := if isPrimaryHost a target then No else pv in
      match response with
      | Vote r =>
          let '(v, pv) :=
            if respVoteGranted r
            then (v + 1, if isPrimaryHost a target then Yes else pv) else (v, pv) in
          mkAlgorithm c ci tm dr la ts rs (if tm <? respTerm r then true else st) n v ph pv
      | _ => mkAlgorithm c ci tm dr la ts rs st n v ph pv
      end
  end.

Definition hasReceivedSufficientResponses (a : Algorithm) : bool :=
  match _primaryHost a, _primaryVote a with
  | Some _, No => true
  | Some _, Pending => false
  | _, _ => _staleTerm a || (_majorityVoteCount (_rsConfig a) <=? _votes a)
            || (_responsesProcessed a =? Z.of_nat (length (_targets a)))
  end.

Definition getResult (a : Algorithm) : Result :=
  if _staleTerm a then kStaleTerm
  else if bool_decide (is_Some (_primaryHost a)) && negb (bool_decide (_primaryVote a = Yes))
  then kPrimaryRespondedNo
  else if _majorityVoteCount (_rsConfig a) <=? _votes a then kSuccessfullyElected
  else kInsufficientVotes.
End VoteRequester.

(** ** The runner *)

Module ScatterGatherRunner.
Import VoteRequester.

(** [_callbacks] are the requests still out, named by their target;
    [_sufficientResponsesReceived] is valid until the end is signalled. *)
Record t := mk {
  _algorithm : Algorithm;
  _callbacks : list HostAndPort.t;
  _eventValid : bool
}.

Definition _signalSufficientResponsesReceived (r : t) : t :=
  if _eventValid r then mk (_algorithm r) [] false else r.

(** [start], when every request can be scheduled. *)
Definition start (a : Algorithm) : option t :=
  let r := mk a (fst <$> getRequests a) true in
  if (match _callbacks r with [] => true | _ => false end) || hasReceivedSufficientResponses a then
    invariant (hasReceivedSufficientResponses a) ;;
    Some (_signalSufficientResponsesReceived r)
  else Some r.

Definition cancel (r : t) : t := _signalSufficientResponsesReceived r.

(** The callback that fired is dropped; the code swaps it with the last one first,
    and nothing depends on the order. *)
Fixpoint removeCallback (h : HostAndPort.t) (l : list HostAndPort.t) : option (list HostAndPort.t) :=
  match l with
  | [] => None
  | x :: l' => if decide (x = h) then Some l' else (λ l'', x :: l'') <$> removeCallback h l'
  end.

Definition processResponse (target : HostAndPort.t) (response : Response) (r : t) : option t :=
  if negb (_eventValid r) then Some r else
  cbs ← removeCallback target (_callbacks r);
  let a := VoteRequester.processResponse target response (_algorithm r) in
  let r := mk a cbs true in
  if hasReceivedSufficientResponses a then Some (_signalSufficientResponsesReceived r)
  else invariant (match cbs with [] => false | _ => true end) ;; Some r.

(** The answers of a round, in the order they come in. *)
Fixpoint processAll (l : list (HostAndPort.t * Response)) (r : t) : option t :=
  match l with
  | [] => Some r
  | (h, x) :: l' => r ← processResponse h x r; processAll l' r
  end.
End ScatterGatherRunner.
Import VoteRequester.

(** ** A round of votes *)

Definition granted (x : HostAndPort.t * Response) : bool :=
  match x.2 with Vote r => respVoteGranted r | _ => false end.
Definition feed (l : list (HostAndPort.t * Response)) (a : Algorithm) : Algorithm :=
  fold_left (λ a x, VoteRequester.processResponse x.1 x.2 a) l a.

(** The fields a response leaves alone, and the two counters. *)
Lemma processResponse_fields h x a :
  let a' := VoteRequester.processResponse h x a in
  _rsConfig a' = _rsConfig a ∧ _term a' = _term a ∧ _targets a' = _targets a ∧
  _candidateIndex a' = _candidateIndex a ∧ _dryRun a' = _dryRun a ∧
  _lastAppliedOpTime a' = _lastAppliedOpTime a ∧
  _primaryHost a' = _primaryHost a ∧ _responsesProcessed a' = _responsesProcessed a + 1 ∧
  _votes a' = _votes a + (if granted (h, x) then 1 else 0).
Proof.
  destruct a, x as [| |r]; simpl; split_and!; try done; try lia;
    unfold granted; simpl; destruct (respVoteGranted r); simpl; try done; lia.
Qed.

Lemma feed_votes l a : _votes (feed l a) = _votes a + count_if granted l.
Proof.
  revert a. induction l as [|[h x] l IH]; intros a; simpl; [lia|]. rewrite IH.
  destruct (processResponse_fields h x a) as (_ & _ & _ & _ & _ & _ & _ & _ & ->). lia.
Qed.

Lemma feed_rsConfig l a : _rsConfig (feed l a) = _rsConfig a.
Proof.
  revert a. induction l as [|[h x] l IH]; intros a; simpl; [done|]. rewrite IH.
  by destruct (processResponse_fields h x a) as (-> & _).
Qed.

(** The primary's vote stays pending only while it has not answered. *)
Definition primaryAnswers (a : Algorithm) (l : list (HostAndPort.t * Response)) : Prop :=
  ∀ p, _primaryHost a = Some p → _primaryVote a = Pending →
    ∃ h x, (h, x) ∈ l ∧ HostAndPort.eqb p h = true ∧ x ≠ Failed.

Lemma primaryAnswers_step h x l a :
  primaryAnswers a ((h, x) :: l) → primaryAnswers (VoteRequester.processResponse h x a) l.
Proof.
  intros H p Hp Hv. destruct (processResponse_fields h x a) as (_ & _ & _ & _ & _ & _ & Ep & _).
  rewrite Ep in Hp.
  assert (_primaryVote a = Pending ∧ (x = Failed ∨ HostAndPort.eqb p h = false)) as [Ha Hx].
  { revert Hp Hv. destruct a; simpl. unfold isPrimaryHost. simpl. intros ->.
    destruct x as [| |r]; simpl; [auto|destruct (HostAndPort.eqb p h); by auto|].
    destruct (HostAndPort.eqb p h), (respVoteGranted r); simpl; by auto. }
  destruct (H p Hp Ha) as (h' & x' & [[= -> ->]|Hin]%elem_of_cons & Hh & Hne).
  - destruct Hx; congruence.
  - by exists h', x'.
Qed.

Lemma removeCallback_perm h l l' :
  l ≡ₚ h :: l' → ∃ l'', ScatterGatherRunner.removeCallback h l = Some l'' ∧ l'' ≡ₚ l'.
Proof.
  revert l'. induction l as [|x l IH]; intros l' H; simpl.
  - by apply Permutation_nil_cons in H.
  - destruct (decide (x = h)) as [->|Hne].
    + exists l. split; [done|]. by apply (Permutation_cons_inv (a := h)).
    + assert (∃ l1, l' ≡ₚ x :: l1) as [l1 H1].
      { assert (x ∈ h :: l') as Hx by (rewrite <- H; left).
        apply elem_of_cons in Hx as [?|Hx]; [done|]. by apply elem_of_Permutation in Hx. }
      destruct (IH l1) as (l2 & E & Hp).
      { apply (Permutation_cons_inv (a := x)). rewrite H, H1. apply Permutation_swap. }
      exists (x :: l2). rewrite E. split; [done|]. by rewrite Hp, H1.
Qed.

(** While the round is on, each answer is taken in; the last one ends it. *)
Lemma processAll_ends l : ∀ r,
  ScatterGatherRunner._eventValid r = true →
  ScatterGatherRunner._callbacks r ≡ₚ l.*1 →
  hasReceivedSufficientResponses (ScatterGatherRunner._algorithm r) = false →
  _responsesProcessed (ScatterGatherRunner._algorithm r) + Z.of_nat (length l)
    = Z.of_nat (length (_targets (ScatterGatherRunner._algorithm r))) →
  primaryAnswers (ScatterGatherRunner._algorithm r) l →
  l ≠ [] →
  ∃ k r', ScatterGatherRunner.processAll l r = Some r' ∧
    ScatterGatherRunner._eventValid r' = false ∧ ScatterGatherRunner._callbacks r' = [] ∧
    ScatterGatherRunner._algorithm r' = feed (take k l) (ScatterGatherRunner._algorithm r) ∧
    hasReceivedSufficientResponses (ScatterGatherRunner._algorithm r') = true.
Proof.
  assert (∀ l r, ScatterGatherRunner._eventValid r = false →
    ScatterGatherRunner.processAll l r = Some r) as Hidle.
  { intros l'. induction l' as [|[h x] l' IH]; intros r Hr; [done|]. simpl.
    unfold ScatterGatherRunner.processResponse. rewrite Hr. simpl. by apply IH. }
  induction l as [|[h x] l IH]; intros [a cbs ev] Hv Hc Hns Hn Hp Hne; simpl in *; [done|].
  unfold ScatterGatherRunner.processResponse. simpl. rewrite Hv. simpl.
  destruct (removeCallback_perm h cbs l.*1 Hc) as (cbs' & -> & Hc'). cbn [mbind option_bind].
  apply primaryAnswers_step in Hp.
  destruct (processResponse_fields h x a) as (_ & _ & Et & _ & _ & _ & Ep & En & _).
  set (a' := VoteRequester.processResponse h x a) in *.
  destruct (hasReceivedSufficientResponses a') eqn:Es.
  - exists 1%nat. eexists. cbn [mbind option_bind]. rewrite Hidle by done. split; [done|]. simpl.
    split_and!; try done; by destruct l.
  - destruct l as [|y l].
    + exfalso. unfold hasReceivedSufficientResponses in Es. rewrite Et, En in Es.
      simpl in Hn. rewrite (proj2 (Z.eqb_eq (_responsesProcessed a + 1) _)) in Es by lia.
      rewrite orb_true_r in Es. destruct (_primaryHost a') as [p|] eqn:Eh; [|done].
      destruct (_primaryVote a') eqn:Ev; [|done|done].
      destruct (Hp p Eh Ev) as (h' & x' & Hin & _). by apply elem_of_nil in Hin.
    + destruct cbs' as [|cb cbs']; [by apply Permutation_nil_l in Hc'|]. cbn [mbind option_bind].
      destruct (IH (ScatterGatherRunner.mk a' (cb :: cbs') true)) as (k & r' & E & H); simpl; try done.
      * simpl in Hn. rewrite En, Et. simpl. lia.
      * exists (S k), r'. done.
Qed.

(** C34: a round of votes always ends: when every target's request is answered once,
    in any order and with any mix of failures, errors and votes, no invariant of the
    runner fails, and by the last answer the round has been signalled as finished,
    with nothing left to cancel.  The result is computed from a prefix of the
    answers, and reports an election only when that prefix holds enough granted
    votes for a majority with the candidate's own.  When the primary's vote is
    required, its answer must not be a network failure ([primaryAnswers]): the round then fails
    an invariant, as [primary_failure_aborts] shows. *)
Theorem vote_round_ends (c : ReplSetConfig.t) (candidateIndex term : Z) (dryRun : bool)
    (lastApplied : OpTime.t) (primaryIndex : Z) (l : list (HostAndPort.t * Response))
    (Hperm : l.*1 ≡ₚ _targets (construct c candidateIndex term dryRun lastApplied primaryIndex))
    (Hprimary : primaryAnswers (construct c candidateIndex term dryRun lastApplied primaryIndex) l) :
  let a := construct c candidateIndex term dryRun lastApplied primaryIndex in
  ∃ r k r', ScatterGatherRunner.start a = Some r ∧ ScatterGatherRunner.processAll l r = Some r' ∧
    ScatterGatherRunner._eventValid r' = false ∧ ScatterGatherRunner._callbacks r' = [] ∧
    ScatterGatherRunner._algorithm r' = feed (take k l) a ∧
    (getResult (ScatterGatherRunner._algorithm r') = kSuccessfullyElected →
       _majorityVoteCount c <= 1 + count_if granted (take k l)).
Proof.
  intros a. unfold ScatterGatherRunner.start.
  assert ((fst <$> getRequests a) = _targets a) as Ecb.
  { unfold getRequests. rewrite <- list_fmap_compose. apply list_fmap_id. }
  assert (∀ b k, b = feed (take k l) a → getResult b = kSuccessfullyElected →
    _majorityVoteCount c <= 1 + count_if granted (take k l)) as Hres.
  { intros b k -> Hb. unfold getResult in Hb. rewrite feed_rsConfig, feed_votes in Hb.
    repeat case_match; try done; simpl in *; to_prop; lia. }
  simpl ScatterGatherRunner._callbacks. rewrite Ecb.
  destruct (hasReceivedSufficientResponses a) eqn:Es.
  - assert (∀ l', ScatterGatherRunner.processAll l' (ScatterGatherRunner.mk a [] false)
      = Some (ScatterGatherRunner.mk a [] false)) as Hidle.
    { intros l'. by induction l' as [|[h x] l' IH]. }
    rewrite orb_true_r. simpl. eexists _, 0%nat, _. split; [done|].
    rewrite Hidle. split; [done|]. split_and!; try done. by apply Hres.
  - destruct l as [|y l].
    { simpl in Hperm. apply Permutation_nil_l in Hperm. exfalso.
      assert (_targets a = []) as E0 by done.
      unfold hasReceivedSufficientResponses in Es. rewrite E0 in Es.
      change (_responsesProcessed a) with 0 in Es. rewrite orb_true_r in Es.
      change (_primaryHost a) with (findPrimaryHost primaryIndex 0 (_members c)) in Es.
      destruct (findPrimaryHost primaryIndex 0 (_members c)) as [p|] eqn:Ep; [|done].
      destruct (Hprimary p Ep eq_refl) as (h & x & Hin & _). by apply elem_of_nil in Hin. }
    change (_targets (construct _ _ _ _ _ _)) with (_targets a) in Hperm.
    destruct (_targets a) as [|t0 ts] eqn:Et; [by apply Permutation_nil_r in Hperm|].
    simpl. destruct (processAll_ends (y :: l) (ScatterGatherRunner.mk a (t0 :: ts) true))
      as (k & r' & E & Hv & Hc & Ha & _); try done.
    + cbn [ScatterGatherRunner._algorithm]. rewrite Et.
      rewrite <- (Permutation_length Hperm), length_fmap. by rewrite Z.add_0_l.
    + eexists _, k, r'. split; [done|]. split_and!; try done. by apply Hres.
Qed.

Definition voteConfig : ReplSetConfig.t :=
  sampleConfig [(sampleMember 0 false true, []); (sampleMember 1 false true, []);
                (sampleMember 2 false true, [])].
Definition host (n : Z) : HostAndPort.t :=
  MemberConfig.getHostAndPort (sampleMember n false true).
Definition yes (term : Z) : Response := Vote (mkResponse term true).

Lemma vote_round_ends_witness :
  ∃ r r', ScatterGatherRunner.start (construct voteConfig 0 3 false OpTime.null (-1)) = Some r ∧
    ScatterGatherRunner.processAll [(host 2, Failed); (host 1, yes 3)] r = Some r' ∧
    getResult (ScatterGatherRunner._algorithm r') = kSuccessfullyElected.
Proof.
  destruct (vote_round_ends voteConfig 0 3 false OpTime.null (-1) [(host 2, Failed); (host 1, yes 3)])
    as (r & k & r' & E1 & E2 & _).
  - vm_compute. apply perm_swap.
  - intros p Hp. vm_compute in Hp. discriminate Hp.
  - exists r, r'. split; [exact E1|]. split; [exact E2|].
    vm_compute in E1. injection E1 as <-. vm_compute in E2. injection E2 as <-. reflexivity.
Defined.

(** The takeover's dry run asks for the primary's vote: when the request to the
    primary fails and comes back last, its vote stays pending and the runner's
    invariant that some request is still out fails. *)
Lemma primary_failure_aborts :
  ∃ r, ScatterGatherRunner.start (construct voteConfig 0 3 true OpTime.null 1) = Some r ∧
    ScatterGatherRunner.processAll [(host 2, yes 3); (host 1, Failed)] r = None.
Proof. eexists. split; vm_compute; reflexivity. Qed.
