(* ===== verification/ReplicationCoordinator.v ===== *)
(** The replication coordinator's part in elections and terms:
    src/mongo/db/repl/replication_coordinator_impl.cpp (processReplSetRequestVotes,
    updateTerm), replication_coordinator_impl_elect_v1.cpp (running for election) and
    replication_coordinator_impl_heartbeat.cpp (finishing a step down).  Each definition
    is what one thread does while it holds the coordinator's mutex. *)
From stdpp Require Import gmap strings.
From S2P Require Import Prelude OpTimes ReplSetTag ReplSetConfig ReplSetConfigFacts MemberData TopologyCoordinator TopologyInv VoteRequester.
Import ReplSetConfig TopologyCoordinator.

Module ReplicationCoordinator.

(** [storedVote] is the document of local.replset.election; [inTerminalShutdown] and
    the configuration state (steady or not) are set by code outside the model. *)
Record RC := mkRC {
  _topCoord : t;
  _pendingTermUpdateDuringStepDown : option Z;
  _voteRequester : option VoteRequester.Algorithm;
  storedVote : LastVote;
  _inTerminalShutdown : bool
}.

Definition set_topCoord (s : t) (rc : RC) : RC :=
  mkRC s (_pendingTermUpdateDuringStepDown rc) (_voteRequester rc) (storedVote rc)
    (_inTerminalShutdown rc).
Definition set_pending (p : option Z) (rc : RC) : RC :=
  mkRC (_topCoord rc) p (_voteRequester rc) (storedVote rc) (_inTerminalShutdown rc).
Definition set_voteRequester (v : option VoteRequester.Algorithm) (rc : RC) : RC :=
  mkRC (_topCoord rc) (_pendingTermUpdateDuringStepDown rc) v (storedVote rc)
    (_inTerminalShutdown rc).
Definition set_storedVote (v : LastVote) (rc : RC) : RC :=
  mkRC (_topCoord rc) (_pendingTermUpdateDuringStepDown rc) (_voteRequester rc) v
    (_inTerminalShutdown rc).

(** ** Terms *)

(** The boolean: whether a step down was started, whose end the caller waits for. *)
Definition _updateTerm_inlock (term : Z) (now : Date_t) (rc : RC)
    : option (RC * UpdateTermResult * bool) :=
  r ← TopologyCoordinator.updateTerm term now (_topCoord rc);
  let rc := set_topCoord (fst r) rc in
  match snd r with
  | kTriggerStepDown =>
      let newer := match _pendingTermUpdateDuringStepDown rc with
                   | Some p => p <? term
                   | None => true
                   end in
      let rc := if newer then set_pending (Some term) rc else rc in
      p ← prepareForUnconditionalStepDown (_topCoord rc);
      Some (set_topCoord (fst p) rc, kTriggerStepDown, snd p)
  | res => Some (rc, res, false)
  end.

Definition isSteppingDownUnconditionally (s : t) : bool :=
  bool_decide (_leaderMode s = kSteppingDown).

(** The work [_stepDownStart] schedules, once it has the locks. *)
Definition _stepDownFinish (now : Date_t) (rc : RC) : option RC :=
  if negb (isSteppingDownUnconditionally (_topCoord rc)) then Some rc else
  s ← finishUnconditionalStepDown (_topCoord rc);
  let rc := set_topCoord s rc in
  match _pendingTermUpdateDuringStepDown rc with
  | Some p =>
      r ← _updateTerm_inlock p now rc;
      invariant (negb (bool_decide (snd (fst r) = kTriggerStepDown))) ;;
      Some (set_pending None (fst (fst r)))
  | None => Some rc
  end.

(** ** Votes *)

Inductive VoteStatus :=
  | ShutdownInProgress | BadCandidateIndex | NotAMember | VoteReply (r : RequestVotesResponse).

(** The part of [processReplSetRequestVotes] under the mutex, after [updateTerm]. *)
Definition voteUnderLock (args : RequestVotesArgs) (rc : RC) : option (RC * VoteStatus) :=
  if _inTerminalShutdown rc then Some (rc, ShutdownInProgress) else
  let candidateIndex := argCandidateIndex args in
  if (candidateIndex <? 0) || (getNumMembers (_rsConfig (_topCoord rc)) <=? candidateIndex)
  then Some (rc, BadCandidateIndex) else
  if _selfIndex (_topCoord rc) =? -1 then Some (rc, NotAMember) else
  r ← TopologyCoordinator.processReplSetRequestVotes args (_topCoord rc);
  Some (set_topCoord (fst r) rc, VoteReply (snd r)).

(** [storeLocalLastVoteDocument], when the write succeeds. *)
Definition storeLocalLastVoteDocument (lastVote : LastVote) (rc : RC) : RC :=
  if lvTerm (storedVote rc) <? lvTerm lastVote then set_storedVote lastVote rc else rc.

Definition storeGranted (args : RequestVotesArgs) (st : VoteStatus) (rc : RC) : RC :=
  match st with
  | VoteReply r =>
      if negb (argDryRun args) && respVoteGranted r
      then storeLocalLastVoteDocument (mkLastVote (argTerm args) (argCandidateIndex args)) rc
      else rc
  | _ => rc
  end.

(** The whole handler, when [updateTerm] started no step down it has to wait for;
    [None] in the second place when it does. *)
Definition processReplSetRequestVotes (args : RequestVotesArgs) (now : Date_t) (rc : RC)
    : option (RC * option VoteStatus) :=
  u ← _updateTerm_inlock (argTerm args) now rc;
  let '(rc, _, wait) := u in
  if (wait : bool) then Some (rc, None) else
  v ← voteUnderLock args rc;
  Some (storeGranted args (snd v) (fst v), Some (snd v)).

(** ** Running for election *)

(** What [LoseElectionGuardV1] does when it is not dismissed. *)
Definition loseElection (rc : RC) : option RC :=
  s ← processLoseElection (_topCoord rc); Some (set_voteRequester None (set_topCoord s rc)).

(** The second component: the last vote whose write is scheduled. *)
Definition _startRealElection_inlock (newTerm : Z) (now : Date_t) (rc : RC)
    : option (RC * LastVote) :=
  u ← _updateTerm_inlock newTerm now rc;
  invariant (bool_decide (snd (fst u) = kUpdatedTerm)) ;;
  let rc := fst (fst u) in
  Some (set_topCoord (voteForMyselfV1 (_topCoord rc)) rc,
        mkLastVote newTerm (_selfIndex (_topCoord rc))).

(** How a candidacy goes on: it ended, a dry run started, or the real election did. *)
Inductive Candidacy := Lost | DryRun | RealElection (lastVote : LastVote).

(** [configSteady]: the configuration state is kConfigSteady; [skipDryRun] and
    [catchupTakeover] are tests of the reason. *)
Definition _startElectSelfV1_inlock (configSteady skipDryRun catchupTakeover : bool)
    (now : Date_t) (rc : RC) : option (RC * Candidacy) :=
  if negb configSteady then
    s ← processLoseElection (_topCoord rc); Some (set_topCoord s rc, Lost) else
  self ← _selfConfig (_topCoord rc);
  invariant (MemberConfig.isElectable self) ;;
  lastApplied ← getMyLastAppliedOpTime (_topCoord rc);
  if OpTime.eqb lastApplied OpTime.null then rc ← loseElection rc; Some (rc, Lost) else
  let term := _term (_topCoord rc) in
  if skipDryRun then
    r ← _startRealElection_inlock (term + 1) now rc; Some (fst r, RealElection (snd r))
  else
    let primaryIndex :=
      if catchupTakeover then _currentPrimaryIndex (_topCoord rc) else -1 in
    Some (set_voteRequester (Some (VoteRequester.construct (_rsConfig (_topCoord rc))
            (_selfIndex (_topCoord rc)) term true lastApplied primaryIndex)) rc, DryRun).

Definition _processDryRunResult (originalTerm : Z) (now : Date_t) (rc : RC)
    : option (RC * Candidacy) :=
  a ← _voteRequester rc;
  if negb (_term (_topCoord rc) =? originalTerm)
     || negb (bool_decide (VoteRequester.getResult a = VoteRequester.kSuccessfullyElected))
  then rc ← loseElection rc; Some (rc, Lost)
  else r ← _startRealElection_inlock (originalTerm + 1) now rc; Some (fst r, RealElection (snd r)).

(** The last vote is stored ([written]: whether that succeeds); then the requests go
    out unless the term moved on. *)
Definition _writeLastVoteForMyElection (written : bool) (lastVote : LastVote) (rc : RC)
    : option (RC * list (HostAndPort.t * RequestVotesArgs)) :=
  if negb written then rc ← loseElection rc; Some (rc, []) else
  let rc := storeLocalLastVoteDocument lastVote rc in
  if negb (_term (_topCoord rc) =? lvTerm lastVote) then rc ← loseElection rc; Some (rc, [])
  else
    lastApplied ← getMyLastAppliedOpTime (_topCoord rc);
    let a := VoteRequester.construct (_rsConfig (_topCoord rc)) (_selfIndex (_topCoord rc))
               (lvTerm lastVote) false lastApplied (-1) in
    Some (set_voteRequester (Some a) rc, VoteRequester.getRequests a).

(** [electionId], [ts]: the identity of the term and the ticks reserved for it.  The
    boolean: whether the node became primary. *)
Definition _onVoteRequestComplete (newTerm : Z) (now : Date_t) (electionId : Z)
    (ts : Timestamp.t) (rc : RC) : option (RC * bool) :=
  a ← _voteRequester rc;
  if negb (_term (_topCoord rc) =? newTerm) then rc ← loseElection rc; Some (rc, false) else
  let endResult := VoteRequester.getResult a in
  invariant (negb (bool_decide (endResult = VoteRequester.kPrimaryRespondedNo))) ;;
  if negb (bool_decide (endResult = VoteRequester.kSuccessfullyElected))
  then rc ← loseElection rc; Some (rc, false)
  else
    let s := resetMemberTimeouts now (VoteRequester._responders a) (_topCoord rc) in
    invariant (negb (_term s =? OpTime.kUninitializedTerm)) ;;
    s ← processWinElection electionId ts s;
    Some (set_voteRequester None (set_topCoord s rc), true).
End ReplicationCoordinator.
