(* ===== verification/Election.v ===== *)
(** Election safety: a network of nodes that run the handlers of the replication
    coordinator on one configuration, exchange vote requests and answers that may be
    lost, delayed and reordered, and never have two primaries in one term. *)
From stdpp Require Import gmap strings functions.
From S2P Require Import Prelude OpTimes ReplSetTag ReplSetConfig ReplSetConfigFacts MemberData TopologyCoordinator TopologyInv TopologyProps Handoff CommitProps VoteRequester ReplicationCoordinator.
Import ReplSetConfig TopologyCoordinator CommitPoint ReplicationCoordinator.

(** ** What the coordinator's calls leave alone *)

(** Neither the configuration, nor the term, nor the last vote changes, and nobody
    becomes leader. *)
Definition quietStep (s s' : t) : Prop :=
  _rsConfig s' = _rsConfig s ∧ _selfIndex s' = _selfIndex s ∧ _term s' = _term s ∧
  _lastVote s' = _lastVote s ∧ (_role s' = kLeader → _role s = kLeader).

#[global] Instance quietStep_preorder : PreOrder quietStep.
Proof.
  split; [by intros s|]. intros s1 s2 s3 (?&?&?&?&?) (?&?&?&?&?). unfold quietStep.
  split_and!; [congruence..|auto].
Qed.

(** The calls that are not about terms, votes and configurations. *)
Definition quietCall (c : Call) : bool :=
  match c with
  | CWin _ _ | CUpdateTerm _ _ | CVoteForMyself | CRequestVotes _ | CUpdateConfig _ _ => false
  | _ => true
  end.

(** Runs a handler that returned: one case per test it makes. *)
Ltac scrutinee x :=
  lazymatch x with match ?y with _ => _ end => scrutinee y | _ => x end.
Ltac run H :=
  unfold mbind, option_bind, fmap, option_fmap, option_map in H;
  repeat match type of H with
         | (match ?x with _ => _ end) = Some _ =>
             let y := scrutinee x in let E := fresh "E" in
             destruct y eqn:E; try discriminate H
         end;
  try (injection H; clear H; intros; subst; simpl in *).

Lemma quiet_updateMember i f s s' : updateMemberData i f s = Some s' → quietStep s s'.
Proof. unfold updateMemberData. intros H. run H. done. Qed.

Lemma quiet_setLeaderMode m s s' : _setLeaderMode m s = Some s' → quietStep s s'.
Proof. unfold _setLeaderMode. intros H. run H. done. Qed.

Lemma quiet_prepareUnconditional s r :
  prepareForUnconditionalStepDown s = Some r → quietStep s (fst r).
Proof.
  unfold prepareForUnconditionalStepDown. intros H. run H; [done|]. by eapply quiet_setLeaderMode.
Qed.

Lemma quiet_stepDownSelf p s s' : _stepDownSelfAndReplaceWith p s = Some s' → quietStep s s'.
Proof.
  unfold _stepDownSelfAndReplaceWith. intros H. run H.
  apply quiet_setLeaderMode in H as (?&?&?&?&?). simpl in *. split_and!; try done.
  by intros ?%H3.
Qed.

Lemma quiet_setMemberAsDown sp window now i s r :
  setMemberAsDown sp window now i s = Some r → quietStep s (fst r).
Proof. unfold setMemberAsDown. intros H. run H. done. Qed.

Lemma quiet_timeouts sp window now n : ∀ i b s r,
  checkTimeoutsFrom sp window now n i b s = Some r → quietStep s (fst r).
Proof.
  induction n as [|n IH]; intros i b s r H; simpl in H; [by run H|]. run H.
  - apply IH in H. etrans; [|done].
    match goal with E : setMemberAsDown _ _ _ _ _ = _ |- _ =>
      apply quiet_setMemberAsDown in E; etrans; [|exact E] end. done.
  - apply IH in H. etrans; [|done]. done.
  - by apply IH in H.
Qed.

Lemma quiet_call sp window c s s' :
  quietCall c = true → exec sp window c s = Some s' → quietStep s s'.
Proof.
  intros Hq H. destruct c; try discriminate Hq; simpl in H.
  - unfold becomeCandidateIfElectable in H. run H; done.
  - unfold processLoseElection in H. run H; done.
  - run H. by eapply quiet_prepareUnconditional.
  - unfold prepareForStepDownAttempt in H. run H; try done; by eapply quiet_setLeaderMode.
  - unfold abortStepDownAttempt in H. run H; try done; by eapply quiet_setLeaderMode.
  - unfold tryToStartStepDown in H. run H; try done.
    match goal with H : prepareForUnconditionalStepDown _ = _ |- _ =>
      by apply quiet_prepareUnconditional in H end.
  - unfold finishUnconditionalStepDown in H. run H. by eapply quiet_stepDownSelf.
  - unfold setFollowerMode in H. run H; done.
  - unfold completeTransitionToPrimary in H. run H; [|done].
    match goal with E : _setLeaderMode _ _ = _ |- _ => by apply quiet_setLeaderMode in E end.
  - unfold adjustMaintenanceCountBy in H. run H; done.
  - run H. by eapply quiet_timeouts.
  - unfold _updatePrimaryFromHBDataV1 in H. run H; done.
  - run H. done.
  - unfold setMyLastAppliedOpTimeAndWallTime in H. run H; by eapply quiet_updateMember.
  - unfold setMyLastDurableOpTimeAndWallTime in H. run H; by eapply quiet_updateMember.
  - unfold updateFromHeartbeat, _updatePrimaryFromHBDataV1 in H. run H; done.
  - unfold setLastOptime in H. run H; done.
  - unfold updateLastCommittedOpTimeAndWallTime, advanceLastCommittedOpTimeAndWallTime in H.
    run H; done.
  - unfold advanceLastCommittedOpTimeAndWallTime in H. run H; done.
  - run H. done.
Qed.

(** A vote is granted for a term that is not before the voter's, other than the one
    it last voted in; nothing but the last vote changes. *)
Lemma vote_facts args s s' r :
  TopologyCoordinator.processReplSetRequestVotes args s = Some (s', r) →
  (respVoteGranted r = true ∧ argDryRun args = false ∧ _term s <= argTerm args ∧
   lvTerm (_lastVote s) ≠ argTerm args ∧
   s' = set_lastVote (mkLastVote (argTerm args) (argCandidateIndex args)) s) ∨
  (s' = s ∧ (respVoteGranted r = true → argDryRun args = true)).
Proof.
  unfold TopologyCoordinator.processReplSetRequestVotes. intros H. run H; try (right; split; done).
  destruct (argDryRun args); [by right|left]. simpl in *.
  split_and!; try done; by first [apply Z.ltb_ge|apply Z.eqb_neq].
Qed.

(** The steps of a node that neither vote nor install a configuration: the term only
    grows, a leader's not at all. *)
Definition calmStep (s s' : t) : Prop :=
  _rsConfig s' = _rsConfig s ∧ _selfIndex s' = _selfIndex s ∧ _term s <= _term s' ∧
  _lastVote s' = _lastVote s ∧ (_role s' = kLeader → _role s = kLeader ∧ _term s' = _term s).

#[global] Instance calmStep_preorder : PreOrder calmStep.
Proof.
  split; [by intros s|]. intros s1 s2 s3 (A1&A2&A3&A4&A5) (B1&B2&B3&B4&B5). unfold calmStep.
  split_and!; [congruence|congruence|lia|congruence|].
  intros Hr. destruct (B5 Hr) as [Hr' E2]. destruct (A5 Hr') as [Hr1 E1]. split; [done|congruence].
Qed.

Lemma quiet_calm s s' : quietStep s s' → calmStep s s'.
Proof. intros (?&?&E&?&?). unfold calmStep. rewrite E. split_and!; auto. lia. Qed.

Lemma calm_updateTerm term now s r :
  TopologyCoordinator.updateTerm term now s = Some r →
  calmStep s (fst r) ∧ (snd r = kUpdatedTerm → _term (fst r) = term ∧ _term s < term) ∧
  _role (fst r) = _role s.
Proof.
  unfold TopologyCoordinator.updateTerm, _iAmPrimary. intros H. run H;
    repeat match goal with H : (_ <=? _) = false |- _ => apply Z.leb_gt in H
                         | H : bool_decide _ = false |- _ => apply bool_decide_eq_false in H end;
    split_and!; try done; unfold calmStep; simpl; split_and!; try done; lia.
Qed.

Lemma calm_updateTerm_inlock term now rc rc' u w :
  _updateTerm_inlock term now rc = Some (rc', u, w) →
  calmStep (_topCoord rc) (_topCoord rc') ∧ _voteRequester rc' = _voteRequester rc ∧
  (u = kUpdatedTerm → _term (_topCoord rc') = term ∧ _term (_topCoord rc) < term ∧
     _role (_topCoord rc') = _role (_topCoord rc)).
Proof.
  unfold _updateTerm_inlock. intros H.
  destruct (TopologyCoordinator.updateTerm term now (_topCoord rc)) as [[s r]|] eqn:E; [|done].
  apply calm_updateTerm in E as (Hc & Hu & Hr). cbn [mbind option_bind fst snd] in *.
  destruct r; simpl in H.
  - injection H as <- <- <-. split_and!; done.
  - match type of H with context [prepareForUnconditionalStepDown (_topCoord ?x)] =>
      set (rc1 := x) in H end.
    assert (_topCoord rc1 = s ∧ _voteRequester rc1 = _voteRequester rc) as [E1 E2]
      by (unfold rc1; by case_match).
    rewrite E1 in H. destruct (prepareForUnconditionalStepDown s) as [[s2 b]|] eqn:E; [|done].
    cbn [mbind option_bind fst snd] in H. injection H as <- <- <-. simpl.
    apply quiet_prepareUnconditional in E. apply quiet_calm in E. split_and!; [by etrans|done|done].
  - injection H as <- <- <-. split_and!; try done. intros _. destruct Hu; done.
Qed.

Lemma calm_stepDownFinish now rc rc' :
  _stepDownFinish now rc = Some rc' →
  calmStep (_topCoord rc) (_topCoord rc') ∧ _voteRequester rc' = _voteRequester rc.
Proof.
  unfold _stepDownFinish. destruct (negb _); [by intros [= <-]|].
  destruct (finishUnconditionalStepDown (_topCoord rc)) as [s|] eqn:E; [|done].
  assert (calmStep (_topCoord rc) s) as Hc.
  { apply quiet_calm. unfold finishUnconditionalStepDown in E. run E. by eapply quiet_stepDownSelf. }
  cbn [mbind option_bind]. simpl.
  destruct (_pendingTermUpdateDuringStepDown rc) as [p|]; [|by intros [= <-]].
  destruct (_updateTerm_inlock p now (set_topCoord s rc)) as [[[rc2 u] w]|] eqn:E2; [|done].
  cbn [mbind option_bind fst snd]. destruct (negb _); [|done]. intros [= <-]. simpl.
  apply calm_updateTerm_inlock in E2 as (Hc2 & Hv & _). simpl in *. split; [by etrans|done].
Qed.

(** ** The network *)

(** A request on its way, by member index. *)
Record Request := mkRequest { rqFrom : nat; rqTo : nat; rqArgs : RequestVotesArgs }.
(** An answer on its way back, with the term of the request it answers. *)
Record Answer := mkAnswer { anFrom : nat; anTo : nat; anTerm : Z; anBody : VoteRequester.Response }.

(** [scheduled]: the last vote a node has handed to its executor to be written.
    [grants] (voter, term, candidate), [counted] (candidate, voter, term) and [wins]
    (term, node) record what happened. *)
Record Net := mkNet {
  node : nat → RC;
  scheduled : nat → option LastVote;
  requests : list Request;
  answers : list Answer;
  grants : list (nat * Z * nat);
  counted : list (nat * nat * Z);
  wins : list (Z * nat)
}.

Definition topo (net : Net) (i : nat) : t := _topCoord (node net i).
Definition set_node (i : nat) (rc : RC) (net : Net) : Net :=
  mkNet (<[i := rc]> (node net)) (scheduled net) (requests net) (answers net) (grants net)
    (counted net) (wins net).

(** The answer the network carries for what the handler returned. *)
Definition answerOf (st : VoteStatus) : VoteRequester.Response :=
  match st with VoteReply r => VoteRequester.Vote r | _ => VoteRequester.Invalid end.
Definition isGranted (args : RequestVotesArgs) (st : VoteStatus) : bool :=
  match st with VoteReply r => negb (argDryRun args) && respVoteGranted r | _ => false end.

Section Network.
(** [earlyVotes]: whether runs in which a node votes in a term that it has not reached are
    considered. *)
Context (earlyVotes : bool) (sp : ServerParams) (window : Z) (c : ReplSetConfig.t).

Definition nodes : nat := length (_members c).
Definition resolve (h : HostAndPort.t) : nat := Z.to_nat (findMemberIndexByHostAndPort c h).
Definition hostOf (i : nat) : HostAndPort.t :=
  option.default HostAndPort.null (MemberConfig.getHostAndPort <$> _members c !! i).

(** The answer goes to the round that asked, if the candidate is still in it. *)
Definition takeAnswer (a : Answer) (rc : RC) : RC :=
  match _voteRequester rc with
  | Some alg =>
      if VoteRequester._term alg =? anTerm a
      then set_voteRequester
             (Some (VoteRequester.processResponse (hostOf (anFrom a)) (anBody a) alg)) rc
      else rc
  | None => rc
  end.
Definition isCounted (a : Answer) (rc : RC) : bool :=
  match _voteRequester rc with
  | Some alg => (VoteRequester._term alg =? anTerm a) && granted (HostAndPort.null, anBody a)
  | None => false
  end.

(** One step of one node, or of the network.  A node usually votes in a term that it has
    reached: the handler calls [updateTerm] first and waits for the step down this
    may start.  But a node that was already stepping down when the request came in does not
    wait, and votes while its own term is still an earlier one. *)
Inductive step (net : Net) : Net → Prop :=
  | step_call i cl s' :
      (i < nodes)%nat → quietCall cl = true → exec sp window cl (topo net i) = Some s' →
      step net (set_node i (set_topCoord s' (node net i)) net)
  | step_term i term now rc u w :
      (i < nodes)%nat → _updateTerm_inlock term now (node net i) = Some (rc, u, w) →
      step net (set_node i rc net)
  | step_stepdown i now rc :
      (i < nodes)%nat → _stepDownFinish now (node net i) = Some rc →
      step net (set_node i rc net)
  | step_elect i now rc lv mc :
      (i < nodes)%nat → _role (topo net i) = kCandidate → scheduled net i = None →
      _selfConfig (topo net i) = Some mc → MemberConfig.isElectable mc = true →
      _startRealElection_inlock (_term (topo net i) + 1) now (node net i) = Some (rc, lv) →
      step net (mkNet (<[i := rc]> (node net)) (<[i := Some lv]> (scheduled net))
        (requests net) (answers net) ((i, lvTerm lv, i) :: grants net) (counted net) (wins net))
  | step_write i written lv rc out :
      (i < nodes)%nat → scheduled net i = Some lv →
      _writeLastVoteForMyElection written lv (node net i) = Some (rc, out) →
      step net (mkNet (<[i := rc]> (node net)) (<[i := None]> (scheduled net))
        (((λ x, mkRequest i (resolve x.1) x.2) <$> out) ++ requests net)
        (answers net) (grants net) (counted net) (wins net))
  | step_vote q l1 l2 rc st :
      requests net = l1 ++ q :: l2 → (rqTo q < nodes)%nat →
      argTerm (rqArgs q) <= _term (topo net (rqTo q)) ∨
        (earlyVotes = true ∧ _leaderMode (topo net (rqTo q)) = kSteppingDown) →
      voteUnderLock (rqArgs q) (node net (rqTo q)) = Some (rc, st) →
      step net (mkNet (<[rqTo q := storeGranted (rqArgs q) st rc]> (node net)) (scheduled net)
        (l1 ++ l2)
        (mkAnswer (rqTo q) (rqFrom q) (argTerm (rqArgs q)) (answerOf st) :: answers net)
        (if isGranted (rqArgs q) st
         then (rqTo q, argTerm (rqArgs q), Z.to_nat (argCandidateIndex (rqArgs q))) :: grants net
         else grants net)
        (counted net) (wins net))
  | step_drop q l1 l2 :
      requests net = l1 ++ q :: l2 →
      step net (mkNet (node net) (scheduled net) (l1 ++ l2)
        (mkAnswer (rqTo q) (rqFrom q) (argTerm (rqArgs q)) VoteRequester.Failed :: answers net)
        (grants net) (counted net) (wins net))
  | step_lose a l1 l2 :
      answers net = l1 ++ a :: l2 →
      step net (mkNet (node net) (scheduled net) (requests net)
        (l1 ++ mkAnswer (anFrom a) (anTo a) (anTerm a) VoteRequester.Failed :: l2)
        (grants net) (counted net) (wins net))
  | step_answer a l1 l2 :
      answers net = l1 ++ a :: l2 → (anTo a < nodes)%nat →
      step net (mkNet (<[anTo a := takeAnswer a (node net (anTo a))]> (node net)) (scheduled net)
        (requests net) (l1 ++ l2) (grants net)
        (if isCounted a (node net (anTo a))
         then (anTo a, anFrom a, anTerm a) :: counted net else counted net)
        (wins net))
  | step_complete i alg now id ts rc (b : bool) :
      (i < nodes)%nat → _voteRequester (node net i) = Some alg →
      _onVoteRequestComplete (VoteRequester._term alg) now id ts (node net i) = Some (rc, b) →
      step net (mkNet (<[i := rc]> (node net)) (scheduled net) (requests net) (answers net)
        (grants net) (counted net)
        (if b then (VoteRequester._term alg, i) :: wins net else wins net)).

(** A quiet start: everybody runs [c], nobody leads, nothing was sent. *)
Record Initial (net : Net) : Prop := {
  init_node : ∀ i, (i < nodes)%nat →
    _rsConfig (topo net i) = c ∧ _selfIndex (topo net i) = Z.of_nat i ∧
    _role (topo net i) ≠ kLeader ∧ lvTerm (_lastVote (topo net i)) <= _term (topo net i) ∧
    _voteRequester (node net i) = None ∧ scheduled net i = None;
  init_empty : requests net = [] ∧ answers net = [] ∧ grants net = [] ∧ counted net = [] ∧
    wins net = []
}.

Inductive Runs : Net → Prop :=
  | run_start net : Initial net → Runs net
  | run_step net net' : Runs net → step net net' → Runs net'.
End Network.
