(* ===== verification/ElectionSafety.v ===== *)
(** The invariant of the election network, and what it gives: one vote per node and
    term, one winner per term, one primary per term. *)
From stdpp Require Import gmap strings functions.
From S2P Require Import Prelude OpTimes ReplSetTag ReplSetConfig ReplSetConfigFacts MemberData TopologyCoordinator TopologyInv TopologyProps Handoff CommitProps VoteRequester ReplicationCoordinator Election.
Import ReplSetConfig TopologyCoordinator CommitPoint ReplicationCoordinator.

(** ** Targets as member indices *)

Lemma find_index_unique {A} (p : A → bool) l j x :
  l !! j = Some x → p x = true →
  (∀ i y, l !! i = Some y → p y = true → i = j) →
  find_index_from p 0 l = Z.of_nat j.
Proof.
  revert j. induction l as [|y l IH]; intros [|j] Hl Hp Hu; simplify_eq/=.
  - by rewrite Hp.
  - destruct (p y) eqn:E; [by specialize (Hu 0%nat y eq_refl E)|].
    rewrite (find_index_from_shift p 1), (IH j); [lia|done|done|].
    intros i z Hi Hz. specialize (Hu (S i) z Hi Hz). lia.
Qed.

Section Targets.
Context (c : ReplSetConfig.t) (Hc : Installed c).

Lemma resolve_host j m :
  _members c !! j = Some m → resolve c (MemberConfig.getHostAndPort m) = j.
Proof using Hc.
  intros Hj. unfold resolve, findMemberIndexByHostAndPort, indexOr.
  rewrite (find_index_unique _ _ j m Hj).
  - apply lookup_lt_Some in Hj. destruct (Z.eqb_spec (Z.of_nat j) (Z.of_nat (length (_members c)))); lia.
  - by apply HostAndPort.eqb_key.
  - intros i y Hi E%HostAndPort.eqb_key. destruct Hc as [Hv _].
    eapply (NoDup_lookup _ i j (HostAndPort.key (MemberConfig.getHostAndPort m))
      (vc_hosts _ Hv)); rewrite list_lookup_fmap.
    + by rewrite Hi, <- E.
    + by rewrite Hj.
Qed.

Lemma collectTargets_spec cand k ms :
  drop k (_members c) = ms →
  let l := resolve c <$> VoteRequester.collectTargets (Z.of_nat cand) (Z.of_nat k) ms in
  NoDup l ∧ ∀ j, j ∈ l → (k <= j)%nat ∧ j ∈ voters c ∧ j ≠ cand.
Proof using Hc.
  revert k. induction ms as [|m ms IH]; intros k Hd; simpl.
  - split; [constructor|]. intros j Hj. by apply elem_of_nil in Hj.
  - assert (_members c !! k = Some m) as Hk.
    { rewrite <- (Nat.add_0_r k), <- lookup_drop, Hd. done. }
    assert (drop (S k) (_members c) = ms) as Hd'.
    { rewrite <- (Nat.add_1_r k), <- drop_drop, Hd. done. }
    destruct (IH (S k) Hd') as [Hnd Hin]. replace (Z.of_nat (S k)) with (Z.of_nat k + 1) in * by lia.
    destruct (MemberConfig.isVoter m) eqn:Ev; simpl.
    + destruct (Z.eqb_spec (Z.of_nat k) (Z.of_nat cand)); simpl.
      * split; [done|]. intros j Hj. destruct (Hin j Hj) as (? & ? & ?). split_and!; [lia|done|done].
      * rewrite (resolve_host k m Hk). split.
        { constructor; [|done]. intros Hj. destruct (Hin k Hj). lia. }
        intros j [->|Hj]%elem_of_cons.
        { split_and!; [lia| |lia]. apply elem_of_idx_set. exists m. rewrite Nat.sub_0_r.
          split_and!; [lia|done|done]. }
        destruct (Hin j Hj) as (? & ? & ?). split_and!; [lia|done|done].
    + split; [done|]. intros j Hj. destruct (Hin j Hj) as (? & ? & ?). split_and!; [lia|done|done].
Qed.
End Targets.

(** ** The invariant *)

Definition Key := (nat * nat * Z)%type.
Definition requestKey (q : Request) : Key := (rqFrom q, rqTo q, argTerm (rqArgs q)).
Definition answerKey (a : Answer) : Key := (anTo a, anFrom a, anTerm a).

(** What was asked and is still on its way, or was counted. *)
Definition keys (net : Net) : list Key :=
  (requestKey <$> requests net) ++ (answerKey <$> answers net) ++ counted net.

Definition saysYes (b : VoteRequester.Response) : bool := granted (HostAndPort.null, b).
Definition ofRound (x : nat) (t : Z) (k : Key) : bool := (k.1.1 =? x)%nat && (k.2 =? t).

Section Invariant.
Context (c : ReplSetConfig.t).

Record RoundOk (net : Net) (x : nat) (a : VoteRequester.Algorithm) : Prop := {
  ro_real : VoteRequester._dryRun a = false ∧ VoteRequester._rsConfig a = c;
  ro_votes : VoteRequester._votes a
             = 1 + count_if (ofRound x (VoteRequester._term a)) (counted net);
  ro_self : (x, VoteRequester._term a, x) ∈ grants net ∧ x ∈ voters c;
  ro_term : VoteRequester._term a <= _term (topo net x) ∧
    ∀ lv, scheduled net x = Some lv → VoteRequester._term a < lvTerm lv
}.

Record NetInv (net : Net) : Prop := {
  ni_node : ∀ i, (i < nodes c)%nat →
    _rsConfig (topo net i) = c ∧ _selfIndex (topo net i) = Z.of_nat i ∧
    lvTerm (_lastVote (topo net i)) <= _term (topo net i);
  ni_grant : ∀ v t x, (v, t, x) ∈ grants net →
    (v < nodes c)%nat ∧ t <= lvTerm (_lastVote (topo net v)) ∧
    (t = lvTerm (_lastVote (topo net v)) → lvCandidate (_lastVote (topo net v)) = Z.of_nat x);
  ni_once : ∀ v t x y, (v, t, x) ∈ grants net → (v, t, y) ∈ grants net → x = y;
  ni_request : ∀ q, q ∈ requests net →
    argCandidateIndex (rqArgs q) = Z.of_nat (rqFrom q) ∧ argDryRun (rqArgs q) = false;
  ni_answer : ∀ a, a ∈ answers net → saysYes (anBody a) = true →
    (anFrom a, anTerm a, anTo a) ∈ grants net;
  ni_counted : ∀ x j t, (x, j, t) ∈ counted net → (j, t, x) ∈ grants net;
  ni_nodup : NoDup (keys net);
  ni_key : ∀ x j t, (x, j, t) ∈ keys net →
    j ∈ voters c ∧ j ≠ x ∧ t <= _term (topo net x) ∧
    ∀ lv, scheduled net x = Some lv → t < lvTerm lv;
  ni_scheduled : ∀ x lv, (x < nodes c)%nat → scheduled net x = Some lv →
    lvTerm lv <= _term (topo net x) ∧ (x, lvTerm lv, x) ∈ grants net ∧ x ∈ voters c;
  ni_round : ∀ x a, (x < nodes c)%nat → _voteRequester (node net x) = Some a → RoundOk net x a;
  ni_win : ∀ t x, (t, x) ∈ wins net → ∃ V : gset nat, V ⊆ voters c ∧
    _majorityVoteCount c <= Z.of_nat (size V) ∧ ∀ j, j ∈ V → (j, t, x) ∈ grants net;
  ni_leader : ∀ i, (i < nodes c)%nat → _role (topo net i) = kLeader →
    (_term (topo net i), i) ∈ wins net
}.

Lemma topo_set_node i rc net j :
  topo (set_node i rc net) j = if decide (i = j) then _topCoord rc else topo net j.
Proof.
  unfold topo, set_node. simpl. destruct (decide (i = j)) as [->|H].
  - by rewrite fn_lookup_insert.
  - by rewrite fn_lookup_insert_ne.
Qed.

(** A node takes a calm step: nothing else moves. *)
Lemma inv_calm net i rc :
  NetInv net → (i < nodes c)%nat →
  calmStep (topo net i) (_topCoord rc) → _voteRequester rc = _voteRequester (node net i) →
  NetInv (set_node i rc net).
Proof.
  intros Hn Hi (Ec & Es & Et & El & Er) Ev. destruct Hn.
  assert (∀ j, _rsConfig (topo (set_node i rc net) j) = _rsConfig (topo net j) ∧
    _selfIndex (topo (set_node i rc net) j) = _selfIndex (topo net j) ∧
    _term (topo net j) <= _term (topo (set_node i rc net) j) ∧
    _lastVote (topo (set_node i rc net) j) = _lastVote (topo net j)) as Hj.
  { intros j. rewrite topo_set_node. destruct (decide (i = j)) as [<-|]; [done|].
    split_and!; [done|done|lia|done]. }
  constructor; try done.
  - intros j Hjn. destruct (Hj j) as (-> & -> & H & ->). destruct (ni_node0 j Hjn) as (? & ? & ?).
    split_and!; [done|done|lia].
  - intros v t x Hg. destruct (Hj v) as (_ & _ & _ & ->). by apply ni_grant0.
  - intros x j t Hk. destruct (Hj x) as (_ & _ & H & _).
    destruct (ni_key0 x j t Hk) as (? & ? & ? & ?). split_and!; [done|done|lia|done].
  - intros x lv Hx Hlv. destruct (Hj x) as (_ & _ & H & _).
    destruct (ni_scheduled0 x lv Hx Hlv) as (? & ?). split; [lia|done].
  - intros x a Hx Ha. assert (_voteRequester (node net x) = Some a) as Ha'.
    { simpl in Ha. destruct (decide (i = x)) as [<-|].
      - rewrite fn_lookup_insert in Ha. congruence.
      - by rewrite fn_lookup_insert_ne in Ha. }
    destruct (ni_round0 x a Hx Ha'). destruct (Hj x) as (_ & _ & H & _).
    constructor; try done. destruct ro_term0. split; [lia|done].
  - intros j Hjn Hr. rewrite topo_set_node in *. destruct (decide (i = j)) as [<-|]; [|by apply ni_leader0].
    destruct (Er Hr) as [Hr' ->]. by apply ni_leader0.
Qed.

(** ** Running for election *)

Lemma startReal_facts now rc rc' lv :
  _startRealElection_inlock (_term (_topCoord rc) + 1) now rc = Some (rc', lv) →
  let s := _topCoord rc in let s' := _topCoord rc' in
  _rsConfig s' = _rsConfig s ∧ _selfIndex s' = _selfIndex s ∧ _term s' = _term s + 1 ∧
  _role s' = _role s ∧ _voteRequester rc' = _voteRequester rc ∧
  lv = mkLastVote (_term s + 1) (_selfIndex s) ∧ _lastVote s' = lv.
Proof.
  unfold _startRealElection_inlock.
  destruct (_updateTerm_inlock (_term (_topCoord rc) + 1) now rc) as [[[rc2 u] w]|] eqn:E; [|done].
  apply calm_updateTerm_inlock in E as ((E1 & E2 & _) & Ev & Hu). cbn [mbind option_bind fst snd].
  case_bool_decide as Hb; [|done]. destruct (Hu Hb) as (Et & _ & Er). intros [= <- <-].
  unfold voteForMyselfV1. simpl.
  by rewrite E1, E2, Et, Er, Ev.
Qed.

Context (Hc : Installed c).

Lemma nodes_voter v : v ∈ voters c → (v < nodes c)%nat.
Proof.
  intros (m & _ & Hm & _)%elem_of_idx_set. rewrite Nat.sub_0_r in Hm.
  by apply lookup_lt_Some in Hm.
Qed.

Lemma electable_voter i mc :
  getMemberAt c (Z.of_nat i) = Some mc → MemberConfig.isElectable mc = true → i ∈ voters c.
Proof using Hc.
  unfold getMemberAt. intros H He. destruct (_ && _); [|done]. rewrite Nat2Z.id in H.
  apply elem_of_idx_set. exists mc. rewrite Nat.sub_0_r. split_and!; [lia|done|].
  destruct Hc as [Hv _]. destruct (member_validate_ok mc) as (_ & _ & H' & _).
  - apply (vc_members _ Hv). by eapply list_elem_of_lookup_2.
  - by destruct (H' He).
Qed.

Lemma inv_elect net i now rc lv mc :
  NetInv net → (i < nodes c)%nat → _role (topo net i) = kCandidate →
  _selfConfig (topo net i) = Some mc → MemberConfig.isElectable mc = true →
  _startRealElection_inlock (_term (topo net i) + 1) now (node net i) = Some (rc, lv) →
  NetInv (mkNet (<[i := rc]> (node net)) (<[i := Some lv]> (scheduled net))
    (requests net) (answers net) ((i, lvTerm lv, i) :: grants net) (counted net) (wins net)).
Proof using Hc.
  intros Hn Hi Hrole Hself He H. apply startReal_facts in H as (Ec & Es & Et & Er & Ev & El & Elv).
  change (_topCoord (node net i)) with (topo net i) in *.
  destruct (ni_node net Hn i Hi) as (Hci & Hsi & Hli).
  assert (i ∈ voters c) as Hvoter.
  { apply (electable_voter i mc); [|done]. unfold _selfConfig in Hself. by rewrite Hci, Hsi in Hself. }
  assert (lvTerm lv = _term (topo net i) + 1) as Et' by by rewrite El.
  set (net' := mkNet _ _ _ _ _ _ _).
  assert (∀ j, topo net' j = if decide (i = j) then _topCoord rc else topo net j) as Htopo.
  { intros j. apply (topo_set_node i rc net j). }
  destruct Hn. constructor; try done.
  - intros j Hj. rewrite Htopo. destruct (decide (i = j)) as [<-|]; [|by apply ni_node0].
    rewrite Ec, Es, Elv, Et'. split_and!; [done|done|lia].
  - intros v t x Hg. rewrite Htopo. apply elem_of_cons in Hg as [[= -> -> ->]|Hg].
    + rewrite decide_True by done. rewrite Elv. split_and!; [done|lia|]. intros _. by rewrite El.
    + destruct (ni_grant0 v t x Hg) as (Hv & Hle & Heq).
      destruct (decide (i = v)) as [<-|]; [|done]. rewrite Elv. split_and!; [done|lia|lia].
  - intros v t x y Hx%elem_of_cons Hy%elem_of_cons.
    assert (∀ y, ¬ (i, lvTerm lv, y) ∈ grants net) as Hnew.
    { intros z Hz. destruct (ni_grant0 _ _ _ Hz) as (_ & Hle & _). lia. }
    destruct Hx as [Hx|Hx], Hy as [Hy|Hy]; simplify_eq;
      [done|by apply Hnew in Hy|by apply Hnew in Hx|by eapply ni_once0].
  - intros a Ha Hy. right. by apply ni_answer0.
  - intros x j t Hk. right. by apply ni_counted0.
  - intros x j t Hk. destruct (ni_key0 x j t Hk) as (Hj & Hne & Ht & Hs). rewrite Htopo. simpl.
    destruct (decide (i = x)) as [<-|].
    + rewrite fn_lookup_insert. split_and!; [done|done|lia|]. intros lv' [= <-]. lia.
    + by rewrite fn_lookup_insert_ne.
  - intros x lv' Hx. rewrite Htopo. simpl. destruct (decide (i = x)) as [<-|].
    + rewrite fn_lookup_insert. intros [= <-]. split_and!; [lia|left|done].
    + rewrite fn_lookup_insert_ne by done. intros Hl.
      destruct (ni_scheduled0 x lv' Hx Hl) as (? & ? & ?). split_and!; [done|by right|done].
  - intros x a Hx Ha. assert (_voteRequester (node net x) = Some a) as Ha'.
    { simpl in Ha. destruct (decide (i = x)) as [<-|].
      - rewrite fn_lookup_insert in Ha. congruence.
      - by rewrite fn_lookup_insert_ne in Ha. }
    destruct (ni_round0 x a Hx Ha') as [? ? [? ?] [? ?]]. constructor; try done.
    + split; [by right|done].
    + rewrite Htopo. simpl. destruct (decide (i = x)) as [<-|].
      * rewrite fn_lookup_insert. split; [lia|]. intros lv' [= <-]. lia.
      * by rewrite fn_lookup_insert_ne.
  - intros t x Hw. destruct (ni_win0 t x Hw) as (V & HV & Hm & Hg). exists V.
    split_and!; [done|done|]. intros j Hj. right. by apply Hg.
  - intros j Hj. rewrite Htopo. destruct (decide (i = j)) as [<-|]; [|by apply ni_leader0].
    rewrite Er, Hrole. done.
Qed.

(** Losing an election: a calm step, and the round is forgotten. *)
Lemma lose_facts rc rc' :
  loseElection rc = Some rc' →
  calmStep (_topCoord rc) (_topCoord rc') ∧ _voteRequester rc' = None.
Proof.
  unfold loseElection. destruct (processLoseElection (_topCoord rc)) as [s|] eqn:E; [|done].
  intros [= <-]. split; [|done]. apply quiet_calm.
  unfold processLoseElection in E. by run E.
Qed.

(** A calm step in which the node's round ends. *)
Lemma inv_calm_end net i rc :
  NetInv net → (i < nodes c)%nat → calmStep (topo net i) (_topCoord rc) →
  _voteRequester rc = None → NetInv (set_node i rc net).
Proof.
  intros Hn Hi Hcalm Ev.
  pose proof (inv_calm net i (set_voteRequester (_voteRequester (node net i)) rc) Hn Hi Hcalm eq_refl) as H.
  assert (∀ j, topo (set_node i (set_voteRequester (_voteRequester (node net i)) rc) net) j
    = topo (set_node i rc net) j) as Ht by (intros j; by rewrite !topo_set_node).
  destruct H. constructor; try done; try setoid_rewrite <- Ht; try done.
  intros x a Hx Ha. simpl in Ha. destruct (decide (i = x)) as [<-|Hne].
  - rewrite fn_lookup_insert in Ha. congruence.
  - rewrite fn_lookup_insert_ne in Ha by done. destruct (ni_round0 x a Hx) as [? ? ? H4].
    + simpl. by rewrite fn_lookup_insert_ne.
    + constructor; try done. by rewrite <- Ht.
Qed.

Lemma inv_unschedule net i :
  NetInv net →
  NetInv (mkNet (node net) (<[i := None]> (scheduled net)) (requests net) (answers net)
    (grants net) (counted net) (wins net)).
Proof.
  intros Hn. assert (∀ x lv, (<[i := None]> (scheduled net)) x = Some lv → scheduled net x = Some lv) as Hs.
  { intros x lv. destruct (decide (i = x)) as [<-|].
    - by rewrite fn_lookup_insert.
    - by rewrite fn_lookup_insert_ne. }
  destruct Hn. constructor; try done.
  - intros x j t Hk. destruct (ni_key0 x j t Hk) as (? & ? & ? & H). split_and!; try done.
    intros lv Hlv. by apply H, Hs.
  - intros x lv Hx Hlv. apply ni_scheduled0; [done|]. by apply Hs.
  - intros x a Hx Ha. destruct (ni_round0 x a Hx Ha) as [? ? ? [? H]]. constructor; try done.
    split; [done|]. intros lv Hlv. by apply H, Hs.
Qed.

Lemma inv_write net i written lv rc out :
  NetInv net → (i < nodes c)%nat → scheduled net i = Some lv →
  _writeLastVoteForMyElection written lv (node net i) = Some (rc, out) →
  NetInv (mkNet (<[i := rc]> (node net)) (<[i := None]> (scheduled net))
    (((λ x, mkRequest i (resolve c x.1) x.2) <$> out) ++ requests net)
    (answers net) (grants net) (counted net) (wins net)).
Proof using Hc.
  intros Hn Hi Hs H. unfold _writeLastVoteForMyElection in H.
  assert (∀ rc0, loseElection rc0 = Some rc → _topCoord rc0 = topo net i → out = [] →
    NetInv (mkNet (<[i := rc]> (node net)) (<[i := None]> (scheduled net))
      (((λ x, mkRequest i (resolve c x.1) x.2) <$> out) ++ requests net)
      (answers net) (grants net) (counted net) (wins net))) as Hlose.
  { intros rc0 [Hcalm Hv]%lose_facts E0 ->. rewrite E0 in Hcalm. simpl.
    apply (inv_unschedule _ i) in Hn. apply (inv_calm_end _ i rc) in Hn; done. }
  destruct written; simpl in H.
  2: { destruct (loseElection (node net i)) as [rc1|] eqn:E; [|done]. injection H as <- <-.
       by apply (Hlose _ E). }
  set (rc0 := storeLocalLastVoteDocument lv (node net i)) in H.
  assert (_topCoord rc0 = topo net i) as E0
    by (unfold rc0, storeLocalLastVoteDocument; by destruct (lvTerm (storedVote _) <? _)).
  rewrite E0 in H. destruct (Z.eqb_spec (_term (topo net i)) (lvTerm lv)) as [Et|Et]; simpl in H.
  2: { destruct (loseElection rc0) as [rc1|] eqn:E; [|done]. injection H as <- <-.
       by apply (Hlose _ E). }
  clear Hlose. destruct (getMyLastAppliedOpTime (topo net i)) as [o|]; [|done].
  cbn [mbind option_bind] in H. injection H as <- <-.
  destruct (ni_node net Hn i Hi) as (Hci & Hsi & _).
  destruct (ni_scheduled net Hn i lv Hi Hs) as (_ & Hg & Hv).
  rewrite Hci, Hsi. set (a := VoteRequester.construct _ _ _ _ _ _).
  set (reqs := (λ x, mkRequest i (resolve c x.1) x.2) <$> VoteRequester.getRequests a).
  set (net' := mkNet _ _ _ _ _ _ _).
  assert (∀ j, topo net' j = topo net j) as Htopo.
  { intros j. unfold topo, net'. simpl. destruct (decide (i = j)) as [<-|].
    - by rewrite fn_lookup_insert.
    - by rewrite fn_lookup_insert_ne. }
  assert (requestKey <$> reqs = (λ j, (i, j, lvTerm lv)) <$>
    (resolve c <$> VoteRequester.collectTargets (Z.of_nat i) 0 (_members c))) as Ekeys.
  { unfold reqs, VoteRequester.getRequests. by rewrite <- !list_fmap_compose. }
  destruct (collectTargets_spec c Hc i 0 (_members c) (drop_0 _)) as [Hnd Hin]. simpl in Hnd, Hin.
  assert (∀ k, k ∈ requestKey <$> reqs → ∃ j, k = (i, j, lvTerm lv) ∧ j ∈ voters c ∧ j ≠ i) as Hnew.
  { intros k. rewrite Ekeys. intros (j & -> & Hj)%list_elem_of_fmap.
    destruct (Hin j Hj) as (_ & ? & ?). by exists j. }
  assert (∀ x lv', (<[i := None]> (scheduled net)) x = Some lv' → x ≠ i ∧ scheduled net x = Some lv') as Hsch.
  { intros x lv'. destruct (decide (i = x)) as [<-|].
    - by rewrite fn_lookup_insert.
    - by rewrite fn_lookup_insert_ne. }
  assert (keys net' = (requestKey <$> reqs) ++ keys net) as Ek.
  { unfold keys, net'. simpl. fold reqs. by rewrite fmap_app, <- app_assoc. }
  destruct Hn. constructor; try done; try setoid_rewrite Htopo; try done.
  - intros q [Hq|Hq]%elem_of_app; [|by apply ni_request0].
    apply list_elem_of_fmap in Hq as ([h ar] & -> & Hq). unfold VoteRequester.getRequests in Hq.
    apply list_elem_of_fmap in Hq as (h' & [= -> ->] & _). done.
  - rewrite Ek. apply NoDup_app. split_and!; [|intros k Hk1 Hk2|done].
    + rewrite Ekeys. apply NoDup_fmap_2; [|done]. by intros ? ? [= ->].
    + destruct (Hnew k Hk1) as (j & -> & _). destruct (ni_key0 _ _ _ Hk2) as (_ & _ & _ & Hlt).
      specialize (Hlt lv Hs). lia.
  - intros x j t. rewrite Ek. intros [Hk|Hk]%elem_of_app.
    + destruct (Hnew _ Hk) as (j' & [= -> -> ->] & Hj & Hne). split_and!; [done|done|lia|].
      intros lv' [Hx _]%Hsch. done.
    + destruct (ni_key0 x j t Hk) as (? & ? & ? & Hlt). split_and!; try done.
      intros lv' [_ Hx]%Hsch. by apply Hlt.
  - intros x lv' Hx [_ Hl]%Hsch. by apply ni_scheduled0.
  - intros x b Hx Hb. simpl in Hb. destruct (decide (i = x)) as [<-|Hne].
    + rewrite fn_lookup_insert in Hb. injection Hb as <-. constructor; simpl.
      * done.
      * rewrite count_if_none; [done|]. intros [[x j] t] Hk. unfold ofRound. simpl.
        destruct (Nat.eqb_spec x i) as [->|]; [|done]. apply Z.eqb_neq.
        destruct (ni_key0 i j t) as (_ & _ & _ & Hlt).
        { unfold keys. rewrite !elem_of_app. by do 2 right. }
        specialize (Hlt lv Hs). lia.
      * done.
      * rewrite Htopo. split; [lia|]. by intros lv' [? _]%Hsch.
    + rewrite fn_lookup_insert_ne in Hb by done. destruct (ni_round0 x b Hx Hb) as [? ? ? [? H]].
      constructor; try done. rewrite Htopo. split; [done|]. intros lv' [_ Hl]%Hsch. by apply H.
Qed.

(** ** Voting *)

Lemma keys_move net (l1 l2 : list Request) q a :
  requests net = l1 ++ q :: l2 → answerKey a = requestKey q →
  keys net ≡ₚ keys (mkNet (node net) (scheduled net) (l1 ++ l2) (a :: answers net) (grants net)
                 (counted net) (wins net)).
Proof.
  intros E Ea. unfold keys. simpl. rewrite E, !fmap_app, fmap_cons, Ea, <- !app_assoc.
  apply Permutation_app_head. simpl. apply Permutation_middle.
Qed.

Lemma voteUnderLock_facts args rc rc' st :
  voteUnderLock args rc = Some (rc', st) →
  _voteRequester rc' = _voteRequester rc ∧
  (isGranted args st = false ∧ _topCoord rc' = _topCoord rc ∨
   isGranted args st = true ∧ _term (_topCoord rc) <= argTerm args ∧
     lvTerm (_lastVote (_topCoord rc)) ≠ argTerm args ∧
     _topCoord rc' = set_lastVote (mkLastVote (argTerm args) (argCandidateIndex args)) (_topCoord rc)).
Proof.
  unfold voteUnderLock. destruct (_inTerminalShutdown rc); [intros [= <- <-]; auto|].
  destruct (_ || _); [intros [= <- <-]; auto|]. destruct (_ =? -1); [intros [= <- <-]; auto|].
  destruct (TopologyCoordinator.processReplSetRequestVotes args (_topCoord rc)) as [[s r]|] eqn:E;
    [|done].
  cbn [mbind option_bind fst snd]. intros [= <- <-]. split; [done|]. simpl.
  apply vote_facts in E as [(Hg & Hd & Ht & Hne & ->)|(-> & Hg)].
  - right. rewrite Hg, Hd. done.
  - left. split; [|done]. destruct (respVoteGranted r); [|by rewrite andb_false_r].
    by rewrite Hg.
Qed.

Lemma storeGranted_facts args st rc :
  _topCoord (storeGranted args st rc) = _topCoord rc ∧
  _voteRequester (storeGranted args st rc) = _voteRequester rc.
Proof.
  unfold storeGranted, storeLocalLastVoteDocument. destruct st as [| | |r]; try done.
  destruct (negb _ && _); [|done]. by destruct (lvTerm (storedVote rc) <? _).
Qed.

Lemma saysYes_granted args st :
  argDryRun args = false → saysYes (answerOf st) = true → isGranted args st = true.
Proof. intros Hd. unfold saysYes, granted, isGranted, answerOf. destruct st; simpl; rewrite ?Hd; done. Qed.

Lemma inv_vote net q l1 l2 rc st :
  NetInv net → requests net = l1 ++ q :: l2 → (rqTo q < nodes c)%nat →
  argTerm (rqArgs q) <= _term (topo net (rqTo q)) →
  voteUnderLock (rqArgs q) (node net (rqTo q)) = Some (rc, st) →
  NetInv (mkNet (<[rqTo q := storeGranted (rqArgs q) st rc]> (node net)) (scheduled net)
    (l1 ++ l2)
    (mkAnswer (rqTo q) (rqFrom q) (argTerm (rqArgs q)) (answerOf st) :: answers net)
    (if isGranted (rqArgs q) st
     then (rqTo q, argTerm (rqArgs q), Z.to_nat (argCandidateIndex (rqArgs q))) :: grants net
     else grants net)
    (counted net) (wins net)).
Proof.
  intros Hn Eq Hj Ht H. apply voteUnderLock_facts in H as (Ev & H).
  destruct (storeGranted_facts (rqArgs q) st rc) as [Es1 Es2].
  set (j := rqTo q) in *. set (T := argTerm (rqArgs q)) in *. set (i := rqFrom q) in *.
  assert (q ∈ requests net) as Hq by (rewrite Eq; apply elem_of_app; right; left).
  destruct (ni_request net Hn q Hq) as [Ecand Edry]. fold i in Ecand.
  rewrite Ecand, Nat2Z.id. rewrite Ecand in H.
  set (a := mkAnswer j i T (answerOf st)). set (net' := mkNet _ _ _ _ _ _ _).
  change (_topCoord (node net j)) with (topo net j) in H.
  destruct (ni_node net Hn j Hj) as (Hcj & Hsj & Hlj).
  (* only the voter's last vote changes *)
  assert (∀ k, _rsConfig (topo net' k) = _rsConfig (topo net k) ∧
    _selfIndex (topo net' k) = _selfIndex (topo net k) ∧ _term (topo net' k) = _term (topo net k) ∧
    _role (topo net' k) = _role (topo net k) ∧
    (isGranted (rqArgs q) st = true ∧ k = j ∧ lvTerm (_lastVote (topo net j)) < T ∧
       T = _term (topo net j) ∧ _lastVote (topo net' k) = mkLastVote T (Z.of_nat i) ∨
     (isGranted (rqArgs q) st = false ∨ k ≠ j) ∧ _lastVote (topo net' k) = _lastVote (topo net k)))
    as Htopo.
  { intros k. assert (topo net' k = if decide (j = k) then _topCoord rc else topo net k) as ->.
    { rewrite <- Es1. apply (topo_set_node j _ net k). }
    destruct (decide (j = k)) as [<-|Hne].
    - destruct H as [[Hg ->]|(Hg & Hle & Hne & ->)].
      + split_and!; try done. right. auto.
      + split_and!; try done. left. simpl. split_and!; [done|done|lia|lia|done].
    - split_and!; try done. right. auto. }
  assert (∀ k x, _voteRequester (node net' k) = Some x → _voteRequester (node net k) = Some x) as Hreq.
  { intros k x. unfold net'. simpl. destruct (decide (j = k)) as [<-|].
    - rewrite fn_lookup_insert, Es2. congruence.
    - by rewrite fn_lookup_insert_ne. }
  assert (keys net ≡ₚ keys net') as Hkeys by by apply (keys_move net l1 l2 q a).
  assert (∀ v t x, (v, t, x) ∈ grants net' ↔ (v, t, x) ∈ grants net ∨
    (isGranted (rqArgs q) st = true ∧ v = j ∧ t = T ∧ x = i)) as Hgr.
  { intros v t x. unfold net'. simpl. destruct (isGranted (rqArgs q) st).
    - rewrite elem_of_cons. split; [intros [[= -> -> ->]|?]; auto|].
      intros [?|(_ & -> & -> & ->)]; auto.
    - split; [by left|]. intros [?|[? _]]; done. }
  clear H Es1 Es2 Ev. destruct Hn. constructor.
  - intros k Hk. destruct (ni_node0 k Hk) as (Hck & Hsk & Hlk).
    destruct (Htopo k) as (-> & -> & -> & _ & [(_ & -> & _ & ET & ->)|[_ ->]]); [|done].
    simpl. split_and!; [done|done|lia].
  - intros v t x Hg. destruct (Htopo v) as (_ & _ & _ & _ & Hv). apply Hgr in Hg as [Hg|(Hg & -> & -> & ->)].
    + destruct (ni_grant0 v t x Hg) as (Hvn & Hle & Heq).
      destruct Hv as [(_ & -> & Hlt & _ & ->)|[_ ->]]; [|done]. simpl. split_and!; [done|lia|lia].
    + destruct Hv as [(_ & _ & _ & _ & ->)|[[Hf|Hf] _]]; [done|congruence|done].
  - assert (isGranted (rqArgs q) st = true → ∀ x, (j, T, x) ∉ grants net) as Hnew.
    { intros Hg x Hx. destruct (ni_grant0 _ _ _ Hx) as (_ & Hle & _).
      destruct (Htopo j) as (_ & _ & _ & _ & [(_ & _ & Hlt & _)|[[Hf|Hf] _]]); [lia|congruence|done]. }
    intros v t x y Hx%Hgr Hy%Hgr.
    destruct Hx as [Hx|(Gx & -> & -> & ->)], Hy as [Hy|(Gy & Ey & Et & ->)]; [by eapply ni_once0| | |done].
    + subst. by apply Hnew in Hx.
    + by apply Hnew in Hy.
  - intros q' Hq'. apply ni_request0. rewrite Eq. apply elem_of_app. apply elem_of_app in Hq' as [?|?];
      [by left|by do 2 right].
  - intros b [->|Hb]%elem_of_cons Hy; apply Hgr.
    + right. split_and!; [|done..]. by apply saysYes_granted.
    + left. by apply ni_answer0.
  - intros x v t Hk. apply Hgr. left. by apply ni_counted0.
  - by rewrite <- Hkeys.
  - intros x v t. rewrite <- Hkeys. intros Hk. destruct (Htopo x) as (_ & _ & -> & _).
    by apply ni_key0.
  - intros x lv Hx Hs. destruct (Htopo x) as (_ & _ & -> & _).
    destruct (ni_scheduled0 x lv Hx Hs) as (? & ? & ?). split_and!; [done| |done].
    apply Hgr. by left.
  - intros x b Hx Hb%Hreq. destruct (ni_round0 x b Hx Hb) as [? ? [? ?] [? ?]].
    constructor; [done|done| |].
    + split; [apply Hgr; by left|done].
    + destruct (Htopo x) as (_ & _ & -> & _). done.
  - intros t x Hw. destruct (ni_win0 t x Hw) as (V & HV & Hm & Hall). exists V.
    split_and!; [done|done|]. intros v Hv. apply Hgr. left. by apply Hall.
  - intros k Hk. destruct (Htopo k) as (_ & _ & -> & -> & _). by apply ni_leader0.
Qed.

(** ** Messages that get lost *)

(** The nodes, and who granted what, stay; the keys only shrink. *)
Lemma inv_messages net net' :
  NetInv net → node net' = node net → scheduled net' = scheduled net → grants net' = grants net →
  wins net' = wins net → counted net' = counted net →
  (∀ q, q ∈ requests net' → q ∈ requests net) →
  (∀ a, a ∈ answers net' → saysYes (anBody a) = true → a ∈ answers net) →
  keys net' ≡ₚ keys net →
  NetInv net'.
Proof.
  intros Hn E1 E2 E3 E4 E5 Hq Ha Hk. destruct Hn. unfold topo in *.
  constructor; unfold topo; rewrite ?E1, ?E2, ?E3, ?E4, ?E5; try done.
  - intros q Hin. by apply ni_request0, Hq.
  - intros a Hin Hy. by apply ni_answer0; [apply Ha|].
  - by rewrite Hk.
  - intros x j t. rewrite Hk. apply ni_key0.
  - intros x a Hx Hv. destruct (ni_round0 x a Hx Hv). constructor; unfold topo;
      rewrite ?E1, ?E2, ?E3, ?E4, ?E5; done.
Qed.

Lemma inv_drop net q l1 l2 :
  NetInv net → requests net = l1 ++ q :: l2 →
  NetInv (mkNet (node net) (scheduled net) (l1 ++ l2)
    (mkAnswer (rqTo q) (rqFrom q) (argTerm (rqArgs q)) VoteRequester.Failed :: answers net)
    (grants net) (counted net) (wins net)).
Proof.
  intros Hn Eq. apply (inv_messages net); try done; simpl.
  - intros q'. rewrite Eq, !elem_of_app, elem_of_cons. tauto.
  - by intros a [->|Ha]%elem_of_cons.
  - symmetry. by apply (keys_move net l1 l2 q).
Qed.

Lemma inv_lose net a l1 l2 :
  NetInv net → answers net = l1 ++ a :: l2 →
  NetInv (mkNet (node net) (scheduled net) (requests net)
    (l1 ++ mkAnswer (anFrom a) (anTo a) (anTerm a) VoteRequester.Failed :: l2)
    (grants net) (counted net) (wins net)).
Proof.
  intros Hn Ea. apply (inv_messages net); try done; simpl.
  - intros b. rewrite Ea, !elem_of_app, !elem_of_cons. intros [?|[->|?]]; [auto|done|auto].
  - unfold keys. simpl. by rewrite Ea, !fmap_app, !fmap_cons.
Qed.

(** ** Counting answers *)

Lemma takeAnswer_topo a rc : _topCoord (takeAnswer c a rc) = _topCoord rc.
Proof.
  unfold takeAnswer. destruct (_voteRequester rc) as [alg|]; [|done].
  by destruct (VoteRequester._term alg =? anTerm a).
Qed.

Lemma inv_answer net a l1 l2 :
  NetInv net → answers net = l1 ++ a :: l2 → (anTo a < nodes c)%nat →
  NetInv (mkNet (<[anTo a := takeAnswer c a (node net (anTo a))]> (node net)) (scheduled net)
    (requests net) (l1 ++ l2) (grants net)
    (if isCounted a (node net (anTo a))
     then (anTo a, anFrom a, anTerm a) :: counted net else counted net)
    (wins net)).
Proof.
  intros Hn Ea Hi. set (net' := mkNet _ _ _ _ _ _ _).
  assert (∀ k, topo net' k = topo net k) as Htopo.
  { intros k. assert (topo net' k = if decide (anTo a = k)
      then _topCoord (takeAnswer c a (node net (anTo a))) else topo net k) as ->
      by apply (topo_set_node _ _ net k).
    destruct (decide (anTo a = k)) as [<-|]; [apply takeAnswer_topo|done]. }
  assert (keys net ≡ₚ (requestKey <$> requests net) ++ (answerKey <$> (l1 ++ l2)) ++
            answerKey a :: counted net) as Hk.
  { unfold keys. rewrite Ea, !fmap_app, fmap_cons, <- !app_assoc. do 2 apply Permutation_app_head.
    simpl. apply Permutation_middle. }
  assert (keys net' ⊆+ keys net) as Hsub.
  { rewrite Hk. unfold keys, net'. simpl.
    destruct (isCounted a _); repeat apply submseteq_app; try done. by apply submseteq_cons. }
  assert (∀ k, k ∈ keys net' → k ∈ keys net) as Hin.
  { intros k Hkk. by eapply elem_of_submseteq. }
  destruct Hn. constructor; try done; try setoid_rewrite Htopo; try done.
  - intros b Hb Hy. apply ni_answer0; [|done]. rewrite Ea. apply elem_of_app.
    apply elem_of_app in Hb as [?|?]; [by left|by do 2 right].
  - intros x j t Hc'. simpl in Hc'. destruct (isCounted a (node net (anTo a))) eqn:Eg;
      [|by apply ni_counted0].
    apply elem_of_cons in Hc' as [[= -> -> ->]|Hc']; [|by apply ni_counted0].
    apply ni_answer0; [rewrite Ea; apply elem_of_app; right; left|].
    unfold isCounted in Eg. destruct (_voteRequester _); [|done]. by apply andb_true_iff in Eg as [_ Eg].
  - apply submseteq_sublist_l in Hsub as (l & Hs & Hp). eapply sublist_NoDup; [|exact Hs]. by rewrite Hp.
  - intros x j t Hkk%Hin. by apply ni_key0.
  - intros x b Hx Hb. simpl in Hb. destruct (decide (anTo a = x)) as [Ex|Hne].
    + rewrite <- Ex, fn_lookup_insert in Hb. unfold takeAnswer in Hb.
      destruct (_voteRequester (node net (anTo a))) as [alg|] eqn:Ealg; [|congruence].
      destruct (ni_round0 (anTo a) alg Hi Ealg) as [[Hr1 Hr2] Hv Hg Ht].
      assert (isCounted a (node net (anTo a))
        = (VoteRequester._term alg =? anTerm a) && saysYes (anBody a)) as Eis
        by (unfold isCounted; by rewrite Ealg).
      destruct (VoteRequester._term alg =? anTerm a) eqn:Et.
      * simpl in Hb. injection Hb as <-.
        destruct (processResponse_fields (hostOf c (anFrom a)) (anBody a) alg)
          as (F1 & F2 & _ & _ & F5 & _ & _ & _ & F9).
        constructor; rewrite ?F1, ?F2, ?F5, ?F9, ?Htopo, <- ?Ex; try done.
        rewrite Hv. simpl. rewrite Eis. simpl.
        change (granted (hostOf c (anFrom a), anBody a)) with (saysYes (anBody a)).
        destruct (saysYes (anBody a)); simpl; [|lia]. unfold ofRound at 2. simpl.
        apply Z.eqb_eq in Et. rewrite Et, Nat.eqb_refl, Z.eqb_refl. simpl. lia.
      * rewrite Ealg in Hb. injection Hb as <-. simpl in Eis.
        constructor; rewrite ?Htopo, <- ?Ex; try done. simpl. by rewrite Eis.
    + rewrite fn_lookup_insert_ne in Hb by done. destruct (ni_round0 x b Hx Hb) as [? Hv ? ?].
      constructor; rewrite ?Htopo; try done. simpl. rewrite Hv.
      destruct (isCounted a _); [|done]. simpl. unfold ofRound at 2. simpl.
      destruct (Nat.eqb_spec (anTo a) x); [done|simpl; lia].
Qed.

(** ** Winning *)

(** The voters counted in a round, and the candidate itself. *)
Lemma round_voters net x t :
  NetInv net → x ∈ voters c → (x, t, x) ∈ grants net →
  ∃ V : gset nat, V ⊆ voters c ∧
    Z.of_nat (size V) = 1 + count_if (ofRound x t) (counted net) ∧
    ∀ j, j ∈ V → (j, t, x) ∈ grants net.
Proof.
  intros Hn Hx Hg. set (l := (λ k : Key, k.1.2) <$> filter (λ k, ofRound x t k = true) (counted net)).
  assert (∀ j, j ∈ l → (x, j, t) ∈ counted net) as Hl.
  { intros j ([[x' j'] t'] & -> & [Hr Hk]%list_elem_of_filter)%list_elem_of_fmap.
    unfold ofRound in Hr. simpl in Hr. apply andb_true_iff in Hr as [->%Nat.eqb_eq ->%Z.eqb_eq].
    done. }
  assert (∀ k, k ∈ counted net → k ∈ keys net) as Hck.
  { intros k Hk. unfold keys. rewrite !elem_of_app. by do 2 right. }
  assert (NoDup l) as Hnd.
  { apply NoDup_fmap_2_strong.
    - intros [[x1 j1] t1] [[x2 j2] t2] [H1 _]%list_elem_of_filter [H2 _]%list_elem_of_filter.
      unfold ofRound in *. simpl in *. intros ->.
      apply andb_true_iff in H1 as [->%Nat.eqb_eq ->%Z.eqb_eq].
      by apply andb_true_iff in H2 as [->%Nat.eqb_eq ->%Z.eqb_eq].
    - apply NoDup_filter. pose proof (ni_nodup net Hn) as H. unfold keys in H.
      apply NoDup_app in H as (_ & _ & H). by apply NoDup_app in H as (_ & _ & H). }
  exists ({[x]} ∪ list_to_set l). split_and!.
  - intros j [->%elem_of_singleton|Hj%elem_of_list_to_set]%elem_of_union; [done|].
    by destruct (ni_key net Hn x j t (Hck _ (Hl j Hj))).
  - rewrite size_union.
    + rewrite size_singleton, size_list_to_set by done. unfold l.
      rewrite length_fmap, count_if_length, Nat2Z.inj_add. reflexivity.
    + intros j ->%elem_of_singleton Hj%elem_of_list_to_set.
      by destruct (ni_key net Hn x x t (Hck _ (Hl x Hj))) as (_ & ? & _).
  - intros j [->%elem_of_singleton|Hj%elem_of_list_to_set]%elem_of_union; [done|].
    by apply (ni_counted net Hn), Hl.
Qed.

Lemma inv_complete net i alg now id ts rc (b : bool) :
  NetInv net → (i < nodes c)%nat → _voteRequester (node net i) = Some alg →
  _onVoteRequestComplete (VoteRequester._term alg) now id ts (node net i) = Some (rc, b) →
  NetInv (mkNet (<[i := rc]> (node net)) (scheduled net) (requests net) (answers net)
    (grants net) (counted net)
    (if b then (VoteRequester._term alg, i) :: wins net else wins net)).
Proof.
  intros Hn Hi Ealg H. unfold _onVoteRequestComplete in H. rewrite Ealg in H.
  cbn [mbind option_bind] in H. change (_topCoord (node net i)) with (topo net i) in H.
  assert (∀ rc', loseElection (node net i) = Some rc' → rc = rc' → b = false →
    NetInv (mkNet (<[i := rc]> (node net)) (scheduled net) (requests net) (answers net)
      (grants net) (counted net)
      (if b then (VoteRequester._term alg, i) :: wins net else wins net))) as Hlose.
  { intros rc' [Hcalm Hv]%lose_facts -> ->. by apply (inv_calm_end net i rc'). }
  destruct (ni_round net Hn i alg Hi Ealg) as [[Hr1 Hr2] Hv [Hg Hx] [Ht Hs]].
  destruct (Z.eqb_spec (_term (topo net i)) (VoteRequester._term alg)) as [Et|Et]; simpl in H.
  2: { destruct (loseElection (node net i)) as [rc'|] eqn:E; [|done]. injection H as <- <-.
       by apply (Hlose rc'). }
  destruct (negb (bool_decide (_ = VoteRequester.kPrimaryRespondedNo))); [|done].
  destruct (decide (VoteRequester.getResult alg = VoteRequester.kSuccessfullyElected)) as [Eres|Eres].
  2: { rewrite (bool_decide_false _ Eres) in H. simpl in H.
       destruct (loseElection (node net i)) as [rc'|] eqn:E; [|done]. injection H as <- <-.
       by apply (Hlose rc'). }
  clear Hlose. rewrite (bool_decide_true _ Eres) in H. simpl in H.
  destruct (negb _); [|done].
  destruct (processWinElection id ts _) as [s|] eqn:Ew; [|done].
  cbn [mbind option_bind] in H. injection H as <- <-.
  assert (_rsConfig s = _rsConfig (topo net i) ∧ _selfIndex s = _selfIndex (topo net i) ∧
    _term s = _term (topo net i) ∧ _lastVote s = _lastVote (topo net i)) as (Ec & Es & Etm & El).
  { unfold processWinElection, setElectionInfo in Ew. run Ew; try done;
      match goal with E : _setLeaderMode _ _ = _ |- _ =>
        apply quiet_setLeaderMode in E as (?&?&?&?&_) end; done. }
  assert (_majorityVoteCount c <= VoteRequester._votes alg) as Hmaj.
  { unfold VoteRequester.getResult in Eres. rewrite Hr2 in Eres.
    repeat case_match; try done. by apply Z.leb_le. }
  destruct (round_voters net i (VoteRequester._term alg) Hn Hx Hg) as (V & HV & HsV & HgV).
  set (rc' := set_voteRequester None (set_topCoord s (node net i))).
  set (net' := mkNet _ _ _ _ _ _ _).
  assert (∀ j, topo net' j = if decide (i = j) then s else topo net j) as Htopo
    by (intros j; apply (topo_set_node i rc' net j)).
  assert (∀ j, _rsConfig (topo net' j) = _rsConfig (topo net j) ∧
    _selfIndex (topo net' j) = _selfIndex (topo net j) ∧
    _term (topo net' j) = _term (topo net j) ∧ _lastVote (topo net' j) = _lastVote (topo net j)) as Hj.
  { intros j. rewrite Htopo. by destruct (decide (i = j)) as [<-|]. }
  destruct Hn. constructor; try done.
  - intros j. destruct (Hj j) as (-> & -> & -> & ->). apply ni_node0.
  - intros v t x. destruct (Hj v) as (_ & _ & _ & ->). apply ni_grant0.
  - intros x j t. destruct (Hj x) as (_ & _ & -> & _). apply ni_key0.
  - intros x lv. destruct (Hj x) as (_ & _ & -> & _). apply ni_scheduled0.
  - intros x a Hxn Ha. simpl in Ha. destruct (decide (i = x)) as [<-|Hne].
    + by rewrite fn_lookup_insert in Ha.
    + rewrite fn_lookup_insert_ne in Ha by done. destruct (ni_round0 x a Hxn Ha).
      destruct (Hj x) as (_ & _ & E & _). constructor; rewrite ?E; done.
  - intros t x [[= -> ->]|Hw]%elem_of_cons; [|by apply ni_win0].
    exists V. split_and!; [done|lia|done].
  - intros j Hjn. rewrite Htopo. destruct (decide (i = j)) as [<-|].
    + intros _. rewrite Etm, Et. left.
    + intros Hr. right. by apply ni_leader0.
Qed.
End Invariant.

(** ** Election safety *)

Section Safety.
Context (sp : ServerParams) (window : Z) (c : ReplSetConfig.t) (Hc : Installed c).

Lemma initial_net net : Initial c net → NetInv c net.
Proof.
  intros [Hn (Eq & Ea & Eg & Ec & Ew)]. constructor; unfold keys; rewrite ?Eq, ?Ea, ?Eg, ?Ec, ?Ew; simpl;
    try (intros; match goal with H : _ ∈ [] |- _ => by apply elem_of_nil in H end).
  - intros i Hi. destruct (Hn i Hi) as (? & ? & ? & ? & _). done.
  - constructor.
  - intros x lv Hx Hs. destruct (Hn x Hx) as (_ & _ & _ & _ & _ & Hs'). congruence.
  - intros x a Hx Ha. destruct (Hn x Hx) as (_ & _ & _ & _ & Ha' & _). congruence.
  - intros i Hi Hr. destruct (Hn i Hi) as (_ & _ & Hr' & _). done.
Qed.

Lemma step_inv net net' : NetInv c net → step false sp window c net net' → NetInv c net'.
Proof using Hc.
  intros Hn Hs. destruct Hs as [i cl s' Hi Hq E|i term now rc u w Hi E|i now rc Hi E
    |i now rc lv mc Hi Hr _ Hm He E|i written lv rc out Hi Hl E|q l1 l2 rc st Eq Hi [Ht|[[=] _]] E|q l1 l2 Eq
    |a l1 l2 Ea|a l1 l2 Ea Hi|i alg now id ts rc b Hi Ea E].
  - apply inv_calm; [done|done| |done]. apply quiet_calm. by eapply quiet_call.
  - apply calm_updateTerm_inlock in E as (Hcalm & Hv & _). by apply inv_calm.
  - apply calm_stepDownFinish in E as (Hcalm & Hv). by apply inv_calm.
  - by eapply inv_elect.
  - by eapply inv_write.
  - by eapply inv_vote.
  - by eapply inv_drop.
  - by eapply inv_lose.
  - by eapply inv_answer.
  - by eapply inv_complete.
Qed.

Lemma runs_inv net : Runs false sp window c net → NetInv c net.
Proof using Hc. induction 1; [by apply initial_net|by eapply step_inv]. Qed.
End Safety.

(** C33: election safety, in the runs in which a node handles a request for its vote only when
    its own term has reached the request's (no early votes: a node that is already stepping down when
    the request comes in votes before, and can vote twice, as
    [double_vote_while_stepping_down] shows).  In every state the network can reach so, whatever is lost or
    reordered: a node has granted at most one candidate its vote in a term; at most
    one node has won an election of a term, and a majority of the voters granted it
    their votes; and two nodes that are leaders in the same term are the same node. *)
Theorem election_safety (sp : ServerParams) (window : Z) (c : ReplSetConfig.t) (net : Net)
    (Hc : Installed c) (Hr : Runs false sp window c net) :
  (∀ v t x y, (v, t, x) ∈ grants net → (v, t, y) ∈ grants net → x = y) ∧
  (∀ t x, (t, x) ∈ wins net → ∃ V : gset nat, V ⊆ voters c ∧
     _majorityVoteCount c <= Z.of_nat (size V) ∧ ∀ v, v ∈ V → (v, t, x) ∈ grants net) ∧
  (∀ t x y, (t, x) ∈ wins net → (t, y) ∈ wins net → x = y) ∧
  (∀ i j, (i < nodes c)%nat → (j < nodes c)%nat →
     _role (topo net i) = kLeader → _role (topo net j) = kLeader →
     _term (topo net i) = _term (topo net j) → i = j).
Proof.
  pose proof (runs_inv sp window c Hc net Hr) as Hn.
  assert (∀ t x y, (t, x) ∈ wins net → (t, y) ∈ wins net → x = y) as Hw.
  { intros t x y Hx Hy. destruct (ni_win c net Hn t x Hx) as (V & HV & Hm & Hg).
    destruct (ni_win c net Hn t y Hy) as (V' & HV' & Hm' & Hg').
    destruct (vote_majorities_meet c V V') as (v & H1 & H2); try done.
    by eapply (ni_once c net Hn v t); [apply Hg|apply Hg']. }
  split_and!; [apply (ni_once c net Hn)|apply (ni_win c net Hn)|done|].
  intros i j Hi Hj Hli Hlj E. apply (Hw (_term (topo net i))).
  - by apply (ni_leader c net Hn).
  - rewrite E. by apply (ni_leader c net Hn).
Qed.

(** ** A run of three nodes: the first is elected with the second's vote *)

Definition voteCalls (i : nat) : list Call :=
  [CUpdateConfig voteConfig (Z.of_nat i); CSetFollowerMode MemberState.RS_SECONDARY;
   CSetApplied (sampleOp 0 5) 1 false;
   CHeartbeat 2 (if (i =? 0)%nat then 1 else 0) (sampleUp (sampleOp 0 5))].
Definition voteNode (i : nat) : t :=
  match execAll sampleParams 2 (voteCalls i) (initial ReplSetConfig.empty) with
  | Some s => s
  | None => initial ReplSetConfig.empty
  end.
Definition startNet : Net :=
  mkNet (λ i, mkRC (voteNode i) None None (mkLastVote 0 (-1)) false) (λ _, None) [] [] [] [] [].

Lemma startNet_initial : Initial voteConfig startNet.
Proof.
  constructor; [|done]. intros i Hi.
  assert (i = 0 ∨ i = 1 ∨ i = 2)%nat as [->|[->| ->]]
    by (change (nodes voteConfig) with 3%nat in Hi; lia);
    split_and!; vm_compute; try reflexivity; discriminate.
Qed.

Lemma voteConfig_installed : Installed voteConfig.
Proof. config_installed. Qed.

(** The states of the run, each from the one before. *)
Definition the {A} (o : option A) (d : A) : A := match o with Some x => x | None => d end.
Definition isSome {A} (o : option A) : bool := match o with Some _ => true | None => false end.

Lemma the_some {A} (o : option A) d : isSome o = true → o = Some (the o d).
Proof. by destruct o. Qed.

Definition noRC : RC := mkRC (initial ReplSetConfig.empty) None None (mkLastVote 0 (-1)) false.

(** The first node becomes a candidate. *)
Definition net1 : Net :=
  set_node 0 (set_topCoord (the (exec sampleParams 2 (CBecome 3 kElectionTimeout)
    (topo startNet 0)) (voteNode 0)) (node startNet 0)) startNet.

(** It starts the election of term 1, and the requests go out. *)
Definition elect1 : RC * LastVote :=
  the (_startRealElection_inlock (_term (topo net1 0) + 1) 4 (node net1 0)) (noRC, mkLastVote 0 0).
Definition net2 : Net :=
  mkNet (<[0%nat := elect1.1]> (node net1)) (<[0%nat := Some elect1.2]> (scheduled net1))
    (requests net1) (answers net1) ((0%nat, lvTerm elect1.2, 0%nat) :: grants net1) (counted net1)
    (wins net1).
Definition write2 : RC * list (HostAndPort.t * RequestVotesArgs) :=
  the (_writeLastVoteForMyElection true elect1.2 (node net2 0)) (noRC, []).
Definition net3 : Net :=
  mkNet (<[0%nat := write2.1]> (node net2)) (<[0%nat := None]> (scheduled net2))
    (((λ x, mkRequest 0 (resolve voteConfig x.1) x.2) <$> write2.2) ++ requests net2)
    (answers net2) (grants net2) (counted net2) (wins net2).

(** The second node learns of the term and grants its vote. *)
Definition term3 : RC * UpdateTermResult * bool :=
  the (_updateTerm_inlock 1 5 (node net3 1)) (noRC, kAlreadyUpToDate, false).
Definition net4 : Net := set_node 1 term3.1.1 net3.
Definition ask4 : Request :=
  match requests net4 with q :: _ => q | [] => mkRequest 0 0 behindArgs end.
Definition vote4 : RC * VoteStatus :=
  the (voteUnderLock (rqArgs ask4) (node net4 (rqTo ask4))) (noRC, NotAMember).
Definition net5 : Net :=
  mkNet (<[rqTo ask4 := storeGranted (rqArgs ask4) vote4.2 vote4.1]> (node net4)) (scheduled net4)
    ([] ++ drop 1 (requests net4))
    (mkAnswer (rqTo ask4) (rqFrom ask4) (argTerm (rqArgs ask4)) (answerOf vote4.2) :: answers net4)
    (if isGranted (rqArgs ask4) vote4.2
     then (rqTo ask4, argTerm (rqArgs ask4), Z.to_nat (argCandidateIndex (rqArgs ask4))) :: grants net4
     else grants net4)
    (counted net4) (wins net4).

(** The answer is counted, and the election is won. *)
Definition answer5 : Answer :=
  mkAnswer (rqTo ask4) (rqFrom ask4) (argTerm (rqArgs ask4)) (answerOf vote4.2).
Definition net6 : Net :=
  mkNet (<[anTo answer5 := takeAnswer voteConfig answer5 (node net5 (anTo answer5))]> (node net5))
    (scheduled net5) (requests net5) ([] ++ answers net4) (grants net5)
    (if isCounted answer5 (node net5 (anTo answer5))
     then (anTo answer5, anFrom answer5, anTerm answer5) :: counted net5 else counted net5)
    (wins net5).
Definition round6 : VoteRequester.Algorithm :=
  the (_voteRequester (node net6 0)) (VoteRequester.construct voteConfig 0 0 false OpTime.null (-1)).
Definition done6 : RC * bool :=
  the (_onVoteRequestComplete (VoteRequester._term round6) 6 1 (Timestamp.mk 6 1) (node net6 0))
    (noRC, false).
Definition net7 : Net :=
  mkNet (<[0%nat := done6.1]> (node net6)) (scheduled net6) (requests net6) (answers net6)
    (grants net6) (counted net6)
    (if done6.2 then (VoteRequester._term round6, 0%nat) :: wins net6 else wins net6).

Ltac computed := apply the_some; vm_compute; reflexivity.
Lemma pair_some {A B} (o : option (A * B)) d p :
  p = the o d → isSome o = true → o = Some (p.1, p.2).
Proof. intros ->. destruct o as [[a b]|]; [done|]. done. Qed.

Lemma election_run : Runs false sampleParams 2 voteConfig net7.
Proof.
  assert (0 < nodes voteConfig)%nat as N0 by (vm_compute; lia).
  assert (1 < nodes voteConfig)%nat as N1 by (vm_compute; lia).
  refine (run_step _ _ _ _ net6 _ (run_step _ _ _ _ net5 _ (run_step _ _ _ _ net4 _
    (run_step _ _ _ _ net3 _ (run_step _ _ _ _ net2 _ (run_step _ _ _ _ net1 _
    (run_step _ _ _ _ startNet _ (run_start _ _ _ _ _ startNet_initial) _) _) _) _) _) _) _).
  - apply (step_call _ _ _ _ _ 0 (CBecome 3 kElectionTimeout)); [exact N0|reflexivity|computed].
  - assert (∃ mc, _selfConfig (topo net1 0) = Some mc ∧ MemberConfig.isElectable mc = true)
      as (mc & Hm & He) by (eexists; split; vm_compute; reflexivity).
    apply (step_elect _ _ _ _ _ 0 4 elect1.1 elect1.2 mc N0); [vm_compute; reflexivity|reflexivity
      |exact Hm|exact He|].
    apply (pair_some _ (noRC, mkLastVote 0 0) elect1); [unfold elect1; reflexivity|vm_compute; reflexivity].
  - apply (step_write _ _ _ _ _ 0 true elect1.2 write2.1 write2.2 N0); [reflexivity|].
    apply (pair_some _ (noRC, []) write2); [unfold write2; reflexivity|vm_compute; reflexivity].
  - apply (step_term _ _ _ _ _ 1 1 5 term3.1.1 term3.1.2 term3.2 N1).
    assert (term3 = (term3.1.1, term3.1.2, term3.2)) as E by (by destruct term3 as [[? ?] ?]).
    rewrite <- E. computed.
  - apply (step_vote _ _ _ _ _ ask4 [] (drop 1 (requests net4)) vote4.1 vote4.2);
      [|vm_compute; lia|left; vm_compute; discriminate|].
    + assert (isSome (head (requests net4)) = true) as Hh by (vm_compute; reflexivity).
      unfold ask4. by destruct (requests net4).
    + apply (pair_some _ (noRC, NotAMember) vote4); [unfold vote4; reflexivity|vm_compute; reflexivity].
  - apply (step_answer _ _ _ _ _ answer5 [] (answers net4)); [reflexivity|vm_compute; lia].
  - apply (step_complete _ _ _ _ _ 0 round6 6 1 (Timestamp.mk 6 1) done6.1 done6.2 N0); [computed|].
    apply (pair_some _ (noRC, false) done6); [unfold done6; reflexivity|vm_compute; reflexivity].
Qed.

Lemma election_won : wins net7 = [(1, 0%nat)].
Proof. vm_compute. reflexivity. Qed.

Lemma election_safety_witness :
  Runs false sampleParams 2 voteConfig net7 ∧ (1, 0%nat) ∈ wins net7 ∧
    ∀ x, (1, x) ∈ wins net7 → x = 0%nat.
Proof.
  destruct (election_safety sampleParams 2 voteConfig net7 voteConfig_installed election_run)
    as (_ & _ & H & _).
  assert ((1, 0%nat) ∈ wins net7) as H0 by (rewrite election_won; left).
  split; [exact election_run|]. split; [exact H0|]. intros x Hx. exact (H 1 x 0%nat Hx H0).
Defined.

(** ** The window the steps above leave out *)

(** A leader of term 1 that has learnt of term 6 is stepping down; requests that
    come in before that is finished are not made to wait. *)
Definition steppingDown : RC :=
  match _updateTerm_inlock 6 10 (mkRC commitState None None (mkLastVote 1 0) false) with
  | Some (rc, _, _) => rc
  | None => noRC
  end.
Definition askFor (candidate term : Z) : RequestVotesArgs :=
  mkArgs "rs" term candidate (getConfigVersionAndTerm handoffConfig)
    (OpTimeAndWallTime.opTime (sampleOp 1 7)) false.
Definition voteOn (args : RequestVotesArgs) (rc : RC) : RC * bool :=
  match ReplicationCoordinator.processReplSetRequestVotes args 11 rc with
  | Some (rc', Some (VoteReply r)) => (rc', respVoteGranted r)
  | _ => (rc, false)
  end.

(** In that window its own term is still the old one, and only the very last vote is
    remembered: a request for term 7 between two for term 6 lets it vote twice in
    term 6, for different candidates. *)
Lemma double_vote_while_stepping_down :
  let '(rc1, yes1) := voteOn (askFor 1 6) steppingDown in
  let '(rc2, yes2) := voteOn (askFor 2 7) rc1 in
  let '(_, yes3) := voteOn (askFor 2 6) rc2 in
  (yes1, yes2, yes3) = (true, true, true).
Proof. vm_compute. reflexivity. Qed.
