(* ===== verification/Sdam.v ===== *)
(** The driver side of server discovery: src/mongo/client/sdam/{sdam_datatypes.h,
    sdam_configuration.cpp, server_description.cpp, topology_description.cpp,
    topology_state_machine.cpp, topology_manager.cpp}.  A reply is the fields the
    code reads of the document; its parsing, the events published to listeners and
    the log lines are left out.  A failed [invariant] is [None]. *)
From Stdlib Require Import SpecFloat.
From stdpp Require Import gmap strings.
From S2P Require Import Prelude OpTimes ReplSetConfig TopologyCoordinator.

Inductive TopologyType :=
  kSingle | kReplicaSetNoPrimary | kReplicaSetWithPrimary | kSharded | kTopologyUnknown.

Inductive ServerType :=
  kStandalone | kMongos | kRSPrimary | kRSSecondary | kRSArbiter | kRSOther | kRSGhost | kUnknown.

#[global] Instance TopologyType_eq_dec : EqDecision TopologyType.
Proof. solve_decision. Defined.
#[global] Instance ServerType_eq_dec : EqDecision ServerType.
Proof. solve_decision. Defined.

(** The microseconds of a round trip; [IsMasterRTT::max()]. *)
Definition rttMax : Z := 2 ^ 63 - 1.

(** A server's version of its own view: a process id and a counter. *)
Module TopologyVersion.
Record t := mk { processId : Z; counter : Z }.
#[global] Instance t_eq_dec : EqDecision t.
Proof. solve_decision. Defined.
End TopologyVersion.

(** A field of the reply that is only used as a string. *)
Inductive StringField := Absent | NotString | Str (s : string).

Definition hasField (f : StringField) : bool :=
  match f with Absent => false | _ => true end.
Definition getStringField (f : StringField) : string :=
  match f with Str s => s | _ => "" end.
Definition asString (f : StringField) : option string :=
  match f with Str s => Some s | _ => None end.

(** The fields read of an [isMaster] reply.  An object id is the number its twelve
    bytes spell, which orders it as [memcmp] does. *)
Module Reply.
Record t := mk {
  ok : Z;
  setName : StringField;
  msg : StringField;
  isreplicaset : bool;
  hidden : bool;
  ismaster : bool;
  secondary : bool;
  arbiterOnly : bool;
  minWireVersion : Z;
  maxWireVersion : Z;
  me : option HostAndPort.t;
  hosts : list HostAndPort.t;
  passives : list HostAndPort.t;
  arbiters : list HostAndPort.t;
  tags : gmap string string;
  electionId : option Z;
  setVersion : option Z;
  primary : option HostAndPort.t;
  lastWriteDate : option Z;
  opTime : option OpTime.t
}.
End Reply.

(** The outcome of one [isMaster] attempt. *)
Module IsMasterOutcome.
Record t := mk {
  getServer : HostAndPort.t;
  getResponse : Reply.t + string;
  getRtt : option Z;
  getTopologyVersion : option TopologyVersion.t
}.
End IsMasterOutcome.

(** ** Addresses *)

(** Insertion into a [std::set<HostAndPort>], as the sequence of its elements. *)
Fixpoint setInsert (h : HostAndPort.t) (l : list HostAndPort.t) : list HostAndPort.t :=
  match l with
  | [] => [h]
  | x :: l' =>
      if HostAndPort.lt x h then x :: setInsert h l'
      else if HostAndPort.lt h x then h :: l
      else l
  end.

Definition toSet (hs : list HostAndPort.t) : list HostAndPort.t :=
  fold_left (λ acc h, setInsert h acc) hs [].

Definition inSet (h : HostAndPort.t) (l : list HostAndPort.t) : bool :=
  existsb (HostAndPort.eqb h) l.

Fixpoint setEqb (a b : list HostAndPort.t) : bool :=
  match a, b with
  | [], [] => true
  | x :: a', y :: b' => HostAndPort.eqb x y && setEqb a' b'
  | _, _ => false
  end.

Definition optEqb (a b : option HostAndPort.t) : bool :=
  match a, b with
  | None, None => true
  | Some x, Some y => HostAndPort.eqb x y
  | _, _ => false
  end.

(** ** Server descriptions *)

Module ServerDescription.
Record t := mk {
  _address : HostAndPort.t;
  _topologyVersion : option TopologyVersion.t;
  _error : option string;
  _rtt : option Z;
  _lastWriteDate : option Z;
  _opTime : option OpTime.t;
  _type : ServerType;
  _minWireVersion : Z;
  _maxWireVersion : Z;
  _me : option HostAndPort.t;
  _hosts : list HostAndPort.t;
  _passives : list HostAndPort.t;
  _arbiters : list HostAndPort.t;
  _tags : gmap string string;
  _setName : option string;
  _setVersion : option Z;
  _electionId : option Z;
  _primary : option HostAndPort.t;
  _lastUpdateTime : option Z;
  _logicalSessionTimeoutMinutes : option Z
}.

(** The [int64_t] a [Date_t::min()] holds. *)
Definition dateMin : Z := - 2 ^ 63.

(** [ServerDescription(address)]: nothing is known of the server. *)
Definition ofAddress (a : HostAndPort.t) : t :=
  mk a None None None None None kUnknown 0 0 None [] [] [] ∅ None None None None (Some dateMin) None.

Definition set_type (ty : ServerType) (d : t) : t :=
  mk (_address d) (_topologyVersion d) (_error d) (_rtt d) (_lastWriteDate d) (_opTime d) ty
     (_minWireVersion d) (_maxWireVersion d) (_me d) (_hosts d) (_passives d) (_arbiters d)
     (_tags d) (_setName d) (_setVersion d) (_electionId d) (_primary d) (_lastUpdateTime d)
     (_logicalSessionTimeoutMinutes d).

Definition set_rtt (r : option Z) (d : t) : t :=
  mk (_address d) (_topologyVersion d) (_error d) r (_lastWriteDate d) (_opTime d) (_type d)
     (_minWireVersion d) (_maxWireVersion d) (_me d) (_hosts d) (_passives d) (_arbiters d)
     (_tags d) (_setName d) (_setVersion d) (_electionId d) (_primary d) (_lastUpdateTime d)
     (_logicalSessionTimeoutMinutes d).

(** [parseTypeFromIsMaster]. *)
Definition parseTypeFromIsMaster (r : Reply.t) : ServerType :=
  let hasSetName := hasField (Reply.setName r) in
  if negb (Reply.ok r =? 1) then kUnknown
  else if negb hasSetName && negb (hasField (Reply.msg r)) && negb (Reply.isreplicaset r)
  then kStandalone
  else if bool_decide (getStringField (Reply.msg r) = "isdbgrid") then kMongos
  else if hasSetName && Reply.hidden r then kRSOther
  else if hasSetName && Reply.ismaster r then kRSPrimary
  else if hasSetName && Reply.secondary r then kRSSecondary
  else if hasSetName && Reply.arbiterOnly r then kRSArbiter
  else if hasSetName then kRSOther
  else if Reply.isreplicaset r then kRSGhost
  else kUnknown.

(** [0.2], and [0.2 * current + (1 - 0.2) * last] in doubles, truncated. *)
Definition kRttAlpha : double := S754_finite false 7205759403792794 (-55).
Definition dmul (a b : double) : double := SFmul 53 1024 a b.
Definition dadd (a b : double) : double := SFadd 53 1024 a b.
Definition dsub (a b : double) : double := SFsub 53 1024 a b.
Definition averageRtt (current last : Z) : Z :=
  TopologyCoordinator.dtrunc
    (dadd (dmul kRttAlpha (TopologyCoordinator.dofZ current))
          (dmul (dsub (TopologyCoordinator.dofZ 1) kRttAlpha) (TopologyCoordinator.dofZ last))).

(** [calculateRtt]: the value [_rtt] is left with. *)
Definition calculateRtt (currentRtt lastRtt : option Z) (d : t) : t :=
  if bool_decide (_type d = kUnknown) then d else
  match currentRtt with
  | None =>
      match lastRtt with
      | None => set_rtt (Some rttMax) d
      | Some _ => set_rtt lastRtt d
      end
  | Some current =>
      match lastRtt with
      | None => set_rtt currentRtt d
      | Some last =>
          if last =? rttMax then set_rtt currentRtt d
          else set_rtt (Some (averageRtt current last)) d
      end
  end.

(** The constructor from an outcome; [now] is the clock's reading. *)
Definition ofOutcome (now : Z) (o : IsMasterOutcome.t) (lastRtt : option Z)
    (topologyVersion : option TopologyVersion.t) : t :=
  let d := ofAddress (IsMasterOutcome.getServer o) in
  match IsMasterOutcome.getResponse o with
  | inl r =>
      let d := calculateRtt (IsMasterOutcome.getRtt o) lastRtt
                 (set_type (parseTypeFromIsMaster r) d) in
      mk (_address d) topologyVersion None (_rtt d) (Reply.lastWriteDate r) (Reply.opTime r)
         (_type d) (Reply.minWireVersion r) (Reply.maxWireVersion r) (Reply.me r)
         (toSet (Reply.hosts r)) (toSet (Reply.passives r)) (toSet (Reply.arbiters r))
         (Reply.tags r) (asString (Reply.setName r)) (Reply.setVersion r) (Reply.electionId r)
         (Reply.primary r) (Some now) None
  | inr e =>
      mk (_address d) topologyVersion (Some e) None None None kUnknown 0 0 None [] [] [] ∅
         None None None None (Some dateMin) None
  end.

(** [cloneWithRTT]. *)
Definition cloneWithRTT (rtt : Z) (d : t) : t := calculateRtt (Some rtt) (_rtt d) d.

Definition isDataBearingServer (d : t) : bool :=
  match _type d with
  | kMongos | kRSPrimary | kRSSecondary | kStandalone => true
  | _ => false
  end.

(** [isEquivalent], which is [operator==]: neither the address nor the round trip
    time counts. *)
Definition isEquivalent (a b : t) : bool :=
  (match _topologyVersion a, _topologyVersion b with
   | Some x, Some y => (TopologyVersion.processId x =? TopologyVersion.processId y)
                       && (TopologyVersion.counter x =? TopologyVersion.counter y)
   | None, None => true
   | _, _ => false
   end)
  && bool_decide (_type a = _type b)
  && (_minWireVersion a =? _minWireVersion b)
  && (_maxWireVersion a =? _maxWireVersion b)
  && optEqb (_me a) (_me b)
  && setEqb (_hosts a) (_hosts b)
  && setEqb (_passives a) (_passives b)
  && setEqb (_arbiters a) (_arbiters b)
  && bool_decide (_tags a = _tags b)
  && bool_decide (_setName a = _setName b)
  && bool_decide (_setVersion a = _setVersion b)
  && bool_decide (_electionId a = _electionId b)
  && optEqb (_primary a) (_primary b)
  && bool_decide (_logicalSessionTimeoutMinutes a = _logicalSessionTimeoutMinutes b).
End ServerDescription.

(** ** Configuration *)

Module SdamConfiguration.
Record t := mk {
  getSeedList : option (list HostAndPort.t);
  getInitialType : TopologyType;
  getHeartBeatFrequency : Z;
  getSetName : option string
}.

Inductive Error :=
  InvalidSeedList | InvalidTopologyType | TopologySetNameRequired | InvalidHeartBeatFrequency.

(** The constructor's checks in their order.  The outer [None] is the dereference
    of a seed list that was not given. *)
Definition validate (c : t) : option (option Error) :=
  if negb (match getSeedList c with None => true | Some l => bool_decide (1 <= length l)%nat end)
  then Some (Some InvalidSeedList) else
  single ← (if negb (bool_decide (getInitialType c = kSingle)) then Some true
            else l ← getSeedList c; Some (bool_decide (length l = 1%nat)));
  if negb single then Some (Some InvalidSeedList)
  else if negb (bool_decide (getSetName c = None)
                || bool_decide (getInitialType c = kReplicaSetNoPrimary)
                || bool_decide (getInitialType c = kSingle))
  then Some (Some InvalidTopologyType)
  else if negb (negb (bool_decide (getInitialType c = kReplicaSetNoPrimary))
                || negb (bool_decide (getSetName c = None)))
  then Some (Some TopologySetNameRequired)
  else if negb (500 <=? getHeartBeatFrequency c) then Some (Some InvalidHeartBeatFrequency)
  else Some None.
End SdamConfiguration.

(** ** Topology descriptions *)

Module TopologyDescription.
Import ServerDescription.

(** Why a server's wire versions are refused. *)
Inductive WireError :=
  | RequiresAtLeast (server : HostAndPort.t) (minWireVersion : Z)
  | SupportsAtMost (server : HostAndPort.t) (maxWireVersion : Z).

Record t := mk {
  getType : TopologyType;
  getSetName : option string;
  getMaxSetVersion : option Z;
  getMaxElectionId : option Z;
  getServers : list ServerDescription.t;
  _compatibleError : option WireError;
  _logicalSessionTimeoutMinutes : option Z
}.

Definition set_type (ty : TopologyType) (s : t) : t :=
  mk ty (getSetName s) (getMaxSetVersion s) (getMaxElectionId s) (getServers s)
     (_compatibleError s) (_logicalSessionTimeoutMinutes s).
Definition set_setName (n : option string) (s : t) : t :=
  mk (getType s) n (getMaxSetVersion s) (getMaxElectionId s) (getServers s)
     (_compatibleError s) (_logicalSessionTimeoutMinutes s).
Definition set_maxSetVersion (v : option Z) (s : t) : t :=
  mk (getType s) (getSetName s) v (getMaxElectionId s) (getServers s)
     (_compatibleError s) (_logicalSessionTimeoutMinutes s).
Definition set_maxElectionId (e : option Z) (s : t) : t :=
  mk (getType s) (getSetName s) (getMaxSetVersion s) e (getServers s)
     (_compatibleError s) (_logicalSessionTimeoutMinutes s).
Definition set_servers (l : list ServerDescription.t) (s : t) : t :=
  mk (getType s) (getSetName s) (getMaxSetVersion s) (getMaxElectionId s) l
     (_compatibleError s) (_logicalSessionTimeoutMinutes s).
Definition set_derived (e : option WireError) (m : option Z) (s : t) : t :=
  mk (getType s) (getSetName s) (getMaxSetVersion s) (getMaxElectionId s) (getServers s) e m.

(** [TopologyDescription(config)]; without a seed list, the default server. *)
Definition defaultServer : HostAndPort.t := HostAndPort.mk "localhost" 27017.
Definition create (c : SdamConfiguration.t) : t :=
  mk (SdamConfiguration.getInitialType c) (SdamConfiguration.getSetName c) None None
     (ofAddress <$> option.default [defaultServer] (SdamConfiguration.getSeedList c)) None None.

Definition hasAddress (a : HostAndPort.t) (d : ServerDescription.t) : bool :=
  HostAndPort.eqb (_address d) a.
Definition isPrimary (d : ServerDescription.t) : bool := bool_decide (_type d = kRSPrimary).

(** [findServers] on a boolean predicate keeps the order. *)
Definition findServers (p : ServerDescription.t → bool) (s : t) : list ServerDescription.t :=
  List.filter p (getServers s).
Definition findServerByAddress (a : HostAndPort.t) (s : t) : option ServerDescription.t :=
  head (findServers (hasAddress a) s).
Definition containsServerAddress (a : HostAndPort.t) (s : t) : bool :=
  match findServerByAddress a s with Some _ => true | None => false end.

(** [getPrimary]; [None] is its failed invariant. *)
Definition getPrimary (s : t) : option (option ServerDescription.t) :=
  if negb (bool_decide (getType s = kReplicaSetWithPrimary)) then Some None else
  match findServers isPrimary s with
  | [d] => Some (Some d)
  | _ => None
  end.

Definition BATCH_COMMANDS : Z := 2.
Definition LATEST_WIRE_VERSION : Z := 9.

(** [checkWireCompatibilityVersions]: the first server that is not compatible. *)
Fixpoint checkWireCompatibilityVersions (l : list ServerDescription.t) : option WireError :=
  match l with
  | [] => None
  | d :: l' =>
      if bool_decide (_type d = kUnknown) then checkWireCompatibilityVersions l'
      else if LATEST_WIRE_VERSION <? _minWireVersion d
      then Some (RequiresAtLeast (_address d) (_minWireVersion d))
      else if _maxWireVersion d <? BATCH_COMMANDS
      then Some (SupportsAtMost (_address d) (_maxWireVersion d))
      else checkWireCompatibilityVersions l'
  end.

(** [calculateLogicalSessionTimeout]: the loop with its two flags. *)
Fixpoint sessionTimeoutLoop (l : list ServerDescription.t) (min : Z) (hasDataBearingServer : bool)
    : option Z :=
  match l with
  | [] => if hasDataBearingServer then Some min else None
  | d :: l' =>
      if negb (isDataBearingServer d) then sessionTimeoutLoop l' min hasDataBearingServer
      else
        match ServerDescription._logicalSessionTimeoutMinutes d with
        | None => None
        | Some m => sessionTimeoutLoop l' (Z.min m min) true
        end
  end.
Definition calculateLogicalSessionTimeout (l : list ServerDescription.t) : option (option Z) :=
  invariant (0 <? Z.of_nat (length l)) ;; Some (sessionTimeoutLoop l (2 ^ 31 - 1) false).

(** Replaces the first server with the address of the new one, or appends it. *)
Fixpoint replaceServer (d : ServerDescription.t) (l : list ServerDescription.t)
    : list ServerDescription.t :=
  match l with
  | [] => [d]
  | x :: l' => if HostAndPort.eqb (_address x) (_address d) then d :: l' else x :: replaceServer d l'
  end.

Definition installServerDescription (d : ServerDescription.t) (s : t) : option t :=
  servers ← (if bool_decide (getType s = kSingle)
             then invariant (bool_decide (length (getServers s) = 1%nat)) ;; Some [d]
             else Some (replaceServer d (getServers s)));
  timeout ← calculateLogicalSessionTimeout servers;
  Some (set_derived (checkWireCompatibilityVersions servers) timeout (set_servers servers s)).

(** Erases the first server with the address. *)
Fixpoint eraseServer (a : HostAndPort.t) (l : list ServerDescription.t)
    : list ServerDescription.t :=
  match l with
  | [] => []
  | x :: l' => if HostAndPort.eqb (_address x) a then l' else x :: eraseServer a l'
  end.
Definition removeServerDescription (a : HostAndPort.t) (s : t) : t :=
  set_servers (eraseServer a (getServers s)) s.
End TopologyDescription.

(** ** The state machine *)

Module TopologyStateMachine.
Import ServerDescription TopologyDescription.
Abbreviation Topology := TopologyDescription.t.
Abbreviation Server := ServerDescription.t.

Section StateMachine.
(** The configuration the machine was built with. *)
Variable _config : SdamConfiguration.t.

Definition modifyTopologyType (ty : TopologyType) (s : Topology) : Topology :=
  TopologyDescription.set_type ty s.

Definition checkIfHasPrimary (s : Topology) : Topology :=
  modifyTopologyType
    (if (0 <? Z.of_nat (length (findServers isPrimary s))) then kReplicaSetWithPrimary
     else kReplicaSetNoPrimary) s.

Definition removeAndStopMonitoring (s : Topology) (d : Server) : option Topology :=
  Some (removeServerDescription (_address d) s).
Definition removeAndCheckIfHasPrimary (s : Topology) (d : Server) : option Topology :=
  Some (checkIfHasPrimary (removeServerDescription (_address d) s)).

(** Installs an empty description of every address of a list that is not known yet. *)
Fixpoint addUnknowns (hs : list HostAndPort.t) (s : Topology) : option Topology :=
  match hs with
  | [] => Some s
  | h :: hs' =>
      if containsServerAddress h s then addUnknowns hs' s
      else s' ← installServerDescription (ofAddress h) s; addUnknowns hs' s'
  end.
Definition addUnknownServers (s : Topology) (d : Server) : option Topology :=
  s ← addUnknowns (_hosts d) s;
  s ← addUnknowns (_passives d) s;
  addUnknowns (_arbiters d) s.

(** [me] is given and names another address. *)
Definition meDiffers (d : Server) : bool :=
  match _me d with None => false | Some m => negb (HostAndPort.eqb (_address d) m) end.

Definition updateUnknownWithStandalone (s : Topology) (d : Server) : option Topology :=
  if negb (containsServerAddress (_address d) s) then Some s
  else if bool_decide (length <$> SdamConfiguration.getSeedList _config = Some 1%nat)
  then Some (modifyTopologyType kSingle s)
  else Some (removeServerDescription (_address d) s).

Definition updateRSWithoutPrimary (s : Topology) (d : Server) : option Topology :=
  if negb (containsServerAddress (_address d) s) then Some s else
  let goOn s :=
    s ← addUnknownServers s d;
    Some (if meDiffers d then removeServerDescription (_address d) s else s) in
  match getSetName s with
  | None => goOn (set_setName (_setName d) s)
  | Some n =>
      if negb (bool_decide (Some n = _setName d))
      then Some (removeServerDescription (_address d) s)
      else goOn s
  end.

Definition updateRSWithPrimaryFromMember (s : Topology) (d : Server) : option Topology :=
  if negb (containsServerAddress (_address d) s) then Some s else
  invariant (negb (bool_decide (_setName d = None))) ;;
  if negb (bool_decide (getSetName s = _setName d)) then removeAndCheckIfHasPrimary s d
  else if meDiffers d then removeAndCheckIfHasPrimary s d
  else if bool_decide (length (findServers isPrimary s) = 0%nat)
  then Some (modifyTopologyType kReplicaSetNoPrimary s)
  else Some s.

(** The reply's set version and election id are older than the largest seen. *)
Definition isStalePrimary (maxSetVersion maxElectionId : option Z) (setVersion electionId : Z)
    : bool :=
  match maxSetVersion, maxElectionId with
  | Some v, Some e => (setVersion <? v) || ((v =? setVersion) && (electionId <? e))
  | _, _ => false
  end.

(** The servers that were primary under another address become unknown. *)
Fixpoint forgetPrimaries (l : list Server) (s : Topology) : option Topology :=
  match l with
  | [] => Some s
  | x :: l' => s' ← installServerDescription (ofAddress (_address x)) s; forgetPrimaries l' s'
  end.

(** The known addresses that the primary does not list. *)
Definition notListed (d : Server) (s : Topology) : list HostAndPort.t :=
  List.filter (λ a, negb (inSet a (_hosts d)) && negb (inSet a (_passives d))
                    && negb (inSet a (_arbiters d)))
    (_address <$> getServers s).

(** What is left of [updateRSFromPrimary] once the versions were recorded. *)
Definition adoptPrimary (s : Topology) (d : Server) : option Topology :=
  let oldPrimaries :=
    findServers (λ x, negb (HostAndPort.eqb (_address x) (_address d)) && isPrimary x) s in
  invariant (Z.of_nat (length oldPrimaries) <=? 1) ;;
  s ← forgetPrimaries oldPrimaries s;
  s ← addUnknownServers s d;
  Some (checkIfHasPrimary (foldl (λ s a, removeServerDescription a s) s (notListed d s))).

Definition recordSetVersion (maxSetVersion : option Z) (d : Server) (s : Topology) : Topology :=
  match _setVersion d with
  | Some v =>
      if match maxSetVersion with None => true | Some m => m <? v end
      then set_maxSetVersion (Some v) s else s
  | None => s
  end.

(** [updateRSFromPrimary] once the set's name was found to be right. *)
Definition takePrimary (s : Topology) (d : Server) : option Topology :=
  let maxSetVersion := getMaxSetVersion s in
  match _setVersion d, _electionId d with
  | Some v, Some e =>
      if isStalePrimary maxSetVersion (getMaxElectionId s) v e then
        s ← installServerDescription (ofAddress (_address d)) s;
        Some (checkIfHasPrimary s)
      else adoptPrimary (recordSetVersion maxSetVersion d (set_maxElectionId (Some e) s)) d
  | _, _ => adoptPrimary (recordSetVersion maxSetVersion d s) d
  end.

Definition updateRSFromPrimary (s : Topology) (d : Server) : option Topology :=
  if negb (containsServerAddress (_address d) s) then Some s else
  let nameUnset := bool_decide (getSetName s = None) && negb (bool_decide (_setName d = None)) in
  if nameUnset then takePrimary (set_setName (_setName d) s) d
  else if negb (bool_decide (getSetName s = _setName d)) then removeAndCheckIfHasPrimary s d
  else takePrimary s d.

(** [_stt]: the action of a topology type on a server type. *)
Definition transition (ty : TopologyType) (st : ServerType) (s : Topology) (d : Server)
    : option Topology :=
  match ty, st with
  | kTopologyUnknown, kStandalone => updateUnknownWithStandalone s d
  | kTopologyUnknown, kMongos => Some (modifyTopologyType kSharded s)
  | kTopologyUnknown, kRSPrimary =>
      updateRSFromPrimary (modifyTopologyType kReplicaSetWithPrimary s) d
  | kTopologyUnknown, (kRSSecondary | kRSArbiter | kRSOther) =>
      updateRSWithoutPrimary (modifyTopologyType kReplicaSetNoPrimary s) d
  | kSharded, (kStandalone | kRSPrimary | kRSSecondary | kRSArbiter | kRSOther | kRSGhost) =>
      removeAndStopMonitoring s d
  | kReplicaSetNoPrimary, (kStandalone | kMongos) => removeAndStopMonitoring s d
  | kReplicaSetNoPrimary, kRSPrimary =>
      updateRSFromPrimary (modifyTopologyType kReplicaSetWithPrimary s) d
  | kReplicaSetNoPrimary, (kRSSecondary | kRSArbiter | kRSOther) => updateRSWithoutPrimary s d
  | kReplicaSetWithPrimary, (kUnknown | kRSGhost) => Some (checkIfHasPrimary s)
  | kReplicaSetWithPrimary, kMongos => removeAndCheckIfHasPrimary s d
  | kReplicaSetWithPrimary, kRSPrimary => updateRSFromPrimary s d
  | kReplicaSetWithPrimary, (kRSSecondary | kRSArbiter | kRSOther) =>
      updateRSWithPrimaryFromMember s d
  | _, _ => Some s
  end.

(** What is installed for a reply: a standalone server only counts as itself when
    the topology is one server. *)
Definition toInstall (s : Topology) (d : Server) : Server :=
  if negb (bool_decide (getType s = kSingle)) && bool_decide (_type d = kStandalone)
  then ServerDescription.set_type kUnknown d else d.

Definition onServerDescription (s : Topology) (d : Server) : option Topology :=
  if negb (containsServerAddress (_address d) s) then Some s else
  let d := toInstall s d in
  s ← installServerDescription d s;
  if negb (bool_decide (getType s = kSingle))
  then transition (getType s) (_type d) s d
  else Some s.
End StateMachine.
End TopologyStateMachine.

(** ** The manager: what happens under its mutex *)

Module TopologyManager.
Import ServerDescription TopologyDescription.

Definition isStaleTopologyVersion (lastTopologyVersion newTopologyVersion : option TopologyVersion.t)
    : bool :=
  match lastTopologyVersion, newTopologyVersion with
  | Some l, Some n => (TopologyVersion.processId l =? TopologyVersion.processId n)
                      && (TopologyVersion.counter n <? TopologyVersion.counter l)
  | _, _ => false
  end.

(** The new topology, and whether the outcome was taken. *)
Definition onServerDescription (c : SdamConfiguration.t) (now : Z) (o : IsMasterOutcome.t)
    (s : TopologyDescription.t) : option (TopologyDescription.t * bool) :=
  let last := findServerByAddress (IsMasterOutcome.getServer o) s in
  let newTopologyVersion := IsMasterOutcome.getTopologyVersion o in
  if isStaleTopologyVersion (last ≫= _topologyVersion) newTopologyVersion then Some (s, false) else
  let d := ofOutcome now o (last ≫= _rtt) newTopologyVersion in
  s' ← (if match last with Some l => isEquivalent l d | None => false end
        then installServerDescription d s
        else TopologyStateMachine.onServerDescription c s d);
  Some (s', true).

Definition onServerRTTUpdated (a : HostAndPort.t) (rtt : Z) (s : TopologyDescription.t)
    : option TopologyDescription.t :=
  match findServerByAddress a s with
  | Some d => installServerDescription (cloneWithRTT rtt d) s
  | None => Some s
  end.
End TopologyManager.
