(* ===== verification/SdamProps.v ===== *)
(** Facts about the driver's view of a cluster: what the topology's operations do to
    its servers, the typing of topologies, and the properties of the manager. *)
From Stdlib Require Import SpecFloat.
From stdpp Require Import gmap strings.
From S2P Require Import Prelude OpTimes ReplSetConfig TopologyCoordinator Sdam.
Import ServerDescription TopologyDescription.

(** ** Servers as a collection keyed by address *)

Definition skey (d : ServerDescription.t) : string * Z := HostAndPort.key (_address d).
Definition keys (s : TopologyDescription.t) : list (string * Z) := skey <$> getServers s.

(** What installing, removing and the derived fields leave alone. *)
Definition header (s : TopologyDescription.t) : TopologyType * option string * option Z * option Z :=
  (getType s, getSetName s, getMaxSetVersion s, getMaxElectionId s).

Lemma eqb_false_key a b : HostAndPort.eqb a b = false ↔ HostAndPort.key a ≠ HostAndPort.key b.
Proof. rewrite <- HostAndPort.eqb_key. by destruct (HostAndPort.eqb a b). Qed.

(** Case analysis on an address comparison, as one on keys. *)
Ltac case_address :=
  match goal with
  | |- context [HostAndPort.eqb ?a ?b] =>
      let E := fresh "E" in
      destruct (HostAndPort.eqb a b) eqn:E;
      [apply HostAndPort.eqb_key in E|apply eqb_false_key in E]
  end.

Section Servers.
Implicit Types (d x y : ServerDescription.t) (l : list ServerDescription.t) (a : HostAndPort.t).

Lemma replaceServer_keys d l :
  skey <$> replaceServer d l
  = if decide (skey d ∈ skey <$> l) then skey <$> l else (skey <$> l) ++ [skey d].
Proof.
  induction l as [|y l IH]; cbn [replaceServer]; rewrite ?fmap_cons, ?fmap_nil.
  { rewrite decide_False by apply not_elem_of_nil. done. }
  case_address; fold (skey y) in E; fold (skey d) in E; rewrite ?fmap_cons.
  - rewrite decide_True by (rewrite E; apply list_elem_of_here). by rewrite E.
  - rewrite IH. destruct (decide (skey d ∈ skey <$> l)) as [Hd|Hd].
    + by rewrite decide_True by (apply list_elem_of_further; done).
    + rewrite decide_False; [done|]. rewrite elem_of_cons. intros [?|?]; congruence.
Qed.

Lemma replaceServer_nodup d l : NoDup (skey <$> l) → NoDup (skey <$> replaceServer d l).
Proof.
  intros H. rewrite replaceServer_keys. case_decide; [done|].
  apply NoDup_app. split; [done|]. split; [|apply NoDup_singleton]. intros k Hk ->%list_elem_of_singleton. done.
Qed.

Lemma elem_of_replaceServer d l x :
  NoDup (skey <$> l) → x ∈ replaceServer d l ↔ x = d ∨ (x ∈ l ∧ skey x ≠ skey d).
Proof.
  induction l as [|y l IH]; csimpl; [set_solver|]. intros [Hy Hl]%NoDup_cons.
  case_address; fold (skey y) in E; fold (skey d) in E.
  - rewrite !elem_of_cons. split.
    + intros [->|Hx]; [by left|]. right. split; [by right|].
      intros Ex. apply Hy. rewrite E, <- Ex. by apply list_elem_of_fmap_2.
    + intros [->|[[->|Hx] Hn]]; [by left|done|by right].
  - rewrite !elem_of_cons, (IH Hl). split.
    + intros [->|[->|[? ?]]]; [right; split; [by left|done]|by left|right; split; [by right|done]].
    + intros [->|[[->|?] ?]]; [right; by left|by left|right; by right].
Qed.

Lemma eraseServer_keys a l x :
  NoDup (skey <$> l) → x ∈ eraseServer a l ↔ x ∈ l ∧ skey x ≠ HostAndPort.key a.
Proof.
  induction l as [|y l IH]; csimpl; [set_solver|]. intros [Hy Hl]%NoDup_cons.
  case_address; fold (skey y) in E.
  - rewrite elem_of_cons. split.
    + intros Hx. split; [by right|]. intros Ex. apply Hy. rewrite E, <- Ex.
      by apply list_elem_of_fmap_2.
    + intros [[->|Hx] Hn]; done.
  - rewrite !elem_of_cons, (IH Hl). split.
    + intros [->|[? ?]]; [split; [by left|done]|split; [by right|done]].
    + intros [[->|?] ?]; [by left|by right].
Qed.

Lemma eraseServer_sublist a l : eraseServer a l `sublist_of` l.
Proof.
  induction l as [|y l IH]; simpl; [done|].
  destruct (HostAndPort.eqb _ _); [apply sublist_cons, reflexivity|by apply sublist_skip].
Qed.

Lemma eraseServer_nodup a l : NoDup (skey <$> l) → NoDup (skey <$> eraseServer a l).
Proof. intros H. eapply sublist_NoDup; [exact H|]. apply (fmap_sublist skey), eraseServer_sublist. Qed.

(** Two servers of a topology with one address are one. *)
Lemma same_server l x y : NoDup (skey <$> l) → x ∈ l → y ∈ l → skey x = skey y → x = y.
Proof.
  intros H [i Hi]%list_elem_of_lookup [j Hj]%list_elem_of_lookup E.
  assert (i = j) as <-; [|congruence].
  eapply (NoDup_lookup _ i j (skey x) H); by rewrite list_lookup_fmap, ?Hi, ?Hj; simpl; rewrite ?E.
Qed.

Lemma elem_of_filter_bool (p : ServerDescription.t → bool) l x :
  x ∈ List.filter p l ↔ p x = true ∧ x ∈ l.
Proof.
  induction l as [|y l IH]; simpl; [set_solver|].
  destruct (p y) eqn:E; rewrite ?elem_of_cons, IH; naive_solver congruence.
Qed.

Lemma findServers_elem (p : ServerDescription.t → bool) s x :
  x ∈ findServers p s ↔ p x = true ∧ x ∈ getServers s.
Proof. apply elem_of_filter_bool. Qed.

(** Looking an address up finds the server that has it. *)
Lemma find_some a s d :
  NoDup (keys s) →
  findServerByAddress a s = Some d ↔ d ∈ getServers s ∧ skey d = HostAndPort.key a.
Proof.
  intros Hn. unfold findServerByAddress. split.
  - intros H%head_Some_elem_of. apply findServers_elem in H as [H ?].
    by apply HostAndPort.eqb_key in H.
  - intros [Hd E]. destruct (findServers (hasAddress a) s) as [|x r] eqn:F.
    + exfalso. apply (not_elem_of_nil (A := ServerDescription.t) d). rewrite <- F.
      apply findServers_elem. split; [by apply HostAndPort.eqb_key|done].
    + simpl. f_equal. assert (x ∈ findServers (hasAddress a) s) as Hx by (rewrite F; left).
      apply findServers_elem in Hx as [Hx ?]. apply HostAndPort.eqb_key in Hx.
      eapply same_server; [done..|]. by rewrite E.
Qed.

Lemma contains_spec a s :
  containsServerAddress a s = true ↔ HostAndPort.key a ∈ keys s.
Proof.
  unfold containsServerAddress, findServerByAddress. split.
  - destruct (head _) as [d|] eqn:E; [|done]. intros _.
    apply head_Some_elem_of, findServers_elem in E as [E Hd]. apply HostAndPort.eqb_key in E.
    rewrite <- E. by apply (list_elem_of_fmap_2 skey).
  - intros (d & E & Hd)%list_elem_of_fmap.
    assert (d ∈ findServers (hasAddress a) s) as F.
    { apply findServers_elem. split; [|done]. by apply HostAndPort.eqb_key. }
    destruct (findServers (hasAddress a) s); [by apply not_elem_of_nil in F|done].
Qed.

(** Installing never fails an invariant unless the topology is one server. *)
Lemma install_ok d s :
  getType s ≠ kSingle →
  ∃ s', installServerDescription d s = Some s'
        ∧ getServers s' = replaceServer d (getServers s) ∧ header s' = header s.
Proof.
  intros H. unfold installServerDescription. rewrite bool_decide_false by done.
  cbn [mbind option_bind]. unfold calculateLogicalSessionTimeout.
  assert ((0 <? Z.of_nat (length (replaceServer d (getServers s)))) = true) as ->.
  { apply Z.ltb_lt. rewrite <- (length_fmap skey). destruct (getServers s); simpl; [lia|].
    destruct (HostAndPort.eqb _ _); simpl; lia. }
  by eexists.
Qed.

Lemma install_single d s s' :
  getType s = kSingle → installServerDescription d s = Some s' →
  getServers s' = [d] ∧ header s' = header s ∧ length (getServers s) = 1%nat.
Proof.
  intros H. unfold installServerDescription. rewrite bool_decide_true by done.
  destruct (bool_decide (length _ = _)) eqn:E; [|done]. cbn. intros [= <-].
  by apply bool_decide_eq_true in E.
Qed.
End Servers.

(** The topology after an operation, from its header and its servers. *)
Ltac installed d s Ht s1 :=
  let H := fresh "Hinst" in let Hs := fresh "Hservers" in let Hh := fresh "Hheader" in
  destruct (install_ok d s Ht) as (s1 & H & Hs & Hh).

(** ** What an update keeps of the servers *)

(** The header is the same, and each server was there before or is an address of
    which nothing is known. *)
Record Derived (s s' : TopologyDescription.t) : Prop := {
  der_header : header s' = header s;
  der_nodup : NoDup (keys s) → NoDup (keys s');
  der_servers : NoDup (keys s) →
    ∀ x, x ∈ getServers s' → x ∈ getServers s ∨ x = ofAddress (_address x)
}.

#[global] Instance Derived_preorder : PreOrder Derived.
Proof.
  split; [by split; auto|]. intros s1 s2 s3 H12 H23. split.
  - by rewrite (der_header _ _ H23), (der_header _ _ H12).
  - intros H. by apply (der_nodup _ _ H23), (der_nodup _ _ H12).
  - intros H x Hx. apply (der_servers _ _ H23) in Hx as [Hx| ->]; [|by right|by apply (der_nodup _ _ H12)].
    by apply (der_servers _ _ H12).
Qed.

Lemma header_type s s' : header s' = header s → getType s' = getType s.
Proof. by intros [= ->]. Qed.

Lemma derived_type s s' : Derived s s' → getType s' = getType s.
Proof. intros H. by apply header_type, der_header. Qed.

Lemma derived_install a s :
  getType s ≠ kSingle →
  ∃ s', installServerDescription (ofAddress a) s = Some s' ∧ Derived s s'
        ∧ (∀ k, k ∈ keys s' ↔ k ∈ keys s ∨ k = HostAndPort.key a).
Proof.
  intros Ht. installed (ofAddress a) s Ht s1. exists s1. split; [done|]. unfold keys. rewrite Hservers.
  split; [split|].
  - done.
  - intros H. unfold keys. rewrite Hservers. by apply replaceServer_nodup.
  - intros H x. rewrite Hservers, elem_of_replaceServer by done. intros [->|[? _]]; auto.
  - intros k. rewrite replaceServer_keys. case_decide as Hk; unfold skey in Hk at 1; simpl in Hk.
    + split; [by left|]. by intros [?| ->].
    + by rewrite elem_of_app, list_elem_of_singleton.
Qed.

Lemma derived_remove a s :
  Derived s (removeServerDescription a s)
  ∧ (NoDup (keys s) → ∀ x, x ∈ getServers (removeServerDescription a s) ↔
       x ∈ getServers s ∧ skey x ≠ HostAndPort.key a).
Proof.
  split; [split|].
  - done.
  - apply eraseServer_nodup.
  - intros H x Hx. apply eraseServer_keys in Hx as [? _]; auto.
  - intros H x. by apply eraseServer_keys.
Qed.

Lemma derived_foldl_remove l s :
  let s' := foldl (λ s a, removeServerDescription a s) s l in
  Derived s s' ∧ (NoDup (keys s) → ∀ x, x ∈ getServers s' ↔
    x ∈ getServers s ∧ skey x ∉ HostAndPort.key <$> l).
Proof.
  revert s. induction l as [|a l IH]; intros s; csimpl; [split; [reflexivity|set_solver]|].
  destruct (derived_remove a s) as [Hd He]. destruct (IH (removeServerDescription a s)) as [Hd' He'].
  split; [by etransitivity|]. intros Hn x. rewrite He' by by apply Hd. rewrite He by done.
  rewrite not_elem_of_cons. tauto.
Qed.

Lemma derived_addUnknowns hs s :
  getType s ≠ kSingle →
  ∃ s', TopologyStateMachine.addUnknowns hs s = Some s' ∧ Derived s s'
        ∧ (∀ k, k ∈ keys s' ↔ k ∈ keys s ∨ k ∈ HostAndPort.key <$> hs).
Proof.
  revert s. induction hs as [|h hs IH]; intros s Ht; simpl.
  { exists s. split; [done|]. split; [reflexivity|set_solver]. }
  destruct (containsServerAddress h s) eqn:E.
  - destruct (IH s Ht) as (s' & -> & Hd & Hk). exists s'. split; [done|]. split; [done|].
    intros k. rewrite Hk, elem_of_cons. apply contains_spec in E. naive_solver.
  - destruct (derived_install h s Ht) as (s1 & -> & Hd1 & Hk1). cbn [mbind option_bind].
    destruct (IH s1) as (s' & -> & Hd & Hk); [by rewrite (derived_type _ _ Hd1)|].
    exists s'. split; [done|]. split; [by etransitivity|].
    intros k. rewrite Hk, Hk1, elem_of_cons. tauto.
Qed.

(** The keys of the addresses a server lists. *)
Definition listed (d : ServerDescription.t) : list (string * Z) :=
  HostAndPort.key <$> (_hosts d ++ _passives d ++ _arbiters d).

Lemma derived_addUnknownServers d s :
  getType s ≠ kSingle →
  ∃ s', TopologyStateMachine.addUnknownServers s d = Some s' ∧ Derived s s'
        ∧ (∀ k, k ∈ keys s' ↔ k ∈ keys s ∨ k ∈ listed d).
Proof.
  intros Ht. unfold TopologyStateMachine.addUnknownServers.
  destruct (derived_addUnknowns (_hosts d) s Ht) as (s1 & -> & H1 & K1). cbn [mbind option_bind].
  destruct (derived_addUnknowns (_passives d) s1) as (s2 & -> & H2 & K2);
    [by rewrite (derived_type _ _ H1)|]. cbn [mbind option_bind].
  destruct (derived_addUnknowns (_arbiters d) s2) as (s3 & -> & H3 & K3);
    [by rewrite (derived_type _ _ H2), (derived_type _ _ H1)|].
  exists s3. split; [done|]. split; [by do 2 (etransitivity; [eassumption|])|].
  intros k. rewrite K3, K2, K1. unfold listed. rewrite !fmap_app, !elem_of_app. tauto.
Qed.

Lemma derived_forget l s :
  getType s ≠ kSingle →
  ∃ s', TopologyStateMachine.forgetPrimaries l s = Some s' ∧ Derived s s'
        ∧ (NoDup (keys s) → ∀ x, x ∈ getServers s' → skey x ∈ skey <$> l → x = ofAddress (_address x))
        ∧ (∀ k, k ∈ keys s' ↔ k ∈ keys s ∨ k ∈ skey <$> l).
Proof.
  revert s. induction l as [|y l IH]; intros s Ht; simpl.
  { exists s. split; [done|]. split; [reflexivity|]. split; set_solver. }
  destruct (derived_install (_address y) s Ht) as (s1 & E1 & H1 & K1). rewrite E1.
  cbn [mbind option_bind].
  destruct (IH s1) as (s' & -> & H & F & K); [by rewrite (derived_type _ _ H1)|].
  exists s'. split; [done|]. split; [by etransitivity|]. split.
  - intros Hn x Hx. csimpl. rewrite elem_of_cons. intros [Ek|Hk].
    + destruct (der_servers _ _ H (der_nodup _ _ H1 Hn) x Hx) as [Hx1|?]; [|done].
      installed (ofAddress (_address y)) s Ht s1'. rewrite Hinst in E1. injection E1 as ->.
      rewrite Hservers, elem_of_replaceServer in Hx1 by done. destruct Hx1 as [->|[_ Hne]]; [done|destruct (Hne Ek)].
    + by apply F; [apply (der_nodup _ _ H1)| |].
  - intros k. rewrite K, K1. csimpl. rewrite elem_of_cons. unfold skey at 2. tauto.
Qed.

(** ** The typing of a topology *)

(** The server types a topology of a type may hold. *)
Definition allowed (ty : TopologyType) (st : ServerType) : bool :=
  match ty, st with
  | kSingle, _ => true
  | _, (kUnknown | kRSGhost) => true
  | kSharded, kMongos => true
  | (kReplicaSetNoPrimary | kReplicaSetWithPrimary), (kRSSecondary | kRSArbiter | kRSOther) => true
  | kReplicaSetWithPrimary, kRSPrimary => true
  | _, _ => false
  end.

Record WellTyped (s : TopologyDescription.t) : Prop := {
  wt_nodup : NoDup (keys s);
  wt_kinds : ∀ x, x ∈ getServers s → allowed (getType s) (_type x) = true;
  wt_primary : getType s = kReplicaSetWithPrimary →
    ∃ x, x ∈ getServers s ∧ isPrimary x = true
         ∧ ∀ y, y ∈ getServers s → isPrimary y = true → y = x;
  wt_single : getType s = kSingle → length (getServers s) = 1%nat
}.

(** The servers are those of a replica set, and at most one is primary among those
    with another address than [d]. *)
Record Loose (d : ServerDescription.t) (s : TopologyDescription.t) : Prop := {
  lo_type : getType s ≠ kSingle;
  lo_nodup : NoDup (keys s);
  lo_kinds : ∀ x, x ∈ getServers s → allowed kReplicaSetWithPrimary (_type x) = true;
  lo_primary : ∀ x y, x ∈ getServers s → y ∈ getServers s → skey x ≠ skey d → skey y ≠ skey d →
    isPrimary x = true → isPrimary y = true → x = y
}.

Lemma ofAddress_unknown a : _type (ofAddress a) = kUnknown.
Proof. done. Qed.

Lemma unknown_allowed ty : allowed ty kUnknown = true.
Proof. by destruct ty. Qed.

Lemma ofAddress_not_primary a : isPrimary (ofAddress a) = false.
Proof. done. Qed.

Section Typing.
Implicit Types (s : TopologyDescription.t) (d x y : ServerDescription.t).

(** A server of a derived topology that is primary was one before. *)
Lemma derived_primary s s' x :
  Derived s s' → NoDup (keys s) → x ∈ getServers s' → isPrimary x = true → x ∈ getServers s.
Proof. intros H Hn Hx Hp. apply (der_servers _ _ H Hn) in Hx as [?|E]; [done|by rewrite E in Hp]. Qed.

Lemma derived_kinds ty s s' :
  Derived s s' → NoDup (keys s) →
  (∀ x, x ∈ getServers s → allowed ty (_type x) = true) →
  ∀ x, x ∈ getServers s' → allowed ty (_type x) = true.
Proof.
  intros H Hn Hk x Hx. apply (der_servers _ _ H Hn) in Hx as [?| ->]; [auto|apply unknown_allowed].
Qed.

Lemma loose_derived d s s' : Loose d s → Derived s s' → Loose d s'.
Proof.
  intros [Ht Hn Hk Hp] H. split.
  - by rewrite (derived_type _ _ H).
  - by apply (der_nodup _ _ H).
  - by apply (derived_kinds _ s).
  - intros x y Hx Hy Nx Ny Px Py. eapply Hp; eauto using derived_primary.
Qed.

(** With no primary at [d]'s address, or only one there. *)
Lemma checkIfHasPrimary_wt d s :
  Loose d s →
  (∀ x y, x ∈ getServers s → y ∈ getServers s → isPrimary x = true → isPrimary y = true → x = y) →
  WellTyped (TopologyStateMachine.checkIfHasPrimary s).
Proof.
  intros [Ht Hn Hk _] Hp. unfold TopologyStateMachine.checkIfHasPrimary, TopologyStateMachine.modifyTopologyType.
  destruct (findServers isPrimary s) as [|x r] eqn:F; simpl.
  - split; simpl; [done| |done|done]. intros x Hx. specialize (Hk x Hx).
    assert (isPrimary x ≠ true) as Hnp.
    { intros Px. apply (not_elem_of_nil (A := ServerDescription.t) x). rewrite <- F. by apply findServers_elem. }
    unfold isPrimary in Hnp. by destruct (_type x).
  - split; simpl; [done|auto| |done]. intros _.
    assert (x ∈ findServers isPrimary s) as [Px Hx]%findServers_elem by (rewrite F; left).
    exists x. split; [done|]. split; [done|]. intros y Hy Py. by apply Hp.
Qed.

(** The primary at [d]'s address is the only one with it. *)
Lemma loose_away d s :
  Loose d s → (∀ x, x ∈ getServers s → isPrimary x = true → skey x ≠ skey d) →
  WellTyped (TopologyStateMachine.checkIfHasPrimary s).
Proof. intros H Ha. eapply checkIfHasPrimary_wt; [done|]. intros x y Hx Hy Px Py. eapply H; eauto. Qed.

Lemma remove_and_check_wt d s s' :
  Loose d s → TopologyStateMachine.removeAndCheckIfHasPrimary s d = Some s' → WellTyped s'.
Proof.
  intros H [= <-]. destruct (derived_remove (_address d) s) as [Hd He].
  eapply loose_away; [by eapply loose_derived|]. intros x Hx _. by apply He in Hx as [_ ?]; [|apply H].
Qed.

Lemma filter_unique (p : ServerDescription.t → bool) s :
  NoDup (keys s) →
  (∀ x y, x ∈ getServers s → y ∈ getServers s → p x = true → p y = true → x = y) →
  (Z.of_nat (length (findServers p s)) <=? 1) = true.
Proof.
  intros Hn Hu. apply Z.leb_le. unfold findServers.
  assert (NoDup (skey <$> List.filter p (getServers s))) as Hf.
  { unfold keys in Hn. revert Hn. clear Hu. induction (getServers s) as [|y l IH]; [done|]. csimpl.
    intros [Hy Hl]%NoDup_cons. destruct (p y); [|auto]. csimpl. apply NoDup_cons. split; [|auto]. intros (x & E & Hx)%list_elem_of_fmap.
    apply elem_of_filter_bool in Hx as [_ Hx]. apply Hy. rewrite E. by apply list_elem_of_fmap_2. }
  destruct (List.filter p (getServers s)) as [|x [|y r]] eqn:F; simpl; [lia..|]. exfalso.
  assert (∀ z, z ∈ [x; y] → p z = true ∧ z ∈ getServers s) as Hz.
  { intros z Hz. apply elem_of_filter_bool. rewrite F. set_solver. }
  assert (x = y) as -> by (apply Hu; apply Hz; set_solver).
  csimpl in *. apply NoDup_cons in Hf as [Hf _]. apply Hf. left.
Qed.

(** Once the versions were recorded, a primary is always adopted. *)
Lemma adoptPrimary_ok d s :
  Loose d s →
  ∃ s', TopologyStateMachine.adoptPrimary s d = Some s' ∧ WellTyped s'.
Proof.
  intros H. pose proof (lo_nodup _ _ H) as Hn. unfold TopologyStateMachine.adoptPrimary.
  set (p := λ x, negb (HostAndPort.eqb (_address x) (_address d)) && isPrimary x).
  assert (∀ x, p x = true ↔ skey x ≠ skey d ∧ isPrimary x = true) as Hp.
  { intros x. unfold p. by rewrite andb_true_iff, negb_true_iff, eqb_false_key. }
  rewrite filter_unique; [|done|].
  2:{ intros x y Hx Hy [Nx Px]%Hp [Ny Py]%Hp. by eapply H. }
  destruct (derived_forget (findServers p s) s (lo_type _ _ H)) as (s1 & -> & H1 & F1 & _).
  cbn [mbind option_bind].
  destruct (derived_addUnknownServers d s1) as (s2 & -> & H2 & _);
    [rewrite (derived_type _ _ H1); apply H|]. cbn [mbind option_bind].
  eexists. split; [done|].
  destruct (derived_foldl_remove (TopologyStateMachine.notListed d s2) s2) as [H3 _].
  set (s3 := foldl _ _ _) in *.
  assert (Derived s s3) as H13 by (by do 2 (etransitivity; [eassumption|])).
  eapply checkIfHasPrimary_wt; [by eapply loose_derived|].
  assert (∀ x, x ∈ getServers s3 → isPrimary x = true → x ∈ getServers s ∧ skey x = skey d) as Hx.
  { intros x Hx Px. assert (x ∈ getServers s) as Hs by (eapply derived_primary; eauto). split; [done|].
    destruct (decide (skey x = skey d)) as [|Ne]; [done|]. exfalso.
    assert (x ∈ getServers s1) as Hx1.
    { eapply derived_primary; [|by apply H1|exact Hx|done]. by etransitivity. }
    rewrite (F1 Hn x Hx1) in Px; [done|]. apply list_elem_of_fmap_2, findServers_elem.
    split; [by apply Hp|done]. }
  intros x y X Y Px Py. apply Hx in X as [X Ex]; [|done]. apply Hx in Y as [Y Ey]; [|done].
  eapply same_server; [exact Hn|done..|congruence].
Qed.

Lemma loose_same d s s' :
  getServers s' = getServers s → getType s' ≠ kSingle → Loose d s → Loose d s'.
Proof.
  intros E Ht [_ Hn Hk Hp]. split; [done|..].
  - unfold keys. by rewrite E.
  - by rewrite E.
  - by rewrite E.
Qed.

Lemma recordSetVersion_servers v d s :
  getServers (TopologyStateMachine.recordSetVersion v d s) = getServers s
  ∧ getType (TopologyStateMachine.recordSetVersion v d s) = getType s.
Proof.
  unfold TopologyStateMachine.recordSetVersion. destruct (_setVersion d); [|done].
  destruct v; [destruct (_ <? _)|]; done.
Qed.

Lemma takePrimary_ok d s :
  Loose d s → ∃ s', TopologyStateMachine.takePrimary s d = Some s' ∧ WellTyped s'.
Proof.
  intros H. unfold TopologyStateMachine.takePrimary.
  assert (∀ v s1, getServers s1 = getServers s → getType s1 = getType s →
    Loose d (TopologyStateMachine.recordSetVersion v d s1)) as Hr.
  { intros v s1 E1 E2. destruct (recordSetVersion_servers v d s1) as [R1 R2].
    eapply loose_same; [by rewrite R1|rewrite R2, E2; apply H|done]. }
  destruct (_setVersion d) as [v|]; [|by apply adoptPrimary_ok, Hr].
  destruct (_electionId d) as [e|]; [|by apply adoptPrimary_ok, Hr].
  destruct (TopologyStateMachine.isStalePrimary _ _ _ _).
  - destruct (derived_install (_address d) s (lo_type _ _ H)) as (s1 & E1 & D1 & _). rewrite E1.
    eexists. split; [done|]. eapply loose_away; [by eapply loose_derived|].
    intros x Hx Px Ek. installed (ofAddress (_address d)) s (lo_type _ _ H) s1'.
    rewrite Hinst in E1. injection E1 as ->.
    rewrite Hservers, elem_of_replaceServer in Hx by apply H.
    destruct Hx as [->|[_ Hne]]; [done|exact (Hne Ek)].
  - apply adoptPrimary_ok. by apply Hr.
Qed.

Lemma updateRSFromPrimary_ok d s :
  Loose d s → HostAndPort.key (_address d) ∈ keys s →
  ∃ s', TopologyStateMachine.updateRSFromPrimary s d = Some s' ∧ WellTyped s'.
Proof.
  intros H Hd. unfold TopologyStateMachine.updateRSFromPrimary.
  rewrite (proj2 (contains_spec _ _) Hd). cbn [negb].
  destruct (bool_decide _ && _).
  { apply takePrimary_ok. apply (loose_same d s); [done|exact (lo_type _ _ H)|done]. }
  destruct (negb _); [|by apply takePrimary_ok].
  eexists. split; [done|]. by eapply remove_and_check_wt.
Qed.

Lemma set_type_id ty s : getType s = ty → TopologyDescription.set_type ty s = s.
Proof. destruct s. simpl. by intros ->. Qed.

Lemma updateRSWithPrimaryFromMember_ok d s :
  Loose d s → getType s = kReplicaSetWithPrimary → d ∈ getServers s → isPrimary d = false →
  _setName d ≠ None →
  ∃ s', TopologyStateMachine.updateRSWithPrimaryFromMember s d = Some s' ∧ WellTyped s'.
Proof.
  intros H Ht Hd Hnp Hname. unfold TopologyStateMachine.updateRSWithPrimaryFromMember.
  rewrite (proj2 (contains_spec _ _)) by by apply (list_elem_of_fmap_2 skey). cbn [negb].
  rewrite bool_decide_false by done. cbn [negb].
  case_match; [eexists; split; [done|]; by eapply remove_and_check_wt|].
  case_match; [eexists; split; [done|]; by eapply remove_and_check_wt|].
  assert (WellTyped (TopologyStateMachine.checkIfHasPrimary s)) as Hc.
  { eapply loose_away; [done|]. intros x Hx Px E.
    assert (x = d) as -> by (eapply same_server; [apply H|done..]). congruence. }
  unfold TopologyStateMachine.checkIfHasPrimary, TopologyStateMachine.modifyTopologyType in *.
  destruct (findServers isPrimary s) eqn:F; simpl in *.
  - by eexists.
  - rewrite set_type_id in Hc by done. by eexists.
Qed.

Lemma noPrimary_derived s s' :
  WellTyped s → getType s = kReplicaSetNoPrimary → Derived s s' → WellTyped s'.
Proof.
  intros H Ht D. pose proof (derived_type _ _ D) as Et. split.
  - by apply D, H.
  - rewrite Et. by eapply derived_kinds, H; [|apply H].
  - by rewrite Et, Ht.
  - by rewrite Et, Ht.
Qed.

Lemma setName_wt n s : WellTyped s → WellTyped (set_setName n s).
Proof. by intros [? ? ? ?]. Qed.

Lemma updateRSWithoutPrimary_ok d s :
  WellTyped s → getType s = kReplicaSetNoPrimary →
  ∃ s', TopologyStateMachine.updateRSWithoutPrimary s d = Some s' ∧ WellTyped s'.
Proof.
  intros H Ht. unfold TopologyStateMachine.updateRSWithoutPrimary.
  destruct (containsServerAddress _ s); cbn [negb]; [|by eexists].
  assert (∀ s0, WellTyped s0 → getType s0 = kReplicaSetNoPrimary → ∃ s',
    (s1 ← TopologyStateMachine.addUnknownServers s0 d;
     Some (if TopologyStateMachine.meDiffers d then removeServerDescription (_address d) s1 else s1))
    = Some s' ∧ WellTyped s') as Hgo.
  { intros s0 H0 T0. destruct (derived_addUnknownServers d s0) as (s1 & -> & D & _);
      [by rewrite T0|]. cbn [mbind option_bind].
    eexists. split; [done|]. eapply (noPrimary_derived s0); [done..|].
    destruct (TopologyStateMachine.meDiffers d); [|done].
    etransitivity; [exact D|]. apply derived_remove. }
  destruct (getSetName s) as [n|].
  - destruct (negb (bool_decide (Some n = _setName d))); [|by apply Hgo]. eexists. split; [done|].
    eapply noPrimary_derived; [done..|]. apply derived_remove.
  - by apply Hgo; [apply setName_wt|].
Qed.
End Typing.

(** ** The state machine and the manager keep topologies well typed *)

Section Machine.
Implicit Types (s : TopologyDescription.t) (d l x y : ServerDescription.t).

(** A member of a replica set says the name of its set. *)
Definition named (d : ServerDescription.t) : Prop :=
  match _type d with
  | kRSSecondary | kRSArbiter | kRSOther => _setName d ≠ None
  | _ => True
  end.

Lemma installed_typed d s s2 :
  WellTyped s → getServers s2 = replaceServer d (getServers s) →
  getType s2 ≠ kReplicaSetWithPrimary → getType s2 ≠ kSingle →
  (∀ st, allowed (getType s) st = true → allowed (getType s2) st = true) →
  allowed (getType s2) (_type d) = true → WellTyped s2.
Proof.
  intros H E N1 N2 Hm Hd. split; [|intros x|done|done].
  - unfold keys. rewrite E. apply replaceServer_nodup, H.
  - rewrite E, elem_of_replaceServer by apply H. intros [->|[Hx _]]; [done|]. by apply Hm, H.
Qed.

Lemma installed_loose d s s2 :
  WellTyped s → getServers s2 = replaceServer d (getServers s) → getType s2 ≠ kSingle →
  (getType s = kTopologyUnknown ∨ getType s = kReplicaSetNoPrimary
   ∨ getType s = kReplicaSetWithPrimary) →
  allowed kReplicaSetWithPrimary (_type d) = true → Loose d s2.
Proof.
  intros H E Ht Hty Hd. split; [done| |intros x|intros x y].
  - unfold keys. rewrite E. apply replaceServer_nodup, H.
  - rewrite E, elem_of_replaceServer by apply H. intros [->|[Hx _]]; [done|].
    pose proof (wt_kinds _ H x Hx) as Hk. destruct Hty as [Ty|[Ty|Ty]]; rewrite Ty in Hk;
      by destruct (_type x).
  - rewrite E, !elem_of_replaceServer by apply H. intros [->|[Hx _]]; [done|].
    intros [->|[Hy _]]; [done|]. intros _ _ Px Py.
    pose proof (wt_kinds _ H x Hx) as Hk. destruct Hty as [Ty|[Ty|Ty]].
    + rewrite Ty in Hk. unfold isPrimary in Px. by destruct (_type x).
    + rewrite Ty in Hk. unfold isPrimary in Px. by destruct (_type x).
    + destruct (wt_primary _ H Ty) as (p & _ & _ & Hu). by rewrite (Hu x), (Hu y).
Qed.

(** Putting a server of the same type at an address that is known. *)
Lemma reinstall_typed d l s :
  WellTyped s → l ∈ getServers s → skey l = skey d → _type l = _type d →
  ∃ s', installServerDescription d s = Some s' ∧ WellTyped s' ∧ header s' = header s.
Proof.
  intros H Hl Ek Et. destruct (decide (getType s = kSingle)) as [Ts|Ts].
  - destruct (installServerDescription d s) as [s'|] eqn:Ei.
    + destruct (install_single d s s' Ts Ei) as (Es & Eh & _). exists s'. split; [done|].
      split; [|done]. pose proof (header_type _ _ Eh) as Ety. split.
      * unfold keys. rewrite Es. apply NoDup_singleton.
      * intros x _. by rewrite Ety, Ts.
      * by rewrite Ety, Ts.
      * by rewrite Es.
    + exfalso. revert Ei. unfold installServerDescription.
      rewrite bool_decide_true by done. rewrite bool_decide_true by by apply H. done.
  - installed d s Ts s'. exists s'. split; [done|]. split; [|done].
    pose proof (header_type _ _ Hheader) as Ety.
    assert (∀ x, x ∈ getServers s' ↔ x = d ∨ (x ∈ getServers s ∧ skey x ≠ skey d)) as He.
    { intros x. rewrite Hservers. apply elem_of_replaceServer, H. }
    split.
    + unfold keys. rewrite Hservers. apply replaceServer_nodup, H.
    + intros x [->|[Hx _]]%He; rewrite Ety; [rewrite <- Et|]; by apply H.
    + rewrite Ety. intros (p & Hp & Pp & Hu)%(wt_primary _ H).
      destruct (decide (skey p = skey d)) as [E|Ne].
      * assert (p = l) as -> by (eapply same_server; [apply H|done..|congruence]).
        exists d. split; [apply He; by left|]. split; [unfold isPrimary; by rewrite <- Et|].
        intros y [->|[Hy Ny]]%He Py; [done|]. by rewrite (Hu y) in Ny.
      * exists p. split; [apply He; by right|]. split; [done|].
        intros y [->|[Hy Ny]]%He Py; [|by apply Hu].
        rewrite (Hu l) in Ek; [done|done|]. unfold isPrimary in *. by rewrite Et.
    + by rewrite Ety.
Qed.

Section Transition.
(** A typed topology, and what it became when [d] was installed. *)
Context (c : SdamConfiguration.t) (s s1 : TopologyDescription.t) (d : ServerDescription.t).
Hypothesis typed : WellTyped s.
Hypothesis not_single : getType s ≠ kSingle.
Hypothesis d_servers : getServers s1 = replaceServer d (getServers s).
Hypothesis d_header : header s1 = header s.

Lemma installed_type : getType s1 = getType s.
Proof. by apply header_type. Qed.

Lemma installed_nodup : NoDup (keys s1).
Proof. unfold keys. rewrite d_servers. apply replaceServer_nodup, typed. Qed.

Lemma installed_elem x : x ∈ getServers s1 ↔ x = d ∨ (x ∈ getServers s ∧ skey x ≠ skey d).
Proof. rewrite d_servers. apply elem_of_replaceServer, typed. Qed.

Lemma removed_elem x :
  x ∈ getServers (removeServerDescription (_address d) s1) → x ∈ getServers s ∧ skey x ≠ skey d.
Proof.
  intros [Hx Hn]%(proj2 (derived_remove (_address d) s1) installed_nodup).
  apply installed_elem in Hx as [->|?]; done.
Qed.

Lemma removed_nodup : NoDup (keys (removeServerDescription (_address d) s1)).
Proof. apply eraseServer_nodup, installed_nodup. Qed.

(** Without a primary, removing the server that was just installed. *)
Lemma removed_typed :
  getType s ≠ kReplicaSetWithPrimary →
  ∃ s', TopologyStateMachine.removeAndStopMonitoring s1 d = Some s' ∧ WellTyped s'.
Proof.
  intros Hp. eexists. split; [done|]. pose proof installed_type as Et.
  split; simpl; rewrite ?Et; [apply removed_nodup| |done|done].
  intros x [Hx _]%removed_elem. by apply typed.
Qed.

Lemma removed_checked :
  getType s = kReplicaSetWithPrimary →
  ∃ s', TopologyStateMachine.removeAndCheckIfHasPrimary s1 d = Some s' ∧ WellTyped s'.
Proof.
  intros Ty. eexists. split; [done|]. eapply (checkIfHasPrimary_wt d).
  - split; simpl; [by rewrite installed_type| apply removed_nodup| |].
    + intros x [Hx _]%removed_elem. pose proof (wt_kinds _ typed x Hx) as Hk. by rewrite Ty in Hk.
    + intros x y [Hx _]%removed_elem [Hy _]%removed_elem _ _ Px Py.
      destruct (wt_primary _ typed Ty) as (p & _ & _ & Hu). by rewrite (Hu x), (Hu y).
  - intros x y [Hx _]%removed_elem [Hy _]%removed_elem Px Py.
    destruct (wt_primary _ typed Ty) as (p & _ & _ & Hu). by rewrite (Hu x), (Hu y).
Qed.

(** Without a primary in the end: the topology's type may be changed at once. *)
Lemma retyped ty :
  ty ≠ kReplicaSetWithPrimary → ty ≠ kSingle →
  (∀ st, allowed (getType s) st = true → allowed ty st = true) →
  allowed ty (_type d) = true → WellTyped (TopologyDescription.set_type ty s1).
Proof. intros. by apply (installed_typed d s). Qed.

Lemma retyped_loose ty :
  ty ≠ kSingle →
  (getType s = kTopologyUnknown ∨ getType s = kReplicaSetNoPrimary
   ∨ getType s = kReplicaSetWithPrimary) →
  allowed kReplicaSetWithPrimary (_type d) = true → Loose d (TopologyDescription.set_type ty s1).
Proof. intros. by apply (installed_loose d s). Qed.

Lemma unchanged_typed :
  getType s ≠ kReplicaSetWithPrimary → allowed (getType s) (_type d) = true → WellTyped s1.
Proof.
  intros. rewrite <- (set_type_id (getType s) s1) by apply installed_type. by apply retyped.
Qed.

Lemma unchanged_loose :
  getType s = kReplicaSetWithPrimary → allowed kReplicaSetWithPrimary (_type d) = true → Loose d s1.
Proof.
  intros. rewrite <- (set_type_id (getType s) s1) by apply installed_type. apply retyped_loose; auto.
Qed.

Lemma transition_ok :
  named d → _type d ≠ kStandalone →
  ∃ s', TopologyStateMachine.transition c (getType s1) (_type d) s1 d = Some s' ∧ WellTyped s'.
Proof.
  intros Hname Hst. rewrite installed_type.
  pose proof unchanged_typed as Hu. pose proof unchanged_loose as Hl. pose proof retyped as Hr.
  pose proof retyped_loose as Hrl. pose proof removed_typed as Hrm. pose proof removed_checked as Hrc.
  assert (d ∈ getServers s1) as Hd by (apply installed_elem; by left).
  assert (HostAndPort.key (_address d) ∈ keys s1) as Hk by by apply (list_elem_of_fmap_2 skey).
  assert (isPrimary d = bool_decide (_type d = kRSPrimary)) as Hp by done.
  unfold named in Hname. pose proof installed_type as Et.
  destruct (getType s) eqn:Ty; [done|..]; destruct (_type d) eqn:Td; try done;
    cbn [TopologyStateMachine.transition];
    first [ by apply Hrm | by apply Hrc | by eexists; split; [done|]; apply Hu
          | by eexists; split; [done|]; apply Hr; [done|done|by intros []|done]
          | by apply updateRSFromPrimary_ok; [apply Hrl; auto|]
          | by apply updateRSFromPrimary_ok; [apply Hl|]
          | by apply updateRSWithPrimaryFromMember_ok; [apply Hl|..]
          | by apply updateRSWithoutPrimary_ok; [apply Hu|]
          | by apply updateRSWithoutPrimary_ok; [apply Hr; [done|done|by intros []|done]|]
          | idtac ].
  all: eexists; split; [done|]; eapply loose_away; [by apply Hl|]; intros x Hx Px E;
    assert (x = d) as -> by (by eapply same_server; [apply installed_nodup|..]); by rewrite Hp in Px.
Qed.
End Transition.

Lemma machine_ok c s d :
  WellTyped s → named d →
  ∃ s', TopologyStateMachine.onServerDescription c s d = Some s' ∧ WellTyped s'.
Proof.
  intros H Hname. unfold TopologyStateMachine.onServerDescription.
  destruct (containsServerAddress _ s) eqn:Hc; cbn [negb]; [|by eexists].
  apply contains_spec, list_elem_of_fmap in Hc as (l & El & Hl).
  unfold TopologyStateMachine.toInstall.
  destruct (decide (getType s = kSingle)) as [Ts|Ts].
  - rewrite (bool_decide_true (getType s = kSingle)) by done. cbn [negb andb].
    destruct (reinstall_typed (ServerDescription.set_type (_type l) d) l s) as (s0 & E0 & _); [done..|].
    destruct (installServerDescription d s) as [s1|] eqn:Ei.
    2:{ exfalso. revert Ei. unfold installServerDescription. rewrite bool_decide_true by done.
        rewrite bool_decide_true by by apply H. done. }
    destruct (install_single d s s1 Ts Ei) as (Es & Eh & _). cbn [mbind option_bind].
    pose proof (header_type _ _ Eh) as Et. rewrite bool_decide_true by congruence.
    eexists. split; [done|]. split.
    + unfold keys. rewrite Es. apply NoDup_singleton.
    + intros x _. by rewrite Et, Ts.
    + by rewrite Et, Ts.
    + by rewrite Es.
  - rewrite (bool_decide_false (getType s = kSingle)) by done. cbn [negb andb].
    set (d' := if _ : bool then _ else _).
    assert (_type d' ≠ kStandalone ∧ named d') as [Hd1 Hd2].
    { subst d'. case_bool_decide; [done|]. done. }
    installed d' s Ts s1. rewrite Hinst. cbn [mbind option_bind].
    pose proof (header_type _ _ Hheader) as Et. rewrite bool_decide_false by congruence.
    by apply (transition_ok c s).
Qed.
End Machine.

(** ** What an update never forgets *)

(** Versions of the set's configuration and election, none being the least. *)
Definition optLt (a b : option Z) : Prop :=
  match a, b with
  | None, Some _ => True
  | Some x, Some y => x < y
  | _, None => False
  end.
Definition versionsLe (s s' : TopologyDescription.t) : Prop :=
  optLt (getMaxSetVersion s) (getMaxSetVersion s')
  ∨ (getMaxSetVersion s = getMaxSetVersion s'
     ∧ (getMaxElectionId s = getMaxElectionId s'
        ∨ optLt (getMaxElectionId s) (getMaxElectionId s'))).

Record Update (s s' : TopologyDescription.t) : Prop := {
  up_versions : versionsLe s s';
  up_setName : ∀ n, getSetName s = Some n → getSetName s' = Some n;
  up_nodup : NoDup (keys s) → NoDup (keys s');
  up_servers : NoDup (keys s) →
    ∀ x, x ∈ getServers s' → x ∈ getServers s ∨ x = ofAddress (_address x)
}.

Lemma optLt_trans a b c : optLt a b → optLt b c → optLt a c.
Proof. destruct a, b, c; simpl; try done; lia. Qed.

#[global] Instance versionsLe_preorder : PreOrder versionsLe.
Proof.
  split; [by right; split; [|left]|]. intros s1 s2 s3. unfold versionsLe.
  intros [H|[E H]] [H'|[E' H']].
  - left. by eapply optLt_trans.
  - left. by rewrite <- E'.
  - left. by rewrite E.
  - right. split; [congruence|]. destruct H as [->|H]; [done|]. right.
    destruct H' as [E2|H']; [by rewrite <- E2|by eapply optLt_trans].
Qed.

#[global] Instance Update_preorder : PreOrder Update.
Proof.
  split; [by split; auto|]. intros s1 s2 s3 H12 H23. split.
  - by etransitivity; [apply H12|apply H23].
  - intros n H. by apply H23, H12.
  - intros H. by apply H23, H12.
  - intros H x Hx. apply H23 in Hx as [Hx| ->]; [|by right|by apply H12]. by apply H12.
Qed.

Lemma update_servers s s' :
  getServers s' = getServers s → versionsLe s s' →
  (∀ n, getSetName s = Some n → getSetName s' = Some n) → Update s s'.
Proof.
  intros E Hv Hn. split; [done|done| |]; unfold keys; rewrite E; [done|by left].
Qed.

Section Updates.
Implicit Types (s : TopologyDescription.t) (d x y : ServerDescription.t).

Lemma update_derived s s' : Derived s s' → Update s s'.
Proof.
  intros H. pose proof (der_header _ _ H) as [= _ En Ev Ee]. split.
  - right. split; [done|by left].
  - intros n. by rewrite En.
  - apply H.
  - apply H.
Qed.

Lemma update_type ty s : Update s (TopologyDescription.set_type ty s).
Proof. by apply update_servers; [|right; split; [|left]|]. Qed.

Lemma update_setName n s : getSetName s = None → Update s (set_setName n s).
Proof. intros H. apply update_servers; [done|right; split; [done|by left]|]. intros m. by rewrite H. Qed.

Lemma update_check s : Update s (TopologyStateMachine.checkIfHasPrimary s).
Proof. apply update_type. Qed.

Lemma update_removeAndCheck s d s' :
  TopologyStateMachine.removeAndCheckIfHasPrimary s d = Some s' → Update s s'.
Proof.
  intros [= <-]. etransitivity; [apply update_derived, (derived_remove (_address d))|apply update_check].
Qed.

Lemma update_adopt s d s' :
  getType s ≠ kSingle → TopologyStateMachine.adoptPrimary s d = Some s' → Update s s'.
Proof.
  intros Ht. unfold TopologyStateMachine.adoptPrimary. set (old := findServers _ s).
  destruct (_ <=? _); [|done]. destruct (derived_forget old s Ht) as (s1 & -> & H1 & _). cbn [mbind option_bind].
  destruct (derived_addUnknownServers d s1) as (s2 & -> & H2 & _);
    [by rewrite (derived_type _ _ H1)|]. cbn [mbind option_bind]. intros [= <-].
  etransitivity; [|apply update_check]. apply update_derived.
  do 2 (etransitivity; [eassumption|]). apply derived_foldl_remove.
Qed.

(** The versions that [updateRSFromPrimary] records when the reply is not stale. *)
Lemma update_versions s d v e :
  _setVersion d = Some v →
  TopologyStateMachine.isStalePrimary (getMaxSetVersion s) (getMaxElectionId s) v e = false →
  Update s (TopologyStateMachine.recordSetVersion (getMaxSetVersion s) d (set_maxElectionId (Some e) s)).
Proof.
  intros Hv Hs. unfold TopologyStateMachine.recordSetVersion. rewrite Hv.
  apply update_servers; [by repeat case_match| |by intros n; repeat case_match].
  unfold TopologyStateMachine.isStalePrimary in Hs. unfold versionsLe.
  destruct (getMaxSetVersion s) as [m|] eqn:Em; [|by left].
  destruct (m <? v) eqn:Ev; simpl.
  - left. by apply Z.ltb_lt.
  - right. split; [done|]. destruct (getMaxElectionId s) as [e0|]; [|by right].
    apply orb_false_iff in Hs as [Hs1 Hs2]. assert (m = v) as -> by (to_prop; lia).
    rewrite Z.eqb_refl in Hs2. apply Z.ltb_ge in Hs2.
    destruct (decide (e0 = e)) as [->|]; [by left|right; simpl; lia].
Qed.

Lemma update_recordSetVersion s d :
  Update s (TopologyStateMachine.recordSetVersion (getMaxSetVersion s) d s).
Proof.
  unfold TopologyStateMachine.recordSetVersion. destruct (_setVersion d) as [v|]; [|reflexivity].
  destruct (getMaxSetVersion s) as [m|] eqn:Em.
  - destruct (m <? v) eqn:Ev; [|reflexivity]. apply update_servers; [done| |done].
    left. rewrite Em. simpl. by apply Z.ltb_lt.
  - apply update_servers; [done| |done]. left. by rewrite Em.
Qed.

Lemma update_takePrimary s d s' :
  getType s ≠ kSingle → TopologyStateMachine.takePrimary s d = Some s' → Update s s'.
Proof.
  intros Ht. unfold TopologyStateMachine.takePrimary.
  assert (∀ s1, Update s s1 → getType s1 = getType s →
    TopologyStateMachine.adoptPrimary s1 d = Some s' → Update s s') as Hgo.
  { intros s1 U1 T1 H. etransitivity; [exact U1|]. eapply update_adopt; [|exact H]. by rewrite T1. }
  assert (TopologyStateMachine.adoptPrimary
      (TopologyStateMachine.recordSetVersion (getMaxSetVersion s) d s) d = Some s' → Update s s') as Hrec.
  { apply Hgo; [apply update_recordSetVersion|apply recordSetVersion_servers]. }
  destruct (_setVersion d) as [v|] eqn:Ev; [|exact Hrec].
  destruct (_electionId d) as [e|]; [|exact Hrec].
  destruct (TopologyStateMachine.isStalePrimary _ _ v e) eqn:Es.
  - destruct (derived_install (_address d) s Ht) as (s1 & -> & D & _). cbn [mbind option_bind].
    intros [= <-]. etransitivity; [by apply update_derived|apply update_check].
  - apply Hgo; [by eapply update_versions|].
    apply (recordSetVersion_servers _ d (set_maxElectionId (Some e) s)).
Qed.

Lemma update_fromPrimary s d s' :
  getType s ≠ kSingle → TopologyStateMachine.updateRSFromPrimary s d = Some s' → Update s s'.
Proof.
  intros Ht. unfold TopologyStateMachine.updateRSFromPrimary.
  destruct (negb (containsServerAddress _ s)); [by intros [= <-]|].
  destruct (bool_decide _ && _) eqn:En.
  { apply andb_true_iff in En as [En _]. apply bool_decide_eq_true in En. intros H.
    etransitivity; [by apply (update_setName (_setName d))|]. by eapply update_takePrimary; [|exact H]. }
  destruct (negb (bool_decide (getSetName s = _setName d)));
    [apply update_removeAndCheck|by apply update_takePrimary].
Qed.

Lemma update_withoutPrimary s d s' :
  getType s ≠ kSingle → TopologyStateMachine.updateRSWithoutPrimary s d = Some s' → Update s s'.
Proof.
  intros Ht. unfold TopologyStateMachine.updateRSWithoutPrimary.
  destruct (negb (containsServerAddress _ s)); [by intros [= <-]|].
  assert (∀ s0, getType s0 ≠ kSingle → (s1 ← TopologyStateMachine.addUnknownServers s0 d;
     Some (if TopologyStateMachine.meDiffers d then removeServerDescription (_address d) s1 else s1))
    = Some s' → Update s0 s') as Hgo.
  { intros s0 T0. destruct (derived_addUnknownServers d s0 T0) as (s1 & -> & D & _).
    cbn [mbind option_bind]. intros [= <-]. apply update_derived.
    destruct (TopologyStateMachine.meDiffers d); [|done]. etransitivity; [exact D|apply derived_remove]. }
  destruct (getSetName s) eqn:En.
  - destruct (negb _); [|by apply Hgo]. intros [= <-]. apply update_derived, derived_remove.
  - intros H. etransitivity; [by apply (update_setName (_setName d))|]. by apply Hgo.
Qed.

Lemma update_withPrimaryFromMember s d s' :
  TopologyStateMachine.updateRSWithPrimaryFromMember s d = Some s' → Update s s'.
Proof.
  unfold TopologyStateMachine.updateRSWithPrimaryFromMember.
  destruct (negb (containsServerAddress _ s)); [by intros [= <-]|].
  destruct (negb (bool_decide (_ = None))); [|done].
  destruct (negb _); [apply update_removeAndCheck|].
  destruct (TopologyStateMachine.meDiffers d); [apply update_removeAndCheck|].
  destruct (bool_decide _); intros [= <-]; [apply update_type|reflexivity].
Qed.

Lemma update_transition c ty st s d s' :
  getType s ≠ kSingle → TopologyStateMachine.transition c ty st s d = Some s' → Update s s'.
Proof.
  intros Ht. assert (∀ s', TopologyStateMachine.removeAndStopMonitoring s d = Some s' → Update s s') as Hr.
  { intros s'' [= <-]. apply update_derived, derived_remove. }
  assert (TopologyStateMachine.updateUnknownWithStandalone c s d = Some s' → Update s s') as Hst.
  { unfold TopologyStateMachine.updateUnknownWithStandalone. destruct (negb _); [by intros [= <-]|].
    destruct (bool_decide _); intros [= <-]; [apply update_type|apply update_derived, derived_remove]. }
  destruct ty, st; cbn [TopologyStateMachine.transition];
    first [ exact (λ H, Hr _ H) | exact Hst | apply update_removeAndCheck
          | apply update_withPrimaryFromMember | by apply update_fromPrimary
          | by apply update_withoutPrimary
          | by intros H; etransitivity; [apply update_type|eapply update_fromPrimary; [|exact H]]
          | by intros H; etransitivity; [apply update_type|eapply update_withoutPrimary; [|exact H]]
          | intros [= <-]; first [apply update_check | apply update_type | reflexivity] ].
Qed.
End Updates.

(** ** The manager *)

(** What reaches the manager: the outcome of a check, or a measured round trip. *)
Inductive Event :=
  | Outcome (now : Z) (o : IsMasterOutcome.t)
  | Ping (a : HostAndPort.t) (rtt : Z).

Definition step (c : SdamConfiguration.t) (ev : Event) (s : TopologyDescription.t)
    : option TopologyDescription.t :=
  match ev with
  | Outcome now o => fst <$> TopologyManager.onServerDescription c now o s
  | Ping a rtt => TopologyManager.onServerRTTUpdated a rtt s
  end.

Fixpoint run (c : SdamConfiguration.t) (evs : list Event) (s : TopologyDescription.t)
    : option TopologyDescription.t :=
  match evs with
  | [] => Some s
  | ev :: evs' => s' ← step c ev s; run c evs' s'
  end.

(** A reply that gives a set name gives a string. *)
Definition namesAreStrings (ev : Event) : bool :=
  match ev with
  | Outcome _ (IsMasterOutcome.mk _ (inl r) _ _) =>
      match Reply.setName r with NotString => false | _ => true end
  | _ => true
  end.

Section Manager.
Implicit Types (s : TopologyDescription.t) (d l x y : ServerDescription.t).

Lemma calculateRtt_keeps cur last d :
  let d' := calculateRtt cur last d in
  _type d' = _type d ∧ _address d' = _address d ∧ _topologyVersion d' = _topologyVersion d.
Proof.
  unfold calculateRtt. destruct (bool_decide _); [done|]. destruct cur, last; try done.
  by destruct (_ =? _).
Qed.

(** The description an outcome gives. *)
Lemma ofOutcome_facts now o rtt tv :
  let d := ofOutcome now o rtt tv in
  _address d = IsMasterOutcome.getServer o ∧ _topologyVersion d = tv.
Proof.
  unfold ofOutcome. destruct (IsMasterOutcome.getResponse o) as [r|]; [|done]. simpl.
  split; [|done]. by rewrite (proj1 (proj2 (calculateRtt_keeps _ _ _))).
Qed.

Lemma ofOutcome_named now o rtt tv :
  namesAreStrings (Outcome now o) = true → named (ofOutcome now o rtt tv).
Proof.
  destruct o as [a [r|e] t v]; simpl; [|done]. unfold named, ofOutcome. simpl.
  rewrite (proj1 (calculateRtt_keeps _ _ _)). simpl. unfold parseTypeFromIsMaster.
  destruct (Reply.setName r) as [| |n]; simpl; intros H; [|done|by repeat case_match].
  repeat case_match; done.
Qed.

Lemma isEquivalent_type a b : isEquivalent a b = true → _type a = _type b.
Proof. unfold isEquivalent. rewrite !andb_true_iff, !bool_decide_eq_true. tauto. Qed.

Lemma step_typed c ev s :
  WellTyped s → namesAreStrings ev = true → ∃ s', step c ev s = Some s' ∧ WellTyped s'.
Proof.
  intros H Hn. destruct ev as [now o|a rtt]; cbn [step].
  - unfold TopologyManager.onServerDescription.
    destruct (TopologyManager.isStaleTopologyVersion _ _); [by eexists|].
    set (last := findServerByAddress _ s). set (d := ofOutcome _ _ _ _).
    assert (_address d = IsMasterOutcome.getServer o ∧ named d) as [Ea Hd].
    { split; [apply ofOutcome_facts|by apply ofOutcome_named]. }
    clearbody d.
    destruct (match last with Some l => isEquivalent l d | None => false end) eqn:Eq.
    + destruct last as [l|] eqn:El; [|done].
      apply (find_some _ s l (wt_nodup _ H)) in El as [Hl El].
      destruct (reinstall_typed d l s) as (s' & -> & Ht & _); [done..| |by apply isEquivalent_type|].
      { rewrite El. unfold skey. by rewrite Ea. }
      by exists s'.
    + destruct (machine_ok c s d) as (s' & -> & Ht); [done|done|]. by exists s'.
  - unfold TopologyManager.onServerRTTUpdated.
    destruct (findServerByAddress a s) as [l|] eqn:El; [|by eexists].
    apply (find_some _ s l (wt_nodup _ H)) in El as [Hl El].
    destruct (calculateRtt_keeps (Some rtt) (_rtt l) l) as (Et & Ea & _).
    destruct (reinstall_typed (cloneWithRTT rtt l) l s) as (s' & -> & Ht & _); [done..| |by symmetry|].
    { unfold skey, cloneWithRTT. by rewrite Ea. }
    by exists s'.
Qed.

Lemma run_typed c evs s :
  WellTyped s → Forall (λ ev, namesAreStrings ev = true) evs →
  ∃ s', run c evs s = Some s' ∧ WellTyped s'.
Proof.
  revert s. induction evs as [|ev evs IH]; intros s H Hf; [by exists s|].
  apply Forall_cons in Hf as [He Hf]. destruct (step_typed c ev s H He) as (s1 & E & H1).
  cbn [run]. rewrite E. cbn [mbind option_bind]. by apply IH.
Qed.

(** The addresses a configuration starts with. *)
Definition seeds (c : SdamConfiguration.t) : list HostAndPort.t :=
  option.default [defaultServer] (SdamConfiguration.getSeedList c).

Lemma create_typed c :
  SdamConfiguration.validate c = Some None → NoDup (HostAndPort.key <$> seeds c) →
  SdamConfiguration.getInitialType c ≠ kReplicaSetWithPrimary → WellTyped (create c).
Proof.
  intros Hv Hs Ht.
  assert (keys (create c) = HostAndPort.key <$> seeds c) as Ek.
  { unfold keys, create, seeds. simpl. rewrite <- list_fmap_compose. by apply list_fmap_ext. }
  split; simpl.
  - by rewrite Ek.
  - intros x (a & -> & _)%list_elem_of_fmap. apply unknown_allowed.
  - done.
  - intros Hty. rewrite length_fmap. revert Hv. unfold SdamConfiguration.validate.
    rewrite (bool_decide_true (_ = kSingle)) by done. cbn [negb].
    destruct (SdamConfiguration.getSeedList c) as [l|]; simpl; [|done].
    destruct (bool_decide (length l = 1%nat)) eqn:E; [by apply bool_decide_eq_true in E|].
    by destruct (negb (bool_decide (1 <= _)%nat)).
Qed.

Lemma getPrimary_ok s : WellTyped s → ∃ p, getPrimary s = Some p.
Proof.
  intros H. unfold getPrimary. case_bool_decide as Hty; simpl; [|by eexists].
  destruct (wt_primary _ H Hty) as (x & Hx & Px & Hu).
  pose proof (filter_unique isPrimary s (wt_nodup _ H)) as Hl.
  rewrite Z.leb_le in Hl. assert (x ∈ findServers isPrimary s) as Hf by by apply findServers_elem.
  destruct (findServers isPrimary s) as [|y [|z r]] eqn:F.
  - by apply not_elem_of_nil in Hf.
  - by eexists.
  - simpl in Hl. assert (Z.of_nat (S (S (length r))) <= 1); [|lia]. apply Hl.
    intros a b Ha Hb Pa Pb. by rewrite (Hu a), (Hu b).
Qed.

(** Where the servers come from when one is put at an address that is known. *)
Lemma install_known d s s' :
  WellTyped s → skey d ∈ keys s → installServerDescription d s = Some s' →
  header s' = header s ∧ ∀ x, x ∈ getServers s' → x ∈ getServers s ∨ x = d.
Proof.
  intros H Hd Ei. destruct (decide (getType s = kSingle)) as [Ts|Ts].
  - destruct (install_single d s s' Ts Ei) as (Es & Eh & _). split; [done|].
    intros x. rewrite Es, list_elem_of_singleton. by right.
  - installed d s Ts s1. rewrite Hinst in Ei. injection Ei as ->. split; [done|].
    intros x. rewrite Hservers, elem_of_replaceServer by apply H. intros [->|[? _]]; auto.
Qed.

Lemma header_update s s' :
  header s' = header s → versionsLe s s' ∧ ∀ n, getSetName s = Some n → getSetName s' = Some n.
Proof.
  intros [= _ En Ev Ee]. split; [right; split; [done|by left]|]. intros n. by rewrite En.
Qed.

Lemma machine_update c s d s' :
  WellTyped s → TopologyStateMachine.onServerDescription c s d = Some s' →
  (versionsLe s s' ∧ ∀ n, getSetName s = Some n → getSetName s' = Some n)
  ∧ ∀ x, x ∈ getServers s' →
      x ∈ getServers s ∨ x = ofAddress (_address x) ∨ x = TopologyStateMachine.toInstall s d.
Proof.
  intros H. unfold TopologyStateMachine.onServerDescription.
  destruct (containsServerAddress _ s) eqn:Hc; cbn [negb].
  2:{ intros [= <-]. split; [by apply header_update|by left]. }
  apply contains_spec in Hc. set (d' := TopologyStateMachine.toInstall s d).
  assert (skey d' = HostAndPort.key (_address d)) as Ek.
  { subst d'. unfold TopologyStateMachine.toInstall. by destruct (_ && _). }
  destruct (installServerDescription d' s) as [s1|] eqn:Ei; [|done]. cbn [mbind option_bind].
  destruct (install_known d' s s1 H) as [Eh Hx]; [by rewrite Ek|done|].
  destruct (header_update _ _ Eh) as [Hv Hn].
  case_bool_decide as Ts; cbn [negb].
  - intros [= <-]. split; [done|]. intros x [?| ->]%Hx; auto.
  - intros U%update_transition; [|done]. split.
    + split; [etransitivity; [done|apply U]|]. intros n E. by apply U, Hn.
    + intros x Hx'. apply U in Hx' as [[?|?]%Hx|?]; auto.
      rewrite (header_type _ _ Eh) in Ts. installed d' s Ts s1'. rewrite Hinst in Ei.
      injection Ei as ->. unfold keys. rewrite Hservers. apply replaceServer_nodup, H.
Qed.

(** How a primary's reply is taken while the topology may be a replica set. *)
Lemma primary_reply c s d :
  WellTyped s → getType s ≠ kSingle → getType s ≠ kSharded → _type d = kRSPrimary →
  skey d ∈ keys s →
  ∃ s1, getServers s1 = replaceServer d (getServers s) ∧ getType s1 = kReplicaSetWithPrimary
        ∧ getSetName s1 = getSetName s ∧ getMaxSetVersion s1 = getMaxSetVersion s
        ∧ getMaxElectionId s1 = getMaxElectionId s
        ∧ TopologyStateMachine.onServerDescription c s d
          = TopologyStateMachine.updateRSFromPrimary s1 d.
Proof.
  intros H Ts Th Td Hd. installed d s Ts s1. pose proof Hheader as [= Et En Ev Ee].
  exists (TopologyDescription.set_type kReplicaSetWithPrimary s1).
  do 5 (split; [done|]). unfold TopologyStateMachine.onServerDescription.
  rewrite (proj2 (contains_spec _ _) Hd). unfold TopologyStateMachine.toInstall.
  rewrite Td, (bool_decide_false (kRSPrimary = _)), andb_false_r by done. cbn [negb].
  rewrite Hinst. cbn [mbind option_bind]. rewrite Et, bool_decide_false by done. cbn [negb].
  rewrite Td. destruct (getType s) eqn:Ty; try done. cbn [TopologyStateMachine.transition].
  by rewrite set_type_id.
Qed.
End Manager.

(** ** A primary's reply *)

Section Primary.
Implicit Types (s : TopologyDescription.t) (d x : ServerDescription.t).

(** A server is left alone by what is put at other addresses. *)
Lemma install_keeps a s s' x :
  getType s ≠ kSingle → NoDup (keys s) → installServerDescription (ofAddress a) s = Some s' →
  skey x ≠ HostAndPort.key a → x ∈ getServers s → x ∈ getServers s'.
Proof.
  intros Ht Hn Ei Hk Hx. installed (ofAddress a) s Ht s1. rewrite Hinst in Ei. injection Ei as ->.
  rewrite Hservers, elem_of_replaceServer by done. by right.
Qed.

Lemma addUnknowns_keeps hs s s' x :
  getType s ≠ kSingle → NoDup (keys s) → TopologyStateMachine.addUnknowns hs s = Some s' →
  x ∈ getServers s → x ∈ getServers s'.
Proof.
  revert s. induction hs as [|h hs IH]; intros s Ht Hn; simpl; [by intros [= <-]|].
  destruct (containsServerAddress h s) eqn:Hc; [by apply IH|].
  destruct (derived_install h s Ht) as (s1 & E & D & _). rewrite E. cbn [mbind option_bind].
  intros Hr Hx. eapply IH; [by rewrite (derived_type _ _ D)|by apply D|exact Hr|].
  eapply install_keeps; [done..| |done]. intros Ek.
  assert (containsServerAddress h s = true); [|congruence].
  apply contains_spec. rewrite <- Ek. by apply (list_elem_of_fmap_2 skey).
Qed.

Lemma addUnknownServers_keeps d s s' x :
  getType s ≠ kSingle → NoDup (keys s) → TopologyStateMachine.addUnknownServers s d = Some s' →
  x ∈ getServers s → x ∈ getServers s'.
Proof.
  intros Ht Hn. unfold TopologyStateMachine.addUnknownServers.
  destruct (derived_addUnknowns (_hosts d) s Ht) as (s1 & E1 & D1 & _). rewrite E1.
  cbn [mbind option_bind]. assert (getType s1 ≠ kSingle) as T1 by by rewrite (derived_type _ _ D1).
  destruct (derived_addUnknowns (_passives d) s1 T1) as (s2 & E2 & D2 & _). rewrite E2.
  cbn [mbind option_bind]. intros E3 Hx.
  eapply addUnknowns_keeps; [by rewrite (derived_type _ _ D2)|by apply D2, D1|exact E3|].
  eapply addUnknowns_keeps; [exact T1|by apply D1|exact E2|].
  exact (addUnknowns_keeps _ s s1 x Ht Hn E1 Hx).
Qed.

Lemma forget_keeps l s s' x :
  getType s ≠ kSingle → NoDup (keys s) → TopologyStateMachine.forgetPrimaries l s = Some s' →
  skey x ∉ skey <$> l → x ∈ getServers s → x ∈ getServers s'.
Proof.
  revert s. induction l as [|y l IH]; intros s Ht Hn; csimpl; [by intros [= <-]|].
  destruct (derived_install (_address y) s Ht) as (s1 & E & D & _). rewrite E.
  cbn [mbind option_bind]. intros Hr [Hy Hl]%not_elem_of_cons Hx.
  eapply IH; [by rewrite (derived_type _ _ D)|by apply D|exact Hr|done|].
  by eapply install_keeps.
Qed.

Lemma inSet_key a l : inSet a l = true ↔ HostAndPort.key a ∈ HostAndPort.key <$> l.
Proof.
  unfold inSet. rewrite existsb_exists, list_elem_of_fmap. split.
  - intros (b & Hb & E%HostAndPort.eqb_key). exists b. split; [done|by apply list_elem_of_In].
  - intros (b & E & Hb). exists b. split; [by apply list_elem_of_In|by apply HostAndPort.eqb_key].
Qed.

(** The addresses the primary does not list. *)
Lemma notListed_key d s x :
  x ∈ getServers s →
  skey x ∈ HostAndPort.key <$> TopologyStateMachine.notListed d s ↔ skey x ∉ listed d.
Proof.
  intros Hx. unfold TopologyStateMachine.notListed, listed.
  rewrite list_elem_of_fmap, !fmap_app, !not_elem_of_app. split.
  - intros (a & E & Ha). apply list_elem_of_In, filter_In in Ha as [_ Ha].
    rewrite E, <- !inSet_key. to_prop. by rewrite H, H0, H1.
  - intros (H1 & H2 & H3). exists (_address x). split; [done|].
    apply list_elem_of_In, filter_In. split; [apply list_elem_of_In; by apply list_elem_of_fmap_2|].
    unfold skey in *. rewrite <- inSet_key in H1, H2, H3.
    by destruct (inSet _ (_hosts d)), (inSet _ (_passives d)), (inSet _ (_arbiters d)).
Qed.

Lemma adoptPrimary_members d s s' :
  Loose d s → TopologyStateMachine.adoptPrimary s d = Some s' →
  (∀ k, k ∈ keys s' ↔ k ∈ listed d)
  ∧ (d ∈ getServers s → skey d ∈ listed d → d ∈ getServers s').
Proof.
  intros H. pose proof (lo_nodup _ _ H) as Hn. pose proof (lo_type _ _ H) as Ht.
  unfold TopologyStateMachine.adoptPrimary. set (old := findServers _ s).
  destruct (_ <=? _); [|done].
  destruct (derived_forget old s Ht) as (s1 & E1 & D1 & _ & _). rewrite E1. cbn [mbind option_bind].
  assert (getType s1 ≠ kSingle) as T1 by by rewrite (derived_type _ _ D1).
  destruct (derived_addUnknownServers d s1 T1) as (s2 & E2 & D2 & K2). rewrite E2.
  cbn [mbind option_bind]. intros [= <-].
  destruct (derived_foldl_remove (TopologyStateMachine.notListed d s2) s2) as [D3 K3].
  set (s3 := foldl _ _ _) in *.
  assert (NoDup (keys s2)) as N2 by by apply D2, D1.
  assert (∀ x, x ∈ getServers s3 ↔ x ∈ getServers s2 ∧ skey x ∈ listed d) as He.
  { intros x. rewrite (K3 N2). split; intros [Hx Hk]; split; try done.
    - destruct (decide (skey x ∈ listed d)) as [|Hl]; [done|].
      destruct Hk. by apply notListed_key.
    - rewrite notListed_key by done. auto. }
  split.
  - intros k. split.
    + intros (x & -> & Hx)%list_elem_of_fmap. by apply He in Hx as [_ ?].
    + intros Hk. assert (k ∈ keys s2) as (x & -> & Hx)%list_elem_of_fmap by (apply K2; by right).
      apply (list_elem_of_fmap_2 skey). by apply He.
  - intros Hd Hl. apply He. split; [|done].
    eapply addUnknownServers_keeps; [exact T1|by apply D1|exact E2|].
    eapply forget_keeps; [exact Ht|exact Hn|exact E1| |exact Hd].
    intros (y & Ey & Hy)%list_elem_of_fmap. apply findServers_elem in Hy as [Hy _].
    apply andb_true_iff in Hy as [Hy _]. apply negb_true_iff, eqb_false_key in Hy. by apply Hy.
Qed.
(** The set's name is right: the reply is taken, possibly after the name was set. *)
Lemma named_primary s d s' :
  skey d ∈ keys s → getSetName s = None ∨ getSetName s = _setName d →
  TopologyStateMachine.updateRSFromPrimary s d = Some s' →
  ∃ s0, getServers s0 = getServers s ∧ getType s0 = getType s
        ∧ getMaxSetVersion s0 = getMaxSetVersion s ∧ getMaxElectionId s0 = getMaxElectionId s
        ∧ TopologyStateMachine.takePrimary s0 d = Some s'.
Proof.
  intros Hd Hn. unfold TopologyStateMachine.updateRSFromPrimary.
  rewrite (proj2 (contains_spec _ _) Hd). cbn [negb].
  destruct (bool_decide _ && _) eqn:En.
  { intros H. exists (set_setName (_setName d) s). by repeat split. }
  rewrite bool_decide_true.
  { intros H. exists s. by repeat split. }
  destruct Hn as [Hn|]; [|done]. rewrite bool_decide_true in En by done. cbn [andb] in En.
  apply negb_false_iff, bool_decide_eq_true in En. congruence.
Qed.

(** A reply that is not stale is adopted. *)
Lemma fresh_adopts s d s' :
  (∀ v e, _setVersion d = Some v → _electionId d = Some e →
    TopologyStateMachine.isStalePrimary (getMaxSetVersion s) (getMaxElectionId s) v e = false) →
  TopologyStateMachine.takePrimary s d = Some s' →
  ∃ s2, getServers s2 = getServers s ∧ getType s2 = getType s
        ∧ TopologyStateMachine.adoptPrimary s2 d = Some s'.
Proof.
  intros Hf. unfold TopologyStateMachine.takePrimary.
  pose proof (recordSetVersion_servers (getMaxSetVersion s) d s) as [R1 R2].
  destruct (_setVersion d) as [v|]; [|intros; eexists; split; [exact R1|by split]].
  destruct (_electionId d) as [e|]; [|intros; eexists; split; [exact R1|by split]].
  rewrite (Hf v e) by done.
  intros. eexists. split; [|split; [|done]]; apply (recordSetVersion_servers _ d (set_maxElectionId (Some e) s)).
Qed.

Lemma adoptPrimary_type s d s' :
  TopologyStateMachine.adoptPrimary s d = Some s' → getType s' ≠ kSingle.
Proof.
  unfold TopologyStateMachine.adoptPrimary. destruct (_ <=? _); [|done].
  destruct (TopologyStateMachine.forgetPrimaries _ s) as [s1|]; [|done]. cbn [mbind option_bind].
  destruct (TopologyStateMachine.addUnknownServers s1 d); [|done]. cbn [mbind option_bind].
  intros [= <-]. simpl. by destruct (0 <? _).
Qed.

Lemma primary_found s d :
  WellTyped s → getType s ≠ kSingle → d ∈ getServers s → isPrimary d = true →
  getPrimary s = Some (Some d).
Proof.
  intros H Ht Hd Hp. destruct (getPrimary_ok s H) as [p Ep].
  assert (getType s = kReplicaSetWithPrimary) as Hty.
  { pose proof (wt_kinds _ H d Hd) as Hk. unfold isPrimary in Hp. apply bool_decide_eq_true in Hp.
    rewrite Hp in Hk. by destruct (getType s). }
  revert Ep. unfold getPrimary. rewrite bool_decide_true by done. cbn [negb].
  assert (d ∈ findServers isPrimary s) as Hf by by apply findServers_elem.
  destruct (findServers isPrimary s) as [|x [|y r]]; [by apply not_elem_of_nil in Hf| |done].
  by apply list_elem_of_singleton in Hf as ->.
Qed.
End Primary.

(** A step keeps what was learned, and puts at most one description in, which is not
    older than the one it replaces. *)
Definition Refreshed (s s' : TopologyDescription.t) : Prop :=
  ∃ d, ((versionsLe s s' ∧ ∀ n, getSetName s = Some n → getSetName s' = Some n)
    ∧ ∀ x, x ∈ getServers s' → x ∈ getServers s ∨ x = ofAddress (_address x) ∨ x = d)
    ∧ ∀ l t t', l ∈ getServers s → skey l = skey d → _topologyVersion l = Some t →
        _topologyVersion d = Some t' → TopologyVersion.processId t = TopologyVersion.processId t' →
        TopologyVersion.counter t <= TopologyVersion.counter t'.

Lemma refreshed_same s l : l ∈ getServers s → NoDup (keys s) → Refreshed s s.
Proof.
  intros Hl Hn. exists l. split; [split; [by apply header_update|by left]|].
  intros x t t' Hx Ek. assert (x = l) as -> by (by eapply same_server). intros. simplify_eq. lia.
Qed.

Lemma toInstall_facts s d :
  _address (TopologyStateMachine.toInstall s d) = _address d
  ∧ _topologyVersion (TopologyStateMachine.toInstall s d) = _topologyVersion d.
Proof. unfold TopologyStateMachine.toInstall. by destruct (_ && _). Qed.

Lemma outcome_refreshed c now o s s' b :
  WellTyped s → TopologyManager.onServerDescription c now o s = Some (s', b) → Refreshed s s'.
Proof.
  intros H. unfold TopologyManager.onServerDescription.
  set (last := findServerByAddress _ s). set (d := ofOutcome _ _ _ _).
  assert (_address d = IsMasterOutcome.getServer o
          ∧ _topologyVersion d = IsMasterOutcome.getTopologyVersion o) as [Ea Ev] by apply ofOutcome_facts.
  clearbody d.
  assert (∀ d', _address d' = _address d → _topologyVersion d' = _topologyVersion d →
    TopologyManager.isStaleTopologyVersion (last ≫= _topologyVersion)
      (IsMasterOutcome.getTopologyVersion o) = false →
    ∀ l t t', l ∈ getServers s → skey l = skey d' → _topologyVersion l = Some t →
      _topologyVersion d' = Some t' → TopologyVersion.processId t = TopologyVersion.processId t' →
      TopologyVersion.counter t <= TopologyVersion.counter t') as Hfresh.
  { intros d' E1 E2 Hs l t t' Hl Ek Et Et' Ep.
    assert (last = Some l) as El.
    { apply find_some; [apply H|]. split; [done|]. rewrite Ek. unfold skey. by rewrite E1, Ea. }
    rewrite El, <- Ev, <- E2, Et' in Hs. cbn [mbind option_bind] in Hs. rewrite Et in Hs.
    simpl in Hs. rewrite Ep, Z.eqb_refl in Hs. by apply Z.ltb_ge in Hs. }
  destruct (TopologyManager.isStaleTopologyVersion _ _) eqn:Hst.
  { intros [= <- <-]. destruct last as [l|] eqn:El; [|done].
    apply (find_some _ s l (wt_nodup _ H)) in El as [Hl _]. eapply refreshed_same; [done|apply H]. }
  destruct (match last with Some l => isEquivalent l d | None => false end) eqn:Eq.
  - destruct last as [l|] eqn:El; [|done].
    apply (find_some _ s l (wt_nodup _ H)) in El as [Hl El].
    destruct (installServerDescription d s) as [s1|] eqn:Ei; [|done]. cbn [mbind option_bind].
    intros [= <- <-]. exists d. split; [|by apply Hfresh].
    destruct (install_known d s s1 H) as [Eh Hx]; [|done|].
    { unfold skey. rewrite Ea, <- El. by apply (list_elem_of_fmap_2 skey). }
    split; [by apply header_update|]. intros x [?|?]%Hx; auto.
  - destruct (TopologyStateMachine.onServerDescription c s d) as [s1|] eqn:Em; [|done].
    cbn [mbind option_bind]. intros [= <- <-]. destruct (toInstall_facts s d) as [F1 F2].
    exists (TopologyStateMachine.toInstall s d). split; [by apply (machine_update c)|].
    by apply Hfresh.
Qed.

Lemma ping_refreshed a rtt s s' :
  WellTyped s → TopologyManager.onServerRTTUpdated a rtt s = Some s' → Refreshed s s'.
Proof.
  intros H. unfold TopologyManager.onServerRTTUpdated.
  destruct (findServerByAddress a s) as [l|] eqn:El.
  - apply (find_some _ s l (wt_nodup _ H)) in El as [Hl _]. intros Ei.
    destruct (calculateRtt_keeps (Some rtt) (_rtt l) l) as (_ & Ea & Ev).
    assert (skey (cloneWithRTT rtt l) = skey l) as Ek by (unfold skey, cloneWithRTT; by rewrite Ea).
    destruct (install_known (cloneWithRTT rtt l) s s' H) as [Eh Hx]; [|done|].
    { rewrite Ek. by apply (list_elem_of_fmap_2 skey). }
    exists (cloneWithRTT rtt l). split.
    + split; [by apply header_update|]. intros x [?|?]%Hx; auto.
    + intros x t t' Hx' Ek' Et. unfold cloneWithRTT. rewrite Ev. intros Et' _.
      assert (x = l) as -> by (eapply same_server; [apply H|done..|congruence]).
      simplify_eq. lia.
  - intros [= <-]. exists (ofAddress a). split; [split; [by apply header_update|by left]|]. done.
Qed.

(** ** Properties *)

(** Values for the witnesses: two hosts, and replies of the set's members. *)
Definition hostA : HostAndPort.t := HostAndPort.mk "a" 1.
Definition hostB : HostAndPort.t := HostAndPort.mk "b" 2.
Definition memberReply (primary : bool) (version election : Z) : Reply.t :=
  Reply.mk 1 (Str "rs") Absent false false primary (negb primary) false 0 9 None [hostA; hostB] [] []
    ∅ (Some election) (Some version) None None None.
Definition replyOf (h : HostAndPort.t) (primary : bool) (version election counter : Z) : Event :=
  Outcome 0 (IsMasterOutcome.mk h (inl (memberReply primary version election)) None
    (Some (TopologyVersion.mk 1 counter))).
Definition seedA : SdamConfiguration.t :=
  SdamConfiguration.mk (Some [hostA]) kTopologyUnknown 10000 None.
(** The topology once [a] answered as the primary of version 2. *)
Definition afterA : TopologyDescription.t :=
  option.default (create seedA) (run seedA [replyOf hostA true 2 7 1] (create seedA)).
Definition descriptionOf (h : HostAndPort.t) (version election : Z) : ServerDescription.t :=
  ofOutcome 0 (IsMasterOutcome.mk h (inl (memberReply true version election)) None None) None None.

Lemma afterA_typed : WellTyped afterA.
Proof.
  destruct (run_typed seedA [replyOf hostA true 2 7 1] (create seedA)) as (s & E & H).
  - apply create_typed; [reflexivity|repeat constructor; set_solver|done].
  - by repeat constructor.
  - unfold afterA. by rewrite E.
Qed.

(** C35: whatever replies, failures and round trip times arrive, in whatever order,
    the state machine fails no invariant and the topology stays well typed: no
    address occurs twice, a topology only holds servers of the types its own type
    admits, it is a replica set with primary exactly when one server is primary, so
    that asking for the primary does not abort.  The seeds have to be distinct, the initial
    type must not be [kReplicaSetWithPrimary], which validation lets pass
    ([initial_primary_accepted]), and the replies' set names have to be strings, which a
    server need not send ([unnamed_member_aborts]). *)
Theorem topology_typed c evs :
  SdamConfiguration.validate c = Some None →
  NoDup (HostAndPort.key <$> seeds c) →
  SdamConfiguration.getInitialType c ≠ kReplicaSetWithPrimary →
  Forall (λ ev, namesAreStrings ev = true) evs →
  ∃ s, run c evs (create c) = Some s ∧ WellTyped s ∧ ∃ p, getPrimary s = Some p.
Proof.
  intros Hv Hs Ht Hf. destruct (run_typed c evs (create c)) as (s & E & H); [by apply create_typed|done|].
  exists s. split; [done|]. split; [done|by apply getPrimary_ok].
Qed.

Lemma topology_typed_witness :
  ∃ s, run seedA [replyOf hostA true 2 7 1; replyOf hostB true 2 8 1; Ping hostA 5;
                  replyOf hostA false 2 8 2; Outcome 1 (IsMasterOutcome.mk hostB (inr "down") None None)]
         (create seedA) = Some s
       ∧ WellTyped s ∧ ∃ p, getPrimary s = Some p.
Proof.
  apply topology_typed.
  - reflexivity.
  - apply NoDup_singleton.
  - discriminate.
  - repeat (apply Forall_cons; split; [reflexivity|]). apply Forall_nil, I.
Defined.

(** Nothing that was learned is unlearned by a step: the pair of the largest set
    version and the largest election id never goes back in the lexicographic order,
    the set's name never changes once it is known, and a server that keeps its
    process never goes back to an older topology version. *)
Theorem view_never_goes_back c ev s s' :
  WellTyped s → step c ev s = Some s' →
  versionsLe s s'
  ∧ (∀ n, getSetName s = Some n → getSetName s' = Some n)
  ∧ ∀ x x' t t', x ∈ getServers s → x' ∈ getServers s' → skey x = skey x' →
      _topologyVersion x = Some t → _topologyVersion x' = Some t' →
      TopologyVersion.processId t = TopologyVersion.processId t' →
      TopologyVersion.counter t <= TopologyVersion.counter t'.
Proof.
  intros H Hstep.
  assert (Refreshed s s') as (d & [Hh Hx] & Hd).
  2:{ split; [apply Hh|]. split; [apply Hh|]. intros x x' t t' Hin [Hs|[E|E]]%Hx Ek Et Et' Ep.
      - assert (x = x') as <- by (eapply same_server; [apply H|done..]). simplify_eq. lia.
      - rewrite E in Et'. done.
      - subst x'. by apply (Hd x). }
  destruct ev as [now o|a rtt]; cbn [step] in Hstep.
  - apply fmap_Some in Hstep as ([s2 b] & Hstep & ->). simpl.
    by apply (outcome_refreshed c now o s s2 b).
  - by apply (ping_refreshed a rtt).
Qed.

Lemma view_never_goes_back_witness :
  ∃ s', step seedA (replyOf hostB true 2 8 1) afterA = Some s' ∧ versionsLe afterA s'.
Proof.
  destruct (step seedA (replyOf hostB true 2 8 1) afterA) as [s'|] eqn:E.
  - exists s'. split; [reflexivity|].
    exact (proj1 (view_never_goes_back _ _ _ _ afterA_typed E)).
  - exfalso. revert E. vm_compute. discriminate.
Defined.

(** A reply that calls itself primary with a set version and an election id below
    the largest ones seen is refused: its server becomes unknown, every other server
    stays what it was, and the largest versions stay. *)
Theorem stale_primary_refused c s d s' v e :
  WellTyped s → getType s ≠ kSingle → getType s ≠ kSharded →
  _type d = kRSPrimary → skey d ∈ keys s →
  getSetName s = None ∨ getSetName s = _setName d →
  _setVersion d = Some v → _electionId d = Some e →
  TopologyStateMachine.isStalePrimary (getMaxSetVersion s) (getMaxElectionId s) v e = true →
  TopologyStateMachine.onServerDescription c s d = Some s' →
  findServerByAddress (_address d) s' = Some (ofAddress (_address d))
  ∧ (∀ x, skey x ≠ skey d → x ∈ getServers s' ↔ x ∈ getServers s)
  ∧ getMaxSetVersion s' = getMaxSetVersion s ∧ getMaxElectionId s' = getMaxElectionId s.
Proof.
  intros H Ts Th Td Hd Hname Ev Ee Hstale Hrun.
  destruct (primary_reply c s d H Ts Th Td Hd) as (s1 & Es1 & Et1 & En1 & Ev1 & Ee1 & Erun).
  rewrite Erun in Hrun. assert (NoDup (keys s1)) as Hn1.
  { unfold keys. rewrite Es1. apply replaceServer_nodup, H. }
  destruct (named_primary s1 d s') as (s0 & Es0 & Et0 & Ev0 & Ee0 & E0);
    [|by rewrite En1|exact Hrun|].
  { unfold keys. rewrite Es1. apply (list_elem_of_fmap_2 skey), elem_of_replaceServer; [apply H|by left]. }
  unfold TopologyStateMachine.takePrimary in E0. rewrite Ev, Ee, Ev0, Ee0, Ev1, Ee1, Hstale in E0.
  assert (getType s0 ≠ kSingle) as T0 by congruence.
  installed (ofAddress (_address d)) s0 T0 s2. rewrite Hinst in E0.
  injection E0 as <-. pose proof Hheader as [= _ _ Ev2 Ee2].
  assert (∀ x, x ∈ getServers s2 ↔ x = ofAddress (_address d) ∨ (x ∈ getServers s1 ∧ skey x ≠ skey d)) as He.
  { intros x. rewrite Hservers, Es0.
    exact (elem_of_replaceServer (ofAddress (_address d)) (getServers s1) x Hn1). }
  split; [|split; [|simpl; split; congruence]].
  - apply find_some; [|split; [apply He; by left|done]].
    unfold keys. simpl. rewrite Hservers, Es0. by apply replaceServer_nodup.
  - intros x Nx. simpl. rewrite He, Es1, elem_of_replaceServer by apply H. split.
    + by intros [->|[[->|[? _]] _]].
    + intros Hx. right. split; [by right|done].
Qed.

(** When a replica set's topology adopts a primary's reply, one with the right
    set name whose versions are not stale, its members are exactly the addresses the
    primary lists, the new ones as yet unknown, and a primary that lists itself is
    the topology's primary. *)
Theorem primary_defines_membership c s d s' :
  WellTyped s → getType s ≠ kSingle → getType s ≠ kSharded →
  _type d = kRSPrimary → skey d ∈ keys s →
  getSetName s = None ∨ getSetName s = _setName d →
  (∀ v e, _setVersion d = Some v → _electionId d = Some e →
    TopologyStateMachine.isStalePrimary (getMaxSetVersion s) (getMaxElectionId s) v e = false) →
  TopologyStateMachine.onServerDescription c s d = Some s' →
  (∀ k, k ∈ keys s' ↔ k ∈ listed d)
  ∧ (skey d ∈ listed d → getPrimary s' = Some (Some d)).
Proof.
  intros H Ts Th Td Hd Hname Hfresh Hrun.
  destruct (machine_ok c s d H) as (s'' & Es'' & H'); [unfold named; by rewrite Td|].
  rewrite Hrun in Es''. injection Es'' as <-.
  destruct (primary_reply c s d H Ts Th Td Hd) as (s1 & Es1 & Et1 & En1 & Ev1 & Ee1 & Erun).
  rewrite Erun in Hrun.
  assert (d ∈ getServers s1) as Hd1.
  { rewrite Es1. apply elem_of_replaceServer; [apply H|by left]. }
  assert (Loose d s1) as L1.
  { apply (installed_loose d s); [done|done|by rewrite Et1| |by rewrite Td].
    destruct (getType s) eqn:Ty; auto; done. }
  destruct (named_primary s1 d s') as (s0 & Es0 & Et0 & Ev0 & Ee0 & E0);
    [by apply (list_elem_of_fmap_2 skey)|by rewrite En1|exact Hrun|].
  destruct (fresh_adopts s0 d s') as (s2 & Es2 & Et2 & E2); [|exact E0|].
  { intros v e Hv He. rewrite Ev0, Ee0, Ev1, Ee1. by apply Hfresh. }
  destruct (adoptPrimary_members d s2 s') as [Hk Hp]; [|done|].
  { apply (loose_same d s1); [congruence|congruence|done]. }
  split; [done|]. intros Hl. apply primary_found; [done|by eapply adoptPrimary_type| |].
  { apply Hp; [by rewrite Es2, Es0|done]. }
  unfold isPrimary. by rewrite Td.
Qed.

Lemma stale_primary_refused_witness :
  ∃ s', TopologyStateMachine.onServerDescription seedA afterA (descriptionOf hostB 1 9) = Some s'
        ∧ findServerByAddress hostB s' = Some (ofAddress hostB).
Proof.
  destruct (TopologyStateMachine.onServerDescription seedA afterA (descriptionOf hostB 1 9))
    as [s'|] eqn:E.
  - exists s'. split; [reflexivity|].
    assert (getType afterA = kReplicaSetWithPrimary) as Ht by (vm_compute; reflexivity).
    refine (proj1 (stale_primary_refused seedA afterA (descriptionOf hostB 1 9) s' 1 9
                     afterA_typed _ _ _ _ _ _ _ _ E)).
    + rewrite Ht. discriminate.
    + rewrite Ht. discriminate.
    + vm_compute. reflexivity.
    + apply contains_spec. vm_compute. reflexivity.
    + right. vm_compute. reflexivity.
    + vm_compute. reflexivity.
    + vm_compute. reflexivity.
    + vm_compute. reflexivity.
  - exfalso. revert E. vm_compute. discriminate.
Defined.

Lemma primary_defines_membership_witness :
  ∃ s', TopologyStateMachine.onServerDescription seedA afterA (descriptionOf hostB 2 8) = Some s'
        ∧ getPrimary s' = Some (Some (descriptionOf hostB 2 8)).
Proof.
  destruct (TopologyStateMachine.onServerDescription seedA afterA (descriptionOf hostB 2 8))
    as [s'|] eqn:E.
  - exists s'. split; [reflexivity|].
    assert (getType afterA = kReplicaSetWithPrimary) as Ht by (vm_compute; reflexivity).
    refine (proj2 (primary_defines_membership seedA afterA (descriptionOf hostB 2 8) s'
                     afterA_typed _ _ _ _ _ _ E) _).
    + rewrite Ht. discriminate.
    + rewrite Ht. discriminate.
    + vm_compute. reflexivity.
    + apply contains_spec. vm_compute. reflexivity.
    + right. vm_compute. reflexivity.
    + intros v e [= <-] [= <-]. vm_compute. reflexivity.
    + apply inSet_key. vm_compute. reflexivity.
  - exfalso. revert E. vm_compute. discriminate.
Defined.

(** ** What the model shows of the code *)

(** A standalone server is never installed as one unless the topology is a single
    server, so that the transitions on [kStandalone] are never taken. *)
Lemma standalone_never_dispatched s d :
  getType s ≠ kSingle → _type (TopologyStateMachine.toInstall s d) ≠ kStandalone.
Proof.
  intros Ht. unfold TopologyStateMachine.toInstall. rewrite bool_decide_false by done. cbn [negb andb].
  by destruct (bool_decide (_type d = kStandalone)) eqn:E; [|apply bool_decide_eq_false in E].
Qed.

(** One reply with a set name that is not a string fails the invariant of
    [updateRSWithPrimaryFromMember]. *)
Lemma unnamed_member_aborts :
  ∃ o, run seedA [replyOf hostA true 2 7 1; Outcome 1 o] (create seedA) = None.
Proof.
  exists (IsMasterOutcome.mk hostB
    (inl (Reply.mk 1 NotString Absent false false false true false 0 9 None [] [] [] ∅ None None None None None))
    None None).
  by vm_compute.
Qed.

(** A configuration that starts with a primary passes the checks, and asking the
    fresh topology for its primary fails an invariant. *)
Lemma initial_primary_accepted :
  let c := SdamConfiguration.mk (Some [hostA]) kReplicaSetWithPrimary 10000 None in
  SdamConfiguration.validate c = Some None ∧ getPrimary (create c) = None.
Proof. by vm_compute. Qed.
