(* ===== verification/FieldRef.v ===== *)
(** Dotted field names: src/mongo/db/field_ref.{h,cpp}.  The object keeps views into
    one backing string, the first four of them in place, and replacement strings for
    the parts that were changed; the file models that representation and shows that
    it implements a list of names. *)
From Stdlib Require Import Ascii.
From stdpp Require Import list strings.
From S2P Require Import Prelude.

(** A [std::string] as its bytes. *)
Abbreviation Bytes := (list ascii).
Definition dot : ascii := "."%char.

(** ** The specification: a list of names *)

(** The names between the dots; there is always at least one. *)
Fixpoint splitDots (s : Bytes) : list Bytes :=
  match s with
  | [] => [[]]
  | c :: s' =>
      if bool_decide (c = dot) then [] :: splitDots s'
      else match splitDots s' with
           | p :: ps => (c :: p) :: ps
           | [] => [[c]]
           end
  end.

Fixpoint joinDots (ps : list Bytes) : Bytes :=
  match ps with
  | [] => []
  | [p] => p
  | p :: ps' => p ++ dot :: joinDots ps'
  end.

(** ** The representation *)

Module FieldRef.
Definition kReserveAhead : nat := 4.

Record StringView := mkView { offset : nat; len : nat }.
Definition emptyView : StringView := mkView 0 0.
Definition toStringData (v : StringView) (s : Bytes) : Bytes := take (len v) (drop (offset v) s).

Record t := mk {
  _size : nat;
  _cachedSize : nat;
  _fixed : list (option StringView);
  _variable : list (option StringView);
  _dotted : Bytes;
  _replacements : list Bytes
}.

(** [FieldRef()]. *)
Definition empty : t := mk 0 0 (replicate kReserveAhead None) [] [] [].

Definition numParts (r : t) : nat := _size r.

(** The slot of a part, in place or not; [None] is out of range. *)
Definition slot (i : nat) (r : t) : option (option StringView) :=
  if (i <? kReserveAhead)%nat then _fixed r !! i else _variable r !! (i - kReserveAhead)%nat.
Definition setSlot (i : nat) (v : option StringView) (r : t) : t :=
  if (i <? kReserveAhead)%nat
  then mk (_size r) (_cachedSize r) (<[i := v]> (_fixed r)) (_variable r) (_dotted r) (_replacements r)
  else mk (_size r) (_cachedSize r) (_fixed r) (<[(i - kReserveAhead)%nat := v]> (_variable r))
          (_dotted r) (_replacements r).
(** Writes the slot behind the last part. *)
Definition pushSlot (v : option StringView) (r : t) : t :=
  if (_size r <? kReserveAhead)%nat
  then mk (_size r) (_cachedSize r) (<[_size r := v]> (_fixed r)) (_variable r) (_dotted r) (_replacements r)
  else mk (_size r) (_cachedSize r) (_fixed r) (_variable r ++ [v]) (_dotted r) (_replacements r).

Definition set_size (n : nat) (r : t) : t :=
  mk n (_cachedSize r) (_fixed r) (_variable r) (_dotted r) (_replacements r).
Definition set_replacements (l : list Bytes) (r : t) : t :=
  mk (_size r) (_cachedSize r) (_fixed r) (_variable r) (_dotted r) l.

Definition getPart (i : nat) (r : t) : option Bytes :=
  invariant (i <? _size r)%nat ;;
  part ← slot i r;
  match part with
  | Some v => Some (toStringData v (_dotted r))
  | None => _replacements r !! i
  end.

(** All the parts, as the loops over them read them. *)
Definition getParts (r : t) : option (list Bytes) := mapM (λ i, getPart i r) (seq 0 (_size r)).

Definition clear (r : t) : t := mk 0 0 (_fixed r) [] [] [].

Definition appendParsedPart (v : StringView) (r : t) : t :=
  let r := pushSlot (Some v) r in
  mk (S (_size r)) (S (_cachedSize r)) (_fixed r) (_variable r) (_dotted r) (_replacements r).

(** The loop of [parse] over the rest of the string, at [cur], for a part that began
    at [beg]. *)
Fixpoint parseLoop (rest : Bytes) (beg cur : nat) (r : t) : t :=
  let part := if bool_decide (cur = beg) then emptyView else mkView beg (cur - beg) in
  match rest with
  | [] => appendParsedPart part r
  | c :: rest' =>
      if bool_decide (c = dot) then parseLoop rest' (S cur) (S cur) (appendParsedPart part r)
      else parseLoop rest' beg (S cur) r
  end.

Definition parse (path : Bytes) (r : t) : t :=
  let r := clear r in
  if bool_decide (path = []) then r else
  parseLoop path 0 0 (mk (_size r) (_cachedSize r) (_fixed r) (_variable r) path (_replacements r)).

(** [_replacements.resize(_size)] the first time that a part is replaced. *)
Definition startReplacing (r : t) : t :=
  if bool_decide (_replacements r = []) then set_replacements (replicate (_size r) []) r else r.

(** The debug assertion is the range that the writes need. *)
Definition setPart (i : nat) (part : Bytes) (r : t) : option t :=
  invariant (i <? _size r)%nat ;;
  let r := startReplacing r in
  Some (setSlot i None (set_replacements (<[i := part]> (_replacements r)) r)).

Definition appendPart (part : Bytes) (r : t) : t :=
  let r := startReplacing r in
  let r := pushSlot None (set_replacements (_replacements r ++ [part]) r) in
  set_size (S (_size r)) r.

Definition removeLastPart (r : t) : t :=
  if (_size r =? 0)%nat then r else
  let r := set_replacements (removelast (_replacements r)) r in
  let r := if (kReserveAhead <? _size r)%nat
           then mk (_size r) (_cachedSize r) (_fixed r) (removelast (_variable r)) (_dotted r)
                   (_replacements r)
           else r in
  set_size (_size r - 1) r.

Fixpoint shiftParts (n i : nat) (r : t) : option t :=
  match n with
  | O => Some r
  | S n' => p ← getPart (S i) r; r' ← setPart i p r; shiftParts n' (S i) r'
  end.
Definition removeFirstPart (r : t) : option t :=
  if (_size r =? 0)%nat then Some r else
  r ← shiftParts (_size r - 1) 0 r; Some (removeLastPart r).

(** Each part's view is moved to where it now is. *)
Fixpoint fixup (n i where_ : nat) (r : t) : option t :=
  match n with
  | O => Some r
  | S n' =>
      part ← slot i r;
      size ← match part with Some v => Some (len v) | None => length <$> _replacements r !! i end;
      let end_ := length (_dotted r) in
      invariant (negb (bool_decide (where_ = end_))
                 || (bool_decide (size = 0%nat) && bool_decide (i = (_size r - 1)%nat))) ;;
      let r := setSlot i (Some (if bool_decide (size = 0%nat) then emptyView
                                else mkView where_ size)) r in
      let where_ := (where_ + size)%nat in
      fixup n' (S i) (if bool_decide (where_ = end_) then where_ else S where_) r
  end.

Definition reserialize (r : t) : option t :=
  ps ← getParts r;
  let r := mk (_size r) (_size r) (_fixed r) (_variable r) (joinDots ps) (_replacements r) in
  r ← fixup (_size r) 0 0 r;
  Some (set_replacements [] r).

(** [dottedSubstring] is logically constant but may reserialize. *)
Definition charsOf (ps : list Bytes) : nat := sum_list_with (S ∘ length) ps.
Definition dottedSubstring (startPart endPart : nat) (r : t) : option (Bytes * t) :=
  if (_size r =? 0)%nat || (endPart <=? startPart)%nat || (numParts r <? endPart)%nat
  then Some ([], r) else
  r ← (if negb (bool_decide (_replacements r = [])) || negb (_size r =? _cachedSize r)%nat
       then reserialize r else Some r);
  if (startPart =? 0)%nat && (endPart =? numParts r)%nat then Some (_dotted r, r) else
  ps ← getParts r;
  let startChar := charsOf (take startPart ps) in
  let endChar := (startChar + charsOf (take (endPart - startPart) (drop startPart ps)))%nat in
  let endChar := if (endPart =? numParts r)%nat then endChar else (endChar - 1)%nat in
  invariant (startChar <=? length (_dotted r))%nat ;;
  Some (take (endChar - startChar) (drop startChar (_dotted r)), r).

Definition dottedField (offset : nat) (r : t) : option (Bytes * t) :=
  dottedSubstring offset (numParts r) r.

(** The loop of [commonPrefixSize] up to [n] more parts. *)
Fixpoint commonLoop (n prefixSize : nat) (a b : t) : option nat :=
  match n with
  | O => Some prefixSize
  | S n' =>
      p ← getPart prefixSize a;
      q ← getPart prefixSize b;
      if bool_decide (p = q) then commonLoop n' (S prefixSize) a b else Some prefixSize
  end.
Definition commonPrefixSize (a b : t) : option nat :=
  if (_size a =? 0)%nat || (_size b =? 0)%nat then Some 0%nat
  else commonLoop (_size a `min` _size b) 0 a b.

Definition isPrefixOf (a b : t) : option bool :=
  if (_size b <=? _size a)%nat then Some false
  else if (_size a =? 0)%nat then Some false
  else
    common ← commonPrefixSize a b;
    Some ((common =? _size a)%nat && (common <? _size b)%nat).

(** [other] is consumed part by part. *)
Fixpoint equalsLoop (ps : list Bytes) (rest : Bytes) : bool :=
  match ps with
  | [] => false
  | p :: ps' =>
      if negb (bool_decide (take (length p) rest = p)) then false
      else if bool_decide (ps' = []) then bool_decide (length rest = length p)
      else if bool_decide (length rest = length p) then false
      else if negb (bool_decide (rest !! length p = Some dot)) then false
      else equalsLoop ps' (drop (S (length p)) rest)
  end.
Definition equalsDottedField (other : Bytes) (r : t) : option bool :=
  ps ← getParts r; Some (equalsLoop ps other).
End FieldRef.

(** [expression::isPathPrefixOf], on the strings themselves. *)
Definition isPathPrefixOf (first second : Bytes) : bool :=
  if (length second <=? length first)%nat then false
  else bool_decide (take (length first) second = first)
       && bool_decide (second !! length first = Some dot).
