(* ===== verification/FieldRefProps.v ===== *)
(** The representation of dotted field names implements lists of names, the names
    survive a round trip through the dotted string, and the comparisons on strings
    agree with those on names. *)
From Stdlib Require Import Ascii.
From stdpp Require Import list strings.
From S2P Require Import Prelude FieldRef.
Import FieldRef.

(** ** Names and dotted strings *)

Definition noDot (p : Bytes) : Prop := dot ∉ p.

Lemma splitDots_nonempty s : splitDots s ≠ [].
Proof.
  induction s as [|c s IH]; simpl; [done|].
  case_bool_decide; [done|]. by destruct (splitDots s).
Qed.

Lemma join_cons p ps : ps ≠ [] → joinDots (p :: ps) = p ++ dot :: joinDots ps.
Proof. by destruct ps. Qed.

Lemma join_split s : joinDots (splitDots s) = s.
Proof.
  induction s as [|c s IH]; simpl; [done|]. pose proof (splitDots_nonempty s) as Hne.
  case_bool_decide as Hc.
  - rewrite join_cons by done. by rewrite IH, Hc.
  - destruct (splitDots s) as [|p ps]; [done|]. rewrite <- IH. by destruct ps.
Qed.

Lemma split_noDot s : Forall noDot (splitDots s).
Proof.
  unfold noDot. induction s as [|c s IH]; simpl.
  - constructor; [apply not_elem_of_nil|constructor].
  - case_bool_decide as Hc; [constructor; [apply not_elem_of_nil|done]|].
    destruct (splitDots s) as [|p ps]; [constructor; [set_solver|constructor]|].
    apply Forall_cons in IH as [Hp Hps]. constructor; [|done]. by apply not_elem_of_cons.
Qed.

Lemma split_app p s : noDot p →
  splitDots (p ++ s) = match splitDots s with q :: qs => (p ++ q) :: qs | [] => [] end.
Proof.
  unfold noDot. induction p as [|c p IH]; intros Hp; simpl.
  - pose proof (splitDots_nonempty s). by destruct (splitDots s).
  - apply not_elem_of_cons in Hp as [Hc Hp]. rewrite bool_decide_false by done. rewrite IH by done.
    pose proof (splitDots_nonempty s). by destruct (splitDots s).
Qed.

Lemma split_noDot_id p : noDot p → splitDots p = [p].
Proof. intros Hp. rewrite <- (app_nil_r p) at 1. rewrite split_app by done. simpl. by rewrite app_nil_r. Qed.

Lemma split_join ps : ps ≠ [] → Forall noDot ps → splitDots (joinDots ps) = ps.
Proof.
  induction ps as [|p ps IH]; [done|]. intros _ [Hp Hps]%Forall_cons.
  destruct (decide (ps = [])) as [->|Hne]; [by apply split_noDot_id|].
  rewrite join_cons, split_app by done. cbn [splitDots]. rewrite bool_decide_true by done.
  rewrite IH by done. by rewrite app_nil_r.
Qed.

(** ** Where a part is in the dotted string *)

Lemma charsOf_app ps qs : charsOf (ps ++ qs) = (charsOf ps + charsOf qs)%nat.
Proof. apply sum_list_with_app. Qed.

Lemma join_app ps qs : qs ≠ [] →
  joinDots (ps ++ qs) = mjoin ((λ p, p ++ [dot]) <$> ps) ++ joinDots qs.
Proof.
  intros Hq. induction ps as [|p ps IH]; [done|].
  rewrite <- app_comm_cons, join_cons by (by destruct ps).
  rewrite IH, fmap_cons. cbn [mjoin list_join]. by rewrite <- !app_assoc.
Qed.

Lemma dotted_length ps : length (mjoin ((λ p, p ++ [dot]) <$> ps)) = charsOf ps.
Proof.
  unfold charsOf. induction ps as [|p ps IH]; csimpl; [done|].
  rewrite !length_app, IH. simpl. lia.
Qed.

Lemma join_length ps : ps ≠ [] → S (length (joinDots ps)) = charsOf ps.
Proof.
  induction ps as [|p ps IH]; [done|]. intros _.
  destruct (decide (ps = [])) as [->|Hne]; [unfold charsOf; simpl; lia|].
  rewrite join_cons, length_app by done. cbn [length]. specialize (IH Hne).
  unfold charsOf in *. cbn [sum_list_with]. simpl in *. lia.
Qed.

(** Part [i] starts at the characters and dots before it. *)
Lemma join_at ps i p :
  ps !! i = Some p →
  let off := charsOf (take i ps) in
  take (length p) (drop off (joinDots ps)) = p
  ∧ (off + length p <= length (joinDots ps))%nat
  ∧ (off + length p = length (joinDots ps) ↔ S i = length ps)%nat.
Proof.
  intros Hi. simpl. pose proof (take_drop_middle ps i p Hi) as E.
  pose proof (lookup_lt_Some _ _ _ Hi) as Hlt. set (pre := take i ps) in *.
  set (post := drop (S i) ps) in *.
  assert (length ps = (i + S (length post))%nat) as El.
  { rewrite <- E, length_app. unfold pre. rewrite length_take_le by lia. simpl. lia. }
  rewrite El. rewrite <- E at 1 2 3. rewrite join_app by done. rewrite <- (dotted_length pre).
  rewrite drop_app_length, length_app.
  destruct (decide (post = [])) as [Hp|Hp].
  - rewrite Hp in *. cbn [joinDots]. rewrite firstn_all. cbn [length]. split; [done|]. lia.
  - rewrite join_cons by done. rewrite take_app_length, length_app. cbn [length].
    clearbody post. destruct post; [done|]. cbn [length]. split; [done|]. lia.
Qed.

(** ** The representation invariant *)

(** A slot holds the part [p]: a view that is inside the backing string, or nothing,
    with the part among the replacements. *)
Definition holds (dotted : Bytes) (reps : list Bytes) (i : nat) (o : option StringView) (p : Bytes)
    : Prop :=
  match o with
  | Some v => toStringData v dotted = p
              ∧ (len v = 0%nat ∨ (offset v + len v <= length dotted)%nat) ∧ len v = length p
  | None => reps !! i = Some p
  end.

(** The object represents the names [ps]. *)
Record Rep (r : t) (ps : list Bytes) : Prop := {
  rep_size : _size r = length ps;
  rep_fixed : length (_fixed r) = kReserveAhead;
  rep_variable : length (_variable r) = (_size r - kReserveAhead)%nat;
  rep_replacements : _replacements r = [] ∨ length (_replacements r) = _size r;
  rep_part : ∀ i p, ps !! i = Some p →
    ∃ o, slot i r = Some o ∧ holds (_dotted r) (_replacements r) i o p;
  rep_dotted : _replacements r = [] → _size r = _cachedSize r → ps ≠ [] → _dotted r = joinDots ps;
  rep_cached : _replacements r = [] → (_size r <= _cachedSize r)%nat
}.

Section Representation.
Implicit Types (r : t) (ps : list Bytes).

Lemma slot_range r i :
  length (_fixed r) = kReserveAhead → length (_variable r) = (_size r - kReserveAhead)%nat →
  (i < _size r)%nat → is_Some (slot i r).
Proof.
  intros Hf Hv Hi. unfold slot. destruct (i <? kReserveAhead)%nat eqn:E.
  - apply lookup_lt_is_Some. rewrite Hf. by apply Nat.ltb_lt.
  - apply lookup_lt_is_Some. rewrite Hv. apply Nat.ltb_ge in E. unfold kReserveAhead in *. lia.
Qed.

Lemma getPart_rep r ps i : Rep r ps → getPart i r = ps !! i.
Proof.
  intros H. unfold getPart. rewrite (rep_size _ _ H). destruct (ps !! i) as [p|] eqn:Hi.
  - pose proof (lookup_lt_Some _ _ _ Hi) as Hlt. apply Nat.ltb_lt in Hlt as ->.
    destruct (rep_part _ _ H i p Hi) as (o & -> & Ho). cbn [mbind option_bind].
    destruct o as [v|]; [|done]. by destruct Ho as [-> _].
  - apply lookup_ge_None in Hi. by apply Nat.ltb_ge in Hi as ->.
Qed.

Lemma getParts_rep r ps : Rep r ps → getParts r = Some ps.
Proof.
  intros H. unfold getParts. apply mapM_Some.
  assert (∀ k qs, (∀ i, qs !! i = ps !! (k + i)%nat) →
    Forall2 (λ i p, getPart i r = Some p) (seq k (length qs)) qs) as Hgen.
  { intros k qs. revert k. induction qs as [|q qs IH]; intros k Hq; simpl; constructor.
    - rewrite (getPart_rep r ps) by done. specialize (Hq 0%nat). by rewrite Nat.add_0_r in Hq.
    - apply IH. intros i. specialize (Hq (S i)). by replace (S k + i)%nat with (k + S i)%nat by lia. }
  rewrite (rep_size _ _ H). by apply Hgen.
Qed.

(** Reading and writing slots. *)
Lemma slot_setSlot_ne i j v r : i ≠ j → slot i (setSlot j v r) = slot i r.
Proof.
  intros Hne. unfold slot, setSlot.
  destruct (j <? kReserveAhead)%nat eqn:Ej, (i <? kReserveAhead)%nat eqn:Ei; simpl; try done;
    apply list_lookup_insert_ne; [done|]. apply Nat.ltb_ge in Ei, Ej. lia.
Qed.

Lemma slot_setSlot i v r : is_Some (slot i r) → slot i (setSlot i v r) = Some v.
Proof.
  unfold slot, setSlot. destruct (i <? kReserveAhead)%nat; simpl; intros H%lookup_lt_is_Some;
    by apply list_lookup_insert_eq.
Qed.

(** What a write to a slot leaves alone. *)
Definition shape r : nat * nat * nat * nat * Bytes * list Bytes :=
  (_size r, _cachedSize r, length (_fixed r), length (_variable r), _dotted r, _replacements r).

Lemma shape_setSlot i v r : shape (setSlot i v r) = shape r.
Proof. unfold shape, setSlot. destruct (_ <? _)%nat; simpl; by rewrite length_insert. Qed.

Lemma slot_pushSlot_lt i v r :
  (i < _size r)%nat → length (_variable r) = (_size r - kReserveAhead)%nat →
  slot i (pushSlot v r) = slot i r.
Proof.
  intros Hi Hv. unfold slot, pushSlot.
  destruct (_size r <? kReserveAhead)%nat eqn:Es, (i <? kReserveAhead)%nat eqn:Ei; simpl; try done.
  - apply list_lookup_insert_ne. lia.
  - apply lookup_app_l. rewrite Hv. apply Nat.ltb_ge in Ei, Es. unfold kReserveAhead in *. lia.
Qed.

Lemma slot_pushSlot v r :
  length (_fixed r) = kReserveAhead → length (_variable r) = (_size r - kReserveAhead)%nat →
  slot (_size r) (pushSlot v r) = Some v.
Proof.
  intros Hf Hv. unfold slot, pushSlot. destruct (_size r <? kReserveAhead)%nat eqn:Es; simpl.
  - apply Nat.ltb_lt in Es. apply list_lookup_insert_eq. lia.
  - rewrite lookup_app_r by lia. rewrite Hv, Nat.sub_diag. done.
Qed.

Lemma pushSlot_lengths v r :
  length (_fixed r) = kReserveAhead → length (_variable r) = (_size r - kReserveAhead)%nat →
  length (_fixed (pushSlot v r)) = kReserveAhead
  ∧ length (_variable (pushSlot v r)) = (S (_size r) - kReserveAhead)%nat
  ∧ _size (pushSlot v r) = _size r ∧ _cachedSize (pushSlot v r) = _cachedSize r
  ∧ _dotted (pushSlot v r) = _dotted r ∧ _replacements (pushSlot v r) = _replacements r.
Proof.
  intros Hf Hv. unfold pushSlot. destruct (_size r <? kReserveAhead)%nat eqn:Es; simpl.
  - apply Nat.ltb_lt in Es. rewrite length_insert, Hv. unfold kReserveAhead in *. repeat split; lia.
  - apply Nat.ltb_ge in Es. rewrite length_app, Hv. simpl. unfold kReserveAhead in *. repeat split; lia.
Qed.

(** ** Parsing *)

(** The state of [parse] in the middle: the parts found so far are views. *)
Record Parsed r ps : Prop := {
  pa_size : _size r = length ps;
  pa_cached : _cachedSize r = _size r;
  pa_fixed : length (_fixed r) = kReserveAhead;
  pa_variable : length (_variable r) = (_size r - kReserveAhead)%nat;
  pa_replacements : _replacements r = [];
  pa_part : ∀ i p, ps !! i = Some p →
    ∃ v, slot i r = Some (Some v) ∧ holds (_dotted r) [] i (Some v) p
}.

Lemma appendParsed_ok r ps v p :
  Parsed r ps → holds (_dotted r) [] (length ps) (Some v) p →
  Parsed (appendParsedPart v r) (ps ++ [p]) ∧ _dotted (appendParsedPart v r) = _dotted r.
Proof.
  intros H Hv. unfold appendParsedPart.
  destruct (pushSlot_lengths (Some v) r (pa_fixed _ _ H) (pa_variable _ _ H))
    as (L1 & L2 & L3 & L4 & L5 & L6).
  split; [|done]. split; simpl.
  - rewrite L3, length_app, (pa_size _ _ H). simpl. lia.
  - rewrite L3, L4. by rewrite (pa_cached _ _ H).
  - done.
  - by rewrite L3, L2.
  - by rewrite L6, (pa_replacements _ _ H).
  - intros i q Hi. unfold slot. simpl. fold (slot i (pushSlot (Some v) r)). rewrite L5.
    apply lookup_app_Some in Hi as [Hi|[Hge Hi]].
    + rewrite slot_pushSlot_lt; [by apply (pa_part _ _ H)| |apply H].
      rewrite (pa_size _ _ H). by eapply lookup_lt_Some.
    + destruct (i - length ps)%nat eqn:Ei; [|done]. injection Hi as <-.
      assert (i = _size r) as -> by (rewrite (pa_size _ _ H); lia).
      rewrite slot_pushSlot; [|apply H..]. exists v. split; [done|exact Hv].
Qed.

Lemma parseLoop_ok rest beg cur r ps part :
  Parsed r ps → (beg + length part)%nat = cur →
  (cur + length rest)%nat = length (_dotted r) → drop beg (_dotted r) = part ++ rest → noDot part →
  ∃ qs, Parsed (parseLoop rest beg cur r) (ps ++ qs) ∧ qs = splitDots (part ++ rest)
        ∧ _dotted (parseLoop rest beg cur r) = _dotted r.
Proof.
  revert beg cur r ps part. induction rest as [|c rest IH]; intros beg cur r ps part H Hcur Hlen Hd Hp;
    cbn [parseLoop].
  - assert (holds (_dotted r) [] (length ps)
      (Some (if bool_decide (cur = beg) then emptyView else mkView beg (cur - beg))) part) as Hh.
    { case_bool_decide as E; unfold holds, toStringData; simpl.
      - assert (length part = 0%nat) by lia. destruct part; [|done]. split; [done|]. split; [by left|done].
      - rewrite Hd, app_nil_r, firstn_all2 by lia. split; [done|]. simpl in Hlen. split; lia. }
    destruct (appendParsed_ok _ _ _ _ H Hh) as [H1 H2]. eexists. split; [exact H1|].
    rewrite app_nil_r. split; [by rewrite split_noDot_id|done].
  - case_bool_decide as Hc.
    + subst c.
      assert (holds (_dotted r) [] (length ps)
        (Some (if bool_decide (cur = beg) then emptyView else mkView beg (cur - beg))) part) as Hh.
      { case_bool_decide as E; unfold holds, toStringData; simpl.
        - assert (length part = 0%nat) by lia. destruct part; [|done]. split; [done|]. split; [by left|done].
        - rewrite Hd. replace (cur - beg)%nat with (length part) by lia.
          rewrite take_app_length. split; [done|]. simpl in Hlen. split; lia. }
      destruct (appendParsed_ok _ _ _ _ H Hh) as [H1 H2].
      destruct (IH (S cur) (S cur) _ _ [] H1) as (qs & Q1 & Q2 & Q3).
      * simpl. lia.
      * rewrite H2. simpl in Hlen. lia.
      * rewrite H2. replace (S cur) with (beg + length (part ++ [dot]))%nat.
        2:{ rewrite length_app. simpl. lia. }
        rewrite <- drop_drop, Hd. rewrite <- (drop_app_length (part ++ [dot]) rest) at 2.
        by rewrite <- app_assoc.
      * apply not_elem_of_nil.
      * exists (part :: qs). rewrite <- app_assoc in Q1. split; [done|].
        split; [|by rewrite Q3]. rewrite split_app by done. cbn [splitDots].
        rewrite bool_decide_true by done. by rewrite app_nil_r, Q2.
    + destruct (IH beg (S cur) r ps (part ++ [c]) H) as (qs & Q1 & Q2 & Q3).
      * rewrite length_app. simpl. lia.
      * simpl in Hlen. lia.
      * by rewrite <- app_assoc.
      * unfold noDot. rewrite elem_of_app, list_elem_of_singleton. intros [?|E]; [done|]. by destruct Hc.
      * exists qs. split; [done|]. split; [|done]. by rewrite Q2, <- app_assoc.
Qed.

Lemma parse_rep r s :
  length (_fixed r) = kReserveAhead →
  Rep (parse s r) (if bool_decide (s = []) then [] else splitDots s).
Proof.
  intros Hf. unfold parse. case_bool_decide as Hs.
  { split; simpl; try done; try lia. }
  destruct (parseLoop_ok s 0 0 (mk 0 0 (_fixed r) [] s []) [] []) as (qs & H & E & Ed); try done.
  - apply not_elem_of_nil.
  - simpl in *. subst qs. split; try apply H.
    + left. apply H.
    + intros i p Hi. destruct (pa_part _ _ H i p Hi) as (v & Ev & Hv). exists (Some v). done.
    + intros _ _ _. rewrite Ed. symmetry. apply join_split.
    + intros _. by rewrite (pa_cached _ _ H).
Qed.

(** ** Changing parts *)

Lemma startReplacing_rep r ps :
  Rep r ps →
  Rep (startReplacing r) ps ∧ length (_replacements (startReplacing r)) = _size r
  ∧ _size (startReplacing r) = _size r.
Proof.
  intros H. unfold startReplacing. case_bool_decide as Hr.
  - split; [|split; [apply length_replicate|done]].
    destruct H as [Hs Hf Hv _ Hp Hd Hc]. split; simpl; try done.
    + right. apply length_replicate.
    + intros i p Hi. destruct (Hp i p Hi) as (o & Ho & Hh). exists o. split; [done|].
      destruct o; [done|]. rewrite Hr in Hh. done.
    + intros E. destruct (_size r) eqn:Es; [|done]. destruct ps; [done|]. done.
    + intros E. destruct (_size r); [lia|done].
  - split; [done|]. destruct (rep_replacements _ _ H); [done|]. done.
Qed.

Lemma setPart_rep r ps i p :
  Rep r ps → (i < length ps)%nat → ∃ r', setPart i p r = Some r' ∧ Rep r' (<[i:=p]> ps).
Proof.
  intros H Hi. destruct (startReplacing_rep r ps H) as (H0 & Hl & Hsz).
  unfold setPart. rewrite (rep_size _ _ H). pose proof Hi as Hb. apply Nat.ltb_lt in Hb as ->.
  eexists. split; [done|]. set (r0 := startReplacing r) in *.
  set (r1 := set_replacements (<[i:=p]> (_replacements r0)) r0).
  pose proof (shape_setSlot i None r1) as [= E1 E2 E3 E4 E5 E6].
  assert (∀ j, slot j r1 = slot j r0) as Es by done.
  split; rewrite ?E1, ?E3, ?E4, ?E5, ?E6.
  - rewrite length_insert. apply H0.
  - apply H0.
  - apply H0.
  - right. simpl. by rewrite length_insert, Hl, Hsz.
  - intros j q Hj. destruct (decide (j = i)) as [->|Hne].
    + rewrite list_lookup_insert_eq in Hj by done. injection Hj as <-. exists None. split.
      * apply slot_setSlot. rewrite Es. apply slot_range; [apply H0..|]. by rewrite (rep_size _ _ H0).
      * simpl. apply list_lookup_insert_eq. by rewrite Hl, (rep_size _ _ H).
    + rewrite list_lookup_insert_ne in Hj by done.
      destruct (rep_part _ _ H0 j q Hj) as (o & Ho & Hh). exists o.
      rewrite slot_setSlot_ne, Es by done. split; [done|].
      destruct o; [done|]. simpl in *. by rewrite list_lookup_insert_ne.
  - intros E. apply (f_equal length) in E. simpl in E. rewrite length_insert, Hl, (rep_size _ _ H) in E. lia.
  - intros E. apply (f_equal length) in E. simpl in E. rewrite length_insert, Hl, (rep_size _ _ H) in E. lia.
Qed.

Lemma appendPart_rep r ps p : Rep r ps → Rep (appendPart p r) (ps ++ [p]).
Proof.
  intros H. destruct (startReplacing_rep r ps H) as (H0 & Hl & Hsz).
  unfold appendPart. set (r0 := startReplacing r) in *.
  set (r1 := set_replacements (_replacements r0 ++ [p]) r0).
  destruct (pushSlot_lengths None r1 (rep_fixed _ _ H0) (rep_variable _ _ H0))
    as (L1 & L2 & L3 & L4 & L5 & L6).
  assert (_size r1 = length ps) as Esz by apply H0.
  split; simpl; rewrite ?L3, ?L4, ?L5, ?L6.
  - rewrite length_app, Esz. simpl. lia.
  - done.
  - by rewrite L2.
  - right. simpl. rewrite length_app, Hl, <- Hsz. simpl. lia.
  - intros i q Hi. unfold slot. simpl. fold (slot i (pushSlot None r1)).
    apply lookup_app_Some in Hi as [Hi|[Hge Hi]].
    + rewrite slot_pushSlot_lt; [|rewrite Esz; by eapply lookup_lt_Some|apply H0].
      destruct (rep_part _ _ H0 i q Hi) as (o & Ho & Hh). exists o. split; [done|].
      destruct o; [done|]. simpl in *. by rewrite (lookup_app_l_Some _ _ _ _ Hh).
    + destruct (i - length ps)%nat eqn:Ei; [|done]. injection Hi as <-.
      assert (i = _size r1) as -> by lia. rewrite slot_pushSlot; [|apply H0..].
      exists None. split; [done|]. simpl. rewrite lookup_app_r; rewrite Hl, <- Hsz; [|simpl; lia].
      change (_size r1) with (_size r0). by rewrite Nat.sub_diag.
  - intros E. by apply app_nil in E as [_ E].
  - intros E. by apply app_nil in E as [_ E].
Qed.

Lemma removelast_take {A} (l : list A) : removelast l = take (length l - 1) l.
Proof. rewrite removelast_firstn_len. f_equal. lia. Qed.

Lemma lookup_removelast {A} (l : list A) i : (i < length l - 1)%nat → removelast l !! i = l !! i.
Proof. intros Hi. rewrite removelast_take. by apply lookup_take_lt. Qed.

Lemma length_removelast {A} (l : list A) : length (removelast l) = (length l - 1)%nat.
Proof. rewrite removelast_take, length_take. lia. Qed.

Lemma removeLastPart_rep r ps : Rep r ps → Rep (removeLastPart r) (removelast ps).
Proof.
  intros H. unfold removeLastPart. pose proof (rep_size _ _ H) as Hs.
  destruct (_size r =? 0)%nat eqn:E0.
  { apply Nat.eqb_eq in E0. destruct ps; [done|]. simpl in Hs. lia. }
  apply Nat.eqb_neq in E0. set (r1 := set_replacements (removelast (_replacements r)) r).
  change (_size r1) with (_size r).
  set (r2 := if (kReserveAhead <? _size r)%nat then _ else r1).
  assert (_size r2 = _size r ∧ _cachedSize r2 = _cachedSize r ∧ _fixed r2 = _fixed r
    ∧ _dotted r2 = _dotted r ∧ _replacements r2 = removelast (_replacements r)
    ∧ length (_variable r2) = (_size r - 1 - kReserveAhead)%nat
    ∧ ∀ i, (i < _size r - 1)%nat → slot i r2 = slot i r) as (S1 & S2 & S3 & S4 & S5 & S6 & S7).
  { subst r2. destruct (kReserveAhead <? _size r)%nat eqn:Ek; repeat split; try done.
    - simpl. rewrite length_removelast, (rep_variable _ _ H). lia.
    - intros i Hi. unfold slot. simpl. destruct (i <? kReserveAhead)%nat eqn:Ei; [done|].
      apply lookup_removelast. rewrite (rep_variable _ _ H). apply Nat.ltb_ge in Ei. lia.
    - simpl. rewrite (rep_variable _ _ H). apply Nat.ltb_ge in Ek. lia. }
  clearbody r2. split; simpl; rewrite ?S2, ?S3, ?S4, ?S5, ?S6, ?S1.
  - by rewrite length_removelast, Hs.
  - apply H.
  - done.
  - destruct (rep_replacements _ _ H) as [->|E]; [by left|]. right. by rewrite length_removelast, E.
  - intros i p Hi. pose proof (lookup_lt_Some _ _ _ Hi) as Hlt. rewrite length_removelast in Hlt.
    rewrite lookup_removelast in Hi by done. unfold slot. simpl. fold (slot i r2).
    rewrite S7 by lia. destruct (rep_part _ _ H i p Hi) as (o & Ho & Hh). exists o. split; [done|].
    destruct o; [done|]. simpl in *. rewrite lookup_removelast; [done|].
    destruct (rep_replacements _ _ H) as [E|E]; [by rewrite E in Hh|]. lia.
  - intros E Ec Hne. destruct (rep_replacements _ _ H) as [E'|E'].
    + pose proof (rep_cached _ _ H E'). lia.
    + apply (f_equal length) in E. rewrite length_removelast, E', Hs in E. simpl in E.
      destruct Hne. apply nil_length_inv. rewrite length_removelast. lia.
  - intros E. destruct (rep_replacements _ _ H) as [E'|E'].
    + pose proof (rep_cached _ _ H E'). lia.
    + apply (f_equal length) in E. rewrite length_removelast, E' in E. simpl in E. lia.
Qed.

Lemma shiftParts_rep n i r qs :
  Rep r qs → (i + n < length qs)%nat →
  ∃ r' qs', shiftParts n i r = Some r' ∧ Rep r' qs' ∧ length qs' = length qs
    ∧ (∀ j, (i <= j < i + n)%nat → qs' !! j = qs !! S j)
    ∧ (∀ j, (j < i ∨ i + n <= j)%nat → qs' !! j = qs !! j).
Proof.
  revert i r qs. induction n as [|n IH]; intros i r qs H Hn; cbn [shiftParts].
  { exists r, qs. split; [done|]. split; [done|]. split; [done|]. split; [intros; lia|done]. }
  rewrite (getPart_rep r qs) by done.
  destruct (lookup_lt_is_Some_2 qs (S i)) as [p Hp]; [lia|]. rewrite Hp. cbn [mbind option_bind].
  destruct (setPart_rep r qs i p H) as (r1 & -> & H1); [lia|]. cbn [mbind option_bind].
  destruct (IH (S i) r1 (<[i:=p]> qs) H1) as (r' & qs' & E & H' & L & In & Out).
  { rewrite length_insert. lia. }
  exists r', qs'. split; [done|]. split; [done|]. rewrite length_insert in L. split; [done|]. split.
  - intros j Hj. destruct (decide (j = i)) as [->|Hne].
    + rewrite Out by lia. rewrite list_lookup_insert_eq by lia. done.
    + rewrite In by lia. by rewrite list_lookup_insert_ne by lia.
  - intros j Hj. rewrite Out by lia. by rewrite list_lookup_insert_ne by lia.
Qed.

Lemma removeFirstPart_rep r ps :
  Rep r ps → ∃ r', removeFirstPart r = Some r' ∧ Rep r' (tail ps).
Proof.
  intros H. unfold removeFirstPart. pose proof (rep_size _ _ H) as Hs. rewrite Hs.
  destruct ps as [|p ps]; [by exists r|]. cbn [length Nat.eqb].
  destruct (shiftParts_rep (S (length ps) - 1) 0 r (p :: ps) H) as (r' & qs & -> & H' & L & In & _).
  { simpl. lia. }
  cbn [mbind option_bind]. eexists. split; [done|]. cbn [tail].
  replace ps with (removelast qs); [by apply removeLastPart_rep|].
  simpl in L. apply list_eq. intros i. destruct (decide (i < length ps)%nat) as [Hi|Hi].
  - rewrite lookup_removelast by lia. by rewrite In by (simpl; lia).
  - rewrite !lookup_ge_None_2; [done|lia|]. rewrite length_removelast. lia.
Qed.

(** ** Writing the string anew *)

(** The view of part [i] in the joined string. *)
Lemma joined_view ps i p :
  ps !! i = Some p →
  holds (joinDots ps) [] i
    (Some (if bool_decide (length p = 0%nat) then emptyView else mkView (charsOf (take i ps)) (length p))) p.
Proof.
  intros Hi. destruct (join_at ps i p Hi) as (Ht & Hle & _).
  case_bool_decide as E; unfold holds, toStringData; simpl.
  - destruct p; [|done]. split; [done|]. split; [by left|done].
  - split; [done|]. split; [by right|done].
Qed.

(** One step of the loop never meets the end too early, and goes on at the next part. *)
Lemma fixup_position ps i p :
  ps !! i = Some p →
  let where_ := charsOf (take i ps) in
  negb (bool_decide (where_ = length (joinDots ps)))
  || (bool_decide (length p = 0%nat) && bool_decide (i = (length ps - 1)%nat)) = true
  ∧ ((S i < length ps)%nat →
     (if bool_decide ((where_ + length p)%nat = length (joinDots ps)) then (where_ + length p)%nat
      else S (where_ + length p)) = charsOf (take (S i) ps)).
Proof.
  intros Hi. simpl. destruct (join_at ps i p Hi) as (_ & Hle & Hlast).
  pose proof (lookup_lt_Some _ _ _ Hi) as Hlt. split.
  - case_bool_decide as E; [|done]. rewrite !bool_decide_true; [done|lia|lia].
  - intros Hn. rewrite bool_decide_false by lia. rewrite (take_S_r _ _ _ Hi), charsOf_app.
    unfold charsOf. simpl. lia.
Qed.

Lemma fixup_rep ps n i where_ r :
  _size r = length ps → (i + n)%nat = length ps → _dotted r = joinDots ps →
  (n ≠ 0%nat → where_ = charsOf (take i ps)) →
  (∀ j p, (i <= j)%nat → ps !! j = Some p → ∃ o, slot j r = Some o ∧
     match o with Some v => len v = length p | None => _replacements r !! j = Some p end) →
  ∃ r', fixup n i where_ r = Some r' ∧ shape r' = shape r
    ∧ (∀ j, (j < i)%nat → slot j r' = slot j r)
    ∧ (∀ j p, (i <= j)%nat → ps !! j = Some p →
         ∃ v, slot j r' = Some (Some v) ∧ holds (joinDots ps) [] j (Some v) p).
Proof.
  revert i where_ r. induction n as [|n IH]; intros i where_ r Hs Hn Hd Hw Hslots; cbn [fixup].
  { exists r. split; [done|]. split; [done|]. split; [done|]. intros j p Hj Hp.
    apply lookup_lt_Some in Hp. lia. }
  rewrite Hw by done. destruct (lookup_lt_is_Some_2 ps i) as [p Hp]; [lia|].
  destruct (Hslots i p) as (o & Ho & Hlen); [done|done|]. rewrite Ho. cbn [mbind option_bind].
  assert (match o with Some v => Some (len v) | None => length <$> _replacements r !! i end
          = Some (length p)) as ->.
  { destruct o; [by rewrite Hlen|by rewrite Hlen]. }
  cbn [mbind option_bind]. rewrite Hd, Hs. destruct (fixup_position ps i p Hp) as [-> Hnext].
  set (v := if bool_decide (length p = 0%nat) then emptyView else _).
  pose proof (shape_setSlot i (Some v) r) as Hsh. pose proof Hsh as [= E1 _ _ _ E5 E6].
  destruct (IH (S i) _ (setSlot i (Some v) r)
    ltac:(congruence) ltac:(lia) ltac:(congruence) (λ Hne, Hnext ltac:(lia)))
    as (r' & -> & Sh & Lt & Ge).
  { intros j q Hj Hq. rewrite slot_setSlot_ne by lia. rewrite E6. apply Hslots; [lia|done]. }
  assert (slot i (setSlot i (Some v) r) = Some (Some v)) as Hv by by apply slot_setSlot.
  exists r'. split; [done|]. split; [congruence|]. split.
  - intros j Hj. rewrite Lt by lia. apply slot_setSlot_ne. lia.
  - intros j q Hj Hq. destruct (decide (j = i)) as [->|Hne]; [|apply Ge; [lia|done]].
    exists v. rewrite Lt by lia. split; [done|]. rewrite Hp in Hq. injection Hq as <-.
    by apply joined_view.
Qed.

Lemma reserialize_rep r ps :
  Rep r ps →
  ∃ r', reserialize r = Some r' ∧ Rep r' ps ∧ _dotted r' = joinDots ps.
Proof.
  intros H. unfold reserialize. rewrite (getParts_rep r ps) by done. cbn [mbind option_bind].
  set (r0 := mk _ _ _ _ _ _).
  destruct (fixup_rep ps (_size r0) 0 0 r0) as (r1 & -> & Sh & _ & Hv).
  - apply H.
  - apply H.
  - done.
  - done.
  - intros j p _ Hp. destruct (rep_part _ _ H j p Hp) as (o & Ho & Hh). exists o. split; [done|].
    destruct o; [apply Hh|done].
  - cbn [mbind option_bind]. pose proof Sh as [= E1 E2 E3 E4 E5 E6]. eexists. split; [done|].
    split; [|done]. split; simpl; rewrite ?E1, ?E2, ?E3, ?E4, ?E5.
    + apply H.
    + apply H.
    + apply H.
    + by left.
    + intros i p Hi. destruct (Hv i p) as (v & V1 & V2); [lia|done|]. exists (Some v). done.
    + done.
    + done.
Qed.
End Representation.

(** ** Reading the dotted string *)

Definition slice (a b : nat) (ps : list Bytes) : list Bytes := take (b - a) (drop a ps).

Lemma join_app_dot ps qs : ps ≠ [] → qs ≠ [] → joinDots (ps ++ qs) = joinDots ps ++ dot :: joinDots qs.
Proof.
  intros Hp Hq. induction ps as [|p ps IH]; [done|]. destruct (decide (ps = [])) as [->|Hne].
  - rewrite <- app_comm_cons, app_nil_l, join_cons by done. done.
  - rewrite <- app_comm_cons, !join_cons, IH by (done || by destruct ps). by rewrite <- app_assoc.
Qed.

Lemma join_slice ps a b :
  (a < b)%nat → (b <= length ps)%nat →
  let n := charsOf (slice a b ps) in
  (charsOf (take a ps) <= length (joinDots ps))%nat
  ∧ take (if (b =? length ps)%nat then n else n - 1) (drop (charsOf (take a ps)) (joinDots ps))
    = joinDots (slice a b ps).
Proof.
  intros Hab Hb. simpl. set (mid := slice a b ps). set (post := drop b ps).
  assert (take a ps ++ mid ++ post = ps) as E.
  { unfold mid, slice, post. replace (drop b ps) with (drop (b - a) (drop a ps)).
    - by rewrite take_drop, take_drop.
    - rewrite drop_drop. f_equal. lia. }
  assert (mid ≠ []) as Hm.
  { unfold mid, slice. intros E0%(f_equal length). rewrite length_take, length_drop in E0. simpl in E0. lia. }
  assert (length post = (length ps - b)%nat) as Lp by apply length_drop.
  clearbody mid post. rewrite <- E at 2 5. rewrite join_app by (by destruct mid).
  rewrite <- (dotted_length (take a ps)), drop_app_length, length_app. split; [lia|].
  pose proof (join_length mid Hm) as Lm.
  destruct (b =? length ps)%nat eqn:Eb.
  - apply Nat.eqb_eq in Eb. destruct post; [|simpl in Lp; lia]. rewrite app_nil_r.
    apply firstn_all2. lia.
  - apply Nat.eqb_neq in Eb. assert (post ≠ []) as Hp by (intros ->; simpl in Lp; lia).
    rewrite join_app_dot by done. rewrite <- Lm. simpl. rewrite Nat.sub_0_r. apply take_app_length.
Qed.

Section Reading.
Implicit Types (r : t) (ps qs : list Bytes).

Lemma dottedSubstring_rep r ps a b :
  Rep r ps →
  ∃ r', dottedSubstring a b r
        = Some (if (a <? b)%nat && (b <=? length ps)%nat then joinDots (slice a b ps) else [], r')
        ∧ Rep r' ps.
Proof.
  intros H. unfold dottedSubstring, numParts. rewrite !(rep_size _ _ H).
  destruct ((length ps =? 0)%nat || (b <=? a)%nat || (length ps <? b)%nat) eqn:E0.
  { exists r. split; [|done]. do 2 f_equal. destruct (a <? b)%nat eqn:E1, (b <=? length ps)%nat eqn:E2; try done.
    exfalso. apply Nat.ltb_lt in E1. apply Nat.leb_le in E2.
    rewrite !orb_true_iff, Nat.eqb_eq, Nat.leb_le, Nat.ltb_lt in E0. lia. }
  rewrite !orb_false_iff, Nat.eqb_neq, Nat.leb_gt, Nat.ltb_ge in E0. destruct E0 as [[Hn Hab] Hb].
  pose proof Hab as Hab'. apply Nat.ltb_lt in Hab' as ->. pose proof Hb as Hb'. apply Nat.leb_le in Hb' as ->.
  assert (∃ r1, (if negb (bool_decide (_replacements r = [])) || negb (length ps =? _cachedSize r)%nat
                 then reserialize r else Some r) = Some r1 ∧ Rep r1 ps ∧ _dotted r1 = joinDots ps)
    as (r1 & -> & H1 & Hd).
  { destruct (negb (bool_decide (_replacements r = [])) || _) eqn:Ec; [by apply reserialize_rep|].
    exists r. split; [done|]. split; [done|].
    apply orb_false_iff in Ec as [Er%negb_false_iff Ec%negb_false_iff].
    apply bool_decide_eq_true in Er. apply Nat.eqb_eq in Ec.
    apply (rep_dotted _ _ H); [done|by rewrite (rep_size _ _ H)|by intros ->]. }
  cbn [mbind option_bind]. rewrite (rep_size _ _ H1), Hd. cbn [andb].
  destruct ((a =? 0)%nat && (b =? length ps)%nat) eqn:Ef.
  { apply andb_true_iff in Ef as [->%Nat.eqb_eq ->%Nat.eqb_eq]. exists r1. split; [|done].
    do 2 f_equal. unfold slice. by rewrite drop_0, Nat.sub_0_r, firstn_all. }
  rewrite (getParts_rep r1 ps) by done. cbn [mbind option_bind].
  destruct (join_slice ps a b Hab Hb) as [Hle Ht]. pose proof Hle as Hle'.
  apply Nat.leb_le in Hle' as ->. exists r1. split; [|done]. do 2 f_equal. rewrite <- Ht.
  fold (slice a b ps). f_equal. destruct (b =? length ps)%nat; lia.
Qed.

(** ** Comparing *)

Lemma commonLoop_rep n k a b ps qs :
  Rep a ps → Rep b qs → (k + n)%nat = (length ps `min` length qs)%nat → take k ps = take k qs →
  ∃ m, commonLoop n k a b = Some m ∧ (k <= m <= k + n)%nat ∧ take m ps = take m qs
       ∧ ((m < k + n)%nat → ps !! m ≠ qs !! m).
Proof.
  intros Ha Hb. revert k. induction n as [|n IH]; intros k Hn Hk; cbn [commonLoop].
  { exists k. split; [done|]. split; [lia|]. split; [done|lia]. }
  rewrite (getPart_rep a ps), (getPart_rep b qs) by done.
  destruct (lookup_lt_is_Some_2 ps k) as [p Hp]; [lia|].
  destruct (lookup_lt_is_Some_2 qs k) as [q Hq]; [lia|]. rewrite Hp, Hq. cbn [mbind option_bind].
  case_bool_decide as E.
  - subst q. destruct (IH (S k)) as (m & -> & Hm & Ht & Hne); [lia| |].
    { by rewrite (take_S_r _ _ _ Hp), (take_S_r _ _ _ Hq), Hk. }
    exists m. split; [done|]. split; [lia|]. split; [done|]. intros. apply Hne. lia.
  - exists k. split; [done|]. split; [lia|]. split; [done|]. intros _. congruence.
Qed.

(** [ps] comes first in [qs], which goes on. *)
Definition properPrefix ps qs : Prop := ∃ rest, rest ≠ [] ∧ qs = ps ++ rest.

Lemma isPrefixOf_rep a b ps qs :
  Rep a ps → Rep b qs → ∃ x, isPrefixOf a b = Some x ∧ (x = true ↔ ps ≠ [] ∧ properPrefix ps qs).
Proof.
  intros Ha Hb. unfold isPrefixOf, commonPrefixSize. rewrite (rep_size _ _ Ha), (rep_size _ _ Hb).
  destruct (length qs <=? length ps)%nat eqn:E1.
  { exists false. split; [done|]. split; [done|]. intros (_ & rest & Hr & ->). exfalso.
    apply Nat.leb_le in E1. rewrite length_app in E1. destruct rest; [done|]. simpl in E1. lia. }
  apply Nat.leb_gt in E1. destruct (length ps =? 0)%nat eqn:E2.
  { exists false. split; [done|]. split; [done|]. intros (Hne & _). apply Nat.eqb_eq in E2.
    by destruct ps. }
  assert ((length qs =? 0)%nat = false) as -> by (apply Nat.eqb_neq; lia). cbn [orb].
  destruct (commonLoop_rep (length ps `min` length qs) 0 a b ps qs) as (m & -> & Hm & Ht & Hne);
    [done|done|done|done|]. cbn [mbind option_bind]. eexists. split; [done|].
  apply Nat.eqb_neq in E2. rewrite andb_true_iff, Nat.eqb_eq, Nat.ltb_lt. split.
  - intros [-> Hlt]. split; [by intros ->|]. exists (drop (length ps) qs). split.
    + intros E%(f_equal length). rewrite length_drop in E. simpl in E. lia.
    + rewrite firstn_all in Ht. rewrite Ht at 1. by rewrite take_drop.
  - intros (_ & rest & Hr & ->). rewrite length_app in *. destruct (decide (m = length ps)) as [->|Hd]; [lia|].
    exfalso. apply Hne; [lia|]. rewrite lookup_app_l by lia. done.
Qed.

Lemma equalsLoop_spec ps other : equalsLoop ps other = true ↔ ps ≠ [] ∧ joinDots ps = other.
Proof.
  revert other. induction ps as [|p ps IH]; intros other; cbn [equalsLoop]; [split; [done|by intros []]|].
  destruct (bool_decide (take (length p) other = p)) eqn:Et; cbn [negb].
  2:{ apply bool_decide_eq_false in Et. split; [done|]. intros [_ E]. exfalso. apply Et. rewrite <- E.
      destruct (decide (ps = [])) as [->|Hne]; [apply firstn_all|].
      rewrite join_cons by done. apply take_app_length. }
  apply bool_decide_eq_true in Et. destruct (decide (ps = [])) as [->|Hne].
  - rewrite bool_decide_true by done. rewrite bool_decide_eq_true. cbn [joinDots]. split.
    + intros E. split; [done|]. rewrite <- Et, <- E. apply firstn_all.
    + by intros [_ ->].
  - rewrite (bool_decide_false (ps = [])) by done. rewrite join_cons by done.
    assert (∀ t, p ++ dot :: t = other ↔ other !! length p = Some dot ∧ t = drop (S (length p)) other) as Hsplit.
    { intros t. split.
      - intros <-. rewrite lookup_app_r, Nat.sub_diag by lia. split; [done|].
        rewrite <- (Nat.add_1_r (length p)), <- drop_drop, drop_app_length. done.
      - intros [Hd ->]. rewrite <- Et at 1. by apply take_drop_middle. }
    rewrite Hsplit. case_bool_decide as El.
    + split; [done|]. intros (_ & Hd & _). apply lookup_lt_Some in Hd. lia.
    + case_bool_decide as Ed; cbn [negb]; [rewrite IH; naive_solver|]. naive_solver.
Qed.

(** ** Paths as strings *)

Lemma split_app_dot s u : splitDots (s ++ dot :: u) = splitDots s ++ splitDots u.
Proof.
  induction s as [|c s IH]; simpl; [done|]. case_bool_decide as Hc; [by rewrite IH|].
  rewrite IH. pose proof (splitDots_nonempty s). by destruct (splitDots s).
Qed.

Lemma isPathPrefixOf_spec f s : isPathPrefixOf f s = true ↔ ∃ u, s = f ++ dot :: u.
Proof.
  unfold isPathPrefixOf. split.
  - destruct (_ <=? _)%nat; [done|]. intros [Et Ed]%andb_true_iff.
    apply bool_decide_eq_true in Et, Ed. exists (drop (S (length f)) s).
    rewrite <- Et at 1. symmetry. by apply take_drop_middle.
  - intros [u ->]. assert ((length (f ++ dot :: u) <=? length f)%nat = false) as ->.
    { apply Nat.leb_gt. rewrite length_app. simpl. lia. }
    rewrite take_app_length, bool_decide_true by done. cbn [andb]. apply bool_decide_eq_true.
    by rewrite lookup_app_r, Nat.sub_diag by lia.
Qed.

Lemma isPathPrefixOf_names f s :
  isPathPrefixOf f s = true ↔ properPrefix (splitDots f) (splitDots s).
Proof.
  rewrite isPathPrefixOf_spec. split.
  - intros [u ->]. exists (splitDots u). split; [apply splitDots_nonempty|apply split_app_dot].
  - intros (rest & Hr & E). exists (joinDots rest).
    rewrite <- (join_split s), E, join_app_dot, join_split by (done || apply splitDots_nonempty). done.
Qed.
End Reading.

(** ** Refinement *)

(** The operations of the object, and what they return. *)
Inductive Op :=
  | OpParse (s : Bytes) | OpSetPart (i : nat) (p : Bytes) | OpAppendPart (p : Bytes)
  | OpRemoveLastPart | OpRemoveFirstPart | OpClear
  | OpGetPart (i : nat) | OpDottedSubstring (a b : nat) | OpEqualsDottedField (s : Bytes).
Inductive Answer := ANone | ABytes (s : Bytes) | ABool (b : bool).

Definition apply (op : Op) (r : t) : option (t * Answer) :=
  match op with
  | OpParse s => Some (parse s r, ANone)
  | OpSetPart i p => r' ← setPart i p r; Some (r', ANone)
  | OpAppendPart p => Some (appendPart p r, ANone)
  | OpRemoveLastPart => Some (removeLastPart r, ANone)
  | OpRemoveFirstPart => r' ← removeFirstPart r; Some (r', ANone)
  | OpClear => Some (clear r, ANone)
  | OpGetPart i => p ← getPart i r; Some (r, ABytes p)
  | OpDottedSubstring a b =>
      match dottedSubstring a b r with Some (s, r') => Some (r', ABytes s) | None => None end
  | OpEqualsDottedField s => b ← equalsDottedField s r; Some (r, ABool b)
  end.

(** The same on a list of names; [None] is a part out of range. *)
Definition applySpec (op : Op) (ps : list Bytes) : option (list Bytes * Answer) :=
  match op with
  | OpParse s => Some (if bool_decide (s = []) then [] else splitDots s, ANone)
  | OpSetPart i p => if (i <? length ps)%nat then Some (<[i:=p]> ps, ANone) else None
  | OpAppendPart p => Some (ps ++ [p], ANone)
  | OpRemoveLastPart => Some (removelast ps, ANone)
  | OpRemoveFirstPart => Some (tail ps, ANone)
  | OpClear => Some ([], ANone)
  | OpGetPart i => p ← ps !! i; Some (ps, ABytes p)
  | OpDottedSubstring a b =>
      Some (ps, ABytes (if (a <? b)%nat && (b <=? length ps)%nat then joinDots (slice a b ps) else []))
  | OpEqualsDottedField s => Some (ps, ABool (bool_decide (ps ≠ [] ∧ joinDots ps = s)))
  end.

(** The answers of a sequence of operations. *)
Fixpoint runOps {S} (f : Op → S → option (S * Answer)) (ops : list Op) (x : S)
    : option (S * list Answer) :=
  match ops with
  | [] => Some (x, [])
  | op :: ops' =>
      match f op x with
      | Some (x', a) => match runOps f ops' x' with
                        | Some (x'', l) => Some (x'', a :: l)
                        | None => None
                        end
      | None => None
      end
  end.

Lemma apply_refines op r ps ps' a :
  Rep r ps → applySpec op ps = Some (ps', a) → ∃ r', apply op r = Some (r', a) ∧ Rep r' ps'.
Proof.
  intros H. destruct op as [s|i p|p| | | |i|b e|s]; cbn [applySpec apply].
  - intros [= <- <-]. eexists. split; [done|]. apply parse_rep, H.
  - destruct (i <? length ps)%nat eqn:Ei; [|done]. intros [= <- <-]. apply Nat.ltb_lt in Ei.
    destruct (setPart_rep r ps i p H Ei) as (r' & -> & Hr). by exists r'.
  - intros [= <- <-]. eexists. split; [done|]. by apply appendPart_rep.
  - intros [= <- <-]. eexists. split; [done|]. by apply removeLastPart_rep.
  - intros [= <- <-]. destruct (removeFirstPart_rep r ps H) as (r' & -> & Hr). by exists r'.
  - intros [= <- <-]. eexists. split; [done|]. split; simpl; try done; try lia. apply H.
  - rewrite (getPart_rep r ps) by done. destruct (ps !! i); [|done]. intros [= <- <-]. by exists r.
  - intros [= <- <-]. destruct (dottedSubstring_rep r ps b e H) as (r' & -> & Hr). by exists r'.
  - intros [= <- <-]. unfold equalsDottedField. rewrite (getParts_rep r ps) by done.
    exists r. split; [|done]. cbn [mbind option_bind]. do 3 f_equal.
    apply eq_true_iff_eq. by rewrite equalsLoop_spec, bool_decide_eq_true.
Qed.

Lemma empty_rep : Rep empty [].
Proof. split; simpl; try done; lia. Qed.

(** ** Properties *)

(** C36: the object with its cached string, its views and its replacements implements
    a list of names: whatever operations are applied, if the list can apply them the
    object does, failing no invariant, and it gives the same answers. *)
Theorem fieldref_refines ops ps answers :
  runOps applySpec ops [] = Some (ps, answers) →
  ∃ r, runOps apply ops empty = Some (r, answers) ∧ Rep r ps.
Proof.
  cut (∀ qs r, Rep r qs → runOps applySpec ops qs = Some (ps, answers) →
    ∃ r', runOps apply ops r = Some (r', answers) ∧ Rep r' ps).
  { intros Hc. apply Hc, empty_rep. }
  revert ps answers. induction ops as [|op ops IH]; intros ps answers qs r H; cbn [runOps].
  { intros [= <- <-]. by exists r. }
  destruct (applySpec op qs) as [[qs' a]|] eqn:Ea; [|done].
  destruct (apply_refines op r qs qs' a H Ea) as (r' & -> & H').
  destruct (runOps applySpec ops qs') as [[ps' l]|] eqn:Er; [|done]. intros [= <- <-].
  destruct (IH _ _ qs' r' H' Er) as (r'' & -> & H''). by exists r''.
Qed.

Definition bytes (s : string) : Bytes := String.list_ascii_of_string s.

Lemma fieldref_refines_witness :
  ∃ r, runOps apply
    [OpParse (bytes "a.b.c.d.e"); OpSetPart 1 (bytes "xy"); OpRemoveLastPart; OpAppendPart (bytes "");
     OpDottedSubstring 1 5; OpRemoveFirstPart; OpDottedSubstring 0 2; OpGetPart 3] empty
  = Some (r, [ANone; ANone; ANone; ANone; ABytes (bytes "xy.c.d."); ANone; ABytes (bytes "xy.c");
              ABytes []])
  ∧ Rep r [bytes "xy"; bytes "c"; bytes "d"; []].
Proof. apply fieldref_refines. vm_compute. reflexivity. Defined.

(** The test on strings that decides whether a path leads on from another one is
    the test of [FieldRef] on the parsed names: for every path that is not empty the
    two agree. *)
Theorem path_prefix_equivalent f s :
  f ≠ [] → isPrefixOf (parse f empty) (parse s empty) = Some (isPathPrefixOf f s).
Proof.
  intros Hf. pose proof (parse_rep empty f eq_refl) as Ra. pose proof (parse_rep empty s eq_refl) as Rb.
  rewrite bool_decide_false in Ra by done.
  destruct (isPrefixOf_rep _ _ _ _ Ra Rb) as (x & -> & Hx). f_equal. apply eq_true_iff_eq.
  rewrite Hx, isPathPrefixOf_names. case_bool_decide as Hs.
  - subst s. split.
    + intros (_ & rest & Hr & E). symmetry in E. by apply app_nil in E as [_ E].
    + intros (rest & Hr & E). simpl in E. destruct (splitDots f) as [|p ps] eqn:Ep; [by apply splitDots_nonempty in Ep|].
      injection E as _ E. symmetry in E. by apply app_nil in E as [_ E].
  - split; [by intros []|]. intros. split; [apply splitDots_nonempty|done].
Qed.

Lemma path_prefix_equivalent_witness :
  isPrefixOf (parse (bytes "a.b") empty) (parse (bytes "a.b.c") empty)
  = Some (isPathPrefixOf (bytes "a.b") (bytes "a.b.c")).
Proof. apply path_prefix_equivalent. discriminate. Defined.
