(* ===== verification/MatchExpression.v ===== *)
(** Query predicates: the logical part of src/mongo/db/matcher, that is
    expression_tree.{h,cpp}, expression_always_boolean.h, schema/expression_internal_schema_xor.cpp,
    expression.h and expression_algo.cpp.  What is not a logical node is a leaf; a
    class states what the logical nodes use of leaves and a second one what they
    rely on.  Index tags and the text forms are not modelled. *)
From stdpp Require Import gmap strings.
From S2P Require Import Prelude FieldRef.

(** The list nodes' match types, and the categories of the others. *)
Inductive MatchType := AND | OR | NOR | INTERNAL_SCHEMA_XOR.
Inductive MatchCategory := kLeaf | kArrayMatching | kOther.

#[global] Instance MatchType_eq_dec : EqDecision MatchType.
Proof. solve_decision. Defined.
#[global] Instance MatchCategory_eq_dec : EqDecision MatchCategory.
Proof. solve_decision. Defined.

(** What a match reports besides its answer. *)
Module MatchDetails.
Record t := mk {
  _loadedRecord : bool;
  _elemMatchKeyRequested : bool;
  _elemMatchKey : option string
}.
Definition resetOutput (d : t) : t := mk false (_elemMatchKeyRequested d) None.
Definition needRecord (d : t) : bool := _elemMatchKeyRequested d.
Definition setElemMatchKey (k : string) (d : t) : t :=
  if _elemMatchKeyRequested d then mk (_loadedRecord d) true (Some k) else d.
End MatchDetails.

(** A null pointer asks for no details. *)
Abbreviation Details := (option MatchDetails.t).

#[warnings="-register-all"]
Inductive Expr (L : Type) :=
  | Leaf (l : L)
  | AlwaysFalse
  | AlwaysTrue
  | Node (ty : MatchType) (children : list (Expr L))
  | Not (e : Expr L).
Arguments Leaf {L} l.
Arguments AlwaysFalse {L}.
Arguments AlwaysTrue {L}.
Arguments Node {L} ty children.
Arguments Not {L} e.

(** Induction with the hypothesis for every child. *)
Section Induction.
Context {L : Type} (P : Expr L → Prop).
Hypothesis on_leaf : ∀ l, P (Leaf l).
Hypothesis on_false : P AlwaysFalse.
Hypothesis on_true : P AlwaysTrue.
Hypothesis on_node : ∀ ty cs, Forall P cs → P (Node ty cs).
Hypothesis on_not : ∀ e, P e → P (Not e).

Fixpoint expr_rect_children (e : Expr L) : P e :=
  match e with
  | Leaf l => on_leaf l
  | AlwaysFalse => on_false
  | AlwaysTrue => on_true
  | Node ty cs =>
      on_node ty cs
        ((fix go cs : Forall P cs :=
            match cs with
            | [] => Forall_nil_2 P
            | c :: cs' => Forall_cons_2 P c cs' (expr_rect_children c) (go cs')
            end) cs)
  | Not e => on_not e (expr_rect_children e)
  end.
End Induction.

(** What the logical nodes call on leaves: the two ways to match, the optimizer, the
    equivalence test, the test for being a subset of a leaf's documents. *)
Class LeafOps (L D E : Type) := {
  leaf_category : L → MatchCategory;
  leaf_path : L → Bytes;
  leaf_matches : L → D → Details → bool * Details;
  leaf_matchesSingleElement : L → E → Details → bool * Details;
  leaf_optimize : L → Expr L;
  leaf_equivalent : L → L → bool;
  leaf_isSubsetOf : Expr L → L → bool;
  leaf_applyRename : list (Bytes * Bytes) → L → option L
}.

Section Expressions.
Context {L D E : Type} `{!LeafOps L D E}.
Implicit Types (e : Expr L) (cs : list (Expr L)).

(** ** Matching *)

(** The four loops over the children, given what a child answers. *)
Section Loops.
Context (child : Expr L → Details → bool * Details).

(** [reset] is whether a child that fails resets the output. *)
Fixpoint andLoop (reset : bool) (cs : list (Expr L)) (det : Details) : bool * Details :=
  match cs with
  | [] => (true, det)
  | c :: cs' =>
      let '(b, det) := child c det in
      if negb b then (false, if reset then MatchDetails.resetOutput <$> det else det)
      else andLoop reset cs' det
  end.

(** [det] is what is handed to each child. *)
Fixpoint orLoop (cs : list (Expr L)) (det : Details) : bool * Details :=
  match cs with
  | [] => (false, det)
  | c :: cs' => let '(b, det) := child c det in if b then (true, det) else orLoop cs' det
  end.

Fixpoint xorLoop (found : bool) (cs : list (Expr L)) (det : Details) : bool * Details :=
  match cs with
  | [] => (found, det)
  | c :: cs' =>
      let '(b, det) := child c det in
      if b then (if found then (false, det) else xorLoop true cs' det)
      else xorLoop found cs' det
  end.
End Loops.

Fixpoint matches (d : D) (e : Expr L) (det : Details) {struct e} : bool * Details :=
  match e with
  | Leaf l => leaf_matches l d det
  | AlwaysFalse => (false, det)
  | AlwaysTrue => (true, det)
  | Node AND cs => andLoop (matches d) true cs det
  | Node OR cs => (fst (orLoop (matches d) cs None), det)
  | Node NOR cs => (negb (fst (orLoop (matches d) cs None)), det)
  | Node INTERNAL_SCHEMA_XOR cs => (fst (xorLoop (matches d) false cs None), det)
  | Not e => (negb (fst (matches d e None)), det)
  end.

Fixpoint matchesSingleElement (x : E) (e : Expr L) (det : Details) {struct e} : bool * Details :=
  match e with
  | Leaf l => leaf_matchesSingleElement l x det
  | AlwaysFalse => (false, det)
  | AlwaysTrue => (true, det)
  | Node AND cs => andLoop (matchesSingleElement x) false cs det
  | Node OR cs => orLoop (matchesSingleElement x) cs det
  | Node NOR cs => let '(b, det) := orLoop (matchesSingleElement x) cs det in (negb b, det)
  | Node INTERNAL_SCHEMA_XOR cs => xorLoop (matchesSingleElement x) false cs det
  | Not e => let '(b, det) := matchesSingleElement x e det in (negb b, det)
  end.

(** ** Optimizing *)

Definition isTriviallyTrue (e : Expr L) : bool :=
  match e with
  | AlwaysTrue => true
  | Node AND cs => bool_decide (cs = [])
  | _ => false
  end.
Definition isTriviallyFalse (e : Expr L) : bool :=
  match e with
  | AlwaysFalse => true
  | Node OR cs => bool_decide (cs = [])
  | _ => false
  end.

(** [matchType == AND || matchType == OR]. *)
Definition isAndOr (ty : MatchType) : bool := bool_decide (ty = AND) || bool_decide (ty = OR).

(** Associativity: the children of the children of the same type go to the end. *)
Definition hasType (ty : MatchType) (e : Expr L) : bool :=
  match e with Node ty' _ => bool_decide (ty' = ty) | _ => false end.
Definition childrenOf (e : Expr L) : list (Expr L) :=
  match e with Node _ cs => cs | _ => [] end.
Definition absorb (ty : MatchType) (cs : list (Expr L)) : list (Expr L) :=
  if isAndOr ty then
    List.filter (λ c, negb (hasType ty c)) cs ++ mjoin (childrenOf <$> List.filter (hasType ty) cs)
  else cs.

(** The children that do not change the answer are removed. *)
Definition removeTrivial (ty : MatchType) (cs : list (Expr L)) : list (Expr L) :=
  if isAndOr ty then
    List.filter (λ c, negb ((isTriviallyTrue c && bool_decide (ty = AND))
                            || (isTriviallyFalse c && bool_decide (ty = OR)))) cs
  else cs.

(** A child that decides the answer. *)
Fixpoint decided (ty : MatchType) (cs : list (Expr L)) : option (Expr L) :=
  match cs with
  | [] => None
  | c :: cs' =>
      if isTriviallyFalse c && bool_decide (ty = AND) then Some AlwaysFalse
      else if isTriviallyTrue c && bool_decide (ty = OR) then Some AlwaysTrue
      else decided ty cs'
  end.

(** [ListOfMatchExpression::getOptimizer] once the children are optimized. *)
Definition simplify (ty : MatchType) (cs : list (Expr L)) : Expr L :=
  let cs := removeTrivial ty (absorb ty cs) in
  if bool_decide (cs = []) && bool_decide (ty = OR) then AlwaysFalse else
  let rest := if isAndOr ty then option.default (Node ty cs) (decided ty cs) else Node ty cs in
  match cs with
  | [c] =>
      match ty with
      | AND | OR | INTERNAL_SCHEMA_XOR => c
      | NOR => Not c
      end
  | _ => rest
  end.

Fixpoint optimize (e : Expr L) : Expr L :=
  match e with
  | Leaf l => leaf_optimize l
  | AlwaysFalse => AlwaysFalse
  | AlwaysTrue => AlwaysTrue
  | Node ty cs => simplify ty (optimize <$> cs)
  | Not e => Not (optimize e)
  end.

(** [MatchExpression::optimize] with the fail point that switches it off. *)
Definition optimizeUnless (disableMatchExpressionOptimization : bool) (e : Expr L) : Expr L :=
  if disableMatchExpressionOptimization then e else optimize e.

(** ** Comparing expressions *)

Fixpoint equivalent (a b : Expr L) {struct a} : bool :=
  match a, b with
  | Leaf l, Leaf m => leaf_equivalent l m
  | AlwaysFalse, AlwaysFalse => true
  | AlwaysTrue, AlwaysTrue => true
  | Node ty cs, Node ty' ds =>
      bool_decide (ty = ty')
      && (fix go cs ds := match cs, ds with
                          | [], [] => true
                          | c :: cs', d :: ds' => equivalent c d && go cs' ds'
                          | _, _ => false
                          end) cs ds
  | Not x, Not y => equivalent x y
  | _, _ => false
  end.

(** [isSubsetOf] against an expression that is not a conjunction. *)
Fixpoint isSubsetOfClause (rhs lhs : Expr L) {struct lhs} : bool :=
  equivalent lhs rhs
  || match lhs with
     | Node AND ls => existsb (isSubsetOfClause rhs) ls
     | Node OR ls => forallb (isSubsetOfClause rhs) ls
     | _ => match rhs with Leaf r => leaf_isSubsetOf lhs r | _ => false end
     end.

Fixpoint isSubsetOf (lhs rhs : Expr L) {struct rhs} : bool :=
  equivalent lhs rhs
  || match rhs with
     | Node AND rs => forallb (isSubsetOf lhs) rs
     | _ => isSubsetOfClause rhs lhs
     end.

(** ** Splitting *)

Definition isLeafIndependentOf (path : Bytes) (fields : list Bytes) : bool :=
  forallb (λ field, negb (bool_decide (path = field) || isPathPrefixOf path field
                          || isPathPrefixOf field path)) fields.

Fixpoint isIndependentOf (fields : list Bytes) (e : Expr L) {struct e} : bool :=
  match e with
  | Leaf l => match leaf_category l with
              | kLeaf => isLeafIndependentOf (leaf_path l) fields
              | kArrayMatching | kOther => false
              end
  | AlwaysFalse | AlwaysTrue => false
  | Node _ cs => forallb (isIndependentOf fields) cs
  | Not e => isIndependentOf fields e
  end.

Definition createAndOfNodes (cs : list (Expr L)) : option (Expr L) :=
  match cs with
  | [] => None
  | [c] => Some c
  | _ => Some (Node AND cs)
  end.
Definition createNorOfNodes (cs : list (Expr L)) : option (Expr L) :=
  match cs with
  | [] => None
  | _ => Some (Node NOR cs)
  end.

(** The first is separate from the fields, the second relies on them; the outer
    [None] is the failed invariant on a child without either. *)
Fixpoint splitMatchExpressionByWithoutRenames (fields : list Bytes) (e : Expr L) {struct e}
    : option (option (Expr L) * option (Expr L)) :=
  if isIndependentOf fields e then Some (Some e, None) else
  match e with
  | Node AND cs =>
      parts ← (fix go cs := match cs with
               | [] => Some []
               | c :: cs' =>
                   p ← splitMatchExpressionByWithoutRenames fields c;
                   invariant (match p with (None, None) => false | _ => true end) ;;
                   ps ← go cs';
                   Some (p :: ps)
               end) cs;
      Some (createAndOfNodes (omap fst parts), createAndOfNodes (omap snd parts))
  | Node NOR cs =>
      Some (createNorOfNodes (List.filter (isIndependentOf fields) cs),
            createNorOfNodes (List.filter (λ c, negb (isIndependentOf fields c)) cs))
  | _ => Some (None, Some e)
  end.

Fixpoint applyRenamesToExpression (renames : list (Bytes * Bytes)) (e : Expr L) {struct e}
    : option (Expr L) :=
  match e with
  | Leaf l => match leaf_category l with
              | kLeaf => Leaf <$> leaf_applyRename renames l
              | kArrayMatching | kOther => Some (Leaf l)
              end
  | AlwaysFalse => Some AlwaysFalse
  | AlwaysTrue => Some AlwaysTrue
  | Node ty cs =>
      cs' ← (fix go cs := match cs with
             | [] => Some []
             | c :: cs' => c' ← applyRenamesToExpression renames c; ds ← go cs'; Some (c' :: ds)
             end) cs;
      Some (Node ty cs')
  | Not e => e' ← applyRenamesToExpression renames e; Some (Not e')
  end.

Definition splitMatchExpressionBy (fields : list Bytes) (renames : list (Bytes * Bytes)) (e : Expr L)
    : option (option (Expr L) * option (Expr L)) :=
  match splitMatchExpressionByWithoutRenames fields e with
  | Some (Some separate, reliant) =>
      separate' ← applyRenamesToExpression renames separate; Some (Some separate', reliant)
  | Some (None, reliant) => Some (None, reliant)
  | None => None
  end.
End Expressions.
