(* ===== verification/MatchExpressionProps.v ===== *)
(** Facts about query predicates: the optimizer keeps what an expression matches and
    reaches a normal form, the subset test is sound, and a split is exact. *)
From stdpp Require Import gmap strings.
From S2P Require Import Prelude FieldRef MatchExpression.

(** What the values of a node's children make of it. *)
Definition evalType (ty : MatchType) (bs : list bool) : bool :=
  match ty with
  | AND => forallb id bs
  | OR => existsb id bs
  | NOR => negb (existsb id bs)
  | INTERNAL_SCHEMA_XOR => (length (List.filter id bs) =? 1)%nat
  end.

Section Semantics.
Context {L D E : Type} `{!LeafOps L D E}.
Implicit Types (e c : Expr L) (cs : list (Expr L)).

(** The answer alone. *)
Definition sem (d : D) (e : Expr L) : bool := fst (matches d e None).
Definition semSingle (x : E) (e : Expr L) : bool := fst (matchesSingleElement x e None).

(** A way to give expressions a value, as both kinds of matching do. *)
Record Valuation (val : Expr L → bool) : Prop := {
  val_node : ∀ ty cs, val (Node ty cs) = evalType ty (val <$> cs);
  val_not : ∀ e, val (Not e) = negb (val e);
  val_true : val AlwaysTrue = true;
  val_false : val AlwaysFalse = false
}.

(** An optimized expression: no node is left that the optimizer would rewrite. *)
Definition nodeNormal (ty : MatchType) (cs : list (Expr L)) : Prop :=
  length cs ≠ 1%nat ∧ (ty = OR → cs ≠ [])
  ∧ (isAndOr ty = true → ∀ c, c ∈ cs →
       hasType ty c = false ∧ isTriviallyTrue c = false ∧ isTriviallyFalse c = false).

#[warnings="-register-all"]
Inductive Normal : Expr L → Prop :=
  | normal_leaf l : leaf_optimize l = Leaf l → Normal (Leaf l)
  | normal_false : Normal AlwaysFalse
  | normal_true : Normal AlwaysTrue
  | normal_node ty cs : (∀ c, c ∈ cs → Normal c) → nodeNormal ty cs → Normal (Node ty cs)
  | normal_not e : Normal e → Normal (Not e).
End Semantics.

(** The answer of a leaf does not depend on whether details are asked for. *)
Class LeafAnswers (L D E : Type) `{!LeafOps L D E} := {
  leaf_matches_answer : ∀ (l : L) (d : D) det, fst (leaf_matches l d det) = fst (leaf_matches l d None);
  leaf_single_answer : ∀ (l : L) (x : E) det,
    fst (leaf_matchesSingleElement l x det) = fst (leaf_matchesSingleElement l x None)
}.

(** What the optimizer and the subset test of logical nodes need of a kind of leaves: that their own
    optimizer and comparisons are right.  Comparisons have these laws (ComparisonExpression.v);
    $in does not, which optimizes [{$in: [null]}] to an equality that also matches undefined, and the
    subset test of $exists does not, which takes [{$lt: MaxKey}] to imply that the field exists. *)
Class LeafLaws (L D E : Type) `{!LeafOps L D E} := {
  leaf_laws_answers :: LeafAnswers L D E;
  leaf_optimize_matches : ∀ (l : L) (d : D), sem d (leaf_optimize l) = sem d (Leaf l);
  leaf_optimize_single : ∀ (l : L) (x : E), semSingle x (leaf_optimize l) = semSingle x (Leaf l);
  leaf_optimize_normal : ∀ l : L, Normal (leaf_optimize l);
  leaf_equivalent_sound : ∀ (l m : L), leaf_equivalent l m = true →
    ∀ d : D, sem d (Leaf l) = sem d (Leaf m);
  leaf_isSubsetOf_sound : ∀ (e : Expr L) (r : L), leaf_isSubsetOf e r = true →
    ∀ d : D, sem d e = true → sem d (Leaf r) = true
}.

(** ** Boolean lists *)

Lemma forallb_split {A} (f p : A → bool) l :
  forallb f l = forallb f (List.filter (λ x, negb (p x)) l) && forallb f (List.filter p l).
Proof.
  induction l as [|x l IH]; simpl; [done|].
  destruct (p x); simpl; rewrite IH; destruct (f x); simpl; try done; by rewrite andb_false_r.
Qed.

Lemma existsb_split {A} (f p : A → bool) l :
  existsb f l = existsb f (List.filter (λ x, negb (p x)) l) || existsb f (List.filter p l).
Proof.
  induction l as [|x l IH]; simpl; [done|].
  destruct (p x); simpl; rewrite IH; destruct (f x); simpl; try done; by rewrite orb_true_r.
Qed.

Lemma forallb_fmap {A B} (f : A → B) (p : B → bool) l : forallb p (f <$> l) = forallb (λ x, p (f x)) l.
Proof. induction l; csimpl; congruence. Qed.

Lemma existsb_fmap {A B} (f : A → B) (p : B → bool) l : existsb p (f <$> l) = existsb (λ x, p (f x)) l.
Proof. induction l; csimpl; congruence. Qed.

Lemma elem_of_List_filter {A} (p : A → bool) l x : x ∈ List.filter p l ↔ p x = true ∧ x ∈ l.
Proof. rewrite !list_elem_of_In, filter_In. tauto. Qed.

(** ** The optimizer keeps values *)

Section Optimize.
Context {L D E : Type} `{!LeafOps L D E}.
Context (val : Expr L → bool) (Hval : Valuation val).
Hypothesis val_leaf : ∀ l, val (leaf_optimize l) = val (Leaf l).
Implicit Types (e c : Expr L) (cs : list (Expr L)).

Lemma trivially_true_val c : isTriviallyTrue c = true → val c = true.
Proof.
  destruct c as [| | |[] cs|]; simpl; try done.
  - intros _. apply Hval.
  - intros ->%bool_decide_eq_true. by rewrite (val_node _ Hval).
Qed.

Lemma trivially_false_val c : isTriviallyFalse c = true → val c = false.
Proof.
  destruct c as [| | |[] cs|]; simpl; try done.
  - intros _. apply Hval.
  - intros ->%bool_decide_eq_true. by rewrite (val_node _ Hval).
Qed.

Lemma isAndOr_spec ty : isAndOr ty = true ↔ ty = AND ∨ ty = OR.
Proof. by destruct ty; unfold isAndOr; simpl; naive_solver. Qed.

(** A conjunction (disjunction) among the children is worth its own children. *)
Lemma absorbed_val ty cs :
  isAndOr ty = true →
  evalType ty (val <$> mjoin (childrenOf <$> List.filter (hasType ty) cs))
  = evalType ty (val <$> List.filter (hasType ty) cs).
Proof.
  intros Hty. induction cs as [|c cs IH]; [done|]. cbn [List.filter].
  destruct (hasType ty c) eqn:Hc; [|done]. csimpl. rewrite fmap_app.
  destruct c as [| | |ty' ds|]; try done. simpl in Hc. apply bool_decide_eq_true in Hc as ->.
  apply isAndOr_spec in Hty as [-> | ->]; simpl in *;
    [rewrite List.forallb_app, IH|rewrite List.existsb_app, IH]; by rewrite (val_node _ Hval).
Qed.

Lemma absorb_val ty cs : evalType ty (val <$> absorb ty cs) = evalType ty (val <$> cs).
Proof.
  unfold absorb. destruct (isAndOr ty) eqn:Hty; [|done]. pose proof (absorbed_val ty cs Hty) as Ha.
  rewrite fmap_app. apply isAndOr_spec in Hty as [-> | ->]; simpl in *.
  - rewrite List.forallb_app, Ha, !forallb_fmap. symmetry. apply forallb_split.
  - rewrite List.existsb_app, Ha, !existsb_fmap. symmetry. apply existsb_split.
Qed.

Lemma removeTrivial_val ty cs : evalType ty (val <$> removeTrivial ty cs) = evalType ty (val <$> cs).
Proof.
  unfold removeTrivial. destruct (isAndOr ty) eqn:Hty; [|done].
  apply isAndOr_spec in Hty as [-> | ->]; simpl; rewrite ?forallb_fmap, ?existsb_fmap; unfold id.
  - induction cs as [|c cs IH]; simpl; [done|]. rewrite <- IH.
    destruct (isTriviallyTrue c) eqn:Ht; [|by destruct (isTriviallyFalse c)].
    by rewrite (trivially_true_val c Ht).
  - induction cs as [|c cs IH]; simpl; [done|]. rewrite <- IH.
    destruct (isTriviallyFalse c) eqn:Ht; [|by destruct (isTriviallyTrue c)].
    rewrite (trivially_false_val c Ht). by destruct (isTriviallyTrue c).
Qed.

Lemma decided_spec ty cs c :
  decided ty cs = Some c →
  ∃ x, x ∈ cs ∧ ((ty = AND ∧ c = AlwaysFalse ∧ isTriviallyFalse x = true)
                 ∨ (ty = OR ∧ c = AlwaysTrue ∧ isTriviallyTrue x = true)).
Proof.
  induction cs as [|x cs IH]; simpl; [done|].
  destruct (isTriviallyFalse x && bool_decide (ty = AND)) eqn:Ef.
  { apply andb_true_iff in Ef as [Hf Hty%bool_decide_eq_true]. intros [= <-].
    exists x. split; [left|by left]. }
  destruct (isTriviallyTrue x && bool_decide (ty = OR)) eqn:Et.
  { apply andb_true_iff in Et as [Hf Hty%bool_decide_eq_true]. intros [= <-].
    exists x. split; [left|by right]. }
  intros (y & Hy & H)%IH. exists y. split; [by right|done].
Qed.

Lemma decided_val ty cs c : decided ty cs = Some c → val c = evalType ty (val <$> cs).
Proof.
  intros (x & Hx & [(-> & -> & H)|(-> & -> & H)])%decided_spec; simpl.
  - rewrite (val_false _ Hval), forallb_fmap. symmetry. apply not_true_iff_false.
    rewrite forallb_forall. intros Hf. apply list_elem_of_In in Hx. apply Hf in Hx.
    by rewrite (trivially_false_val x H) in Hx.
  - rewrite (val_true _ Hval), existsb_fmap. symmetry. apply existsb_exists.
    exists x. split; [by apply list_elem_of_In|]. apply (trivially_true_val x H).
Qed.

Lemma simplify_val ty cs : val (simplify ty cs) = evalType ty (val <$> cs).
Proof.
  rewrite <- absorb_val, <- removeTrivial_val. unfold simplify.
  set (ds := removeTrivial ty (absorb ty cs)). clearbody ds.
  destruct (bool_decide (ds = []) && bool_decide (ty = OR)) eqn:E0.
  { apply andb_true_iff in E0 as [->%bool_decide_eq_true ->%bool_decide_eq_true]. apply Hval. }
  assert (val (if isAndOr ty then option.default (Node ty ds) (decided ty ds) else Node ty ds)
          = evalType ty (val <$> ds)) as Hrest.
  { destruct (isAndOr ty); [|apply Hval].
    destruct (decided ty ds) as [c|] eqn:Hd; [by apply decided_val|apply Hval]. }
  destruct ds as [|c [|c' ds]]; [done| |done].
  destruct ty; csimpl; rewrite ?andb_true_r, ?orb_false_r; [done|done| |].
  - apply Hval.
  - unfold id. by destruct (val c).
Qed.

Lemma optimize_val e : val (optimize e) = val e.
Proof.
  induction e as [l| | |ty cs IH|e IH] using expr_rect_children; simpl; try done.
  - rewrite simplify_val, (val_node _ Hval). f_equal. rewrite <- list_fmap_compose.
    apply list_fmap_ext. intros i c Hc. simpl. by eapply Forall_lookup in IH.
  - by rewrite !(val_not _ Hval), IH.
Qed.
End Optimize.

(** ** Both kinds of matching are valuations *)

Section Matching.
Context {L D E : Type} `{!LeafOps L D E, !LeafAnswers L D E}.
Implicit Types (e c : Expr L) (cs : list (Expr L)) (det : Details).

Section Loops.
Context (f : Expr L → Details → bool * Details) (v : Expr L → bool).

Lemma andLoop_answer r cs det :
  (∀ c x, c ∈ cs → fst (f c x) = v c) → fst (andLoop f r cs det) = forallb v cs.
Proof.
  revert det. induction cs as [|c cs IH]; intros det Hf; simpl; [done|].
  rewrite <- (Hf c det) by left. destruct (f c det) as [[] d]; simpl; [|done].
  apply IH. intros. apply Hf. by right.
Qed.

Lemma orLoop_answer cs det :
  (∀ c x, c ∈ cs → fst (f c x) = v c) → fst (orLoop f cs det) = existsb v cs.
Proof.
  revert det. induction cs as [|c cs IH]; intros det Hf; simpl; [done|].
  rewrite <- (Hf c det) by left. destruct (f c det) as [[] d]; simpl; [done|].
  apply IH. intros. apply Hf. by right.
Qed.

Lemma xorLoop_answer found cs det :
  (∀ c x, c ∈ cs → fst (f c x) = v c) →
  fst (xorLoop f found cs det)
  = (length (List.filter id (v <$> cs)) =? (if found then 0 else 1))%nat.
Proof.
  revert found det. induction cs as [|c cs IH]; intros found det Hf; csimpl; [by destruct found|].
  rewrite <- (Hf c det) by left. destruct (f c det) as [[] d]; simpl.
  - destruct found; simpl; [done|]. rewrite IH; [done|]. intros. apply Hf. by right.
  - apply IH. intros. apply Hf. by right.
Qed.
End Loops.

Lemma forallb_id cs (v : Expr L → bool) : forallb v cs = forallb id (v <$> cs).
Proof. symmetry. exact (forallb_fmap v id cs). Qed.
Lemma existsb_id cs (v : Expr L → bool) : existsb v cs = existsb id (v <$> cs).
Proof. symmetry. exact (existsb_fmap v id cs). Qed.

(** Asking for details never changes the answer. *)
Lemma matches_answer (d : D) e det : fst (matches d e det) = sem d e.
Proof.
  revert det. induction e as [l| | |ty cs IH|e IH] using expr_rect_children; intros det; try done.
  - apply leaf_matches_answer.
  - rewrite Forall_forall in IH. unfold sem. destruct ty; simpl; try done.
    rewrite !(andLoop_answer _ (sem d)); auto.
Qed.

Lemma matchesSingleElement_answer (x : E) e det : fst (matchesSingleElement x e det) = semSingle x e.
Proof.
  revert det. induction e as [l| | |ty cs IH|e IH] using expr_rect_children; intros det; try done.
  - apply leaf_single_answer.
  - rewrite Forall_forall in IH. unfold semSingle. destruct ty; simpl.
    + rewrite !(andLoop_answer _ (semSingle x)); auto.
    + rewrite !(orLoop_answer _ (semSingle x)); auto.
    + pose proof (orLoop_answer (matchesSingleElement x) (semSingle x) cs det) as H1.
      pose proof (orLoop_answer (matchesSingleElement x) (semSingle x) cs None) as H2.
      destruct (orLoop _ cs det), (orLoop _ cs None). simpl in *. rewrite H1, H2; auto.
    + rewrite !(xorLoop_answer _ (semSingle x)); auto.
  - unfold semSingle. simpl. pose proof (IH det) as H1. unfold semSingle in H1.
    destruct (matchesSingleElement x e det), (matchesSingleElement x e None). simpl in *. by rewrite H1.
Qed.

Lemma sem_valuation (d : D) : Valuation (sem d).
Proof.
  split; try done. intros ty cs. assert (∀ c x, c ∈ cs → fst (matches d c x) = sem d c) as Hc.
  { intros. apply matches_answer. }
  unfold sem at 1. destruct ty; simpl.
  - rewrite (andLoop_answer _ (sem d)) by done. apply forallb_id.
  - rewrite (orLoop_answer _ (sem d)) by done. apply existsb_id.
  - rewrite (orLoop_answer _ (sem d)) by done. by rewrite existsb_id.
  - by rewrite (xorLoop_answer _ (sem d)).
Qed.

Lemma semSingle_valuation (x : E) : Valuation (semSingle x).
Proof.
  split; try done.
  - intros ty cs. assert (∀ c y, c ∈ cs → fst (matchesSingleElement x c y) = semSingle x c) as Hc.
    { intros. apply matchesSingleElement_answer. }
    unfold semSingle at 1. destruct ty; simpl.
    + rewrite (andLoop_answer _ (semSingle x)) by done. apply forallb_id.
    + rewrite (orLoop_answer _ (semSingle x)) by done. apply existsb_id.
    + pose proof (orLoop_answer (matchesSingleElement x) (semSingle x) cs None Hc) as H1.
      destruct (orLoop _ cs None). simpl in *. by rewrite H1, existsb_id.
    + by rewrite (xorLoop_answer _ (semSingle x)).
  - intros e. unfold semSingle. simpl. by destruct (matchesSingleElement x e None).
Qed.
End Matching.

(** ** The normal form *)

Section NormalForm.
Context {L D E : Type} `{LeafLaws L D E}.
Implicit Types (e c : Expr L) (cs : list (Expr L)).

Lemma absorb_elem ty cs c :
  (∀ c, c ∈ cs → Normal c) → c ∈ absorb ty cs →
  Normal c ∧ (isAndOr ty = true → hasType ty c = false).
Proof.
  intros Hn. unfold absorb. destruct (isAndOr ty) eqn:Hty; [|by split; [apply Hn|]].
  rewrite elem_of_app, elem_of_List_filter. intros [[Hc Hin]|Hg].
  - split; [by apply Hn|]. intros _. by apply negb_true_iff in Hc.
  - apply list_elem_of_join in Hg as (gs & Hgs & Hc). apply list_elem_of_fmap in Hc as (p & -> & Hp).
    apply elem_of_List_filter in Hp as [Hp Hin]. apply Hn in Hin.
    destruct p as [| | |ty' ds|]; try done. simpl in Hp, Hgs. apply bool_decide_eq_true in Hp as ->.
    inversion Hin as [| | |? ? Hds (_ & _ & Hok)|]; subst. split; [by apply Hds|].
    intros _. by apply Hok.
Qed.

Lemma removeTrivial_elem ty cs c :
  c ∈ removeTrivial ty cs →
  c ∈ cs ∧ (ty = AND → isTriviallyTrue c = false) ∧ (ty = OR → isTriviallyFalse c = false).
Proof.
  unfold removeTrivial. destruct ty; simpl; try (by intros; repeat split);
    rewrite elem_of_List_filter; intros [Hc Hin]; split; try done; split; try done; intros _;
    apply negb_true_iff in Hc; destruct (isTriviallyTrue c), (isTriviallyFalse c); done.
Qed.

Lemma decided_none ty cs c :
  decided ty cs = None → c ∈ cs →
  (ty = AND → isTriviallyFalse c = false) ∧ (ty = OR → isTriviallyTrue c = false).
Proof.
  induction cs as [|x cs IH]; simpl; [by intros _ ?%not_elem_of_nil|].
  destruct (isTriviallyFalse x && bool_decide (ty = AND)) eqn:Ef; [done|].
  destruct (isTriviallyTrue x && bool_decide (ty = OR)) eqn:Et; [done|].
  intros Hd [->|Hc]%elem_of_cons; [|by apply IH].
  split; intros ->; by rewrite andb_true_r in *.
Qed.

Lemma simplify_normal ty cs : (∀ c, c ∈ cs → Normal c) → Normal (simplify ty cs).
Proof.
  intros Hn. unfold simplify. set (ds := removeTrivial ty (absorb ty cs)).
  assert (∀ c, c ∈ ds → Normal c ∧ (isAndOr ty = true → hasType ty c = false)
    ∧ (ty = AND → isTriviallyTrue c = false) ∧ (ty = OR → isTriviallyFalse c = false)) as Hd.
  { intros c [Hc Ht]%removeTrivial_elem. apply absorb_elem in Hc as [? ?]; auto. }
  clearbody ds.
  destruct (bool_decide (ds = []) && bool_decide (ty = OR)) eqn:E0; [constructor|].
  assert (length ds ≠ 1%nat →
    Normal (if isAndOr ty then option.default (Node ty ds) (decided ty ds) else Node ty ds)) as Hrest.
  { intros Hlen.
    assert (ty = OR → ds ≠ []) as Hne.
    { intros -> ->. done. }
    destruct (isAndOr ty) eqn:Hty.
    - destruct (decided ty ds) as [c|] eqn:Hdec; simpl.
      + apply decided_spec in Hdec as (x & _ & [(_ & -> & _)|(_ & -> & _)]); constructor.
      + constructor; [apply Hd|]. split; [done|]. split; [done|]. intros _ c Hc.
        destruct (decided_none ty ds c Hdec Hc) as [D1 D2].
        destruct (Hd c Hc) as (_ & H1 & H2 & H3). apply isAndOr_spec in Hty as [-> | ->]; auto.
    - constructor; [apply Hd|]. split; [done|]. split; [done|]. congruence. }
  destruct ds as [|c [|c' ds]]; [by apply Hrest| |by apply Hrest].
  destruct (Hd c) as [Hc _]; [left|]. destruct ty; [done..| |done]. by constructor.
Qed.

Lemma optimize_to_normal e : Normal (optimize e).
Proof.
  induction e as [l| | |ty cs IH|e IH] using expr_rect_children; simpl; try by constructor.
  - apply leaf_optimize_normal.
  - apply simplify_normal. intros c (c' & -> & Hc)%list_elem_of_fmap.
    rewrite Forall_forall in IH. by apply IH.
Qed.

Lemma filter_all {A} (p : A → bool) (l : list A) : (∀ x, x ∈ l → p x = true) → List.filter p l = l.
Proof.
  induction l as [|x l IH]; intros Hp; simpl; [done|].
  rewrite (Hp x) by left. f_equal. apply IH. intros. apply Hp. by right.
Qed.

Lemma filter_none {A} (p : A → bool) (l : list A) : (∀ x, x ∈ l → p x = false) → List.filter p l = [].
Proof.
  induction l as [|x l IH]; intros Hp; simpl; [done|].
  rewrite (Hp x) by left. apply IH. intros. apply Hp. by right.
Qed.

Lemma decided_nothing ty cs :
  (∀ c, c ∈ cs → isTriviallyTrue c = false ∧ isTriviallyFalse c = false) → decided ty cs = None.
Proof.
  induction cs as [|c cs IH]; intros Hc; simpl; [done|].
  destruct (Hc c) as [-> ->]; [left|]. simpl. apply IH. intros. apply Hc. by right.
Qed.

Lemma simplify_id ty cs : nodeNormal ty cs → simplify ty cs = Node ty cs.
Proof.
  intros (Hlen & Hor & Hok). unfold simplify.
  assert (removeTrivial ty (absorb ty cs) = cs) as ->.
  { unfold removeTrivial, absorb. destruct (isAndOr ty); [|done].
    rewrite (filter_none (hasType ty)) by (intros; by apply Hok). csimpl. rewrite app_nil_r.
    rewrite (filter_all (λ c, negb (hasType ty c))).
    2:{ intros c Hc. destruct (Hok eq_refl c Hc) as (-> & _). done. }
    apply filter_all. intros c Hc. by destruct (Hok eq_refl c Hc) as (_ & -> & ->). }
  assert ((if isAndOr ty then option.default (Node ty cs) (decided ty cs) else Node ty cs) = Node ty cs) as ->.
  { destruct (isAndOr ty); [|done]. rewrite decided_nothing; [done|].
    intros c Hc. by destruct (Hok eq_refl c Hc) as (_ & -> & ->). }
  destruct (bool_decide (cs = []) && bool_decide (ty = OR)) eqn:E0.
  { apply andb_true_iff in E0 as [E1%bool_decide_eq_true E2%bool_decide_eq_true]. by destruct (Hor E2). }
  by destruct cs as [|c [|c' cs]].
Qed.

Lemma normal_fixed e : Normal e → optimize e = e.
Proof.
  induction e as [l| | |ty cs IH|e IH] using expr_rect_children; intros Hn; inversion Hn as
    [? Hl| | |? ? Hcs Hok|? He]; subst; simpl; try done.
  - assert (optimize <$> cs = cs) as ->; [|by apply simplify_id].
    apply list_eq. intros i. rewrite list_lookup_fmap. destruct (cs !! i) as [c|] eqn:Hc; [|done].
    simpl. f_equal. rewrite Forall_forall in IH.
    apply IH; [|apply Hcs]; by eapply list_elem_of_lookup_2.
  - by rewrite IH.
Qed.
End NormalForm.

(** ** Equivalence and subsets *)

Section Subset.
Context {L D E : Type} `{LeafLaws L D E}.
Implicit Types (e a b : Expr L) (cs : list (Expr L)).

Lemma equivalent_sound a b (d : D) : equivalent a b = true → sem d a = sem d b.
Proof.
  revert b. induction a as [l| | |ty cs IH|a IH] using expr_rect_children;
    intros b Hb; destruct b as [m| | |ty' ds|b]; try done.
  - by apply leaf_equivalent_sound.
  - cbn [equivalent] in Hb. apply andb_true_iff in Hb as [->%bool_decide_eq_true Hb].
    rewrite !(val_node _ (sem_valuation d)). f_equal. revert ds Hb.
    induction IH as [|c cs Hc _ IHcs]; intros [|x ds] Hb; try done.
    apply andb_true_iff in Hb as [Hb1 Hb2]. csimpl. f_equal; [by apply Hc|by apply IHcs].
  - rewrite !(val_not _ (sem_valuation d)). f_equal. by apply IH.
Qed.

Lemma isSubsetOfClause_sound lhs rhs (d : D) :
  isSubsetOfClause rhs lhs = true → sem d lhs = true → sem d rhs = true.
Proof.
  induction lhs as [l| | |ty cs IH|a IH] using expr_rect_children; cbn [isSubsetOfClause];
    intros [Hq|Hs]%orb_true_iff Hl;
    try (by rewrite <- (equivalent_sound _ _ d Hq));
    try (destruct rhs; try done; by eapply leaf_isSubsetOf_sound).
  rewrite Forall_forall in IH. destruct ty.
  - apply existsb_exists in Hs as (c & Hc%list_elem_of_In & Hs). apply (IH c); [done|done|].
    rewrite (val_node _ (sem_valuation d)) in Hl. simpl in Hl. rewrite forallb_fmap in Hl.
    rewrite forallb_forall in Hl. apply Hl. by apply list_elem_of_In.
  - rewrite (val_node _ (sem_valuation d)) in Hl. simpl in Hl. rewrite existsb_fmap in Hl.
    apply existsb_exists in Hl as (c & Hc & Hl). rewrite forallb_forall in Hs.
    apply (IH c); [by apply list_elem_of_In|by apply Hs|done].
  - destruct rhs; try done. by eapply leaf_isSubsetOf_sound.
  - destruct rhs; try done. by eapply leaf_isSubsetOf_sound.
Qed.

Lemma subset_sound lhs rhs (d : D) :
  isSubsetOf lhs rhs = true → sem d lhs = true → sem d rhs = true.
Proof.
  intros Hs Hl. induction rhs as [l| | |ty cs IH|a IH] using expr_rect_children;
    cbn [isSubsetOf] in Hs; apply orb_true_iff in Hs as [Hq|Hs];
    try (by rewrite <- (equivalent_sound _ _ d Hq)); try (by eapply isSubsetOfClause_sound).
  rewrite Forall_forall in IH. destruct ty; try by eapply isSubsetOfClause_sound.
  rewrite (val_node _ (sem_valuation d)). simpl. rewrite forallb_fmap. apply forallb_forall.
  intros c Hc. apply IH; [by apply list_elem_of_In|]. rewrite forallb_forall in Hs. by apply Hs.
Qed.
End Subset.

(** ** Splitting *)

Section Split.
Context {L D E : Type} `{!LeafOps L D E, !LeafAnswers L D E}.
Implicit Types (e a b : Expr L) (cs : list (Expr L)).

(** No expression is no restriction. *)
Definition semOpt (d : D) (o : option (Expr L)) : bool :=
  match o with Some e => sem d e | None => true end.

(** What a split promises. *)
Record SplitOk (fields : list Bytes) (e : Expr L) (p : option (Expr L) * option (Expr L)) : Prop := {
  split_some : p ≠ (None, None);
  split_independent : ∀ s, fst p = Some s → isIndependentOf fields s = true;
  split_exact : ∀ d : D, sem d e = semOpt d (fst p) && semOpt d (snd p)
}.

Lemma createAnd_sem (d : D) cs : semOpt d (createAndOfNodes cs) = forallb (sem d) cs.
Proof.
  destruct cs as [|c [|c' cs]]; simpl; [done|by rewrite andb_true_r|].
  rewrite (val_node _ (sem_valuation d)). csimpl. unfold id at 1. by rewrite forallb_id.
Qed.

Lemma createNor_sem (d : D) cs : semOpt d (createNorOfNodes cs) = negb (existsb (sem d) cs).
Proof.
  destruct cs as [|c cs]; simpl; [done|].
  rewrite (val_node _ (sem_valuation d)). csimpl. unfold id at 1. by rewrite existsb_id.
Qed.

Lemma createAnd_independent fields cs s :
  (∀ c, c ∈ cs → isIndependentOf fields c = true) → createAndOfNodes cs = Some s →
  isIndependentOf fields s = true.
Proof.
  intros Hc. assert (forallb (isIndependentOf fields) cs = true) as Hf.
  { apply forallb_forall. intros c Hin. apply Hc. by apply list_elem_of_In. }
  destruct cs as [|c [|c' cs]]; simpl; [done| |by intros [= <-]].
  intros [= <-]. apply Hc. left.
Qed.

Lemma createNor_independent fields cs s :
  (∀ c, c ∈ cs → isIndependentOf fields c = true) → createNorOfNodes cs = Some s →
  isIndependentOf fields s = true.
Proof.
  intros Hc. assert (forallb (isIndependentOf fields) cs = true) as Hf.
  { apply forallb_forall. intros c Hin. apply Hc. by apply list_elem_of_In. }
  destruct cs as [|c cs]; simpl; [done|by intros [= <-]].
Qed.

Lemma split_leaf fields e :
  isIndependentOf fields e = false → SplitOk fields e (None, Some e).
Proof. by split. Qed.

Lemma createAnd_none cs : createAndOfNodes cs = None → cs = [].
Proof. by destruct cs as [|c [|c' cs]]. Qed.

(** The parts of a conjunction's children, put together. *)
Lemma split_children fields cs ps :
  Forall2 (SplitOk fields) cs ps → cs ≠ [] →
  SplitOk fields (Node AND cs) (createAndOfNodes (omap fst ps), createAndOfNodes (omap snd ps)).
Proof.
  intros Hps Hne. split; simpl.
  - intros [= H1%createAnd_none H2%createAnd_none].
    destruct Hps as [|c p cs ps Hp _]; [done|]. apply (split_some _ _ _ Hp).
    destruct p as [[] []]; simpl in *; done.
  - intros s. apply createAnd_independent. intros c (p & Hp & E1)%list_elem_of_omap.
    apply list_elem_of_lookup in Hp as [i Hi].
    destruct (Forall2_lookup_r _ _ _ _ _ Hps Hi) as (x & _ & Hx). by apply (split_independent _ _ _ Hx).
  - intros d. rewrite !createAnd_sem, (val_node _ (sem_valuation d)). clear Hne. simpl.
    induction Hps as [|c p cs ps Hp _ IH]; [done|]. csimpl. rewrite IH.
    rewrite (split_exact _ _ _ Hp).
    destruct p as [[a|] [b|]]; simpl; rewrite ?andb_true_r; try done; try by rewrite andb_assoc.
    + destruct (sem d a), (sem d b), (forallb (sem d) (omap fst ps)); done.
    + destruct (sem d b), (forallb (sem d) (omap fst ps)); done.
Qed.

Lemma split_ok fields e :
  ∃ p, splitMatchExpressionByWithoutRenames fields e = Some p ∧ SplitOk fields e p.
Proof.
  induction e as [l| | |ty cs IH|e IH] using expr_rect_children;
    cbn [splitMatchExpressionByWithoutRenames];
    match goal with |- context [if isIndependentOf ?f ?x then _ else _] =>
      destruct (isIndependentOf f x) eqn:Hi;
      [eexists; split; [reflexivity|];
       split; [done|by intros s [= <-]|intros d; cbn [semOpt fst snd]; by rewrite andb_true_r]|] end;
    try (eexists; split; [reflexivity|by apply split_leaf]).
  destruct ty; try (eexists; split; [reflexivity|by apply split_leaf]).
  - set (go := fix go (cs : list (Expr L)) := _).
    assert (∃ ps, go cs = Some ps ∧ Forall2 (SplitOk fields) cs ps) as (ps & -> & Hps).
    { clear Hi. induction IH as [|c cs (p & Hc & Hp) _ IHcs]; [by exists []|]. simpl. rewrite Hc.
      cbn [mbind option_bind].
      assert (match p with (None, None) => false | _ => true end = true) as ->.
      { pose proof (split_some _ _ _ Hp). by destruct p as [[] []]. }
      destruct IHcs as (ps & -> & Hps). eexists. split; [done|]. by constructor. }
    eexists. split; [done|]. apply split_children; [done|]. by intros ->.
  - eexists. split; [done|]. split; simpl.
    + intros [= H1 H2]. assert (cs = []) as ->; [|done].
      destruct cs as [|c cs]; [done|]. simpl in *. destruct (isIndependentOf fields c); simpl in *; done.
    + intros s. apply createNor_independent. intros c Hc. by apply elem_of_List_filter in Hc as [? _].
    + intros d. rewrite !createNor_sem, (val_node _ (sem_valuation d)). simpl.
      rewrite <- existsb_id, (existsb_split _ (isIndependentOf fields)), negb_orb. apply andb_comm.
Qed.
End Split.
