(* ===== verification/ComparisonExpression.v ===== *)
(** Comparison predicates on a path, the leaves of the query expressions:
    src/mongo/db/matcher/{expression_leaf.cpp, expression_path.h} and the part of
    expression_algo.cpp that compares them.  Values and the walk along a path are an
    interface with the laws the predicates rely on. *)
From stdpp Require Import gmap strings.
From S2P Require Import Prelude FieldRef MatchExpression MatchExpressionProps.

Inductive CompareType := LTE | LT | EQ | GT | GTE.

#[global] Instance CompareType_eq_dec : EqDecision CompareType.
Proof. solve_decision. Defined.

(** What is used of a [BSONElement]; [compareElements] is given the collator. *)
Class BsonValue (V : Type) := {
  canonicalType : V → Z;
  isMaxKey : V → bool;
  isMinKey : V → bool;
  isNaN : V → bool;
  isCollatableType : V → bool;
  compareElements : option Z → V → V → Z;
  sameValue : V → V → bool
}.

(** Values of one canonical type are ordered, whatever the collator; a collator only
    matters for the types that hold strings; the smallest and the largest key are no
    NaN, null and undefined have one value; what is the same value behaves the same. *)
Class BsonLaws (V : Type) `{!BsonValue V} := {
  compare_antisym : ∀ col (a b : V), canonicalType a = canonicalType b →
    Z.sgn (compareElements col a b) = - Z.sgn (compareElements col b a);
  compare_trans : ∀ col (a b c : V), canonicalType a = canonicalType b →
    canonicalType b = canonicalType c →
    compareElements col a b <= 0 → compareElements col b c <= 0 → compareElements col a c <= 0;
  compare_collator : ∀ col col' (a b : V), isCollatableType b = false →
    compareElements col a b = compareElements col' a b;
  collatable_type : ∀ a b : V, canonicalType a = canonicalType b →
    isCollatableType a = isCollatableType b;
  key_type : ∀ a b : V, canonicalType a = canonicalType b →
    isMaxKey a = isMaxKey b ∧ isMinKey a = isMinKey b;
  key_not_nan : ∀ a : V, isMaxKey a || isMinKey a = true → isNaN a = false;
  compare_null : ∀ col (e a b : V), canonicalType e + canonicalType a = 5 →
    canonicalType a = canonicalType b → compareElements col a b = 0;
  same_value : ∀ a b : V, sameValue a b = true →
    canonicalType a = canonicalType b ∧ isNaN a = isNaN b
    ∧ ∀ col e, compareElements col e a = compareElements col e b
}.

(** A document gives the elements at a path, each with its array offset if it has one. *)
Class Document (D V : Type) := elementsAt : D → Bytes → list (V * option string).

Module ComparisonMatchExpression.
Record t (V : Type) := mk {
  path : Bytes;
  matchType : CompareType;
  _rhs : V;
  _collator : option Z
}.
Arguments mk {V}.
Arguments path {V}.
Arguments matchType {V}.
Arguments _rhs {V}.
Arguments _collator {V}.

Section Comparison.
Context {V : Type} `{!BsonValue V}.
Implicit Types (c lhs rhs : t V) (e : V).

(** The answer for an element of another canonical type than the operand's. *)
Definition matchesOtherType c e : bool :=
  if canonicalType e + canonicalType (_rhs c) =? 5 then
    match matchType c with EQ | LTE | GTE => true | _ => false end
  else if isMaxKey (_rhs c) || isMinKey (_rhs c) then
    match matchType c with
    | LT | LTE => isMaxKey (_rhs c)
    | EQ => false
    | GT | GTE => isMinKey (_rhs c)
    end
  else false.

Definition byOrder (ty : CompareType) (x : Z) : bool :=
  match ty with
  | LT => x <? 0
  | LTE => x <=? 0
  | EQ => x =? 0
  | GT => 0 <? x
  | GTE => 0 <=? x
  end.

Definition matchesSingleElement c e : bool :=
  if negb (canonicalType e =? canonicalType (_rhs c)) then matchesOtherType c e
  else if isNaN e || isNaN (_rhs c) then
    let bothNaN := isNaN e && isNaN (_rhs c) in
    match matchType c with
    | LT | GT => false
    | LTE | EQ | GTE => bothNaN
    end
  else byOrder (matchType c) (compareElements (_collator c) e (_rhs c)).

(** [PathMatchExpression::matches]: the first element of the path that matches. *)
Fixpoint pathMatches c (elements : list (V * option string)) (det : Details) : bool * Details :=
  match elements with
  | [] => (false, det)
  | (e, arrayOffset) :: elements' =>
      if negb (matchesSingleElement c e) then pathMatches c elements' det
      else (true, match det, arrayOffset with
                  | Some d, Some k => Some (if MatchDetails.needRecord d
                                            then MatchDetails.setElemMatchKey k d else d)
                  | _, _ => det
                  end)
  end.

Definition collatorsMatch (a b : option Z) : bool := bool_decide (a = b).

Definition equivalent (a b : t V) : bool :=
  bool_decide (matchType a = matchType b) && collatorsMatch (_collator a) (_collator b)
  && bool_decide (path a = path b) && sameValue (_rhs a) (_rhs b).

(** [applyRename]: the path, or a prefix of it, gets its new name; two renames that
    apply fail the invariant. *)
Definition renamedBy (pathFieldRef : FieldRef.t) (p : Bytes) (rename : Bytes * Bytes)
    : option (list Bytes) :=
  let '(from, to) := rename in
  let prefixToRename := FieldRef.parse from FieldRef.empty in
  b ← FieldRef.isPrefixOf prefixToRename pathFieldRef;
  tail ← FieldRef.dottedSubstring (FieldRef.numParts prefixToRename)
           (FieldRef.numParts pathFieldRef) pathFieldRef;
  Some ((if bool_decide (from = p) then [to] else []) ++ (if b : bool then [to ++ dot :: fst tail] else [])).

Definition applyRename (renameList : list (Bytes * Bytes)) c : option (t V) :=
  found ← mapM (renamedBy (FieldRef.parse (path c) FieldRef.empty) (path c)) renameList;
  match mjoin found with
  | [] => Some c
  | [_rewrittenPath] => Some (mk _rewrittenPath (matchType c) (_rhs c) (_collator c))
  | _ => None
  end.

Definition supportsEquality c : bool :=
  match matchType c with LTE | EQ | GTE => true | _ => false end.

(** [_isSubsetOf] on two comparisons. *)
Definition isSubsetOfComparison lhs rhs : bool :=
  if negb (bool_decide (path lhs = path rhs)) then false
  else if negb (canonicalType (_rhs lhs) =? canonicalType (_rhs rhs)) then false
  else if isNaN (_rhs lhs) || isNaN (_rhs rhs) then
    if supportsEquality lhs && supportsEquality rhs
    then isNaN (_rhs lhs) && isNaN (_rhs rhs) else false
  else if negb (collatorsMatch (_collator lhs) (_collator rhs)) && isCollatableType (_rhs lhs)
  then false
  else
    let cmp := compareElements (_collator rhs) (_rhs lhs) (_rhs rhs) in
    if bool_decide (matchType lhs = matchType rhs) && (cmp =? 0) then true
    else
      match matchType rhs with
      | LT | LTE =>
          match matchType lhs with
          | LT | LTE | EQ =>
              if bool_decide (matchType rhs = LTE) then cmp <=? 0 else cmp <? 0
          | _ => false
          end
      | GT | GTE =>
          match matchType lhs with
          | GT | GTE | EQ =>
              if bool_decide (matchType rhs = GTE) then 0 <=? cmp else 0 <? cmp
          | _ => false
          end
      | EQ => false
      end.
End Comparison.

(** ** The subset test is right element by element *)

Section Soundness.
Context {V : Type} `{BsonLaws V}.
Implicit Types (e l r : V).

Lemma compare_flip col a b :
  canonicalType a = canonicalType b →
  (compareElements col a b <= 0 ↔ 0 <= compareElements col b a)
  ∧ (compareElements col a b < 0 ↔ 0 < compareElements col b a).
Proof. intros E. pose proof (compare_antisym col a b E). lia. Qed.

Lemma compare_le_lt col e l r :
  canonicalType e = canonicalType l → canonicalType l = canonicalType r →
  compareElements col e l <= 0 → compareElements col l r < 0 → compareElements col e r < 0.
Proof.
  intros E1 E2 H1 H2. destruct (Z.lt_ge_cases (compareElements col e r) 0) as [|H3]; [done|exfalso].
  apply (compare_flip col r e) in H3; [|congruence].
  assert (canonicalType r = canonicalType e) as E3 by congruence.
  pose proof (compare_trans col r e l E3 E1 H3 H1) as H4.
  apply (compare_flip col r l) in H4; [lia|congruence].
Qed.

Lemma compare_lt_le col e l r :
  canonicalType e = canonicalType l → canonicalType l = canonicalType r →
  compareElements col e l < 0 → compareElements col l r <= 0 → compareElements col e r < 0.
Proof.
  intros E1 E2 H1 H2. destruct (Z.lt_ge_cases (compareElements col e r) 0) as [|H3]; [done|exfalso].
  apply (compare_flip col r e) in H3; [|congruence].
  assert (canonicalType r = canonicalType e) as E3 by congruence.
  pose proof (compare_trans col l r e E2 E3 H2 H3) as H4.
  apply (compare_flip col l e) in H4; [lia|congruence].
Qed.

(** The order's composition in all the cases at once. *)
Lemma compare_cases col e l r :
  canonicalType e = canonicalType l → canonicalType l = canonicalType r →
  let x := compareElements col e l in let y := compareElements col l r in
  let z := compareElements col e r in
  (x <= 0 → y <= 0 → z <= 0) ∧ (x < 0 → y <= 0 → z < 0) ∧ (x <= 0 → y < 0 → z < 0)
  ∧ (0 <= x → 0 <= y → 0 <= z) ∧ (0 < x → 0 <= y → 0 < z) ∧ (0 <= x → 0 < y → 0 < z).
Proof.
  intros E1 E2. simpl.
  assert (canonicalType r = canonicalType e) as E3 by congruence.
  pose proof (compare_flip col l e (eq_sym E1)) as [F1 F1'].
  pose proof (compare_flip col r l (eq_sym E2)) as [F2 F2'].
  pose proof (compare_flip col r e E3) as [F3 F3'].
  repeat split; intros; try (by eapply (compare_trans col e l r));
    try (by eapply (compare_lt_le col e l r)); try (by eapply (compare_le_lt col e l r)).
  - apply F3, (compare_trans col r l e); first [by auto | by apply F2 | by apply F1].
  - apply F3', (compare_le_lt col r l e); first [by auto | by apply F2 | by apply F1'].
  - apply F3', (compare_lt_le col r l e); first [by auto | by apply F2' | by apply F1].
Qed.

(** Elements of another type: what the operators make of null and of the keys. *)
Lemma subset_other_type (lhs rhs : t V) e :
  isSubsetOfComparison lhs rhs = true → canonicalType e ≠ canonicalType (_rhs lhs) →
  matchesOtherType lhs e = true → matchesOtherType rhs e = true.
Proof.
  unfold isSubsetOfComparison, matchesOtherType, supportsEquality.
  destruct (bool_decide (path lhs = path rhs)); [cbn [negb]|done].
  destruct (canonicalType (_rhs lhs) =? canonicalType (_rhs rhs)) eqn:Et; [cbn [negb]|done].
  apply Z.eqb_eq in Et. rewrite <- Et. destruct (key_type _ _ Et) as [<- <-].
  pose proof (key_not_nan (_rhs lhs)) as Hkey. intros Hs Hne.
  destruct (canonicalType e + canonicalType (_rhs lhs) =? 5) eqn:E5.
  - apply Z.eqb_eq in E5. pose proof (compare_null (_collator rhs) e _ _ E5 Et) as E0. rewrite E0 in Hs.
    destruct (isNaN (_rhs lhs) || isNaN (_rhs rhs));
      [|destruct (negb (collatorsMatch _ _) && isCollatableType (_rhs lhs)); [done|]];
      destruct (matchType lhs), (matchType rhs); simpl in *; done.
  - destruct (isMaxKey (_rhs lhs) || isMinKey (_rhs lhs)) eqn:Ek; [|done].
    rewrite Hkey in Hs by done.
    destruct (isNaN (_rhs rhs)); cbn [orb] in Hs;
      [|destruct (negb (collatorsMatch _ _) && isCollatableType (_rhs lhs)); [done|]];
      destruct (matchType lhs), (matchType rhs); simpl in *; congruence || done.
Qed.

(** What the order test says about the operators. *)
Lemma subset_by_order (lt rt : CompareType) x y z :
  (if bool_decide (lt = rt) && (y =? 0) then true
   else match rt with
        | LT | LTE => match lt with
                      | LT | LTE | EQ => if bool_decide (rt = LTE) then y <=? 0 else y <? 0
                      | _ => false
                      end
        | GT | GTE => match lt with
                      | GT | GTE | EQ => if bool_decide (rt = GTE) then 0 <=? y else 0 <? y
                      | _ => false
                      end
        | EQ => false
        end) = true →
  (x <= 0 → y <= 0 → z <= 0) ∧ (x < 0 → y <= 0 → z < 0) ∧ (x <= 0 → y < 0 → z < 0)
  ∧ (0 <= x → 0 <= y → 0 <= z) ∧ (0 < x → 0 <= y → 0 < z) ∧ (0 <= x → 0 < y → 0 < z) →
  byOrder lt x = true → byOrder rt z = true.
Proof.
  intros Hs (H1 & H2 & H3 & H4 & H5 & H6) Hx.
  destruct (y =? 0) eqn:Ey; rewrite ?andb_true_r, ?andb_false_r in Hs;
    destruct lt, rt; simpl in *; try done; to_prop; rewrite ?Z.leb_le, ?Z.ltb_lt, ?Z.eqb_eq in *; lia.
Qed.

Lemma subset_element (lhs rhs : t V) e :
  isSubsetOfComparison lhs rhs = true →
  matchesSingleElement lhs e = true → matchesSingleElement rhs e = true.
Proof.
  intros Hs Hl. pose proof (subset_other_type lhs rhs e Hs) as Hother. revert Hs Hl Hother.
  unfold isSubsetOfComparison, matchesSingleElement, supportsEquality.
  destruct (bool_decide (path lhs = path rhs)); [cbn [negb]|done].
  destruct (canonicalType (_rhs lhs) =? canonicalType (_rhs rhs)) eqn:Et; [cbn [negb]|done].
  apply Z.eqb_eq in Et. rewrite <- Et.
  destruct (canonicalType e =? canonicalType (_rhs lhs)) eqn:Ee; cbn [negb].
  2:{ intros _ Hm Ho. apply Ho; [by apply Z.eqb_neq in Ee|done]. }
  apply Z.eqb_eq in Ee. intros Hs Hl _. revert Hs Hl.
  destruct (isNaN (_rhs lhs)) eqn:Nl; cbn [orb].
  { rewrite !orb_true_r, !andb_true_r.
    destruct (isNaN (_rhs rhs)), (isNaN e), (matchType lhs), (matchType rhs); simpl; done. }
  destruct (isNaN (_rhs rhs)) eqn:Nr.
  { rewrite andb_false_l. by destruct (_ && _). }
  rewrite !orb_false_r, !andb_false_r.
  destruct (negb (collatorsMatch _ _) && _) eqn:Ec; [done|].
  destruct (isNaN e); [by destruct (matchType lhs)|].
  assert (compareElements (_collator lhs) e (_rhs lhs) = compareElements (_collator rhs) e (_rhs lhs)) as ->.
  { apply andb_false_iff in Ec as [Ec|Ec].
    - apply negb_false_iff, bool_decide_eq_true in Ec. by rewrite Ec.
    - by apply compare_collator. }
  intros Hs. apply (subset_by_order _ _ _ _ _ Hs). by apply compare_cases.
Qed.
End Soundness.

(** ** Comparisons as leaves *)

Section Leaves.
Context {V D : Type} `{BsonLaws V} `{!Document D V}.

#[global] Instance comparison_leaf : LeafOps (t V) D V := {|
  leaf_category _ := kLeaf;
  leaf_path := path;
  leaf_matches c d det := pathMatches c (elementsAt d (path c)) det;
  leaf_matchesSingleElement c e det := (matchesSingleElement c e, det);
  leaf_optimize c := Leaf c;
  leaf_equivalent := equivalent;
  leaf_isSubsetOf lhs rhs := match lhs with Leaf l => isSubsetOfComparison l rhs | _ => false end;
  leaf_applyRename := applyRename
|}.

Lemma pathMatches_answer (c : t V) els det :
  fst (pathMatches c els det) = existsb (λ x, matchesSingleElement c (fst x)) els.
Proof.
  revert det. induction els as [|[e k] els IH]; intros det; simpl; [done|].
  destruct (matchesSingleElement c e); simpl; [done|apply IH].
Qed.

Lemma comparison_sem (d : D) (c : t V) :
  sem d (Leaf c) = existsb (λ x, matchesSingleElement c (fst x)) (elementsAt d (path c)).
Proof. apply pathMatches_answer. Qed.

Lemma equivalent_element (l m : t V) e :
  equivalent l m = true → matchesSingleElement l e = matchesSingleElement m e.
Proof.
  unfold equivalent. intros [[[Et Ec]%andb_true_iff _]%andb_true_iff Ev]%andb_true_iff.
  apply bool_decide_eq_true in Et, Ec. destruct (same_value _ _ Ev) as (E1 & E2 & E3).
  destruct (key_type _ _ E1) as [E4 E5].
  unfold matchesSingleElement, matchesOtherType. by rewrite Et, Ec, E1, E2, E3, E4, E5.
Qed.

#[global] Instance comparison_answers : LeafAnswers (t V) D V.
Proof. split; [|done]. intros l d det. simpl. by rewrite !pathMatches_answer. Qed.

#[global] Instance comparison_laws : LeafLaws (t V) D V.
Proof.
  split.
  - apply _.
  - done.
  - done.
  - intros l. by constructor.
  - intros l m Heq d. rewrite !comparison_sem.
    assert (path l = path m) as ->.
    { unfold equivalent in Heq. apply andb_true_iff in Heq as [[_ Hp]%andb_true_iff _].
      by apply bool_decide_eq_true in Hp. }
    induction (elementsAt d (path m)) as [|x els IH]; simpl; [done|].
    by rewrite (equivalent_element l m), IH.
  - intros e r Hs d Hl. destruct e as [l| | | |]; try done. simpl in Hs.
    rewrite comparison_sem in *. apply existsb_exists in Hl as (x & Hx & Hl). apply existsb_exists.
    exists x. split; [|by apply (subset_element l r)].
    unfold isSubsetOfComparison in Hs. case_bool_decide as Ep; [|done]. by rewrite <- Ep.
Qed.
End Leaves.
End ComparisonMatchExpression.
