(* ===== verification/QueryProps.v ===== *)
(** The properties of query predicates, and their instances at comparisons of
    numbers. *)
From stdpp Require Import gmap strings.
From S2P Require Import Prelude FieldRef MatchExpression MatchExpressionProps ComparisonExpression.

(** ** A concrete kind of values: numbers *)

#[global] Instance number_value : BsonValue Z := {|
  canonicalType _ := 10;
  isMaxKey _ := false;
  isMinKey _ := false;
  isNaN _ := false;
  isCollatableType _ := false;
  compareElements _ a b := a - b;
  sameValue := Z.eqb
|}.

#[global] Instance number_laws : BsonLaws Z.
Proof.
  split; simpl; try done; try (intros; lia).
  intros a b ->%Z.eqb_eq. done.
Qed.

(** A document of top-level numbers; a repeated name stands for an array's elements. *)
Abbreviation NumberDoc := (list (Bytes * Z * option string)).
#[global] Instance number_document : Document NumberDoc Z :=
  λ d p, omap (λ x, if bool_decide (fst (fst x) = p) then Some (snd (fst x), snd x) else None) d.

Definition field (s : string) : Bytes := String.list_ascii_of_string s.
Definition cmp (s : string) (ty : CompareType) (v : Z) : Expr (ComparisonMatchExpression.t Z) :=
  Leaf (ComparisonMatchExpression.mk (field s) ty v None).
Definition sampleDoc : NumberDoc := [(field "a", 1, None); (field "b", 7, Some "0")].

(** A query with something for every rewriting of the optimizer. *)
Definition sampleQuery : Expr (ComparisonMatchExpression.t Z) :=
  Node AND [Node AND [cmp "a" EQ 1; cmp "a" LTE 1; Node AND []]; Node OR [cmp "b" GT 5; Node OR []];
            Node NOR [cmp "a" GT 3]; Not (Node OR [Node AND [cmp "b" LT 2]]); AlwaysTrue].

(** ** Properties *)

(** C37: of an expression that is built from comparisons ($eq, $lt, $lte, $gt and $gte) by the
    logical nodes, optimizing never changes what it matches, neither for documents nor for
    single elements, whether details are asked for or not, for any values that compare as BSON's
    do and any way of finding the elements of a path.  Other leaves are not covered: $in is
    optimized to an equality that matches more. *)
Theorem optimize_equivalent {V D : Type} `{BsonLaws V, !Document D V}
    (e : Expr (ComparisonMatchExpression.t V)) (d : D) (x : V) (det : Details) (failPoint : bool) :
  fst (matches d (optimizeUnless failPoint e) det) = fst (matches d e det)
  ∧ fst (matchesSingleElement x (optimizeUnless failPoint e) det) = fst (matchesSingleElement x e det).
Proof.
  destruct failPoint; [done|]. cbn [optimizeUnless].
  rewrite !matches_answer, !matchesSingleElement_answer. split.
  - apply optimize_val; [apply sem_valuation|]. intros l. apply leaf_optimize_matches.
  - apply optimize_val; [apply semSingle_valuation|]. intros l. apply leaf_optimize_single.
Qed.

Lemma optimize_equivalent_witness :
  optimize sampleQuery
  = Node AND [cmp "b" GT 5; Not (cmp "a" GT 3); Not (cmp "b" LT 2); cmp "a" EQ 1;
              cmp "a" LTE 1]
  ∧ fst (matches sampleDoc (optimizeUnless false sampleQuery) None)
    = fst (matches sampleDoc sampleQuery None).
Proof.
  split; [reflexivity|].
  exact (proj1 (optimize_equivalent sampleQuery sampleDoc 0 None false)).
Defined.

(** An optimized expression is in normal form: no list node has a single child, a
    conjunction or disjunction has no child of its own type and none that is
    trivially true or false, an empty disjunction does not occur; and optimizing an
    expression in normal form, in particular one that was optimized, changes nothing. *)
Theorem optimize_normal_form {L D E : Type} `{LeafLaws L D E} (e : Expr L) :
  Normal (optimize e) ∧ optimize (optimize e) = optimize e ∧ (Normal e → optimize e = e).
Proof.
  split; [apply optimize_to_normal|]. split; [apply normal_fixed, optimize_to_normal|apply normal_fixed].
Qed.

Lemma optimize_normal_form_witness :
  Normal (optimize sampleQuery) ∧ optimize (optimize sampleQuery) = optimize sampleQuery.
Proof.
  exact (let H := optimize_normal_form sampleQuery in conj (proj1 H) (proj1 (proj2 H))).
Defined.



(** C39: splitting an expression by a set of fields fails no invariant, never gives
    two empty halves, its first half depends on none of the fields, and a document
    matches the expression exactly when it matches both halves. *)
Theorem split_is_exact {L D E : Type} `{!LeafOps L D E, !LeafAnswers L D E} (fields : list Bytes) (e : Expr L) :
  ∃ separate reliant,
    splitMatchExpressionByWithoutRenames fields e = Some (separate, reliant)
    ∧ (separate, reliant) ≠ (None, None)
    ∧ (∀ s, separate = Some s → isIndependentOf fields s = true)
    ∧ ∀ d : D, fst (matches d e None) = semOpt d separate && semOpt d reliant.
Proof.
  destruct (split_ok (D := D) fields e) as ([s r] & Hs & Hok). exists s, r.
  split; [done|]. split; [apply Hok|]. split; [apply Hok|apply Hok].
Qed.

Lemma split_is_exact_witness :
  ∃ separate reliant,
    splitMatchExpressionByWithoutRenames [field "b"] sampleQuery = Some (separate, reliant)
    ∧ (separate, reliant) ≠ (None, None).
Proof.
  destruct (split_is_exact (D := NumberDoc) [field "b"] sampleQuery) as (s & r & E & Hne & _).
  exists s, r. exact (conj E Hne).
Defined.

(** ** What the model shows of the code *)

(** Replacing a disjunction of one child by the child makes the child's array offset
    appear among the details, which a disjunction does not report. *)
Lemma optimize_changes_details :
  let q := Node OR [cmp "b" GT 5] in
  let det := Some (MatchDetails.mk false true None) in
  snd (matches sampleDoc q det) = det
  ∧ snd (matches sampleDoc (optimize q) det) = Some (MatchDetails.mk false true (Some "0")).
Proof. split; reflexivity. Qed.
