(* ===== verification/Initializer.v ===== *)
(** Server start-up: the graph of initializers, its sort by prerequisites, and the
    execution of the initializers and deinitializers in that order:
    src/mongo/base/{initializer_dependency_graph.h, initializer_dependency_graph.cpp,
    initializer.cpp, global_initializer_registerer.cpp}.

    A pointer to an element of the sort is the element's name.  The iteration orders of
    the hash containers and the random shuffles are arguments; the messages of the errors
    are left out.  What an initializer does to the process is a function on a type of worlds. *)
From stdpp Require Import gmap strings.
From S2P Require Import Prelude.

Inductive Status :=
  | OK | BadValue | GraphContainsCycle | InternalError | Error50999 | OtherError (code : Z).

#[global] Instance Status_eq_dec : EqDecision Status.
Proof. solve_decision. Defined.

(** What a call of an initializer's function comes to; an exception carries the status
    that [DBException::toStatus] gives, which is never OK. *)
Inductive Outcome := Returned (st : Status) | Thrown (st : Status).

#[global] Instance Outcome_eq_dec : EqDecision Outcome.
Proof. solve_decision. Defined.

(** ** The sort *)

Module TopSort.

(** The locals of [topSort] once everything is wired up and shuffled: the vector of
    elements, each element's children and position, and the two boundaries. *)
Record State := mkState {
  elements : list string;
  children : gmap string (list string);
  membership : gmap string nat;
  unsortedBegin : nat;
  unsortedEnd : nat
}.

(** Swaps the vector's slots of two elements and their positions. *)
Definition swapPositions (a b : string) (s : State) : option State :=
  ia ← membership s !! a; ib ← membership s !! b;
  xa ← elements s !! ia; xb ← elements s !! ib;
  Some (mkState (<[ib := xa]> (<[ia := xb]> (elements s))) (children s)
    (<[b := ia]> (<[a := ib]> (membership s))) (unsortedBegin s) (unsortedEnd s)).

Definition with_bounds (ub ue : nat) (s : State) : State :=
  mkState (elements s) (children s) (membership s) ub ue.
Definition with_children (m : gmap string (list string)) (s : State) : State :=
  mkState (elements s) m (membership s) (unsortedBegin s) (unsortedEnd s).

(** An empty stack grows over the rightmost unsorted element. *)
Definition grow (s : State) : State :=
  if (unsortedEnd s =? length (elements s))%nat
  then with_bounds (unsortedBegin s) (unsortedEnd s - 1) s else s.

(** One turn of the loop; the right injection is the list thrown with a cycle. *)
Definition step (s : State) : option (State + list string) :=
  let s := grow s in
  top ← elements s !! unsortedEnd s;
  cs ← children s !! top;
  match last cs with
  | Some picked =>
      let s := with_children (<[top := removelast cs]> (children s)) s in
      m ← membership s !! picked;
      if (m <? unsortedBegin s)%nat then Some (inl s)
      else if (unsortedEnd s <=? m)%nat
      then Some (inr (drop (unsortedEnd s) (elements s) ++ [top]))
      else
        let s := with_bounds (unsortedBegin s) (unsortedEnd s - 1) s in
        a ← elements s !! unsortedEnd s;
        inl <$> swapPositions a picked s
  | None =>
      b ← elements s !! unsortedBegin s;
      s ← swapPositions top b s;
      Some (inl (with_bounds (unsortedBegin s + 1) (unsortedEnd s + 1) s))
  end.

(** The loop of [topSort]: [while (unsortedBegin != elements.end())]. *)
Fixpoint loop (fuel : nat) (s : State) : option (list string + list string) :=
  if (unsortedBegin s =? length (elements s))%nat then Some (inl (elements s)) else
  match fuel with
  | O => None
  | S fuel' =>
      r ← step s;
      match r with inl s' => loop fuel' s' | inr cycle => Some (inr cycle) end
  end.

(** What every turn of the loop takes away: children to visit and elements to sort. *)
Definition measure (s : State) : nat :=
  (sum_list_with (λ e, length (default [] (children s !! e))) (elements s)
   + (length (elements s) - unsortedBegin s))%nat.

(** The state before the loop, for elements and children in shuffled order. *)
Definition start (es : list string) (childrenOf : string → list string) : State :=
  mkState es (list_to_map ((λ e, (e, childrenOf e)) <$> es))
    (list_to_map (imap (λ i e, (e, i)) es)) 0 (length es).
End TopSort.

(** ** The graph *)

Module InitializerDependencyGraph.
Section World.
Context {W : Type}.

(** [InitializerFunction] and [DeinitializerFunction]. *)
Definition Function : Type := W → Outcome * W.

Record Node := mkNode {
  initFn : option Function;
  deinitFn : option Function;
  prerequisites : gset string;
  initialized : bool
}.

(** [InitializerDependencyNode], as [_nodes[name]] makes it. *)
Definition emptyNode : Node := mkNode None None ∅ false.

Definition setInitialized (b : bool) (n : Node) : Node :=
  mkNode (initFn n) (deinitFn n) (prerequisites n) b.
Definition addPrerequisite (p : string) (n : Node) : Node :=
  mkNode (initFn n) (deinitFn n) ({[p]} ∪ prerequisites n) (initialized n).

Implicit Types (g : gmap string Node) (n : Node).

Definition addInitializer (name : string) (init deinit : option Function)
    (prereqs dependents : list string) (g : gmap string Node) : Status * gmap string Node :=
  match init with
  | None => (BadValue, g)
  | Some _ =>
      let newNode := default emptyNode (g !! name) in
      match initFn newNode with
      | Some _ => (Error50999, <[name := newNode]> g)
      | None =>
          let newNode := mkNode init deinit (prerequisites newNode) (initialized newNode) in
          let newNode := foldl (λ n p, addPrerequisite p n) newNode prereqs in
          let g := <[name := newNode]> g in
          (OK, foldl (λ g d,
                 <[d := addPrerequisite name (default emptyNode (g !! d))]> g) g dependents)
      end
  end.

(** The arguments of a [GlobalInitializerRegisterer]. *)
Record Registration := mkReg {
  r_name : string;
  r_initFn : option Function;
  r_deinitFn : option Function;
  r_prerequisites : list string;
  r_dependents : list string
}.

(** Its constructor, which aborts the process when the call fails. *)
Definition GlobalInitializerRegisterer g (r : Registration) : option (gmap string Node) :=
  let '(status, g') :=
    addInitializer (r_name r) (r_initFn r) (r_deinitFn r) (r_prerequisites r) (r_dependents r) g in
  invariant (bool_decide (status = OK)) ;; Some g'.

(** The static initialization of a program: its registerers' constructors, in the order
    the translation units happen to come. *)
Fixpoint registerAll (regs : list Registration) g : option (gmap string Node) :=
  match regs with
  | [] => Some g
  | r :: regs => g' ← GlobalInitializerRegisterer g r; registerAll regs g'
  end.

Definition getInitializerNode (name : string) g : option Node := g !! name.

(** [shuffle i] is what the [i]-th call of [std::shuffle] does to its range. *)
Section Sort.
Context (shuffle : nat → list string → list string).

(** The element of a name in the vector: its children, in the order the shuffle of the
    element at that index left them. *)
Definition shuffledChildren g (es : list string) (e : string) : list string :=
  match list_find (.= e) es, g !! e with
  | Some (i, _), Some n => shuffle (S i) (base.elements (prerequisites n))
  | _, _ => []
  end.

(** A node without a function. *)
Definition unimplemented g : bool :=
  existsb (λ kn, match initFn kn.2 with None => true | Some _ => false end) (map_to_list g).

(** A prerequisite that is no node. *)
Definition missingPrerequisite g : bool :=
  existsb (λ kn, existsb (λ p, bool_decide (g !! p = None))
                   (base.elements (prerequisites kn.2))) (map_to_list g).

(** [sortedNames] is the caller's vector, which errors other than a cycle leave alone. *)
Definition topSort g (sortedNames : list string) : option (Status * list string) :=
  if unimplemented g then Some (BadValue, sortedNames)
  else if missingPrerequisite g then Some (BadValue, sortedNames)
  else
    let es := shuffle 0 (map_to_list g).*1 in
    let s := TopSort.start es (shuffledChildren g es) in
    r ← TopSort.loop (TopSort.measure s) s;
    match r with
    | inl names => Some (OK, names)
    | inr cycle => Some (GraphContainsCycle, cycle)
    end.
End Sort.
End World.
Arguments Function W : clear implicits.
Arguments Node W : clear implicits.
Arguments Registration W : clear implicits.

(** [NodeMap]. *)
Abbreviation t W := (gmap string (Node W)).
End InitializerDependencyGraph.

(** ** Execution *)

Module Initializer.
Import InitializerDependencyGraph.
Section World.
Context {W : Type}.
Context (shuffle : nat → list string → list string).
Implicit Types (g : t W) (w : W).

(** The loop over the sorted names. *)
Fixpoint initLoop (sortedNodes : list string) g w : option (Status * t W * W) :=
  match sortedNodes with
  | [] => Some (OK, g, w)
  | name :: rest =>
      node ← getInitializerNode name g;
      if initialized node then initLoop rest g w else
      match initFn node with
      | None => Some (InternalError, g, w)
      | Some fn =>
          let '(o, w) := fn w in
          match o with
          | Thrown st => Some (st, g, w)
          | Returned OK => initLoop rest (<[name := setInitialized true node]> g) w
          | Returned st => Some (st, g, w)
          end
      end
  end.

Definition executeInitializers g w : option (Status * t W * W) :=
  '(status, sortedNodes) ← topSort shuffle g [];
  if bool_decide (status = OK) then initLoop sortedNodes g w else Some (status, g, w).

(** The loop over the sorted names, from the back. *)
Fixpoint deinitLoop (reversedNodes : list string) g w : option (Status * t W * W) :=
  match reversedNodes with
  | [] => Some (OK, g, w)
  | name :: rest =>
      node ← getInitializerNode name g;
      match deinitFn node with
      | None => deinitLoop rest g w
      | Some fn =>
          let '(o, w) := fn w in
          match o with
          | Thrown st => Some (st, g, w)
          | Returned OK => deinitLoop rest (<[name := setInitialized false node]> g) w
          | Returned st => Some (st, g, w)
          end
      end
  end.

Definition executeDeinitializers g w : option (Status * t W * W) :=
  '(status, sortedNodes) ← topSort shuffle g [];
  if bool_decide (status = OK) then deinitLoop (reverse sortedNodes) g w
  else Some (status, g, w).
End World.
End Initializer.
