(* ===== verification/InitializerProps.v ===== *)
(** The sort of the initializers ends, orders them by prerequisites or names a cycle, and
    an initializer may rely on its prerequisites having run. *)
From stdpp Require Import gmap strings relations.
From S2P Require Import Prelude Initializer.

(** ** Sums over the elements *)

Lemma sum_list_with_le {A} (f g : A → nat) l :
  (∀ x, x ∈ l → (g x <= f x)%nat) → (sum_list_with g l <= sum_list_with f l)%nat.
Proof.
  induction l as [|x l IH]; intros H; simpl; [lia|].
  pose proof (H x ltac:(left)). specialize (IH ltac:(intros y Hy; apply H; by right)). lia.
Qed.

Lemma sum_list_with_lt {A} (f g : A → nat) l x :
  (∀ y, y ∈ l → (g y <= f y)%nat) → x ∈ l → (g x < f x)%nat →
  (sum_list_with g l < sum_list_with f l)%nat.
Proof.
  induction l as [|y l IH]; intros H Hx Hlt; [by apply elem_of_nil in Hx|]. simpl.
  assert (H' : ∀ z, z ∈ l → (g z <= f z)%nat) by (intros z Hz; apply H; by right).
  pose proof (H y ltac:(left)). apply elem_of_cons in Hx as [->|Hx].
  - pose proof (sum_list_with_le f g l H'). lia.
  - specialize (IH H' Hx Hlt). lia.
Qed.

Lemma sum_list_with_perm {A} (f : A → nat) l l' :
  l ≡ₚ l' → sum_list_with f l = sum_list_with f l'.
Proof. induction 1; simpl; lia. Qed.

(** ** The invariant of the sort *)

Module TopSortFacts.
Import TopSort.

Section Sort.
(** [prq p e]: [p] is a prerequisite of [e]; the names to sort. *)
Context (prq : string → string → Prop) (names : list string).
Hypothesis (Hnames : NoDup names).

(** Positions and the vector agree. *)
Record Placed (s : State) : Prop := {
  p_perm : elements s ≡ₚ names;
  p_membership : ∀ e i, membership s !! e = Some i ↔ elements s !! i = Some e;
  p_children : ∀ e, e ∈ names → is_Some (children s !! e);
  p_sound : ∀ e cs p, children s !! e = Some cs → p ∈ cs → prq p e ∧ p ∈ names
}.

(** The three regions: [sorted | unsorted | stack]. *)
Record SInv (s : State) : Prop := {
  s_placed : Placed s;
  s_bounds : (unsortedBegin s <= unsortedEnd s <= length (elements s))%nat;
  s_sorted : ∀ i e p, (i < unsortedBegin s)%nat → elements s !! i = Some e → prq p e →
    ∃ j, (j < i)%nat ∧ elements s !! j = Some p;
  s_unsorted : ∀ i e cs p, (unsortedBegin s <= i < unsortedEnd s)%nat →
    elements s !! i = Some e → children s !! e = Some cs → prq p e → p ∈ cs;
  s_stack : ∀ i e cs p, (unsortedEnd s <= i)%nat →
    elements s !! i = Some e → children s !! e = Some cs → prq p e →
    p ∈ cs ∨ (∃ j, (j < unsortedBegin s)%nat ∧ elements s !! j = Some p) ∨
    (unsortedEnd s < i)%nat ∧ elements s !! (i - 1)%nat = Some p;
  s_adjacent : ∀ i x y, (unsortedEnd s <= i)%nat →
    elements s !! i = Some x → elements s !! S i = Some y → prq x y
}.

Lemma placed_nodup s : Placed s → NoDup (elements s).
Proof. intros H. by rewrite (p_perm s H). Qed.

Lemma placed_unique s i j e :
  Placed s → elements s !! i = Some e → elements s !! j = Some e → i = j.
Proof. intros H. apply NoDup_lookup, placed_nodup, H. Qed.

Lemma placed_children s i e :
  Placed s → elements s !! i = Some e → ∃ cs, children s !! e = Some cs.
Proof.
  intros H He. apply (p_children s H). rewrite <- (p_perm s H). by eapply list_elem_of_lookup_2.
Qed.

(** ** Swapping *)

Definition swapped (i j : nat) (l l' : list string) : Prop :=
  ∀ k, l' !! k = if decide (k = j) then l !! i else if decide (k = i) then l !! j else l !! k.

Lemma swapPositions_ok s a b i j :
  Placed s → elements s !! i = Some a → elements s !! j = Some b →
  ∃ s', swapPositions a b s = Some s' ∧ Placed s' ∧ children s' = children s ∧
    unsortedBegin s' = unsortedBegin s ∧ unsortedEnd s' = unsortedEnd s ∧
    swapped i j (elements s) (elements s').
Proof.
  intros H Ha Hb. pose proof (lookup_lt_Some _ _ _ Ha). pose proof (lookup_lt_Some _ _ _ Hb).
  unfold swapPositions. rewrite (proj2 (p_membership s H a i) Ha), (proj2 (p_membership s H b j) Hb).
  simpl. rewrite Ha, Hb. simpl. eexists; split; [done|]. simpl.
  assert (Hsw : swapped i j (elements s) (<[j:=a]> (<[i:=b]> (elements s)))).
  { intros k. destruct (decide (k = j)) as [->|Hj].
    - rewrite list_lookup_insert_eq; [done|]. by rewrite length_insert.
    - rewrite list_lookup_insert_ne by done. destruct (decide (k = i)) as [->|Hi].
      + rewrite list_lookup_insert_eq; done.
      + by rewrite list_lookup_insert_ne by done. }
  split_and!; try done. assert (Hiff : ∀ e k,
    <[b:=i]> (<[a:=j]> (membership s)) !! e = Some k ↔
    <[j:=a]> (<[i:=b]> (elements s)) !! k = Some e).
  { intros e k. rewrite (Hsw k).
    assert (Hnd : ∀ x y k1 k2, elements s !! k1 = Some x → elements s !! k2 = Some y →
      x = y ↔ k1 = k2).
    { intros x y k1 k2 Hx Hy. split; [intros ->; by eapply placed_unique|intros ->; congruence]. }
    pose proof (p_membership s H e k) as He. pose proof (Hnd a b i j Ha Hb).
    destruct (decide (e = b)) as [->|Hnb]; [rewrite lookup_insert_eq|rewrite lookup_insert_ne by done].
    - repeat case_decide; subst; rewrite ?Ha, ?Hb; try naive_solver.
    - destruct (decide (e = a)) as [->|Hna];
        [rewrite lookup_insert_eq|rewrite lookup_insert_ne by done].
      + repeat case_decide; subst; rewrite ?Ha, ?Hb; try naive_solver.
      + rewrite He. repeat case_decide; subst; rewrite ?Ha, ?Hb; naive_solver. }
  destruct H as [Hp Hm Hc Hs]. split; simpl; try done.
  apply NoDup_Permutation; [|done|].
  - apply NoDup_alt. intros k1 k2 x Hk1 Hk2. apply Hiff in Hk1, Hk2. congruence.
  - intros x. rewrite <- Hp, !list_elem_of_lookup. split; intros [k Hk].
    + rewrite (Hsw k) in Hk. repeat case_decide; eauto.
    + destruct (decide (k = i)) as [->|]; [exists j|destruct (decide (k = j)) as [->|]; [exists i|exists k]];
        rewrite (Hsw _); repeat case_decide; subst; congruence.
Qed.
(** ** One turn of the loop *)

Abbreviation ub := unsortedBegin.
Abbreviation ue := unsortedEnd.

Lemma placed_ext s s' :
  elements s' = elements s → membership s' = membership s → children s' = children s →
  Placed s → Placed s'.
Proof. intros He Hm Hc []. by split; rewrite ?He, ?Hm, ?Hc. Qed.

Lemma grow_inv s :
  SInv s → ub s ≠ length (elements s) → SInv (grow s) ∧ (ue (grow s) < length (elements s))%nat.
Proof.
  intros H Hne. pose proof (s_bounds s H) as Hb. unfold grow.
  destruct (Nat.eqb_spec (ue s) (length (elements s))) as [Hn|Hn].
  2:{ split; [done|lia]. }
  split; [|simpl; lia]. destruct H as [Hp _ Hso Hu _ _].
  assert (Hlast : ∀ i e, (ue s - 1 <= i)%nat → elements s !! i = Some e → i = (ue s - 1)%nat).
  { intros i e Hi He%lookup_lt_Some. lia. }
  split; simpl; [by apply (placed_ext s)|lia|done| | |].
  - intros i e cs p Hi. apply Hu. lia.
  - intros i e cs p Hi He Hcs Hpr. left. pose proof (Hlast i e Hi He) as ->.
    eapply Hu; [|done..]. lia.
  - intros i x y Hi Hx Hy. pose proof (Hlast _ _ Hi Hx). apply lookup_lt_Some in Hy. lia.
Qed.

(** Taking the last child of the top of the stack. *)
Definition popChild (top : string) (cs : list string) (s : State) : State :=
  with_children (<[top := cs]> (children s)) s.

Section Pop.
Context (s : State) (top picked : string) (cs : list string).
Hypothesis (H : SInv s) (Htop : elements s !! ue s = Some top)
  (Hcs : children s !! top = Some (cs ++ [picked])).

Lemma popChild_placed : Placed (popChild top cs s).
Proof.
  destruct (s_placed s H) as [Hp Hm Hc Hs]. split; simpl; try done.
  - intros e He. destruct (decide (e = top)) as [->|];
      [rewrite lookup_insert_eq|rewrite lookup_insert_ne by done]; eauto.
  - intros e cs' p. destruct (decide (e = top)) as [->|];
      [rewrite lookup_insert_eq|rewrite lookup_insert_ne by done]; [|by apply Hs].
    intros [= <-] Hin. eapply Hs; [done|]. apply elem_of_app. by left.
Qed.

Lemma popChild_other i e :
  elements s !! i = Some e → i ≠ ue s → children (popChild top cs s) !! e = children s !! e.
Proof.
  intros He Hi. simpl. apply lookup_insert_ne. intros <-. apply Hi.
  symmetry. by eapply placed_unique; [apply (s_placed s H)|..].
Qed.

Lemma picked_child : prq picked top ∧ picked ∈ names.
Proof. apply (p_sound s (s_placed s H) _ _ picked Hcs). set_solver. Qed.

(** The children left, for the stack's elements. *)
Lemma popChild_stack i e cs' p :
  (ue s <= i)%nat → elements s !! i = Some e → children (popChild top cs s) !! e = Some cs' →
  prq p e → (i = ue s ∧ p = picked) ∨ p ∈ cs' ∨
  (∃ j, (j < ub s)%nat ∧ elements s !! j = Some p) ∨
  (ue s < i)%nat ∧ elements s !! (i - 1)%nat = Some p.
Proof.
  intros Hi He Hc Hp. destruct (decide (i = ue s)) as [->|Hne].
  - rewrite Htop in He. injection He as <-. simpl in Hc. rewrite lookup_insert_eq in Hc.
    injection Hc as <-.
    destruct (s_stack s H _ _ _ p Hi Htop Hcs Hp) as [Hin|[?|?]]; [|by auto..].
    apply elem_of_app in Hin as [?| ->%list_elem_of_singleton]; auto.
  - rewrite (popChild_other i e He Hne) in Hc. right. by eapply s_stack.
Qed.

Lemma popChild_sorted m :
  elements s !! m = Some picked → (m < ub s)%nat → SInv (popChild top cs s).
Proof.
  intros Hm Hlt. split; simpl.
  - apply popChild_placed.
  - apply (s_bounds s H).
  - apply (s_sorted s H).
  - intros i e cs' p Hi He Hc. eapply s_unsorted; [done|done|done|].
    rewrite <- Hc. symmetry. apply (popChild_other i e He). lia.
  - intros i e cs' p Hi He Hc Hp.
    destruct (popChild_stack i e cs' p Hi He Hc Hp) as [[-> ->]|?]; eauto.
  - apply (s_adjacent s H).
Qed.

Lemma popChild_push m a s' :
  elements s !! m = Some picked → (ub s <= m < ue s)%nat →
  elements s !! (ue s - 1)%nat = Some a →
  Placed s' → children s' = children (popChild top cs s) → ub s' = ub s →
  ue s' = (ue s - 1)%nat → swapped (ue s - 1) m (elements s) (elements s') →
  SInv s'.
Proof.
  intros Hm Hlt Ha Hp' Hc' Hub Hue Hsw. pose proof (s_bounds s H).
  assert (Hlow : ∀ j, (j < ub s)%nat → elements s' !! j = elements s !! j).
  { intros j Hj. rewrite (Hsw j). by rewrite !decide_False by lia. }
  assert (Hhigh : ∀ j, (ue s <= j)%nat → elements s' !! j = elements s !! j).
  { intros j Hj. rewrite (Hsw j). by rewrite !decide_False by lia. }
  assert (Hnew : elements s' !! (ue s - 1)%nat = Some picked).
  { rewrite (Hsw _). case_decide as Hd; [|by rewrite decide_True]. rewrite Hd in *. congruence. }
  assert (Hun : ∀ i e, (ub s <= i < ue s)%nat → elements s' !! i = Some e →
            ∃ k, (ub s <= k < ue s)%nat ∧ elements s !! k = Some e).
  { intros i e Hi. rewrite (Hsw i). repeat case_decide; eauto. intros. exists (ue s - 1)%nat. eauto with lia. }
  assert (Hfull : ∀ i e cs' p, (ub s <= i < ue s)%nat → elements s' !! i = Some e →
            children s' !! e = Some cs' → prq p e → p ∈ cs').
  { intros i e cs' p Hi He Hc. destruct (Hun i e Hi He) as (k & Hk & Hke).
    eapply s_unsorted; [done|done|done|].
    rewrite <- Hc, Hc'. symmetry. apply (popChild_other k e Hke). lia. }
  assert (Hlen : length (elements s') = length (elements s)).
  { by rewrite (p_perm _ Hp'), <- (p_perm _ (s_placed s H)). }
  split; rewrite ?Hub, ?Hue; [done|lia| | | |].
  - intros i e p Hi He Hp. rewrite (Hlow i Hi) in He.
    destruct (s_sorted s H i e p Hi He Hp) as (j & Hj & Hje). exists j. rewrite Hlow by lia. done.
  - intros i e cs' p Hi. apply Hfull. lia.
  - intros i e cs' p Hi He Hc Hp. destruct (decide (i = ue s - 1)%nat) as [->|Hne].
    { left. eapply Hfull; [|done..]. lia. }
    rewrite Hhigh in He by lia. rewrite Hc' in Hc.
    destruct (popChild_stack i e cs' p ltac:(lia) He Hc Hp) as [[-> ->]|[?|[(j & Hj & Hje)|[? ?]]]].
    + right; right. split; [lia|done].
    + by left.
    + right; left. exists j. by rewrite Hlow.
    + right; right. split; [lia|]. by rewrite Hhigh by lia.
  - intros i x y Hi. destruct (decide (i = ue s - 1)%nat) as [->|Hne].
    + rewrite Hnew. intros [= <-]. replace (S (ue s - 1)) with (ue s) by lia.
      rewrite Hhigh, Htop by lia. intros [= <-]. apply picked_child.
    + rewrite !Hhigh by lia. apply (s_adjacent s H). lia.
Qed.
End Pop.

(** The top of the stack goes to the sorted region. *)
Lemma pop_inv s top b s' :
  SInv s → elements s !! ue s = Some top → children s !! top = Some [] →
  elements s !! ub s = Some b → Placed s' → children s' = children s →
  ub s' = S (ub s) → ue s' = S (ue s) → swapped (ue s) (ub s) (elements s) (elements s') →
  SInv s'.
Proof.
  intros H Htop Hcs Hb Hp' Hc' Hub Hue Hsw. pose proof (s_bounds s H).
  pose proof (lookup_lt_Some _ _ _ Htop).
  assert (Hsame : ∀ j, j ≠ ub s → j ≠ ue s → elements s' !! j = elements s !! j).
  { intros j Hj Hj'. rewrite (Hsw j). by rewrite !decide_False. }
  assert (Hnew : elements s' !! ub s = Some top) by (by rewrite (Hsw _), decide_True).
  assert (Hlow : ∀ j p, (j < ub s)%nat → elements s !! j = Some p → elements s' !! j = Some p).
  { intros j p Hj. by rewrite Hsame by lia. }
  assert (Hlen : length (elements s') = length (elements s)).
  { by rewrite (p_perm _ Hp'), <- (p_perm _ (s_placed s H)). }
  split; rewrite ?Hub, ?Hue, ?Hc'; [done|lia| | | |].
  - intros i e p Hi He Hp. destruct (decide (i = ub s)) as [->|Hne].
    + rewrite Hnew in He. injection He as <-.
      destruct (s_stack s H _ _ _ p (le_n _) Htop Hcs Hp) as [Hin|[(j & Hj & Hje)|[? _]]];
        [by apply elem_of_nil in Hin| |lia].
      exists j. eauto.
    + rewrite Hsame in He by lia.
      destruct (s_sorted s H i e p ltac:(lia) He Hp) as (j & Hj & Hje). exists j. split; [done|].
      apply Hlow; [lia|done].
  - intros i e cs p Hi He Hcs'. rewrite (Hsw i), decide_False in He by lia.
    case_decide as Hd; [eapply (s_unsorted s H (ub s) e)|eapply (s_unsorted s H i e)]; try done; lia.
  - intros i e cs p Hi He Hcs' Hp. rewrite Hsame in He by lia.
    destruct (s_stack s H i e cs p ltac:(lia) He Hcs' Hp) as [?|[(j & Hj & Hje)|[? Hje]]]; [by auto|..].
    + right; left. exists j. split; [lia|]. by apply Hlow.
    + destruct (decide (i - 1 = ue s)%nat) as [Heq|Hne].
      * rewrite Heq in Hje. right; left. exists (ub s). split; [lia|]. congruence.
      * right; right. split; [lia|]. by rewrite Hsame by lia.
  - intros i x y Hi. rewrite !Hsame by lia. apply (s_adjacent s H). lia.
Qed.
(** ** The loop *)

(** Every element is a prerequisite of its right neighbour. *)
Definition Chain (l : list string) : Prop :=
  ∀ i x y, l !! i = Some x → l !! S i = Some y → prq x y.

(** The list thrown with a cycle: the stack, and its first element again; a prefix of
    the stack is a cycle. *)
Definition CycleReport (c : list string) : Prop :=
  ∃ top stack k picked, c = (top :: stack) ++ [top] ∧ NoDup (top :: stack) ∧
    Forall (.∈ names) (top :: stack) ∧ Chain (top :: stack) ∧
    (top :: stack) !! k = Some picked ∧ prq picked top.

(** Prerequisites come first. *)
Definition Ordered (l : list string) : Prop :=
  ∀ i e p, l !! i = Some e → prq p e → ∃ j, (j < i)%nat ∧ l !! j = Some p.

Lemma measure_child s s' top cs picked :
  Placed s → elements s' ≡ₚ elements s → ub s' = ub s → top ∈ elements s →
  children s !! top = Some (cs ++ [picked]) → children s' = <[top := cs]> (children s) →
  (measure s' < measure s)%nat.
Proof.
  intros H Hp Hub Htop Hcs Hc. unfold measure. rewrite Hub, Hc, (Permutation_length Hp).
  rewrite (sum_list_with_perm _ _ _ Hp). apply Nat.add_lt_mono_r.
  apply (sum_list_with_lt _ _ _ top); [|done|].
  - intros e _. destruct (decide (e = top)) as [->|];
      [rewrite lookup_insert_eq, Hcs|by rewrite lookup_insert_ne]. simpl. rewrite length_app. simpl. lia.
  - rewrite lookup_insert_eq, Hcs. simpl. rewrite length_app. simpl. lia.
Qed.

Lemma stack_report s top k picked :
  SInv s → elements s !! ue s = Some top → (ue s <= k)%nat →
  elements s !! k = Some picked → prq picked top →
  CycleReport (drop (ue s) (elements s) ++ [top]).
Proof.
  intros H Htop Hk Hpk Hprq. pose proof (drop_S _ _ _ Htop) as Hd.
  exists top, (drop (S (ue s)) (elements s)), (k - ue s)%nat, picked. rewrite <- Hd.
  pose proof (placed_nodup s (s_placed s H)) as Hnd. split_and!; try done.
  - rewrite <- (take_drop (ue s) (elements s)) in Hnd. by apply NoDup_app in Hnd as (_ & _ & ?).
  - apply Forall_forall. intros x Hx. rewrite <- (p_perm s (s_placed s H)).
    by eapply subseteq_drop.
  - intros i x y. rewrite !lookup_drop, Nat.add_succ_r. apply (s_adjacent s H). lia.
  - rewrite lookup_drop. by replace (ue s + (k - ue s))%nat with k by lia.
Qed.

Lemma grow_same s :
  elements (grow s) = elements s ∧ measure (grow s) = measure s ∧ ub (grow s) = ub s.
Proof. unfold grow. by case_match. Qed.

(** A turn that visits a child. *)
Lemma step_child s top cs picked :
  SInv s → elements s !! ue s = Some top → children s !! top = Some (cs ++ [picked]) →
  ∃ m, membership s !! picked = Some m ∧
    ((m < ub s)%nat ∧ SInv (popChild top cs s) ∨
     (ue s <= m)%nat ∧ CycleReport (drop (ue s) (elements s) ++ [top]) ∨
     (ub s <= m < ue s)%nat ∧ ∃ a s', elements s !! (ue s - 1)%nat = Some a ∧
       swapPositions a picked (with_bounds (ub s) (ue s - 1) (popChild top cs s)) = Some s' ∧
       SInv s' ∧ children s' = <[top := cs]> (children s) ∧ ub s' = ub s).
Proof.
  intros H Htop Hcs. pose proof (s_placed s H) as P. pose proof (s_bounds s H) as Hb.
  destruct (picked_child s top picked cs H Htop Hcs) as [Hprq Hin].
  rewrite <- (p_perm s P) in Hin. apply list_elem_of_lookup in Hin as [m Hm].
  exists m. split; [by apply (p_membership s P)|].
  destruct (decide (m < ub s)%nat) as [Hlo|Hlo].
  { left. split; [done|]. by eapply popChild_sorted. }
  destruct (decide (ue s <= m)%nat) as [Hhi|Hhi].
  { right; left. split; [done|]. by eapply stack_report. }
  right; right. split; [lia|].
  destruct (lookup_lt_is_Some_2 (elements s) (ue s - 1)%nat) as [a Ha].
  { apply lookup_lt_Some in Htop. lia. }
  pose proof (popChild_placed s top picked cs H Hcs) as P'.
  destruct (swapPositions_ok (with_bounds (ub s) (ue s - 1) (popChild top cs s)) a picked
              (ue s - 1) m) as (s' & Hs' & P1 & Hc1 & Hub & Hue & Hsw); [by destruct P'|done|done|].
  exists a, s'. split_and!; try done.
  eapply popChild_push; try done. lia.
Qed.

Lemma step_ok s :
  SInv s → ub s ≠ length (elements s) →
  ∃ r, step s = Some r ∧
    match r with
    | inl s' => SInv s' ∧ (measure s' < measure s)%nat
    | inr c => CycleReport c
    end.
Proof.
  intros H Hne. destruct (grow_inv s H Hne) as [G Hlt]. destruct (grow_same s) as (Hel & Hm & _).
  unfold step. cbv zeta. rewrite <- Hm. rewrite <- Hel in Hlt. clear H Hne Hel Hm.
  revert G Hlt. generalize (grow s). clear s. intros s H Hlt.
  pose proof (s_placed s H) as P. pose proof (s_bounds s H) as Hb.
  destruct (lookup_lt_is_Some_2 _ _ Hlt) as [top Htop]. rewrite Htop. cbn [mbind option_bind].
  assert (Hin : top ∈ elements s) by (by eapply list_elem_of_lookup_2).
  destruct (placed_children s _ _ P Htop) as [cs Hcs]. rewrite Hcs. cbn [mbind option_bind].
  destruct cs as [|picked cs _] using rev_ind.
  - destruct (lookup_lt_is_Some_2 (elements s) (ub s)) as [b Hubb]; [lia|].
    simpl. rewrite Hubb. simpl.
    destruct (swapPositions_ok s top b _ _ P Htop Hubb) as (s' & -> & P' & Hc & Hub & Hue & Hsw).
    simpl. eexists; split; [done|]. split.
    + eapply (pop_inv s); try done; [by apply (placed_ext s')|simpl; lia..].
    + unfold measure; simpl. pose proof (Permutation_length (p_perm _ P')).
      pose proof (Permutation_length (p_perm _ P)).
      rewrite Hc, (sum_list_with_perm _ (elements s') (elements s)); [lia|].
      by rewrite (p_perm _ P'), (p_perm _ P).
  - rewrite last_snoc. destruct (step_child s top cs picked H Htop Hcs) as (m & Hm & Hcase).
    rewrite removelast_last. simpl. rewrite Hm. simpl.
    destruct Hcase as [[Hlo Hs]|[[Hhi Hc]|(Hmid & a & s' & Ha & Hs & H' & Hc & Hub)]].
    + rewrite (proj2 (Nat.ltb_lt _ _) Hlo). eexists; split; [done|]. split; [done|].
      by eapply measure_child.
    + rewrite (proj2 (Nat.ltb_ge _ _)), (proj2 (Nat.leb_le _ _) Hhi) by lia. by eexists.
    + rewrite (proj2 (Nat.ltb_ge _ _)), (proj2 (Nat.leb_gt _ _)) by lia. rewrite Ha. simpl.
      unfold popChild in Hs. rewrite Hs. eexists; split; [done|]. split; [done|].
      eapply measure_child; try done. by rewrite (p_perm _ (s_placed s' H')), (p_perm _ P).
Qed.

(** With the measure as fuel the loop ends, in an order or with a cycle. *)
Lemma loop_ok fuel s :
  SInv s → (measure s <= fuel)%nat →
  ∃ r, loop fuel s = Some r ∧
    match r with inl l => l ≡ₚ names ∧ Ordered l | inr c => CycleReport c end.
Proof.
  revert s. induction fuel as [|fuel IH]; intros s H Hf; cbn [loop];
    destruct (Nat.eqb_spec (ub s) (length (elements s))) as [Hn|Hn].
  1,3: eexists; split; [done|]; split; [apply (p_perm _ (s_placed s H))|];
       intros i e p He; apply (s_sorted s H); [rewrite Hn; by eapply lookup_lt_Some|done].
  - unfold measure in Hf. pose proof (s_bounds s H). lia.
  - destruct (step_ok s H Hn) as ([s'|c] & -> & Hr); simpl; [|by eexists].
    destruct Hr as [H' Hlt]. apply IH; [done|lia].
Qed.

(** The state the sort starts from. *)
Lemma start_inv es childrenOf :
  es ≡ₚ names →
  (∀ e p, e ∈ names → p ∈ childrenOf e ↔ prq p e) →
  (∀ e p, e ∈ names → prq p e → p ∈ names) →
  SInv (start es childrenOf).
Proof.
  intros Hes Hch Hcl. assert (Hnd : NoDup es) by (by rewrite Hes).
  assert (Hfst : ((λ e, (e, childrenOf e)) <$> es).*1 = es).
  { rewrite <- list_fmap_compose. apply list_fmap_id. }
  assert (Hc : ∀ e cs, children (start es childrenOf) !! e = Some cs →
                 cs = childrenOf e ∧ e ∈ names).
  { intros e cs He%elem_of_list_to_map_2. apply list_elem_of_fmap in He as (x & [= -> ->] & Hx).
    by rewrite <- Hes. }
  split; [split|..]; simpl; try done.
  - intros e i. rewrite <- elem_of_list_to_map.
    + rewrite elem_of_lookup_imap. naive_solver.
    + by rewrite fmap_imap, (imap_ext _ (const id)), imap_const, list_fmap_id.
  - intros e He. rewrite <- Hes in He. eexists. apply elem_of_list_to_map; [by rewrite Hfst|].
    by apply list_elem_of_fmap_2 with (f := λ e, (e, childrenOf e)).
  - intros e cs p He Hp. apply Hc in He as [-> He]. apply Hch in Hp; [|done]. eauto.
  - lia.
  - intros i e p Hi. lia.
  - intros i e cs p _ _ Hcs Hp. apply Hc in Hcs as [-> He]. by apply Hch.
  - intros i e cs p Hi He%lookup_lt_Some. lia.
  - intros i x y Hi Hx%lookup_lt_Some. lia.
Qed.
End Sort.
End TopSortFacts.

(** ** The sort of a graph *)

Import InitializerDependencyGraph TopSortFacts.

Section Graph.
Context {W : Type}.
Implicit Types (g : t W) (n : Node W).

(** [p] is a prerequisite of [e]. *)
Definition needs g (p e : string) : Prop := ∃ n, g !! e = Some n ∧ p ∈ prerequisites n.

Definition nodeNames g : list string := (map_to_list g).*1.

(** Every node has a function, and every prerequisite is a node. *)
Definition complete g : Prop :=
  ∀ e n, g !! e = Some n → initFn n ≠ None ∧ ∀ p, p ∈ prerequisites n → g !! p ≠ None.

Definition acyclic g : Prop := ∀ e, ¬ tc (needs g) e e.

Lemma nodeNames_elem g e : e ∈ nodeNames g ↔ is_Some (g !! e).
Proof.
  unfold nodeNames. rewrite list_elem_of_fmap. split.
  - intros ([e' n] & -> & H%elem_of_map_to_list). by exists n.
  - intros [n H]. exists (e, n). by rewrite elem_of_map_to_list.
Qed.

Lemma existsb_nodes (f : string * Node W → bool) g :
  existsb f (map_to_list g) = false ↔ ∀ e n, g !! e = Some n → f (e, n) = false.
Proof.
  rewrite <- not_true_iff_false, existsb_exists. split.
  - intros H e n He. apply not_true_is_false. intros Hf. apply H. exists (e, n).
    split; [|done]. by apply list_elem_of_In, elem_of_map_to_list.
  - intros H ([e n] & Hin%list_elem_of_In%elem_of_map_to_list & Hf). by rewrite H in Hf.
Qed.

Lemma complete_tests g :
  complete g ↔ unimplemented g = false ∧ missingPrerequisite g = false.
Proof.
  unfold unimplemented, missingPrerequisite. rewrite !existsb_nodes. simpl.
  assert (Hp : ∀ n, existsb (λ p, bool_decide (g !! p = None)) (base.elements (prerequisites n)) = false
               ↔ ∀ p, p ∈ prerequisites n → g !! p ≠ None).
  { intros n. rewrite <- not_true_iff_false, existsb_exists. split.
    - intros H p Hin He. apply H. exists p. rewrite <- list_elem_of_In, elem_of_elements.
      by rewrite bool_decide_eq_true.
    - intros H (p & Hin & Hd). apply list_elem_of_In, elem_of_elements in Hin.
      apply bool_decide_eq_true in Hd. by eapply H. }
  split.
  - intros H. split; intros e n He; destruct (H e n He) as [Hi Hpre]; [by destruct (initFn n)|].
    by apply Hp.
  - intros [Hi Hpre] e n He. split; [intros Hn; specialize (Hi e n He); by rewrite Hn in Hi|].
    by apply Hp, (Hpre e).
Qed.

(** Along a chain one goes from any element to any later one. *)
Lemma chain_rtc (prq : string → string → Prop) l k x y :
  Chain prq l → l !! 0%nat = Some x → l !! k = Some y → rtc prq x y.
Proof.
  intros Hc Hx. revert y. induction k as [|k IH]; intros y Hy; [simplify_eq; constructor|].
  destruct (lookup_lt_is_Some_2 l k) as [z Hz]; [apply lookup_lt_Some in Hy; lia|].
  eapply rtc_r; [by apply IH|by eapply Hc].
Qed.

Lemma report_cycle (prq : string → string → Prop) names c :
  CycleReport prq names c → ∃ e, tc prq e e.
Proof.
  intros (top & st & k & picked & _ & _ & _ & Hc & Hk & Hp). exists picked.
  eapply tc_rtc_r; [by apply tc_once|]. by eapply chain_rtc.
Qed.

Lemma tc_target (R : string → string → Prop) x y : tc R x y → ∃ z, R z y.
Proof. induction 1; eauto. Qed.

Lemma ordered_acyclic (prq : string → string → Prop) l :
  NoDup l → Ordered prq l → (∀ p e, prq p e → e ∈ l) → ∀ e, ¬ tc prq e e.
Proof.
  intros Hnd Ho Hin. assert (Hlt : ∀ x y, tc prq x y → ∀ j, l !! j = Some y →
    ∃ i, (i < j)%nat ∧ l !! i = Some x).
  { intros x y Htc. induction Htc as [x y Hxy|x y z Hxy Hyz IH]; intros j Hj; [by eapply Ho|].
    destruct (IH j Hj) as (i & Hi & Hy). destruct (Ho i y x Hy Hxy) as (k & Hk & Hx).
    exists k. split; [lia|done]. }
  intros e Htc. assert (He : e ∈ l) by (destruct (tc_target _ _ _ Htc) as [z Hz]; by eapply Hin).
  apply list_elem_of_lookup in He as [j Hj].
  destruct (Hlt e e Htc j Hj) as (i & Hi & He). pose proof (NoDup_lookup _ _ _ _ Hnd Hj He). lia.
Qed.

Section Shuffle.
Context (shuffle : nat → list string → list string).
Hypothesis (Hshuffle : ∀ i l, shuffle i l ≡ₚ l).

Lemma shuffledChildren_elem g es e p :
  es ≡ₚ nodeNames g → e ∈ nodeNames g → p ∈ shuffledChildren shuffle g es e ↔ needs g p e.
Proof.
  intros Hes He. unfold shuffledChildren, needs.
  destruct (proj1 (nodeNames_elem g e) He) as [n Hn]. rewrite <- Hes in He.
  destruct (list_find (.= e) es) as [[i x]|] eqn:Hf.
  - rewrite Hn, (Hshuffle (S i)), elem_of_elements. naive_solver.
  - exfalso. apply list_find_None in Hf. rewrite Forall_forall in Hf. by eapply Hf.
Qed.

(** The outcomes of the sort of a complete graph. *)
Lemma topSort_complete g out :
  complete g →
  ∃ st names, topSort shuffle g out = Some (st, names) ∧
    (st = OK ∧ names ≡ₚ nodeNames g ∧ Ordered (needs g) names ∧ acyclic g ∨
     st = GraphContainsCycle ∧ CycleReport (needs g) (nodeNames g) names ∧ ¬ acyclic g).
Proof.
  intros Hc. destruct (proj1 (complete_tests g) Hc) as [Hu Hm].
  unfold topSort. rewrite Hu, Hm. cbv zeta.
  assert (Hnd : NoDup (nodeNames g)) by apply NoDup_fst_map_to_list.
  pose proof (Hshuffle 0 (nodeNames g)) as Hperm. fold (nodeNames g).
  destruct (loop_ok (needs g) (nodeNames g) Hnd
    (TopSort.measure (TopSort.start (shuffle 0 (nodeNames g))
       (shuffledChildren shuffle g (shuffle 0 (nodeNames g)))))
    (TopSort.start (shuffle 0 (nodeNames g))
       (shuffledChildren shuffle g (shuffle 0 (nodeNames g))))) as (r & -> & Hr); [|lia|].
  { apply start_inv; [done|done|by intros; apply shuffledChildren_elem|].
    intros e p _ (n & He & Hp). apply nodeNames_elem. destruct (Hc e n He) as [_ H].
    specialize (H p Hp). by destruct (g !! p); [eexists|]. }
  simpl. destruct r as [l|c]; eexists _, _; (split; [done|]).
  - left. destruct Hr as [Hl Ho]. split_and!; try done.
    refine (ordered_acyclic _ l _ Ho _); [by rewrite Hl|].
    intros p e (n & He & _). rewrite Hl. apply nodeNames_elem. by eexists.
  - right. split_and!; try done. intros Hac. destruct (report_cycle _ _ _ Hr) as [e He]. by eapply Hac.
Qed.

(** C40: the sort of the initializers always ends.  It fails with BadValue, leaving the
    caller's vector alone, exactly when a node has no function or a prerequisite is no
    node; otherwise it succeeds exactly when the graph has no cycle.  On success the
    vector holds every node once, each after all its prerequisites; with a cycle it
    holds a chain of prerequisites a prefix of which is a cycle, and its first element
    again at the end. *)
Theorem topSort_correct g out :
  ∃ st names, topSort shuffle g out = Some (st, names) ∧
    (st = BadValue ↔ ¬ complete g) ∧
    (st = OK ↔ complete g ∧ acyclic g) ∧
    (st = GraphContainsCycle ↔ complete g ∧ ¬ acyclic g) ∧
    (st = BadValue → names = out) ∧
    (st = OK → names ≡ₚ nodeNames g ∧ Ordered (needs g) names) ∧
    (st = GraphContainsCycle → CycleReport (needs g) (nodeNames g) names).
Proof.
  destruct (unimplemented g || missingPrerequisite g) eqn:Ht.
  - assert (Hc : ¬ complete g).
    { rewrite complete_tests. intros [Hu Hm]. by rewrite Hu, Hm in Ht. }
    exists BadValue, out. split; [unfold topSort; by destruct (unimplemented g), (missingPrerequisite g)|].
    naive_solver.
  - apply orb_false_iff, complete_tests in Ht.
    destruct (topSort_complete g out Ht) as (st & names & Hs & [(-> & ? & ? & ?)|(-> & ? & ?)]);
      eexists _, _; (split; [done|]); naive_solver.
Qed.
End Shuffle.
End Graph.

(** A graph from the names, their prerequisites and functions. *)
Definition graphOf {W} (l : list (string * list string * Function W)) : t W :=
  list_to_map ((λ x, (x.1.1, mkNode (Some x.2) None (list_to_set x.1.2) false)) <$> l).

Definition nothing : Function (list string) := λ w, (Returned OK, w).

(** "A" waits for "B"; "B" and "C" wait for each other. *)
Definition lasso : t (list string) :=
  graphOf [("A", ["B"], nothing); ("B", ["C"], nothing); ("C", ["B"], nothing)].

Definition fromB (i : nat) (l : list string) : list string :=
  match i with O => ["B"; "C"; "A"] | _ => l end.

Lemma lasso_A_free : ¬ tc (needs lasso) "A" "A".
Proof.
  intros H. assert (Hn : ∀ e, ¬ needs lasso "A" e).
  { intros e (n & He & Hp). unfold lasso, graphOf in He.
    apply elem_of_list_to_map_2 in He. simpl in He.
    repeat (apply elem_of_cons in He as [He|He]; [injection He as -> ->; vm_compute in Hp; set_solver|]).
    by apply elem_of_nil in He. }
  inversion H; subst; by eapply Hn.
Qed.

(** The list thrown with a cycle names nodes that are on no cycle. *)
Lemma cycle_report_names_bystander :
  topSort fromB lasso [] = Some (GraphContainsCycle, ["C"; "B"; "A"; "C"]) ∧
  ¬ tc (needs lasso) "A" "A".
Proof. split; [vm_compute; reflexivity|apply lasso_A_free]. Qed.

Lemma topSort_correct_witness :
  (∀ i l, (λ (_ : nat) (l : list string), reverse l) i l ≡ₚ l) ∧
  ∃ st names, topSort (λ _ l, reverse l) lasso [] = Some (st, names) ∧
    (st = GraphContainsCycle → CycleReport (needs lasso) (nodeNames lasso) names).
Proof.
  assert (H : ∀ (i : nat) (l : list string), (λ (_ : nat) (l : list string), reverse l) i l ≡ₚ l).
  { intros i l. apply reverse_Permutation. }
  split; [exact H|].
  destruct (topSort_correct (λ _ l, reverse l) H lasso []) as (st & names & Hs & _ & _ & _ & _ & _ & Hr).
  exists st, names. split; [exact Hs|exact Hr].
Defined.

(** ** Execution *)

Section Execute.
Context {W : Type}.
Implicit Types (g : t W) (n : Node W) (w : W).

(** The function a loop calls for a node, when it calls one. *)
Definition todoInit n : option (Function W) := if initialized n then None else initFn n.
Definition todoDeinit n : option (Function W) := deinitFn n.

Definition inited g (e : string) : Prop := ∃ n, g !! e = Some n ∧ initialized n = true.

Definition toStatus (o : Outcome) : Status := match o with Returned st | Thrown st => st end.

Definition mark (b : bool) g (e : string) : t W := alter (setInitialized b) e g.

Section Loop.
Context (todo : Node W → option (Function W)) (b : bool).

Definition hasTodo g (e : string) : Prop := is_Some (g !! e ≫= todo).

#[global] Instance hasTodo_dec g e : Decision (hasTodo g e).
Proof. unfold hasTodo. apply _. Defined.

(** The functions of the nodes [l] return OK one after the other. *)
Fixpoint Runs g (l : list string) w w' : Prop :=
  match l with
  | [] => w' = w
  | e :: l => ∃ n f w1, g !! e = Some n ∧ todo n = Some f ∧ f w = (Returned OK, w1) ∧ Runs g l w1 w'
  end.

(** A result of calling the functions of [order], as [g0] has them: some first functions
    return OK and their nodes are marked; then all were called, or the next one fails
    and its status is the result. *)
Definition Executes g0 g w (order : list string) (r : Status * t W * W) : Prop :=
  ∃ done w1, done `prefix_of` order ∧ Runs g0 done w w1 ∧ r.1.2 = foldl (mark b) g done ∧
    (r.1.1 = OK ∧ done = order ∧ r.2 = w1 ∨
     ∃ e n f o, order !! length done = Some e ∧ g0 !! e = Some n ∧ todo n = Some f ∧
       f w1 = (o, r.2) ∧ o ≠ Returned OK ∧ r.1.1 = toStatus o).

(** The shape both loops have. *)
Fixpoint runLoop (l : list string) g w : option (Status * t W * W) :=
  match l with
  | [] => Some (OK, g, w)
  | e :: l =>
      n ← g !! e;
      match todo n with
      | None => runLoop l g w
      | Some fn =>
          let '(o, w) := fn w in
          match o with
          | Thrown st => Some (st, g, w)
          | Returned OK => runLoop l (<[e := setInitialized b n]> g) w
          | Returned st => Some (st, g, w)
          end
      end
  end.

Lemma mark_insert g e n : g !! e = Some n → <[e := setInitialized b n]> g = mark b g e.
Proof.
  intros He. apply map_eq. intros x. unfold mark. destruct (decide (x = e)) as [->|Hne].
  - by rewrite lookup_insert_eq, lookup_alter_eq, He.
  - by rewrite lookup_insert_ne, lookup_alter_ne.
Qed.

Lemma runLoop_executes g0 l g w :
  NoDup l → (∀ e, e ∈ l → is_Some (g0 !! e) ∧ g !! e = g0 !! e) →
  ∃ r, runLoop l g w = Some r ∧ Executes g0 g w (filter (hasTodo g0) l) r.
Proof.
  revert g w. induction l as [|e l IH]; intros g w Hnd Hg.
  { eexists; split; [done|]. exists [], w. by split_and!; [|..|left]. }
  apply NoDup_cons in Hnd as [Hnin Hnd]. destruct (Hg e ltac:(left)) as [[n Hn] He].
  cbn [runLoop]. rewrite He, Hn. cbn [mbind option_bind].
  assert (Hhas : hasTodo g0 e ↔ is_Some (todo n)) by (unfold hasTodo; by rewrite Hn).
  rewrite filter_cons. destruct (todo n) as [f|] eqn:Hf.
  2:{ rewrite decide_False by (rewrite Hhas; by intros []).
      apply IH; [done|]. intros x Hx. apply Hg. by right. }
  rewrite decide_True by (rewrite Hhas; eauto). destruct (f w) as [o w1] eqn:Hfw.
  destruct (decide (o = Returned OK)) as [->|Ho].
  - destruct (IH (<[e:=setInitialized b n]> g) w1 Hnd) as (r & Hr & done & w2 & Hpre & Hruns & Hm & Hend).
    { intros x Hx. rewrite lookup_insert_ne by (by intros ->). apply Hg. by right. }
    exists r. split; [done|]. exists (e :: done), w2. split_and!.
    + by apply prefix_cons.
    + by exists n, f, w1.
    + by rewrite Hm, (mark_insert g e n) by congruence.
    + destruct Hend as [(? & -> & ?)|?]; [by left|by right].
  - exists (toStatus o, g, w1). split.
    + destruct o as [[]|]; congruence || reflexivity.
    + exists [], w. split_and!; [apply prefix_nil|done|done|]. right.
      by exists e, n, f, o.
Qed.
End Loop.

(** ** Orders and filters *)

Lemma filter_split {A} (P : A → Prop) `{∀ x, Decision (P x)} l l1 e l2 :
  filter P l = l1 ++ e :: l2 → ∃ k1 k2, l = k1 ++ e :: k2 ∧ l1 = filter P k1.
Proof.
  revert l1. induction l as [|x l IH]; intros l1 Hl; [by destruct l1|].
  rewrite filter_cons in Hl. destruct (decide (P x)) as [Hx|Hx].
  - destruct l1 as [|y l1]; injection Hl as -> Hl; [by exists [], l|].
    destruct (IH _ Hl) as (k1 & k2 & -> & ->). exists (y :: k1), k2.
    by rewrite filter_cons_True.
  - destruct (IH _ Hl) as (k1 & k2 & -> & ->). exists (x :: k1), k2. by rewrite filter_cons_False.
Qed.

Lemma ordered_before (prq : string → string → Prop) k1 e k2 p :
  Ordered prq (k1 ++ e :: k2) → prq p e → p ∈ k1.
Proof.
  intros Ho Hp. destruct (Ho (length k1) e p) as (j & Hj & He); [by apply list_lookup_middle|done|].
  rewrite lookup_app_l in He by done. by eapply list_elem_of_lookup_2.
Qed.

Lemma ordered_after (prq : string → string → Prop) k1 e k2 d :
  NoDup (k1 ++ e :: k2) → Ordered prq (k1 ++ e :: k2) → prq e d →
  d ∈ k1 ++ e :: k2 → d ∈ k2.
Proof.
  intros Hnd Ho Hp Hd. apply list_elem_of_lookup in Hd as [i Hi].
  destruct (Ho i d e Hi Hp) as (j & Hj & He).
  assert (j = length k1) as -> by (eapply NoDup_lookup; [done|done|by apply list_lookup_middle]).
  rewrite lookup_app_r in Hi by lia. destruct (i - length k1)%nat as [|m] eqn:Hm; [lia|].
  by eapply list_elem_of_lookup_2.
Qed.

(** ** The two phases *)

Lemma initLoop_runLoop l g w :
  (∀ e n, e ∈ l → g !! e = Some n → initFn n ≠ None) →
  Initializer.initLoop l g w = runLoop todoInit true l g w.
Proof.
  revert g w. induction l as [|e l IH]; intros g w Hl; [done|]. cbn [Initializer.initLoop runLoop].
  unfold getInitializerNode. destruct (g !! e) as [n|] eqn:He; [|done]. cbn [mbind option_bind].
  assert (Htl : ∀ x m, x ∈ l → g !! x = Some m → initFn m ≠ None) by (intros x m ?; apply Hl; by right).
  unfold todoInit at 1. destruct (initialized n); [by apply IH|].
  pose proof (Hl e n ltac:(left) He) as Hi. destruct (initFn n) as [f|] eqn:Hfn; [|done].
  destruct (f w) as [[[]|] w1]; try done. apply IH. intros x m Hx.
  destruct (decide (x = e)) as [->|Hne];
    [rewrite lookup_insert_eq; intros [= <-]; simpl; by rewrite Hfn|].
  rewrite lookup_insert_ne by done. by apply Htl.
Qed.

Lemma deinitLoop_runLoop l g w :
  Initializer.deinitLoop l g w = runLoop todoDeinit false l g w.
Proof.
  revert g w. induction l as [|e l IH]; intros g w; [done|]. cbn [Initializer.deinitLoop runLoop].
  unfold getInitializerNode. destruct (g !! e) as [n|]; [|done]. cbn [mbind option_bind].
  unfold todoDeinit at 1. destruct (deinitFn n) as [f|]; [|done]. by destruct (f w) as [[[]|] w1].
Qed.

Section Phases.
Context (shuffle : nat → list string → list string).
Hypothesis (Hshuffle : ∀ i l, shuffle i l ≡ₚ l).

(** The initializers left to run, each after its prerequisites. *)
Definition InitOrder g (order : list string) : Prop :=
  order ≡ₚ filter (hasTodo todoInit g) (nodeNames g) ∧
  ∀ l1 e l2 p, order = l1 ++ e :: l2 → needs g p e → p ∈ l1 ∨ inited g p.

(** The deinitializers, each after those of the nodes that depend on it. *)
Definition DeinitOrder g (order : list string) : Prop :=
  order ≡ₚ filter (hasTodo todoDeinit g) (nodeNames g) ∧
  ∀ l1 e l2 d, order = l1 ++ e :: l2 → needs g e d → hasTodo todoDeinit g d → d ∈ l1.

Lemma sorted_InitOrder g names :
  complete g → names ≡ₚ nodeNames g → Ordered (needs g) names →
  InitOrder g (filter (hasTodo todoInit g) names).
Proof.
  intros Hc Hp Ho. split; [by rewrite Hp|]. intros l1 e l2 p Hl Hpe.
  destruct (filter_split _ _ _ _ _ Hl) as (k1 & k2 & -> & ->).
  pose proof (ordered_before _ _ _ _ _ Ho Hpe) as Hin.
  destruct (decide (hasTodo todoInit g p)) as [Ht|Ht]; [left; by apply list_elem_of_filter|].
  right. destruct (proj1 (nodeNames_elem g p)) as [n Hn].
  { rewrite <- Hp. apply elem_of_app. by left. }
  exists n. split; [done|]. destruct (initialized n) eqn:Hi; [done|]. exfalso. apply Ht.
  unfold hasTodo, todoInit. rewrite Hn. simpl. rewrite Hi.
  destruct (initFn n) eqn:Hf; [by eexists|]. by destruct (Hc p n Hn).
Qed.

Lemma sorted_DeinitOrder g names :
  names ≡ₚ nodeNames g → Ordered (needs g) names →
  DeinitOrder g (filter (hasTodo todoDeinit g) (reverse names)).
Proof.
  intros Hp Ho. split; [by rewrite reverse_Permutation, Hp|]. intros l1 e l2 d Hl Hd Ht.
  destruct (filter_split _ _ _ _ _ Hl) as (k1 & k2 & Hr & ->).
  assert (Hnames : names = reverse k2 ++ e :: reverse k1).
  { rewrite <- (reverse_involutive names), Hr, reverse_app, reverse_cons. by rewrite <- app_assoc. }
  apply list_elem_of_filter. split; [done|]. apply elem_of_reverse.
  rewrite Hnames in Ho, Hp. apply (ordered_after (needs g) (reverse k2) e); [|done|done|].
  - rewrite Hp. apply NoDup_fst_map_to_list.
  - rewrite Hp. apply nodeNames_elem. destruct Hd as (n & ? & _). by exists n.
Qed.

(** When the graph is complete and has no cycle, start-up calls the functions of the
    nodes that are not initialized yet, each once and after those of all its
    prerequisites that were not initialized, until one fails, whose status is the
    result; it marks exactly the nodes whose function returned OK.  Shut-down calls the
    deinitializers, each once and after those of all nodes that depend on it, in the
    same way.  Otherwise neither calls anything, and both return the error of the sort. *)
Theorem execution_ordered g w :
  (complete g → acyclic g →
     (∃ order r, Initializer.executeInitializers shuffle g w = Some r ∧
        InitOrder g order ∧ Executes todoInit true g g w order r) ∧
     (∃ order r, Initializer.executeDeinitializers shuffle g w = Some r ∧
        DeinitOrder g order ∧ Executes todoDeinit false g g w order r)) ∧
  (¬ complete g ∨ ¬ acyclic g →
     ∃ st, st ≠ OK ∧ Initializer.executeInitializers shuffle g w = Some (st, g, w) ∧
       Initializer.executeDeinitializers shuffle g w = Some (st, g, w)).
Proof.
  unfold Initializer.executeInitializers, Initializer.executeDeinitializers. split.
  - intros Hc Ha. destruct (topSort_complete shuffle Hshuffle g [] Hc)
      as (st & names & -> & [(-> & Hp & Ho & _)|(_ & _ & ?)]); [|done].
    cbn [mbind option_bind]. rewrite bool_decide_true by done.
    assert (Hnd : NoDup names) by (rewrite Hp; apply NoDup_fst_map_to_list).
    assert (Hin : ∀ e, e ∈ names → is_Some (g !! e)) by (intros e; rewrite Hp; apply nodeNames_elem).
    split; [rewrite initLoop_runLoop by (intros e n _ He; by apply (Hc e n))|rewrite deinitLoop_runLoop].
    + destruct (runLoop_executes todoInit true g names g w Hnd) as (r & Hr & He).
      { intros e He. split; [by apply Hin|done]. }
      exists (filter (hasTodo todoInit g) names), r. split; [done|].
      split; [by apply sorted_InitOrder|done].
    + destruct (runLoop_executes todoDeinit false g (reverse names) g w) as (r & Hr & He).
      { by rewrite reverse_Permutation. }
      { intros e He. rewrite elem_of_reverse in He. split; [by apply Hin|done]. }
      exists (filter (hasTodo todoDeinit g) (reverse names)), r.
      split; [done|]. split; [by apply sorted_DeinitOrder|done].
  - intros Hbad. assert (Hs : ∃ st names, topSort shuffle g [] = Some (st, names) ∧ st ≠ OK).
    { destruct (unimplemented g || missingPrerequisite g) eqn:Ht.
      - exists BadValue, []. unfold topSort. by destruct (unimplemented g), (missingPrerequisite g).
      - apply orb_false_iff, complete_tests in Ht. destruct (topSort_complete shuffle Hshuffle g [] Ht)
          as (st & names & Hs & [(-> & _ & _ & ?)|(-> & _ & _)]); [naive_solver|].
        by exists GraphContainsCycle, names. }
    destruct Hs as (st & names & -> & Hst). exists st. cbn [mbind option_bind].
    by rewrite bool_decide_false.
Qed.
End Phases.
End Execute.

(** ** Registration *)

Section Register.
Context {W : Type}.
Implicit Types (g : t W) (n : Node W) (o : option (Node W)) (r a b : Registration W).

Lemma node_eq n n' :
  initFn n = initFn n' → deinitFn n = deinitFn n' → prerequisites n ≡ prerequisites n' →
  initialized n = initialized n' → n = n'.
Proof. destruct n, n'; simpl. by intros -> -> ->%leibniz_equiv ->. Qed.

(** The node of [r]'s name once registered. *)
Definition declaredNode r n : Node W :=
  mkNode (r_initFn r) (r_deinitFn r) (list_to_set (r_prerequisites r) ∪ prerequisites n)
    (initialized n).

Lemma foldl_addPrerequisite ps n :
  foldl (λ n p, addPrerequisite p n) n ps =
  mkNode (initFn n) (deinitFn n) (list_to_set ps ∪ prerequisites n) (initialized n).
Proof.
  revert n. induction ps as [|p ps IH]; intros n; simpl; [|rewrite IH];
    apply node_eq; simpl; try done; set_solver.
Qed.

Definition withDependent p o : Node W := addPrerequisite p (default emptyNode o).

Lemma foldl_dependents p ds g e :
  foldl (λ g d, <[d := addPrerequisite p (default emptyNode (g !! d))]> g) g ds !! e =
  if decide (e ∈ ds) then Some (withDependent p (g !! e)) else g !! e.
Proof.
  revert g. induction ds as [|d ds IH]; intros g; simpl; [done|]. rewrite IH.
  destruct (decide (e = d)) as [->|Hne].
  - rewrite lookup_insert_eq. rewrite (decide_True (P := d ∈ d :: ds)) by left.
    case_decide; [|done]. f_equal. unfold withDependent. simpl.
    apply node_eq; simpl; try done; set_solver.
  - rewrite lookup_insert_ne by done. repeat case_decide; set_solver.
Qed.

(** What a successful registration makes of each node. *)
Definition registered r e o : option (Node W) :=
  let o := if decide (e = r_name r) then Some (declaredNode r (default emptyNode o)) else o in
  if decide (e ∈ r_dependents r) then Some (withDependent (r_name r) o) else o.

(** A name without a function yet. *)
Definition free g e : Prop := g !! e ≫= initFn = None.

Lemma register_cases g r :
  match GlobalInitializerRegisterer g r with
  | Some g' => r_initFn r ≠ None ∧ free g (r_name r) ∧ ∀ e, g' !! e = registered r e (g !! e)
  | None => r_initFn r = None ∨ ¬ free g (r_name r)
  end.
Proof.
  unfold GlobalInitializerRegisterer, addInitializer, free.
  destruct (r_initFn r) as [f|] eqn:Hf; simpl; [|by left].
  destruct (initFn (default emptyNode (g !! r_name r))) as [f'|] eqn:Hf'; simpl.
  - right. revert Hf'. by destruct (g !! r_name r); simpl; [intros ->|].
  - split_and!; [done|by revert Hf'; destruct (g !! r_name r)|]. intros e.
    rewrite foldl_dependents, foldl_addPrerequisite. unfold registered.
    destruct (decide (e = r_name r)) as [->|Hne];
      [rewrite lookup_insert_eq|by rewrite lookup_insert_ne].
    unfold declaredNode. by rewrite Hf.
Qed.

Lemma initFn_registered r e o :
  e ≠ r_name r → registered r e o ≫= initFn = o ≫= initFn.
Proof.
  intros Hne. unfold registered. rewrite (decide_False (P := e = r_name r)) by done. case_decide; [|done].
  by destruct o.
Qed.

Lemma initFn_registered_name r o :
  registered r (r_name r) o ≫= initFn = r_initFn r.
Proof. unfold registered. rewrite (decide_True (P := r_name r = r_name r)) by done. by case_decide. Qed.

Lemma registered_comm a b e o :
  r_name a ≠ r_name b →
  registered a e (registered b e o) = registered b e (registered a e o).
Proof.
  intros Hne. unfold registered, withDependent, declaredNode.
  repeat case_decide; subst; simpl; try done; f_equal;
    apply node_eq; simpl; try done; set_solver.
Qed.

Lemma free_registered g g1 r x :
  r_initFn r ≠ None → (∀ e, g1 !! e = registered r e (g !! e)) →
  free g1 x ↔ free g x ∧ r_name r ≠ x.
Proof.
  intros Hi Hl. unfold free. rewrite Hl. destruct (decide (x = r_name r)) as [->|Hne].
  - rewrite initFn_registered_name. naive_solver.
  - rewrite initFn_registered by done. naive_solver.
Qed.

(** When two registrations succeed one after the other. *)
Definition addable g a b : Prop :=
  r_initFn a ≠ None ∧ r_initFn b ≠ None ∧ free g (r_name a) ∧ free g (r_name b) ∧
  r_name a ≠ r_name b.

Lemma register_two g a b :
  match (g' ← GlobalInitializerRegisterer g a; GlobalInitializerRegisterer g' b) with
  | Some g2 => addable g a b ∧
      ∀ e, g2 !! e = registered b e (registered a e (g !! e))
  | None => ¬ addable g a b
  end.
Proof.
  pose proof (register_cases g a) as Ha.
  destruct (GlobalInitializerRegisterer g a) as [g1|]; cbn [mbind option_bind];
    [|unfold addable; naive_solver].
  destruct Ha as (Hia & Hfa & Hla). pose proof (register_cases g1 b) as Hb.
  pose proof (free_registered g g1 a (r_name b) Hia Hla) as Hfree.
  unfold addable. destruct (GlobalInitializerRegisterer g1 b) as [g2|].
  - destruct Hb as (Hib & [Hfb Hne]%Hfree & Hlb). split; [done|]. intros e. by rewrite Hlb, Hla.
  - destruct Hb as [?|Hb]; [naive_solver|]. intros (? & ? & ? & ? & ?). by apply Hb, Hfree.
Qed.

(** Two registrations may change places. *)
Lemma register_comm g a b :
  (g' ← GlobalInitializerRegisterer g a; GlobalInitializerRegisterer g' b) =
  (g' ← GlobalInitializerRegisterer g b; GlobalInitializerRegisterer g' a).
Proof.
  pose proof (register_two g a b) as Hab. pose proof (register_two g b a) as Hba.
  assert (Hsym : addable g a b ↔ addable g b a) by (unfold addable; naive_solver).
  destruct (g' ← GlobalInitializerRegisterer g a; _) as [g1|],
    (g' ← GlobalInitializerRegisterer g b; _) as [g2|]; [|tauto..|done].
  destruct Hab as [(_ & _ & _ & _ & Hne) H1], Hba as [_ H2]. f_equal. apply map_eq. intros e.
  rewrite H1, H2. by apply registered_comm.
Qed.

Lemma registerAll_perm regs regs' g :
  regs ≡ₚ regs' → registerAll regs g = registerAll regs' g.
Proof.
  intros H. revert g. induction H as [|r l l' _ IH|a b l|l1 l2 l3 _ IH1 _ IH2]; intros g; simpl.
  - done.
  - by destruct (GlobalInitializerRegisterer g r); simpl.
  - pose proof (register_comm g b a) as Hc.
    destruct (GlobalInitializerRegisterer g a) as [ga|], (GlobalInitializerRegisterer g b) as [gb|];
      simpl in *; first [done|by rewrite Hc|by rewrite <- Hc].
  - by rewrite IH1.
Qed.

(** [p] was named as a prerequisite of [e], by either of them. *)
Definition declares r (p e : string) : Prop :=
  (e = r_name r ∧ p ∈ r_prerequisites r) ∨ (p = r_name r ∧ e ∈ r_dependents r).

Definition prereqsOf o : gset string := from_option prerequisites ∅ o.

Lemma needs_prereqsOf g p e : needs g p e ↔ p ∈ prereqsOf (g !! e).
Proof.
  unfold needs, prereqsOf. destruct (g !! e) as [n|]; simpl; [naive_solver|].
  split; [naive_solver|]. by intros ?%elem_of_empty.
Qed.

Lemma needs_registered g g' r p e :
  (∀ e, g' !! e = registered r e (g !! e)) → needs g' p e ↔ declares r p e ∨ needs g p e.
Proof.
  intros H. rewrite !needs_prereqsOf, H. unfold registered, withDependent, declaredNode, declares.
  destruct (g !! e) as [n|]; repeat case_decide; subst; simpl; set_solver.
Qed.

Lemma registerAll_needs regs g g' p e :
  registerAll regs g = Some g' →
  needs g' p e ↔ (∃ r, r ∈ regs ∧ declares r p e) ∨ needs g p e.
Proof.
  revert g. induction regs as [|r regs IH]; intros g H; simpl in H; [set_solver|].
  pose proof (register_cases g r) as Hr.
  destruct (GlobalInitializerRegisterer g r) as [g1|]; [|done]. simpl in H.
  rewrite (IH g1 H), (needs_registered g g1 r) by apply Hr. set_solver.
Qed.

(** The registrations can all be made: no null function, no name twice, no name taken. *)
Definition registrable g (regs : list (Registration W)) : Prop :=
  Forall (λ r, r_initFn r ≠ None ∧ free g (r_name r)) regs ∧ NoDup (r_name <$> regs).

Lemma registrable_cons g g1 r regs :
  r_initFn r ≠ None → free g (r_name r) → (∀ e, g1 !! e = registered r e (g !! e)) →
  registrable g (r :: regs) ↔ registrable g1 regs.
Proof.
  intros Hi Hf Hl. unfold registrable. rewrite fmap_cons, NoDup_cons, Forall_cons, !Forall_forall.
  assert (Hfree := λ x, free_registered g g1 r x Hi Hl). setoid_rewrite Hfree.
  rewrite list_elem_of_fmap. naive_solver.
Qed.

Lemma registerAll_cases regs g : is_Some (registerAll regs g) ↔ registrable g regs.
Proof.
  revert g. induction regs as [|r regs IH]; intros g; simpl.
  { split; [|by eexists]. intros _. split; constructor. }
  pose proof (register_cases g r) as Hr.
  destruct (GlobalInitializerRegisterer g r) as [g1|]; simpl.
  - destruct Hr as (Hi & Hf & Hl). rewrite IH. symmetry. by apply registrable_cons.
  - split; [by intros []|]. intros [[[? ?] _]%Forall_cons _]. naive_solver.
Qed.

(** The order in which the registerers of the program's translation units are
    constructed does not matter: in every order they build the same graph, or abort.
    They abort exactly when some function is null or two share a name, and otherwise a
    node's prerequisites are those that it, or they, declared. *)
Theorem registration_order_irrelevant (regs regs' : list (Registration W)) :
  regs ≡ₚ regs' →
  registerAll regs ∅ = registerAll regs' ∅ ∧
  (registerAll regs ∅ = None ↔
     ¬ (Forall (λ r, r_initFn r ≠ None) regs ∧ NoDup (r_name <$> regs))) ∧
  (∀ g, registerAll regs ∅ = Some g →
     ∀ p e, needs g p e ↔ ∃ r, r ∈ regs ∧ declares r p e).
Proof.
  intros H. split; [by apply registerAll_perm|]. split.
  - rewrite eq_None_not_Some, registerAll_cases. unfold registrable, free.
    setoid_rewrite lookup_empty. rewrite !Forall_forall. naive_solver.
  - intros g Hg p e. rewrite (registerAll_needs _ _ _ _ _ Hg).
    split; [|by left]. intros [?|(n & He & _)]; [done|]. by rewrite lookup_empty in He.
Qed.
End Register.

(** ** A concrete start-up *)

(** An initializer that logs its name and returns a status. *)
Definition logs (name : string) (st : Status) : Function (list string) :=
  λ w, (Returned st, w ++ [name]).

Definition regA : Registration (list string) :=
  mkReg "A" (Some (logs "A" OK)) (Some (logs "-A" OK)) [] ["C"].
Definition regB : Registration (list string) :=
  mkReg "B" (Some (logs "B" OK)) (Some (logs "-B" OK)) ["A"] [].
Definition regC : Registration (list string) :=
  mkReg "C" (Some (logs "C" (OtherError 7))) None ["B"] [].

Example start_up :
  (g ← registerAll [regC; regA; regB] ∅; r ← Initializer.executeInitializers (λ _, reverse) g [];
   Some (r.1.1, r.2)) = Some (OtherError 7, ["A"; "B"; "C"]).
Proof. vm_compute. reflexivity. Qed.

Example shut_down :
  (g ← registerAll [regC; regA; regB] ∅; r ← Initializer.executeDeinitializers (λ _, reverse) g [];
   Some (r.1.1, r.2)) = Some (OK, ["-B"; "-A"]).
Proof. vm_compute. reflexivity. Qed.

Lemma registration_order_irrelevant_witness :
  [regC; regA; regB] ≡ₚ [regA; regB; regC] ∧
  registerAll [regC; regA; regB] ∅ = registerAll [regA; regB; regC] ∅.
Proof.
  assert (H : [regC; regA; regB] ≡ₚ [regA; regB; regC]).
  { exact (Permutation_app_comm [regC] [regA; regB]). }
  split; [exact H|]. exact (proj1 (registration_order_irrelevant _ _ H)).
Defined.

Definition reversing (i : nat) (l : list string) : list string := reverse l.

Lemma reversing_perm i l : reversing i l ≡ₚ l.
Proof. apply reverse_Permutation. Qed.

Definition started : t (list string) := default ∅ (registerAll [regC; regA; regB] ∅).

Lemma started_complete : complete started.
Proof. apply complete_tests. by vm_compute. Qed.

Lemma started_acyclic : acyclic started.
Proof.
  destruct (topSort_complete reversing reversing_perm started [] started_complete)
    as (st & names & Hs & [(_ & _ & _ & ?)|(Hst & _ & _)]); [done|].
  rewrite Hst in Hs. by vm_compute in Hs.
Qed.

Lemma execution_ordered_witness :
  complete started ∧ acyclic started ∧
  ∃ order r, Initializer.executeInitializers reversing started [] = Some r ∧
    InitOrder started order ∧ Executes todoInit true started started [] order r.
Proof.
  split; [exact started_complete|]. split; [exact started_acyclic|].
  exact (proj1 (proj1 (execution_ordered reversing reversing_perm started [])
    started_complete started_acyclic)).
Defined.
