(* ===== verification/TransactionState.v ===== *)
(** The state of a session's transactions: the state machine of
    src/mongo/db/transaction_participant.h, the participant's data, the operation that
    has the session checked out, and the state and error monad its methods are written in.

    An exception is [Throw], a failed invariant, a fassert and [std::terminate] are [Die].
    Calls to other components go through [Env]: whether such a call throws, and what it
    answers, depends on how many were made before.  Metrics, logging and fail points
    are left out. *)
From stdpp Require Import gmap.
From S2P Require Import Prelude OpTimes.

Module TransactionState.

(** [enum StateFlag]. *)
Inductive StateFlag :=
  | kNone | kInProgress | kPrepared | kCommitted | kAbortedWithoutPrepare | kAbortedWithPrepare
  | kExecutedRetryableWrite.

#[global] Instance StateFlag_eq_dec : EqDecision StateFlag.
Proof. solve_decision. Defined.

(** The bit of a state. *)
Definition bit (s : StateFlag) : Z :=
  match s with
  | kNone => Z.shiftl 1 0
  | kInProgress => Z.shiftl 1 1
  | kPrepared => Z.shiftl 1 2
  | kCommitted => Z.shiftl 1 3
  | kAbortedWithoutPrepare => Z.shiftl 1 4
  | kAbortedWithPrepare => Z.shiftl 1 5
  | kExecutedRetryableWrite => Z.shiftl 1 6
  end.

Definition isInSet (s : StateFlag) (stateSet : Z) : bool := negb (Z.land (bit s) stateSet =? 0).

Definition isOpen (s : StateFlag) : bool :=
  bool_decide (s = kInProgress) || bool_decide (s = kPrepared).
Definition isNone (s : StateFlag) : bool := bool_decide (s = kNone).
Definition isInProgress (s : StateFlag) : bool := bool_decide (s = kInProgress).
Definition isPrepared (s : StateFlag) : bool := bool_decide (s = kPrepared).
Definition isCommitted (s : StateFlag) : bool := bool_decide (s = kCommitted).
Definition isAborted (s : StateFlag) : bool :=
  bool_decide (s = kAbortedWithPrepare) || bool_decide (s = kAbortedWithoutPrepare).
Definition isInRetryableWriteMode (s : StateFlag) : bool :=
  bool_decide (s = kNone) || bool_decide (s = kExecutedRetryableWrite).

Definition isLegalTransition (oldState newState : StateFlag) : bool :=
  match oldState with
  | kNone =>
      match newState with kNone | kInProgress | kExecutedRetryableWrite => true | _ => false end
  | kInProgress =>
      match newState with
      | kNone | kPrepared | kCommitted | kAbortedWithoutPrepare => true
      | _ => false
      end
  | kPrepared => match newState with kAbortedWithPrepare | kCommitted => true | _ => false end
  | kCommitted => match newState with kNone => true | _ => false end
  | kAbortedWithoutPrepare => match newState with kNone | kInProgress => true | _ => false end
  | kAbortedWithPrepare => match newState with kNone => true | _ => false end
  | kExecutedRetryableWrite => match newState with kNone => true | _ => false end
  end.

Inductive TransitionValidation := kValidateTransition | kRelaxTransitionValidation.
End TransactionState.

Export TransactionState.

(** ** Data *)

Definition kUninitializedTxnNumber : Z := -1.
Definition kUninitializedStmtId : Z := -1.
Definition kIncompleteHistoryStmtId : Z := -2.

(** What is used of a [ReplOperation]: an identity and three sizes, what
    [getDurableReplOperationSize] says, that of the pre-image, zero when it is empty, and that of
    the operation's BSON. *)
Record ReplOperation := mkOp { op_id : Z; op_size : Z; op_preImageSize : Z; op_bsonSize : Z }.

(** A storage transaction: whether it is open, and the prepare timestamp it was given. *)
Record RecoveryUnit := mkRU {
  ru_inActiveTxn : bool;
  ru_prepareTimestamp : Timestamp.t
}.

Definition newRecoveryUnit : RecoveryUnit := mkRU false Timestamp.null.

(** [TxnResources]: what is kept of the operation's locker and recovery unit; a stash of the
    secondary style has yielded its locks. *)
Record TxnResources := mkRes {
  tr_rstlLocked : bool;
  tr_locked : bool;
  tr_yielded : bool;
  tr_recoveryUnit : RecoveryUnit
}.

Inductive DurableTxnState := dPrepared | dCommitted | dAborted | dInProgress.

#[global] Instance DurableTxnState_eq_dec : EqDecision DurableTxnState.
Proof. solve_decision. Defined.

Record SessionTxnRecord := mkRecord {
  rec_txnNum : Z;
  rec_lastWriteOpTime : OpTime.t;
  rec_state : option DurableTxnState
}.

(** An entry met when the writes of a session are followed back through the oplog: a
    statement, the sentinel of an incomplete history, a transaction in the format of
    version 4.0, an entry without a link to the one before, or none where the oplog was
    truncated. *)
Inductive HistoryEntry :=
  | HStatement (stmtId : Z) (opTime : OpTime.t)
  | HDeadEnd
  | HApplyOps
  | HUnlinked
  | HTruncated.

(** The session's document in config.transactions, and the chain of its writes. *)
Record Stored := mkStored { st_record : SessionTxnRecord; st_history : list HistoryEntry }.

(** Entries written to the oplog.  The operations of a transaction are in its last entry, the one
    that commits or prepares it, and in the [partialTxn] entries before that. *)
Inductive OplogEvent :=
  | EvWrite (txnNumber : Z) (stmts : list (Z * OpTime.t))
  | EvPartial (txnNumber : Z) (opTime : OpTime.t) (ops : list ReplOperation)
  | EvCommit (txnNumber : Z) (opTime : OpTime.t) (ops : list ReplOperation)
  | EvPrepare (txnNumber : Z) (opTime : OpTime.t) (ops : list ReplOperation)
  | EvCommitPrepared (txnNumber : Z) (opTime : OpTime.t) (commitTimestamp : Timestamp.t)
  | EvAbort (txnNumber : Z) (opTime : OpTime.t)
  | EvNoop.

(** [ObservableState]; the state's own promise is next to its flag.  The promise of a
    prepared transaction's end is an index. *)
Record ObservableState := mkObs {
  txnResourceStash : option TxnResources;
  txnState : StateFlag;
  exitPreparePromise : option nat;
  activeTxnNumber : Z;
  lastWriteOpTime : OpTime.t;
  transactionExpireDate : option Z;
  prepareOpTime : OpTime.t;
  recoveryPrepareOpTime : OpTime.t
}.

Definition set_txnResourceStash (v : option TxnResources) (x : ObservableState) : ObservableState
  := mkObs v (txnState x) (exitPreparePromise x) (activeTxnNumber x) (lastWriteOpTime x)
  (transactionExpireDate x) (prepareOpTime x) (recoveryPrepareOpTime x).
Definition set_txnState (v : StateFlag) (x : ObservableState) : ObservableState := mkObs
  (txnResourceStash x) v (exitPreparePromise x) (activeTxnNumber x) (lastWriteOpTime x)
  (transactionExpireDate x) (prepareOpTime x) (recoveryPrepareOpTime x).
Definition set_exitPreparePromise (v : option nat) (x : ObservableState) : ObservableState :=
  mkObs (txnResourceStash x) (txnState x) v (activeTxnNumber x) (lastWriteOpTime x)
  (transactionExpireDate x) (prepareOpTime x) (recoveryPrepareOpTime x).
Definition set_activeTxnNumber (v : Z) (x : ObservableState) : ObservableState := mkObs
  (txnResourceStash x) (txnState x) (exitPreparePromise x) v (lastWriteOpTime x)
  (transactionExpireDate x) (prepareOpTime x) (recoveryPrepareOpTime x).
Definition set_lastWriteOpTime (v : OpTime.t) (x : ObservableState) : ObservableState := mkObs
  (txnResourceStash x) (txnState x) (exitPreparePromise x) (activeTxnNumber x) v
  (transactionExpireDate x) (prepareOpTime x) (recoveryPrepareOpTime x).
Definition set_transactionExpireDate (v : option Z) (x : ObservableState) : ObservableState :=
  mkObs (txnResourceStash x) (txnState x) (exitPreparePromise x) (activeTxnNumber x)
  (lastWriteOpTime x) v (prepareOpTime x) (recoveryPrepareOpTime x).
Definition set_prepareOpTime (v : OpTime.t) (x : ObservableState) : ObservableState := mkObs
  (txnResourceStash x) (txnState x) (exitPreparePromise x) (activeTxnNumber x) (lastWriteOpTime x)
  (transactionExpireDate x) v (recoveryPrepareOpTime x).
Definition set_recoveryPrepareOpTime (v : OpTime.t) (x : ObservableState) : ObservableState :=
  mkObs (txnResourceStash x) (txnState x) (exitPreparePromise x) (activeTxnNumber x)
  (lastWriteOpTime x) (transactionExpireDate x) (prepareOpTime x) v.

(** [PrivateState]. *)
Record PrivateState := mkPrv {
  isValid : bool;
  inShutdown : bool;
  transactionOperations : list ReplOperation;
  transactionOperationBytes : Z;
  numberOfPreImagesToWrite : Z;
  autoCommit : option bool;
  hasIncompleteHistory : bool;
  activeTxnCommittedStatements : gmap Z OpTime.t;
  needToWriteAbortEntry : bool
}.

Definition set_isValid (v : bool) (x : PrivateState) : PrivateState := mkPrv v (inShutdown x)
  (transactionOperations x) (transactionOperationBytes x) (numberOfPreImagesToWrite x) (autoCommit
  x) (hasIncompleteHistory x) (activeTxnCommittedStatements x) (needToWriteAbortEntry x).
Definition set_inShutdown (v : bool) (x : PrivateState) : PrivateState := mkPrv (isValid x) v
  (transactionOperations x) (transactionOperationBytes x) (numberOfPreImagesToWrite x) (autoCommit
  x) (hasIncompleteHistory x) (activeTxnCommittedStatements x) (needToWriteAbortEntry x).
Definition set_transactionOperations (v : list ReplOperation) (x : PrivateState) : PrivateState :=
  mkPrv (isValid x) (inShutdown x) v (transactionOperationBytes x) (numberOfPreImagesToWrite x)
  (autoCommit x) (hasIncompleteHistory x) (activeTxnCommittedStatements x) (needToWriteAbortEntry
  x).
Definition set_transactionOperationBytes (v : Z) (x : PrivateState) : PrivateState := mkPrv
  (isValid x) (inShutdown x) (transactionOperations x) v (numberOfPreImagesToWrite x) (autoCommit
  x) (hasIncompleteHistory x) (activeTxnCommittedStatements x) (needToWriteAbortEntry x).
Definition set_numberOfPreImagesToWrite (v : Z) (x : PrivateState) : PrivateState := mkPrv
  (isValid x) (inShutdown x) (transactionOperations x) (transactionOperationBytes x) v (autoCommit
  x) (hasIncompleteHistory x) (activeTxnCommittedStatements x) (needToWriteAbortEntry x).
Definition set_autoCommit (v : option bool) (x : PrivateState) : PrivateState := mkPrv (isValid x)
  (inShutdown x) (transactionOperations x) (transactionOperationBytes x) (numberOfPreImagesToWrite
  x) v (hasIncompleteHistory x) (activeTxnCommittedStatements x) (needToWriteAbortEntry x).
Definition set_hasIncompleteHistory (v : bool) (x : PrivateState) : PrivateState := mkPrv (isValid
  x) (inShutdown x) (transactionOperations x) (transactionOperationBytes x)
  (numberOfPreImagesToWrite x) (autoCommit x) v (activeTxnCommittedStatements x)
  (needToWriteAbortEntry x).
Definition set_activeTxnCommittedStatements (v : gmap Z OpTime.t) (x : PrivateState) :
  PrivateState := mkPrv (isValid x) (inShutdown x) (transactionOperations x)
  (transactionOperationBytes x) (numberOfPreImagesToWrite x) (autoCommit x) (hasIncompleteHistory
  x) v (needToWriteAbortEntry x).
Definition set_needToWriteAbortEntry (v : bool) (x : PrivateState) : PrivateState := mkPrv
  (isValid x) (inShutdown x) (transactionOperations x) (transactionOperationBytes x)
  (numberOfPreImagesToWrite x) (autoCommit x) (hasIncompleteHistory x)
  (activeTxnCommittedStatements x) v.

(** What the participant uses of an [OperationContext], of its locker and of its
    recovery unit. *)
Record OperationContext := mkCtx {
  oc_txnNumber : option Z;
  oc_inMultiDocumentTransaction : bool;
  oc_writesAreReplicated : bool;
  oc_usedDefaultWriteConcern : bool;
  oc_writeUnitOfWork : bool;
  oc_inAWriteUnitOfWork : bool;
  oc_rstlLocked : bool;
  oc_locked : bool;
  oc_maxLockTimeout : bool;
  oc_uninterruptible : bool;
  oc_recoveryUnit : RecoveryUnit
}.

Definition set_oc_txnNumber (v : option Z) (x : OperationContext) : OperationContext := mkCtx v
  (oc_inMultiDocumentTransaction x) (oc_writesAreReplicated x) (oc_usedDefaultWriteConcern x)
  (oc_writeUnitOfWork x) (oc_inAWriteUnitOfWork x) (oc_rstlLocked x) (oc_locked x)
  (oc_maxLockTimeout x) (oc_uninterruptible x) (oc_recoveryUnit x).
Definition set_oc_inMultiDocumentTransaction (v : bool) (x : OperationContext) : OperationContext
  := mkCtx (oc_txnNumber x) v (oc_writesAreReplicated x) (oc_usedDefaultWriteConcern x)
  (oc_writeUnitOfWork x) (oc_inAWriteUnitOfWork x) (oc_rstlLocked x) (oc_locked x)
  (oc_maxLockTimeout x) (oc_uninterruptible x) (oc_recoveryUnit x).
Definition set_oc_writesAreReplicated (v : bool) (x : OperationContext) : OperationContext :=
  mkCtx (oc_txnNumber x) (oc_inMultiDocumentTransaction x) v (oc_usedDefaultWriteConcern x)
  (oc_writeUnitOfWork x) (oc_inAWriteUnitOfWork x) (oc_rstlLocked x) (oc_locked x)
  (oc_maxLockTimeout x) (oc_uninterruptible x) (oc_recoveryUnit x).
Definition set_oc_usedDefaultWriteConcern (v : bool) (x : OperationContext) : OperationContext :=
  mkCtx (oc_txnNumber x) (oc_inMultiDocumentTransaction x) (oc_writesAreReplicated x) v
  (oc_writeUnitOfWork x) (oc_inAWriteUnitOfWork x) (oc_rstlLocked x) (oc_locked x)
  (oc_maxLockTimeout x) (oc_uninterruptible x) (oc_recoveryUnit x).
Definition set_oc_writeUnitOfWork (v : bool) (x : OperationContext) : OperationContext := mkCtx
  (oc_txnNumber x) (oc_inMultiDocumentTransaction x) (oc_writesAreReplicated x)
  (oc_usedDefaultWriteConcern x) v (oc_inAWriteUnitOfWork x) (oc_rstlLocked x) (oc_locked x)
  (oc_maxLockTimeout x) (oc_uninterruptible x) (oc_recoveryUnit x).
Definition set_oc_inAWriteUnitOfWork (v : bool) (x : OperationContext) : OperationContext := mkCtx
  (oc_txnNumber x) (oc_inMultiDocumentTransaction x) (oc_writesAreReplicated x)
  (oc_usedDefaultWriteConcern x) (oc_writeUnitOfWork x) v (oc_rstlLocked x) (oc_locked x)
  (oc_maxLockTimeout x) (oc_uninterruptible x) (oc_recoveryUnit x).
Definition set_oc_rstlLocked (v : bool) (x : OperationContext) : OperationContext := mkCtx
  (oc_txnNumber x) (oc_inMultiDocumentTransaction x) (oc_writesAreReplicated x)
  (oc_usedDefaultWriteConcern x) (oc_writeUnitOfWork x) (oc_inAWriteUnitOfWork x) v (oc_locked x)
  (oc_maxLockTimeout x) (oc_uninterruptible x) (oc_recoveryUnit x).
Definition set_oc_locked (v : bool) (x : OperationContext) : OperationContext := mkCtx
  (oc_txnNumber x) (oc_inMultiDocumentTransaction x) (oc_writesAreReplicated x)
  (oc_usedDefaultWriteConcern x) (oc_writeUnitOfWork x) (oc_inAWriteUnitOfWork x) (oc_rstlLocked
  x) v (oc_maxLockTimeout x) (oc_uninterruptible x) (oc_recoveryUnit x).
Definition set_oc_maxLockTimeout (v : bool) (x : OperationContext) : OperationContext := mkCtx
  (oc_txnNumber x) (oc_inMultiDocumentTransaction x) (oc_writesAreReplicated x)
  (oc_usedDefaultWriteConcern x) (oc_writeUnitOfWork x) (oc_inAWriteUnitOfWork x) (oc_rstlLocked
  x) (oc_locked x) v (oc_uninterruptible x) (oc_recoveryUnit x).
Definition set_oc_uninterruptible (v : bool) (x : OperationContext) : OperationContext := mkCtx
  (oc_txnNumber x) (oc_inMultiDocumentTransaction x) (oc_writesAreReplicated x)
  (oc_usedDefaultWriteConcern x) (oc_writeUnitOfWork x) (oc_inAWriteUnitOfWork x) (oc_rstlLocked
  x) (oc_locked x) (oc_maxLockTimeout x) v (oc_recoveryUnit x).
Definition set_oc_recoveryUnit (v : RecoveryUnit) (x : OperationContext) : OperationContext :=
  mkCtx (oc_txnNumber x) (oc_inMultiDocumentTransaction x) (oc_writesAreReplicated x)
  (oc_usedDefaultWriteConcern x) (oc_writeUnitOfWork x) (oc_inAWriteUnitOfWork x) (oc_rstlLocked
  x) (oc_locked x) (oc_maxLockTimeout x) (oc_uninterruptible x) v.

(** A session's participant with the operation that has it checked out, the role of the
    node, the number of calls made to other components, the promises made and kept, the
    entries the session's operations wrote to the oplog and the session's record in
    config.transactions. *)
Record World := mkWorld {
  obs : ObservableState;
  prv : PrivateState;
  opCtx : OperationContext;
  primary : bool;
  now : nat;
  promises : nat;
  fulfilled : gset nat;
  oplog : list OplogEvent;
  stored : option Stored
}.

Definition set_obs (v : ObservableState) (w : World) : World := mkWorld v (prv w) (opCtx w)
  (primary w) (now w) (promises w) (fulfilled w) (oplog w) (stored w).
Definition set_prv (v : PrivateState) (w : World) : World := mkWorld (obs w) v (opCtx w) (primary
  w) (now w) (promises w) (fulfilled w) (oplog w) (stored w).
Definition set_opCtx (v : OperationContext) (w : World) : World := mkWorld (obs w) (prv w) v
  (primary w) (now w) (promises w) (fulfilled w) (oplog w) (stored w).
Definition set_primary (v : bool) (w : World) : World := mkWorld (obs w) (prv w) (opCtx w) v (now
  w) (promises w) (fulfilled w) (oplog w) (stored w).
Definition set_now (v : nat) (w : World) : World := mkWorld (obs w) (prv w) (opCtx w) (primary w)
  v (promises w) (fulfilled w) (oplog w) (stored w).
Definition set_promises (v : nat) (w : World) : World := mkWorld (obs w) (prv w) (opCtx w)
  (primary w) (now w) v (fulfilled w) (oplog w) (stored w).
Definition set_fulfilled (v : gset nat) (w : World) : World := mkWorld (obs w) (prv w) (opCtx w)
  (primary w) (now w) (promises w) v (oplog w) (stored w).
Definition set_oplog (v : list OplogEvent) (w : World) : World := mkWorld (obs w) (prv w) (opCtx
  w) (primary w) (now w) (promises w) (fulfilled w) v (stored w).
Definition set_stored (v : option Stored) (w : World) : World := mkWorld (obs w) (prv w) (opCtx w)
  (primary w) (now w) (promises w) (fulfilled w) (oplog w) v.

(** A session nobody has used, on a node in the given role. *)
Definition noOpCtx : OperationContext :=
  mkCtx None false true true false false false false false false newRecoveryUnit.

Definition freshWorld (isPrimary : bool) (st : option Stored) : World :=
  mkWorld (mkObs None kNone None kUninitializedTxnNumber OpTime.null None OpTime.null OpTime.null)
    (mkPrv false false [] 0 0 None false ∅ false) noOpCtx isPrimary 0 0 ∅ [] st.

(** ** State and errors *)

Inductive ErrorCode :=
  | NotWritablePrimary | OperationNotSupportedInTransaction | TransactionTooOld
  | IncompleteTransactionHistory | NoSuchTransaction | ConflictingOperationInProgress
  | Location50911 | PreparedTransactionInProgress | TransactionCommitted | InvalidOptions
  | TransactionTooLarge | OtherCode (code : Z).

#[global] Instance ErrorCode_eq_dec : EqDecision ErrorCode.
Proof. solve_decision. Defined.

Inductive Result (A : Type) :=
  | Ret (x : A) (w : World)
  | Throw (e : ErrorCode) (w : World)
  | Die.
Arguments Ret {A} _ _.
Arguments Throw {A} _ _.
Arguments Die {A}.

Definition M (A : Type) : Type := World → Result A.

#[global] Instance M_ret : MRet M := λ A x w, Ret x w.

#[global] Instance M_bind : MBind M := λ A B f m w,
  match m w with
  | Ret x w => f x w
  | Throw e w => Throw e w
  | Die => Die
  end.

Definition get {A} (f : World → A) : M A := λ w, Ret (f w) w.
Definition modify (f : World → World) : M unit := λ w, Ret tt (f w).
Definition throw {A} (e : ErrorCode) : M A := λ w, Throw e w.
Definition die {A} : M A := λ w, Die.

(** [invariant] and [fassert]. *)
Definition assert (b : bool) : M unit := if b then mret tt else die.
Definition uassert (e : ErrorCode) (b : bool) : M unit := if b then mret tt else throw e.
Definition when (b : bool) (m : M unit) : M unit := if b then m else mret tt.

(** [makeGuard]: the guard runs when the body throws; as it runs in a destructor, its
    own exceptions terminate the process. *)
Definition guarded {A} (guard : M unit) (m : M A) : M A := λ w,
  match m w with
  | Throw e w => match guard w with Ret _ w => Throw e w | _ => Die end
  | r => r
  end.

(** [catch (...) { std::terminate(); }] and [noexcept]. *)
Definition noThrow {A} (m : M A) : M A := λ w,
  match m w with Throw _ _ => Die | r => r end.

(** [ON_BLOCK_EXIT]. *)
Definition onBlockExit {A} (f : World → World) (m : M A) : M A := λ w,
  match m w with Ret x w => Ret x (f w) | Throw e w => Throw e (f w) | Die => Die end.

Definition obsM {A} (f : ObservableState → A) : M A := get (λ w, f (obs w)).
Definition prvM {A} (f : PrivateState → A) : M A := get (λ w, f (prv w)).
Definition ctxM {A} (f : OperationContext → A) : M A := get (λ w, f (opCtx w)).
Definition modO (f : ObservableState → ObservableState) : M unit :=
  modify (λ w, set_obs (f (obs w)) w).
Definition modP (f : PrivateState → PrivateState) : M unit :=
  modify (λ w, set_prv (f (prv w)) w).
Definition modC (f : OperationContext → OperationContext) : M unit :=
  modify (λ w, set_opCtx (f (opCtx w)) w).

(** ** The other components *)

Inductive ClusterRole := RoleNone | RoleShardServer | RoleConfigServer.

(** What the other components answer at the [n]-th call.  [env_fault] also knows whether the
    operation may be interrupted and whether it is one that replicates its writes. *)
Record Env := mkEnv {
  env_fault : bool → bool → nat → option ErrorCode;
  env_slot : nat → OpTime.t;
  env_lastCommitted : nat → OpTime.t;
  env_now : nat → Z;
  env_clusterRole : ClusterRole;
  env_wcMajorityShouldJournal : bool;
  env_testCommandsEnabled : bool;
  env_transactionSizeLimitBytes : Z;
  env_maxNumberOfTransactionOperationsInSingleOplogEntry : Z;
  env_transactionLifetimeLimitSeconds : Z;
  env_maxTransactionLockRequestTimeoutMillis : Z
}.

#[global] Instance ClusterRole_eq_dec : EqDecision ClusterRole.
Proof. solve_decision. Defined.

(** A call that may throw. *)
Definition external (env : Env) : M unit := λ w,
  let w' := set_now (S (now w)) w in
  match env_fault env (oc_uninterruptible (opCtx w)) (oc_writesAreReplicated (opCtx w)) (now w) with
  | Some e => Throw e w'
  | None => Ret tt w'
  end.

(** A call that answers. *)
Definition ask {A} (f : nat → A) : M A := λ w, Ret (f (now w)) (set_now (S (now w)) w).
