(* ===== verification/TransactionParticipant.v ===== *)
(** The methods of a session's participant:
    src/mongo/db/transaction_participant.cpp, with what it asks of the oplog observer
    (src/mongo/db/op_observer_impl.cpp, the transaction entries and onWriteOpCompleted).
    A unit of work is one step: the entries that it writes and the session's record become
    durable together. *)
From stdpp Require Import gmap pretty.
From S2P Require Import Prelude OpTimes TransactionState.

Module TransactionParticipant.
Section Env.
Context (env : Env).

(** ** The state machine *)

Definition transitionTo (newState : StateFlag) (v : TransitionValidation) : M unit :=
  old ← obsM txnState;
  (match v with
   | kValidateTransition => assert (isLegalTransition old newState)
   | kRelaxTransitionValidation => mret tt
   end) ;;
  when (isPrepared old)
    (promise ← obsM exitPreparePromise;
     match promise with
     | None => die
     | Some k =>
         modify (λ w, set_fulfilled ({[k]} ∪ fulfilled w) w) ;;
         modO (set_exitPreparePromise None)
     end) ;;
  modO (set_txnState newState) ;;
  when (isPrepared newState)
    (promise ← obsM exitPreparePromise;
     assert (bool_decide (promise = None)) ;;
     modify (λ w, set_promises (S (promises w))
       (set_obs (set_exitPreparePromise (Some (promises w)) (obs w)) w))).

(** The index of the promise to wait for, [None] when the future is ready. *)
Definition onExitPrepare : M (option nat) := obsM exitPreparePromise.

(** ** Resetting *)

Definition _resetRetryableWriteState : M unit :=
  modP (λ p, set_hasIncompleteHistory false (set_activeTxnCommittedStatements ∅ p)).

Definition _resetTransactionState (state : StateFlag) : M unit :=
  old ← obsM txnState;
  transitionTo state
    (if isPrepared old && bool_decide (state = kNone)
     then kRelaxTransitionValidation else kValidateTransition) ;;
  modP (λ p, set_transactionOperations [] (set_transactionOperationBytes 0 p)) ;;
  modO (λ o, set_recoveryPrepareOpTime OpTime.null (set_prepareOpTime OpTime.null o)) ;;
  modP (λ p, set_needToWriteAbortEntry false (set_autoCommit None p)) ;;
  modO (set_txnResourceStash None).

Definition _invalidate : M unit :=
  modP (set_isValid false) ;;
  modO (λ o, set_lastWriteOpTime OpTime.null (set_activeTxnNumber kUninitializedTxnNumber o)).

Definition invalidate : M unit :=
  st ← obsM txnState;
  uassert PreparedTransactionInProgress (negb (isInSet st (bit kPrepared))) ;;
  _invalidate ;; _resetRetryableWriteState ;; _resetTransactionState kNone.

Definition resetRetryableWriteState : M unit :=
  n ← ctxM oc_txnNumber;
  assert (bool_decide (is_Some n)) ;;
  st ← obsM txnState; ac ← prvM autoCommit;
  when (isNone st && bool_decide (ac = None)) _resetRetryableWriteState.

Definition _abortTransactionOnSession : M unit :=
  st ← obsM txnState;
  _resetTransactionState (if isPrepared st then kAbortedWithPrepare else kAbortedWithoutPrepare).

(** ** Beginning and continuing *)

Definition _setNewTxnNumber (txnNumber : Z) : M unit :=
  st ← obsM txnState;
  uassert PreparedTransactionInProgress (negb (isInSet st (bit kPrepared))) ;;
  when (isInProgress st) _abortTransactionOnSession ;;
  modO (λ o, set_lastWriteOpTime OpTime.null (set_activeTxnNumber txnNumber o)) ;;
  _resetRetryableWriteState ;;
  _resetTransactionState kNone.

Definition _beginOrContinueRetryableWrite (txnNumber : Z) : M unit :=
  active ← obsM activeTxnNumber;
  if active <? txnNumber then
    _setNewTxnNumber txnNumber ;; modP (set_autoCommit None)
  else
    st ← obsM txnState;
    uassert IncompleteTransactionHistory (isInRetryableWriteMode st) ;;
    ac ← prvM autoCommit;
    assert (bool_decide (ac = None)).

Definition _continueMultiDocumentTransaction (txnNumber : Z) : M unit :=
  active ← obsM activeTxnNumber; st ← obsM txnState;
  uassert NoSuchTransaction ((txnNumber =? active) && negb (isInRetryableWriteMode st)) ;;
  stash ← obsM txnResourceStash;
  when (isInProgress st && bool_decide (¬ is_Some stash))
    (_abortTransactionOnSession ;; throw NoSuchTransaction).

Definition _beginMultiDocumentTransaction (txnNumber : Z) : M unit :=
  _setNewTxnNumber txnNumber ;;
  modP (set_autoCommit (Some false)) ;;
  transitionTo kInProgress kValidateTransition ;;
  t ← ask (env_now env);
  modO (set_transactionExpireDate (Some (t + 1000 * env_transactionLifetimeLimitSeconds env))) ;;
  ops ← prvM transactionOperations;
  assert (bool_decide (length ops = 0%nat)).

(** [startTransaction] is absent or true, which the parser has checked. *)
Definition beginOrContinue (txnNumber : Z) (autocommit startTransaction : option bool) : M unit :=
  external env ;;
  replicated ← ctxM oc_writesAreReplicated;
  when replicated
    (canAccept ← get primary;
     uassert NotWritablePrimary canAccept ;;
     uassert OperationNotSupportedInTransaction
       (env_wcMajorityShouldJournal env
        || negb (bool_decide (env_clusterRole env = RoleShardServer))
        || bool_decide (autocommit = None) || env_testCommandsEnabled env)) ;;
  active ← obsM activeTxnNumber;
  uassert TransactionTooOld (negb (txnNumber <? active)) ;;
  match autocommit with
  | None => assert (bool_decide (startTransaction = None)) ;; _beginOrContinueRetryableWrite txnNumber
  | Some ac =>
      assert (negb ac) ;;
      multi ← ctxM oc_inMultiDocumentTransaction;
      assert multi ;;
      match startTransaction with
      | None => _continueMultiDocumentTransaction txnNumber
      | Some start =>
          assert start ;;
          active ← obsM activeTxnNumber; st ← obsM txnState;
          when (txnNumber =? active)
            (uassert ConflictingOperationInProgress
               (negb (bool_decide (env_clusterRole env = RoleNone))) ;;
             uassert Location50911
               (isInSet st (Z.lor (bit kNone) (bit kAbortedWithoutPrepare)))) ;;
          _beginMultiDocumentTransaction txnNumber
      end
  end.

Definition beginOrContinueTransactionUnconditionally (txnNumber : Z) : M unit :=
  multi ← ctxM oc_inMultiDocumentTransaction;
  assert multi ;;
  modP (set_isValid true) ;;
  active ← obsM activeTxnNumber;
  (if negb (active =? txnNumber) then _beginMultiDocumentTransaction txnNumber
   else st ← obsM txnState; assert (isInSet st (Z.lor (bit kInProgress) (bit kPrepared)))) ;;
  modP (set_needToWriteAbortEntry true).

(** ** Stashing the resources *)

(** The constructor of [TxnResources]: the operation is left with an empty locker and a
    new recovery unit. *)
Definition newTxnResources (secondary : bool) : M TxnResources :=
  c ← get opCtx;
  assert (oc_writeUnitOfWork c) ;;
  assert (negb secondary || oc_locked c) ;;
  modC (λ c,
    set_oc_writeUnitOfWork false (set_oc_inAWriteUnitOfWork false (set_oc_rstlLocked false
      (set_oc_locked false (set_oc_recoveryUnit newRecoveryUnit (set_oc_maxLockTimeout
        (negb secondary && (0 <=? env_maxTransactionLockRequestTimeoutMillis env)) c)))))) ;;
  mret (mkRes (oc_rstlLocked c) (oc_locked c) secondary (oc_recoveryUnit c)).

Definition _stashActiveTransaction : M unit :=
  down ← prvM inShutdown;
  if (down : bool) then mret tt else
  active ← obsM activeTxnNumber; n ← ctxM oc_txnNumber;
  assert (bool_decide (n = Some active)) ;;
  stash ← obsM txnResourceStash;
  assert (bool_decide (¬ is_Some stash)) ;;
  st ← obsM txnState; rstl ← ctxM oc_rstlLocked;
  assert (negb (isPrepared st) || negb rstl) ;;
  replicated ← ctxM oc_writesAreReplicated;
  r ← newTxnResources (negb replicated);
  modO (set_txnResourceStash (Some r)).

Definition stashTransactionResources : M unit :=
  n ← ctxM oc_txnNumber;
  assert (bool_decide (is_Some n)) ;;
  st ← obsM txnState;
  when (isOpen st) _stashActiveTransaction.

(** [TxnResources::release]. *)
Definition release (r : TxnResources) (maxLockTimeout : bool) : M unit :=
  external env ;;
  wuow ← ctxM oc_writeUnitOfWork;
  assert (negb wuow) ;;
  modC (λ c,
    set_oc_writeUnitOfWork true (set_oc_inAWriteUnitOfWork true
      (set_oc_rstlLocked (tr_rstlLocked r) (set_oc_locked (tr_locked r)
        (set_oc_recoveryUnit (tr_recoveryUnit r) (set_oc_maxLockTimeout maxLockTimeout c)))))).

(** [allowed] is [MaxLockTimeout::kAllowed]; tickets are left out. *)
Definition _releaseTransactionResourcesToOpCtx (allowed : bool) : M unit :=
  stash ← obsM txnResourceStash;
  modO (set_txnResourceStash None) ;;
  match stash with
  | None => die
  | Some r =>
      guarded (modO (set_txnResourceStash (Some r)))
        (release r (allowed && (0 <=? env_maxTransactionLockRequestTimeoutMillis env)))
  end.

Inductive CommandName := CmdCommit | CmdAbort | CmdPrepare | CmdOther.

#[global] Instance CommandName_eq_dec : EqDecision CommandName.
Proof. solve_decision. Defined.

Definition _checkIsCommandValidWithTxnState (cmdName : CommandName) : M unit :=
  st ← obsM txnState;
  uassert NoSuchTransaction (negb (isAborted st)) ;;
  uassert TransactionCommitted (bool_decide (cmdName = CmdCommit) || negb (isCommitted st)) ;;
  uassert PreparedTransactionInProgress
    (negb (isPrepared st) || negb (bool_decide (cmdName = CmdOther))).

(** Opening the storage transaction of an operation that has none stashed. *)
Definition openTransaction : M unit :=
  c ← get opCtx;
  assert (negb (oc_locked c)) ;;
  assert (negb (oc_rstlLocked c)) ;;
  assert (negb (oc_inAWriteUnitOfWork c)) ;;
  modC (λ c, set_oc_writeUnitOfWork true (set_oc_inAWriteUnitOfWork true c)) ;;
  when (oc_writesAreReplicated c && (0 <=? env_maxTransactionLockRequestTimeoutMillis env))
    (modC (set_oc_maxLockTimeout true)) ;;
  timeout ← ctxM oc_maxLockTimeout;
  assert (oc_writesAreReplicated c || negb timeout) ;;
  external env ;;
  modC (λ c, set_oc_rstlLocked true (set_oc_locked true c)) ;;
  external env ;;
  modC (λ c, set_oc_recoveryUnit (mkRU true (ru_prepareTimestamp (oc_recoveryUnit c))) c).

Definition unstashTransactionResources (cmdName : CommandName) : M unit :=
  n ← ctxM oc_txnNumber;
  assert (bool_decide (is_Some n)) ;;
  st ← obsM txnState; stash ← obsM txnResourceStash;
  if isInRetryableWriteMode st then assert (bool_decide (¬ is_Some stash)) else
  _checkIsCommandValidWithTxnState cmdName ;;
  match stash with
  | Some _ =>
      replicated ← ctxM oc_writesAreReplicated;
      _releaseTransactionResourcesToOpCtx replicated
  | None =>
      assert (negb (isPrepared st)) ;;
      if isInProgress st then openTransaction else mret tt
  end.

Definition refreshLocksForPreparedTransaction (yieldLocks : bool) : M unit :=
  c ← get opCtx;
  assert (negb (oc_rstlLocked c)) ;;
  assert (negb (oc_locked c)) ;;
  stash ← obsM txnResourceStash; st ← obsM txnState;
  assert (bool_decide (is_Some stash)) ;;
  assert (isPrepared st) ;;
  _releaseTransactionResourcesToOpCtx false ;;
  r ← newTxnResources yieldLocks;
  modO (set_txnResourceStash (Some r)).

(** ** Statements that have executed *)

Definition _checkStatementExecuted (stmtId : Z) : M (option OpTime.t) :=
  valid ← prvM isValid;
  assert valid ;;
  stmts ← prvM activeTxnCommittedStatements;
  match stmts !! stmtId with
  | Some t => mret (Some t)
  | None =>
      incomplete ← prvM hasIncompleteHistory;
      uassert IncompleteTransactionHistory (negb incomplete) ;;
      mret None
  end.

Definition checkStatementExecutedNoOplogEntryFetch (stmtId : Z) : M bool :=
  r ← _checkStatementExecuted stmtId;
  mret (bool_decide (is_Some r)).

Inductive FetchResult :=
  | Fetched (st : option DurableTxnState) (committed : gmap Z OpTime.t) (incomplete : bool)
  | FetchThrows (e : ErrorCode)
  | FetchDies.

Definition FailedToParse : ErrorCode := OtherCode 9.

(** The loop that follows the history of a session, from the latest entry.  The sentinel's
    statement id is legal only on the sentinel itself. *)
Fixpoint fetchHistory (entries : list HistoryEntry) (committed : gmap Z OpTime.t) (incomplete : bool)
    : FetchResult :=
  match entries with
  | [] => Fetched None committed incomplete
  | HDeadEnd :: rest => fetchHistory rest committed true
  | HApplyOps :: _ => Fetched (Some dCommitted) committed incomplete
  | HTruncated :: _ => Fetched None committed true
  | HUnlinked :: _ => FetchThrows FailedToParse
  | HStatement stmtId t :: rest =>
      if stmtId =? kIncompleteHistoryStmtId then FetchDies else
      match committed !! stmtId with
      | Some _ => FetchDies
      | None => fetchHistory rest (<[stmtId := t]> committed) incomplete
      end
  end.

(** [fetchActiveTransactionHistory] once the record was found. *)
Definition fetchActiveTransactionHistory (s : Stored) : FetchResult :=
  match rec_state (st_record s) with
  | Some st => Fetched (Some st) ∅ false
  | None => fetchHistory (st_history s) ∅ false
  end.

Definition refreshFromStorageIfNeeded : M unit :=
  locked ← ctxM oc_locked;
  assert (negb locked) ;;
  valid ← prvM isValid;
  if (valid : bool) then mret tt else
  external env ;;
  record ← get stored;
  match record with
  | None => mret tt
  | Some s =>
      match fetchActiveTransactionHistory s with
      | FetchDies => die
      | FetchThrows e => throw e
      | Fetched st committed incomplete =>
          modO (λ o, set_lastWriteOpTime (rec_lastWriteOpTime (st_record s))
                       (set_activeTxnNumber (rec_txnNum (st_record s)) o)) ;;
          modP (λ p, set_hasIncompleteHistory incomplete
                       (set_activeTxnCommittedStatements committed p)) ;;
          match st with
          | None => transitionTo kExecutedRetryableWrite kRelaxTransitionValidation
          | Some dCommitted => transitionTo kCommitted kRelaxTransitionValidation
          | Some dAborted => transitionTo kAbortedWithPrepare kRelaxTransitionValidation
          | Some dPrepared | Some dInProgress => die
          end
      end
  end ;;
  modP (set_isValid true).

(** ** Writes that complete *)

(** The entries to be written and the update of the session's record. *)
Record Change := mkChange {
  ch_before : list OplogEvent;
  ch_event : OplogEvent;
  ch_stmtIds : list Z;
  ch_record : SessionTxnRecord;
  ch_history : list HistoryEntry
}.

(** The checks of [onWriteOpCompletedOnPrimary] on the statements. *)
Fixpoint checkNotRepeated (stmtIds : list Z) : M unit :=
  match stmtIds with
  | [] => mret tt
  | s :: rest =>
      r ← _checkStatementExecuted s;
      assert (bool_decide (r = None)) ;; checkNotRepeated rest
  end.

Definition onWriteOpCompletedOnPrimary (stmtIds : list Z) (r : SessionTxnRecord) : M unit :=
  inWUOW ← ctxM oc_inAWriteUnitOfWork;
  assert inWUOW ;;
  active ← obsM activeTxnNumber;
  assert (rec_txnNum r =? active) ;;
  checkNotRepeated stmtIds ;;
  external env.

(** The statements of [_registerUpdateCacheOnCommit]. *)
Fixpoint cacheStatements (stmtIds : list Z) (lastOpTime : OpTime.t) : M unit :=
  match stmtIds with
  | [] => mret tt
  | s :: rest =>
      (if s =? kIncompleteHistoryStmtId then modP (set_hasIncompleteHistory true)
       else
         stmts ← prvM activeTxnCommittedStatements;
         assert (bool_decide (stmts !! s = None)) ;;
         modP (set_activeTxnCommittedStatements (<[s := lastOpTime]> stmts))) ;;
      cacheStatements rest lastOpTime
  end.

(** The storage transaction commits: the entries and the record become durable, and the
    callback that [_registerUpdateCacheOnCommit] left runs. *)
Definition commitChange (ch : Change) : M unit :=
  modify (λ w, set_oplog (oplog w ++ ch_before ch ++ [ch_event ch])
                 (set_stored (Some (mkStored (ch_record ch) (ch_history ch))) w)) ;;
  valid ← prvM isValid;
  assert valid ;;
  modO (set_lastWriteOpTime (rec_lastWriteOpTime (ch_record ch))) ;;
  cacheStatements (ch_stmtIds ch) (rec_lastWriteOpTime (ch_record ch)) ;;
  st ← obsM txnState;
  when (isNone st) (transitionTo kExecutedRetryableWrite kValidateTransition).

(** What is written in a unit of work of its own. *)
Definition unitOfWork (m : M Change) : M unit :=
  saved ← ctxM oc_inAWriteUnitOfWork;
  modC (set_oc_inAWriteUnitOfWork true) ;;
  onBlockExit (λ w, set_opCtx (set_oc_inAWriteUnitOfWork saved (opCtx w)) w)
    (ch ← m;
     external env ;;
     commitChange ch).

Definition inUnitOfWork (ch : Change) : M unit :=
  unitOfWork (onWriteOpCompletedOnPrimary (ch_stmtIds ch) (ch_record ch) ;; mret ch).

(** [OplogSlotReserver]: the last slot reserved, which [getLastSlot] checks. *)
Definition reserveSlot : M OpTime.t :=
  external env ;;
  t ← ask (env_slot env);
  assert (negb (OpTime.isNull t)) ;;
  mret t.

(** [getNextOpTimes] for several slots: where they begin. *)
Definition reserveSlots (count : nat) : M nat :=
  external env ;;
  first ← get now;
  modify (set_now (first + count)%nat) ;;
  mret first.

(** The session's record once a transaction's entry was written. *)
Definition txnRecord (txnNumber : Z) (t : OpTime.t) (st : DurableTxnState) : SessionTxnRecord :=
  mkRecord txnNumber t (Some st).

(** ** The oplog observer *)

Definition BSONObjMaxUserSize : Z := 16 * 1024 * 1024.

(** What an element of the array takes: its type, its index as a name and the operation. *)
Definition elementSize (index : Z) (op : ReplOperation) : Z :=
  1 + Z.of_nat (String.length (pretty index)) + 1 + op_bsonSize op.

(** [packTransactionStatementsForApplyOps]: the operations that go into one entry, and the rest;
    [arrSize] operations that take [len] bytes are in it. *)
Fixpoint packTransactionStatementsForApplyOps (arrSize len : Z) (stmts : list ReplOperation)
    : list ReplOperation * list ReplOperation :=
  match stmts with
  | [] => ([], [])
  | stmt :: rest =>
      if (arrSize =? env_maxNumberOfTransactionOperationsInSingleOplogEntry env)
         || ((0 <? arrSize) && (BSONObjMaxUserSize <? len + op_size stmt))
      then ([], stmts)
      else
        let '(packed, unpacked) := packTransactionStatementsForApplyOps (arrSize + 1)
                                 (len + elementSize arrSize stmt) rest in
        (stmt :: packed, unpacked)
  end.

(** The size of the builder when the array begins: two sizes, a type and the name applyOps. *)
Definition emptyArrayLen : Z := 4 + 1 + 8 + 1 + 4.

(** The operations of each entry; every one takes an operation, so that as many rounds as there
    are operations are enough. *)
Fixpoint packEntries (fuel : nat) (stmts : list ReplOperation) : list (list ReplOperation) :=
  match fuel, stmts with
  | S fuel, _ :: _ =>
      let '(packed, rest) := packTransactionStatementsForApplyOps 0 emptyArrayLen stmts in
      packed :: packEntries fuel rest
  | _, _ => []
  end.

(** The no-op entries that keep the pre-images. *)
Definition preImageEntries (stmts : list ReplOperation) (numberOfPreImagesToWrite : Z) : list OplogEvent :=
  if 0 <? numberOfPreImagesToWrite
  then (λ _, EvNoop) <$> base.filter (λ op, op_preImageSize op ≠ 0) stmts else [].

(** [logOplogEntriesForTransaction]: the entries take the reserved slots from [first] on, but a
    prepare entry, which takes the last one.  The record is written with the first entry and
    with the last. *)
Definition logOplogEntriesForTransaction (txnNumber : Z) (stmts : list ReplOperation) (first : nat)
    (lastSlot : OpTime.t) (numberOfPreImagesToWrite : Z) (prepare : bool) : M Change :=
  assert (negb (bool_decide (length stmts = 0%nat))) ;;
  inWUOW ← ctxM oc_inAWriteUnitOfWork;
  assert inWUOW ;;
  external env ;;
  let preImages := preImageEntries stmts numberOfPreImagesToWrite in
  let entries := packEntries (length stmts) stmts in
  let slot i := env_slot env (first + length preImages + i)%nat in
  let partials := removelast entries in
  let lastOps := default [] (last entries) in
  let t := if prepare then lastSlot else slot (length partials) in
  when (negb (bool_decide (length partials = 0%nat)))
    (onWriteOpCompletedOnPrimary [] (txnRecord txnNumber (slot 0%nat) dInProgress)) ;;
  let ch := mkChange (preImages ++ imap (λ i, EvPartial txnNumber (slot i)) partials)
              (if prepare then EvPrepare txnNumber t lastOps else EvCommit txnNumber t lastOps) []
              (txnRecord txnNumber t (if prepare then dPrepared else dCommitted)) [] in
  onWriteOpCompletedOnPrimary [] (ch_record ch) ;;
  mret ch.

(** The entries of an unprepared commit; they are written in the transaction itself, and
    become durable with it. *)
Definition onUnpreparedTransactionCommit (ops : list ReplOperation) (numberOfPreImagesToWrite : Z)
    : M (option Change) :=
  n ← ctxM oc_txnNumber;
  assert (bool_decide (is_Some n)) ;;
  replicated ← ctxM oc_writesAreReplicated;
  if negb replicated || bool_decide (length ops = 0%nat) then mret None else
  first ← reserveSlots (length ops + Z.to_nat numberOfPreImagesToWrite);
  ch ← logOplogEntriesForTransaction (default 0 n) ops first OpTime.null numberOfPreImagesToWrite false;
  assert (negb (OpTime.isNull (env_slot env (first + length (packEntries (length ops) ops) - 1)%nat))) ;;
  mret (Some ch).

(** The slots begin at [first]; [t] is the last one, the prepare timestamp.  The entry of a
    transaction without operations takes the first one. *)
Definition onTransactionPrepare (first : nat) (t : OpTime.t) (ops : list ReplOperation)
    (numberOfPreImagesToWrite : Z) : M unit :=
  n ← ctxM oc_txnNumber;
  assert (bool_decide (is_Some n)) ;;
  assert (negb (OpTime.isNull t)) ;;
  replicated ← ctxM oc_writesAreReplicated;
  when replicated
    (if bool_decide (length ops = 0%nat) then
       let front := env_slot env first in
       inUnitOfWork (mkChange [] (EvPrepare (default 0 n) front []) []
                       (txnRecord (default 0 n) front dPrepared) [])
     else unitOfWork (logOplogEntriesForTransaction (default 0 n) ops first t numberOfPreImagesToWrite true)).

(** [logCommitOrAbortForPreparedTransaction]. *)
Definition logCommitOrAbort (ev : OplogEvent) (r : SessionTxnRecord) : M unit :=
  inWUOW ← ctxM oc_inAWriteUnitOfWork; timeout ← ctxM oc_maxLockTimeout;
  assert (negb inWUOW) ;;
  assert (negb timeout) ;;
  inUnitOfWork (mkChange [] ev [] r []).

Definition onPreparedTransactionCommit (t : OpTime.t) (commitTimestamp : Timestamp.t) : M unit :=
  noThrow (
    n ← ctxM oc_txnNumber;
    assert (bool_decide (is_Some n)) ;;
    replicated ← ctxM oc_writesAreReplicated;
    when replicated
      (assert (negb (Timestamp.isNull commitTimestamp)) ;;
       logCommitOrAbort (EvCommitPrepared (default 0 n) t commitTimestamp)
         (txnRecord (default 0 n) t dCommitted))).

Definition onTransactionAbort (slot : option OpTime.t) : M unit :=
  n ← ctxM oc_txnNumber;
  assert (bool_decide (is_Some n)) ;;
  replicated ← ctxM oc_writesAreReplicated;
  when replicated
    (match slot with
     | None => st ← obsM txnState; assert (negb (isCommitted st))
     | Some t =>
         logCommitOrAbort (EvAbort (default 0 n) t) (txnRecord (default 0 n) t dAborted)
     end).

(** ** Operations of a transaction *)

(** [size_t] arithmetic. *)
Definition sizeT (z : Z) : Z := z mod 2^64.

Definition addTransactionOperation (op : ReplOperation) : M unit :=
  st ← obsM txnState;
  assert (isInProgress st) ;;
  ac ← prvM autoCommit; active ← obsM activeTxnNumber;
  assert (bool_decide (ac = Some false) && negb (active =? kUninitializedTxnNumber)) ;;
  inWUOW ← ctxM oc_inAWriteUnitOfWork;
  assert inWUOW ;;
  modP (λ p,
    set_transactionOperations (transactionOperations p ++ [op])
      (set_transactionOperationBytes (sizeT (transactionOperationBytes p + op_size op)) p)) ;;
  when (negb (op_preImageSize op =? 0))
    (modP (λ p,
       set_transactionOperationBytes (sizeT (transactionOperationBytes p + op_preImageSize op))
         (set_numberOfPreImagesToWrite (sizeT (numberOfPreImagesToWrite p + 1)) p))) ;;
  bytes ← prvM transactionOperationBytes;
  uassert TransactionTooLarge (bytes <=? sizeT (env_transactionSizeLimitBytes env)).

Definition retrieveCompletedTransactionOperations : M (list ReplOperation) :=
  st ← obsM txnState;
  assert (isInSet st (Z.lor (bit kInProgress) (bit kPrepared))) ;;
  prvM transactionOperations.

(** Whether the transaction has only read so far. *)
Definition getResponseMetadata : M bool :=
  st ← obsM txnState; ops ← prvM transactionOperations;
  mret (isInSet st (bit kInProgress) && bool_decide (length ops = 0%nat)).

Definition clearOperationsInMemory : M unit :=
  st ← obsM txnState;
  assert (isInSet st (Z.lor (bit kPrepared) (bit kInProgress))) ;;
  ac ← prvM autoCommit;
  assert (bool_decide (is_Some ac)) ;;
  modP (λ p, set_transactionOperationBytes 0
               (set_transactionOperations [] (set_numberOfPreImagesToWrite 0 p))).

Definition expiredAsOf (w : World) (t : Z) : bool :=
  isInProgress (txnState (obs w)) &&
  match transactionExpireDate (obs w) with Some d => d <? t | None => false end.

(** An operation that the lock manager must not interrupt. *)
Definition uninterruptible {A} (m : M A) : M A :=
  saved ← ctxM oc_uninterruptible;
  modC (set_oc_uninterruptible true) ;;
  onBlockExit (λ w, set_opCtx (set_oc_uninterruptible saved (opCtx w)) w) m.

(** The locks that the unit of work held are released with it. *)
Definition endUnitOfWork (c : OperationContext) : OperationContext :=
  set_oc_writeUnitOfWork false (set_oc_inAWriteUnitOfWork false
    (set_oc_rstlLocked false (set_oc_locked false c))).

Definition _cleanUpTxnResourceOnOpCtx : M unit :=
  c ← get opCtx;
  when (oc_writeUnitOfWork c)
    (assert (oc_rstlLocked c || negb (ru_inActiveTxn (oc_recoveryUnit c))) ;;
     modC endUnitOfWork) ;;
  modC (λ c, set_oc_maxLockTimeout false (set_oc_recoveryUnit newRecoveryUnit c)).

(** ** Aborting *)

Definition _finishAbortingActiveTransaction (expectedStates : Z) : M unit :=
  st ← obsM txnState; n ← ctxM oc_txnNumber; active ← obsM activeTxnNumber;
  if isInSet st expectedStates then
    assert (bool_decide (n = Some active)) ;; _abortTransactionOnSession
  else if bool_decide (n = Some active) then
    if isInRetryableWriteMode st then
      wuow ← ctxM oc_writeUnitOfWork; assert (negb wuow)
    else assert (negb (isInSet st (Z.lor (bit kPrepared) (bit kCommitted))))
  else assert (isInSet st (Z.lor (Z.lor (bit kNone) (bit kAbortedWithoutPrepare))
                             (Z.lor (bit kAbortedWithPrepare) (bit kExecutedRetryableWrite)))).

Definition _abortActiveTransaction (expectedStates : Z) : M unit :=
  stash ← obsM txnResourceStash;
  assert (bool_decide (¬ is_Some stash)) ;;
  replicated ← ctxM oc_writesAreReplicated; need ← prvM needToWriteAbortEntry;
  if replicated && need then
    slot ← reserveSlot;
    _cleanUpTxnResourceOnOpCtx ;;
    noThrow (uninterruptible (
      onTransactionAbort (Some slot) ;; _finishAbortingActiveTransaction expectedStates))
  else
    _cleanUpTxnResourceOnOpCtx ;;
    onTransactionAbort None ;;
    _finishAbortingActiveTransaction expectedStates.

Definition _abortActivePreparedTransaction : M unit :=
  external env ;;
  modC (set_oc_rstlLocked true) ;;
  onBlockExit (λ w, set_opCtx (set_oc_rstlLocked false (opCtx w)) w) (
    replicated ← ctxM oc_writesAreReplicated; canAccept ← get primary;
    uassert NotWritablePrimary (negb replicated || canAccept) ;;
    _abortActiveTransaction (bit kPrepared)).

Definition abortTransaction : M unit :=
  stash ← obsM txnResourceStash; n ← ctxM oc_txnNumber; st ← obsM txnState;
  if bool_decide (is_Some stash) || bool_decide (n = None) then _abortTransactionOnSession
  else if isPrepared st then _abortActivePreparedTransaction
  else _abortActiveTransaction (bit kInProgress).

(** ** Preparing *)

Definition prepareTransaction (prepareOptime : option OpTime.t) : M Timestamp.t :=
  slot ← guarded
    (assert (bool_decide (prepareOptime = None)) ;; noThrow (uninterruptible abortTransaction))
    (ops ← retrieveCompletedTransactionOperations;
     external env ;;
     external env ;;
     transitionTo kPrepared kValidateTransition ;;
     preImages ← prvM numberOfPreImagesToWrite;
     '(first, slot) ← match prepareOptime with
            | Some t => modO (set_prepareOpTime t) ;; mret (0%nat, t)
            | None =>
                let count := Nat.max 1 (length ops + Z.to_nat preImages) in
                first ← reserveSlots count;
                let t := env_slot env (first + (count - 1))%nat in
                assert (negb (OpTime.isNull t)) ;;
                old ← obsM prepareOpTime;
                assert (OpTime.isNull old) ;;
                modO (set_prepareOpTime t) ;; mret (first, t)
            end;
     modC (λ c, set_oc_recoveryUnit
                  (mkRU (ru_inActiveTxn (oc_recoveryUnit c)) (OpTime.timestamp slot)) c) ;;
     external env ;;
     modP (set_needToWriteAbortEntry true) ;;
     onTransactionPrepare first slot ops preImages ;;
     mret slot);
  modO (set_lastWriteOpTime slot) ;;
  rstl ← ctxM oc_rstlLocked;
  assert rstl ;;
  modC (set_oc_rstlLocked false) ;;
  mret (OpTime.timestamp slot).

Definition setPrepareOpTimeForRecovery (t : OpTime.t) : M unit := modO (set_recoveryPrepareOpTime t).

(** ** Committing *)

(** The storage transaction commits with what was written in it. *)
Definition _commitStorageTransaction (written : option Change) : M unit :=
  c ← get opCtx;
  assert (oc_writeUnitOfWork c) ;;
  assert (oc_rstlLocked c) ;;
  external env ;;
  match written with Some ch => commitChange ch | None => mret tt end ;;
  modC (λ c, set_oc_maxLockTimeout false
               (set_oc_recoveryUnit newRecoveryUnit (endUnitOfWork c))).

Definition _finishCommitTransaction : M unit :=
  noThrow (transitionTo kCommitted kValidateTransition ;; _cleanUpTxnResourceOnOpCtx).

Definition performNoopWrite : M unit :=
  timeout ← ctxM oc_maxLockTimeout;
  assert (negb timeout) ;;
  external env ;;
  canAccept ← get primary;
  uassert NotWritablePrimary canAccept ;;
  external env ;;
  modify (λ w, set_oplog (oplog w ++ [EvNoop]) w).

Definition commitUnpreparedTransaction : M unit :=
  st ← obsM txnState;
  uassert InvalidOptions (negb (isPrepared st)) ;;
  ops ← retrieveCompletedTransactionOperations;
  preImages ← prvM numberOfPreImagesToWrite;
  written ← onUnpreparedTransactionCommit ops preImages;
  usedDefault ← ctxM oc_usedDefaultWriteConcern;
  clearOperationsInMemory ;;
  _commitStorageTransaction written ;;
  _finishCommitTransaction ;;
  when (bool_decide (length ops = 0%nat) && negb usedDefault) performNoopWrite.

(** The part of a prepared commit that can no longer fail. *)
Definition finishPreparedCommit (commitTimestamp : Timestamp.t)
    (commitOplogEntryOpTime : option OpTime.t) : M unit :=
  noThrow (uninterruptible (
    replicated ← ctxM oc_writesAreReplicated;
    slot ← (if (replicated : bool) then
              assert (bool_decide (commitOplogEntryOpTime = None)) ;;
              t ← reserveSlot;
              assert (negb (Timestamp.lt (OpTime.timestamp t) commitTimestamp)) ;;
              mret t
            else assert (bool_decide (is_Some commitOplogEntryOpTime)) ;; mret OpTime.null);
    last ← obsM lastWriteOpTime;
    assert (negb (OpTime.isNull last)) ;;
    _commitStorageTransaction None ;;
    retrieveCompletedTransactionOperations ;;
    onPreparedTransactionCommit slot commitTimestamp ;;
    clearOperationsInMemory ;;
    _finishCommitTransaction)).

Definition commitPreparedTransaction (commitTimestamp : Timestamp.t)
    (commitOplogEntryOpTime : option OpTime.t) : M unit :=
  st ← obsM txnState;
  uassert InvalidOptions (isPrepared st) ;;
  external env ;;
  modC (set_oc_rstlLocked true) ;;
  guarded
    (rstl ← ctxM oc_rstlLocked; assert rstl ;; modC (set_oc_rstlLocked false))
    (replicated ← ctxM oc_writesAreReplicated; canAccept ← get primary;
     uassert NotWritablePrimary (negb replicated || canAccept) ;;
     uassert InvalidOptions (negb (Timestamp.isNull commitTimestamp)) ;;
     t ← obsM prepareOpTime;
     uassert InvalidOptions (negb (Timestamp.lt commitTimestamp (OpTime.timestamp t))) ;;
     when (bool_decide (commitOplogEntryOpTime = None))
       (committed ← ask (env_lastCommitted env);
        uassert InvalidOptions
          (negb (Timestamp.lt (OpTime.timestamp committed) (OpTime.timestamp t))))) ;;
  finishPreparedCommit commitTimestamp commitOplogEntryOpTime.

Definition shutdown : M unit := modP (set_inShutdown true) ;; modO (set_txnResourceStash None).
End Env.
End TransactionParticipant.
