(* ===== verification/TransactionSession.v ===== *)
(** Requests on a session and what the server does to sessions by itself: the commands of
    src/mongo/db/commands/txn_cmds.cpp and src/mongo/db/s/txn_two_phase_commit_cmds.cpp, the
    statements of retryable writes (src/mongo/db/ops/write_ops_exec.cpp),
    invokeWithSessionCheckedOut (src/mongo/db/service_entry_point_common.cpp), the killing of
    sessions (src/mongo/db/kill_sessions_local.cpp, session_catalog_mongod.cpp) and the
    application of prepared transactions on secondaries
    (src/mongo/db/repl/transaction_oplog_application.cpp).

    A session is checked out by one operation at a time, so each of these is one step. *)
From stdpp Require Import gmap.
From S2P Require Import Prelude OpTimes TransactionState TransactionParticipant.
Import TransactionParticipant.

Module TransactionSession.
Section Env.
Context (env : Env).

(** ** Commands *)

(** [CmdCommitTxn::run]. *)
Definition commitTransaction (commitTimestamp : option Timestamp.t) : M unit :=
  st ← obsM txnState;
  if isCommitted st then external env else
  uassert NoSuchTransaction (isOpen st) ;;
  match commitTimestamp with
  | Some t => commitPreparedTransaction env t None
  | None => external env ;; commitUnpreparedTransaction env
  end.

(** [CmdAbortTxn::run]. *)
Definition abortTransactionCmd : M unit :=
  st ← obsM txnState;
  uassert NoSuchTransaction (isOpen st) ;;
  external env ;;
  abortTransaction env.

(** [PrepareTransactionCmd]. *)
Definition prepareTransactionCmd : M unit :=
  external env ;;
  st ← obsM txnState;
  uassert NoSuchTransaction (isOpen st) ;;
  if isPrepared st then
    t ← obsM prepareOpTime; c ← get opCtx;
    assert (Timestamp.eqb (ru_prepareTimestamp (oc_recoveryUnit c)) (OpTime.timestamp t))
  else prepareTransaction env None ;; mret tt.

(** Writes in a transaction: each may fail before it is added. *)
Fixpoint transactionWrites (ops : list ReplOperation) : M unit :=
  match ops with
  | [] => external env
  | op :: rest => external env ;; addTransactionOperation env op ;; transactionWrites rest
  end.

(** The statements of a batch that have not executed yet. *)
Fixpoint notExecuted (stmtIds : list Z) : M (list Z) :=
  match stmtIds with
  | [] => mret []
  | s :: rest =>
      done ← checkStatementExecutedNoOplogEntryFetch s;
      rest ← notExecuted rest;
      mret (if (done : bool) then rest else s :: rest)
  end.

(** The entries of a batch are chained to the session's last write; one with the id of a
    write that is not retryable has no link. *)
Definition historyEntry (st : Z * OpTime.t) : HistoryEntry :=
  if st.1 =? kUninitializedStmtId then HUnlinked else HStatement st.1 st.2.

Definition chained (stmts : list (Z * OpTime.t)) (last : OpTime.t) (h : list HistoryEntry)
    : list HistoryEntry :=
  (historyEntry <$> reverse stmts) ++ (if OpTime.isNull last then [] else h).

Definition slots (n : nat) (k : nat) : list OpTime.t := (λ i, env_slot env (n + i)) <$> seq 0 k.

(** The part of [OpObserverImpl::onInserts] outside a transaction, with
    [onWriteOpCompleted]. *)
Definition onInserts (stmts : list (Z * OpTime.t)) : M unit :=
  let lastOpTime := default OpTime.null (last stmts.*2) in
  if OpTime.isNull lastOpTime then mret tt else
  n ← ctxM oc_txnNumber; lastWrite ← obsM lastWriteOpTime; st ← get stored;
  inUnitOfWork env (mkChange [] (EvWrite (default 0 n) stmts) stmts.*1 (mkRecord (default 0 n) lastOpTime None)
                      (chained stmts lastWrite (from_option st_history [] st))).

(** A batch of an insert: the statements that have not executed are written in one
    unit of work. *)
Definition insertBatch (stmtIds : list Z) : M unit :=
  todo ← notExecuted stmtIds;
  if bool_decide (length todo = 0%nat) then mret tt else
  external env ;;
  canAccept ← get primary;
  uassert NotWritablePrimary canAccept ;;
  n ← get now;
  modify (set_now (n + length todo)%nat) ;;
  onInserts (zip todo (slots n (length todo))).

(** An update or a delete that changes nothing, because no document matches or the document is
    as the update would leave it: nothing is written, so the statement is not in the history. *)
Definition unchanged (s : Z) : M unit :=
  done ← checkStatementExecutedNoOplogEntryFetch s;
  when (negb done) (external env).

(** Updates and deletes: one statement after the other, each with whether it would change a
    document. *)
Fixpoint updateStatements (stmts : list (Z * bool)) : M unit :=
  match stmts with
  | [] => mret tt
  | (s, changes) :: rest => (if (changes : bool) then insertBatch [s] else unchanged s) ;; updateStatements rest
  end.

Inductive Command :=
  | Commit (commitTimestamp : option Timestamp.t)
  | Abort
  | Prepare
  | Writes (ops : list ReplOperation) (ok : bool)
  | Insert (stmtIds : list Z)
  | Update (stmts : list (Z * bool)).

Definition commandName (c : Command) : CommandName :=
  match c with
  | Commit _ => CmdCommit | Abort => CmdAbort | Prepare => CmdPrepare
  | Writes _ _ | Insert _ | Update _ => CmdOther
  end.

(** Runs a command; false when the reply carries [ok: 0]. *)
Definition runCommand (c : Command) : M bool :=
  match c with
  | Commit t => commitTransaction t ;; mret true
  | Abort => abortTransactionCmd ;; mret true
  | Prepare => prepareTransactionCmd ;; mret true
  | Writes ops ok => transactionWrites ops ;; mret ok
  | Insert stmtIds => insertBatch stmtIds ;; mret true
  | Update stmts => updateStatements stmts ;; mret true
  end.

(** ** A request *)

Record Request := mkRequest {
  rq_txnNumber : Z;
  rq_autocommit : option bool;
  rq_startTransaction : option bool;
  rq_usedDefaultWriteConcern : bool;
  rq_command : Command
}.

Inductive Reply :=
  | Replied (ok : bool)
  | Failed (e : ErrorCode)
  | BlockedOn (promise : option nat).

Definition IllegalOperation : ErrorCode := OtherCode 20.

(** What [initializeOperationSessionInfo] makes of the fields of a request with a session that
    is attached: whether the operation is in a multi-document transaction, or an error. *)
Inductive SessionInfo :=
  | Accepted (inMultiDocumentTransaction : bool)
  | Refused (e : ErrorCode)
  | InfoDies.

Definition sessionCheck (e : ErrorCode) (b : bool) (rest : SessionInfo) : SessionInfo :=
  if b then rest else Refused e.
Definition sessionAssert (b : bool) (rest : SessionInfo) : SessionInfo :=
  if b then rest else InfoDies.

Definition initializeOperationSessionInfo (sessionId : bool) (txnNumber : option Z)
    (autocommit startTransaction : option bool) (isReplSetMemberOrMongos supportsDocLocking : bool)
    : SessionInfo :=
  let startCheck (multi : bool) :=
    match startTransaction with
    | Some start =>
        sessionAssert (bool_decide (is_Some autocommit))
          (sessionCheck InvalidOptions start (Accepted multi))
    | None => Accepted multi
    end in
  let autocommitCheck :=
    match autocommit with
    | Some ac =>
        sessionAssert (bool_decide (is_Some txnNumber))
          (sessionCheck InvalidOptions (negb ac) (startCheck true))
    | None => sessionCheck InvalidOptions (bool_decide (startTransaction = None)) (startCheck false)
    end in
  let txnNumberCheck :=
    match txnNumber with
    | Some n =>
        sessionAssert sessionId
          (sessionCheck IllegalOperation isReplSetMemberOrMongos
            (sessionCheck IllegalOperation supportsDocLocking
              (sessionCheck InvalidOptions (0 <=? n) autocommitCheck)))
    | None => sessionCheck InvalidOptions (bool_decide (autocommit = None)) autocommitCheck
    end in
  if sessionId then txnNumberCheck
  else sessionCheck InvalidOptions (bool_decide (txnNumber = None)) txnNumberCheck.

(** The operation of a request; one that is given the field autocommit is in a
    multi-document transaction. *)
Definition requestCtx (r : Request) : OperationContext :=
  mkCtx (Some (rq_txnNumber r)) (bool_decide (is_Some (rq_autocommit r))) true
    (rq_usedDefaultWriteConcern r) false false false false false false newRecoveryUnit.

Definition _abortUnpreparedOrStashPreparedTransaction : M unit :=
  st ← obsM txnState;
  noThrow (if isPrepared st then stashTransactionResources env
           else when (isOpen st) (abortTransaction env)).

(** After the transaction was begun or continued: the resources are taken from the stash, the
    command runs, and they are put back. *)
Definition runUnstashed (r : Request) : M bool :=
  guarded (st ← obsM txnState; when (isInProgress st) (abortTransaction env))
    (unstashTransactionResources env (commandName (rq_command r))) ;;
  ok ← guarded _abortUnpreparedOrStashPreparedTransaction
         (ok ← runCommand (rq_command r);
          when ok (stashTransactionResources env) ;;
          mret ok);
  when (negb ok) _abortUnpreparedOrStashPreparedTransaction ;;
  mret ok.

(** The session is checked out, refreshed, and the transaction begun or continued.  When a
    prepared transaction is in the way, the session is checked in again and the request
    waits for the promise of its end; it then starts over. *)
Definition invokeWithSessionCheckedOut (r : Request) : M Reply := λ w,
  match refreshFromStorageIfNeeded env (set_opCtx (requestCtx r) w) with
  | Die => Die
  | Throw e w => Ret (Failed e) w
  | Ret _ w =>
      match beginOrContinue env (rq_txnNumber r) (rq_autocommit r) (rq_startTransaction r) w with
      | Die => Die
      | Throw PreparedTransactionInProgress w => (p ← onExitPrepare; mret (BlockedOn p)) w
      | Throw e w => Ret (Failed e) w
      | Ret _ w =>
          match runUnstashed r w with
          | Die => Die
          | Throw e w => Ret (Failed e) w
          | Ret ok w => Ret (Replied ok) w
          end
      end
  end.

(** ** What the server does by itself *)

(** The operation of a thread of the server that has no session. *)
Definition killerCtx : OperationContext := noOpCtx.

(** [killSessionsAbortUnpreparedTransactions] on one session. *)
Definition killSession : M unit :=
  modify (set_opCtx killerCtx) ;;
  st ← obsM txnState;
  when (isInProgress st) (abortTransaction env).

(** [invalidateSessionsForStepdown] on one session. *)
Definition invalidateSession : M unit :=
  modify (set_opCtx killerCtx) ;;
  st ← obsM txnState;
  when (negb (isPrepared st)) invalidate.

(** [killSessionTokens] on one session, by a thread of a pool, which an exception terminates. *)
Definition killSessionToken : M unit :=
  modify (set_opCtx killerCtx) ;;
  noThrow invalidate.

(** [observeDirectWriteToConfigTransactions], and the dropping of config.transactions
    ([onDropCollection]): refused while the session's transaction is prepared, else the session
    is killed when the write has committed or was rolled back.  The check does not check the
    session out: this is the write that finds no request in the middle of the session, whose
    transaction could be prepared before the session is killed. *)
Definition observeDirectWrite : M unit :=
  st ← obsM txnState;
  uassert PreparedTransactionInProgress (negb (isPrepared st)) ;;
  killSessionToken.

(** [yieldLocksForPreparedTransactions] on one session, and the restoring of the locks when
    the node steps up. *)
Definition refreshLocks (yieldLocks : bool) : M unit :=
  modify (set_opCtx killerCtx) ;;
  st ← obsM txnState;
  when (isPrepared st) (refreshLocksForPreparedTransaction env yieldLocks).

(** [killSessionsAbortAllPreparedTransactions] on one session. *)
Definition abortPreparedForRollback : M unit :=
  modify (set_opCtx killerCtx) ;;
  st ← obsM txnState;
  when (isPrepared st) (abortTransaction env ;; invalidate).

(** Stepping down: what is in progress is aborted, prepared transactions yield their locks and
    the other sessions are invalidated. *)
Definition stepDown : M unit :=
  killSession ;; refreshLocks true ;; invalidateSession ;; modify (set_primary false).

(** The operation that applies an entry of a transaction on a secondary. *)
Definition applierCtx (txnNumber : Z) : OperationContext :=
  mkCtx (Some txnNumber) true false true false false false false false false newRecoveryUnit.

(** The operation that aborts what was in progress when the node steps up; it is not
    interrupted and waits for its locks. *)
Definition stepUpCtx (txnNumber : Z) : OperationContext :=
  mkCtx (Some txnNumber) true true true false false false false false true newRecoveryUnit.

(** [MongoDOperationContextSessionWithoutRefresh] around what an operation does. *)
Definition withSession {A} (c : Z → OperationContext) (txnNumber : Z) (m : M A) : M A :=
  modify (set_opCtx (c txnNumber)) ;;
  beginOrContinueTransactionUnconditionally env txnNumber ;;
  r ← m;
  st ← obsM txnState;
  assert (negb (isInProgress st)) ;;
  mret r.

(** [abortInProgressTransactions] on one session: a transaction that the record says is in
    progress, of which only the first entries were replicated. *)
Definition abortInProgressTransactions : M unit :=
  record ← get stored;
  match record with
  | Some s =>
      when (bool_decide (rec_state (st_record s) = Some dInProgress))
        (withSession stepUpCtx (rec_txnNum (st_record s)) (abortTransaction env))
  | None => mret tt
  end.

(** [MongoDSessionCatalog::onStepUp]. *)
Definition stepUp : M unit :=
  modify (set_opCtx killerCtx) ;;
  st ← obsM txnState;
  when (negb (isOpen st)) killSessionToken ;;
  refreshLocks false ;;
  abortInProgressTransactions ;;
  modify (set_primary true).

(** [_applyPrepareTransaction]; the operations change the storage only. *)
Definition applyPrepareTransaction (txnNumber : Z) (t : OpTime.t) : M unit :=
  withSession applierCtx txnNumber (
    guarded (abortTransaction env ;; invalidate)
      (unstashTransactionResources env CmdPrepare ;;
       external env ;;
       prepareTransaction env (Some t)) ;;
    stashTransactionResources env).

(** [applyCommitTransaction]. *)
Definition applyCommitTransaction (txnNumber : Z) (commitTimestamp : Timestamp.t) (t : OpTime.t)
    : M unit :=
  withSession applierCtx txnNumber (
    unstashTransactionResources env CmdCommit ;;
    commitPreparedTransaction env commitTimestamp (Some t)).

(** [applyAbortTransaction]. *)
Definition applyAbortTransaction (txnNumber : Z) : M unit :=
  withSession applierCtx txnNumber (
    unstashTransactionResources env CmdAbort ;;
    abortTransaction env).
End Env.
End TransactionSession.
