(* ===== verification/TransactionInv.v ===== *)
(** The invariant of a session: what relates the state machine, the stashed resources, the
    promises, the cache of executed statements and the session's durable record; and the
    weakest preconditions its preservation is proved with. *)
From stdpp Require Import gmap.
From S2P Require Import Prelude OpTimes TransactionState TransactionParticipant TransactionSession.
Import TransactionParticipant TransactionSession.

(** ** Weakest preconditions *)

Definition wp {A} (m : M A) (Q : A → World → Prop) (E : ErrorCode → World → Prop) (w : World)
    : Prop :=
  match m w with Ret x w => Q x w | Throw e w => E e w | Die => False end.

Section Rules.
Context {A B : Type}.
Implicit Types (m : M A) (Q : A → World → Prop) (E : ErrorCode → World → Prop).

Lemma wp_bind m (f : A → M B) (R : B → World → Prop) E w :
  wp m (λ x, wp (f x) R E) E w → wp (m ≫= f) R E w.
Proof. unfold wp, mbind, M_bind. by destruct (m w). Qed.

Lemma wp_mono m Q Q' E E' w :
  wp m Q E w → (∀ x w, Q x w → Q' x w) → (∀ e w, E e w → E' e w) → wp m Q' E' w.
Proof. unfold wp. destruct (m w); auto. Qed.

Lemma wp_guarded m (g : M unit) Q E w :
  wp m Q (λ e, wp g (λ _, E e) (λ _ _, False)) w → wp (guarded g m) Q E w.
Proof. unfold wp, guarded. destruct (m w) as [|e w'|]; [done| |done]. by destruct (g w'). Qed.

Lemma wp_noThrow m Q E w : wp m Q (λ _ _, False) w → wp (noThrow m) Q E w.
Proof. unfold wp, noThrow. by destruct (m w). Qed.

Lemma wp_onBlockExit m f Q E w :
  wp m (λ x w, Q x (f w)) (λ e w, E e (f w)) w → wp (onBlockExit f m) Q E w.
Proof. unfold wp, onBlockExit. by destruct (m w). Qed.

Lemma wp_ret (x : A) Q E w : Q x w → wp (mret x) Q E w.
Proof. done. Qed.
End Rules.

Lemma wp_when (b : bool) (m : M unit) Q E w :
  (b = true → wp m Q E w) → (b = false → Q tt w) → wp (when b m) Q E w.
Proof. destruct b; simpl; intros H1 H2; [by apply H1|by apply H2]. Qed.

Lemma wp_assert b Q E w : b = true → Q tt w → wp (assert b) Q E w.
Proof. by intros ->. Qed.

Lemma wp_get {A} (f : World → A) Q E w : Q (f w) w → wp (get f) Q E w.
Proof. done. Qed.

Lemma wp_modify f Q E w : Q tt (f w) → wp (modify f) Q E w.
Proof. done. Qed.

Lemma wp_ask {A} (f : nat → A) Q E w : Q (f (now w)) (set_now (S (now w)) w) → wp (ask f) Q E w.
Proof. done. Qed.

Lemma wp_throw {A} e (Q : A → World → Prop) E w : E e w → wp (throw e) Q E w.
Proof. done. Qed.

Lemma wp_uassert e b Q E w :
  (b = true → Q tt w) → (b = false → E e w) → wp (uassert e b) Q E w.
Proof. destruct b; simpl; [intros H _; by apply H|intros _ H; by apply H]. Qed.

(** Takes a world apart. *)
Ltac dest_world w :=
  let stash := fresh "stash" in let s := fresh "s" in let pr := fresh "pr" in
  let act := fresh "act" in let lwo := fresh "lwo" in let ex := fresh "ex" in
  let po := fresh "po" in let rpo := fresh "rpo" in
  let va := fresh "va" in let sh := fresh "sh" in let ops := fresh "ops" in
  let by_ := fresh "bytes" in let pre := fresh "pre" in let ac := fresh "ac" in
  let inc := fresh "inc" in let com := fresh "com" in let need := fresh "need" in
  let c := fresh "c" in let prim := fresh "prim" in let nw := fresh "nw" in
  let prom := fresh "prom" in let ful := fresh "ful" in let ol := fresh "ol" in
  let sto := fresh "sto" in
  destruct w as [[stash s pr act lwo ex po rpo] [va sh ops by_ pre ac inc com need] c prim nw prom ful
                 ol sto]; simpl in *.

(** ** The durable state *)

(** Whether the number of a transaction that was aborted on record may be used again: a shard
    that stepped up and aborted what it had only the first entries of allows it. *)
Class Reuse := reuse : Prop.

Section Invariant.
Context {R : Reuse}.

(** The statements that the oplog says were executed under a transaction number. *)
Definition executed (n : Z) (ol : list OplogEvent) : list Z :=
  ol ≫= λ e, match e with EvWrite m stmts => if m =? n then stmts.*1 else [] | _ => [] end.

(** The statements of a history, up to where it ends. *)
Fixpoint statementsOf (h : list HistoryEntry) : list Z :=
  match h with
  | [] | HTruncated :: _ | HApplyOps :: _ | HUnlinked :: _ => []
  | HDeadEnd :: h => statementsOf h
  | HStatement s _ :: h => s :: statementsOf h
  end.

(** Nothing is missing from a history. *)
Fixpoint complete (h : list HistoryEntry) : bool :=
  match h with
  | [] => true
  | HStatement _ _ :: h => complete h
  | _ => false
  end.

(** A durable record a session can be refreshed from. *)
Record StoredOk (s : Stored) : Prop := {
  so_txnNum : 0 <= rec_txnNum (st_record s);
  so_last : OpTime.isNull (rec_lastWriteOpTime (st_record s)) = false;
  so_nodup : rec_state (st_record s) = None → NoDup (statementsOf (st_history s));
  so_linked : rec_state (st_record s) = None → HUnlinked ∉ st_history s;
  so_sentinel : rec_state (st_record s) = None →
    kIncompleteHistoryStmtId ∉ statementsOf (st_history s)
}.

(** The entry ends the transaction with the given number. *)
Definition ends (n : Z) (e : OplogEvent) : bool :=
  match e with
  | EvCommit m _ _ | EvCommitPrepared m _ _ | EvAbort m _ => m =? n
  | _ => false
  end.

Definition endings (n : Z) (ol : list OplogEvent) : list OplogEvent := base.filter (λ e, ends n e = true) ol.

(** The entry commits a transaction. *)
Definition commits (e : OplogEvent) : bool :=
  match e with EvCommit _ _ _ | EvCommitPrepared _ _ _ => true | _ => false end.

(** The record says that the transaction with the given number has committed, or is newer. *)
Definition recordCommitted (n : Z) (st : option Stored) : Prop :=
  ∃ s, st = Some s ∧
    (n < rec_txnNum (st_record s) ∨
     (rec_txnNum (st_record s) = n ∧ rec_state (st_record s) = Some dCommitted)).

(** The record says that the transaction has ended. *)
Definition recordEnded (n : Z) (st : option Stored) : Prop :=
  ∃ s, st = Some s ∧
    (n < rec_txnNum (st_record s) ∨
     (rec_txnNum (st_record s) = n ∧
      (rec_state (st_record s) = Some dCommitted ∨ rec_state (st_record s) = Some dAborted))).

(** Nothing ends a transaction after it has committed. *)
Definition final (l : list OplogEvent) : Prop :=
  ∀ before e behind, l = before ++ e :: behind → commits e = true → behind = [].

(** The oplog and the session's record agree on what was executed, and on the transactions
    that have committed, which is the end of them; so are aborts when no number is used again. *)
Record DurableOk (ol : list OplogEvent) (st : option Stored) : Prop := {
  d_stored : ∀ s, st = Some s → StoredOk s;
  d_once : ∀ n, NoDup (executed n ol);
  d_last : ∀ n, executed n ol ≠ [] → ∃ s, st = Some s ∧ n <= rec_txnNum (st_record s);
  d_txn : ∀ s, st = Some s → rec_state (st_record s) ≠ None →
    executed (rec_txnNum (st_record s)) ol = [];
  d_history : ∀ s, st = Some s → rec_state (st_record s) = None →
    complete (st_history s) = true →
    executed (rec_txnNum (st_record s)) ol ⊆ statementsOf (st_history s);
  d_committed : ∀ n e, e ∈ endings n ol → commits e = true → recordCommitted n st;
  d_final : ∀ n, final (endings n ol);
  d_ended : ¬ reuse → ∀ n, endings n ol ≠ [] → recordEnded n st;
  d_endedOnce : ¬ reuse → ∀ n, (length (endings n ol) <= 1)%nat
}.

(** The record is older than a transaction with the given number, or its own and does not say
    that it has ended, unless its number is used again. *)
Definition ownRecord (n : Z) (st : option Stored) : Prop :=
  ∀ s, st = Some s →
    rec_txnNum (st_record s) < n ∨
    (rec_txnNum (st_record s) = n ∧
     ∃ d, rec_state (st_record s) = Some d ∧ d ≠ dCommitted ∧ (d = dAborted → reuse)).

Definition notNewer (n : Z) (st : option Stored) : Prop :=
  ∀ s, st = Some s → rec_txnNum (st_record s) <= n.

(** The entry is one of a transaction, and the record's state the one that goes with it. *)
Definition txnEntry (ev : OplogEvent) (n : Z) (d : DurableTxnState) : Prop :=
  match ev with
  | EvWrite _ _ => False
  | EvCommit m _ _ | EvCommitPrepared m _ _ => m = n ∧ d = dCommitted
  | EvAbort m _ => m = n ∧ d = dAborted
  | EvPrepare _ _ _ | EvPartial _ _ _ | EvNoop => True
  end.

(** The entry neither executes a statement nor ends a transaction. *)
Definition quiet (e : OplogEvent) : bool :=
  match e with EvPrepare _ _ _ | EvPartial _ _ _ | EvNoop => true | _ => false end.

Lemma executed_app n ol ol' : executed n (ol ++ ol') = executed n ol ++ executed n ol'.
Proof. apply bind_app. Qed.

Lemma executed_other n ol e :
  (∀ m stmts, e ≠ EvWrite m stmts) → executed n (ol ++ [e]) = executed n ol.
Proof.
  intros He. rewrite executed_app. unfold executed at 2.
  destruct e; simpl; [by destruct (He txnNumber stmts)|by rewrite app_nil_r..].
Qed.

Lemma ownRecord_executed n ol st : DurableOk ol st → ownRecord n st → executed n ol = [].
Proof.
  intros Hd Ho. destruct (executed n ol) eqn:He; [done|exfalso].
  destruct (d_last _ _ Hd n) as (s & -> & Hle); [by rewrite He|].
  destruct (Ho s eq_refl) as [Hlt|[Heq (d & Hst & _ & _)]]; [lia|].
  pose proof (d_txn _ _ Hd s eq_refl) as Hx. rewrite Hst in Hx. specialize (Hx ltac:(done)). congruence.
Qed.

Lemma endings_app n ol ol' : endings n (ol ++ ol') = endings n ol ++ endings n ol'.
Proof. apply filter_app. Qed.

Lemma endings_other n ol e : ends n e = false → endings n (ol ++ [e]) = endings n ol.
Proof. intros He. rewrite endings_app. unfold endings at 2. by rewrite filter_cons_False, filter_nil, app_nil_r by by rewrite He. Qed.

Lemma endings_same n ol e : ends n e = true → endings n (ol ++ [e]) = endings n ol ++ [e].
Proof. intros He. rewrite endings_app. unfold endings at 2. by rewrite filter_cons_True, filter_nil. Qed.

Lemma quiet_executed n ol evs : Forall (λ e, quiet e = true) evs → executed n (ol ++ evs) = executed n ol.
Proof.
  intros Hq. rewrite executed_app. cut (executed n evs = []); [by intros ->; rewrite app_nil_r|].
  induction Hq as [|e evs He _ IH]; [done|]. unfold executed in *. rewrite bind_cons, IH. by destruct e.
Qed.

Lemma quiet_endings n ol evs : Forall (λ e, quiet e = true) evs → endings n (ol ++ evs) = endings n ol.
Proof.
  intros Hq. rewrite endings_app. cut (endings n evs = []); [by intros ->; rewrite app_nil_r|].
  induction Hq as [|e evs He _ IH]; [done|]. unfold endings in *.
  rewrite filter_cons_False; [done|]. by destruct e.
Qed.

Lemma final_snoc l e : final l → (∀ x, x ∈ l → commits x = false) → final (l ++ [e]).
Proof.
  intros Hl Hn before x behind Heq Hx. destruct behind as [|y behind _] using rev_ind; [done|exfalso].
  rewrite app_comm_cons, app_assoc in Heq. apply app_inj_tail in Heq as [-> _].
  by rewrite (Hn x) in Hx by set_solver.
Qed.

(** Nor has one that was aborted, if its number is not used again. *)
Lemma recordEnded_own n st : ¬ reuse → recordEnded n st → ownRecord n st → False.
Proof.
  intros Hr (s & -> & Hs) Ho.
  destruct (Ho s eq_refl) as [?|[? (d & Hp & Hd & Ha)]]; destruct Hs as [?|[? [?|?]]]; try lia; naive_solver congruence.
Qed.

(** A committed transaction has no record of its own that is open. *)
Lemma recordCommitted_newer n m st : recordCommitted m st → ownRecord n st → m < n.
Proof.
  intros (s & -> & Hs) Ho. destruct (Ho s eq_refl) as [?|[? (d & Hp & Hd & _)]]; destruct Hs as [?|[? ?]]; try lia; congruence.
Qed.

Lemma txnEntry_write ev n d : txnEntry ev n d → ∀ m stmts, ev ≠ EvWrite m stmts.
Proof. by destruct ev. Qed.

Lemma txnEntry_ends ev n d m :
  txnEntry ev n d → ends m ev = true → m = n ∧ (d = dCommitted ∨ d = dAborted).
Proof. destruct ev; simpl; try done; intros [-> ->] ->%Z.eqb_eq; auto. Qed.

(** The entry and the record of a transaction. *)
Lemma DurableOk_txn ol st n t d e :
  DurableOk ol st → ownRecord n st → 0 <= n → OpTime.isNull t = false →
  txnEntry e n d →
  DurableOk (ol ++ [e]) (Some (mkStored (txnRecord n t d) [])).
Proof.
  intros Hd Ho Hn Ht Hev. pose proof (txnEntry_write e n d Hev) as He.
  pose proof (ownRecord_executed n ol st Hd Ho) as Hnone.
  assert (Hold : ∀ m x, x ∈ endings m ol → commits x = true → m < n).
  { intros m x Hx Hc. apply (recordCommitted_newer n m st); [by apply (d_committed _ _ Hd m x)|done]. }
  split.
  - intros s [= <-]. split; simpl; try done; congruence.
  - intros m. rewrite executed_other by done. apply (d_once _ _ Hd).
  - intros m. rewrite executed_other by done. intros Hm. eexists. split; [done|]. simpl.
    destruct (d_last _ _ Hd m Hm) as (s & -> & Hle). destruct (Ho s eq_refl) as [?|[? _]]; lia.
  - intros s [= <-] _. simpl. by rewrite executed_other.
  - by intros s [= <-].
  - intros m x Hx Hc. eexists. split; [done|]. simpl. destruct (ends m e) eqn:Hme.
    + rewrite endings_same in Hx by done. apply elem_of_app in Hx as [Hx|Hx%list_elem_of_singleton]; [|subst x].
      * left. by apply (Hold m x).
      * right. destruct (txnEntry_ends e n d m Hev Hme) as [-> [-> | ->]]; [done|]. by destruct e; simpl in Hev; naive_solver.
    + rewrite endings_other in Hx by done. left. by apply (Hold m x).
  - intros m. destruct (ends m e) eqn:Hme; [|rewrite endings_other by done; apply (d_final _ _ Hd)].
    rewrite endings_same by done. apply final_snoc; [apply (d_final _ _ Hd)|].
    intros x Hx. destruct (commits x) eqn:Hc; [exfalso|done].
    destruct (txnEntry_ends e n d m Hev Hme) as [-> _]. specialize (Hold n x Hx Hc). lia.
  - intros Hr m Hm. eexists. split; [done|]. simpl. destruct (ends m e) eqn:Hme.
    + right. destruct (txnEntry_ends e n d m Hev Hme) as [-> [-> | ->]]; auto.
    + rewrite endings_other in Hm by done. left. destruct (d_ended _ _ Hd Hr m Hm) as (s & Hs & Hrec).
      destruct (Ho s Hs) as [?|[? (d' & Hp & Hd' & Ha)]]; destruct Hrec as [?|[? [?|?]]]; try lia; exfalso; naive_solver congruence.
  - intros Hr m. destruct (ends m e) eqn:Hme; [|rewrite endings_other by done; by apply (d_endedOnce _ _ Hd)].
    rewrite endings_same, length_app by done. simpl. destruct (endings m ol) eqn:Hol; [simpl; lia|exfalso].
    destruct (txnEntry_ends e n d m Hev Hme) as [-> _].
    apply (recordEnded_own n st Hr); [|done]. apply (d_ended _ _ Hd Hr). by rewrite Hol.
Qed.

Lemma DurableOk_quiet ol st evs :
  DurableOk ol st → Forall (λ e, quiet e = true) evs → DurableOk (ol ++ evs) st.
Proof.
  intros [] Hq. split; intros *; rewrite ?quiet_executed, ?quiet_endings by done; eauto.
  all: intros Hr m; rewrite quiet_endings by done; auto.
Qed.

Lemma DurableOk_noop ol st : DurableOk ol st → DurableOk (ol ++ [EvNoop]) st.
Proof. intros Hd. apply DurableOk_quiet; [done|by repeat constructor]. Qed.

(** ** The invariant *)

(** A prepared transaction, and only that, has a promise that is not kept. *)
Record PromiseOk (w : World) : Prop := {
  po_prepared : txnState (obs w) = kPrepared ↔ is_Some (exitPreparePromise (obs w));
  po_current : ∀ k, exitPreparePromise (obs w) = Some k ↔ (k < promises w)%nat ∧ k ∉ fulfilled w;
  po_made : ∀ k, k ∈ fulfilled w → (k < promises w)%nat
}.

(** What the state says of the participant's other fields. *)
Definition StateOk (o : ObservableState) (p : PrivateState) : Prop :=
  match txnState o with
  | kNone | kExecutedRetryableWrite => autoCommit p = None
  | kInProgress =>
      autoCommit p = Some false ∧ OpTime.isNull (prepareOpTime o) = true ∧
      isValid p = true ∧ 0 <= activeTxnNumber o
  | kPrepared =>
      autoCommit p = Some false ∧ OpTime.isNull (prepareOpTime o) = false ∧
      OpTime.isNull (lastWriteOpTime o) = false ∧ needToWriteAbortEntry p = true ∧
      isValid p = true ∧ 0 <= activeTxnNumber o
  | _ => True
  end.

(** The resources stashed between the operations of an open transaction. *)
Definition StashOk (o : ObservableState) : Prop :=
  match txnResourceStash o with
  | None => True
  | Some r =>
      tr_locked r = true ∧
      match txnState o with
      | kInProgress => tr_rstlLocked r = true
      | kPrepared =>
          tr_rstlLocked r = false ∧
          ru_prepareTimestamp (tr_recoveryUnit r) = OpTime.timestamp (prepareOpTime o)
      | _ => False
      end
  end.

(** On a primary the session's record is not newer than its active transaction, and once a
    retryable write was executed the cache knows the statements of the history. *)
Definition CacheOk (w : World) : Prop :=
  let o := obs w in let p := prv w in
  match txnState o with
  | kNone =>
      activeTxnCommittedStatements p = ∅ ∧ hasIncompleteHistory p = false ∧
      OpTime.isNull (lastWriteOpTime o) = true ∧ ownRecord (activeTxnNumber o) (stored w)
  | kInProgress | kAbortedWithoutPrepare => ownRecord (activeTxnNumber o) (stored w)
  | kExecutedRetryableWrite =>
      0 <= activeTxnNumber o ∧ OpTime.isNull (lastWriteOpTime o) = false ∧
      ∃ s, stored w = Some s ∧ rec_txnNum (st_record s) = activeTxnNumber o ∧
        rec_state (st_record s) = None ∧
        (∀ k, is_Some (activeTxnCommittedStatements p !! k) ↔ k ∈ statementsOf (st_history s)) ∧
        (hasIncompleteHistory p = false → ∀ k, k ∈ executed (activeTxnNumber o) (oplog w) →
           is_Some (activeTxnCommittedStatements p !! k))
  | kPrepared | kCommitted | kAbortedWithPrepare =>
      notNewer (activeTxnNumber o) (stored w)
  end.

(** The record of a prepared transaction. *)
Definition preparedRecord (w : World) : Prop :=
  txnState (obs w) = kPrepared →
  ∃ s, stored w = Some s ∧ rec_txnNum (st_record s) = activeTxnNumber (obs w) ∧
    rec_state (st_record s) = Some dPrepared.

(** A session that was not refreshed since it was invalidated. *)
Record Invalid (w : World) : Prop := {
  inv_state : txnState (obs w) = kNone;
  inv_active : activeTxnNumber (obs w) = kUninitializedTxnNumber;
  inv_last : OpTime.isNull (lastWriteOpTime (obs w)) = true;
  inv_statements : activeTxnCommittedStatements (prv w) = ∅;
  inv_incomplete : hasIncompleteHistory (prv w) = false
}.

(** No transaction is on record of which only the first entries are there. *)
Definition notInProgress (st : option Stored) : Prop :=
  ∀ s, st = Some s → rec_state (st_record s) ≠ Some dInProgress.

Record Core (w : World) : Prop := {
  c_promise : PromiseOk w;
  c_state : StateOk (obs w) (prv w);
  c_stash : StashOk (obs w);
  c_durable : DurableOk (oplog w) (stored w);
  c_cache : primary w = true → isValid (prv w) = true → CacheOk w;
  c_closed : ∀ s, stored w = Some s → rec_state (st_record s) = Some dPrepared →
    txnState (obs w) = kPrepared;
  c_prepared : primary w = true → preparedRecord w;
  c_settled : primary w = true → notInProgress (stored w);
  c_invalid : isValid (prv w) = false → Invalid w;
  c_running : inShutdown (prv w) = false
}.

(** Between operations an open transaction has its resources stashed. *)
Record Idle (w : World) : Prop := {
  i_core : Core w;
  i_stash : isOpen (txnState (obs w)) = true → is_Some (txnResourceStash (obs w));
  i_entry : txnState (obs w) = kInProgress → needToWriteAbortEntry (prv w) = false;
  i_primary : txnState (obs w) = kInProgress → primary w = true;
  i_prepared : preparedRecord w
}.

Lemma Core_prepared_own w :
  Core w → preparedRecord w → txnState (obs w) = kPrepared →
  ownRecord (activeTxnNumber (obs w)) (stored w).
Proof.
  intros Hc Hp Hst s Hs. destruct (Hp Hst) as (s' & Hs' & Hn & Hr).
  rewrite Hs in Hs'. injection Hs' as <-. right. split; [done|]. by exists dPrepared.
Qed.

(** ** Ending a transaction *)

(** What [_resetTransactionState] leaves. *)
Definition ended (st : StateFlag) (w : World) : World :=
  let o := obs w in let p := prv w in
  set_fulfilled (match exitPreparePromise o with Some k => {[k]} ∪ fulfilled w | None => fulfilled w end)
    (set_obs (mkObs None st None (activeTxnNumber o) (lastWriteOpTime o)
                (transactionExpireDate o) OpTime.null OpTime.null)
      (set_prv (mkPrv (isValid p) (inShutdown p) [] 0 (numberOfPreImagesToWrite p) None
                  (hasIncompleteHistory p) (activeTxnCommittedStatements p) false) w)).

(** Leaving the prepared state keeps its promise. *)
Lemma PromiseOk_exit w o ful :
  PromiseOk w → txnState o ≠ kPrepared → exitPreparePromise o = None →
  ful = match exitPreparePromise (obs w) with Some k => {[k]} ∪ fulfilled w | None => fulfilled w end →
  PromiseOk (set_fulfilled ful (set_obs o w)).
Proof.
  intros [Hp Hc Hm] Hs Hn ->. split; simpl.
  - rewrite Hn. split; [done|by intros []].
  - intros k. rewrite Hn. split; [done|]. intros [Hk Hf].
    destruct (exitPreparePromise (obs w)) as [j|].
    + destruct (decide (k = j)) as [->|Hne]; [set_solver|].
      assert (Some j = Some k) by (apply Hc; set_solver). congruence.
    + by apply Hc.
  - intros k. destruct (exitPreparePromise (obs w)) as [j|]; [|by apply Hm].
    intros [->%elem_of_singleton|?]%elem_of_union; [by apply Hc|by apply Hm].
Qed.

(** Entering the prepared state makes one. *)
Lemma PromiseOk_enter w o :
  PromiseOk w → txnState (obs w) ≠ kPrepared → txnState o = kPrepared →
  exitPreparePromise o = Some (promises w) →
  PromiseOk (set_promises (S (promises w)) (set_obs o w)).
Proof.
  intros [Hp Hc Hm] Hs Ho Hn.
  assert (exitPreparePromise (obs w) = None) as Hnone.
  { destruct (exitPreparePromise (obs w)); [|done]. destruct Hs. apply Hp; eauto. }
  split; simpl; rewrite ?Ho, ?Hn.
  - naive_solver.
  - intros k. split.
    + intros [= <-]. split; [lia|]. intros Hf%Hm. lia.
    + intros [Hk Hf]. destruct (decide (k = promises w)) as [->|Hne]; [done|].
      assert (exitPreparePromise (obs w) = Some k) by (apply Hc; split; [lia|done]). congruence.
  - intros k Hk%Hm. lia.
Qed.

Lemma resetTransactionState_run w st :
  PromiseOk w → st ≠ kPrepared →
  isLegalTransition (txnState (obs w)) st || (isPrepared (txnState (obs w)) && bool_decide (st = kNone)) = true →
  _resetTransactionState st w = Ret tt (ended st w).
Proof.
  intros [Hp _ _] Hst Hl. unfold _resetTransactionState, transitionTo, ended. dest_world w.
  destruct pr as [k|].
  - assert (s = kPrepared) as -> by (apply Hp; eauto). by destruct st.
  - destruct s, st; try done; exfalso; by destruct (proj1 Hp eq_refl).
Qed.

Lemma ended_PromiseOk w st : PromiseOk w → st ≠ kPrepared → PromiseOk (ended st w).
Proof.
  intros Hp Hst. unfold ended.
  by apply (PromiseOk_exit (set_prv _ w)); [destruct Hp; split|..].
Qed.

Lemma abortOnSession_run w :
  PromiseOk w → isOpen (txnState (obs w)) = true →
  _abortTransactionOnSession w =
    Ret tt (ended (if isPrepared (txnState (obs w)) then kAbortedWithPrepare
                   else kAbortedWithoutPrepare) w).
Proof.
  intros Hp Ho. unfold _abortTransactionOnSession, obsM, get, mbind, M_bind.
  apply resetTransactionState_run; [done|by case_match|].
  by destruct (txnState (obs w)).
Qed.

(** The invariant but for what the state says: what aborting needs. *)
Record Core0 (w : World) : Prop := {
  c0_promise : PromiseOk w;
  c0_durable : DurableOk (oplog w) (stored w);
  c0_running : inShutdown (prv w) = false;
  c0_valid : isValid (prv w) = true;
  c0_notNewer : primary w = true → notNewer (activeTxnNumber (obs w)) (stored w);
  c0_settled : primary w = true → notInProgress (stored w)
}.

(** No prepared transaction is on record. *)
Definition notPrepared (st : option Stored) : Prop :=
  ∀ s, st = Some s → rec_state (st_record s) ≠ Some dPrepared.

Lemma Core_notPrepared w : Core w → txnState (obs w) ≠ kPrepared → notPrepared (stored w).
Proof. intros Hc Hs s Hst Hr. by apply Hs, (c_closed w Hc s). Qed.

Lemma Core_open_valid w : Core w → isOpen (txnState (obs w)) = true → isValid (prv w) = true.
Proof.
  intros Hc Ho. pose proof (c_state w Hc) as Hs. unfold StateOk in Hs.
  destruct (txnState (obs w)); try done; naive_solver.
Qed.

Lemma Core_open_own w :
  Core w → isOpen (txnState (obs w)) = true → primary w = true →
  ownRecord (activeTxnNumber (obs w)) (stored w).
Proof.
  intros Hc Ho Hp. pose proof (c_cache w Hc Hp (Core_open_valid w Hc Ho)) as Hca.
  unfold CacheOk in Hca. destruct (txnState (obs w)) eqn:Hs; try done.
  apply Core_prepared_own; [done|by apply (c_prepared w Hc)|done].
Qed.

Lemma ownRecord_notNewer n st : ownRecord n st → notNewer n st.
Proof. intros Ho s Hs. destruct (Ho s Hs) as [?|[? _]]; lia. Qed.

Lemma Core_Core0 w : Core w → isOpen (txnState (obs w)) = true → Core0 w.
Proof.
  intros Hc Ho. split; try apply Hc; [by apply Core_open_valid|].
  intros Hp. by apply ownRecord_notNewer, Core_open_own.
Qed.

(** The state after an abort. *)
Lemma aborted_Core w st :
  Core0 w → notPrepared (stored w) →
  st = kAbortedWithPrepare ∨
    (st = kAbortedWithoutPrepare ∧ (primary w = true → ownRecord (activeTxnNumber (obs w)) (stored w))) →
  Core (ended st w).
Proof.
  intros [Hp Hd Hr Hv Ho Hse] Hn Hst.
  pose proof (ended_PromiseOk w st Hp ltac:(naive_solver)) as Hp'.
  split; try done.
  - by destruct Hst as [-> |[-> _]].
  - intros Hprim _. specialize (Ho Hprim). unfold CacheOk. simpl.
    destruct Hst as [-> |[-> Hown]]; simpl; auto.
  - intros s Hs Hx. by destruct (Hn s).
  - intros _ Hx. simpl in Hx. by destruct Hst as [-> |[-> _]].
  - simpl. congruence.
Qed.

(** ** Beginning a transaction *)

(** What beginning leaves alone. *)
Definition sameRest (w w' : World) : Prop :=
  opCtx w' = opCtx w ∧ primary w' = primary w ∧ isValid (prv w') = isValid (prv w) ∧
  stored w' = stored w ∧ oplog w' = oplog w.

(** A session without a transaction, that no write was made on. *)
Definition renewed (n : Z) (w : World) : World :=
  ended kNone
    (set_prv (set_hasIncompleteHistory false (set_activeTxnCommittedStatements ∅ (prv w)))
      (set_obs (set_lastWriteOpTime OpTime.null (set_activeTxnNumber n (obs w))) w)).

Record Renewed (n : Z) (w : World) : Prop := {
  rn_core : Core w;
  rn_state : txnState (obs w) = kNone;
  rn_active : activeTxnNumber (obs w) = n;
  rn_stash : txnResourceStash (obs w) = None;
  rn_ops : transactionOperations (prv w) = [];
  rn_prepare : prepareOpTime (obs w) = OpTime.null;
  rn_entry : needToWriteAbortEntry (prv w) = false;
  rn_autocommit : autoCommit (prv w) = None
}.

Lemma renewed_Core w n :
  PromiseOk w → DurableOk (oplog w) (stored w) → inShutdown (prv w) = false →
  notPrepared (stored w) → isValid (prv w) = true →
  (primary w = true → ownRecord n (stored w)) → (primary w = true → notInProgress (stored w)) →
  Renewed n (renewed n w) ∧ sameRest w (renewed n w).
Proof.
  intros Hp Hd Hr Hn Hv Ho Hse.
  assert (Hp' : PromiseOk (renewed n w)).
  { apply ended_PromiseOk; [|done]. destruct Hp. by split. }
  split; [|done]. split; try done. split; try done.
  - intros Hprim _. unfold CacheOk. simpl. split_and!; auto.
  - intros s Hs Hx. by destruct (Hn s).
  - simpl. congruence.
Qed.

(** Ending twice is ending once. *)
Lemma setNewTxnNumber_run w n :
  PromiseOk w → isPrepared (txnState (obs w)) = false →
  _setNewTxnNumber n w =
    Ret tt (renewed n (if isInProgress (txnState (obs w)) then ended kAbortedWithoutPrepare w else w)).
Proof.
  intros Hp Hnp.
  unfold _setNewTxnNumber, uassert, when, obsM, get, modO, modP, modify, mbind, M_bind.
  assert (Hin : isInSet (txnState (obs w)) (bit kPrepared) = false)
    by (by destruct (txnState (obs w))).
  rewrite Hin. simpl. destruct (isInProgress (txnState (obs w))) eqn:Hi.
  - rewrite abortOnSession_run; [|done|by destruct (txnState (obs w))].
    rewrite Hnp. unfold _resetRetryableWriteState, modP, modify. simpl.
    rewrite resetTransactionState_run; [done| |done|done].
    destruct (ended_PromiseOk w kAbortedWithoutPrepare Hp ltac:(done)) as [H1 H2 H3]. by split.
  - simpl. unfold _resetRetryableWriteState, modP, modify. simpl.
    rewrite resetTransactionState_run; [done| |done|simpl; by destruct (txnState (obs w))].
    destruct Hp as [H1 H2 H3]. by split.
Qed.

Lemma setNewTxnNumber_wp w n :
  Core w → isValid (prv w) = true → (primary w = true → ownRecord n (stored w)) →
  wp (_setNewTxnNumber n) (λ _ w', Renewed n w' ∧ sameRest w w')
    (λ e w', w' = w ∧ e = PreparedTransactionInProgress ∧ txnState (obs w) = kPrepared) w.
Proof.
  intros H Hv Ho. destruct (isPrepared (txnState (obs w))) eqn:Hp.
  - unfold wp, _setNewTxnNumber, obsM, get, uassert, mbind, M_bind.
    by destruct (txnState (obs w)).
  - unfold wp. rewrite setNewTxnNumber_run by (done || apply H).
    assert (notPrepared (stored w)).
    { apply Core_notPrepared; [done|]. by destruct (txnState (obs w)). }
    destruct (isInProgress (txnState (obs w))) eqn:Hi.
    + apply (renewed_Core (ended kAbortedWithoutPrepare w)); try done; try apply H.
      by apply ended_PromiseOk; [apply H|].
    + by apply renewed_Core; try apply H.
Qed.

Lemma beginMultiDocument_wp env w n :
  Core w → isValid (prv w) = true → 0 <= n → (primary w = true → ownRecord n (stored w)) →
  wp (_beginMultiDocumentTransaction env n)
    (λ _ w', Core w' ∧ txnState (obs w') = kInProgress ∧ activeTxnNumber (obs w') = n ∧
       txnResourceStash (obs w') = None ∧ needToWriteAbortEntry (prv w') = false ∧
       transactionOperations (prv w') = [] ∧ sameRest w w')
    (λ e w', w' = w ∧ e = PreparedTransactionInProgress ∧ txnState (obs w) = kPrepared) w.
Proof.
  intros H Hv Hn Ho. apply wp_bind.
  eapply wp_mono; [by apply (setNewTxnNumber_wp w n H)| |done].
  intros _ w' [[H' Hst Hact Hstash Hops Hpo Hneed Hac] (Hctx & Hprim & Hva & Hsto & Hol)].
  destruct H' as [[HP1 HP2 HP3] HS HT HD HC Hcl Hpre Hse Hin Hsh]. rewrite Hv in Hva.
  unfold sameRest. rewrite <- Hctx, <- Hprim, <- Hsto, <- Hol, Hv in *. clear H Hctx Hprim Hsto Hol Hv.
  dest_world w'. subst. destruct pr as [k|]; [by assert (kNone = kPrepared) by (apply HP1; eauto)|].
  unfold wp; simpl. split_and!; try done.
  split; simpl; try done.
  - split; simpl; done.
  - intros Hprim _. by apply Ho.
  - intros s Hs Hx. pose proof (Hcl s Hs Hx). done.
Qed.
End Invariant.
