(* ===== verification/TransactionPhases.v ===== *)
(** The phases of an operation on a session: its transaction is begun or continued, it
    takes the stashed resources, runs its command and puts the resources back; and what
    each step promises of the next. *)
From stdpp Require Import gmap.
From S2P Require Import Prelude OpTimes TransactionState TransactionParticipant TransactionSession TransactionInv.
Import TransactionParticipant TransactionSession.

Arguments wp : simpl never.

(** One step of a proof about a method. *)
Ltac wp_step :=
  lazymatch goal with
  | |- wp (mbind _ _) _ _ _ => apply wp_bind
  | |- wp (get _) _ _ _ => apply wp_get
  | |- wp (obsM _) _ _ _ => apply wp_get
  | |- wp (prvM _) _ _ _ => apply wp_get
  | |- wp (ctxM _) _ _ _ => apply wp_get
  | |- wp (modify _) _ _ _ => apply wp_modify
  | |- wp (modO _) _ _ _ => apply wp_modify
  | |- wp (modP _) _ _ _ => apply wp_modify
  | |- wp (modC _) _ _ _ => apply wp_modify
  | |- wp (mret _) _ _ _ => apply wp_ret
  | |- wp (throw _) _ _ _ => apply wp_throw
  | |- wp (ask _) _ _ _ => apply wp_ask
  | |- wp (assert _) _ _ _ => apply wp_assert; [try reflexivity|]
  | |- wp (noThrow _) _ _ _ => apply wp_noThrow
  | |- wp (guarded _ _) _ _ _ => apply wp_guarded
  | |- wp (onBlockExit _ _) _ _ _ => apply wp_onBlockExit
  | |- wp (uassert _ true) _ _ _ => apply wp_uassert; [intros _|done]
  | |- wp (when true _) _ _ _ => apply wp_when; [intros _|done]
  | |- wp (when false _) _ _ _ => apply wp_when; [done|intros _]
  end; simpl.

Ltac wp_steps := repeat wp_step.

(** ** The operation *)

(** What the operation's methods leave alone in it. *)
Definition sameOperation (c c' : OperationContext) : Prop :=
  oc_txnNumber c' = oc_txnNumber c ∧ oc_writesAreReplicated c' = oc_writesAreReplicated c ∧
  oc_uninterruptible c' = oc_uninterruptible c ∧
  oc_inMultiDocumentTransaction c' = oc_inMultiDocumentTransaction c.

(** An operation that holds no unit of work. *)
Definition closed (c : OperationContext) : Prop :=
  oc_writeUnitOfWork c = false ∧ oc_inAWriteUnitOfWork c = false.

(** ** Aborting *)

Section Phases.
Context {R : Reuse} (env : Env).

(** What [_cleanUpTxnResourceOnOpCtx] leaves of the operation. *)
Record Cleaned (c c' : OperationContext) : Prop := {
  cl_same : sameOperation c c';
  cl_closed : oc_writeUnitOfWork c = true ∨ closed c → closed c';
  cl_timeout : oc_maxLockTimeout c' = false
}.

Lemma cleanUp_wp (Q : unit → World → Prop) E w :
  (oc_writeUnitOfWork (opCtx w) = true →
     oc_rstlLocked (opCtx w) = true ∨ ru_inActiveTxn (oc_recoveryUnit (opCtx w)) = false) →
  (∀ c, Cleaned (opCtx w) c → Q tt (set_opCtx c w)) →
  wp _cleanUpTxnResourceOnOpCtx Q E w.
Proof.
  intros Hr HQ. unfold _cleanUpTxnResourceOnOpCtx. do 3 wp_step.
  destruct (oc_writeUnitOfWork (opCtx w)) eqn:Hw.
  - wp_step. wp_step. wp_step; [by destruct (Hr eq_refl) as [-> | ->]; rewrite ?orb_true_r|].
    wp_steps. apply HQ. by split.
  - wp_steps. apply HQ. split; [done| |done]. intros [?|[_ ?]]; [congruence|by split].
Qed.

(** An open transaction of the operation's session is aborted. *)
Lemma finishAborting_wp (Q : unit → World → Prop) E w expected :
  PromiseOk w → isOpen (txnState (obs w)) = true → isInSet (txnState (obs w)) expected = true →
  oc_txnNumber (opCtx w) = Some (activeTxnNumber (obs w)) →
  Q tt (ended (if isPrepared (txnState (obs w)) then kAbortedWithPrepare
               else kAbortedWithoutPrepare) w) →
  wp (_finishAbortingActiveTransaction expected) Q E w.
Proof.
  intros Hp Ho He Hn HQ. unfold _finishAbortingActiveTransaction. wp_steps. rewrite He.
  wp_step. wp_step; [by rewrite Hn, bool_decide_eq_true|].
  unfold wp. by rewrite abortOnSession_run.
Qed.

Lemma onTransactionAbort_none (Q : unit → World → Prop) E w :
  is_Some (oc_txnNumber (opCtx w)) → isCommitted (txnState (obs w)) = false → Q tt w →
  wp (onTransactionAbort env None) Q E w.
Proof.
  intros Hn Hs HQ. unfold onTransactionAbort. wp_steps; [by apply bool_decide_eq_true|].
  apply wp_when; intros _; wp_steps; [by rewrite Hs|done..].
Qed.

(** Aborting a transaction in progress changes nothing else, and never throws. *)
Lemma abortInProgress_wp E w :
  Core w → txnState (obs w) = kInProgress →
  (oc_writesAreReplicated (opCtx w) = true → needToWriteAbortEntry (prv w) = false) →
  (txnResourceStash (obs w) = None → oc_txnNumber (opCtx w) = None ∨
     (oc_txnNumber (opCtx w) = Some (activeTxnNumber (obs w)) ∧
      (oc_writeUnitOfWork (opCtx w) = true ∧
       (oc_rstlLocked (opCtx w) = true ∨ ru_inActiveTxn (oc_recoveryUnit (opCtx w)) = false) ∨
       closed (opCtx w)))) →
  wp (abortTransaction env)
    (λ _ w', ∃ c, w' = set_opCtx c (ended kAbortedWithoutPrepare w) ∧
       sameOperation (opCtx w) c ∧
       (txnResourceStash (obs w) = None → is_Some (oc_txnNumber (opCtx w)) → closed c)) E w.
Proof.
  intros Hc Hs Hneed Hctx. unfold abortTransaction.
  repeat (wp_step; simpl). destruct (_ || _) eqn:Hb.
  - unfold wp. rewrite abortOnSession_run by (rewrite ?Hs; done || apply Hc).
    rewrite Hs. simpl. exists (opCtx w). split_and!; [by destruct w|done|].
    intros Hst [n Hn]. by rewrite Hst, Hn in Hb.
  - apply orb_false_iff in Hb as [Hb1 Hb2].
    destruct (txnResourceStash (obs w)) eqn:Hst; [done|].
    destruct (oc_txnNumber (opCtx w)) as [n|] eqn:Hn; [|done].
    destruct (Hctx eq_refl) as [?|[[= Hact] Hw]]; [done|].
    rewrite Hs. simpl. unfold _abortActiveTransaction.
    wp_step. wp_step. rewrite Hst. wp_steps.
    assert (oc_writesAreReplicated (opCtx w) && needToWriteAbortEntry (prv w) = false) as ->.
    { destruct (oc_writesAreReplicated (opCtx w)); [by apply Hneed|done]. }
    wp_step. apply cleanUp_wp.
    { destruct Hw as [[_ ?]|[Hw _]]; [done|]. by rewrite Hw. }
    intros c [Hsame Hcl _]. pose proof Hsame as (H1 & H2 & H3 & H4). wp_step.
    apply onTransactionAbort_none; [simpl; by rewrite H1, Hn|simpl; by rewrite Hs|].
    apply finishAborting_wp; simpl; rewrite ?Hs, ?H1, ?Hn, <- ?Hact; try done.
    + destruct (c_promise w Hc). by split.
    + exists c. split_and!; [by destruct w|done|]. intros _ _. apply Hcl. naive_solver.
Qed.

(** What the other components are relied on for: applying an entry on a secondary and what the
    lock manager must not interrupt do not fail, a reserved slot is a position, and an entry may
    hold an operation, which the server parameter's validator checks. *)
Class EnvOk : Prop := {
  e_uninterruptible : ∀ rep k, env_fault env true rep k = None;
  e_applying : ∀ b k, env_fault env b false k = None;
  e_slot : ∀ k, OpTime.isNull (env_slot env k) = false;
  e_maxOperations : 1 <= env_maxNumberOfTransactionOperationsInSingleOplogEntry env
}.

Context `{!EnvOk}.

(** Whether the operation's calls to other components may fail. *)
Definition mayFail (c : OperationContext) : Prop :=
  oc_uninterruptible c = false ∧ oc_writesAreReplicated c = true.

Lemma external_wp (Q : unit → World → Prop) E w :
  Q tt (set_now (S (now w)) w) →
  (mayFail (opCtx w) → ∀ e, E e (set_now (S (now w)) w)) →
  wp (external env) Q E w.
Proof.
  intros HQ HE. unfold wp, external, mayFail in *.
  destruct (oc_uninterruptible (opCtx w)) eqn:Hu; [by rewrite e_uninterruptible|].
  destruct (oc_writesAreReplicated (opCtx w)) eqn:Hr; [|by rewrite e_applying].
  destruct (env_fault env false true (now w)); [by apply HE|done].
Qed.

Lemma reserveSlot_wp (Q : OpTime.t → World → Prop) E w :
  (OpTime.isNull (env_slot env (S (now w))) = false →
     Q (env_slot env (S (now w))) (set_now (S (S (now w))) w)) →
  (mayFail (opCtx w) → ∀ e k, E e (set_now k w)) →
  wp (reserveSlot env) Q E w.
Proof.
  intros HQ HE. unfold reserveSlot. wp_step. apply external_wp; [|by eauto].
  wp_steps; [by rewrite e_slot|]. apply HQ, e_slot.
Qed.

Lemma reserveSlots_wp (Q : nat → World → Prop) E w count :
  Q (S (now w)) (set_now (S (now w) + count)%nat w) →
  (mayFail (opCtx w) → ∀ e k, E e (set_now k w)) →
  wp (reserveSlots env count) Q E w.
Proof.
  intros HQ HE. unfold reserveSlots. wp_step. apply external_wp; [|by eauto]. wp_steps. by destruct w.
Qed.

Lemma wp_uninterruptible {A} (m : M A) Q E w :
  wp m (λ x w', Q x (set_opCtx (set_oc_uninterruptible (oc_uninterruptible (opCtx w)) (opCtx w')) w'))
    (λ e w', E e (set_opCtx (set_oc_uninterruptible (oc_uninterruptible (opCtx w)) (opCtx w')) w'))
    (set_opCtx (set_oc_uninterruptible true (opCtx w)) w) →
  wp (uninterruptible m) Q E w.
Proof. intros Hm. unfold uninterruptible. by wp_steps. Qed.

(** A transaction's entry and the session's record are durable. *)
Definition recorded (ev : OplogEvent) (n : Z) (t : OpTime.t) (d : DurableTxnState) (w : World) : World :=
  set_oplog (oplog w ++ [ev])
    (set_stored (Some (mkStored (txnRecord n t d) []))
      (set_obs (set_lastWriteOpTime t (obs w)) w)).

(** Entries before it. *)
Definition logging (evs : list OplogEvent) (w : World) : World := set_oplog (oplog w ++ evs) w.

Lemma commitChange_txn_wp (Q : unit → World → Prop) E w before ev n t d :
  isValid (prv w) = true → isNone (txnState (obs w)) = false →
  Q tt (recorded ev n t d (logging before w)) →
  wp (commitChange (mkChange before ev [] (txnRecord n t d) [])) Q E w.
Proof.
  intros Hv Hs HQ. unfold commitChange. wp_steps; [by rewrite Hv|]. rewrite Hs. wp_steps.
  unfold recorded, logging in HQ. simpl in HQ. by rewrite <- app_assoc in HQ.
Qed.

Lemma onWriteOpCompleted_txn_wp (Q : unit → World → Prop) E w r :
  oc_inAWriteUnitOfWork (opCtx w) = true → rec_txnNum r = activeTxnNumber (obs w) →
  (∀ k, Q tt (set_now k w)) → (mayFail (opCtx w) → ∀ e k, E e (set_now k w)) →
  wp (onWriteOpCompletedOnPrimary env [] r) Q E w.
Proof.
  intros Hin Hn HQ HE. unfold onWriteOpCompletedOnPrimary.
  wp_steps; [by rewrite Hin|by rewrite Hn, Z.eqb_refl|]. apply external_wp; eauto.
Qed.

(** The operation inside a unit of work of its own. *)
Definition inUnit (w : World) : World := set_opCtx (set_oc_inAWriteUnitOfWork true (opCtx w)) w.

Lemma unitOfWork_wp (m : M Change) (P : Change → Prop) (Q : unit → World → Prop) E w :
  isValid (prv w) = true → isNone (txnState (obs w)) = false →
  (∀ Q' E', (∀ ch k, P ch → Q' ch (set_now k (inUnit w))) →
     (mayFail (opCtx w) → ∀ e k, E' e (set_now k (inUnit w))) → wp m Q' E' (inUnit w)) →
  (∀ ch, P ch → ∃ before ev n t d, ch = mkChange before ev [] (txnRecord n t d) [] ∧
     ∀ k, Q tt (set_now k (recorded ev n t d (logging before w)))) →
  (mayFail (opCtx w) → ∀ e k, E e (set_now k w)) →
  wp (unitOfWork env m) Q E w.
Proof.
  intros Hv Hs Hm HP HE. unfold unitOfWork.
  assert (Hctx : set_oc_inAWriteUnitOfWork (oc_inAWriteUnitOfWork (opCtx w))
            (set_oc_inAWriteUnitOfWork true (opCtx w)) = opCtx w) by (by destruct (opCtx w)).
  assert (HE' : mayFail (opCtx w) → ∀ e k, E e (set_now k (set_opCtx
            (set_oc_inAWriteUnitOfWork (oc_inAWriteUnitOfWork (opCtx w))
               (set_oc_inAWriteUnitOfWork true (opCtx w))) w))).
  { intros. rewrite Hctx. destruct w. by apply HE. }
  wp_steps. apply Hm; [|done]. intros ch k (before & ev & n & t & d & -> & HQ)%HP. simpl.
  wp_step. apply external_wp; [|intros Hf e; apply (HE' Hf)].
  apply commitChange_txn_wp; [done..|].
  specialize (HQ (S k)). destruct w. simpl in *. by rewrite Hctx.
Qed.

Lemma inUnitOfWork_txn_wp (Q : unit → World → Prop) E w ev n t d :
  activeTxnNumber (obs w) = n → isValid (prv w) = true → isNone (txnState (obs w)) = false →
  (∀ k, Q tt (set_now k (recorded ev n t d w))) →
  (mayFail (opCtx w) → ∀ e k, E e (set_now k w)) →
  wp (inUnitOfWork env (mkChange [] ev [] (txnRecord n t d) [])) Q E w.
Proof.
  intros Hn Hv Hs HQ HE. unfold inUnitOfWork.
  apply (unitOfWork_wp _ (λ ch, ch = mkChange [] ev [] (txnRecord n t d) [])); [done..| | |done].
  - intros Q' E' HQ' HE'. wp_step. apply onWriteOpCompleted_txn_wp; [done..|intros k; by apply HQ'|done].
  - intros ch ->. eexists _, _, _, _, _. split; [done|]. intros k. specialize (HQ k).
    unfold recorded, logging in *. simpl. rewrite app_nil_r. by destruct w.
Qed.

(** ** The entries of a transaction *)

Lemma pack_app arrSize len ops packed rest :
  packTransactionStatementsForApplyOps env arrSize len ops = (packed, rest) → packed ++ rest = ops.
Proof.
  revert arrSize len packed. induction ops as [|op ops IH]; intros arrSize len packed; simpl; [by intros [= <- <-]|].
  destruct (_ || _); [by intros [= <- <-]|].
  destruct (packTransactionStatementsForApplyOps _ _ _ ops) as [p r] eqn:E. intros [= <- <-]. simpl. f_equal. by eapply IH.
Qed.

(** An entry takes an operation. *)
Lemma pack_first len op ops :
  ∃ packed, (packTransactionStatementsForApplyOps env 0 len (op :: ops)).1 = op :: packed.
Proof.
  pose proof e_maxOperations. cbn [packTransactionStatementsForApplyOps].
  destruct (Z.eqb_spec 0 (env_maxNumberOfTransactionOperationsInSingleOplogEntry env)); [lia|]. simpl.
  destruct (packTransactionStatementsForApplyOps _ _ _ ops). by eexists.
Qed.

Lemma packEntries_concat fuel ops : (length ops <= fuel)%nat → concat (packEntries env fuel ops) = ops.
Proof.
  revert ops. induction fuel as [|fuel IH]; intros [|op ops] Hf; try done; [by simpl in Hf; lia|].
  cbn [packEntries]. destruct (pack_first emptyArrayLen op ops) as [packed Hp].
  destruct (packTransactionStatementsForApplyOps _ _ _ (op :: ops)) as [p r] eqn:E. simpl in Hp. subst p.
  pose proof (pack_app _ _ _ _ _ E) as Happ. cbn [concat]. rewrite IH; [done|].
  apply (f_equal length) in Happ. rewrite length_app in Happ. simpl in *. lia.
Qed.

Lemma packEntries_cons op ops : packEntries env (length (op :: ops)) (op :: ops) ≠ [].
Proof. cbn [packEntries length]. by destruct (packTransactionStatementsForApplyOps _ _ _ _). Qed.

Lemma removelast_last {A} (l : list (list A)) : l ≠ [] → removelast l ++ [default [] (last l)] = l.
Proof.
  intros Hl. induction l as [|x l _] using rev_ind; [done|]. by rewrite removelast_last, last_snoc.
Qed.

(** The operations in entries. *)
Definition operations (evs : list OplogEvent) : list ReplOperation :=
  evs ≫= λ e, match e with EvPartial _ _ ops | EvCommit _ _ ops | EvPrepare _ _ ops => ops | _ => [] end.

Lemma operations_app evs evs' : operations (evs ++ evs') = operations evs ++ operations evs'.
Proof. apply bind_app. Qed.

Lemma operations_partials n slot (l : list (list ReplOperation)) :
  operations (imap (λ i, EvPartial n (slot i)) l) = concat l.
Proof.
  revert slot. induction l as [|ops l IH]; intros slot; [done|]. rewrite imap_cons.
  unfold operations in *. rewrite bind_cons. cbn [concat]. f_equal. apply (IH (slot ∘ S)).
Qed.

Lemma operations_preImages ops k : operations (preImageEntries ops k) = [].
Proof.
  unfold preImageEntries. destruct (0 <? k); [|done]. unfold operations.
  generalize (base.filter (λ op, op_preImageSize op ≠ 0) ops). intros l. by induction l.
Qed.

(** What comes before the last entry of a transaction: no-ops with the pre-images, and entries
    with operations. *)
Definition partialEntry (n : Z) (e : OplogEvent) : Prop := e = EvNoop ∨ ∃ t ops, e = EvPartial n t ops.

Lemma partialEntries_quiet n evs : Forall (partialEntry n) evs → Forall (λ e, quiet e = true) evs.
Proof. intros Hf. eapply Forall_impl; [exact Hf|]. by intros e [->|(t & ops & ->)]. Qed.

Lemma preImages_partial n ops k : Forall (partialEntry n) (preImageEntries ops k).
Proof.
  unfold preImageEntries. destruct (0 <? k); [|by constructor]. apply Forall_fmap, Forall_true. by left.
Qed.

Lemma imap_partial n slot (l : list (list ReplOperation)) :
  Forall (partialEntry n) (imap (λ i, EvPartial n (slot i)) l).
Proof.
  revert slot. induction l as [|ops l IH]; intros slot; [by constructor|]. rewrite imap_cons.
  constructor; [right; by eexists _, _|apply (IH (slot ∘ S))].
Qed.

(** The entries of a transaction and its record. *)
Definition txnChange (n : Z) (ops : list ReplOperation) (prepare : bool) (t : OpTime.t) (ch : Change) : Prop :=
  ∃ before lastOps,
    ch = mkChange before (if prepare then EvPrepare n t lastOps else EvCommit n t lastOps) []
           (txnRecord n t (if prepare then dPrepared else dCommitted)) [] ∧
    Forall (partialEntry n) before ∧ operations before ++ lastOps = ops.

Lemma logOplogEntries_wp (Q : Change → World → Prop) E w n ops first lastSlot k (prepare : bool) :
  activeTxnNumber (obs w) = n → oc_inAWriteUnitOfWork (opCtx w) = true → ops ≠ [] →
  (∀ ch t k', (if prepare then t = lastSlot else OpTime.isNull t = false) →
     txnChange n ops prepare t ch → Q ch (set_now k' w)) →
  (mayFail (opCtx w) → ∀ e k', E e (set_now k' w)) →
  wp (logOplogEntriesForTransaction env n ops first lastSlot k prepare) Q E w.
Proof.
  intros Hn Hin Hops HQ HE. unfold logOplogEntriesForTransaction.
  wp_steps; [by destruct ops|by rewrite Hin|]. apply external_wp; [|by auto].
  set (entries := packEntries env (length ops) ops).
  assert (Hent : removelast entries ++ [default [] (last entries)] = entries).
  { apply removelast_last. destruct ops; [done|apply packEntries_cons]. }
  assert (Hcat : concat entries = ops) by by apply packEntries_concat.
  rewrite <- Hent, concat_app in Hcat. simpl in Hcat. rewrite app_nil_r in Hcat.
  wp_step. apply wp_when; intros _; [apply onWriteOpCompleted_txn_wp; [done..|intros k1|done]|];
    (wp_step; apply onWriteOpCompleted_txn_wp; [done..|intros k2; wp_steps|done]);
    (eapply HQ; cycle 1;
      [eexists _, _; split; [done|]; split;
         [apply Forall_app; split; [apply preImages_partial|apply imap_partial]
         |by rewrite operations_app, operations_preImages, operations_partials]
      |destruct prepare; [done|apply e_slot]]).
Qed.

(** The clock and the operation do not matter to the invariant. *)
Lemma Core_set w k c : Core w → Core (set_now k (set_opCtx c w)).
Proof. intros [[] ? ? ? ? ? ? ? Hi ?]. split; try done. intros Hv. by destruct (Hi Hv). Qed.

Lemma Core_same w w' :
  Core w → obs w' = obs w → prv w' = prv w → primary w' = primary w → promises w' = promises w →
  fulfilled w' = fulfilled w → oplog w' = oplog w → stored w' = stored w → Core w'.
Proof.
  intros Hc H1 H2 H3 H4 H5 H6 H7. pose proof (Core_set w (now w') (opCtx w') Hc) as Hc'.
  destruct w', w; simpl in *; subst. exact Hc'.
Qed.

Lemma Core0_set w k c : Core0 w → Core0 (set_now k (set_opCtx c w)).
Proof. intros [[] ]. by split. Qed.

Lemma Core0_recorded w ev n t d :
  Core0 w → activeTxnNumber (obs w) = n → 0 <= n → OpTime.isNull t = false → d ≠ dInProgress →
  txnEntry ev n d → ownRecord n (stored w) →
  Core0 (recorded ev n t d w).
Proof.
  intros [[] Hd Hr Hv Ho] Hn H0 Ht Hne He Hown. split; try done.
  - by apply (DurableOk_txn _ (stored w)).
  - intros _ s [= <-]. simpl. lia.
  - intros _ s [= <-]. simpl. congruence.
Qed.

Lemma Core0_set_r w k c : Core0 w → Core0 (set_opCtx c (set_now k w)).
Proof. apply Core0_set. Qed.

(** ** Aborting a prepared transaction *)

(** A session whose transaction ended. *)
Record Ended (st : StateFlag) (w w' : World) : Prop := {
  en_core : Core w';
  en_state : txnState (obs w') = st;
  en_stash : txnResourceStash (obs w') = None;
  en_valid : isValid (prv w') = true;
  en_primary : primary w' = primary w;
  en_active : activeTxnNumber (obs w') = activeTxnNumber (obs w);
  en_same : sameOperation (opCtx w) (opCtx w');
  en_closed : closed (opCtx w')
}.

(** A prepared transaction whose operation holds its resources; its record may not have been
    written yet. *)
Record Abortable (w : World) : Prop := {
  ab_core : Core0 w;
  ab_own : primary w = true → ownRecord (activeTxnNumber (obs w)) (stored w);
  ab_state : txnState (obs w) = kPrepared;
  ab_stash : txnResourceStash (obs w) = None;
  ab_txnNumber : oc_txnNumber (opCtx w) = Some (activeTxnNumber (obs w));
  ab_active : 0 <= activeTxnNumber (obs w);
  ab_unit : oc_writeUnitOfWork (opCtx w) = true;
  ab_primary : oc_writesAreReplicated (opCtx w) = true → primary w = true;
  ab_entry : oc_writesAreReplicated (opCtx w) && needToWriteAbortEntry (prv w) = true ∨
    notPrepared (stored w)
}.

Lemma Ended_ended w w' :
  Core0 w' → notPrepared (stored w') → txnState (obs w') = kPrepared → primary w' = primary w →
  activeTxnNumber (obs w') = activeTxnNumber (obs w) →
  sameOperation (opCtx w) (opCtx w') → closed (opCtx w') →
  Ended kAbortedWithPrepare w (ended kAbortedWithPrepare w').
Proof.
  intros Hc Hn Hs Hp Ha Ho Hcl. split; try done; [|apply Hc].
  by apply aborted_Core; [done..|left].
Qed.

(** The entry of an abort is written when the transaction's prepare entry may have been. *)
Definition abortLogged (w w' : World) : Prop :=
  oc_writesAreReplicated (opCtx w) && needToWriteAbortEntry (prv w) = true →
  ∃ t, oplog w' = oplog w ++ [EvAbort (activeTxnNumber (obs w)) t].

Lemma abortActivePrepared_wp (E : ErrorCode → World → Prop) w :
  Abortable w → oc_rstlLocked (opCtx w) = true →
  (mayFail (opCtx w) → ∀ e k, E e (set_now k w)) →
  wp (_abortActiveTransaction env (bit kPrepared))
    (λ _ w', Ended kAbortedWithPrepare w w' ∧ abortLogged w w') E w.
Proof.
  intros [Hc Hown Hs Hst Hn Ha Hu Hp He] Hr HE. unfold _abortActiveTransaction. wp_step. wp_step.
  rewrite Hst. wp_steps. destruct (_ && _) eqn:Hb.
  - apply andb_true_iff in Hb as [Hrep Hneed].
    wp_step. apply reserveSlot_wp; [intros Hslot|done].
    wp_step. apply cleanUp_wp; [by left|].
    intros c [Hsame Hcl Hto]. destruct (Hcl (or_introl Hu)) as [Hc1 Hc2].
    pose proof Hsame as (H1 & H2 & H3 & H4). simpl in *.
    wp_step. apply wp_uninterruptible. unfold onTransactionAbort. wp_steps.
    { by rewrite H1, Hn. }
    rewrite H2, Hrep, H1, Hn. wp_step. simpl. unfold logCommitOrAbort. wp_steps.
    { by rewrite Hc2. }
    { by rewrite Hto. }
    apply inUnitOfWork_txn_wp; simpl; [done|apply Hc|by rewrite Hs| |by intros []].
    intros k'. apply finishAborting_wp; simpl; rewrite ?Hs; try done.
    { destruct Hc as [[] ]. by split. }
    { by rewrite H1, Hn. }
    split; [|intros _; by eexists].
    apply (Ended_ended w (set_opCtx (set_oc_uninterruptible (oc_uninterruptible c)
             (set_oc_uninterruptible true c)) (set_now k' (recorded
                (EvAbort (activeTxnNumber (obs w)) (env_slot env (S (now w)))) (activeTxnNumber (obs w))
                (env_slot env (S (now w))) dAborted w)))); try done.
    + apply Core0_set_r, Core0_recorded; auto. done.
    + by intros s [= <-].
  - wp_step. apply cleanUp_wp; [by left|].
    intros c [Hsame Hcl Hto]. pose proof Hsame as (H1 & H2 & H3 & H4). wp_step.
    apply onTransactionAbort_none; simpl; [by rewrite H1, Hn|by rewrite Hs|].
    apply finishAborting_wp; simpl; rewrite ?Hs, ?H1, ?Hn; try done.
    { destruct Hc as [[] ]. by split. }
    split; [|by unfold abortLogged; rewrite Hb].
    apply (Ended_ended w (set_opCtx c w)); simpl; auto.
    + by apply (Core0_set w (now w)).
    + by destruct He.
Qed.

Lemma abortPrepared_wp (E : ErrorCode → World → Prop) w :
  Abortable w →
  (mayFail (opCtx w) → ∀ e k c, c = opCtx w ∨ c = set_oc_rstlLocked false (opCtx w) →
     E e (set_now k (set_opCtx c w))) →
  wp (abortTransaction env) (λ _ w', Ended kAbortedWithPrepare w w' ∧ abortLogged w w') E w.
Proof.
  intros Hab HE. pose proof Hab as [Hc Hown Hs Hst Hn Ha Hu Hp He]. unfold abortTransaction. wp_steps.
  rewrite Hst, Hn, Hs. simpl. unfold _abortActivePreparedTransaction. wp_step.
  apply external_wp.
  2: { intros Hf e. specialize (HE Hf e (S (now w)) (opCtx w) (or_introl eq_refl)). by destruct w. }
  wp_steps. apply wp_uassert; [intros _|].
  2: { destruct (oc_writesAreReplicated (opCtx w)); [by rewrite Hp|done]. }
  eapply (wp_mono _ _ _ (λ e w0, E e (set_opCtx (set_oc_rstlLocked false (opCtx w0)) w0)));
    [apply abortActivePrepared_wp; simpl| |done].
  - split; try done. by apply (Core0_set_r w (S (now w))).
  - done.
  - intros Hf e k. specialize (HE Hf e k _ (or_intror eq_refl)). by destruct w as [? ? [] ? ? ? ? ? ?].
  - intros _ w' [[] Hlog]. split; [|done]. split; try done. by apply (Core_set w' (now w')).
Qed.

(** ** Refreshing *)

Lemma Idle_set w k c : Idle w → Idle (set_now k (set_opCtx c w)).
Proof. intros [Hc ? ? ? ?]. split; try done. by apply Core_set. Qed.

Lemma fetchHistory_ok h committed inc :
  NoDup (statementsOf h) → HUnlinked ∉ h → kIncompleteHistoryStmtId ∉ statementsOf h →
  (∀ k, k ∈ statementsOf h → committed !! k = None) →
  ∃ st committed' inc', fetchHistory h committed inc = Fetched st committed' inc' ∧
    (st = None ∨ st = Some dCommitted) ∧
    (∀ k, is_Some (committed' !! k) ↔ is_Some (committed !! k) ∨ k ∈ statementsOf h) ∧
    (st = None → inc' = false → inc = false ∧ complete h = true).
Proof.
  revert committed inc. induction h as [|e h IH]; intros committed inc Hd Hu Hs Hc.
  - eexists _, _, _. split; [done|]. set_solver.
  - destruct e as [s t| | | |]; simpl in *.
    + apply NoDup_cons in Hd as [Hd1 Hd2].
      destruct (s =? kIncompleteHistoryStmtId) eqn:He; [apply Z.eqb_eq in He; set_solver|].
      rewrite (Hc s) by set_solver.
      edestruct (IH (<[s := t]> committed) inc) as (st & c' & inc' & -> & H1 & H2 & H3);
        [done|set_solver|set_solver| |].
      { intros k Hk. rewrite lookup_insert_ne by set_solver. set_solver. }
      eexists _, _, _. split_and!; [done..| |done].
      intros k. rewrite H2, lookup_insert_is_Some'. set_solver.
    + destruct (IH committed true) as (st & c' & inc' & -> & H1 & H2 & H3); [done|set_solver|done..|].
      eexists _, _, _. split_and!; [done..|]. intros Hst Hi. by destruct (H3 Hst Hi).
    + eexists _, _, _. split; [done|]. split_and!; [by right|set_solver|done].
    + set_solver.
    + eexists _, _, _. split; [done|]. split_and!; [by left|set_solver|done].
Qed.

(** The state a session is refreshed to, and what the cache then holds. *)
Lemma fetchActive_ok s :
  StoredOk s → rec_state (st_record s) ≠ Some dPrepared → rec_state (st_record s) ≠ Some dInProgress →
  ∃ st committed inc, fetchActiveTransactionHistory s = Fetched st committed inc ∧
    (st = None ∨ st = Some dCommitted ∨ st = Some dAborted) ∧
    (st = None → rec_state (st_record s) = None ∧
       (∀ k, is_Some (committed !! k) ↔ k ∈ statementsOf (st_history s)) ∧
       (inc = false → complete (st_history s) = true)).
Proof.
  intros [Hn Hl Hd Hu Hs] Hp Hst. unfold fetchActiveTransactionHistory.
  destruct (rec_state (st_record s)) as [d|].
  - eexists _, _, _. split; [done|]. split; [|done]. destruct d; auto; done.
  - destruct (fetchHistory_ok (st_history s) ∅ false) as (st & c & inc & -> & H1 & H2 & H3);
      [auto..|set_solver|].
    eexists _, _, _. split; [done|]. split; [naive_solver|]. intros ->. split_and!; [done| |naive_solver].
    intros k. rewrite H2, lookup_empty. split; [|by right]. by intros [[]|].
Qed.

Lemma refresh_wp w :
  Idle w → oc_locked (opCtx w) = false → notInProgress (stored w) →
  wp (refreshFromStorageIfNeeded env)
    (λ _ w', Idle w' ∧ isValid (prv w') = true ∧ opCtx w' = opCtx w ∧ primary w' = primary w ∧
       oplog w' = oplog w ∧ (w' = w ∨ isOpen (txnState (obs w')) = false))
    (λ _ w', Idle w') w.
Proof.
  intros Hi Hl Hip. unfold refreshFromStorageIfNeeded. wp_steps; [by rewrite Hl|].
  destruct (isValid (prv w)) eqn:Hv; [wp_steps; by split_and!; auto|].
  apply (wp_mono _ (λ _ w', Idle w' ∧ isValid (prv w') = true ∧ opCtx w' = opCtx w ∧
    primary w' = primary w ∧ oplog w' = oplog w ∧ isOpen (txnState (obs w')) = false) _
    (λ _ w', Idle w')); [|naive_solver|done].
  wp_step.
  assert (Hi' : Idle (set_now (S (now w)) w)).
  { pose proof (Idle_set w (S (now w)) (opCtx w) Hi). by destruct w. }
  apply external_wp; [|done]. revert Hv Hi' Hip.
  change (prv w) with (prv (set_now (S (now w)) w)).
  change (opCtx w) with (opCtx (set_now (S (now w)) w)).
  change (stored w) with (stored (set_now (S (now w)) w)).
  change (primary w) with (primary (set_now (S (now w)) w)).
  change (oplog w) with (oplog (set_now (S (now w)) w)).
  generalize (set_now (S (now w)) w). clear Hi Hl w. intros w Hv [Hc _ _ _ _] Hip.
  destruct (c_invalid w Hc Hv) as [Hs Hact Hlast Hst Hinc].
  assert (Hn : notPrepared (stored w)) by (apply Core_notPrepared; [done|by rewrite Hs]).
  destruct Hc as [[HP1 HP2 HP3] HS HT HD HC _ _ _ _ Hsh]. dest_world w. subst.
  destruct pr as [?|]; [by assert (kNone = kPrepared) by (apply HP1; eauto)|].
  destruct stash as [?|]; [by destruct HT|]. wp_step. wp_step.
  destruct sto as [s0|].
  - destruct (fetchActive_ok s0) as (st & c' & inc' & -> & H1 & H2); [by apply HD|by apply Hn|by apply Hip|].
    pose proof (d_stored _ _ HD s0 eq_refl) as [Hs0 Hl0 _ _ _].
    assert (Hnp : ∀ s, Some s0 = Some s → rec_state (st_record s) = Some dPrepared → False)
      by (intros s [= <-]; by apply Hn).
    destruct H1 as [->|[->| ->]]; unfold wp; simpl; split_and!; try done; split; try done; split;
      simpl; try done; try (split; simpl; done); try (by intros s Hx Hy; destruct (Hnp s Hx Hy)).
    + intros _ _. destruct (H2 eq_refl) as (Hr & Hk & Hinc). split_and!; try done.
      exists s0. split_and!; try done.
      intros Hi k Hin. apply Hk. by apply (d_history _ _ HD s0 eq_refl Hr (Hinc Hi)).
    + by intros _ _ s [= <-].
    + by intros _ _ s [= <-].
  - unfold wp; simpl. split_and!; try done; split; try done; split; simpl; try done; try (split; simpl; done).
Qed.

(** ** Beginning or continuing *)

(** An operation that holds nothing yet. *)
Record FreshCtx (n : Z) (rep : bool) (c : OperationContext) : Prop := {
  f_txnNumber : oc_txnNumber c = Some n;
  f_replicated : oc_writesAreReplicated c = rep;
  f_closed : closed c;
  f_rstl : oc_rstlLocked c = false;
  f_locked : oc_locked c = false;
  f_timeout : oc_maxLockTimeout c = false;
  f_uninterruptible : oc_uninterruptible c = false;
  f_recoveryUnit : oc_recoveryUnit c = newRecoveryUnit
}.

(** The session is checked out, and its transaction, if it has one, is that of the
    operation. *)
Record Begun (n : Z) (rep : bool) (w : World) : Prop := {
  b_core : Core w;
  b_ctx : FreshCtx n rep (opCtx w);
  b_valid : isValid (prv w) = true;
  b_primary : rep = true → primary w = true;
  b_active : activeTxnNumber (obs w) = n;
  b_prepared : txnState (obs w) = kPrepared → is_Some (txnResourceStash (obs w));
  b_entry : txnState (obs w) = kInProgress → rep = true → needToWriteAbortEntry (prv w) = false
}.

Lemma Core_newer w n :
  Core w → isValid (prv w) = true → primary w = true → activeTxnNumber (obs w) < n →
  ownRecord n (stored w).
Proof.
  intros Hc Hv Hp Hn s Hs. left. pose proof (c_cache w Hc Hp Hv) as Hca.
  unfold CacheOk in Hca. destruct (txnState (obs w)).
  - destruct Hca as (_ & _ & _ & Ho). destruct (Ho s Hs) as [?|[??]]; lia.
  - destruct (Hca s Hs) as [?|[??]]; lia.
  - specialize (Hca s Hs). lia.
  - specialize (Hca s Hs). lia.
  - destruct (Hca s Hs) as [?|[??]]; lia.
  - specialize (Hca s Hs). lia.
  - destruct Hca as (_ & _ & s' & Hs' & Heq & _). rewrite Hs in Hs'. injection Hs' as <-. lia.
Qed.

Lemma Idle_Begun w n :
  Idle w → FreshCtx n true (opCtx w) → isValid (prv w) = true → primary w = true →
  activeTxnNumber (obs w) = n → Begun n true w.
Proof. intros [Hc Hst He Hp Hr] Hf Hv Hprim Ha. split; auto. intros Hs. apply Hst. by rewrite Hs. Qed.

Lemma beginRetryable_wp w n :
  Idle w → FreshCtx n true (opCtx w) → isValid (prv w) = true → primary w = true →
  activeTxnNumber (obs w) <= n →
  wp (_beginOrContinueRetryableWrite n)
    (λ _ w', Begun n true w' ∧ isInRetryableWriteMode (txnState (obs w')) = true ∧ oplog w' = oplog w)
    (λ _ w', Idle w') w.
Proof.
  intros Hi Hf Hv Hp Hle. pose proof (i_core w Hi) as Hc.
  unfold _beginOrContinueRetryableWrite. wp_step. wp_step.
  destruct (activeTxnNumber (obs w) <? n) eqn:Hlt.
  - apply Z.ltb_lt in Hlt. wp_step.
    eapply wp_mono; [apply setNewTxnNumber_wp; [done..|by intros; apply Core_newer]| |].
    + intros _ w' [[Hc' Hs Ha Hst _ _ He Hac] (H1 & H2 & H3 & H4 & H5)]. wp_steps.
      replace (set_prv _ w') with w'.
      * split; [|by rewrite Hs, H5]. split; rewrite ?Hs, ?H1, ?H2, ?H3; done.
      * destruct w' as [? [? ? ? ? ? ? ? ? ?] ? ? ? ? ? ? ?]. simpl in *. by subst.
    + by intros e w' (-> & _).
  - apply Z.ltb_ge in Hlt. assert (activeTxnNumber (obs w) = n) as Ha by lia. wp_steps.
    apply wp_uassert; [intros Hr|done]. wp_steps.
    + pose proof (c_state w Hc) as Hs. unfold StateOk in Hs. apply bool_decide_eq_true.
      by destruct (txnState (obs w)).
    + split; [by apply Idle_Begun|done].
Qed.

Lemma continueMultiDocument_wp w n :
  Idle w → FreshCtx n true (opCtx w) → isValid (prv w) = true → primary w = true →
  wp (_continueMultiDocumentTransaction n)
    (λ _ w', Begun n true w' ∧ isInRetryableWriteMode (txnState (obs w')) = false ∧ w' = w)
    (λ _ w', Idle w') w.
Proof.
  intros Hi Hf Hv Hp. unfold _continueMultiDocumentTransaction. wp_steps.
  apply wp_uassert; [intros [->%Z.eqb_eq Hm%negb_true_iff]%andb_true_iff|done]. wp_steps.
  apply wp_when; intros Hb; [|by split; [apply Idle_Begun|]].
  apply andb_true_iff in Hb as [Hip Hb%bool_decide_eq_true]. exfalso. apply Hb, (i_stash w Hi).
  by destruct (txnState (obs w)).
Qed.

Lemma startMultiDocument_wp w n :
  Idle w → FreshCtx n true (opCtx w) → isValid (prv w) = true → primary w = true →
  0 <= n → activeTxnNumber (obs w) <= n →
  (activeTxnNumber (obs w) = n → isInSet (txnState (obs w)) (Z.lor (bit kNone) (bit kAbortedWithoutPrepare)) = true) →
  wp (_beginMultiDocumentTransaction env n)
    (λ _ w', Begun n true w' ∧ txnState (obs w') = kInProgress ∧
       transactionOperations (prv w') = [] ∧ oplog w' = oplog w)
    (λ _ w', Idle w') w.
Proof.
  intros Hi Hf Hv Hp H0 Hle Hst. pose proof (i_core w Hi) as Hc.
  eapply wp_mono; [apply beginMultiDocument_wp; [done..|intros _]| |].
  - destruct (decide (activeTxnNumber (obs w) = n)) as [Ha|Ha]; [|apply Core_newer; [done..|lia]].
    specialize (Hst Ha). pose proof (c_cache w Hc Hp Hv) as Hca. unfold CacheOk in Hca.
    rewrite Ha in Hca. destruct (txnState (obs w)); done || naive_solver.
  - intros _ w' (Hc' & Hs & Ha & Hstash & He & Hops & (H1 & H2 & H3 & H4 & H5)).
    split; [|done]. split; rewrite ?Hs, ?H1, ?H2, ?H3; done.
  - by intros e w' (-> & _).
Qed.

(** The fields of a request that the parser accepts. *)
Definition parsed (n : Z) (autocommit startTransaction : option bool) (multi : bool) : Prop :=
  0 <= n ∧ autocommit ≠ Some true ∧ startTransaction ≠ Some false ∧
  (autocommit = None → startTransaction = None) ∧ (is_Some autocommit → multi = true).

Lemma beginOrContinue_wp w n ac start :
  Idle w → FreshCtx n true (opCtx w) → isValid (prv w) = true →
  parsed n ac start (oc_inMultiDocumentTransaction (opCtx w)) →
  wp (beginOrContinue env n ac start)
    (λ _ w', Begun n true w' ∧
       isInRetryableWriteMode (txnState (obs w')) = bool_decide (ac = None) ∧ oplog w' = oplog w ∧
       (start = Some true → txnState (obs w') = kInProgress ∧ transactionOperations (prv w') = []))
    (λ _ w', Idle w') w.
Proof.
  intros Hi Hf Hv (H0 & Hac & Hst & Hnone & Hmulti). unfold beginOrContinue. wp_step.
  assert (Hi' : Idle (set_now (S (now w)) w)).
  { pose proof (Idle_set w (S (now w)) (opCtx w) Hi). by destruct w. }
  apply external_wp; [|done]. revert Hf Hv Hi' Hmulti.
  change (prv w) with (prv (set_now (S (now w)) w)).
  change (opCtx w) with (opCtx (set_now (S (now w)) w)).
  change (oplog w) with (oplog (set_now (S (now w)) w)).
  generalize (set_now (S (now w)) w). clear Hi w. intros w Hf Hv Hi Hmulti.
  wp_steps. rewrite (f_replicated _ _ _ Hf). wp_steps.
  apply wp_uassert; [intros Hp|done]. apply wp_uassert; [intros _|done]. wp_steps.
  apply wp_uassert; [intros Hlt|done]. apply negb_true_iff, Z.ltb_ge in Hlt.
  destruct ac as [[]|]; [done| |].
  - wp_steps; [by apply Hmulti|]. destruct start as [[]|]; [|done|].
    2: { eapply wp_mono; [by apply continueMultiDocument_wp|naive_solver|done]. }
    wp_steps. apply wp_when; intros Ha.
    + apply Z.eqb_eq in Ha as ->. wp_step. apply wp_uassert; [intros _|done].
      apply wp_uassert; [intros Hin|done].
      eapply wp_mono; [by apply startMultiDocument_wp| |done]. by intros _ w' (? & -> & ? & ?).
    + apply Z.eqb_neq in Ha.
      eapply wp_mono; [by apply startMultiDocument_wp| |done]. by intros _ w' (? & -> & ? & ?).
  - rewrite Hnone by done. wp_steps.
    eapply wp_mono; [by apply beginRetryable_wp| |done]. by intros _ w' (? & -> & ?).
Qed.

End Phases.
