(* ===== verification/TransactionRun.v ===== *)
(** An operation between the unstashing of its session's resources and their return to the
    stash: what holds while its command runs, and that the commands keep it. *)
From stdpp Require Import gmap.
From S2P Require Import Prelude OpTimes TransactionState TransactionParticipant TransactionSession TransactionInv TransactionPhases.
Import TransactionParticipant TransactionSession.

(** The operation holds the resources of the open transaction, or there is none. *)
Record Running {R : Reuse} (n : Z) (rep : bool) (w : World) : Prop := {
  r_core : Core w;
  r_valid : isValid (prv w) = true;
  r_primary : rep = true → primary w = true;
  r_stash : txnResourceStash (obs w) = None;
  r_txnNumber : oc_txnNumber (opCtx w) = Some n;
  r_replicated : oc_writesAreReplicated (opCtx w) = rep;
  r_open : isOpen (txnState (obs w)) = true →
    activeTxnNumber (obs w) = n ∧ oc_writeUnitOfWork (opCtx w) = true ∧
    oc_inAWriteUnitOfWork (opCtx w) = true ∧ oc_locked (opCtx w) = true;
  r_inProgress : txnState (obs w) = kInProgress →
    oc_rstlLocked (opCtx w) = true ∧ (rep = true → needToWriteAbortEntry (prv w) = false);
  r_prepared : txnState (obs w) = kPrepared →
    oc_rstlLocked (opCtx w) = false ∧
    ru_prepareTimestamp (oc_recoveryUnit (opCtx w)) = OpTime.timestamp (prepareOpTime (obs w));
  r_closed : isOpen (txnState (obs w)) = false → closed (opCtx w)
}.

(** Only where the resources are may have changed. *)
Record Keeps (w w' : World) : Prop := {
  k_obs : ∃ r, obs w' = set_txnResourceStash r (obs w);
  k_prv : prv w' = prv w;
  k_stored : stored w' = stored w;
  k_oplog : oplog w' = oplog w
}.

#[global] Instance Keeps_preorder : PreOrder Keeps.
Proof.
  split.
  - intros w. split; try done. exists (txnResourceStash (obs w)). by destruct w as [[] ? ? ? ? ? ? ? ?].
  - intros w1 w2 w3 [[r1 H1] ? ? ?] [[r2 H2] ? ? ?]. split; try congruence.
    exists r2. by rewrite H2, H1.
Qed.

Lemma Keeps_same w w' :
  obs w' = obs w → prv w' = prv w → stored w' = stored w → oplog w' = oplog w → Keeps w w'.
Proof.
  intros Ho Hp Hs Hol. split; try done. exists (txnResourceStash (obs w)). rewrite Ho.
  by destruct w as [[] ? ? ? ? ? ? ? ?].
Qed.

Lemma Keeps_set w k c : Keeps w (set_now k (set_opCtx c w)).
Proof. by apply Keeps_same. Qed.

Lemma Keeps_state w w' : Keeps w w' → txnState (obs w') = txnState (obs w).
Proof. by intros [[r ->] _ _ _]. Qed.

Section Run.
Context {R : Reuse} (env : Env) `{!EnvOk env}.

Lemma Core_unstash w : Core w → Core (set_obs (set_txnResourceStash None (obs w)) w).
Proof. intros [[] ? ? ? ? ? ? ? Hi ?]. split; try done. intros Hv. by destruct (Hi Hv). Qed.

(** ** Unstashing *)

(** The session with its resources taken from the stash. *)
Definition unstashed (k : nat) (c : OperationContext) (w : World) : World :=
  set_now k (set_opCtx c (set_obs (set_txnResourceStash None (obs w)) w)).

Lemma Keeps_unstashed w k c : Keeps w (unstashed k c w).
Proof. split; try done. by exists None. Qed.

(** An operation that failed to take the resources: a transaction in progress can be
    aborted. *)
Definition sameSession (w w' : World) : Prop := w' = set_now (now w') (set_opCtx (opCtx w') w).

Definition UnstashFailed (n : Z) (w w' : World) : Prop :=
  ∃ k c, w' = set_now k (set_opCtx c w) ∧ oc_txnNumber c = Some n ∧
    oc_writesAreReplicated c = oc_writesAreReplicated (opCtx w) ∧
    (txnResourceStash (obs w) = None → closed c ∨
       oc_writeUnitOfWork c = true ∧
       (oc_rstlLocked c = true ∨ ru_inActiveTxn (oc_recoveryUnit c) = false)).

Lemma UnstashFailed_same w n rep : FreshCtx n rep (opCtx w) → UnstashFailed n w w.
Proof.
  intros Hf. exists (now w), (opCtx w). split_and!; [by destruct w|apply Hf|done|].
  intros _. left. apply Hf.
Qed.

(** The operation holds what was stashed. *)
Record Holds (r : TxnResources) (c : OperationContext) : Prop := {
  h_unit : oc_writeUnitOfWork c = true;
  h_inUnit : oc_inAWriteUnitOfWork c = true;
  h_rstl : oc_rstlLocked c = tr_rstlLocked r;
  h_locked : oc_locked c = tr_locked r;
  h_recoveryUnit : oc_recoveryUnit c = tr_recoveryUnit r
}.

Lemma releaseResources_wp w r allowed :
  oc_writeUnitOfWork (opCtx w) = false → txnResourceStash (obs w) = Some r →
  wp (_releaseTransactionResourcesToOpCtx env allowed)
    (λ _ w', ∃ k c, w' = unstashed k c w ∧ Holds r c ∧ sameOperation (opCtx w) c)
    (λ _ w', mayFail (opCtx w) ∧ ∃ k, w' = set_now k w) w.
Proof.
  intros Hcl Hst. unfold _releaseTransactionResourcesToOpCtx. wp_steps. rewrite Hst. wp_steps.
  unfold release. wp_step. apply (external_wp env).
  - wp_steps; [by rewrite Hcl|]. by eexists (S (now w)), _.
  - intros Hm e. wp_steps. split; [done|]. exists (S (now w)). destruct w as [[] ? ? ? ? ? ? ? ?].
    simpl in *. by rewrite Hst.
Qed.

Lemma release_wp n rep w r allowed :
  Begun n rep w → txnResourceStash (obs w) = Some r →
  wp (_releaseTransactionResourcesToOpCtx env allowed)
    (λ _ w', ∃ k c, w' = unstashed k c w ∧ Running n rep w' ∧
       sameOperation (opCtx w) c)
    (λ _ w', mayFail (opCtx w) ∧ ∃ k, w' = set_now k w) w.
Proof.
  intros [Hc Hf Hv Hp Ho Hpr He] Hst.
  pose proof (c_stash w Hc) as HT. unfold StashOk in HT. rewrite Hst in HT. destruct HT as [Hl HT].
  pose proof (Core_unstash w Hc) as Hc'. destruct Hf as [Hn Hrep [Hcl _] _ _ _ _ _].
  eapply wp_mono; [by apply releaseResources_wp| |done].
  intros _ w' (k & c & -> & [H1 H2 H3 H4 H5] & Hsame). pose proof Hsame as (E1 & E2 & _).
  exists k, c. split_and!; [done| |done].
  split; simpl; rewrite ?H1, ?H2, ?H3, ?H4, ?H5, ?E1, ?E2; try done.
  - by apply (Core_same _ _ Hc').
  - intros Hs. rewrite Hs in HT. split; [done|]. intros Hrep'. by apply He.
  - intros Hs. by rewrite Hs in HT.
  - intros Hs. by destruct (txnState (obs w)).
Qed.

Lemma openTransaction_wp n rep w :
  Begun n rep w → txnResourceStash (obs w) = None → txnState (obs w) = kInProgress →
  wp (openTransaction env)
    (λ _ w', ∃ k c, w' = unstashed k c w ∧ Running n rep w' ∧ sameOperation (opCtx w) c)
    (λ _ w', mayFail (opCtx w) ∧ UnstashFailed n w w') w.
Proof.
  intros [Hc Hf Hv Hp Ho Hpr He] Hst Hs.
  pose proof (Core_unstash w Hc) as Hc'. destruct Hf as [Hn Hr [Hcl1 Hcl2] Hrs Hlo Ht Hun Hru].
  rewrite Hs in *. unfold openTransaction. wp_steps; [by rewrite Hlo|by rewrite Hrs|by rewrite Hcl2|].
  assert (Hfail : ∀ w1, sameSession w w1 → sameOperation (opCtx w) (opCtx w1) →
    oc_writeUnitOfWork (opCtx w1) = true →
    oc_rstlLocked (opCtx w1) = true ∨ ru_inActiveTxn (oc_recoveryUnit (opCtx w1)) = false →
    UnstashFailed n w w1).
  { intros w1 Hw1 (H1 & H2 & H3 & H4) Hw Hrl. exists (now w1), (opCtx w1).
    split_and!; try congruence. auto. }
  assert (Hdone : ∀ w1, sameSession w w1 → sameOperation (opCtx w) (opCtx w1) →
    oc_writeUnitOfWork (opCtx w1) = true → oc_inAWriteUnitOfWork (opCtx w1) = true →
    oc_rstlLocked (opCtx w1) = true → oc_locked (opCtx w1) = true →
    ∃ k c, w1 = unstashed k c w ∧ Running n rep w1 ∧ sameOperation (opCtx w) c).
  { intros w1 Hw1 Hsame Hw Hi Hrl Hl. exists (now w1), (opCtx w1).
    pose proof Hsame as (H1 & H2 & H3 & H4).
    assert (w1 = unstashed (now w1) (opCtx w1) w) as Heq.
    { etransitivity; [exact Hw1|]. destruct w as [[] ? ? ? ? ? ? ? ?]. simpl in *. by subst. }
    split_and!; [done| |done]. rewrite Heq. split; simpl; rewrite ?Hs; try congruence.
    - by apply (Core_same _ _ Hc').
    - done.
    - by auto.
    - intros _. by split; [|apply He].
    - done. }
  apply wp_when; intros Hb; wp_steps; rewrite ?Hr, ?Ht, ?orb_true_r; try done.
  { rewrite Hr in Hb. by destruct rep. }
  all: apply (external_wp env); [|intros Hm e; split; [done|]; apply Hfail; [done..|right; simpl; by rewrite Hru]].
  all: wp_steps; apply (external_wp env); [|intros Hm e; split; [done|]; by apply Hfail; [..|left]].
  all: wp_steps; by apply Hdone.
Qed.
(** Without an open transaction there is nothing to take. *)
Lemma Begun_Running n rep w :
  Begun n rep w → isOpen (txnState (obs w)) = false → txnResourceStash (obs w) = None →
  ∃ k c, w = unstashed k c w ∧ Running n rep w ∧ sameOperation (opCtx w) c.
Proof.
  intros [Hc [] Hv Hp _ _ _] Ho Hst. exists (now w), (opCtx w). split_and!; [| |done].
  - destruct w as [[] ? ? ? ? ? ? ? ?]. simpl in *. by subst.
  - split; auto; [by rewrite Ho|by intros Hs; rewrite Hs in Ho..].
Qed.

Lemma Core_stash_open w r :
  Core w → txnResourceStash (obs w) = Some r → isOpen (txnState (obs w)) = true.
Proof.
  intros Hc Hr. pose proof (c_stash w Hc) as HT. unfold StashOk in HT. rewrite Hr in HT.
  destruct HT as [_ HT]. by destruct (txnState (obs w)).
Qed.

Lemma unstash_wp n rep w cmd :
  Begun n rep w →
  (rep = false → isOpen (txnState (obs w)) = true ∧ (txnState (obs w) = kPrepared → cmd ≠ CmdOther)) →
  wp (unstashTransactionResources env cmd)
    (λ _ w', (∃ k c, w' = unstashed k c w ∧ Running n rep w' ∧ sameOperation (opCtx w) c) ∧
       (isInRetryableWriteMode (txnState (obs w)) = false → cmd = CmdOther →
        txnState (obs w) = kInProgress))
    (λ _ w', UnstashFailed n w w' ∧ rep = true) w.
Proof.
  intros Hb Happ. pose proof (b_core _ _ _ Hb) as Hc. pose proof (b_ctx _ _ _ Hb) as Hf.
  assert (Hsame : UnstashFailed n w w) by (by eapply UnstashFailed_same).
  assert (Hrep : mayFail (opCtx w) → rep = true) by (intros [_ Hr]; by rewrite <- (f_replicated _ _ _ Hf)).
  unfold unstashTransactionResources. wp_steps.
  { apply bool_decide_eq_true. by rewrite (f_txnNumber _ _ _ Hf). }
  destruct (isInRetryableWriteMode (txnState (obs w))) eqn:Hm.
  - assert (txnResourceStash (obs w) = None) as Hst.
    { destruct (txnResourceStash (obs w)) eqn:Hst; [|done].
      pose proof (Core_stash_open _ _ Hc Hst). by destruct (txnState (obs w)). }
    wp_steps; [by rewrite Hst|]. split; [|done].
    apply Begun_Running; [done| |done]. by destruct (txnState (obs w)).
  - wp_step. unfold _checkIsCommandValidWithTxnState. wp_steps.
    apply wp_uassert; [intros H1|intros H1; split; [done|]].
    2: { destruct rep; [done|]. destruct (Happ eq_refl). by destruct (txnState (obs w)). }
    wp_steps. apply wp_uassert; [intros H2|intros H2; split; [done|]].
    2: { destruct rep; [done|]. destruct (Happ eq_refl). destruct (txnState (obs w)), cmd; done. }
    apply wp_uassert; [intros H3|intros H3; split; [done|]].
    2: { destruct rep; [done|]. destruct (Happ eq_refl) as [_ Hx].
         destruct (txnState (obs w)), cmd; try done. by specialize (Hx eq_refl). }
    assert (Hother : false = false → cmd = CmdOther → txnState (obs w) = kInProgress).
    { intros _ ->. by destruct (txnState (obs w)). }
    destruct (txnResourceStash (obs w)) as [r|] eqn:Hst.
    + wp_steps. eapply wp_mono; [by eapply release_wp|by split|].
      intros e w' (Hmf & k & ->). split; [|auto]. exists k, (opCtx w).
      split_and!; [by destruct w|apply Hf|done|congruence].
    + wp_steps.
      { destruct (txnState (obs w)) eqn:Hs; try done. destruct (b_prepared _ _ _ Hb Hs). congruence. }
      destruct (isInProgress (txnState (obs w))) eqn:Hip.
      * eapply wp_mono; [eapply openTransaction_wp; [done..|by destruct (txnState (obs w))]|by split|].
        intros e w' [Hmf Hx]. auto.
      * wp_steps. split; [|done]. apply Begun_Running; [done| |done].
        destruct (txnState (obs w)) eqn:Hs; try done.
        destruct (b_prepared _ _ _ Hb Hs). congruence.
Qed.

(** ** Stashing *)

(** A session between operations whose prepared transaction may not be on record yet. *)
Record Unrecorded (w : World) : Prop := {
  u_core : Core w;
  u_stash : isOpen (txnState (obs w)) = true → is_Some (txnResourceStash (obs w));
  u_entry : txnState (obs w) = kInProgress → needToWriteAbortEntry (prv w) = false;
  u_primary : txnState (obs w) = kInProgress → primary w = true
}.

Lemma Unrecorded_Idle w : Unrecorded w → preparedRecord w → Idle w.
Proof. intros []. by split. Qed.

(** The resources of an open transaction go back to the stash. *)
Lemma stash_wp n rep w E :
  Running n rep w → (rep = false → txnState (obs w) ≠ kInProgress) →
  wp (stashTransactionResources env)
    (λ _ w', Unrecorded w' ∧ (preparedRecord w → Idle w') ∧ prv w' = prv w ∧ primary w' = primary w ∧
       stored w' = stored w ∧ oplog w' = oplog w ∧
       ∃ r, obs w' = set_txnResourceStash r (obs w)) E w.
Proof.
  intros [Hc Hv Hp Hst Hn Hr Ho Hip Hpr Hcl] Hsec.
  unfold stashTransactionResources. wp_steps; [by rewrite Hn|].
  destruct (isOpen (txnState (obs w))) eqn:Hop.
  - destruct (Ho eq_refl) as (Ha & Hw & Hiw & Hl). wp_steps. unfold _stashActiveTransaction.
    wp_steps. rewrite (c_running w Hc). wp_steps.
    { rewrite Hn, Ha. by apply bool_decide_eq_true. }
    { by rewrite Hst. }
    { destruct (txnState (obs w)) eqn:Hs; try done. by destruct (Hpr eq_refl) as [-> _]. }
    unfold newTxnResources. wp_steps; [by rewrite Hw|by rewrite Hl, orb_true_r|].
    match goal with |- Unrecorded ?w' ∧ _ => assert (Hu : Unrecorded w') end.
    { split; simpl; try done.
      + destruct Hc as [[] HS HT HD HC H1 H2 ? Hi ?]. split; try done.
        * unfold StashOk. simpl. split; [done|]. destruct (txnState (obs w)); try done; [|auto].
          by destruct Hip.
        * simpl. congruence.
      + intros Hs. destruct (Hip Hs) as [_ Hx]. apply Hx. destruct rep; [done|]. by destruct Hsec.
      + intros Hs. apply Hp. destruct rep; [done|]. by destruct Hsec. }
    split_and!; [done| |done..|by eexists]. intros Hrec. by apply Unrecorded_Idle.
  - wp_steps. assert (Hu : Unrecorded w).
    { split; try done; [by rewrite Hop|..]; intros Hs; by rewrite Hs in Hop. }
    split_and!; try done.
    + intros Hrec. by apply Unrecorded_Idle.
    + exists None. destruct w as [[] ? ? ? ? ? ? ? ?]. simpl in *. by subst.
Qed.

End Run.
