(* ===== verification/TransactionCommands.v ===== *)
(** The commands: each keeps what holds while an operation runs. *)
From stdpp Require Import gmap.
From S2P Require Import Prelude OpTimes TransactionState TransactionParticipant TransactionSession TransactionInv TransactionPhases TransactionRun.
Import TransactionParticipant TransactionSession.

Section Commands.
Context {R : Reuse} (env : Env) `{!EnvOk env}.

(** ** Aborting *)

Lemma ended_Ended w c :
  Core w → txnState (obs w) = kInProgress → sameOperation (opCtx w) c → closed c →
  Ended kAbortedWithoutPrepare w (set_opCtx c (ended kAbortedWithoutPrepare w)).
Proof.
  intros Hc Hs Ho Hcl. assert (Hop : isOpen (txnState (obs w)) = true) by (by rewrite Hs).
  split; try done; [|exact (Core_open_valid w Hc Hop)].
  eapply Core_same; [apply (aborted_Core w kAbortedWithoutPrepare)|done..].
  - by apply Core_Core0.
  - apply Core_notPrepared; [done|by rewrite Hs].
  - right. split; [done|]. by apply Core_open_own.
Qed.

Lemma Ended_Running st n rep w w' :
  Ended st w w' → Running n rep w → isOpen st = false → Running n rep w'.
Proof.
  intros [Hc Hs Hst Hv Hp Ha (H1 & H2 & H3 & H4) Hcl] [] Ho.
  split; rewrite ?Hs; try congruence; try done.
  - intros. rewrite Hp. auto.
  - intros Hx. by rewrite Hx in Ho.
  - intros Hx. by rewrite Hx in Ho.
Qed.

Lemma abortRunning_wp n rep E w :
  Running n rep w → txnState (obs w) = kInProgress → (rep = true → needToWriteAbortEntry (prv w) = false) →
  wp (abortTransaction env)
    (λ _ w', Ended kAbortedWithoutPrepare w w' ∧ stored w' = stored w ∧ oplog w' = oplog w) E w.
Proof.
  intros Hr Hs Hn. destruct (r_open _ _ _ Hr) as (Ha & Hw & Hi & Hl); [by rewrite Hs|].
  pose proof (r_replicated _ _ _ Hr) as Hrep.
  eapply wp_mono; [apply abortInProgress_wp|intros _ w' (c & -> & Hsame & Hcl)|done].
  - apply Hr.
  - done.
  - rewrite Hrep. done.
  - intros _. right. rewrite Ha, (r_txnNumber _ _ _ Hr). split; [done|]. left. split; [done|].
    left. by apply (r_inProgress _ _ _ Hr).
  - split; [|done]. apply ended_Ended; [apply Hr|done..|].
    apply Hcl; [apply Hr|]. by rewrite (r_txnNumber _ _ _ Hr).
Qed.

(** Whether or not the transaction is prepared, aborting keeps what holds of an operation. *)
Lemma Running_Abortable n rep w :
  Running n rep w → txnState (obs w) = kPrepared → (rep = false → notPrepared (stored w)) →
  Abortable w.
Proof.
  intros Hr Hs Hnp. destruct (r_open _ _ _ Hr) as (Ha & Hw & Hi & Hl); [by rewrite Hs|].
  pose proof (r_core _ _ _ Hr) as Hc. pose proof (c_state w Hc) as HS.
  unfold StateOk in HS. rewrite Hs in HS. destruct HS as (_ & _ & _ & Hneed & _ & H0).
  pose proof (r_replicated _ _ _ Hr) as Hrep.
  split; try done.
  - apply Core_Core0; [done|by rewrite Hs].
  - apply Core_open_own; [done|by rewrite Hs].
  - apply Hr.
  - by rewrite Ha, (r_txnNumber _ _ _ Hr).
  - rewrite Hrep. apply Hr.
  - rewrite Hrep, Hneed. destruct rep; [by left|right; auto].
Qed.

Lemma Running_set n rep w k c :
  Running n rep w → c = opCtx w ∨ (txnState (obs w) = kPrepared ∧ c = set_oc_rstlLocked false (opCtx w)) →
  Running n rep (set_now k (set_opCtx c w)).
Proof.
  intros Hr Hc'. assert (Core (set_now k (set_opCtx c w))) by (by apply Core_set, Hr).
  destruct Hr as [? ? ? ? ? ? ? Hip Hpr ?]. destruct Hc' as [->|[Hs ->]]; [done|].
  split; try done; simpl.
  - rewrite Hs. done.
  - intros Hx. split; [done|]. by apply Hpr.
Qed.

Lemma Running_now n rep w k : Running n rep w → Running n rep (set_now k w).
Proof.
  intros Hr. pose proof (Running_set n rep w k _ Hr (or_introl eq_refl)) as Hx.
  by destruct w.
Qed.

Lemma Running_uninterruptible n rep w b :
  Running n rep w → Running n rep (set_opCtx (set_oc_uninterruptible b (opCtx w)) w).
Proof. intros []. split; try done. by apply (Core_same w). Qed.

(** The outcome of an abort on a prepared transaction. *)
Lemma abortTransactionCmd_wp n w :
  Running n true w →
  wp (abortTransactionCmd env)
    (λ _ w', Running n true w' ∧
       (txnState (obs w) = kPrepared → ∃ t, oplog w' = oplog w ++ [EvAbort n t]))
    (λ _ w', Running n true w' ∧ (txnState (obs w) = kPrepared → Keeps w w')) w.
Proof.
  intros Hr. unfold abortTransactionCmd. wp_steps. apply wp_uassert; [intros Ho|done].
  wp_step. apply (external_wp env).
  2: { intros _ e. split; [by apply Running_now|]. intros _. by apply Keeps_same. }
  pose proof (Running_now _ _ _ (S (now w)) Hr) as Hr'. revert Hr' Ho.
  assert (Hk : ∀ w', Keeps (set_now (S (now w)) w) w' → Keeps w w').
  { intros w' Hk. transitivity (set_now (S (now w)) w); [by apply Keeps_same|done]. }
  revert Hk. change (obs w) with (obs (set_now (S (now w)) w)).
  change (oplog w) with (oplog (set_now (S (now w)) w)).
  generalize (set_now (S (now w)) w). clear Hr. intros w1 Hk Hr Ho.
  destruct (txnState (obs w1)) eqn:Hs; try done.
  - eapply wp_mono; [apply (abortRunning_wp _ _ (λ _ _, False) _ Hr Hs), Hr, Hs| |done].
    intros _ w' [He _]. split; [by eapply Ended_Running|done].
  - destruct (r_open _ _ _ Hr) as (Ha & _); [by rewrite Hs|].
    pose proof (c_state w1 (r_core _ _ _ Hr)) as HS. unfold StateOk in HS. rewrite Hs in HS.
    destruct HS as (_ & _ & _ & Hneed & _).
    eapply wp_mono; [apply (abortPrepared_wp env
      (λ _ w', Running n true w' ∧ Keeps w1 w'))| |].
    + by eapply Running_Abortable.
    + intros Hm e k c Hc. split; [|by apply Keeps_same].
      destruct Hc as [->| ->]; apply Running_set; auto.
    + intros x w' [He Hlog]. split; [exact (Ended_Running _ _ _ _ _ He Hr eq_refl)|]. intros _.
      rewrite <- Ha. apply Hlog. by rewrite (r_replicated _ _ _ Hr), Hneed.
    + intros e w' [? ?]. split; [done|]. intros _. by apply Hk.
Qed.

(** ** Preparing *)

(** A transaction enters the prepared state. *)
Definition preparing (w : World) : World :=
  set_promises (S (promises w))
    (set_obs (set_exitPreparePromise (Some (promises w)) (set_txnState kPrepared (obs w))) w).

Lemma transitionPrepared_wp (Q : unit → World → Prop) E w :
  PromiseOk w → txnState (obs w) = kInProgress → Q tt (preparing w) →
  wp (transitionTo kPrepared kValidateTransition) Q E w.
Proof.
  intros [Hp _ _] Hs HQ. unfold transitionTo. wp_steps; [by rewrite Hs|]. rewrite Hs.
  apply wp_when; [done|intros _]. wp_steps; [|done].
  destruct (exitPreparePromise (obs w)); [|done].
  assert (txnState (obs w) = kPrepared) by (apply Hp; eauto). congruence.
Qed.

(** What preparing leaves of the session until its entry is durable. *)
Record Preparing (w w' : World) : Prop := {
  pg_state : txnState (obs w') = kPrepared;
  pg_promise : exitPreparePromise (obs w') = Some (promises w);
  pg_stash : txnResourceStash (obs w') = txnResourceStash (obs w);
  pg_active : activeTxnNumber (obs w') = activeTxnNumber (obs w);
  pg_valid : isValid (prv w') = isValid (prv w);
  pg_shutdown : inShutdown (prv w') = inShutdown (prv w);
  pg_primary : primary w' = primary w;
  pg_promises : promises w' = S (promises w);
  pg_fulfilled : fulfilled w' = fulfilled w;
  pg_same : sameOperation (opCtx w) (opCtx w');
  pg_unit : oc_writeUnitOfWork (opCtx w') = oc_writeUnitOfWork (opCtx w)
}.

Lemma Preparing_promise w w' :
  PromiseOk w → txnState (obs w) = kInProgress → Preparing w w' → PromiseOk w'.
Proof.
  intros Hp Hs [H1 H2 _ _ _ _ _ H3 H4 _ _].
  pose proof (PromiseOk_enter w (set_exitPreparePromise (Some (promises w)) (set_txnState kPrepared (obs w)))
    Hp ltac:(by rewrite Hs) eq_refl eq_refl) as [P1 P2 P3]. simpl in *.
  split; rewrite ?H1, ?H2, ?H3, ?H4; done.
Qed.

Lemma Preparing_Abortable n w w' :
  Running n true w → txnState (obs w) = kInProgress → Preparing w w' →
  oplog w' = oplog w → stored w' = stored w → Abortable w'.
Proof.
  intros Hr Hs Hg H6 H7.
  destruct (r_open _ _ _ Hr) as (Ha & Hw & _); [by rewrite Hs|].
  pose proof (Core_Core0 w (r_core _ _ _ Hr) ltac:(by rewrite Hs)) as [Hp Hd Hsh Hv Ho].
  pose proof (Preparing_promise w w' Hp Hs Hg) as Hp'.
  pose proof (c_state _ (r_core _ _ _ Hr)) as HS. unfold StateOk in HS. rewrite Hs in HS.
  destruct HS as (_ & _ & _ & H0).
  destruct Hg as [G1 G2 G3 G4 G5 G6 G7 G8 G9 (Hn & Hrep & _) G11].
  split; rewrite ?G1, ?G3, ?G4, ?G7, ?H7, ?Hn, ?Hrep, ?G11; try done.
  - split; rewrite ?G4, ?G5, ?G6, ?G7, ?H6, ?H7; done.
  - apply Core_open_own; [apply Hr|by rewrite Hs].
  - apply Hr.
  - by rewrite Ha, (r_txnNumber _ _ _ Hr).
  - intros _. by apply Hr.
  - right. apply Core_notPrepared; [apply Hr|by rewrite Hs].
Qed.

(** The abort that a failed prepare makes is not interrupted. *)
Definition prepareGuard (prepareOptime : option OpTime.t) : M unit :=
  assert (bool_decide (prepareOptime = None)) ;; noThrow (uninterruptible (abortTransaction env)).

Lemma Ended_interruptible st w w' :
  Ended st (set_opCtx (set_oc_uninterruptible true (opCtx w)) w) w' →
  Ended st w (set_opCtx (set_oc_uninterruptible (oc_uninterruptible (opCtx w)) (opCtx w')) w').
Proof.
  intros [Hc Hs Hst Hv Hp Ha (H1 & H2 & H3 & H4) [Hc1 Hc2]]. split; try done.
  by apply (Core_same _ _ Hc).
Qed.

Lemma Ended_trans st w w1 w' :
  Ended st w1 w' → primary w1 = primary w → activeTxnNumber (obs w1) = activeTxnNumber (obs w) →
  sameOperation (opCtx w) (opCtx w1) → Ended st w w'.
Proof.
  intros [Hc Hs Hst Hv Hp Ha (H1 & H2 & H3 & H4) Hcl] E1 E2 (F1 & F2 & F3 & F4).
  split; try done; try congruence. unfold sameOperation. by rewrite H1, H2, H3, H4.
Qed.

Lemma prepareGuard_inProgress n E w :
  Running n true w → txnState (obs w) = kInProgress →
  wp (prepareGuard None) (λ _ w', Running n true w') E w.
Proof.
  intros Hr Hs. unfold prepareGuard. wp_steps. apply wp_uninterruptible.
  set (w1 := set_opCtx (set_oc_uninterruptible true (opCtx w)) w).
  assert (Hc1 : Core w1) by (by apply (Core_same w); [apply Hr|..]).
  destruct (r_open _ _ _ Hr) as (Ha & Hw & Hi & Hl); [by rewrite Hs|].
  eapply wp_mono; [apply (abortInProgress_wp env (λ _ _, False) w1)| |done].
  - done.
  - done.
  - intros _. by apply (r_inProgress _ _ _ Hr).
  - intros _. right. simpl. rewrite Ha. split; [apply Hr|]. left. split; [done|].
    left. by apply (r_inProgress _ _ _ Hr).
  - intros x w' (c & -> & Hsame & Hcl).
    apply (Ended_Running kAbortedWithoutPrepare n true w); [|done..].
    apply Ended_interruptible, ended_Ended; [done..|]. apply Hcl; [apply Hr|].
    simpl. by rewrite (r_txnNumber _ _ _ Hr).
Qed.

Lemma prepareGuard_preparing n E w w1 :
  Running n true w → txnState (obs w) = kInProgress → Preparing w w1 →
  oplog w1 = oplog w → stored w1 = stored w →
  wp (prepareGuard None) (λ _ w', Running n true w') E w1.
Proof.
  intros Hr Hs Hg H6 H7. unfold prepareGuard. wp_steps. apply wp_uninterruptible.
  assert (Hab : Abortable w1) by (by eapply Preparing_Abortable).
  eapply wp_mono; [apply (abortPrepared_wp env (λ _ _, False))| |done].
  - destruct Hab as [Hc ? ? ? ? ? ? ? ?]. split; try done. by apply (Core0_set w1 (now w1)).
  - by intros [? _].
  - intros x w' [He _]. apply (Ended_Running kAbortedWithPrepare n true w); [|done..].
    eapply Ended_trans; [by apply Ended_interruptible|..]; apply Hg.
Qed.

(** A prepared transaction whose entry is durable, on a primary, or to be put on record, on a
    secondary. *)
Lemma Preparing_Running n rep w w' slot :
  Running n rep w → txnState (obs w) = kInProgress → OpTime.isNull slot = false → Preparing w w' →
  prepareOpTime (obs w') = slot → lastWriteOpTime (obs w') = slot →
  autoCommit (prv w') = autoCommit (prv w) → needToWriteAbortEntry (prv w') = true →
  (if rep then
     ∃ before t lastOps, oplog w' = oplog w ++ before ++ [EvPrepare n t lastOps] ∧
       Forall (partialEntry n) before ∧ OpTime.isNull t = false ∧
       stored w' = Some (mkStored (txnRecord n t dPrepared) [])
   else primary w = false ∧ oplog w' = oplog w ∧ stored w' = stored w) →
  oc_inAWriteUnitOfWork (opCtx w') = true → oc_locked (opCtx w') = true →
  oc_rstlLocked (opCtx w') = false →
  ru_prepareTimestamp (oc_recoveryUnit (opCtx w')) = OpTime.timestamp slot →
  Running n rep w'.
Proof.
  intros Hr Hs Hslot Hg E1 E2 E3 E4 E5 Hi Hl Hrs Hts.
  destruct (r_open _ _ _ Hr) as (Ha & Hw & _); [by rewrite Hs|].
  pose proof (Core_Core0 w (r_core _ _ _ Hr) ltac:(by rewrite Hs)) as [Hp Hd Hsh Hv Ho].
  pose proof (Core_notPrepared w (r_core _ _ _ Hr) ltac:(by rewrite Hs)) as Hnp.
  pose proof (Preparing_promise w w' Hp Hs Hg) as Hp'.
  pose proof (c_state _ (r_core _ _ _ Hr)) as HS. unfold StateOk in HS. rewrite Hs in HS.
  destruct HS as (Hac & _ & _ & H0).
  destruct Hg as [G1 G2 G3 G4 G5 G6 G7 G8 G9 (Hn & Hrep & _) G11].
  pose proof (r_primary _ _ _ Hr) as Hprim.
  pose proof (Core_open_own w (r_core _ _ _ Hr) ltac:(by rewrite Hs)) as Hown.
  split; rewrite ?G1, ?G3, ?G4, ?G5, ?G7, ?G11, ?E1, ?Hn, ?Hrep; try done; try apply Hr.
  split; rewrite ?G4, ?G5, ?G6, ?G7; try done.
  - unfold StateOk. rewrite G1, E1, E2, E3, E4, G4, G5. done.
  - unfold StashOk. by rewrite G3, (r_stash _ _ _ Hr).
  - destruct rep; [destruct E5 as (before & t & lastOps & -> & Hb & Ht & ->)|by destruct E5 as (_ & -> & ->)].
    rewrite Ha in H0. rewrite app_assoc. apply (DurableOk_txn _ (stored w)); try done.
    + apply DurableOk_quiet; [done|by eapply partialEntries_quiet].
    + rewrite <- Ha. by auto.
  - intros Hpr _. unfold CacheOk. rewrite G1, G4.
    destruct rep; [|by destruct E5; congruence]. destruct E5 as (? & ? & ? & _ & _ & _ & ->).
    intros s [= <-]; simpl; lia.
  - intros Hpr _. destruct rep; [|by destruct E5; congruence]. destruct E5 as (? & ? & ? & _ & _ & _ & ->).
    rewrite G4. eexists. split; [done|]. simpl. by rewrite Ha.
  - intros Hpr. destruct rep; [|by destruct E5; congruence]. destruct E5 as (? & ? & ? & _ & _ & _ & ->).
    by intros s [= <-].
  - by rewrite Hv.
Qed.

Lemma isOpen_retrieve s : isOpen s = true → isInSet s (Z.lor (bit kInProgress) (bit kPrepared)) = true.
Proof. by destruct s. Qed.

Lemma retrieve_wp (Q : list ReplOperation → World → Prop) E w :
  isOpen (txnState (obs w)) = true → Q (transactionOperations (prv w)) w →
  wp retrieveCompletedTransactionOperations Q E w.
Proof.
  intros Ho HQ. unfold retrieveCompletedTransactionOperations. wp_steps; [|done].
  by apply isOpen_retrieve.
Qed.

(** The entries of a prepare. *)
Lemma onTransactionPrepare_wp (Q : unit → World → Prop) E w n first t ops k :
  oc_txnNumber (opCtx w) = Some n → oc_writesAreReplicated (opCtx w) = true → OpTime.isNull t = false →
  activeTxnNumber (obs w) = n → isValid (prv w) = true → isNone (txnState (obs w)) = false →
  (∀ before t' lastOps k', Forall (partialEntry n) before → OpTime.isNull t' = false →
     Q tt (set_now k' (recorded (EvPrepare n t' lastOps) n t' dPrepared (logging before w)))) →
  (mayFail (opCtx w) → ∀ e k', E e (set_now k' w)) →
  wp (onTransactionPrepare env first t ops k) Q E w.
Proof.
  intros Hn Hrep Ht Ha Hv Hs HQ HE. unfold onTransactionPrepare.
  wp_steps; [by rewrite Hn|by rewrite Ht|]. rewrite Hrep, Hn. wp_steps.
  destruct (bool_decide (length ops = 0%nat)) eqn:Hlen.
  - apply (inUnitOfWork_txn_wp env); [done..| |done]. intros k'.
    specialize (HQ [] (env_slot env first) [] k' (Forall_nil_2 _) (e_slot env _)).
    unfold recorded, logging in *. simpl in *. by rewrite app_nil_r in HQ.
  - apply (unitOfWork_wp env _ (λ ch, txnChange n ops true t ch)); [done..| | |done].
    + intros Q' E' HQ' HE'. apply (logOplogEntries_wp env); [done|done|by intros ->| |done].
      intros ch t' k' -> Hch. by apply HQ'.
    + intros ch (before & lastOps & -> & Hb & _). eexists _, _, _, _, _. split; [done|]. intros k'. by apply HQ.
Qed.

Lemma prepareTransaction_wp n w :
  Running n true w → txnState (obs w) = kInProgress →
  wp (prepareTransaction env None)
    (λ _ w', Running n true w' ∧ txnState (obs w') = kPrepared)
    (λ _ w', Running n true w') w.
Proof.
  intros Hr Hs. pose proof (r_core _ _ _ Hr) as Hc.
  destruct (r_open _ _ _ Hr) as (Ha & Hw & Hi & Hl); [by rewrite Hs|].
  destruct (r_inProgress _ _ _ Hr Hs) as [Hrs _].
  pose proof (c_state _ Hc) as HS. unfold StateOk in HS. rewrite Hs in HS.
  destruct HS as (_ & Hpo & _ & H0).
  unfold prepareTransaction. change (assert (bool_decide (@None OpTime.t = None)) ;; _) with (prepareGuard None).
  wp_steps. apply retrieve_wp; [by rewrite Hs|].
  wp_step. apply (external_wp env).
  2: { intros _ e. apply prepareGuard_inProgress; [|done]. by apply Running_now. }
  wp_step. apply (external_wp env).
  2: { intros _ e. apply prepareGuard_inProgress; [|done]. by do 2 apply Running_now. }
  wp_step. apply transitionPrepared_wp; [by destruct (c_promise w Hc); split|done|].
  wp_steps. apply (reserveSlots_wp env).
  2: { intros _ e k. by apply (prepareGuard_preparing n _ w); [..|split|]. }
  wp_steps; [by rewrite (e_slot env)|done|].
  match goal with |- context [set_prepareOpTime (env_slot env ?i)] =>
    pose proof (e_slot env i) as Hslot; revert Hslot; generalize (env_slot env i); intros slot Hslot end.
  apply (external_wp env).
  2: { intros _ e. by apply (prepareGuard_preparing n _ w); [..|split|]. }
  wp_steps. apply (onTransactionPrepare_wp _ _ _ n).
  - apply (r_txnNumber _ _ _ Hr).
  - apply (r_replicated _ _ _ Hr).
  - done.
  - done.
  - apply (Core_open_valid w Hc). by rewrite Hs.
  - done.
  - intros before t lastOps k Hb Ht. wp_steps; [done|]. split; [|done].
    eapply (Preparing_Running n true w _ slot); try done.
    exists before, t, lastOps. simpl. by rewrite <- app_assoc.
  - intros _ e k. by apply (prepareGuard_preparing n _ w); [..|split|].
Qed.

Lemma prepareTransactionCmd_wp n w :
  Running n true w →
  wp (prepareTransactionCmd env)
    (λ _ w', Running n true w' ∧ txnState (obs w') = kPrepared) (λ _ w', Running n true w') w.
Proof.
  intros Hr. unfold prepareTransactionCmd. wp_step.
  apply (external_wp env); [|by intros; apply Running_now].
  pose proof (Running_now _ _ _ (S (now w)) Hr) as Hr'. revert Hr'.
  generalize (set_now (S (now w)) w). clear Hr w. intros w Hr. wp_steps.
  apply wp_uassert; [intros Ho|done]. destruct (isPrepared (txnState (obs w))) eqn:Hp.
  - assert (txnState (obs w) = kPrepared) as Hs by (by destruct (txnState (obs w))).
    wp_steps; [|done]. destruct (r_prepared _ _ _ Hr Hs) as [_ ->]. by apply Timestamp.eqb_eq.
  - assert (txnState (obs w) = kInProgress) as Hs by (by destruct (txnState (obs w))).
    wp_step. eapply wp_mono; [by apply prepareTransaction_wp|done|done].
Qed.

(** On a secondary the position is the entry's, and nothing can fail. *)
Lemma prepareApplied_wp n w t :
  Running n false w → txnState (obs w) = kInProgress → primary w = false → OpTime.isNull t = false →
  wp (prepareTransaction env (Some t))
    (λ _ w', Running n false w' ∧ txnState (obs w') = kPrepared ∧ oplog w' = oplog w ∧
       stored w' = stored w ∧ activeTxnNumber (obs w') = n ∧ primary w' = false)
    (λ _ _, False) w.
Proof.
  intros Hr Hs Hprim Ht. pose proof (r_core _ _ _ Hr) as Hc.
  destruct (r_open _ _ _ Hr) as (Ha & Hw & Hi & Hl); [by rewrite Hs|].
  destruct (r_inProgress _ _ _ Hr Hs) as [Hrs _].
  pose proof (r_replicated _ _ _ Hr) as Hrep.
  assert (Hnf : mayFail (opCtx w) → False) by (intros [_ ?]; congruence).
  unfold prepareTransaction. wp_steps. apply retrieve_wp; [by rewrite Hs|].
  wp_step. apply (external_wp env); [|by intros]. wp_step. apply (external_wp env); [|by intros].
  wp_step. apply transitionPrepared_wp; [by destruct (c_promise w Hc); split|done|].
  wp_steps. apply (external_wp env); [|by intros].
  wp_steps. unfold onTransactionPrepare. wp_steps.
  { by rewrite (r_txnNumber _ _ _ Hr). }
  { by rewrite Ht. }
  rewrite Hrep. wp_steps; [done|]. split_and!; try done.
  by eapply (Preparing_Running n false w _ t); [..|split|].
Qed.

(** ** Committing *)

(** What committing leaves of the session. *)
Record Committed (w w' : World) : Prop := {
  cm_state : txnState (obs w') = kCommitted;
  cm_promise : exitPreparePromise (obs w') = None;
  cm_fulfilled : fulfilled w' =
    match exitPreparePromise (obs w) with Some k => {[k]} ∪ fulfilled w | None => fulfilled w end;
  cm_promises : promises w' = promises w;
  cm_stash : txnResourceStash (obs w') = txnResourceStash (obs w);
  cm_active : activeTxnNumber (obs w') = activeTxnNumber (obs w);
  cm_valid : isValid (prv w') = isValid (prv w);
  cm_shutdown : inShutdown (prv w') = inShutdown (prv w);
  cm_primary : primary w' = primary w;
  cm_txnNumber : oc_txnNumber (opCtx w') = oc_txnNumber (opCtx w);
  cm_replicated : oc_writesAreReplicated (opCtx w') = oc_writesAreReplicated (opCtx w);
  cm_closed : closed (opCtx w')
}.

Lemma Committed_Running n rep w w' :
  Running n rep w → isOpen (txnState (obs w)) = true → Committed w w' →
  DurableOk (oplog w') (stored w') → notPrepared (stored w') →
  (primary w = true → notNewer (activeTxnNumber (obs w)) (stored w') ∧ notInProgress (stored w')) →
  Running n rep w'.
Proof.
  intros Hr Ho [C1 C2 C3 C4 C5 C6 C7 C8 C9 Hn Hrep C11] Hd Hnp Hold.
  pose proof (r_core _ _ _ Hr) as Hc. pose proof (Core_open_valid w Hc Ho) as Hv.
  split; rewrite ?C1, ?C5, ?C6, ?C7, ?C9, ?Hn, ?Hrep; try done; try apply Hr.
  split; rewrite ?C7, ?C8, ?C9; try done; try apply Hc.
  - pose proof (PromiseOk_exit w (set_exitPreparePromise None (set_txnState kCommitted (obs w))) _
      (c_promise w Hc) ltac:(done) eq_refl eq_refl) as [P1 P2 P3]. simpl in *.
    split; rewrite ?C1, ?C2, ?C3, ?C4; done.
  - unfold StateOk. by rewrite C1.
  - unfold StashOk. by rewrite C5, (r_stash _ _ _ Hr).
  - intros Hp _. unfold CacheOk. rewrite C1, C6. by apply Hold.
  - intros s Hs Hx. by destruct (Hnp s Hs).
  - intros _ Hx. congruence.
  - intros Hp. by apply Hold.
  - congruence.
Qed.

Lemma clear_wp (Q : unit → World → Prop) E w :
  is_Some (autoCommit (prv w)) → isOpen (txnState (obs w)) = true →
  Q tt (set_prv (set_transactionOperationBytes 0 (set_transactionOperations []
    (set_numberOfPreImagesToWrite 0 (prv w)))) w) →
  wp clearOperationsInMemory Q E w.
Proof.
  intros Hac Ho HQ. unfold clearOperationsInMemory.
  wp_steps; [by destruct (txnState (obs w))|by apply bool_decide_eq_true|done].
Qed.

Lemma Core_autoCommit w :
  Core w → isOpen (txnState (obs w)) = true → is_Some (autoCommit (prv w)).
Proof.
  intros Hc Ho. pose proof (c_state w Hc) as HS. unfold StateOk in HS.
  destruct (txnState (obs w)); try done; destruct HS as [-> _]; by eexists.
Qed.

(** The storage transaction commits, with the entry and the record that were written in it. *)
Lemma commitStorage_wp (Q : unit → World → Prop) E w written w1 :
  oc_writeUnitOfWork (opCtx w) = true → oc_rstlLocked (opCtx w) = true →
  isValid (prv w) = true → isNone (txnState (obs w)) = false →
  (written = None ∧ w1 = w ∨
   ∃ before ev n t d, written = Some (mkChange before ev [] (txnRecord n t d) []) ∧
     w1 = recorded ev n t d (logging before w)) →
  (∀ k c, sameOperation (opCtx w) c → closed c → oc_maxLockTimeout c = false →
     Q tt (set_now k (set_opCtx c w1))) →
  (mayFail (opCtx w) → ∀ e k, E e (set_now k w)) →
  wp (_commitStorageTransaction env written) Q E w.
Proof.
  intros Hw Hrs Hv Hs Hwr HQ HE. unfold _commitStorageTransaction. wp_steps; [done..|].
  apply (external_wp env); [|by auto].
  destruct Hwr as [[-> ->]|(before & ev & n & t & d & -> & ->)].
  - wp_steps. by apply HQ.
  - wp_step. apply commitChange_txn_wp; [done..|]. wp_steps. by apply HQ.
Qed.

Lemma transitionCommitted_wp (Q : unit → World → Prop) E w :
  PromiseOk w → isOpen (txnState (obs w)) = true →
  Q tt (set_fulfilled (match exitPreparePromise (obs w) with Some k => {[k]} ∪ fulfilled w | None => fulfilled w end)
         (set_obs (set_exitPreparePromise None (set_txnState kCommitted (obs w))) w)) →
  wp (transitionTo kCommitted kValidateTransition) Q E w.
Proof.
  intros [Hp _ _] Ho HQ. unfold transitionTo, wp. dest_world w.
  destruct pr as [k|].
  - assert (s = kPrepared) as -> by (apply Hp; eauto). done.
  - destruct s; try done. by destruct (proj1 Hp eq_refl).
Qed.

Lemma finishCommit_wp (Q : unit → World → Prop) E w :
  PromiseOk w → isOpen (txnState (obs w)) = true → closed (opCtx w) →
  (∀ c, Cleaned (opCtx w) c →
     Q tt (set_opCtx c (set_fulfilled
             (match exitPreparePromise (obs w) with Some k => {[k]} ∪ fulfilled w | None => fulfilled w end)
         (set_obs (set_exitPreparePromise None (set_txnState kCommitted (obs w))) w)))) →
  wp _finishCommitTransaction Q E w.
Proof.
  intros Hp Ho [Hcl _] HQ. unfold _finishCommitTransaction. wp_steps.
  apply transitionCommitted_wp; [done..|]. apply cleanUp_wp; [simpl; congruence|done].
Qed.

(** The entries of a transaction that was not prepared: together they have its operations in
    their order, and the last one commits it. *)
Definition commitEntries (n : Z) (ops : list ReplOperation) (evs : list OplogEvent) : Prop :=
  (ops = [] ∧ evs = []) ∨
  ∃ before t lastOps, evs = before ++ [EvCommit n t lastOps] ∧ Forall (partialEntry n) before ∧
    operations before ++ lastOps = ops.

(** Writing down the entries of an unprepared commit. *)
Lemma onUnpreparedCommit_wp (Q : option Change → World → Prop) E w n ops k :
  oc_txnNumber (opCtx w) = Some n → activeTxnNumber (obs w) = n → oc_inAWriteUnitOfWork (opCtx w) = true →
  oc_writesAreReplicated (opCtx w) = true →
  (ops = [] → Q None w) →
  (∀ k' t ch, OpTime.isNull t = false → txnChange n ops false t ch → Q (Some ch) (set_now k' w)) →
  (∀ e k', E e (set_now k' w)) →
  wp (onUnpreparedTransactionCommit env ops k) Q E w.
Proof.
  intros Hn Ha Hi Hrep Hnil Hcons HE. unfold onUnpreparedTransactionCommit. wp_steps; [by rewrite Hn|].
  rewrite Hrep, Hn. simpl. destruct (bool_decide (length ops = 0%nat)) eqn:Hlen.
  - wp_steps. apply Hnil. by destruct ops.
  - wp_step. apply (reserveSlots_wp env); [|by intros]. wp_step.
    apply (logOplogEntries_wp env); [done|done|by intros ->| |by intros; apply HE].
    intros ch t k' Ht Hch. wp_steps; [by rewrite (e_slot env)|]. by apply (Hcons k' t).
Qed.

Lemma Running_txnNumber n rep w : Running n rep w → isOpen (txnState (obs w)) = true → 0 <= n.
Proof.
  intros Hr Ho. destruct (r_open _ _ _ Hr Ho) as [<- _].
  pose proof (c_state w (r_core _ _ _ Hr)) as HS. unfold StateOk in HS.
  destruct (txnState (obs w)); try done; tauto.
Qed.

(** The outcome of an unprepared commit, and the no-op that may follow. *)
Definition committedTransaction (n : Z) (w w' : World) : Prop :=
  txnState (obs w') = kCommitted ∧
  ∃ evs tail, oplog w' = oplog w ++ evs ++ tail ∧ commitEntries n (transactionOperations (prv w)) evs ∧
    (tail = [] ∨ tail = [EvNoop]).

Definition uncommitted (w w' : World) : Prop :=
  txnState (obs w') = txnState (obs w) ∧ oplog w' = oplog w.

Lemma performNoopWrite_wp n w :
  Running n true w → isOpen (txnState (obs w)) = false → oc_maxLockTimeout (opCtx w) = false →
  wp (performNoopWrite env)
    (λ _ w', Running n true w' ∧ obs w' = obs w ∧ oplog w' = oplog w ++ [EvNoop])
    (λ _ w', Running n true w' ∧ obs w' = obs w ∧ oplog w' = oplog w) w.
Proof.
  intros Hr Ho Ht. unfold performNoopWrite. wp_steps; [by rewrite Ht|].
  apply (external_wp env); [|by intros; split; [apply Running_now|]].
  wp_steps. apply wp_uassert; intros _; [|by split; [apply Running_now|]].
  wp_step. apply (external_wp env); [|by intros; split; [by do 2 apply Running_now|]].
  wp_steps. split; [|done]. pose proof Hr as [Hc ? ? ? ? ? ? ? ? ?]. split; try done.
  destruct Hc as [[] ? ? Hd Hcache ? ? ? Hi ?]. split; try done.
  - by apply DurableOk_noop.
  - intros Hp Hv. specialize (Hcache Hp Hv). unfold CacheOk in *. simpl in *.
    destruct (txnState (obs w)); try done.
    destruct Hcache as (H1 & H2 & s & H3 & H4 & H5 & H6 & H7). split_and!; try done.
    exists s. split_and!; try done. intros Hinc k. by rewrite executed_other by done; apply H7.
  - intros Hv. by destruct (Hi Hv).
Qed.

(** The operations of a transaction do not matter to what holds of it. *)
Lemma Running_prv n rep w p k :
  Running n rep w → isValid p = isValid (prv w) → inShutdown p = inShutdown (prv w) →
  autoCommit p = autoCommit (prv w) → hasIncompleteHistory p = hasIncompleteHistory (prv w) →
  activeTxnCommittedStatements p = activeTxnCommittedStatements (prv w) →
  needToWriteAbortEntry p = needToWriteAbortEntry (prv w) →
  Running n rep (set_now k (set_prv p w)).
Proof.
  intros [Hc ? ? ? ? ? ? ? ? ?] H1 H2 H3 H4 H5 H6. split; simpl; rewrite ?H1, ?H6; try done.
  destruct Hc as [[] HS HT HD HC ? ? ? Hi ?]. split; simpl; rewrite ?H1, ?H2; try done.
  - unfold StateOk in *. by rewrite H1, H3, H6.
  - unfold CacheOk in *. simpl. by rewrite H4, H5.
  - intros Hv. destruct (Hi Hv). split; simpl; by rewrite ?H4, ?H5.
Qed.

(** A session whose storage transaction committed while its state has not changed yet. *)
Record Flushed (w w' : World) : Prop := {
  fl_state : txnState (obs w') = txnState (obs w);
  fl_promise : exitPreparePromise (obs w') = exitPreparePromise (obs w);
  fl_fulfilled : fulfilled w' = fulfilled w;
  fl_promises : promises w' = promises w;
  fl_stash : txnResourceStash (obs w') = txnResourceStash (obs w);
  fl_active : activeTxnNumber (obs w') = activeTxnNumber (obs w);
  fl_valid : isValid (prv w') = isValid (prv w);
  fl_shutdown : inShutdown (prv w') = inShutdown (prv w);
  fl_primary : primary w' = primary w;
  fl_txnNumber : oc_txnNumber (opCtx w') = oc_txnNumber (opCtx w);
  fl_replicated : oc_writesAreReplicated (opCtx w') = oc_writesAreReplicated (opCtx w);
  fl_closed : closed (opCtx w');
  fl_durable : DurableOk (oplog w') (stored w');
  fl_notPrepared : notPrepared (stored w');
  fl_record : primary w = true →
    notNewer (activeTxnNumber (obs w)) (stored w') ∧ notInProgress (stored w')
}.

(** The transaction's state changes last. *)
Lemma finishFlushed_wp n rep E w w1 :
  Running n rep w → isOpen (txnState (obs w)) = true → Flushed w w1 →
  wp _finishCommitTransaction
    (λ _ w', Running n rep w' ∧ txnState (obs w') = kCommitted ∧ oplog w' = oplog w1 ∧
       stored w' = stored w1 ∧ oc_maxLockTimeout (opCtx w') = false) E w1.
Proof.
  intros Hr Ho [F1 F2 F3 F4 F5 F6 F7 F8 F9 G1 G2 F11 F12 F13 F14].
  apply finishCommit_wp; [|by rewrite F1|done|].
  - destruct (c_promise w (r_core _ _ _ Hr)). split; by rewrite ?F1, ?F2, ?F3, ?F4.
  - intros c [Hsame Hcl Ht]. split; [|done].
    apply (Committed_Running n rep w); try done. split; try done; simpl.
    + by rewrite F2, F3.
    + destruct Hsame as (H1 & _). congruence.
    + destruct Hsame as (_ & H2 & _). congruence.
    + apply Hcl. by right.
Qed.

(** Once the storage transaction has committed. *)
Lemma endUnprepared_wp n w w1 evs (noop : bool) :
  Running n true w → isOpen (txnState (obs w)) = true → Flushed w w1 →
  oplog w1 = oplog w ++ evs → commitEntries n (transactionOperations (prv w)) evs →
  wp (_finishCommitTransaction ;; when noop (performNoopWrite env))
    (λ _ w', Running n true w' ∧ committedTransaction n w w')
    (λ _ w', Running n true w' ∧ (uncommitted w w' ∨ committedTransaction n w w')) w1.
Proof.
  intros Hr Ho Hfl Hol He. wp_step.
  eapply wp_mono; [by apply (finishFlushed_wp n true (λ _ _, False) w)| |done].
  simpl. intros _ w' (Hr' & Hs' & Ho' & _ & Ht'). rewrite Hol in Ho'.
  assert (committedTransaction n w w').
  { split; [done|]. exists evs, []. rewrite app_nil_r. auto. }
  destruct noop; [|by wp_steps]. simpl.
  eapply wp_mono; [apply (performNoopWrite_wp n); [done|by rewrite Hs'|done]|..]; simpl.
  - intros _ w2 (? & Hob & Hol2). split; [done|]. split; [by rewrite Hob|]. exists evs, [EvNoop].
    rewrite Hol2, Ho', <- app_assoc. auto.
  - intros _ w2 (? & Hob & Hol2). split; [done|]. right. split; [by rewrite Hob|]. exists evs, [].
    rewrite Hol2, Ho', app_nil_r. auto.
Qed.

Lemma commitUnprepared_wp n w :
  Running n true w → isOpen (txnState (obs w)) = true →
  wp (commitUnpreparedTransaction env)
    (λ _ w', Running n true w' ∧ committedTransaction n w w')
    (λ _ w', Running n true w' ∧ (uncommitted w w' ∨ committedTransaction n w w')) w.
Proof.
  intros Hr Ho. unfold commitUnpreparedTransaction. wp_steps.
  apply wp_uassert; [intros Hnp|by intros; split; [|left]].
  assert (Hs : txnState (obs w) = kInProgress) by (by destruct (txnState (obs w))).
  pose proof (r_core _ _ _ Hr) as Hc. destruct (r_open _ _ _ Hr Ho) as (Ha & Hw & Hi & Hl).
  destruct (r_inProgress _ _ _ Hr Hs) as [Hrs _]. destruct (Core_Core0 w Hc Ho) as [Hp Hd _ Hv _]. pose proof (Core_open_own w Hc Ho) as Hown.
  assert (Hnp' : notPrepared (stored w)) by (apply Core_notPrepared; [done|by rewrite Hs]).
  pose proof (Running_txnNumber _ _ _ Hr Ho) as H0. pose proof (r_primary _ _ _ Hr eq_refl) as Hprim.
  specialize (Hown Hprim). rewrite Ha in Hown.
  wp_step. apply retrieve_wp; [done|]. set (ops := transactionOperations (prv w)).
  wp_steps. apply (onUnpreparedCommit_wp _ _ _ n); [apply Hr|done|done|apply Hr|..].
  - intros Hops. wp_steps. apply clear_wp; [by apply Core_autoCommit|done|].
    wp_step. eapply (commitStorage_wp _ _ _ None); [done..|simpl; by rewrite Hs|by left| |].
    + intros k c (F1 & F2 & _) Hcl _. apply (endUnprepared_wp n w _ []); [done..| |by rewrite app_nil_r|by left].
      split; try done. intros _. split; [rewrite Ha; by apply ownRecord_notNewer|by apply (c_settled w Hc)].
    + intros _ e k. split; [|by left]. by apply Running_prv.
  - intros k t ch Ht (before & lastOps & -> & Hb & Hcat). wp_steps. apply clear_wp; [by apply (Core_autoCommit w)|done|].
    wp_step. eapply (commitStorage_wp _ _ _ (Some _)); [done..|simpl; by rewrite Hs|by right; eexists _, _, _, _, _| |].
    + intros k' c (F1 & F2 & _) Hcl _.
      apply (endUnprepared_wp n w _ (before ++ [EvCommit n t lastOps])); [done..| |simpl; by rewrite app_assoc|by right; eexists _, _, _].
      split; try done; simpl.
      * apply (DurableOk_txn _ (stored w)); try done. by apply DurableOk_quiet; [|by eapply partialEntries_quiet].
      * by intros s [= <-].
      * intros _. split; [intros s [= <-]; simpl; lia|by intros s [= <-]].
    + intros _ e k'. split; [|by left]. by apply (Running_prv n true (set_now k w)); [apply Running_now|..].
  - intros e k. split; [by apply Running_now|by left].
Qed.

(** The part of a prepared commit that can no longer fail, on a primary. *)
Lemma finishPrepared_wp n E w k ct :
  Running n true w → txnState (obs w) = kPrepared → Timestamp.isNull ct = false →
  (∀ i, (k <= i)%nat → Timestamp.lt (OpTime.timestamp (env_slot env i)) ct = false) →
  wp (finishPreparedCommit env ct None)
    (λ _ w', Running n true w' ∧ txnState (obs w') = kCommitted ∧
       ∃ t, oplog w' = oplog w ++ [EvCommitPrepared n t ct]) E
    (set_now k (set_opCtx (set_oc_rstlLocked true (opCtx w)) w)).
Proof.
  intros Hr Hs Hct Hslots. pose proof (r_core _ _ _ Hr) as Hc.
  assert (Ho : isOpen (txnState (obs w)) = true) by (by rewrite Hs).
  destruct (r_open _ _ _ Hr Ho) as (Ha & Hw & Hi & Hl).
  pose proof (Running_txnNumber _ _ _ Hr Ho) as H0. pose proof (r_primary _ _ _ Hr eq_refl) as Hprim.
  destruct (Core_Core0 w Hc Ho) as [Hp Hd _ Hv _]. pose proof (Core_open_own w Hc Ho) as Hown.
  specialize (Hown Hprim). rewrite Ha in Hown.
  pose proof (c_state w Hc) as HS. unfold StateOk in HS. rewrite Hs in HS.
  destruct HS as (Hac & _ & Hlast & _).
  unfold finishPreparedCommit. wp_step. apply wp_uninterruptible. wp_steps.
  rewrite (r_replicated _ _ _ Hr). wp_steps.
  apply (reserveSlot_wp env); [intros Hslot|by intros [? _]]. simpl in Hslot |- *.
  wp_steps; [by rewrite Hslots by lia|by rewrite Hlast|].
  eapply (commitStorage_wp _ _ _ None); [done..|simpl; by rewrite Hs|by left| |by intros [? _]].
  intros k' c (F1 & F2 & F3 & F4) [Hcl1 Hcl2] Ht. simpl in F1, F2, F3, F4.
  wp_step. apply retrieve_wp; [done|]. wp_step. unfold onPreparedTransactionCommit. wp_steps.
  { by rewrite F1, (r_txnNumber _ _ _ Hr). }
  rewrite F1, F2, (r_txnNumber _ _ _ Hr), (r_replicated _ _ _ Hr). wp_steps; [by rewrite Hct|].
  unfold logCommitOrAbort. wp_steps; [by rewrite Hcl2|by rewrite Ht|].
  apply (inUnitOfWork_txn_wp env); [done|done|simpl; by rewrite Hs| |by intros [? _]; simpl in *; congruence].
  intros k2. simpl. wp_step. apply clear_wp; [by apply (Core_autoCommit w)|done|].
  eapply wp_mono; [apply (finishFlushed_wp n true (λ _ _, False) w); [done..|]| |done].
  - split; try done; simpl.
    + by apply (DurableOk_txn _ (stored w)).
    + by intros s [= <-].
    + intros _. split; [intros s [= <-]; simpl; lia|by intros s [= <-]].
  - simpl. intros _ w' (Hr' & Hs' & Ho' & _ & _). split; [by apply Running_uninterruptible|].
    split; [done|]. by eexists.
Qed.

(** Committing a prepared transaction: it is refused or fails before anything is written, or
    it commits. *)
Lemma commitPrepared_wp n w ct :
  Running n true w →
  (∀ i, (now w <= i)%nat → Timestamp.lt (OpTime.timestamp (env_slot env i)) ct = false) →
  wp (commitPreparedTransaction env ct None)
    (λ _ w', Running n true w' ∧ txnState (obs w') = kCommitted ∧
       Timestamp.lt ct (OpTime.timestamp (prepareOpTime (obs w))) = false ∧
       ∃ t, oplog w' = oplog w ++ [EvCommitPrepared n t ct])
    (λ _ w', Running n true w' ∧ Keeps w w') w.
Proof.
  intros Hr Hslots. unfold commitPreparedTransaction. wp_steps.
  apply wp_uassert; [intros Hp|done].
  assert (Hs : txnState (obs w) = kPrepared) by (by destruct (txnState (obs w))).
  destruct (r_prepared _ _ _ Hr Hs) as [Hrs _].
  wp_step. apply (external_wp env); [|by intros; split; [apply Running_now|apply Keeps_same]].
  assert (Hback : ∀ k, Running n true (set_opCtx (set_oc_rstlLocked false (set_oc_rstlLocked true (opCtx w)))
    (set_now k (set_opCtx (set_oc_rstlLocked true (opCtx w)) w)))).
  { intros k. pose proof (Running_set n true w k _ Hr (or_introl eq_refl)) as Hx.
    destruct w as [? ? [] ? ? ? ? ? ?]. simpl in *. by rewrite Hrs in Hx. }
  wp_steps. rewrite (r_replicated _ _ _ Hr). simpl.
  assert (Hfail : ∀ k, wp (rstl ← ctxM oc_rstlLocked; assert rstl ;; modC (set_oc_rstlLocked false))
    (λ _ w', Running n true w' ∧ Keeps w w') (λ _ _, False)
    (set_now k (set_opCtx (set_oc_rstlLocked true (opCtx w)) w))).
  { intros k. wp_steps. split; [apply Hback|by apply Keeps_same]. }
  apply wp_uassert; [intros _|by intros; apply (Hfail (S (now w)))].
  wp_step. apply wp_uassert; [intros Hct|by intros; apply (Hfail (S (now w)))]. wp_steps.
  apply wp_uassert; [intros Hlt%negb_true_iff|by intros; apply (Hfail (S (now w)))]. wp_steps.
  apply wp_uassert; [intros _|by intros; apply (Hfail (S (S (now w))))].
  eapply wp_mono; [apply (finishPrepared_wp n (λ _ _, False) w (S (S (now w))) ct)|naive_solver|done]; try done.
  - by apply negb_true_iff.
  - intros i Hi. apply Hslots. lia.
Qed.

End Commands.
