(* ===== verification/TransactionLog.v ===== *)
(** What a request may add to the oplog: it appends, and the entry of a commit is that of the
    transaction and the timestamp that the request was given. *)
From stdpp Require Import gmap.
From S2P Require Import Prelude OpTimes TransactionState TransactionParticipant TransactionSession TransactionInv TransactionPhases.
Import TransactionParticipant TransactionSession.

(** The entry of a commit comes from a command to commit. *)
Definition entryOf (N : option Z) (cmd : option Command) (e : OplogEvent) : Prop :=
  match e with
  | EvCommit m _ _ => N = Some m ∧ cmd = Some (Commit None)
  | EvCommitPrepared m _ t => N = Some m ∧ cmd = Some (Commit (Some t))
  | _ => True
  end.

Create HintDb appends.

Section Log.
Context (env : Env) (N : option Z) (cmd : option Command).

(** Entries are appended, in an operation of the given transaction number, and no transaction is put
    on record as in progress. *)
Definition extends (w w' : World) : Prop :=
  oc_txnNumber (opCtx w') = N ∧ (notInProgress (stored w) → notInProgress (stored w')) ∧
  ∃ evs, oplog w' = oplog w ++ evs ∧ Forall (entryOf N cmd) evs.

Definition appends {A} (m : M A) : Prop :=
  ∀ w, oc_txnNumber (opCtx w) = N → match m w with Ret _ w' | Throw _ w' => extends w w' | Die => True end.

Lemma extends_same w w' :
  oc_txnNumber (opCtx w) = N → oc_txnNumber (opCtx w') = oc_txnNumber (opCtx w) → oplog w' = oplog w →
  stored w' = stored w → extends w w'.
Proof. intros Hn Hn' Hol Hst. split; [congruence|]. rewrite Hst. split; [done|]. exists []. by rewrite app_nil_r. Qed.

Lemma appended_trans w1 w2 w3 : extends w1 w2 → extends w2 w3 → extends w1 w3.
Proof.
  intros (_ & S1 & e1 & H1 & F1) (Hn & S2 & e2 & H2 & F2). split; [done|]. split; [by auto|]. exists (e1 ++ e2).
  split; [by rewrite H2, H1, <- app_assoc|]. by apply Forall_app.
Qed.

Lemma extends_many w w' evs :
  oc_txnNumber (opCtx w) = N → oc_txnNumber (opCtx w') = oc_txnNumber (opCtx w) →
  oplog w' = oplog w ++ evs → Forall (entryOf N cmd) evs → notInProgress (stored w') → extends w w'.
Proof. intros Hn Hn' Hol He Hip. split; [congruence|]. split; [done|]. by exists evs. Qed.

Lemma extends_one w w' e :
  oc_txnNumber (opCtx w) = N → oc_txnNumber (opCtx w') = oc_txnNumber (opCtx w) →
  oplog w' = oplog w ++ [e] → stored w' = stored w → entryOf N cmd e → extends w w'.
Proof. intros Hn Hn' Hol Hst He. split; [congruence|]. rewrite Hst. split; [done|]. exists [e]. split; [done|by constructor]. Qed.

Lemma appends_bind {A B} (m : M A) (f : A → M B) :
  appends m → (∀ x, appends (f x)) → appends (m ≫= f).
Proof.
  intros Hm Hf w Hn. unfold mbind, M_bind. specialize (Hm w Hn). destruct (m w) as [x w'| |]; [|done|done].
  specialize (Hf x w' (proj1 Hm)). destruct (f x w'); try done; by eapply appended_trans.
Qed.

Lemma appends_assoc {A B C} (m : M A) (g : A → M B) (f : B → M C) :
  appends (m ≫= λ x, g x ≫= f) → appends ((m ≫= g) ≫= f).
Proof. intros H w Hn. specialize (H w Hn). unfold mbind, M_bind in *. by destruct (m w). Qed.

Lemma appends_guarded {A} (g : M unit) (m : M A) : appends g → appends m → appends (guarded g m).
Proof.
  intros Hg Hm w Hn. unfold guarded. specialize (Hm w Hn). destruct (m w) as [|e w'|]; [done| |done].
  specialize (Hg w' (proj1 Hm)). destruct (g w'); try done. by eapply appended_trans.
Qed.

Lemma appends_noThrow {A} (m : M A) : appends m → appends (noThrow m).
Proof. intros Hm w Hn. unfold noThrow. specialize (Hm w Hn). by destruct (m w). Qed.

Lemma appends_onBlockExit {A} f (m : M A) :
  (∀ w, oc_txnNumber (opCtx (f w)) = oc_txnNumber (opCtx w) ∧ oplog (f w) = oplog w ∧ stored (f w) = stored w) →
  appends m → appends (onBlockExit f m).
Proof.
  intros Hf Hm w Hn. unfold onBlockExit. specialize (Hm w Hn).
  destruct (m w) as [x w'|e w'|]; [..|done]; destruct (Hf w') as (H1 & H2 & H3);
    (eapply appended_trans; [exact Hm|]); apply extends_same; try done; apply Hm.
Qed.

Lemma appends_same {A} (m : M A) :
  (∀ w, match m w with
        | Ret _ w' | Throw _ w' =>
            oc_txnNumber (opCtx w') = oc_txnNumber (opCtx w) ∧ oplog w' = oplog w ∧ stored w' = stored w
        | Die => True
        end) → appends m.
Proof. intros H w Hn. specialize (H w). destruct (m w); try done; destruct H as (? & ? & ?); by apply extends_same. Qed.

Lemma appends_modC f : (∀ c, oc_txnNumber (f c) = oc_txnNumber c) → appends (modC f).
Proof. intros Hf. apply appends_same. intros w. simpl. by rewrite Hf. Qed.

Lemma appends_txnNumber {B} (f : option Z → M B) : appends (f N) → appends (ctxM oc_txnNumber ≫= f).
Proof. intros Hf w Hn. unfold ctxM, get, mbind, M_bind. rewrite Hn. by apply Hf. Qed.

Lemma appends_assert {B} b (f : unit → M B) : (b = true → appends (f tt)) → appends (assert b ≫= f).
Proof. destruct b; simpl; intros Hf; [by apply Hf|by intros w _]. Qed.

Lemma appends_ctx {B} (f : OperationContext → M B) : (∀ c, appends (f c)) → appends (get opCtx ≫= f).
Proof. intros Hf. apply appends_bind; [by apply appends_same|done]. Qed.

Lemma appends_external : appends (external env).
Proof. apply appends_same. intros w. unfold external. by destruct (env_fault env _ _ _). Qed.

Lemma appends_ask {A} (f : nat → A) : appends (ask f).
Proof. by apply appends_same. Qed.
End Log.

Ltac appends_step :=
  lazymatch goal with
  | |- appends _ _ (mbind _ (ctxM oc_txnNumber)) => apply appends_txnNumber
  | |- appends _ _ (mbind _ (assert _)) => apply appends_assert; intros ?
  | |- appends _ _ (mbind _ _) => apply appends_bind; [|intros ?]
  | |- appends _ _ (guarded _ _) => apply appends_guarded
  | |- appends _ _ (noThrow _) => apply appends_noThrow
  | |- appends _ _ (onBlockExit _ _) => apply appends_onBlockExit; [by intros ?|]
  | |- appends _ _ (if ?b then _ else _) => destruct b
  | |- appends _ _ (match ?x with _ => _ end) => destruct x
  | |- appends _ _ (when ?b _) => destruct b; simpl
  | |- appends _ _ (uassert _ ?b) => destruct b; simpl
  | |- appends _ _ (assert ?b) => destruct b; simpl
  | |- appends _ _ (get _) => by apply appends_same
  | |- appends _ _ (obsM _) => by apply appends_same
  | |- appends _ _ (prvM _) => by apply appends_same
  | |- appends _ _ (ctxM _) => by apply appends_same
  | |- appends _ _ (modO _) => by apply appends_same
  | |- appends _ _ (modP _) => by apply appends_same
  | |- appends _ _ (modC _) => by apply appends_modC
  | |- appends _ _ (mret _) => by apply appends_same
  | |- appends _ _ (throw _) => by apply appends_same
  | |- appends _ _ die => done
  end.

Ltac appends_steps := repeat appends_step; eauto with appends.

Section Methods.
Context (env : Env) (N : option Z) (cmd : option Command).

#[local] Hint Resolve appends_external appends_ask : appends.

Lemma appends_transitionTo s v : appends N cmd (transitionTo s v).
Proof. unfold transitionTo. appends_steps; by apply appends_same. Qed.
#[local] Hint Resolve appends_transitionTo : appends.

Lemma appends_reset s : appends N cmd (_resetTransactionState s).
Proof. unfold _resetTransactionState. appends_steps. Qed.
#[local] Hint Resolve appends_reset : appends.

Lemma appends_invalidate : appends N cmd invalidate.
Proof. unfold invalidate, _invalidate, _resetRetryableWriteState. appends_steps. Qed.
#[local] Hint Resolve appends_invalidate : appends.

Lemma appends_abortOnSession : appends N cmd _abortTransactionOnSession.
Proof. unfold _abortTransactionOnSession. appends_steps. Qed.
#[local] Hint Resolve appends_abortOnSession : appends.

Lemma appends_setNewTxnNumber n : appends N cmd (_setNewTxnNumber n).
Proof. unfold _setNewTxnNumber, _resetRetryableWriteState. appends_steps. Qed.
#[local] Hint Resolve appends_setNewTxnNumber : appends.

Lemma appends_begin n ac start : appends N cmd (beginOrContinue env n ac start).
Proof.
  unfold beginOrContinue, _beginOrContinueRetryableWrite, _continueMultiDocumentTransaction,
    _beginMultiDocumentTransaction.
  appends_steps.
Qed.
#[local] Hint Resolve appends_begin : appends.

Lemma appends_refresh : appends N cmd (refreshFromStorageIfNeeded env).
Proof. unfold refreshFromStorageIfNeeded. appends_steps. Qed.
#[local] Hint Resolve appends_refresh : appends.

Lemma appends_newTxnResources b : appends N cmd (newTxnResources env b).
Proof. unfold newTxnResources. appends_steps. Qed.
#[local] Hint Resolve appends_newTxnResources : appends.

Lemma appends_stash : appends N cmd (stashTransactionResources env).
Proof. unfold stashTransactionResources, _stashActiveTransaction. appends_steps. Qed.
#[local] Hint Resolve appends_stash : appends.

Lemma appends_releaseResources b : appends N cmd (_releaseTransactionResourcesToOpCtx env b).
Proof. unfold _releaseTransactionResourcesToOpCtx, release. appends_steps. Qed.
#[local] Hint Resolve appends_releaseResources : appends.

Lemma appends_unstash c : appends N cmd (unstashTransactionResources env c).
Proof.
  unfold unstashTransactionResources, _checkIsCommandValidWithTxnState, openTransaction.
  appends_steps.
Qed.
#[local] Hint Resolve appends_unstash : appends.

(** ** Writing *)

Lemma appends_cacheStatements ids t : appends N cmd (cacheStatements ids t).
Proof. induction ids; simpl; appends_steps. Qed.
#[local] Hint Resolve appends_cacheStatements : appends.

(** What a unit of work may write. *)
Definition changeOf (ch : Change) : Prop :=
  Forall (entryOf N cmd) (ch_before ch ++ [ch_event ch]) ∧ rec_state (ch_record ch) ≠ Some dInProgress.

Lemma appends_commitChange ch : changeOf ch → appends N cmd (commitChange ch).
Proof.
  intros [He Hr]. unfold commitChange. apply appends_bind; [|intros ?; appends_steps].
  intros w Hn. simpl. apply (extends_many _ _ _ _ (ch_before ch ++ [ch_event ch])); try done. by intros s [= <-].
Qed.

Lemma appends_checkNotRepeated ids : appends N cmd (checkNotRepeated ids).
Proof. induction ids; simpl; unfold _checkStatementExecuted; appends_steps. Qed.
#[local] Hint Resolve appends_checkNotRepeated : appends.

Lemma appends_onWriteOpCompleted ids r : appends N cmd (onWriteOpCompletedOnPrimary env ids r).
Proof. unfold onWriteOpCompletedOnPrimary. appends_steps. Qed.
#[local] Hint Resolve appends_onWriteOpCompleted : appends.

(** A program that yields a change with such entries. *)
Definition yields (m : M Change) : Prop :=
  ∀ B (f : Change → M B), (∀ ch, changeOf ch → appends N cmd (f ch)) → appends N cmd (m ≫= f).

Lemma appends_unitOfWork m : yields m → appends N cmd (unitOfWork env m).
Proof.
  intros Hm. unfold unitOfWork. do 2 (appends_step; [by appends_steps|]).
  apply appends_onBlockExit; [by intros ?|]. apply Hm. intros ch Hch. appends_steps. by apply appends_commitChange.
Qed.

Lemma appends_inUnitOfWork ch : changeOf ch → appends N cmd (inUnitOfWork env ch).
Proof.
  intros He. apply appends_unitOfWork. intros B f Hf. apply appends_assoc.
  apply appends_bind; [by appends_steps|intros _]. by apply (Hf ch).
Qed.

Lemma changeOf_one ev ids r h :
  entryOf N cmd ev → rec_state r ≠ Some dInProgress → changeOf (mkChange [] ev ids r h).
Proof. intros He Hr. split; [by constructor|done]. Qed.

Lemma preImages_entryOf stmts k : Forall (entryOf N cmd) (preImageEntries stmts k).
Proof. unfold preImageEntries. destruct (0 <? k); [|by constructor]. by apply Forall_fmap, Forall_true. Qed.

Lemma imap_entryOf n slot (l : list (list ReplOperation)) :
  Forall (entryOf N cmd) (imap (λ i, EvPartial n (slot i)) l).
Proof.
  revert slot. induction l as [|ops l IH]; intros slot; [by constructor|]. rewrite imap_cons.
  constructor; [done|apply (IH (slot ∘ S))].
Qed.

(** The entries of a transaction: of a prepare, or of the commit that the command asks for. *)
Lemma yields_logEntries n ops first t k (prepare : bool) :
  (prepare = false → N = Some n ∧ cmd = Some (Commit None)) →
  yields (logOplogEntriesForTransaction env n ops first t k prepare).
Proof.
  intros Hc B f Hf. unfold logOplogEntriesForTransaction. cbv zeta.
  do 6 (apply appends_assoc; apply appends_bind; [by appends_steps|intros ?]). apply (Hf (mkChange _ _ _ _ _)).
  split; simpl; [|by destruct prepare]. apply Forall_app; split;
    [apply Forall_app; split; [apply preImages_entryOf|apply imap_entryOf]|].
  apply Forall_singleton; destruct prepare; [done|by apply Hc].
Qed.

Lemma appends_reserveSlot : appends N cmd (reserveSlot env).
Proof. unfold reserveSlot. appends_steps. Qed.
#[local] Hint Resolve appends_reserveSlot : appends.

Lemma appends_reserveSlots k : appends N cmd (reserveSlots env k).
Proof. unfold reserveSlots. appends_steps. by apply appends_same. Qed.
#[local] Hint Resolve appends_reserveSlots : appends.

Lemma appends_uninterruptible {A} (m : M A) :
  appends N cmd m → appends N cmd (uninterruptible m).
Proof. intros Hm. unfold uninterruptible. by appends_steps. Qed.

Lemma appends_cleanUp : appends N cmd _cleanUpTxnResourceOnOpCtx.
Proof. unfold _cleanUpTxnResourceOnOpCtx. appends_steps. Qed.
#[local] Hint Resolve appends_cleanUp : appends.

Lemma appends_logCommitOrAbort ev r :
  entryOf N cmd ev → rec_state r ≠ Some dInProgress → appends N cmd (logCommitOrAbort env ev r).
Proof. intros He Hr. unfold logCommitOrAbort. appends_steps. by apply appends_inUnitOfWork, changeOf_one. Qed.

Lemma appends_onAbort slot : appends N cmd (onTransactionAbort env slot).
Proof. unfold onTransactionAbort. appends_steps. by apply appends_logCommitOrAbort. Qed.
#[local] Hint Resolve appends_onAbort : appends.

Lemma appends_abortActive s : appends N cmd (_abortActiveTransaction env s).
Proof.
  unfold _abortActiveTransaction, _finishAbortingActiveTransaction. appends_steps.
  apply appends_uninterruptible. appends_steps.
Qed.
#[local] Hint Resolve appends_abortActive : appends.

Lemma appends_abort : appends N cmd (abortTransaction env).
Proof. unfold abortTransaction, _abortActivePreparedTransaction. appends_steps. Qed.
#[local] Hint Resolve appends_abort : appends.

Lemma appends_retrieve : appends N cmd retrieveCompletedTransactionOperations.
Proof. unfold retrieveCompletedTransactionOperations. appends_steps. Qed.
#[local] Hint Resolve appends_retrieve : appends.

Lemma appends_prepare t : appends N cmd (prepareTransaction env t).
Proof.
  unfold prepareTransaction, onTransactionPrepare. appends_steps.
  - apply appends_uninterruptible. appends_steps.
  - by apply appends_inUnitOfWork, changeOf_one.
  - by apply appends_unitOfWork, yields_logEntries.
Qed.
#[local] Hint Resolve appends_prepare : appends.

(** ** Commits *)

Lemma appends_commitStorage written :
  match written with Some ch => changeOf ch | None => True end →
  appends N cmd (_commitStorageTransaction env written).
Proof.
  intros Hw. unfold _commitStorageTransaction. appends_steps. by apply appends_commitChange.
Qed.

Lemma appends_finishCommit : appends N cmd _finishCommitTransaction.
Proof. unfold _finishCommitTransaction. appends_steps. Qed.
#[local] Hint Resolve appends_finishCommit : appends.

Lemma appends_clear : appends N cmd clearOperationsInMemory.
Proof. unfold clearOperationsInMemory. appends_steps. Qed.
#[local] Hint Resolve appends_clear : appends.

Lemma appends_noopWrite : appends N cmd (performNoopWrite env).
Proof.
  unfold performNoopWrite. appends_steps. intros w Hn. by apply (extends_one _ _ _ _ EvNoop).
Qed.
#[local] Hint Resolve appends_noopWrite : appends.

(** What an unprepared commit is to write. *)
Lemma appends_onUnprepared {B} ops k (f : option Change → M B) :
  cmd = Some (Commit None) →
  (∀ ch, match ch with Some c => changeOf c | None => True end → appends N cmd (f ch)) →
  appends N cmd (onUnpreparedTransactionCommit env ops k ≫= f).
Proof.
  intros Hc Hf. unfold onUnpreparedTransactionCommit. apply appends_assoc, appends_txnNumber.
  apply appends_assoc, appends_assert. intros HN%bool_decide_eq_true.
  apply appends_assoc, appends_bind; [by appends_steps|intros replicated]. destruct (_ || _); [by apply (Hf None)|].
  apply appends_assoc, appends_bind; [by appends_steps|intros first].
  apply appends_assoc, yields_logEntries; [intros _; by destruct N; [|destruct HN]|]. intros ch Hch.
  apply appends_assoc, appends_bind; [by appends_steps|intros _]. by apply (Hf (Some ch)).
Qed.

Lemma appends_commitUnprepared :
  cmd = Some (Commit None) → appends N cmd (commitUnpreparedTransaction env).
Proof.
  intros Hc. unfold commitUnpreparedTransaction. do 4 (appends_step; [appends_steps|]).
  apply appends_onUnprepared; [done|]. intros ch Hch.
  appends_steps. by apply appends_commitStorage.
Qed.

Lemma appends_commitPrepared ct :
  cmd = Some (Commit (Some ct)) → appends N cmd (commitPreparedTransaction env ct None).
Proof.
  intros Hc. unfold commitPreparedTransaction, finishPreparedCommit, onPreparedTransactionCommit.
  appends_steps. apply appends_uninterruptible. appends_steps.
  - by apply appends_commitStorage.
  - apply appends_logCommitOrAbort; [|done]. destruct N; [by split|done].
Qed.
#[local] Hint Resolve appends_commitPrepared appends_commitUnprepared : appends.

(** ** Commands *)

Lemma appends_transactionWrites ops : appends N cmd (transactionWrites env ops).
Proof. induction ops; simpl; unfold addTransactionOperation; appends_steps. Qed.
#[local] Hint Resolve appends_transactionWrites : appends.

Lemma appends_notExecuted ids : appends N cmd (notExecuted ids).
Proof.
  induction ids; simpl; unfold checkStatementExecutedNoOplogEntryFetch, _checkStatementExecuted;
    appends_steps.
Qed.
#[local] Hint Resolve appends_notExecuted : appends.

Lemma appends_insertBatch ids : appends N cmd (insertBatch env ids).
Proof.
  unfold insertBatch, onInserts. appends_steps; [by apply appends_same|]. by apply appends_inUnitOfWork, changeOf_one.
Qed.
#[local] Hint Resolve appends_insertBatch : appends.

Lemma appends_updateStatements stmts : appends N cmd (updateStatements env stmts).
Proof.
  induction stmts as [|[s b] stmts IH]; simpl;
    unfold unchanged, checkStatementExecutedNoOplogEntryFetch, _checkStatementExecuted; appends_steps.
Qed.
#[local] Hint Resolve appends_updateStatements : appends.

Lemma appends_runCommand c : cmd = Some c → appends N cmd (runCommand env c).
Proof.
  intros Hc. destruct c as [ts| | |ops ok|ids|ids]; simpl;
    unfold commitTransaction, abortTransactionCmd, prepareTransactionCmd; appends_steps.
Qed.
End Methods.

#[export] Hint Resolve appends_external appends_ask appends_transitionTo appends_refresh appends_begin
  appends_unstash appends_stash appends_abort appends_invalidate appends_newTxnResources
  appends_releaseResources appends_setNewTxnNumber : appends.

(** ** Requests and what the server does by itself *)

Section Requests.
Context (env : Env).

Lemma appends_runUnstashed r :
  appends (Some (rq_txnNumber r)) (Some (rq_command r)) (runUnstashed env r).
Proof.
  unfold runUnstashed, _abortUnpreparedOrStashPreparedTransaction. appends_steps.
  by apply appends_runCommand.
Qed.

Lemma invoke_extends r w :
  match invokeWithSessionCheckedOut env r w with
  | Ret _ w' | Throw _ w' =>
      (notInProgress (stored w) → notInProgress (stored w')) ∧
      ∃ evs, oplog w' = oplog w ++ evs ∧
        Forall (entryOf (Some (rq_txnNumber r)) (Some (rq_command r))) evs
  | Die => True
  end.
Proof.
  unfold invokeWithSessionCheckedOut. set (N := Some (rq_txnNumber r)). set (c := Some (rq_command r)).
  change (oplog w) with (oplog (set_opCtx (requestCtx r) w)).
  change (stored w) with (stored (set_opCtx (requestCtx r) w)).
  assert (Hn : oc_txnNumber (opCtx (set_opCtx (requestCtx r) w)) = N) by done.
  revert Hn. generalize (set_opCtx (requestCtx r) w). intros w0 Hn.
  pose proof (appends_refresh env N c w0 Hn) as H1.
  destruct (refreshFromStorageIfNeeded env w0) as [x w1|e w1|]; [|apply H1|done].
  pose proof (appends_begin env N c (rq_txnNumber r) (rq_autocommit r) (rq_startTransaction r) w1 (proj1 H1)) as H2.
  destruct (beginOrContinue env _ _ _ w1) as [y w2|e w2|]; [| |done];
    apply (appended_trans _ _ _ _ _ H1) in H2.
  - pose proof (appends_runUnstashed r w2 (proj1 H2)) as H3.
    destruct (runUnstashed env r w2) as [z w3|e w3|]; [..|done];
      by apply (appended_trans _ _ _ _ _ H2) in H3 as [_ ?].
  - destruct H2 as [_ ?]. by destruct e.
Qed.

Lemma appends_setCtx N cmd c : oc_txnNumber c = N → appends N cmd (modify (set_opCtx c)).
Proof. intros Hc w Hn. by apply extends_same; simpl; try congruence. Qed.

(** The acts of the server on a session write no commit. *)
Lemma appends_killer : appends None None (modify (set_opCtx killerCtx)).
Proof. by apply appends_setCtx. Qed.

Lemma appends_killSession : appends None None (killSession env).
Proof. unfold killSession. appends_steps; apply appends_killer. Qed.

Lemma appends_invalidateSession : appends None None invalidateSession.
Proof. unfold invalidateSession. appends_steps; apply appends_killer. Qed.

Lemma appends_killSessionToken : appends None None killSessionToken.
Proof. unfold killSessionToken. appends_steps; apply appends_killer. Qed.

Lemma appends_refreshLocks b : appends None None (refreshLocks env b).
Proof. unfold refreshLocks, refreshLocksForPreparedTransaction. appends_steps; apply appends_killer. Qed.

Lemma appends_stepDown : appends None None (stepDown env).
Proof.
  unfold stepDown. appends_steps; auto using appends_killSession, appends_refreshLocks, appends_invalidateSession.
  by apply appends_same.
Qed.

(** Aborting what was in progress writes no commit either. *)
Lemma entryOf_none N e : entryOf N None e → entryOf None None e.
Proof. destruct e; simpl; try done; by intros [_ ?]. Qed.

Definition grows (w w' : World) : Prop :=
  (notInProgress (stored w) → notInProgress (stored w')) ∧
  ∃ evs, oplog w' = oplog w ++ evs ∧ Forall (entryOf None None) evs.

Definition logs (m : M unit) : Prop := ∀ w,
  match m w with Ret _ w' | Throw _ w' => grows w w' | Die => True end.

Lemma grows_same w w' : oplog w' = oplog w → stored w' = stored w → grows w w'.
Proof. intros Hol Hst. split; [by rewrite Hst|]. exists []. by rewrite app_nil_r. Qed.

Lemma logs_bind (m m' : M unit) : logs m → logs m' → logs (m ;; m').
Proof.
  intros H1 H2 w. unfold mbind, M_bind. specialize (H1 w). destruct (m w) as [[] w1|e w1|]; [|done|done].
  destruct H1 as (S1 & e1 & H1 & F1). specialize (H2 w1).
  destruct (m' w1); [..|done]; destruct H2 as (S2 & e2 & H2 & F2); (split; [by auto|]); exists (e1 ++ e2);
    (split; [by rewrite H2, H1, app_assoc|by apply Forall_app]).
Qed.

Lemma appends_logs N c (m : M unit) : (∀ w, m w = m (set_opCtx c w)) → oc_txnNumber c = N → appends N None m → logs m.
Proof.
  intros Hs Hc Hm w. rewrite Hs. specialize (Hm (set_opCtx c w) Hc). destruct (m (set_opCtx c w)); try done;
    destruct Hm as (_ & Hst & evs & Hol & Hf); (split; [exact Hst|]); exists evs; (split; [done|]);
    (eapply Forall_impl; [exact Hf|]); intros ev; apply entryOf_none.
Qed.

Lemma abortInProgress_logs : logs (abortInProgressTransactions env).
Proof.
  intros w. unfold abortInProgressTransactions, get, mbind, M_bind.
  destruct (stored w) as [s|]; [|by apply grows_same]. destruct (bool_decide _); [|by apply grows_same]. simpl.
  apply (appends_logs (Some (rec_txnNum (st_record s))) (stepUpCtx (rec_txnNum (st_record s))) _); [done|done|].
  unfold withSession, beginOrContinueTransactionUnconditionally, _beginMultiDocumentTransaction. appends_steps.
  by apply appends_setCtx.
Qed.

Lemma logs_when b (m : M unit) : logs m → logs (when b m).
Proof. intros Hm. destruct b; [done|]. intros w. by apply grows_same. Qed.

Lemma logs_obs {A} (f : ObservableState → A) (k : A → M unit) : (∀ x, logs (k x)) → logs (obsM f ≫= k).
Proof. intros Hk w. apply Hk. Qed.

Lemma logs_same f : (∀ w, oplog (f w) = oplog w ∧ stored (f w) = stored w) → logs (modify f).
Proof. intros Hf w. apply grows_same; apply Hf. Qed.

Lemma killer_logs (m : M unit) : (∀ w, m w = m (set_opCtx killerCtx w)) → appends None None m → logs m.
Proof. intros Hs. by apply (appends_logs None killerCtx). Qed.

Lemma killSession_logs : logs (killSession env).
Proof. by apply killer_logs; [|apply appends_killSession]. Qed.

Lemma stepDown_logs : logs (stepDown env).
Proof. by apply killer_logs; [|apply appends_stepDown]. Qed.

Lemma observeDirectWrite_logs : logs observeDirectWrite.
Proof.
  apply logs_obs. intros st. unfold uassert. destruct (negb _); simpl.
  - apply logs_bind; [intros w; by apply grows_same|]. by apply killer_logs; [|apply appends_killSessionToken].
  - intros w. by apply grows_same.
Qed.

Lemma stepUp_logs : logs (stepUp env).
Proof.
  unfold stepUp. apply logs_bind; [by apply logs_same|]. apply logs_obs. intros st.
  apply logs_bind; [apply logs_when; by apply killer_logs; [|apply appends_killSessionToken]|].
  apply logs_bind; [by apply killer_logs; [|apply appends_refreshLocks]|].
  apply logs_bind; [apply abortInProgress_logs|by apply logs_same].
Qed.
End Requests.
