(* ===== verification/TransactionWrites.v ===== *)
(** The statements of transactions and of retryable writes. *)
From stdpp Require Import gmap.
From S2P Require Import Prelude OpTimes TransactionState TransactionParticipant TransactionSession TransactionInv TransactionPhases TransactionRun TransactionCommands.
Import TransactionParticipant TransactionSession.

Section Writes.
Context {R : Reuse} (env : Env) `{!EnvOk env}.

(** ** Writes in a transaction *)

(** A session whose transaction was given some more operations. *)
Definition added (n : Z) (ops : list ReplOperation) (w w' : World) : Prop :=
  Running n true w' ∧ txnState (obs w') = kInProgress ∧ oplog w' = oplog w ∧
  transactionOperations (prv w') = transactionOperations (prv w) ++ ops.

Lemma addTransactionOperation_wp n op w :
  Running n true w → txnState (obs w) = kInProgress →
  wp (addTransactionOperation env op) (λ _ w', added n [op] w w') (λ _ w', added n [op] w w') w.
Proof.
  intros Hr Hs. destruct (r_open _ _ _ Hr) as (Ha & Hw & Hi & _); [by rewrite Hs|].
  assert (Hac : autoCommit (prv w) = Some false ∧ 0 <= activeTxnNumber (obs w)).
  { pose proof (c_state w (r_core _ _ _ Hr)) as HS. unfold StateOk in HS. rewrite Hs in HS. tauto. }
  destruct Hac as [Hac H0].
  assert (Hdone : ∀ bytes pre, added n [op] w (set_prv (mkPrv (isValid (prv w)) (inShutdown (prv w))
     (transactionOperations (prv w) ++ [op]) bytes pre (autoCommit (prv w)) (hasIncompleteHistory (prv w))
     (activeTxnCommittedStatements (prv w)) (needToWriteAbortEntry (prv w))) w)).
  { intros bytes pre. split_and!; try done. by apply (Running_prv n true w _ (now w)). }
  unfold addTransactionOperation. wp_steps; [by rewrite Hs|..].
  { rewrite Hac. simpl. apply negb_true_iff, Z.eqb_neq. unfold kUninitializedTxnNumber. lia. }
  { by rewrite Hi. }
  apply wp_when; intros _; wp_steps; apply wp_uassert; intros _; apply Hdone.
Qed.

Lemma transactionWrites_wp n ops w :
  Running n true w → txnState (obs w) = kInProgress →
  wp (transactionWrites env ops) (λ _ w', added n ops w w')
    (λ _ w', Running n true w' ∧ oplog w' = oplog w ∧ txnState (obs w') = kInProgress) w.
Proof.
  revert w. induction ops as [|op ops IH]; intros w Hr Hs; simpl.
  - apply (external_wp env); [|by intros; split; [apply Running_now|]].
    split_and!; [by apply Running_now|done..|]. simpl. by rewrite app_nil_r.
  - wp_step. apply (external_wp env); [|by intros; split; [apply Running_now|]]. wp_step.
    eapply wp_mono; [apply (addTransactionOperation_wp n); [by apply Running_now|done]| |].
    + intros _ w1 (Hr1 & Hs1 & Ho1 & Hops1). eapply wp_mono; [by apply IH| |].
      * intros _ w2 (Hr2 & Hs2 & Ho2 & Hops2). split_and!; [done..| |].
        { by rewrite Ho2, Ho1. }
        { rewrite Hops2, Hops1. simpl. by rewrite <- app_assoc. }
      * intros _ w2 (Hr2 & Ho2 & Hs2). split_and!; [done| |done]. by rewrite Ho2, Ho1.
    + by intros _ w1 (Hr1 & Hs1 & Ho1 & _).
Qed.

(** ** Retryable writes *)

Lemma statementsOf_chain (stmts : list (Z * OpTime.t)) h :
  Forall (λ st, st.1 ≠ kUninitializedStmtId) stmts →
  statementsOf ((historyEntry <$> stmts) ++ h) = stmts.*1 ++ statementsOf h ∧
  complete ((historyEntry <$> stmts) ++ h) = complete h ∧
  (HUnlinked ∈ (historyEntry <$> stmts) ++ h ↔ HUnlinked ∈ h).
Proof.
  induction 1 as [|[s t] stmts Hs _ (IH1 & IH2 & IH3)]; [done|].
  assert (historyEntry (s, t) = HStatement s t) as He.
  { unfold historyEntry. apply Z.eqb_neq in Hs. by rewrite Hs. }
  rewrite !fmap_cons, He. cbn [app statementsOf complete fst].
  rewrite IH1, elem_of_cons, IH3. naive_solver.
Qed.

Lemma executed_write n m ol stmts :
  executed m (ol ++ [EvWrite n stmts]) = executed m ol ++ (if n =? m then stmts.*1 else []).
Proof. rewrite executed_app. unfold executed at 2. simpl. by rewrite app_nil_r. Qed.

(** The record is not newer than a retryable write with the given number, and not that of a
    transaction of the same number that has ended, unless numbers are used again. *)
Definition writeRecord (n : Z) (st : option Stored) : Prop :=
  ∀ s, st = Some s →
    rec_txnNum (st_record s) < n ∨
    (rec_txnNum (st_record s) = n ∧ rec_state (st_record s) ≠ Some dCommitted ∧
     (rec_state (st_record s) = Some dAborted → reuse)).

(** The entries of a batch are chained to what was executed before. *)
Lemma DurableOk_write ol st n stmts h t :
  DurableOk ol st → 0 <= n → OpTime.isNull t = false →
  writeRecord n st →
  NoDup stmts.*1 → Forall (λ st, 0 <= st.1) stmts →
  (∀ k, k ∈ stmts.*1 → (k ∉ statementsOf h) ∧ (k ∉ executed n ol)) →
  NoDup (statementsOf h) → HUnlinked ∉ h → kIncompleteHistoryStmtId ∉ statementsOf h →
  (complete h = true → executed n ol ⊆ statementsOf h) →
  DurableOk (ol ++ [EvWrite n stmts])
    (Some (mkStored (mkRecord n t None) ((historyEntry <$> reverse stmts) ++ h))).
Proof.
  intros Hd H0 Ht Hold Hnd Hpos Hnew Hh1 Hh2 Hh3 Hh4.
  assert (Hf : Forall (λ st, st.1 ≠ kUninitializedStmtId) (reverse stmts)).
  { apply Forall_reverse. eapply Forall_impl; [exact Hpos|].
    unfold kUninitializedStmtId. simpl. lia. }
  destruct (statementsOf_chain _ h Hf) as (E1 & E2 & E3). rewrite (fmap_reverse fst stmts) in E1.
  split.
  - intros s [= <-]. split; simpl; try done; intros _; rewrite ?E1, ?E3; [| done |].
    + apply NoDup_app. rewrite reverse_Permutation at 1. split_and!; [done| |done].
      intros k Hk. rewrite elem_of_reverse in Hk. by destruct (Hnew k Hk).
    + rewrite elem_of_app, elem_of_reverse. intros [Hk|Hk]; [|done].
      rewrite Forall_forall in Hpos. apply list_elem_of_fmap in Hk as (p & Hp & Hk%Hpos).
      rewrite <- Hp in Hk. unfold kIncompleteHistoryStmtId in Hk. lia.
  - intros m. rewrite executed_write. pose proof (d_once _ _ Hd m) as Hm.
    destruct (n =? m) eqn:Hnm; [|by rewrite app_nil_r]. apply Z.eqb_eq in Hnm as <-.
    apply NoDup_app. split_and!; [done| |done]. intros k Hk1 Hk2. by destruct (Hnew k Hk2).
  - intros m Hm. eexists. split; [done|]. simpl. rewrite executed_write in Hm.
    destruct (n =? m) eqn:Hnm; [apply Z.eqb_eq in Hnm; lia|]. rewrite app_nil_r in Hm.
    destruct (d_last _ _ Hd m Hm) as (s & Hs & Hle). destruct (Hold s Hs) as [?|[? _]]; lia.
  - by intros s [= <-].
  - intros s [= <-] _. simpl. rewrite E1, E2. intros Hc. rewrite executed_write, Z.eqb_refl.
    specialize (Hh4 Hc). intros k. rewrite !elem_of_app, elem_of_reverse. set_solver.
  - intros m e Hm Hc. rewrite endings_other in Hm by done. eexists. split; [done|]. left. simpl.
    destruct (d_committed _ _ Hd m e Hm Hc) as (s & Hs & He).
    destruct (Hold s Hs) as [?|[? [Hr _]]]; destruct He as [?|[? ?]]; try lia; congruence.
  - intros m. rewrite endings_other by done. apply (d_final _ _ Hd).
  - intros Hr m Hm. rewrite endings_other in Hm by done. eexists. split; [done|]. left. simpl.
    destruct (d_ended _ _ Hd Hr m Hm) as (s & Hs & He).
    destruct (Hold s Hs) as [?|[? [? Ha]]]; destruct He as [?|[? [?|?]]]; try lia; exfalso; tauto || congruence.
  - intros Hr m. rewrite endings_other by done. by apply (d_endedOnce _ _ Hd).
Qed.

(** The statements that have not executed are found without changing anything. *)
Lemma notExecuted_wp stmtIds w :
  isValid (prv w) = true →
  wp (notExecuted stmtIds)
    (λ todo w', w' = w ∧ todo = filter (λ k, activeTxnCommittedStatements (prv w) !! k = None) stmtIds ∧
       (todo ≠ [] → hasIncompleteHistory (prv w) = false))
    (λ _ w', w' = w) w.
Proof.
  intros Hv. induction stmtIds as [|s rest IH]; simpl; [by wp_steps|].
  wp_step. unfold checkStatementExecutedNoOplogEntryFetch, _checkStatementExecuted.
  wp_steps; [by rewrite Hv|].
  destruct (activeTxnCommittedStatements (prv w) !! s) as [t|] eqn:Hs.
  - wp_steps. eapply wp_mono; [exact IH| |done]. simpl. intros todo w' (-> & -> & Hi). wp_steps.
    split_and!; [done| |done]. by rewrite filter_cons_False by congruence.
  - wp_steps. apply wp_uassert; [intros Hi%negb_true_iff|done]. wp_steps.
    eapply wp_mono; [exact IH| |done]. simpl. intros todo w' (-> & -> & _). wp_steps.
    split_and!; [done| |done]. by rewrite filter_cons_True.
Qed.

Lemma checkNotRepeated_wp (Q : unit → World → Prop) E stmtIds w :
  isValid (prv w) = true → hasIncompleteHistory (prv w) = false →
  Forall (λ k, activeTxnCommittedStatements (prv w) !! k = None) stmtIds → Q tt w →
  wp (checkNotRepeated stmtIds) Q E w.
Proof.
  intros Hv Hi Hf HQ. induction Hf as [|s rest Hs _ IH]; simpl; [by wp_steps|].
  wp_step. unfold _checkStatementExecuted. wp_steps; [by rewrite Hv|]. rewrite Hs. wp_steps.
  rewrite Hi. wp_steps. exact IH.
Qed.

(** The cache once a batch was committed. *)
Definition cached (stmtIds : list Z) (t : OpTime.t) (m : gmap Z OpTime.t) : gmap Z OpTime.t :=
  foldl (λ m s, <[s := t]> m) m stmtIds.

Lemma cached_is_Some stmtIds t m k :
  is_Some (cached stmtIds t m !! k) ↔ is_Some (m !! k) ∨ k ∈ stmtIds.
Proof.
  revert m. induction stmtIds as [|s rest IH]; intros m; simpl; [set_solver|].
  rewrite IH, lookup_insert_is_Some', elem_of_cons. naive_solver.
Qed.

Lemma cacheStatements_wp (Q : unit → World → Prop) E stmtIds t w :
  Forall (λ k, 0 <= k) stmtIds → NoDup stmtIds →
  Forall (λ k, activeTxnCommittedStatements (prv w) !! k = None) stmtIds →
  Q tt (set_prv (set_activeTxnCommittedStatements
          (cached stmtIds t (activeTxnCommittedStatements (prv w))) (prv w)) w) →
  wp (cacheStatements stmtIds t) Q E w.
Proof.
  intros Hpos. revert w. induction Hpos as [|s rest Hs _ IH]; intros w Hnd Hf HQ; simpl.
  - wp_steps. by destruct w as [? [] ? ? ? ? ? ? ?].
  - apply NoDup_cons in Hnd as [Hnin Hnd]. apply Forall_cons in Hf as [Hf1 Hf2].
    wp_step. assert ((s =? kIncompleteHistoryStmtId) = false) as ->.
    { apply Z.eqb_neq. unfold kIncompleteHistoryStmtId. lia. }
    wp_steps; [by rewrite Hf1|]. apply IH; [done| |done]. simpl.
    apply Forall_forall. intros k Hk. rewrite Forall_forall in Hf2.
    rewrite lookup_insert_ne by set_solver. by apply Hf2.
Qed.

(** A session with an open history: what a batch is chained to. *)
Definition baseHistory (w : World) : list HistoryEntry :=
  if OpTime.isNull (lastWriteOpTime (obs w)) then [] else from_option st_history [] (stored w).

Record Chainable (w : World) : Prop := {
  ch_old : writeRecord (activeTxnNumber (obs w)) (stored w);
  ch_nodup : NoDup (statementsOf (baseHistory w));
  ch_linked : HUnlinked ∉ baseHistory w;
  ch_sentinel : kIncompleteHistoryStmtId ∉ statementsOf (baseHistory w);
  ch_known : ∀ k, is_Some (activeTxnCommittedStatements (prv w) !! k) ↔ k ∈ statementsOf (baseHistory w);
  ch_complete : complete (baseHistory w) = true →
    executed (activeTxnNumber (obs w)) (oplog w) ⊆ statementsOf (baseHistory w);
  ch_executed : hasIncompleteHistory (prv w) = false →
    ∀ k, k ∈ executed (activeTxnNumber (obs w)) (oplog w) →
      is_Some (activeTxnCommittedStatements (prv w) !! k)
}.

Lemma Core_Chainable w :
  Core w → primary w = true → isValid (prv w) = true →
  isInRetryableWriteMode (txnState (obs w)) = true → Chainable w.
Proof.
  intros Hc Hp Hv Hm. pose proof (c_cache w Hc Hp Hv) as Hca. pose proof (c_durable w Hc) as Hd.
  unfold CacheOk in Hca. destruct (txnState (obs w)) eqn:Hs; try done.
  - destruct Hca as (Hst & Hi & Hl & Ho).
    assert (baseHistory w = []) as Hb by (unfold baseHistory; by rewrite Hl).
    pose proof (ownRecord_executed _ _ _ Hd Ho) as He.
    split; rewrite ?Hb, ?He; simpl; try set_solver; [|by apply NoDup_nil|].
    + intros s Hsto. destruct (Ho s Hsto) as [?|[? (d & Hr & Hne & Ha)]]; [by left|right].
      split_and!; [done|congruence|]. rewrite Hr. intros [= ->]. by apply Ha.
    + intros k. rewrite Hst, lookup_empty. split; [by intros []|by intros ?%not_elem_of_nil].
  - destruct Hca as (H0 & Hl & s & Hst & Hn & Hr & Hk & Hx).
    assert (baseHistory w = st_history s) as Hb by (unfold baseHistory; by rewrite Hl, Hst).
    destruct (d_stored _ _ Hd s Hst) as [S1 S2 S3 S4 S5].
    split; rewrite ?Hb; auto.
    + intros s' Hs'. rewrite Hst in Hs'. injection Hs' as <-. right. split_and!; congruence.
    + intros Hcomp. rewrite <- Hn. by apply (d_history _ _ Hd s).
Qed.

(** What a batch leaves of the session. *)
Definition batchDone (stmts : list (Z * OpTime.t)) (t : OpTime.t) (k : nat) (w : World) : World :=
  let n := activeTxnNumber (obs w) in
  set_now k (set_oplog (oplog w ++ [EvWrite n stmts])
    (set_stored (Some (mkStored (mkRecord n t None)
                   ((historyEntry <$> reverse stmts) ++ baseHistory w)))
      (set_obs (set_txnState kExecutedRetryableWrite (set_lastWriteOpTime t (obs w)))
        (set_prv (set_activeTxnCommittedStatements
           (cached stmts.*1 t (activeTxnCommittedStatements (prv w))) (prv w)) w)))).

Lemma PromiseOk_none w :
  PromiseOk w → txnState (obs w) ≠ kPrepared → exitPreparePromise (obs w) = None.
Proof.
  intros [HP _ _] Hs. destruct (exitPreparePromise (obs w)); [|done]. destruct Hs. apply HP. eauto.
Qed.

Lemma batchDone_Running n w stmts t k :
  Running n true w → isInRetryableWriteMode (txnState (obs w)) = true →
  0 <= activeTxnNumber (obs w) → OpTime.isNull t = false →
  NoDup stmts.*1 → Forall (λ st, 0 <= st.1) stmts → hasIncompleteHistory (prv w) = false →
  Forall (λ s, activeTxnCommittedStatements (prv w) !! s = None) stmts.*1 →
  Running n true (batchDone stmts t k w).
Proof.
  intros Hr Hm H0 Ht Hnd Hpos Hinc Hnew. pose proof (r_core _ _ _ Hr) as Hc.
  pose proof (r_primary _ _ _ Hr eq_refl) as Hp. pose proof (r_valid _ _ _ Hr) as Hv.
  destruct (Core_Chainable w Hc Hp Hv Hm) as [B1 B2 B3 B4 B5 B6 B7].
  assert (Hnone : exitPreparePromise (obs w) = None).
  { apply PromiseOk_none; [apply Hc|]. intros Hs. by rewrite Hs in Hm. }
  rewrite Forall_forall in Hnew. specialize (B7 Hinc).
  assert (Hfresh : ∀ s, s ∈ stmts.*1 →
    (s ∉ statementsOf (baseHistory w)) ∧ (s ∉ executed (activeTxnNumber (obs w)) (oplog w))).
  { intros s Hs%Hnew. split; [intros [? Hx]%B5|intros [? Hx]%B7]; congruence. }
  destruct Hr as [_ _ _ Hst Hn Hrep _ _ _ Hcl].
  split; simpl; try done.
  2: { intros _. apply Hcl. by destruct (txnState (obs w)). }
  split; simpl; try done.
  - pose proof (PromiseOk_exit w (set_txnState kExecutedRetryableWrite (obs w)) (fulfilled w)
      (c_promise w Hc) ltac:(done) Hnone) as [P1 P2 P3]; [by rewrite Hnone|]. by split.
  - pose proof (c_state w Hc) as HS. unfold StateOk in *. simpl. by destruct (txnState (obs w)).
  - unfold StashOk. simpl. by rewrite Hst.
  - eapply DurableOk_write; try done; apply Hc.
  - intros _ _. split_and!; [done..|]. simpl. eexists. split_and!; [done..| |].
    + intros s. cbn [st_history activeTxnCommittedStatements set_activeTxnCommittedStatements].
      destruct (statementsOf_chain (reverse stmts) (baseHistory w)) as (-> & _ & _).
      { apply Forall_reverse. eapply Forall_impl; [exact Hpos|]. unfold kUninitializedStmtId. simpl. lia. }
      rewrite (fmap_reverse fst stmts), elem_of_app, elem_of_reverse, cached_is_Some, B5. tauto.
    + intros _ s. rewrite executed_write, Z.eqb_refl, elem_of_app, cached_is_Some.
      intros [?|?]; [left; by apply B7|by right].
  - by intros s [= <-].
  - by intros _ s [= <-].
  - congruence.
  - apply Hc.
Qed.

(** The statements of a batch that the cache does not know. *)
Definition unknown (w : World) (stmtIds : list Z) : list Z :=
  filter (λ k, activeTxnCommittedStatements (prv w) !! k = None) stmtIds.

Lemma unknown_new w stmtIds :
  Forall (λ k, activeTxnCommittedStatements (prv w) !! k = None) (unknown w stmtIds).
Proof. apply Forall_forall. intros s Hs. by apply list_elem_of_filter in Hs as [Hs _]. Qed.

Lemma unknown_Forall (P : Z → Prop) w stmtIds : Forall P stmtIds → Forall P (unknown w stmtIds).
Proof.
  rewrite !Forall_forall. intros HP s Hs. apply list_elem_of_filter in Hs as [_ Hs]. by apply HP.
Qed.

Lemma unknown_NoDup w stmtIds : NoDup stmtIds → NoDup (unknown w stmtIds).
Proof. apply NoDup_filter. Qed.

(** A batch is executed as one, without the statements that were executed before, or not
    at all. *)
Definition batchResult (stmtIds : list Z) (w w' : World) : Prop :=
  ∃ k, (w' = set_now k w ∧ unknown w stmtIds = []) ∨
    ∃ stmts t, stmts.*1 = unknown w stmtIds ∧ OpTime.isNull t = false ∧
      hasIncompleteHistory (prv w) = false ∧ w' = batchDone stmts t k w.

Lemma commitChange_batch_wp (Q : unit → World → Prop) E w stmts t ch :
  isInRetryableWriteMode (txnState (obs w)) = true → isValid (prv w) = true →
  exitPreparePromise (obs w) = None →
  Forall (λ k, 0 <= k) stmts.*1 → NoDup stmts.*1 →
  Forall (λ k, activeTxnCommittedStatements (prv w) !! k = None) stmts.*1 →
  ch = mkChange [] (EvWrite (activeTxnNumber (obs w)) stmts) stmts.*1
         (mkRecord (activeTxnNumber (obs w)) t None)
         ((historyEntry <$> reverse stmts) ++ baseHistory w) →
  Q tt (batchDone stmts t (now w) w) →
  wp (commitChange ch) Q E w.
Proof.
  intros Hm Hv Hpr Hpos Hnd Hnew -> HQ. unfold commitChange. wp_steps; [by rewrite Hv|].
  apply cacheStatements_wp; [done..|]. wp_steps.
  destruct (txnState (obs w)) eqn:Hs; try done.
  - apply wp_when; [intros _|done]. unfold transitionTo. wp_steps; rewrite Hs; [done|].
    wp_steps. apply wp_when; [done|intros _]. wp_steps. by destruct w.
  - apply wp_when; [done|intros _]. unfold batchDone in HQ. rewrite <- Hs in HQ.
    destruct w as [[] ? ? ? ? ? ? ? ?]. done.
Qed.

Lemma onInserts_wp n w w0 k stmts stmtIds :
  Running n true w → isInRetryableWriteMode (txnState (obs w)) = true →
  activeTxnNumber (obs w) = n → hasIncompleteHistory (prv w) = false →
  stmts.*1 = unknown w stmtIds → NoDup stmtIds → Forall (λ k, 0 <= k) stmtIds →
  OpTime.isNull (default OpTime.null (last stmts.*2)) = false →
  w0 = set_now k w →
  wp (onInserts env stmts) (λ _ w', batchResult stmtIds w w') (λ _ w', ∃ k, w' = set_now k w) w0.
Proof.
  intros Hr Hm Ha Hinc Hst Hnd Hpos Ht ->. unfold onInserts. simpl. rewrite Ht. revert Ht. generalize (default OpTime.null (last stmts.*2)). intros t Ht. wp_steps.
  unfold inUnitOfWork, unitOfWork. wp_steps. unfold onWriteOpCompletedOnPrimary. wp_steps.
  { rewrite (r_txnNumber _ _ _ Hr). simpl. by apply Z.eqb_eq. }
  rewrite (r_txnNumber _ _ _ Hr). simpl.
  assert (Hnew : Forall (λ k, activeTxnCommittedStatements (prv w) !! k = None) stmts.*1).
  { rewrite Hst. apply unknown_new. }
  assert (Hctx : set_oc_inAWriteUnitOfWork (oc_inAWriteUnitOfWork (opCtx w))
            (set_oc_inAWriteUnitOfWork true (opCtx w)) = opCtx w) by (by destruct (opCtx w)).
  assert (Hfail : ∀ k', ∃ k0, set_now k' (set_opCtx
            (set_oc_inAWriteUnitOfWork (oc_inAWriteUnitOfWork (opCtx w))
               (set_oc_inAWriteUnitOfWork true (opCtx w))) w) = set_now k0 w).
  { intros k'. exists k'. rewrite Hctx. by destruct w. }
  apply checkNotRepeated_wp; [apply Hr|done|done|].
  apply (external_wp env); [|intros _ _; apply Hfail]. wp_steps.
  apply (external_wp env); [|intros _ _; apply Hfail].
  apply (commitChange_batch_wp _ _ _ stmts t); try done; simpl.
  - apply Hr.
  - apply PromiseOk_none; [apply Hr|]. intros Hs. by rewrite Hs in Hm.
  - rewrite Hst. by apply unknown_Forall.
  - rewrite Hst. by apply unknown_NoDup.
  - by rewrite Ha.
  - eexists. right. exists stmts, t. split_and!; [done..|].
    destruct w as [? ? [] ? ? ? ? ? ?]. reflexivity.
Qed.

(** The last position of a batch is one. *)
Lemma slots_last (todo : list Z) k :
  length todo ≠ 0%nat →
  OpTime.isNull (default OpTime.null (last (zip todo (slots env k (length todo))).*2)) = false.
Proof.
  intros Hl. rewrite snd_zip by (unfold slots; by rewrite length_fmap, length_seq).
  destruct (last (slots env k (length todo))) as [t|] eqn:Ht; simpl.
  - apply last_Some_elem_of in Ht. unfold slots in Ht.
    apply list_elem_of_fmap in Ht as (i & -> & _). by apply e_slot.
  - apply last_None in Ht. unfold slots in Ht. apply fmap_nil_inv in Ht.
    by destruct (length todo).
Qed.

Lemma insertBatch_wp n w stmtIds :
  Running n true w → isInRetryableWriteMode (txnState (obs w)) = true →
  activeTxnNumber (obs w) = n → NoDup stmtIds → Forall (λ k, 0 <= k) stmtIds →
  wp (insertBatch env stmtIds) (λ _ w', batchResult stmtIds w w') (λ _ w', ∃ k, w' = set_now k w) w.
Proof.
  intros Hr Hm Ha Hnd Hpos. pose proof (r_valid _ _ _ Hr) as Hv.
  unfold insertBatch. wp_step.
  eapply wp_mono; [by apply notExecuted_wp| |]; simpl.
  2: { intros _ w' ->. exists (now w). by destruct w. }
  intros todo w' (-> & Htodo & Hinc). destruct (bool_decide (length todo = 0%nat)) eqn:Hb.
  { wp_steps. exists (now w). left. split; [by destruct w|]. apply bool_decide_eq_true in Hb.
    unfold unknown. rewrite <- Htodo. by apply nil_length_inv. }
  assert (Hi : hasIncompleteHistory (prv w) = false) by (apply Hinc; by intros ->).
  wp_step. apply (external_wp env); [|by intros; eexists].
  wp_steps. apply wp_uassert; [intros _|by intros; eexists]. wp_steps.
  assert (Hz : (zip todo (slots env (S (now w)) (length todo))).*1 = unknown w stmtIds).
  { rewrite fst_zip; [done|]. unfold slots. by rewrite length_fmap, length_seq. }
  assert (Hl : OpTime.isNull (default OpTime.null
            (last (zip todo (slots env (S (now w)) (length todo))).*2)) = false).
  { apply slots_last. by apply bool_decide_eq_false in Hb. }
  by eapply onInserts_wp.
Qed.

(** A batch keeps what holds of the session. *)
Lemma batchResult_Running n w w' stmtIds :
  Running n true w → isInRetryableWriteMode (txnState (obs w)) = true →
  activeTxnNumber (obs w) = n → 0 <= n → NoDup stmtIds → Forall (λ k, 0 <= k) stmtIds →
  batchResult stmtIds w w' →
  Running n true w' ∧ isInRetryableWriteMode (txnState (obs w')) = true ∧ activeTxnNumber (obs w') = n.
Proof.
  intros Hr Hm Ha H0 Hnd Hpos (k & [[-> _]|(stmts & t & Hst & Ht & Hi & ->)]).
  - split; [by apply Running_now|done].
  - split; [|done]. apply batchDone_Running; try done.
    + by rewrite Ha.
    + rewrite Hst. by apply unknown_NoDup.
    + apply (Forall_fmap fst (λ k, 0 <= k)). rewrite Hst. by apply unknown_Forall.
    + rewrite Hst. apply unknown_new.
Qed.

(** A statement that changes nothing changes nothing of the session. *)
Lemma unchanged_wp s w :
  isValid (prv w) = true →
  wp (unchanged env s) (λ _ w', ∃ k, w' = set_now k w) (λ _ w', ∃ k, w' = set_now k w) w.
Proof.
  intros Hv. assert (Hsame : ∃ k, w = set_now k w) by (exists (now w); by destruct w).
  unfold unchanged, checkStatementExecutedNoOplogEntryFetch, _checkStatementExecuted.
  wp_steps; [by rewrite Hv|].
  destruct (activeTxnCommittedStatements (prv w) !! s); wp_steps; [done|].
  apply wp_uassert; intros Hi; [|done]. wp_steps.
  apply (external_wp env); [by eexists|by intros; eexists].
Qed.

Lemma updateStatements_wp n w stmts :
  Running n true w → isInRetryableWriteMode (txnState (obs w)) = true →
  activeTxnNumber (obs w) = n → 0 <= n → Forall (λ k, 0 <= k) stmts.*1 →
  wp (updateStatements env stmts) (λ _ w', Running n true w') (λ _ w', Running n true w') w.
Proof.
  intros Hr Hm Ha H0 Hpos. revert w Hr Hm Ha. induction stmts as [|[s changes] rest IH]; intros; simpl; [done|].
  apply Forall_cons in Hpos as [Hs Hpos]. assert (Hnd : NoDup [s]) by apply NoDup_singleton.
  assert (Hp : Forall (λ k, 0 <= k) [s]) by (by repeat constructor).
  wp_step. destruct changes; eapply wp_mono.
  - by apply (insertBatch_wp n).
  - intros x w' Hb. destruct (batchResult_Running n w w' [s]) as (? & ? & ?); auto.
  - intros x w' [k ->]. by apply Running_now.
  - apply unchanged_wp, Hr.
  - intros x w' [k ->]. apply IH; [done|by apply Running_now|done..].
  - intros x w' [k ->]. by apply Running_now.
Qed.

End Writes.
