(* ===== verification/TransactionRequests.v ===== *)
(** A request from the checking out of its session to its reply: whatever the other
    components answer, the session ends as one that the next request can use. *)
From stdpp Require Import gmap.
From S2P Require Import Prelude OpTimes TransactionState TransactionParticipant TransactionSession TransactionInv TransactionPhases TransactionRun TransactionCommands TransactionWrites.
Import TransactionParticipant TransactionSession.

(** ** The clock *)

Create HintDb monotone.

(** A method never moves the clock back. *)
Definition monotone {A} (m : M A) : Prop :=
  ∀ w, match m w with Ret _ w' | Throw _ w' => (now w <= now w')%nat | Die => True end.

Lemma monotone_bind {A B} (m : M A) (f : A → M B) :
  monotone m → (∀ x, monotone (f x)) → monotone (m ≫= f).
Proof.
  intros Hm Hf w. unfold mbind, M_bind. specialize (Hm w). destruct (m w) as [x w'| |]; [|done|done].
  specialize (Hf x w'). destruct (f x w'); try done; lia.
Qed.

Lemma monotone_guarded {A} (g : M unit) (m : M A) : monotone g → monotone m → monotone (guarded g m).
Proof.
  intros Hg Hm w. unfold guarded. specialize (Hm w). destruct (m w) as [|e w'|]; [done| |done].
  specialize (Hg w'). destruct (g w'); try done. lia.
Qed.

Lemma monotone_same {A} (m : M A) :
  (∀ w, match m w with Ret _ w' | Throw _ w' => now w' = now w | Die => True end) → monotone m.
Proof. intros H w. specialize (H w). destruct (m w); try done; lia. Qed.

Lemma wp_monotone {A} (m : M A) Q E w :
  monotone m → wp m Q E w →
  wp m (λ x w', Q x w' ∧ (now w <= now w')%nat) (λ e w', E e w' ∧ (now w <= now w')%nat) w.
Proof. intros Hm. specialize (Hm w). unfold wp. by destruct (m w). Qed.

Ltac monotone_step :=
  lazymatch goal with
  | |- monotone (mbind _ _) => apply monotone_bind; [|intros ?]
  | |- monotone (guarded _ _) => apply monotone_guarded
  | |- monotone (if ?b then _ else _) => destruct b
  | |- monotone (match ?x with _ => _ end) => destruct x
  | |- monotone (when ?b _) => destruct b; simpl
  | |- monotone (uassert _ ?b) => destruct b; simpl
  | |- monotone (assert ?b) => destruct b; simpl
  | |- monotone (noThrow _) => fail
  | |- monotone (get _) => by apply monotone_same
  | |- monotone (obsM _) => by apply monotone_same
  | |- monotone (prvM _) => by apply monotone_same
  | |- monotone (ctxM _) => by apply monotone_same
  | |- monotone (modO _) => by apply monotone_same
  | |- monotone (modP _) => by apply monotone_same
  | |- monotone (modC _) => by apply monotone_same
  | |- monotone (modify _) => by apply monotone_same
  | |- monotone (mret _) => by apply monotone_same
  | |- monotone (throw _) => by apply monotone_same
  | |- monotone die => done
  end.

Ltac monotone_steps := repeat monotone_step.

Section Requests.
Context {R : Reuse} (env : Env) `{!EnvOk env}.

Lemma monotone_external : monotone (external env).
Proof.
  intros w. unfold external. destruct (env_fault env _ _ _); simpl; lia.
Qed.

Lemma monotone_ask {A} (f : nat → A) : monotone (ask f).
Proof. intros w. simpl. lia. Qed.

#[local] Hint Resolve monotone_external monotone_ask : monotone.

Lemma monotone_transitionTo s v : monotone (transitionTo s v).
Proof. unfold transitionTo. monotone_steps. Qed.
#[local] Hint Resolve monotone_transitionTo : monotone.

Lemma monotone_reset s : monotone (_resetTransactionState s).
Proof. unfold _resetTransactionState. monotone_steps; auto with monotone. Qed.
#[local] Hint Resolve monotone_reset : monotone.

Lemma monotone_abortOnSession : monotone _abortTransactionOnSession.
Proof. unfold _abortTransactionOnSession. monotone_steps; auto with monotone. Qed.
#[local] Hint Resolve monotone_abortOnSession : monotone.

Lemma monotone_setNewTxnNumber n : monotone (_setNewTxnNumber n).
Proof.
  unfold _setNewTxnNumber, _resetRetryableWriteState. monotone_steps; auto with monotone.
Qed.
#[local] Hint Resolve monotone_setNewTxnNumber : monotone.

Lemma monotone_begin n ac start : monotone (beginOrContinue env n ac start).
Proof.
  unfold beginOrContinue, _beginOrContinueRetryableWrite, _continueMultiDocumentTransaction,
    _beginMultiDocumentTransaction.
  monotone_steps; auto with monotone.
Qed.

Lemma monotone_refresh : monotone (refreshFromStorageIfNeeded env).
Proof.
  unfold refreshFromStorageIfNeeded. monotone_steps; auto with monotone.
Qed.

Lemma monotone_unstash cmd : monotone (unstashTransactionResources env cmd).
Proof.
  unfold unstashTransactionResources, _checkIsCommandValidWithTxnState,
    _releaseTransactionResourcesToOpCtx, release, openTransaction.
  monotone_steps; auto with monotone.
Qed.

(** ** Commands *)

(** A request that the parser and the dispatch of commands accept. *)
Record RequestOk (r : Request) : Prop := {
  ro_parsed : parsed (rq_txnNumber r) (rq_autocommit r) (rq_startTransaction r)
    (bool_decide (is_Some (rq_autocommit r)));
  ro_command :
    match rq_command r with
    | Commit _ | Abort | Prepare => True
    | Writes _ _ => rq_autocommit r = Some false
    | Insert stmtIds => rq_autocommit r = None ∧ NoDup stmtIds ∧ Forall (λ k, 0 <= k) stmtIds
    | Update stmts => rq_autocommit r = None ∧ Forall (λ k, 0 <= k) stmts.*1
    end
}.

(** The fields that pass [initializeOperationSessionInfo] are those the participant takes for
    granted, and no assertion of it fails. *)
Lemma sessionInfo_parsed sid n ac start repl lock :
  let info := initializeOperationSessionInfo sid n ac start repl lock in
  info ≠ InfoDies ∧
  ∀ multi k, info = Accepted multi → n = Some k →
    parsed k ac start multi ∧ multi = bool_decide (is_Some ac).
Proof.
  unfold parsed. split; [|intros multi k Hi ->; revert Hi];
    unfold initializeOperationSessionInfo, sessionCheck, sessionAssert.
  - by destruct sid, n as [n|], ac as [[]|], start as [[]|], repl, lock; simpl; repeat case_match.
  - destruct sid; simpl; [|done].
    destruct repl, lock; simpl; try done. destruct (0 <=? k) eqn:Hk; simpl; [|done]. apply Z.leb_le in Hk.
    destruct ac as [[]|], start as [[]|]; simpl; try done; intros [= <-]; split_and!; try done; by intros [].
Qed.

(** The positions reserved from a moment on are not before a commit timestamp. *)
Definition timestampOk (c : Command) (k : nat) : Prop :=
  ∀ ct, c = Commit (Some ct) →
    ∀ i, (k <= i)%nat → Timestamp.lt (OpTime.timestamp (env_slot env i)) ct = false.

Lemma commitTransaction_wp n w ts :
  Running n true w → timestampOk (Commit ts) (now w) →
  wp (commitTransaction env ts) (λ _ w', Running n true w') (λ _ w', Running n true w') w.
Proof.
  intros Hr Hts. unfold commitTransaction. wp_step. wp_step.
  destruct (isCommitted (txnState (obs w))).
  - apply (external_wp env); intros; by apply Running_now.
  - wp_step. apply wp_uassert; [intros Ho|done]. destruct ts as [ct|].
    + eapply wp_mono; [apply (commitPrepared_wp env n w ct); [done|by apply Hts]| |];
        naive_solver.
    + wp_step. apply (external_wp env); [|by intros; apply Running_now].
      eapply wp_mono; [apply (commitUnprepared_wp env n); [by apply Running_now|done]| |]; naive_solver.
Qed.

Lemma runCommand_wp r w :
  let n := rq_txnNumber r in
  RequestOk r → Running n true w → timestampOk (rq_command r) (now w) → activeTxnNumber (obs w) = n →
  (rq_autocommit r = None → isInRetryableWriteMode (txnState (obs w)) = true) →
  (rq_autocommit r ≠ None → commandName (rq_command r) = CmdOther → txnState (obs w) = kInProgress) →
  wp (runCommand env (rq_command r)) (λ _ w', Running n true w') (λ _ w', Running n true w') w.
Proof.
  intros n [(H0 & _) Hc] Hr Hts Ha Hm Hs. destruct (rq_command r) as [ts| | |ops ok|ids|ids]; simpl; wp_step.
  - eapply wp_mono; [by apply commitTransaction_wp|done|done].
  - eapply wp_mono; [by apply (abortTransactionCmd_wp env n)|by intros _ w' [? _]|by intros _ w' [? _]].
  - eapply wp_mono; [by apply (prepareTransactionCmd_wp env n)|by intros _ w' [? _]|done].
  - eapply wp_mono; [apply (transactionWrites_wp env n ops); [done|by apply Hs; [rewrite Hc|]]| |].
    + by intros _ w' [? _].
    + by intros _ w' [? _].
  - destruct Hc as (Hac & Hnd & Hpos).
    eapply wp_mono; [apply (insertBatch_wp env n); auto| |].
    + intros x w' Hb. by destruct (batchResult_Running env n w w' ids) as (? & _); auto.
    + intros x w' [k ->]. by apply Running_now.
  - destruct Hc as (Hac & Hpos). eapply wp_mono; [apply (updateStatements_wp env n); auto|done|done].
Qed.

(** ** Putting the resources back *)

Lemma Running_preparedRecord n w : Running n true w → preparedRecord w.
Proof. intros Hr. by apply (c_prepared w), (r_primary _ _ _ Hr); [apply Hr|]. Qed.

Lemma Running_Idle n rep w :
  Running n rep w → isOpen (txnState (obs w)) = false → Idle w.
Proof.
  intros Hr Ho. split; [apply Hr|by rewrite Ho|..]; intros Hs; by rewrite Hs in Ho.
Qed.

Lemma Ended_Idle st w w' : Ended st w w' → isOpen st = false → Idle w'.
Proof.
  intros He Ho. pose proof (en_state _ _ _ He) as Hs.
  split; [apply He|by rewrite Hs, Ho|..]; intros Hx; rewrite Hs in Hx; by rewrite Hx in Ho.
Qed.

(** A transaction that was aborted before it was prepared, and left nothing behind. *)
Record AbortedSince (w w' : World) : Prop := {
  ab_idle : Idle w';
  ab_aborted : txnState (obs w') = kAbortedWithoutPrepare;
  ab_number : activeTxnNumber (obs w') = activeTxnNumber (obs w);
  ab_isValid : isValid (prv w') = true;
  ab_oplog : oplog w' = oplog w;
  ab_stored : stored w' = stored w
}.

Lemma Ended_AbortedSince w w' :
  Ended kAbortedWithoutPrepare w w' → stored w' = stored w → oplog w' = oplog w → AbortedSince w w'.
Proof. intros He Hst Hol. split; try done; [exact (Ended_Idle _ _ _ He eq_refl)|apply He..]. Qed.

Lemma abortOrStash_inProgress n w E :
  Running n true w → txnState (obs w) = kInProgress →
  wp (_abortUnpreparedOrStashPreparedTransaction env) (λ _ w', AbortedSince w w') E w.
Proof.
  intros Hr Hs. unfold _abortUnpreparedOrStashPreparedTransaction. wp_steps. rewrite Hs. simpl.
  eapply wp_mono; [apply (abortRunning_wp env n true (λ _ _, False)); [done|done|]| |done].
  - by apply (r_inProgress _ _ _ Hr).
  - intros x w' (He & Hst & Hol). by apply Ended_AbortedSince.
Qed.

Lemma abortOrStash_wp n w E :
  Running n true w →
  wp (_abortUnpreparedOrStashPreparedTransaction env) (λ _ w', Idle w') E w.
Proof.
  intros Hr. unfold _abortUnpreparedOrStashPreparedTransaction. wp_steps.
  destruct (isPrepared (txnState (obs w))) eqn:Hp.
  - eapply wp_mono; [by apply (stash_wp env n true w (λ _ _, False))| |done].
    intros _ w' (_ & Hx & _). apply Hx. by eapply Running_preparedRecord.
  - apply wp_when; intros Ho; [|by eapply Running_Idle].
    assert (txnState (obs w) = kInProgress) as Hs by (by destruct (txnState (obs w))).
    eapply wp_mono; [apply (abortRunning_wp env n true (λ _ _, False)); [done|done|]| |done].
    + by apply (r_inProgress _ _ _ Hr).
    + intros _ w' [He _]. exact (Ended_Idle _ _ _ He eq_refl).
Qed.

(** A transaction in progress whose resources could not be taken is aborted. *)
Lemma unstashGuard_wp n w w' E :
  Begun n true w → UnstashFailed n w w' →
  wp (st ← obsM txnState; when (isInProgress st) (abortTransaction env))
    (λ _ w2, Idle w2 ∧ (txnState (obs w) = kInProgress → AbortedSince w w2)) E w'.
Proof.
  intros [Hc Hf Hv Hp Ha Hpr He] (k & c & -> & Hn & Hrep & Hst). wp_steps.
  assert (Hc' : Core (set_now k (set_opCtx c w))) by (by apply Core_set).
  apply wp_when; intros Hs; simpl.
  - assert (txnState (obs w) = kInProgress) as Hip by (by destruct (txnState (obs w))).
    eapply wp_mono; [apply (abortInProgress_wp env (λ _ _, False)); simpl; [done|done|auto|]| |done].
    + intros Hs2. right. rewrite Hn, Ha. split; [done|]. destruct (Hst Hs2); auto.
    + intros _ w' (c' & -> & _ & _).
      assert (Core (ended kAbortedWithoutPrepare (set_now k (set_opCtx c w)))) as Hend.
      { apply aborted_Core; [apply Core_Core0; [done|simpl; by rewrite Hip]| |right; split; [done|]; apply Core_open_own; [done|simpl; by rewrite Hip]].
        apply Core_notPrepared; [done|]. simpl. by rewrite Hip. }
      assert (Hidle : Idle (set_opCtx c' (ended kAbortedWithoutPrepare (set_now k (set_opCtx c w))))).
      { split; [by apply (Core_same _ _ Hend)|done..]. }
      split; [done|]. by intros _.
  - split; [|intros Hx; by rewrite Hx in Hs].
    split; simpl; [done| |by intros Hx; rewrite Hx in Hs..|].
    + intros Ho. apply Hpr. by destruct (txnState (obs w)).
    + apply (c_prepared _ Hc'). auto.
Qed.

Lemma runUnstashed_wp r w :
  RequestOk r → Begun (rq_txnNumber r) true w → timestampOk (rq_command r) (now w) →
  isInRetryableWriteMode (txnState (obs w)) = bool_decide (rq_autocommit r = None) →
  wp (runUnstashed env r) (λ _ w', Idle w') (λ _ w', Idle w') w.
Proof.
  intros Hok Hb Hts Hm. unfold runUnstashed. wp_step. apply wp_guarded.
  eapply wp_mono; [apply wp_monotone, (unstash_wp env (rq_txnNumber r) true); [apply monotone_unstash|done|done]| |].
  2: { intros e w1 [[Hf _] _].
       eapply wp_mono; [by apply (unstashGuard_wp (rq_txnNumber r) w w1 (λ _ _, False))|by intros _ w2 [? _]|done]. }
  intros x w1 [[(k & c & -> & Hr & Hsame) Hother] Hnow].
  assert (Hbody : wp (guarded (_abortUnpreparedOrStashPreparedTransaction env)
         (ok ← runCommand env (rq_command r); when ok (stashTransactionResources env) ;; mret ok))
    (λ (ok : bool) w', if ok then Idle w' else Running (rq_txnNumber r) true w') (λ _ w', Idle w')
    (unstashed k c w)).
  { apply wp_guarded. wp_step. eapply wp_mono; [apply runCommand_wp; [done|exact Hr|..]| |].
    - intros ct Hct i Hi. apply (Hts ct Hct). lia.
    - apply Hb.
    - intros Hac. simpl. rewrite Hm. by apply bool_decide_eq_true.
    - intros Hac. simpl. apply Hother. rewrite Hm. by apply bool_decide_eq_false.
    - intros [] w2 Hr2; wp_steps; [|done].
      eapply wp_mono; [by apply (stash_wp env (rq_txnNumber r) true w2 (λ _ _, False))| |done].
      intros _ w3 (_ & Hx & _). wp_steps. apply Hx. by eapply Running_preparedRecord.
    - intros e w2 Hr2. exact (abortOrStash_wp _ _ _ Hr2). }
  wp_step. eapply wp_mono; [exact Hbody| |done].
  intros ok w2 Hw2. wp_step. destruct ok; wp_steps; [done|]. by eapply abortOrStash_wp.
Qed.

(** Every reply leaves an idle session. *)
Lemma invoke_wp r w :
  RequestOk r → Idle w → notInProgress (stored w) → timestampOk (rq_command r) (now w) →
  wp (invokeWithSessionCheckedOut env r) (λ _ w', Idle w') (λ _ _, False) w.
Proof.
  intros Hok Hi Hip Hts. unfold invokeWithSessionCheckedOut, wp.
  set (w0 := set_opCtx (requestCtx r) w).
  assert (Hi0 : Idle w0) by (pose proof (Idle_set w (now w) (requestCtx r) Hi); by destruct w).
  pose proof (wp_monotone _ _ _ w0 monotone_refresh (refresh_wp env w0 Hi0 eq_refl Hip)) as H1.
  unfold wp in H1.
  destruct (refreshFromStorageIfNeeded env w0) as [x w1|e w1|]; [|apply H1|done].
  destruct H1 as [(Hi1 & Hv1 & Hc1 & Hp1 & _) Hn1].
  assert (Hf : FreshCtx (rq_txnNumber r) true (opCtx w1)) by (by rewrite Hc1).
  assert (Hpa : parsed (rq_txnNumber r) (rq_autocommit r) (rq_startTransaction r)
                  (oc_inMultiDocumentTransaction (opCtx w1))).
  { rewrite Hc1. apply (ro_parsed _ Hok). }
  pose proof (wp_monotone _ _ _ w1 (monotone_begin (rq_txnNumber r) (rq_autocommit r) (rq_startTransaction r))
    (beginOrContinue_wp env w1 _ _ _ Hi1 Hf Hv1 Hpa)) as H2. unfold wp in H2.
  destruct (beginOrContinue env _ _ _ w1) as [y w2|e w2|]; [|destruct H2, e; done|done].
  destruct H2 as [(Hb & Hm & _) Hn2].
  assert (Hts2 : timestampOk (rq_command r) (now w2)).
  { intros ct Hct i Hi2. apply (Hts ct Hct). unfold w0 in Hn1. simpl in Hn1. lia. }
  pose proof (runUnstashed_wp r w2 Hok Hb Hts2 Hm) as H3. unfold wp in H3.
  by destruct (runUnstashed env r w2).
Qed.

End Requests.
