(* ===== verification/TransactionSteps.v ===== *)
(** What the server does to a session by itself, and the histories of a session: the calls
    that may be made on it, one after the other, and the sessions they reach. *)
From stdpp Require Import gmap.
From S2P Require Import Prelude OpTimes TransactionState TransactionParticipant TransactionSession TransactionInv TransactionPhases TransactionRun TransactionCommands TransactionWrites TransactionRequests.
Import TransactionParticipant TransactionSession.

Section Steps.
Context {R : Reuse} (env : Env) `{!EnvOk env}.

(** ** Killing and invalidating *)

Lemma Idle_ctx w c : Idle w → Idle (set_opCtx c w).
Proof. intros Hi. pose proof (Idle_set w (now w) c Hi). by destruct w. Qed.

Lemma killSession_wp E w :
  Idle w →
  wp (killSession env)
    (λ _ w', Idle w' ∧ txnState (obs w') ≠ kInProgress ∧ primary w' = primary w ∧
       (txnState (obs w) = kPrepared → w' = set_opCtx killerCtx w)) E w.
Proof.
  intros Hi. unfold killSession. wp_steps.
  assert (Hi' : Idle (set_opCtx killerCtx w)) by (by apply Idle_ctx).
  pose proof (i_core _ Hi') as Hc'. apply wp_when; intros Hip.
  - assert (Hs : txnState (obs w) = kInProgress) by (by destruct (txnState (obs w))).
    eapply wp_mono; [apply (abortInProgress_wp env (λ _ _, False)); simpl; [done|done| |auto]| |done].
    + intros _. by apply (i_entry w Hi).
    + intros _ w' (c & -> & _). split_and!; simpl; try done; [|congruence].
      assert (Core (ended kAbortedWithoutPrepare w)) as Hend.
      { apply aborted_Core; [apply Core_Core0; [apply Hi|by rewrite Hs]| |right; split; [done|]; apply Core_open_own; [apply Hi|by rewrite Hs]].
        apply Core_notPrepared; [apply Hi|by rewrite Hs]. }
      split; [by apply (Core_same _ _ Hend)|done..].
  - split_and!; try done. simpl. intros Hx. by rewrite Hx in Hip.
Qed.

(** A session that was invalidated. *)
Definition invalidated (w : World) : World :=
  ended kNone
    (set_prv (set_hasIncompleteHistory false (set_activeTxnCommittedStatements ∅
                (set_isValid false (prv w))))
      (set_obs (set_lastWriteOpTime OpTime.null
                  (set_activeTxnNumber kUninitializedTxnNumber (obs w))) w)).

Lemma invalidate_run w :
  PromiseOk w → txnState (obs w) ≠ kPrepared → invalidate w = Ret tt (invalidated w).
Proof.
  intros Hp Hs. unfold invalidate, uassert, obsM, get, mbind, M_bind.
  assert (isInSet (txnState (obs w)) (bit kPrepared) = false) as -> by (by destruct (txnState (obs w))).
  simpl. rewrite resetTransactionState_run; [done| |done|simpl; by destruct (txnState (obs w))].
  destruct Hp. by split.
Qed.

Lemma invalidated_Idle w :
  PromiseOk w → DurableOk (oplog w) (stored w) → inShutdown (prv w) = false → notPrepared (stored w) →
  (primary w = true → notInProgress (stored w)) → Idle (invalidated w).
Proof.
  intros Hp Hd Hsh Hn Hip.
  assert (Hp' : PromiseOk (invalidated w)).
  { apply ended_PromiseOk; [|done]. destruct Hp. by split. }
  split; try done. split; try done. intros s Hs Hx. by destruct (Hn s).
Qed.

Lemma invalidate_wp E w :
  Idle w → txnState (obs w) ≠ kPrepared →
  wp invalidate (λ _ w', Idle w' ∧ isValid (prv w') = false ∧ txnState (obs w') = kNone ∧
       primary w' = primary w ∧ stored w' = stored w) E w.
Proof.
  intros Hi Hs. pose proof (i_core _ Hi) as Hc. unfold wp.
  rewrite invalidate_run; [|apply Hc|done]. split; [|done].
  apply invalidated_Idle; try apply Hc. by apply Core_notPrepared.
Qed.

Lemma invalidateSession_wp E w :
  Idle w →
  wp invalidateSession (λ _ w', Idle w' ∧ primary w' = primary w ∧
       (txnState (obs w) = kPrepared → w' = set_opCtx killerCtx w) ∧
       (txnState (obs w) ≠ kInProgress → txnState (obs w') ≠ kInProgress)) E w.
Proof.
  intros Hi. unfold invalidateSession. wp_steps. apply wp_when; intros Hp.
  - eapply wp_mono; [apply (invalidate_wp (λ _ _, False)); [by apply Idle_ctx|]| |done].
    + simpl. intros Hx. by rewrite Hx in Hp.
    + intros _ w' (? & _ & Hs & ? & _). split_and!; try done; [|by rewrite Hs].
      intros Hx. by rewrite Hx in Hp.
  - split_and!; try done. by apply Idle_ctx.
Qed.

(** ** Refreshing the locks of a prepared transaction *)

(** Only the style of the stash changes. *)
Definition restashed (w w' : World) : Prop :=
  ∃ r k c, w' = set_now k (set_opCtx c (set_obs (set_txnResourceStash r (obs w)) w)).

Lemma Idle_restashed w w' r :
  Idle w → w' = set_now (now w') (set_opCtx (opCtx w') (set_obs (set_txnResourceStash r (obs w)) w)) →
  is_Some r → StashOk (set_txnResourceStash r (obs w)) → Idle w'.
Proof.
  intros [[[] HS _ HD HC H1 H2 HP Hinv ?] Hi1 Hi2 Hi3 Hi4] -> Hr HT.
  split; try done. split; try done. intros Hv. by destruct (Hinv Hv).
Qed.

Lemma refreshLocks_wp w yieldLocks :
  Idle w →
  wp (refreshLocks env yieldLocks)
    (λ _ w', Idle w' ∧ restashed w w') (λ _ w', Idle w' ∧ restashed w w') w.
Proof.
  intros Hi. pose proof (i_core _ Hi) as Hc. unfold refreshLocks. wp_steps.
  apply wp_when; intros Hp.
  2: { split; [by apply Idle_ctx|]. exists (txnResourceStash (obs w)), (now w), killerCtx.
       by destruct w as [[] ? ? ? ? ? ? ? ?]. }
  assert (Hs : txnState (obs w) = kPrepared) by (by destruct (txnState (obs w))).
  destruct (i_stash w Hi) as [r Hr]; [by rewrite Hs|].
  pose proof (c_stash w Hc) as HT. unfold StashOk in HT. rewrite Hr, Hs in HT.
  destruct HT as (Hl & Hrs & Hts).
  unfold refreshLocksForPreparedTransaction. wp_steps; [by rewrite Hr|by rewrite Hs|].
  eapply wp_mono; [by apply (releaseResources_wp env _ r)| |].
  - intros _ w1 (k & c & -> & [F1 F2 F3 F4 F5] & _). unfold newTxnResources.
    wp_steps; [by rewrite F1|by rewrite F4, Hl, orb_true_r|]. split.
    + eapply (Idle_restashed w _ (Some _)); [done|reflexivity|by eexists|].
      unfold StashOk. simpl. by rewrite Hs, F3, F4, F5.
    + by eexists (Some _), _, _.
  - intros e w1 (_ & k & ->). split; [by apply (Idle_set w)|].
    exists (Some r), k, killerCtx. destruct w as [[] ? ? ? ? ? ? ? ?]. simpl in *. by rewrite Hr.
Qed.

(** ** Stepping down and up *)

Lemma stepDown_wp w :
  Idle w → wp (stepDown env) (λ _ w', Idle w') (λ _ w', Idle w') w.
Proof.
  intros Hi. unfold stepDown. wp_step.
  eapply wp_mono; [by apply (killSession_wp (λ _ _, False))| |done].
  intros _ w1 (Hi1 & Hs1 & _ & _). wp_step.
  eapply wp_mono; [by apply refreshLocks_wp| |by intros e w2 [? _]].
  intros _ w2 (Hi2 & r & k & c & ->). wp_step.
  eapply wp_mono; [by apply (invalidateSession_wp (λ _ _, False))| |done].
  intros _ w3 (Hi3 & _ & _ & Hs3). wp_steps. specialize (Hs3 Hs1).
  destruct Hi3 as [[[] ? ? ? ? ? ? ? Hinv ?] ? ? ? ?]. split; try done.
  split; try done. intros Hv. by destruct (Hinv Hv).
Qed.

(** A session that cannot be stale may be used on a primary. *)
Lemma becomePrimary w :
  Idle w → (isValid (prv w) = true → isOpen (txnState (obs w)) = false → CacheOk w) →
  notInProgress (stored w) → Idle (set_primary true w).
Proof.
  intros [Hc Hi1 Hi2 Hi3 Hi4] Hv Hip. pose proof Hc as [[] HS HT HD HC H1 H2 HP Hinv ?].
  split; try done. split; try done.
  - simpl. intros _ Hv'. destruct (isOpen (txnState (obs w))) eqn:Ho; [|by specialize (Hv Hv' eq_refl)].
    unfold CacheOk. change (obs (set_primary true w)) with (obs w).
    change (stored (set_primary true w)) with (stored w). destruct (txnState (obs w)) eqn:Hs; try done.
    + pose proof (HC (Hi3 eq_refl) Hv') as Hca. unfold CacheOk in Hca. by rewrite Hs in Hca.
    + apply ownRecord_notNewer. by apply Core_prepared_own.
  - intros Hx. by destruct (Hinv Hx).
Qed.

Lemma killSessionToken_wp E w :
  Idle w → txnState (obs w) ≠ kPrepared →
  wp killSessionToken (λ _ w', Idle w' ∧ isValid (prv w') = false ∧ txnState (obs w') = kNone ∧
       primary w' = primary w ∧ stored w' = stored w) E w.
Proof.
  intros Hi Hs. unfold killSessionToken. wp_steps. apply (invalidate_wp _ (set_opCtx killerCtx w)); [by apply Idle_ctx|done].
Qed.

(** A transaction of which only the first entries are there is aborted on record. *)
Definition abortedOnRecord (n : Z) (w w' : World) : Prop :=
  txnState (obs w') = kAbortedWithoutPrepare ∧ activeTxnNumber (obs w') = n ∧ primary w' = primary w ∧
  ∃ t, stored w' = Some (mkStored (txnRecord n t dAborted) []) ∧ oplog w' = oplog w ++ [EvAbort n t].

Lemma abortUnsettled_wp n E w :
  Core w → primary w = false → txnState (obs w) = kInProgress → txnResourceStash (obs w) = None →
  activeTxnNumber (obs w) = n → 0 <= n → opCtx w = stepUpCtx n → needToWriteAbortEntry (prv w) = true →
  ownRecord n (stored w) → reuse →
  wp (abortTransaction env) (λ _ w', Idle w' ∧ abortedOnRecord n w w') E w.
Proof.
  intros Hc Hp Hs Hst Ha H0 Hctx Hneed Hown Hre. unfold abortTransaction. wp_steps. rewrite Hst, Hctx, Hs. simpl.
  unfold _abortActiveTransaction. wp_step. wp_step. rewrite Hst. wp_steps. rewrite Hctx, Hneed. simpl.
  wp_step. apply (reserveSlot_wp env); [intros Hslot|by rewrite Hctx; intros []].
  wp_step. apply cleanUp_wp; simpl; rewrite Hctx; [done|]. intros c [Hsame Hcl Hto].
  destruct (Hcl (or_intror (conj eq_refl eq_refl))) as [Hc1 Hc2]. pose proof Hsame as (E1 & E2 & E3 & E4). simpl in *.
  wp_step. apply wp_uninterruptible. unfold onTransactionAbort. wp_steps; [by rewrite E1|].
  rewrite E2, E1. wp_step. simpl. unfold logCommitOrAbort. wp_steps; [by rewrite Hc2|by rewrite Hto|].
  apply (inUnitOfWork_txn_wp env); simpl; [done|by apply Core_open_valid; [|rewrite Hs]|by rewrite Hs| |by intros []].
  intros k. apply finishAborting_wp; simpl; rewrite ?Hs; try done.
  { destruct (c_promise w Hc). by split. }
  { by rewrite E1, Ha. }
  match goal with |- Idle (set_opCtx ?c1 (ended ?st ?w1)) ∧ _ => set (w' := w1) end.
  assert (Hown' : ownRecord n (stored w')).
  { intros s [= <-]. right. split; [done|]. by exists dAborted. }
  assert (Hcore : Core (ended kAbortedWithoutPrepare w')).
  { apply aborted_Core; [|by intros s [= <-]|right; split; [done|]; intros _; simpl; by rewrite Ha].
    split; simpl; try done; try congruence; [destruct (c_promise w Hc); by split| |apply Hc|by apply Core_open_valid; [|rewrite Hs]].
    apply (DurableOk_txn _ (stored w)); try done. apply Hc. }
  split; [split; [by apply (Core_same _ _ Hcore)|done..]|]. split_and!; try done. by eexists.
Qed.

Lemma abortInProgressTransactions_wp E w :
  Idle w → primary w = false → isValid (prv w) = false ∨ isOpen (txnState (obs w)) = true →
  reuse ∨ notInProgress (stored w) →
  wp (abortInProgressTransactions env)
    (λ _ w', Idle w' ∧ notInProgress (stored w') ∧
       (isValid (prv w') = true → isOpen (txnState (obs w')) = false → CacheOk w') ∧
       (txnState (obs w) = kPrepared → w' = w)) E w.
Proof.
  intros Hi Hp Hv Hre. pose proof (i_core w Hi) as Hc. unfold abortInProgressTransactions. wp_steps.
  assert (Hno : notInProgress (stored w) → Idle w ∧ notInProgress (stored w) ∧
       (isValid (prv w) = true → isOpen (txnState (obs w)) = false → CacheOk w) ∧ (txnState (obs w) = kPrepared → w = w)).
  { intros Hn. split_and!; try done. intros ? Ho. destruct Hv; congruence. }
  destruct (stored w) as [s|] eqn:Hst; [|wp_steps; rewrite Hst; by apply Hno].
  apply wp_when; intros Hr; [apply bool_decide_eq_true in Hr|apply bool_decide_eq_false in Hr; rewrite Hst; apply Hno; by intros ? [= <-]].
  assert (reuse) as Hreuse by (destruct Hre as [?|Hn]; [done|by destruct (Hn s eq_refl)]). clear Hre.
  assert (Hcl : isValid (prv w) = false ∧ txnState (obs w) ≠ kPrepared).
  { destruct (txnState (obs w)) eqn:Hs; try by destruct Hv; [|discriminate].
    - by rewrite (i_primary w Hi Hs) in Hp.
    - destruct (i_prepared w Hi Hs) as (s' & Hs' & _ & Hr'). congruence. }
  destruct Hcl as [Hv' Hs]. destruct (c_invalid w Hc Hv') as [Hn Hact _ _ _].
  pose proof (so_txnNum s (d_stored _ _ (c_durable w Hc) s Hst)) as H0.
  set (n := rec_txnNum (st_record s)) in *.
  assert (Hown : ownRecord n (stored w)).
  { intros s' Hs'. rewrite Hst in Hs'. injection Hs' as <-. right. split; [done|]. by exists dInProgress. }
  unfold withSession, beginOrContinueTransactionUnconditionally. wp_steps.
  rewrite Hact. replace (kUninitializedTxnNumber =? n) with false by (symmetry; apply Z.eqb_neq; unfold kUninitializedTxnNumber; lia).
  simpl. set (w0 := set_prv (set_isValid true (prv w)) (set_opCtx (stepUpCtx n) w)).
  assert (Hc0 : Core w0).
  { destruct Hc as [[] HS HT HD HC H1 H2 HP Hinv ?]. split; try done; simpl; try congruence.
    unfold StateOk in *. simpl. by rewrite Hn in *. }
  eapply wp_mono; [apply (beginMultiDocument_wp env w0 n); [done..|simpl; congruence]| |by intros e w1 (-> & _ & Hx)].
  intros _ w1 (Hc1 & Hs1 & Ha1 & Hst1 & _ & _ & (F1 & F2 & F3 & F4 & F5)). wp_steps. simpl in F1, F2, F3, F4, F5.
  eapply wp_mono; [apply (abortUnsettled_wp n (λ _ _, False)); simpl; try done; try congruence| |done].
  - destruct Hc1 as [[] HS HT HD HC H1 H2 HP Hinv ?]. split; try done.
    + unfold StateOk in *. simpl. by rewrite Hs1 in *.
    + intros Hx. by destruct (Hinv Hx).
  - by rewrite F4.
  - intros x2 w2 (Hi2 & Hs2 & Ha2 & Hp2 & t & Hst2 & _). wp_steps; [by rewrite Hs2|]. split_and!; try done.
    + rewrite Hst2. by intros s' [= <-].
    + intros _ _. unfold CacheOk. rewrite Hs2, Ha2, Hst2. intros s' [= <-]. right. split; [done|]. by exists dAborted.
Qed.

Lemma stepUp_wp w :
  Idle w → primary w = false → reuse ∨ notInProgress (stored w) →
  wp (stepUp env) (λ _ w', Idle w') (λ _ w', Idle w') w.
Proof.
  intros Hi Hp Hre. unfold stepUp. wp_steps.
  assert (Hmid : wp (when (negb (isOpen (txnState (obs w)))) killSessionToken)
    (λ _ w1, Idle w1 ∧ primary w1 = false ∧ stored w1 = stored w ∧ (isValid (prv w1) = false ∨ isOpen (txnState (obs w1)) = true))
    (λ _ _, False) (set_opCtx killerCtx w)).
  { apply wp_when; intros Ho.
    - eapply wp_mono; [apply (killSessionToken_wp (λ _ _, False)); [by apply Idle_ctx|]| |done].
      + simpl. intros Hx. by rewrite Hx in Ho.
      + intros _ w1 (? & ? & _ & Hp1 & Hst1). rewrite Hp1, Hst1. auto.
    - split; [by apply Idle_ctx|]. split_and!; [done..|]. right. by apply negb_false_iff in Ho. }
  eapply wp_mono; [exact Hmid| |done]. intros _ w1 (Hi1 & Hp1 & Hst1 & Hv1). rewrite <- Hst1 in Hre. wp_step.
  eapply wp_mono; [by apply refreshLocks_wp| |by intros e w2 [? _]].
  intros _ w2 (Hi2 & r & k & c & ->). wp_step.
  eapply wp_mono; [by apply (abortInProgressTransactions_wp (λ _ _, False))| |done].
  intros _ w3 (Hi3 & Hip & Hca & _). wp_steps. by apply becomePrimary.
Qed.

(** ** Replication *)

(** Another oplog and another record take the place of a secondary's. *)
Lemma Idle_replaced w ol st :
  Idle w → primary w = false → txnState (obs w) ≠ kPrepared → DurableOk ol st → notPrepared st →
  Idle (set_oplog ol (set_stored st w)).
Proof.
  intros [[[] HS HT HD HC H1 H2 HP Hinv ?] Hi1 Hi2 Hi3 Hi4] Hp Hs Hd Hn.
  split; try done; [|by intros Hx]. split; try done; simpl; try congruence.
  - intros s Hst Hx. by destruct (Hn s).
  - intros Hv. by destruct (Hinv Hv).
Qed.

(** An entry of a transaction is in the oplog and its record in the session's document. *)
Definition logged (ev : OplogEvent) (n : Z) (t : OpTime.t) (d : DurableTxnState) (w : World) : World :=
  set_oplog (oplog w ++ [ev]) (set_stored (Some (mkStored (txnRecord n t d) [])) w).

Lemma Unrecorded_ended w ev t d :
  Idle w → primary w = false → txnState (obs w) = kPrepared → 0 <= activeTxnNumber (obs w) →
  OpTime.isNull t = false → d ≠ dInProgress → d ≠ dPrepared → txnEntry ev (activeTxnNumber (obs w)) d →
  Unrecorded (logged ev (activeTxnNumber (obs w)) t d w).
Proof.
  intros Hi Hp Hs H0 Ht Hd1 Hd2 Hev. pose proof (Core_prepared_own w (i_core w Hi) (i_prepared w Hi) Hs) as Hown.
  destruct Hi as [[[] HS HT HD HC H1 H2 HP Hinv ?] Hi1 Hi2 Hi3 Hi4].
  split; try done. split; try done; simpl; try congruence.
  - by apply (DurableOk_txn _ (stored w)).
  - intros Hv. by destruct (Hinv Hv).
Qed.

(** A prepared transaction goes on record. *)
Lemma Unrecorded_logged w ev n t :
  Unrecorded w → txnState (obs w) = kPrepared → primary w = false → activeTxnNumber (obs w) = n →
  0 <= n → OpTime.isNull t = false → ownRecord n (stored w) → txnEntry ev n dPrepared →
  Idle (logged ev n t dPrepared w).
Proof.
  intros [Hc Hu1 Hu2 Hu3] Hs Hp Ha H0 Ht Hown Hev.
  split; try done; [|intros _; by eexists].
  destruct Hc as [[] HS HT HD HC H1 H2 HP Hinv ?]. split; try done; simpl; try congruence.
  - by apply (DurableOk_txn _ (stored w)).
  - intros Hv. by destruct (Hinv Hv).
Qed.

(** The operation of an applied entry begins or continues the transaction. *)
Lemma beginApplied_wp w n :
  Idle w → primary w = false → txnState (obs w) ≠ kPrepared → activeTxnNumber (obs w) ≠ n → 0 <= n →
  wp (beginOrContinueTransactionUnconditionally env n)
    (λ _ w', Begun n false w' ∧ txnState (obs w') = kInProgress ∧ primary w' = false ∧
       oplog w' = oplog w ∧ stored w' = stored w)
    (λ _ _, False) (set_opCtx (applierCtx n) w).
Proof.
  intros Hi Hp Hs Ha H0. unfold beginOrContinueTransactionUnconditionally. wp_steps.
  apply Z.eqb_neq in Ha. rewrite Ha. simpl.
  set (w0 := set_prv (set_isValid true (prv w)) (set_opCtx (applierCtx n) w)).
  assert (Hc0 : Core w0).
  { destruct (i_core w Hi) as [[] HS HT HD HC H1 H2 HP Hinv ?]. split; try done.
    - unfold StateOk in *. simpl. destruct (txnState (obs w)); try done. tauto.
    - simpl. congruence. }
  eapply wp_mono; [apply (beginMultiDocument_wp env w0 n); [done..|simpl; congruence]| |].
  - intros _ w1 (Hc1 & Hs1 & Ha1 & Hst1 & _ & _ & (E1 & E2 & E3 & E4 & E5)). wp_steps.
    simpl in E1, E2, E3, E4, E5.
    split_and!; simpl; try congruence. split; simpl; try congruence; rewrite ?Hs1; try done.
    + destruct Hc1 as [[] HS HT HD HC H1 H2 HP Hinv ?]. split; try done.
      * unfold StateOk in *. simpl. by rewrite Hs1 in *.
      * intros Hv. by destruct (Hinv Hv).
    + by rewrite E1.
  - intros e w1 (-> & _ & Hx). done.
Qed.

Lemma continueApplied_wp w n :
  Unrecorded w → primary w = false → txnState (obs w) = kPrepared → activeTxnNumber (obs w) = n →
  wp (beginOrContinueTransactionUnconditionally env n)
    (λ _ w', Begun n false w' ∧ w' = set_opCtx (applierCtx n) w)
    (λ _ _, False) (set_opCtx (applierCtx n) w).
Proof.
  intros Hi Hp Hs Ha. unfold beginOrContinueTransactionUnconditionally. wp_steps.
  rewrite Ha, Z.eqb_refl. simpl. wp_steps; [by rewrite Hs|].
  pose proof (u_core w Hi) as Hc. pose proof (c_state w Hc) as HS. unfold StateOk in HS. rewrite Hs in HS.
  destruct HS as (_ & _ & _ & Hneed & Hv & _).
  match goal with |- Begun _ _ ?w' ∧ _ => assert (Heq : w' = set_opCtx (applierCtx n) w) end.
  { destruct w as [? [] ? ? ? ? ? ? ?]. simpl in *. by subst. }
  split; [|done]. rewrite Heq. split; try done.
  - by apply (Core_same _ _ Hc).
  - intros _. apply (u_stash w Hi). by rewrite Hs.
Qed.

(** An applied entry with the first operations of a transaction: the first of them puts the
    transaction on record as in progress. *)
Definition loggedPartial (n : Z) (t : OpTime.t) (ops : list ReplOperation) (first : bool) (w : World) : World :=
  if first then logged (EvPartial n t ops) n t dInProgress w
  else set_oplog (oplog w ++ [EvPartial n t ops]) w.

Lemma loggedPartial_Idle n t ops first w :
  Idle w → primary w = false → isOpen (txnState (obs w)) = false → 0 <= n → OpTime.isNull t = false →
  ownRecord n (stored w) → Idle (loggedPartial n t ops first w).
Proof.
  intros [[[] HS HT HD HC H1 H2 HP Hinv ?] Hi1 Hi2 Hi3 Hi4] Hp Ho H0 Ht Hown.
  assert (Hs : txnState (obs w) ≠ kPrepared) by (intros Hs; by rewrite Hs in Ho).
  destruct first; (split; try done); try (split; try done; simpl; try congruence); try (by intros Hx);
    try (intros Hv; by destruct (Hinv Hv)).
  - by apply (DurableOk_txn _ (stored w)).
  - by intros s [= <-].
  - apply DurableOk_quiet; [done|by repeat constructor].
Qed.

(** An applied prepare entry prepares the transaction. *)
Lemma applyPrepare_wp w n t ops :
  Idle w → primary w = false → isOpen (txnState (obs w)) = false → activeTxnNumber (obs w) ≠ n →
  0 <= n → OpTime.isNull t = false → ownRecord n (stored w) →
  wp (applyPrepareTransaction env n t ;; modify (logged (EvPrepare n t ops) n t dPrepared))
    (λ _ w', Idle w' ∧ txnState (obs w') = kPrepared) (λ _ _, False) w.
Proof.
  intros Hi Hp Ho Ha H0 Ht Hown. unfold applyPrepareTransaction, withSession. wp_steps.
  assert (Hs : txnState (obs w) ≠ kPrepared) by (intros Hs; by rewrite Hs in Ho).
  eapply wp_mono; [by apply beginApplied_wp| |done].
  intros _ w1 (Hb & Hs1 & Hp1 & Hol1 & Hst1). wp_step. apply wp_bind, wp_guarded. wp_step.
  eapply wp_mono; [apply (unstash_wp env n false); [done|by rewrite Hs1]| |by intros e w2 [_ ?]].
  intros _ w2 [(k & c & -> & Hr & _) _]. wp_step.
  apply (external_wp env); [|intros [_ Hx]; by rewrite (r_replicated _ _ _ Hr) in Hx].
  apply (Running_now _ _ _ (S (now (unstashed k c w1)))) in Hr.
  eapply wp_mono; [by apply (prepareApplied_wp env n)| |done].
  intros ts w3 (Hr3 & Hs3 & Hol3 & Hst3 & Ha3 & Hp3).
  simpl in Hol3, Hst3.
  eapply wp_mono; [apply (stash_wp env n false w3 (λ _ _, False)); [done|by rewrite Hs3]| |done].
  intros x4 w4 (Hu & _ & _ & Hp4 & Hst4 & Hol4 & r & Hob). wp_steps; rewrite Hob; simpl; [by rewrite Hs3|].
  split; [|done]. apply Unrecorded_logged; rewrite ?Hob; simpl; try done; try congruence.
  by rewrite Hst4, Hst3, Hst1.
Qed.

(** Unstashing for an entry that ends a prepared transaction. *)
Lemma unstashApplied_wp w n cmd :
  Begun n false w → txnState (obs w) = kPrepared → cmd ≠ CmdOther →
  wp (unstashTransactionResources env cmd)
    (λ _ w', Running n false w' ∧ txnState (obs w') = kPrepared ∧ stored w' = stored w ∧
       primary w' = primary w ∧ prepareOpTime (obs w') = prepareOpTime (obs w))
    (λ _ _, False) w.
Proof.
  intros Hb Hs Hcmd.
  eapply wp_mono; [apply (unstash_wp env n false); [done|by rewrite Hs]| |by intros e w2 [_ ?]].
  by intros x w2 [(k & c & -> & Hr & _) _].
Qed.

(** The part of a prepared commit that can no longer fail, on a secondary. *)
Lemma finishApplied_wp n E w k ct t :
  Running n false w → txnState (obs w) = kPrepared → primary w = false → notPrepared (stored w) →
  wp (finishPreparedCommit env ct (Some t))
    (λ _ w', Running n false w' ∧ txnState (obs w') = kCommitted) E
    (set_now k (set_opCtx (set_oc_rstlLocked true (opCtx w)) w)).
Proof.
  intros Hr Hs Hprim Hnp. pose proof (r_core _ _ _ Hr) as Hc.
  assert (Ho : isOpen (txnState (obs w)) = true) by (by rewrite Hs).
  destruct (r_open _ _ _ Hr Ho) as (Ha & Hw & Hi & Hl).
  pose proof (c_state w Hc) as HS. unfold StateOk in HS. rewrite Hs in HS.
  destruct HS as (Hac & _ & Hlast & _).
  unfold finishPreparedCommit. wp_step. apply wp_uninterruptible. wp_steps.
  rewrite (r_replicated _ _ _ Hr). wp_steps; [by rewrite Hlast|].
  eapply (commitStorage_wp env _ _ _ None);
    [done..|by apply (Core_open_valid w)|simpl; by rewrite Hs|by left| |by intros [? _]].
  intros k' c (F1 & F2 & F3 & F4) [Hcl1 Hcl2] Ht. simpl in F1, F2, F3, F4.
  wp_step. apply retrieve_wp; [done|]. wp_step. unfold onPreparedTransactionCommit. wp_steps.
  { by rewrite F1, (r_txnNumber _ _ _ Hr). }
  rewrite F2, (r_replicated _ _ _ Hr). wp_steps.
  apply clear_wp; [by apply (Core_autoCommit w)|done|].
  eapply wp_mono; [apply (finishFlushed_wp n false (λ _ _, False) w); [done..|]| |done].
  - split; try done; simpl; [apply Hc|congruence].
  - simpl. intros _ w' (Hr' & Hs' & _). split; [by apply Running_uninterruptible|done].
Qed.

(** An applied commit entry commits the prepared transaction. *)
Lemma applyCommit_wp w n ct t :
  Idle w → primary w = false → txnState (obs w) = kPrepared → activeTxnNumber (obs w) = n →
  OpTime.isNull t = false → Timestamp.isNull ct = false →
  Timestamp.lt ct (OpTime.timestamp (prepareOpTime (obs w))) = false →
  wp (modify (logged (EvCommitPrepared n t ct) n t dCommitted) ;; applyCommitTransaction env n ct t)
    (λ _ w', Idle w' ∧ txnState (obs w') = kCommitted) (λ _ _, False) w.
Proof.
  intros Hi Hp Hs Ha Ht Hct Hlt.
  assert (H0 : 0 <= activeTxnNumber (obs w)).
  { pose proof (c_state w (i_core w Hi)) as HS. unfold StateOk in HS. rewrite Hs in HS. tauto. }
  unfold applyCommitTransaction, withSession. wp_steps.
  set (w0 := logged (EvCommitPrepared n t ct) n t dCommitted w).
  assert (Hi0 : Unrecorded w0) by (unfold w0; rewrite <- Ha; by apply Unrecorded_ended).
  eapply wp_mono; [by apply (continueApplied_wp w0)| |done].
  intros x1 w1 (Hb & ->). wp_step. apply wp_bind.
  eapply wp_mono; [by apply (unstashApplied_wp _ n CmdCommit)| |done].
  simpl. intros x2 w2 (Hr & Hs2 & Hst2 & Hp2 & Hpo).
  pose proof (r_replicated _ _ _ Hr) as Hrep.
  assert (Hnp : notPrepared (stored w2)) by (rewrite Hst2; by intros s [= <-]).
  unfold commitPreparedTransaction. wp_steps. rewrite Hs2. apply wp_uassert; [intros _|done].
  wp_step. apply (external_wp env); [|intros [_ Hx]; congruence]. wp_steps. rewrite Hrep. simpl.
  wp_steps. rewrite Hct. simpl. wp_steps. rewrite Hpo, Hlt. simpl. wp_steps.
  eapply wp_mono; [apply (finishApplied_wp n (λ _ _, False) w2 (S (now w2))); [done..|congruence|done]| |done].
  intros x3 w3 (Hr3 & Hs3). wp_steps; [by rewrite Hs3|]. split; [|done].
  apply (Running_Idle n false); [done|by rewrite Hs3].
Qed.

(** An applied abort entry aborts it. *)
Lemma applyAbort_wp w n t :
  Idle w → primary w = false → txnState (obs w) = kPrepared → activeTxnNumber (obs w) = n →
  OpTime.isNull t = false →
  wp (modify (logged (EvAbort n t) n t dAborted) ;; applyAbortTransaction env n)
    (λ _ w', Idle w' ∧ txnState (obs w') = kAbortedWithPrepare) (λ _ _, False) w.
Proof.
  intros Hi Hp Hs Ha Ht.
  assert (H0 : 0 <= activeTxnNumber (obs w)).
  { pose proof (c_state w (i_core w Hi)) as HS. unfold StateOk in HS. rewrite Hs in HS. tauto. }
  unfold applyAbortTransaction, withSession. wp_steps.
  set (w0 := logged (EvAbort n t) n t dAborted w).
  assert (Hi0 : Unrecorded w0) by (unfold w0; rewrite <- Ha; by apply Unrecorded_ended).
  eapply wp_mono; [by apply (continueApplied_wp w0)| |done].
  intros x1 w1 (Hb & ->). wp_step. apply wp_bind.
  eapply wp_mono; [by apply (unstashApplied_wp _ n CmdAbort)| |done].
  simpl. intros x2 w2 (Hr & Hs2 & Hst2 & Hp2 & _).
  eapply wp_mono; [apply (abortPrepared_wp env (λ _ _, False) w2)| |done].
  - eapply (Running_Abortable n false); [done..|]. intros _. rewrite Hst2. by intros s [= <-].
  - intros [_ Hx]. by rewrite (r_replicated _ _ _ Hr) in Hx.
  - intros x3 w3 [He _]. wp_steps; rewrite (en_state _ _ _ He); [done|].
    split; [exact (Ended_Idle _ _ _ He eq_refl)|done].
Qed.

(** ** Rollback *)

Lemma rollback_wp E w ol st :
  Idle w → primary w = false → DurableOk ol st → notPrepared st →
  wp (abortPreparedForRollback env ;; modify (λ w, set_oplog ol (set_stored st w)))
    (λ _ w', Idle w' ∧ txnState (obs w') ≠ kPrepared) E w.
Proof.
  intros Hi Hp Hd Hn. unfold abortPreparedForRollback. wp_steps. apply wp_when; intros Hpr.
  - assert (Hs : txnState (obs w) = kPrepared) by (by destruct (txnState (obs w))).
    destruct (i_stash w Hi) as [r Hr]; [by rewrite Hs|].
    pose proof (i_core w Hi) as Hc.
    assert (HP : PromiseOk (set_opCtx killerCtx w)) by (destruct (c_promise w Hc); by split).
    wp_step. unfold abortTransaction. wp_steps. rewrite Hr. simpl.
    unfold wp at 1. rewrite abortOnSession_run; [|done|simpl; by rewrite Hs]. simpl. rewrite Hs. simpl.
    unfold wp at 1. rewrite invalidate_run; [|by apply ended_PromiseOk|done]. wp_steps.
    split; [|done]. apply (invalidated_Idle (set_oplog ol (set_stored st
        (ended kAbortedWithPrepare (set_opCtx killerCtx w))))); try done; [|apply Hc|simpl; congruence].
    pose proof (ended_PromiseOk _ kAbortedWithPrepare HP ltac:(done)) as []. by split.
  - wp_steps. split; [|simpl; intros Hx; by rewrite Hx in Hpr].
    apply (Idle_replaced (set_opCtx killerCtx w)); try done; [by apply Idle_ctx|].
    simpl. intros Hx. by rewrite Hx in Hpr.
Qed.

End Steps.
