(* ===== verification/TransactionOpen.v ===== *)
(** Requests that meet an open transaction: what they leave of one that is prepared, and of
    one in progress that they continue. *)
From stdpp Require Import gmap.
From S2P Require Import Prelude OpTimes TransactionState TransactionParticipant TransactionSession TransactionInv TransactionPhases TransactionRun TransactionCommands TransactionWrites TransactionRequests TransactionSteps.
Import TransactionParticipant TransactionSession.

Section Open.
Context {R : Reuse} (env : Env) `{!EnvOk env}.

(** Only a request that continues the transaction gets through; others change nothing. *)
Lemma beginOpen_wp w n ac start :
  FreshCtx n true (opCtx w) → isInRetryableWriteMode (txnState (obs w)) = false →
  (isOpen (txnState (obs w)) = true → is_Some (txnResourceStash (obs w))) →
  parsed n ac start (oc_inMultiDocumentTransaction (opCtx w)) →
  txnState (obs w) = kPrepared ∨ (ac = Some false ∧ start = None) →
  wp (beginOrContinue env n ac start)
    (λ _ w', (∃ k, w' = set_now k w) ∧ primary w = true ∧ n = activeTxnNumber (obs w) ∧
       ac = Some false ∧ start = None)
    (λ _ w', ∃ k, w' = set_now k w) w.
Proof.
  intros Hf Hm Hst (H0 & Hac & Hstart & Hnone & Hmulti) Hcont. unfold beginOrContinue. wp_step.
  apply (external_wp env); [|by intros; eexists].
  wp_steps. rewrite (f_replicated _ _ _ Hf). wp_steps.
  apply wp_uassert; [intros Hp|by intros; eexists]. apply wp_uassert; [intros _|by intros; eexists].
  wp_steps. apply wp_uassert; [intros Hlt|by intros; eexists]. apply negb_true_iff, Z.ltb_ge in Hlt.
  assert (Hset : txnState (obs w) = kPrepared → ∀ m (Q : unit → World → Prop) w1, obs w1 = obs w →
    wp (_setNewTxnNumber m) Q (λ _ w2, w2 = w1) w1).
  { intros Hs m Q w1 Hw1. unfold _setNewTxnNumber. wp_steps. by rewrite Hw1, Hs. }
  destruct ac as [[]|]; [done| |].
  - wp_steps; [by apply Hmulti|]. destruct start as [[]|]; [|done|].
    + destruct Hcont as [Hs|[_ ?]]; [|done]. wp_steps. apply wp_when; intros Ha.
      * wp_step. apply wp_uassert; [intros _|by intros; eexists]. rewrite Hs. apply wp_uassert; [done|by intros; eexists].
      * unfold _beginMultiDocumentTransaction. wp_step. eapply wp_mono; [by apply (Hset Hs _ (λ _ _, False))|done|].
        intros e w2 ->. by eexists.
    + unfold _continueMultiDocumentTransaction. wp_steps.
      apply wp_uassert; [intros [->%Z.eqb_eq _]%andb_true_iff|by intros; eexists]. wp_steps.
      apply wp_when; [intros [Hip Hb]%andb_true_iff|intros _].
      { exfalso. apply bool_decide_eq_true in Hb. apply Hb, Hst. by destruct (txnState (obs w)). }
      wp_steps. by split; [eexists|].
  - destruct Hcont as [Hs|[? _]]; [|done]. rewrite Hnone by done. wp_steps.
    unfold _beginOrContinueRetryableWrite. wp_step. wp_step.
    destruct (activeTxnNumber (obs w) <? n).
    + wp_step. eapply wp_mono; [by apply (Hset Hs _ (λ _ _, False))|done|]. intros e w2 ->. by eexists.
    + wp_steps. rewrite Hm. by eexists.
Qed.

Lemma refresh_valid w :
  isValid (prv w) = true → oc_locked (opCtx w) = false → refreshFromStorageIfNeeded env w = Ret tt w.
Proof.
  intros Hv Hl. unfold refreshFromStorageIfNeeded, ctxM, prvM, get, mbind, M_bind. rewrite Hl. simpl. by rewrite Hv.
Qed.

(** A request that reaches an open transaction: the commands run on it or it is left alone. *)
Lemma invokeOpen_wp r w (Q : Reply → World → Prop) :
  Idle w → isInRetryableWriteMode (txnState (obs w)) = false → isValid (prv w) = true → RequestOk r →
  txnState (obs w) = kPrepared ∨ (rq_autocommit r = Some false ∧ rq_startTransaction r = None) →
  (∀ w' rep, (∀ ok, rep ≠ Replied ok) → Keeps w w' → Idle w' → primary w' = primary w → Q rep w') →
  (∀ k, let w' := set_now k (set_opCtx (requestCtx r) w) in
     (now w <= k)%nat → Begun (rq_txnNumber r) true w' → rq_autocommit r = Some false →
     wp (runUnstashed env r) (λ ok w', Q (Replied ok) w') (λ e w', Q (Failed e) w') w') →
  wp (invokeWithSessionCheckedOut env r) Q (λ _ _, False) w.
Proof.
  intros Hi Hm Hv Hok Hcont Hleft Hrun. unfold invokeWithSessionCheckedOut, wp.
  set (w0 := set_opCtx (requestCtx r) w).
  assert (Hi0 : Idle w0) by by apply Idle_ctx.
  rewrite refresh_valid by done. simpl.
  assert (Hf : FreshCtx (rq_txnNumber r) true (opCtx w0)) by done.
  pose proof (wp_monotone _ _ _ w0
    (monotone_begin env (rq_txnNumber r) (rq_autocommit r) (rq_startTransaction r))
    (beginOpen_wp w0 _ _ _ Hf Hm (i_stash w Hi) (ro_parsed _ Hok) Hcont)) as H2.
  unfold wp in H2.
  destruct (beginOrContinue env _ _ _ w0) as [y w2|e w2|].
  - destruct H2 as [((k & ->) & Hp & Ha & Hac & Hst) Hk].
    specialize (Hrun k Hk). unfold wp in Hrun.
    assert (Hb : Begun (rq_txnNumber r) true (set_now k w0)).
    { apply Idle_Begun; try done. by apply (Idle_set w k). }
    specialize (Hrun Hb Hac). unfold w0. by destruct (runUnstashed env r _).
  - destruct H2 as [[k ->] _].
    assert (Hq : ∀ rep, (∀ ok, rep ≠ Replied ok) → Q rep (set_now k w0)).
    { intros rep Hrep. apply Hleft; [done|apply Keeps_set|by apply (Idle_set w k)|done]. }
    destruct e; simpl; by apply Hq.
  - done.
Qed.

(** ** Prepared transactions *)

(** Only a commit or an abort decides a prepared transaction. *)
Lemma runUnstashedPrepared_wp r w :
  RequestOk r → Begun (rq_txnNumber r) true w → txnState (obs w) = kPrepared →
  commandName (rq_command r) ≠ CmdCommit → commandName (rq_command r) ≠ CmdAbort →
  wp (runUnstashed env r) (λ _ w', Keeps w w') (λ _ w', Keeps w w') w.
Proof.
  intros Hok Hb Hs Hc1 Hc2. unfold runUnstashed. wp_step. apply wp_guarded.
  eapply wp_mono; [apply (unstash_wp env (rq_txnNumber r) true); done| |].
  2: { intros e w1 [(k & c & -> & _) _]. wp_steps. rewrite Hs. wp_steps. apply Keeps_set. }
  intros x w1 [(k & c & -> & Hr & _) Hother].
  destruct (rq_command r) as [ts| | |ops ok|ids|ids]; try done;
    try (specialize (Hother ltac:(by rewrite Hs) eq_refl); congruence).
  assert (Hguard : ∀ w2 E, Running (rq_txnNumber r) true w2 → Keeps w w2 →
    wp (_abortUnpreparedOrStashPreparedTransaction env) (λ _ w', Keeps w w') E w2).
  { intros w2 E Hr2 Hk2. unfold _abortUnpreparedOrStashPreparedTransaction. wp_steps.
    rewrite (Keeps_state _ _ Hk2), Hs. simpl.
    eapply wp_mono; [by apply (stash_wp env (rq_txnNumber r) true w2 (λ _ _, False))| |done].
    intros _ w3 (_ & _ & Hp & _ & Hst & Hol & Hob). etransitivity; [exact Hk2|]. by split. }
  wp_step. apply wp_guarded. wp_step. simpl. wp_step. unfold prepareTransactionCmd. wp_step.
  apply (external_wp env).
  2: { intros _ e. apply Hguard; [by apply Running_now|]. etransitivity; [apply Keeps_unstashed|].
       by apply (Keeps_set _ _ (opCtx (unstashed k c w))). }
  apply (Running_now _ _ _ (S (now (unstashed k c w)))) in Hr.
  assert (Hk : Keeps w (set_now (S (now (unstashed k c w))) (unstashed k c w))) by apply Keeps_unstashed.
  revert Hr Hk. generalize (set_now (S (now (unstashed k c w))) (unstashed k c w)).
  intros w2 Hr Hk. wp_steps. rewrite (Keeps_state _ _ Hk), Hs. simpl. wp_steps.
  { apply Timestamp.eqb_eq. by apply (r_prepared _ _ _ Hr); rewrite (Keeps_state _ _ Hk). }
  eapply wp_mono; [by apply (stash_wp env (rq_txnNumber r) true w2 (λ _ _, False))| |done].
  intros _ w3 (_ & _ & Hp & _ & Hst & Hol & Hob). wp_steps. etransitivity; [exact Hk|]. by split.
Qed.

(** A request that does not decide it leaves a prepared transaction as it is. *)
Lemma invokePrepared_wp r w :
  Idle w → txnState (obs w) = kPrepared → RequestOk r →
  (rq_txnNumber r = activeTxnNumber (obs w) →
     commandName (rq_command r) ≠ CmdCommit ∧ commandName (rq_command r) ≠ CmdAbort) →
  wp (invokeWithSessionCheckedOut env r) (λ _ w', Keeps w w') (λ _ _, False) w.
Proof.
  intros Hi Hs Hok Hcmd.
  apply invokeOpen_wp; auto; [by rewrite Hs|apply Core_open_valid; [apply Hi|by rewrite Hs]|].
  intros k w' _ Hb _. destruct Hcmd as [H1 H2]; [symmetry; apply (b_active _ _ _ Hb)|].
  eapply wp_mono; [by apply (runUnstashedPrepared_wp r w')|..].
  - intros ok w2 Hk. etransitivity; [apply Keeps_set|exact Hk].
  - intros e w2 Hk. etransitivity; [apply Keeps_set|exact Hk].
Qed.

(** Nor do the acts of the server by itself. *)
Lemma restashed_Keeps w w' : restashed w w' → Keeps w w'.
Proof. intros (r & k & c & ->). split; try done. by exists r. Qed.

Lemma killPrepared_wp E w :
  Idle w → txnState (obs w) = kPrepared → wp (killSession env) (λ _ w', Keeps w w') E w.
Proof.
  intros Hi Hs. unfold killSession. wp_steps. rewrite Hs.
  apply wp_when; [done|intros _]. by apply (Keeps_set w (now w)).
Qed.

Lemma invalidatePrepared_wp E w :
  txnState (obs w) = kPrepared → wp invalidateSession (λ _ w', Keeps w w') E w.
Proof.
  intros Hs. unfold invalidateSession. wp_steps. rewrite Hs.
  apply wp_when; [done|intros _]. by apply (Keeps_set w (now w)).
Qed.

Lemma directWritePrepared_wp w :
  txnState (obs w) = kPrepared → wp observeDirectWrite (λ _ _, False) (λ _ w', w' = w) w.
Proof. intros Hs. unfold observeDirectWrite. wp_steps. rewrite Hs. by apply wp_uassert. Qed.

Lemma stepDownPrepared_wp w :
  Idle w → txnState (obs w) = kPrepared → wp (stepDown env) (λ _ w', Keeps w w') (λ _ w', Keeps w w') w.
Proof.
  intros Hi Hs. unfold stepDown. wp_step.
  eapply wp_mono; [by apply (killSession_wp env (λ _ _, False))| |done].
  intros _ w1 (Hi1 & _ & _ & Hw1). rewrite (Hw1 Hs) in *. wp_step.
  eapply wp_mono; [by apply (refreshLocks_wp env (set_opCtx killerCtx w))| |].
  - intros _ w2 [Hi2 Hk%restashed_Keeps]. wp_step.
    assert (Hk2 : Keeps w w2) by (etransitivity; [by apply (Keeps_set w (now w) killerCtx)|exact Hk]).
    eapply wp_mono; [apply (invalidatePrepared_wp (λ _ _, False))| |done].
    + by rewrite (Keeps_state _ _ Hk2).
    + intros x3 w3 Hk3. wp_steps. etransitivity; [exact Hk2|]. destruct Hk3. by split.
  - intros e w2 [_ Hk%restashed_Keeps]. etransitivity; [by apply (Keeps_set w (now w) killerCtx)|exact Hk].
Qed.

Lemma Idle_prepared_settled w : Idle w → txnState (obs w) = kPrepared → notInProgress (stored w).
Proof. intros Hi Hs s Hst. destruct (i_prepared w Hi Hs) as (s' & Hst' & _ & Hr). congruence. Qed.

Lemma stepUpPrepared_wp w :
  Idle w → txnState (obs w) = kPrepared → primary w = false →
  wp (stepUp env) (λ _ w', Keeps w w') (λ _ w', Keeps w w') w.
Proof.
  intros Hi Hs Hp. unfold stepUp. wp_steps. rewrite Hs. simpl. wp_steps.
  eapply wp_mono; [by apply (refreshLocks_wp env (set_opCtx killerCtx w)), Idle_ctx| |].
  - intros _ w2 [Hi2 Hr]. pose proof (restashed_Keeps _ _ Hr) as Hk. destruct Hr as (r & k & c & ->). wp_step.
    eapply wp_mono; [apply (abortInProgressTransactions_wp env (λ _ _, False)); [exact Hi2|done|..]| |done].
    + right. simpl. by rewrite Hs.
    + right. by apply Idle_prepared_settled.
    + intros _ w3 (_ & _ & _ & Hw3). rewrite (Hw3 Hs). wp_steps.
      etransitivity; [by apply (Keeps_set w (now w) killerCtx)|]. destruct Hk. by split.
  - intros e w2 [_ Hk%restashed_Keeps]. etransitivity; [by apply (Keeps_set w (now w) killerCtx)|exact Hk].
Qed.

(** ** Transactions in progress *)

(** A transaction in progress with the operations it was given. *)
Record InTransaction (n : Z) (ops : list ReplOperation) (w : World) : Prop := {
  it_idle : Idle w;
  it_state : txnState (obs w) = kInProgress;
  it_active : activeTxnNumber (obs w) = n;
  it_ops : transactionOperations (prv w) = ops
}.

(** One that was aborted before it was prepared. *)
Record AbortedTransaction (n : Z) (w : World) : Prop := {
  at_idle : Idle w;
  at_state : txnState (obs w) = kAbortedWithoutPrepare;
  at_active : activeTxnNumber (obs w) = n;
  at_valid : isValid (prv w) = true
}.

Lemma AbortedSince_Aborted n w w' :
  AbortedSince w w' → activeTxnNumber (obs w) = n →
  AbortedTransaction n w' ∧ oplog w' = oplog w.
Proof. intros [] Hn. split; [|done]. by split; try congruence. Qed.

(** Writes are added as a whole to a transaction in progress, or abort it. *)
Lemma runWrites_wp r w ops ok0 :
  let n := rq_txnNumber r in
  Begun n true w → txnState (obs w) = kInProgress → rq_command r = Writes ops ok0 →
  wp (runUnstashed env r)
    (λ ok w', (if ok then InTransaction n (transactionOperations (prv w) ++ ops) w'
               else AbortedTransaction n w') ∧ oplog w' = oplog w)
    (λ _ w', AbortedTransaction n w' ∧ oplog w' = oplog w) w.
Proof.
  intros n Hb Hs Hcmd. pose proof (b_active _ _ _ Hb) as Ha. unfold runUnstashed. rewrite Hcmd.
  wp_step. apply wp_guarded.
  eapply wp_mono; [apply (unstash_wp env n true); done| |].
  2: { intros e w1 [Hf _]. eapply wp_mono; [by apply (unstashGuard_wp env n w w1 (λ _ _, False))| |done].
       intros _ w2 [_ Hx]. apply AbortedSince_Aborted; auto. }
  intros x w1 [(k & c & -> & Hr & _) _].
  assert (Hguard : ∀ w2 E, Running n true w2 → txnState (obs w2) = kInProgress → oplog w2 = oplog w →
    wp (_abortUnpreparedOrStashPreparedTransaction env)
      (λ _ w', AbortedTransaction n w' ∧ oplog w' = oplog w) E w2).
  { intros w2 E Hr2 Hs2 Hol2. destruct (r_open _ _ _ Hr2) as [Ha2 _]; [by rewrite Hs2|].
    eapply wp_mono; [by apply (abortOrStash_inProgress env n w2 (λ _ _, False))| |done].
    intros x3 w3 Hx. rewrite <- Hol2. by apply AbortedSince_Aborted. }
  assert (Hbody : wp (guarded (_abortUnpreparedOrStashPreparedTransaction env)
         (ok ← runCommand env (Writes ops ok0); when ok (stashTransactionResources env) ;; mret ok))
    (λ (ok : bool) w', if ok then InTransaction n (transactionOperations (prv w) ++ ops) w' ∧ oplog w' = oplog w
       else Running n true w' ∧ txnState (obs w') = kInProgress ∧ oplog w' = oplog w)
    (λ _ w', AbortedTransaction n w' ∧ oplog w' = oplog w) (unstashed k c w)).
  { apply wp_guarded. wp_step. simpl. wp_step.
    eapply wp_mono; [by apply (transactionWrites_wp env n)| |].
    - intros _ w2 (Hr2 & Hs2 & Hol2 & Hops2). destruct (r_open _ _ _ Hr2) as [Ha2 _]; [by rewrite Hs2|].
      wp_step. destruct ok0; wp_steps; [|done].
      eapply wp_mono; [by apply (stash_wp env n true w2 (λ _ _, False))| |done].
      intros _ w3 (_ & Hx & Hp & _ & _ & Hol & t & Hob). wp_steps. split; [|by rewrite Hol, Hol2].
      split; rewrite ?Hob, ?Hp; try done. apply Hx. intros Hy. congruence.
    - intros e w2 (Hr2 & Hol2 & Hs2). by apply Hguard. }
  wp_step. eapply wp_mono; [exact Hbody| |done].
  intros ok w2 Hw2. wp_step. destruct ok; wp_steps; [done|].
  destruct Hw2 as (Hr2 & Hs2 & Hol2). by apply Hguard.
Qed.

(** A transaction that was aborted refuses every command. *)
Lemma runAborted_wp r w :
  let n := rq_txnNumber r in
  Begun n true w → txnState (obs w) = kAbortedWithoutPrepare → Idle w →
  wp (runUnstashed env r) (λ _ _, False) (λ _ w', AbortedTransaction n w' ∧ oplog w' = oplog w) w.
Proof.
  intros n Hb Hs Hi. unfold runUnstashed. wp_step. apply wp_guarded.
  unfold unstashTransactionResources. wp_steps.
  { apply bool_decide_eq_true. by rewrite (f_txnNumber _ _ _ (b_ctx _ _ _ Hb)). }
  rewrite Hs. simpl. unfold _checkIsCommandValidWithTxnState. wp_steps. rewrite Hs.
  apply wp_uassert; [done|intros _]. wp_steps. rewrite Hs. apply wp_when; [done|intros _].
  split; [|done]. split; try done; apply Hb.
Qed.

(** The commit of a transaction in progress. *)
Lemma runCommit_wp r w :
  let n := rq_txnNumber r in
  Begun n true w → txnState (obs w) = kInProgress → rq_command r = Commit None →
  wp (runUnstashed env r)
    (λ ok w', ok = true ∧ committedTransaction n w w')
    (λ _ w', oplog w' = oplog w ∨ committedTransaction n w w') w.
Proof.
  intros n Hb Hs Hcmd. pose proof (b_active _ _ _ Hb) as Ha. unfold runUnstashed. rewrite Hcmd.
  wp_step. apply wp_guarded.
  eapply wp_mono; [apply (unstash_wp env n true); done| |].
  2: { intros e w1 [Hf _]. eapply wp_mono; [by apply (unstashGuard_wp env n w w1 (λ _ _, False))| |done].
       intros _ w2 [_ Hx]. left. by apply (ab_oplog _ _ (Hx Hs)). }
  intros x w1 [(k & c & -> & Hr & _) _].
  assert (Hguard : ∀ w2 E, Running n true w2 →
    (txnState (obs w2) = kInProgress ∧ oplog w2 = oplog w) ∨ committedTransaction n w w2 →
    wp (_abortUnpreparedOrStashPreparedTransaction env)
      (λ _ w', oplog w' = oplog w ∨ committedTransaction n w w') E w2).
  { intros w2 E Hr2 [[Hs2 Hol2]|Hc2].
    - eapply wp_mono; [by apply (abortOrStash_inProgress env n w2 (λ _ _, False))| |done].
      intros x3 w3 Hx. left. by rewrite (ab_oplog _ _ Hx).
    - unfold _abortUnpreparedOrStashPreparedTransaction. wp_steps. destruct (Hc2) as [-> _]. simpl.
      wp_steps. by right. }
  wp_step. apply wp_guarded. wp_step. simpl. wp_step. unfold commitTransaction. wp_step. wp_step.
  simpl. rewrite Hs. simpl. wp_steps.
  apply (external_wp env).
  2: { intros _ e. apply Hguard; [by apply Running_now|]. left. done. }
  eapply wp_mono; [apply (commitUnprepared_wp env n); [by apply Running_now|simpl; by rewrite Hs]| |].
  - intros _ w2 (Hr2 & Hc2). wp_steps.
    eapply wp_mono; [apply (stash_wp env n true w2 (λ _ _, False)); done| |done].
    intros _ w3 (_ & _ & _ & _ & _ & Hol & t & Hob). wp_steps. split; [done|].
    unfold committedTransaction in *. rewrite Hob, Hol. exact Hc2.
  - intros e w2 (Hr2 & [[Hs2 Hol2]|Hc2]); apply Hguard; [done|left|done|right]; [|done].
    split; [|done]. by rewrite Hs2.
Qed.

(** ** Statements that are acknowledged *)

(** The cache knows the statements. *)
Definition known (ids : list Z) (w : World) : Prop :=
  ∀ k, k ∈ ids → is_Some (activeTxnCommittedStatements (prv w) !! k).

Lemma batchResult_known ids ids' w w' :
  batchResult ids w w' → known ids' w → known (ids ++ ids') w'.
Proof.
  intros (m & [[-> Hu]|(stmts & t & Hst & _ & _ & ->)]) Hk k [Hin|Hin]%elem_of_app; simpl.
  - destruct (activeTxnCommittedStatements (prv w) !! k) eqn:Hl; [done|].
    assert (k ∈ unknown w ids) as Hx by (by apply list_elem_of_filter). rewrite Hu in Hx. by inversion Hx.
  - by apply Hk.
  - apply (proj2 (cached_is_Some env _ _ _ _)). destruct (activeTxnCommittedStatements (prv w) !! k) eqn:Hl; [by left|].
    right. rewrite Hst. by apply list_elem_of_filter.
  - apply (proj2 (cached_is_Some env _ _ _ _)). left. by apply Hk.
Qed.

(** The session of a retryable write while its statements run. *)
Record Retrying (n : Z) (w : World) : Prop := {
  rt_running : Running n true w;
  rt_mode : isInRetryableWriteMode (txnState (obs w)) = true;
  rt_active : activeTxnNumber (obs w) = n
}.

Lemma insertBatch_known n w ids ids' :
  0 <= n → Retrying n w → NoDup ids → Forall (λ k, 0 <= k) ids → known ids' w →
  wp (insertBatch env ids) (λ _ w', Retrying n w' ∧ known (ids ++ ids') w') (λ _ w', Retrying n w') w.
Proof.
  intros H0 [Hr Hm Ha] Hnd Hpos Hk. eapply wp_mono; [by apply (insertBatch_wp env n)| |].
  - intros x w' Hb. split; [|exact (batchResult_known _ _ _ _ Hb Hk)].
    destruct (batchResult_Running env n w w' ids) as (? & ? & ?); auto. by split.
  - intros e w' [k ->]. by split; [apply Running_now|..].
Qed.

(** The statements of updates and deletes that change something. *)
Definition changing (stmts : list (Z * bool)) : list Z := (base.filter (λ st, st.2 = true) stmts).*1.

Lemma updateStatements_known n w stmts ids' :
  0 <= n → Retrying n w → Forall (λ k, 0 <= k) stmts.*1 → known ids' w →
  wp (updateStatements env stmts) (λ _ w', Retrying n w' ∧ known (changing stmts ++ ids') w') (λ _ w', Retrying n w') w.
Proof.
  intros H0 Hr Hpos. revert w ids' Hr. induction stmts as [|[s changes] rest IH]; intros w ids' Hr Hk; simpl; [done|].
  apply Forall_cons in Hpos as [Hs Hpos]. wp_step. unfold changing. rewrite filter_cons.
  destruct changes; simpl; eapply wp_mono.
  - apply (insertBatch_known n w [s] ids'); try done; [apply NoDup_singleton|by repeat constructor].
  - intros x w1 [Hr1 Hk1]. eapply wp_mono; [by apply (IH Hpos w1 ([s] ++ ids'))| |done].
    intros y w2 [Hr2 Hk2]. split; [done|]. intros k Hin. apply Hk2.
    rewrite !elem_of_app. rewrite elem_of_cons, elem_of_app in Hin. set_solver.
  - done.
  - apply (unchanged_wp env s), (r_valid _ _ _ (rt_running _ _ Hr)).
  - intros x w1 [m ->]. apply IH; [done| |done]. destruct Hr. by split; [apply Running_now|..].
  - intros x w1 [m ->]. destruct Hr. by split; [apply Running_now|..].
Qed.

(** The statements of a command that change something: an insert always does. *)
Definition statementIds (c : Command) : list Z :=
  match c with Insert ids => ids | Update stmts => changing stmts | _ => [] end.

Lemma runCommand_known r w :
  let n := rq_txnNumber r in
  RequestOk r → Retrying n w → statementIds (rq_command r) ≠ [] →
  wp (runCommand env (rq_command r))
    (λ ok w', ok = true ∧ Retrying n w' ∧ known (statementIds (rq_command r)) w')
    (λ _ w', Retrying n w') w.
Proof.
  intros n [(H0 & _) Hc] Hr Hne. destruct (rq_command r) as [| | | |ids|stmts]; try done; simpl in *; wp_step.
  - destruct Hc as (_ & Hnd & Hpos).
    eapply wp_mono; [apply (insertBatch_known n w ids []); try done; by intros k ?%not_elem_of_nil| |done].
    intros x w' [? Hk]. wp_steps. rewrite app_nil_r in Hk. done.
  - destruct Hc as (_ & Hpos). eapply wp_mono; [apply (updateStatements_known n w stmts []); try done; by intros k ?%not_elem_of_nil| |done].
    intros x w' [? Hk]. wp_steps. rewrite app_nil_r in Hk. done.
Qed.

(** A retryable write that is acknowledged has executed. *)
Lemma runStatements_wp r w :
  let n := rq_txnNumber r in
  RequestOk r → Begun n true w → isInRetryableWriteMode (txnState (obs w)) = true →
  statementIds (rq_command r) ≠ [] →
  wp (runUnstashed env r)
    (λ _ w', Idle w' ∧ isInRetryableWriteMode (txnState (obs w')) = true ∧
       activeTxnNumber (obs w') = n ∧ isValid (prv w') = true ∧ primary w' = true ∧
       known (statementIds (rq_command r)) w')
    (λ _ _, True) w.
Proof.
  intros n Hok Hb Hm Hne. unfold runUnstashed. wp_step. apply wp_guarded.
  eapply wp_mono; [apply (unstash_wp env n true); done| |].
  2: { intros e w1 [Hf _]. by eapply wp_mono; [by apply (unstashGuard_wp env n w w1 (λ _ _, False))|..]. }
  intros x w1 [(k & c & -> & Hr & _) _].
  assert (Hrt : Retrying n (unstashed k c w)) by (split; try done; apply Hb).
  wp_step. apply wp_guarded. wp_step.
  eapply wp_mono; [by apply runCommand_known| |].
  - intros ok w2 (-> & [Hr2 Hm2 Ha2] & Hk). wp_steps.
    eapply wp_mono; [apply (stash_wp env n true w2 (λ _ _, False)); done| |done].
    intros _ w3 (_ & Hx & Hp & Hpr & _ & _ & t & Hob). wp_steps.
    unfold known. rewrite Hob, Hp, Hpr. split_and!; try done; try apply Hr2; [|done].
    apply Hx. intros Hy. by rewrite Hy in Hm2.
  - intros e w2 [Hr2 Hm2 _]. eapply wp_mono; [by apply (abortOrStash_wp env n w2 (λ _ _, False))|done|done].
Qed.

(** What the cache of an idle session knows is in the history of its record. *)
Lemma known_stored w ids k :
  Idle w → isInRetryableWriteMode (txnState (obs w)) = true → isValid (prv w) = true →
  primary w = true → known ids w → k ∈ ids →
  ∃ s, stored w = Some s ∧ rec_txnNum (st_record s) = activeTxnNumber (obs w) ∧
    k ∈ statementsOf (st_history s).
Proof.
  intros Hi Hm Hv Hp Hk Hin. pose proof (c_cache w (i_core w Hi) Hp Hv) as Hca. unfold CacheOk in Hca.
  specialize (Hk k Hin). destruct (txnState (obs w)); try done.
  - destruct Hca as (Hst & _). rewrite Hst, lookup_empty in Hk. by destruct Hk.
  - destruct Hca as (_ & _ & s & Hst & Hn & _ & Hall & _). exists s. split_and!; [done..|]. by apply Hall.
Qed.

End Open.
