(* ===== verification/TransactionProps.v ===== *)
(** What holds of a session in every history: no operation finds it in a state it cannot
    handle, a prepared transaction outlives everything but its decision, and a retryable
    statement is executed once. *)
From stdpp Require Import gmap.
From S2P Require Import Prelude OpTimes TransactionState TransactionParticipant TransactionSession TransactionInv TransactionPhases TransactionRun TransactionCommands TransactionWrites TransactionRequests TransactionSteps TransactionOpen.
Import TransactionParticipant TransactionSession.

(** What may happen to a session: a request of a client, the acts of the server, and, on a
    secondary, the replication of what another primary did. *)
Inductive Call :=
  | ClientRequest (r : Request)
  | Kill
  | DirectWrite
  | StepDown
  | StepUp
  | Replicate (ol : list OplogEvent) (st : option Stored)
  | Rollback (ol : list OplogEvent) (st : option Stored)
  | ApplyPartial (n : Z) (t : OpTime.t) (ops : list ReplOperation) (first : bool)
  | ApplyPrepare (n : Z) (t : OpTime.t) (ops : list ReplOperation)
  | ApplyCommit (n : Z) (commitTimestamp : Timestamp.t) (t : OpTime.t)
  | ApplyAbort (n : Z) (t : OpTime.t).

(** Where requests are served no transaction is on record as in progress. *)
Lemma Idle_settled {R : Reuse} w : Idle w → (primary w = false → notInProgress (stored w)) → notInProgress (stored w).
Proof. intros Hi Hip. destruct (primary w) eqn:Hp; [by apply (c_settled w (i_core w Hi))|by apply Hip]. Qed.

Section Histories.
Context {R : Reuse} (env : Env).

Definition runCall (c : Call) : M unit :=
  match c with
  | ClientRequest r => invokeWithSessionCheckedOut env r ;; mret tt
  | Kill => killSession env
  | DirectWrite => observeDirectWrite
  | StepDown => stepDown env
  | StepUp => stepUp env
  | Replicate ol st => modify (λ w, set_oplog ol (set_stored st w))
  | Rollback ol st => abortPreparedForRollback env ;; modify (λ w, set_oplog ol (set_stored st w))
  | ApplyPartial n t ops first => modify (loggedPartial n t ops first)
  | ApplyPrepare n t ops =>
      applyPrepareTransaction env n t ;; modify (logged (EvPrepare n t ops) n t dPrepared)
  | ApplyCommit n ct t =>
      modify (logged (EvCommitPrepared n t ct) n t dCommitted) ;; applyCommitTransaction env n ct t
  | ApplyAbort n t =>
      modify (logged (EvAbort n t) n t dAborted) ;; applyAbortTransaction env n
  end.

(** What a call leaves, whether or not it failed. *)
Definition after {A} (r : Result A) : option World :=
  match r with Ret _ w | Throw _ w => Some w | Die => None end.

(** The oplogs and records that may be replicated. *)
Context (H : list OplogEvent → option Stored → Prop).

(** Requests are those the parser accepts, with commit timestamps that the cluster time has
    passed, and the entry point refuses them on a secondary; entries are applied on a secondary
    in the order a primary wrote them; where no number is used again, a node steps up only with
    whole transactions. *)
Definition allowedFrom (w : World) (c : Call) : Prop :=
  match c with
  | ClientRequest r =>
      RequestOk r ∧ timestampOk env (rq_command r) (now w) ∧ (primary w = false → notInProgress (stored w))
  | Kill | DirectWrite | StepDown => True
  | StepUp => primary w = false ∧ (reuse ∨ notInProgress (stored w))
  | Replicate ol st => primary w = false ∧ txnState (obs w) ≠ kPrepared ∧ H ol st ∧ notPrepared st
  | Rollback ol st => primary w = false ∧ H ol st ∧ notPrepared st
  | ApplyPartial n t _ _ =>
      primary w = false ∧ isOpen (txnState (obs w)) = false ∧ 0 <= n ∧ OpTime.isNull t = false ∧
      ownRecord n (stored w)
  | ApplyPrepare n t _ =>
      primary w = false ∧ isOpen (txnState (obs w)) = false ∧ activeTxnNumber (obs w) ≠ n ∧
      0 <= n ∧ OpTime.isNull t = false ∧ ownRecord n (stored w)
  | ApplyCommit n ct t =>
      primary w = false ∧ txnState (obs w) = kPrepared ∧ activeTxnNumber (obs w) = n ∧
      OpTime.isNull t = false ∧ Timestamp.isNull ct = false ∧
      Timestamp.lt ct (OpTime.timestamp (prepareOpTime (obs w))) = false
  | ApplyAbort n t =>
      primary w = false ∧ txnState (obs w) = kPrepared ∧ activeTxnNumber (obs w) = n ∧
      OpTime.isNull t = false
  end.

Inductive stepFrom (w : World) : World → Prop :=
  | step_call c w' : allowedFrom w c → after (runCall c w) = Some w' → stepFrom w w'.

(** A session the node just learnt of. *)
Definition initialFrom (w : World) : Prop :=
  ∃ isPrimary ol st, w = set_oplog ol (freshWorld isPrimary st) ∧ H ol st ∧ notPrepared st ∧
    (isPrimary = true → notInProgress st).

Definition reachableFrom (w : World) : Prop := ∃ w0, initialFrom w0 ∧ rtc stepFrom w0 w.

Context `{!EnvOk env} (Hdurable : ∀ ol st, H ol st → DurableOk ol st).

Lemma initialFrom_Idle w : initialFrom w → Idle w.
Proof using All.
  intros (p & ol & st & -> & Hd%Hdurable & Hn & Hip).
  split; try done. split; try done.
  - split; simpl.
    + by split; [|intros []].
    + intros k. split; [done|]. intros [? _]. lia.
    + set_solver.
  - intros s Hs Hx. by destruct (Hn s).
Qed.

(** Every call keeps the invariant, and none kills the server. *)
Lemma call_wp c w :
  Idle w → allowedFrom w c → wp (runCall c) (λ _ w', Idle w') (λ _ w', Idle w') w.
Proof using All.
  intros Hi Hal. destruct c; simpl in *.
  - destruct Hal as (Hok & Hts & Hip). wp_step.
    eapply wp_mono; [apply (invoke_wp env); try done; by apply Idle_settled|done|done].
  - eapply wp_mono; [by apply (killSession_wp env (λ _ _, False))|by intros _ w' [? _]|done].
  - unfold observeDirectWrite. wp_steps. apply wp_uassert; intros Hp; [|done].
    eapply wp_mono; [apply (killSessionToken_wp (λ _ _, False)); [done|]|by intros _ w' [? _]|done].
    intros Hs. by rewrite Hs in Hp.
  - by apply stepDown_wp.
  - destruct Hal. by apply stepUp_wp.
  - destruct Hal as (? & ? & ? & ?). wp_steps. apply Idle_replaced; auto.
  - destruct Hal as (? & ? & ?).
    eapply wp_mono; [apply (rollback_wp env (λ _ _, False)); auto|by intros _ w' [? _]|done].
  - destruct Hal as (? & ? & ? & ? & ?). wp_steps. by apply loggedPartial_Idle.
  - destruct Hal as (? & ? & ? & ? & ? & ?).
    eapply wp_mono; [by apply (applyPrepare_wp env)|by intros _ w' [? _]|done].
  - destruct Hal as (? & ? & ? & ? & ? & ?).
    eapply wp_mono; [by apply (applyCommit_wp env)|by intros _ w' [? _]|done].
  - destruct Hal as (? & ? & ? & ?).
    eapply wp_mono; [by apply (applyAbort_wp env)|by intros _ w' [? _]|done].
Qed.

Lemma reachableFrom_Idle w : reachableFrom w → Idle w.
Proof using All.
  intros (w0 & Hi%initialFrom_Idle & Hr). revert Hi. induction Hr as [|w1 w2 w3 [c w2' Hal Hrun] _ IH]; [done|].
  intros Hi. apply IH. pose proof (call_wp c w1 Hi Hal) as Hw. unfold wp in Hw.
  destruct (runCall c w1); naive_solver.
Qed.
(** ** Prepared transactions *)

(** A call that may end a prepared transaction. *)
Definition decides (w : World) (c : Call) : Prop :=
  match c with
  | ClientRequest r =>
      rq_txnNumber r = activeTxnNumber (obs w) ∧
      (commandName (rq_command r) = CmdCommit ∨ commandName (rq_command r) = CmdAbort)
  | Rollback _ _ | ApplyCommit _ _ _ | ApplyAbort _ _ => True
  | _ => False
  end.

Lemma preparedCall_wp c w :
  Idle w → txnState (obs w) = kPrepared → allowedFrom w c → ¬ decides w c →
  wp (runCall c) (λ _ w', Keeps w w') (λ _ w', Keeps w w') w.
Proof using EnvOk0.
  intros Hi Hs Hal Hd. destruct c; simpl in *; try done.
  - destruct Hal as (? & ? & _). wp_step. eapply wp_mono; [apply (invokePrepared_wp env); try done; tauto|done|done].
  - by apply killPrepared_wp.
  - eapply wp_mono; [by apply directWritePrepared_wp|done|]. by intros _ w' ->.
  - by apply stepDownPrepared_wp.
  - destruct Hal. by apply stepUpPrepared_wp.
  - by destruct Hal as (_ & ? & _).
  - destruct Hal as (_ & Ho & _). by rewrite Hs in Ho.
  - destruct Hal as (_ & Ho & _). by rewrite Hs in Ho.
Qed.

End Histories.

(** ** Histories *)

(** In these a shard may use the number of an aborted transaction again. *)
Definition numbersReused : Reuse := True.
#[local] Existing Instance numbersReused.

(** The oplogs and records of a session after so many changes of the node that wrote them: at
    first there is none, and then those a node reaches from what others wrote. *)
Fixpoint history (k : nat) (ol : list OplogEvent) (st : option Stored) : Prop :=
  match k with
  | O => ol = [] ∧ st = None
  | S k =>
      history k ol st ∨
      ∃ env w, EnvOk env ∧ reachableFrom env (history k) w ∧ oplog w = ol ∧ stored w = st
  end.

Definition replicated (ol : list OplogEvent) (st : option Stored) : Prop := ∃ k, history k ol st.

Lemma DurableOk_nothing {R : Reuse} : DurableOk [] None.
Proof.
  split; try done; intros n; simpl.
  - apply NoDup_nil_2.
  - intros e Hx. by apply not_elem_of_nil in Hx.
  - by intros [|? ?] e behind.
  - intros m. simpl. lia.
Qed.

Lemma history_durable k ol st : history k ol st → DurableOk ol st.
Proof.
  revert ol st. induction k as [|k IH]; intros ol st; simpl; [by intros [-> ->]; apply DurableOk_nothing|].
  intros [?|(env & w & He & Hr & <- & <-)]; [by apply IH|].
  by apply (c_durable w), (i_core w), (reachableFrom_Idle env (history k)).
Qed.

Lemma replicated_durable ol st : replicated ol st → DurableOk ol st.
Proof. intros [k Hk]. by apply (history_durable k). Qed.

(** The calls on a session and the sessions they reach. *)
Definition allowed (env : Env) : World → Call → Prop := allowedFrom env replicated.
Definition reachable (env : Env) : World → Prop := reachableFrom env replicated.

Lemma reachable_Idle env w : EnvOk env → reachable env w → Idle w.
Proof. intros He. exact (reachableFrom_Idle env replicated replicated_durable w). Qed.

Lemma allowed_wp env c w :
  EnvOk env → Idle w → allowed env w c → wp (runCall env c) (λ _ w', Idle w') (λ _ w', Idle w') w.
Proof. intros He. exact (call_wp env replicated replicated_durable c w). Qed.

Section Calls.
Context (env : Env) `{!EnvOk env}.

(** A call that leaves the decision open. *)
Inductive undecided (w : World) : World → Prop :=
  | undecided_call c w' : allowed env w c → ¬ decides w c → after (runCall env c w) = Some w' → undecided w w'.

(** ** Retryable writes *)

Lemma invokeStatements_wp r w :
  Idle w → RequestOk r → notInProgress (stored w) → statementIds (rq_command r) ≠ [] →
  wp (invokeWithSessionCheckedOut env r)
    (λ rep w', rep = Replied true → Idle w' ∧ isInRetryableWriteMode (txnState (obs w')) = true ∧
       activeTxnNumber (obs w') = rq_txnNumber r ∧ isValid (prv w') = true ∧ primary w' = true ∧
       known (statementIds (rq_command r)) w')
    (λ _ _, True) w.
Proof.
  intros Hi Hok Hip Hne. unfold invokeWithSessionCheckedOut, wp.
  pose proof (refresh_wp env (set_opCtx (requestCtx r) w) (Idle_ctx w _ Hi) eq_refl Hip) as H1.
  unfold wp in H1. destruct (refreshFromStorageIfNeeded env _) as [x w1|e w1|]; simpl; [|by intros [=]|done].
  destruct H1 as (Hi1 & Hv1 & Hc1 & _ & _).
  assert (Hf : FreshCtx (rq_txnNumber r) true (opCtx w1)) by (by rewrite Hc1).
  assert (Hpa : parsed (rq_txnNumber r) (rq_autocommit r) (rq_startTransaction r)
                  (oc_inMultiDocumentTransaction (opCtx w1))) by (rewrite Hc1; apply (ro_parsed _ Hok)).
  assert (Hac : rq_autocommit r = None).
  { pose proof (ro_command _ Hok) as Hcmd. by destruct (rq_command r); try done; destruct Hcmd. }
  pose proof (beginOrContinue_wp env w1 _ _ _ Hi1 Hf Hv1 Hpa) as H2. unfold wp in H2.
  destruct (beginOrContinue env _ _ _ w1) as [y w2|e w2|]; [|by destruct e; intros [=]|done].
  destruct H2 as (Hb & Hm & _). rewrite Hac in Hm.
  pose proof (runStatements_wp env r w2 Hok Hb Hm Hne) as H3. unfold wp in H3.
  by destruct (runUnstashed env r w2) as [b w3|e w3|]; [|by intros [=]|].
Qed.

(** ** Requests in order *)

Fixpoint runRequests (rs : list Request) (w : World) : option (list Reply * World) :=
  match rs with
  | [] => Some ([], w)
  | r :: rs =>
      match invokeWithSessionCheckedOut env r w with
      | Ret reply w =>
          match runRequests rs w with Some (replies, w) => Some (reply :: replies, w) | None => None end
      | _ => None
      end
  end.

(** The writes of a transaction and its commit. *)
Definition writeRequest (n : Z) (start : bool) (ops : list ReplOperation) (ok : bool) : Request :=
  mkRequest n (Some false) (if start then Some true else None) false (Writes ops ok).

Definition commitRequest (n : Z) : Request := mkRequest n (Some false) None false (Commit None).

(** The operations of the writes that were acknowledged. *)
Fixpoint acknowledged (writes : list (list ReplOperation * bool)) (replies : list Reply)
    : list ReplOperation :=
  match writes, replies with
  | (ops, _) :: writes, Replied true :: replies => ops ++ acknowledged writes replies
  | _ :: writes, _ :: replies => acknowledged writes replies
  | _, _ => []
  end.

(** What a transaction has become while its writes arrive. *)
Definition ongoing (n : Z) (ops : list ReplOperation) (w : World) : Prop :=
  InTransaction n ops w ∨ AbortedTransaction n w.

Lemma writeRequest_ok n start ops ok : 0 <= n → RequestOk (writeRequest n start ops ok).
Proof. intros Hn. split; [|done]. by destruct start. Qed.

Lemma InTransaction_same n ops w k c :
  InTransaction n ops w → InTransaction n ops (set_now k (set_opCtx c w)).
Proof. intros []. split; try done. by apply Idle_set. Qed.

Lemma writeRequest_wp n ops0 ops ok w :
  0 <= n → ongoing n ops0 w →
  wp (invokeWithSessionCheckedOut env (writeRequest n false ops ok))
    (λ rep w', ongoing n (ops0 ++ acknowledged [(ops, ok)] [rep]) w' ∧ oplog w' = oplog w)
    (λ _ _, False) w.
Proof.
  intros Hn Hon.
  assert (Hi : Idle w) by (destruct Hon as [[]|[]]; done).
  assert (Hm : isInRetryableWriteMode (txnState (obs w)) = false).
  { destruct Hon as [[_ -> _ _]|[_ -> _ _]]; done. }
  assert (Hv : isValid (prv w) = true).
  { destruct Hon as [[? Hs _ _]|[]]; [|done]. apply Core_open_valid; [by apply i_core|by rewrite Hs]. }
  apply invokeOpen_wp; auto using writeRequest_ok.
  - intros w' rep Hrep [[r Hob] Hp Hst Hol] Hi' _. split; [|done].
    assert (acknowledged [(ops, ok)] [rep] = []) as -> by (destruct rep as [[]| |]; try done; by destruct (Hrep true)).
    rewrite app_nil_r. destruct Hon as [[_ Hs Ha Ho]|[_ Hs Ha _]].
    + left. split; rewrite ?Hob, ?Hp; done.
    + right. split; rewrite ?Hob, ?Hp; done.
  - intros k w' Hk Hb _. destruct Hon as [[_ Hs Ha Ho]|[_ Hs Ha _]].
    + eapply wp_mono; [by apply (runWrites_wp env (writeRequest n false ops ok) w' ops ok)| |].
      * intros [] w2 [Hx Hol]; split; try done; simpl; [left|right; done]. rewrite app_nil_r.
        by rewrite <- Ho.
      * intros e w2 [Hx Hol]. split; [by right|done].
    + eapply wp_mono; [apply (runAborted_wp env (writeRequest n false ops ok) w'); [done|done|]| |].
      * by apply (Idle_set w).
      * done.
      * intros e w2 [Hx Hol]. split; [by right|done].
Qed.

Lemma writeRequests_run n writes ops0 w replies w' :
  0 <= n → ongoing n ops0 w →
  runRequests ((λ p, writeRequest n false p.1 p.2) <$> writes) w = Some (replies, w') →
  ongoing n (ops0 ++ acknowledged writes replies) w' ∧ oplog w' = oplog w.
Proof.
  intros Hn. revert ops0 w replies. induction writes as [|[ops ok] writes IH]; intros ops0 w replies Hon; simpl.
  - intros [= <- <-]. by rewrite app_nil_r.
  - pose proof (writeRequest_wp n ops0 ops ok w Hn Hon) as H1. unfold wp in H1.
    destruct (invokeWithSessionCheckedOut env (writeRequest n false ops ok) w) as [rep w1| |]; [|done..].
    destruct (runRequests _ w1) as [[reps w2]|] eqn:Hr; [|done]. intros [= <- <-].
    destruct H1 as [H1 Hol1]. destruct (IH _ _ _ H1 Hr) as [H2 Hol2]. rewrite Hol2, Hol1. split; [|done].
    replace (ops0 ++ _) with ((ops0 ++ acknowledged [(ops, ok)] [rep]) ++ acknowledged writes reps); [done|].
    rewrite <- app_assoc. f_equal. destruct rep as [[]| |]; simpl; by rewrite ?app_nil_r.
Qed.

Lemma startRequest_wp n ops ok w :
  0 <= n → Idle w → notInProgress (stored w) →
  wp (invokeWithSessionCheckedOut env (writeRequest n true ops ok))
    (λ rep w', rep = Replied true → InTransaction n ops w' ∧ oplog w' = oplog w) (λ _ _, False) w.
Proof.
  intros Hn Hi Hip. unfold invokeWithSessionCheckedOut, wp. set (r := writeRequest n true ops ok).
  pose proof (refresh_wp env (set_opCtx (requestCtx r) w) (Idle_ctx w _ Hi) eq_refl Hip) as H1.
  unfold wp in H1. destruct (refreshFromStorageIfNeeded env _) as [x w1|e w1|]; simpl; [|by intros [=]|done].
  destruct H1 as (Hi1 & Hv1 & Hc1 & Hp1 & Hol1 & _).
  assert (Hf : FreshCtx n true (opCtx w1)) by (by rewrite Hc1).
  assert (Hpa : parsed n (Some false) (Some true) (oc_inMultiDocumentTransaction (opCtx w1))) by (by rewrite Hc1).
  pose proof (beginOrContinue_wp env w1 _ _ _ Hi1 Hf Hv1 Hpa) as H2. unfold wp in H2.
  change (beginOrContinue env (rq_txnNumber r) (rq_autocommit r) (rq_startTransaction r) w1)
    with (beginOrContinue env n (Some false) (Some true) w1).
  destruct (beginOrContinue env n _ _ w1) as [y w2|e w2|]; [|by destruct e; intros [=]|done].
  destruct H2 as (Hb & _ & Hol2 & Hx). destruct (Hx eq_refl) as [Hs2 Hops2].
  pose proof (runWrites_wp env r w2 ops ok Hb Hs2 eq_refl) as H3. unfold wp in H3.
  destruct (runUnstashed env r w2) as [b w3|e w3|]; [|by intros [=]|done].
  destruct H3 as [H3 Hol3]. intros [= ->]. rewrite Hops2 in H3. split; [done|]. by rewrite Hol3, Hol2, Hol1.
Qed.

Lemma commitRequest_wp n ops w :
  0 <= n → ongoing n ops w →
  wp (invokeWithSessionCheckedOut env (commitRequest n))
    (λ rep w', (rep ≠ Replied true ∧ oplog w' = oplog w) ∨
       ∃ evs tail, oplog w' = oplog w ++ evs ++ tail ∧ commitEntries n ops evs ∧ (tail = [] ∨ tail = [EvNoop]))
    (λ _ _, False) w.
Proof.
  intros Hn Hon. assert (Hi : Idle w) by (destruct Hon as [[]|[]]; done).
  assert (Hm : isInRetryableWriteMode (txnState (obs w)) = false).
  { destruct Hon as [[_ -> _ _]|[_ -> _ _]]; done. }
  assert (Hv : isValid (prv w) = true).
  { destruct Hon as [[? Hs _ _]|[]]; [|done]. apply Core_open_valid; [by apply i_core|by rewrite Hs]. }
  apply invokeOpen_wp; auto.
  - by split.
  - intros w' rep Hrep [_ _ _ Hol] _ _. left. split; [by apply Hrep|done].
  - intros k w' _ Hb _. destruct Hon as [[_ Hs Ha Ho]|[_ Hs Ha _]].
    + assert (Hcase : ∀ w2, committedTransaction n w' w2 →
        ∃ evs tail, oplog w2 = oplog w ++ evs ++ tail ∧ commitEntries n ops evs ∧ (tail = [] ∨ tail = [EvNoop])).
      { intros w2 (_ & evs & tail & Hol & Hev & Htail). simpl in Hol, Hev. rewrite Ho in Hev. by exists evs, tail. }
      eapply wp_mono; [by apply (runCommit_wp env (commitRequest n) w')| |].
      * intros ok w2 [-> Hx]. right. by apply Hcase.
      * intros e w2 [Hol|Hx]; [by left|right; by apply Hcase].
    + eapply wp_mono; [apply (runAborted_wp env (commitRequest n) w'); [done|done|]|done|].
      * by apply (Idle_set w).
      * intros e w2 [_ Hol]. by left.
Qed.

End Calls.

(** ** Concrete histories *)

(** Requests that say nothing of a commit timestamp. *)
Definition clientOk (r : Request) : Prop :=
  RequestOk r ∧ ∀ ct, rq_command r ≠ Commit (Some ct).

Lemma reachable_call env c w w' :
  reachable env w → allowed env w c → after (runCall env c w) = Some w' → reachable env w'.
Proof.
  intros (w0 & Hi & Hr) Hal Hc. exists w0. split; [done|].
  eapply rtc_r; [done|]. by econstructor.
Qed.

(** The session is on a primary at every request. *)
Fixpoint onPrimary (env : Env) (rs : list Request) (w : World) : bool :=
  match rs with
  | [] => true
  | r :: rs =>
      primary w && match invokeWithSessionCheckedOut env r w with Ret _ w => onPrimary env rs w | _ => true end
  end.

Lemma reachable_requests env rs w replies w' :
  reachable env w → Forall clientOk rs → onPrimary env rs w = true → runRequests env rs w = Some (replies, w') →
  reachable env w'.
Proof.
  intros Hw Hrs. revert w replies Hw. induction Hrs as [|r rs [Hok Hc] _ IH]; intros w replies Hw; simpl.
  - by intros _ [= _ <-].
  - intros [Hp Hon]%andb_true_iff.
    destruct (invokeWithSessionCheckedOut env r w) as [rep w1| |] eqn:Hr; [|done..].
    destruct (runRequests env rs w1) as [[reps w2]|] eqn:Hrest; [|done]. intros [= _ <-].
    eapply IH; [|done..]. apply (reachable_call env (ClientRequest r) w); [done| |].
    + split; [done|]. split; [|congruence]. intros ct Hct. by destruct (Hc ct).
    + unfold runCall, mbind, M_bind. by rewrite Hr.
Qed.

Lemma fresh_Idle {R : Reuse} env `{!EnvOk env} p : Idle (freshWorld p None).
Proof.
  apply (initialFrom_Idle env (λ ol st, ol = [] ∧ st = None)); [intros ol st [-> ->]; apply DurableOk_nothing|].
  by exists p, [], None.
Qed.

Lemma requests_Idle {R : Reuse} env `{!EnvOk env} rs w replies w' :
  Idle w → Forall clientOk rs → onPrimary env rs w = true → runRequests env rs w = Some (replies, w') → Idle w'.
Proof.
  intros Hi Hrs. revert w replies Hi. induction Hrs as [|r rs [Hok Hc] _ IH]; intros w replies Hi; simpl.
  - by intros _ [= _ <-].
  - intros [Hp Hon]%andb_true_iff. pose proof (invoke_wp env r w Hok Hi (c_settled w (i_core w Hi) Hp)
      ltac:(intros ct Hct; by destruct (Hc ct))) as Hw. unfold wp in Hw.
    destruct (invokeWithSessionCheckedOut env r w) as [rep w1| |]; [|done..].
    destruct (runRequests env rs w1) as [[reps w2]|] eqn:Hrest; [|done]. intros [= _ <-]. by eapply IH.
Qed.

(** A server whose lock requests time out at one point, and whose slots have increasing
    timestamps; two operations fit in an entry. *)
Definition exampleEnv : Env :=
  mkEnv (λ un rep k, if negb un && rep && (k =? 100)%nat then Some (OtherCode 24) else None)
    (λ k, OpTime.mk (Timestamp.mk (Z.of_nat k + 1) 1) 1) (λ _, OpTime.mk (Timestamp.mk 1000 1) 1)
    (λ k, Z.of_nat k) RoleNone true false 1000000 2 60 5.

#[global] Instance exampleEnv_ok : EnvOk exampleEnv.
Proof.
  split; try done.
  - by intros [].
  - intros k. unfold OpTime.isNull, Timestamp.isNull. simpl. apply Z.eqb_neq. lia.
Qed.

(** A primary that answered the given requests. *)
Definition served (rs : list Request) : World :=
  match runRequests exampleEnv rs (freshWorld true None) with
  | Some (_, w) => w
  | None => freshWorld true None
  end.

Lemma fresh_reachable env p : reachable env (freshWorld p None).
Proof.
  exists (freshWorld p None). split; [|done]. exists p, [], None. split_and!; [done| |done..]. by exists 0%nat.
Qed.

Lemma served_reachable rs :
  Forall clientOk rs → onPrimary exampleEnv rs (freshWorld true None) = true → reachable exampleEnv (served rs).
Proof.
  intros Hrs Hp. unfold served.
  destruct (runRequests exampleEnv rs _) as [[reps w]|] eqn:Hr; [|apply fresh_reachable].
  by eapply reachable_requests; [apply (fresh_reachable _ true)|..].
Qed.

Lemma served_Idle {R : Reuse} rs :
  Forall clientOk rs → onPrimary exampleEnv rs (freshWorld true None) = true → Idle (served rs).
Proof.
  intros Hrs Hp. unfold served.
  destruct (runRequests exampleEnv rs _) as [[reps w]|] eqn:Hr; [|apply (fresh_Idle exampleEnv)].
  eapply (requests_Idle exampleEnv); [apply (fresh_Idle exampleEnv)|done..].
Qed.

Definition statements (n : Z) (c : Command) : Request := mkRequest n None None false c.

Lemma writeRequest_client n start ops ok : 0 <= n → clientOk (writeRequest n start ops ok).
Proof. intros Hn. split; [by apply writeRequest_ok|done]. Qed.

Lemma prepareRequest_client n : 0 <= n → clientOk (mkRequest n (Some false) None false Prepare).
Proof. intros Hn. split; [by split|done]. Qed.

Lemma insert_client n ids :
  0 <= n → NoDup ids → Forall (λ k, 0 <= k) ids → clientOk (statements n (Insert ids)).
Proof. intros Hn Hnd Hpos. split; [|done]. split; simpl; [split_and!; try done; by intros []|done]. Qed.

Lemma update_client n stmts : 0 <= n → Forall (λ k, 0 <= k) stmts.*1 → RequestOk (statements n (Update stmts)).
Proof. intros Hn Hpos. split; simpl; [split_and!; try done; by intros []|done]. Qed.

Definition exampleOp (k : Z) : ReplOperation := mkOp k 100 0 120.

(** A transaction that was begun and prepared. *)
Definition examplePrepared : list Request :=
  [writeRequest 5 true [exampleOp 1] true; mkRequest 5 (Some false) None false Prepare].

Lemma examplePrepared_client : Forall clientOk examplePrepared.
Proof.
  repeat apply Forall_cons_2; [by apply writeRequest_client|by apply prepareRequest_client|by apply Forall_nil_2].
Qed.

(** One that was committed without that. *)
Definition exampleCommitted : list Request := [writeRequest 5 true [exampleOp 1] true; commitRequest 5].

Lemma commitRequest_client n : 0 <= n → clientOk (commitRequest n).
Proof. intros Hn. split; [by split|done]. Qed.

Lemma exampleCommitted_client : Forall clientOk exampleCommitted.
Proof.
  repeat apply Forall_cons_2; [by apply writeRequest_client|by apply commitRequest_client|by apply Forall_nil_2].
Qed.

(** Two batches with a statement in common. *)
Definition exampleRetried : list Request :=
  [statements 7 (Insert [1; 2]); statements 7 (Insert [2; 3])].

Lemma exampleRetried_client : Forall clientOk exampleRetried.
Proof.
  repeat apply Forall_cons_2; [..|by apply Forall_nil_2];
    (apply insert_client; [done|by apply (bool_decide_unpack _)|by repeat constructor]).
Qed.

(** What the hypotheses on the statements' ids exclude: the parser only counts the ids, but a
    batch that repeats one, and a session that is refreshed after a write with the id of the
    sentinel, terminate the server; a write with the id of one that is not retryable leaves
    a session that cannot be refreshed. *)
Lemma repeated_ids_die :
  runCall exampleEnv (ClientRequest (statements 7 (Insert [1; 1]))) (freshWorld true None) = Die.
Proof. by vm_compute. Qed.

Lemma sentinel_id_dies :
  ∃ w, after (runCall exampleEnv DirectWrite (served [statements 7 (Update [(-2, true)])])) = Some w ∧
    runCall exampleEnv (ClientRequest (statements 7 (Update [(1, true)]))) w = Die.
Proof. eexists. split; [vm_compute; reflexivity|by vm_compute]. Qed.

Lemma unlinked_id_fails :
  ∃ w w', after (runCall exampleEnv DirectWrite (served [statements 7 (Update [(-1, true)])])) = Some w ∧
    invokeWithSessionCheckedOut exampleEnv (statements 7 (Update [(1, true)])) w = Ret (Failed FailedToParse) w'.
Proof. do 2 eexists. split; vm_compute; reflexivity. Qed.

(** A statement that changes nothing is acknowledged without an entry. *)
Lemma unchanged_not_logged :
  ∃ w, invokeWithSessionCheckedOut exampleEnv (statements 7 (Update [(1, false)])) (freshWorld true None)
         = Ret (Replied true) w ∧ oplog w = [] ∧ stored w = None.
Proof. eexists. split; vm_compute; done. Qed.

(** The servers of a sharded cluster. *)
Definition exampleShard : Env :=
  mkEnv (env_fault exampleEnv) (env_slot exampleEnv) (env_lastCommitted exampleEnv) (env_now exampleEnv)
    RoleShardServer true false 1000000 2 60 5.

#[global] Instance exampleShard_ok : EnvOk exampleShard.
Proof. destruct exampleEnv_ok. by split. Qed.

(** The calls, one after the other. *)
Definition runCalls (env : Env) (cs : list Call) (w : World) : option World :=
  foldl (λ o c, w ← o; after (runCall env c w)) (Some w) cs.

(** A transaction may end twice, though not once it has committed: a shard that becomes the
    primary aborts what it has only the first entries of, which is in the oplog, and then
    accepts a new transaction of the same number. *)
Definition exampleReused : list Call :=
  [ApplyPartial 5 (OpTime.mk (Timestamp.mk 900 1) 1) [exampleOp 1] true; StepUp;
   ClientRequest (writeRequest 5 true [exampleOp 1] true); ClientRequest (commitRequest 5)].

Definition reused (k : nat) : World :=
  default (freshWorld false None) (runCalls exampleShard (take k exampleReused) (freshWorld false None)).

Lemma reused_reachable : reachable exampleShard (reused 4).
Proof.
  assert (Hclient : ∀ k r, primary (reused k) = true → RequestOk r → (∀ ct, rq_command r ≠ Commit (Some ct)) →
    allowed exampleShard (reused k) (ClientRequest r)).
  { intros k r Hp Hok Hc. split; [done|]. split; [intros ct Hct; by destruct (Hc ct)|congruence]. }
  apply (reachable_call _ (ClientRequest (commitRequest 5)) (reused 3)); [|by apply Hclient; [vm_compute|..]|by vm_compute].
  apply (reachable_call _ (ClientRequest (writeRequest 5 true [exampleOp 1] true)) (reused 2));
    [|by apply Hclient; [vm_compute|apply writeRequest_ok|]|by vm_compute].
  apply (reachable_call _ StepUp (reused 1)); [|split; [by vm_compute|by left]|by vm_compute].
  apply (reachable_call _ (ApplyPartial 5 (OpTime.mk (Timestamp.mk 900 1) 1) [exampleOp 1] true) (freshWorld false None));
    [apply fresh_reachable|by split_and!|by vm_compute].
Qed.

Lemma aborted_number_reused :
  ∃ t1 t2, endings 5 (oplog (reused 4)) = [EvAbort 5 t1; EvCommit 5 t2 [exampleOp 1]].
Proof. do 2 eexists. vm_compute. reflexivity. Qed.

(** The number of pre-images is not reset with the transaction: after one that was given two and
    aborted, a transaction without operations reserves two slots: its prepare timestamp is the
    last of them, and its entry and its durable record have the first. *)
Definition examplePreImages : list Request :=
  [writeRequest 5 true [mkOp 1 100 50 120; mkOp 2 100 50 120] true; mkRequest 5 (Some false) None false Abort;
   writeRequest 6 true [] true; mkRequest 6 (Some false) None false Prepare].

Lemma prepare_entry_misplaced :
  ∃ t, oplog (served examplePreImages) = [EvPrepare 6 t []] ∧
    txnState (obs (served examplePreImages)) = kPrepared ∧
    t ≠ prepareOpTime (obs (served examplePreImages)).
Proof. eexists. split_and!; [vm_compute; reflexivity|by vm_compute|by vm_compute]. Qed.

(** ** Properties *)



(** A transaction is prepared exactly while one promise of its end is open; then its
    resources are stashed with the prepare timestamp, its locks but the state transition lock
    held, and the session's durable record is its own; a durable record in the prepared
    state belongs to a prepared transaction. *)
Theorem prepared_promise env w :
  EnvOk env → reachable env w →
  (txnState (obs w) = kPrepared ↔ ∃ k, (k < promises w)%nat ∧ k ∉ fulfilled w) ∧
  (∀ j k, (j < promises w)%nat → (k < promises w)%nat → j ∉ fulfilled w → k ∉ fulfilled w → j = k) ∧
  (txnState (obs w) = kPrepared →
     OpTime.isNull (prepareOpTime (obs w)) = false ∧
     (∃ r, txnResourceStash (obs w) = Some r ∧ tr_locked r = true ∧ tr_rstlLocked r = false ∧
        ru_prepareTimestamp (tr_recoveryUnit r) = OpTime.timestamp (prepareOpTime (obs w))) ∧
     ∃ s, stored w = Some s ∧ rec_txnNum (st_record s) = activeTxnNumber (obs w) ∧
       rec_state (st_record s) = Some dPrepared) ∧
  (∀ s, stored w = Some s → rec_state (st_record s) = Some dPrepared → txnState (obs w) = kPrepared).
Proof.
  intros He Hr. destruct (reachable_Idle env w He Hr) as [[[Hp Hc _] Hs Hst _ _ Hcl _ _ _ _] Hstash _ _ Hpre].
  split_and!; [| | |done].
  - rewrite Hp. split.
    + intros [k Hk]. exists k. by apply Hc.
    + intros [k Hk]. exists k. by apply Hc.
  - intros j k Hj Hk Hjf Hkf. apply (inj Some). transitivity (exitPreparePromise (obs w)); [symmetry|]; by apply Hc.
  - intros Hw. unfold StateOk in Hs. unfold StashOk in Hst. rewrite Hw in Hs, Hst, Hstash.
    destruct (Hstash eq_refl) as [r Hx]. rewrite Hx in Hst. split_and!; [apply Hs| |by apply Hpre].
    exists r. naive_solver.
Qed.

Lemma prepared_promise_witness :
  promises (served examplePrepared) = 1%nat ∧
  ∃ k, (k < promises (served examplePrepared))%nat ∧ k ∉ fulfilled (served examplePrepared).
Proof.
  split; [by vm_compute|].
  apply (prepared_promise exampleEnv); [apply exampleEnv_ok|apply served_reachable; [apply examplePrepared_client|by vm_compute]|].
  by vm_compute.
Defined.

(** C18: whatever happens to a session with a prepared transaction, short of the request that
    commits or aborts it, a decision replicated from the primary or a rollback, the
    transaction stays prepared: kills, direct writes, stepping down and up, and requests of
    other or the same number leave its state, operations, durable record and oplog. *)
Theorem prepared_survives env w w' :
  EnvOk env → reachable env w → txnState (obs w) = kPrepared → rtc (undecided env) w w' →
  Keeps w w' ∧ txnState (obs w') = kPrepared ∧ is_Some (txnResourceStash (obs w')) ∧
  exitPreparePromise (obs w') = exitPreparePromise (obs w).
Proof.
  intros He Hr Hs Hu. assert (Hk : Keeps w w' ∧ reachable env w').
  { revert Hr Hs. induction Hu as [w|w w1 w2 [c w1' Hal Hd Hc] _ IH]; intros Hr Hs; [by split|].
    pose proof (preparedCall_wp env replicated c w (reachable_Idle env w He Hr) Hs Hal Hd) as Hw. unfold wp in Hw.
    assert (Hk : Keeps w w1') by (destruct (runCall env c w); naive_solver).
    destruct IH as [Hk2 Hr2]; [by eapply reachable_call|by rewrite (Keeps_state _ _ Hk)|].
    split; [by etransitivity|done]. }
  destruct Hk as [Hk Hr']. assert (Hs' : txnState (obs w') = kPrepared) by (by rewrite (Keeps_state _ _ Hk)).
  split_and!; [done|done| |].
  - apply (reachable_Idle env w' He Hr'). by rewrite Hs'.
  - by destruct Hk as [[r ->] _ _ _].
Qed.

Lemma prepared_survives_witness :
  ∃ w', after (runCall exampleEnv StepDown (served examplePrepared)) = Some w' ∧
    primary w' = false ∧ txnState (obs w') = kPrepared.
Proof.
  assert (Hc : ∃ w', after (runCall exampleEnv StepDown (served examplePrepared)) = Some w' ∧
    primary w' = false) by (eexists; split; [vm_compute; reflexivity|done]).
  destruct Hc as (w' & Hc & Hp). exists w'. split_and!; [done..|].
  apply (prepared_survives exampleEnv (served examplePrepared));
    [apply exampleEnv_ok|apply served_reachable; [apply examplePrepared_client|by vm_compute]|by vm_compute|].
  apply rtc_once. apply (undecided_call exampleEnv _ StepDown); [done|by intros []|exact Hc].
Defined.







(** C19: an unprepared transaction takes effect as a whole or not at all: after it was begun
    and its writes were sent, each of them acknowledged or not, a commit either leaves the
    oplog as it was before the transaction and is not acknowledged, or appends, in one storage
    transaction, the entries of the transaction, which together have exactly the operations of
    the acknowledged writes in their order and of which only the last commits, and possibly a
    no-op. *)
Theorem transaction_atomic env n ops0 ok0 writes w w1 replies w2 rep w3 :
  EnvOk env → reachable env w → allowed env w (ClientRequest (writeRequest n true ops0 ok0)) →
  invokeWithSessionCheckedOut env (writeRequest n true ops0 ok0) w = Ret (Replied true) w1 →
  runRequests env ((λ p, writeRequest n false p.1 p.2) <$> writes) w1 = Some (replies, w2) →
  invokeWithSessionCheckedOut env (commitRequest n) w2 = Ret rep w3 →
  (rep ≠ Replied true ∧ oplog w3 = oplog w) ∨
  ∃ evs tail, oplog w3 = oplog w ++ evs ++ tail ∧
    commitEntries n (ops0 ++ acknowledged writes replies) evs ∧ (tail = [] ∨ tail = [EvNoop]).
Proof.
  intros He Hr ([(Hn & _) _] & _ & Hip) H1 H2 H3. pose proof (reachable_Idle env w He Hr) as Hi.
  pose proof (startRequest_wp env n ops0 ok0 w Hn Hi (Idle_settled w Hi Hip)) as Hw1. unfold wp in Hw1.
  rewrite H1 in Hw1. destruct (Hw1 eq_refl) as [Hi1 <-].
  destruct (writeRequests_run env n writes ops0 w1 replies w2 Hn (or_introl Hi1) H2) as [Ho2 <-].
  pose proof (commitRequest_wp env n _ w2 Hn Ho2) as Hw3. unfold wp in Hw3. by rewrite H3 in Hw3.
Qed.

Lemma transaction_atomic_witness :
  ∃ w1 replies w2 w3 evs tail,
    invokeWithSessionCheckedOut exampleEnv (writeRequest 9 true [exampleOp 1] true)
      (served exampleRetried) = Ret (Replied true) w1 ∧
    runRequests exampleEnv [writeRequest 9 false [exampleOp 2; exampleOp 3] true] w1 = Some (replies, w2) ∧
    invokeWithSessionCheckedOut exampleEnv (commitRequest 9) w2 = Ret (Replied true) w3 ∧
    oplog w3 = oplog (served exampleRetried) ++ evs ++ tail ∧
    commitEntries 9 ([exampleOp 1] ++ acknowledged [([exampleOp 2; exampleOp 3], true)] replies) evs.
Proof.
  edestruct (transaction_atomic exampleEnv 9 [exampleOp 1] true [([exampleOp 2; exampleOp 3], true)]
               (served exampleRetried)) as [[Hne _]|(evs & tail & Hol & Hev & _)];
    [apply exampleEnv_ok|apply served_reachable; [apply exampleRetried_client|by vm_compute]
    |split; [by apply writeRequest_ok|]; split; [by intros ct [=]|by vm_compute]
    |vm_compute; reflexivity|vm_compute; reflexivity|vm_compute; reflexivity| |].
  - by destruct Hne.
  - eexists _, _, _, _, evs, tail.
    split_and!; [vm_compute; reflexivity|vm_compute; reflexivity|vm_compute; reflexivity|exact Hol|exact Hev].
Defined.
