(* ===== verification/TransactionDecision.v ===== *)
(** The coordinator's commands on a session: what a commit and an abort leave of a prepared
    transaction, what a successful prepare says of it, and that a commit does nothing to a
    transaction that is not prepared. *)
From stdpp Require Import gmap.
From S2P Require Import Prelude OpTimes TransactionState TransactionParticipant TransactionSession TransactionInv TransactionPhases TransactionRun TransactionCommands TransactionLog TransactionWrites TransactionRequests TransactionSteps TransactionOpen.
Import TransactionParticipant TransactionSession.

Section Decision.
Context {R : Reuse} (env : Env) `{!EnvOk env}.

(** ** Decisions on a prepared transaction *)

(** A command that decides it, or fails and leaves it prepared. *)
Lemma runUnstashedDecision_wp r w (D : list OplogEvent → Prop) :
  let n := rq_txnNumber r in
  Begun n true w → txnState (obs w) = kPrepared →
  commandName (rq_command r) ≠ CmdOther →
  (∀ w1, Running n true w1 → Keeps w w1 → (now w <= now w1)%nat →
     wp (runCommand env (rq_command r)) (λ ok w2, ok = true ∧ Running n true w2 ∧ D (oplog w2))
       (λ _ w2, Running n true w2 ∧ Keeps w1 w2) w1) →
  wp (runUnstashed env r) (λ _ w', Keeps w w' ∨ D (oplog w')) (λ _ w', Keeps w w' ∨ D (oplog w')) w.
Proof.
  intros n Hb Hs Hcmd Hrun. unfold runUnstashed. wp_step. apply wp_guarded.
  eapply wp_mono; [apply wp_monotone, (unstash_wp env n true); [apply monotone_unstash|done|done]| |].
  2: { intros e w1 [[(k & c & -> & _) _] _]. wp_steps. rewrite Hs. wp_steps. left. apply Keeps_set. }
  intros x w1 [[(k & c & -> & Hr & _) _] Hnow].
  assert (Hk : Keeps w (unstashed k c w)) by apply Keeps_unstashed.
  specialize (Hrun _ Hr Hk Hnow). wp_step. apply wp_guarded. wp_step.
  eapply wp_mono; [exact Hrun| |].
  - intros ok w2 (-> & Hr2 & HD). wp_steps.
    eapply wp_mono; [by apply (stash_wp env n true w2 (λ _ _, False))| |done].
    intros _ w3 (_ & _ & _ & _ & _ & Hol & _). wp_steps. right. by rewrite Hol.
  - intros e w2 [Hr2 Hk2]. assert (Hk' : Keeps w w2) by (etransitivity; [exact Hk|exact Hk2]).
    unfold _abortUnpreparedOrStashPreparedTransaction. wp_steps.
    rewrite (Keeps_state _ _ Hk'), Hs. simpl.
    eapply wp_mono; [by apply (stash_wp env n true w2 (λ _ _, False))| |done].
    intros _ w3 (_ & _ & Hp & _ & Hst & Hol & Hob). left. etransitivity; [exact Hk'|]. by split.
Qed.

Lemma invokeDecision_wp r w (D : list OplogEvent → Prop) :
  let n := rq_txnNumber r in
  Idle w → txnState (obs w) = kPrepared → RequestOk r → commandName (rq_command r) ≠ CmdOther →
  (∀ w1, Running n true w1 → Keeps w w1 → (now w <= now w1)%nat →
     wp (runCommand env (rq_command r)) (λ ok w2, ok = true ∧ Running n true w2 ∧ D (oplog w2))
       (λ _ w2, Running n true w2 ∧ Keeps w1 w2) w1) →
  wp (invokeWithSessionCheckedOut env r) (λ _ w', Keeps w w' ∨ D (oplog w')) (λ _ _, False) w.
Proof.
  intros n Hi Hs Hok Hcmd Hrun.
  apply invokeOpen_wp; auto; [by rewrite Hs|apply Core_open_valid; [apply Hi|by rewrite Hs]|].
  intros k w' Hk Hb _. assert (Hkw : Keeps w w') by apply Keeps_set.
  assert (Hx : wp (runUnstashed env r) (λ _ w2, Keeps w' w2 ∨ D (oplog w2)) (λ _ w2, Keeps w' w2 ∨ D (oplog w2)) w').
  { apply runUnstashedDecision_wp; [done..|]. intros w1 Hr1 Hk1 Hn1.
    apply Hrun; [done|etransitivity; [exact Hkw|exact Hk1]|]. simpl in Hn1. lia. }
  eapply wp_mono; [exact Hx|..]; intros ? w2 [Hk2|HD]; auto; left; (etransitivity; [exact Hkw|exact Hk2]).
Qed.

(** A commit makes its entry, at a time that is not before the prepare's, or changes nothing. *)
Lemma invokeCommit_wp n ct ud w :
  let r := mkRequest n (Some false) None ud (Commit (Some ct)) in
  Idle w → txnState (obs w) = kPrepared → RequestOk r → timestampOk env (rq_command r) (now w) →
  wp (invokeWithSessionCheckedOut env r)
    (λ _ w', Keeps w w' ∨
       Timestamp.lt ct (OpTime.timestamp (prepareOpTime (obs w))) = false ∧
       ∃ t, oplog w' = oplog w ++ [EvCommitPrepared n t ct])
    (λ _ _, False) w.
Proof.
  intros r Hi Hs Hok Hts.
  apply (invokeDecision_wp r w (λ ol,
    Timestamp.lt ct (OpTime.timestamp (prepareOpTime (obs w))) = false ∧
    ∃ t, ol = oplog w ++ [EvCommitPrepared n t ct])); [done..|].
  intros w1 Hr1 Hk1 Hn1. pose proof (Keeps_state _ _ Hk1) as Hs1. rewrite Hs in Hs1.
  destruct Hk1 as [[x Hob] _ _ Hol]. simpl. wp_step. unfold commitTransaction. wp_steps. rewrite Hs1. wp_steps.
  eapply wp_mono; [apply (commitPrepared_wp env n w1 ct); [done|]| |done].
  - intros i Hi1. apply (Hts ct eq_refl). lia.
  - intros _ w2 (Hr2 & _ & Hlt & t & Hol2). wp_steps. split_and!; [done..| |].
    + by rewrite Hob in Hlt.
    + exists t. by rewrite Hol2, Hol.
Qed.

(** So does an abort. *)
Lemma invokeAbort_wp n ud w :
  let r := mkRequest n (Some false) None ud Abort in
  Idle w → txnState (obs w) = kPrepared → RequestOk r →
  wp (invokeWithSessionCheckedOut env r)
    (λ _ w', Keeps w w' ∨ ∃ t, oplog w' = oplog w ++ [EvAbort n t]) (λ _ _, False) w.
Proof.
  intros r Hi Hs Hok. apply (invokeDecision_wp r w (λ ol, ∃ t, ol = oplog w ++ [EvAbort n t])); [done..|].
  intros w1 Hr1 Hk1 _. pose proof (Keeps_state _ _ Hk1) as Hs1. rewrite Hs in Hs1.
  destruct Hk1 as [_ _ _ Hol]. simpl. wp_step.
  eapply wp_mono; [by apply (abortTransactionCmd_wp env n w1)| |].
  - intros _ w2 [Hr2 Hx]. wp_steps. split_and!; [done..|]. rewrite <- Hol. by apply Hx.
  - intros e w2 [Hr2 Hx]. split; [done|by apply Hx].
Qed.

(** ** Preparing *)

Lemma runPrepare_wp r w :
  let n := rq_txnNumber r in
  Begun n true w → isInRetryableWriteMode (txnState (obs w)) = false → rq_command r = Prepare →
  wp (runUnstashed env r)
    (λ ok w', ok = true → txnState (obs w') = kPrepared ∧ activeTxnNumber (obs w') = n)
    (λ _ _, True) w.
Proof.
  intros n Hb Hm Hcmd. unfold runUnstashed. rewrite Hcmd. wp_step. apply wp_guarded.
  eapply wp_mono; [apply (unstash_wp env n true); done| |].
  2: { intros e w1 [Hf _].
       eapply wp_mono; [by apply (unstashGuard_wp env n w w1 (λ _ _, False))|done|done]. }
  intros x w1 [(k & c & -> & Hr & _) _]. wp_step. apply wp_guarded. wp_step. simpl. wp_step.
  eapply wp_mono; [by apply (prepareTransactionCmd_wp env n)| |].
  - intros _ w2 [Hr2 Hs2]. destruct (r_open _ _ _ Hr2) as [Ha2 _]; [by rewrite Hs2|]. wp_steps.
    eapply wp_mono; [apply (stash_wp env n true w2 (λ _ _, False)); done| |done].
    intros _ w3 (_ & _ & _ & _ & _ & _ & t & Hob). wp_steps. intros _. by rewrite Hob.
  - intros e w2 Hr2. eapply wp_mono; [by apply (abortOrStash_wp env n w2 (λ _ _, False))|done|done].
Qed.

(** A prepare that is acknowledged leaves the transaction prepared. *)
Lemma invokePrepare_wp n ud w :
  let r := mkRequest n (Some false) None ud Prepare in
  Idle w → RequestOk r → notInProgress (stored w) →
  wp (invokeWithSessionCheckedOut env r)
    (λ rep w', rep = Replied true → txnState (obs w') = kPrepared ∧ activeTxnNumber (obs w') = n)
    (λ _ _, False) w.
Proof.
  intros r Hi Hok Hip. unfold invokeWithSessionCheckedOut, wp.
  pose proof (refresh_wp env (set_opCtx (requestCtx r) w) (Idle_ctx w _ Hi) eq_refl Hip) as H1.
  unfold wp in H1. destruct (refreshFromStorageIfNeeded env _) as [x w1|e w1|]; simpl; [|by intros [=]|done].
  destruct H1 as (Hi1 & Hv1 & Hc1 & _).
  assert (Hf : FreshCtx n true (opCtx w1)) by (by rewrite Hc1).
  assert (Hpa : parsed n (Some false) None (oc_inMultiDocumentTransaction (opCtx w1))) by (rewrite Hc1; apply (ro_parsed _ Hok)).
  pose proof (beginOrContinue_wp env w1 _ _ _ Hi1 Hf Hv1 Hpa) as H2. unfold wp in H2.
  destruct (beginOrContinue env _ _ _ w1) as [y w2|e w2|]; simpl; [|by destruct e|done].
  destruct H2 as (Hb & Hm & _). pose proof (runPrepare_wp r w2 Hb Hm eq_refl) as H3. unfold wp in H3.
  destruct (runUnstashed env r w2) as [ok w3|e w3|]; [|by intros [=]|done]. by intros [= ->]; apply H3.
Qed.

(** ** A commit without a prepared transaction *)

Lemma runCommitUnprepared_wp r w ct :
  let n := rq_txnNumber r in
  Begun n true w → isInRetryableWriteMode (txnState (obs w)) = false → txnState (obs w) ≠ kPrepared →
  rq_command r = Commit (Some ct) →
  wp (runUnstashed env r) (λ _ w', oplog w' = oplog w) (λ _ w', oplog w' = oplog w) w.
Proof.
  intros n Hb Hm Hs Hcmd. unfold runUnstashed. rewrite Hcmd. wp_step. apply wp_guarded.
  eapply wp_mono; [apply (unstash_wp env n true); done| |].
  2: { intros e w1 [Hf _]. destruct (decide (txnState (obs w) = kInProgress)) as [Hip|Hip].
       - eapply wp_mono; [by apply (unstashGuard_wp env n w w1 (λ _ _, False))| |done].
         intros _ w2 [_ Hx]. by apply (ab_oplog _ _ (Hx Hip)).
       - destruct Hf as (k & c & -> & _). wp_steps. apply wp_when; [|done]. simpl.
         intros Hx. by destruct (txnState (obs w)). }
  intros x w1 [(k & c & -> & Hr & _) _].
  assert (Hguard : ∀ k' E, wp (_abortUnpreparedOrStashPreparedTransaction env)
    (λ _ w', oplog w' = oplog w) E (set_now k' (unstashed k c w))).
  { intros k' E. destruct (decide (txnState (obs w) = kInProgress)) as [Hip|Hip].
    - eapply wp_mono; [apply (abortOrStash_inProgress env n _ (λ _ _, False)); [by apply Running_now|done]| |done].
      intros x3 w3 Hx. apply (ab_oplog _ _ Hx).
    - unfold _abortUnpreparedOrStashPreparedTransaction. wp_steps.
      assert (Hip' : isPrepared (txnState (obs w)) = false) by (by destruct (txnState (obs w))).
      assert (Ho' : isOpen (txnState (obs w)) = false) by (by destruct (txnState (obs w))).
      simpl. rewrite Hip'. wp_steps. rewrite Ho'. by wp_steps. }
  wp_step. apply wp_guarded. wp_step. simpl. wp_step. unfold commitTransaction. wp_steps. simpl.
  destruct (isCommitted (txnState (obs w))) eqn:Hco.
  - apply (external_wp env); [|intros _ e; apply Hguard]. wp_steps.
    eapply wp_mono; [apply (stash_wp env n true _ (λ _ _, False)); [by apply Running_now|done]| |done].
    intros _ w3 (_ & _ & _ & _ & _ & Hol & _). wp_steps. done.
  - wp_step. apply wp_uassert; [intros Ho|intros _; apply (Hguard (now (unstashed k c w)))].
    unfold commitPreparedTransaction. wp_steps. simpl.
    apply wp_uassert; [|intros _; apply (Hguard (now (unstashed k c w)))].
    intros Hp. by destruct (txnState (obs w)).
Qed.

(** Continuing a transaction changes nothing but the clock. *)
Lemma beginContinue_wp w n :
  FreshCtx n true (opCtx w) → (isOpen (txnState (obs w)) = true → is_Some (txnResourceStash (obs w))) →
  oc_inMultiDocumentTransaction (opCtx w) = true →
  wp (beginOrContinue env n (Some false) None)
    (λ _ w', (∃ k, w' = set_now k w) ∧ primary w = true ∧ n = activeTxnNumber (obs w) ∧
       isInRetryableWriteMode (txnState (obs w)) = false)
    (λ _ w', ∃ k, w' = set_now k w) w.
Proof.
  intros Hf Hst Hmulti. unfold beginOrContinue. wp_step.
  apply (external_wp env); [|by intros; eexists].
  wp_steps. rewrite (f_replicated _ _ _ Hf). wp_steps.
  apply wp_uassert; [intros Hp|by intros; eexists]. apply wp_uassert; [intros _|by intros; eexists].
  wp_steps. apply wp_uassert; [intros Hlt|by intros; eexists]. wp_steps; [done|].
  unfold _continueMultiDocumentTransaction. wp_steps.
  apply wp_uassert; [intros [->%Z.eqb_eq Hm%negb_true_iff]%andb_true_iff|by intros; eexists]. wp_steps.
  apply wp_when; [intros [Hip Hb]%andb_true_iff|intros _].
  - exfalso. apply bool_decide_eq_true in Hb. apply Hb, Hst. by destruct (txnState (obs w)).
  - by split; [eexists|].
Qed.

Lemma invokeCommitUnprepared_wp n ct ud w :
  let r := mkRequest n (Some false) None ud (Commit (Some ct)) in
  Idle w → RequestOk r → notInProgress (stored w) → ¬ (txnState (obs w) = kPrepared ∧ activeTxnNumber (obs w) = n) →
  match invokeWithSessionCheckedOut env r w with
  | Ret _ w' | Throw _ w' => ∃ evs, oplog w' = oplog w ++ evs ∧ Forall (entryOf None None) evs
  | Die => True
  end.
Proof.
  intros r Hi Hok Hip Hnp. unfold invokeWithSessionCheckedOut. set (w0 := set_opCtx (requestCtx r) w).
  assert (Hsame : ∀ w', oplog w' = oplog w → ∃ evs, oplog w' = oplog w ++ evs ∧ Forall (entryOf None None) evs).
  { intros w' Hol. exists []. by rewrite app_nil_r. }
  pose proof (appends_refresh env (Some n) None w0 eq_refl) as H1'.
  pose proof (refresh_wp env w0 (Idle_ctx w _ Hi) eq_refl Hip) as H1. unfold wp in H1.
  destruct (refreshFromStorageIfNeeded env w0) as [x w1|e w1|]; [|destruct H1' as (_ & _ & evs & He & Hf)|done].
  2: { exists evs. split; [done|]. eapply Forall_impl; [exact Hf|]. by intros []; simpl; intros Hx; try done; destruct Hx. }
  destruct H1 as (Hi1 & Hv1 & Hc1 & _ & Hol1 & Hw1).
  assert (Hf : FreshCtx n true (opCtx w1)) by (by rewrite Hc1).
  pose proof (beginContinue_wp w1 n Hf (i_stash w1 Hi1) ltac:(by rewrite Hc1)) as H2. unfold wp in H2.
  change (rq_txnNumber r) with n. change (rq_autocommit r) with (Some false). change (rq_startTransaction r) with (@None bool).
  destruct (beginOrContinue env n (Some false) None w1) as [y w2|e w2|]; [| |done].
  - destruct H2 as ((k & ->) & Hp & Ha & Hm).
    assert (Hs : txnState (obs w1) ≠ kPrepared).
    { intros Hs. destruct Hw1 as [->|Ho]; [by apply Hnp|]. by rewrite Hs in Ho. }
    assert (Hb : Begun n true (set_now k w1)).
    { apply Idle_Begun; try done. apply (Idle_set w1 k (opCtx w1)) in Hi1. by destruct w1. }
    pose proof (runCommitUnprepared_wp r (set_now k w1) ct Hb Hm Hs eq_refl) as H3. unfold wp in H3.
    destruct (runUnstashed env r (set_now k w1)) as [z w3|e w3|]; [| |done];
      apply Hsame; (transitivity (oplog w1); [exact H3|exact Hol1]).
  - destruct H2 as [k ->]. by destruct e; apply Hsame.
Qed.
End Decision.
