(* ===== verification/TransactionCoordinator.v ===== *)
(** The coordinator of a transaction over several shards: src/mongo/db/s/transaction_coordinator.cpp
    with its helpers transaction_coordinator_util.cpp (the durable document, the votes, the
    requests to the shards) and transaction_coordinator_futures_util.{h,cpp} ([doWhile],
    [collect], shutting down a hierarchy of schedulers).

    The chain of futures that the constructor builds is a state machine: [waiting] says which
    future the chain waits for, and each event function is what runs, under the mutex or on the
    executor, when that future is set, up to the next wait.  [None] is a failed invariant or a
    fassert.  Metrics, fail points and logging are left out. *)
From S2P Require Import Prelude OpTimes TransactionState.

Module TransactionCoordinator.

Definition ShardId : Type := string.

(** ** Codes *)

Definition TransactionCoordinatorSteppingDown : ErrorCode := OtherCode 281.
Definition TransactionCoordinatorReachedAbortDecision : ErrorCode := OtherCode 282.
Definition TransactionCoordinatorDeadlineTaskCanceled : ErrorCode := OtherCode 287.
Definition TransactionCoordinatorCanceled : ErrorCode := OtherCode 311.
Definition ShardNotFound : ErrorCode := OtherCode 70.
Definition DuplicateKey : ErrorCode := OtherCode 11000.
Definition Interrupted : ErrorCode := OtherCode 11601.
Definition InterruptedDueToReplStateChange : ErrorCode := OtherCode 11602.

(** The category VoteAbortError. *)
Definition isVoteAbortError (e : ErrorCode) : bool :=
  bool_decide (e = OtherCode 148) || bool_decide (e = TransactionTooOld) ||
  bool_decide (e = NoSuchTransaction) || bool_decide (e = OperationNotSupportedInTransaction).

(** A [Status]: [None] is OK. *)
Definition Status : Type := option ErrorCode.

(** ** Votes and decisions *)

(** [PrepareVote], which is also [CommitDecision]. *)
Inductive PrepareVote := kCommit | kAbort.

#[global] Instance PrepareVote_eq_dec : EqDecision PrepareVote.
Proof. solve_decision. Defined.

Record CoordinatorCommitDecision := mkDecision {
  decision : PrepareVote;
  commitTimestamp : option Timestamp.t;
  abortStatus : option ErrorCode
}.

#[global] Instance CoordinatorCommitDecision_eq_dec : EqDecision CoordinatorCommitDecision.
Proof. solve_decision. Defined.

Record PrepareResponse := mkResponse {
  shardId : ShardId;
  vote : option PrepareVote;
  prepareTimestamp : option Timestamp.t;
  abortReason : option ErrorCode
}.

Record PrepareVoteConsensus := mkConsensus {
  numShards : Z;
  numCommitVotes : Z;
  numAbortVotes : Z;
  numNoVotes : Z;
  maxPrepareTimestamp : Timestamp.t;
  consensusAbortStatus : option ErrorCode
}.

Definition newConsensus (n : Z) : PrepareVoteConsensus := mkConsensus n 0 0 0 Timestamp.null None.

(** [std::max]: the first argument unless the second is larger. *)
Definition maxTimestamp (a b : Timestamp.t) : Timestamp.t := if Timestamp.lt a b then b else a.

Definition registerVote (r : PrepareResponse) (c : PrepareVoteConsensus)
    : option PrepareVoteConsensus :=
  match vote r with
  | Some kCommit =>
      t ← prepareTimestamp r;
      Some (mkConsensus (numShards c) (numCommitVotes c + 1) (numAbortVotes c) (numNoVotes c)
              (maxTimestamp (maxPrepareTimestamp c) t) (consensusAbortStatus c))
  | v =>
      let aborts := if bool_decide (v = Some kAbort) then numAbortVotes c + 1 else numAbortVotes c in
      let nones := if bool_decide (v = Some kAbort) then numNoVotes c else numNoVotes c + 1 in
      match consensusAbortStatus c with
      | Some e =>
          Some (mkConsensus (numShards c) (numCommitVotes c) aborts nones (maxPrepareTimestamp c) (Some e))
      | None =>
          e ← abortReason r;
          Some (mkConsensus (numShards c) (numCommitVotes c) aborts nones (maxPrepareTimestamp c) (Some e))
      end
  end.

Definition consensusDecision (c : PrepareVoteConsensus) : option CoordinatorCommitDecision :=
  invariant (numShards c =? numCommitVotes c + numAbortVotes c + numNoVotes c) ;;
  if numCommitVotes c =? numShards c then
    Some (mkDecision kCommit (Some (maxPrepareTimestamp c)) None)
  else
    e ← consensusAbortStatus c;
    Some (mkDecision kAbort None (Some e)).

(** ** The durable document *)

Record TransactionCoordinatorDocument := mkDoc {
  doc_participants : list ShardId;
  doc_decision : option CoordinatorCommitDecision
}.

(** [buildParticipantListMatchesConditions]: [$all] and [$size]. *)
Definition participantListMatches (ps : list ShardId) (doc : TransactionCoordinatorDocument) : bool :=
  forallb (λ s, bool_decide (s ∈ doc_participants doc)) ps &&
  bool_decide (length (doc_participants doc) = length ps).

(** The upserts and the deletion on the document of the transaction: the document afterwards,
    or an error.  An update replaces the whole document. *)
Definition persistParticipantListBlocking (ps : list ShardId) (doc : option TransactionCoordinatorDocument)
    : option TransactionCoordinatorDocument + ErrorCode :=
  match doc with
  | None => inl (Some (mkDoc ps None))
  | Some d => if participantListMatches ps d then inl (Some (mkDoc ps None)) else inr (OtherCode 51025)
  end.

Definition persistDecisionBlocking (ps : list ShardId) (dec : CoordinatorCommitDecision)
    (doc : option TransactionCoordinatorDocument) : option TransactionCoordinatorDocument + ErrorCode :=
  match doc with
  | None => inl (Some (mkDoc ps (Some dec)))
  | Some d =>
      if participantListMatches ps d &&
         (bool_decide (doc_decision d = None) || bool_decide (doc_decision d = Some dec))
      then inl (Some (mkDoc ps (Some dec)))
      else inr DuplicateKey
  end.

Definition deleteCoordinatorDocBlocking (doc : option TransactionCoordinatorDocument)
    : option TransactionCoordinatorDocument + ErrorCode :=
  match doc with
  | Some d => if bool_decide (is_Some (doc_decision d)) then inl None else inr (OtherCode 51027)
  | None => inr (OtherCode 51027)
  end.

(** ** Loops and schedulers *)

(** One turn of [doWhile]: the result of the body ends the loop, or the body runs again unless
    the scheduler was shut down, which ends the loop with the status of the shutdown. *)
Inductive Turn (A : Type) := Again | Ends (r : A + ErrorCode).
Arguments Again {A}.
Arguments Ends {A} _.

Definition doWhile {A} (scheduler : Status) (shouldRetry : ErrorCode → bool) (r : A + ErrorCode) : Turn A :=
  match r with
  | inl x => Ends (inl x)
  | inr e =>
      if shouldRetry e
      then match scheduler with Some status => Ends (inr status) | None => Again end
      else Ends (inr e)
  end.

Definition shouldRetryPersistingCoordinatorState (e : ErrorCode) : bool :=
  negb (bool_decide (e = TransactionCoordinatorSteppingDown)).

(** [AsyncWorkScheduler::shutdown]: only the first status is kept. *)
Definition shutdown (status : ErrorCode) (s : Status) : Status :=
  match s with Some e => Some e | None => Some status end.

(** ** Requests to the shards *)

(** What the code reads of a reply: the command's status, that of the write concern, and
    the timestamp. *)
Record RemoteReply := mkReply {
  reply_status : Status;
  reply_wcStatus : Status;
  reply_prepareTimestamp : option Timestamp.t
}.

Definition replyStatus (r : RemoteReply) : Status :=
  match reply_wcStatus r with Some e => Some e | None => reply_status r end.

(** The body of [sendPrepareToShard]'s loop once the request was answered or failed;
    [ShardNotFound] is a vote to abort, and must not come from the local shard. *)
Definition prepareShardNotFound (isLocalShard : bool) (s : ShardId)
    : option (PrepareResponse + ErrorCode) :=
  invariant (negb isLocalShard) ;; Some (inl (mkResponse s (Some kAbort) None (Some ShardNotFound))).

Definition prepareAttempt (isLocalShard : bool) (s : ShardId) (r : RemoteReply + ErrorCode)
    : option (PrepareResponse + ErrorCode) :=
  match r with
  | inr e =>
      if bool_decide (e = ShardNotFound) then prepareShardNotFound isLocalShard s else Some (inr e)
  | inl reply =>
      match replyStatus reply with
      | None =>
          match reply_prepareTimestamp reply with
          | Some t =>
              if Timestamp.isNull t
              then Some (inl (mkResponse s (Some kAbort) None (Some (OtherCode 50993))))
              else Some (inl (mkResponse s (Some kCommit) (Some t) None))
          | None => Some (inl (mkResponse s (Some kAbort) None (Some (OtherCode 50993))))
          end
      | Some e =>
          if isVoteAbortError e then Some (inl (mkResponse s (Some kAbort) None (Some e)))
          else if bool_decide (e = ShardNotFound) then prepareShardNotFound isLocalShard s
          else Some (inr e)
      end
  end.

Definition prepareShouldRetry (e : ErrorCode) : bool :=
  negb (bool_decide (e = TransactionCoordinatorSteppingDown)) &&
  negb (bool_decide (e = TransactionCoordinatorReachedAbortDecision)).

(** [sendPrepareToShard]: a loop that was told to stop gives no vote. *)
Definition prepareTurn (isLocalShard : bool) (prepareScheduler : Status) (s : ShardId)
    (r : RemoteReply + ErrorCode) : option (Turn PrepareResponse) :=
  a ← prepareAttempt isLocalShard s r;
  Some (match doWhile prepareScheduler prepareShouldRetry a with
        | Ends (inr e) =>
            if bool_decide (e = TransactionCoordinatorReachedAbortDecision)
            then Ends (inl (mkResponse s None None (Some NoSuchTransaction)))
            else Ends (inr e)
        | t => t
        end).

(** [sendDecisionToShard]: errors that mean an abort count as acknowledgments; it is fatal
    when the shard is not found. *)
Definition decisionAttempt (r : RemoteReply + ErrorCode) : option (unit + ErrorCode) :=
  let st := match r with
            | inr e => Some e
            | inl reply =>
                match replyStatus reply with
                | Some e => if isVoteAbortError e then None else Some e
                | None => None
                end
            end in
  match st with
  | None => Some (inl tt)
  | Some e => invariant (negb (bool_decide (e = ShardNotFound))) ;; Some (inr e)
  end.

Definition decisionShouldRetry (e : ErrorCode) : bool :=
  negb (bool_decide (e = TransactionCoordinatorSteppingDown)).

Definition decisionTurn (scheduler : Status) (r : RemoteReply + ErrorCode) : option (Turn unit) :=
  a ← decisionAttempt r;
  Some (doWhile scheduler decisionShouldRetry a).

(** ** The coordinator *)

Inductive Step :=
  | kInactive | kWritingParticipantList | kWaitingForVotes | kWritingDecision
  | kWaitingForDecisionAcks | kDeletingCoordinatorDoc.

(** The future the chain waits for.  [collect] keeps the responses that are out and the first
    error. *)
Inductive Waiting :=
  | ForKickOff
  | ForParticipantListWrite
  | ForParticipantListMajority (opTime : OpTime.t)
  | ForVotes (outstanding : list ShardId) (consensus : PrepareVoteConsensus) (status : Status)
  | ForDecisionWrite
  | ForDecisionMajority (opTime : OpTime.t)
  | ForDecisionAcks (outstanding : list ShardId) (status : Status)
  | ForDelete
  | ForNothing.

Record Coordinator := mkCoordinator {
  _step : Step;
  _kickOffCommitPromiseSet : bool;
  _participants : option (list ShardId);
  _participantsDurable : bool;
  _decision : option CoordinatorCommitDecision;
  _decisionDurable : bool;
  _decisionPromise : option (PrepareVote + ErrorCode);
  _completionPromise : option (PrepareVote + ErrorCode);
  _scheduler : Status;
  _sendPrepareScheduler : Status;
  prepareScheduler : Status;
  waiting : Waiting
}.

Definition newCoordinator : Coordinator :=
  mkCoordinator kInactive false None false None false None None None None None ForKickOff.

Definition set_step (v : Step) (c : Coordinator) : Coordinator :=
  mkCoordinator v (_kickOffCommitPromiseSet c) (_participants c) (_participantsDurable c) (_decision c)
    (_decisionDurable c) (_decisionPromise c) (_completionPromise c) (_scheduler c)
    (_sendPrepareScheduler c) (prepareScheduler c) (waiting c).
Definition set_kickOffCommitPromiseSet (v : bool) (c : Coordinator) : Coordinator :=
  mkCoordinator (_step c) v (_participants c) (_participantsDurable c) (_decision c)
    (_decisionDurable c) (_decisionPromise c) (_completionPromise c) (_scheduler c)
    (_sendPrepareScheduler c) (prepareScheduler c) (waiting c).
Definition set_participants (v : list ShardId) (c : Coordinator) : Coordinator :=
  mkCoordinator (_step c) (_kickOffCommitPromiseSet c) (Some v) (_participantsDurable c) (_decision c)
    (_decisionDurable c) (_decisionPromise c) (_completionPromise c) (_scheduler c)
    (_sendPrepareScheduler c) (prepareScheduler c) (waiting c).
Definition set_participantsDurable (v : bool) (c : Coordinator) : Coordinator :=
  mkCoordinator (_step c) (_kickOffCommitPromiseSet c) (_participants c) v (_decision c)
    (_decisionDurable c) (_decisionPromise c) (_completionPromise c) (_scheduler c)
    (_sendPrepareScheduler c) (prepareScheduler c) (waiting c).
Definition set_decision (v : CoordinatorCommitDecision) (c : Coordinator) : Coordinator :=
  mkCoordinator (_step c) (_kickOffCommitPromiseSet c) (_participants c) (_participantsDurable c) (Some v)
    (_decisionDurable c) (_decisionPromise c) (_completionPromise c) (_scheduler c)
    (_sendPrepareScheduler c) (prepareScheduler c) (waiting c).
Definition set_decisionDurable (v : bool) (c : Coordinator) : Coordinator :=
  mkCoordinator (_step c) (_kickOffCommitPromiseSet c) (_participants c) (_participantsDurable c) (_decision c)
    v (_decisionPromise c) (_completionPromise c) (_scheduler c)
    (_sendPrepareScheduler c) (prepareScheduler c) (waiting c).
Definition set_promises (d k : option (PrepareVote + ErrorCode)) (c : Coordinator) : Coordinator :=
  mkCoordinator (_step c) (_kickOffCommitPromiseSet c) (_participants c) (_participantsDurable c) (_decision c)
    (_decisionDurable c) d k (_scheduler c) (_sendPrepareScheduler c) (prepareScheduler c) (waiting c).
Definition set_schedulers (a b d : Status) (c : Coordinator) : Coordinator :=
  mkCoordinator (_step c) (_kickOffCommitPromiseSet c) (_participants c) (_participantsDurable c) (_decision c)
    (_decisionDurable c) (_decisionPromise c) (_completionPromise c) a b d (waiting c).
Definition set_waiting (v : Waiting) (c : Coordinator) : Coordinator :=
  mkCoordinator (_step c) (_kickOffCommitPromiseSet c) (_participants c) (_participantsDurable c) (_decision c)
    (_decisionDurable c) (_decisionPromise c) (_completionPromise c) (_scheduler c)
    (_sendPrepareScheduler c) (prepareScheduler c) v.

(** Shutting down a scheduler shuts down those below it. *)
Definition shutdownAll (e : ErrorCode) (c : Coordinator) : Coordinator :=
  set_schedulers (shutdown e (_scheduler c)) (shutdown e (_sendPrepareScheduler c))
    (shutdown e (prepareScheduler c)) c.
Definition shutdownSendPrepare (e : ErrorCode) (c : Coordinator) : Coordinator :=
  set_schedulers (_scheduler c) (shutdown e (_sendPrepareScheduler c)) (shutdown e (prepareScheduler c)) c.
Definition shutdownPrepare (e : ErrorCode) (c : Coordinator) : Coordinator :=
  set_schedulers (_scheduler c) (_sendPrepareScheduler c) (shutdown e (prepareScheduler c)) c.

(** A promise is set once. *)
Definition setDecisionPromise (r : PrepareVote + ErrorCode) (c : Coordinator) : option Coordinator :=
  invariant (bool_decide (_decisionPromise c = None)) ;;
  Some (set_promises (Some r) (_completionPromise c) c).

(** [_done]. *)
Definition _done (status : Status) (c : Coordinator) : option Coordinator :=
  let status := match status with
                | Some e => Some (if bool_decide (e = TransactionCoordinatorSteppingDown)
                                  then InterruptedDueToReplStateChange else e)
                | None => None
                end in
  c ← (if _decisionDurable c then Some c
       else e ← status; setDecisionPromise (inr e) c);
  invariant (bool_decide (_completionPromise c = None)) ;;
  r ← _decisionPromise c;
  Some (set_promises (_decisionPromise c) (Some r) c).

(** The end of the chain. *)
Definition finish (status : Status) (c : Coordinator) : option Coordinator :=
  _done status (set_waiting ForNothing (shutdownAll TransactionCoordinatorDeadlineTaskCanceled c)).

Definition startWritingDecision (c : Coordinator) : option Coordinator :=
  invariant (bool_decide (is_Some (_decision c))) ;;
  let c := set_step kWritingDecision c in
  Some (set_waiting (if _decisionDurable c then ForDecisionMajority OpTime.null else ForDecisionWrite) c).

(** The error of a stage before the decision: a timeout is a decision to abort. *)
Definition beforeDecisionError (e : ErrorCode) (c : Coordinator) : option Coordinator :=
  if bool_decide (e = TransactionCoordinatorReachedAbortDecision)
  then startWritingDecision (set_decision (mkDecision kAbort None (Some NoSuchTransaction)) c)
  else finish (Some e) c.

(** Every vote is in; [clusterTime] is the outcome of advancing the cluster time. *)
Definition votesCollected (consensus : PrepareVoteConsensus) (status clusterTime : Status) (c : Coordinator)
    : option Coordinator :=
  match status with
  | Some e => beforeDecisionError e c
  | None =>
      d ← consensusDecision consensus;
      let c := set_decision d c in
      match decision d, clusterTime with
      | kCommit, Some e => beforeDecisionError e c
      | _, _ => startWritingDecision c
      end
  end.

(** The participants are durable: the prepares are sent, unless a recovered decision is there. *)
Definition startWaitingForVotes (clusterTime : Status) (c : Coordinator) : option Coordinator :=
  let c := set_step kWaitingForVotes (set_participantsDurable true c) in
  if bool_decide (is_Some (_decision c)) then startWritingDecision c else
  ps ← _participants c;
  let c := set_schedulers (_scheduler c) (_sendPrepareScheduler c) (_sendPrepareScheduler c) c in
  let consensus := newConsensus (Z.of_nat (length ps)) in
  if bool_decide (ps = []) then votesCollected consensus None clusterTime c
  else Some (set_waiting (ForVotes ps consensus None) c).

(** The chain was kicked off. *)
Definition startWritingParticipantList (c : Coordinator) : option Coordinator :=
  invariant (bool_decide (is_Some (_participants c))) ;;
  let c := set_step kWritingParticipantList c in
  Some (set_waiting (if _participantsDurable c then ForParticipantListMajority OpTime.null
                     else ForParticipantListWrite) c).

(** [_reserveKickOffCommitPromise], and what its callers do when they are the first. *)
Definition kickOff (k : Coordinator → option Coordinator) (c : Coordinator) : option Coordinator :=
  if _kickOffCommitPromiseSet c then Some c else k (set_kickOffCommitPromiseSet true c).

Definition runCommit (participants : list ShardId) : Coordinator → option Coordinator :=
  kickOff (λ c, startWritingParticipantList (set_participants participants c)).

Definition continueCommit (doc : TransactionCoordinatorDocument) : Coordinator → option Coordinator :=
  kickOff (λ c,
    let c := set_participants (doc_participants doc) c in
    startWritingParticipantList
      match doc_decision doc with
      | Some d => set_decision d (set_participantsDurable true c)
      | None => c
      end).

Definition cancelIfCommitNotYetStarted : Coordinator → option Coordinator :=
  kickOff (finish (Some TransactionCoordinatorCanceled)).

(** The task at the deadline; it runs unless the scheduler was shut down before. *)
Definition deadlineReached (c : Coordinator) : option Coordinator :=
  if bool_decide (is_Some (_scheduler c)) then Some c else
  c ← cancelIfCommitNotYetStarted c;
  Some (shutdownSendPrepare TransactionCoordinatorReachedAbortDecision c).

(** The service steps down: the deadline task ends with the status. *)
Definition steppedDown (c : Coordinator) : option Coordinator :=
  kickOff (finish (Some TransactionCoordinatorSteppingDown))
    (shutdownAll TransactionCoordinatorSteppingDown c).

(** ** Events *)

Definition onParticipantListWrite (r : OpTime.t + ErrorCode) (c : Coordinator) : option Coordinator :=
  match waiting c with
  | ForParticipantListWrite =>
      match doWhile (_sendPrepareScheduler c) shouldRetryPersistingCoordinatorState r with
      | Again => Some c
      | Ends (inl t) => Some (set_waiting (ForParticipantListMajority t) c)
      | Ends (inr e) => beforeDecisionError e c
      end
  | _ => Some c
  end.

Definition onParticipantListMajority (r clusterTime : Status) (c : Coordinator) : option Coordinator :=
  match waiting c with
  | ForParticipantListMajority _ =>
      match r with Some e => beforeDecisionError e c | None => startWaitingForVotes clusterTime c end
  | _ => Some c
  end.

(** The combiner of the votes: an abort stops the requests that are still out. *)
Definition combineVote (r : PrepareResponse) (consensus : PrepareVoteConsensus) (c : Coordinator)
    : option (PrepareVoteConsensus * Coordinator) :=
  consensus ← registerVote r consensus;
  Some (consensus,
        if bool_decide (vote r = Some kAbort)
        then shutdownPrepare TransactionCoordinatorReachedAbortDecision c else c).

(** The first occurrence of a shard among those that are out is taken away. *)
Fixpoint answered (s : ShardId) (outstanding : list ShardId) : list ShardId :=
  match outstanding with
  | [] => []
  | x :: rest => if bool_decide (x = s) then rest else x :: answered s rest
  end.

Definition onPrepareResponse (isLocalShard : bool) (s : ShardId) (r : RemoteReply + ErrorCode)
    (clusterTime : Status) (c : Coordinator) : option Coordinator :=
  match waiting c with
  | ForVotes out consensus status =>
      if negb (bool_decide (s ∈ out)) then Some c else
      t ← prepareTurn isLocalShard (prepareScheduler c) s r;
      match t with
      | Again => Some c
      | Ends r =>
          '(consensus, status, c) ←
            match r, status with
            | inl response, None =>
                '(consensus, c) ← combineVote response consensus c; Some (consensus, status, c)
            | inr e, None => Some (consensus, Some e, c)
            | _, Some _ => Some (consensus, status, c)
            end;
          let out := answered s out in
          if bool_decide (out = []) then votesCollected consensus status clusterTime c
          else Some (set_waiting (ForVotes out consensus status) c)
      end
  | _ => Some c
  end.

Definition onDecisionWrite (r : OpTime.t + ErrorCode) (c : Coordinator) : option Coordinator :=
  match waiting c with
  | ForDecisionWrite =>
      match doWhile (_scheduler c) shouldRetryPersistingCoordinatorState r with
      | Again => Some c
      | Ends (inl t) => Some (set_waiting (ForDecisionMajority t) c)
      | Ends (inr e) => finish (Some e) c
      end
  | _ => Some c
  end.

Definition startDeleting (c : Coordinator) : option Coordinator :=
  Some (set_waiting ForDelete (set_step kDeletingCoordinatorDoc c)).

(** Every acknowledgment is in. *)
Definition acksCollected (status : Status) (c : Coordinator) : option Coordinator :=
  match status with Some e => finish (Some e) c | None => startDeleting c end.

Definition onDecisionMajority (r : Status) (c : Coordinator) : option Coordinator :=
  match waiting c with
  | ForDecisionMajority _ =>
      match r with
      | Some e => finish (Some e) c
      | None =>
          let c := set_step kWaitingForDecisionAcks (set_decisionDurable true c) in
          d ← _decision c;
          c ← match decision d with
              | kCommit => t ← commitTimestamp d; setDecisionPromise (inl kCommit) c
              | kAbort => e ← abortStatus d; setDecisionPromise (inr e) c
              end;
          ps ← _participants c;
          if bool_decide (ps = []) then acksCollected None c
          else Some (set_waiting (ForDecisionAcks ps None) c)
      end
  | _ => Some c
  end.

Definition onDecisionAck (s : ShardId) (r : RemoteReply + ErrorCode) (c : Coordinator) : option Coordinator :=
  match waiting c with
  | ForDecisionAcks out status =>
      if negb (bool_decide (s ∈ out)) then Some c else
      t ← decisionTurn (_scheduler c) r;
      match t with
      | Again => Some c
      | Ends r =>
          let status := match r, status with inr e, None => Some e | _, _ => status end in
          let out := answered s out in
          if bool_decide (out = []) then acksCollected status c
          else Some (set_waiting (ForDecisionAcks out status) c)
      end
  | _ => Some c
  end.

(** Deleting the document is retried only when it was interrupted. *)
Definition onDelete (r : unit + ErrorCode) (c : Coordinator) : option Coordinator :=
  match waiting c with
  | ForDelete =>
      match doWhile (_scheduler c) (λ e, bool_decide (e = Interrupted)) r with
      | Again => Some c
      | Ends (inl _) => finish None c
      | Ends (inr e) => finish (Some e) c
      end
  | _ => Some c
  end.

(** What the coordinator asks of a shard while it waits for it. *)
Inductive ShardCommand := PrepareCmd | CommitCmd (t : Timestamp.t) | AbortCmd.

Definition sends (c : Coordinator) (s : ShardId) : option ShardCommand :=
  match waiting c with
  | ForVotes out _ _ => if bool_decide (s ∈ out) then Some PrepareCmd else None
  | ForDecisionAcks out _ =>
      if bool_decide (s ∈ out) then
        d ← _decision c;
        match decision d with
        | kCommit => t ← commitTimestamp d; Some (CommitCmd t)
        | kAbort => Some AbortCmd
        end
      else None
  | _ => None
  end.
End TransactionCoordinator.
