(* ===== verification/CoordinatorInv.v ===== *)
(** What holds of a coordinator between two events: no event fails an invariant, a decision
    is never changed, and a decision to commit has the vote of every participant. *)
From S2P Require Import Prelude OpTimes TransactionState TransactionCoordinator.
Import TransactionCoordinator.

#[local] Arguments votesCollected : simpl never.
#[local] Arguments beforeDecisionError : simpl never.
#[local] Arguments startWritingDecision : simpl never.
#[local] Arguments startWaitingForVotes : simpl never.
#[local] Arguments finish : simpl never.
#[local] Arguments acksCollected : simpl never.

(** ** Votes *)

(** What a response carries. *)
Definition responseOk (r : PrepareResponse) : Prop :=
  match vote r with
  | Some kCommit => is_Some (prepareTimestamp r)
  | _ => is_Some (abortReason r)
  end.

(** The votes that were counted, and the number of those that are out. *)
Record Tallied (out : nat) (c : PrepareVoteConsensus) : Prop := {
  ta_sum : numShards c = numCommitVotes c + numAbortVotes c + numNoVotes c + Z.of_nat out;
  ta_abort : 0 <= numAbortVotes c;
  ta_none : 0 <= numNoVotes c;
  ta_status : numAbortVotes c + numNoVotes c ≠ 0 → is_Some (consensusAbortStatus c)
}.

Definition unanimous (c : PrepareVoteConsensus) : Prop := numAbortVotes c = 0 ∧ numNoVotes c = 0.

Lemma lt_max_l a b t : Timestamp.lt a t = false → Timestamp.lt (maxTimestamp a b) t = false.
Proof.
  unfold maxTimestamp. destruct (Timestamp.lt a b) eqn:Hab; [|done].
  intros Hat. apply not_true_iff_false. apply not_true_iff_false in Hat. apply Timestamp.lt_spec in Hab.
  intros Hbt. apply Hat. apply Timestamp.lt_spec in Hbt. apply Timestamp.lt_spec. lia.
Qed.

Lemma lt_max_r a b : Timestamp.lt (maxTimestamp a b) b = false.
Proof.
  unfold maxTimestamp. destruct (Timestamp.lt a b) eqn:Hab; [|done].
  apply not_true_iff_false. intros Hb%Timestamp.lt_spec. lia.
Qed.

Lemma registerVote_ok r out c :
  responseOk r → Tallied (S out) c →
  ∃ c', registerVote r c = Some c' ∧ Tallied out c' ∧ numShards c' = numShards c ∧
    (unanimous c' → unanimous c ∧ ∃ t, vote r = Some kCommit ∧ prepareTimestamp r = Some t ∧
       maxPrepareTimestamp c' = maxTimestamp (maxPrepareTimestamp c) t).
Proof.
  unfold responseOk, registerVote, unanimous. intros Hr [Hs Ha Hn Hst].
  destruct (vote r) as [[]|] eqn:Hv; simpl in *.
  - destruct Hr as [t Ht]. rewrite Ht. simpl. eexists. split_and!; [done| |done|].
    + split; simpl; try done. lia.
    + simpl. eauto.
  - destruct Hr as [e He]. rewrite He. destruct (consensusAbortStatus c) as [e'|]; simpl;
      (eexists; split_and!; [done|split; simpl; try done; lia|done|simpl; lia]).
  - destruct Hr as [e He]. rewrite He. destruct (consensusAbortStatus c) as [e'|]; simpl;
      (eexists; split_and!; [done|split; simpl; try done; lia|done|simpl; lia]).
Qed.

(** When every vote is in there is a decision, which is to commit only when all votes are. *)
Lemma consensusDecision_ok c :
  Tallied 0 c →
  ∃ d, consensusDecision c = Some d ∧
    ((unanimous c ∧ d = mkDecision kCommit (Some (maxPrepareTimestamp c)) None) ∨
     (¬ unanimous c ∧ ∃ e, consensusAbortStatus c = Some e ∧ d = mkDecision kAbort None (Some e))).
Proof.
  intros [Hs Ha Hn Hst]. unfold consensusDecision, unanimous.
  assert ((numShards c =? numCommitVotes c + numAbortVotes c + numNoVotes c) = true) as -> by (apply Z.eqb_eq; lia).
  destruct (numCommitVotes c =? numShards c) eqn:Hc.
  - apply Z.eqb_eq in Hc. eexists. split; [done|]. left. split; [lia|done].
  - apply Z.eqb_neq in Hc. destruct Hst as [e He]; [lia|]. rewrite He. simpl. eexists. split; [done|].
    right. split; [lia|]. eauto.
Qed.

Lemma shardAttempt_ok isLocal s r :
  (isLocal = true → r ≠ inr ShardNotFound ∧ ∀ reply, r = inl reply → replyStatus reply ≠ Some ShardNotFound) →
  ∃ a, prepareAttempt isLocal s r = Some a ∧
    ∀ resp, a = inl resp → responseOk resp ∧
      ∀ t, vote resp = Some kCommit → prepareTimestamp resp = Some t →
        ∃ reply, r = inl reply ∧ replyStatus reply = None ∧ reply_prepareTimestamp reply = Some t.
Proof.
  intros Hl. unfold prepareAttempt, prepareShardNotFound.
  destruct r as [reply|e].
  - destruct (replyStatus reply) as [e|] eqn:Hst.
    + destruct (isVoteAbortError e); [eexists; split; [done|]; intros ? [= <-]; (split; [unfold responseOk; simpl; eauto|done])|].
      case_bool_decide as He; [|by eexists; split].
      destruct isLocal; simpl.
      * subst e. exfalso. destruct (Hl eq_refl) as [_ Hx]. by apply (Hx reply).
      * eexists; split; [done|]; intros ? [= <-]; (split; [unfold responseOk; simpl; eauto|done]).
    + destruct (reply_prepareTimestamp reply) as [t|] eqn:Ht.
      * destruct (Timestamp.isNull t); eexists; (split; [done|]); intros ? [= <-]; split; try (unfold responseOk; simpl; by eauto); try done.
        simpl. intros t' _ [= <-]. eauto.
      * eexists; split; [done|]; intros ? [= <-]; (split; [unfold responseOk; simpl; eauto|done]).
  - case_bool_decide as He; [|by eexists; split].
    destruct isLocal; simpl.
    + subst e. exfalso. by destruct (Hl eq_refl) as [Hx _].
    + eexists; split; [done|]; intros ? [= <-]; (split; [unfold responseOk; simpl; eauto|done]).
Qed.

Lemma answered_elem s x out : x ∈ out → x ∈ answered s out ∨ x = s.
Proof.
  induction out as [|y out IH]; simpl; [by intros ?%not_elem_of_nil|].
  intros [->|Hx]%elem_of_cons; case_bool_decide as Hy; auto.
  - left. by left.
  - destruct (IH Hx); [left; by right|by right].
Qed.

Lemma answered_length s out : s ∈ out → length out = S (length (answered s out)).
Proof.
  induction out as [|y out IH]; simpl; [by intros ?%not_elem_of_nil|].
  intros Hs. case_bool_decide as Hy; [done|]. simpl. rewrite IH; [done|].
  by apply elem_of_cons in Hs as [->|?].
Qed.

(** ** The invariant *)

Section Inv.
(** The participants, what a shard is known to have voted, and whether a document with the
    given decision, or with none, is durable on a majority or was written at a position of
    the oplog. *)
Context (PS : list ShardId) (voted : ShardId → Timestamp.t → Prop)
  (durable : option CoordinatorCommitDecision → Prop)
  (wrote : OpTime.t → option CoordinatorCommitDecision → Prop).

(** Every participant has voted not later than the commit timestamp. *)
Definition justified (d : CoordinatorCommitDecision) : Prop :=
  match decision d with
  | kCommit =>
      ∃ ct, commitTimestamp d = Some ct ∧
        ∀ s, s ∈ PS → ∃ t, voted s t ∧ Timestamp.lt ct t = false
  | kAbort => is_Some (abortStatus d)
  end.

Definition votesOk (out : list ShardId) (c : PrepareVoteConsensus) : Prop :=
  Tallied (length out) c ∧
  (unanimous c → ∀ s, s ∈ PS → s ∈ out ∨ ∃ t, voted s t ∧ Timestamp.lt (maxPrepareTimestamp c) t = false).

Record Undecided (c : Coordinator) : Prop := {
  u_durable : _decisionDurable c = false;
  u_promise : _decisionPromise c = None;
  u_completion : _completionPromise c = None
}.

(** The kick-off happened, for these participants. *)
Definition begun (c : Coordinator) : Prop :=
  _kickOffCommitPromiseSet c = true ∧ _participants c = Some PS.

Definition decidedTo (P : CoordinatorCommitDecision → Prop) (c : Coordinator) : Prop :=
  ∃ d, _decision c = Some d ∧ justified d ∧ P d.

(** Who asks for the outcome is told of a commit only when it is durable. *)
Definition truthful (c : Coordinator) : Prop :=
  ∀ v, _decisionPromise c = Some (inl v) ∨ _completionPromise c = Some (inl v) →
    v = kCommit ∧ ∃ d, durable (Some d) ∧ decision d = kCommit.

Definition Inv (c : Coordinator) : Prop :=
  match waiting c with
  | ForKickOff => Undecided c ∧ _kickOffCommitPromiseSet c = false ∧ _decision c = None ∧ _participantsDurable c = false
  | ForParticipantListWrite => Undecided c ∧ begun c ∧ _decision c = None
  | ForParticipantListMajority t =>
      Undecided c ∧ begun c ∧ (∀ d, _decision c = Some d → justified d) ∧
      (_decision c = None → wrote t None)
  | ForVotes out consensus status =>
      Undecided c ∧ begun c ∧ _decision c = None ∧ (status = None → votesOk out consensus) ∧
      durable None
  | ForDecisionWrite => Undecided c ∧ begun c ∧ decidedTo (λ _, True) c
  | ForDecisionMajority t => Undecided c ∧ begun c ∧ decidedTo (λ d, wrote t (Some d)) c
  | ForDecisionAcks _ _ | ForDelete =>
      begun c ∧ _decisionDurable c = true ∧ is_Some (_decisionPromise c) ∧ _completionPromise c = None ∧
      decidedTo (λ d, durable (Some d)) c ∧ truthful c
  | ForNothing => _kickOffCommitPromiseSet c = true ∧ truthful c
  end.

(** A decision is kept until the chain has ended. *)
Definition keepsDecision (c c' : Coordinator) : Prop :=
  ∀ d, _decision c = Some d → waiting c' = ForNothing ∨ _decision c' = Some d.

Definition goesWell (c : Coordinator) (r : option Coordinator) : Prop :=
  ∃ c', r = Some c' ∧ Inv c' ∧ keepsDecision c c'.

Lemma goesWell_same c c' : Inv c' → _decision c' = _decision c → goesWell c (Some c').
Proof. intros Hi Hd. exists c'. split_and!; [done..|]. intros d. rewrite Hd. auto. Qed.

Lemma goesWell_from c c1 r : _decision c1 = _decision c → goesWell c1 r → goesWell c r.
Proof. intros Hd (c' & -> & Hi & Hk). exists c'. split_and!; [done..|]. intros d. rewrite <- Hd. apply Hk. Qed.

(** From a state without a decision. *)
Lemma goesWell_new c c1 r : _decision c = None → goesWell c1 r → goesWell c r.
Proof. intros Hd (c' & -> & Hi & Hk). exists c'. split_and!; [done..|]. intros d. by rewrite Hd. Qed.

(** The chain can end with an error, and after the decision is durable in any way. *)
Lemma coordinatorFinish_ok status c :
  _kickOffCommitPromiseSet c = true → _completionPromise c = None →
  (if _decisionDurable c then is_Some (_decisionPromise c) ∧ truthful c
   else _decisionPromise c = None ∧ is_Some status) →
  goesWell c (finish status c).
Proof.
  intros Hset Hc Hd. unfold finish, _done. simpl.
  destruct (_decisionDurable c) eqn:Hdur; simpl.
  - destruct Hd as [[p Hp] Ht]. rewrite Hc, Hp. simpl.
    eexists. split_and!; [done| |by left]. split; [done|]. intros v. simpl.
    intros Hv. apply Ht. rewrite Hp. destruct Hv; by left.
  - destruct Hd as [Hp [e ->]]. unfold setDecisionPromise. simpl. rewrite Hp. simpl. rewrite Hc. simpl.
    eexists. split_and!; [done| |by left]. split; [done|]. intros v. simpl. by intros [|].
Qed.

Lemma finish_undecided e c : Undecided c → _kickOffCommitPromiseSet c = true → goesWell c (finish (Some e) c).
Proof. intros [Hd Hp Hc] Hs. apply coordinatorFinish_ok; [done..|]. rewrite Hd. eauto. Qed.

Lemma startWritingDecision_ok c d :
  Undecided c → begun c → _decision c = Some d → justified d → goesWell c (startWritingDecision c).
Proof.
  intros Hu Hb Hd Hj. unfold startWritingDecision. rewrite Hd. simpl. rewrite (u_durable _ Hu).
  apply goesWell_same; [|done]. split_and!; [by destruct Hu|done|]. by exists d.
Qed.

Lemma beforeDecisionError_ok e c :
  Undecided c → begun c → (e = TransactionCoordinatorReachedAbortDecision → _decision c = None) →
  goesWell c (beforeDecisionError e c).
Proof.
  intros Hu Hb He. unfold beforeDecisionError. case_bool_decide as Heq.
  - eapply goesWell_new; [by apply He|]. eapply startWritingDecision_ok; [by destruct Hu|done|done|].
    unfold justified. simpl. eauto.
  - by apply finish_undecided; [|apply Hb].
Qed.

Lemma votesCollected_ok consensus status clusterTime c :
  Undecided c → begun c → _decision c = None → (status = None → votesOk [] consensus) →
  goesWell c (votesCollected consensus status clusterTime c).
Proof.
  intros Hu Hb Hd Hv. unfold votesCollected. destruct status as [e|].
  { by apply beforeDecisionError_ok. }
  destruct (Hv eq_refl) as [Ht Hall]. destruct (consensusDecision_ok _ Ht) as (d & -> & Hcases). simpl.
  assert (Hj : justified d).
  { unfold justified. destruct Hcases as [[Hun ->]|(_ & e & _ & ->)]; simpl; [|by eauto].
    eexists. split; [done|]. intros s Hs. destruct (Hall Hun s Hs) as [?%not_elem_of_nil|?]; done. }
  assert (Hw : goesWell c (startWritingDecision (set_decision d c))).
  { eapply goesWell_new; [done|]. eapply startWritingDecision_ok; [by destruct Hu|done|done|done]. }
  destruct (decision d); [|exact Hw]. destruct clusterTime as [e|]; [|exact Hw].
  unfold beforeDecisionError. case_bool_decide.
  - eapply goesWell_new; [done|]. eapply startWritingDecision_ok; [by destruct Hu|done|done|].
    unfold justified. simpl. eauto.
  - eapply goesWell_new; [done|]. apply finish_undecided; [by destruct Hu|apply Hb].
Qed.

Lemma startWaitingForVotes_ok clusterTime c :
  Undecided c → begun c → (∀ d, _decision c = Some d → justified d) →
  (_decision c = None → durable None) →
  goesWell c (startWaitingForVotes clusterTime c).
Proof.
  intros Hu Hb Hd Hdur. unfold startWaitingForVotes. simpl.
  destruct (_decision c) as [d|] eqn:Hdec; simpl.
  - eapply goesWell_from; [|eapply startWritingDecision_ok; [by destruct Hu|done|done|by apply Hd]].
    done.
  - destruct Hb as [Hs Hp]. rewrite Hp. simpl. eapply goesWell_new; [done|]. case_bool_decide as He.
    + apply votesCollected_ok; [by destruct Hu|done|done|]. intros _. rewrite He. split.
      * split; simpl; intros; try done; lia.
      * intros _ s Hin. rewrite He in Hin. by apply not_elem_of_nil in Hin.
    + apply goesWell_same; [|done]. split_and!; [by destruct Hu|done|done| |by apply Hdur]. intros _. split.
      * split; simpl; intros; try done; lia.
      * intros _ s Hin. by left.
Qed.

Lemma startWritingParticipantList_ok c :
  Undecided c → begun c → (∀ d, _decision c = Some d → justified d) →
  (_participantsDurable c = false ↔ _decision c = None) →
  goesWell c (startWritingParticipantList c).
Proof.
  intros Hu Hb Hd Hn. unfold startWritingParticipantList. destruct Hb as [Hs Hp]. rewrite Hp. simpl.
  apply goesWell_same; [|done]. simpl. destruct (_participantsDurable c) eqn:Hdur; simpl.
  - split_and!; [by destruct Hu|done|done|by intros Hx%Hn].
  - split_and!; [by destruct Hu|done|by apply Hn].
Qed.

(** ** Events *)

Lemma kickOff_ok k c :
  Inv c →
  (waiting c = ForKickOff → Inv c → goesWell c (k (set_kickOffCommitPromiseSet true c))) →
  goesWell c (kickOff k c).
Proof.
  intros Hi Hk. unfold kickOff. destruct (_kickOffCommitPromiseSet c) eqn:Hs; [by apply goesWell_same|].
  apply Hk; [|done]. unfold Inv, begun in Hi. destruct (waiting c); try done; exfalso;
    destruct_and?; congruence.
Qed.

Lemma runCommit_ok c : Inv c → goesWell c (runCommit PS c).
Proof.
  intros Hi. apply kickOff_ok; [done|]. unfold Inv. intros -> (Hu & Hs & Hd & Hp).
  eapply goesWell_new; [done|]. apply startWritingParticipantList_ok; [by destruct Hu|done| |done].
  simpl. rewrite Hd. by intros.
Qed.

Lemma continueCommit_ok doc c :
  Inv c → doc_participants doc = PS → (∀ d, doc_decision doc = Some d → justified d) →
  goesWell c (continueCommit doc c).
Proof.
  intros Hi Hps Hj. apply kickOff_ok; [done|]. unfold Inv. intros -> (Hu & Hs & Hd & Hp).
  rewrite Hps.
  destruct (doc_decision doc) as [d|] eqn:Hdoc; (eapply goesWell_new; [done|]); apply startWritingParticipantList_ok; try done; try (by destruct Hu); simpl.
  - rewrite Hd. by intros.
Qed.

Lemma cancel_ok c : Inv c → goesWell c (cancelIfCommitNotYetStarted c).
Proof.
  intros Hi. apply kickOff_ok; [done|]. unfold Inv. intros -> (Hu & Hs & Hd & Hp).
  eapply goesWell_new; [done|]. apply finish_undecided; [by destruct Hu|done].
Qed.

Lemma Inv_schedulers x y z c : Inv c → Inv (set_schedulers x y z c).
Proof.
  unfold Inv. simpl.
  destruct (waiting c); try done; intros Hi; destruct_and?; split_and?; try done; by match goal with H : Undecided c |- _ => destruct H end.
Qed.

Lemma deadlineReached_ok c : Inv c → goesWell c (deadlineReached c).
Proof.
  intros Hi. unfold deadlineReached. case_bool_decide; [by apply goesWell_same|].
  destruct (cancel_ok c Hi) as (c' & -> & Hi' & Hk). simpl.
  exists (shutdownSendPrepare TransactionCoordinatorReachedAbortDecision c').
  split_and!; [done|by apply Inv_schedulers|done].
Qed.

Lemma steppedDown_ok c : Inv c → goesWell c (steppedDown c).
Proof.
  intros Hi. unfold steppedDown.
  eapply (goesWell_from c (shutdownAll TransactionCoordinatorSteppingDown c)); [done|].
  apply kickOff_ok; [by apply Inv_schedulers|]. unfold Inv. simpl. intros -> (Hu & Hs & Hd & Hp).
  eapply goesWell_new; [done|]. apply finish_undecided; [by destruct Hu|done].
Qed.

Lemma onParticipantListWrite_ok r c :
  Inv c → (∀ t, r = inl t → wrote t None) → goesWell c (onParticipantListWrite r c).
Proof.
  intros Hi Hr. unfold onParticipantListWrite. destruct (waiting c) eqn:Hw; try by apply goesWell_same.
  pose proof Hi as Hi'. unfold Inv in Hi'. rewrite Hw in Hi'. destruct Hi' as (Hu & Hb & Hd).
  destruct (doWhile _ _ r) as [|[t|e]] eqn:Hloop; [by apply goesWell_same| |by apply beforeDecisionError_ok].
  apply goesWell_same; [|done]. split_and!; [by destruct Hu|done|simpl; rewrite Hd; by intros|].
  intros _. apply Hr. unfold doWhile in Hloop. destruct r as [|e]; [congruence|].
  destruct (shouldRetryPersistingCoordinatorState e); [|done]. by destruct (_sendPrepareScheduler c).
Qed.

Lemma onParticipantListMajority_ok r clusterTime c :
  Inv c → r ≠ Some TransactionCoordinatorReachedAbortDecision →
  (∀ t, waiting c = ForParticipantListMajority t → r = None → wrote t None → durable None) →
  goesWell c (onParticipantListMajority r clusterTime c).
Proof.
  intros Hi Hr Hm. unfold onParticipantListMajority. destruct (waiting c) eqn:Hw; try by apply goesWell_same.
  pose proof Hi as Hi'. unfold Inv in Hi'. rewrite Hw in Hi'. destruct Hi' as (Hu & Hb & Hd & Hwr).
  destruct r as [e|]; [|by apply startWaitingForVotes_ok; eauto].
  apply beforeDecisionError_ok; [done..|]. intros ->. done.
Qed.

(** The replies to prepares are those of shards that have voted. *)
Lemma onPrepareResponse_ok isLocal s r clusterTime c :
  Inv c →
  (isLocal = true → r ≠ inr ShardNotFound ∧ ∀ reply, r = inl reply → replyStatus reply ≠ Some ShardNotFound) →
  (∀ reply t, r = inl reply → replyStatus reply = None → reply_prepareTimestamp reply = Some t → voted s t) →
  goesWell c (onPrepareResponse isLocal s r clusterTime c).
Proof.
  intros Hi Hl Hvoted. unfold onPrepareResponse.
  destruct (waiting c) as [| | |out cns st| | | | |] eqn:Hw; try by apply goesWell_same.
  pose proof Hi as Hi'. unfold Inv in Hi'. rewrite Hw in Hi'. destruct Hi' as (Hu & Hb & Hd & Hv & Hdur).
  case_bool_decide as Hin; simpl; [|by apply goesWell_same].
  unfold prepareTurn. destruct (shardAttempt_ok isLocal s r Hl) as (a & -> & Ha). simpl.
  assert (Hend : ∀ status' cns' c1, _decision c1 = None → Undecided c1 → begun c1 →
    (status' = None → votesOk (answered s out) cns') →
    goesWell c (if bool_decide (answered s out = []) then votesCollected cns' status' clusterTime c1
                else Some (set_waiting (ForVotes (answered s out) cns' status') c1))).
  { intros status' cns' c1 Hd1 Hu1 Hb1 Hv1. eapply goesWell_new; [done|]. case_bool_decide as He.
    - rewrite He in Hv1. by apply votesCollected_ok.
    - apply goesWell_same; [|done]. split_and!; [by destruct Hu1|done..]. }
  assert (Hresp : ∀ resp, responseOk resp →
    (∀ t, vote resp = Some kCommit → prepareTimestamp resp = Some t → voted s t) →
    goesWell c ('(consensus, status, c) ←
            match st with
            | None => '(consensus, c) ← combineVote resp cns c; Some (consensus, st, c)
            | Some _ => Some (cns, st, c)
            end;
          let out := answered s out in
          if bool_decide (out = []) then votesCollected consensus status clusterTime c
          else Some (set_waiting (ForVotes out consensus status) c))).
  { intros resp Hrok Hrv. destruct st as [e|]; simpl; [by apply Hend|].
    destruct (Hv eq_refl) as [Ht Hall]. rewrite (answered_length s) in Ht by done.
    unfold combineVote. destruct (registerVote_ok _ _ _ Hrok Ht) as (cns' & -> & Ht' & _ & Hun). simpl.
    assert (Hvotes : votesOk (answered s out) cns').
    { split; [done|]. intros Hu' x Hx. destruct (Hun Hu') as [Hu0 (t & Hvt & Hpt & Hmax)].
      rewrite Hmax. destruct (Hall Hu0 x Hx) as [Hout|(t' & Hvo & Hle)].
      - destruct (answered_elem s x out Hout) as [?| ->]; [by left|right].
        exists t. split; [by apply Hrv|apply lt_max_r].
      - right. exists t'. split; [done|by apply lt_max_l]. }
    destruct (bool_decide (vote resp = Some kAbort)); (apply Hend; done || by destruct Hu). }
  destruct (doWhile _ _ a) as [|[resp|e]] eqn:Hloop.
  - by apply goesWell_same.
  - assert (a = inl resp) as ->.
    { unfold doWhile in Hloop. destruct a as [|e]; [congruence|]. destruct (prepareShouldRetry e); [|done].
      by destruct (prepareScheduler c). }
    destruct (Ha resp eq_refl) as [Hrok Hrt]. apply Hresp; [done|].
    intros t Hvt Hpt. destruct (Hrt t Hvt Hpt) as (reply & -> & Hst & Hpr). by eapply Hvoted.
  - destruct (bool_decide (e = TransactionCoordinatorReachedAbortDecision)).
    + apply Hresp; [unfold responseOk; simpl; by eauto|done].
    + destruct st; simpl; by apply Hend.
Qed.

Lemma onDecisionWrite_ok r c :
  Inv c → (∀ t d, r = inl t → _decision c = Some d → wrote t (Some d)) → goesWell c (onDecisionWrite r c).
Proof.
  intros Hi Hr. unfold onDecisionWrite. destruct (waiting c) eqn:Hw; try by apply goesWell_same.
  pose proof Hi as Hi'. unfold Inv in Hi'. rewrite Hw in Hi'. destruct Hi' as (Hu & Hb & d & Hd & Hj & _).
  destruct (doWhile _ _ r) as [|[t|e]] eqn:Hloop; [by apply goesWell_same| |by apply finish_undecided; [|apply Hb]].
  apply goesWell_same; [|done]. split_and!; [by destruct Hu|done|]. exists d. split_and!; [done..|].
  apply Hr; [|done]. unfold doWhile in Hloop. destruct r as [|e]; [congruence|].
  destruct (shouldRetryPersistingCoordinatorState e); [|done]. by destruct (_scheduler c).
Qed.

Lemma acksCollected_ok status c :
  begun c → _decisionDurable c = true → is_Some (_decisionPromise c) → _completionPromise c = None →
  decidedTo (λ d, durable (Some d)) c → truthful c → goesWell c (acksCollected status c).
Proof.
  intros Hb Hdur Hp Hc Hd Ht. unfold acksCollected. destruct status as [e|].
  - apply coordinatorFinish_ok; [apply Hb|done|]. by rewrite Hdur.
  - by apply goesWell_same.
Qed.

Lemma onDecisionMajority_ok r c :
  Inv c → (∀ t d, waiting c = ForDecisionMajority t → r = None → wrote t (Some d) → durable (Some d)) →
  goesWell c (onDecisionMajority r c).
Proof.
  intros Hi Hr. unfold onDecisionMajority. destruct (waiting c) as [| | | | |t| | |] eqn:Hw; try by apply goesWell_same.
  pose proof Hi as Hi'. unfold Inv in Hi'. rewrite Hw in Hi'. destruct Hi' as (Hu & [Hs Hps] & d & Hd & Hj & Hwr).
  destruct r as [e|]; [by apply finish_undecided|]. simpl. rewrite Hd. simpl.
  assert (Hend : ∀ p, (∀ v, p = inl v → v = kCommit ∧ decision d = kCommit) → goesWell c (let c1 := set_promises (Some p) (_completionPromise c)
      (set_step kWaitingForDecisionAcks (set_decisionDurable true c)) in
    if bool_decide (PS = []) then acksCollected None c1 else Some (set_waiting (ForDecisionAcks PS None) c1))).
  { intros p Hpv. assert (Hdt : decidedTo (λ d, durable (Some d)) c) by (exists d; split_and!; eauto).
    assert (Hdur : durable (Some d)) by eauto. destruct Hu as [_ _ Hcp].
    assert (Ht : truthful (set_promises (Some p) (_completionPromise c)
      (set_step kWaitingForDecisionAcks (set_decisionDurable true c)))).
    { intros v. simpl. rewrite Hcp. intros [[= Hv]|?]; [|done]. destruct (Hpv v Hv). eauto. }
    eapply (goesWell_from c (set_promises (Some p) (_completionPromise c)
      (set_step kWaitingForDecisionAcks (set_decisionDurable true c)))); [done|]. simpl. case_bool_decide.
    - by apply acksCollected_ok; simpl; [|done|eexists|..].
    - apply goesWell_same; [|done]. unfold Inv. simpl. split_and!; [done|done|by eexists|done|done|exact Ht]. }
  unfold justified in Hj. unfold setDecisionPromise. simpl. rewrite (u_promise _ Hu). simpl.
  destruct (decision d).
  - destruct Hj as (ct & -> & _). simpl. rewrite Hps. apply Hend. by intros v [= <-].
  - destruct Hj as [e ->]. simpl. rewrite Hps. apply Hend. done.
Qed.

Lemma onDecisionAck_ok s r c :
  Inv c → r ≠ inr ShardNotFound → (∀ reply, r = inl reply → replyStatus reply ≠ Some ShardNotFound) →
  goesWell c (onDecisionAck s r c).
Proof.
  intros Hi Hn Hn'. unfold onDecisionAck. destruct (waiting c) as [| | | | | |out st| |] eqn:Hw; try by apply goesWell_same.
  pose proof Hi as Hi'. unfold Inv in Hi'. rewrite Hw in Hi'. destruct Hi' as (Hb & Hdur & Hp & Hc & Hd & Ht).
  case_bool_decide as Hin; simpl; [|by apply goesWell_same].
  unfold decisionTurn. assert (∃ a, decisionAttempt r = Some a) as [a ->].
  { unfold decisionAttempt. destruct r as [reply|e].
    - specialize (Hn' reply eq_refl). destruct (replyStatus reply) as [e|]; [|by eexists].
      destruct (isVoteAbortError e); [by eexists|]. rewrite bool_decide_eq_false_2; [by eexists|congruence].
    - rewrite bool_decide_eq_false_2; [by eexists|congruence]. }
  simpl. destruct (doWhile _ _ a) as [|x]; [by apply goesWell_same|]. case_bool_decide.
  - by apply acksCollected_ok.
  - apply goesWell_same; [|done]. split_and!; done.
Qed.

Lemma onDelete_ok r c : Inv c → goesWell c (onDelete r c).
Proof.
  intros Hi. unfold onDelete. destruct (waiting c) eqn:Hw; try by apply goesWell_same.
  pose proof Hi as Hi'. unfold Inv in Hi'. rewrite Hw in Hi'. destruct Hi' as (Hb & Hdur & Hp & Hc & Hd & Ht).
  assert (Hf : ∀ st, goesWell c (finish st c)).
  { intros st. apply coordinatorFinish_ok; [apply Hb|done|]. by rewrite Hdur. }
  destruct (doWhile _ _ r) as [|[]]; [by apply goesWell_same|done..].
Qed.

Lemma newCoordinator_ok : Inv newCoordinator.
Proof. split_and!; try done. Qed.

(** What is sent after the votes is a durable decision. *)
Lemma sends_ok c s cmd :
  Inv c → sends c s = Some cmd →
  match cmd with
  | PrepareCmd => durable None
  | CommitCmd ct => ∃ d, durable (Some d) ∧ decision d = kCommit ∧ commitTimestamp d = Some ct
  | AbortCmd => ∃ d, durable (Some d) ∧ decision d = kAbort
  end.
Proof.
  unfold Inv, sends. destruct (waiting c); try done.
  - case_bool_decide; [|done]. intros (_ & _ & _ & _ & Hd) [= <-]. done.
  - intros (_ & _ & _ & _ & (d & Hd & _ & Hdur) & _). case_bool_decide; [|done]. rewrite Hd. simpl.
    destruct (decision d) eqn:Hk.
    + destruct (commitTimestamp d) as [t|] eqn:Ht; simpl; [|done]. intros [= <-]. eauto.
    + intros [= <-]. eauto.
Qed.
End Inv.

(** More may be known. *)
Lemma Inv_mono PS (voted voted' : ShardId → Timestamp.t → Prop)
    (durable durable' : option CoordinatorCommitDecision → Prop)
    (wrote wrote' : OpTime.t → option CoordinatorCommitDecision → Prop) c :
  (∀ s t, s ∈ PS → voted s t → voted' s t) → (∀ d, durable d → durable' d) →
  (∀ t d, wrote t d → wrote' t d) →
  Inv PS voted durable wrote c → Inv PS voted' durable' wrote' c.
Proof.
  intros Hv Hd Hw.
  assert (Hj : ∀ d, justified PS voted d → justified PS voted' d).
  { intros d. unfold justified. destruct (decision d); [|done]. intros (ct & Hct & Hall).
    exists ct. split; [done|]. intros s Hs. destruct (Hall s Hs) as (t & ? & ?). exists t. auto. }
  unfold Inv, decidedTo, truthful. destruct (waiting c) eqn:Hwait; try naive_solver.
  intros (? & ? & ? & Hvo & ?). split_and!; auto. intros Hst. destruct (Hvo Hst) as [Ht Hall].
  split; [done|]. intros Hu s Hs. destruct (Hall Hu s Hs) as [?|(t & ? & ?)]; eauto 6.
Qed.
