(* ===== verification/TwoPhaseCommit.v ===== *)
(** Two-phase commit as a network: the shards of a transaction, the coordinators that the
    primaries of its coordinating shard run one after the other, the document they keep in
    that shard's replicated oplog, and the messages between them.

    What a coordinator needs of a shard is the interface [Participant]; ShardParticipant.v
    shows that a session's participant has it. *)
From stdpp Require Import gmap.
From S2P Require Import Prelude OpTimes TransactionState TransactionCoordinator CoordinatorInv.
Import TransactionCoordinator.

(** ** Shards *)

(** Where a shard stands in the transaction. *)
Inductive Standing :=
  | Active
  | PreparedAt (t : Timestamp.t)
  | CommittedAt (commitTimestamp : Timestamp.t)
  | AbortedHere.

(** What a shard may do before it is told the decision. *)
Definition advances (s s' : Standing) : Prop := s' = s ∨ (s = Active ∧ ∀ ct, s' ≠ CommittedAt ct).

Class Participant (P : Type) := {
  standing : P → Standing;
  participantOk : P → Prop;
  (** Whatever happens to it but the coordinator's commands. *)
  acts : P → P → Prop;
  (** It runs a command and replies. *)
  answers : ShardCommand → P → P → RemoteReply → Prop
}.

Class ParticipantLaws (P : Type) `{Participant P} : Prop := {
  acts_ok : ∀ p p' : P, participantOk p → acts p p' → participantOk p';
  answers_ok : ∀ cmd (p p' : P) r, participantOk p → answers cmd p p' r → participantOk p';
  acts_advances : ∀ p p' : P, participantOk p → acts p p' → advances (standing p) (standing p');
  prepare_advances : ∀ (p p' : P) r, participantOk p → answers PrepareCmd p p' r →
    advances (standing p) (standing p');
  prepare_prepared : ∀ (p p' : P) r t, participantOk p → answers PrepareCmd p p' r →
    replyStatus r = None → reply_prepareTimestamp r = Some t → standing p' = PreparedAt t;
  commit_commits : ∀ ct (p p' : P) r, participantOk p → answers (CommitCmd ct) p p' r →
    advances (standing p) (standing p') ∨
    ∃ t, standing p = PreparedAt t ∧ Timestamp.lt ct t = false ∧ standing p' = CommittedAt ct;
  abort_aborts : ∀ (p p' : P) r, participantOk p → answers AbortCmd p p' r →
    advances (standing p) (standing p') ∨
    ∃ t, standing p = PreparedAt t ∧ standing p' = AbortedHere
}.

(** ** The network *)

(** The document as of an entry of the coordinating shard's oplog. *)
Definition Version : Type := OpTime.t * option TransactionCoordinatorDocument.

Record Net (P : Type) := mkNet {
  shards : ShardId → P;
  term : Z;
  coordinators : gmap Z Coordinator;
  documents : list Version;
  majority : nat;
  written : list Version;
  sent : list (ShardId * ShardCommand);
  replies : list (ShardId * ShardCommand * RemoteReply)
}.
Arguments mkNet {P}.
Arguments shards {P}.
Arguments term {P}.
Arguments coordinators {P}.
Arguments documents {P}.
Arguments majority {P}.
Arguments written {P}.
Arguments sent {P}.
Arguments replies {P}.

Section Net.
Context {P : Type} `{!Participant P}.
Context (PS : list ShardId) (localShard : ShardId).
Implicit Types (n : Net P).

(** What a coordinator's chain may meet next, but for its writes. *)
Inductive Event :=
  | RunCommit | Cancel | Deadline | StepsDown
  | ListFailed (e : ErrorCode)
  | ListMajority (r clusterTime : Status)
  | PrepareReply (s : ShardId) (r : RemoteReply + ErrorCode) (clusterTime : Status)
  | DecisionFailed (e : ErrorCode)
  | DecisionMajority (r : Status)
  | DecisionReply (s : ShardId) (r : RemoteReply + ErrorCode)
  | DeleteFailed (e : ErrorCode).

Definition handle (ev : Event) : Coordinator → option Coordinator :=
  match ev with
  | RunCommit => runCommit PS
  | Cancel => cancelIfCommitNotYetStarted
  | Deadline => deadlineReached
  | StepsDown => steppedDown
  | ListFailed e => onParticipantListWrite (inr e)
  | ListMajority r ct => onParticipantListMajority r ct
  | PrepareReply s r ct => onPrepareResponse (bool_decide (s = localShard)) s r ct
  | DecisionFailed e => onDecisionWrite (inr e)
  | DecisionMajority r => onDecisionMajority r
  | DecisionReply s r => onDecisionAck s r
  | DeleteFailed e => onDelete (inr e)
  end.

(** An oplog position is majority committed. *)
Definition committedAt n (t : OpTime.t) : Prop :=
  OpTime.isNull t = true ∨ ∃ i v, (i < majority n)%nat ∧ documents n !! i = Some (t, v).

(** The shard registry does not know the shard, or the shard itself says so. *)
Definition notFound (r : RemoteReply + ErrorCode) : bool :=
  match r with
  | inr e => bool_decide (e = ShardNotFound)
  | inl reply => bool_decide (replyStatus reply = Some ShardNotFound)
  end.

(** The events at which the code stops the server: the coordinating shard is not found when it is asked to
    prepare, or any participant when it is sent the decision. *)
Definition fatal (c : Coordinator) (ev : Event) : bool :=
  match ev, waiting c with
  | PrepareReply s r _, ForVotes out _ _ => bool_decide (s ∈ out) && bool_decide (s = localShard) && notFound r
  | DecisionReply s r, ForDecisionAcks out _ => bool_decide (s ∈ out) && notFound r
  | _, _ => false
  end.

(** The wait for a majority succeeds when the position is committed, and replies without an error
    are those of the shards. *)
Definition possible n (c : Coordinator) (ev : Event) : Prop :=
  match ev with
  | ListMajority None _ => ∀ t, waiting c = ForParticipantListMajority t → committedAt n t
  | ListMajority (Some e) _ => e ≠ TransactionCoordinatorReachedAbortDecision
  | DecisionMajority None => ∀ t, waiting c = ForDecisionMajority t → committedAt n t
  | PrepareReply s r _ => ∀ reply, r = inl reply → replyStatus reply = None → (s, PrepareCmd, reply) ∈ replies n
  | _ => True
  end.

(** The three writes of a coordinator, and what its chain does once one was made. *)
Inductive DocumentWrite (c : Coordinator) (doc : option TransactionCoordinatorDocument) (t : OpTime.t) :
    option TransactionCoordinatorDocument → (Coordinator → option Coordinator) →
    (ErrorCode → Coordinator → option Coordinator) → Prop :=
  | writes_list ps doc' :
      waiting c = ForParticipantListWrite → _participants c = Some ps →
      persistParticipantListBlocking ps doc = inl doc' →
      DocumentWrite c doc t doc' (onParticipantListWrite (inl t)) (λ e, onParticipantListWrite (inr e))
  | writes_decision ps d doc' :
      waiting c = ForDecisionWrite → _participants c = Some ps → _decision c = Some d →
      persistDecisionBlocking ps d doc = inl doc' →
      DocumentWrite c doc t doc' (onDecisionWrite (inl t)) (λ e, onDecisionWrite (inr e))
  | writes_delete doc' :
      waiting c = ForDelete → deleteCoordinatorDocBlocking doc = inl doc' →
      DocumentWrite c doc t doc' (onDelete (inl tt)) (λ e, onDelete (inr e)).

Definition latest (l : list Version) : option TransactionCoordinatorDocument := last l ≫= snd.

Definition withShard (s : ShardId) (p : P) n : Net P :=
  mkNet (<[s := p]> (shards n)) (term n) (coordinators n) (documents n) (majority n) (written n)
    (sent n) (replies n).
Definition withReply (s : ShardId) (cmd : ShardCommand) (r : RemoteReply) n : Net P :=
  mkNet (shards n) (term n) (coordinators n) (documents n) (majority n) (written n) (sent n)
    ((s, cmd, r) :: replies n).
Definition withSent (s : ShardId) (cmd : ShardCommand) n : Net P :=
  mkNet (shards n) (term n) (coordinators n) (documents n) (majority n) (written n)
    ((s, cmd) :: sent n) (replies n).
Definition withCoordinator (T : Z) (c : Coordinator) n : Net P :=
  mkNet (shards n) (term n) (<[T := c]> (coordinators n)) (documents n) (majority n) (written n)
    (sent n) (replies n).
Definition withVersion (v : Version) n : Net P :=
  mkNet (shards n) (term n) (coordinators n) (documents n ++ [v]) (majority n) (v :: written n)
    (sent n) (replies n).
(** A primary that was superseded writes to an oplog of its own. *)
Definition withStale (v : Version) n : Net P :=
  mkNet (shards n) (term n) (coordinators n) (documents n) (majority n) (v :: written n)
    (sent n) (replies n).
Definition withMajority (m : nat) n : Net P :=
  mkNet (shards n) (term n) (coordinators n) (documents n) m (written n) (sent n) (replies n).
(** A new primary, whose oplog ends after the first [k] versions. *)
Definition withPrimary (T : Z) (k : nat) n : Net P :=
  mkNet (shards n) T (coordinators n) (take k (documents n)) (majority n) (written n) (sent n)
    (replies n).

Inductive step n : Net P → Prop :=
  | step_acts s p : acts (shards n s) p → step n (withShard s p n)
  | step_send T c s cmd :
      coordinators n !! T = Some c → sends c s = Some cmd → step n (withSent s cmd n)
  | step_deliver s cmd p r :
      (s, cmd) ∈ sent n → answers cmd (shards n s) p r →
      step n (withReply s cmd r (withShard s p n))
  | step_event T c ev c' :
      coordinators n !! T = Some c → possible n c ev → handle ev c = Some c' →
      step n (withCoordinator T c' n)
  | step_write c t doc k kf r c' :
      coordinators n !! term n = Some c → DocumentWrite c (latest (documents n)) t doc k kf →
      OpTime.isNull t = false → t ∉ (written n).*1 →
      (** The write is made, and the coordinator may learn of an error all the same. *)
      match r with None => k | Some e => kf e end c = Some c' →
      step n (withCoordinator (term n) c' (withVersion (t, doc) n))
  | step_stale_write T c doc0 t doc k kf r c' :
      T < term n → coordinators n !! T = Some c → DocumentWrite c doc0 t doc k kf →
      OpTime.isNull t = false → t ∉ (written n).*1 →
      match r with None => k | Some e => kf e end c = Some c' →
      step n (withCoordinator T c' (withStale (t, doc) n))
  | step_majority m :
      (majority n <= m)%nat → (m <= length (documents n))%nat → step n (withMajority m n)
  | step_primary T k :
      term n < T → (majority n <= k)%nat → step n (withPrimary T k n)
  | step_recover doc c :
      coordinators n !! term n = None → majority n = length (documents n) →
      latest (documents n) = Some doc → continueCommit doc newCoordinator = Some c →
      step n (withCoordinator (term n) c n).

(** The first primary has a coordinator, and nothing was written. *)
Record initialNet n : Prop := {
  in_shards : ∀ s, participantOk (shards n s) ∧ standing (shards n s) = Active;
  in_coordinators : coordinators n = {[ term n := newCoordinator ]};
  in_documents : documents n = [];
  in_majority : majority n = 0%nat;
  in_written : written n = [];
  in_sent : sent n = [];
  in_replies : replies n = []
}.

Definition reachableNet n : Prop := ∃ n0, initialNet n0 ∧ rtc step n0 n.
End Net.
