(* ===== verification/TwoPhaseInv.v ===== *)
(** What holds of the network of two-phase commit in every reachable state: a decision that is
    in the replicated document is never changed or lost, whatever primaries follow each other,
    and only such a decision is sent. *)
From stdpp Require Import gmap.
From S2P Require Import Prelude OpTimes TransactionState TransactionCoordinator CoordinatorInv TwoPhaseCommit.
Import TransactionCoordinator.

Lemma NoDup_fst_unique {A B} (l : list (A * B)) a b b' :
  NoDup l.*1 → (a, b) ∈ l → (a, b') ∈ l → b = b'.
Proof.
  induction l as [|[x y] l IH]; simpl; [by intros _ ?%not_elem_of_nil|].
  intros [Hx Hl]%NoDup_cons Hb Hb'. apply elem_of_cons in Hb, Hb'.
  destruct Hb as [[= <- <-]|Hb], Hb' as [[= Heq]|Hb']; subst; try done.
  - destruct Hx. apply list_elem_of_fmap. by exists (a, b').
  - destruct Hx. apply list_elem_of_fmap. by exists (x, b).
  - by apply IH.
Qed.

Section Inv.
Context {P : Type} `{!Participant P}.
Context (PS : list ShardId) (localShard : ShardId).
Implicit Types (n : Net P).

(** A shard that was prepared not later than the given timestamp, and of which only a decision
    has made something else since. *)
Definition voted n (s : ShardId) (t : Timestamp.t) : Prop :=
  match standing (shards n s) with
  | Active => False
  | PreparedAt t' => t' = t
  | CommittedAt ct => Timestamp.lt ct t = false
  | AbortedHere => ∃ s', (s', AbortCmd) ∈ sent n
  end.

Definition durable n (d : option CoordinatorCommitDecision) : Prop :=
  ∃ i t doc, (i < majority n)%nat ∧ documents n !! i = Some (t, Some doc) ∧ doc_decision doc = d.

Definition wrote n (t : OpTime.t) (d : option CoordinatorCommitDecision) : Prop :=
  ∃ doc, (t, Some doc) ∈ written n ∧ doc_decision doc = d.

(** A command is sent only for what is durable. *)
Definition sentOk n (cmd : ShardCommand) : Prop :=
  match cmd with
  | PrepareCmd => durable n None
  | CommitCmd ct => ∃ d, durable n (Some d) ∧ decision d = kCommit ∧ commitTimestamp d = Some ct
  | AbortCmd => ∃ d, durable n (Some d) ∧ decision d = kAbort
  end.

Definition CoordinatorOk n : Coordinator → Prop := Inv PS (voted n) (durable n) (wrote n).

(** Once a decision was written, later versions of the document have it too. *)
Definition decisionKept (docs : list Version) : Prop :=
  ∀ i j t t' doc doc' d, (i <= j)%nat → docs !! i = Some (t, Some doc) → doc_decision doc = Some d →
    docs !! j = Some (t', Some doc') → doc_decision doc' = Some d.

(** The coordinator of the current primary knows of it. *)
Definition knowsDecision (docs : list Version) (c : Coordinator) : Prop :=
  ∀ t doc d, (t, Some doc) ∈ docs → doc_decision doc = Some d →
    waiting c = ForNothing ∨ _decision c = Some d.

Record VersionsOk n : Prop := {
  vs_written : ∀ v, v ∈ documents n → v ∈ written n;
  vs_optimes : NoDup (written n).*1;
  vs_positions : ∀ v, v ∈ written n → OpTime.isNull v.1 = false;
  vs_majority : (majority n <= length (documents n))%nat;
  vs_kept : decisionKept (documents n);
  vs_docs : ∀ t doc, (t, Some doc) ∈ written n → doc_participants doc = PS ∧
    ∀ d, doc_decision doc = Some d → justified PS (voted n) d;
  vs_deleted : ∀ t, (t, None) ∈ written n → ∃ d, durable n (Some d)
}.

Record NetInv n : Prop := {
  ni_ok : ∀ s, participantOk (shards n s);
  ni_terms : ∀ T c, coordinators n !! T = Some c → T <= term n;
  ni_coordinators : ∀ T c, coordinators n !! T = Some c → CoordinatorOk n c;
  ni_versions : VersionsOk n;
  ni_current : ∀ c, coordinators n !! term n = Some c → knowsDecision (documents n) c;
  ni_sent : ∀ s cmd, (s, cmd) ∈ sent n → sentOk n cmd;
  ni_committed : ∀ s ct, standing (shards n s) = CommittedAt ct → (s, CommitCmd ct) ∈ sent n;
  ni_replies : ∀ s r t, (s, PrepareCmd, r) ∈ replies n → replyStatus r = None →
    reply_prepareTimestamp r = Some t → voted n s t
}.

(** ** What is known only grows *)

Record grows n n' : Prop := {
  g_voted : ∀ s t, voted n s t → voted n' s t;
  g_durable : ∀ d, durable n d → durable n' d;
  g_wrote : ∀ t d, wrote n t d → wrote n' t d
}.

Lemma grows_coordinator n n' c : grows n n' → CoordinatorOk n c → CoordinatorOk n' c.
Proof. intros [Hv Hd Hw]. apply Inv_mono; auto. Qed.

Lemma grows_justified n n' d : grows n n' → justified PS (voted n) d → justified PS (voted n') d.
Proof.
  intros [Hv _ _]. unfold justified. destruct (decision d); [|done].
  intros (ct & Hct & Hall). exists ct. split; [done|]. intros s Hs. naive_solver.
Qed.

Lemma grows_sent n n' cmd : grows n n' → sentOk n cmd → sentOk n' cmd.
Proof. intros [_ Hd _]. destruct cmd; simpl; naive_solver. Qed.

(** A position that is committed is that of what was written there. *)
Lemma wrote_durable n t d : VersionsOk n → wrote n t d → committedAt n t → durable n d.
Proof.
  intros Hv (doc & Hin & Hd) [Hn|(i & v & Hi & Hv')].
  - pose proof (vs_positions n Hv _ Hin). simpl in *. congruence.
  - assert (v = Some doc) as ->.
    { eapply (NoDup_fst_unique (written n)); [apply Hv| |done].
      apply (vs_written n Hv). by eapply list_elem_of_lookup_2. }
    by exists i, t, doc.
Qed.

(** Decisions that are durable agree. *)
Lemma durable_agree n d d' : VersionsOk n → durable n (Some d) → durable n (Some d') → d = d'.
Proof.
  intros Hv (i & t & doc & _ & Hi & Hd) (j & t' & doc' & _ & Hj & Hd').
  pose proof (vs_kept n Hv) as Hk. destruct (decide (i <= j)%nat).
  - pose proof (Hk i j t t' doc doc' d ltac:(done) Hi Hd Hj). congruence.
  - pose proof (Hk j i t' t doc' doc d' ltac:(lia) Hj Hd' Hi). congruence.
Qed.

(** ** Events of a coordinator *)

(** A reply that is not fatal is as the coordinator's steps need it. *)
Lemma notFound_false r :
  notFound r = false → r ≠ inr ShardNotFound ∧ ∀ reply, r = inl reply → replyStatus reply ≠ Some ShardNotFound.
Proof.
  destruct r as [reply|e]; simpl; intros Hx%bool_decide_eq_false; split; congruence.
Qed.

Lemma handle_ok n c ev :
  NetInv n → CoordinatorOk n c → possible n c ev → fatal localShard c ev = false →
  goesWell PS (voted n) (durable n) (wrote n) c (handle PS localShard ev c).
Proof.
  intros Hn Hc Hp Hf. pose proof (ni_versions n Hn) as Hv.
  destruct ev as [| | | |e|[e|] ct|s r ct|e|[e|]|s r|e]; simpl in *.
  - by apply runCommit_ok.
  - by apply cancel_ok.
  - by apply deadlineReached_ok.
  - by apply steppedDown_ok.
  - by apply onParticipantListWrite_ok.
  - apply onParticipantListMajority_ok; [done|congruence|done].
  - apply onParticipantListMajority_ok; [done|done|]. intros t Hw _ Hwr.
    eapply wrote_durable; eauto.
  - destruct (waiting c) as [| | |out cns st| | | | |] eqn:Hw;
      try (unfold onPrepareResponse; rewrite Hw; by apply goesWell_same).
    case_bool_decide as Hin; simpl in Hf.
    2: { unfold onPrepareResponse. rewrite Hw, bool_decide_eq_false_2 by done. by apply goesWell_same. }
    apply onPrepareResponse_ok; [done| |].
    + intros Hl. rewrite Hl in Hf. by apply notFound_false.
    + intros reply t -> Hst Ht. eapply (ni_replies n Hn); eauto.
  - by apply onDecisionWrite_ok.
  - by apply onDecisionMajority_ok.
  - apply onDecisionMajority_ok; [done|]. intros t d Hw _ Hwr. eapply wrote_durable; eauto.
  - destruct (waiting c) as [| | | | | |out st| |] eqn:Hw;
      try (unfold onDecisionAck; rewrite Hw; by apply goesWell_same).
    case_bool_decide as Hin; simpl in Hf.
    2: { unfold onDecisionAck. rewrite Hw, bool_decide_eq_false_2 by done. by apply goesWell_same. }
    destruct (notFound_false r Hf). by apply onDecisionAck_ok.
  - by apply onDelete_ok.
Qed.

Lemma notFound_true r :
  notFound r = true → r = inr ShardNotFound ∨ ∃ reply, r = inl reply ∧ replyStatus reply = Some ShardNotFound.
Proof.
  destruct r as [reply|e]; simpl; intros Hx%bool_decide_eq_true; [right; by exists reply|left; congruence].
Qed.

(** The server stops at a fatal event. *)
Lemma fatal_dies c ev : fatal localShard c ev = true → handle PS localShard ev c = None.
Proof.
  destruct ev as [| | | |e|r ct|s r ct|e|r|s r|e]; try done; simpl.
  - unfold onPrepareResponse. destruct (waiting c); try done.
    intros [[Hs Hl]%andb_true_iff Hr]%andb_true_iff. rewrite Hs, Hl. simpl. unfold prepareTurn.
    by destruct (notFound_true r Hr) as [->|(reply & -> & Hst)]; simpl; rewrite ?Hst.
  - unfold onDecisionAck. destruct (waiting c); try done.
    intros [Hs Hr]%andb_true_iff. rewrite Hs. simpl. unfold decisionTurn, decisionAttempt.
    by destruct (notFound_true r Hr) as [->|(reply & -> & Hst)]; simpl; rewrite ?Hst.
Qed.

(** A chain that has ended stays so. *)
Lemma kickOff_ended k c c' :
  _kickOffCommitPromiseSet c = true → kickOff k c = Some c' → c' = c.
Proof. intros Hk. unfold kickOff. rewrite Hk. by intros [= ->]. Qed.

Lemma handle_ended c ev c' :
  _kickOffCommitPromiseSet c = true → waiting c = ForNothing →
  handle PS localShard ev c = Some c' → waiting c' = ForNothing.
Proof.
  intros Hk Hw. destruct ev; simpl.
  - by intros ->%kickOff_ended.
  - by intros ->%kickOff_ended.
  - unfold deadlineReached. case_bool_decide; [by intros [= <-]|].
    destruct (cancelIfCommitNotYetStarted c) as [c1|] eqn:Hc; [|done].
    apply kickOff_ended in Hc as ->; [|done]. by intros [= <-].
  - unfold steppedDown. intros Hs. apply kickOff_ended in Hs as ->; done.
  - unfold onParticipantListWrite. rewrite Hw. by intros [= <-].
  - unfold onParticipantListMajority. rewrite Hw. by intros [= <-].
  - unfold onPrepareResponse. rewrite Hw. by intros [= <-].
  - unfold onDecisionWrite. rewrite Hw. by intros [= <-].
  - unfold onDecisionMajority. rewrite Hw. by intros [= <-].
  - unfold onDecisionAck. rewrite Hw. by intros [= <-].
  - unfold onDelete. rewrite Hw. by intros [= <-].
Qed.

(** What a write leaves in the document. *)
Inductive Written (c : Coordinator) : option TransactionCoordinatorDocument → Prop :=
  | written_list :
      waiting c = ForParticipantListWrite → _decision c = None → Written c (Some (mkDoc PS None))
  | written_decision d :
      waiting c = ForDecisionWrite → _decision c = Some d → Written c (Some (mkDoc PS (Some d)))
  | written_delete : waiting c = ForDelete → Written c None.

Lemma DocumentWrite_Written n c doc0 t doc k kf :
  CoordinatorOk n c → DocumentWrite c doc0 t doc k kf → Written c doc.
Proof.
  unfold CoordinatorOk, Inv. intros Hc [ps doc' Hw Hps Hp|ps d doc' Hw Hps Hd Hp|doc' Hw Hp];
    rewrite Hw in Hc.
  - destruct Hc as (_ & [_ Hps'] & Hdec). assert (ps = PS) as -> by congruence.
    unfold persistParticipantListBlocking in Hp.
    destruct doc0; [destruct (participantListMatches _ _)|]; simplify_eq; by constructor.
  - destruct Hc as (_ & [_ Hps'] & _). assert (ps = PS) as -> by congruence.
    unfold persistDecisionBlocking in Hp.
    destruct doc0; [destruct (_ && _)|]; simplify_eq; by constructor.
  - unfold deleteCoordinatorDocBlocking in Hp.
    destruct doc0; [case_bool_decide|]; simplify_eq; by constructor.
Qed.

Lemma DocumentWrite_ok voted' durable' wrote' c doc0 t doc k kf r :
  Inv PS voted' durable' wrote' c → DocumentWrite c doc0 t doc k kf →
  (∀ d, doc = Some (mkDoc PS d) → wrote' t d) →
  goesWell PS voted' durable' wrote' c (match r with None => k | Some e => kf e end c).
Proof.
  intros Hc Hwr Hnew. destruct Hwr as [ps doc' Hw Hps Hp|ps d doc' Hw Hps Hd Hp|doc' Hw Hp];
    pose proof Hc as Hc'; unfold Inv in Hc'; rewrite Hw in Hc'.
  - destruct Hc' as (_ & [_ Hps'] & Hdec). assert (ps = PS) as -> by congruence.
    destruct r as [e|]; [by apply onParticipantListWrite_ok|].
    apply onParticipantListWrite_ok; [done|]. intros t' [= <-]. apply Hnew.
    unfold persistParticipantListBlocking in Hp. by destruct doc0; [destruct (participantListMatches _ _)|]; simplify_eq.
  - destruct Hc' as (_ & [_ Hps'] & _). assert (ps = PS) as -> by congruence.
    destruct r as [e|]; [by apply onDecisionWrite_ok|].
    apply onDecisionWrite_ok; [done|]. intros t' d' [= <-] Hd'. assert (d' = d) as -> by congruence.
    apply Hnew. unfold persistDecisionBlocking in Hp. by destruct doc0; [destruct (_ && _)|]; simplify_eq.
  - destruct r; by apply onDelete_ok.
Qed.

(** ** Steps of the network *)

(** The changes but for those of the shards and the coordinators. *)
Lemma VersionsOk_grows n n' :
  VersionsOk n → grows n n' → documents n' = documents n → written n' = written n →
  majority n' = majority n → VersionsOk n'.
Proof.
  intros [H1 H2 H3 H4 H5 H6 H7] Hg E1 E2 E3. split; rewrite ?E1, ?E2, ?E3; try done.
  - intros t doc Hin. destruct (H6 t doc Hin) as [Hps Hj]. split; [done|].
    intros d Hd. by apply (grows_justified n); auto.
  - intros t Hin. destruct (H7 t Hin) as [d Hd]. exists d. by apply (g_durable _ _ Hg).
Qed.

(** A coordinator goes on. *)
Lemma withCoordinator_ok n T c c' :
  NetInv n → coordinators n !! T = Some c → CoordinatorOk n c' → keepsDecision c c' →
  (waiting c = ForNothing → waiting c' = ForNothing) →
  NetInv (withCoordinator T c' n).
Proof.
  intros [H1 H2 H3 H4 H5 H6 H7 H8] Hc Hok Hk He. split; try done.
  - intros T' c1. simpl. intros [[<- _]|[_ ?]]%lookup_insert_Some; eauto.
  - intros T' c1. simpl. intros [[_ <-]|[_ ?]]%lookup_insert_Some; [done|by eapply (H3 T')].
  - destruct H4; by split.
  - intros c1. simpl. intros [[-> <-]|[_ ?]]%lookup_insert_Some; [|by apply H5].
    intros t doc d Hin Hd. destruct (H5 c Hc t doc d Hin Hd) as [Hw|Hdec]; [left; by apply He|].
    by apply Hk.
Qed.

Lemma event_ok n T c ev c' :
  NetInv n → coordinators n !! T = Some c → possible n c ev →
  handle PS localShard ev c = Some c' → NetInv (withCoordinator T c' n).
Proof.
  intros Hn Hc Hp Hh. pose proof (ni_coordinators n Hn T c Hc) as Hok.
  destruct (fatal localShard c ev) eqn:Hf; [apply fatal_dies in Hf; congruence|].
  destruct (handle_ok n c ev Hn Hok Hp Hf) as (c1 & Hc1 & Hi1 & Hk1).
  assert (c1 = c') as -> by congruence. apply (withCoordinator_ok n T c); auto.
  intros Hw. eapply handle_ended; eauto. unfold CoordinatorOk, Inv in Hok. rewrite Hw in Hok. apply Hok.
Qed.

(** A coordinator dies of the fatal events alone. *)
Lemma event_lives n T c ev :
  NetInv n → coordinators n !! T = Some c → possible n c ev → fatal localShard c ev = false →
  is_Some (handle PS localShard ev c).
Proof.
  intros Hn Hc Hp Hf. destruct (handle_ok n c ev Hn (ni_coordinators n Hn T c Hc) Hp Hf) as (c1 & -> & _).
  by eexists.
Qed.

(** *** DocumentWrite *)

Lemma withStale_grows n v : grows n (withStale v n).
Proof.
  split; try done. intros t d (doc & Hin & Hd). exists doc. split; [|done]. simpl. by right.
Qed.

Lemma withStale_versions n c t doc :
  VersionsOk n → CoordinatorOk n c → Written c doc → OpTime.isNull t = false → t ∉ (written n).*1 →
  VersionsOk (withStale (t, doc) n).
Proof.
  intros [H1 H2 H3 H4 H5 H6 H7] Hc Hw Ht Hnew. split; simpl; try done.
  - intros v Hv. right. auto.
  - by apply NoDup_cons.
  - intros v [->|Hv]%elem_of_cons; auto.
  - intros t' doc' [[= -> <-]|Hin]%elem_of_cons; [|by apply (H6 t')].
    unfold CoordinatorOk, Inv in Hc. inversion Hw as [Hwt Hd|d Hwt Hd|]; subst; simpl.
    + split; [done|]. by intros d.
    + rewrite Hwt in Hc. destruct Hc as (_ & _ & d' & Hd' & Hj & _). split; [done|].
      intros d1 [= <-]. by assert (d = d') as -> by congruence.
  - intros t' [[= -> <-]|Hin]%elem_of_cons; [|by apply (H7 t')].
    unfold CoordinatorOk, Inv in Hc. inversion Hw as [| |Hwt]. rewrite Hwt in Hc.
    destruct Hc as (_ & _ & _ & _ & (d & _ & _ & Hd) & _). by exists d.
Qed.

Lemma withStale_ok n c t doc :
  NetInv n → CoordinatorOk n c → Written c doc → OpTime.isNull t = false → t ∉ (written n).*1 →
  NetInv (withStale (t, doc) n).
Proof.
  intros [H1 H2 H3 H4 H5 H6 H7 H8] Hc Hw Ht Hnew. split; try done.
  - intros T c1 Hc1. apply (grows_coordinator n); [apply withStale_grows|by eapply H3].
  - by eapply withStale_versions.
Qed.

Lemma decisionKept_snoc docs c t doc :
  decisionKept docs → knowsDecision docs c → Written c doc → decisionKept (docs ++ [(t, doc)]).
Proof.
  intros Hk Hc Hw i j t1 t2 doc1 doc2 d Hij Hi Hd Hj.
  apply lookup_app_Some in Hi as [Hi|[Hlen Hi]].
  - apply lookup_app_Some in Hj as [Hj|[_ Hj]]; [by eapply Hk|].
    apply list_lookup_singleton_Some in Hj as [_ [= <- ->]].
    assert (Hin : (t1, Some doc1) ∈ docs) by (by eapply list_elem_of_lookup_2).
    destruct (Hc _ _ _ Hin Hd) as [Hx|Hx]; inversion Hw; subst; simpl in *; congruence.
  - apply list_lookup_singleton_Some in Hi as [Hi [= <- ->]].
    rewrite lookup_app_r in Hj by lia. apply list_lookup_singleton_Some in Hj as [_ [= <- ->]]. done.
Qed.

Lemma knowsDecision_snoc docs c t doc :
  knowsDecision docs c → Written c doc → knowsDecision (docs ++ [(t, doc)]) c.
Proof.
  intros Hc Hw t1 doc1 d [Hin|Hin]%elem_of_app Hd; [by eapply Hc|].
  apply list_elem_of_singleton in Hin as [= -> <-]. right. inversion Hw; subst; simpl in *; congruence.
Qed.

Lemma withVersion_grows n v : (majority n <= length (documents n))%nat → grows n (withVersion v n).
Proof.
  intros Hm. split; try done.
  - intros d (i & t & doc & Hi & Hl & Hd). exists i, t, doc. split_and!; [done| |done].
    simpl. rewrite lookup_app_l; [done|]. by eapply lookup_lt_Some.
  - intros t d (doc & Hin & Hd). exists doc. split; [|done]. simpl. by right.
Qed.

Lemma withVersion_ok n c t doc :
  NetInv n → coordinators n !! term n = Some c → Written c doc → OpTime.isNull t = false →
  t ∉ (written n).*1 → NetInv (withVersion (t, doc) n).
Proof.
  intros Hn Hc Hw Ht Hnew. pose proof (ni_coordinators n Hn _ _ Hc) as Hok.
  pose proof (ni_current n Hn _ Hc) as Hcur. pose proof (ni_versions n Hn) as Hv.
  assert (Hg : grows n (withVersion (t, doc) n)) by apply withVersion_grows, Hv.
  destruct (withStale_versions n c t doc Hv Hok Hw Ht Hnew) as [V1 V2 V3 V4 V5 V6 V7].
  destruct Hn as [H1 H2 H3 H4 H5 H6 H7 H8]. split; try done.
  - intros T c1 Hc1. apply (grows_coordinator n); [done|by eapply H3].
  - split; try done; simpl.
    + intros v [Hin|Hin]%elem_of_app; [right; by apply H4|]. apply list_elem_of_singleton in Hin as ->. by left.
    + rewrite length_app. simpl in *. lia.
    + by apply (decisionKept_snoc _ c).
    + intros t' Hin. destruct (V7 t' Hin) as [d Hd]. exists d. by apply (g_durable _ _ Hg).
  - intros c1 Hc1. simpl in *. assert (c1 = c) as -> by congruence. by apply knowsDecision_snoc.
  - intros s cmd Hin. apply (grows_sent n); [done|by eapply H6].
Qed.

(** A write, then the coordinator goes on. *)
Lemma write_ok n n' T c doc0 t doc k kf r c' :
  CoordinatorOk n c → DocumentWrite c doc0 t doc k kf → NetInv n' → coordinators n' !! T = Some c →
  (∀ d, doc = Some (mkDoc PS d) → wrote n' t d) →
  match r with None => k | Some e => kf e end c = Some c' →
  NetInv (withCoordinator T c' n').
Proof.
  intros Hok Hw Hn' Hc Hnew Hk.
  pose proof (ni_coordinators n' Hn' T c Hc) as Hok'.
  destruct (DocumentWrite_ok _ _ _ c doc0 t doc k kf r Hok' Hw Hnew) as (c1 & Hc1 & Hi1 & Hk1).
  assert (c1 = c') as -> by congruence. apply (withCoordinator_ok n' T c); auto.
  intros Hwait. destruct (DocumentWrite_Written n c doc0 t doc k kf Hok Hw); congruence.
Qed.

Lemma wrote_new n t doc n' :
  written n' = (t, doc) :: written n → ∀ d, doc = Some (mkDoc PS d) → wrote n' t d.
Proof. intros Hw d ->. exists (mkDoc PS d). rewrite Hw. split; [by left|done]. Qed.

(** *** Shards *)

Lemma withShard_grows s p n :
  (standing (shards n s) ≠ Active → standing p = standing (shards n s)) ∨
  (∃ t, standing (shards n s) = PreparedAt t ∧
     ((∃ ct, Timestamp.lt ct t = false ∧ standing p = CommittedAt ct) ∨
      (standing p = AbortedHere ∧ (s, AbortCmd) ∈ sent n))) →
  grows n (withShard s p n).
Proof.
  intros Hp. split; try done. intros s' t. unfold voted. simpl.
  destruct (decide (s' = s)) as [->|Hne]; [|by rewrite fn_lookup_insert_ne].
  rewrite fn_lookup_insert.
  destruct Hp as [Hp|(t0 & Hs & [(ct & Hlt & Hp)|[Hp Hin]])].
  - destruct (standing (shards n s)); try done; by rewrite Hp.
  - rewrite Hs, Hp. by intros ->.
  - rewrite Hs, Hp. intros _. by exists s.
Qed.

Lemma withShard_ok s p n :
  NetInv n → participantOk p → grows n (withShard s p n) →
  (∀ ct, standing p = CommittedAt ct →
     standing (shards n s) = CommittedAt ct ∨ (s, CommitCmd ct) ∈ sent n) →
  NetInv (withShard s p n).
Proof.
  intros [H1 H2 H3 H4 H5 H6 H7 H8] Hok Hg Hc. split; try done.
  - intros s'. simpl. destruct (decide (s' = s)) as [->|Hne]; [by rewrite fn_lookup_insert|].
    by rewrite fn_lookup_insert_ne.
  - intros T c Hco. apply (grows_coordinator n); [done|by eapply H3].
  - by apply (VersionsOk_grows n).
  - intros s' ct. simpl. destruct (decide (s' = s)) as [->|Hne].
    + rewrite fn_lookup_insert. intros Hs. destruct (Hc ct Hs); auto.
    + rewrite fn_lookup_insert_ne by done. apply H7.
  - intros s' r t Hin Hst Hr. apply (g_voted _ _ Hg). by eapply H8.
Qed.

Context `{!ParticipantLaws P}.

Lemma advances_withShard s p n :
  NetInv n → participantOk p → advances (standing (shards n s)) (standing p) →
  NetInv (withShard s p n).
Proof.
  intros Hn Hok Ha. apply withShard_ok; [done..| |].
  - apply withShard_grows. left. intros Hs. by destruct Ha as [?|[? _]].
  - intros ct Hct. destruct Ha as [Ha|[_ Hx]]; [left; congruence|by destruct (Hx ct)].
Qed.

Lemma deliver_shard s cmd p r n :
  NetInv n → (s, cmd) ∈ sent n → answers cmd (shards n s) p r → NetInv (withShard s p n).
Proof.
  intros Hn Hin Ha. pose proof (ni_ok n Hn s) as Hok.
  pose proof (answers_ok cmd _ _ _ Hok Ha) as Hok'. destruct cmd as [|ct|].
  - apply advances_withShard; [done..|]. by eapply prepare_advances.
  - destruct (commit_commits ct _ _ _ Hok Ha) as [?|(t & Hs & Hlt & Hs')]; [by apply advances_withShard|].
    apply withShard_ok; [done..| |].
    + apply withShard_grows. right. exists t. eauto.
    + intros ct' Hct'. right. assert (ct' = ct) as -> by congruence. done.
  - destruct (abort_aborts _ _ _ Hok Ha) as [?|(t & Hs & Hs')]; [by apply advances_withShard|].
    apply withShard_ok; [done..| |].
    + apply withShard_grows. right. exists t. eauto.
    + congruence.
Qed.

Lemma withReply_ok s cmd r n :
  NetInv n →
  (cmd = PrepareCmd → ∀ t, replyStatus r = None → reply_prepareTimestamp r = Some t → voted n s t) →
  NetInv (withReply s cmd r n).
Proof.
  intros [H1 H2 H3 H4 H5 H6 H7 H8] Hr. split; try done; [by destruct H4|].
  intros s' r' t [[= -> <- ->]|Hin]%elem_of_cons Hst Ht; [by apply Hr|by eapply H8].
Qed.

Lemma deliver_ok s cmd p r n :
  NetInv n → (s, cmd) ∈ sent n → answers cmd (shards n s) p r →
  NetInv (withReply s cmd r (withShard s p n)).
Proof.
  intros Hn Hin Ha. apply withReply_ok; [by eapply deliver_shard|]. intros -> t Hst Ht.
  unfold voted. simpl. rewrite fn_lookup_insert.
  by rewrite (prepare_prepared _ _ _ _ (ni_ok n Hn s) Ha Hst Ht).
Qed.

Lemma send_ok n T c s cmd :
  NetInv n → coordinators n !! T = Some c → sends c s = Some cmd → NetInv (withSent s cmd n).
Proof.
  intros Hn Hc Hs. pose proof (sends_ok _ _ _ _ c s cmd (ni_coordinators n Hn T c Hc) Hs) as Hok.
  assert (Hg : grows n (withSent s cmd n)).
  { split; try done. intros s' t. unfold voted. simpl. destruct (standing (shards n s')); try done.
    intros [x Hx]. exists x. by right. }
  destruct Hn as [H1 H2 H3 H4 H5 H6 H7 H8]. split; try done.
  - intros T' c' Hc'. apply (grows_coordinator n); [done|by eapply H3].
  - by apply (VersionsOk_grows n).
  - intros s' cmd' [[= -> ->]|Hin]%elem_of_cons; [by destruct cmd|]. by apply (H6 s').
  - intros s' ct Hct. right. by apply H7.
  - intros s' r t Hin Hst Ht. apply (g_voted _ _ Hg). by eapply H8.
Qed.

(** *** Replication *)

Lemma majority_ok n m :
  NetInv n → (majority n <= m)%nat → (m <= length (documents n))%nat → NetInv (withMajority m n).
Proof.
  intros [H1 H2 H3 [V1 V2 V3 V4 V5 V6 V7] H5 H6 H7 H8] Hm Hl.
  assert (Hg : grows n (withMajority m n)).
  { split; try done. intros d (i & t & doc & Hi & Hd). exists i, t, doc. split; [simpl; lia|done]. }
  split; try done.
  - intros T c Hc. apply (grows_coordinator n); [done|by eapply H3].
  - split; try done. intros t Hin. destruct (V7 t Hin) as [d Hd]. exists d. by apply (g_durable _ _ Hg).
  - intros s cmd Hin. apply (grows_sent n); [done|by eapply H6].
Qed.

Lemma primary_ok n T k :
  NetInv n → term n < T → (majority n <= k)%nat → NetInv (withPrimary T k n).
Proof.
  intros [H1 H2 H3 [V1 V2 V3 V4 V5 V6 V7] H5 H6 H7 H8] HT Hk.
  assert (Hg : grows n (withPrimary T k n)).
  { split; try done. intros d (i & t & doc & Hi & Hl & Hd). exists i, t, doc.
    split_and!; [done| |done]. simpl. rewrite lookup_take_lt by lia. done. }
  split; try done.
  - intros T' c Hc. simpl in *. specialize (H2 T' c Hc). lia.
  - intros T' c Hc. apply (grows_coordinator n); [done|by eapply H3].
  - split; try done; simpl.
    + intros v Hv. apply V1. apply elem_of_take in Hv as (i & Hi & _). by eapply list_elem_of_lookup_2.
    + rewrite length_take. lia.
    + intros i j t t' doc doc' d Hij Hi Hd Hj.
      apply lookup_take_Some in Hi as [Hi _]. apply lookup_take_Some in Hj as [Hj _]. by eapply V5.
    + intros t Hin. destruct (V7 t Hin) as [d Hd]. exists d. by apply (g_durable _ _ Hg).
  - intros c Hc. simpl in Hc. specialize (H2 T c Hc). lia.
  - intros s cmd Hin. apply (grows_sent n); [done|by eapply H6].
Qed.

(** A recovered coordinator starts with the decision of the document. *)
Lemma recovered_decision doc c d :
  continueCommit doc newCoordinator = Some c → doc_decision doc = Some d → _decision c = Some d.
Proof. unfold continueCommit, kickOff. simpl. intros Hc Hd. rewrite Hd in Hc. by injection Hc as <-. Qed.

Lemma recover_ok n doc c :
  NetInv n → coordinators n !! term n = None → latest (documents n) = Some doc →
  continueCommit doc newCoordinator = Some c → NetInv (withCoordinator (term n) c n).
Proof.
  intros [H1 H2 H3 [V1 V2 V3 V4 V5 V6 V7] H5 H6 H7 H8] Hnone Hlast Hc.
  unfold latest in Hlast. apply bind_Some in Hlast as ([t doc'] & Hlast & Hdoc). simpl in Hdoc. subst doc'.
  rewrite last_lookup in Hlast.
  assert (Hin : (t, Some doc) ∈ written n) by (apply V1; by eapply list_elem_of_lookup_2).
  destruct (V6 t doc Hin) as [Hps Hj].
  destruct (continueCommit_ok PS (voted n) (durable n) (wrote n) doc newCoordinator
    (newCoordinator_ok _ _ _ _) Hps Hj) as (c1 & Hc1 & Hi1 & _).
  assert (c1 = c) as -> by congruence.
  split; try done.
  - intros T' c1. simpl. intros [[<- _]|[_ ?]]%lookup_insert_Some; eauto; done.
  - intros T' c1. simpl. intros [[_ <-]|[_ ?]]%lookup_insert_Some; [done|by eapply (H3 T')].
  - intros c1. simpl. intros [[_ <-]|[? _]]%lookup_insert_Some; [|done].
    intros t1 doc1 d Hin1 Hd1. right. apply (recovered_decision doc); [done|].
    apply list_elem_of_lookup_1 in Hin1 as [i Hi].
    eapply (V5 i (pred (length (documents n))) t1 t doc1 doc d); try done.
    assert ((i < length (documents n))%nat) by (by eapply lookup_lt_Some). lia.
Qed.

(** What the next primary finds once a shard was asked to prepare: the document, or no document
    because every shard has answered to a durable decision. *)
Lemma prepare_recoverable n s :
  NetInv n → (s, PrepareCmd) ∈ sent n →
  (∃ doc, latest (documents n) = Some doc ∧ doc_participants doc = PS) ∨
  (latest (documents n) = None ∧ ∃ d, durable n (Some d)).
Proof.
  intros Hn Hin. pose proof (ni_versions n Hn) as [V1 V2 V3 V4 V5 V6 V7].
  destruct (ni_sent n Hn s _ Hin) as (i & t & doc & Hi & Hl & _). unfold latest.
  destruct (last (documents n)) as [[t' doc']|] eqn:Hlast.
  - assert (Hin' : (t', doc') ∈ written n).
    { apply V1. rewrite last_lookup in Hlast. by eapply list_elem_of_lookup_2. }
    simpl. destruct doc' as [doc'|]; [left|right; split; [done|by eapply V7]].
    exists doc'. split; [done|]. by apply (V6 t').
  - apply last_None in Hlast. by rewrite Hlast in Hl.
Qed.

(** ** Every reachable network *)

Lemma networkStep_ok n n' : NetInv n → step PS localShard n n' → NetInv n'.
Proof.
  intros Hn Hs. destruct Hs as [s p Ha|T c s cmd Hc Hs|s cmd p r Hin Ha|T c ev c' Hc Hp Hh
    |c t doc k kf r c' Hc Hw Ht Hnew Hk|T c doc0 t doc k kf r c' HT Hc Hw Ht Hnew Hk|m Hm Hl
    |T k HT Hk|doc c Hc _ Hl Hcc].
  - apply advances_withShard; [done|..].
    + eapply acts_ok; [|done]. apply Hn.
    + eapply acts_advances; [|done]. apply Hn.
  - by eapply send_ok.
  - by eapply deliver_ok.
  - by eapply event_ok.
  - pose proof (ni_coordinators n Hn _ c Hc) as Hok.
    eapply (write_ok n (withVersion (t, doc) n)); [done|done| |done|by eapply wrote_new|done].
    eapply withVersion_ok; [done|done| |done|done]. by eapply DocumentWrite_Written.
  - pose proof (ni_coordinators n Hn _ c Hc) as Hok.
    eapply (write_ok n (withStale (t, doc) n)); [done|done| |done|by eapply wrote_new|done].
    eapply withStale_ok; [done|exact Hok| |done|done]. by eapply DocumentWrite_Written.
  - by apply majority_ok.
  - by apply primary_ok.
  - by eapply recover_ok.
Qed.

Lemma initial_ok n : initialNet n → NetInv n.
Proof.
  intros [I1 I2 I3 I4 I5 I6 I7]. split.
  - apply I1.
  - intros T c. rewrite I2. intros [-> _]%lookup_singleton_Some. done.
  - intros T c. rewrite I2. intros [_ <-]%lookup_singleton_Some. apply newCoordinator_ok.
  - split; rewrite ?I3, ?I4, ?I5; simpl; try done; try (by intros ? ?%not_elem_of_nil).
    + by apply NoDup_nil_2.
    + by intros ? ? ?%not_elem_of_nil.
  - rewrite I3. by intros c _ t doc d ?%not_elem_of_nil.
  - rewrite I6. by intros s cmd ?%not_elem_of_nil.
  - intros s ct. destruct (I1 s) as [_ ->]. done.
  - rewrite I7. by intros s r t ?%not_elem_of_nil.
Qed.

Lemma reachable_ok n : reachableNet PS localShard n → NetInv n.
Proof.
  intros (n0 & Hi%initial_ok & Hr). revert Hi. induction Hr as [|n1 n2 n3 Hs _ IH]; [done|].
  intros Hi. apply IH. by eapply networkStep_ok.
Qed.
End Inv.

(** * Two-phase commit implements atomic commit: an abstract machine in which the shards and one
    verdict change in single steps, with the invariant of that machine, and the simulation of
    the network's steps by its own. *)
Import TransactionCoordinator.

(** ** Atomic commit *)

Inductive Verdict := ToCommit (commitTimestamp : Timestamp.t) | ToAbort.

Record AtomicCommit := mkAtomic {
  verdict : option Verdict;
  stands : ShardId → Standing
}.

Section Atomic.
Context (PS : list ShardId).
Implicit Types (a b : AtomicCommit).

(** Only what the given shard stands for differs. *)
Definition othersStay (s : ShardId) a b : Prop := ∀ s', s' ≠ s → stands b s' = stands a s'.

Inductive atomic_step a b : Prop :=
  | atomic_stutter : verdict b = verdict a → (∀ s, stands b s = stands a s) → atomic_step a b
  | atomic_local s :
      verdict b = verdict a → othersStay s a b → stands a s = Active →
      (∀ ct, stands b s ≠ CommittedAt ct) → atomic_step a b
  (** The verdict to commit needs every participant prepared, not later than the commit. *)
  | atomic_decideCommit ct :
      verdict a = None → verdict b = Some (ToCommit ct) → (∀ s, stands b s = stands a s) →
      (∀ s, s ∈ PS → ∃ t, stands a s = PreparedAt t ∧ Timestamp.lt ct t = false) → atomic_step a b
  | atomic_decideAbort :
      verdict a = None → verdict b = Some ToAbort → (∀ s, stands b s = stands a s) → atomic_step a b
  | atomic_commit s t ct :
      verdict a = Some (ToCommit ct) → verdict b = verdict a → othersStay s a b →
      stands a s = PreparedAt t → Timestamp.lt ct t = false → stands b s = CommittedAt ct →
      atomic_step a b
  | atomic_abort s t :
      verdict a = Some ToAbort → verdict b = verdict a → othersStay s a b →
      stands a s = PreparedAt t → stands b s = AbortedHere → atomic_step a b.

(** All or nothing, at one time that is not before any participant was prepared. *)
Record Atomic a : Prop := {
  at_committed : ∀ s ct, stands a s = CommittedAt ct → verdict a = Some (ToCommit ct);
  at_participants : ∀ s ct, verdict a = Some (ToCommit ct) → s ∈ PS →
    stands a s = CommittedAt ct ∨ ∃ t, stands a s = PreparedAt t ∧ Timestamp.lt ct t = false
}.

Lemma atomic_step_ok a b : Atomic a → atomic_step a b → Atomic b.
Proof.
  intros [H1 H2] Hs. split.
  - intros s ct Hct. destruct Hs as [Hv Hst|s0 Hv Ho _ Hn|ct0 Hv Hv' Hst _|Hv Hv' Hst
      |s0 t ct0 Hv Hv' Ho _ _ Hn|s0 t Hv Hv' Ho _ Hn].
    + rewrite Hv. apply (H1 s). by rewrite <- Hst.
    + destruct (decide (s = s0)) as [->|Hne]; [by destruct (Hn ct)|]. rewrite Hv. apply (H1 s). by rewrite <- Ho.
    + rewrite Hst in Hct. rewrite (H1 s ct Hct) in Hv. done.
    + rewrite Hst in Hct. rewrite (H1 s ct Hct) in Hv. done.
    + rewrite Hv'. destruct (decide (s = s0)) as [->|Hne]; [congruence|]. apply (H1 s). by rewrite <- Ho.
    + rewrite Hv'. destruct (decide (s = s0)) as [->|Hne]; [congruence|]. apply (H1 s). by rewrite <- Ho.
  - intros s ct Hct Hin. destruct Hs as [Hv Hst|s0 Hv Ho Ha Hn|ct0 Hv Hv' Hst Hall|Hv Hv' Hst
      |s0 t ct0 Hv Hv' Ho Hp Hlt Hn|s0 t Hv Hv' Ho _ Hn].
    + rewrite Hst. rewrite Hv in Hct. by apply H2.
    + rewrite Hv in Hct. destruct (decide (s = s0)) as [->|Hne].
      * destruct (H2 s0 ct Hct Hin) as [?|(t & ? & _)]; congruence.
      * rewrite Ho by done. by apply H2.
    + rewrite Hst. assert (ct0 = ct) as -> by congruence. right. by apply Hall.
    + congruence.
    + rewrite Hv' in Hct. destruct (decide (s = s0)) as [->|Hne]; [left; congruence|].
      rewrite Ho by done. by apply H2.
    + congruence.
Qed.

(** The verdict, and what a shard has come to, are final. *)
Lemma atomic_step_final a b :
  atomic_step a b →
  (∀ v, verdict a = Some v → verdict b = Some v) ∧
  (∀ s ct, stands a s = CommittedAt ct → stands b s = CommittedAt ct) ∧
  (∀ s, stands a s = AbortedHere → stands b s = AbortedHere).
Proof.
  intros Hs. assert (Ho : ∀ s0 s, othersStay s0 a b → stands a s ≠ stands a s0 → stands b s = stands a s).
  { intros s0 s Ho Hne. apply Ho. congruence. }
  destruct Hs as [Hv Hst|s0 Hv Hot Ha Hn|ct0 Hv Hv' Hst Hall|Hv Hv' Hst|s0 t ct0 Hv Hv' Hot Hp Hlt Hn
    |s0 t Hv Hv' Hot Hp Hn]; split_and!; intros *; try congruence;
    try (intros Hx; rewrite Hst; done); try (intros Hx; rewrite (Ho s0 s Hot) by congruence; done).
Qed.
End Atomic.

(** ** The simulation *)

Section Refinement.
Context {P : Type} `{ParticipantLaws P}.
Context (PS : list ShardId) (localShard : ShardId).
Implicit Types (n : Net P).

(** The first decision that is durable. *)
Definition decisions (l : list Version) : list CoordinatorCommitDecision :=
  omap (λ v : Version, v.2 ≫= doc_decision) l.

Definition durableDecision n : option CoordinatorCommitDecision :=
  head (decisions (take (majority n) (documents n))).

Definition verdictOf (d : CoordinatorCommitDecision) : Verdict :=
  match decision d with
  | kCommit => ToCommit (default Timestamp.null (commitTimestamp d))
  | kAbort => ToAbort
  end.

Definition abstraction n : AtomicCommit :=
  mkAtomic (verdictOf <$> durableDecision n) (λ s, standing (shards n s)).

Lemma elem_of_decisions d l :
  d ∈ decisions l ↔ ∃ i t doc, l !! i = Some (t, Some doc) ∧ doc_decision doc = Some d.
Proof.
  unfold decisions. rewrite list_elem_of_omap. split.
  - intros ([t doc] & Hin & Hd). simpl in Hd. apply bind_Some in Hd as (doc' & -> & Hd).
    apply list_elem_of_lookup_1 in Hin as [i Hi]. by exists i, t, doc'.
  - intros (i & t & doc & Hi & Hd). exists (t, Some doc). split; [by eapply list_elem_of_lookup_2|done].
Qed.

Lemma durable_decisions n d :
  durable n (Some d) ↔ d ∈ decisions (take (majority n) (documents n)).
Proof.
  rewrite elem_of_decisions. unfold durable. split.
  - intros (i & t & doc & Hi & Hl & Hd). exists i, t, doc. split; [|done]. by rewrite lookup_take_lt.
  - intros (i & t & doc & Hl & Hd). exists i, t, doc. apply lookup_take_Some in Hl as [Hl Hi]. done.
Qed.

Lemma durableDecision_spec n d : VersionsOk PS n → durableDecision n = Some d ↔ durable n (Some d).
Proof.
  intros Hv. unfold durableDecision. split.
  - intros Hh. apply durable_decisions. destruct (decisions _) as [|x l]; [done|].
    injection Hh as <-. by left.
  - intros Hd. pose proof Hd as Hd'. apply durable_decisions in Hd'.
    destruct (decisions _) as [|x l] eqn:Hl; [by apply not_elem_of_nil in Hd'|]. simpl. f_equal.
    apply (durable_agree PS n); [done| |done]. apply durable_decisions. rewrite Hl. by left.
Qed.

Lemma durableDecision_None n : VersionsOk PS n → durableDecision n = None → ∀ d, ¬ durable n (Some d).
Proof. intros Hv Hn d Hd%(durableDecision_spec n d Hv). congruence. Qed.

(** Where nothing was decided no shard has heard of a decision. *)
Lemma undecided_prepared n s t :
  NetInv PS n → durableDecision n = None → voted n s t → standing (shards n s) = PreparedAt t.
Proof.
  intros Hn Hnone. pose proof (durableDecision_None n (ni_versions PS n Hn) Hnone) as Hno.
  unfold voted. destruct (standing (shards n s)) as [|t'|ct|] eqn:Hs; [done|congruence|..].
  - intros _. exfalso. destruct (ni_sent PS n Hn s _ (ni_committed PS n Hn s ct Hs)) as (d & Hd & _).
    by apply (Hno d).
  - intros [s' Hin]. exfalso. destruct (ni_sent PS n Hn s' _ Hin) as (d & Hd & _). by apply (Hno d).
Qed.

(** A step that leaves the shards and the durable decision. *)
Lemma step_stutters n n' :
  shards n' = shards n → durableDecision n' = durableDecision n →
  atomic_step PS (abstraction n) (abstraction n').
Proof. intros Hs Hd. apply atomic_stutter; simpl; [by rewrite Hd|by rewrite Hs]. Qed.

(** A step of a shard that is not told the decision. *)
Lemma shard_advances s p n n' :
  shards n' = <[s := p]> (shards n) → durableDecision n' = durableDecision n →
  advances (standing (shards n s)) (standing p) → atomic_step PS (abstraction n) (abstraction n').
Proof.
  intros Hs Hd [Ha|[Ha Hn]].
  - apply atomic_stutter; simpl; [by rewrite Hd|]. intros s'. rewrite Hs.
    destruct (decide (s' = s)) as [->|Hne]; [by rewrite fn_lookup_insert|by rewrite fn_lookup_insert_ne].
  - apply (atomic_local _ _ _ s); simpl; rewrite ?Hd, ?Hs, ?fn_lookup_insert; try done.
    intros s' Hne. simpl. by rewrite Hs, fn_lookup_insert_ne.
Qed.

Lemma othersStay_insert s p n n' :
  shards n' = <[s := p]> (shards n) → othersStay s (abstraction n) (abstraction n').
Proof. intros Hs s' Hne. simpl. by rewrite Hs, fn_lookup_insert_ne. Qed.

Lemma deliver_simulated s cmd p r n :
  NetInv PS n → (s, cmd) ∈ sent n → answers cmd (shards n s) p r →
  atomic_step PS (abstraction n) (abstraction (withReply s cmd r (withShard s p n))).
Proof.
  intros Hn Hin Ha. pose proof (ni_ok PS n Hn s) as Hok. pose proof (ni_sent PS n Hn s cmd Hin) as Hs.
  pose proof (ni_versions PS n Hn) as Hv. destruct cmd as [|ct|]; simpl in Hs.
  - eapply (shard_advances s p); [done..|]. by eapply prepare_advances.
  - destruct (commit_commits ct _ _ _ Hok Ha) as [?|(t & Hp & Hlt & Hp')]; [by eapply (shard_advances s p)|].
    destruct Hs as (d & Hd & Hk & Hct). apply (durableDecision_spec n d Hv) in Hd.
    apply (atomic_commit _ _ _ s t ct); simpl; rewrite ?fn_lookup_insert; try done.
    + rewrite Hd. simpl. unfold verdictOf. by rewrite Hk, Hct.
    + by apply (othersStay_insert s p).
  - destruct (abort_aborts _ _ _ Hok Ha) as [?|(t & Hp & Hp')]; [by eapply (shard_advances s p)|].
    destruct Hs as (d & Hd & Hk). apply (durableDecision_spec n d Hv) in Hd.
    apply (atomic_abort _ _ _ s t); simpl; rewrite ?fn_lookup_insert; try done.
    + rewrite Hd. simpl. unfold verdictOf. by rewrite Hk.
    + by apply (othersStay_insert s p).
Qed.

(** The decision is made when it becomes durable. *)
Lemma majority_simulated n m :
  NetInv PS n → (majority n <= m)%nat → (m <= length (documents n))%nat →
  atomic_step PS (abstraction n) (abstraction (withMajority m n)).
Proof.
  intros Hn Hm Hl. pose proof (ni_versions PS n Hn) as Hv.
  pose proof (ni_versions PS _ (majority_ok PS n m Hn Hm Hl)) as Hv'.
  destruct (durableDecision n) as [d|] eqn:Hd.
  - apply step_stutters; [done|]. rewrite Hd. apply (durableDecision_spec _ d Hv').
    apply (durableDecision_spec n d Hv) in Hd. destruct Hd as (i & t & doc & Hi & Hx).
    exists i, t, doc. split; [simpl; lia|done].
  - destruct (durableDecision (withMajority m n)) as [d|] eqn:Hd'.
    2: { apply step_stutters; [done|congruence]. }
    pose proof Hd' as Hdur. apply (durableDecision_spec _ d Hv') in Hdur.
    destruct Hdur as (i & t & doc & Hi & Hx & Hdd). simpl in Hx.
    destruct (vs_docs PS n Hv t doc) as [_ Hj].
    { apply (vs_written PS n Hv). by eapply list_elem_of_lookup_2. }
    specialize (Hj d Hdd). unfold justified in Hj. destruct (decision d) eqn:Hk.
    + destruct Hj as (ct & Hct & Hall).
      apply (atomic_decideCommit _ _ _ ct); simpl; rewrite ?Hd, ?Hd'; try done.
      * simpl. unfold verdictOf. by rewrite Hk, Hct.
      * intros s Hs. destruct (Hall s Hs) as (t' & Hvo & Hlt). exists t'. split; [|done].
        by apply undecided_prepared.
    + apply atomic_decideAbort; simpl; rewrite ?Hd, ?Hd'; try done.
      simpl. unfold verdictOf. by rewrite Hk.
Qed.

Lemma step_simulated n n' :
  NetInv PS n → step PS localShard n n' → atomic_step PS (abstraction n) (abstraction n').
Proof.
  intros Hn Hs. pose proof (vs_majority PS n (ni_versions PS n Hn)) as Hm.
  destruct Hs as [s p Ha|T c s cmd Hc Hs|s cmd p r Hin Ha|T c ev c' Hc Hp Hh
    |c t doc k kf r c' Hc Hw Ht Hnew Hk|T c doc0 t doc k kf r c' HT Hc Hw Ht Hnew Hk|m Hm' Hl
    |T k HT Hk|doc c Hc _ Hl Hcc]; try (by apply step_stutters).
  - eapply (shard_advances s p); [done..|]. eapply acts_advances; [|done]. apply Hn.
  - by apply deliver_simulated.
  - apply step_stutters; [done|]. unfold durableDecision. simpl. by rewrite take_app_le.
  - by apply majority_simulated.
  - apply step_stutters; [done|]. unfold durableDecision. simpl. by rewrite take_take, Nat.min_l.
Qed.

Lemma initial_atomic n : initialNet n → verdict (abstraction n) = None ∧ Atomic PS (abstraction n).
Proof.
  intros [I1 _ I3 I4 _ _ _].
  assert (Hv : verdict (abstraction n) = None) by (unfold abstraction, durableDecision; simpl; by rewrite I3, I4).
  split; [done|]. split; [|congruence]. intros s ct. simpl. destruct (I1 s) as [_ ->]. done.
Qed.

Lemma reachable_atomic n : reachableNet PS localShard n → Atomic PS (abstraction n).
Proof.
  intros (n0 & Hi & Hr). assert (Hn0 : NetInv PS n0) by by apply initial_ok.
  apply initial_atomic in Hi as [_ Hi]. revert Hi Hn0.
  induction Hr as [|n1 n2 n3 Hs _ IH]; [done|]. intros Hi Hn. apply IH.
  - eapply atomic_step_ok; [done|by apply step_simulated].
  - by eapply networkStep_ok.
Qed.
End Refinement.
