(* ===== verification/ShardParticipant.v ===== *)
(** A shard as a participant of two-phase commit: the session on its primary, for one
    transaction number.  The session's oplog and state say where the shard stands, and the
    invariant of the session gives the laws the coordinator relies on.

    The laws rest on what the protocol asks of its environment, which [shardCall] states: only
    the coordinator decides the transaction once it is prepared.  The command that commits and
    the one that aborts accept it from anyone (src/mongo/db/commands/txn_cmds.cpp); it is the
    router and the driver that do not send them: a router commits directly only where no shard
    was prepared, and its abort (TransactionRouter::Router::abortTransaction) is the driver's
    before it asks for the commit.  And a number is not used again in the network: the shard's
    record is not that of a transaction of which only the first entries were replicated. *)
From stdpp Require Import gmap.
From S2P Require Import Prelude OpTimes TransactionState TransactionParticipant TransactionSession TransactionInv TransactionPhases TransactionRun TransactionCommands TransactionLog TransactionWrites TransactionRequests TransactionSteps TransactionOpen TransactionProps TransactionDecision TransactionCoordinator TwoPhaseCommit.
Import TransactionParticipant TransactionSession TransactionCoordinator.

Definition numbersUsedOnce : Reuse := False.
#[local] Existing Instance numbersUsedOnce.

Section Shard.
Context (env : Env) (n : Z).

(** The request that the coordinator sends for a command. *)
Definition coordinatorRequest (cmd : ShardCommand) : Request :=
  mkRequest n (Some false) None false
    match cmd with PrepareCmd => Prepare | CommitCmd t => Commit (Some t) | AbortCmd => Abort end.

(** What an entry that ends the transaction makes of it. *)
Definition endStanding (e : OplogEvent) : Standing :=
  match e with
  | EvCommit _ t _ => CommittedAt (OpTime.timestamp t)
  | EvCommitPrepared _ _ ct => CommittedAt ct
  | EvAbort _ _ => AbortedHere
  | _ => Active
  end.

Definition preparedHere (w : World) : bool :=
  isPrepared (txnState (obs w)) && (activeTxnNumber (obs w) =? n).

Definition shardStanding (w : World) : Standing :=
  match endings n (oplog w) with
  | e :: _ => endStanding e
  | [] => if preparedHere w then PreparedAt (OpTime.timestamp (prepareOpTime (obs w))) else Active
  end.

(** What happens to the session but for the coordinator's commands: requests of clients, of the
    transaction those that do not decide it, or abort it before it is prepared; and the
    server's own acts.  The node's elections keep what it wrote. *)
Definition shardCall (w : World) (c : Call) : Prop :=
  match c with
  | ClientRequest r =>
      rq_txnNumber r ≠ n ∨
      match commandName (rq_command r) with
      | CmdCommit => False
      | CmdAbort => preparedHere w = false
      | _ => True
      end
  | Kill | DirectWrite | StepDown | StepUp => True
  | _ => False
  end.

(** Nothing is replicated to it from another node. *)
Definition shardAllowed : World → Call → Prop := allowedFrom env (λ _ _, False).

Definition shardActs (w w' : World) : Prop :=
  ∃ c, shardAllowed w c ∧ shardCall w c ∧ after (runCall env c w) = Some w'.

(** The reply of a request: that of a prepare has the prepare timestamp, read while the
    session is checked out; a request that has to wait is cut short in the end. *)
Definition replyOf (cmd : ShardCommand) (rep : Reply) (w' : World) (r : RemoteReply) : Prop :=
  match rep with
  | Replied true =>
      reply_status r = None ∧
      (cmd = PrepareCmd → reply_prepareTimestamp r = Some (OpTime.timestamp (prepareOpTime (obs w'))))
  | Replied false | BlockedOn _ => reply_status r ≠ None
  | Failed e => reply_status r = Some e
  end.

Definition shardAnswers (cmd : ShardCommand) (w w' : World) (r : RemoteReply) : Prop :=
  let rq := coordinatorRequest cmd in
  shardAllowed w (ClientRequest rq) ∧
  ∃ rep, invokeWithSessionCheckedOut env rq w = Ret rep w' ∧ replyOf cmd rep w' r.

(** ** Where a shard stands *)

Lemma preparedHere_spec w :
  preparedHere w = true ↔ txnState (obs w) = kPrepared ∧ activeTxnNumber (obs w) = n.
Proof.
  unfold preparedHere, isPrepared. rewrite andb_true_iff, bool_decide_eq_true, Z.eqb_eq. done.
Qed.

(** An entry that ends the transaction settles it. *)
Lemma ended_stays w w' evs :
  oplog w' = oplog w ++ evs → endings n (oplog w) ≠ [] → shardStanding w' = shardStanding w.
Proof.
  intros Hol He. unfold shardStanding. rewrite Hol, endings_app. by destruct (endings n (oplog w)).
Qed.

(** A session's invariant, without a transaction on record of which only a part is there. *)
Definition shardOk (w : World) : Prop := Idle w ∧ notInProgress (stored w).

(** A prepared transaction has not ended. *)
Lemma prepared_notEnded w : Idle w → preparedHere w = true → endings n (oplog w) = [].
Proof.
  intros Hi [Hs Ha]%preparedHere_spec. destruct (endings n (oplog w)) eqn:He; [done|exfalso].
  destruct (d_ended _ _ (c_durable w (i_core w Hi)) ltac:(by intros []) n) as (s & Hst & Hr); [by rewrite He|].
  destruct (i_prepared w Hi Hs) as (s' & Hst' & Hn & Hp). rewrite Ha in Hn.
  assert (s' = s) as -> by congruence. destruct Hr as [?|[? [?|?]]]; [lia|congruence..].
Qed.

Lemma preparedHere_standing w :
  Idle w → preparedHere w = true →
  shardStanding w = PreparedAt (OpTime.timestamp (prepareOpTime (obs w))).
Proof. intros Hi Hp. unfold shardStanding. by rewrite prepared_notEnded, Hp. Qed.

Lemma prepared_ends w w' e :
  Idle w → preparedHere w = true → oplog w' = oplog w ++ [e] → ends n e = true →
  shardStanding w' = endStanding e.
Proof.
  intros Hi Hp Hol He. unfold shardStanding. rewrite Hol, endings_same, prepared_notEnded by done. done.
Qed.

Lemma Keeps_standing w w' : Keeps w w' → shardStanding w' = shardStanding w.
Proof. intros [[r Hob] _ _ Hol]. unfold shardStanding, preparedHere. by rewrite Hol, Hob. Qed.

Lemma entryOf_commits k cmd e :
  entryOf k cmd e → k ≠ Some n ∨ cmd = None → ∀ ct, ends n e = true → endStanding e ≠ CommittedAt ct.
Proof.
  destruct e; simpl; try done; intros [-> ->] [Hk|Hc] ct ->%Z.eqb_eq; done.
Qed.

(** Where no commit of the transaction is written it may be prepared or aborted. *)
Lemma active_advances w w' k cmd evs :
  oplog w' = oplog w ++ evs → Forall (entryOf k cmd) evs → k ≠ Some n ∨ cmd = None →
  preparedHere w = false → advances (shardStanding w) (shardStanding w').
Proof.
  intros Hol Hf Hk Hp. destruct (endings n (oplog w)) as [|e l] eqn:He.
  - right. split; [unfold shardStanding; by rewrite He, Hp|]. intros ct. unfold shardStanding.
    rewrite Hol, endings_app, He. simpl. destruct (endings n evs) as [|e' l'] eqn:He'.
    + by destruct (preparedHere w').
    + assert (Hin : e' ∈ endings n evs) by (rewrite He'; by left).
      apply list_elem_of_filter in Hin as [Hend Hin]. rewrite Forall_forall in Hf.
      by apply (entryOf_commits k cmd); [apply Hf|..].
  - left. apply (ended_stays _ _ evs); [done|by rewrite He].
Qed.

Context `{!EnvOk env}.

(** ** The laws *)

(** The commits that a call may write, and what it leaves on record. *)
Lemma call_extends c w w' :
  shardCall w c → after (runCall env c w) = Some w' →
  (notInProgress (stored w) → notInProgress (stored w')) ∧
  (preparedHere w = false →
   ∃ evs k cmd, oplog w' = oplog w ++ evs ∧ Forall (entryOf k cmd) evs ∧ (k ≠ Some n ∨ cmd = None)).
Proof.
  intros Hcall Hc.
  assert (Hserver : ∀ m : M unit, logs m → after (m w) = Some w' →
    (notInProgress (stored w) → notInProgress (stored w')) ∧
    (preparedHere w = false →
     ∃ evs k cmd, oplog w' = oplog w ++ evs ∧ Forall (entryOf k cmd) evs ∧ (k ≠ Some n ∨ cmd = None))).
  { intros m Hm Hmw. specialize (Hm w).
    assert (grows w w') as (Hst & evs & Hol & Hf) by (destruct (m w); simpl in Hmw; simplify_eq; done).
    split; [done|]. intros _. exists evs, None, None. auto. }
  destruct c as [r| | | | | | | | | |]; try done.
  - pose proof (invoke_extends env r w) as Hx. simpl in Hc. unfold mbind, M_bind in Hc.
    assert ((notInProgress (stored w) → notInProgress (stored w')) ∧ ∃ evs, oplog w' = oplog w ++ evs ∧
      Forall (entryOf (Some (rq_txnNumber r)) (Some (rq_command r))) evs) as (Hst & evs & Hol & Hf).
    { destruct (invokeWithSessionCheckedOut env r w); simplify_eq/=; done. }
    split; [done|]. intros Hp. destruct Hcall as [Hn|Hcmd].
    + exists evs, (Some (rq_txnNumber r)), (Some (rq_command r)). split_and!; [done..|]. left. congruence.
    + exists evs, (Some (rq_txnNumber r)), None. split_and!; [done| |by right].
      eapply Forall_impl; [exact Hf|]. intros e. destruct e; try done; simpl; intros [_ [= Hx']];
        by rewrite Hx' in Hcmd.
  - by apply (Hserver (killSession env)); [apply killSession_logs|].
  - by apply (Hserver observeDirectWrite); [apply observeDirectWrite_logs|].
  - by apply (Hserver (stepDown env)); [apply stepDown_logs|].
  - by apply (Hserver (stepUp env)); [apply stepUp_logs|].
Qed.

Lemma shardActs_ok w w' : shardOk w → shardActs w w' → shardOk w'.
Proof.
  intros [Hi Hip] (c & Hal & Hcall & Hc). split; [|by apply (call_extends c w w')].
  pose proof (call_wp env (λ _ _, False) ltac:(done) c w Hi Hal) as Hw. unfold wp in Hw.
  destruct (runCall env c w); naive_solver.
Qed.

Lemma shardActs_advances w w' :
  Idle w → shardActs w w' → advances (shardStanding w) (shardStanding w').
Proof.
  intros Hi (c & Hal & Hcall & Hc). destruct (preparedHere w) eqn:Hp.
  - left. apply Keeps_standing. pose proof Hp as [Hs Ha]%preparedHere_spec.
    pose proof (preparedCall_wp env (λ _ _, False) c w Hi Hs Hal) as Hw. unfold wp in Hw.
    assert (Hd : ¬ decides w c).
    { destruct c; simpl in Hcall |- *; try tauto. intros [Hn Hcmd]. destruct Hcall as [?|Hcall]; [congruence|].
      destruct Hcmd as [Hx|Hx]; rewrite Hx in Hcall; [done|congruence]. }
    specialize (Hw Hd). destruct (runCall env c w); naive_solver.
  - destruct (proj2 (call_extends c w w' Hcall Hc) Hp) as (evs & k & cmd & Hol & Hf & Hk).
    by eapply active_advances.
Qed.

(** A command that cannot commit. *)
Lemma answers_extends cmd w w' r :
  shardAnswers cmd w w' r → (∀ ct, cmd ≠ CommitCmd ct) → preparedHere w = false →
  advances (shardStanding w) (shardStanding w').
Proof.
  intros (_ & rep & Hrun & _) Hcmd Hp.
  pose proof (invoke_extends env (coordinatorRequest cmd) w) as Hx. rewrite Hrun in Hx.
  destruct Hx as (_ & evs & Hol & Hf). apply (active_advances w w' (Some n) None evs); auto.
  eapply Forall_impl; [exact Hf|]. intros e. destruct cmd as [|ct|]; [|by destruct (Hcmd ct)|];
    destruct e; simpl; try done; by intros [_ ?].
Qed.

Lemma shardAnswers_ok cmd w w' r : shardOk w → shardAnswers cmd w w' r → shardOk w'.
Proof.
  intros [Hi Hip] ((Hok & Hts & _) & rep & Hrun & _).
  pose proof (invoke_wp env _ w Hok Hi Hip Hts) as Hw. unfold wp in Hw.
  pose proof (invoke_extends env (coordinatorRequest cmd) w) as Hx.
  rewrite Hrun in Hw, Hx. split; [done|by apply Hx].
Qed.

Lemma shardPrepare_advances w w' r :
  Idle w → shardAnswers PrepareCmd w w' r → advances (shardStanding w) (shardStanding w').
Proof.
  intros Hi Ha. destruct (preparedHere w) eqn:Hp; [|by eapply answers_extends].
  left. apply Keeps_standing. apply preparedHere_spec in Hp as [Hs Hn].
  destruct Ha as ((Hok & _) & rep & Hrun & _).
  pose proof (invokePrepared_wp env _ w Hi Hs Hok ltac:(by intros _; split)) as Hw.
  unfold wp in Hw. by rewrite Hrun in Hw.
Qed.

(** A prepare that is answered without an error was made. *)
Lemma shardPrepare_prepared w w' r t :
  shardOk w → shardAnswers PrepareCmd w w' r → replyStatus r = None → reply_prepareTimestamp r = Some t →
  shardStanding w' = PreparedAt t.
Proof.
  intros Hs0 Ha Hst Ht. destruct (shardAnswers_ok _ _ _ _ Hs0 Ha) as [Hi' _]. destruct Hs0 as [Hi Hip].
  destruct Ha as ((Hok & Hts & _) & rep & Hrun & Hrep).
  pose proof (invokePrepare_wp env n false w Hi Hok Hip) as Hw. unfold wp in Hw.
  change (mkRequest n (Some false) None false Prepare) with (coordinatorRequest PrepareCmd) in Hw.
  rewrite Hrun in Hw. unfold replyStatus in Hst.
  assert (reply_status r = None) as Hnone by (by destruct (reply_wcStatus r)).
  destruct rep as [[]|e|p]; simpl in Hrep; try congruence.
  destruct Hrep as [_ Hrt]. specialize (Hrt eq_refl). destruct (Hw eq_refl) as [Hs Ha].
  assert (t = OpTime.timestamp (prepareOpTime (obs w'))) as -> by congruence.
  apply preparedHere_standing; [done|]. by apply preparedHere_spec.
Qed.

Lemma shardCommit_commits ct w w' r :
  shardOk w → shardAnswers (CommitCmd ct) w w' r →
  advances (shardStanding w) (shardStanding w') ∨
  ∃ t, shardStanding w = PreparedAt t ∧ Timestamp.lt ct t = false ∧ shardStanding w' = CommittedAt ct.
Proof.
  intros [Hi Hip] ((Hok & Hts & _) & rep & Hrun & _). destruct (preparedHere w) eqn:Hp.
  - pose proof Hp as [Hs Ha]%preparedHere_spec.
    pose proof (invokeCommit_wp env n ct false w Hi Hs Hok Hts) as Hw. unfold wp in Hw.
    change (mkRequest n (Some false) None false (Commit (Some ct))) with (coordinatorRequest (CommitCmd ct)) in Hw.
    rewrite Hrun in Hw. destruct Hw as [Hk|(Hlt & t & Hol)]; [left; left; by apply Keeps_standing|].
    right. eexists. split_and!; [by apply preparedHere_standing|done|].
    apply (prepared_ends w w' (EvCommitPrepared n t ct)); [done..|]. simpl. apply Z.eqb_refl.
  - left. pose proof (invokeCommitUnprepared_wp env n ct false w Hi Hok Hip) as Hw.
    change (mkRequest n (Some false) None false (Commit (Some ct))) with (coordinatorRequest (CommitCmd ct)) in Hw.
    rewrite Hrun in Hw. destruct Hw as (evs & Hol & Hf).
    { rewrite <- preparedHere_spec. congruence. }
    apply (active_advances w w' None None evs); auto.
Qed.

Lemma shardAbort_aborts w w' r :
  Idle w → shardAnswers AbortCmd w w' r →
  advances (shardStanding w) (shardStanding w') ∨
  ∃ t, shardStanding w = PreparedAt t ∧ shardStanding w' = AbortedHere.
Proof.
  intros Hi Ha. destruct (preparedHere w) eqn:Hp; [|left; by eapply answers_extends].
  pose proof Hp as [Hs Hn]%preparedHere_spec. destruct Ha as ((Hok & _) & rep & Hrun & _).
  pose proof (invokeAbort_wp env n false w Hi Hs Hok) as Hw. unfold wp in Hw.
  change (mkRequest n (Some false) None false Abort) with (coordinatorRequest AbortCmd) in Hw.
  rewrite Hrun in Hw. destruct Hw as [Hk|(t & Hol)]; [left; left; by apply Keeps_standing|].
  right. eexists. split; [by apply preparedHere_standing|].
  apply (prepared_ends w w' (EvAbort n t)); [done..|]. simpl. apply Z.eqb_refl.
Qed.
End Shard.

(** ** The interface *)

(** A shard: what its other components answer, and its session. *)
Record Shard := mkShard { sh_env : Env; sh_session : World }.

Section Participant.
Context (n : Z).

#[global] Instance shardParticipant : Participant Shard := {
  standing p := shardStanding n (sh_session p);
  participantOk p := EnvOk (sh_env p) ∧ shardOk (sh_session p);
  acts p p' := sh_env p' = sh_env p ∧ shardActs (sh_env p) n (sh_session p) (sh_session p');
  answers cmd p p' r :=
    sh_env p' = sh_env p ∧ shardAnswers (sh_env p) n cmd (sh_session p) (sh_session p') r
}.

#[global] Instance shardParticipant_laws : ParticipantLaws Shard.
Proof.
  split; simpl.
  - intros p p' [He Hi] [Hs Ha]. rewrite Hs. split; [done|]. by eapply shardActs_ok.
  - intros cmd p p' r [He Hi] [Hs Ha]. rewrite Hs. split; [done|]. by eapply shardAnswers_ok.
  - intros p p' [He [Hi _]] [_ Ha]. by eapply shardActs_advances.
  - intros p p' r [He [Hi _]] [_ Ha]. by eapply shardPrepare_advances.
  - intros p p' r t [He Hi] [_ Ha]. by eapply shardPrepare_prepared.
  - intros ct p p' r [He Hi] [_ Ha]. by eapply shardCommit_commits.
  - intros p p' r [He [Hi _]] [_ Ha]. by eapply shardAbort_aborts.
Qed.
End Participant.
