(* ===== verification/TwoPhaseRun.v ===== *)
(** Running the network: a script of moves that checks the premises of each step, and the
    histories it gives, on which the guarantees are evaluated. *)
From stdpp Require Import gmap.
From S2P Require Import Prelude OpTimes TransactionState TransactionParticipant TransactionSession TransactionInv TransactionPhases TransactionRequests TransactionSteps TransactionProps TransactionCoordinator CoordinatorInv TwoPhaseCommit TwoPhaseInv ShardParticipant.
Import TransactionSession TransactionCoordinator.

(** One move: an event of the coordinator of a term, the vote of a shard from its reply, a write
    of the current coordinator at a position, the sending and the delivery of a command, the
    advance of the majority, an election and the recovery. *)
Inductive Move :=
  | MoveEvent (T : Z) (ev : Event)
  | MoveVote (T : Z) (s : ShardId)
  | MoveWrite (t : OpTime.t)
  | MoveSend (T : Z) (s : ShardId)
  | MoveDeliver (s : ShardId) (cmd : ShardCommand)
  | MoveMajority (m : nat)
  | MoveElect (T : Z) (k : nat)
  | MoveRecover.

#[global] Instance ShardCommand_eq_dec : EqDecision ShardCommand.
Proof. solve_decision. Defined.

Section Run.
Context (n : Z) (PS : list ShardId) (localShard : ShardId).
Implicit Types (net : Net Shard).

Definition networkReachable (net : Net Shard) : Prop :=
  @reachableNet Shard (shardParticipant n) PS localShard net.
Definition networkStep : Net Shard → Net Shard → Prop :=
  @step Shard (shardParticipant n) PS localShard.

Definition committedAtb net (t : OpTime.t) : bool :=
  OpTime.isNull t || existsb (λ v : Version, bool_decide (v.1 = t)) (take (majority net) (documents net)).

(** Votes have a move of their own. *)
Definition possibleb net (c : Coordinator) (ev : Event) : bool :=
  match ev with
  | ListMajority None _ =>
      match waiting c with ForParticipantListMajority t => committedAtb net t | _ => true end
  | ListMajority (Some e) _ => negb (bool_decide (e = TransactionCoordinatorReachedAbortDecision))
  | DecisionMajority None =>
      match waiting c with ForDecisionMajority t => committedAtb net t | _ => true end
  | PrepareReply s (inl _) _ => false
  | _ => true
  end.

(** The reply of a shard, without an error of the write concern. *)
Definition replyTo (cmd : ShardCommand) (rep : Reply) (w : World) : RemoteReply :=
  match rep with
  | Replied true => mkReply None None (Some (OpTime.timestamp (prepareOpTime (obs w))))
  | Failed e => mkReply (Some e) None None
  | _ => mkReply (Some Interrupted) None None
  end.

(** The clock of the shard has passed a commit timestamp. *)
Definition clockPassed (cmd : ShardCommand) (w : World) : bool :=
  match cmd with
  | CommitCmd ct => (Timestamp.secs ct <=? Z.of_nat (now w)) && (Timestamp.inc ct <=? 1)
  | _ => true
  end.

Definition write net (t : OpTime.t) (c : Coordinator)
    : option (option TransactionCoordinatorDocument * (Coordinator → option Coordinator)) :=
  match waiting c, _participants c, _decision c with
  | ForParticipantListWrite, Some ps, _ =>
      match persistParticipantListBlocking ps (latest (documents net)) with
      | inl doc => Some (doc, onParticipantListWrite (inl t))
      | inr _ => None
      end
  | ForDecisionWrite, Some ps, Some d =>
      match persistDecisionBlocking ps d (latest (documents net)) with
      | inl doc => Some (doc, onDecisionWrite (inl t))
      | inr _ => None
      end
  | ForDelete, _, _ =>
      match deleteCoordinatorDocBlocking (latest (documents net)) with
      | inl doc => Some (doc, onDelete (inl tt))
      | inr _ => None
      end
  | _, _, _ => None
  end.

Definition voteOf net (s : ShardId) : option RemoteReply :=
  match List.find (λ x : ShardId * ShardCommand * RemoteReply,
          bool_decide (x.1 = (s, PrepareCmd))) (replies net) with
  | Some x => Some x.2
  | None => None
  end.

Definition play1 (m : Move) net : option (Net Shard) :=
  match m with
  | MoveEvent T ev =>
      c ← coordinators net !! T;
      if possibleb net c ev then c' ← handle PS localShard ev c; Some (withCoordinator T c' net) else None
  | MoveVote T s =>
      c ← coordinators net !! T; reply ← voteOf net s;
      c' ← handle PS localShard (PrepareReply s (inl reply) None) c; Some (withCoordinator T c' net)
  | MoveWrite t =>
      c ← coordinators net !! term net;
      '(doc, k) ← write net t c;
      c' ← k c;
      if negb (OpTime.isNull t) && bool_decide (t ∉ (written net).*1)
      then Some (withCoordinator (term net) c' (withVersion (t, doc) net)) else None
  | MoveSend T s => c ← coordinators net !! T; cmd ← sends c s; Some (withSent s cmd net)
  | MoveDeliver s cmd =>
      let p := shards net s in
      if bool_decide ((s, cmd) ∈ sent net) && (clockPassed cmd (sh_session p) && primary (sh_session p)) then
        match invokeWithSessionCheckedOut exampleEnv (coordinatorRequest n cmd) (sh_session p) with
        | Ret rep w => Some (withReply s cmd (replyTo cmd rep w) (withShard s (mkShard (sh_env p) w) net))
        | _ => None
        end
      else None
  | MoveMajority m =>
      if (majority net <=? m)%nat && (m <=? length (documents net))%nat
      then Some (withMajority m net) else None
  | MoveElect T k =>
      if (term net <? T) && (majority net <=? k)%nat then Some (withPrimary T k net) else None
  | MoveRecover =>
      match coordinators net !! term net, latest (documents net) with
      | None, Some doc =>
          if (majority net =? length (documents net))%nat then
            c ← continueCommit doc newCoordinator; Some (withCoordinator (term net) c net)
          else None
      | _, _ => None
      end
  end.

Fixpoint play (ms : list Move) net : option (Net Shard) :=
  match ms with
  | [] => Some net
  | m :: ms => net ← play1 m net; play ms net
  end.

(** ** A script is a history *)

Lemma committedAtb_sound net t : committedAtb net t = true → committedAt net t.
Proof.
  unfold committedAtb. intros [Hn|Hx]%orb_true_iff; [by left|right].
  apply existsb_exists in Hx as ([t' v] & Hin & Ht%bool_decide_eq_true). simpl in Ht. subst t'.
  apply list_elem_of_In, list_elem_of_lookup_1 in Hin as [i Hi].
  apply lookup_take_Some in Hi as [Hi Hlt]. by exists i, v.
Qed.

Lemma possibleb_sound net c ev : possibleb net c ev = true → possible net c ev.
Proof.
  destruct ev as [| | | |e|[e|] ct|s [reply|e] ct|e|[e|]|s r|e]; simpl; try done.
  - by intros Hx%negb_true_iff%bool_decide_eq_false.
  - intros Hx t Hw. rewrite Hw in Hx. by apply committedAtb_sound.
  - intros Hx t Hw. rewrite Hw in Hx. by apply committedAtb_sound.
Qed.

Lemma write_sound net t c doc k :
  write net t c = Some (doc, k) → ∃ kf, DocumentWrite c (latest (documents net)) t doc k kf.
Proof.
  unfold write. destruct (waiting c) eqn:Hw; try done.
  - destruct (_participants c) eqn:Hp; [|done].
    destruct (persistParticipantListBlocking _ _) eqn:Hpe; [|done]. intros [= <- <-]. eexists. by econstructor.
  - destruct (_participants c) eqn:Hp; [|done]. destruct (_decision c) eqn:Hd; [|done].
    destruct (persistDecisionBlocking _ _ _) eqn:Hpe; [|done]. intros [= <- <-].
    eexists. by eapply writes_decision.
  - destruct (deleteCoordinatorDocBlocking _) eqn:Hpe; [|destruct (_participants c); [destruct (_decision c)|]; done].
    intros Hx. eexists. destruct (_participants c); [destruct (_decision c)|]; injection Hx as <- <-;
      by apply writes_delete.
Qed.

Lemma voteOf_sound net s reply : voteOf net s = Some reply → (s, PrepareCmd, reply) ∈ replies net.
Proof.
  unfold voteOf. destruct (List.find _ _) as [[x r]|] eqn:Hf; [|done]. intros [= <-].
  apply find_some in Hf as [Hin Hx%bool_decide_eq_true]. simpl in Hx. subst. by apply list_elem_of_In.
Qed.

Lemma coordinatorRequest_ok cmd : 0 <= n → RequestOk (coordinatorRequest n cmd).
Proof. intros Hn. split; [by split|]. by destruct cmd. Qed.

Lemma clockPassed_sound cmd w :
  clockPassed cmd w = true → timestampOk exampleEnv (rq_command (coordinatorRequest n cmd)) (now w).
Proof.
  destruct cmd as [|ct|]; try done. simpl. intros [Hs%Z.leb_le Hi%Z.leb_le]%andb_true_iff ct' [= ->] i Hle.
  apply not_true_iff_false. intros Hlt%Timestamp.lt_spec. simpl in Hlt. lia.
Qed.

(** Every shard's other components answer as in the examples. *)
Definition exampleShards net : Prop := ∀ s, sh_env (shards net s) = exampleEnv.

Lemma play1_step m net net' :
  0 <= n → exampleShards net → play1 m net = Some net' → networkStep net net' ∧ exampleShards net'.
Proof.
  intros H0 He. unfold networkStep. destruct m as [T ev|T s|t|T s|s cmd|m|T k|]; simpl; intros Hp.
  - apply bind_Some in Hp as (c & Hc & Hp). destruct (possibleb net c ev) eqn:Hb; [|done].
    apply bind_Some in Hp as (c' & Hc' & [= <-]). split; [|done].
    apply (step_event _ _ _ T c ev); [done| |done]. by apply possibleb_sound.
  - apply bind_Some in Hp as (c & Hc & Hp). apply bind_Some in Hp as (reply & Hr & Hp).
    apply bind_Some in Hp as (c' & Hc' & [= <-]). split; [|done].
    apply (step_event _ _ _ T c (PrepareReply s (inl reply) None)); [done| |done].
    intros reply' [= <-] _. by apply voteOf_sound.
  - apply bind_Some in Hp as (c & Hc & Hp). apply bind_Some in Hp as ([doc k] & Hw & Hp).
    apply bind_Some in Hp as (c' & Hc' & Hp). destruct (_ && _) eqn:Hb; [|done]. injection Hp as <-.
    apply andb_true_iff in Hb as [Hn%negb_true_iff Hnew%bool_decide_eq_true]. split; [|done].
    apply write_sound in Hw as [kf Hw]. by apply (step_write _ _ _ c t doc k kf None).
  - apply bind_Some in Hp as (c & Hc & Hp). apply bind_Some in Hp as (cmd & Hs & [= <-]).
    split; [|done]. by apply (step_send _ _ _ T c).
  - destruct (_ && _) eqn:Hb; [|done]. apply andb_true_iff in Hb as [Hin%bool_decide_eq_true [Hclock Hprim]%andb_true_iff].
    destruct (invokeWithSessionCheckedOut _ _ _) as [rep w| |] eqn:Hrun; [|done..]. injection Hp as <-.
    split.
    + apply step_deliver; [done|]. split; [done|]. simpl. rewrite (He s). unfold shardAnswers.
      split; [split_and!; [by apply coordinatorRequest_ok|by apply clockPassed_sound|congruence]|].
      exists rep. split; [done|]. by destruct rep as [[]| |].
    + intros s'. simpl. destruct (decide (s' = s)) as [->|Hne]; [rewrite fn_lookup_insert; apply (He s)|].
      rewrite fn_lookup_insert_ne by done. apply (He s').
  - destruct (_ && _) eqn:Hb; [|done]. injection Hp as <-.
    apply andb_true_iff in Hb as [H1%Nat.leb_le H2%Nat.leb_le]. split; [by apply step_majority|done].
  - destruct (_ && _) eqn:Hb; [|done]. injection Hp as <-.
    apply andb_true_iff in Hb as [H1%Z.ltb_lt H2%Nat.leb_le]. split; [by apply step_primary|done].
  - destruct (coordinators net !! term net) eqn:Hc; [done|].
    destruct (latest (documents net)) as [doc|] eqn:Hl; [|done]. case_match eqn:Hm; [|done].
    apply Nat.eqb_eq in Hm. apply bind_Some in Hp as (c & Hcc & [= <-]). split; [|done].
    by apply (step_recover _ _ _ doc).
Qed.

Lemma play_steps ms net net' :
  0 <= n → exampleShards net → play ms net = Some net' → rtc networkStep net net'.
Proof.
  intros H0. revert net. induction ms as [|m ms IH]; intros net He; simpl; [by intros [= ->]|].
  intros Hp. apply bind_Some in Hp as (net1 & H1 & Hp).
  destruct (play1_step m net net1 H0 He H1) as [Hs He1]. eapply rtc_l; [exact Hs|]. by apply IH.
Qed.

Lemma play_app ms ms' net : play (ms ++ ms') net = play ms net ≫= play ms'.
Proof.
  revert net. induction ms as [|m ms IH]; intros net; simpl; [done|].
  destruct (play1 m net) as [net1|]; simpl; [apply IH|done].
Qed.

Lemma play_shards ms net net' :
  0 <= n → exampleShards net → play ms net = Some net' → exampleShards net'.
Proof.
  intros H0. revert net. induction ms as [|m ms IH]; intros net He; simpl; [by intros [= <-]|].
  intros Hp. apply bind_Some in Hp as (net1 & H1 & Hp).
  destruct (play1_step m net net1 H0 He H1) as [_ He1]. by apply (IH net1).
Qed.
End Run.

(** ** Concrete histories *)

(** A transaction that was begun on every shard. *)
Definition exampleNet : Net Shard :=
  mkNet (λ _, mkShard exampleEnv (served [writeRequest 5 true [exampleOp 1] true])) 1
    {[ 1 := newCoordinator ]} [] 0 [] [] [].

Definition at_ (k : Z) : OpTime.t := OpTime.mk (Timestamp.mk k 1) 1.

(** Two shards prepare, and the decision to commit is durable and acknowledged. *)
Definition exampleVoted : list Move :=
  [MoveEvent 1 RunCommit; MoveWrite (at_ 50); MoveMajority 1; MoveEvent 1 (ListMajority None None);
   MoveSend 1 "a"; MoveSend 1 "b"; MoveDeliver "a" PrepareCmd; MoveVote 1 "a";
   MoveDeliver "b" PrepareCmd; MoveVote 1 "b"; MoveWrite (at_ 51); MoveMajority 2;
   MoveEvent 1 (DecisionMajority None); MoveSend 1 "a"].

(** One of them has committed. *)
Definition exampleCommit : list Move :=
  exampleVoted ++ [MoveDeliver "a" (CommitCmd (Timestamp.mk 14 1))].

Definition exampleShardIds : list ShardId := ["a"; "b"].

(** The network after a script. *)
Definition played (ms : list Move) : Net Shard :=
  default exampleNet (play 5 exampleShardIds "a" ms exampleNet).

Lemma exampleNet_initial : @initialNet Shard (shardParticipant 5) exampleNet.
Proof.
  split; [|reflexivity..]. intros s. split; [split; [|split]|vm_compute; reflexivity].
  - exact exampleEnv_ok.
  - apply served_Idle; [|by vm_compute]. by apply Forall_singleton, writeRequest_client.
  - by vm_compute.
Qed.

Lemma played_reachable ms : networkReachable 5 exampleShardIds "a" (played ms).
Proof.
  exists exampleNet. split; [exact exampleNet_initial|]. unfold played.
  destruct (play _ _ _ ms exampleNet) as [net|] eqn:Hp; [|apply rtc_refl].
  refine (play_steps 5 exampleShardIds "a" ms _ _ _ _ Hp); [lia|]. intros s. reflexivity.
Qed.

(** The last move of a script is a step. *)
Definition runs (ms : list Move) : bool := bool_decide (is_Some (play 5 exampleShardIds "a" ms exampleNet)).

Lemma played_step ms m :
  runs (ms ++ [m]) = true → networkStep 5 exampleShardIds "a" (played ms) (played (ms ++ [m])).
Proof.
  unfold runs, played. rewrite bool_decide_eq_true, play_app. intros [net' Hp]. rewrite Hp. simpl.
  destruct (play _ _ _ ms exampleNet) as [net|] eqn:Hms; [|done]. simpl in Hp |- *.
  apply bind_Some in Hp as (net1 & H1 & [= ->]).
  refine (proj1 (play1_step 5 exampleShardIds "a" m net net' _ _ H1)); [lia|].
  refine (play_shards 5 exampleShardIds "a" ms exampleNet net _ _ Hms); [lia|]. intros s. reflexivity.
Qed.

(** Another primary is elected before that, recovers the decision, has both shards commit and
    deletes the document. *)
Definition exampleAck : RemoteReply + ErrorCode := inl (mkReply None None None).
Definition exampleRecovered : list Move :=
  exampleVoted ++
  [MoveElect 2 2; MoveRecover; MoveEvent 2 (ListMajority None None);
   MoveWrite (OpTime.mk (Timestamp.mk 60 1) 2); MoveMajority 3; MoveEvent 2 (DecisionMajority None);
   MoveSend 2 "a"; MoveSend 2 "b"; MoveDeliver "a" (CommitCmd (Timestamp.mk 14 1));
   MoveDeliver "b" (CommitCmd (Timestamp.mk 14 1)); MoveEvent 2 (DecisionReply "a" exampleAck);
   MoveEvent 2 (DecisionReply "b" exampleAck); MoveWrite (OpTime.mk (Timestamp.mk 61 1) 2)].

Example recovered_commits :
  runs exampleRecovered = true ∧ latest (documents (played exampleRecovered)) = None ∧
  (λ s, shardStanding 5 (sh_session (shards (played exampleRecovered) s))) <$> exampleShardIds
    = [CommittedAt (Timestamp.mk 14 1); CommittedAt (Timestamp.mk 14 1)].
Proof. vm_compute. split_and!; reflexivity. Qed.
