(* ===== verification/TwoPhaseProps.v ===== *)
(** What two-phase commit guarantees, with sessions as its participants: the transaction
    commits on every shard or on none, whatever coordinators follow each other; a commit that
    was acknowledged holds; and no coordinator dies. *)
From stdpp Require Import gmap.
From S2P Require Import Prelude OpTimes TransactionState TransactionParticipant TransactionSession TransactionInv TransactionPhases TransactionRequests TransactionSteps TransactionProps TransactionCoordinator CoordinatorInv TwoPhaseCommit TwoPhaseInv ShardParticipant TwoPhaseRun.
Import TransactionSession TransactionCoordinator.

(** ** Votes *)

Definition commits (r : PrepareResponse) : bool := bool_decide (vote r = Some kCommit).

(** The decision on a list of responses: to commit at the latest prepare timestamp, or to abort
    for the first reason. *)
Definition decisionOn (rs : list PrepareResponse) : CoordinatorCommitDecision :=
  match List.filter (λ r, negb (commits r)) rs with
  | [] => mkDecision kCommit (Some (foldl maxTimestamp Timestamp.null (omap prepareTimestamp rs))) None
  | r :: _ => mkDecision kAbort None (abortReason r)
  end.

Fixpoint registerVotes (rs : list PrepareResponse) (c : PrepareVoteConsensus) : option PrepareVoteConsensus :=
  match rs with
  | [] => Some c
  | r :: rs => c ← registerVote r c; registerVotes rs c
  end.

(** The counts after a list of responses. *)
Lemma registerVotes_run rs c :
  Forall responseOk rs →
  ∃ c', registerVotes rs c = Some c' ∧ numShards c' = numShards c ∧
    numCommitVotes c' + numAbortVotes c' + numNoVotes c' =
      numCommitVotes c + numAbortVotes c + numNoVotes c + Z.of_nat (length rs) ∧
    numCommitVotes c' = numCommitVotes c + Z.of_nat (length (List.filter commits rs)) ∧
    consensusAbortStatus c' =
      match consensusAbortStatus c with
      | Some e => Some e
      | None => match List.filter (λ r, negb (commits r)) rs with [] => None | r :: _ => abortReason r end
      end ∧
    (List.filter (λ r, negb (commits r)) rs = [] →
     maxPrepareTimestamp c' = foldl maxTimestamp (maxPrepareTimestamp c) (omap prepareTimestamp rs)).
Proof.
  intros Hrs. revert c. induction Hrs as [|r rs Hr _ IH]; intros c; simpl.
  { exists c. split_and!; try done; try lia. by destruct (consensusAbortStatus c). }
  unfold responseOk in Hr. unfold registerVote.
  assert (Hcr : commits r = bool_decide (vote r = Some kCommit)) by done.
  destruct (vote r) as [[]|] eqn:Hv; cbn in Hcr; rewrite Hcr; simpl.
  - destruct Hr as [t Ht]. rewrite Ht. simpl.
    edestruct IH as (c' & -> & E1 & E2 & E3 & E4 & E5). exists c'.
    cbn [numShards numCommitVotes numAbortVotes numNoVotes consensusAbortStatus maxPrepareTimestamp] in *.
    split_and!; try done; lia.
  - destruct Hr as [e He]. rewrite He.
    destruct (consensusAbortStatus c) as [e'|]; simpl;
      (edestruct IH as (c' & -> & E1 & E2 & E3 & E4 & _); exists c');
      cbn [numShards numCommitVotes numAbortVotes numNoVotes consensusAbortStatus maxPrepareTimestamp] in *;
      split_and!; try done; lia.
  - destruct Hr as [e He]. rewrite He.
    destruct (consensusAbortStatus c) as [e'|]; simpl;
      (edestruct IH as (c' & -> & E1 & E2 & E3 & E4 & _); exists c');
      cbn [numShards numCommitVotes numAbortVotes numNoVotes consensusAbortStatus maxPrepareTimestamp] in *;
      split_and!; try done; lia.
Qed.

Lemma split_votes_length {A} (f : A → bool) (l : list A) :
  (length (List.filter f l) + length (List.filter (λ x, negb (f x)) l) = length l)%nat.
Proof. induction l as [|x l IH]; simpl; [done|]. destruct (f x); simpl; lia. Qed.

(** ** The network of sessions *)

Section Properties.
Context (n : Z) (PS : list ShardId) (localShard : ShardId).

Definition networkAbstraction : Net Shard → AtomicCommit := @abstraction Shard (shardParticipant n).

Definition sessionOf (net : Net Shard) (s : ShardId) : World := sh_session (shards net s).
Definition standingOf (net : Net Shard) (s : ShardId) : Standing := shardStanding n (sessionOf net s).

Lemma network_ok net : networkReachable n PS localShard net → @NetInv Shard (shardParticipant n) PS net.
Proof. exact (reachable_ok PS localShard net). Qed.

Lemma network_atomic net : networkReachable n PS localShard net → Atomic PS (networkAbstraction net).
Proof. exact (reachable_atomic PS localShard net). Qed.

#[local] Existing Instance numbersUsedOnce.

Lemma session_idle net s : networkReachable n PS localShard net → Idle (sessionOf net s).
Proof. intros Hn%network_ok. apply (ni_ok PS net Hn s). Qed.

Lemma network_steps net net' :
  networkReachable n PS localShard net → rtc (networkStep n PS localShard) net net' → networkReachable n PS localShard net'.
Proof. intros (n0 & Hi & Hr) Hs. exists n0. split; [done|]. by etransitivity. Qed.

(** The verdict is final. *)
Lemma verdict_final net net' v :
  networkReachable n PS localShard net → rtc (networkStep n PS localShard) net net' → verdict (networkAbstraction net) = Some v →
  verdict (networkAbstraction net') = Some v.
Proof.
  intros Hr Hs. revert Hr. induction Hs as [|n1 n2 n3 Hs _ IH]; [done|]. intros Hr Hv.
  assert (Hr2 : networkReachable n PS localShard n2) by (eapply network_steps; [done|by apply rtc_once]).
  apply IH; [done|]. apply (atomic_step_final PS (networkAbstraction n1)); [|done].
  apply (step_simulated PS localShard); [|done]. by apply network_ok.
Qed.

(** What was acknowledged is the verdict. *)
Lemma acknowledged_verdict net T c v :
  networkReachable n PS localShard net → coordinators net !! T = Some c →
  _decisionPromise c = Some (inl v) ∨ _completionPromise c = Some (inl v) →
  v = kCommit ∧ ∃ ct, verdict (networkAbstraction net) = Some (ToCommit ct).
Proof.
  intros Hr%network_ok Hc Hp. pose proof (ni_coordinators PS net Hr T c Hc) as Hok.
  assert (Ht : truthful (durable net) c).
  { unfold CoordinatorOk, Inv in Hok. destruct (waiting c); try (apply Hok);
      destruct Hok as [[_ H1 H2] _]; intros v' [Hv|Hv]; congruence. }
  destruct (Ht v Hp) as [-> (d & Hd & Hk)]. split; [done|].
  exists (default Timestamp.null (commitTimestamp d)). simpl.
  apply (durableDecision_spec PS net d (ni_versions PS net Hr)) in Hd. rewrite Hd. simpl.
  unfold verdictOf. by rewrite Hk.
Qed.

(** The entry that ends a transaction says where its shard stands. *)
Lemma ends_standing w e : Idle w → e ∈ oplog w → ends n e = true → shardStanding n w = endStanding e.
Proof.
  intros Hi Hin He. pose proof (d_endedOnce _ _ (c_durable w (i_core w Hi)) ltac:(by intros []) n) as Hl.
  assert (He' : e ∈ endings n (oplog w)) by (by apply list_elem_of_filter).
  unfold shardStanding. destruct (endings n (oplog w)) as [|e0 l]; [by apply not_elem_of_nil in He'|].
  destruct l as [|]; [|simpl in Hl; lia]. by apply list_elem_of_singleton in He' as ->.
Qed.
End Properties.

(** ** Properties *)

(** C10: two-phase commit refines atomic commit: each step of the network (the shards' sessions, the
    coordinators of all terms, their document and its replication, elections, recovery and
    messages) is one step of the machine in which a verdict is reached once, to commit only
    when every participant is prepared, and shards follow it. *)
Theorem two_phase_refines n PS localShard net net' :
  networkReachable n PS localShard net → networkStep n PS localShard net net' →
  atomic_step PS (networkAbstraction n net) (networkAbstraction n net').
Proof. intros Hr Hs. apply (step_simulated PS localShard); [by apply (network_ok n PS localShard)|done]. Qed.

Lemma two_phase_refines_witness :
  standingOf 5 (played exampleCommit) "a" = CommittedAt (Timestamp.mk 14 1) ∧
  atomic_step exampleShardIds (networkAbstraction 5 (played exampleVoted)) (networkAbstraction 5 (played exampleCommit)).
Proof.
  split; [vm_compute; reflexivity|].
  apply (two_phase_refines 5 exampleShardIds "a"); [apply played_reachable|].
  apply (played_step exampleVoted). vm_compute. reflexivity.
Defined.

(** C4: once the oplog of one shard has the commit of the transaction, no participant aborts it:
    each has committed it at the same time, or is prepared, not later than that, until it is
    told. *)
Theorem shards_commit_atomically n PS localShard net s t ct :
  networkReachable n PS localShard net → EvCommitPrepared n t ct ∈ oplog (sessionOf net s) →
  ∀ s', s' ∈ PS →
    (standingOf n net s' = CommittedAt ct ∨
     ∃ t', standingOf n net s' = PreparedAt t' ∧ Timestamp.lt ct t' = false) ∧
    ∀ t', EvAbort n t' ∉ oplog (sessionOf net s').
Proof.
  intros Hr Hin s' Hs'.
  assert (Hc : standingOf n net s = CommittedAt ct).
  { apply (ends_standing n _ (EvCommitPrepared n t ct)); [|done|apply Z.eqb_refl].
    by apply (session_idle n PS localShard). }
  destruct (network_atomic n PS localShard net Hr) as [A1 A2].
  pose proof (A2 s' ct (A1 s ct Hc) Hs') as Hx. split; [done|]. intros t' Hab.
  assert (standingOf n net s' = AbortedHere) as Ha.
  { apply (ends_standing n _ (EvAbort n t')); [|done|apply Z.eqb_refl].
    by apply (session_idle n PS localShard). }
  change (stands (networkAbstraction n net) s') with (standingOf n net s') in Hx.
  rewrite Ha in Hx. naive_solver.
Qed.

Lemma shards_commit_atomically_witness :
  (standingOf 5 (played exampleCommit) "b" = CommittedAt (Timestamp.mk 14 1) ∨
   ∃ t, standingOf 5 (played exampleCommit) "b" = PreparedAt t ∧ Timestamp.lt (Timestamp.mk 14 1) t = false) ∧
  ∀ t, EvAbort 5 t ∉ oplog (sessionOf (played exampleCommit) "b").
Proof.
  apply (shards_commit_atomically 5 exampleShardIds "a" (played exampleCommit) "a"
           (OpTime.mk (Timestamp.mk 24 1) 1) (Timestamp.mk 14 1)).
  - apply played_reachable.
  - apply (list_elem_of_lookup_2 _ 1). vm_compute. reflexivity.
  - right. left.
Defined.

(** C5: a commit that a coordinator of any term has reported stays the outcome: in every later
    state, after any elections and recoveries, each participant has committed or is prepared,
    at one commit time, and none has aborted. *)
Theorem commit_acknowledged_holds n PS localShard net T c v :
  networkReachable n PS localShard net → coordinators net !! T = Some c →
  _decisionPromise c = Some (inl v) ∨ _completionPromise c = Some (inl v) →
  v = kCommit ∧ ∃ ct, ∀ net', rtc (networkStep n PS localShard) net net' →
    ∀ s, s ∈ PS → standingOf n net' s = CommittedAt ct ∨
      ∃ t, standingOf n net' s = PreparedAt t ∧ Timestamp.lt ct t = false.
Proof.
  intros Hr Hc Hp. destruct (acknowledged_verdict n PS localShard net T c v Hr Hc Hp) as [Hv (ct & Hct)].
  split; [done|]. exists ct. intros net' Hs s Hin.
  apply (at_participants PS _ (network_atomic n PS localShard net' (network_steps _ _ _ _ _ Hr Hs)) s ct); [|done].
  by apply (verdict_final n PS localShard net).
Qed.

(** The coordinator of the first term, after the decision was acknowledged. *)
Definition exampleAcknowledged : Coordinator :=
  default newCoordinator (coordinators (played exampleVoted) !! 1).

Lemma commit_acknowledged_holds_witness :
  kCommit = kCommit ∧ ∃ ct, ∀ net', rtc (networkStep 5 exampleShardIds "a") (played exampleVoted) net' →
    ∀ s, s ∈ exampleShardIds → standingOf 5 net' s = CommittedAt ct ∨
      ∃ t, standingOf 5 net' s = PreparedAt t ∧ Timestamp.lt ct t = false.
Proof.
  apply (commit_acknowledged_holds 5 exampleShardIds "a" (played exampleVoted) 1 exampleAcknowledged).
  - apply played_reachable.
  - vm_compute. reflexivity.
  - left. vm_compute. reflexivity.
Defined.

(** C11: the server that runs a coordinator stops at exactly two events: the coordinating shard
    itself is not found when it is asked to prepare, or a participant is not found when it is
    sent the decision (fassert 51068).  Every other reply, error, timeout, step down and
    cancellation, and each of its writes, made or refused, has a next state. *)
Theorem coordinator_never_dies n PS localShard net T c :
  networkReachable n PS localShard net → coordinators net !! T = Some c →
  (∀ ev, possible net c ev → handle PS localShard ev c = None ↔ fatal localShard c ev = true) ∧
  (∀ doc0 t doc k kf r, DocumentWrite c doc0 t doc k kf →
     is_Some (match r with None => k | Some e => kf e end c)).
Proof.
  intros Hr%network_ok Hc. pose proof (ni_coordinators PS net Hr T c Hc) as Hok. split.
  - intros ev Hp. split; [|apply fatal_dies]. intros Hh. apply not_false_iff_true. intros Hf.
    destruct (event_lives PS localShard net T c ev Hr Hc Hp Hf). congruence.
  - intros doc0 t doc k kf r Hw.
    assert (Hok' : Inv PS (voted net) (durable net) (λ _ _, True) c) by (eapply Inv_mono; [..|exact Hok]; done).
    destruct (DocumentWrite_ok PS _ _ _ c doc0 t doc k kf r Hok' Hw ltac:(done)) as (c' & -> & _). by eexists.
Qed.

Lemma coordinator_never_dies_witness :
  (handle exampleShardIds "a" (DecisionReply "b" (inr Interrupted)) exampleAcknowledged = None ↔ false = true) ∧
  (handle exampleShardIds "a" (DecisionReply "b" (inr ShardNotFound)) exampleAcknowledged = None ↔ true = true).
Proof.
  pose proof (coordinator_never_dies 5 exampleShardIds "a" (played exampleVoted) 1 exampleAcknowledged
    (played_reachable exampleVoted) ltac:(vm_compute; reflexivity)) as [Hev _].
  split.
  - apply (Hev (DecisionReply "b" (inr Interrupted)) I).
  - apply (Hev (DecisionReply "b" (inr ShardNotFound)) I).
Defined.

(** C12: a shard is asked to prepare only when the participants are durable: from then on the next
    primary, whichever it is, finds the document to recover the coordinator from, or it was
    deleted after a decision that is durable. *)
Theorem prepares_recoverable n PS localShard net s :
  networkReachable n PS localShard net → (s, PrepareCmd) ∈ sent net →
  (∃ doc, latest (documents net) = Some doc ∧ doc_participants doc = PS) ∨
  (latest (documents net) = None ∧ is_Some (verdict (networkAbstraction n net))).
Proof.
  intros Hr%network_ok Hin. destruct (prepare_recoverable PS net s Hr Hin) as [?|[? [d Hd]]]; [by left|].
  right. split; [done|]. apply (durableDecision_spec PS net d (ni_versions PS net Hr)) in Hd.
  simpl. rewrite Hd. by eexists.
Qed.

Lemma prepares_recoverable_witness :
  (∃ doc, latest (documents (played exampleVoted)) = Some doc ∧ doc_participants doc = exampleShardIds) ∨
  (latest (documents (played exampleVoted)) = None ∧
   is_Some (verdict (networkAbstraction 5 (played exampleVoted)))).
Proof.
  apply (prepares_recoverable 5 exampleShardIds "a" (played exampleVoted) "b").
  - apply played_reachable.
  - vm_compute. right. left.
Defined.

(** Once every response is in, the decision is to commit, at the latest of the prepare
    timestamps, exactly when all of them vote so; otherwise it is to abort for the reason of
    the first that does not. *)
Theorem votes_decide rs :
  Forall responseOk rs →
  registerVotes rs (newConsensus (Z.of_nat (length rs))) ≫= consensusDecision = Some (decisionOn rs).
Proof.
  intros Hrs. destruct (registerVotes_run rs (newConsensus (Z.of_nat (length rs))) Hrs)
    as (c & -> & E1 & E2 & E3 & E4 & E5). simpl in *. pose proof (split_votes_length commits rs) as Hl.
  unfold consensusDecision, decisionOn.
  assert ((numShards c =? numCommitVotes c + numAbortVotes c + numNoVotes c) = true) as -> by (apply Z.eqb_eq; lia).
  simpl. destruct (List.filter (λ r, negb (commits r)) rs) as [|r l] eqn:Hf; simpl in Hl.
  - assert ((numCommitVotes c =? numShards c) = true) as -> by (apply Z.eqb_eq; lia). by rewrite E5.
  - assert ((numCommitVotes c =? numShards c) = false) as -> by (apply Z.eqb_neq; lia). rewrite E4.
    assert (Hin : r ∈ rs).
    { apply list_elem_of_In. apply (filter_In (λ r, negb (commits r))). rewrite Hf. by left. }
    assert (Hr : commits r = false).
    { apply negb_true_iff. apply (filter_In (λ r, negb (commits r)) r rs). rewrite Hf. by left. }
    rewrite Forall_forall in Hrs. specialize (Hrs r Hin). unfold responseOk in Hrs.
    unfold commits in Hr. apply bool_decide_eq_false in Hr.
    destruct (vote r) as [[]|]; [done|by destruct Hrs as [e ->]..].
Qed.

(** A vote to commit, a vote to abort and a shard that was told to stop. *)
Definition exampleVotes : list PrepareResponse :=
  [mkResponse "a" (Some kCommit) (Some (Timestamp.mk 14 1)) None;
   mkResponse "b" (Some kAbort) None (Some TransactionTooOld);
   mkResponse "c" None None (Some NoSuchTransaction)].

Lemma votes_decide_witness :
  registerVotes exampleVotes (newConsensus 3) ≫= consensusDecision
    = Some (mkDecision kAbort None (Some TransactionTooOld)).
Proof.
  apply (votes_decide exampleVotes). repeat apply Forall_cons_2; [by eexists..|by apply Forall_nil_2].
Defined.
