(* ===== verification/KeyBytes.v ===== *)
(** Sequences of bytes and their order: what key strings are compared by.  A byte is an integer
    below 256; encodings are related by where they first differ, which survives appending and
    the inversion of every bit. *)
From S2P Require Import Prelude.

(** ** Words and bytes *)

Definition isByte (b : Z) : Prop := 0 <= b < 256.
Definition flipByte (b : Z) : Z := 255 - b.

(** The [n] low bytes of a word, in big endian order. *)
Fixpoint bigEndian (n : nat) (v : Z) : list Z :=
  match n with
  | O => []
  | S n => bigEndian n (v / 256) ++ [v mod 256]
  end.

(** The word of bytes in big endian order, after those of [acc]. *)
Definition ofBigEndian (acc : Z) (l : list Z) : Z := foldl (λ a b, a * 256 + b) acc l.

(** ** The order *)

(** The order of two sequences, the shorter of two first. *)
Fixpoint lexcmp (l l' : list Z) : comparison :=
  match l, l' with
  | [], [] => Eq
  | [], _ => Lt
  | _, [] => Gt
  | x :: l, y :: l' => match x ?= y with Eq => lexcmp l l' | c => c end
  end.

(** The first of two comparisons that decides. *)
Definition andThen (c d : comparison) : comparison := match c with Eq => d | _ => c end.

(** Two sequences that differ at a byte both have. *)
Definition Differ (l l' : list Z) (c : comparison) : Prop :=
  ∃ p x y s s', l = p ++ x :: s ∧ l' = p ++ y :: s' ∧ (x ?= y) = c ∧ c ≠ Eq.

(** Encodings that decide the order by themselves. *)
Definition Fixed (l l' : list Z) (c : comparison) : Prop :=
  match c with Eq => l = l' | _ => Differ l l' c end.

(** Encodings that may need to know that they are not followed by the byte 255. *)
Definition Tail (t : list Z) : Prop := ∃ x s, t = x :: s ∧ 0 <= x < 255.

Definition Ordered (l l' : list Z) (c : comparison) : Prop :=
  match c with
  | Eq => l = l'
  | _ => ∀ t t', Tail t → Tail t' → Differ (l ++ t) (l' ++ t') c
  end.

(** ** Comparisons *)

Lemma andThen_opp c d : CompOpp (andThen c d) = andThen (CompOpp c) (CompOpp d).
Proof. by destruct c. Qed.

Lemma flipByte_compare x y : (flipByte x ?= flipByte y) = CompOpp (x ?= y).
Proof. unfold flipByte. destruct (Z.compare_spec x y), (Z.compare_spec (255 - x) (255 - y)); simpl; lia || done. Qed.

Lemma compare_scale (k a b : Z) : 0 < k → (k * a ?= k * b) = (a ?= b).
Proof. intros Hk. destruct (Z.compare_spec a b), (Z.compare_spec (k * a) (k * b)); done || nia. Qed.

Lemma compare_shift (k a b : Z) : (a + k ?= b + k) = (a ?= b).
Proof. destruct (Z.compare_spec a b), (Z.compare_spec (a + k) (b + k)); done || lia. Qed.

Lemma compare_opp (a b : Z) : (- a ?= - b) = CompOpp (a ?= b).
Proof. destruct (Z.compare_spec a b), (Z.compare_spec (- a) (- b)); done || lia. Qed.

Lemma lexcmp_refl l : lexcmp l l = Eq.
Proof. induction l; simpl; [done|]. by rewrite Z.compare_refl. Qed.

Lemma lexcmp_eq l l' : lexcmp l l' = Eq → l = l'.
Proof.
  revert l'. induction l as [|x l IH]; intros [|y l']; simpl; try done.
  destruct (Z.compare_spec x y) as [->|?|?]; try done. intros Hl. by rewrite (IH l').
Qed.

Lemma lexcmp_app p l l' : lexcmp (p ++ l) (p ++ l') = lexcmp l l'.
Proof. induction p; simpl; [done|]. by rewrite Z.compare_refl. Qed.

Lemma lexcmp_opp l l' : lexcmp l' l = CompOpp (lexcmp l l').
Proof.
  revert l'. induction l as [|x l IH]; intros [|y l']; simpl; try done.
  rewrite (Z.compare_antisym x y). destruct (x ?= y); simpl; auto.
Qed.

(** ** Differing sequences *)

Lemma Differ_lexcmp l l' c : Differ l l' c → lexcmp l l' = c.
Proof.
  intros (p & x & y & s & s' & -> & -> & Hc & Hn). rewrite lexcmp_app. simpl. rewrite Hc. by destruct c.
Qed.

Lemma Differ_intro x y s s' c : (x ?= y) = c → c ≠ Eq → Differ (x :: s) (y :: s') c.
Proof. intros Hc Hn. by exists [], x, y, s, s'. Qed.

Lemma Differ_app_r l l' t t' c : Differ l l' c → Differ (l ++ t) (l' ++ t') c.
Proof.
  intros (p & x & y & s & s' & -> & -> & Hc). exists p, x, y, (s ++ t), (s' ++ t').
  by rewrite <- !app_assoc.
Qed.

Lemma Differ_app_l p l l' c : Differ l l' c → Differ (p ++ l) (p ++ l') c.
Proof.
  intros (q & x & y & s & s' & -> & -> & Hc). exists (p ++ q), x, y, s, s'. by rewrite !app_assoc.
Qed.

Lemma Differ_flip l l' c : Differ l l' c → Differ (map flipByte l) (map flipByte l') (CompOpp c).
Proof.
  intros (p & x & y & s & s' & -> & -> & Hc & Hn).
  exists (map flipByte p), (flipByte x), (flipByte y), (map flipByte s), (map flipByte s').
  rewrite !map_app, flipByte_compare, Hc. split_and!; try done. by destruct c.
Qed.

Lemma Differ_neq l l' c : Differ l l' c → c ≠ Eq.
Proof. by intros (?&?&?&?&?&?&?&?&?). Qed.

(** Sequences of one length differ where they do. *)
Lemma lexcmp_Fixed l l' : length l = length l' → Fixed l l' (lexcmp l l').
Proof.
  revert l'. induction l as [|x l IH]; intros [|y l'] Hl; simpl in *; try done.
  destruct (Z.compare_spec x y) as [->|Hx|Hx].
  - pose proof (IH l' ltac:(lia)) as H. unfold Fixed in *.
    destruct (lexcmp l l'); [by rewrite H|by apply (Differ_app_l [y])..].
  - by apply Differ_intro; [apply Z.compare_lt_iff|].
  - by apply Differ_intro; [apply Z.compare_gt_iff|].
Qed.

(** ** Encodings *)

Lemma Fixed_Ordered l l' c : Fixed l l' c → Ordered l l' c.
Proof. destruct c; simpl; [done|intros Hd t t' _ _; by apply Differ_app_r..]. Qed.

Lemma Fixed_flip l l' c : Fixed l l' c → Fixed (map flipByte l) (map flipByte l') (CompOpp c).
Proof. destruct c; simpl; [by intros ->|apply Differ_flip..]. Qed.

Lemma Fixed_app l l' c m m' d : Fixed l l' c → Fixed m m' d → Fixed (l ++ m) (l' ++ m') (andThen c d).
Proof.
  destruct c; simpl; [intros ->|intros; by apply Differ_app_r..].
  destruct d; simpl; [by intros ->|apply Differ_app_l..].
Qed.

Lemma Fixed_Ordered_app l l' c m m' d :
  Fixed l l' c → Ordered m m' d → Ordered (l ++ m) (l' ++ m') (andThen c d).
Proof.
  destruct c; simpl.
  - intros ->. destruct d; simpl; [by intros ->|intros Hd t t' Ht Ht'; rewrite <- !app_assoc;
      apply Differ_app_l; auto..].
  - intros Hd _ t t' _ _. rewrite <- !app_assoc. by apply Differ_app_r.
  - intros Hd _ t t' _ _. rewrite <- !app_assoc. by apply Differ_app_r.
Qed.

Lemma Tail_app t u : Tail t → Tail (t ++ u).
Proof. intros (x & s & -> & Hx). by exists x, (s ++ u). Qed.

Lemma Ordered_app l l' c m m' d :
  Ordered l l' c → Tail m → Tail m' → Ordered m m' d → Ordered (l ++ m) (l' ++ m') (andThen c d).
Proof.
  destruct c; simpl.
  - intros -> _ _. destruct d; simpl; [by intros ->|intros Hd t t' Ht Ht'; rewrite <- !app_assoc;
      apply Differ_app_l; auto..].
  - intros Hd Hm Hm' _ t t' _ _. rewrite <- !app_assoc. apply Hd; by apply Tail_app.
  - intros Hd Hm Hm' _ t t' _ _. rewrite <- !app_assoc. apply Hd; by apply Tail_app.
Qed.

Lemma Ordered_cons x l l' c : Ordered l l' c → Ordered (x :: l) (x :: l') c.
Proof. intros H. exact (Fixed_Ordered_app [x] [x] Eq l l' c eq_refl H). Qed.

Lemma Ordered_byte x y s s' c : (x ?= y) = c → c ≠ Eq → Ordered (x :: s) (y :: s') c.
Proof. intros Hc Hn. apply Fixed_Ordered. destruct c; [done|by apply Differ_intro..]. Qed.

(** Encodings within a key: what follows one is bounded below and above. *)
Definition Inner (t : list Z) : Prop := ∃ x s, t = x :: s ∧ 0 < x < 255.

Lemma Ordered_tail l l' c t t' :
  Ordered l l' c → c ≠ Eq → Inner t → Inner t' → lexcmp (l ++ t) (l' ++ t') = c.
Proof.
  intros Ho Hn (x & s & -> & Hx) (y & u & -> & Hy). apply Differ_lexcmp.
  assert (H1 : Tail (x :: s)) by (exists x, s; split; [done|lia]).
  assert (H2 : Tail (y :: u)) by (exists y, u; split; [done|lia]).
  destruct c; [done|by apply Ho..].
Qed.

Lemma Inner_flip t : Inner t → Inner (map flipByte t).
Proof. intros (x & s & -> & Hx). exists (flipByte x), (map flipByte s). unfold flipByte. split; [done|lia]. Qed.

Lemma flip_flip l : map flipByte (map flipByte l) = l.
Proof. induction l as [|x l IH]; simpl; [done|]. rewrite IH. unfold flipByte. f_equal. lia. Qed.

Lemma flip_Forall l : Forall isByte l → Forall isByte (map flipByte l).
Proof. unfold isByte, flipByte. induction 1; simpl; constructor; [lia|done]. Qed.

Lemma Ordered_tail_flip l l' c t t' :
  Ordered l l' c → c ≠ Eq → Inner t → Inner t' →
  lexcmp (map flipByte l ++ t) (map flipByte l' ++ t') = CompOpp c.
Proof.
  intros Ho Hn Ht Ht'.
  assert (Hd : Differ (l ++ map flipByte t) (l' ++ map flipByte t') c).
  { apply Inner_flip in Ht as (x & s & -> & Hx). apply Inner_flip in Ht' as (y & u & -> & Hy).
    assert (H1 : Tail (x :: s)) by (exists x, s; split; [done|lia]).
    assert (H2 : Tail (y :: u)) by (exists y, u; split; [done|lia]).
    destruct c; [done|by apply Ho..]. }
  apply Differ_flip, Differ_lexcmp in Hd. by rewrite !map_app, !flip_flip in Hd.
Qed.

(** ** Big endian words *)

Lemma bigEndian_length n v : length (bigEndian n v) = n.
Proof. revert v. induction n as [|n IH]; intros v; simpl; [done|]. rewrite length_app, IH. simpl. lia. Qed.

Lemma bigEndian_bytes n v : Forall isByte (bigEndian n v).
Proof.
  revert v. induction n as [|n IH]; intros v; simpl; [constructor|]. apply Forall_app. split; [done|].
  apply Forall_singleton. unfold isByte. pose proof (Z.mod_pos_bound v 256). lia.
Qed.

Lemma pow256_S n : 256 ^ Z.of_nat (S n) = 256 * 256 ^ Z.of_nat n.
Proof. rewrite Nat2Z.inj_succ, Z.pow_succ_r by lia. done. Qed.

Lemma ofBigEndian_app acc l m : ofBigEndian acc (l ++ m) = ofBigEndian (ofBigEndian acc l) m.
Proof. apply foldl_app. Qed.

Lemma ofBigEndian_word n v acc :
  0 <= v < 256 ^ Z.of_nat n → ofBigEndian acc (bigEndian n v) = acc * 256 ^ Z.of_nat n + v.
Proof.
  revert v. induction n as [|n IH]; intros v Hv; [simpl; unfold ofBigEndian; simpl; simpl in Hv; lia|].
  rewrite pow256_S in *. simpl bigEndian. rewrite ofBigEndian_app, IH by (Z.to_euclidean_division_equations; nia).
  unfold ofBigEndian at 1. simpl. pose proof (Z.div_mod v 256). lia.
Qed.

(** Words of one size are ordered as their bytes. *)
Lemma bigEndian_order n v w :
  0 <= v < 256 ^ Z.of_nat n → 0 <= w < 256 ^ Z.of_nat n →
  Fixed (bigEndian n v) (bigEndian n w) (v ?= w).
Proof.
  revert v w. induction n as [|n IH]; intros v w Hv Hw.
  { simpl in *. assert (v = w) as -> by lia. by rewrite Z.compare_refl. }
  rewrite pow256_S in *. simpl.
  replace (v ?= w) with (andThen (v / 256 ?= w / 256) (v mod 256 ?= w mod 256)).
  - apply Fixed_app; [apply IH; Z.to_euclidean_division_equations; nia|].
    unfold Fixed. destruct (Z.compare_spec (v mod 256) (w mod 256)) as [->|?|?]; [done|..].
    + by apply Differ_intro; [apply Z.compare_lt_iff|].
    + by apply Differ_intro; [apply Z.compare_gt_iff|].
  - unfold andThen. destruct (Z.compare_spec (v / 256) (w / 256)), (Z.compare_spec (v mod 256) (w mod 256)),
      (Z.compare_spec v w); try done; Z.to_euclidean_division_equations; nia.
Qed.

Lemma bigEndian_app n m a b :
  0 <= b < 256 ^ Z.of_nat m →
  bigEndian (n + m) (a * 256 ^ Z.of_nat m + b) = bigEndian n a ++ bigEndian m b.
Proof.
  revert a b. induction m as [|m IH]; intros a b Hb.
  { simpl in *. rewrite Nat.add_0_r, app_nil_r. f_equal. lia. }
  rewrite pow256_S in *. rewrite Nat.add_succ_r. simpl.
  replace ((a * (256 * 256 ^ Z.of_nat m) + b) / 256) with (a * 256 ^ Z.of_nat m + b / 256)
    by (Z.to_euclidean_division_equations; nia).
  replace ((a * (256 * 256 ^ Z.of_nat m) + b) mod 256) with (b mod 256)
    by (rewrite <- (Z.mod_add b (a * 256 ^ Z.of_nat m) 256) by lia; f_equal; lia).
  rewrite IH by (Z.to_euclidean_division_equations; nia). by rewrite app_assoc.
Qed.

Lemma bigEndian_Fixed_eq n v w :
  0 <= v < 256 ^ Z.of_nat n → 0 <= w < 256 ^ Z.of_nat n → bigEndian n v = bigEndian n w → v = w.
Proof.
  intros Hv Hw He. pose proof (ofBigEndian_word n v 0 Hv) as H1. rewrite He, ofBigEndian_word in H1 by done. lia.
Qed.

(** ** Words by their bits *)

Lemma lor_add a k b : 0 <= k → 0 <= b < 2 ^ k → Z.lor (Z.shiftl a k) b = a * 2 ^ k + b.
Proof.
  intros Hk Hb. rewrite Z.shiftl_mul_pow2 by lia. rewrite <- Z.lxor_lor, <- Z.add_nocarry_lxor; try done.
  all: apply Z.bits_inj'; intros n Hn; rewrite Z.land_spec, Z.bits_0.
  all: destruct (Z.lt_ge_cases n k) as [Hlt|Hge]; [by rewrite Z.mul_pow2_bits_low|].
  all: rewrite <- (Z.mod_small b (2 ^ k)) by lia; rewrite Z.mod_pow2_bits_high by lia; apply andb_false_r.
Qed.

Lemma pow256 n : 256 ^ Z.of_nat n = 2 ^ (8 * Z.of_nat n).
Proof. change 256 with (2 ^ 8). rewrite <- Z.pow_mul_r by lia. done. Qed.

Lemma bigEndian_mod n v : bigEndian n (v mod 256 ^ Z.of_nat n) = bigEndian n v.
Proof.
  revert v. induction n as [|n IH]; intros v; [done|]. simpl bigEndian. rewrite pow256_S.
  pose proof (Z.pow_pos_nonneg 256 (Z.of_nat n) ltac:(lia) ltac:(lia)) as Hp.
  rewrite Z.rem_mul_r by lia. f_equal.
  - rewrite <- (IH (v / 256)). f_equal. rewrite (Z.mul_comm 256), Z.div_add by lia.
    rewrite (Z.div_small (v mod 256)) by (apply Z.mod_pos_bound; lia). lia.
  - f_equal. rewrite (Z.mul_comm 256), Z.mod_add by lia. by rewrite Z.mod_mod by lia.
Qed.

Lemma bigEndian_head n v : bigEndian (S n) v = v / 256 ^ Z.of_nat n mod 256 :: bigEndian n v.
Proof.
  pose proof (Z.pow_pos_nonneg 256 (Z.of_nat n) ltac:(lia) ltac:(lia)) as Hp.
  pose proof (bigEndian_app 1 n (v / 256 ^ Z.of_nat n) (v mod 256 ^ Z.of_nat n)) as H.
  rewrite bigEndian_mod in H. simpl (1 + n)%nat in H.
  rewrite (Z.mul_comm (v / _)), <- Z.div_mod in H by lia. apply H. by apply Z.mod_pos_bound.
Qed.

(** Bytes with every bit inverted, or as they are. *)
Definition flipIf (invert : bool) (l : list Z) : list Z := if invert then map flipByte l else l.

Lemma flipIf_app invert l m : flipIf invert (l ++ m) = flipIf invert l ++ flipIf invert m.
Proof. destruct invert; simpl; [apply map_app|done]. Qed.

Lemma flipIf_length invert l : length (flipIf invert l) = length l.
Proof. destruct invert; simpl; [apply length_map|done]. Qed.

Lemma flipIf_negb invert l : flipIf (negb invert) l = flipIf invert (map flipByte l).
Proof. destruct invert; simpl; [by rewrite flip_flip|done]. Qed.

Lemma flipByte_flip x : flipByte (flipByte x) = x.
Proof. unfold flipByte. lia. Qed.
