(* ===== verification/BsonValue.v ===== *)
(** BSON values and their order: src/mongo/bson/bsonelement.cpp, bsonobj.cpp, bsontypes.h,
    ordering.h and src/mongo/base/compare_numbers.h.  Doubles are their 64 bits.  Values of type
    NumberDecimal are left out: their arithmetic is that of a library.  An [int] that is a
    result of a comparison is represented by its sign; [None] is MONGO_UNREACHABLE. *)
From stdpp Require Import pretty.
From S2P Require Import Prelude OpTimes KeyBytes.

(** ** Doubles *)

Module Double.

(** 2^1074: magnitudes are counted in units of the smallest double. *)
Definition one : Z := 2 ^ 1074.

Definition magBits (d : Z) : Z := d mod 2 ^ 63.
Definition signbit (d : Z) : bool := 2 ^ 63 <=? d.
Definition infinityBits : Z := 2047 * 2 ^ 52.
Definition isNaN (d : Z) : bool := infinityBits <? magBits d.
Definition isfinite (d : Z) : bool := magBits d <? infinityBits.

(** The magnitude of an exponent and a mantissa, an infinity's being above all others. *)
Definition magOf (b : Z) : Z :=
  if b <? 2 ^ 52 then b else (2 ^ 52 + b mod 2 ^ 52) * 2 ^ (b / 2 ^ 52 - 1).
Definition mag (d : Z) : Z := magOf (magBits d).
Definition val (d : Z) : Z := if signbit d then - mag d else mag d.

Definition neg (d : Z) : Z := if signbit d then d - 2 ^ 63 else d + 2 ^ 63.
Definition withSign (negative : bool) (b : Z) : Z := if negative then b + 2 ^ 63 else b.

(** Division by a power of two, to the nearest, ties to even. *)
Definition roundShift (x k : Z) : Z :=
  let q := x / 2 ^ k in
  let r := x mod 2 ^ k in
  if (2 ^ k <? 2 * r) || ((2 ^ k =? 2 * r) && Z.odd q) then q + 1 else q.

(** The double nearest to a magnitude. *)
Definition ofMag (x : Z) : Z :=
  let k := Z.max 0 (Z.log2 x - 52) in
  Z.min (k * 2 ^ 52 + roundShift x k) infinityBits.

(** Conversion of an integer, multiplication by a power of two, truncation. *)
Definition ofInteger (z : Z) : Z := withSign (z <? 0) (ofMag (Z.abs z * one)).
Definition scale (d k : Z) : Z :=
  if isfinite d then
    withSign (signbit d) (ofMag (if 0 <=? k then mag d * 2 ^ k else roundShift (mag d) (- k)))
  else d.
Definition truncate (d : Z) : Z := Z.quot (val d) one.

Definition eqb (l r : Z) : bool := negb (isNaN l) && negb (isNaN r) && (val l =? val r).
Definition ltb (l r : Z) : bool := negb (isNaN l) && negb (isNaN r) && (val l <? val r).

End Double.

(** ** Comparing numbers *)

Definition compareLongs (lhs rhs : Z) : comparison :=
  if lhs =? rhs then Eq else if lhs <? rhs then Lt else Gt.

Definition compareDoubles (lhs rhs : Z) : comparison :=
  if Double.eqb lhs rhs then Eq
  else if Double.ltb lhs rhs then Lt
  else if Double.ltb rhs lhs then Gt
  else if Double.isNaN lhs then (if Double.isNaN rhs then Eq else Lt)
  else Gt.

(** 2^63 as a double. *)
Definition kBoundOfLongRange : Z := Double.ofInteger (2 ^ 63).

Definition compareLongToDouble (lhs rhs : Z) : comparison :=
  if Double.isNaN rhs then Gt
  else if (lhs <=? 2 ^ 53) && (- 2 ^ 53 <=? lhs) then compareDoubles (Double.ofInteger lhs) rhs
  else if Double.ltb kBoundOfLongRange rhs || Double.eqb kBoundOfLongRange rhs then Lt
  else if Double.ltb rhs (Double.neg kBoundOfLongRange) then Gt
  else compareLongs lhs (Double.truncate rhs).

Definition compareDoubleToLong (lhs rhs : Z) : comparison := CompOpp (compareLongToDouble rhs lhs).

(** ** Values *)

Definition Bytes : Type := list Z.

#[local] Unset Elimination Schemes.
Inductive Value :=
  | MinKey
  | MaxKey
  | Undefined
  | JstNULL
  | NumberDouble (d : Z)
  | NumberInt (i : Z)
  | NumberLong (l : Z)
  | BsonString (s : Bytes)
  | Symbol (s : Bytes)
  | Object (fields : list (Bytes * Value))
  | Array (fields : list (Bytes * Value))
  | BinData (data : Bytes) (type : Z)
  | OID (oid : Bytes)
  | Bool (b : bool)
  | Date (millis : Z)
  | RegEx (pattern flags : Bytes)
  | DBRef (ns oid : Bytes)
  | Code (s : Bytes)
  | CodeWScope (s : Bytes) (scope : list (Bytes * Value))
  | BsonTimestamp (t : Timestamp.t).
#[local] Set Elimination Schemes.

Definition BSONObj : Type := list (Bytes * Value).

(** The names an array's builder gives to its elements, which are decimal. *)
Definition positionName (i : nat) : Bytes :=
  map (λ a, Z.of_N (Ascii.N_of_ascii a)) (String.list_ascii_of_string (pretty (N.of_nat i))).
Definition arrayFields (elems : list Value) : BSONObj := zip (map positionName (seq 0 (length elems))) elems.

(** [BSONType]. *)
Definition type (v : Value) : Z :=
  match v with
  | MinKey => -1 | NumberDouble _ => 1 | BsonString _ => 2 | Object _ => 3 | Array _ => 4
  | BinData _ _ => 5 | Undefined => 6 | OID _ => 7 | Bool _ => 8 | Date _ => 9 | JstNULL => 10
  | RegEx _ _ => 11 | DBRef _ _ => 12 | Code _ => 13 | Symbol _ => 14 | CodeWScope _ _ => 15
  | NumberInt _ => 16 | BsonTimestamp _ => 17 | NumberLong _ => 18 | MaxKey => 127
  end.

Definition canonicalType (v : Value) : Z :=
  match v with
  | MinKey => -1
  | MaxKey => 127
  | Undefined => 0
  | JstNULL => 5
  | NumberDouble _ | NumberInt _ | NumberLong _ => 10
  | BsonString _ | Symbol _ => 15
  | Object _ => 20
  | Array _ => 25
  | BinData _ _ => 30
  | OID _ => 35
  | Bool _ => 40
  | Date _ => 45
  | BsonTimestamp _ => 47
  | RegEx _ _ => 50
  | DBRef _ _ => 55
  | Code _ => 60
  | CodeWScope _ _ => 65
  end.

(** ** Comparing values *)

(** [memcmp] of the first [n] bytes. *)
Definition memcmp (l r : Bytes) (n : nat) : comparison := lexcmp (take n l) (take n r).

Definition compareSizes (l r : nat) : comparison := Nat.compare l r.

(** The terminating zero is part of the size and of the bytes. *)
Definition compareElementStringValues (l r : Bytes) : comparison :=
  let lsz := S (length l) in
  let rsz := S (length r) in
  andThen (memcmp (l ++ [0]) (r ++ [0]) (Nat.min lsz rsz)) (compareSizes lsz rsz).

(** [StringData::compare]. *)
Definition compareStringData (l r : Bytes) : comparison :=
  andThen (memcmp l r (Nat.min (length l) (length r))) (compareSizes (length l) (length r)).

(** [strcmp], on sequences without a zero. *)
Definition strcmp (l r : Bytes) : comparison := lexcmp (l ++ [0]) (r ++ [0]).

(** The bytes of a DBRef's value: the size of its name with the zero, the name, the id. *)
Definition dbrefValue (ns oid : Bytes) : Bytes :=
  rev (bigEndian 4 (Z.of_nat (S (length ns)))) ++ ns ++ [0] ++ oid.

Definition compareTimestamps (l r : Timestamp.t) : comparison :=
  if Timestamp.lt l r then Lt else if Timestamp.eqb l r then Eq else Gt.

(** An optional comparator of strings, which is a collator's. *)
Definition Comparator : Type := option (Bytes → Bytes → comparison).

Section CompareObjects.
Variable woCompare : bool → Bytes * Value → Bytes * Value → option comparison.

(** [compareObjects]: the fields are compared with their names. *)
Fixpoint compareObjects (l r : BSONObj) : option comparison :=
  match l, r with
  | [], [] => Some Eq
  | [], _ => Some Lt
  | _, [] => Some Gt
  | x :: l, y :: r =>
      c ← woCompare true x y;
      match c with Eq => compareObjects l r | _ => Some c end
  end.

End CompareObjects.

(** [BSONElement::woCompare] over the comparison of the values of one canonical type. *)
Definition elementCompare (compareElements : Value → Value → option comparison)
    (considerFieldName : bool) (l r : Bytes * Value) : option comparison :=
  let byType :=
    if type l.2 =? type r.2 then Eq else canonicalType l.2 ?= canonicalType r.2 in
  match byType with
  | Eq =>
      match (if considerFieldName then compareStringData l.1 r.1 else Eq) with
      | Eq => compareElements l.2 r.2
      | c => Some c
      end
  | c => Some c
  end.

Fixpoint compareElements (comparator : Comparator) (l r : Value) {struct l} : option comparison :=
  match l, r with
  | (Undefined | JstNULL | MaxKey | MinKey), _ => Some (canonicalType l ?= canonicalType r)
  | Bool a, Bool b => Some (Z.b2z a ?= Z.b2z b)
  | BsonTimestamp a, BsonTimestamp b => Some (compareTimestamps a b)
  | Date a, Date b => Some (if a <? b then Lt else if a =? b then Eq else Gt)
  | NumberInt a, NumberInt b => Some (compareLongs a b)
  | NumberInt a, NumberLong b => Some (compareLongs a b)
  | NumberInt a, NumberDouble b => Some (compareDoubles (Double.ofInteger a) b)
  | NumberLong a, NumberLong b => Some (compareLongs a b)
  | NumberLong a, NumberInt b => Some (compareLongs a b)
  | NumberLong a, NumberDouble b => Some (compareLongToDouble a b)
  | NumberDouble a, NumberDouble b => Some (compareDoubles a b)
  | NumberDouble a, NumberInt b => Some (compareDoubles a (Double.ofInteger b))
  | NumberDouble a, NumberLong b => Some (compareDoubleToLong a b)
  | OID a, OID b => Some (memcmp a b 12)
  | Code a, Code b => Some (compareElementStringValues a b)
  | (Symbol a | BsonString a), (Symbol b | BsonString b) =>
      Some match comparator with
           | Some compare => compare a b
           | None => compareElementStringValues a b
           end
  | Object a, Object b | Array a, Array b =>
      compareObjects (λ names x y, elementCompare (compareElements comparator) names x y) a b
  | DBRef a i, DBRef b j =>
      let l := dbrefValue a i in
      let r := dbrefValue b j in
      Some (andThen (compareSizes (length l) (length r)) (memcmp l r (length l)))
  | BinData a s, BinData b t =>
      Some (andThen (compareSizes (length a) (length b)) (memcmp (s :: a) (t :: b) (S (length a))))
  | RegEx p f, RegEx q g => Some (andThen (strcmp p q) (strcmp f g))
  | CodeWScope a s, CodeWScope b t =>
      match compareStringData a b with
      | Eq => compareObjects (λ names x y, elementCompare (compareElements None) names x y) s t
      | c => Some c
      end
  | _, _ => None
  end.

(** [BSONElement::woCompare]. *)
Definition woCompareElement (comparator : Comparator) :=
  elementCompare (compareElements comparator).

(** ** Orderings *)

(** [Ordering]: a bit for each descending field. *)
Definition kMaxCompoundIndexKeys : nat := 32.

Definition get (bits : Z) (i : nat) : Z :=
  if (kMaxCompoundIndexKeys <=? i)%nat then 1
  else if Z.testbit bits (Z.of_nat i) then -1 else 1.

(** [descending] of the mask, an unsigned that [woCompare] shifts. *)
Definition descending (bits mask : Z) : bool := negb (Z.land bits mask =? 0).

Section WoCompare.
Context (comparator : Comparator) (ord : Z) (considerFieldName : bool).

(** [BSONObj::woCompare] with an ordering, from a field and its mask on. *)
Fixpoint woCompareFrom (mask : Z) (l r : BSONObj) : option comparison :=
  match l, r with
  | [], [] => Some Eq
  | [], _ => Some Lt
  | _, [] => Some Gt
  | x :: l, y :: r =>
      c ← woCompareElement comparator considerFieldName x y;
      match (if descending ord mask then CompOpp c else c) with
      | Eq => woCompareFrom ((mask * 2) mod 2 ^ 32) l r
      | c => Some c
      end
  end.

Definition woCompare (l r : BSONObj) : option comparison := woCompareFrom 1 l r.
End WoCompare.
