(* ===== verification/KeyString.v ===== *)
(** Building key strings: src/mongo/db/storage/key_string.{h,cpp}.  The builder appends the
    encoding of values to its buffer, with every bit inverted for descending fields, and what
    the encoding forgets of their types to the type bits.  Both versions of the format are
    modelled; decimals, which only the second one has, are not. *)
From S2P Require Import Prelude OpTimes KeyBytes BsonValue.

(** A call returns, throws an exception, or fails an invariant. *)
Inductive Result (A : Type) := Returned (a : A) | Thrown (code : Z) | Terminated.
Arguments Returned {A} _.
Arguments Thrown {A} _.
Arguments Terminated {A}.

#[global] Instance Result_bind : MBind Result := λ A B f m,
  match m with Returned a => f a | Thrown c => Thrown c | Terminated => Terminated end.
#[global] Instance Result_ret : MRet Result := @Returned.

(** The server's [invariant]. *)
Definition ensures (b : bool) : Result unit := if b then Returned tt else Terminated.
Definition keyStringAssert (code : Z) (b : bool) : Result unit := if b then Returned tt else Thrown code.

Inductive Version := V0 | V1.

#[global] Instance Version_eq_dec : EqDecision Version.
Proof. solve_decision. Defined.

Definition countLeadingZeros64 (v : Z) : Z := if v =? 0 then 64 else 63 - Z.log2 v.

(** ** Canonical types *)

Module CType.
Definition kMinKey : Z := 10.
Definition kUndefined : Z := 15.
Definition kNullish : Z := 20.
Definition kNumeric : Z := 30.
Definition kStringLike : Z := 60.
Definition kObject : Z := 70.
Definition kArray : Z := 80.
Definition kBinData : Z := 90.
Definition kOID : Z := 100.
Definition kBool : Z := 110.
Definition kDate : Z := 120.
Definition kTimestamp : Z := 130.
Definition kRegEx : Z := 140.
Definition kDBRef : Z := 150.
Definition kCode : Z := 160.
Definition kCodeWithScope : Z := 170.
Definition kMaxKey : Z := 240.

Definition kNumericNaN : Z := kNumeric + 0.
Definition kNumericNegativeLargeMagnitude : Z := kNumeric + 1.
Definition kNumericNegative8ByteInt : Z := kNumeric + 2.
Definition kNumericNegative1ByteInt : Z := kNumeric + 9.
Definition kNumericNegativeSmallMagnitude : Z := kNumeric + 10.
Definition kNumericZero : Z := kNumeric + 11.
Definition kNumericPositiveSmallMagnitude : Z := kNumeric + 12.
Definition kNumericPositive1ByteInt : Z := kNumeric + 13.
Definition kNumericPositive8ByteInt : Z := kNumeric + 20.
Definition kNumericPositiveLargeMagnitude : Z := kNumeric + 21.

Definition kBoolFalse : Z := kBool + 0.
Definition kBoolTrue : Z := kBool + 1.

Definition numBytesForInt (ctype : Z) : Z :=
  if kNumericPositive1ByteInt <=? ctype then ctype - kNumericPositive1ByteInt + 1
  else kNumericNegative1ByteInt - ctype + 1.
End CType.

Definition kEnd : Z := 4.
Definition kLess : Z := 1.
Definition kGreater : Z := 254.

Definition bsonTypeToGenericKeyStringType (v : Value) : Z :=
  match v with
  | MinKey => CType.kMinKey
  | JstNULL => CType.kNullish
  | Undefined => CType.kUndefined
  | NumberDouble _ | NumberInt _ | NumberLong _ => CType.kNumeric
  | BsonString _ | Symbol _ => CType.kStringLike
  | Object _ => CType.kObject
  | Array _ => CType.kArray
  | BinData _ _ => CType.kBinData
  | OID _ => CType.kOID
  | Bool _ => CType.kBool
  | Date _ => CType.kDate
  | BsonTimestamp _ => CType.kTimestamp
  | RegEx _ _ => CType.kRegEx
  | DBRef _ _ => CType.kDBRef
  | Code _ => CType.kCode
  | CodeWScope _ _ => CType.kCodeWithScope
  | MaxKey => CType.kMaxKey
  end.

(** ** Type bits *)

Definition kMaxBytesForShortEncoding : nat := 127.

Definition kString : Z := 0.
Definition kSymbol : Z := 1.
Definition kInt : Z := 0.
Definition kLong : Z := 1.
Definition kDouble : Z := 2.
Definition kDecimal : Z := 3.
Definition kSpecialZeroPrefix : Z := 3.
Definition kNegativeDoubleZero : Z := 3.
Definition kV0NegativeDoubleZero : Z := 3.
Definition kV1NegativeDoubleZero : Z := 24.

(** The data bytes; the bytes that encode their size precede them in [getBuffer]. *)
Record TypeBits := mkTypeBits {
  tb_version : Version;
  _curBit : nat;
  _isAllZeros : bool;
  dataBuffer : list Z
}.

Definition newTypeBits (v : Version) : TypeBits := mkTypeBits v 0 true [].

(** [setRawSize] grows the data to the byte that is written. *)
Definition appendBit (oneOrZero : Z) (tb : TypeBits) : TypeBits :=
  let byte := (_curBit tb / 8)%nat in
  let offsetInByte := Z.of_nat (_curBit tb mod 8) in
  let data :=
    if offsetInByte =? 0 then take byte (dataBuffer tb) ++ [oneOrZero]
    else alter (λ b, Z.lor b (Z.shiftl oneOrZero offsetInByte)) byte (dataBuffer tb) in
  mkTypeBits (tb_version tb) (S (_curBit tb)) (_isAllZeros tb && negb (oneOrZero =? 1)) data.

(** Two bits, the high one first. *)
Definition appendTwoBits (v : Z) (tb : TypeBits) : TypeBits :=
  appendBit (Z.land v 1) (appendBit (Z.shiftr v 1) tb).

Definition appendZero (zeroType : Z) (tb : TypeBits) : TypeBits :=
  if zeroType =? kNegativeDoubleZero then
    match tb_version tb with
    | V0 => appendTwoBits kV0NegativeDoubleZero tb
    | V1 =>
        foldl (λ tb bitPos, appendBit (Z.land (Z.shiftr kV1NegativeDoubleZero bitPos) 1) tb) tb
          [4; 3; 2; 1; 0]
    end
  else appendTwoBits zeroType tb.

Definition getSize (tb : TypeBits) : nat :=
  if _isAllZeros tb then 1
  else
    let rawSize := length (dataBuffer tb) in
    if (kMaxBytesForShortEncoding <? rawSize)%nat then rawSize + 5
    else if (rawSize =? 1)%nat && negb (Z.testbit (nth 0 (dataBuffer tb) 0) 7) then 1
    else S rawSize.

(** The size, in one byte or, behind a signal byte, in four of little endian order. *)
Definition sizeBytes (rawSize : nat) : list Z :=
  if (kMaxBytesForShortEncoding <? rawSize)%nat then 128 :: rev (bigEndian 4 (Z.of_nat rawSize))
  else [Z.lor 128 (Z.of_nat rawSize)].

Definition getBuffer (tb : TypeBits) : list Z :=
  if _isAllZeros tb then [0]
  else if (getSize tb =? 1)%nat then take 1 (dataBuffer tb)
  else sizeBytes (length (dataBuffer tb)) ++ dataBuffer tb.

(** ** The builder *)

Inductive BuildState :=
  kEmpty | kAppendingBSONElements | kEndAdded | kAppendedRecordID | kAppendedTypeBits | kReleased.

#[global] Instance BuildState_eq_dec : EqDecision BuildState.
Proof. solve_decision. Defined.

Inductive Discriminator := kInclusive | kExclusiveBefore | kExclusiveAfter.

Record Builder := mkBuilder {
  version : Version;
  _typeBits : TypeBits;
  _buffer : list Z;
  _state : BuildState;
  _elemCount : nat;
  _ordering : Z;
  _discriminator : Discriminator
}.

Definition newBuilder (v : Version) (ord : Z) (d : Discriminator) : Builder :=
  mkBuilder v (newTypeBits v) [] kEmpty 0 ord d.

Definition withTypeBits (f : TypeBits → TypeBits) (b : Builder) : Builder :=
  mkBuilder (version b) (f (_typeBits b)) (_buffer b) (_state b) (_elemCount b) (_ordering b) (_discriminator b).
Definition withState (s : BuildState) (b : Builder) : Builder :=
  mkBuilder (version b) (_typeBits b) (_buffer b) s (_elemCount b) (_ordering b) (_discriminator b).
Definition nextElement (b : Builder) : Builder :=
  mkBuilder (version b) (_typeBits b) (_buffer b) (_state b) (S (_elemCount b)) (_ordering b) (_discriminator b).

(** ** Lowest level *)

Definition _appendBytes (source : Bytes) (invert : bool) (b : Builder) : Builder :=
  mkBuilder (version b) (_typeBits b) (_buffer b ++ (if invert then map flipByte source else source))
    (_state b) (_elemCount b) (_ordering b) (_discriminator b).

(** [_append] of a byte and of a word of eight bytes, which the callers turn into big endian
    order. *)
Definition _append (byte : Z) (invert : bool) : Builder → Builder := _appendBytes [byte] invert.
Definition _appendWord (word : Z) (invert : bool) : Builder → Builder := _appendBytes (bigEndian 8 word) invert.

(** The bytes before the first zero. *)
Fixpoint beforeNul (s : Bytes) : Bytes :=
  match s with [] => [] | x :: s => if x =? 0 then [] else x :: beforeNul s end.

(** The loop of [_appendStringLike]; [fuel] bounds the number of zeros. *)
Fixpoint appendStringLoop (fuel : nat) (str : Bytes) (invert : bool) (b : Builder) : Result Builder :=
  match fuel with
  | O => Terminated
  | S fuel =>
      let firstNul := length (beforeNul str) in
      let b := _appendBytes (take firstNul str) invert b in
      if (firstNul =? length str)%nat then Returned (_append 0 invert b)
      else appendStringLoop fuel (drop (S firstNul) str) invert (_appendBytes [0; 255] invert b)
  end.

Definition _appendStringLike (str : Bytes) (invert : bool) : Builder → Result Builder :=
  appendStringLoop (S (length str)) str invert.

(** ** Numbers *)

(** [DecimalContinuationMarker]. *)
Definition kDCMEqualToDouble : Z := 0.
Definition kDCMEqualToDoubleRoundedUpTo15Digits : Z := 2.

Definition kMinLargeDouble : Z := Double.ofInteger (2 ^ 63).
(** 2^(-255). *)
Definition kTiniestDoubleWith2BitDCM : Z := (1023 - 255) * 2 ^ 52.
Definition kTinyDoubleExponentShift : Z := 256.

Definition _appendPreshiftedIntegerPortion (value : Z) (isNegative invert : bool) (b : Builder) : Builder :=
  let bytesNeeded := (64 - countLeadingZeros64 value + 7) / 8 in
  let bytes := bigEndian (Z.to_nat bytesNeeded) value in
  if isNegative then
    _appendBytes bytes (negb invert)
      (_append (CType.kNumericNegative1ByteInt - (bytesNeeded - 1)) invert b)
  else
    _appendBytes bytes invert
      (_append (CType.kNumericPositive1ByteInt + (bytesNeeded - 1)) invert b).

Definition _appendSmallDouble (value dcm : Z) (invert : bool) (b : Builder) : Result Builder :=
  let isNegative := Double.ltb value 0 in
  let magnitude := if isNegative then Double.neg value else value in
  let b := _append (if isNegative then CType.kNumericNegativeSmallMagnitude
                    else CType.kNumericPositiveSmallMagnitude) invert b in
  encoded ←
    match version b with
    | V0 => Returned value
    | V1 =>
        if Double.ltb kTiniestDoubleWith2BitDCM magnitude || Double.eqb kTiniestDoubleWith2BitDCM magnitude
        then Returned (Z.lor (Z.shiftl magnitude 2 mod 2 ^ 64) dcm)
        else
          ensures (negb (dcm =? kDCMEqualToDoubleRoundedUpTo15Digits)) ≫= λ _,
          let magnitude := Double.scale magnitude kTinyDoubleExponentShift in
          let encoded := Z.lor (Z.shiftl magnitude 1 mod 2 ^ 64) (Z.b2z (negb (dcm =? kDCMEqualToDouble))) in
          Returned ((encoded + 2 ^ 62) mod 2 ^ 64)
    end;
  Returned (_appendWord encoded (if isNegative then negb invert else invert) b).

Definition _appendLargeDouble (value dcm : Z) (invert : bool) (b : Builder) : Result Builder :=
  ensures (negb (dcm =? kDCMEqualToDoubleRoundedUpTo15Digits)) ≫= λ _,
  let positive := Double.ltb 0 value in
  let b := _append (if positive then CType.kNumericPositiveLargeMagnitude
                    else CType.kNumericNegativeLargeMagnitude) invert b in
  let encoded :=
    match version b with
    | V0 => value
    | V1 =>
        if Double.isfinite value
        then Z.lor (Z.land (Z.shiftl value 1 mod 2 ^ 64) (2 ^ 63 - 1)) (Z.b2z (negb (dcm =? kDCMEqualToDouble)))
        else 2 ^ 64 - 1
    end in
  Returned (_appendWord encoded (if positive then invert else negb invert) b).

(** Its part for magnitudes from 1 on, below 2^63. *)
Definition appendMediumDouble (num dcm : Z) (isNegative : bool) (magnitude : Z) (invert : bool) (b : Builder)
    : Result Builder :=
  let integerPart := Double.truncate magnitude in
  if Double.eqb (Double.ofInteger integerPart) magnitude && (dcm =? kDCMEqualToDouble) then
    Returned (_appendPreshiftedIntegerPortion (integerPart * 2) isNegative invert b)
  else
    match version b with
    | V0 =>
        ensures (dcm =? kDCMEqualToDouble) ≫= λ _,
        let b := _appendPreshiftedIntegerPortion (Z.lor (integerPart * 2) 1) isNegative invert b in
        let fractionalBits := 53 - (64 - countLeadingZeros64 integerPart) in
        let fractionalBytes := (fractionalBits + 7) / 8 in
        let mantissa := num mod 2 ^ fractionalBits in
        Returned (_appendBytes (bigEndian (Z.to_nat fractionalBytes) mantissa)
                    (if isNegative then negb invert else invert) b)
    | V1 =>
        let fractionalBytes := countLeadingZeros64 (integerPart * 2) / 8 in
        let ctype := if isNegative then CType.kNumericNegative8ByteInt + fractionalBytes
                     else CType.kNumericPositive8ByteInt - fractionalBytes in
        let b := _append ctype invert b in
        let encoding := Double.truncate (Double.scale magnitude (8 * fractionalBytes)) in
        let encoding := (encoding + Z.shiftl (integerPart + 1) (fractionalBytes * 8)) mod 2 ^ 64 in
        ensures (Z.land encoding 3 =? 0) ≫= λ _,
        Returned (_appendWord (Z.lor encoding dcm) (if isNegative then negb invert else invert) b)
    end.

Definition _appendDoubleWithoutTypeBits (num dcm : Z) (invert : bool) (b : Builder) : Result Builder :=
  let isNegative := Double.ltb num 0 in
  let magnitude := if isNegative then Double.neg num else num in
  let atLeastOne := Double.ltb (Double.ofInteger 1) magnitude || Double.eqb (Double.ofInteger 1) magnitude in
  if negb atLeastOne then
    if Double.ltb 0 magnitude then _appendSmallDouble num dcm invert b
    else if Double.eqb num 0 then Returned (_append CType.kNumericZero invert b)
    else ensures (Double.isNaN num) ≫= λ _, Returned (_append CType.kNumericNaN invert b)
  else if Double.ltb magnitude kMinLargeDouble then
    appendMediumDouble num dcm isNegative magnitude invert b
  else _appendLargeDouble num dcm invert b.

Definition _appendNumberDouble (num : Z) (invert : bool) (b : Builder) : Result Builder :=
  let b := withTypeBits (if Double.eqb num 0 && Double.signbit num then appendZero kNegativeDoubleZero
                         else appendTwoBits kDouble) b in
  _appendDoubleWithoutTypeBits num kDCMEqualToDouble invert b.

Definition _appendInteger (num : Z) (invert : bool) (b : Builder) : Result Builder :=
  if num =? - 2 ^ 63 then _appendLargeDouble (Double.ofInteger num) kDCMEqualToDouble invert b
  else if num =? 0 then Returned (_append CType.kNumericZero invert b)
  else Returned (_appendPreshiftedIntegerPortion (Z.abs num * 2) (num <? 0) invert b).

Definition _appendNumberLong (num : Z) (invert : bool) (b : Builder) : Result Builder :=
  _appendInteger num invert (withTypeBits (appendTwoBits kLong) b).
Definition _appendNumberInt (num : Z) (invert : bool) (b : Builder) : Result Builder :=
  _appendInteger num invert (withTypeBits (appendTwoBits kInt) b).

(** ** Values *)

Definition _appendBool (val invert : bool) : Builder → Builder :=
  _append (if val then CType.kBoolTrue else CType.kBoolFalse) invert.

Definition _appendDate (val : Z) (invert : bool) (b : Builder) : Builder :=
  _appendWord (Z.lxor (val mod 2 ^ 64) (2 ^ 63)) invert (_append CType.kDate invert b).

Definition _appendTimestamp (val : Timestamp.t) (invert : bool) (b : Builder) : Builder :=
  _appendWord (Timestamp.asULL val) invert (_append CType.kTimestamp invert b).

Definition _appendOID (val : Bytes) (invert : bool) (b : Builder) : Builder :=
  _appendBytes val invert (_append CType.kOID invert b).

(** The transform is a collator's, to sort keys. *)
Definition StringTransformFn : Type := option (Bytes → Bytes).

Definition _appendString (val : Bytes) (invert : bool) (f : StringTransformFn) (b : Builder) : Result Builder :=
  let b := _append CType.kStringLike invert (withTypeBits (appendBit kString) b) in
  match f with
  | Some f => _appendStringLike (f val) invert b
  | None => _appendStringLike val invert b
  end.

Definition _appendSymbol (val : Bytes) (invert : bool) (b : Builder) : Result Builder :=
  _appendStringLike val invert (_append CType.kStringLike invert (withTypeBits (appendBit kSymbol) b)).

Definition _appendCode (val : Bytes) (invert : bool) (b : Builder) : Result Builder :=
  _appendStringLike val invert (_append CType.kCode invert b).

Definition _appendBinData (data : Bytes) (type : Z) (invert : bool) (b : Builder) : Builder :=
  let b := _append CType.kBinData invert b in
  let len := Z.of_nat (length data) in
  let b := if len <? 255 then _append len invert b
           else _appendBytes (bigEndian 4 len) invert (_append 255 invert b) in
  _appendBytes data invert (_append type invert b).

Definition _appendRegex (pattern flags : Bytes) (invert : bool) (b : Builder) : Builder :=
  let b := _append 0 invert (_appendBytes pattern invert (_append CType.kRegEx invert b)) in
  _append 0 invert (_appendBytes flags invert b).

(** The name is taken as a string that ends at a zero. *)
Definition _appendDBRef (ns oid : Bytes) (invert : bool) (b : Builder) : Builder :=
  let ns := beforeNul ns in
  let b := _append CType.kDBRef invert b in
  let b := _appendBytes (bigEndian 4 (Z.of_nat (length ns))) invert b in
  _appendBytes oid invert (_appendBytes ns invert b).

(** ErrorCodes::CannotBuildIndexKeys. *)
Definition CannotBuildIndexKeys : Z := 201.

Section AppendMany.
Variable appendBsonValue : Value → bool → option Bytes → Builder → Result Builder.

(** [_appendBson]. *)
Fixpoint appendFields (obj : BSONObj) (invert : bool) (b : Builder) : Result Builder :=
  match obj with
  | [] => Returned (_append 0 invert b)
  | (name, elem) :: obj =>
      let b := _append (bsonTypeToGenericKeyStringType elem) invert b in
      b ← appendBsonValue elem invert (Some name) b;
      appendFields obj invert b
  end.

(** The elements of [_appendArray]. *)
Fixpoint appendElements (elems : BSONObj) (invert : bool) (b : Builder) : Result Builder :=
  match elems with
  | [] => Returned (_append 0 invert b)
  | (_, elem) :: elems => b ← appendBsonValue elem invert None b; appendElements elems invert b
  end.
End AppendMany.

Fixpoint _appendBsonValue (f : StringTransformFn) (elem : Value) (invert : bool) (name : option Bytes)
    (b : Builder) {struct elem} : Result Builder :=
  let b := match name with Some name => _appendBytes (name ++ [0]) invert b | None => b end in
  match elem with
  | MinKey | MaxKey | Undefined | JstNULL =>
      Returned (_append (bsonTypeToGenericKeyStringType elem) invert b)
  | NumberDouble d => _appendNumberDouble d invert b
  | BsonString s => _appendString s invert f b
  | Object fields =>
      appendFields (λ v i n b, _appendBsonValue f v i n b) fields invert (_append CType.kObject invert b)
  | Array elems =>
      appendElements (λ v i n b, _appendBsonValue f v i n b) elems invert (_append CType.kArray invert b)
  | BinData data type => Returned (_appendBinData data type invert b)
  | OID oid => Returned (_appendOID oid invert b)
  | Bool v => Returned (_appendBool v invert b)
  | Date v => Returned (_appendDate v invert b)
  | RegEx pattern flags => Returned (_appendRegex pattern flags invert b)
  | DBRef ns oid => Returned (_appendDBRef ns oid invert b)
  | Symbol s =>
      match f with
      | Some _ => Thrown CannotBuildIndexKeys
      | None => _appendSymbol s invert b
      end
  | Code s => _appendCode s invert b
  | CodeWScope s scope =>
      b ← _appendStringLike s invert (_append CType.kCodeWithScope invert b);
      appendFields (λ v i n b, _appendBsonValue None v i n b) scope invert b
  | NumberInt i => _appendNumberInt i invert b
  | BsonTimestamp t => Returned (_appendTimestamp t invert b)
  | NumberLong l => _appendNumberLong l invert b
  end.

(** ** Keys *)

Definition legal (from to : BuildState) : bool :=
  match from, to with
  | _, kEmpty => true
  | kEmpty, (kAppendingBSONElements | kEndAdded | kAppendedRecordID) => true
  | kAppendingBSONElements, kEndAdded => true
  | kEndAdded, (kAppendedRecordID | kReleased) => true
  | kAppendedRecordID, (kAppendedTypeBits | kReleased | kAppendedRecordID) => true
  | kAppendedTypeBits, (kAppendedRecordID | kReleased) => true
  | _, _ => false
  end.

Definition _transition (to : BuildState) (b : Builder) : Result Builder :=
  ensures (legal (_state b) to) ≫= λ _, Returned (withState to b).

Definition _verifyAppendingState (b : Builder) : Result Builder :=
  ensures (bool_decide (_state b = kEmpty) || bool_decide (_state b = kAppendingBSONElements)) ≫= λ _,
  if bool_decide (_state b = kEmpty) then _transition kAppendingBSONElements b else Returned b.

Definition _shouldInvertOnAppend (b : Builder) : bool := get (_ordering b) (_elemCount b) =? -1.

Definition appendBSONElement (f : StringTransformFn) (elem : Value) (b : Builder) : Result Builder :=
  b ← _verifyAppendingState b;
  b ← _appendBsonValue f elem (_shouldInvertOnAppend b) None b;
  Returned (nextElement b).

Definition _appendEnd (b : Builder) : Result Builder :=
  b ← _transition kEndAdded b; Returned (_append kEnd false b).

Definition appendDiscriminator (d : Discriminator) (b : Builder) : Result Builder :=
  _appendEnd match d with
             | kExclusiveBefore => _append kLess false b
             | kExclusiveAfter => _append kGreater false b
             | kInclusive => b
             end.

Definition _doneAppending (b : Builder) : Result Builder :=
  if bool_decide (_state b = kAppendingBSONElements) then appendDiscriminator (_discriminator b) b
  else Returned b.

(** The elements of [_appendAllElementsForIndexing], which uses no collation. *)
Fixpoint appendBSONElements (f : StringTransformFn) (obj : BSONObj) (b : Builder) : Result Builder :=
  match obj with
  | [] => Returned b
  | (_, elem) :: obj => b ← appendBSONElement f elem b; appendBSONElements f obj b
  end.

Definition _appendAllElementsForIndexing (obj : BSONObj) (d : Discriminator) (b : Builder) : Result Builder :=
  b ← _transition kAppendingBSONElements b;
  b ← appendBSONElements None obj b;
  appendDiscriminator d b.

Definition resetToEmpty (ord : Z) (d : Discriminator) (b : Builder) : Result Builder :=
  _transition kEmpty (mkBuilder (version b) (newTypeBits (tb_version (_typeBits b))) [] (_state b) 0 ord d).

(** ** Single values *)

(** What the functions below have in common: the value is appended as a field. *)
Definition appendField (append : bool → Builder → Result Builder) (b : Builder) : Result Builder :=
  b ← _verifyAppendingState b;
  b ← append (_shouldInvertOnAppend b) b;
  Returned (nextElement b).

Definition appendString (val : Bytes) : Builder → Result Builder :=
  appendField (λ invert, _appendString val invert None).
Definition appendNumberDouble (num : Z) : Builder → Result Builder := appendField (_appendNumberDouble num).
Definition appendNumberLong (num : Z) : Builder → Result Builder := appendField (_appendNumberLong num).
Definition appendNull : Builder → Result Builder :=
  appendField (λ invert b, Returned (_append CType.kNullish invert b)).
Definition appendUndefined : Builder → Result Builder :=
  appendField (λ invert b, Returned (_append CType.kUndefined invert b)).
Definition appendBinData (data : Bytes) (type : Z) : Builder → Result Builder :=
  appendField (λ invert b, Returned (_appendBinData data type invert b)).

Definition _appendSetAsArray (val : list Value) (invert : bool) (f : StringTransformFn) (b : Builder) : Result Builder :=
  appendElements (λ v i n b, _appendBsonValue f v i n b) (arrayFields val) invert (_append CType.kArray invert b).

(** The transform that is passed is not passed on. *)
Definition appendSetAsArray (set : list Value) (f : StringTransformFn) : Builder → Result Builder :=
  appendField (λ invert, _appendSetAsArray set invert None).

(** ** Record ids *)

Definition kMinRepr : Z := - 2 ^ 63.

Definition extraBytesNeeded (value : Z) : Z :=
  let bitsNeeded := 64 - countLeadingZeros64 value in
  if bitsNeeded <=? 10 then 0 else (bitsNeeded - 10 + 7) / 8.

Definition appendRecordId (loc : Z) (b : Builder) : Result Builder :=
  b ← _doneAppending b;
  b ← _transition kAppendedRecordID b;
  ensures (if loc <? 0 then loc =? kMinRepr else true) ≫= λ _,
  let value := if loc <? 0 then 0 else loc in
  let extra := extraBytesNeeded value in
  let firstByte := Z.lor (Z.shiftl extra 5) (Z.shiftr value (5 + extra * 8)) mod 256 in
  let lastByte := Z.lor (Z.shiftl value 3) extra mod 256 in
  let b := _append firstByte false b in
  let b := if 0 <? extra then _appendBytes (bigEndian (Z.to_nat extra) (Z.shiftr value 5)) false b else b in
  Returned (_append lastByte false b).

Definition resetToKey (obj : BSONObj) (ord : Z) (recordId : Z) (b : Builder) : Result Builder :=
  b ← resetToEmpty ord kInclusive b;
  b ← _appendAllElementsForIndexing obj kInclusive b;
  appendRecordId recordId b.

(** The overload for queries. *)
Definition resetToQuery (obj : BSONObj) (ord : Z) (d : Discriminator) (b : Builder) : Result Builder :=
  b ← resetToEmpty ord d b;
  _appendAllElementsForIndexing obj d b.

(** ** Released keys *)

Definition appendTypeBits (bits : TypeBits) (b : Builder) : Result Builder :=
  b ← _transition kAppendedTypeBits b; Returned (_appendBytes (getBuffer bits) false b).

(** [KeyString::Value]: the size of the key, and the key with the type bits behind it. *)
Record KeyValue := mkKeyValue { _version : Version; _ksSize : nat; _keyBuffer : Bytes }.

Definition valueOf (b : Builder) : KeyValue :=
  mkKeyValue (version b) (length (_buffer b)) (_buffer b ++ getBuffer (_typeBits b)).

Definition release (b : Builder) : Result KeyValue :=
  b ← _doneAppending b; b ← _transition kReleased b; Returned (valueOf b).

Definition getValueCopy (b : Builder) : Result KeyValue :=
  b ← _doneAppending b; Returned (valueOf b).

(** [KeyString::compare]. *)
Definition compare (left right : Bytes) : comparison :=
  if (length left =? 0)%nat then (if (length right =? 0)%nat then Eq else Lt)
  else if (length right =? 0)%nat then Gt
  else andThen (memcmp left right (Nat.min (length left) (length right)))
         (compareSizes (length left) (length right)).

(** [Value::compare]: of the keys without their type bits. *)
Definition keyBytes (v : KeyValue) : Bytes := take (_ksSize v) (_keyBuffer v).
Definition compareValues (l r : KeyValue) : comparison := compare (keyBytes l) (keyBytes r).

(** ** Reading record ids *)

Definition Overflow : Z := 15.

(** Reading past the end throws an exception. *)
Definition readByte (inverted : bool) (l : Bytes) : Result (Z * Bytes) :=
  match l with [] => Thrown Overflow | x :: l => Returned (if inverted then flipByte x else x, l) end.

(** Bytes are folded into a word. *)
Fixpoint readExtraBytes (inverted : bool) (n : nat) (repr : Z) (l : Bytes) : Result (Z * Bytes) :=
  match n with
  | O => Returned (repr, l)
  | S n => '(x, l) ← readByte inverted l; readExtraBytes inverted n (Z.lor (Z.shiftl repr 8 mod 2 ^ 64) x) l
  end.

Definition toSigned64 (v : Z) : Z := if 2 ^ 63 <=? v then v - 2 ^ 64 else v.

Definition decodeRecordId (l : Bytes) : Result Z :=
  '(firstByte, l) ← readByte false l;
  let numExtraBytes := Z.shiftr firstByte 5 in
  '(repr, l) ← readExtraBytes false (Z.to_nat numExtraBytes) (Z.land firstByte 31) l;
  '(lastByte, l) ← readByte false l;
  ensures (Z.land lastByte 7 =? numExtraBytes) ≫= λ _,
  Returned (toSigned64 (Z.lor (Z.shiftl repr 5 mod 2 ^ 64) (Z.shiftr lastByte 3))).

Definition sizeWithoutRecordIdAtEnd (buffer : Bytes) : Result nat :=
  ensures (2 <=? length buffer)%nat ≫= λ _,
  let ridSize := (2 + Z.to_nat (Z.land (default 0%Z (last buffer)) 7))%nat in
  ensures (ridSize <=? length buffer)%nat ≫= λ _,
  Returned (length buffer - ridSize)%nat.

Definition decodeRecordIdAtEnd (buffer : Bytes) : Result Z :=
  ensures (2 <=? length buffer)%nat ≫= λ _,
  let ridSize := (2 + Z.to_nat (Z.land (default 0%Z (last buffer)) 7))%nat in
  ensures (ridSize <=? length buffer)%nat ≫= λ _,
  decodeRecordId (drop (length buffer - ridSize) buffer).

Definition sizeWithoutRecordId (v : KeyValue) : Result nat :=
  if (_ksSize v =? 0)%nat then Returned 0%nat else sizeWithoutRecordIdAtEnd (keyBytes v).

Definition compareWithoutRecordId (l r : KeyValue) : Result comparison :=
  sl ← sizeWithoutRecordId l;
  sr ← sizeWithoutRecordId r;
  Returned (compare (take sl (keyBytes l)) (take sr (keyBytes r))).

(** ** Index entries *)

(** What _getKeysWithoutArray and _getKeysWithArray of the generator of an index's keys do with the values of its
    fields. *)
Definition indexKey (v : Version) (ord : Z) (collation : StringTransformFn) (fields : BSONObj) (id : option Z)
    : Result KeyValue :=
  b ← appendBSONElements collation fields (newBuilder v ord kInclusive);
  b ← match id with Some id => appendRecordId id b | None => Returned b end;
  release b.
