(* ===== verification/DoubleFacts.v ===== *)
(** Doubles and the integers they stand for: the order of bit patterns is that of magnitudes, and
    the conversions the code relies on are exact. *)
From S2P Require Import Prelude KeyBytes BsonValue.
Import Double.

Lemma pow2_pos n : 0 <= n → 0 < 2 ^ n.
Proof. intros. by apply Z.pow_pos_nonneg. Qed.

Lemma pow2_split a b : 0 <= a → 0 <= b → 2 ^ (a + b) = 2 ^ a * 2 ^ b.
Proof. intros. by apply Z.pow_add_r. Qed.

Lemma log2_bounds x : 0 < x → 0 <= Z.log2 x ∧ 2 ^ Z.log2 x <= x < 2 * 2 ^ Z.log2 x.
Proof.
  intros Hx. pose proof (Z.log2_spec x Hx) as [H1 H2]. pose proof (Z.log2_nonneg x).
  rewrite Z.pow_succ_r in H2 by done. lia.
Qed.

Lemma one_pos : 0 < one.
Proof. by apply pow2_pos. Qed.


(** ** Bit patterns and magnitudes *)

Lemma magOf_small b : b < 2 ^ 52 → magOf b = b.
Proof. intros Hb. unfold magOf. by apply Z.ltb_lt in Hb as ->. Qed.

Lemma magOf_normal e m : 1 <= e → 0 <= m < 2 ^ 52 → magOf (e * 2 ^ 52 + m) = (2 ^ 52 + m) * 2 ^ (e - 1).
Proof.
  intros He Hm. unfold magOf. destruct (Z.ltb_spec (e * 2 ^ 52 + m) (2 ^ 52)); [lia|].
  rewrite Z.div_add_l, Z.div_small, Z.add_0_r by lia.
  by rewrite (Z.add_comm (e * _) m), Z.mod_add, Z.mod_small by lia.
Qed.

(** The exponent and the mantissa of a pattern. *)
Lemma bits_cases b :
  0 <= b → b < 2 ^ 52 ∨ ∃ e m, b = e * 2 ^ 52 + m ∧ 1 <= e ∧ 0 <= m < 2 ^ 52.
Proof.
  intros Hb. destruct (Z.lt_ge_cases b (2 ^ 52)) as [|H]; [by left|right].
  exists (b / 2 ^ 52), (b mod 2 ^ 52). pose proof (Z.div_mod b (2 ^ 52)). pose proof (Z.mod_pos_bound b (2 ^ 52)).
  split_and!; lia || (apply Z.div_le_lower_bound; lia).
Qed.

Lemma magOf_nonneg b : 0 <= b → 0 <= magOf b.
Proof.
  intros Hb. destruct (bits_cases b Hb) as [H|(e & m & -> & He & Hm)]; [by rewrite magOf_small|].
  rewrite magOf_normal by done. pose proof (pow2_pos (e - 1)). nia.
Qed.

Lemma magOf_lt b c : 0 <= b → b < c → magOf b < magOf c.
Proof.
  intros Hb Hlt. destruct (bits_cases c ltac:(lia)) as [Hc|(f & k & -> & Hf & Hk)].
  { rewrite !magOf_small by lia. done. }
  rewrite (magOf_normal f k) by done. pose proof (pow2_pos (f - 1) ltac:(lia)) as Hp.
  destruct (bits_cases b Hb) as [Hb'|(e & m & -> & He & Hm)]; [rewrite magOf_small by done; nia|].
  rewrite magOf_normal by done. destruct (Z.eq_dec e f) as [->|]; [nia|].
  assert (e < f) by lia. replace (f - 1) with ((f - 1 - e) + (1 + (e - 1))) by lia.
  rewrite !pow2_split by lia. pose proof (pow2_pos (e - 1) ltac:(lia)). pose proof (pow2_pos (f - 1 - e) ltac:(lia)).
  assert (2 ^ 1 = 2) as -> by done.
  assert ((2 ^ 52 + m) * 2 ^ (e - 1) < 2 ^ 53 * 2 ^ (e - 1)) by nia.
  assert (2 ^ 53 * 2 ^ (e - 1) <= 2 ^ 52 * (2 ^ (f - 1 - e) * (2 * 2 ^ (e - 1)))) by nia. nia.
Qed.

Lemma magOf_compare b c : 0 <= b → 0 <= c → (magOf b ?= magOf c) = (b ?= c).
Proof.
  intros Hb Hc. destruct (Z.compare_spec b c) as [->|H|H]; [apply Z.compare_refl|..].
  - apply Z.compare_lt_iff. by apply magOf_lt.
  - apply Z.compare_gt_iff. by apply magOf_lt.
Qed.

(** The pattern of a magnitude, where the conversion is exact. *)
Definition shiftOf (x : Z) : Z := Z.max 0 (Z.log2 x - 52).

Definition exact (x : Z) : Prop := 0 < x ∧ x mod 2 ^ shiftOf x = 0 ∧ shiftOf x < 2046.

Lemma roundShift_exact q k : 0 <= k → roundShift (q * 2 ^ k) k = q.
Proof.
  intros Hk. pose proof (pow2_pos k Hk). unfold roundShift. rewrite Z.div_mul, Z.mod_mul by lia.
  destruct (Z.ltb_spec (2 ^ k) (2 * 0)); [lia|]. destruct (Z.eqb_spec (2 ^ k) (2 * 0)); [lia|]. done.
Qed.

Lemma roundShift_0 x : roundShift x 0 = x.
Proof. rewrite <- (Z.mul_1_r x) at 1. by apply (roundShift_exact x 0). Qed.

Lemma exact_split x : exact x → ∃ q, x = q * 2 ^ shiftOf x ∧ 0 < q < 2 ^ 53 ∧ (0 < shiftOf x → 2 ^ 52 <= q).
Proof.
  intros (Hx & Hm & _). exists (x / 2 ^ shiftOf x).
  assert (Hs : 0 <= shiftOf x) by (unfold shiftOf; lia). pose proof (pow2_pos _ Hs) as Hp.
  assert (Hq : x = x / 2 ^ shiftOf x * 2 ^ shiftOf x) by (pose proof (Z.div_mod x (2 ^ shiftOf x)); lia).
  split; [done|]. destruct (log2_bounds x Hx) as (Hl & H1 & H2).
  assert (Hlog : Z.log2 x <= shiftOf x + 52) by (unfold shiftOf; lia).
  pose proof (Z.pow_le_mono_r 2 _ _ ltac:(lia) Hlog) as Hle. rewrite pow2_split in Hle by lia.
  split; [split; nia|]. intros Hsp. assert (He : Z.log2 x = shiftOf x + 52) by (unfold shiftOf in *; lia).
  rewrite He, pow2_split in H1 by lia. nia.
Qed.

Lemma ofMag_exact x : exact x → 0 <= ofMag x ∧ magOf (ofMag x) = x ∧ ofMag x < infinityBits.
Proof.
  intros Hx. destruct (exact_split x Hx) as (q & Hq & Hr & Hn). destruct Hx as (_ & _ & Hs).
  assert (Hs0 : 0 <= shiftOf x) by (unfold shiftOf; lia).
  assert (Hle : shiftOf x * 2 ^ 52 + q < infinityBits).
  { unfold infinityBits. destruct (Z.eq_dec (shiftOf x) 0); [lia|]. nia. }
  assert (Hround : roundShift x (shiftOf x) = q) by (rewrite Hq at 1; by apply roundShift_exact).
  assert (Ho : ofMag x = shiftOf x * 2 ^ 52 + q).
  { unfold ofMag. fold (shiftOf x). rewrite Hround. lia. }
  rewrite Ho. split_and!; [nia| |done]. clear Ho Hround Hle.
  destruct (Z.eq_dec (shiftOf x) 0) as [H0|H0].
  - rewrite H0 in Hq |- *. rewrite Hq. simpl (2 ^ 0). rewrite Z.mul_1_r.
    destruct (Z.lt_ge_cases q (2 ^ 52)); [by rewrite magOf_small|].
    replace (0 * 2 ^ 52 + q) with (1 * 2 ^ 52 + (q - 2 ^ 52)) by lia.
    rewrite magOf_normal by lia. simpl (2 ^ (1 - 1)). lia.
  - specialize (Hn ltac:(lia)).
    replace (shiftOf x * 2 ^ 52 + q) with ((shiftOf x + 1) * 2 ^ 52 + (q - 2 ^ 52)) by lia.
    rewrite magOf_normal by lia. replace (shiftOf x + 1 - 1) with (shiftOf x) by lia. rewrite Hq at 2. f_equal. lia.
Qed.

(** Few significant bits are exact. *)
Lemma exact_intro q k : 0 < q < 2 ^ 53 → 0 <= k → Z.log2 (q * 2 ^ k) <= 2097 → exact (q * 2 ^ k).
Proof.
  intros Hq Hk Hl. pose proof (pow2_pos k Hk) as Hp. split; [nia|].
  assert (Hs : shiftOf (q * 2 ^ k) <= k).
  { unfold shiftOf. rewrite Z.log2_mul_pow2 by lia.
    assert (Z.log2 q < 53) by (apply Z.log2_lt_pow2; lia). lia. }
  split; [|unfold shiftOf; lia]. apply Z.mod_divide; [pose proof (pow2_pos (shiftOf (q * 2 ^ k))); unfold shiftOf in *; lia|].
  replace (2 ^ k) with (2 ^ (k - shiftOf (q * 2 ^ k)) * 2 ^ shiftOf (q * 2 ^ k)) at 2.
  - rewrite Z.mul_assoc. apply Z.divide_factor_r.
  - rewrite <- pow2_split by (unfold shiftOf in *; lia). f_equal. lia.
Qed.

Lemma log2_one_mul q : 0 < q → Z.log2 (q * one) = Z.log2 q + 1074.
Proof. intros. unfold one. rewrite Z.log2_mul_pow2 by lia. lia. Qed.

Lemma exact_integer q k : 0 < q < 2 ^ 53 → 0 <= k → Z.log2 (q * 2 ^ k) <= 1023 → exact (q * 2 ^ k * one).
Proof.
  intros Hq Hk Hl. pose proof (pow2_pos k Hk). rewrite <- Z.mul_assoc. unfold one.
  rewrite <- pow2_split by lia. apply exact_intro; [done|lia|].
  rewrite pow2_split, Z.mul_assoc by lia. fold one. rewrite log2_one_mul by nia. lia.
Qed.

(** ** Doubles *)

Definition isDouble (d : Z) : Prop := 0 <= d < 2 ^ 64.

Lemma magBits_bounds d : 0 <= magBits d < 2 ^ 63.
Proof. apply Z.mod_pos_bound. lia. Qed.

Lemma mag_nonneg d : 0 <= mag d.
Proof. apply magOf_nonneg, magBits_bounds. Qed.

Lemma double_split d : isDouble d → d = withSign (signbit d) (magBits d).
Proof.
  intros Hd. unfold isDouble, withSign, signbit, magBits in *. destruct (Z.leb_spec (2 ^ 63) d).
  - rewrite <- (Z.mod_add d (-1) (2 ^ 63)) by lia. rewrite Z.mod_small by lia. lia.
  - by rewrite Z.mod_small by lia.
Qed.

Lemma withSign_double s b : 0 <= b < 2 ^ 63 → isDouble (withSign s b).
Proof. unfold isDouble, withSign. destruct s; lia. Qed.

Lemma withSign_sign s b : 0 <= b < 2 ^ 63 → signbit (withSign s b) = s.
Proof. intros Hb. unfold signbit, withSign. destruct s; [apply Z.leb_le|apply Z.leb_gt]; lia. Qed.

Lemma withSign_magBits s b : 0 <= b < 2 ^ 63 → magBits (withSign s b) = b.
Proof.
  intros Hb. unfold magBits, withSign. destruct s; [|by apply Z.mod_small].
  rewrite <- (Z.mul_1_l (2 ^ 63)) at 1. by rewrite Z.mod_add, Z.mod_small by lia.
Qed.

Lemma neg_withSign d : isDouble d → neg d = withSign (negb (signbit d)) (magBits d).
Proof.
  intros Hd. rewrite (double_split d Hd) at 1. pose proof (magBits_bounds d) as Hb.
  unfold neg. rewrite withSign_sign by done. unfold withSign. destruct (signbit d); simpl; lia.
Qed.

Lemma neg_double d : isDouble d → isDouble (neg d).
Proof. intros. rewrite neg_withSign by done. apply withSign_double, magBits_bounds. Qed.

Lemma neg_magBits d : isDouble d → magBits (neg d) = magBits d.
Proof. intros. rewrite neg_withSign by done. apply withSign_magBits, magBits_bounds. Qed.

Lemma neg_val d : isDouble d → val (neg d) = - val d.
Proof.
  intros Hd. unfold val. rewrite neg_withSign by done. rewrite withSign_sign by apply magBits_bounds.
  unfold mag. rewrite withSign_magBits by apply magBits_bounds. destruct (signbit d); simpl; lia.
Qed.

Lemma val_withSign s b : 0 <= b < 2 ^ 63 → val (withSign s b) = if s then - magOf b else magOf b.
Proof. intros Hb. unfold val, mag. by rewrite withSign_sign, withSign_magBits. Qed.

Lemma finite_exact b : 0 < b < infinityBits → exact (magOf b).
Proof.
  intros Hb. unfold infinityBits in Hb. destruct (bits_cases b ltac:(lia)) as [H|(e & m & -> & He & Hm)].
  - rewrite magOf_small by done. rewrite <- (Z.mul_1_r b). apply (exact_intro b 0); [lia..|].
    rewrite Z.mul_1_r. assert (Z.log2 b < 52) by (apply Z.log2_lt_pow2; lia). lia.
  - rewrite magOf_normal by done. apply exact_intro; [lia..|].
    rewrite Z.log2_mul_pow2 by lia. assert (Z.log2 (2 ^ 52 + m) < 53) by (apply Z.log2_lt_pow2; lia). nia.
Qed.

Lemma ofMag_magOf b : 0 < b < infinityBits → ofMag (magOf b) = b.
Proof.
  intros Hb. destruct (ofMag_exact (magOf b)) as (H0 & Hm & _); [by apply finite_exact|].
  pose proof (magOf_compare (ofMag (magOf b)) b ltac:(lia) ltac:(lia)) as Hc.
  rewrite Hm, Z.compare_refl in Hc. symmetry in Hc. by apply Z.compare_eq_iff in Hc.
Qed.

Lemma ofMag_0 : ofMag 0 = 0.
Proof. done. Qed.

(** A finite double made of a sign and an exact magnitude. *)
Lemma withSign_exact s x :
  x = 0 ∨ exact x →
  let d := withSign s (ofMag x) in
  isDouble d ∧ isfinite d = true ∧ isNaN d = false ∧ val d = (if s then - x else x) ∧ magBits d = ofMag x ∧
  mag d = x ∧ signbit d = s.
Proof.
  intros Hx. assert (H : 0 <= ofMag x < infinityBits ∧ magOf (ofMag x) = x).
  { destruct Hx as [->|Hx]; [rewrite ofMag_0; unfold infinityBits; split; [lia|done]|].
    destruct (ofMag_exact x Hx) as (?&?&?). done. }
  destruct H as [Hb Hm]. assert (0 <= ofMag x < 2 ^ 63) by (unfold infinityBits in Hb; lia).
  simpl. unfold isfinite, isNaN, mag. rewrite val_withSign, withSign_magBits, withSign_sign, Hm by done.
  split_and!; try done; [by apply withSign_double|apply Z.ltb_lt; lia|apply Z.ltb_ge; lia].
Qed.

Lemma ofInteger_exact z :
  z = 0 ∨ exact (Z.abs z * one) →
  isDouble (ofInteger z) ∧ isfinite (ofInteger z) = true ∧ isNaN (ofInteger z) = false ∧
  val (ofInteger z) = z * one.
Proof.
  intros Hz. destruct (withSign_exact (z <? 0) (Z.abs z * one)) as (H1 & H2 & H3 & H4 & _).
  { destruct Hz as [->|]; [by left|by right]. }
  split_and!; try done. fold (ofInteger z) in H4. rewrite H4. destruct (Z.ltb_spec z 0); lia.
Qed.

(** Integers of 53 bits and powers of two are exact. *)
Lemma ofInteger_small z :
  Z.abs z <= 2 ^ 53 →
  isDouble (ofInteger z) ∧ isfinite (ofInteger z) = true ∧ isNaN (ofInteger z) = false ∧
  val (ofInteger z) = z * one.
Proof.
  intros Hz. apply ofInteger_exact. destruct (Z.eq_dec z 0) as [->|H0]; [by left|right].
  destruct (Z.eq_dec (Z.abs z) (2 ^ 53)) as [->|Hn].
  - apply (exact_integer 1 53); [lia..|]. vm_compute. discriminate.
  - rewrite <- (Z.mul_1_r (Z.abs z)). apply (exact_integer _ 0); [lia..|].
    assert (Z.log2 (Z.abs z * 2 ^ 0) < 53) by (apply Z.log2_lt_pow2; lia). lia.
Qed.

Lemma ofInteger_bound :
  isDouble (ofInteger (2 ^ 63)) ∧ isfinite (ofInteger (2 ^ 63)) = true ∧
  isNaN (ofInteger (2 ^ 63)) = false ∧ val (ofInteger (2 ^ 63)) = 2 ^ 63 * one.
Proof. apply ofInteger_exact. right. apply (exact_integer 1 63); [lia..|]. vm_compute. discriminate. Qed.

Lemma ofInteger_min :
  isDouble (ofInteger (- 2 ^ 63)) ∧ isfinite (ofInteger (- 2 ^ 63)) = true ∧
  isNaN (ofInteger (- 2 ^ 63)) = false ∧ val (ofInteger (- 2 ^ 63)) = - 2 ^ 63 * one.
Proof. apply ofInteger_exact. right. apply (exact_integer 1 63); [lia..|]. vm_compute. discriminate. Qed.

(** ** Comparing numbers *)

(** What a number stands for, in units of the smallest double; a NaN stands for nothing. *)
Definition meaning (d : Z) : option Z := if isNaN d then None else Some (val d).

Definition compareMeanings (a b : option Z) : comparison :=
  match a, b with
  | None, None => Eq
  | None, _ => Lt
  | _, None => Gt
  | Some x, Some y => x ?= y
  end.

Lemma compareDoubles_spec l r : compareDoubles l r = compareMeanings (meaning l) (meaning r).
Proof.
  unfold compareDoubles, meaning, eqb, ltb. destruct (isNaN l), (isNaN r); simpl; try done.
  destruct (Z.compare_spec (val l) (val r)) as [->|H|H].
  - by rewrite Z.eqb_refl.
  - assert ((val l =? val r) = false) as -> by (apply Z.eqb_neq; lia). by apply Z.ltb_lt in H as ->.
  - assert ((val l =? val r) = false) as -> by (apply Z.eqb_neq; lia).
    assert ((val l <? val r) = false) as -> by (apply Z.ltb_ge; lia). by apply Z.ltb_lt in H as ->.
Qed.

Lemma compareLongs_spec a b : compareLongs a b = (a ?= b).
Proof.
  unfold compareLongs. destruct (Z.compare_spec a b) as [->|H|H]; [by rewrite Z.eqb_refl|..].
  - assert ((a =? b) = false) as -> by (apply Z.eqb_neq; lia). by apply Z.ltb_lt in H as ->.
  - assert ((a =? b) = false) as -> by (apply Z.eqb_neq; lia).
    by assert ((a <? b) = false) as -> by (apply Z.ltb_ge; lia).
Qed.

Lemma compare_one a b : (a * one ?= b * one) = (a ?= b).
Proof. rewrite !(Z.mul_comm _ one). apply compare_scale, one_pos. Qed.

(** Doubles from 2^52 on are integers. *)
Lemma large_integer b : 0 <= b → 2 ^ 52 * one <= magOf b → magOf b = magOf b / one * one.
Proof.
  intros Hb Hm. pose proof one_pos. destruct (bits_cases b Hb) as [Hs|(e & m & -> & He & Hm')].
  { rewrite magOf_small in * by done. nia. }
  rewrite magOf_normal in * by done.
  assert (1074 <= e - 1).
  { destruct (Z.le_gt_cases 1074 (e - 1)); [done|exfalso].
    assert (Hp : 2 ^ (e - 1) * 2 <= one).
    { unfold one. replace 1074 with ((1074 - 1 - (e - 1)) + ((e - 1) + 1)) by lia.
      rewrite (pow2_split _ (e - 1 + 1)), (pow2_split (e - 1)) by lia. simpl (2 ^ 1).
      pose proof (pow2_pos (e - 1)). pose proof (pow2_pos (1074 - 1 - (e - 1))). nia. }
    nia. }
  replace (e - 1) with ((e - 1 - 1074) + 1074) by lia. rewrite pow2_split by lia. fold one.
  rewrite Z.mul_assoc, Z.div_mul by lia. done.
Qed.

Lemma one_eq : one = 2 ^ 1074.
Proof. done. Qed.

#[global] Opaque one.

Lemma val_mag d : Z.abs (val d) = mag d.
Proof. unfold val. pose proof (mag_nonneg d). destruct (signbit d); lia. Qed.

Lemma truncate_compare l d :
  2 ^ 53 < Z.abs l → (l ?= truncate d) = (l * one ?= val d).
Proof.
  intros Hl. pose proof one_pos. unfold truncate.
  destruct (Z.le_gt_cases (2 ^ 52 * one) (mag d)) as [Hm|Hm].
  - pose proof (large_integer (magBits d) (proj1 (magBits_bounds d)) Hm) as Hi. fold (mag d) in Hi.
    assert (Hv : val d = (if signbit d then - (mag d / one) else mag d / one) * one).
    { unfold val. destruct (signbit d); lia. }
    rewrite Hv at 1. rewrite Z.quot_mul by lia. rewrite Hv. by rewrite compare_one.
  - assert (Hq : Z.abs (Z.quot (val d) one) <= 2 ^ 52).
    { rewrite <- Z.quot_abs by lia. rewrite val_mag, (Z.abs_eq one) by lia.
      rewrite Z.quot_div_nonneg by (pose proof (mag_nonneg d); lia). apply Z.div_le_upper_bound; lia. }
    pose proof (val_mag d).
    destruct (Z.compare_spec l (Z.quot (val d) one)), (Z.compare_spec (l * one) (val d)); try done; nia.
Qed.

Lemma compareLongToDouble_spec l d :
  - 2 ^ 63 <= l < 2 ^ 63 → compareLongToDouble l d = compareMeanings (Some (l * one)) (meaning d).
Proof.
  intros Hl. unfold compareLongToDouble. destruct (isNaN d) eqn:Hn; [unfold meaning; by rewrite Hn|].
  destruct ((l <=? 2 ^ 53) && (- 2 ^ 53 <=? l)) eqn:Hs.
  { apply andb_true_iff in Hs as [H1%Z.leb_le H2%Z.leb_le]. rewrite compareDoubles_spec.
    destruct (ofInteger_small l) as (_ & _ & HN & Hv); [lia|]. unfold meaning at 1. by rewrite HN, Hv. }
  assert (Hl' : 2 ^ 53 < Z.abs l).
  { apply andb_false_iff in Hs as [Hs%Z.leb_gt|Hs%Z.leb_gt]; lia. }
  destruct ofInteger_bound as (Hd & _ & HN & Hv). fold kBoundOfLongRange in Hd, HN, Hv.
  pose proof (neg_val kBoundOfLongRange Hd) as Hnv. pose proof one_pos as H1.
  assert (HNn : isNaN (neg kBoundOfLongRange) = false).
  { unfold isNaN. rewrite neg_magBits by done. exact HN. }
  unfold meaning. rewrite Hn. simpl. unfold ltb, eqb. rewrite Hn, HN, HNn, Hnv, Hv. simpl.
  destruct ((2 ^ 63 * one <? val d) || (2 ^ 63 * one =? val d)) eqn:Hb.
  { symmetry. apply Z.compare_lt_iff. apply orb_true_iff in Hb as [Hb%Z.ltb_lt|Hb%Z.eqb_eq]; nia. }
  destruct (Z.ltb_spec (val d) (- (2 ^ 63 * one))) as [Hb'|Hb'].
  { symmetry. apply Z.compare_gt_iff. nia. }
  rewrite compareLongs_spec. by apply truncate_compare.
Qed.
