(* ===== verification/KeyStringNumbers.v ===== *)
(** The encoding of numbers in key strings: what the builder appends for an integer or a double
    is a function of the number alone, and it preserves the order. *)
From S2P Require Import Prelude KeyBytes BsonValue DoubleFacts KeyString.
Import Double.

(** ** The encoding as a function *)

(** A magnitude below 1. *)
Definition smallWord (ver : Version) (negative : bool) (x : Z) : Z :=
  match ver with
  | V0 => withSign negative (ofMag x)
  | V1 => if kTiniestDoubleWith2BitDCM <=? ofMag x then 4 * ofMag x else 2 * ofMag (x * 2 ^ 256) + 2 ^ 62
  end.

(** One from 2^63 on. *)
Definition largeWord (ver : Version) (negative : bool) (x : Z) : Z :=
  match ver with
  | V0 => withSign negative (ofMag x)
  | V1 => if ofMag x <? infinityBits then 2 * ofMag x - 2 ^ 63 else 2 ^ 64 - 1
  end.

(** The bytes of twice an integer part. *)
Definition integerSize (ip : Z) : Z := Z.log2 (ip * 2) / 8 + 1.

(** The bytes and bits that the fraction next to it takes. *)
Definition fractionSize (ver : Version) (ip : Z) : Z :=
  match ver with V0 => (52 - Z.log2 ip + 7) / 8 | V1 => 8 - integerSize ip end.
Definition fractionScale (ver : Version) (ip : Z) : Z :=
  match ver with V0 => 52 - Z.log2 ip | V1 => 8 * (8 - integerSize ip) end.

Definition mediumBytes (ver : Version) (x : Z) : list Z :=
  let ip := x / one in
  let n := integerSize ip in
  if x mod one =? 0 then bigEndian (Z.to_nat n) (ip * 2)
  else bigEndian (Z.to_nat n) (ip * 2 + 1) ++
       bigEndian (Z.to_nat (fractionSize ver ip)) (x mod one * 2 ^ fractionScale ver ip / one).

Definition magnitudeClass (x : Z) : Z :=
  if x <? one then CType.kNumericPositiveSmallMagnitude
  else if x <? 2 ^ 63 * one then CType.kNumericPositiveSmallMagnitude + integerSize (x / one)
  else CType.kNumericPositiveLargeMagnitude.

Definition magnitudeBytes (ver : Version) (negative : bool) (x : Z) : list Z :=
  if x <? one then bigEndian 8 (smallWord ver negative x)
  else if x <? 2 ^ 63 * one then mediumBytes ver x
  else bigEndian 8 (largeWord ver negative x).

(** The types of negative numbers are the others mirrored at that of zero. *)
Definition numberBytes (ver : Version) (m : option Z) : list Z :=
  match m with
  | None => [CType.kNumericNaN]
  | Some v =>
      if v =? 0 then [CType.kNumericZero]
      else if v <? 0
      then (2 * CType.kNumericZero - magnitudeClass (- v)) :: map flipByte (magnitudeBytes ver true (- v))
      else magnitudeClass v :: magnitudeBytes ver false v
  end.

(** The magnitudes that numbers have. *)
Definition isMagnitude (x : Z) : Prop :=
  0 < x ∧ (exact x ∨ (x mod one = 0 ∧ x < 2 ^ 63 * one) ∨ x = magOf infinityBits).

(** ** Sizes *)

Lemma integerSize_bounds ip : 0 < ip → 1 <= integerSize ip ∧ 2 ^ (8 * (integerSize ip - 1)) <= ip * 2 < 256 ^ integerSize ip.
Proof.
  intros Hip. unfold integerSize. destruct (log2_bounds (ip * 2) ltac:(lia)) as (H0 & H1 & H2).
  set (k := Z.log2 (ip * 2)) in *. assert (Hk : 0 <= k / 8 ∧ 8 * (k / 8) <= k < 8 * (k / 8) + 8).
  { Z.to_euclidean_division_equations; lia. }
  split; [lia|]. split.
  - replace (8 * (k / 8 + 1 - 1)) with (8 * (k / 8)) by lia.
    pose proof (Z.pow_le_mono_r 2 (8 * (k / 8)) k). lia.
  - replace 256 with (2 ^ 8) by done. rewrite <- Z.pow_mul_r by lia.
    pose proof (Z.pow_le_mono_r 2 (k + 1) (8 * (k / 8 + 1)) ltac:(lia) ltac:(lia)) as Hp.
    rewrite Z.pow_add_r in Hp by lia. lia.
Qed.

Lemma integerSize_mono a b : 0 < a → a <= b → integerSize a <= integerSize b.
Proof.
  intros Ha Hab. unfold integerSize. pose proof (Z.log2_le_mono (a * 2) (b * 2) ltac:(lia)).
  pose proof (Z.div_le_mono (Z.log2 (a * 2)) (Z.log2 (b * 2)) 8). lia.
Qed.

Lemma integerSize_max ip : 0 < ip < 2 ^ 63 → integerSize ip <= 8.
Proof.
  intros Hip. unfold integerSize. assert (Z.log2 (ip * 2) < 64) by (apply Z.log2_lt_pow2; lia).
  Z.to_euclidean_division_equations; lia.
Qed.

Lemma pow_nat n : 0 <= n → 256 ^ Z.of_nat (Z.to_nat n) = 256 ^ n.
Proof. intros. by rewrite Z2Nat.id. Qed.

(** ** Integer parts and fractions *)

Lemma medium_integer x : one <= x < 2 ^ 63 * one → 0 < x / one < 2 ^ 63.
Proof.
  intros Hx. pose proof one_pos. split; [|apply Z.div_lt_upper_bound; lia].
  assert (1 <= x / one) by (apply Z.div_le_lower_bound; lia). lia.
Qed.

Lemma log2_integer x : one <= x → Z.log2 x = Z.log2 (x / one) + 1074.
Proof.
  intros Hx. pose proof one_pos. assert (Hip : 0 < x / one).
  { assert (1 <= x / one) by (apply Z.div_le_lower_bound; lia). lia. }
  destruct (log2_bounds (x / one)) as (H0 & H1 & H2); [done|].
  apply Z.log2_unique; [lia|]. pose proof (Z.div_mod x one ltac:(lia)). pose proof (Z.mod_pos_bound x one ltac:(lia)).
  pose proof one_eq as Heq.
  rewrite <- Z.add_succ_l, !pow2_split, Z.pow_succ_r by lia. rewrite <- Heq. nia.
Qed.

Lemma fraction_small x : exact x → one <= x → x mod one ≠ 0 → x / one < 2 ^ 52.
Proof.
  intros Hx Ho Hf. pose proof one_pos. destruct (Z.lt_ge_cases x (2 ^ 52 * one)) as [|Hle].
  { apply Z.div_lt_upper_bound; lia. }
  destruct (ofMag_exact x Hx) as (H0 & Hm & _). pose proof (large_integer (ofMag x) H0) as Hi.
  rewrite Hm in Hi. specialize (Hi Hle). rewrite Hi, Z.mod_mul in Hf by lia. done.
Qed.

Lemma fractionScale_bounds ver ip :
  0 < ip < 2 ^ 52 →
  52 - Z.log2 ip <= fractionScale ver ip ∧ 1 <= 52 - Z.log2 ip ∧ fractionScale ver ip <= 8 * fractionSize ver ip.
Proof.
  intros Hip. assert (0 <= Z.log2 ip < 52) by (split; [apply Z.log2_nonneg|apply Z.log2_lt_pow2; lia]).
  destruct ver; unfold fractionScale, fractionSize, integerSize.
  - split_and!; [lia..|]. Z.to_euclidean_division_equations; lia.
  - pose proof (Z.log2_mul_pow2 ip 1 ltac:(lia) ltac:(lia)) as Hl. change (2 ^ 1) with 2 in Hl. rewrite Hl.
    split_and!; [|lia..]. Z.to_euclidean_division_equations; lia.
Qed.

(** The bits of a fraction, scaled, are an integer. *)
Lemma fraction_exact ver x :
  exact x → one <= x → x mod one ≠ 0 →
  ∃ w, x mod one * 2 ^ fractionScale ver (x / one) = w * one ∧
       0 <= w < 2 ^ fractionScale ver (x / one) ∧ 2 ^ fractionScale ver (x / one) <= 256 ^ fractionSize ver (x / one) ∧
       (2 ^ (fractionScale ver (x / one) - (52 - Z.log2 (x / one))) | w).
Proof.
  intros Hx Ho Hf. pose proof one_pos. pose proof (fraction_small x Hx Ho Hf) as Hip.
  assert (Hip0 : 0 < x / one) by (assert (1 <= x / one) by (apply Z.div_le_lower_bound; lia); lia).
  destruct (fractionScale_bounds ver (x / one) ltac:(lia)) as (Hj & H1 & Hs).
  set (j := fractionScale ver (x / one)) in *.
  destruct (exact_split x Hx) as (q & Hq & _). pose proof (log2_integer x Ho) as Hl.
  assert (Hsh : shiftOf x = Z.log2 (x / one) + 1022) by (unfold shiftOf; pose proof (Z.log2_nonneg (x / one)); lia).
  assert (Hlog : 0 <= Z.log2 (x / one)) by apply Z.log2_nonneg.
  assert (Hd : x * 2 ^ j = q * 2 ^ (shiftOf x + j - 1074) * one).
  { rewrite Hq at 1. rewrite one_eq.
    rewrite <- !Z.mul_assoc, <- !pow2_split by lia. f_equal. f_equal. lia. }
  pose proof (Z.div_mod x one ltac:(lia)) as Hdm. pose proof (Z.mod_pos_bound x one ltac:(lia)).
  pose proof (pow2_pos j ltac:(lia)) as Hp.
  assert (Hw : x mod one * 2 ^ j = (q * 2 ^ (shiftOf x + j - 1074) - x / one * 2 ^ j) * one) by nia.
  eexists. split; [exact Hw|]. split; [split; nia|].
  split; [replace 256 with (2 ^ 8) by done; rewrite <- Z.pow_mul_r by lia; apply Z.pow_le_mono_r; lia|].
  replace (shiftOf x + j - 1074) with (j - (52 - Z.log2 (x / one))) by lia.
  apply Z.divide_sub_r; [apply Z.divide_factor_r|]. apply Z.divide_mul_r.
  replace j with ((52 - Z.log2 (x / one)) + (j - (52 - Z.log2 (x / one)))) at 2 by lia.
  rewrite pow2_split by lia. apply Z.divide_factor_r.
Qed.

Lemma compare_mono (f : Z → Z) a b :
  (∀ x y, x < y → f x < f y) → (f a ?= f b) = (a ?= b).
Proof.
  intros Hf. destruct (Z.compare_spec a b) as [->|H|H]; [apply Z.compare_refl|..].
  - apply Z.compare_lt_iff. auto.
  - apply Z.compare_gt_iff. auto.
Qed.

(** ** The order of magnitudes *)

Lemma ofMag_compare x y : exact x → exact y → (ofMag x ?= ofMag y) = (x ?= y).
Proof.
  intros Hx Hy. destruct (ofMag_exact x Hx) as (H0 & H1 & _), (ofMag_exact y Hy) as (H2 & H3 & _).
  rewrite <- (magOf_compare _ _ H0 H2). by rewrite H1, H3.
Qed.

Lemma ofMag_lt x y : exact x → exact y → x < y → ofMag x < ofMag y.
Proof. intros Hx Hy Hlt. unfold Z.lt. by rewrite ofMag_compare. Qed.

Lemma exact_scale x k : exact x → 0 <= k → Z.log2 x + k <= 2097 → exact (x * 2 ^ k).
Proof.
  intros Hx Hk Hl. destruct (exact_split x Hx) as (q & Hq & Hr & _). rewrite Hq, <- Z.mul_assoc.
  assert (0 <= shiftOf x) by (unfold shiftOf; lia). rewrite <- pow2_split by lia.
  apply exact_intro; [done|lia|]. rewrite pow2_split, Z.mul_assoc by lia. rewrite <- Hq.
  rewrite Z.log2_mul_pow2 by (destruct Hx; lia). lia.
Qed.

(** The pattern of a power of two. *)
Lemma ofMag_pow2 k : 52 <= k <= 2097 → exact (2 ^ k) ∧ ofMag (2 ^ k) = (k - 51) * 2 ^ 52.
Proof.
  intros Hk. assert (Hx : exact (1 * 2 ^ k)).
  { apply exact_intro; [lia..|]. rewrite Z.mul_1_l, Z.log2_pow2 by lia. lia. }
  rewrite Z.mul_1_l in Hx. split; [done|]. destruct (ofMag_exact _ Hx) as (H0 & H1 & _).
  assert (H2 : magOf ((k - 51) * 2 ^ 52 + 0) = (2 ^ 52 + 0) * 2 ^ (k - 51 - 1)) by (apply magOf_normal; lia).
  rewrite !Z.add_0_r, <- pow2_split in H2 by lia. replace (52 + (k - 51 - 1)) with k in H2 by lia.
  pose proof (magOf_compare _ ((k - 51) * 2 ^ 52) H0 ltac:(lia)) as Hc. rewrite H1, H2, Z.compare_refl in Hc.
  symmetry in Hc. by apply Z.compare_eq_iff in Hc.
Qed.

Lemma ofMag_bound x k : exact x → 52 <= k <= 2097 → x < 2 ^ k → ofMag x < (k - 51) * 2 ^ 52.
Proof. intros Hx Hk Hlt. destruct (ofMag_pow2 k Hk) as [He <-]. by apply ofMag_lt. Qed.

Lemma ofMag_bound_ge x k : exact x → 52 <= k <= 2097 → 2 ^ k <= x → (k - 51) * 2 ^ 52 <= ofMag x.
Proof.
  intros Hx Hk Hle. destruct (ofMag_pow2 k Hk) as [He <-].
  destruct (Z.le_gt_cases (ofMag (2 ^ k)) (ofMag x)) as [|Hc]; [done|].
  unfold Z.lt in Hc. rewrite ofMag_compare in Hc by done. fold (x < 2 ^ k) in Hc. lia.
Qed.

Lemma small_exact x : isMagnitude x → x < one → exact x.
Proof.
  intros (H0 & [Hx|[[Hm _]| ->]]) Hlt; [done|..]; exfalso.
  - rewrite Z.mod_small in Hm; lia.
  - apply (Z.lt_irrefl one). rewrite one_eq in *. pose proof (magOf_lt (1023 * 2 ^ 52) infinityBits) as Hl.
    assert (He : magOf (1023 * 2 ^ 52 + 0) = (2 ^ 52 + 0) * 2 ^ (1023 - 1)) by (apply magOf_normal; lia).
    rewrite !Z.add_0_r, <- pow2_split in He by lia. rewrite He in Hl. change (52 + (1023 - 1)) with 1074 in Hl.
    unfold infinityBits in *. lia.
Qed.

(** Tiny magnitudes are scaled before their pattern is taken. *)
Lemma tiny_scaled x :
  exact x → x < one → ofMag x < kTiniestDoubleWith2BitDCM → exact (x * 2 ^ 256) ∧ ofMag (x * 2 ^ 256) < 2 ^ 62.
Proof.
  intros Hx Hlt Ht. assert (Hp : x < 2 ^ 819).
  { destruct (Z.lt_ge_cases x (2 ^ 819)) as [|Hge]; [done|].
    pose proof (ofMag_bound_ge x 819 Hx ltac:(lia) Hge). unfold kTiniestDoubleWith2BitDCM in Ht. lia. }
  assert (H0 : 0 < x) by (by destruct Hx).
  assert (Hl : Z.log2 x < 819) by (by apply Z.log2_lt_pow2).
  assert (He : exact (x * 2 ^ 256)) by (apply exact_scale; [done|lia..]). split; [done|].
  pose proof (ofMag_bound (x * 2 ^ 256) 1075 He ltac:(lia)) as Hb.
  assert (x * 2 ^ 256 < 2 ^ 1075).
  { change 1075 with (819 + 256). rewrite pow2_split by lia. apply Z.mul_lt_mono_pos_r; [by apply pow2_pos|done]. }
  lia.
Qed.

Lemma smallWord_order ver negative x y :
  exact x → exact y → x < one → y < one →
  0 <= smallWord ver negative x < 2 ^ 64 ∧ (smallWord ver negative x ?= smallWord ver negative y) = (x ?= y).
Proof.
  intros Hx Hy Hx1 Hy1.
  assert (Hb : ∀ z, exact z → z < one → 0 <= ofMag z < 1023 * 2 ^ 52).
  { intros z Hz Hz1. destruct (ofMag_exact z Hz) as (Hz0 & _). split; [done|]. rewrite one_eq in Hz1.
    pose proof (ofMag_bound z 1074 Hz). lia. }
  pose proof (Hb x Hx Hx1) as Hbx. pose proof (Hb y Hy Hy1) as Hby. destruct ver; unfold smallWord.
  - unfold withSign. destruct negative; (split; [lia|]); rewrite ?compare_shift; by apply ofMag_compare.
  - assert (Hs : ∀ z, exact z → z < one → ofMag z < kTiniestDoubleWith2BitDCM → 0 <= ofMag (z * 2 ^ 256) < 2 ^ 62).
    { intros z Hz Hz1 Ht. destruct (tiny_scaled z Hz Hz1 Ht) as [He ?]. by destruct (ofMag_exact _ He) as (Hs0 & _). }
    unfold kTiniestDoubleWith2BitDCM in *.
    destruct (Z.leb_spec ((1023 - 255) * 2 ^ 52) (ofMag x)) as [H1|H1];
      destruct (Z.leb_spec ((1023 - 255) * 2 ^ 52) (ofMag y)) as [H2|H2].
    + split; [lia|]. rewrite (compare_mono (λ z, 4 * z)) by lia. by apply ofMag_compare.
    + specialize (Hs y Hy Hy1 H2). split; [lia|]. rewrite <- (ofMag_compare x y) by done.
      transitivity Gt; [|symmetry]; apply Z.compare_gt_iff; lia.
    + specialize (Hs x Hx Hx1 H1). split; [lia|]. rewrite <- (ofMag_compare x y) by done.
      transitivity Lt; [|symmetry]; apply Z.compare_lt_iff; lia.
    + pose proof (Hs x Hx Hx1 H1). split; [lia|]. rewrite (compare_mono (λ z, 2 * z + 2 ^ 62)) by lia.
      destruct (tiny_scaled x Hx Hx1 H1) as [? _], (tiny_scaled y Hy Hy1 H2) as [? _].
      rewrite ofMag_compare by done. rewrite !(Z.mul_comm _ (2 ^ 256)). apply compare_scale. by apply pow2_pos.
Qed.

Lemma ofMag_infinity : ofMag (magOf infinityBits) = infinityBits.
Proof.
  assert (Hm : magOf infinityBits = 2 ^ 52 * 2 ^ 2046).
  { change infinityBits with (2047 * 2 ^ 52 + 0). by rewrite magOf_normal by lia. }
  assert (Hs : shiftOf (2 ^ 52 * 2 ^ 2046) = 2046).
  { unfold shiftOf. rewrite Z.log2_mul_pow2 by lia. rewrite Z.log2_pow2 by lia. done. }
  rewrite Hm. unfold ofMag. fold (shiftOf (2 ^ 52 * 2 ^ 2046)). rewrite Hs, roundShift_exact by lia. done.
Qed.

Lemma large_cases x : isMagnitude x → 2 ^ 63 * one <= x → exact x ∨ x = magOf infinityBits.
Proof. intros (_ & [Hx|[[_ Hlt]|Hx]]) Hle; [by left|lia|by right]. Qed.

Lemma large_bound x :
  2 ^ 63 * one <= x → exact x → 2 ^ 62 <= ofMag x < infinityBits ∧ x < magOf infinityBits.
Proof.
  intros Hle Hx. rewrite one_eq, <- pow2_split in Hle by lia. destruct (ofMag_exact x Hx) as (H0 & Hm & Hb).
  pose proof (ofMag_bound_ge x (63 + 1074) Hx ltac:(lia) Hle). split; [lia|].
  rewrite <- Hm. apply magOf_lt; lia.
Qed.

Lemma largeWord_order ver negative x y :
  isMagnitude x → isMagnitude y → 2 ^ 63 * one <= x → 2 ^ 63 * one <= y →
  0 <= largeWord ver negative x < 2 ^ 64 ∧ (largeWord ver negative x ?= largeWord ver negative y) = (x ?= y).
Proof.
  intros Hx Hy Hx1 Hy1.
  assert (Hb : ∀ z, isMagnitude z → 2 ^ 63 * one <= z → 2 ^ 62 <= ofMag z <= infinityBits).
  { intros z Hz Hz1. destruct (large_cases z Hz Hz1) as [He| ->].
    - pose proof (large_bound z Hz1 He). lia.
    - rewrite ofMag_infinity. unfold infinityBits. lia. }
  pose proof (Hb x Hx Hx1) as Hbx. pose proof (Hb y Hy Hy1) as Hby.
  assert (Hc : (ofMag x ?= ofMag y) = (x ?= y)).
  { destruct (large_cases x Hx Hx1) as [Hex| ->], (large_cases y Hy Hy1) as [Hey| ->].
    - by apply ofMag_compare.
    - rewrite ofMag_infinity. pose proof (large_bound x Hx1 Hex).
      transitivity Lt; [|symmetry]; apply Z.compare_lt_iff; lia.
    - rewrite ofMag_infinity. pose proof (large_bound y Hy1 Hey).
      transitivity Gt; [|symmetry]; apply Z.compare_gt_iff; lia.
    - by rewrite !Z.compare_refl. }
  unfold largeWord, infinityBits in *. destruct ver.
  - unfold withSign. destruct negative; (split; [lia|]); by rewrite ?compare_shift.
  - destruct (Z.ltb_spec (ofMag x) (2047 * 2 ^ 52)) as [H1|H1];
      destruct (Z.ltb_spec (ofMag y) (2047 * 2 ^ 52)) as [H2|H2]; (split; [lia|]); rewrite <- Hc.
    + by rewrite (compare_mono (λ z, 2 * z - 2 ^ 63)) by lia.
    + transitivity Lt; [|symmetry]; apply Z.compare_lt_iff; lia.
    + transitivity Gt; [|symmetry]; apply Z.compare_gt_iff; lia.
    + assert (ofMag x = ofMag y) as -> by lia. by rewrite !Z.compare_refl.
Qed.

(** Magnitudes between, by integer part and fraction. *)
Lemma medium_fraction x :
  isMagnitude x → one <= x < 2 ^ 63 * one → x mod one ≠ 0 → exact x.
Proof.
  intros (_ & [Hx|[[Hm _]|Hx]]) Hlt Hf; [done..|]. exfalso.
  pose proof (magOf_lt ((63 + 1074 - 51) * 2 ^ 52) infinityBits ltac:(lia) ltac:(unfold infinityBits; lia)) as Hl.
  destruct (ofMag_pow2 (63 + 1074) ltac:(lia)) as [He Ho]. destruct (ofMag_exact _ He) as (_ & Hm & _).
  rewrite Ho in Hm. rewrite Hm, pow2_split, <- one_eq, <- Hx in Hl by lia. lia.
Qed.

Lemma medium_compare x y :
  x / one = y / one → (x ?= y) = (x mod one ?= y mod one).
Proof.
  intros He. pose proof one_pos. rewrite (Z.div_mod x one), (Z.div_mod y one) at 1 by lia.
  rewrite He, !(Z.add_comm (_ * _)). apply compare_shift.
Qed.

Lemma compare_int x y : x / one < y / one → x < y.
Proof.
  intros Hlt. pose proof one_pos. pose proof (Z.div_mod x one). pose proof (Z.div_mod y one).
  pose proof (Z.mod_pos_bound x one). pose proof (Z.mod_pos_bound y one). nia.
Qed.

(** The first bytes have the integer part and whether there is a fraction. *)
Definition integerWord (x : Z) : Z := x / one * 2 + (if x mod one =? 0 then 0 else 1).
Definition fractionBytes (ver : Version) (x : Z) : list Z :=
  if x mod one =? 0 then []
  else bigEndian (Z.to_nat (fractionSize ver (x / one))) (x mod one * 2 ^ fractionScale ver (x / one) / one).

Lemma mediumBytes_split ver x :
  mediumBytes ver x = bigEndian (Z.to_nat (integerSize (x / one))) (integerWord x) ++ fractionBytes ver x.
Proof.
  unfold mediumBytes, integerWord, fractionBytes. destruct (x mod one =? 0); [|done].
  by rewrite Z.add_0_r, app_nil_r.
Qed.

Lemma integerWord_bounds x :
  one <= x < 2 ^ 63 * one → 0 <= integerWord x < 256 ^ Z.of_nat (Z.to_nat (integerSize (x / one))).
Proof.
  intros Hx. destruct (medium_integer x Hx) as [H0 _]. destruct (integerSize_bounds (x / one) H0) as (H1 & _ & H2).
  rewrite pow_nat by lia. unfold integerWord.
  assert (Heven : 256 ^ integerSize (x / one) = 2 * (128 * 256 ^ (integerSize (x / one) - 1))).
  { set (n := integerSize (x / one)) in *. replace n with (Z.succ (n - 1)) at 1 by lia.
    rewrite Z.pow_succ_r by lia. lia. }
  destruct (x mod one =? 0); lia.
Qed.

Lemma fractionBytes_order ver x y :
  isMagnitude x → isMagnitude y → one <= x < 2 ^ 63 * one → one <= y < 2 ^ 63 * one →
  integerWord x = integerWord y → Fixed (fractionBytes ver x) (fractionBytes ver y) (x ?= y).
Proof.
  intros Hx Hy Hx1 Hy1 He. pose proof one_pos. unfold integerWord, fractionBytes in *.
  destruct (Z.eqb_spec (x mod one) 0) as [Hf|Hf], (Z.eqb_spec (y mod one) 0) as [Hg|Hg]; try lia.
  - rewrite (medium_compare x y) by lia. by rewrite Hf, Hg.
  - assert (Hip : x / one = y / one) by lia. rewrite (medium_compare x y Hip).
    destruct (fraction_exact ver x) as (v & Hv & Hv1 & Hv2 & _); [by apply medium_fraction|lia|done|].
    destruct (fraction_exact ver y) as (w & Hw & Hw1 & Hw2 & _); [by apply medium_fraction|lia|done|].
    rewrite Hip in Hv, Hv1, Hv2 |- *.
    assert (Hs : 0 <= fractionSize ver (y / one)).
    { destruct (medium_integer y Hy1). pose proof (fraction_small y (medium_fraction y Hy Hy1 Hg) ltac:(lia) Hg).
      destruct (fractionScale_bounds ver (y / one)); lia. }
    rewrite Hv, Hw, !Z.div_mul by lia.
    replace (x mod one ?= y mod one) with (v ?= w).
    + apply bigEndian_order; rewrite pow_nat by done; lia.
    + rewrite <- (compare_scale one v w) by done. rewrite !(Z.mul_comm one), <- Hv, <- Hw.
      rewrite !(Z.mul_comm _ (2 ^ _)). apply compare_scale, pow2_pos.
      destruct (medium_integer y Hy1). pose proof (fraction_small y (medium_fraction y Hy Hy1 Hg) ltac:(lia) Hg).
      destruct (fractionScale_bounds ver (y / one)); lia.
Qed.

Lemma integerWord_compare x y :
  integerWord x ≠ integerWord y → (integerWord x ?= integerWord y) = (x ?= y).
Proof.
  intros Hn. unfold integerWord in *. pose proof one_pos. pose proof (Z.mod_pos_bound x one). pose proof (Z.mod_pos_bound y one).
  destruct (Z.compare_spec (x / one) (y / one)) as [He|Hlt|Hlt].
  - rewrite (medium_compare x y He). rewrite He in *.
    destruct (Z.eqb_spec (x mod one) 0) as [Hf|Hf], (Z.eqb_spec (y mod one) 0) as [Hg|Hg]; try lia.
    + transitivity Lt; [|symmetry]; apply Z.compare_lt_iff; lia.
    + transitivity Gt; [|symmetry]; apply Z.compare_gt_iff; lia.
  - pose proof (compare_int x y Hlt).
    transitivity Lt; [|symmetry]; apply Z.compare_lt_iff; [|lia]. destruct (_ =? 0), (_ =? 0); lia.
  - pose proof (compare_int y x Hlt).
    transitivity Gt; [|symmetry]; apply Z.compare_gt_iff; [|lia]. destruct (_ =? 0), (_ =? 0); lia.
Qed.

Lemma word8_order v w : 0 <= v < 2 ^ 64 → 0 <= w < 2 ^ 64 → Fixed (bigEndian 8 v) (bigEndian 8 w) (v ?= w).
Proof. intros Hv Hw. by apply bigEndian_order. Qed.

(** A class and the bytes of a magnitude. *)
Definition magnitudeKey (ver : Version) (negative : bool) (x : Z) : list Z :=
  magnitudeClass x :: magnitudeBytes ver negative x.

Lemma key_lt c d l l' x y : c < d → x < y → Fixed (c :: l) (d :: l') (x ?= y).
Proof.
  intros Hc Hx. apply Z.compare_lt_iff in Hc, Hx. rewrite Hx. by apply Differ_intro.
Qed.

Lemma key_gt c d l l' x y : d < c → y < x → Fixed (c :: l) (d :: l') (x ?= y).
Proof.
  intros Hc Hx. apply Z.compare_gt_iff in Hc, Hx. rewrite Hx. by apply Differ_intro.
Qed.

Lemma key_same c l l' r : Fixed l l' r → Fixed (c :: l) (c :: l') r.
Proof. intros H. exact (Fixed_app [c] [c] Eq l l' r eq_refl H). Qed.

Lemma medium_order ver negative x y :
  isMagnitude x → isMagnitude y → one <= x < 2 ^ 63 * one → one <= y < 2 ^ 63 * one →
  Fixed (magnitudeKey ver negative x) (magnitudeKey ver negative y) (x ?= y).
Proof.
  intros Hx Hy Hx1 Hy1. unfold magnitudeKey, magnitudeClass, magnitudeBytes.
  destruct (Z.ltb_spec x one), (Z.ltb_spec y one); try lia.
  destruct (Z.ltb_spec x (2 ^ 63 * one)), (Z.ltb_spec y (2 ^ 63 * one)); try lia.
  destruct (medium_integer x Hx1) as [Hi _], (medium_integer y Hy1) as [Hj _].
  destruct (Z.lt_trichotomy (integerSize (x / one)) (integerSize (y / one))) as [Hs|[Hs|Hs]].
  - apply key_lt; [lia|]. apply compare_int. destruct (Z.lt_ge_cases (x / one) (y / one)) as [|Hge]; [done|].
    pose proof (integerSize_mono (y / one) (x / one) Hj Hge). lia.
  - rewrite Hs. apply key_same. rewrite !mediumBytes_split, Hs.
    pose proof (integerWord_bounds x Hx1) as Hwx. pose proof (integerWord_bounds y Hy1) as Hwy. rewrite Hs in Hwx.
    destruct (Z.eq_dec (integerWord x) (integerWord y)) as [He|He].
    + rewrite He. apply (Fixed_app _ _ Eq); [done|]. by apply fractionBytes_order.
    + pose proof (bigEndian_order _ _ _ Hwx Hwy) as Ho. rewrite integerWord_compare in Ho by done.
      destruct (Z.compare_spec x y) as [->|?|?]; [done|by apply Differ_app_r..].
  - apply key_gt; [lia|]. apply compare_int. destruct (Z.lt_ge_cases (y / one) (x / one)) as [|Hge]; [done|].
    pose proof (integerSize_mono (x / one) (y / one) Hi Hge). lia.
Qed.

Lemma magnitudeClass_bounds x :
  0 < x →
  (x < one ∧ magnitudeClass x = 42) ∨ (one <= x < 2 ^ 63 * one ∧ 43 <= magnitudeClass x <= 50) ∨
  (2 ^ 63 * one <= x ∧ magnitudeClass x = 51).
Proof.
  intros Hx. unfold magnitudeClass. destruct (Z.ltb_spec x one); [by left|right].
  destruct (Z.ltb_spec x (2 ^ 63 * one)) as [Hlt|]; [left|by right]. split; [done|].
  destruct (medium_integer x ltac:(done)) as [H0 H1]. pose proof (integerSize_max (x / one) ltac:(done)).
  destruct (integerSize_bounds (x / one) H0). unfold CType.kNumericPositiveSmallMagnitude, CType.kNumeric. lia.
Qed.

Lemma magnitude_order ver negative x y :
  isMagnitude x → isMagnitude y → Fixed (magnitudeKey ver negative x) (magnitudeKey ver negative y) (x ?= y).
Proof.
  intros Hx Hy. pose proof one_pos.
  destruct (magnitudeClass_bounds x (proj1 Hx)) as [[Hx1 Hcx]|[[Hx1 Hcx]|[Hx1 Hcx]]],
    (magnitudeClass_bounds y (proj1 Hy)) as [[Hy1 Hcy]|[[Hy1 Hcy]|[Hy1 Hcy]]];
    try (apply key_lt; lia); try (apply key_gt; lia).
  - unfold magnitudeKey. rewrite Hcx, Hcy. apply key_same. unfold magnitudeBytes.
    destruct (Z.ltb_spec x one), (Z.ltb_spec y one); try lia.
    destruct (smallWord_order ver negative x y) as [Hw Hc]; [by apply small_exact..|done|done|].
    destruct (smallWord_order ver negative y x) as [Hw' _]; [by apply small_exact..|done|done|].
    rewrite <- Hc. by apply word8_order.
  - by apply medium_order.
  - unfold magnitudeKey. rewrite Hcx, Hcy. apply key_same. unfold magnitudeBytes.
    destruct (Z.ltb_spec x one), (Z.ltb_spec y one); try lia.
    destruct (Z.ltb_spec x (2 ^ 63 * one)), (Z.ltb_spec y (2 ^ 63 * one)); try lia.
    destruct (largeWord_order ver negative x y) as [Hw Hc]; [done..|].
    destruct (largeWord_order ver negative y x) as [Hw' _]; [done..|].
    rewrite <- Hc. by apply word8_order.
Qed.

(** ** The order of numbers *)

Definition isNumber (m : option Z) : Prop :=
  match m with None => True | Some v => v = 0 ∨ isMagnitude (Z.abs v) end.

Definition flipKey (l : list Z) : list Z :=
  match l with [] => [] | c :: p => (2 * CType.kNumericZero - c) :: map flipByte p end.

Lemma flipKey_order l l' c : Fixed l l' c → Fixed (flipKey l) (flipKey l') (CompOpp c).
Proof.
  assert (Hd : ∀ c, Differ l l' c → Differ (flipKey l) (flipKey l') (CompOpp c)).
  { intros c' (p & x & y & s & s' & -> & -> & Hc & Hn). destruct p as [|z p]; simpl.
    - apply Differ_intro; [|by destruct c']. rewrite <- Hc. unfold CType.kNumericZero, CType.kNumeric.
      destruct (Z.compare_spec x y), (Z.compare_spec (2 * (30 + 11) - x) (2 * (30 + 11) - y)); simpl; done || lia.
    - apply (Differ_app_l [_]), Differ_flip. by exists p, x, y, s, s'. }
  destruct c; simpl; [by intros ->|apply (Hd Lt)|apply (Hd Gt)].
Qed.

Lemma numberBytes_cases ver v :
  v ≠ 0 → numberBytes ver (Some v) =
    if v <? 0 then flipKey (magnitudeKey ver true (- v)) else magnitudeKey ver false v.
Proof. intros Hv. simpl. apply Z.eqb_neq in Hv as ->. done. Qed.

Lemma number_order ver m n :
  isNumber m → isNumber n → Fixed (numberBytes ver m) (numberBytes ver n) (compareMeanings m n).
Proof.
  intros Hm Hn.
  assert (Hclass : ∀ x, 0 < x → 42 <= magnitudeClass x <= 51).
  { intros x Hx. destruct (magnitudeClass_bounds x Hx) as [[]|[[]|[]]]; lia. }
  assert (Hhead : ∀ v, ∃ c p, numberBytes ver (Some v) = c :: p ∧ 30 < c ∧
             (v < 0 → c < 41) ∧ (v = 0 → c = 41) ∧ (0 < v → 41 < c)).
  { intros v. simpl. unfold CType.kNumericZero, CType.kNumeric.
    destruct (Z.eqb_spec v 0); [by eexists _, _; split_and!; [done|lia..]|].
    destruct (Z.ltb_spec v 0); eexists _, _; (split; [done|]).
    - pose proof (Hclass (- v) ltac:(lia)). lia.
    - pose proof (Hclass v ltac:(lia)). lia. }
  destruct m as [v|], n as [w|]; [|destruct (Hhead v) as (c & p & -> & Hc & _); apply Differ_intro; [|done];
    apply Z.compare_gt_iff; unfold CType.kNumericNaN, CType.kNumeric; lia|destruct (Hhead w) as (c & p & -> & Hc & _);
    apply Differ_intro; [|done]; apply Z.compare_lt_iff; unfold CType.kNumericNaN, CType.kNumeric; lia|done].
  simpl compareMeanings. destruct (Z.lt_trichotomy v 0) as [Hv|[Hv|Hv]], (Z.lt_trichotomy w 0) as [Hw|[Hw|Hw]];
    try (destruct (Hhead v) as (c & p & -> & Hc & H1 & H2 & H3), (Hhead w) as (d & q & -> & Hd & H4 & H5 & H6);
         (apply key_lt; lia) || (apply key_gt; lia)).
  - rewrite !numberBytes_cases by lia. apply Z.ltb_lt in Hv as Hv', Hw as Hw'. rewrite Hv', Hw'.
    rewrite <- (Z.opp_involutive v), <- (Z.opp_involutive w) at 2. rewrite compare_opp.
    destruct Hm as [Hm|Hm], Hn as [Hn|Hn]; try lia. rewrite !Z.abs_neq in * by lia.
    apply flipKey_order. by apply magnitude_order.
  - by rewrite Hv, Hw.
  - rewrite !numberBytes_cases by lia.
    destruct (Z.ltb_spec v 0), (Z.ltb_spec w 0); try lia.
    destruct Hm as [Hm|Hm], Hn as [Hn|Hn]; try lia. rewrite !Z.abs_eq in * by lia. by apply magnitude_order.
Qed.
