(* ===== verification/KeyStringNumberCode.v ===== *)
(** What the builder appends for integers and doubles is their encoding as numbers. *)
From S2P Require Import Prelude KeyBytes BsonValue DoubleFacts KeyString KeyStringNumbers.
Import Double.

(** ** Appending *)

Lemma appendBytes_app l m invert b :
  _appendBytes m invert (_appendBytes l invert b) = _appendBytes (l ++ m) invert b.
Proof. unfold _appendBytes. simpl. rewrite <- app_assoc. by destruct invert; rewrite ?map_app. Qed.

Lemma appendBytes_negb l invert b : _appendBytes l (negb invert) b = _appendBytes (map flipByte l) invert b.
Proof. unfold _appendBytes. destruct invert; simpl; rewrite ?flip_flip; done. Qed.

(** A class byte, and a word or bytes that are inverted once more for negative numbers. *)
Lemma append_signed c l (negative invert : bool) b :
  _appendBytes l (if negative then negb invert else invert)
    (_append (if negative then 2 * CType.kNumericZero - c else c) invert b)
  = _appendBytes (if negative then flipKey (c :: l) else c :: l) invert b.
Proof.
  unfold _append. destruct negative; [rewrite appendBytes_negb|]; by rewrite appendBytes_app.
Qed.

(** ** Doubles that are numbers *)

Lemma magBits_number d : isNaN d = false → 0 <= magBits d <= infinityBits.
Proof. unfold isNaN. intros Hn%Z.ltb_ge. pose proof (magBits_bounds d). lia. Qed.

Lemma ofMag_mag d : isNaN d = false → ofMag (mag d) = magBits d.
Proof.
  intros Hn. pose proof (magBits_number d Hn) as Hb. unfold mag.
  destruct (Z.eq_dec (magBits d) 0) as [->|]; [done|].
  destruct (Z.eq_dec (magBits d) infinityBits) as [->|]; [apply ofMag_infinity|apply ofMag_magOf; lia].
Qed.

Lemma mag_isMagnitude d : isNaN d = false → 0 < mag d → isMagnitude (mag d).
Proof.
  intros Hn Hm. pose proof (magBits_number d Hn) as Hb. split; [done|]. unfold mag in *.
  destruct (Z.eq_dec (magBits d) infinityBits) as [->|]; [by right; right|left].
  destruct (Z.eq_dec (magBits d) 0) as [H0|]; [by rewrite H0 in Hm|]. apply finite_exact. lia.
Qed.

Lemma meaning_isNumber d : isNumber (meaning d).
Proof.
  unfold meaning, isNumber. destruct (isNaN d) eqn:Hn; [done|]. rewrite val_mag. pose proof (mag_nonneg d).
  pose proof (val_mag d). destruct (Z.eq_dec (mag d) 0); [left; lia|right]. apply mag_isMagnitude; [done|lia].
Qed.

Lemma integer_isNumber i : - 2 ^ 63 <= i < 2 ^ 63 → isNumber (Some (i * one)).
Proof.
  intros Hi. pose proof one_pos. simpl. destruct (Z.eq_dec i 0) as [->|]; [by left|right].
  rewrite Z.abs_mul, (Z.abs_eq one) by lia. split; [nia|].
  destruct (Z.eq_dec i (- 2 ^ 63)) as [->|].
  - left. apply (exact_integer 1 63); [lia..|]. vm_compute. discriminate.
  - right. left. rewrite Z.mod_mul by lia. split; [done|]. nia.
Qed.

(** The number of a sign and a magnitude. *)
Lemma numberBytes_signed ver (negative : bool) x :
  0 < x → numberBytes ver (Some (if negative then - x else x)) =
    if negative then flipKey (magnitudeKey ver true x) else magnitudeKey ver false x.
Proof.
  intros Hx. rewrite numberBytes_cases by (destruct negative; lia). destruct negative.
  - destruct (Z.ltb_spec (- x) 0); [|lia]. by rewrite Z.opp_involutive.
  - destruct (Z.ltb_spec x 0); [lia|done].
Qed.

Lemma ltb_zero d : isDouble d → isNaN d = false → ltb d 0 = signbit d && negb (mag d =? 0) ∧ ltb 0 d = negb (signbit d) && negb (mag d =? 0).
Proof.
  intros Hd Hn. unfold ltb. rewrite Hn. change (isNaN 0) with false. change (val 0) with 0. simpl.
  pose proof (mag_nonneg d). unfold val. destruct (signbit d); simpl.
  - split; [|apply Z.ltb_ge; lia]. destruct (Z.eqb_spec (mag d) 0); simpl; [apply Z.ltb_ge|apply Z.ltb_lt]; lia.
  - split; [apply Z.ltb_ge; lia|]. destruct (Z.eqb_spec (mag d) 0); simpl; [apply Z.ltb_ge|apply Z.ltb_lt]; lia.
Qed.

(** ** Large doubles *)

Lemma appendLargeDouble_spec d invert b :
  isDouble d → isNaN d = false → 2 ^ 63 * one <= mag d →
  _appendLargeDouble d kDCMEqualToDouble invert b =
    Returned (_appendBytes (numberBytes (version b) (meaning d)) invert b).
Proof.
  intros Hd Hn Hm. pose proof one_pos. unfold meaning. rewrite Hn. unfold val.
  rewrite numberBytes_signed by nia. unfold _appendLargeDouble. simpl.
  destruct (ltb_zero d Hd Hn) as [_ ->]. destruct (Z.eqb_spec (mag d) 0); [nia|]. rewrite andb_true_r.
  assert (Hkey : magnitudeKey (version b) (signbit d) (mag d) =
            CType.kNumericPositiveLargeMagnitude :: bigEndian 8 (largeWord (version b) (signbit d) (mag d))).
  { unfold magnitudeKey, magnitudeClass, magnitudeBytes.
    destruct (Z.ltb_spec (mag d) one), (Z.ltb_spec (mag d) (2 ^ 63 * one)); done || nia. }
  set (w := match version b with V0 => d | V1 => _ end).
  assert (Hw : w = largeWord (version b) (signbit d) (mag d)).
  { unfold w, largeWord, isfinite. rewrite ofMag_mag by done. destruct (version b); [by apply double_split|].
    destruct (Z.ltb_spec (magBits d) infinityBits) as [Hf|]; [|done].
    assert (Hb : 2 ^ 62 <= magBits d).
    { rewrite <- (ofMag_mag d Hn). apply large_bound; [done|].
      destruct (large_cases (mag d)) as [He|He]; [apply mag_isMagnitude; [done|nia]|done|done|].
      rewrite <- (ofMag_mag d Hn), He, ofMag_infinity in Hf. lia. }
    rewrite (double_split d Hd) at 1. pose proof (magBits_bounds d).
    change (kDCMEqualToDouble =? kDCMEqualToDouble) with true. simpl (Z.b2z _). rewrite Z.lor_0_r.
    rewrite Z.shiftl_mul_pow2 by lia. change (2 ^ 1) with 2. change (2 ^ 63 - 1) with (Z.ones 63).
    rewrite Z.land_ones by lia. unfold withSign.
    destruct (signbit d); Z.to_euclidean_division_equations; lia. }
  rewrite Hw. clear Hw w. f_equal. unfold _appendWord.
  pose proof (append_signed CType.kNumericPositiveLargeMagnitude
    (bigEndian 8 (largeWord (version b) (signbit d) (mag d))) (signbit d) invert b) as Ha.
  unfold magnitudeKey in *. injection Hkey as Hc Hb.
  destruct (signbit d); rewrite Hc, Hb; exact Ha.
Qed.

(** ** Integer portions *)

Lemma appendPreshifted_spec v ip (negative invert : bool) b :
  0 < ip < 2 ^ 63 → v = ip * 2 ∨ v = ip * 2 + 1 →
  _appendPreshiftedIntegerPortion v negative invert b =
    let key := CType.kNumericPositiveSmallMagnitude + integerSize ip :: bigEndian (Z.to_nat (integerSize ip)) v in
    _appendBytes (if negative then flipKey key else key) invert b.
Proof.
  intros Hip Hv. unfold _appendPreshiftedIntegerPortion.
  assert (Hl : Z.log2 v = Z.log2 (ip * 2)).
  { destruct Hv as [-> | ->]; [done|]. rewrite (Z.mul_comm ip), Z.log2_succ_double, Z.log2_double by lia. lia. }
  assert (Hn : (64 - countLeadingZeros64 v + 7) / 8 = integerSize ip).
  { unfold countLeadingZeros64, integerSize. destruct (Z.eqb_spec v 0); [lia|]. rewrite Hl.
    replace (64 - (63 - Z.log2 (ip * 2)) + 7) with (Z.log2 (ip * 2) + 1 * 8) by lia. by rewrite Z.div_add by lia. }
  rewrite Hn. cbv zeta.
  rewrite <- (append_signed (CType.kNumericPositiveSmallMagnitude + integerSize ip)
    (bigEndian (Z.to_nat (integerSize ip)) v) negative invert b).
  unfold CType.kNumericNegative1ByteInt, CType.kNumericPositive1ByteInt, CType.kNumericZero,
    CType.kNumericPositiveSmallMagnitude, CType.kNumeric.
  replace (30 + 9 - (integerSize ip - 1)) with (2 * (30 + 11) - (30 + 12 + integerSize ip)) by lia.
  replace (30 + 13 + (integerSize ip - 1)) with (30 + 12 + integerSize ip) by lia. by destruct negative.
Qed.

Lemma integer_key ver negative ip :
  0 < ip < 2 ^ 63 →
  magnitudeKey ver negative (ip * one) =
    CType.kNumericPositiveSmallMagnitude + integerSize ip :: bigEndian (Z.to_nat (integerSize ip)) (ip * 2).
Proof.
  intros Hip. pose proof one_pos. unfold magnitudeKey, magnitudeClass, magnitudeBytes, mediumBytes.
  rewrite Z.div_mul, Z.mod_mul by lia. simpl.
  destruct (Z.ltb_spec (ip * one) one), (Z.ltb_spec (ip * one) (2 ^ 63 * one)); nia || done.
Qed.

Lemma appendInteger_spec i invert b :
  - 2 ^ 63 <= i < 2 ^ 63 →
  _appendInteger i invert b = Returned (_appendBytes (numberBytes (version b) (Some (i * one))) invert b).
Proof.
  intros Hi. pose proof one_pos. unfold _appendInteger. destruct (Z.eqb_spec i (- 2 ^ 63)) as [->|Hmin].
  - destruct ofInteger_min as (Hd & _ & Hn & Hv). rewrite appendLargeDouble_spec; [|done|done|].
    + unfold meaning. by rewrite Hn, Hv.
    + rewrite <- val_mag, Hv. nia.
  - destruct (Z.eqb_spec i 0) as [->|H0]; [done|]. f_equal.
    rewrite (appendPreshifted_spec _ (Z.abs i)) by lia. cbv zeta.
    rewrite <- (integer_key (version b) (i <? 0)) by lia.
    replace (i * one) with (if i <? 0 then - (Z.abs i * one) else Z.abs i * one) by (destruct (Z.ltb_spec i 0); nia).
    rewrite numberBytes_signed by nia. by destruct (i <? 0).
Qed.

(** ** Smaller doubles *)

Lemma positive_double b :
  0 <= b <= infinityBits → isDouble b ∧ isNaN b = false ∧ val b = magOf b ∧ signbit b = false ∧ magBits b = b.
Proof.
  unfold infinityBits. intros Hb. assert (H : 0 <= b < 2 ^ 63) by lia.
  pose proof (withSign_magBits false b H) as Hm. pose proof (withSign_sign false b H) as Hs.
  pose proof (val_withSign false b H) as Hv. pose proof (withSign_double false b H) as Hd. simpl in *.
  split_and!; try done. unfold isNaN. rewrite Hm. apply Z.ltb_ge. unfold infinityBits. lia.
Qed.

(** The order of positive patterns. *)
Lemma positive_ltb p q : 0 <= p <= infinityBits → 0 <= q <= infinityBits → ltb p q = (p <? q).
Proof.
  intros Hp Hq. destruct (positive_double p Hp) as (_ & Hn & Hv & _), (positive_double q Hq) as (_ & Hn' & Hv' & _).
  unfold ltb. rewrite Hn, Hn', Hv, Hv'. simpl. pose proof (magOf_compare p q ltac:(lia) ltac:(lia)) as Hc.
  unfold Z.ltb. by rewrite Hc.
Qed.

Lemma positive_eqb p q : 0 <= p <= infinityBits → 0 <= q <= infinityBits → eqb p q = (p =? q).
Proof.
  intros Hp Hq. destruct (positive_double p Hp) as (_ & Hn & Hv & _), (positive_double q Hq) as (_ & Hn' & Hv' & _).
  unfold eqb. rewrite Hn, Hn', Hv, Hv'. simpl. rewrite !Z.eqb_compare. by rewrite magOf_compare by lia.
Qed.

Lemma positive_leb p q :
  0 <= p <= infinityBits → 0 <= q <= infinityBits → ltb p q || eqb p q = (p <=? q).
Proof.
  intros Hp Hq. rewrite positive_ltb, positive_eqb by done.
  destruct (Z.ltb_spec p q), (Z.eqb_spec p q), (Z.leb_spec p q); done || lia.
Qed.

(** The code's magnitude. *)
Lemma magnitude_bits d :
  isDouble d → isNaN d = false → mag d ≠ 0 → ltb d 0 = signbit d ∧ (if ltb d 0 then neg d else d) = magBits d.
Proof.
  intros Hd Hn Hm. destruct (ltb_zero d Hd Hn) as [-> _]. apply Z.eqb_neq in Hm. rewrite Hm, andb_true_r. split; [done|].
  rewrite neg_withSign by done. destruct (signbit d) eqn:Hs; simpl; [done|].
  rewrite (double_split d Hd) at 1. by rewrite Hs.
Qed.

Lemma appendSmallDouble_spec d invert b :
  isDouble d → isNaN d = false → 0 < mag d < one →
  _appendSmallDouble d kDCMEqualToDouble invert b =
    Returned (_appendBytes (numberBytes (version b) (meaning d)) invert b).
Proof.
  intros Hd Hn Hm. destruct (magnitude_bits d Hd Hn ltac:(lia)) as [Hs Hb].
  pose proof (magBits_number d Hn) as Hbb. pose proof (ofMag_mag d Hn) as Ho.
  pose proof (small_exact (mag d) (mag_isMagnitude d Hn ltac:(lia)) ltac:(lia)) as Hx.
  unfold meaning. rewrite Hn. unfold val. rewrite numberBytes_signed by lia.
  unfold _appendSmallDouble. rewrite Hb, Hs.
  assert (Hkey : magnitudeClass (mag d) = CType.kNumericPositiveSmallMagnitude ∧
            magnitudeBytes (version b) (signbit d) (mag d) = bigEndian 8 (smallWord (version b) (signbit d) (mag d))).
  { unfold magnitudeClass, magnitudeBytes. destruct (Z.ltb_spec (mag d) one); [done|lia]. }
  destruct Hkey as [Hc Hbytes].
  match goal with |- (?e ≫= ?f) = _ => assert (He : e = Returned (smallWord (version b) (signbit d) (mag d))) end.
  { change (version (_append _ invert b)) with (version b). unfold smallWord. rewrite Ho.
    destruct (version b); [f_equal; by apply double_split|].
    rewrite positive_leb by (unfold kTiniestDoubleWith2BitDCM, infinityBits in *; lia).
    rewrite Z.lor_0_r. destruct (Z.leb_spec kTiniestDoubleWith2BitDCM (magBits d)) as [Ht|Ht].
    - f_equal. rewrite Z.shiftl_mul_pow2 by lia. change (2 ^ 2) with 4.
      assert (magBits d < 1023 * 2 ^ 52).
      { rewrite <- Ho. apply (ofMag_bound _ 1074); [done|lia|]. rewrite <- one_eq. lia. }
      rewrite Z.mod_small by lia. lia.
    - simpl. destruct (tiny_scaled (mag d) Hx ltac:(lia) ltac:(lia)) as [He Hlt].
      destruct (positive_double (magBits d) Hbb) as (_ & _ & Hv & Hsb & Hmb).
      assert (Hsc : scale (magBits d) kTinyDoubleExponentShift = ofMag (mag d * 2 ^ 256)).
      { unfold scale, isfinite. rewrite Hmb, Hsb.
        destruct (Z.ltb_spec (magBits d) infinityBits) as [_|H]; [|unfold kTiniestDoubleWith2BitDCM, infinityBits in *; lia].
        unfold mag at 1. rewrite Hmb. done. }
      rewrite Hsc. change (kDCMEqualToDouble =? kDCMEqualToDouble) with true. simpl (Z.b2z _). rewrite Z.lor_0_r.
      destruct (ofMag_exact _ He) as (H0 & _). rewrite Z.shiftl_mul_pow2 by lia. change (2 ^ 1) with 2.
      f_equal. rewrite (Z.mod_small (_ * 2)) by lia. rewrite Z.mod_small by lia. lia. }
  rewrite He. cbn [mbind Result_bind]. f_equal. unfold _appendWord.
  pose proof (append_signed CType.kNumericPositiveSmallMagnitude
    (bigEndian 8 (smallWord (version b) (signbit d) (mag d))) (signbit d) invert b) as Ha.
  unfold magnitudeKey. destruct (signbit d); rewrite Hc, Hbytes; exact Ha.
Qed.

(** ** Doubles between *)

Lemma truncate_positive b : 0 <= b <= infinityBits → truncate b = magOf b / one.
Proof.
  intros Hb. destruct (positive_double b Hb) as (_ & _ & Hv & _). unfold truncate. rewrite Hv.
  pose proof one_pos. apply Z.quot_div_nonneg; [apply magOf_nonneg; lia|done].
Qed.

(** A double is an integer when its integer part converts back to it. *)
Lemma integral_test b :
  0 <= b < infinityBits → one <= magOf b < 2 ^ 63 * one →
  eqb (ofInteger (magOf b / one)) b = (magOf b mod one =? 0).
Proof.
  intros Hb Hm. pose proof one_pos. assert (Hx : exact (magOf b)).
  { apply finite_exact. destruct (Z.eq_dec b 0) as [H0|]; [rewrite H0 in Hm; change (magOf 0) with 0 in Hm; lia|lia]. }
  destruct (medium_integer (magOf b) Hm) as [Hi _]. pose proof (Z.div_mod (magOf b) one ltac:(lia)) as Hdm.
  destruct (positive_double b ltac:(lia)) as (_ & Hn & Hv & _).
  assert (He : exact (Z.abs (magOf b / one) * one) → eqb (ofInteger (magOf b / one)) b = (magOf b mod one =? 0)).
  { intros He. destruct (ofInteger_exact (magOf b / one)) as (_ & _ & Hn' & Hv'); [by right|].
    unfold eqb. rewrite Hn, Hn', Hv, Hv'. simpl.
    destruct (Z.eqb_spec (magOf b / one * one) (magOf b)), (Z.eqb_spec (magOf b mod one) 0); done || lia. }
  apply He. rewrite Z.abs_eq by lia. destruct (Z.eq_dec (magOf b mod one) 0) as [Hf|Hf].
  - by replace (magOf b / one * one) with (magOf b) by lia.
  - pose proof (fraction_small (magOf b) Hx ltac:(lia) Hf). rewrite <- (Z.mul_1_r (magOf b / one)).
    apply (exact_integer _ 0); [lia..|]. assert (Z.log2 (magOf b / one * 2 ^ 0) < 52) by (apply Z.log2_lt_pow2; lia). lia.
Qed.

(** The exponent and the mantissa of a double with a fraction. *)
Lemma mantissa_parts b :
  0 <= b < infinityBits → one <= magOf b → magOf b mod one ≠ 0 →
  let fb := fractionScale V0 (magOf b / one) in
  ∃ e m, b = e * 2 ^ 52 + m ∧ 0 <= m < 2 ^ 52 ∧ fb = 1075 - e ∧ 1 <= fb <= 52 ∧
    magOf b / one = (2 ^ 52 + m) / 2 ^ fb ∧ magOf b mod one = ((2 ^ 52 + m) mod 2 ^ fb) * 2 ^ (e - 1) ∧
    b mod 2 ^ fb = (2 ^ 52 + m) mod 2 ^ fb ∧ one = 2 ^ (e - 1) * 2 ^ fb.
Proof.
  intros Hb Hm Hf fb. pose proof one_pos.
  destruct (bits_cases b ltac:(lia)) as [Hs|(e & m & He & He1 & Hm1)].
  { rewrite magOf_small in Hm by done. pose proof (Z.pow_lt_mono_r 2 52 1074). rewrite one_eq in Hm. lia. }
  assert (Hx : exact (magOf b)) by (apply finite_exact; lia).
  pose proof (fraction_small (magOf b) Hx Hm Hf) as Hip. pose proof (log2_integer (magOf b) Hm) as Hl.
  assert (Hip0 : 0 < magOf b / one) by (assert (1 <= magOf b / one) by (apply Z.div_le_lower_bound; lia); lia).
  assert (Hlb : 0 <= Z.log2 (magOf b / one) < 52) by (split; [apply Z.log2_nonneg|apply Z.log2_lt_pow2; lia]).
  assert (Hfb : fb = 1075 - e).
  { unfold fb, fractionScale. assert (Hlm : Z.log2 (magOf b) = 52 + (e - 1)); [|lia].
    rewrite He, magOf_normal, Z.log2_mul_pow2 by lia.
    assert (Z.log2 (2 ^ 52 + m) = 52) by (apply Z.log2_unique; lia). lia. }
  assert (Hfb0 : 1 <= fb <= 52) by (unfold fb, fractionScale; lia).
  assert (Ho : one = 2 ^ (e - 1) * 2 ^ fb).
  { rewrite one_eq, <- pow2_split by lia. f_equal. lia. }
  pose proof (pow2_pos (e - 1) ltac:(lia)) as Hp1. pose proof (pow2_pos fb ltac:(lia)) as Hp2.
  assert (Hmag : magOf b = (2 ^ 52 + m) * 2 ^ (e - 1)) by (rewrite He; by apply magOf_normal).
  exists e, m. split_and!; try done; try lia.
  - rewrite Hmag, Ho, (Z.mul_comm (2 ^ (e - 1)) (2 ^ fb)). by rewrite Z.div_mul_cancel_r by lia.
  - rewrite Hmag, Ho, (Z.mul_comm (2 ^ (e - 1)) (2 ^ fb)). by rewrite Z.mul_mod_distr_r by lia.
  - rewrite He. replace (2 ^ 52) with (2 ^ (52 - fb) * 2 ^ fb) by (rewrite <- pow2_split by lia; f_equal; lia).
    rewrite Z.mul_assoc, !(Z.add_comm (_ * 2 ^ fb)), !Z.mod_add by lia. done.
Qed.

(** The first version takes the fraction from the mantissa. *)
Lemma mantissa_fraction b :
  0 <= b < infinityBits → one <= magOf b → magOf b mod one ≠ 0 →
  let fb := fractionScale V0 (magOf b / one) in
  b mod 2 ^ fb = magOf b mod one * 2 ^ fb / one ∧ 0 <= fb <= 52.
Proof.
  intros Hb Hm Hf fb. destruct (mantissa_parts b Hb Hm Hf) as (e & m & _ & _ & _ & Hfb & _ & Hmod & Hbm & Ho).
  fold fb in Hfb, Hmod, Hbm, Ho. split; [|lia]. pose proof one_pos.
  rewrite Hmod, <- Z.mul_assoc, <- Ho, Z.div_mul by lia. exact Hbm.
Qed.

Lemma scale_positive b k :
  0 <= b < infinityBits → 0 <= k → exact (magOf b * 2 ^ k) →
  scale b k = ofMag (magOf b * 2 ^ k) ∧ magOf (scale b k) = magOf b * 2 ^ k ∧ 0 <= scale b k <= infinityBits.
Proof.
  intros Hb Hk Hx. destruct (positive_double b ltac:(lia)) as (_ & _ & _ & Hs & Hm).
  assert (Hsc : scale b k = ofMag (magOf b * 2 ^ k)).
  { unfold scale, isfinite, mag. rewrite Hm, Hs. destruct (Z.ltb_spec b infinityBits); [|lia].
    destruct (Z.leb_spec 0 k); [done|lia]. }
  rewrite Hsc. destruct (ofMag_exact _ Hx) as (H0 & H1 & H2). split_and!; [done..|lia].
Qed.

Lemma zeros_bytes ip :
  0 < ip < 2 ^ 63 → countLeadingZeros64 (ip * 2) / 8 = 8 - integerSize ip ∧ 1 <= integerSize ip <= 8.
Proof.
  intros Hip. unfold countLeadingZeros64, integerSize. destruct (Z.eqb_spec (ip * 2) 0); [lia|].
  assert (0 <= Z.log2 (ip * 2) < 64) by (split; [apply Z.log2_nonneg|apply Z.log2_lt_pow2; lia]).
  Z.to_euclidean_division_equations; lia.
Qed.

Lemma medium_finite d : isNaN d = false → mag d < 2 ^ 63 * one → magBits d < infinityBits.
Proof.
  intros Hn Hm. pose proof (magBits_number d Hn) as Hb. destruct (Z.eq_dec (magBits d) infinityBits) as [He|]; [|lia].
  exfalso. destruct (ofMag_pow2 (63 + 1074) ltac:(lia)) as [He1 Ho]. destruct (ofMag_exact _ He1) as (_ & Hm1 & _).
  pose proof (magOf_lt ((63 + 1074 - 51) * 2 ^ 52) infinityBits ltac:(lia) ltac:(unfold infinityBits; lia)) as Hl.
  rewrite <- Ho, Hm1, pow2_split, <- one_eq in Hl by lia. unfold mag in Hm. rewrite He in Hm. lia.
Qed.

Lemma appendMediumDouble_spec d invert b :
  isDouble d → isNaN d = false → one <= mag d < 2 ^ 63 * one →
  appendMediumDouble d kDCMEqualToDouble (signbit d) (magBits d) invert b =
    Returned (_appendBytes (numberBytes (version b) (meaning d)) invert b).
Proof.
  intros Hd Hn Hm. pose proof one_pos. pose proof (magBits_number d Hn) as Hb.
  pose proof (medium_finite d Hn (proj2 Hm)) as Hfin.
  unfold meaning. rewrite Hn. unfold val. rewrite numberBytes_signed by lia.
  unfold appendMediumDouble. rewrite truncate_positive by done. fold (mag d).
  pose proof (integral_test (magBits d) ltac:(lia) Hm) as Ht. fold (mag d) in Ht. rewrite Ht.
  change (kDCMEqualToDouble =? kDCMEqualToDouble) with true. rewrite andb_true_r.
  destruct (medium_integer (mag d) Hm) as [Hi0 Hi1].
  assert (Hkey : ∀ negative, magnitudeKey (version b) negative (mag d) =
            CType.kNumericPositiveSmallMagnitude + integerSize (mag d / one) :: mediumBytes (version b) (mag d)).
  { intros negative. unfold magnitudeKey, magnitudeClass, magnitudeBytes.
    destruct (Z.ltb_spec (mag d) one), (Z.ltb_spec (mag d) (2 ^ 63 * one)); done || lia. }
  destruct (Z.eqb_spec (mag d mod one) 0) as [Hf|Hf].
  { rewrite (appendPreshifted_spec _ (mag d / one)) by lia. cbv zeta. rewrite !Hkey. unfold mediumBytes. by rewrite Hf. }
  pose proof (medium_fraction (mag d) (mag_isMagnitude d Hn ltac:(lia)) Hm Hf) as Hx.
  rewrite !Hkey. unfold mediumBytes. apply Z.eqb_neq in Hf as Hf'. rewrite Hf'.
  destruct (version b) eqn:Hver.
  - cbn [ensures mbind Result_bind]. f_equal.
    assert (Hlor : Z.lor (mag d / one * 2) 1 = mag d / one * 2 + 1).
    { rewrite (Z.mul_comm _ 2). change 1 with (Z.b2z true). rewrite <- Z.lor_comm.
      rewrite (Z.mul_comm 2), <- (Z.shiftl_mul_pow2 _ 1) by lia. rewrite Z.lor_comm.
      rewrite <- Z.add_lor_land. rewrite Z.shiftl_mul_pow2 by lia. change (2 ^ 1) with 2.
      assert (Z.land (mag d / one * 2) (Z.b2z true) = 0) as ->; [|lia].
      change (Z.b2z true) with (Z.ones 1). rewrite Z.land_ones by lia. change (2 ^ 1) with 2. apply Z.mod_mul. lia. }
    rewrite Hlor, (appendPreshifted_spec _ (mag d / one)) by lia. cbv zeta.
    assert (Hc : 53 - (64 - countLeadingZeros64 (mag d / one)) = fractionScale V0 (mag d / one)).
    { unfold countLeadingZeros64, fractionScale. destruct (Z.eqb_spec (mag d / one) 0); lia. }
    destruct (mantissa_fraction (magBits d) ltac:(lia) (proj1 Hm) Hf) as [Hman Hfb]. fold (mag d) in Hman, Hfb.
    rewrite Hc, <- Hman. change ((fractionScale V0 (mag d / one) + 7) / 8) with (fractionSize V0 (mag d / one)).
    assert (Hdm : d mod 2 ^ fractionScale V0 (mag d / one) = magBits d mod 2 ^ fractionScale V0 (mag d / one)).
    { set (j := fractionScale V0 (mag d / one)) in *. rewrite (double_split d Hd) at 1. unfold withSign.
      destruct (signbit d); [|done]. replace (2 ^ 63) with (2 ^ (63 - j) * 2 ^ j) by (rewrite <- pow2_split by lia; f_equal; lia).
      by rewrite Z.mod_add by (pose proof (pow2_pos j); lia). }
    rewrite Hdm. destruct (signbit d).
    + rewrite appendBytes_negb, appendBytes_app. cbn [flipKey]. by rewrite map_app.
    + by rewrite appendBytes_app.
  - destruct (zeros_bytes (mag d / one) ltac:(lia)) as [Hz Hn8]. rewrite Hz.
    set (n := integerSize (mag d / one)) in *. set (ip := mag d / one) in *.
    destruct (fraction_exact V1 (mag d) Hx (proj1 Hm) Hf) as (w & Hw & Hw1 & Hw2 & Hw3). fold ip in Hw, Hw1, Hw2, Hw3 |- *.
    pose proof (fraction_small (mag d) Hx (proj1 Hm) Hf) as Hsmall. fold ip in Hsmall.
    destruct (fractionScale_bounds V1 ip ltac:(lia)) as (Hj1 & Hj2 & Hj3).
    rewrite Hw, Z.div_mul by lia. unfold fractionScale, fractionSize in *. fold n in Hw, Hw1, Hw2, Hw3, Hj1, Hj3 |- *.
    set (j := 8 * (8 - n)) in *.
    assert (Hj3' : 3 <= j - (52 - Z.log2 ip)).
    { unfold j, n, integerSize. pose proof (Z.log2_mul_pow2 ip 1 ltac:(lia) ltac:(lia)) as Hl.
      change (2 ^ 1) with 2 in Hl. rewrite Hl. Z.to_euclidean_division_equations; lia. }
    assert (Hxs : exact (magOf (magBits d) * 2 ^ j)).
    { apply exact_scale; [done|lia|]. fold (mag d). rewrite log2_integer by lia. fold ip.
      assert (Z.log2 ip < 52) by (apply Z.log2_lt_pow2; lia). lia. }
    destruct (scale_positive (magBits d) j ltac:(lia) ltac:(lia) Hxs) as (_ & Hsm & Hsb). fold (mag d) in Hsm.
    rewrite truncate_positive by done. rewrite Hsm.
    pose proof (pow2_pos j ltac:(lia)) as Hpj.
    assert (Hq : mag d * 2 ^ j / one = ip * 2 ^ j + w).
    { pose proof (Z.div_mod (mag d) one ltac:(lia)) as Hdm. fold ip in Hdm.
      replace (mag d * 2 ^ j) with ((ip * 2 ^ j + w) * one) by nia. by rewrite Z.div_mul by lia. }
    rewrite Hq, Z.shiftl_mul_pow2 by lia. replace ((8 - n) * 8) with j by (unfold j; lia).
    destruct (integerSize_bounds ip ltac:(lia)) as (_ & _ & Hub). fold n in Hub.
    assert (Hpow : 256 ^ n * 2 ^ j = 2 ^ 64).
    { change 256 with (2 ^ 8). rewrite <- Z.pow_mul_r, <- pow2_split by lia. f_equal. unfold j. lia. }
    assert (Hpow' : 2 ^ j = 256 ^ (8 - n)).
    { change 256 with (2 ^ 8). rewrite <- Z.pow_mul_r by lia. done. }
    assert (Heven : ip * 2 + 1 < 256 ^ n).
    { assert (256 ^ n = 2 * (128 * 256 ^ (n - 1))).
      { replace n with (Z.succ (n - 1)) at 1 by lia. rewrite Z.pow_succ_r by lia. lia. }
      lia. }
    replace (ip * 2 ^ j + w + (ip + 1) * 2 ^ j) with ((ip * 2 + 1) * 2 ^ j + w) by lia.
    rewrite (Z.mod_small _ (2 ^ 64)) by nia.
    assert (H4 : ((ip * 2 + 1) * 2 ^ j + w) mod 4 = 0).
    { apply Z.mod_divide; [lia|]. apply Z.divide_add_r.
      - apply Z.divide_mul_r. replace j with (2 + (j - 2)) by lia. rewrite pow2_split by lia. apply Z.divide_factor_l.
      - eapply Z.divide_trans; [|exact Hw3]. replace (j - (52 - Z.log2 ip)) with (2 + (j - (52 - Z.log2 ip) - 2)) by lia.
        rewrite pow2_split by lia. apply Z.divide_factor_l. }
    change 3 with (Z.ones 2). rewrite Z.land_ones by lia. change (2 ^ 2) with 4. rewrite H4.
    cbn [ensures mbind Result_bind Z.eqb]. f_equal. rewrite Z.lor_0_r. unfold _appendWord.
    assert (Hbytes : bigEndian 8 ((ip * 2 + 1) * 2 ^ j + w) =
              bigEndian (Z.to_nat n) (ip * 2 + 1) ++ bigEndian (Z.to_nat (8 - n)) w).
    { replace 8%nat with (Z.to_nat n + Z.to_nat (8 - n))%nat by lia.
      rewrite Hpow', <- (pow_nat (8 - n)) by lia. apply bigEndian_app. rewrite pow_nat by lia. lia. }
    rewrite Hbytes.
    pose proof (append_signed (CType.kNumericPositiveSmallMagnitude + n)
      (bigEndian (Z.to_nat n) (ip * 2 + 1) ++ bigEndian (Z.to_nat (8 - n)) w) (signbit d) invert b) as Ha.
    replace (CType.kNumericNegative8ByteInt + (8 - n)) with (2 * CType.kNumericZero - (CType.kNumericPositiveSmallMagnitude + n))
      by (unfold CType.kNumericNegative8ByteInt, CType.kNumericZero, CType.kNumericPositiveSmallMagnitude, CType.kNumeric; lia).
    replace (CType.kNumericPositive8ByteInt - (8 - n)) with (CType.kNumericPositiveSmallMagnitude + n)
      by (unfold CType.kNumericPositive8ByteInt, CType.kNumericPositiveSmallMagnitude, CType.kNumeric; lia).
    destruct (signbit d); exact Ha.
Qed.

(** ** All doubles *)

Lemma ofInteger_pattern z :
  z = 1 ∨ z = 2 ^ 63 → 0 <= ofInteger z <= infinityBits ∧ magOf (ofInteger z) = z * one.
Proof.
  intros Hz. pose proof one_pos. assert (Hx : exact (z * one)).
  { destruct Hz as [-> | ->]; [apply (exact_integer 1 0)|apply (exact_integer 1 63)]; try lia; vm_compute; discriminate. }
  destruct (ofMag_exact _ Hx) as (H0 & H1 & H2). unfold ofInteger.
  rewrite Z.abs_eq by lia. destruct (Z.ltb_spec z 0); [lia|]. simpl. split; [lia|done].
Qed.

Lemma magnitude_leb p q :
  0 <= p <= infinityBits → 0 <= q <= infinityBits → ltb p q || eqb p q = (magOf p <=? magOf q).
Proof.
  intros Hp Hq. rewrite positive_leb by done. pose proof (magOf_compare p q ltac:(lia) ltac:(lia)) as Hc.
  unfold Z.leb. by rewrite Hc.
Qed.

Lemma magnitude_ltb p q :
  0 <= p <= infinityBits → 0 <= q <= infinityBits → ltb p q = (magOf p <? magOf q).
Proof.
  intros Hp Hq. rewrite positive_ltb by done. pose proof (magOf_compare p q ltac:(lia) ltac:(lia)) as Hc.
  unfold Z.ltb. by rewrite Hc.
Qed.

Lemma appendDouble_spec d invert b :
  isDouble d →
  _appendDoubleWithoutTypeBits d kDCMEqualToDouble invert b =
    Returned (_appendBytes (numberBytes (version b) (meaning d)) invert b).
Proof.
  intros Hd. pose proof one_pos. destruct (isNaN d) eqn:Hn.
  { unfold _appendDoubleWithoutTypeBits, meaning. rewrite neg_withSign by done. unfold ltb, eqb.
    rewrite Hn. simpl. rewrite Hn. simpl. rewrite ?andb_false_r. simpl. rewrite ?Hn. done. }
  pose proof (magBits_number d Hn) as Hb. destruct (Z.eq_dec (mag d) 0) as [Hz|Hz].
  { assert (Hv : val d = 0) by (unfold val; rewrite Hz; by destruct (signbit d)).
    destruct (ltb_zero d Hd Hn) as [Hl1 Hl2]. rewrite Hz in Hl1, Hl2. simpl (negb _) in Hl1, Hl2. rewrite andb_false_r in Hl1, Hl2.
    unfold _appendDoubleWithoutTypeBits. rewrite Hl1, Hl2. unfold meaning, eqb, ltb. rewrite Hn, Hv.
    destruct ofInteger_small with (z := 1) as (_ & _ & -> & ->); [lia|]. change (isNaN 0) with false. change (val 0) with 0.
    replace (1 * one <? 0) with false by (symmetry; apply Z.ltb_ge; lia).
    replace (1 * one =? 0) with false by (symmetry; apply Z.eqb_neq; lia). reflexivity. }
  destruct (magnitude_bits d Hd Hn Hz) as [Hs Hm]. pose proof (mag_nonneg d).
  destruct (ofInteger_pattern 1 ltac:(by left)) as [H1 Ho1], (ofInteger_pattern (2 ^ 63) ltac:(by right)) as [H2 Ho2].
  unfold _appendDoubleWithoutTypeBits. rewrite Hm, Hs, (magnitude_leb _ _ H1 Hb), Ho1, Z.mul_1_l.
  unfold kMinLargeDouble. rewrite (magnitude_ltb _ _ Hb H2), Ho2. fold (mag d).
  destruct (Z.leb_spec one (mag d)) as [Hle|Hlt]; simpl negb; cbv iota.
  - destruct (Z.ltb_spec (mag d) (2 ^ 63 * one)).
    + apply (appendMediumDouble_spec d invert b Hd Hn). lia.
    + apply (appendLargeDouble_spec d invert b Hd Hn). lia.
  - rewrite (magnitude_ltb 0 _ ltac:(vm_compute; split; discriminate) Hb). change (magOf 0) with 0. fold (mag d).
    destruct (Z.ltb_spec 0 (mag d)); [|lia]. apply (appendSmallDouble_spec d invert b Hd Hn). lia.
Qed.
