(* ===== verification/KeyStringEncoding.v ===== *)
(** The encoding of values as a function, and that the builder appends it: for every value that
    BSON can hold the calls return, having appended the encoding, inverted for a descending
    field. *)
From S2P Require Import Prelude OpTimes KeyBytes BsonValue DoubleFacts KeyString KeyStringNumbers KeyStringNumberCode.

(** ** Induction on values *)

Section ValueInduction.
Variable P : Value → Prop.
Hypothesis H_object : ∀ fields, Forall (λ field, P field.2) fields → P (Object fields).
Hypothesis H_array : ∀ elems, Forall (λ field, P field.2) elems → P (Array elems).
Hypothesis H_scope : ∀ s scope, Forall (λ field, P field.2) scope → P (CodeWScope s scope).
Hypothesis H_leaf : ∀ v,
  match v with Object _ | Array _ | CodeWScope _ _ => True | _ => P v end.

Definition fields_ind (value_ind : ∀ v, P v) : ∀ fields : BSONObj, Forall (λ field, P field.2) fields :=
  fix go fields :=
    match fields with
    | [] => Forall_nil_2 _
    | field :: fields => Forall_cons_2 _ field fields (value_ind field.2) (go fields)
    end.

Fixpoint value_ind (v : Value) : P v :=
  match v as v return P v with
  | Object fields => H_object fields (fields_ind value_ind fields)
  | Array elems => H_array elems (fields_ind value_ind elems)
  | CodeWScope s scope => H_scope s scope (fields_ind value_ind scope)
  | v => H_leaf v
  end.
End ValueInduction.

(** ** The values there are *)

Definition isBytes (s : Bytes) : bool := forallb (λ b, (0 <=? b) && (b <? 256)) s.

(** A name is a string in C. *)
Definition isName (s : Bytes) : bool := forallb (λ b, (0 <? b) && (b <? 256)) s.

(** The elements of an array have their positions as names. *)
Definition positionalFrom (i : nat) (elems : BSONObj) : bool := bool_decide (map fst elems = map positionName (seq i (length elems))).
Definition positional : BSONObj → bool := positionalFrom 0.

Definition fitsSize (s : Bytes) : bool := Z.of_nat (length s) <? 2 ^ 31.

(** The values in their ranges; a collation refuses symbols, save in the scopes of code. *)
Fixpoint wellFormed (collated : bool) (v : Value) : bool :=
  match v with
  | MinKey | MaxKey | Undefined | JstNULL | Bool _ => true
  | NumberDouble d => (0 <=? d) && (d <? 2 ^ 64)
  | NumberInt i => (- 2 ^ 31 <=? i) && (i <? 2 ^ 31)
  | NumberLong l => (- 2 ^ 63 <=? l) && (l <? 2 ^ 63)
  | BsonString s | Code s => isBytes s
  | Symbol s => negb collated && isBytes s
  | Object fields => forallb (λ field, isName field.1 && wellFormed collated field.2) fields
  | Array elems => positional elems && forallb (λ field, wellFormed collated field.2) elems
  | BinData data type => isBytes data && fitsSize data && (0 <=? type) && (type <? 256)
  | OID oid => isBytes oid && (length oid =? 12)%nat
  | Date millis => (- 2 ^ 63 <=? millis) && (millis <? 2 ^ 63)
  | RegEx pattern flags => isName pattern && isName flags
  | DBRef ns oid => isName ns && fitsSize ns && isBytes oid && (length oid =? 12)%nat
  | CodeWScope s scope => isBytes s && forallb (λ field, isName field.1 && wellFormed false field.2) scope
  | BsonTimestamp t => (0 <=? Timestamp.secs t) && (Timestamp.secs t <? 2 ^ 32) &&
      (0 <=? Timestamp.inc t) && (Timestamp.inc t <? 2 ^ 32)
  end.

Definition isCollated (f : StringTransformFn) : bool := match f with Some _ => true | None => false end.

(** A document's fields, with the names they have. *)
Definition wellFormedObj (f : StringTransformFn) (obj : BSONObj) : bool :=
  forallb (λ field, wellFormed (isCollated f) field.2) obj.

(** ** The encoding *)

Definition escape (s : Bytes) : list Z := s ≫= λ x, if x =? 0 then [0; 255] else [x].
Definition encodeString (s : Bytes) : list Z := escape s ++ [0].

Definition transform (f : StringTransformFn) (s : Bytes) : Bytes :=
  match f with Some f => f s | None => s end.

Definition encodeBinData (data : Bytes) (type : Z) : list Z :=
  let len := Z.of_nat (length data) in
  (if len <? 255 then [len] else 255 :: bigEndian 4 len) ++ type :: data.

Section Encode.
Variable encode : Value → list Z.

Definition encodeField (field : Bytes * Value) : list Z :=
  bsonTypeToGenericKeyStringType field.2 :: field.1 ++ 0 :: encode field.2.

Fixpoint encodeFields (obj : BSONObj) : list Z :=
  match obj with [] => [0] | field :: obj => encodeField field ++ encodeFields obj end.

Fixpoint encodeElements (elems : BSONObj) : list Z :=
  match elems with [] => [0] | field :: elems => encode field.2 ++ encodeElements elems end.
End Encode.

Fixpoint encode (ver : Version) (f : StringTransformFn) (v : Value) : list Z :=
  match v with
  | MinKey | MaxKey | Undefined | JstNULL => [bsonTypeToGenericKeyStringType v]
  | NumberDouble d => numberBytes ver (meaning d)
  | NumberInt i | NumberLong i => numberBytes ver (Some (i * Double.one))
  | BsonString s => CType.kStringLike :: encodeString (transform f s)
  | Symbol s => CType.kStringLike :: encodeString s
  | Object fields => CType.kObject :: encodeFields (λ v, encode ver f v) fields
  | Array elems => CType.kArray :: encodeElements (λ v, encode ver f v) elems
  | BinData data type => CType.kBinData :: encodeBinData data type
  | OID oid => CType.kOID :: oid
  | Bool b => [if b then CType.kBoolTrue else CType.kBoolFalse]
  | Date millis => CType.kDate :: bigEndian 8 (Z.lxor (millis mod 2 ^ 64) (2 ^ 63))
  | RegEx pattern flags => CType.kRegEx :: pattern ++ 0 :: flags ++ [0]
  | DBRef ns oid => CType.kDBRef :: bigEndian 4 (Z.of_nat (length ns)) ++ ns ++ oid
  | Code s => CType.kCode :: encodeString s
  | CodeWScope s scope => CType.kCodeWithScope :: encodeString s ++ encodeFields (λ v, encode ver None v) scope
  | BsonTimestamp t => CType.kTimestamp :: bigEndian 8 (Timestamp.asULL t)
  end.

(** ** The type bits *)

Definition zeroBits (ver : Version) : list Z := match ver with V0 => [1; 1] | V1 => [1; 1; 0; 0; 0] end.

Definition doubleBits (ver : Version) (d : Z) : list Z :=
  if Double.eqb d 0 && Double.signbit d then zeroBits ver else [1; 0].

Fixpoint typeBitsOf (ver : Version) (v : Value) : list Z :=
  match v with
  | NumberDouble d => doubleBits ver d
  | NumberInt _ => [0; 0]
  | NumberLong _ => [0; 1]
  | BsonString _ => [0]
  | Symbol _ => [1]
  | Object fields | CodeWScope _ fields | Array fields => flat_map (λ field, typeBitsOf ver field.2) fields
  | _ => []
  end.

Definition appendBits (bits : list Z) (tb : TypeBits) : TypeBits := foldl (λ tb x, appendBit x tb) tb bits.

Lemma appendBits_version bits tb : tb_version (appendBits bits tb) = tb_version tb.
Proof. unfold appendBits. revert tb. induction bits as [|x bits IH]; intros tb; [done|]. simpl. by rewrite IH. Qed.

(** ** What is appended *)

Definition Appends (l bits : list Z) (invert : bool) (b b' : Builder) : Prop :=
  b' = withTypeBits (appendBits bits) (_appendBytes l invert b).

(** The builder and its type bits have one version. *)
Definition hasVersion (ver : Version) (b : Builder) : Prop := version b = ver ∧ tb_version (_typeBits b) = ver.

Lemma Appends_bytes l invert b : Appends l [] invert b (_appendBytes l invert b).
Proof. by destruct b. Qed.

Lemma Appends_bits bits l invert b : Appends l bits invert b (_appendBytes l invert (withTypeBits (appendBits bits) b)).
Proof. done. Qed.

Lemma Appends_trans l m bits bits' invert b b' b'' :
  Appends l bits invert b b' → Appends m bits' invert b' b'' → Appends (l ++ m) (bits ++ bits') invert b b''.
Proof.
  intros -> ->. unfold Appends, withTypeBits, _appendBytes, appendBits. simpl. rewrite <- app_assoc, foldl_app.
  by destruct invert; rewrite ?map_app.
Qed.

Lemma Appends_version l bits invert ver b b' : Appends l bits invert b b' → hasVersion ver b → hasVersion ver b'.
Proof. intros -> [H1 H2]. split; [done|]. simpl. by rewrite appendBits_version. Qed.

(** A call that returns, having appended bytes and type bits. *)
Definition Does (m : Result Builder) (l bits : list Z) (invert : bool) (b : Builder) : Prop :=
  ∃ b', m = Returned b' ∧ Appends l bits invert b b'.

Lemma Does_ret b' l bits invert b : Appends l bits invert b b' → Does (Returned b') l bits invert b.
Proof. intros H. by exists b'. Qed.

Lemma Does_bind m k l l' bits bits' invert ver b :
  hasVersion ver b → Does m l bits invert b → (∀ b', hasVersion ver b' → Does (k b') l' bits' invert b') →
  Does (m ≫= k) (l ++ l') (bits ++ bits') invert b.
Proof.
  intros Hv (b1 & -> & H1) Hk. destruct (Hk b1 (Appends_version _ _ _ _ _ _ H1 Hv)) as (b2 & Hk2 & H2).
  exists b2. split; [exact Hk2|by eapply Appends_trans].
Qed.

Lemma Does_after l l' bits bits' invert b b1 m :
  Appends l bits invert b b1 → Does m l' bits' invert b1 → Does m (l ++ l') (bits ++ bits') invert b.
Proof. intros H1 (b2 & -> & H2). exists b2. split; [done|by eapply Appends_trans]. Qed.

(** ** Strings *)

Lemma beforeNul_split s :
  beforeNul s = s ∧ escape s = s ∨
  ∃ rest, s = beforeNul s ++ 0 :: rest ∧ escape s = beforeNul s ++ 0 :: 255 :: escape rest.
Proof.
  induction s as [|x s IH]; [by left|]. simpl. destruct (Z.eqb_spec x 0) as [->|Hx].
  { right. by exists s. }
  destruct IH as [[-> He]|(rest & He & Hx')]; [left|right; exists rest]; simpl.
  - split; [done|]. unfold escape in *. simpl. by rewrite He.
  - split; [by f_equal|]. unfold escape in *. simpl. by rewrite Hx'.
Qed.

Lemma appendStringLoop_spec fuel s invert b :
  (length s < fuel)%nat → appendStringLoop fuel s invert b = Returned (_appendBytes (encodeString s) invert b).
Proof.
  revert s b. induction fuel as [|fuel IH]; intros s b Hf; [lia|]. simpl. unfold encodeString.
  destruct (beforeNul_split s) as [[Hs He]|(rest & Hs & He)]; rewrite He.
  - rewrite Hs, Nat.eqb_refl, take_ge by lia. unfold _append. by rewrite appendBytes_app.
  - set (p := beforeNul s) in *. clearbody p. rewrite Hs in Hf |- *. rewrite length_app in Hf |- *. simpl in *.
    destruct (Nat.eqb_spec (length p) (length p + S (length rest))) as [|_]; [lia|].
    rewrite take_app_length. replace (S (length p)) with (length p + 1)%nat by lia.
    rewrite drop_app_add. simpl. rewrite drop_0, IH by lia. rewrite !appendBytes_app. unfold encodeString.
    by rewrite <- !app_assoc.
Qed.

Lemma appendStringLike_does s invert b : Does (_appendStringLike s invert b) (encodeString s) [] invert b.
Proof. unfold _appendStringLike. rewrite appendStringLoop_spec by lia. apply Does_ret, Appends_bytes. Qed.

Lemma beforeNul_name s : isName s = true → beforeNul s = s.
Proof.
  induction s as [|x s IH]; simpl; [done|]. rewrite !andb_true_iff, Z.ltb_lt. intros [[H1 _] H2].
  destruct (Z.eqb_spec x 0); [lia|]. by rewrite IH.
Qed.

(** ** Values *)

Lemma number_does bits i invert b :
  - 2 ^ 63 <= i < 2 ^ 63 →
  Does (_appendInteger i invert (withTypeBits (appendBits bits) b)) (numberBytes (version b) (Some (i * Double.one))) bits invert b.
Proof. intros Hi. rewrite appendInteger_spec by done. apply Does_ret, Appends_bits. Qed.

Lemma double_does d invert ver b :
  isDouble d → hasVersion ver b → Does (_appendNumberDouble d invert b) (numberBytes ver (meaning d)) (doubleBits ver d) invert b.
Proof.
  intros Hd [Hv Ht]. unfold _appendNumberDouble. cbv zeta. rewrite appendDouble_spec by done. apply Does_ret.
  simpl (version _). rewrite Hv. unfold Appends, doubleBits. destruct b as [v [tv cb az db] bu st n o di]. simpl in Hv, Ht. subst v tv.
  destruct (Double.eqb d 0 && Double.signbit d); [by destruct ver|done].
Qed.

Lemma Does_app l l' bits m invert b :
  Does m l' bits invert (_appendBytes l invert b) → Does m (l ++ l') bits invert b.
Proof. intros H. apply (Does_after l l' [] bits) with (_appendBytes l invert b); [apply Appends_bytes|exact H]. Qed.

Lemma hasVersion_bytes ver l invert b : hasVersion ver b → hasVersion ver (_appendBytes l invert b).
Proof. done. Qed.

Section Many.
Variables (ver : Version) (f : StringTransformFn).

(** What is to be shown of a value. *)
Definition valueDoes (v : Value) : Prop :=
  ∀ invert b, hasVersion ver b → Does (_appendBsonValue f v invert None b) (encode ver f v) (typeBitsOf ver v) invert b.

Lemma named_value v invert name b :
  _appendBsonValue f v invert (Some name) b = _appendBsonValue f v invert None (_appendBytes (name ++ [0]) invert b).
Proof. by destruct v. Qed.

Lemma fields_do (ok : bool) fields invert b :
  hasVersion ver b →
  Forall (λ field, wellFormed ok field.2 = true → valueDoes field.2) fields →
  forallb (λ field, isName field.1 && wellFormed ok field.2) fields = true →
  Does (appendFields (λ v i n b, _appendBsonValue f v i n b) fields invert b)
    (encodeFields (λ v, encode ver f v) fields) (flat_map (λ field, typeBitsOf ver field.2) fields) invert b.
Proof.
  intros Hv Hf Hok. revert b Hv. induction Hf as [|[name v] fields Hvalue _ IH]; intros b Hv;
    cbn [appendFields encodeFields forallb flat_map fst snd] in *.
  { apply Does_ret, Appends_bytes. }
  rewrite !andb_true_iff in Hok. destruct Hok as [[_ Hw] Hok].
  apply Does_bind with ver; [done| |intros b' Hb'; by apply IH].
  rewrite named_value. unfold encodeField. simpl.
  replace (bsonTypeToGenericKeyStringType v :: name ++ 0 :: encode ver f v)
    with ([bsonTypeToGenericKeyStringType v] ++ (name ++ [0]) ++ encode ver f v) by (simpl; by rewrite <- app_assoc).
  apply (Does_app [bsonTypeToGenericKeyStringType v]), Does_app. by apply Hvalue.
Qed.

Lemma elements_do (ok : bool) elems invert b :
  hasVersion ver b →
  Forall (λ field, wellFormed ok field.2 = true → valueDoes field.2) elems →
  forallb (λ field, wellFormed ok field.2) elems = true →
  Does (appendElements (λ v i n b, _appendBsonValue f v i n b) elems invert b)
    (encodeElements (λ v, encode ver f v) elems) (flat_map (λ field, typeBitsOf ver field.2) elems) invert b.
Proof.
  intros Hv Hf Hok. revert b Hv. induction Hf as [|[name v] elems Hvalue _ IH]; intros b Hv;
    cbn [fst snd appendElements encodeElements forallb flat_map] in *.
  { apply Does_ret, Appends_bytes. }
  rewrite !andb_true_iff in Hok. destruct Hok as [Hw Hok].
  apply Does_bind with ver; [done|by apply Hvalue|intros b' Hb'; by apply IH].
Qed.
End Many.

Lemma value_does ver : ∀ v f, wellFormed (isCollated f) v = true → valueDoes ver f v.
Proof.
  refine (value_ind _ _ _ _ _); [intros fields IH f Hok|intros elems IH f Hok|intros s scope IH f Hok|intros v].
  - intros invert b Hv. simpl in *. apply (Does_app [CType.kObject]).
    apply (fields_do ver f (isCollated f)); [done| |done]. eapply Forall_impl; [exact IH|]. simpl. auto.
  - intros invert b Hv. cbn [wellFormed] in Hok. rewrite andb_true_iff in Hok. destruct Hok as [_ Hok]. simpl in *. apply (Does_app [CType.kArray]).
    apply (elements_do ver f (isCollated f)); [done| |done]. eapply Forall_impl; [exact IH|]. simpl. auto.
  - intros invert b Hv. simpl in *. rewrite andb_true_iff in Hok. destruct Hok as [_ Hok].
    apply (Does_bind _ _ (CType.kCodeWithScope :: encodeString s) _ []) with ver; [done|apply (Does_app [_]), appendStringLike_does|].
    intros b' Hb'. apply (fields_do ver None false); [done| |done].
    eapply Forall_impl; [exact IH|]. simpl. intros field Hfield Hw. by apply (Hfield None).
  - destruct v; try done; intros f Hok invert bld Hv; pose proof (proj1 Hv) as Hver; simpl in *;
      rewrite ?andb_true_iff, ?Z.leb_le, ?Z.ltb_lt in Hok.
    1-4: apply Does_ret, Appends_bytes.
    + apply double_does; [unfold isDouble; lia|done].
    + rewrite <- Hver. apply (number_does [0; 0]). lia.
    + rewrite <- Hver. apply (number_does [0; 1]). lia.
    + unfold _appendString. destruct f; simpl;
        (eapply (Does_after [_] _ [_] []); [apply (Appends_bits [kString] [_])|]; apply appendStringLike_does).
    + destruct f; [by destruct Hok|]. unfold _appendSymbol.
      eapply (Does_after [_] _ [_] []); [apply (Appends_bits [kSymbol] [_])|]. apply appendStringLike_does.
    + apply Does_ret. unfold _appendBinData, encodeBinData, _append. cbv zeta.
      destruct (Z.of_nat (length data) <? 255); rewrite !appendBytes_app; apply Appends_bytes.
    + apply Does_ret. unfold _appendOID, _append. rewrite appendBytes_app. apply Appends_bytes.
    + apply Does_ret, Appends_bytes.
    + apply Does_ret. unfold _appendDate, _appendWord, _append. rewrite appendBytes_app. apply Appends_bytes.
    + apply Does_ret. unfold _appendRegex, _append. rewrite !appendBytes_app. simpl.
      rewrite <- ?app_assoc. apply Appends_bytes.
    + apply Does_ret. unfold _appendDBRef, _append. rewrite beforeNul_name by tauto. rewrite !appendBytes_app.
      simpl. rewrite <- ?app_assoc. apply Appends_bytes.
    + apply (Does_app [_]), appendStringLike_does.
    + apply Does_ret. unfold _appendTimestamp, _appendWord, _append. rewrite appendBytes_app. apply Appends_bytes.
Qed.
