(* ===== verification/KeyStringOrder.v ===== *)
(** The order of encodings is the order of values. *)
From S2P Require Import Prelude OpTimes KeyBytes BsonValue DoubleFacts KeyString KeyStringNumbers KeyStringNumberCode KeyStringEncoding.

(** ** Comparisons of bytes *)

Lemma isBytes_cons x s : isBytes (x :: s) = true ↔ 0 <= x < 256 ∧ isBytes s = true.
Proof. simpl. rewrite !andb_true_iff, Z.leb_le, Z.ltb_lt. tauto. Qed.

Lemma isName_cons x s : isName (x :: s) = true ↔ 0 < x < 256 ∧ isName s = true.
Proof. simpl. rewrite !andb_true_iff, !Z.ltb_lt. tauto. Qed.

Lemma compareStringData_spec a b : compareStringData a b = lexcmp a b.
Proof.
  unfold compareStringData, memcmp, compareSizes. revert b. induction a as [|x a IH]; intros [|y b]; simpl; try done.
  rewrite <- IH. by destruct (x ?= y).
Qed.

Lemma compareElementStringValues_spec a b :
  isBytes a = true → isBytes b = true → compareElementStringValues a b = lexcmp a b.
Proof.
  unfold compareElementStringValues, memcmp, compareSizes. revert b.
  induction a as [|x a IH]; intros [|y b] Ha Hb; cbn -[Z.compare]; try done.
  - apply isBytes_cons in Hb as [Hy _]. destruct (Z.compare_spec 0 y); done || lia.
  - apply isBytes_cons in Ha as [Hx _]. destruct (Z.compare_spec x 0); done || lia.
  - apply isBytes_cons in Ha as [_ Ha], Hb as [_ Hb]. rewrite <- IH by done.
    by destruct (x ?= y).
Qed.

Lemma lexcmp_app_same a a' b b' :
  length a = length a' → lexcmp (a ++ b) (a' ++ b') = andThen (lexcmp a a') (lexcmp b b').
Proof.
  revert a'. induction a as [|x a IH]; intros [|y a'] Hl; simpl in *; try done.
  destruct (x ?= y); [apply IH; lia|done..].
Qed.

(** Strings that end at a zero. *)
Lemma name_order a b :
  isName a = true → isName b = true → Fixed (a ++ [0]) (b ++ [0]) (lexcmp a b).
Proof.
  revert b. induction a as [|x a IH]; intros [|y b] Ha Hb; simpl; [done|..].
  - apply isName_cons in Hb as [Hy _]. apply Differ_intro; [apply Z.compare_lt_iff; lia|done].
  - apply isName_cons in Ha as [Hx _]. apply Differ_intro; [apply Z.compare_gt_iff; lia|done].
  - apply isName_cons in Ha as [_ Ha], Hb as [_ Hb]. destruct (Z.compare_spec x y) as [->|Hxy|Hxy].
    + exact (Fixed_app [y] [y] Eq _ _ _ eq_refl (IH b Ha Hb)).
    + apply Differ_intro; [by apply Z.compare_lt_iff|done].
    + apply Differ_intro; [by apply Z.compare_gt_iff|done].
Qed.

Lemma strcmp_spec a b : isName a = true → isName b = true → strcmp a b = lexcmp a b.
Proof.
  intros Ha Hb. pose proof (name_order a b Ha Hb) as H. unfold strcmp, Fixed in *.
  destruct (lexcmp a b); [rewrite H; apply lexcmp_refl|by apply Differ_lexcmp..].
Qed.

(** ** Strings *)

Lemma Fixed_bytes x y : Fixed [x] [y] (x ?= y).
Proof. apply (lexcmp_Fixed [x] [y] eq_refl) || (pose proof (lexcmp_Fixed [x] [y] eq_refl) as H; simpl in H; by destruct (x ?= y)). Qed.

Lemma encodeString_zero s : encodeString (0 :: s) = 0 :: 255 :: encodeString s.
Proof. done. Qed.

Lemma encodeString_cons x s : x ≠ 0 → encodeString (x :: s) = x :: encodeString s.
Proof. intros Hx. unfold encodeString, escape. simpl. by apply Z.eqb_neq in Hx as ->. Qed.

Lemma encodeString_head x s : ∃ s', encodeString (x :: s) = x :: s'.
Proof.
  destruct (Z.eq_dec x 0) as [->|Hx]; [rewrite encodeString_zero|rewrite encodeString_cons by done]; by eexists.
Qed.

(** A string that has ended. *)
Lemma ended_order y s :
  0 <= y < 256 → Ordered (encodeString []) (encodeString (y :: s)) Lt ∧ Ordered (encodeString (y :: s)) (encodeString []) Gt.
Proof.
  intros Hy. destruct (Z.eq_dec y 0) as [->|Hn].
  - rewrite encodeString_zero. split; intros u u' (z & v & -> & Hz) (z' & v' & -> & Hz');
      apply (Differ_app_l [0]); (apply Differ_intro; [|done]); [apply Z.compare_lt_iff|apply Z.compare_gt_iff]; lia.
  - rewrite encodeString_cons by done.
    split; (apply Ordered_byte; [|done]); [apply Z.compare_lt_iff|apply Z.compare_gt_iff]; lia.
Qed.

Lemma encodeString_order a b :
  isBytes a = true → isBytes b = true → Ordered (encodeString a) (encodeString b) (lexcmp a b).
Proof.
  revert b. induction a as [|x a IH]; intros [|y b] Ha Hb; [done|..].
  - apply isBytes_cons in Hb as [Hy _]. by apply ended_order.
  - apply isBytes_cons in Ha as [Hx _]. by apply ended_order.
  - apply isBytes_cons in Ha as [Hx Ha], Hb as [Hy Hb]. specialize (IH b Ha Hb).
    cbn [lexcmp]. destruct (x ?= y) eqn:Hc.
    + apply Z.compare_eq_iff in Hc as ->. destruct (Z.eq_dec y 0) as [->|Hn].
      * rewrite !encodeString_zero. by do 2 apply Ordered_cons.
      * rewrite !encodeString_cons by done. by apply Ordered_cons.
    + destruct (encodeString_head x a) as [s ->], (encodeString_head y b) as [s' ->]. by apply Ordered_byte.
    + destruct (encodeString_head x a) as [s ->], (encodeString_head y b) as [s' ->]. by apply Ordered_byte.
Qed.

(** ** Types *)

(** The codes next to that of a type which its encodings begin with. *)
Definition room (v : Value) : Z :=
  match v with NumberDouble _ | NumberInt _ | NumberLong _ => 21 | Bool _ => 1 | _ => 0 end.

Lemma numberBytes_head ver m : ∃ h t, numberBytes ver m = h :: t ∧ 30 <= h <= 51.
Proof.
  assert (Hclass : ∀ x, 0 < x → 42 <= magnitudeClass x <= 51).
  { intros x Hx. destruct (magnitudeClass_bounds x Hx) as [[]|[[]|[]]]; lia. }
  destruct m as [v|]; [|by eexists _, _]. simpl. unfold CType.kNumericZero, CType.kNumeric.
  destruct (Z.eqb_spec v 0); [by eexists _, _; split_and!; [done|lia..]|].
  destruct (Z.ltb_spec v 0); eexists _, _; (split; [done|]).
  - pose proof (Hclass (- v) ltac:(lia)). lia.
  - pose proof (Hclass v ltac:(lia)). lia.
Qed.

Lemma encode_head ver f v :
  ∃ h t, encode ver f v = h :: t ∧ bsonTypeToGenericKeyStringType v <= h <= bsonTypeToGenericKeyStringType v + room v.
Proof.
  destruct v; try (eexists _, _; split; [reflexivity|simpl; lia]); try apply numberBytes_head.
  destruct b; eexists _, _; (split; [reflexivity|simpl; unfold CType.kBoolTrue, CType.kBoolFalse; lia]).
Qed.

Lemma generic_bounds v : 10 <= bsonTypeToGenericKeyStringType v ∧ bsonTypeToGenericKeyStringType v + room v <= 240.
Proof. destruct v; simpl; unfold CType.kMinKey, CType.kMaxKey; done || lia. Qed.

Lemma canonical_generic l r :
  canonicalType l < canonicalType r →
  bsonTypeToGenericKeyStringType l + room l < bsonTypeToGenericKeyStringType r.
Proof. destruct l, r; simpl; done || lia. Qed.

Lemma canonical_same l r :
  canonicalType l = canonicalType r → bsonTypeToGenericKeyStringType l = bsonTypeToGenericKeyStringType r.
Proof. destruct l, r; simpl; done || lia. Qed.

Lemma encode_inner ver f v s : Inner (encode ver f v ++ s).
Proof.
  destruct (encode_head ver f v) as (h & t & -> & Hh). pose proof (generic_bounds v).
  exists h, (t ++ s). split; [done|lia].
Qed.

Lemma byType_spec l r :
  (if type l =? type r then Eq else canonicalType l ?= canonicalType r) = (canonicalType l ?= canonicalType r).
Proof. by destruct l, r. Qed.

(** Values of different types. *)
Lemma types_order ver f l r c :
  (canonicalType l ?= canonicalType r) = c → c ≠ Eq →
  (bsonTypeToGenericKeyStringType l ?= bsonTypeToGenericKeyStringType r) = c ∧
  Ordered (encode ver f l) (encode ver f r) c.
Proof.
  intros Hc Hn. destruct (encode_head ver f l) as (h & t & -> & Hh), (encode_head ver f r) as (h' & t' & -> & Hh').
  destruct c; [done|..].
  - apply Z.compare_lt_iff in Hc. pose proof (canonical_generic l r Hc).
    assert (0 <= room l) by (destruct l; simpl; lia).
    split; [apply Z.compare_lt_iff; lia|]. apply Ordered_byte; [apply Z.compare_lt_iff; lia|done].
  - apply Z.compare_gt_iff in Hc. pose proof (canonical_generic r l Hc).
    assert (0 <= room r) by (destruct r; simpl; lia).
    split; [apply Z.compare_gt_iff; lia|]. apply Ordered_byte; [apply Z.compare_gt_iff; lia|done].
Qed.

(** ** Numbers *)

Definition isNumeric (v : Value) : bool :=
  match v with NumberDouble _ | NumberInt _ | NumberLong _ => true | _ => false end.

(** The number that a value is. *)
Definition numberOf (v : Value) : option Z :=
  match v with
  | NumberDouble d => meaning d
  | NumberInt i | NumberLong i => Some (i * Double.one)
  | _ => None
  end.

Lemma compareMeanings_opp m n : compareMeanings m n = CompOpp (compareMeanings n m).
Proof. destruct m, n; simpl; try done. apply Z.compare_antisym. Qed.

Lemma int_meaning i : Z.abs i <= 2 ^ 53 → meaning (Double.ofInteger i) = Some (i * Double.one).
Proof. intros Hi. destruct (ofInteger_small i Hi) as (_ & _ & Hn & Hv). unfold meaning. by rewrite Hn, Hv. Qed.

Ltac ranges H := simpl in H; rewrite ?andb_true_iff, ?Z.leb_le, ?Z.ltb_lt in H.

(** Numbers of different types are compared exactly. *)
Lemma compareNumbers_spec comparator collated l r :
  isNumeric l = true → isNumeric r = true → wellFormed collated l = true → wellFormed collated r = true →
  compareElements comparator l r = Some (compareMeanings (numberOf l) (numberOf r)).
Proof.
  intros Hl Hr Hwl Hwr. destruct l as [| | | |d|i|i| | | | | | | | | | | | |]; try done;
    destruct r as [| | | |e|j|j| | | | | | | | | | | | |]; try done;
    ranges Hwl; ranges Hwr; cbn [compareElements numberOf]; f_equal;
    rewrite ?compareLongs_spec, ?compareDoubles_spec; try (symmetry; apply compare_one).
  - done.
  - by rewrite int_meaning by lia.
  - unfold compareDoubleToLong. rewrite compareLongToDouble_spec by lia. symmetry. apply compareMeanings_opp.
  - by rewrite int_meaning by lia.
  - by apply compareLongToDouble_spec; lia.
Qed.

Lemma encode_number ver f v : isNumeric v = true → encode ver f v = numberBytes ver (numberOf v).
Proof. by destruct v. Qed.

Lemma numberOf_isNumber collated v : isNumeric v = true → wellFormed collated v = true → isNumber (numberOf v).
Proof.
  intros Hn Hw. destruct v; try done; ranges Hw; cbn [numberOf]; [apply meaning_isNumber|apply integer_isNumber; lia..].
Qed.

(** ** Values *)

(** A collation's keys are compared for its strings. *)
Definition collates (comparator : Comparator) (f : StringTransformFn) : Prop :=
  match comparator, f with
  | None, None => True
  | Some compare, Some f =>
      ∀ a b, isBytes a = true → isBytes b = true → isBytes (f a) = true ∧ compare a b = lexcmp (f a) (f b)
  | _, _ => False
  end.

Definition OrderedValue ver (l : Value) : Prop :=
  ∀ comparator f r, collates comparator f →
    wellFormed (isCollated f) l = true → wellFormed (isCollated f) r = true → canonicalType l = canonicalType r →
    ∃ c, compareElements comparator l r = Some c ∧ Ordered (encode ver f l) (encode ver f r) c.

Section Elements.
Context (ver : Version) (comparator : Comparator) (f : StringTransformFn) (Hcollates : collates comparator f).

Lemma element_order l r :
  OrderedValue ver l.2 → wellFormed (isCollated f) l.2 = true → wellFormed (isCollated f) r.2 = true →
  ∃ c, elementCompare (compareElements comparator) false l r = Some c ∧
       Ordered (encode ver f l.2) (encode ver f r.2) c.
Proof.
  intros Hv Hl Hr. unfold elementCompare. rewrite byType_spec.
  destruct (canonicalType l.2 ?= canonicalType r.2) eqn:Hc.
  - apply Z.compare_eq_iff in Hc. by apply Hv.
  - eexists. split; [done|]. by apply types_order.
  - eexists. split; [done|]. by apply types_order.
Qed.

Lemma field_order l r :
  OrderedValue ver l.2 → wellFormed (isCollated f) l.2 = true → wellFormed (isCollated f) r.2 = true →
  isName l.1 = true → isName r.1 = true →
  ∃ c, elementCompare (compareElements comparator) true l r = Some c ∧
       Ordered (encodeField (λ v, encode ver f v) l) (encodeField (λ v, encode ver f v) r) c.
Proof.
  intros Hv Hl Hr Hn Hn'. unfold elementCompare, encodeField. rewrite byType_spec, compareStringData_spec.
  destruct (canonicalType l.2 ?= canonicalType r.2) eqn:Hc.
  - apply Z.compare_eq_iff in Hc. rewrite (canonical_same _ _ Hc).
    destruct (Hv comparator f r.2 Hcollates Hl Hr Hc) as (c & Hcmp & Ho).
    pose proof (Fixed_Ordered_app _ _ _ _ _ _ (name_order _ _ Hn Hn') Ho) as Hf. rewrite <- !app_assoc in Hf.
    exists (andThen (lexcmp l.1 r.1) c). split; [by destruct (lexcmp l.1 r.1)|]. by apply Ordered_cons.
  - destruct (types_order ver f l.2 r.2 Lt Hc) as [Hg _]; [done|]. exists Lt. split; [done|]. by apply Ordered_byte.
  - destruct (types_order ver f l.2 r.2 Gt Hc) as [Hg _]; [done|]. exists Gt. split; [done|]. by apply Ordered_byte.
Qed.

Lemma encodeFields_head obj : ∃ h t, encodeFields (λ v, encode ver f v) obj = h :: t ∧ 0 <= h < 255 ∧ (obj ≠ [] → 0 < h).
Proof.
  destruct obj as [|field obj]; simpl; [by eexists _, _|]. unfold encodeField. simpl.
  pose proof (generic_bounds field.2). assert (0 <= room field.2) by (destruct field.2; simpl; lia).
  eexists _, _. split; [done|lia].
Qed.

Lemma encodeElements_head elems : ∃ h t, encodeElements (λ v, encode ver f v) elems = h :: t ∧ 0 <= h < 255 ∧ (elems ≠ [] → 0 < h).
Proof.
  destruct elems as [|[name v] elems]; simpl; [by eexists _, _|]. destruct (encode_head ver f v) as (h & t & -> & Hh).
  pose proof (generic_bounds v). eexists _, _. split; [done|lia].
Qed.

Lemma fields_order l r :
  Forall (λ field, OrderedValue ver field.2) l →
  forallb (λ field, isName field.1 && wellFormed (isCollated f) field.2) l = true →
  forallb (λ field, isName field.1 && wellFormed (isCollated f) field.2) r = true →
  ∃ c, compareObjects (λ names x y, elementCompare (compareElements comparator) names x y) l r = Some c ∧
       Ordered (encodeFields (λ v, encode ver f v) l) (encodeFields (λ v, encode ver f v) r) c.
Proof.
  intros Hf. revert r. induction Hf as [|x l Hx _ IH]; intros [|y r] Hl Hr; cbn [compareObjects].
  - by exists Eq.
  - exists Lt. split; [done|]. destruct (encodeFields_head (y :: r)) as (h & t & -> & Hh & Hp).
    apply Ordered_byte; [apply Z.compare_lt_iff; by apply Hp|done].
  - exists Gt. split; [done|]. destruct (encodeFields_head (x :: l)) as (h & t & -> & Hh & Hp).
    apply Ordered_byte; [apply Z.compare_gt_iff; by apply Hp|done].
  - cbn [forallb] in Hl, Hr. rewrite !andb_true_iff in Hl, Hr. destruct Hl as [[Hnx Hwx] Hl], Hr as [[Hny Hwy] Hr].
    destruct (field_order x y Hx Hwx Hwy Hnx Hny) as (c & Hc & Ho), (IH r Hl Hr) as (d & Hd & Hor).
    exists (andThen c d). split; [rewrite Hc; by destruct c|]. cbn [encodeFields].
    destruct (encodeFields_head l) as (h & t & Ht & Hh & _), (encodeFields_head r) as (h' & t' & Ht' & Hh' & _).
    apply Ordered_app; [done|by exists h, t|by exists h', t'|done].
Qed.

Lemma same_names (x y : Bytes * Value) :
  x.1 = y.1 → elementCompare (compareElements comparator) true x y = elementCompare (compareElements comparator) false x y.
Proof. intros He. unfold elementCompare. by rewrite He, compareStringData_spec, lexcmp_refl. Qed.

(** Elements at the same position have the same name. *)
Lemma positional_cons i x l :
  positionalFrom i (x :: l) = true → x.1 = positionName i ∧ positionalFrom (S i) l = true.
Proof.
  unfold positionalFrom. rewrite !bool_decide_eq_true. cbn [map length seq]. intros He. by injection He.
Qed.

Lemma elements_order i l r :
  Forall (λ field, OrderedValue ver field.2) l → positionalFrom i l = true → positionalFrom i r = true →
  forallb (λ field, wellFormed (isCollated f) field.2) l = true → forallb (λ field, wellFormed (isCollated f) field.2) r = true →
  ∃ c, compareObjects (λ names x y, elementCompare (compareElements comparator) names x y) l r = Some c ∧
       Ordered (encodeElements (λ v, encode ver f v) l) (encodeElements (λ v, encode ver f v) r) c.
Proof.
  intros Hf. revert i r. induction Hf as [|x l Hx _ IH]; intros i [|y r] Hpl Hpr Hl Hr; cbn [compareObjects].
  - by exists Eq.
  - exists Lt. split; [done|]. destruct (encodeElements_head (y :: r)) as (h & t & -> & Hh & Hp).
    apply Ordered_byte; [apply Z.compare_lt_iff; by apply Hp|done].
  - exists Gt. split; [done|]. destruct (encodeElements_head (x :: l)) as (h & t & -> & Hh & Hp).
    apply Ordered_byte; [apply Z.compare_gt_iff; by apply Hp|done].
  - cbn [forallb] in Hl, Hr. rewrite !andb_true_iff in Hl, Hr. destruct Hl as [Hwx Hl], Hr as [Hwy Hr].
    apply positional_cons in Hpl as [Hnx Hpl], Hpr as [Hny Hpr].
    destruct (element_order x y Hx Hwx Hwy) as (c & Hc & Ho), (IH (S i) r Hpl Hpr Hl Hr) as (d & Hd & Hor).
    rewrite <- (same_names x y) in Hc by congruence.
    exists (andThen c d). split; [rewrite Hc; by destruct c|]. cbn [encodeElements].
    destruct (encodeElements_head l) as (h & t & Ht & Hh & _), (encodeElements_head r) as (h' & t' & Ht' & Hh' & _).
    apply Ordered_app; [done|by exists h, t|by exists h', t'|done].
Qed.
End Elements.

(** ** Values without parts *)

Lemma word_order v w :
  0 <= v < 2 ^ 64 → 0 <= w < 2 ^ 64 → Fixed (bigEndian 8 v) (bigEndian 8 w) (v ?= w).
Proof. apply (bigEndian_order 8). Qed.

(** The first bit inverted, a signed integer is ordered as an unsigned one. *)
Lemma date_word v : - 2 ^ 63 <= v < 2 ^ 63 → Z.lxor (v mod 2 ^ 64) (2 ^ 63) = v + 2 ^ 63.
Proof.
  intros Hv. assert (Hlow : ∀ x, 0 <= x < 2 ^ 63 → Z.land x (2 ^ 63) = 0).
  { intros x Hx. apply Z.bits_inj'. intros n Hn. rewrite Z.land_spec, Z.bits_0.
    destruct (Z.eq_dec n 63) as [->|Hn63].
    - rewrite <- (Z.mod_small x (2 ^ 63)) by lia. by rewrite Z.mod_pow2_bits_high by lia.
    - rewrite Z.pow2_bits_false by lia. apply andb_false_r. }
  destruct (Z.lt_ge_cases v 0) as [Hn|Hn].
  - replace (v mod 2 ^ 64) with (v + 2 ^ 63 + 2 ^ 63).
    2:{ rewrite <- (Z.mod_add v 1 (2 ^ 64)) by lia. rewrite Z.mod_small by lia. lia. }
    rewrite (Z.add_nocarry_lxor (v + 2 ^ 63) (2 ^ 63)) by (apply Hlow; lia).
    rewrite Z.lxor_assoc, Z.lxor_nilpotent, Z.lxor_0_r. done.
  - rewrite Z.mod_small by lia. symmetry. apply Z.add_nocarry_lxor, Hlow. lia.
Qed.

Lemma date_order a b :
  - 2 ^ 63 <= a < 2 ^ 63 → - 2 ^ 63 <= b < 2 ^ 63 →
  Fixed (bigEndian 8 (Z.lxor (a mod 2 ^ 64) (2 ^ 63))) (bigEndian 8 (Z.lxor (b mod 2 ^ 64) (2 ^ 63)))
    (if a <? b then Lt else if a =? b then Eq else Gt).
Proof.
  intros Ha Hb. rewrite !date_word by done.
  replace (if a <? b then Lt else if a =? b then Eq else Gt) with (a + 2 ^ 63 ?= b + 2 ^ 63).
  - apply word_order; lia.
  - rewrite compare_shift. destruct (Z.compare_spec a b), (Z.ltb_spec a b), (Z.eqb_spec a b); done || lia.
Qed.

Lemma timestamp_order a b :
  Timestamp.wf a → Timestamp.wf b →
  Fixed (bigEndian 8 (Timestamp.asULL a)) (bigEndian 8 (Timestamp.asULL b)) (compareTimestamps a b).
Proof.
  intros Ha Hb. assert (Hr : ∀ x, Timestamp.wf x → 0 <= Timestamp.asULL x < 2 ^ 64).
  { intros x Hx. rewrite Timestamp.asULL_value by done. destruct Hx. lia. }
  replace (compareTimestamps a b) with (Timestamp.asULL a ?= Timestamp.asULL b).
  - apply word_order; auto.
  - unfold compareTimestamps, Timestamp.eqb. rewrite Timestamp.asULL_lt by done.
    rewrite !Timestamp.asULL_value by done. destruct Ha, Hb.
    destruct (Z.compare_spec (Timestamp.secs a * 2 ^ 32 + Timestamp.inc a) (Timestamp.secs b * 2 ^ 32 + Timestamp.inc b)),
      (Z.ltb_spec (Timestamp.secs a * 2 ^ 32 + Timestamp.inc a) (Timestamp.secs b * 2 ^ 32 + Timestamp.inc b)),
      (Z.eqb_spec (Timestamp.secs a) (Timestamp.secs b)), (Z.eqb_spec (Timestamp.inc a) (Timestamp.inc b)); simpl; done || lia.
Qed.

Lemma sizes_spec a b : compareSizes a b = (Z.of_nat a ?= Z.of_nat b).
Proof. unfold compareSizes. symmetry. apply Nat2Z.inj_compare. Qed.

Lemma size_order n a b :
  Z.of_nat a < 256 ^ Z.of_nat n → Z.of_nat b < 256 ^ Z.of_nat n →
  Fixed (bigEndian n (Z.of_nat a)) (bigEndian n (Z.of_nat b)) (compareSizes a b).
Proof. intros Ha Hb. rewrite sizes_spec. apply bigEndian_order; lia. Qed.

(** What follows sizes matters if they are equal. *)
Lemma Fixed_sizes l l' m m' a b c :
  Fixed l l' (compareSizes a b) → (a = b → Fixed m m' c) → Fixed (l ++ m) (l' ++ m') (andThen (compareSizes a b) c).
Proof.
  intros Hl Hm. unfold compareSizes in *. destruct (Nat.compare_spec a b) as [He|He|He]; simpl in *;
    [apply (Fixed_app _ _ Eq); auto|by apply Differ_app_r..].
Qed.

Lemma memcmp_all a b n : (length a <= n)%nat → (length b <= n)%nat → memcmp a b n = lexcmp a b.
Proof. intros Ha Hb. unfold memcmp. by rewrite !take_ge. Qed.

Lemma binData_order a s b t :
  Z.of_nat (length a) < 2 ^ 31 → Z.of_nat (length b) < 2 ^ 31 →
  Fixed (encodeBinData a s) (encodeBinData b t)
    (andThen (compareSizes (length a) (length b)) (memcmp (s :: a) (t :: b) (S (length a)))).
Proof.
  intros Ha Hb. unfold encodeBinData. apply Fixed_sizes.
  - destruct (Z.ltb_spec (Z.of_nat (length a)) 255), (Z.ltb_spec (Z.of_nat (length b)) 255).
    + rewrite sizes_spec. apply Fixed_bytes.
    + assert (compareSizes (length a) (length b) = Lt) as -> by (rewrite sizes_spec; apply Z.compare_lt_iff; lia).
      apply Differ_intro; [apply Z.compare_lt_iff; lia|done].
    + assert (compareSizes (length a) (length b) = Gt) as -> by (rewrite sizes_spec; apply Z.compare_gt_iff; lia).
      apply Differ_intro; [apply Z.compare_gt_iff; lia|done].
    + pose proof (size_order 4 (length a) (length b)) as Hs. change (256 ^ Z.of_nat 4) with (2 ^ 32) in Hs.
      exact (Fixed_app [255] [255] Eq _ _ _ eq_refl (Hs ltac:(lia) ltac:(lia))).
  - intros He. rewrite memcmp_all by (simpl; lia). apply lexcmp_Fixed. simpl. lia.
Qed.

Lemma regex_order p f q g :
  isName p = true → isName f = true → isName q = true → isName g = true →
  Fixed (p ++ 0 :: f ++ [0]) (q ++ 0 :: g ++ [0]) (andThen (strcmp p q) (strcmp f g)).
Proof.
  intros Hp Hf Hq Hg. rewrite !strcmp_spec by done.
  pose proof (Fixed_app _ _ _ _ _ _ (name_order p q Hp Hq) (name_order f g Hf Hg)) as H.
  by rewrite <- !app_assoc in H.
Qed.

Lemma dbref_order a i b j :
  Z.of_nat (length a) < 2 ^ 31 → Z.of_nat (length b) < 2 ^ 31 → length i = 12%nat → length j = 12%nat →
  Fixed (bigEndian 4 (Z.of_nat (length a)) ++ a ++ i) (bigEndian 4 (Z.of_nat (length b)) ++ b ++ j)
    (andThen (compareSizes (length (dbrefValue a i)) (length (dbrefValue b j)))
       (memcmp (dbrefValue a i) (dbrefValue b j) (length (dbrefValue a i)))).
Proof.
  intros Ha Hb Hi Hj.
  assert (Hl : ∀ ns oid, length oid = 12%nat → length (dbrefValue ns oid) = (length ns + 17)%nat).
  { intros ns oid Ho. unfold dbrefValue. rewrite !length_app, length_rev, bigEndian_length, Ho. simpl. lia. }
  assert (Hs : compareSizes (length (dbrefValue a i)) (length (dbrefValue b j)) = compareSizes (length a) (length b)).
  { rewrite !sizes_spec, !Hl by done. rewrite !Nat2Z.inj_add. apply compare_shift. }
  rewrite Hs. apply Fixed_sizes; [apply size_order; change (256 ^ Z.of_nat 4) with (2 ^ 32); lia|]. intros He.
  rewrite memcmp_all by (rewrite !Hl by done; lia). unfold dbrefValue. rewrite He, lexcmp_app, !(lexcmp_app_same a b) by done.
  rewrite lexcmp_app. apply Fixed_app; apply lexcmp_Fixed; congruence.
Qed.

(** ** All values *)

Lemma leaf_order (l r : list Z) (o : option comparison) c x :
  o = Some c → Fixed l r c → ∃ c, o = Some c ∧ Ordered (x :: l) (x :: r) c.
Proof. intros -> H. exists c. split; [done|]. by apply Ordered_cons, Fixed_Ordered. Qed.

(** Strings and symbols. *)
Lemma strings_order ver comparator f l r a b :
  collates comparator f → isBytes a = true → isBytes b = true →
  l = BsonString a ∨ l = Symbol a ∧ isCollated f = false → r = BsonString b ∨ r = Symbol b ∧ isCollated f = false →
  ∃ c, compareElements comparator l r = Some c ∧ Ordered (encode ver f l) (encode ver f r) c.
Proof.
  intros Hcol Ha Hb Hl Hr.
  assert (He : ∀ v s, v = BsonString s ∨ v = Symbol s ∧ isCollated f = false →
             encode ver f v = CType.kStringLike :: encodeString (transform f s)).
  { intros v s [-> |[-> Hf]]; [done|]. by destruct f. }
  assert (Hc : compareElements comparator l r =
             Some match comparator with Some compare => compare a b | None => compareElementStringValues a b end).
  { destruct Hl as [-> |[-> _]], Hr as [-> |[-> _]]; done. }
  rewrite (He l a Hl), (He r b Hr), Hc. destruct comparator as [cmp|], f as [g|]; try done; simpl in Hcol |- *.
  - destruct (Hcol a b Ha Hb) as [Hga ->], (Hcol b a Hb Ha) as [Hgb _].
    eexists. split; [done|]. by apply Ordered_cons, encodeString_order.
  - eexists. split; [done|]. rewrite compareElementStringValues_spec by done.
    by apply Ordered_cons, encodeString_order.
Qed.

Lemma leaf_value_order ver l :
  match l with Object _ | Array _ | CodeWScope _ _ => True | _ => OrderedValue ver l end.
Proof.
  destruct l as [| | | |d|i|i|s|s|?|?|data type|oid|v|millis|p f|ns oid|s|? ?|t]; try done;
    intros comparator g r Hcol Hl Hr Ht.
  1-4: by destruct r; try done; exists Eq.
  1-3: destruct r; try done;
    (eexists; split; [by apply (compareNumbers_spec _ (isCollated g))|];
     rewrite !encode_number by done; apply Fixed_Ordered, number_order; by apply (numberOf_isNumber (isCollated g))).
  all: destruct r; try done; ranges Hl; ranges Hr.
  - apply (strings_order ver _ _ _ _ s s0); auto.
  - apply (strings_order ver _ _ _ _ s s0); try tauto; auto. right. split; [done|]. apply negb_true_iff; tauto.
  - apply (strings_order ver _ _ _ _ s s0); try tauto; auto. right. split; [done|]. apply negb_true_iff; tauto.
  - apply (strings_order ver _ _ _ _ s s0); try tauto; right; (split; [done|]); apply negb_true_iff; tauto.
  - eapply leaf_order; [done|]. unfold fitsSize in *. rewrite !Z.ltb_lt in *. apply binData_order; tauto.
  - eapply leaf_order; [done|]. destruct Hl as [_ Ho%Nat.eqb_eq], Hr as [_ Ho'%Nat.eqb_eq].
    rewrite memcmp_all by lia. apply lexcmp_Fixed. congruence.
  - exists (Z.b2z v ?= Z.b2z b). split; [done|]. by destruct v, b; [|apply Ordered_byte..|].
  - eapply leaf_order; [done|]. apply date_order; lia.
  - eapply leaf_order; [done|]. apply regex_order; tauto.
  - eapply leaf_order; [done|]. unfold fitsSize in *. rewrite !Z.ltb_lt, !Nat.eqb_eq in *. apply dbref_order; tauto.
  - exists (lexcmp s s0). split; [|by apply Ordered_cons, encodeString_order].
    cbn [compareElements]. by rewrite compareElementStringValues_spec.
  - eapply leaf_order; [done|]. apply timestamp_order; unfold Timestamp.wf; lia.
Qed.

Lemma value_order ver : ∀ l, OrderedValue ver l.
Proof.
  refine (value_ind _ _ _ _ (leaf_value_order ver)).
  - intros l IH comparator f [] Hcol Hl Hr Ht; try done. simpl in Hl, Hr.
    destruct (fields_order ver comparator f Hcol l fields IH Hl Hr) as (c & Hc & Ho).
    exists c. split; [exact Hc|]. by apply Ordered_cons.
  - intros l IH comparator f [] Hcol Hl Hr Ht; try done. simpl in Hl, Hr.
    rewrite andb_true_iff in Hl, Hr. destruct Hl as [Hpl Hl], Hr as [Hpr Hr].
    destruct (elements_order ver comparator f Hcol 0 l fields IH Hpl Hpr Hl Hr) as (c & Hc & Ho).
    exists c. split; [exact Hc|]. by apply Ordered_cons.
  - intros s l IH comparator f [] Hcol Hl Hr Ht; try done. simpl in Hl, Hr.
    rewrite andb_true_iff in Hl, Hr. destruct Hl as [Hs Hl], Hr as [Hs' Hr].
    destruct (fields_order ver None None I l scope IH Hl Hr) as (c & Hc & Ho).
    exists (andThen (lexcmp s s0) c). split.
    + cbn [compareElements]. rewrite compareStringData_spec. by destruct (lexcmp s s0).
    + apply Ordered_cons. destruct (encodeFields_head ver None l) as (h & t & Ht1 & Hh & _),
        (encodeFields_head ver None scope) as (h' & t' & Ht2 & Hh' & _).
      apply Ordered_app; [by apply encodeString_order|by exists h, t|by exists h', t'|done].
Qed.
