(* ===== verification/KeyStringKeys.v ===== *)
(** Record ids and whole keys: what the builder's buffer holds once fields, a discriminator and a record id are
    appended, and how two such buffers compare. *)
From S2P Require Import Prelude OpTimes KeyBytes BsonValue DoubleFacts KeyString KeyStringNumbers KeyStringEncoding KeyStringOrder.

(** * Record ids *)

(** The extra bytes of an id, and its bytes. *)
Definition idExtra (v : Z) : nat := Z.to_nat (extraBytesNeeded v).
Definition idBytes (v : Z) : list Z :=
  bigEndian (S (S (idExtra v))) ((Z.of_nat (idExtra v) * (1024 * 256 ^ Z.of_nat (idExtra v)) + v) * 8 + Z.of_nat (idExtra v)).

Definition isRecordId (v : Z) : Prop := 0 <= v < 2 ^ 63.

Lemma idExtra_bounds v :
  isRecordId v →
  extraBytesNeeded v = Z.of_nat (idExtra v) ∧ (idExtra v <= 7)%nat ∧ v < 1024 * 256 ^ Z.of_nat (idExtra v) ∧
  ∀ w, 0 <= w <= v → (idExtra w <= idExtra v)%nat.
Proof.
  intros [Hv0 Hv].
  assert (Hl : ∀ w, 0 <= w < 2 ^ 63 → -1 <= 63 - countLeadingZeros64 w < 63 ∧ w < 2 ^ (64 - countLeadingZeros64 w)).
  { intros w Hw. unfold countLeadingZeros64. destruct (Z.eqb_spec w 0) as [->|H0]; [simpl; lia|].
    assert (0 <= Z.log2 w < 63) by (split; [apply Z.log2_nonneg|apply Z.log2_lt_pow2; lia]).
    split; [lia|]. pose proof (Z.log2_spec w ltac:(lia)) as [_ Hs].
    replace (64 - (63 - Z.log2 w)) with (Z.succ (Z.log2 w)) by lia. done. }
  assert (He : ∀ w, 0 <= w < 2 ^ 63 → 0 <= extraBytesNeeded w <= 7 ∧ 64 - countLeadingZeros64 w <= 10 + 8 * extraBytesNeeded w).
  { intros w Hw. destruct (Hl w Hw) as [Hb _]. unfold extraBytesNeeded. cbv zeta.
    destruct (Z.leb_spec (64 - countLeadingZeros64 w) 10); [lia|]. Z.to_euclidean_division_equations; lia. }
  destruct (He v ltac:(lia)) as [Hn Hbits]. unfold idExtra. rewrite Z2Nat.id by lia. split_and!; [done|lia|..].
  - change 256 with (2 ^ 8). rewrite <- Z.pow_mul_r by lia. change 1024 with (2 ^ 10). rewrite <- Z.pow_add_r by lia.
    destruct (Hl v ltac:(lia)) as [_ Hlt]. pose proof (Z.pow_le_mono_r 2 (64 - countLeadingZeros64 v) (10 + 8 * extraBytesNeeded v)). lia.
  - intros w Hw. apply Z2Nat.inj_le; [apply He; lia|lia|]. unfold extraBytesNeeded. cbv zeta.
    assert (64 - countLeadingZeros64 w <= 64 - countLeadingZeros64 v).
    { unfold countLeadingZeros64. destruct (Z.eqb_spec w 0), (Z.eqb_spec v 0); try lia.
      - pose proof (Z.log2_nonneg v). lia.
      - pose proof (Z.log2_le_mono w v). lia. }
    destruct (Z.leb_spec (64 - countLeadingZeros64 w) 10), (Z.leb_spec (64 - countLeadingZeros64 v) 10); try lia;
      Z.to_euclidean_division_equations; lia.
Qed.

(** The parts of the bytes. *)
Lemma idBytes_parts v :
  isRecordId v →
  let n := idExtra v in
  idBytes v = (Z.of_nat n * 32 + v / (32 * 256 ^ Z.of_nat n)) :: bigEndian n (v / 32) ++ [v mod 32 * 8 + Z.of_nat n] ∧
  0 <= v / (32 * 256 ^ Z.of_nat n) < 32.
Proof.
  intros Hv n. destruct (idExtra_bounds v Hv) as (_ & Hn & Hlt & _). fold n in Hn, Hlt. destruct Hv as [Hv0 Hv].
  pose proof (Z.pow_pos_nonneg 256 (Z.of_nat n) ltac:(lia) ltac:(lia)) as Hp. set (P := 256 ^ Z.of_nat n) in *.
  assert (Hd : 0 <= v / (32 * P) < 32) by (split; [apply Z.div_pos; lia|apply Z.div_lt_upper_bound; lia]).
  split; [|done]. unfold idBytes. fold n. fold P. set (W := (Z.of_nat n * (1024 * P) + v) * 8 + Z.of_nat n).
  assert (Hw : W / 256 = Z.of_nat n * 32 * P + v / 32).
  { unfold W. replace (Z.of_nat n * 32 * P + v / 32) with ((Z.of_nat n * (1024 * P) + v) / 32).
    - replace 256 with (8 * 32) by done. rewrite <- Z.div_div by lia. f_equal. rewrite Z.div_add_l by lia.
      rewrite (Z.div_small (Z.of_nat n)) by lia. lia.
    - replace (Z.of_nat n * (1024 * P)) with (Z.of_nat n * 32 * P * 32) by lia. apply Z.div_add_l. lia. }
  assert (Hm : W mod 256 = v mod 32 * 8 + Z.of_nat n).
  { unfold W. replace ((Z.of_nat n * (1024 * P) + v) * 8 + Z.of_nat n)
      with (v mod 32 * 8 + Z.of_nat n + (Z.of_nat n * (32 * P) + v / 32) * 256) by (pose proof (Z.div_mod v 32); lia).
    rewrite Z.mod_add by lia. apply Z.mod_small. pose proof (Z.mod_pos_bound v 32). lia. }
  change (bigEndian (S (S n)) W) with (bigEndian (S n) (W / 256) ++ [W mod 256]).
  rewrite Hm, Hw, bigEndian_head. fold P. simpl. f_equal.
  - rewrite Z.div_add_l by lia. rewrite Z.div_div by lia. apply Z.mod_small. lia.
  - f_equal. rewrite <- (bigEndian_mod n (v / 32)), <- bigEndian_mod. fold P. f_equal.
    rewrite Z.add_comm, Z.mod_add by lia. done.
Qed.

Lemma idBytes_order v w : isRecordId v → isRecordId w → Fixed (idBytes v) (idBytes w) (v ?= w).
Proof.
  intros Hv Hw.
  assert (Hless : ∀ a b, isRecordId a → isRecordId b → (idExtra a < idExtra b)%nat →
            Fixed (idBytes a) (idBytes b) Lt ∧ Fixed (idBytes b) (idBytes a) Gt ∧ a < b).
  { intros a b Ha Hb Hlt. destruct (idBytes_parts a Ha) as [-> Hpa], (idBytes_parts b Hb) as [-> Hpb].
    destruct (idExtra_bounds a Ha) as (_ & _ & _ & Hm).
    split_and!; [apply Differ_intro; [apply Z.compare_lt_iff; lia|done]|apply Differ_intro; [apply Z.compare_gt_iff; lia|done]|].
    destruct (Z.lt_ge_cases a b) as [|Hge]; [done|]. specialize (Hm b). destruct Hb. lia. }
  destruct (Nat.lt_trichotomy (idExtra v) (idExtra w)) as [Hlt|[He|Hlt]].
  - destruct (Hless v w Hv Hw Hlt) as (Hf & _ & Hc%Z.compare_lt_iff). by rewrite Hc.
  - unfold idBytes. rewrite <- He. destruct (idExtra_bounds v Hv) as (_ & Hn & Hlt & _), (idExtra_bounds w Hw) as (_ & _ & Hlt' & _).
    rewrite <- He in Hlt'. set (n := idExtra v) in *. destruct Hv as [Hv0 _], Hw as [Hw0 _].
    pose proof (Z.pow_pos_nonneg 256 (Z.of_nat n) ltac:(lia) ltac:(lia)) as Hp.
    rewrite <- (compare_mono (λ x, (Z.of_nat n * (1024 * 256 ^ Z.of_nat n) + x) * 8 + Z.of_nat n) v w) by lia.
    assert (Hup : ∀ x, 0 <= x → x < 1024 * 256 ^ Z.of_nat n →
              0 <= (Z.of_nat n * (1024 * 256 ^ Z.of_nat n) + x) * 8 + Z.of_nat n < 256 ^ Z.of_nat (S (S n))).
    { intros x Hx Hxn. rewrite !pow256_S. set (P := 256 ^ Z.of_nat n) in *. split; [nia|].
      assert (Z.of_nat n * (1024 * P) <= 7 * (1024 * P)) by nia. nia. }
    apply bigEndian_order; auto.
  - destruct (Hless w v Hw Hv Hlt) as (_ & Hf & Hc). replace (v ?= w) with Gt; [done|].
    symmetry. by apply Z.compare_gt_iff.
Qed.

(** ** What is appended *)

Lemma appendBytes_plain l m b : _appendBytes m false (_appendBytes l false b) = _appendBytes (l ++ m) false b.
Proof. unfold _appendBytes. simpl. by rewrite <- app_assoc. Qed.

Lemma firstByte_spec n v p :
  0 <= n <= 7 → v / p = v / 2 ^ (5 + 8 * n) → 0 <= v / 2 ^ (5 + 8 * n) < 32 →
  Z.lor (Z.shiftl n 5) (Z.shiftr v (5 + n * 8)) mod 256 = n * 32 + v / p.
Proof.
  intros Hn Hp Hv. rewrite Z.shiftr_div_pow2 by lia. replace (5 + n * 8) with (5 + 8 * n) by lia.
  rewrite lor_add by lia. change (2 ^ 5) with 32. rewrite Hp. apply Z.mod_small. lia.
Qed.

Lemma appendRecordId_spec loc b b1 b2 :
  _doneAppending b = Returned b1 → _transition kAppendedRecordID b1 = Returned b2 → isRecordId loc →
  appendRecordId loc b = Returned (_appendBytes (idBytes loc) false b2).
Proof.
  intros H1 H2 Hl. unfold appendRecordId. rewrite H1. cbn [mbind Result_bind]. rewrite H2. cbn [mbind Result_bind].
  destruct (idBytes_parts loc Hl) as [-> Hd]. destruct (idExtra_bounds loc Hl) as (He & Hn & _). destruct Hl as [Hl0 Hl].
  destruct (Z.ltb_spec loc 0); [lia|]. cbn [ensures mbind Result_bind]. cbv zeta. rewrite He. f_equal.
  set (n := idExtra loc) in *.
  assert (Hp : 32 * 256 ^ Z.of_nat n = 2 ^ (5 + 8 * Z.of_nat n)).
  { rewrite pow256, Z.pow_add_r by lia. done. }
  rewrite (firstByte_spec (Z.of_nat n) loc (32 * 256 ^ Z.of_nat n)) by (rewrite <- ?Hp; done || lia).
  replace (Z.lor (Z.shiftl loc 3) (Z.of_nat n) mod 256) with (loc mod 32 * 8 + Z.of_nat n).
  2:{ rewrite lor_add by (change (2 ^ 3) with 8; lia). change (2 ^ 3) with 8.
      replace (loc * 8 + Z.of_nat n) with (loc mod 32 * 8 + Z.of_nat n + (loc / 32) * 256) by (pose proof (Z.div_mod loc 32); lia).
      rewrite Z.mod_add by lia. symmetry. apply Z.mod_small. pose proof (Z.mod_pos_bound loc 32). lia. }
  rewrite Nat2Z.id, Z.shiftr_div_pow2 by lia. change (2 ^ 5) with 32. unfold _append.
  destruct (Z.ltb_spec 0 (Z.of_nat n)) as [Hpos|Hz].
  - by rewrite !appendBytes_plain.
  - assert (n = 0%nat) as -> by lia. by rewrite appendBytes_plain.
Qed.

(** ** What is read back *)

Lemma readExtraBytes_spec invert n w repr l :
  0 <= repr → (repr + 1) * 256 ^ Z.of_nat n <= 2 ^ 64 → 0 <= w →
  readExtraBytes invert n repr (flipIf invert (bigEndian n w) ++ l) =
    Returned (repr * 256 ^ Z.of_nat n + w mod 256 ^ Z.of_nat n, l).
Proof.
  revert w repr. induction n as [|n IH]; intros w repr Hr Hb Hw.
  { destruct invert; simpl; rewrite Z.mod_1_r; do 2 f_equal; lia. }
  rewrite bigEndian_head. rewrite pow256_S in *. pose proof (Z.pow_pos_nonneg 256 (Z.of_nat n) ltac:(lia) ltac:(lia)) as Hp.
  set (P := 256 ^ Z.of_nat n) in *. pose proof (Z.mod_pos_bound (w / P) 256 ltac:(lia)) as Hx.
  set (x := w / P mod 256) in *.
  assert (Hread : readExtraBytes invert (S n) repr (flipIf invert (x :: bigEndian n w) ++ l) =
            readExtraBytes invert n (Z.lor (Z.shiftl repr 8 mod 2 ^ 64) x) (flipIf invert (bigEndian n w) ++ l)).
  { destruct invert; simpl; by rewrite ?flipByte_flip. }
  rewrite Hread. assert (Hs : Z.shiftl repr 8 mod 2 ^ 64 = Z.shiftl repr 8).
  { apply Z.mod_small. rewrite Z.shiftl_mul_pow2 by lia. change (2 ^ 8) with 256. nia. }
  rewrite Hs, lor_add by (change (2 ^ 8) with 256; lia). change (2 ^ 8) with 256.
  rewrite IH by nia. do 2 f_equal. rewrite (Z.mul_comm 256 P), Z.rem_mul_r by lia. fold x. lia.
Qed.

Lemma last_byte_spec v n : Z.of_nat n <= 7 → Z.land (v mod 32 * 8 + Z.of_nat n) 7 = Z.of_nat n ∧
  Z.shiftr (v mod 32 * 8 + Z.of_nat n) 3 = v mod 32.
Proof.
  intros Hn. change 7 with (Z.ones 3). rewrite Z.land_ones, Z.shiftr_div_pow2 by lia. change (2 ^ 3) with 8.
  rewrite Z.add_comm, Z.mod_add, Z.div_add by lia. rewrite Z.mod_small, Z.div_small by lia. lia.
Qed.

Lemma decodeRecordId_spec v : isRecordId v → decodeRecordId (idBytes v) = Returned v.
Proof.
  intros Hv. destruct (idBytes_parts v Hv) as [-> Hd]. destruct (idExtra_bounds v Hv) as (_ & Hn & _). destruct Hv as [Hv0 Hv].
  set (n := idExtra v) in *. pose proof (Z.pow_pos_nonneg 256 (Z.of_nat n) ltac:(lia) ltac:(lia)) as Hp.
  set (P := 256 ^ Z.of_nat n) in *. set (q := v / (32 * P)) in *.
  assert (Hq : q * P + v / 32 mod P = v / 32).
  { unfold q. rewrite <- Z.div_div by lia. pose proof (Z.div_mod (v / 32) P). lia. }
  assert (Hf : Z.shiftr (Z.of_nat n * 32 + q) 5 = Z.of_nat n ∧ Z.land (Z.of_nat n * 32 + q) 31 = q).
  { change 31 with (Z.ones 5). rewrite Z.land_ones, Z.shiftr_div_pow2 by lia. change (2 ^ 5) with 32.
    rewrite Z.div_add_l, Z.div_small by lia. split; [lia|].
    rewrite (Z.add_comm _ q), Z.mod_add by lia. by apply Z.mod_small. }
  destruct Hf as [Hf1 Hf2]. unfold decodeRecordId. cbn [readByte mbind Result_bind]. rewrite Hf1, Hf2, Nat2Z.id.
  assert (Hbound : (q + 1) * P <= 2 ^ 64).
  { destruct (Nat.eq_dec n 7%nat) as [H7|H7].
    - assert (q < 4); [|unfold P; rewrite H7; change (256 ^ Z.of_nat 7) with (2 ^ 56); lia].
      apply Z.div_lt_upper_bound; [lia|]. unfold P. rewrite H7. change (256 ^ Z.of_nat 7) with (2 ^ 56). lia.
    - assert (P <= 256 ^ 6) by (apply Z.pow_le_mono_r; lia). nia. }
  pose proof (readExtraBytes_spec false n (v / 32) q [v mod 32 * 8 + Z.of_nat n]) as Hread. cbn [flipIf] in Hread.
  rewrite Hread; [|lia|done|apply Z.div_pos; lia]. fold P. rewrite Hq.
  cbn [readByte mbind Result_bind]. destruct (last_byte_spec v n ltac:(lia)) as [-> ->].
  rewrite Z.eqb_refl. cbn [ensures mbind Result_bind]. f_equal.
  assert (Hs : Z.shiftl (v / 32) 5 mod 2 ^ 64 = Z.shiftl (v / 32) 5).
  { rewrite Z.shiftl_mul_pow2 by lia. change (2 ^ 5) with 32. apply Z.mod_small.
    Z.to_euclidean_division_equations; lia. }
  rewrite Hs, lor_add by (change (2 ^ 5) with 32; pose proof (Z.mod_pos_bound v 32); lia).
  change (2 ^ 5) with 32. unfold toSigned64. rewrite Z.mul_comm, <- Z.div_mod by lia.
  destruct (Z.leb_spec (2 ^ 63) v); [lia|done].
Qed.

(** The id is found from the end of a key. *)
Lemma id_at_end key v :
  isRecordId v →
  decodeRecordIdAtEnd (key ++ idBytes v) = Returned v ∧
  sizeWithoutRecordIdAtEnd (key ++ idBytes v) = Returned (length key).
Proof.
  intros Hv. pose proof (decodeRecordId_spec v Hv) as Hdec. destruct (idBytes_parts v Hv) as [He _].
  destruct (idExtra_bounds v Hv) as (_ & Hn & _). set (n := idExtra v) in *.
  assert (Hlen : length (idBytes v) = S (S n)) by (unfold idBytes; apply bigEndian_length).
  assert (Hlast : default 0 (last (key ++ idBytes v)) = v mod 32 * 8 + Z.of_nat n).
  { rewrite He. rewrite app_comm_cons, app_assoc, last_snoc. done. }
  unfold decodeRecordIdAtEnd, sizeWithoutRecordIdAtEnd. rewrite Hlast, length_app, Hlen.
  destruct (last_byte_spec v n ltac:(lia)) as [-> _]. rewrite Nat2Z.id.
  destruct (Nat.leb_spec 2 (length key + S (S n))); [|lia].
  destruct (Nat.leb_spec (2 + n) (length key + S (S n))); [|lia].
  cbn [ensures mbind Result_bind]. replace (length key + S (S n) - (2 + n))%nat with (length key) by lia.
  split; [|done]. by rewrite drop_app_length.
Qed.

(** * Keys *)

(** ** Fields *)

Section Fields.
Context (ver : Version) (f : StringTransformFn) (ord : Z).

Definition encodeAt (i : nat) (v : Value) : list Z :=
  if get ord i =? -1 then map flipByte (encode ver f v) else encode ver f v.

Fixpoint encodeKey (i : nat) (obj : BSONObj) : list Z :=
  match obj with
  | [] => []
  | (_, v) :: obj => encodeAt i v ++ encodeKey (S i) obj
  end.

Lemma encodeAt_inner i v s : Inner (encodeAt i v ++ s).
Proof.
  unfold encodeAt. destruct (encode_inner ver f v []) as (x & t & He & Hx). rewrite app_nil_r in He. rewrite He.
  destruct (get ord i =? -1); simpl.
  - exists (flipByte x), (map flipByte t ++ s). unfold flipByte. split; [done|lia].
  - by exists x, (t ++ s).
Qed.

Lemma encodeAt_bounds i v : ∃ x s, encodeAt i v = x :: s ∧ 4 < x < 254.
Proof.
  unfold encodeAt. destruct (encode_head ver f v) as (x & t & -> & Hx). pose proof (generic_bounds v).
  destruct (get ord i =? -1); simpl; [exists (flipByte x), (map flipByte t)|exists x, t]; unfold flipByte;
    (split; [done|lia]).
Qed.
End Fields.

(** The builder's settings, with more bytes and type bits, and another state. *)
Definition Became (b b' : Builder) (l bits : list Z) (s : BuildState) (n : nat) : Prop :=
  version b' = version b ∧ _ordering b' = _ordering b ∧ _discriminator b' = _discriminator b ∧
  _buffer b' = _buffer b ++ l ∧ _typeBits b' = appendBits bits (_typeBits b) ∧ _state b' = s ∧ _elemCount b' = n.

Lemma appendBSONElement_spec ver f v b :
  hasVersion ver b → _state b = kEmpty ∨ _state b = kAppendingBSONElements → wellFormed (isCollated f) v = true →
  ∃ b', appendBSONElement f v b = Returned b' ∧
        Became b b' (encodeAt ver f (_ordering b) (_elemCount b) v) (typeBitsOf ver v) kAppendingBSONElements (S (_elemCount b)).
Proof.
  intros Hver Hs Hw. unfold appendBSONElement.
  assert (Hv : _verifyAppendingState b = Returned (withState kAppendingBSONElements b)).
  { unfold _verifyAppendingState, _transition. destruct b as [ve tb bu st n o d]. simpl in *.
    by destruct Hs as [-> | ->]. }
  rewrite Hv. cbn [mbind Result_bind].
  destruct (value_does ver v f Hw (_shouldInvertOnAppend b) (withState kAppendingBSONElements b) Hver)
    as (b' & Hb' & ->).
  change (_shouldInvertOnAppend (withState kAppendingBSONElements b)) with (_shouldInvertOnAppend b).
  rewrite Hb'. eexists. split; [reflexivity|]. repeat split.
Qed.

(** The type bits of a document's fields. *)
Definition keyBits (ver : Version) (obj : BSONObj) : list Z := flat_map (λ field, typeBitsOf ver field.2) obj.

Lemma appendBSONElements_spec ver f obj b :
  hasVersion ver b → _state b = kEmpty ∨ _state b = kAppendingBSONElements → wellFormedObj f obj = true →
  ∃ b', appendBSONElements f obj b = Returned b' ∧
        Became b b' (encodeKey ver f (_ordering b) (_elemCount b) obj) (keyBits ver obj)
          (match obj with [] => _state b | _ => kAppendingBSONElements end) (length obj + _elemCount b)%nat.
Proof.
  revert b. induction obj as [|[name v] obj IH]; intros b Hv Hs Hw.
  { exists b. split; [done|]. unfold Became. by rewrite app_nil_r. }
  unfold wellFormedObj in *. cbn [forallb snd] in Hw. rewrite andb_true_iff in Hw. destruct Hw as [Hvw Hw].
  destruct (appendBSONElement_spec ver f v b Hv Hs Hvw) as (b1 & Hb1 & Hver & Hord & Hdis & Hbuf & Hbits & Hst & Hn).
  destruct (IH b1) as (b2 & Hb2 & Hver2 & Hord2 & Hdis2 & Hbuf2 & Hbits2 & Hst2 & Hn2).
  { destruct Hv. split; [congruence|]. rewrite Hbits. by rewrite appendBits_version. }
  { by right. }
  { done. }
  exists b2. cbn [appendBSONElements]. rewrite Hb1. cbn [mbind Result_bind]. split; [done|].
  rewrite Hord, Hn in Hbuf2. unfold Became. cbn [encodeKey length]. split_and!; try congruence.
  - by rewrite Hbuf2, Hbuf, <- app_assoc.
  - rewrite Hbits2, Hbits. unfold appendBits. by rewrite <- foldl_app.
  - rewrite Hst2, Hst. by destruct obj.
  - rewrite Hn2, Hn. lia.
Qed.

(** ** Ends *)

Definition discriminatorBytes (d : Discriminator) : list Z :=
  match d with kExclusiveBefore => [kLess] | kExclusiveAfter => [kGreater] | kInclusive => [] end.

Lemma appendDiscriminator_spec d b :
  legal (_state b) kEndAdded = true →
  ∃ b', appendDiscriminator d b = Returned b' ∧
        Became b b' (discriminatorBytes d ++ [kEnd]) [] kEndAdded (_elemCount b).
Proof.
  intros Hl. unfold appendDiscriminator, _appendEnd, _transition, Became.
  destruct d; cbn [_state _append _appendBytes]; rewrite Hl; cbn [ensures mbind Result_bind];
    (eexists; split; [reflexivity|]); simpl; rewrite <- ?app_assoc; done.
Qed.

(** ** Comparing keys *)

Lemma compare_lexcmp l r : compare l r = lexcmp l r.
Proof.
  unfold compare. destruct l as [|x l], r as [|y r]; try done. exact (compareStringData_spec (x :: l) (y :: r)).
Qed.

Lemma lexcmp_lt x y s t : x < y → lexcmp (x :: s) (y :: t) = Lt.
Proof. intros H%Z.compare_lt_iff. cbn [lexcmp]. by rewrite H. Qed.

Lemma lexcmp_gt x y s t : y < x → lexcmp (x :: s) (y :: t) = Gt.
Proof. intros H%Z.compare_gt_iff. cbn [lexcmp]. by rewrite H. Qed.

Lemma mask_descending ord i : descending ord (2 ^ Z.of_nat i mod 2 ^ 32) = (get ord i =? -1).
Proof.
  unfold descending, get, kMaxCompoundIndexKeys. destruct (Nat.leb_spec 32 i) as [Hi|Hi].
  - replace (Z.of_nat i) with (32 + (Z.of_nat i - 32)) by lia. rewrite Z.pow_add_r, Z.mul_comm, Z.mod_mul by lia.
    by rewrite Z.land_0_r.
  - rewrite Z.mod_small by (split; [lia|apply Z.pow_lt_mono_r; lia]).
    destruct (Z.testbit ord (Z.of_nat i)) eqn:Hb; simpl.
    + apply negb_true_iff, Z.eqb_neq. intros Hz. assert (Hc : Z.testbit (Z.land ord (2 ^ Z.of_nat i)) (Z.of_nat i) = true).
      { rewrite Z.land_spec, Hb, Z.pow2_bits_true by lia. done. }
      by rewrite Hz, Z.bits_0 in Hc.
    + apply negb_false_iff, Z.eqb_eq, Z.bits_inj'. intros n Hn. rewrite Z.land_spec, Z.bits_0.
      destruct (Z.eq_dec n (Z.of_nat i)) as [->|Hne]; [by rewrite Hb|].
      rewrite Z.pow2_bits_false by lia. apply andb_false_r.
Qed.

Lemma mask_next i : (2 ^ Z.of_nat i mod 2 ^ 32 * 2) mod 2 ^ 32 = 2 ^ Z.of_nat (S i) mod 2 ^ 32.
Proof.
  rewrite Z.mul_mod_idemp_l by lia. f_equal. rewrite Nat2Z.inj_succ, Z.pow_succ_r by lia. lia.
Qed.

Section Order.
Context (ver : Version) (comparator : Comparator) (f : StringTransformFn) (ord : Z) (Hcollates : collates comparator f).

(** Keys with the same number of fields. *)
Lemma fields_compare i l r :
  length l = length r → wellFormedObj f l = true → wellFormedObj f r = true →
  ∃ c, woCompareFrom comparator ord false (2 ^ Z.of_nat i mod 2 ^ 32) l r = Some c ∧
       ∀ t t', Inner t → Inner t' →
         lexcmp (encodeKey ver f ord i l ++ t) (encodeKey ver f ord i r ++ t') = andThen c (lexcmp t t').
Proof.
  revert i r. induction l as [|[n v] l IH]; intros i [|[m w] r] Hl Hwl Hwr; try done.
  { exists Eq. by split. }
  unfold wellFormedObj in *. cbn [forallb snd] in Hwl, Hwr. rewrite andb_true_iff in Hwl, Hwr.
  destruct Hwl as [Hv Hwl], Hwr as [Hw Hwr].
  destruct (element_order ver comparator f Hcollates (n, v) (m, w) (value_order ver v) Hv Hw) as (c & Hc & Ho).
  destruct (IH (S i) r ltac:(simpl in Hl; lia) Hwl Hwr) as (d & Hd & Hrest). simpl snd in Ho.
  exists (andThen (if get ord i =? -1 then CompOpp c else c) d). split.
  - cbn [woCompareFrom]. unfold woCompareElement. rewrite Hc. simpl. rewrite mask_descending, mask_next, Hd.
    by destruct (get ord i =? -1), c.
  - intros t t' Ht Ht'. cbn [encodeKey]. rewrite <- !app_assoc.
    assert (Hin : ∀ o u, Inner u → Inner (encodeKey ver f ord (S i) o ++ u)).
    { intros [|[k x] o] u Hu; [done|]. cbn [encodeKey]. rewrite <- app_assoc. apply encodeAt_inner. }
    specialize (Hrest t t' Ht Ht'). unfold encodeAt.
    destruct (get ord i =? -1), c; simpl in Ho; simpl andThen;
      try (rewrite <- Ho at 1 || rewrite Ho); rewrite ?lexcmp_app; try done.
    + rewrite (Ordered_tail_flip _ _ Lt); auto.
    + rewrite (Ordered_tail_flip _ _ Gt); auto.
    + rewrite (Ordered_tail _ _ Lt); auto.
    + rewrite (Ordered_tail _ _ Gt); auto.
Qed.

(** A key that goes on. *)
Lemma woCompareFrom_longer mask l r more :
  length l = length r →
  woCompareFrom comparator ord false mask l (r ++ more) =
    match woCompareFrom comparator ord false mask l r with
    | Some Eq => match more with [] => Some Eq | _ => Some Lt end
    | o => o
    end.
Proof.
  revert mask r. induction l as [|x l IH]; intros mask [|y r] Hl; try done.
  cbn [app woCompareFrom]. destruct (woCompareElement comparator false x y) as [c|]; [|done]. simpl.
  destruct (if descending ord mask then CompOpp c else c); [|done..]. apply IH. simpl in Hl. lia.
Qed.

Lemma woCompareFrom_shorter mask l r more :
  length l = length r →
  woCompareFrom comparator ord false mask (l ++ more) r =
    match woCompareFrom comparator ord false mask l r with
    | Some Eq => match more with [] => Some Eq | _ => Some Gt end
    | o => o
    end.
Proof.
  revert mask r. induction l as [|x l IH]; intros mask [|y r] Hl; try done; [by destruct more|].
  cbn [app woCompareFrom]. destruct (woCompareElement comparator false x y) as [c|]; [|done]. simpl.
  destruct (if descending ord mask then CompOpp c else c); [|done..]. apply IH. simpl in Hl. lia.
Qed.

Lemma encodeKey_app i l m : encodeKey ver f ord i (l ++ m) = encodeKey ver f ord i l ++ encodeKey ver f ord (length l + i) m.
Proof.
  revert i. induction l as [|[n v] l IH]; intros i; [done|]. cbn [app encodeKey length].
  rewrite IH, <- app_assoc. by rewrite Nat.add_succ_r.
Qed.

Lemma encodeKey_bounds i obj t : obj ≠ [] → ∃ x s, encodeKey ver f ord i obj ++ t = x :: s ∧ 4 < x < 254.
Proof.
  destruct obj as [|[n v] obj]; [done|]. intros _. cbn [encodeKey].
  destruct (encodeAt_bounds ver f ord i v) as (x & s & -> & Hx). by eexists x, _.
Qed.
End Order.

(** Keys that end, compared with the keys' own order. *)
Section Keys.
Context (ver : Version) (comparator : Comparator) (f : StringTransformFn) (ord : Z) (Hcollates : collates comparator f).

Lemma wellFormed_app l m : wellFormedObj f (l ++ m) = wellFormedObj f l && wellFormedObj f m.
Proof. unfold wellFormedObj. apply forallb_app. Qed.

Lemma woCompare_from l r :
  woCompare comparator ord false l r = woCompareFrom comparator ord false (2 ^ Z.of_nat 0 mod 2 ^ 32) l r.
Proof. done. Qed.

Lemma Inner_end t : Inner (kEnd :: t).
Proof. by exists kEnd, t. Qed.

Lemma Inner_key i obj t : Inner t → Inner (encodeKey ver f ord i obj ++ t).
Proof. destruct obj as [|[n v] obj]; [done|]. intros _. cbn [encodeKey]. rewrite <- app_assoc. apply encodeAt_inner. Qed.

Lemma keys_compare l r :
  wellFormedObj f l = true → wellFormedObj f r = true →
  ∃ c, woCompare comparator ord false l r = Some c ∧
       ∀ t t', lexcmp (encodeKey ver f ord 0 l ++ kEnd :: t) (encodeKey ver f ord 0 r ++ kEnd :: t') =
               andThen c (lexcmp t t').
Proof.
  intros Hl Hr. rewrite woCompare_from. destruct (Nat.lt_trichotomy (length l) (length r)) as [Hlt|[He|Hlt]].
  - rewrite <- (take_drop (length l) r), wellFormed_app, andb_true_iff in Hr. destruct Hr as [Hr1 Hr2].
    assert (Hlen : length l = length (take (length l) r)) by (rewrite length_take; lia).
    assert (Hm : drop (length l) r ≠ []) by (intros H%(f_equal length); rewrite length_drop in H; simpl in H; lia).
    destruct (fields_compare ver comparator f ord Hcollates 0 l _ Hlen Hl Hr1) as (c & Hc & Hrest).
    rewrite <- (take_drop (length l) r), woCompareFrom_longer, Hc by done.
    exists (andThen c Lt). split; [by destruct c, (drop (length l) r)|]. intros t t'.
    rewrite encodeKey_app, <- app_assoc. rewrite Hrest; [|apply Inner_end|apply Inner_key, Inner_end].
    destruct (encodeKey_bounds ver f ord (length (take (length l) r) + 0) (drop (length l) r) (kEnd :: t') Hm) as (x & s & -> & Hx).
    rewrite (lexcmp_lt kEnd x) by (unfold kEnd; lia). by destruct c.
  - destruct (fields_compare ver comparator f ord Hcollates 0 l r He Hl Hr) as (c & Hc & Hrest).
    exists c. split; [done|]. intros t t'. rewrite Hrest by apply Inner_end. simpl. done.
  - rewrite <- (take_drop (length r) l), wellFormed_app, andb_true_iff in Hl. destruct Hl as [Hl1 Hl2].
    assert (Hlen : length (take (length r) l) = length r) by (rewrite length_take; lia).
    assert (Hm : drop (length r) l ≠ []) by (intros H%(f_equal length); rewrite length_drop in H; simpl in H; lia).
    destruct (fields_compare ver comparator f ord Hcollates 0 _ r Hlen Hl1 Hr) as (c & Hc & Hrest).
    rewrite <- (take_drop (length r) l), woCompareFrom_shorter, Hc by done.
    exists (andThen c Gt). split; [by destruct c, (drop (length r) l)|]. intros t t'.
    rewrite encodeKey_app, <- app_assoc. rewrite Hrest; [|apply Inner_key, Inner_end|apply Inner_end].
    destruct (encodeKey_bounds ver f ord (length (take (length r) l) + 0) (drop (length r) l) (kEnd :: t) Hm) as (x & s & -> & Hx).
    rewrite (lexcmp_gt x kEnd) by (unfold kEnd; lia). by destruct c.
Qed.
End Keys.

(** ** The keys of an index *)

Lemma keyBytes_valueOf b : keyBytes (valueOf b) = _buffer b.
Proof. unfold keyBytes, valueOf. simpl. apply take_app_length. Qed.

(** The bytes of a key, and the type bits behind them. *)
Lemma indexKey_spec ver ord f obj id :
  obj ≠ [] → wellFormedObj f obj = true → match id with Some id => isRecordId id | None => True end →
  ∃ k, indexKey ver ord f obj id = Returned k ∧ _ksSize k = length (keyBytes k) ∧ _version k = ver ∧
       keyBytes k = encodeKey ver f ord 0 obj ++ kEnd :: match id with Some id => idBytes id | None => [] end ∧
       drop (_ksSize k) (_keyBuffer k) = getBuffer (appendBits (keyBits ver obj) (newTypeBits ver)).
Proof.
  intros Hne Hw Hid. unfold indexKey.
  destruct (appendBSONElements_spec ver f obj (newBuilder ver ord kInclusive) (conj eq_refl eq_refl) (or_introl eq_refl) Hw)
    as (b1 & -> & Hver & Hord & Hdis & Hbuf & Hbits & Hst & _).
  assert (Hst' : _state b1 = kAppendingBSONElements) by (by rewrite Hst; destruct obj).
  cbn [newBuilder version _ordering _discriminator _buffer _elemCount _typeBits app] in *.
  assert (Hdone : ∃ b2, _doneAppending b1 = Returned b2 ∧ _buffer b2 = _buffer b1 ++ [kEnd] ∧ _state b2 = kEndAdded ∧
            version b2 = ver ∧ _typeBits b2 = _typeBits b1).
  { unfold _doneAppending. rewrite Hst', Hdis. simpl.
    destruct (appendDiscriminator_spec kInclusive b1) as (b2 & Hb2 & Hv & _ & _ & Hb & Ht & Hs & _); [by rewrite Hst'|].
    exists b2. split; [exact Hb2|]. simpl in Hb. split_and!; [done|done|congruence|exact Ht]. }
  destruct Hdone as (b2 & Hd & Hb2 & Hs2 & Hv2 & Ht2).
  assert (Hvalue : ∀ b3 l, version b3 = ver → _typeBits b3 = _typeBits b2 → _buffer b3 = _buffer b2 ++ l →
            _ksSize (valueOf b3) = length (keyBytes (valueOf b3)) ∧ _version (valueOf b3) = ver ∧
            keyBytes (valueOf b3) = encodeKey ver f ord 0 obj ++ kEnd :: l ∧
            drop (_ksSize (valueOf b3)) (_keyBuffer (valueOf b3)) = getBuffer (appendBits (keyBits ver obj) (newTypeBits ver))).
  { intros b3 l Hv3 Ht3 Hb3. rewrite keyBytes_valueOf. split_and!; [done|done| |].
    - rewrite Hb3, Hb2, Hbuf, <- !app_assoc. done.
    - unfold valueOf. simpl. rewrite drop_app_length. congruence. }
  destruct id as [id|]; cbn [mbind Result_bind].
  - assert (Ht : _transition kAppendedRecordID b2 = Returned (withState kAppendedRecordID b2)).
    { unfold _transition. by rewrite Hs2. }
    rewrite (appendRecordId_spec id b1 b2 _ Hd Ht Hid). cbn [mbind Result_bind]. unfold release, _doneAppending, _transition. simpl.
    eexists. split; [reflexivity|]. by apply Hvalue.
  - unfold release. rewrite Hd. cbn [mbind Result_bind]. unfold _transition. rewrite Hs2. simpl.
    eexists. split; [reflexivity|]. apply Hvalue; [done..|]. by rewrite app_nil_r.
Qed.

(** Keys for queries have no collation, and any discriminator. *)
Lemma resetToQuery_spec ver obj ord d b :
  hasVersion ver b → wellFormedObj None obj = true →
  ∃ b', resetToQuery obj ord d b = Returned b' ∧
        _buffer b' = encodeKey ver None ord 0 obj ++ discriminatorBytes d ++ [kEnd] ∧
        _typeBits b' = appendBits (keyBits ver obj) (newTypeBits ver).
Proof.
  intros Hver Hw. unfold resetToQuery, resetToEmpty, _transition. cbn [legal].
  assert (Hl : ∀ s, legal s kEmpty = true) by (by intros []). simpl (_state _). rewrite Hl. cbn [ensures mbind Result_bind].
  unfold _appendAllElementsForIndexing, _transition. simpl (_state _). cbn [legal ensures mbind Result_bind].
  match goal with |- context [appendBSONElements None obj ?b0] =>
    destruct (appendBSONElements_spec ver None obj b0 Hver (or_intror eq_refl) Hw) as (b1 & -> & _ & Hord & _ & Hbuf & Hbits & Hst & _) end.
  cbn [mbind Result_bind]. assert (Hst' : _state b1 = kAppendingBSONElements) by (rewrite Hst; by destruct obj).
  destruct (appendDiscriminator_spec d b1) as (b2 & Hb2 & _ & _ & _ & Hb & Ht & _); [by rewrite Hst'|].
  exists b2. split; [exact Hb2|]. split; [by rewrite Hb, Hbuf|]. rewrite Ht, Hbits. cbn [_typeBits].
  destruct Hver as [_ ->]. done.
Qed.
