(* ===== verification/KeyStringProps.v ===== *)
(** What key strings promise: bytes that compare as the documents they are made of, record ids
    that are read back, bounds of queries that separate the entries of an index. *)
From S2P Require Import Prelude OpTimes KeyBytes BsonValue DoubleFacts KeyString KeyStringNumbers KeyStringNumberCode KeyStringEncoding KeyStringOrder KeyStringKeys.

(** ** Sequences *)

Lemma lexcmp_trans a b c : ∀ o, lexcmp a b = o → lexcmp b c = o → lexcmp a c = o.
Proof.
  revert b c. induction a as [|x a IH]; intros [|y b] [|z c] o; simpl; try (intros <-; done).
  destruct (Z.compare_spec x y) as [->|Hxy|Hxy], (Z.compare_spec y z) as [->|Hyz|Hyz]; intros H1 H2;
    try congruence; [by apply (IH b c)|..].
  - rewrite <- H1. by apply Z.compare_lt_iff in Hxy as ->.
  - rewrite <- H1. by assert ((x ?= z) = Lt) as -> by (apply Z.compare_lt_iff; lia).
  - rewrite <- H1. by apply Z.compare_gt_iff in Hxy as ->.
  - rewrite <- H1. by assert ((x ?= z) = Gt) as -> by (apply Z.compare_gt_iff; lia).
Qed.

Lemma Fixed_lexcmp l l' c : Fixed l l' c → lexcmp l l' = c.
Proof. destruct c; simpl; [intros ->; apply lexcmp_refl|apply Differ_lexcmp..]. Qed.

Lemma andThen_eq c : andThen c Eq = c.
Proof. by destruct c. Qed.

(** The identity collation, and values to try. *)
Definition sampleKey : BSONObj := [([97], NumberInt 5); ([98], BsonString [104; 0; 105])].
Definition sampleOther : BSONObj := [([97], NumberDouble 4617315517961601024); ([98], BsonString [104])].

(** ** The order *)

(** C6: An index's entries are in the order of its keys.  For every version, ordering and
    collation, and fields with well-formed values ([wellFormedObj]: no decimals; no symbols where
    there is a collation, for which the builder throws [CannotBuildIndexKeys], as
    [symbol_refused] says; no zero inside the name of a DBRef, which is cut there, as [dbref_name_cut]
    says; arrays whose elements are named by their positions), generating the keys of two
    documents' fields throws and aborts nowhere, and the bytes of the two keys compare as the
    fields do by the order of BSON, each field ascending or descending as the index says, then as
    the record ids do; without the record ids they compare as the fields alone. *)
Theorem index_keys_ordered ver comparator collation ord l r idl idr :
  collates comparator collation → l ≠ [] → r ≠ [] →
  wellFormedObj collation l = true → wellFormedObj collation r = true → isRecordId idl → isRecordId idr →
  ∃ kl kr c,
    indexKey ver ord collation l (Some idl) = Returned kl ∧
    indexKey ver ord collation r (Some idr) = Returned kr ∧
    woCompare comparator ord false l r = Some c ∧
    compareValues kl kr = andThen c (idl ?= idr) ∧
    compareWithoutRecordId kl kr = Returned c.
Proof.
  intros Hcol Hl Hr Hwl Hwr Hil Hir.
  destruct (indexKey_spec ver ord collation l (Some idl) Hl Hwl Hil) as (kl & Hkl & Hsl & _ & Hbl & _).
  destruct (indexKey_spec ver ord collation r (Some idr) Hr Hwr Hir) as (kr & Hkr & Hsr & _ & Hbr & _).
  destruct (keys_compare ver comparator collation ord Hcol l r Hwl Hwr) as (c & Hc & Hcmp).
  exists kl, kr, c. split_and!; try done.
  - unfold compareValues. rewrite Hbl, Hbr, compare_lexcmp, Hcmp. f_equal. by apply Fixed_lexcmp, idBytes_order.
  - assert (Hsize : ∀ k obj id, keyBytes k = encodeKey ver collation ord 0 obj ++ kEnd :: idBytes id →
              _ksSize k = length (keyBytes k) → isRecordId id →
              sizeWithoutRecordId k = Returned (length (encodeKey ver collation ord 0 obj ++ [kEnd])) ∧
              take (length (encodeKey ver collation ord 0 obj ++ [kEnd])) (keyBytes k) = encodeKey ver collation ord 0 obj ++ [kEnd]).
    { intros k obj id Hb Hs Hid. replace (kEnd :: idBytes id) with ([kEnd] ++ idBytes id) in Hb by done.
      rewrite app_assoc in Hb. unfold sizeWithoutRecordId. rewrite Hs, Hb. split; [|apply take_app_length].
      destruct (Nat.eqb_spec (length ((encodeKey ver collation ord 0 obj ++ [kEnd]) ++ idBytes id)) 0) as [H0|_].
      - rewrite !length_app in H0. simpl in H0. lia.
      - apply id_at_end. done. }
    destruct (Hsize kl l idl Hbl Hsl Hil) as [H1 H2], (Hsize kr r idr Hbr Hsr Hir) as [H3 H4].
    unfold compareWithoutRecordId. rewrite H1, H3. cbn [mbind Result_bind]. rewrite H2, H4, compare_lexcmp, Hcmp.
    simpl. by rewrite andThen_eq.
Qed.

(** The number 5 is less than 5.25, and a field less decides though the record ids are the other way around. *)
Lemma index_keys_ordered_witness :
  woCompare None 2 false sampleKey sampleOther = Some Lt ∧
  ∃ kl kr c,
    indexKey V1 2 None sampleKey (Some 77) = Returned kl ∧
    indexKey V1 2 None sampleOther (Some 12) = Returned kr ∧
    woCompare None 2 false sampleKey sampleOther = Some c ∧
    compareValues kl kr = andThen c (77 ?= 12) ∧
    compareWithoutRecordId kl kr = Returned c.
Proof.
  split; [vm_compute; reflexivity|].
  apply (index_keys_ordered V1 None None 2 sampleKey sampleOther 77 12); done.
Defined.

(** C15: The bounds of queries on an index without a collation.  A key for a query on the first
    fields of the index has a discriminator: with [kExclusiveBefore] it is before every entry
    whose values in those fields compare equal to the query's, with [kExclusiveAfter] it is behind every such
    entry, whatever the other fields and the record id are; against other entries it compares as
    their values do.  Without a discriminator the key of all fields is just before the entries
    for it.  The values are well formed ([wellFormedObj]: no decimals, no zero inside the name of a
    DBRef, which would be cut there, arrays whose elements are named by their positions). *)
Theorem query_bounds_separate ver ord d query obj id b :
  (length query <= length obj)%nat → obj ≠ [] →
  wellFormedObj None query = true → wellFormedObj None obj = true → isRecordId id → hasVersion ver b →
  ∃ b' k c,
    resetToQuery query ord d b = Returned b' ∧
    indexKey ver ord None obj (Some id) = Returned k ∧
    woCompare None ord false query (match d with kInclusive => obj | _ => take (length query) obj end) = Some c ∧
    compare (_buffer b') (keyBytes k) = andThen c (match d with kExclusiveAfter => Gt | _ => Lt end).
Proof.
  intros Hlen Hne Hwq Hwo Hid Hver.
  destruct (resetToQuery_spec ver query ord d b Hver Hwq) as (b' & Hb' & Hbuf & _).
  destruct (indexKey_spec ver ord None obj (Some id) Hne Hwo Hid) as (k & Hk & _ & _ & Hkb & _).
  set (first := take (length query) obj). set (more := drop (length query) obj).
  assert (Hobj : obj = first ++ more) by (symmetry; apply take_drop).
  assert (Hl : length query = length first) by (unfold first; rewrite length_take; lia).
  assert (Hw1 : wellFormedObj None first = true) by (rewrite Hobj, wellFormed_app, andb_true_iff in Hwo; tauto).
  destruct (fields_compare ver None None ord I 0 query first Hl Hwq Hw1) as (c & Hc & Hcmp).
  destruct (keys_compare ver None None ord I query obj Hwq Hwo) as (e & He & Hecmp).
  assert (Hbelow : ∃ x s, encodeKey ver None ord (length first + 0) more ++ kEnd :: idBytes id = x :: s ∧ 1 < x < 254).
  { assert (more = [] ∨ more ≠ []) as [->|Hm] by (destruct more; [by left|by right]).
    - by exists kEnd, (idBytes id).
    - destruct (encodeKey_bounds ver None ord (length first + 0) more (kEnd :: idBytes id) Hm) as (x & s & -> & Hx).
      exists x, s. split; [done|lia]. }
  destruct Hbelow as (x & s & Htail & Hx).
  assert (Hexclusive : ∀ y, 0 < y < 255 → compare (encodeKey ver None ord 0 query ++ y :: [kEnd]) (keyBytes k) =
            andThen c (lexcmp (y :: [kEnd]) (x :: s))).
  { intros y Hy. rewrite compare_lexcmp, Hkb, Hobj, encodeKey_app, <- app_assoc, Htail.
    apply Hcmp; [by exists y, [kEnd]|]. exists x, s. split; [done|lia]. }
  exists b', k. rewrite Hbuf. destruct d; simpl discriminatorBytes.
  - exists e. split_and!; try done. simpl app. rewrite compare_lexcmp, Hkb, Hecmp. f_equal. by destruct (idBytes_parts id Hid) as [-> _].
  - exists c. split_and!; try done. simpl app. rewrite (Hexclusive kLess) by (unfold kLess; lia).
    by rewrite lexcmp_lt by (unfold kLess; lia).
  - exists c. split_and!; try done. simpl app. rewrite (Hexclusive kGreater) by (unfold kGreater; lia).
    by rewrite lexcmp_gt by (unfold kGreater; lia).
Qed.

Lemma query_bounds_separate_witness :
  woCompare None 2 false [([97], NumberLong 5)] (take 1 sampleKey) = Some Eq ∧
  ∃ b' k c,
    resetToQuery [([97], NumberLong 5)] 2 kExclusiveAfter (newBuilder V0 0 kInclusive) = Returned b' ∧
    indexKey V0 2 None sampleKey (Some 77) = Returned k ∧
    woCompare None 2 false [([97], NumberLong 5)] (take 1 sampleKey) = Some c ∧
    compare (_buffer b') (keyBytes k) = andThen c Gt.
Proof.
  split; [vm_compute; reflexivity|].
  apply (query_bounds_separate V0 2 kExclusiveAfter [([97], NumberLong 5)] sampleKey 77 (newBuilder V0 0 kInclusive));
    try done; simpl; lia.
Defined.

(** C21: Numbers of different types are compared by the numbers they are.  An int, a long and a
    double compare by their exact values, a NaN being below all numbers and equal to others,
    even where a long has no double equal to it; and for every version the builder encodes each
    to bytes that compare the same way, or the opposite way when inverted. *)
Theorem numbers_compare_exactly ver comparator collation ord d invert l r :
  isNumeric l = true → isNumeric r = true →
  wellFormed (isCollated collation) l = true → wellFormed (isCollated collation) r = true →
  let c := compareMeanings (numberOf l) (numberOf r) in
  compareElements comparator l r = Some c ∧
  ∃ bl br,
    _appendBsonValue collation l invert None (newBuilder ver ord d) = Returned bl ∧
    _appendBsonValue collation r invert None (newBuilder ver ord d) = Returned br ∧
    compare (_buffer bl) (_buffer br) = if invert then CompOpp c else c.
Proof.
  intros Hl Hr Hwl Hwr c. split; [by apply (compareNumbers_spec _ (isCollated collation))|].
  destruct (value_does ver l collation Hwl invert (newBuilder ver ord d) (conj eq_refl eq_refl)) as (bl & Hbl & ->).
  destruct (value_does ver r collation Hwr invert (newBuilder ver ord d) (conj eq_refl eq_refl)) as (br & Hbr & ->).
  eexists _, _. split_and!; [exact Hbl|exact Hbr|]. rewrite compare_lexcmp, !encode_number by done. simpl.
  pose proof (number_order ver (numberOf l) (numberOf r) (numberOf_isNumber _ l Hl Hwl) (numberOf_isNumber _ r Hr Hwr)) as Ho.
  apply Fixed_lexcmp. destruct invert; [by apply Fixed_flip|done].
Qed.

(** 2^53 + 1 is above 2^53, the double nearest to it. *)
Lemma numbers_compare_exactly_witness :
  compareMeanings (numberOf (NumberLong 9007199254740993)) (numberOf (NumberDouble 4845873199050653696)) = Gt ∧
  compareElements None (NumberLong 9007199254740993) (NumberDouble 4845873199050653696) =
    Some (compareMeanings (numberOf (NumberLong 9007199254740993)) (numberOf (NumberDouble 4845873199050653696))).
Proof.
  split; [vm_compute; reflexivity|].
  apply (numbers_compare_exactly V0 None None 0 kInclusive true); reflexivity.
Defined.

(** The order of BSON is one: for each ordering and collation, comparing documents never
    reaches the unreachable case, comparing them the other way around gives the opposite, and
    the comparison is transitive, documents that compare equal being interchangeable. *)
Theorem bson_order_total comparator collation ord l m r :
  collates comparator collation →
  wellFormedObj collation l = true → wellFormedObj collation m = true → wellFormedObj collation r = true →
  ∃ c d e,
    woCompare comparator ord false l m = Some c ∧
    woCompare comparator ord false m l = Some (CompOpp c) ∧
    woCompare comparator ord false m r = Some d ∧
    woCompare comparator ord false l r = Some e ∧
    (c = d → e = c) ∧ (c = Eq → e = d) ∧ (d = Eq → e = c).
Proof.
  intros Hcol Hl Hm Hr.
  set (K obj := encodeKey V1 collation ord 0 obj ++ [kEnd]).
  assert (Hk : ∀ x y, wellFormedObj collation x = true → wellFormedObj collation y = true →
            woCompare comparator ord false x y = Some (lexcmp (K x) (K y))).
  { intros x y Hx Hy. destruct (keys_compare V1 comparator collation ord Hcol x y Hx Hy) as (c & -> & Hc).
    unfold K. rewrite Hc. simpl. by rewrite andThen_eq. }
  exists (lexcmp (K l) (K m)), (lexcmp (K m) (K r)), (lexcmp (K l) (K r)). rewrite !Hk by done. split_and!; try done.
  - by rewrite (lexcmp_opp (K l) (K m)).
  - intros He. by apply (lexcmp_trans _ (K m)).
  - by intros ->%lexcmp_eq.
  - by intros ->%lexcmp_eq.
Qed.

Lemma bson_order_total_witness :
  ∃ c d e,
    woCompare None 1 false sampleKey sampleOther = Some c ∧
    woCompare None 1 false sampleOther sampleKey = Some (CompOpp c) ∧
    woCompare None 1 false sampleOther [([97], MinKey)] = Some d ∧
    woCompare None 1 false sampleKey [([97], MinKey)] = Some e ∧
    (c = d → e = c) ∧ (c = Eq → e = d) ∧ (d = Eq → e = c).
Proof. apply (bson_order_total None None 1 sampleKey sampleOther [([97], MinKey)]); done. Defined.

(** ** What the order does not cover *)

(** The transform that is given for a set is not applied to its strings. *)
Lemma set_ignores_transform :
  let shout := map (λ x, x - 32) in
  let b := newBuilder V1 0 kInclusive in
  appendSetAsArray [BsonString [97]] (Some shout) b ≠ appendBSONElement (Some shout) (Array [([48], BsonString [97])]) b ∧
  appendSetAsArray [BsonString [97]] (Some shout) b = appendBSONElement None (Array [([48], BsonString [97])]) b.
Proof. split; [vm_compute; discriminate|reflexivity]. Qed.

(** A symbol in an index with a collation. *)
Lemma symbol_refused :
  indexKey V1 0 (Some (λ s, s)) [([], Object [([120], Symbol [97])])] (Some 1) = Thrown CannotBuildIndexKeys.
Proof. vm_compute. reflexivity. Qed.

(** The name in a DBRef is compared with its zeros, and encoded up to the first of them: values
    that differ have one key. *)
Lemma dbref_name_cut :
  let oid := repeat 7 12 in
  let l := DBRef [97; 0; 98] oid in
  let r := DBRef [97; 0; 99] oid in
  compareElements None l r = Some Lt ∧
  indexKey V1 0 None [([], l)] (Some 1) = indexKey V1 0 None [([], r)] (Some 1).
Proof. split; vm_compute; reflexivity. Qed.
