(* ===== verification/KeyStringDecode.v ===== *)
(** Reading key strings back: src/mongo/db/storage/key_string.cpp, from [toBsonValue] on.  The
    reader of the bytes is what is left of them, the reader of the type bits a position.  What
    is read for a number whose type bits are those of a decimal is an argument. *)
From S2P Require Import Prelude OpTimes KeyBytes BsonValue KeyString.

(** ** Type bits *)

(** [readSizeFromBuffer]. *)
Definition readSizeFromBuffer (l : Bytes) : Result (nat * Bytes) :=
  match l with
  | [] => Thrown Overflow
  | firstByte :: l' =>
      if (0 <? firstByte) && (firstByte <? 128) then Returned (1%nat, l)
      else if 128 <? firstByte then Returned (Z.to_nat (Z.land firstByte 127), l')
      else if firstByte =? 128 then
        if (length l' <? 4)%nat then Thrown Overflow
        else
          let s := ofBigEndian 0 (rev (take 4 l')) in
          keyStringAssert 50910 (Z.of_nat kMaxBytesForShortEncoding <? s) ≫= λ _,
          Returned (Z.to_nat s, drop 4 l')
      else Returned (0%nat, l')
  end.

(** [TypeBits::fromBuffer], with what is left. *)
Definition fromBuffer (v : Version) (l : Bytes) : Result (TypeBits * Bytes) :=
  match l with
  | [] => Returned (newTypeBits v, [])
  | _ =>
      '(size, l) ← readSizeFromBuffer l;
      if (length l <? size)%nat then Thrown Overflow
      else Returned (mkTypeBits v 0 (size =? 0)%nat (take size l), drop size l)
  end.

(** [Value::getTypeBits]. *)
Definition getTypeBits (v : KeyValue) : Result TypeBits :=
  '(tb, _) ← fromBuffer (_version v) (drop (_ksSize v) (_keyBuffer v)); Returned tb.

(** The methods of [TypeBits::Reader] return the next position too. *)
Definition readBit (tb : TypeBits) (cur : nat) : Result (Z * nat) :=
  if _isAllZeros tb then Returned (0, cur)
  else
    keyStringAssert 50615 (cur / 8 <? length (dataBuffer tb))%nat ≫= λ _,
    Returned (if Z.testbit (nth (cur / 8) (dataBuffer tb) 0) (Z.of_nat (cur mod 8)) then 1 else 0, S cur).

Definition readStringLike : TypeBits → nat → Result (Z * nat) := readBit.

Definition readNumeric (tb : TypeBits) (cur : nat) : Result (Z * nat) :=
  '(highBit, cur) ← readBit tb cur;
  '(bit, cur) ← readBit tb cur;
  Returned (Z.lor (Z.shiftl highBit 1) bit, cur).

Definition readZero (tb : TypeBits) (cur : nat) : Result (Z * nat) :=
  '(res, cur) ← readNumeric tb cur;
  '(res, cur) ←
    (if bool_decide (tb_version tb ≠ V0) && (res =? kSpecialZeroPrefix) then
       '(x, cur) ← readBit tb cur;
       '(y, cur) ← readBit tb cur;
       '(z, cur) ← readBit tb cur;
       Returned (Z.lor (Z.shiftl (Z.lor (Z.shiftl (Z.lor (Z.shiftl res 1) x) 1) y) 1) z, cur)
     else Returned (res, cur));
  Returned (if (res =? kV1NegativeDoubleZero) || (res =? kV0NegativeDoubleZero) then kNegativeDoubleZero else res, cur).

(** ** Bytes *)

(** [skip]. *)
Definition readBytes (inverted : bool) (n : nat) (l : Bytes) : Result (Bytes * Bytes) :=
  if (length l <? n)%nat then Thrown Overflow
  else Returned (flipIf inverted (take n l), drop n l).

(** A word of [n] bytes in big endian order. *)
Definition readWord (inverted : bool) (n : nat) (l : Bytes) : Result (Z * Bytes) :=
  '(bytes, l) ← readBytes inverted n l; Returned (ofBigEndian 0 bytes, l).

(** [readCString] and [readInvertedCString]. *)
Fixpoint readUntilNul (code : Z) (inverted : bool) (l : Bytes) : Result (Bytes * Bytes) :=
  match l with
  | [] => Thrown code
  | x :: l =>
      let x := if inverted then flipByte x else x in
      if x =? 0 then Returned ([], l)
      else '(s, l) ← readUntilNul code inverted l; Returned (x :: s, l)
  end.

Definition readCString (inverted : bool) : Bytes → Result (Bytes * Bytes) :=
  readUntilNul (if inverted then 50817 else 50816) inverted.

Definition peekByte (inverted : bool) (l : Bytes) : Result Z :=
  '(x, _) ← readByte inverted l; Returned x.

(** The loops of [readCStringWithNuls] and [readInvertedCStringWithNuls]. *)
Fixpoint readParts (fuel : nat) (inverted : bool) (l : Bytes) : Result (Bytes * Bytes) :=
  match fuel with
  | O => Terminated
  | S fuel =>
      '(s, l) ← readUntilNul (if inverted then 50820 else 50816) inverted l;
      x ← peekByte inverted l;
      if x =? 255 then '(t, l) ← readParts fuel inverted (drop 1 l); Returned (s ++ 0 :: t, l)
      else Returned (s, l)
  end.

Definition readCStringWithNuls (inverted : bool) (l : Bytes) : Result (Bytes * Bytes) :=
  readParts (S (length l)) inverted l.

(** ** Numbers *)

Definition quietNaN : Z := 4095 * 2 ^ 51.
Definition kMaxIntForDouble : Z := 2 ^ 53.

(** A value, what is left of the bytes, and the position in the type bits. *)
Definition Out : Type := Value * Bytes * nat.

Section Values.
Context (tb : TypeBits) (ver : Version).

(** Of the type of the key, whether it is inverted, the word read last, the bytes behind it and
    the position in the type bits. *)
Variable decimal : Z → bool → Z → Bytes → nat → Result Out.

Definition decodeNaN (ctype : Z) (inverted : bool) (l : Bytes) (cur : nat) : Result Out :=
  '(type, cur) ← readNumeric tb cur;
  if type =? kDouble then Returned (NumberDouble quietNaN, l, cur)
  else keyStringAssert 50819 ((type =? kDecimal) && bool_decide (ver = V1)) ≫= λ _, decimal ctype inverted 0 l cur.

Definition decodeZero (ctype : Z) (inverted : bool) (l : Bytes) (cur : nat) : Result Out :=
  '(zeroType, cur) ← readZero tb cur;
  if zeroType =? kDouble then Returned (NumberDouble 0, l, cur)
  else if zeroType =? kInt then Returned (NumberInt 0, l, cur)
  else if zeroType =? kLong then Returned (NumberLong 0, l, cur)
  else if zeroType =? kNegativeDoubleZero then Returned (NumberDouble (2 ^ 63), l, cur)
  else decimal ctype inverted zeroType l cur.

Definition decodeLarge (ctype : Z) (isNegative inverted : bool) (l : Bytes) (cur : nat) : Result Out :=
  '(originalType, cur) ← readNumeric tb cur;
  keyStringAssert 31231 (bool_decide (ver = V1) || negb (originalType =? kDecimal)) ≫= λ _,
  '(encoded, l) ← readWord inverted 8 l;
  let finish bin :=
    if originalType =? kDouble then Returned (NumberDouble bin, l, cur)
    else if originalType =? kLong then
      keyStringAssert 50821 (Double.eqb bin (Double.ofInteger (- 2 ^ 63))) ≫= λ _,
      Returned (NumberLong (- 2 ^ 63), l, cur)
    else
      keyStringAssert 50826 ((originalType =? kDecimal) && bool_decide (ver ≠ V0)) ≫= λ _,
      decimal ctype inverted encoded l cur in
  match ver with
  | V0 => finish encoded
  | V1 =>
      if negb (Z.testbit encoded 63) then
        let bin := Z.lor (Z.shiftr encoded 1) (2 ^ 62) in
        finish (if isNegative then Double.neg bin else bin)
      else if encoded =? 2 ^ 64 - 1 then finish (Double.withSign isNegative Double.infinityBits)
      else keyStringAssert 50818 (originalType =? kDecimal) ≫= λ _, decimal ctype inverted encoded l cur
  end.

Definition decodeSmall (ctype : Z) (isNegative inverted : bool) (l : Bytes) (cur : nat) : Result Out :=
  '(originalType, cur) ← readNumeric tb cur;
  '(encoded, l) ← readWord inverted 8 l;
  match ver with
  | V0 =>
      keyStringAssert 50812 (originalType =? kDouble) ≫= λ _, Returned (NumberDouble encoded, l, cur)
  | V1 =>
      let prefix := Z.shiftr encoded 62 in
      if prefix =? 0 then decimal ctype inverted encoded l cur
      else if (prefix =? 1) || (prefix =? 2) then
        let hasDecimalContinuation := Z.land encoded 1 =? 1 in
        let scaledBin := Z.shiftr (encoded - 2 ^ 62) 1 in
        if originalType =? kDouble then
          keyStringAssert 50822 (negb hasDecimalContinuation) ≫= λ _,
          let bin := Double.scale scaledBin (- kTinyDoubleExponentShift) in
          Returned (NumberDouble (if isNegative then Double.neg bin else bin), l, cur)
        else
          keyStringAssert 50823 ((originalType =? kDecimal) && hasDecimalContinuation) ≫= λ _,
          decimal ctype inverted encoded l cur
      else
        let dcm := Z.land encoded 3 in
        let bin := Z.shiftr encoded 2 in
        if originalType =? kDouble then
          keyStringAssert 50824 (dcm =? kDCMEqualToDouble) ≫= λ _,
          Returned (NumberDouble (if isNegative then Double.neg bin else bin), l, cur)
        else keyStringAssert 50825 (originalType =? kDecimal) ≫= λ _, decimal ctype inverted encoded l cur
  end.

(** The fractional bytes are folded in from the highest. *)
Fixpoint readFraction (inverted : bool) (n : nat) (doubleBits : Z) (l : Bytes) : Result (Z * Bytes) :=
  match n with
  | O => Returned (doubleBits, l)
  | S n =>
      '(byte, l) ← readByte inverted l;
      readFraction inverted n (Z.lor doubleBits (Z.shiftl byte (Z.of_nat n * 8))) l
  end.

(** The fractions of the first version. *)
Definition decodeFractionV0 (isNegative inverted : bool) (originalType integerPart : Z) (l : Bytes) (cur : nat) : Result Out :=
  keyStringAssert 50832 (originalType =? kDouble) ≫= λ _,
  keyStringAssert 31209 (integerPart <? kMaxIntForDouble) ≫= λ _,
  let exponent := 64 - countLeadingZeros64 integerPart - 1 in
  let fractionalBits := 52 - exponent in
  let fractionalBytes := (fractionalBits + 7) / 8 in
  let doubleBits := Z.ldiff (Z.shiftl integerPart fractionalBits) (2 ^ 52) in
  let doubleBits := Z.lor doubleBits (Z.shiftl (exponent + 1023) 52) in
  let doubleBits := if isNegative then Z.lor doubleBits (2 ^ 63) else doubleBits in
  '(doubleBits, l) ← readFraction inverted (Z.to_nat fractionalBytes) doubleBits l;
  Returned (NumberDouble doubleBits, l, cur).

Definition decodeFractionV1 (ctype : Z) (isNegative inverted : bool) (originalType integerPart : Z) (l : Bytes) (cur : nat)
    : Result Out :=
  let fracBytes := 8 - CType.numBytesForInt ctype in
  '(encodedFraction, l) ← readExtraBytes inverted (Z.to_nat fracBytes) integerPart l;
  let bin := Double.scale (Double.ofInteger (Z.ldiff encodedFraction 3)) (- (8 * fracBytes)) in
  if originalType =? kDouble then Returned (NumberDouble (if isNegative then Double.neg bin else bin), l, cur)
  else keyStringAssert 50810 (originalType =? kDecimal) ≫= λ _, decimal ctype inverted encodedFraction l cur.

Definition decodeInt (ctype : Z) (isNegative inverted : bool) (l : Bytes) (cur : nat) : Result Out :=
  '(originalType, cur) ← readNumeric tb cur;
  '(encodedIntegerPart, l) ← readExtraBytes inverted (Z.to_nat (CType.numBytesForInt ctype)) 0 l;
  let haveFractionalPart := Z.land encodedIntegerPart 1 =? 1 in
  let integerPart := Z.shiftr encodedIntegerPart 1 in
  if negb haveFractionalPart then
    let integerPart := if isNegative then - integerPart else integerPart in
    if originalType =? kDouble then Returned (NumberDouble (Double.ofInteger integerPart), l, cur)
    else if originalType =? kInt then Returned (NumberInt ((integerPart + 2 ^ 31) mod 2 ^ 32 - 2 ^ 31), l, cur)
    else if originalType =? kLong then Returned (NumberLong integerPart, l, cur)
    else if originalType =? kDecimal then decimal ctype inverted integerPart l cur
    else Thrown 50831
  else
    match ver with
    | V0 => decodeFractionV0 isNegative inverted originalType integerPart l cur
    | V1 => decodeFractionV1 ctype isNegative inverted originalType integerPart l cur
    end.

(** The numeric types, with the inversion of negative numbers; the rest is [other]. *)
Definition decodeNumeric (ctype : Z) (inverted : bool) (l : Bytes) (cur : nat) (other : Result Out) : Result Out :=
  if ctype =? CType.kNumericNaN then decodeNaN ctype inverted l cur
  else if ctype =? CType.kNumericZero then decodeZero ctype inverted l cur
  else if ctype =? CType.kNumericNegativeLargeMagnitude then decodeLarge ctype true (negb inverted) l cur
  else if ctype =? CType.kNumericPositiveLargeMagnitude then decodeLarge ctype false inverted l cur
  else if ctype =? CType.kNumericNegativeSmallMagnitude then decodeSmall ctype true (negb inverted) l cur
  else if ctype =? CType.kNumericPositiveSmallMagnitude then decodeSmall ctype false inverted l cur
  else if (CType.kNumericNegative8ByteInt <=? ctype) && (ctype <=? CType.kNumericNegative1ByteInt) then
    decodeInt ctype true (negb inverted) l cur
  else if (CType.kNumericPositive1ByteInt <=? ctype) && (ctype <=? CType.kNumericPositive8ByteInt) then
    decodeInt ctype false inverted l cur
  else other.

(** ** Values *)

Context (maxDepth : nat).

(** [toBsonValue], [toBson] and the loop over an array's elements; the first byte of a value has
    been read.  [fuel] bounds the calls within each other. *)
Fixpoint toBsonValue (fuel : nat) (ctype : Z) (inverted : bool) (depth : nat) (l : Bytes) (cur : nat) : Result Out :=
  match fuel with
  | O => Terminated
  | S fuel =>
      keyStringAssert Overflow (depth <=? maxDepth)%nat ≫= λ _,
      if ctype =? CType.kMinKey then Returned (MinKey, l, cur)
      else if ctype =? CType.kMaxKey then Returned (MaxKey, l, cur)
      else if ctype =? CType.kNullish then Returned (JstNULL, l, cur)
      else if ctype =? CType.kUndefined then Returned (Undefined, l, cur)
      else if ctype =? CType.kBoolTrue then Returned (Bool true, l, cur)
      else if ctype =? CType.kBoolFalse then Returned (Bool false, l, cur)
      else if ctype =? CType.kDate then
        '(w, l) ← readWord inverted 8 l; Returned (Date (toSigned64 (Z.lxor w (2 ^ 63))), l, cur)
      else if ctype =? CType.kTimestamp then
        '(w, l) ← readWord inverted 8 l; Returned (BsonTimestamp (Timestamp.ofULL w), l, cur)
      else if ctype =? CType.kOID then
        '(oid, l) ← readBytes inverted 12 l; Returned (OID oid, l, cur)
      else if ctype =? CType.kStringLike then
        '(originalType, cur) ← readStringLike tb cur;
        keyStringAssert (if inverted then 50827 else 50828)
          ((originalType =? kString) || (originalType =? kSymbol)) ≫= λ _,
        '(s, l) ← readCStringWithNuls inverted l;
        Returned (if originalType =? kString then BsonString s else Symbol s, l, cur)
      else if ctype =? CType.kCode then
        '(s, l) ← readCStringWithNuls inverted l; Returned (Code s, l, cur)
      else if ctype =? CType.kCodeWithScope then
        '(s, l) ← readCStringWithNuls inverted l;
        '(scope, l, cur) ← toBson fuel inverted (depth + 2) l cur;
        Returned (CodeWScope s scope, l, cur)
      else if ctype =? CType.kBinData then
        '(size, l) ← readByte inverted l;
        '(size, l) ← (if size =? 255 then readWord inverted 4 l else Returned (size, l));
        '(subType, l) ← readByte inverted l;
        '(data, l) ← readBytes inverted (Z.to_nat size) l;
        Returned (BinData data subType, l, cur)
      else if ctype =? CType.kRegEx then
        '(pattern, l) ← readCString inverted l;
        '(flags, l) ← readCString inverted l;
        Returned (RegEx pattern flags, l, cur)
      else if ctype =? CType.kDBRef then
        '(size, l) ← readWord inverted 4 l;
        '(ns, l) ← readBytes inverted (Z.to_nat size) l;
        '(oid, l) ← readBytes inverted 12 l;
        Returned (DBRef ns oid, l, cur)
      else if ctype =? CType.kObject then
        '(fields, l, cur) ← toBson fuel inverted (depth + 1) l cur; Returned (Object fields, l, cur)
      else if ctype =? CType.kArray then
        '(elems, l, cur) ← toArray fuel inverted (depth + 1) l cur; Returned (Array (arrayFields elems), l, cur)
      else decodeNumeric ctype inverted l cur (Thrown 50811)
  end
with toBson (fuel : nat) (inverted : bool) (depth : nat) (l : Bytes) (cur : nat) : Result (BSONObj * Bytes * nat) :=
  match fuel with
  | O => Terminated
  | S fuel =>
      '(generic, l) ← readByte inverted l;
      if generic =? 0 then Returned ([], l, cur)
      else
        '(name, l) ← readCString inverted l;
        '(ctype, l) ← readByte inverted l;
        '(v, l, cur) ← toBsonValue fuel ctype inverted depth l cur;
        '(fields, l, cur) ← toBson fuel inverted depth l cur;
        Returned ((name, v) :: fields, l, cur)
  end
with toArray (fuel : nat) (inverted : bool) (depth : nat) (l : Bytes) (cur : nat) : Result (list Value * Bytes * nat) :=
  match fuel with
  | O => Terminated
  | S fuel =>
      '(elemType, l) ← readByte inverted l;
      if elemType =? 0 then Returned ([], l, cur)
      else
        '(v, l, cur) ← toBsonValue fuel elemType inverted depth l cur;
        '(elems, l, cur) ← toArray fuel inverted depth l cur;
        Returned (v :: elems, l, cur)
  end.

(** The fields of [toBsonSafe], from the [i]-th on; they have no names. *)
Fixpoint toBsonFields (fuel : nat) (ord : Z) (i : nat) (l : Bytes) (cur : nat) : Result BSONObj :=
  match fuel with
  | O => Terminated
  | S fuel =>
      match l with
      | [] => Returned []
      | _ =>
          let invert := get ord i =? -1 in
          '(ctype, l) ← readByte invert l;
          '(ctype, l) ← (if (ctype =? kLess) || (ctype =? kGreater) then readByte invert l else Returned (ctype, l));
          if ctype =? kEnd then Returned []
          else
            '(v, l, cur) ← toBsonValue (2 * S (length l)) ctype invert 1 l cur;
            fields ← toBsonFields fuel ord (S i) l cur;
            Returned (([], v) :: fields)
      end
  end.

Definition toBsonSafe (buffer : Bytes) (ord : Z) : Result BSONObj :=
  toBsonFields (S (length buffer)) ord 0 buffer 0.
End Values.

(** ** Serialized keys

    The size of the key, in little endian order, the key and its type bits. *)

Definition serialize (v : KeyValue) : Bytes := rev (bigEndian 4 (Z.of_nat (_ksSize v))) ++ _keyBuffer v.

Definition serializeWithoutRecordId (v : KeyValue) : Result Bytes :=
  size ← sizeWithoutRecordIdAtEnd (keyBytes v);
  Returned (rev (bigEndian 4 (Z.of_nat size)) ++ take size (_keyBuffer v) ++ drop (_ksSize v) (_keyBuffer v)).

(** With what is left of the buffer. *)
Definition deserialize (ver : Version) (buf : Bytes) : Result (KeyValue * Bytes) :=
  '(size, buf) ← readBytes false 4 buf;
  '(key, buf) ← readBytes false (Z.to_nat (ofBigEndian 0 (rev size))) buf;
  '(typeBits, buf) ← fromBuffer ver buf;
  Returned (mkKeyValue ver (length key) (key ++ (if _isAllZeros typeBits then [0] else getBuffer typeBits)), buf).

(** ** Reading without type bits

    Where a key ends and which discriminator it has; and keys for queries read back with their
    discriminators. *)

(** [BufReader::skip]. *)
Definition skip (n : Z) (l : Bytes) : Result Bytes :=
  if Z.of_nat (length l) <? n then Thrown Overflow else Returned (drop (Z.to_nat n) l).

Section Skip.
Context (ver : Version).

(** *** Numbers *)

Definition skipLarge (inverted : bool) (l : Bytes) : Result Bytes :=
  '(encoded, l) ← readWord inverted 8 l;
  if bool_decide (ver = V0) || (encoded =? 2 ^ 64 - 1) then Returned l
  else if negb (Z.testbit encoded 63) then
    if Z.land encoded 1 =? 1 then skip 8 l else Returned l
  else '(_, l) ← readWord inverted 8 l; Returned l.

Definition skipSmall (inverted : bool) (l : Bytes) : Result Bytes :=
  '(encoded, l) ← readWord inverted 8 l;
  match ver with
  | V0 => Returned l
  | V1 =>
      let prefix := Z.shiftr encoded 62 in
      if prefix =? 0 then '(_, l) ← readWord inverted 8 l; Returned l
      else if (prefix =? 1) || (prefix =? 2) then
        if Z.land encoded 1 =? 1 then skip 8 l else Returned l
      else
        let dcm := Z.land encoded 3 in
        if (dcm =? kDCMEqualToDoubleRoundedUpTo15Digits) || (dcm =? kDCMEqualToDouble) then Returned l else skip 8 l
  end.

(** The counts are of unsigned words of 64 bits; the third of the markers that are no double's is the last. *)
Definition skipInt (ctype : Z) (inverted : bool) (l : Bytes) : Result Bytes :=
  '(encodedIntegerPart, l) ← readExtraBytes inverted (Z.to_nat (CType.numBytesForInt ctype)) 0 l;
  let haveFractionalPart := Z.land encodedIntegerPart 1 =? 1 in
  let integerPart := Z.shiftr encodedIntegerPart 1 in
  if negb haveFractionalPart then Returned l
  else
    match ver with
    | V0 =>
        let exponent := 64 - countLeadingZeros64 integerPart - 1 in
        let fractionalBits := (52 - exponent) mod 2 ^ 64 in
        let fractionalBytes := (fractionalBits + 7) mod 2 ^ 64 / 8 in
        skip fractionalBytes l
    | V1 =>
        let fracBytes := 8 - CType.numBytesForInt ctype in
        '(encodedFraction, l) ← readExtraBytes inverted (Z.to_nat fracBytes) integerPart l;
        let dcm := if fracBytes =? 0 then 3 else Z.land encodedFraction 3 in
        if (dcm =? kDCMEqualToDoubleRoundedUpTo15Digits) || (dcm =? kDCMEqualToDouble) then Returned l else skip 8 l
    end.

Definition skipNumeric (ctype : Z) (inverted : bool) (l : Bytes) : Result Bytes :=
  if ctype =? CType.kNumericNaN then Returned l
  else if ctype =? CType.kNumericZero then Returned l
  else if ctype =? CType.kNumericNegativeLargeMagnitude then skipLarge (negb inverted) l
  else if ctype =? CType.kNumericPositiveLargeMagnitude then skipLarge inverted l
  else if ctype =? CType.kNumericNegativeSmallMagnitude then skipSmall (negb inverted) l
  else if ctype =? CType.kNumericPositiveSmallMagnitude then skipSmall inverted l
  else if (CType.kNumericNegative8ByteInt <=? ctype) && (ctype <=? CType.kNumericNegative1ByteInt) then skipInt ctype (negb inverted) l
  else if (CType.kNumericPositive1ByteInt <=? ctype) && (ctype <=? CType.kNumericPositive8ByteInt) then skipInt ctype inverted l
  else Terminated.

(** *** Values *)

(** [filterKeyFromKeyString], [readBson] and the loop over an array's elements; another first byte
    is MONGO_UNREACHABLE. *)
Fixpoint filterKeyFromKeyString (fuel : nat) (ctype : Z) (inverted : bool) (l : Bytes) : Result Bytes :=
  match fuel with
  | O => Terminated
  | S fuel =>
      if (ctype =? CType.kMinKey) || (ctype =? CType.kMaxKey) || (ctype =? CType.kNullish) || (ctype =? CType.kUndefined)
         || (ctype =? CType.kBoolTrue) || (ctype =? CType.kBoolFalse) then Returned l
      else if (ctype =? CType.kDate) || (ctype =? CType.kTimestamp) then skip 8 l
      else if ctype =? CType.kOID then skip 12 l
      else if (ctype =? CType.kStringLike) || (ctype =? CType.kCode) then
        '(_, l) ← readCStringWithNuls inverted l; Returned l
      else if ctype =? CType.kCodeWithScope then
        '(_, l) ← readCStringWithNuls inverted l; readBson fuel inverted l
      else if ctype =? CType.kBinData then
        '(size, l) ← readByte inverted l;
        '(size, l) ← (if size =? 255 then readWord inverted 4 l else Returned (size, l));
        '(_, l) ← readByte inverted l;
        skip size l
      else if ctype =? CType.kRegEx then
        '(_, l) ← readCString inverted l;
        '(_, l) ← readCString inverted l;
        Returned l
      else if ctype =? CType.kDBRef then
        '(size, l) ← readWord inverted 4 l;
        l ← skip size l;
        skip 12 l
      else if ctype =? CType.kObject then readBson fuel inverted l
      else if ctype =? CType.kArray then filterArray fuel inverted l
      else skipNumeric ctype inverted l
  end
with readBson (fuel : nat) (inverted : bool) (l : Bytes) : Result Bytes :=
  match fuel with
  | O => Terminated
  | S fuel =>
      '(generic, l) ← readByte inverted l;
      if generic =? 0 then Returned l
      else
        '(_, l) ← readCString inverted l;
        '(ctype, l) ← readByte inverted l;
        l ← filterKeyFromKeyString fuel ctype inverted l;
        readBson fuel inverted l
  end
with filterArray (fuel : nat) (inverted : bool) (l : Bytes) : Result Bytes :=
  match fuel with
  | O => Terminated
  | S fuel =>
      '(elemType, l) ← readByte inverted l;
      if elemType =? 0 then Returned l
      else
        l ← filterKeyFromKeyString fuel elemType inverted l;
        filterArray fuel inverted l
  end.

(** *** Keys *)

(** The loop of [getKeySize]: the number of bytes from the end of the key on. *)
Fixpoint keySizeLoop (fuel : nat) (ord : Z) (i : nat) (l : Bytes) : Result Z :=
  match fuel with
  | O => Terminated
  | S fuel =>
      match l with
      | [] => Returned 0
      | _ =>
          let invert := get ord i =? -1 in
          '(ctype, l') ← readByte invert l;
          if ctype =? kEnd then Returned (Z.of_nat (length l))
          else
            l' ← filterKeyFromKeyString (2 * S (length l')) ctype invert l';
            keySizeLoop fuel ord (S i) l'
      end
  end.

Definition getKeySize (buffer : Bytes) (ord : Z) : Result Z :=
  let len := Z.of_nat (length buffer) in
  ensures (0 <? len) ≫= λ _,
  remainingBytes ← keySizeLoop (S (length buffer)) ord 0 buffer;
  ensures (remainingBytes <? len) ≫= λ _,
  Returned ((len - (remainingBytes - 1) mod 2 ^ 32) mod 2 ^ 64).

Fixpoint discriminatorLoop (fuel : nat) (ord : Z) (i : nat) (l : Bytes) : Result Discriminator :=
  match fuel with
  | O => Terminated
  | S fuel =>
      match l with
      | [] => Returned kInclusive
      | _ =>
          let invert := get ord i =? -1 in
          '(ctype, l) ← readByte invert l;
          if (ctype =? kLess) || (ctype =? kGreater) then
            let ctype := if invert then flipByte ctype else ctype in
            Returned (if ctype =? kLess then kExclusiveBefore else kExclusiveAfter)
          else if ctype =? kEnd then Returned kInclusive
          else
            l ← filterKeyFromKeyString (2 * S (length l)) ctype invert l;
            discriminatorLoop fuel ord (S i) l
      end
  end.

Definition decodeDiscriminator (buffer : Bytes) (ord : Z) : Result Discriminator :=
  discriminatorLoop (S (length buffer)) ord 0 buffer.
End Skip.

(** ** Fields with discriminators *)

Section WithDiscriminator.
Context (tb : TypeBits) (ver : Version) (decimal : Z → bool → Z → Bytes → nat → Result Out) (maxDepth : nat).

(** One pass of [toBsonSafeWithDiscriminator]: the fields, the discriminator's name and the number of
    the field before it. *)
Fixpoint discriminatorPass (fuel : nat) (ord : Z) (nameOf : Z → Bytes) (i : nat) (l : Bytes) (cur : nat)
    : Result (BSONObj * option (Bytes * Z)) :=
  match fuel with
  | O => Terminated
  | S fuel =>
      match l with
      | [] => Returned ([], None)
      | _ =>
          let invert := get ord i =? -1 in
          '(ctype, l) ← readByte invert l;
          if (ctype =? kLess) || (ctype =? kGreater) then
            let ctype := if invert then flipByte ctype else ctype in
            '(last, _) ← readByte false l;
            ensures (last =? kEnd) ≫= λ _,
            Returned ([], Some (if ctype =? kLess then [108] else [103], Z.of_nat i - 1))
          else if ctype =? kEnd then Returned ([], None)
          else
            '(v, l, cur) ← toBsonValue tb ver decimal maxDepth (2 * S (length l)) ctype invert 1 l cur;
            '(fields, d) ← discriminatorPass fuel ord nameOf (S i) l cur;
            Returned ((nameOf (Z.of_nat i), v) :: fields, d)
      end
  end.

Definition toBsonSafeWithDiscriminator (buffer : Bytes) (ord : Z) : Result BSONObj :=
  '(fields, found) ← discriminatorPass (S (length buffer)) ord (λ _, []) 0 buffer 0;
  match found with
  | None => Returned fields
  | Some (discriminatorFieldName, fieldNo) =>
      '(fields, _) ← discriminatorPass (S (length buffer)) ord
        (λ i, if i =? fieldNo then discriminatorFieldName else []) 0 buffer 0;
      Returned fields
  end.
End WithDiscriminator.
