(* ===== verification/KeyStringReading.v ===== *)
(** Reading back what the builder wrote: type bits and bytes. *)
From S2P Require Import Prelude OpTimes KeyBytes BsonValue DoubleFacts KeyString KeyStringNumbers KeyStringEncoding KeyStringDecode KeyStringKeys.

(** Quotients of natural numbers. *)
Lemma byte_count n :
  ((n + 1 + 7) / 8 = S (n / 8) ∧ (n mod 8 = 0 → (n + 7) / 8 = n / 8) ∧ (n mod 8 ≠ 0 → (n + 7) / 8 = S (n / 8)) ∧
   (∀ k, k < n → k / 8 < (n + 7) / 8))%nat.
Proof.
  pose proof (Nat.div_mod_eq n 8). pose proof (Nat.mod_upper_bound n 8 ltac:(lia)).
  assert (Hq : ∀ k q, (8 * q <= k < 8 * q + 8 → k / 8 = q)%nat).
  { intros k q Hk. symmetry. apply (Nat.div_unique k 8 q (k - 8 * q)); lia. }
  split_and!; intros; [apply Hq; lia..|]. pose proof (Nat.div_mod_eq k 8).
  pose proof (Nat.mod_upper_bound k 8 ltac:(lia)). pose proof (Nat.div_mod_eq (n + 7) 8).
  pose proof (Nat.mod_upper_bound (n + 7) 8 ltac:(lia)). lia.
Qed.

(** ** Type bits *)

(** A list of bits, packed from the low bits of each byte. *)
Definition Packed (tb : TypeBits) (bits : list Z) : Prop :=
  _curBit tb = length bits ∧ _isAllZeros tb = forallb (λ x, x =? 0) bits ∧
  length (dataBuffer tb) = ((length bits + 7) / 8)%nat ∧
  (∀ j i, (i < 8)%nat → Z.testbit (nth j (dataBuffer tb) 0) (Z.of_nat i) = (nth (8 * j + i) bits 0 =? 1)) ∧
  ∀ j, 0 <= nth j (dataBuffer tb) 0 < 256.

Lemma Packed_new v : Packed (newTypeBits v) [].
Proof.
  split_and!; try done; intros j.
  - intros i Hi. destruct (8 * j + i)%nat, j; apply Z.bits_0.
  - by destruct j.
Qed.

Lemma testbit_bit x i : x = 0 ∨ x = 1 → Z.testbit x (Z.of_nat i) = (i =? 0)%nat && (x =? 1).
Proof.
  intros [-> | ->]; [rewrite Z.bits_0; by rewrite andb_false_r|]. destruct i as [|i]; [done|].
  rewrite andb_true_r. apply (Z.bits_above_log2 1); simpl; lia.
Qed.

Lemma nth_snoc (l : list Z) x k : nth k (l ++ [x]) 0 = if (k =? length l)%nat then x else nth k l 0.
Proof.
  destruct (Nat.eqb_spec k (length l)) as [->|Hk].
  - rewrite app_nth2 by lia. by rewrite Nat.sub_diag.
  - destruct (Nat.lt_ge_cases k (length l)); [by rewrite app_nth1|].
    rewrite !nth_overflow; rewrite ?length_app; simpl; lia || done.
Qed.

Lemma nth_alter (f : Z → Z) (l : list Z) k j :
  (k < length l)%nat → nth j (alter f k l) 0 = if (j =? k)%nat then f (nth j l 0) else nth j l 0.
Proof.
  intros Hk. rewrite !nth_lookup. destruct (Nat.eqb_spec j k) as [->|Hj].
  - rewrite list_lookup_alter_eq. destruct (lookup_lt_is_Some_2 l k Hk) as [x ->]. done.
  - by rewrite list_lookup_alter_ne.
Qed.

Lemma byte_bits d : (∀ i, (8 <= i)%nat → Z.testbit d (Z.of_nat i) = false) → 0 <= d → d < 256.
Proof.
  intros Hb Hd. destruct (Z.lt_ge_cases d 256) as [|Hge]; [done|]. exfalso.
  assert (Hl : 8 <= Z.log2 d) by (by apply (Z.log2_le_pow2 d 8); lia).
  pose proof (Z.bit_log2 d ltac:(lia)) as Ht. specialize (Hb (Z.to_nat (Z.log2 d)) ltac:(lia)).
  rewrite Z2Nat.id in Hb by lia. by rewrite Ht in Hb.
Qed.

Lemma appendBit_packed x tb bits : x = 0 ∨ x = 1 → Packed tb bits → Packed (appendBit x tb) (bits ++ [x]).
Proof.
  intros Hx (Hc & Hz & Hl & Hb & Hr). unfold appendBit, Packed. cbv zeta. rewrite Hc, length_app. change (length [x]) with 1%nat.
  set (n := length bits) in *. set (data := dataBuffer tb) in *.
  assert (Hdm : n = (8 * (n / 8) + n mod 8)%nat) by apply Nat.div_mod_eq.
  pose proof (Nat.mod_upper_bound n 8 ltac:(lia)) as Hm.
  assert (Hz' : _isAllZeros tb && negb (x =? 1) = forallb (λ x, x =? 0) (bits ++ [x])).
  { rewrite forallb_app, Hz. f_equal. by destruct Hx as [-> | ->]. }
  destruct (byte_count n) as (Hn1 & Hn2 & Hn3 & _).
  destruct (Z.eqb_spec (Z.of_nat (n mod 8)) 0) as [H0|H0]; cbn [_curBit _isAllZeros dataBuffer];
    (split; [lia|]; split; [exact Hz'|]; split; [|split]).
  - rewrite length_app, length_take. change (length [x]) with 1%nat. rewrite Hl, Hn2, Hn1 by lia. lia.
  - assert (Hlen : length data = (n / 8)%nat) by (rewrite Hl; apply Hn2; lia).
    rewrite take_ge by lia. intros j i Hi. rewrite nth_snoc, Hlen, (nth_snoc bits). fold n.
    destruct (Nat.eqb_spec j (n / 8)) as [->|Hj].
    + rewrite testbit_bit by done. destruct (Nat.eqb_spec i 0), (Nat.eqb_spec (8 * (n / 8) + i) n); try lia.
      rewrite nth_overflow by (fold n; lia). done.
    + destruct (Nat.eqb_spec (8 * j + i) n); [lia|]. by apply Hb.
  - assert (Hlen : length data = (n / 8)%nat) by (rewrite Hl; apply Hn2; lia).
    rewrite take_ge by lia. intros j. rewrite nth_snoc. destruct (j =? length data)%nat; [lia|apply Hr].
  - rewrite length_alter, Hl, Hn1, Hn3 by lia. done.
  - assert (Hlen : (n / 8 < length data)%nat) by (rewrite Hl, Hn3; lia).
    intros j i Hi. rewrite nth_alter, (nth_snoc bits) by done. fold n. destruct (Nat.eqb_spec j (n / 8)) as [->|Hj].
    + rewrite Z.lor_spec, Hb, Z.shiftl_spec by lia.
      destruct (Nat.eqb_spec (8 * (n / 8) + i) n) as [He|He].
      * rewrite nth_overflow by (fold n; lia). replace (Z.of_nat i - Z.of_nat (n mod 8)) with (Z.of_nat 0) by lia.
        by rewrite testbit_bit.
      * destruct (Z.lt_ge_cases (Z.of_nat i - Z.of_nat (n mod 8)) 0); [by rewrite (Z.testbit_neg_r x), orb_false_r|].
        replace (Z.of_nat i - Z.of_nat (n mod 8)) with (Z.of_nat (i - n mod 8)) by lia. rewrite testbit_bit by done.
        destruct (Nat.eqb_spec (i - n mod 8) 0); [lia|]. by rewrite orb_false_r.
    + destruct (Nat.eqb_spec (8 * j + i) n); [lia|]. by apply Hb.
  - assert (Hlen : (n / 8 < length data)%nat) by (rewrite Hl, Hn3; lia).
    intros j. rewrite nth_alter by done. destruct (j =? n / 8)%nat; [|apply Hr]. pose proof (Hr j) as Hrj.
    assert (0 <= Z.shiftl x (Z.of_nat (n mod 8))) by (rewrite Z.shiftl_nonneg; lia).
    split; [apply Z.lor_nonneg; lia|]. apply byte_bits; [|apply Z.lor_nonneg; lia]. intros i Hi.
    rewrite Z.lor_spec, Z.shiftl_spec by lia.
    rewrite <- (Z.mod_small (nth j data 0) (2 ^ 8)) by lia. rewrite Z.mod_pow2_bits_high by lia.
    replace (Z.of_nat i - Z.of_nat (n mod 8)) with (Z.of_nat (i - n mod 8)) by lia. rewrite testbit_bit by done.
    by destruct (Nat.eqb_spec (i - n mod 8) 0); [lia|].
Qed.

Lemma appendBits_packed l tb bits : Forall (λ x, x = 0 ∨ x = 1) l → Packed tb bits → Packed (appendBits l tb) (bits ++ l).
Proof.
  intros Hl. revert tb bits. induction Hl as [|x l Hx _ IH]; intros tb bits Hp; [by rewrite app_nil_r|].
  replace (bits ++ x :: l) with ((bits ++ [x]) ++ l) by (by rewrite <- app_assoc).
  apply (IH (appendBit x tb)). by apply appendBit_packed.
Qed.

(** The reader gives the bits one after the other. *)
Fixpoint Supplies (tb : TypeBits) (cur : nat) (bits : list Z) : Prop :=
  match bits with
  | [] => True
  | x :: bits => ∃ cur', readBit tb cur = Returned (x, cur') ∧ Supplies tb cur' bits
  end.

Lemma Supplies_packed tb tb' bits :
  Packed tb bits → Forall (λ x, x = 0 ∨ x = 1) bits → _isAllZeros tb' = false → dataBuffer tb' = dataBuffer tb →
  ∀ cur, Supplies tb' cur (drop cur bits).
Proof.
  intros (_ & _ & Hl & Hb & _) Hx Hz Hd cur.
  remember (drop cur bits) as rest eqn:Hrest. revert cur Hrest. induction rest as [|x rest IH]; intros cur Hrest; [done|].
  assert (Hcur : (cur < length bits)%nat).
  { destruct (Nat.lt_ge_cases cur (length bits)) as [|H]; [done|]. by rewrite drop_ge in Hrest. }
  assert (Hnth : nth cur bits 0 = x).
  { rewrite nth_lookup, <- (Nat.add_0_r cur), <- lookup_drop, <- Hrest. done. }
  exists (S cur). split.
  - unfold readBit. rewrite Hz, Hd. pose proof (Nat.div_mod_eq cur 8). pose proof (Nat.mod_upper_bound cur 8 ltac:(lia)).
    rewrite Hb by lia. replace (8 * (cur / 8) + cur mod 8)%nat with cur by lia. rewrite Hnth.
    assert (Hlt : (cur / 8 <? length (dataBuffer tb))%nat = true).
    { apply Nat.ltb_lt. rewrite Hl. by apply byte_count. }
    rewrite Hlt. cbn [keyStringAssert mbind Result_bind].
    rewrite Forall_forall in Hx. assert (x = 0 ∨ x = 1) as [-> | ->]; [|done..].
    apply Hx. rewrite <- (take_drop cur bits), <- Hrest. apply elem_of_app. right. apply list_elem_of_here.
  - apply IH. rewrite <- Nat.add_1_r, <- drop_drop, <- Hrest. done.
Qed.

Lemma Supplies_zeros tb bits cur : _isAllZeros tb = true → forallb (λ x, x =? 0) bits = true → Supplies tb cur bits.
Proof.
  intros Hz. induction bits as [|x bits IH]; simpl; [done|]. rewrite andb_true_iff. intros [->%Z.eqb_eq Hb].
  exists cur. split; [|by apply IH]. unfold readBit. by rewrite Hz.
Qed.

Lemma some_bit bits : forallb (λ x, x =? 0) bits = false → ∃ k, (k < length bits)%nat ∧ nth k bits 0 ≠ 0.
Proof.
  induction bits as [|x bits IH]; simpl; [done|]. rewrite andb_false_iff. intros [Hx%Z.eqb_neq|Hb].
  - exists 0%nat. split; [lia|done].
  - destruct (IH Hb) as (k & Hk & Hn). exists (S k). split; [lia|done].
Qed.

(** The size byte or bytes are read back. *)
Lemma readSize_spec n data :
  (1 <= n)%nat → Z.of_nat n < 2 ^ 32 → readSizeFromBuffer (sizeBytes n ++ data) = Returned (n, data).
Proof.
  intros Hn Hm. unfold sizeBytes, kMaxBytesForShortEncoding. destruct (Nat.ltb_spec 127 n) as [Hl|Hl].
  - cbn [app readSizeFromBuffer]. change ((0 <? 128) && (128 <? 128)) with false. change (128 <? 128) with false.
    change (128 =? 128) with true. cbv iota.
    assert (Hlen : length (rev (bigEndian 4 (Z.of_nat n))) = 4%nat) by (by rewrite length_rev, bigEndian_length).
    destruct (Nat.ltb_spec (length (rev (bigEndian 4 (Z.of_nat n)) ++ data)) 4) as [H|_]; [rewrite length_app in H; lia|].
    rewrite <- Hlen, take_app_length, drop_app_length, rev_involutive.
    rewrite (ofBigEndian_word 4) by (change (256 ^ Z.of_nat 4) with (2 ^ 32); lia). cbv zeta.
    rewrite Z.mul_0_l, Z.add_0_l. destruct (Z.ltb_spec (Z.of_nat kMaxBytesForShortEncoding) (Z.of_nat n)); [|unfold kMaxBytesForShortEncoding in *; lia].
    cbn [keyStringAssert mbind Result_bind]. by rewrite Nat2Z.id.
  - assert (He : Z.lor 128 (Z.of_nat n) = 128 + Z.of_nat n).
    { change 128 with (Z.shiftl 1 7). rewrite lor_add by (change (2 ^ 7) with 128; lia). done. }
    rewrite He. cbn [app readSizeFromBuffer].
    destruct (Z.ltb_spec 0 (128 + Z.of_nat n)), (Z.ltb_spec (128 + Z.of_nat n) 128), (Z.ltb_spec 128 (128 + Z.of_nat n)); try lia.
    cbn [andb]. do 2 f_equal. change 127 with (Z.ones 7). rewrite Z.land_ones by lia. change (2 ^ 7) with 128.
    replace (128 + Z.of_nat n) with (Z.of_nat n + 1 * 128) by lia. rewrite Z.mod_add, Z.mod_small by lia. apply Nat2Z.id.
Qed.

(** Only the data, and whether there are ones in it, decide the buffer. *)
Lemma getBuffer_data tb tb' : _isAllZeros tb = _isAllZeros tb' → dataBuffer tb = dataBuffer tb' → getBuffer tb = getBuffer tb'.
Proof. unfold getBuffer, getSize. by intros -> ->. Qed.

Lemma fromBuffer_spec v tb bits rest :
  Packed tb bits → Forall (λ x, x = 0 ∨ x = 1) bits → Z.of_nat (length bits) < 2 ^ 34 →
  ∃ tb', fromBuffer v (getBuffer tb ++ rest) = Returned (tb', rest) ∧ tb_version tb' = v ∧ getBuffer tb' = getBuffer tb ∧ Supplies tb' 0 bits.
Proof.
  intros Hp Hx Hn. pose proof Hp as (_ & Hz & Hl & Hb & Hr). unfold getBuffer at 1. destruct (_isAllZeros tb) eqn:Hzeros.
  { eexists. split; [reflexivity|]. split; [done|]. split; [unfold getBuffer; by rewrite Hzeros|]. by apply Supplies_zeros. }
  destruct (some_bit bits) as (k & Hk & Hnz); [congruence|].
  assert (Hdata : (1 <= length (dataBuffer tb))%nat).
  { destruct (byte_count (length bits)) as (_ & _ & _ & H). rewrite Hl. specialize (H k Hk). lia. }
  assert (Hsup : ∀ tb', _isAllZeros tb' = false → dataBuffer tb' = dataBuffer tb → Supplies tb' 0 bits).
  { intros tb' H1 H2. exact (Supplies_packed tb tb' bits Hp Hx H1 H2 0). }
  destruct (Nat.eqb_spec (getSize tb) 1) as [Hs|Hs].
  - unfold getSize in Hs. rewrite Hzeros in Hs. cbv zeta in Hs.
    destruct (Nat.ltb_spec kMaxBytesForShortEncoding (length (dataBuffer tb))); [lia|].
    destruct ((length (dataBuffer tb) =? 1)%nat && negb (Z.testbit (nth 0 (dataBuffer tb) 0) 7)) eqn:Hone; [|lia].
    rewrite andb_true_iff, Nat.eqb_eq, negb_true_iff in Hone. destruct Hone as [Hlen Hhigh].
    destruct (dataBuffer tb) as [|d [|]] eqn:Hd; try done. cbn [take] in *. simpl (nth 0 _ _) in Hhigh.
    pose proof (Hr 0%nat) as Hdr. simpl in Hdr.
    assert (Hpos : 0 < d < 128).
    { split.
      - destruct (Z.eq_dec d 0) as [->|]; [|lia]. exfalso. pose proof (Nat.div_mod_eq k 8) as Hkd. pose proof (Nat.mod_upper_bound k 8 ltac:(lia)).
        assert (k / 8 = 0)%nat as Hk8. { destruct (byte_count (length bits)) as (_ & _ & _ & Hbc). specialize (Hbc k Hk). rewrite <- Hl in Hbc. change (length [0]) with 1%nat in Hbc. lia. }
        specialize (Hb 0%nat k ltac:(lia)). simpl in Hb. rewrite Z.bits_0 in Hb. rewrite Forall_forall in Hx.
        destruct (Hx (nth k bits 0)) as [Hv|Hv]; [by apply list_elem_of_In, nth_In|done|]. rewrite Hv in Hb. done.
      - destruct (Z.lt_ge_cases d 128) as [|Hge]; [done|]. exfalso.
        assert (Hl7 : Z.log2 d = 7) by (apply Z.log2_unique; lia). pose proof (Z.bit_log2 d ltac:(lia)) as Ht. by rewrite Hl7, Hhigh in Ht. }
    exists (mkTypeBits v 0 false [d]). split; [|split; [done|split; [|by apply Hsup]]].
    + cbn [app fromBuffer readSizeFromBuffer]. destruct (Z.ltb_spec 0 d), (Z.ltb_spec d 128); try lia. done.
    + by apply getBuffer_data.
  - exists (mkTypeBits v 0 false (dataBuffer tb)). split; [|split; [done|split; [|by apply Hsup]]].
    2: by apply getBuffer_data.
    assert (Hsize : fromBuffer v (sizeBytes (length (dataBuffer tb)) ++ dataBuffer tb ++ rest) =
              '(size, l) ← readSizeFromBuffer (sizeBytes (length (dataBuffer tb)) ++ dataBuffer tb ++ rest);
              if (length l <? size)%nat then Thrown Overflow
              else Returned (mkTypeBits v 0 (size =? 0)%nat (take size l), drop size l)).
    { unfold sizeBytes. by destruct (kMaxBytesForShortEncoding <? _)%nat. }
    rewrite <- app_assoc, Hsize, readSize_spec; [|done|].
    + cbn [mbind Result_bind]. destruct (Nat.ltb_spec (length (dataBuffer tb ++ rest)) (length (dataBuffer tb))) as [Hlt|_];
        [rewrite length_app in Hlt; lia|]. rewrite take_app_length, drop_app_length.
      by destruct (Nat.eqb_spec (length (dataBuffer tb)) 0); [lia|].
    + rewrite Hl. pose proof (Nat.div_mod_eq (length bits + 7) 8). lia.
Qed.

(** ** Bytes *)

Lemma readByte_flip invert x l t : readByte invert (flipIf invert (x :: l) ++ t) = Returned (x, flipIf invert l ++ t).
Proof. destruct invert; simpl; by rewrite ?flipByte_flip. Qed.

Lemma readBytes_flip invert n l t : length l = n → readBytes invert n (flipIf invert l ++ t) = Returned (l, t).
Proof.
  intros Hn. unfold readBytes. destruct (Nat.ltb_spec (length (flipIf invert l ++ t)) n) as [H|_].
  - rewrite length_app, flipIf_length in H. lia.
  - rewrite <- Hn, <- (flipIf_length invert l), take_app_length, drop_app_length. do 2 f_equal.
    destruct invert; simpl; [apply flip_flip|done].
Qed.

Lemma readWord_flip invert n v t :
  0 <= v < 256 ^ Z.of_nat n → readWord invert n (flipIf invert (bigEndian n v) ++ t) = Returned (v, t).
Proof.
  intros Hv. unfold readWord. rewrite readBytes_flip by apply bigEndian_length. cbn [mbind Result_bind].
  by rewrite ofBigEndian_word.
Qed.

Lemma readUntilNul_flip code invert s l t :
  forallb (λ x, negb (x =? 0)) s = true →
  readUntilNul code invert (flipIf invert (s ++ 0 :: l) ++ t) = Returned (s, flipIf invert l ++ t).
Proof.
  induction s as [|x s IH]; cbn [forallb app].
  - intros _. destruct invert; done.
  - rewrite andb_true_iff, negb_true_iff. intros [Hx Hs]. specialize (IH Hs).
    destruct invert; cbn [flipIf map app readUntilNul] in *; rewrite ?flipByte_flip, Hx, IH; done.
Qed.

(** What is behind a string does not continue it. *)
Definition Stops (invert : bool) (t : Bytes) : Prop :=
  ∃ x u, t = x :: u ∧ (if invert then flipByte x else x) ≠ 255.

Lemma beforeNul_nonzero s : forallb (λ x, negb (x =? 0)) (beforeNul s) = true.
Proof. induction s as [|x s IH]; simpl; [done|]. destruct (x =? 0) eqn:Hx; [done|]. simpl. by rewrite Hx. Qed.

Lemma escape_length s : (length s <= length (escape s))%nat.
Proof.
  unfold escape. induction s as [|x s IH]; [done|]. rewrite bind_cons, length_app. cbn [length].
  destruct (x =? 0); cbn [length]; lia.
Qed.

Lemma readParts_spec fuel invert s t :
  (length s < fuel)%nat → Stops invert t → readParts fuel invert (flipIf invert (encodeString s) ++ t) = Returned (s, t).
Proof.
  intros Hf (y & u & -> & Hy). revert s Hf. induction fuel as [|fuel IH]; intros s Hf; [lia|].
  cbn [readParts]. unfold encodeString. pose proof (beforeNul_nonzero s) as Hnz.
  destruct (beforeNul_split s) as [[Hs He]|(rest & Hs & He)]; rewrite He.
  - rewrite Hs in Hnz. rewrite readUntilNul_flip by done. cbn [mbind Result_bind]. simpl.
    assert (((if invert then flipByte y else y) =? 255) = false) as Hn by (by apply Z.eqb_neq).
    destruct invert; simpl; unfold peekByte; simpl; by rewrite Hn.
  - replace ((beforeNul s ++ 0 :: 255 :: escape rest) ++ [0]) with (beforeNul s ++ 0 :: 255 :: encodeString rest)
      by (unfold encodeString; by rewrite <- app_assoc).
    rewrite readUntilNul_flip by done. cbn [mbind Result_bind]. unfold peekByte. rewrite readByte_flip.
    cbn [mbind Result_bind]. change (255 =? 255) with true. cbv iota.
    assert (Hd : drop 1 (flipIf invert (255 :: encodeString rest) ++ y :: u) = flipIf invert (encodeString rest) ++ y :: u)
      by (by destruct invert).
    rewrite Hd, IH; [cbn [mbind Result_bind]; by rewrite <- Hs|].
    pose proof (f_equal length Hs) as Hl. rewrite length_app in Hl. simpl in Hl. lia.
Qed.

Lemma readString_flip invert s t :
  Stops invert t → readCStringWithNuls invert (flipIf invert (encodeString s) ++ t) = Returned (s, t).
Proof.
  intros Ht. apply readParts_spec; [|done]. rewrite length_app, flipIf_length. unfold encodeString.
  rewrite length_app. pose proof (escape_length s). lia.
Qed.

Lemma readName_flip invert s l t :
  isName s = true → readCString invert (flipIf invert (s ++ 0 :: l) ++ t) = Returned (s, flipIf invert l ++ t).
Proof.
  intros Hs. apply readUntilNul_flip. induction s as [|x s IH]; [done|].
  simpl in Hs |- *. rewrite !andb_true_iff, Z.ltb_lt in Hs. destruct Hs as [[H1 _] Hs]. rewrite (IH Hs), andb_true_r.
  apply negb_true_iff, Z.eqb_neq. lia.
Qed.

(** ** Positions in the type bits *)

Lemma readNumeric_bits tb cur a b rest :
  Supplies tb cur (a :: b :: rest) → a = 0 ∨ a = 1 → b = 0 ∨ b = 1 →
  ∃ cur', readNumeric tb cur = Returned (2 * a + b, cur') ∧ Supplies tb cur' rest.
Proof.
  intros (c1 & H1 & c2 & H2 & Hrest) Ha Hb. exists c2. split; [|done]. unfold readNumeric. rewrite H1. cbn [mbind Result_bind].
  rewrite H2. cbn [mbind Result_bind]. do 2 f_equal. destruct Ha as [-> | ->], Hb as [-> | ->]; done.
Qed.

Lemma readZero_bits tb cur ver d rest :
  tb_version tb = ver → Double.isNaN d = false → Double.val d = 0 → Supplies tb cur (doubleBits ver d ++ rest) →
  ∃ cur', readZero tb cur = Returned (if Double.signbit d then kNegativeDoubleZero else kDouble, cur') ∧ Supplies tb cur' rest.
Proof.
  intros Hv Hn Hval Hs. unfold doubleBits, Double.eqb in Hs. rewrite Hn, Hval in Hs. change (Double.isNaN 0) with false in Hs.
  change (0 =? Double.val 0) with true in Hs. cbn [negb andb] in Hs. unfold readZero. rewrite Hv.
  destruct (Double.signbit d); [|destruct (readNumeric_bits tb cur 1 0 rest Hs) as (c & -> & Hc); [by auto..|];
    exists c; split; [|done]; cbn [mbind Result_bind]; by rewrite andb_false_r].
  destruct ver; cbn [zeroBits app] in Hs.
  - destruct (readNumeric_bits tb cur 1 1 rest Hs) as (c & -> & Hc); [by auto..|]. exists c. split; [|done]. done.
  - destruct (readNumeric_bits tb cur 1 1 (0 :: 0 :: 0 :: rest) Hs) as (c & -> & c1 & H1 & c2 & H2 & c3 & H3 & Hc); [by auto..|].
    exists c3. split; [|done]. cbn [mbind Result_bind]. change (bool_decide (V1 ≠ V0) && (2 * 1 + 1 =? kSpecialZeroPrefix)) with true.
    cbv iota. rewrite H1. cbn [mbind Result_bind]. rewrite H2. cbn [mbind Result_bind]. rewrite H3. done.
Qed.
