(* ===== verification/KeyStringNumberReading.v ===== *)
(** Numbers are read back from their encodings and type bits. *)
From S2P Require Import Prelude OpTimes KeyBytes BsonValue DoubleFacts KeyString KeyStringNumbers KeyStringNumberCode KeyStringEncoding KeyStringDecode KeyStringReading KeyStringKeys.
Import Double.

(** The double that a NaN is read back as, which is the quiet one. *)
Definition canonical (d : Z) : Z := if isNaN d then quietNaN else d.

Lemma signed_bits d : isDouble d → (if signbit d then neg (magBits d) else magBits d) = d.
Proof.
  intros Hd. transitivity (withSign (signbit d) (magBits d)); [|symmetry; by apply double_split].
  pose proof (magBits_bounds d) as Hb. unfold withSign. destruct (signbit d); [|done].
  unfold neg. change (signbit (magBits d)) with (2 ^ 63 <=? magBits d). by destruct (Z.leb_spec (2 ^ 63) (magBits d)); [lia|].
Qed.

Lemma word_range v : 0 <= v < 2 ^ 64 → 0 <= v < 256 ^ Z.of_nat 8.
Proof. done. Qed.

(** Scaling up and back. *)
Lemma scale_back x k :
  exact x → 0 <= k → exact (x * 2 ^ k) → scale (ofMag (x * 2 ^ k)) (- k) = ofMag x.
Proof.
  intros Hx Hk He. destruct (ofMag_exact _ He) as (H0 & Hm & Hf). set (s := ofMag (x * 2 ^ k)) in *.
  destruct (positive_double s) as (_ & _ & _ & Hsg & Hmb); [lia|].
  unfold scale, isfinite, mag. rewrite Hmb, Hsg, Hm. destruct (Z.ltb_spec s infinityBits); [|lia].
  destruct (Z.leb_spec 0 (- k)) as [Hz|Hz].
  - assert (k = 0) as -> by lia. by rewrite !Z.mul_1_r.
  - rewrite Z.opp_involutive, roundShift_exact by lia. done.
Qed.

(** ** The words of the second version *)

Lemma smallWord_parts negative x :
  exact x → x < one →
  let w := smallWord V1 negative x in
  kTiniestDoubleWith2BitDCM <= ofMag x ∧ Z.shiftr w 62 = 3 ∧ Z.land w 3 = 0 ∧ Z.shiftr w 2 = ofMag x ∨
  exact (x * 2 ^ 256) ∧ (Z.shiftr w 62 = 1 ∨ Z.shiftr w 62 = 2) ∧ Z.land w 1 = 0 ∧ Z.shiftr (w - 2 ^ 62) 1 = ofMag (x * 2 ^ 256).
Proof.
  intros Hx Hlt w. pose proof (proj1 (ofMag_exact x Hx)) as H0.
  assert (Hb : ofMag x < 1023 * 2 ^ 52) by (apply (ofMag_bound _ 1074); [done|lia|]; rewrite <- one_eq; lia).
  unfold w, smallWord. destruct (Z.leb_spec kTiniestDoubleWith2BitDCM (ofMag x)) as [Ht|Ht]; [left|right].
  - unfold kTiniestDoubleWith2BitDCM in Ht. split_and!; [done|..].
    + rewrite Z.shiftr_div_pow2 by lia. Z.to_euclidean_division_equations; lia.
    + change 3 with (Z.ones 2). rewrite Z.land_ones, Z.mul_comm by lia. by apply Z.mod_mul.
    + rewrite Z.shiftr_div_pow2, Z.mul_comm by lia. by apply Z.div_mul.
  - destruct (tiny_scaled x Hx Hlt Ht) as [He Hlt2]. destruct (ofMag_exact _ He) as (H1 & _).
    set (s := ofMag (x * 2 ^ 256)) in *. split_and!; [done|..].
    + rewrite Z.shiftr_div_pow2 by lia. Z.to_euclidean_division_equations; lia.
    + change 1 with (Z.ones 1) at 1. rewrite Z.land_ones by lia. change (2 ^ 1) with 2. Z.to_euclidean_division_equations; lia.
    + rewrite Z.shiftr_div_pow2 by lia. change (2 ^ 1) with 2. Z.to_euclidean_division_equations; lia.
Qed.

Lemma largeWord_parts negative x :
  isMagnitude x → 2 ^ 63 * one <= x →
  let w := largeWord V1 negative x in
  ofMag x < infinityBits ∧ Z.testbit w 63 = false ∧ Z.land w 1 = 0 ∧ Z.lor (Z.shiftr w 1) (2 ^ 62) = ofMag x ∧ w ≠ 2 ^ 64 - 1 ∨
  ofMag x = infinityBits ∧ w = 2 ^ 64 - 1.
Proof.
  intros Hx Hm w. unfold w, largeWord. destruct (large_cases x Hx Hm) as [He| ->].
  - destruct (large_bound x Hm He) as [Hb _]. destruct (Z.ltb_spec (ofMag x) infinityBits) as [Hf|]; [left|lia].
    unfold infinityBits in Hf. split_and!; [done|..].
    + rewrite <- (Z.mod_small (2 * ofMag x - 2 ^ 63) (2 ^ 63)) by lia. apply Z.mod_pow2_bits_high. lia.
    + change 1 with (Z.ones 1) at 1. rewrite Z.land_ones by lia. change (2 ^ 1) with 2. Z.to_euclidean_division_equations; lia.
    + assert (Hq : Z.shiftr (2 * ofMag x - 2 ^ 63) 1 = ofMag x - 2 ^ 62).
      { rewrite Z.shiftr_div_pow2 by lia. change (2 ^ 1) with 2. Z.to_euclidean_division_equations; lia. }
      rewrite Hq, Z.lor_comm. change (2 ^ 62) with (Z.shiftl 1 62) at 1. rewrite lor_add by lia. lia.
    + lia.
  - right. by rewrite ofMag_infinity.
Qed.

(** ** Integer parts *)

Lemma integer_words n ip :
  n = integerSize ip → 0 < ip < 2 ^ 63 → 1 <= n <= 8 ∧ ip * 2 + 1 < 256 ^ n ∧ 256 ^ n <= 2 ^ 64.
Proof.
  intros -> Hip. destruct (integerSize_bounds ip ltac:(lia)) as (H1 & _ & H2). pose proof (integerSize_max ip Hip).
  assert (Heven : 256 ^ integerSize ip = 2 * (128 * 256 ^ (integerSize ip - 1))).
  { replace (integerSize ip) with (Z.succ (integerSize ip - 1)) at 1 by lia. rewrite Z.pow_succ_r by lia. lia. }
  split; [lia|]. split; [lia|]. change (2 ^ 64) with (256 ^ 8). apply Z.pow_le_mono_r; lia.
Qed.

(** The first bytes of an integer, with the bit that tells of a fraction. *)
Lemma integer_read invert ip (fraction : bool) t :
  0 < ip < 2 ^ 63 →
  let v := ip * 2 + Z.b2z fraction in
  readExtraBytes invert (Z.to_nat (integerSize ip)) 0 (flipIf invert (bigEndian (Z.to_nat (integerSize ip)) v) ++ t) = Returned (v, t) ∧
  (Z.land v 1 =? 1) = fraction ∧ Z.shiftr v 1 = ip.
Proof.
  intros Hip v. destruct (integer_words _ ip eq_refl Hip) as (Hn & Hb & Hmax).
  assert (Hv : 0 <= v < 256 ^ integerSize ip) by (unfold v; destruct fraction; simpl; lia). split; [|split].
  - rewrite readExtraBytes_spec; rewrite ?pow_nat by lia; [|lia|lia|lia]. do 2 f_equal. rewrite Z.mod_small by lia. lia.
  - change 1 with (Z.ones 1) at 1. rewrite Z.land_ones by lia. change (2 ^ 1) with 2. unfold v.
    rewrite Z.add_comm, Z.mod_add by lia. by destruct fraction.
  - rewrite Z.shiftr_div_pow2 by lia. change (2 ^ 1) with 2. unfold v. rewrite Z.add_comm, Z.div_add by lia.
    destruct fraction; simpl; [change (1 / 2) with 0|change (0 / 2) with 0]; lia.
Qed.

(** The type of the key of an integer. *)
Definition integerType (negative : bool) (ip : Z) : Z :=
  if negative then CType.kNumericZero - 1 - integerSize ip else CType.kNumericZero + 1 + integerSize ip.

Lemma integerType_size negative ip :
  0 < ip < 2 ^ 63 → CType.numBytesForInt (integerType negative ip) = integerSize ip.
Proof.
  intros Hip. destruct (integer_words _ ip eq_refl Hip) as (Hn & _). unfold CType.numBytesForInt, integerType.
  unfold CType.kNumericPositive1ByteInt, CType.kNumericNegative1ByteInt, CType.kNumericZero, CType.kNumeric.
  destruct negative; [destruct (Z.leb_spec (30 + 13) (30 + 11 - 1 - integerSize ip))|destruct (Z.leb_spec (30 + 13) (30 + 11 + 1 + integerSize ip))]; lia.
Qed.

(** ** Fractions of the second version *)

Lemma ldiff_3 v : 0 <= v → v mod 4 = 0 → Z.ldiff v 3 = v.
Proof.
  intros Hv Hm. change 3 with (Z.ones 2). rewrite Z.ldiff_ones_r by lia.
  rewrite Z.shiftr_div_pow2, Z.shiftl_mul_pow2 by lia. change (2 ^ 2) with 4. Z.to_euclidean_division_equations; lia.
Qed.

(** The fraction fills the eight bytes up, and its last two bits are none of the number's. *)
Lemma fractionV1_word invert x t :
  exact x → one <= x < 2 ^ 63 * one → x mod one ≠ 0 →
  let ip := x / one in
  let fracBytes := 8 - integerSize ip in
  1 <= fracBytes ∧ ∃ E,
    readExtraBytes invert (Z.to_nat fracBytes) ip
      (flipIf invert (bigEndian (Z.to_nat (fractionSize V1 ip)) (x mod one * 2 ^ fractionScale V1 ip / one)) ++ t) = Returned (E, t) ∧
    0 <= E ∧ E mod 4 = 0 ∧ E * one = x * 2 ^ (8 * fracBytes) ∧ exact (x * 2 ^ (8 * fracBytes)).
Proof.
  intros Hx Hm Hf ip fracBytes. pose proof one_pos. destruct (medium_integer x Hm) as [Hi0 Hi1]. fold ip in Hi0, Hi1.
  pose proof (fraction_small x Hx (proj1 Hm) Hf) as Hsmall. fold ip in Hsmall.
  destruct (fraction_exact V1 x Hx (proj1 Hm) Hf) as (w & Hw & Hw1 & _ & Hw3). fold ip in Hw, Hw1, Hw3.
  pose proof (Z.div_mod x one ltac:(lia)) as Hdm. pose proof (log2_integer x (proj1 Hm)) as Hlog. fold ip in Hdm, Hlog.
  destruct (fractionScale_bounds V1 ip ltac:(lia)) as (_ & Hj2 & _).
  destruct (integer_words _ ip eq_refl ltac:(lia)) as (Hn8 & Hn9 & _).
  unfold fractionScale, fractionSize in *. fold fracBytes in Hw, Hw1, Hw3 |- *. set (j := 8 * fracBytes) in *.
  assert (Hpow : 256 ^ integerSize ip * 2 ^ j = 2 ^ 64).
  { change 256 with (2 ^ 8). rewrite <- Z.pow_mul_r, <- pow2_split by lia. f_equal. unfold j, fracBytes. lia. }
  assert (Hpow' : 256 ^ fracBytes = 2 ^ j) by (change 256 with (2 ^ 8); by rewrite <- Z.pow_mul_r by lia).
  assert (Hlog52 : Z.log2 ip < 52) by (apply Z.log2_lt_pow2; lia).
  assert (Hj3 : 3 <= j - (52 - Z.log2 ip)).
  { unfold j, fracBytes, integerSize. pose proof (Z.log2_mul_pow2 ip 1 ltac:(lia) ltac:(lia)) as Hl.
    change (2 ^ 1) with 2 in Hl. rewrite Hl. Z.to_euclidean_division_equations; lia. }
  split; [lia|]. exists (ip * 2 ^ j + w). pose proof (pow2_pos j ltac:(lia)) as Hpj. rewrite Hw, Z.div_mul by lia. split_and!.
  - rewrite readExtraBytes_spec; rewrite ?pow_nat, ?Hpow' by lia; [|lia|nia|lia]. by rewrite (Z.mod_small w) by lia.
  - nia.
  - rewrite Z.add_mod by lia. destruct Hw3 as [q Hq].
    assert (Hj : 2 ^ j = 2 ^ (j - 2) * 4) by (change 4 with (2 ^ 2); rewrite <- pow2_split by lia; f_equal; lia).
    assert (Hk : 2 ^ (j - (52 - Z.log2 ip)) = 2 ^ (j - (52 - Z.log2 ip) - 2) * 4) by (change 4 with (2 ^ 2); rewrite <- pow2_split by lia; f_equal; lia).
    rewrite Hq, Hj, Hk, !Z.mul_assoc, !Z.mod_mul by lia. done.
  - nia.
  - apply exact_scale; [done|lia|]. lia.
Qed.

Section Read.
Context (tb : TypeBits) (ver : Version) (decimal : Z → bool → Z → Bytes → nat → Result Out).

(** A double is read, of the type bits of doubles. *)
Definition ReadsDouble (m : Result Out) (d : Z) (t : Bytes) (rest : list Z) : Prop :=
  ∃ cur', m = Returned (NumberDouble d, t, cur') ∧ Supplies tb cur' rest.

Lemma small_read ctype invert d t cur rest :
  isDouble d → isNaN d = false → 0 < mag d < one → Supplies tb cur (1 :: 0 :: rest) →
  ReadsDouble (decodeSmall tb ver decimal ctype (signbit d) invert
    (flipIf invert (bigEndian 8 (smallWord ver (signbit d) (mag d))) ++ t) cur) d t rest.
Proof.
  intros Hd Hn Hm Hs. destruct (readNumeric_bits tb cur 1 0 rest Hs) as (c & Hc & Hrest); [by auto..|].
  exists c. split; [|done]. unfold decodeSmall. rewrite Hc. cbn [mbind Result_bind].
  pose proof (small_exact (mag d) (mag_isMagnitude d Hn ltac:(lia)) ltac:(lia)) as Hx.
  destruct (smallWord_order ver (signbit d) (mag d) (mag d) Hx Hx) as [Hw _]; [lia..|].
  rewrite (readWord_flip invert 8) by (by apply word_range). cbn [mbind Result_bind].
  pose proof (ofMag_mag d Hn) as Ho. pose proof (signed_bits d Hd) as Hsb.
  destruct ver.
  - unfold smallWord. rewrite Ho. cbn [keyStringAssert mbind Result_bind]. change (2 * 1 + 0 =? kDouble) with true.
    cbn [keyStringAssert mbind Result_bind]. by rewrite <- (double_split d Hd).
  - cbv zeta. destruct (smallWord_parts (signbit d) (mag d) Hx ltac:(lia)) as [(_ & Hp & Hl & Hsh)|(He & Hp & Hl & Hsh)].
    + rewrite Hp, Hl, Hsh, Ho. change (3 =? 0) with false. change ((3 =? 1) || (3 =? 2)) with false. cbv iota.
      change (2 * 1 + 0 =? kDouble) with true. cbv iota. cbn [keyStringAssert mbind Result_bind]. by rewrite Hsb.
    + set (w := smallWord V1 (signbit d) (mag d)) in *.
      assert (Hne : (Z.shiftr w 62 =? 0) = false ∧ (Z.shiftr w 62 =? 1) || (Z.shiftr w 62 =? 2) = true) by (by destruct Hp as [-> | ->]).
      destruct Hne as [-> ->]. change (2 * 1 + 0 =? kDouble) with true. cbv iota. rewrite Hl, Hsh.
      change (negb (0 =? 1)) with true. cbn [keyStringAssert mbind Result_bind].
      unfold kTinyDoubleExponentShift. rewrite scale_back by (done || lia). by rewrite Ho, Hsb.
Qed.

Lemma large_read ctype invert d t cur rest :
  isDouble d → isNaN d = false → 2 ^ 63 * one <= mag d → Supplies tb cur (1 :: 0 :: rest) →
  ReadsDouble (decodeLarge tb ver decimal ctype (signbit d) invert
    (flipIf invert (bigEndian 8 (largeWord ver (signbit d) (mag d))) ++ t) cur) d t rest.
Proof.
  intros Hd Hn Hm Hs. destruct (readNumeric_bits tb cur 1 0 rest Hs) as (c & Hc & Hrest); [by auto..|].
  exists c. split; [|done]. unfold decodeLarge. rewrite Hc. cbn [mbind Result_bind].
  change (2 * 1 + 0 =? kDecimal) with false. cbn [negb]. rewrite orb_true_r. cbn [keyStringAssert mbind Result_bind].
  pose proof one_pos. pose proof (mag_isMagnitude d Hn ltac:(nia)) as Hmag.
  destruct (largeWord_order ver (signbit d) (mag d) (mag d) Hmag Hmag Hm Hm) as [Hw _].
  rewrite (readWord_flip invert 8) by (by apply word_range). cbn [mbind Result_bind].
  pose proof (ofMag_mag d Hn) as Ho. pose proof (signed_bits d Hd) as Hsb.
  change (2 * 1 + 0 =? kDouble) with true. cbv iota zeta.
  destruct ver; [unfold largeWord; rewrite Ho; by rewrite <- (double_split d Hd)|].
  destruct (largeWord_parts (signbit d) (mag d) Hmag Hm) as [(_ & Ht & _ & Hsh & _)|[He Hmax]].
  - rewrite Ht, Hsh, Ho. cbn [negb]. by rewrite Hsb.
  - rewrite Hmax. change (negb (Z.testbit (2 ^ 64 - 1) 63)) with false. change (2 ^ 64 - 1 =? 2 ^ 64 - 1) with true. cbv iota.
    by rewrite <- He, Ho, <- (double_split d Hd).
Qed.

(** ** Integers *)

(** An integer, of the type that its type bits say. *)
Lemma int_read (negative invert : bool) (ip a b : Z) t cur rest :
  0 < ip < 2 ^ 63 → Supplies tb cur (a :: b :: rest) → a = 0 ∨ a = 1 → b = 0 ∨ b = 1 → 2 * a + b <> kDecimal →
  let z := if negative then - ip else ip in
  ∃ cur', decodeInt tb ver decimal (integerType negative ip) negative invert
            (flipIf invert (bigEndian (Z.to_nat (integerSize ip)) (ip * 2)) ++ t) cur =
          Returned (if 2 * a + b =? kDouble then NumberDouble (ofInteger z)
                    else if 2 * a + b =? kInt then NumberInt ((z + 2 ^ 31) mod 2 ^ 32 - 2 ^ 31)
                    else NumberLong z, t, cur') ∧ Supplies tb cur' rest.
Proof.
  intros Hip Hs Ha Hb Hdec z. destruct (readNumeric_bits tb cur a b rest Hs Ha Hb) as (c & Hc & Hrest).
  exists c. split; [|done]. unfold decodeInt. rewrite Hc, integerType_size by done. cbn [mbind Result_bind].
  destruct (integer_read invert ip false t Hip) as (Hr & Hf & Hsh). rewrite Z.add_0_r in Hr, Hf, Hsh.
  rewrite Hr. cbn [mbind Result_bind]. rewrite Hf, Hsh. cbn [negb]. cbv iota zeta. fold z.
  destruct Ha as [-> | ->], Hb as [-> | ->]; done.
Qed.

(** ** Fractions *)

Lemma readFraction_spec invert n w acc t :
  0 <= w < 256 ^ Z.of_nat n → readFraction invert n acc (flipIf invert (bigEndian n w) ++ t) = Returned (Z.lor acc w, t).
Proof.
  revert w acc. induction n as [|n IH]; intros w acc Hw.
  { change (256 ^ Z.of_nat 0) with 1 in Hw. assert (w = 0) as -> by lia. rewrite Z.lor_0_r. by destruct invert. }
  rewrite bigEndian_head. cbn [readFraction]. rewrite readByte_flip. cbn [mbind Result_bind]. rewrite pow256_S in Hw.
  pose proof (Z.pow_pos_nonneg 256 (Z.of_nat n) ltac:(lia) ltac:(lia)) as Hp. rewrite <- (bigEndian_mod n w).
  rewrite IH by (by apply Z.mod_pos_bound). do 2 f_equal. rewrite <- Z.lor_assoc. f_equal.
  replace (Z.of_nat n * 8) with (8 * Z.of_nat n) by lia. pose proof (pow256 n) as Hpow.
  rewrite lor_add by (first [lia|rewrite <- Hpow; by apply Z.mod_pos_bound]). rewrite <- Hpow.
  rewrite (Z.mod_small (w / 256 ^ Z.of_nat n)) by (split; [apply Z.div_pos; lia|apply Z.div_lt_upper_bound; lia]).
  rewrite Z.mul_comm. symmetry. apply Z.div_mod. lia.
Qed.

Lemma fractionV0_read invert d t cur rest :
  isDouble d → isNaN d = false → magBits d < infinityBits → one <= mag d < 2 ^ 63 * one → mag d mod one ≠ 0 → Supplies tb cur rest →
  ReadsDouble (decodeFractionV0 (signbit d) invert kDouble (mag d / one)
    (flipIf invert (bigEndian (Z.to_nat (fractionSize V0 (mag d / one))) (mag d mod one * 2 ^ fractionScale V0 (mag d / one) / one)) ++ t) cur)
    d t rest.
Proof.
  intros Hd Hn Hfin Hm Hf Hs. exists cur. split; [|done]. pose proof (magBits_number d Hn) as Hb.
  destruct (mantissa_parts (magBits d) ltac:(lia) (proj1 Hm) Hf) as (e & m & He & Hm1 & Hfb & Hfb1 & Hip & _ & Hbm & _).
  destruct (mantissa_fraction (magBits d) ltac:(lia) (proj1 Hm) Hf) as [Hw _]. fold (mag d) in *.
  rewrite <- Hw. unfold decodeFractionV0. change (kDouble =? kDouble) with true. cbn [keyStringAssert mbind Result_bind].
  assert (Hip52 : 0 < mag d / one < 2 ^ 52).
  { destruct (medium_integer (mag d) Hm). split; [lia|]. apply fraction_small; [|lia|done].
    apply finite_exact. unfold mag in Hm. destruct (Z.eq_dec (magBits d) 0) as [Hz0|]; [rewrite Hz0 in Hm; change (magOf 0) with 0 in Hm; pose proof one_pos; lia|lia]. }
  set (ip := mag d / one) in *. set (fb := fractionScale V0 ip) in *. pose proof (pow2_pos fb ltac:(lia)) as Hp.
  destruct (Z.ltb_spec ip kMaxIntForDouble); [|unfold kMaxIntForDouble in *; lia]. cbn [keyStringAssert mbind Result_bind].
  assert (Hexp : 64 - countLeadingZeros64 ip - 1 = 52 - fb).
  { unfold fb, fractionScale, countLeadingZeros64. destruct (Z.eqb_spec ip 0); lia. }
  cbv zeta. rewrite Hexp. replace (52 - (52 - fb)) with fb by lia.
  change ((fb + 7) / 8) with (fractionSize V0 ip). pose proof (Z.div_mod (2 ^ 52 + m) (2 ^ fb) ltac:(lia)) as Hdm.
  rewrite <- Hip, <- Hbm in Hdm. set (w := magBits d mod 2 ^ fb) in *. pose proof (Z.mod_pos_bound (magBits d) (2 ^ fb) Hp) as Hwb. fold w in Hwb.
  assert (Hwm : w <= m).
  { rewrite Hbm. replace (2 ^ 52 + m) with (m + 2 ^ (52 - fb) * 2 ^ fb) by (rewrite <- pow2_split by lia; replace (52 - fb + fb) with 52; lia).
    rewrite Z.mod_add by lia. apply Z.mod_le; lia. }
  destruct (fractionScale_bounds V0 ip Hip52) as (_ & _ & Hsz). fold fb in Hsz.
  assert (Hsz' : 2 ^ fb <= 256 ^ Z.of_nat (Z.to_nat (fractionSize V0 ip))).
  { rewrite pow256, Z2Nat.id by lia. apply Z.pow_le_mono_r; lia. }
  rewrite readFraction_spec by lia. cbn [mbind Result_bind]. do 4 f_equal.
  assert (Hbase : Z.ldiff (Z.shiftl ip fb) (2 ^ 52) = ip * 2 ^ fb - 2 ^ 52).
  { rewrite Z.shiftl_mul_pow2 by lia. set (x := ip * 2 ^ fb - 2 ^ 52). assert (Hx : 0 <= x < 2 ^ 52) by (unfold x; lia).
    replace (ip * 2 ^ fb) with (1 * 2 ^ 52 + x) by (unfold x; lia). rewrite <- lor_add by lia.
    change (2 ^ 52) with (Z.shiftl 1 52).
    apply Z.bits_inj'. intros k Hk. rewrite Z.ldiff_spec, Z.lor_spec, Z.shiftl_spec by lia.
    destruct (Z.eq_dec k 52) as [->|Hk52].
    - rewrite <- (Z.mod_small x (2 ^ 52)) by lia. by rewrite Z.mod_pow2_bits_high by lia.
    - replace (Z.testbit 1 (k - 52)) with false; [apply andb_true_r|].
      destruct (Z.lt_ge_cases (k - 52) 0); [by rewrite Z.testbit_neg_r|]. symmetry. apply Z.bits_above_log2; simpl; lia. }
  rewrite Hbase, !(Z.lor_comm (_ - 2 ^ 52)), (lor_add (52 - fb + 1023)) by lia.
  replace ((52 - fb + 1023) * 2 ^ 52 + (ip * 2 ^ fb - 2 ^ 52)) with (magBits d - w) by lia.
  assert (Hlow : Z.lor (magBits d - w) w = magBits d).
  { pose proof (Z.div_mod (magBits d) (2 ^ fb) ltac:(lia)) as Hq. fold w in Hq.
    replace (magBits d - w) with (Z.shiftl (magBits d / 2 ^ fb) fb) by (rewrite Z.shiftl_mul_pow2 by lia; lia).
    rewrite lor_add by lia. lia. }
  pose proof (signed_bits d Hd) as Hsb. destruct (signbit d) eqn:Hsg; [|by rewrite Hlow].
  rewrite <- Z.lor_assoc, (Z.lor_comm (2 ^ 63)), Z.lor_assoc, Hlow, Z.lor_comm. change (2 ^ 63) with (Z.shiftl 1 63).
  pose proof (magBits_bounds d). rewrite lor_add by lia. transitivity (neg (magBits d)); [|exact Hsb]. unfold neg, signbit. destruct (Z.leb_spec (2 ^ 63) (magBits d)); lia.
Qed.

Lemma fractionV1_read invert d t cur rest :
  isDouble d → isNaN d = false → one <= mag d < 2 ^ 63 * one → mag d mod one ≠ 0 → Supplies tb cur rest →
  ReadsDouble (decodeFractionV1 decimal (integerType (signbit d) (mag d / one)) (signbit d) invert kDouble (mag d / one)
    (flipIf invert (bigEndian (Z.to_nat (fractionSize V1 (mag d / one))) (mag d mod one * 2 ^ fractionScale V1 (mag d / one) / one)) ++ t) cur)
    d t rest.
Proof.
  intros Hd Hn Hm Hf Hs. exists cur. split; [|done]. pose proof one_pos.
  pose proof (medium_fraction (mag d) (mag_isMagnitude d Hn ltac:(lia)) Hm Hf) as Hx.
  destruct (fractionV1_word invert (mag d) t Hx Hm Hf) as (H1 & E & Hr & H0 & H4 & HE & Hxs).
  unfold decodeFractionV1. cbv zeta. rewrite integerType_size by (by apply medium_integer).
  rewrite Hr. cbn [mbind Result_bind]. rewrite ldiff_3 by done.
  assert (Hint : ofInteger E = ofMag (mag d * 2 ^ (8 * (8 - integerSize (mag d / one))))).
  { unfold ofInteger. rewrite Z.abs_eq, HE by done. by destruct (Z.ltb_spec E 0); [lia|]. }
  rewrite Hint, scale_back by (done || lia). change (kDouble =? kDouble) with true. cbv iota.
  rewrite ofMag_mag by done. by rewrite signed_bits.
Qed.

(** ** All numbers *)

(** The bytes of a number, behind which are [t], are read as [v], of the type bits before [rest]. *)
Definition ReadsNumber (bytes : list Z) (invert : bool) (t : Bytes) (cur : nat) (v : Value) (rest : list Z) : Prop :=
  ∃ c l, bytes = c :: l ∧ 30 <= c <= 51 ∧ ∀ other,
    ∃ cur', decodeNumeric tb ver decimal c invert (flipIf invert l ++ t) cur other = Returned (v, t, cur') ∧ Supplies tb cur' rest.

(** The bytes of negative numbers are inverted once more. *)
Definition signedInvert (negative invert : bool) : bool := if negative then negb invert else invert.

Lemma signed_number (negative : bool) c l invert t cur v rest :
  let c' := if negative then 2 * CType.kNumericZero - c else c in
  42 <= c <= 51 →
  (∀ other, ∃ cur', decodeNumeric tb ver decimal c' invert (flipIf (signedInvert negative invert) l ++ t) cur other =
     Returned (v, t, cur') ∧ Supplies tb cur' rest) →
  ReadsNumber (if negative then flipKey (c :: l) else c :: l) invert t cur v rest.
Proof.
  intros c' Hc Hr. exists c', (flipIf negative l). unfold c' in *. split; [by destruct negative|].
  split; [destruct negative; unfold CType.kNumericZero, CType.kNumeric; lia|].
  destruct negative; cbn [flipIf signedInvert] in *; [|done]. by rewrite <- flipIf_negb.
Qed.

Lemma decode_integer negative ip invert l cur other :
  0 < ip < 2 ^ 63 →
  decodeNumeric tb ver decimal (integerType negative ip) invert l cur other =
    decodeInt tb ver decimal (integerType negative ip) negative (signedInvert negative invert) l cur.
Proof.
  intros Hip. destruct (integer_words _ ip eq_refl Hip) as (Hn & _). unfold integerType, CType.kNumericZero, CType.kNumeric.
  assert (Hs : integerSize ip = 1 ∨ integerSize ip = 2 ∨ integerSize ip = 3 ∨ integerSize ip = 4 ∨
               integerSize ip = 5 ∨ integerSize ip = 6 ∨ integerSize ip = 7 ∨ integerSize ip = 8) by lia.
  destruct negative; repeat destruct Hs as [-> | Hs]; try rewrite Hs; reflexivity.
Qed.

Lemma integer_class (negative : bool) ip :
  (if negative then 2 * CType.kNumericZero - (CType.kNumericPositiveSmallMagnitude + integerSize ip)
   else CType.kNumericPositiveSmallMagnitude + integerSize ip) = integerType negative ip.
Proof.
  unfold integerType, CType.kNumericZero, CType.kNumericPositiveSmallMagnitude, CType.kNumeric. destruct negative; lia.
Qed.

Lemma magnitude_double d : isDouble d → isNaN d = false → ofMag (mag d) = magBits d ∧ withSign (signbit d) (ofMag (mag d)) = d.
Proof. intros Hd Hn. rewrite (ofMag_mag d Hn). split; [done|]. by rewrite <- (double_split d Hd). Qed.

Lemma medium_read invert d t cur rest :
  isDouble d → isNaN d = false → one <= mag d < 2 ^ 63 * one → Supplies tb cur (1 :: 0 :: rest) →
  ReadsDouble (decodeInt tb ver decimal (integerType (signbit d) (mag d / one)) (signbit d) invert
    (flipIf invert (mediumBytes ver (mag d)) ++ t) cur) d t rest.
Proof.
  intros Hd Hn Hm Hs. destruct (medium_integer (mag d) Hm) as [Hi0 Hi1]. pose proof one_pos.
  pose proof (Z.div_mod (mag d) one ltac:(lia)) as Hdm. unfold mediumBytes.
  destruct (Z.eqb_spec (mag d mod one) 0) as [Hf|Hf].
  - destruct (int_read (signbit d) invert (mag d / one) 1 0 t cur rest) as (c & Hr & Hc); [lia|done|by auto..|done|].
    exists c. split; [|done]. rewrite Hr. change (2 * 1 + 0 =? kDouble) with true. cbv iota. do 4 f_equal.
    unfold ofInteger. transitivity (withSign (signbit d) (ofMag (mag d))); [|by apply magnitude_double].
    replace (Z.abs _ * one) with (mag d) by (destruct (signbit d); nia). f_equal.
    destruct (signbit d); [apply Z.ltb_lt|apply Z.ltb_ge]; lia.
  - destruct (readNumeric_bits tb cur 1 0 rest Hs) as (c & Hc & Hrest); [by auto..|].
    unfold decodeInt. rewrite Hc, integerType_size by lia. cbn [mbind Result_bind]. rewrite flipIf_app, <- app_assoc.
    destruct (integer_read invert (mag d / one) true
      (flipIf invert (bigEndian (Z.to_nat (fractionSize ver (mag d / one))) (mag d mod one * 2 ^ fractionScale ver (mag d / one) / one)) ++ t) ltac:(lia))
      as (Hr & Hb & Hsh). change (Z.b2z true) with 1 in *.
    rewrite Hr. cbn [mbind Result_bind]. rewrite Hb, Hsh. cbn [negb]. cbv iota. change (2 * 1 + 0) with kDouble.
    destruct ver; [|by apply fractionV1_read].
    apply fractionV0_read; [done|done|exact (medium_finite d Hn (proj2 Hm))|done..].
Qed.
End Read.

Section Numbers.
Context (tb : TypeBits) (ver : Version) (decimal : Z → bool → Z → Bytes → nat → Result Out).
Context (version : tb_version tb = ver).

Lemma double_number d invert t cur rest :
  isDouble d → Supplies tb cur (doubleBits ver d ++ rest) →
  ReadsNumber tb ver decimal (numberBytes ver (meaning d)) invert t cur (NumberDouble (canonical d)) rest.
Proof.
  intros Hd Hs. unfold canonical, meaning. destruct (isNaN d) eqn:Hn.
  { unfold doubleBits, eqb in Hs. rewrite Hn in Hs. cbn [negb andb app] in Hs.
    destruct (readNumeric_bits tb cur 1 0 rest Hs) as (c & Hc & Hrest); [by auto..|].
    exists CType.kNumericNaN, []. split; [done|]. split; [done|]. intros other. exists c. split; [|done].
    change (decodeNumeric tb ver decimal CType.kNumericNaN) with (λ i l cur (_ : Result Out), decodeNaN tb ver decimal CType.kNumericNaN i l cur).
    cbv beta. unfold decodeNaN. rewrite Hc. by destruct invert. }
  destruct (Z.eq_dec (mag d) 0) as [Hz|Hz].
  { assert (Hv : val d = 0) by (unfold val; rewrite Hz; by destruct (signbit d)).
    destruct (readZero_bits tb cur ver d rest version Hn Hv Hs) as (c & Hc & Hrest). rewrite Hv.
    exists CType.kNumericZero, []. split; [done|]. split; [done|]. intros other. exists c. split; [|done].
    change (decodeNumeric tb ver decimal CType.kNumericZero) with (λ i l cur (_ : Result Out), decodeZero tb decimal CType.kNumericZero i l cur).
    cbv beta. unfold decodeZero. rewrite Hc. cbn [mbind Result_bind].
    destruct (magnitude_double d Hd Hn) as [_ Hsd]. rewrite Hz, ofMag_0 in Hsd.
    destruct (signbit d); rewrite <- Hsd; by destruct invert. }
  pose proof (mag_nonneg d) as Hpos. unfold val. rewrite numberBytes_signed by lia.
  assert (Hbits : doubleBits ver d = [1; 0]).
  { unfold doubleBits, eqb. change (val 0) with 0. destruct (Z.eqb_spec (val d) 0) as [Hv|]; [|by rewrite andb_false_r].
    pose proof (val_mag d). lia. }
  rewrite Hbits in Hs. cbn [app] in Hs.
  assert (Hkey : (if signbit d then flipKey (magnitudeKey ver true (mag d)) else magnitudeKey ver false (mag d)) =
            if signbit d then flipKey (magnitudeKey ver (signbit d) (mag d)) else magnitudeKey ver (signbit d) (mag d)).
  { by destruct (signbit d). }
  rewrite Hkey. clear Hkey. unfold magnitudeKey.
  apply signed_number; [destruct (magnitudeClass_bounds (mag d)) as [[]|[[]|[]]]; lia|]. intros other.
  unfold magnitudeClass, magnitudeBytes. destruct (Z.ltb_spec (mag d) one) as [Hsm|Hsm]; [|destruct (Z.ltb_spec (mag d) (2 ^ 63 * one))].
  - assert (Hdisp : ∀ l, decodeNumeric tb ver decimal (if signbit d then 2 * CType.kNumericZero - CType.kNumericPositiveSmallMagnitude
        else CType.kNumericPositiveSmallMagnitude) invert l cur other =
      decodeSmall tb ver decimal (if signbit d then 2 * CType.kNumericZero - CType.kNumericPositiveSmallMagnitude
        else CType.kNumericPositiveSmallMagnitude) (signbit d) (signedInvert (signbit d) invert) l cur) by (by destruct (signbit d)).
    rewrite Hdisp. apply small_read; [done..|lia|done].
  - destruct (medium_integer (mag d) ltac:(lia)). rewrite integer_class, decode_integer by lia. by apply medium_read.
  - assert (Hdisp : ∀ l, decodeNumeric tb ver decimal (if signbit d then 2 * CType.kNumericZero - CType.kNumericPositiveLargeMagnitude
        else CType.kNumericPositiveLargeMagnitude) invert l cur other =
      decodeLarge tb ver decimal (if signbit d then 2 * CType.kNumericZero - CType.kNumericPositiveLargeMagnitude
        else CType.kNumericPositiveLargeMagnitude) (signbit d) (signedInvert (signbit d) invert) l cur) by (by destruct (signbit d)).
    rewrite Hdisp. by apply large_read.
Qed.

(** The least of the longs has the key of a large double. *)
Lemma large_min invert t cur rest :
  Supplies tb cur (0 :: 1 :: rest) →
  ∃ cur', decodeLarge tb ver decimal CType.kNumericNegativeLargeMagnitude true invert
            (flipIf invert (bigEndian 8 (largeWord ver true (2 ^ 63 * one))) ++ t) cur =
          Returned (NumberLong (- 2 ^ 63), t, cur') ∧ Supplies tb cur' rest.
Proof.
  intros Hs. destruct (readNumeric_bits tb cur 0 1 rest Hs) as (c & Hc & Hrest); [by auto..|]. exists c. split; [|done].
  unfold decodeLarge. rewrite Hc. cbn [mbind Result_bind]. change (2 * 0 + 1) with kLong.
  change (negb (kLong =? kDecimal)) with true. rewrite orb_true_r. cbn [keyStringAssert mbind Result_bind].
  assert (Hw : largeWord ver true (2 ^ 63 * one) = match ver with V0 => 14114281232179134464 | V1 => 558446353793941504 end)
    by (destruct ver; vm_compute; reflexivity).
  rewrite Hw, readWord_flip by (apply word_range; destruct ver; lia). cbn [mbind Result_bind]. clear Hw.
  assert (Hmin : Double.eqb 14114281232179134464 (Double.ofInteger (- 2 ^ 63)) = true) by (vm_compute; reflexivity).
  destruct ver; [|replace (negb _) with true by (vm_compute; reflexivity); cbv iota zeta;
    replace (neg _) with 14114281232179134464 by (vm_compute; reflexivity)];
  change (kLong =? kDouble) with false; change (kLong =? kLong) with true; cbv iota; rewrite Hmin; reflexivity.
Qed.

Lemma integer_number i b invert t cur rest :
  - 2 ^ 63 <= i < 2 ^ 63 → b = 0 ∧ - 2 ^ 31 <= i < 2 ^ 31 ∨ b = 1 → Supplies tb cur (0 :: b :: rest) →
  ReadsNumber tb ver decimal (numberBytes ver (Some (i * one))) invert t cur (if b =? 0 then NumberInt i else NumberLong i) rest.
Proof.
  intros Hi Hb Hs. pose proof one_pos. assert (Hb' : b = 0 ∨ b = 1) by (destruct Hb as [[-> _]| ->]; auto).
  destruct (Z.eq_dec i 0) as [->|H0]; [|destruct (Z.eq_dec i (- 2 ^ 63)) as [->|Hmin]].
  - destruct (readNumeric_bits tb cur 0 b rest Hs) as (c & Hc & Hrest); [by auto..|].
    exists CType.kNumericZero, []. split; [done|]. split; [done|]. intros other. exists c. split; [|done].
    change (decodeNumeric tb ver decimal CType.kNumericZero) with (λ i l cur (_ : Result Out), decodeZero tb decimal CType.kNumericZero i l cur).
    cbv beta. unfold decodeZero, readZero. rewrite Hc. cbn [mbind Result_bind].
    replace (2 * 0 + b =? kSpecialZeroPrefix) with false by (by destruct Hb' as [-> | ->]).
    rewrite andb_false_r. cbn [mbind Result_bind]. by destruct Hb' as [-> | ->], invert.
  - assert (b = 1) as -> by lia. replace (- 2 ^ 63 * one) with (- (2 ^ 63 * one)) by lia.
    rewrite (numberBytes_signed ver true) by lia. unfold magnitudeKey, magnitudeClass, magnitudeBytes.
    destruct (Z.ltb_spec (2 ^ 63 * one) one); [lia|]. rewrite Z.ltb_irrefl.
    apply (signed_number tb ver decimal true); [done|]. intros other. by apply (large_min (negb invert)).
  - replace (i * one) with (if i <? 0 then - (Z.abs i * one) else Z.abs i * one) by (destruct (Z.ltb_spec i 0); nia).
    rewrite (numberBytes_signed ver (i <? 0)) by nia. rewrite !integer_key by lia.
    destruct (integer_words _ (Z.abs i) eq_refl ltac:(lia)) as (Hn & _).
    apply signed_number; [unfold CType.kNumericPositiveSmallMagnitude, CType.kNumeric; lia|]. intros other.
    rewrite integer_class, decode_integer by lia.
    destruct (int_read tb ver decimal (i <? 0) (signedInvert (i <? 0) invert) (Z.abs i) 0 b t cur rest) as (c & Hr & Hc);
      [lia|done|by auto|done|by destruct Hb' as [-> | ->]|].
    exists c. split; [|done]. rewrite Hr. replace (if i <? 0 then - Z.abs i else Z.abs i) with i by (destruct (Z.ltb_spec i 0); lia).
    destruct Hb as [[-> Hr31]| ->]; [|done]. cbn. do 4 f_equal. rewrite Z.mod_small by lia. lia.
Qed.
End Numbers.
