(* ===== verification/KeyStringRoundTrip.v ===== *)
(** Whole keys are read back: values by their bytes and type bits, then the fields of a key. *)
From S2P Require Import Prelude OpTimes KeyBytes BsonValue DoubleFacts KeyString KeyStringNumbers KeyStringEncoding KeyStringOrder KeyStringDecode KeyStringReading KeyStringNumberReading KeyStringKeys.

(** ** What is read back *)

(** Every NaN is read as the quiet one. *)
Fixpoint normalised (v : Value) : Value :=
  match v with
  | NumberDouble d => NumberDouble (canonical d)
  | Object fields => Object (map (λ field, (field.1, normalised field.2)) fields)
  | CodeWScope s scope => CodeWScope s (map (λ field, (field.1, normalised field.2)) scope)
  | Array fields => Array (map (λ field, (field.1, normalised field.2)) fields)
  | v => v
  end.

Definition normalisedFields (obj : BSONObj) : BSONObj := map (λ field, (field.1, normalised field.2)) obj.

(** How deep a value is nested; the scope of code counts twice. *)
Fixpoint height (v : Value) : nat :=
  match v with
  | Object fields | Array fields => foldr (λ field n, Nat.max (S (height field.2)) n) 0%nat fields
  | CodeWScope _ scope => foldr (λ field n, Nat.max (S (S (height field.2))) n) 0%nat scope
  | _ => 0%nat
  end.

Lemma height_fields k depth maxDepth fields :
  (foldr (λ field : Bytes * Value, Nat.max (k + height field.2)) 0 fields + depth <= maxDepth)%nat →
  Forall (λ field, height field.2 + (depth + k) <= maxDepth)%nat fields.
Proof. induction fields as [|field fields IH]; simpl; [done|]. intros H. constructor; [lia|apply IH; lia]. Qed.

(** The names of an array's elements are found again. *)
Lemma arrayFields_read g elems :
  positional elems = true → arrayFields (map (λ field : Bytes * Value, g field.2) elems) = map (λ field, (field.1, g field.2)) elems.
Proof.
  unfold positional, positionalFrom, arrayFields. rewrite bool_decide_eq_true, length_map. intros <-.
  induction elems as [|field elems IH]; [done|]. cbn [map zip_with]. by rewrite IH.
Qed.

(** Bytes that stop a string in either direction. *)
Lemma Inner_stops invert t : Inner t → Stops invert t.
Proof. intros (x & u & -> & Hx). exists x, u. split; [done|]. unfold flipByte. destruct invert; lia. Qed.

Lemma flip_stops invert x l t : 0 <= x < 255 → Stops invert (flipIf invert (x :: l) ++ t).
Proof.
  intros Hx. destruct invert; cbn [flipIf map app].
  - exists (flipByte x), (map flipByte l ++ t). split; [done|]. rewrite flipByte_flip. lia.
  - exists x, (l ++ t). split; [done|lia].
Qed.

Section Read.
Context (tb : TypeBits) (ver : Version) (decimal : Z → bool → Z → Bytes → nat → Result Out) (maxDepth : nat).
Context (version : tb_version tb = ver).

(** What is to be shown of a value at a depth. *)
Definition ReadsValue (v : Value) : Prop :=
  wellFormed false v = true → ∀ fuel depth invert t cur rest,
    (height v + depth <= maxDepth)%nat → (length (encode ver None v) <= fuel)%nat → Stops invert t →
    Supplies tb cur (typeBitsOf ver v ++ rest) →
    ∃ c l cur', encode ver None v = c :: l ∧
      toBsonValue tb ver decimal maxDepth fuel c invert depth (flipIf invert l ++ t) cur = Returned (normalised v, t, cur') ∧
      Supplies tb cur' rest.

Lemma toBsonValue_numeric fuel c invert depth l cur :
  30 <= c <= 51 → (depth <= maxDepth)%nat →
  toBsonValue tb ver decimal maxDepth (S fuel) c invert depth l cur =
    decodeNumeric tb ver decimal c invert l cur (Thrown 50811).
Proof.
  intros Hc Hd. cbn [toBsonValue]. apply Nat.leb_le in Hd. rewrite Hd. cbn [keyStringAssert mbind Result_bind].
  unfold CType.kMinKey, CType.kMaxKey, CType.kNullish, CType.kUndefined, CType.kBoolTrue, CType.kBoolFalse, CType.kBool, CType.kDate,
    CType.kTimestamp, CType.kOID, CType.kStringLike, CType.kCode, CType.kCodeWithScope, CType.kBinData, CType.kRegEx,
    CType.kDBRef, CType.kObject, CType.kArray.
  repeat match goal with |- context [Z.eqb c ?k] => replace (Z.eqb c k) with false by (symmetry; apply Z.eqb_neq; lia) end.
  reflexivity.
Qed.

(** Unfolding, with the calls folded. *)
Lemma toBson_S fuel invert depth l cur :
  toBson tb ver decimal maxDepth (S fuel) invert depth l cur =
    '(generic, l) ← readByte invert l;
    if generic =? 0 then Returned ([], l, cur)
    else
      '(name, l) ← readCString invert l;
      '(ctype, l) ← readByte invert l;
      '(v, l, cur) ← toBsonValue tb ver decimal maxDepth fuel ctype invert depth l cur;
      '(fields, l, cur) ← toBson tb ver decimal maxDepth fuel invert depth l cur;
      Returned ((name, v) :: fields, l, cur).
Proof. done. Qed.

Lemma toArray_S fuel invert depth l cur :
  toArray tb ver decimal maxDepth (S fuel) invert depth l cur =
    '(elemType, l) ← readByte invert l;
    if elemType =? 0 then Returned ([], l, cur)
    else
      '(v, l, cur) ← toBsonValue tb ver decimal maxDepth fuel elemType invert depth l cur;
      '(elems, l, cur) ← toArray tb ver decimal maxDepth fuel invert depth l cur;
      Returned (v :: elems, l, cur).
Proof. done. Qed.

Lemma number_read v bytes fuel depth invert t cur rest :
  encode ver None v = bytes → ReadsNumber tb ver decimal bytes invert t cur (normalised v) rest → (depth <= maxDepth)%nat → (length bytes <= fuel)%nat →
  ∃ c l cur', encode ver None v = c :: l ∧
    toBsonValue tb ver decimal maxDepth fuel c invert depth (flipIf invert l ++ t) cur = Returned (normalised v, t, cur') ∧
    Supplies tb cur' rest.
Proof.
  intros -> (c & l & -> & Hc & Hr) Hd Hf. cbn [length] in Hf. destruct fuel as [|fuel]; [lia|].
  destruct (Hr (Thrown 50811)) as (cur' & Hcur & Hs). exists c, l, cur'.
  split; [done|]. split; [|done]. by rewrite toBsonValue_numeric.
Qed.

Lemma fields_read fields :
  Forall (λ field, ReadsValue field.2) fields → forallb (λ field, isName field.1 && wellFormed false field.2) fields = true →
  ∀ fuel depth invert t cur rest,
    Forall (λ field, height field.2 + depth <= maxDepth)%nat fields →
    (length (encodeFields (λ v, encode ver None v) fields) <= fuel)%nat →
    Supplies tb cur (flat_map (λ field, typeBitsOf ver field.2) fields ++ rest) →
    ∃ cur', toBson tb ver decimal maxDepth fuel invert depth (flipIf invert (encodeFields (λ v, encode ver None v) fields) ++ t) cur =
              Returned (normalisedFields fields, t, cur') ∧ Supplies tb cur' rest.
Proof.
  induction fields as [|[name v] fields IH]; intros Hf Hok [|fuel] depth invert t cur rest Hd Hlen Hs;
    cbn [encodeFields encodeField length app flat_map forallb fst snd] in *; try lia.
  { exists cur. split; [|done]. rewrite toBson_S, readByte_flip. by destruct invert. }
  apply Forall_cons in Hf as [Hv Hf], Hd as [Hdv Hd]. rewrite !andb_true_iff in Hok. destruct Hok as [[Hname Hw] Hok].
  rewrite <- app_assoc in Hs. cbn [app] in Hlen |- *. cbn [fst snd] in *. rewrite <- !app_assoc in Hlen |- *. cbn [app length] in Hlen |- *.
  rewrite !length_app in Hlen. cbn [length] in Hlen. rewrite length_app in Hlen.
  set (more := encodeFields (λ v, encode ver None v) fields) in *.
  assert (Hstop : Stops invert (flipIf invert more ++ t)).
  { destruct (encodeFields_head ver None fields) as (h & l & He & Hh & _). unfold more. rewrite He. by apply flip_stops. }
  destruct (Hv Hw fuel depth invert (flipIf invert more ++ t) cur _ Hdv ltac:(lia) Hstop Hs) as (c & l & cur1 & Hc & Hr & Hs1).
  destruct (IH Hf Hok fuel depth invert t cur1 rest Hd ltac:(lia) Hs1) as (cur2 & Hr2 & Hs2).
  exists cur2. split; [|done]. rewrite toBson_S, readByte_flip. cbn [mbind Result_bind].
  pose proof (generic_bounds v). destruct (Z.eqb_spec (bsonTypeToGenericKeyStringType v) 0); [destruct v; simpl in *; lia|].
  rewrite readName_flip by done. cbn [mbind Result_bind]. rewrite Hc. cbn [app]. rewrite readByte_flip. cbn [mbind Result_bind].
  rewrite flipIf_app, <- app_assoc, Hr. cbn [mbind Result_bind]. by rewrite Hr2.
Qed.

Lemma elements_read elems :
  Forall (λ field, ReadsValue field.2) elems → forallb (λ field, wellFormed false field.2) elems = true →
  ∀ fuel depth invert t cur rest,
    Forall (λ field, height field.2 + depth <= maxDepth)%nat elems →
    (length (encodeElements (λ v, encode ver None v) elems) <= fuel)%nat →
    Supplies tb cur (flat_map (λ field, typeBitsOf ver field.2) elems ++ rest) →
    ∃ cur', toArray tb ver decimal maxDepth fuel invert depth (flipIf invert (encodeElements (λ v, encode ver None v) elems) ++ t) cur =
              Returned (map (λ field, normalised field.2) elems, t, cur') ∧ Supplies tb cur' rest.
Proof.
  induction elems as [|[name v] elems IH]; intros Hf Hok fuel depth invert t cur rest Hd Hlen Hs;
    cbn [fst snd encodeElements length app flat_map forallb] in *.
  { exists cur. split; [|done]. destruct fuel; [lia|]. rewrite toArray_S, readByte_flip. by destruct invert. }
  apply Forall_cons in Hf as [Hv Hf], Hd as [Hdv Hd]. cbn [snd] in Hv, Hdv. rewrite andb_true_iff in Hok. destruct Hok as [Hw Hok].
  rewrite <- app_assoc in Hs. rewrite length_app in Hlen. set (more := encodeElements (λ v, encode ver None v) elems) in *.
  destruct (encodeElements_head ver None elems) as (h & l' & He & Hh & _). fold more in He.
  assert (Hstop : Stops invert (flipIf invert more ++ t)) by (rewrite He; by apply flip_stops).
  assert (Hl : (1 <= length more)%nat) by (rewrite He; simpl; lia).
  destruct (encode_head ver None v) as (x & lx & Hx & Hxb). pose proof (generic_bounds v).
  assert (Hlv : (1 <= length (encode ver None v))%nat) by (rewrite Hx; simpl; lia).
  destruct fuel as [|fuel]; [lia|].
  destruct (Hv Hw fuel depth invert (flipIf invert more ++ t) cur _ Hdv ltac:(lia) Hstop Hs) as (c & l & cur1 & Hc & Hr & Hs1).
  destruct (IH Hf Hok fuel depth invert t cur1 rest Hd ltac:(lia) Hs1) as (cur2 & Hr2 & Hs2).
  exists cur2. split; [|done]. rewrite toArray_S. assert (c = x) as -> by congruence. rewrite Hc. cbn [app]. rewrite readByte_flip.
  cbn [mbind Result_bind]. destruct (Z.eqb_spec x 0); [lia|].
  rewrite flipIf_app, <- app_assoc, Hr. cbn [mbind Result_bind]. by rewrite Hr2.
Qed.

Lemma date_read m : - 2 ^ 63 <= m < 2 ^ 63 →
  let w := Z.lxor (m mod 2 ^ 64) (2 ^ 63) in 0 <= w < 2 ^ 64 ∧ toSigned64 (Z.lxor w (2 ^ 63)) = m.
Proof.
  intros Hm w. split; [unfold w; rewrite date_word by done; lia|]. unfold w.
  rewrite Z.lxor_assoc, Z.lxor_nilpotent, Z.lxor_0_r. unfold toSigned64.
  destruct (Z.lt_ge_cases m 0).
  - replace (m mod 2 ^ 64) with (m + 2 ^ 64) by (rewrite <- (Z.mod_add m 1 (2 ^ 64)), Z.mod_small by lia; lia).
    destruct (Z.leb_spec (2 ^ 63) (m + 2 ^ 64)); lia.
  - rewrite Z.mod_small by lia. destruct (Z.leb_spec (2 ^ 63) m); lia.
Qed.

Lemma binData_read invert data type t cur :
  fitsSize data = true →
  (('(size, l) ← readByte invert (flipIf invert (encodeBinData data type) ++ t);
    '(size, l) ← (if size =? 255 then readWord invert 4 l else Returned (size, l));
    '(subType, l) ← readByte invert l;
    '(data, l) ← readBytes invert (Z.to_nat size) l;
    Returned (BinData data subType, l, cur)) : Result Out) = Returned (BinData data type, t, cur).
Proof.
  unfold fitsSize, encodeBinData. rewrite Z.ltb_lt. intros Hl. cbv zeta. set (n := Z.of_nat (length data)) in *.
  assert (Hrest : ∀ k : Z * Bytes, k = (n, flipIf invert (type :: data) ++ t) →
    (('(size, l) ← Returned k; '(subType, l) ← readByte invert l; '(data, l) ← readBytes invert (Z.to_nat size) l;
      Returned (BinData data subType, l, cur)) : Result Out) = Returned (BinData data type, t, cur)).
  { intros k ->. cbn [mbind Result_bind]. rewrite readByte_flip. cbn [mbind Result_bind].
    rewrite readBytes_flip by (unfold n; by rewrite Nat2Z.id). done. }
  destruct (Z.ltb_spec n 255) as [Hs|Hs].
  - cbn [app]. rewrite readByte_flip. cbn [mbind Result_bind]. destruct (Z.eqb_spec n 255); [lia|]. by apply (Hrest (_, _)).
  - cbn [app]. rewrite readByte_flip. cbn [mbind Result_bind]. change (255 =? 255) with true. cbv iota.
    rewrite flipIf_app, <- app_assoc, (readWord_flip invert 4) by (change (256 ^ Z.of_nat 4) with (2 ^ 32); lia).
    by apply (Hrest (_, _)).
Qed.

(** Of a first byte that is known, its case of [toBsonValue]. *)
Ltac read_case :=
  cbn [toBsonValue];
  match goal with H : (_ <=? maxDepth)%nat = true |- _ => rewrite H end;
  cbn [keyStringAssert mbind Result_bind];
  repeat match goal with |- context [if Z.eqb ?a ?b then _ else _] =>
    let r := eval vm_compute in (Z.eqb a b) in
    match r with true => idtac | false => idtac end; change (Z.eqb a b) with r; cbv iota end.

Lemma value_read : ∀ v, ReadsValue v.
Proof.
  refine (value_ind _ _ _ _ _); [intros fields IH|intros elems IH|intros s scope IH|intros v].
  - intros Hw fuel depth invert t cur rest Hd Hlen Hstop Hs. cbn [encode height typeBitsOf wellFormed length] in *.
    destruct fuel as [|fuel]; [lia|].
    destruct (fields_read fields IH Hw fuel (depth + 1) invert t cur rest) as (cur' & Hr & Hc);
      [by apply height_fields|lia|done|].
    exists CType.kObject, (encodeFields (λ v, encode ver None v) fields), cur'. split; [done|]. split; [|done].
    assert (Hdl : (depth <=? maxDepth)%nat = true) by (apply Nat.leb_le; lia).
    transitivity (keyStringAssert Overflow (depth <=? maxDepth)%nat ≫= λ _,
      '(fields, l, cur) ← toBson tb ver decimal maxDepth fuel invert (depth + 1) (flipIf invert (encodeFields (λ v, encode ver None v) fields) ++ t) cur;
      Returned (Object fields, l, cur)); [reflexivity|]. rewrite Hdl, Hr. done.
  - intros Hw fuel depth invert t cur rest Hd Hlen Hstop Hs. cbn [encode height typeBitsOf wellFormed length] in *.
    destruct fuel as [|fuel]; [lia|]. rewrite andb_true_iff in Hw. destruct Hw as [Hpos Hw].
    destruct (elements_read elems IH Hw fuel (depth + 1) invert t cur rest) as (cur' & Hr & Hc);
      [by apply height_fields|lia|done|].
    exists CType.kArray, (encodeElements (λ v, encode ver None v) elems), cur'. split; [done|]. split; [|done].
    assert (Hdl : (depth <=? maxDepth)%nat = true) by (apply Nat.leb_le; lia).
    transitivity (keyStringAssert Overflow (depth <=? maxDepth)%nat ≫= λ _,
      '(elems, l, cur) ← toArray tb ver decimal maxDepth fuel invert (depth + 1) (flipIf invert (encodeElements (λ v, encode ver None v) elems) ++ t) cur;
      Returned (Array (arrayFields elems), l, cur)); [reflexivity|]. rewrite Hdl, Hr. cbn [mbind Result_bind keyStringAssert]. by rewrite arrayFields_read.
  - intros Hw fuel depth invert t cur rest Hd Hlen Hstop Hs. cbn [encode height typeBitsOf wellFormed length] in *.
    rewrite andb_true_iff in Hw. destruct Hw as [_ Hw]. destruct fuel as [|fuel]; [lia|]. rewrite length_app in Hlen.
    destruct (fields_read scope IH Hw fuel (depth + 2) invert t cur rest) as (cur' & Hr & Hc);
      [by apply height_fields|lia|done|].
    exists CType.kCodeWithScope, (encodeString s ++ encodeFields (λ v, encode ver None v) scope), cur'. split; [done|]. split; [|done].
    assert (Hdl : (depth <=? maxDepth)%nat = true) by (apply Nat.leb_le; lia).
    set (more := encodeFields (λ v, encode ver None v) scope) in *.
    transitivity (keyStringAssert Overflow (depth <=? maxDepth)%nat ≫= λ _,
      '(s, l) ← readCStringWithNuls invert (flipIf invert (encodeString s ++ more) ++ t);
      '(scope, l, cur) ← toBson tb ver decimal maxDepth fuel invert (depth + 2) l cur;
      Returned (CodeWScope s scope, l, cur)); [reflexivity|]. rewrite Hdl. cbn [keyStringAssert mbind Result_bind].
    rewrite flipIf_app, <- app_assoc, readString_flip; [cbn [mbind Result_bind]; by rewrite Hr|].
    destruct (encodeFields_head ver None scope) as (h & l & He & Hh & _). unfold more. rewrite He. by apply flip_stops.
  - assert (Hpos : (1 <= length (encode ver None v))%nat).
    { destruct (encode_head ver None v) as (x & l & -> & _). simpl. lia. }
    destruct v; try done; (intros Hw [|fuel] depth invert u cur rest Hd Hlen Hstop Hs;
      [exfalso; clear - Hpos Hlen; lia|]); clear Hpos;
      (assert (Hdl : (depth <=? maxDepth)%nat = true) by (apply Nat.leb_le; lia));
      cbn [wellFormed] in Hw; rewrite ?andb_true_iff, ?Z.leb_le, ?Z.ltb_lt in Hw.
    1-4: eexists _, [], cur; (split; [reflexivity|]); split; [read_case; by destruct invert|done].
    + apply (number_read (NumberDouble d) (numberBytes ver (meaning d))); [done| |lia|done].
      by apply double_number.
    + apply (number_read (NumberInt i) (numberBytes ver (Some (i * Double.one)))); [done| |lia|done].
      apply (integer_number tb ver decimal version i 0); [lia|by left; lia|done].
    + apply (number_read (NumberLong l) (numberBytes ver (Some (l * Double.one)))); [done| |lia|done].
      apply (integer_number tb ver decimal version l 1); [lia|by right|done].
    + destruct Hs as (c & Hc & Hs). eexists _, _, c. split; [reflexivity|]. split; [|done]. read_case.
      unfold readStringLike. rewrite Hc. cbn [mbind Result_bind].
      replace (_ || _) with true by done. cbn [keyStringAssert mbind Result_bind]. by rewrite readString_flip.
    + destruct Hs as (c & Hc & Hs). eexists _, _, c. split; [reflexivity|]. split; [|done]. read_case.
      unfold readStringLike. rewrite Hc. cbn [mbind Result_bind].
      replace (_ || _) with true by done. cbn [keyStringAssert mbind Result_bind]. by rewrite readString_flip.
    + eexists _, _, cur. split; [reflexivity|]. split; [|done]. read_case. apply binData_read. tauto.
    + eexists _, _, cur. split; [reflexivity|]. split; [|done]. read_case.
      rewrite readBytes_flip by (apply Nat.eqb_eq; tauto). done.
    + eexists _, [], cur. split; [reflexivity|]. split; [|done]. destruct b; read_case; by destruct invert.
    + destruct (date_read millis) as [Hr Ht]; [lia|]. eexists _, _, cur. split; [reflexivity|]. split; [|done]. read_case.
      rewrite (readWord_flip invert 8) by (by apply word_range). cbn [mbind Result_bind]. by rewrite Ht.
    + eexists _, _, cur. split; [reflexivity|]. split; [|done]. read_case. rewrite readName_flip by tauto. cbn [mbind Result_bind].
      rewrite readName_flip by tauto. by destruct invert.
    + eexists _, _, cur. split; [reflexivity|]. split; [|done]. read_case. unfold fitsSize in Hw. rewrite Z.ltb_lt in Hw.
      rewrite flipIf_app, <- app_assoc, (readWord_flip invert 4) by (change (256 ^ Z.of_nat 4) with (2 ^ 32); lia).
      cbn [mbind Result_bind]. rewrite flipIf_app, <- app_assoc, readBytes_flip by (by rewrite Nat2Z.id). cbn [mbind Result_bind].
      rewrite readBytes_flip by (apply Nat.eqb_eq; tauto). done.
    + eexists _, _, cur. split; [reflexivity|]. split; [|done]. read_case. by rewrite readString_flip.
    + assert (Hwf : Timestamp.wf t) by (unfold Timestamp.wf; lia). eexists _, _, cur. split; [reflexivity|]. split; [|done].
      read_case. rewrite (readWord_flip invert 8).
      * cbn [mbind Result_bind]. by rewrite Timestamp.ofULL_asULL.
      * apply word_range. rewrite Timestamp.asULL_value by done. destruct Hwf. lia.
Qed.
End Read.

(** ** Keys *)

Lemma bits_fields ver (fields : BSONObj) :
  Forall (λ field, Forall (λ x, x = 0 ∨ x = 1) (typeBitsOf ver field.2)) fields →
  Forall (λ x, x = 0 ∨ x = 1) (flat_map (λ field, typeBitsOf ver field.2) fields).
Proof. induction 1; simpl; [done|]. by apply Forall_app. Qed.

Lemma typeBits_bits ver : ∀ v, Forall (λ x, x = 0 ∨ x = 1) (typeBitsOf ver v).
Proof.
  refine (value_ind _ _ _ _ _); [by apply bits_fields|by apply bits_fields|intros s; by apply bits_fields|].
  - intros v. destruct v; simpl; rewrite ?Forall_cons, ?Forall_nil; auto. unfold doubleBits, zeroBits.
    destruct (_ && _); [destruct ver|]; rewrite !Forall_cons, Forall_nil; auto 10.
Qed.

Lemma keyBits_bits ver obj : Forall (λ x, x = 0 ∨ x = 1) (keyBits ver obj).
Proof. apply bits_fields. induction obj; constructor; [apply typeBits_bits|done]. Qed.

(** The fields of a key as they are read back, which have no names. *)
Definition unnamed (obj : BSONObj) : BSONObj := map (λ field, ([], normalised field.2)) obj.

Section Keys.
Context (tb : TypeBits) (ver : Version) (decimal : Z → bool → Z → Bytes → nat → Result Out) (maxDepth : nat) (ord : Z).
Context (version : tb_version tb = ver).

(** A field's first byte, and its value. *)
Lemma field_read i v more cur rest :
  wellFormed false v = true → (height v < maxDepth)%nat → Inner more → Supplies tb cur (typeBitsOf ver v ++ rest) →
  let invert := get ord i =? -1 in
  ∃ x t c l cur', encodeAt ver None ord i v ++ more = x :: t ∧ readByte invert (x :: t) = Returned (c, l) ∧ 10 <= c <= 240 ∧
    toBsonValue tb ver decimal maxDepth (2 * S (length l)) c invert 1 l cur = Returned (normalised v, more, cur') ∧
    Supplies tb cur' rest.
Proof.
  intros Hw Hd Hmore Hs invert. change (encodeAt ver None ord i v) with (flipIf invert (encode ver None v)).
  destruct (encode_head ver None v) as (c & l & Hc & Hb). pose proof (generic_bounds v).
  destruct (value_read tb ver decimal maxDepth version v Hw (2 * S (length (flipIf invert l ++ more)))%nat 1%nat invert more cur rest)
    as (c' & l' & cur' & Hc' & Hr & Hs'); [lia| |by apply Inner_stops|done|].
  { rewrite Hc, length_app, flipIf_length. simpl. lia. }
  assert (c' = c ∧ l' = l) as [-> ->] by (split; congruence). rewrite Hc.
  pose proof (readByte_flip invert c l more) as Hread.
  assert (∃ x t, flipIf invert (c :: l) ++ more = x :: t) as (x & t & Hx) by (destruct invert; by eexists _, _).
  rewrite Hx in Hread |- *. exists x, t, c, (flipIf invert l ++ more), cur'. split_and!; done || lia.
Qed.

Lemma toBsonFields_S fuel i x t cur :
  toBsonFields tb ver decimal maxDepth (S fuel) ord i (x :: t) cur =
    let invert := get ord i =? -1 in
    '(ctype, l) ← readByte invert (x :: t);
    '(ctype, l) ← (if (ctype =? kLess) || (ctype =? kGreater) then readByte invert l else Returned (ctype, l));
    if ctype =? kEnd then Returned []
    else '(v, l, cur) ← toBsonValue tb ver decimal maxDepth (2 * S (length l))%nat ctype invert 1 l cur;
         fields ← toBsonFields tb ver decimal maxDepth fuel ord (S i) l cur;
         Returned (([], v) :: fields).
Proof. done. Qed.

(** The first byte of a value is none of a discriminator and not that of the end. *)
Lemma first_byte c : 10 <= c <= 240 → (c =? kLess) || (c =? kGreater) = false ∧ (c =? kEnd) = false.
Proof. unfold kLess, kGreater, kEnd. destruct (Z.eqb_spec c 1), (Z.eqb_spec c 254), (Z.eqb_spec c 4); done || lia. Qed.

Lemma key_fields_read s obj :
  wellFormedObj None obj = true → Forall (λ field, height field.2 < maxDepth)%nat obj →
  ∀ i fuel cur, get ord (i + length obj) ≠ -1 → (length obj < fuel)%nat → Supplies tb cur (keyBits ver obj) →
  toBsonFields tb ver decimal maxDepth fuel ord i (encodeKey ver None ord i obj ++ kEnd :: s) cur = Returned (unnamed obj).
Proof.
  induction obj as [|[name v] obj IH]; intros Hw Hd i [|fuel] cur Hend Hf Hs; cbn [length] in *; try lia.
  { rewrite Nat.add_0_r in Hend. apply Z.eqb_neq in Hend. cbn [encodeKey app toBsonFields]. rewrite Hend. done. }
  apply Forall_cons in Hd as [Hdv Hd]. cbn [wellFormedObj forallb isCollated fst snd] in *.
  rewrite andb_true_iff in Hw. destruct Hw as [Hwv Hw]. cbn [encodeKey]. rewrite <- app_assoc.
  destruct (field_read i v (encodeKey ver None ord (S i) obj ++ kEnd :: s) cur (keyBits ver obj) Hwv Hdv
    ltac:(apply Inner_key, Inner_end) Hs) as (x & t & c & l & cur' & Hx & Hread & Hc & Hr & Hs').
  destruct (first_byte c Hc) as [H1 H2]. rewrite Hx, toBsonFields_S. cbv zeta. rewrite Hread. cbn [mbind Result_bind].
  rewrite H1. cbn [mbind Result_bind]. rewrite H2, Hr. cbn [mbind Result_bind].
  rewrite (IH Hw Hd (S i) fuel cur'); [done| |lia|done]. by replace (S i + length obj)%nat with (i + S (length obj))%nat by lia.
Qed.
End Keys.

(** ** The round trip *)

Lemma encodeKey_length ver f ord i obj : (length obj <= length (encodeKey ver f ord i obj))%nat.
Proof.
  revert i. induction obj as [|[name v] obj IH]; intros i; [done|]. cbn [encodeKey length]. rewrite length_app.
  specialize (IH (S i)). destruct (encodeAt_inner ver f ord i v []) as (x & l & He & _). rewrite app_nil_r in He.
  rewrite He. cbn [length]. lia.
Qed.

(** Serialized keys are read back from the front of a buffer. *)
Lemma deserialize_spec ver tb bits key rest :
  Packed tb bits → Forall (λ x, x = 0 ∨ x = 1) bits → Z.of_nat (length bits) < 2 ^ 34 → Z.of_nat (length key) < 2 ^ 32 →
  deserialize ver (rev (bigEndian 4 (Z.of_nat (length key))) ++ key ++ getBuffer tb ++ rest) =
    Returned (mkKeyValue ver (length key) (key ++ getBuffer tb), rest).
Proof.
  intros Hp Hb Hn Hl. unfold deserialize.
  rewrite (readBytes_flip false 4 (rev (bigEndian 4 (Z.of_nat (length key))))) by (by rewrite length_rev, bigEndian_length).
  cbn [mbind Result_bind]. rewrite rev_involutive, (ofBigEndian_word 4) by (change (256 ^ Z.of_nat 4) with (2 ^ 32); lia).
  rewrite Z.mul_0_l, Z.add_0_l, Nat2Z.id, (readBytes_flip false (length key) key) by done. cbn [mbind Result_bind].
  destruct (fromBuffer_spec ver tb bits rest Hp Hb Hn) as (tb' & Htb & _ & Hbuf & _). rewrite Htb. cbn [mbind Result_bind].
  rewrite Hbuf. destruct (_isAllZeros tb') eqn:Hz; [|done]. unfold getBuffer in Hbuf at 1. rewrite Hz in Hbuf. by rewrite <- Hbuf.
Qed.

(** A key is its bytes and its type bits. *)
Lemma key_parts ver ord f obj id k :
  indexKey ver ord f obj id = Returned k → obj ≠ [] → wellFormedObj f obj = true →
  match id with Some id => isRecordId id | None => True end →
  k = mkKeyValue ver (length (keyBytes k)) (keyBytes k ++ getBuffer (appendBits (keyBits ver obj) (newTypeBits ver))).
Proof.
  intros Hk Hne Hw Hid. destruct (indexKey_spec ver ord f obj id Hne Hw Hid) as (k' & Hk' & Hs & Hv & _ & Hd).
  assert (k' = k) as -> by congruence. destruct k as [v n buffer]. cbn [_version _ksSize _keyBuffer] in *. f_equal; [done|done|].
  rewrite <- Hd. symmetry. apply take_drop.
Qed.

(** The fields of documents that BSON can hold, of which no NaN but the quiet one is read back. *)
Definition sampleFields : BSONObj :=
  [([97], Object [([120], NumberDouble (2 ^ 63)); ([121], Array [([48], BsonString [104; 0]); ([49], Symbol [255])])]);
   ([98], NumberDouble 4617315517961601024); ([], NumberDouble 9221120237041090561); ([99], NumberLong (- 2 ^ 63))].

(** C9: The keys of an index without a collation are read back.  For both versions, every
    ordering that is ascending just behind the last field (where the reader meets the end; it
    throws otherwise, as [descending_end_not_read] says), and fields with well-formed values (no decimals, no
    zero inside the name of a DBRef, arrays whose elements are named by their positions) that nest
    less deep than the limit and have fewer than 2^34 type bits, generating the key returns, the
    type bits behind the key are read, and reading the key by them throws and aborts nowhere and
    returns the values of the fields, in order and without their names: each of its own type,
    negative zeros and the difference of equal numbers of several types included, every NaN as
    the quiet one.  And serializing a key of less than 2^31 bytes and reading it from the front of
    a buffer gives the key. *)
Theorem key_round_trip ver decimal maxDepth ord obj id :
  obj ≠ [] → wellFormedObj None obj = true → match id with Some id => isRecordId id | None => True end →
  Forall (λ field, height field.2 < maxDepth)%nat obj → get ord (length obj) ≠ -1 →
  Z.of_nat (length (keyBits ver obj)) < 2 ^ 34 →
  ∃ k tb, indexKey ver ord None obj id = Returned k ∧ getTypeBits k = Returned tb ∧
    toBsonSafe tb ver decimal maxDepth (keyBytes k) ord = Returned (unnamed obj) ∧
    (Z.of_nat (length (keyBytes k)) < 2 ^ 31 → ∀ rest, deserialize ver (serialize k ++ rest) = Returned (k, rest)).
Proof.
  intros Hne Hw Hid Hd Hend Hbits.
  destruct (indexKey_spec ver ord None obj id Hne Hw Hid) as (k & Hk & _ & Hver & Hbytes & Hbuf).
  pose proof (appendBits_packed _ _ _ (keyBits_bits ver obj) (Packed_new ver)) as Hp.
  destruct (fromBuffer_spec ver _ _ [] Hp (keyBits_bits ver obj) Hbits) as (tb & Htb & Htv & _ & Hs). rewrite app_nil_r in Htb.
  exists k, tb. split; [done|]. split; [unfold getTypeBits; by rewrite Hbuf, Hver, Htb|].
  split.
  - unfold toBsonSafe. rewrite Hbytes. apply key_fields_read; [done..| |done].
    rewrite length_app. pose proof (encodeKey_length ver None ord 0 obj). lia.
  - intros Hsize rest. pose proof (key_parts ver ord None obj id k Hk Hne Hw Hid) as Hparts. rewrite Hparts at 1 2.
    unfold serialize. cbn [_ksSize _keyBuffer]. rewrite <- !app_assoc.
    apply (deserialize_spec ver _ _ (keyBytes k) rest Hp (keyBits_bits ver obj) Hbits). lia.
Qed.

(** A descending first field, nested values, and numbers that are read back of their types. *)
Lemma key_round_trip_witness :
  unnamed sampleFields =
    [([], Object [([120], NumberDouble (2 ^ 63)); ([121], Array [([48], BsonString [104; 0]); ([49], Symbol [255])])]);
     ([], NumberDouble 4617315517961601024); ([], NumberDouble quietNaN); ([], NumberLong (- 2 ^ 63))] ∧
  ∃ k tb, indexKey V1 1 None sampleFields (Some 77) = Returned k ∧ getTypeBits k = Returned tb ∧
    toBsonSafe tb V1 (λ _ _ _ _ _, Terminated) 200 (keyBytes k) 1 = Returned (unnamed sampleFields) ∧
    (Z.of_nat (length (keyBytes k)) < 2 ^ 31 → ∀ rest, deserialize V1 (serialize k ++ rest) = Returned (k, rest)).
Proof.
  split; [vm_compute; reflexivity|].
  apply (key_round_trip V1 (λ _ _ _ _ _, Terminated) 200 1 sampleFields (Some 77)).
  - discriminate.
  - vm_compute. reflexivity.
  - split; [vm_compute; discriminate|vm_compute; reflexivity].
  - repeat constructor.
  - vm_compute. discriminate.
  - vm_compute. reflexivity.
Defined.
