(* ===== verification/KeyStringSkipping.v ===== *)
(** What the code reads over without type bits is what the builder wrote: keys end where they were
    ended and have the discriminator they were given. *)
From S2P Require Import Prelude OpTimes KeyBytes BsonValue DoubleFacts KeyString KeyStringNumbers KeyStringNumberCode KeyStringEncoding KeyStringOrder KeyStringDecode KeyStringReading KeyStringNumberReading KeyStringKeys KeyStringRoundTrip.
Import Double.

Lemma skip_flip invert n l t : Z.of_nat (length l) = n → skip n (flipIf invert l ++ t) = Returned t.
Proof.
  intros <-. unfold skip. rewrite length_app, flipIf_length. destruct (Z.ltb_spec (Z.of_nat (length l + length t)) (Z.of_nat (length l))); [lia|].
  by rewrite Nat2Z.id, <- (flipIf_length invert l), drop_app_length.
Qed.

Section Skip.
Context (ver : Version).

(** ** Numbers *)

Lemma small_skip negative invert x t :
  exact x → 0 < x < one → skipSmall ver invert (flipIf invert (bigEndian 8 (smallWord ver negative x)) ++ t) = Returned t.
Proof.
  intros Hx Hlt. destruct (smallWord_order ver negative x x Hx Hx) as [Hw _]; [lia..|].
  unfold skipSmall. rewrite (readWord_flip invert 8) by (by apply word_range). cbn [mbind Result_bind].
  destruct ver; [done|]. cbv zeta. destruct (smallWord_parts negative x Hx ltac:(lia)) as [(_ & Hp & Hl & _)|(_ & Hp & Hl & _)].
  - by rewrite Hp, Hl.
  - rewrite Hl. by destruct Hp as [-> | ->].
Qed.

Lemma large_skip negative invert x t :
  isMagnitude x → 2 ^ 63 * one <= x → skipLarge ver invert (flipIf invert (bigEndian 8 (largeWord ver negative x)) ++ t) = Returned t.
Proof.
  intros Hx Hle. destruct (largeWord_order ver negative x x Hx Hx Hle Hle) as [Hw _].
  unfold skipLarge. rewrite (readWord_flip invert 8) by (by apply word_range). cbn [mbind Result_bind].
  destruct ver; [done|]. change (bool_decide (V1 = V0)) with false. cbn [orb].
  destruct (largeWord_parts negative x Hx Hle) as [(_ & Ht & Hl & _ & Hne)|[_ ->]]; [|done].
  apply Z.eqb_neq in Hne. by rewrite Hne, Ht, Hl.
Qed.

Lemma medium_skip negative invert x t :
  isMagnitude x → one <= x < 2 ^ 63 * one →
  skipInt ver (integerType negative (x / one)) invert (flipIf invert (mediumBytes ver x) ++ t) = Returned t.
Proof.
  intros Hx Hm. pose proof (medium_integer x Hm) as Hip. unfold skipInt, mediumBytes. rewrite integerType_size by done.
  destruct (Z.eqb_spec (x mod one) 0) as [Hf|Hf].
  - destruct (integer_read invert (x / one) false t Hip) as (Hr & Hb & _). rewrite Z.add_0_r in Hr, Hb.
    rewrite Hr. cbn [mbind Result_bind]. by rewrite Hb.
  - rewrite flipIf_app, <- app_assoc. pose proof (medium_fraction x Hx Hm Hf) as He.
    match goal with |- context [flipIf invert (bigEndian _ (x mod one * _ / _)) ++ t] =>
      set (u := flipIf invert (bigEndian (Z.to_nat (fractionSize ver (x / one))) (x mod one * 2 ^ fractionScale ver (x / one) / one)) ++ t) end.
    destruct (integer_read invert (x / one) true u Hip) as (Hr & Hb & Hsh).
    change (Z.b2z true) with 1 in *. rewrite Hr. cbn [mbind Result_bind]. rewrite Hb, Hsh. cbn [negb]. cbv iota.
    pose proof (fraction_small x He (proj1 Hm) Hf) as Hsm. unfold u.
    destruct ver; cbv zeta.
    + destruct (fractionScale_bounds V0 (x / one) ltac:(lia)) as (H1 & H2 & _).
      assert (Hlog : 0 <= Z.log2 (x / one)) by apply Z.log2_nonneg.
      assert (Hexp : 52 - (64 - countLeadingZeros64 (x / one) - 1) = 52 - Z.log2 (x / one)).
      { unfold countLeadingZeros64. destruct (Z.eqb_spec (x / one) 0); lia. }
      rewrite Hexp, (Z.mod_small (52 - _)), (Z.mod_small (52 - _ + 7)) by lia. apply skip_flip.
      rewrite bigEndian_length. unfold fractionSize. rewrite Z2Nat.id; [done|]. apply Z.div_pos; lia.
    + destruct (fractionV1_word invert x t He Hm Hf) as (H1 & E & Hread & H0 & H4 & _). rewrite Hread. cbn [mbind Result_bind].
      assert (Hl : Z.land E 3 = 0) by (change 3 with (Z.ones 2); by rewrite Z.land_ones by lia).
      destruct (Z.eqb_spec (8 - integerSize (x / one)) 0); [lia|]. by rewrite Hl.
Qed.

Lemma number_skip m invert t :
  isNumber m → ∃ c l, numberBytes ver m = c :: l ∧ 30 <= c <= 51 ∧ skipNumeric ver c invert (flipIf invert l ++ t) = Returned t.
Proof.
  intros Hm. destruct m as [v|]; [|exists CType.kNumericNaN, []; split_and!; try done; by destruct invert].
  destruct (Z.eq_dec v 0) as [->|Hv]; [exists CType.kNumericZero, []; split_and!; try done; by destruct invert|].
  destruct Hm as [?|Hm]; [done|]. pose proof one_pos.
  assert (Hsigned : Some v = Some (if v <? 0 then - Z.abs v else Z.abs v)) by (f_equal; destruct (Z.ltb_spec v 0); lia).
  rewrite Hsigned, numberBytes_signed by lia. set (x := Z.abs v) in *. set (negative := v <? 0).
  assert (Hkey : (if negative then flipKey (magnitudeKey ver true x) else magnitudeKey ver false x) =
            (if negative then 2 * CType.kNumericZero - magnitudeClass x else magnitudeClass x) :: flipIf negative (magnitudeBytes ver negative x)).
  { by destruct negative. }
  rewrite Hkey. eexists _, _. split; [reflexivity|].
  destruct (magnitudeClass_bounds x (proj1 Hm)) as [[H1 Hc]|[[H1 Hc]|[H1 Hc]]].
  - rewrite Hc. split; [destruct negative; unfold CType.kNumericZero, CType.kNumeric; lia|].
    unfold magnitudeBytes. destruct (Z.ltb_spec x one); [|lia]. pose proof (small_exact x Hm H1) as He.
    destruct negative; cbn [flipIf]; [rewrite <- flipIf_negb; apply (small_skip true (negb invert))|apply (small_skip false invert)];
      destruct Hm; try done; lia.
  - split; [destruct negative; unfold CType.kNumericZero, CType.kNumeric; lia|]. clear Hc.
    unfold magnitudeBytes, magnitudeClass. destruct (Z.ltb_spec x one), (Z.ltb_spec x (2 ^ 63 * one)); try lia.
    pose proof (medium_integer x H1) as Hip. rewrite integer_class.
    assert (Hd : ∀ l, skipNumeric ver (integerType negative (x / one)) invert l =
              skipInt ver (integerType negative (x / one)) (signedInvert negative invert) l).
    { intros l. destruct (integer_words _ (x / one) eq_refl Hip) as (Hn & _). unfold integerType, CType.kNumericZero, CType.kNumeric.
      assert (Hs : integerSize (x / one) = 1 ∨ integerSize (x / one) = 2 ∨ integerSize (x / one) = 3 ∨ integerSize (x / one) = 4 ∨
                   integerSize (x / one) = 5 ∨ integerSize (x / one) = 6 ∨ integerSize (x / one) = 7 ∨ integerSize (x / one) = 8) by lia.
      destruct negative; repeat destruct Hs as [-> | Hs]; try rewrite Hs; reflexivity. }
    rewrite Hd. unfold signedInvert. destruct negative; cbn [flipIf]; [rewrite <- flipIf_negb|]; by apply medium_skip.
  - rewrite Hc. split; [destruct negative; unfold CType.kNumericZero, CType.kNumeric; lia|].
    unfold magnitudeBytes. destruct (Z.ltb_spec x one), (Z.ltb_spec x (2 ^ 63 * one)); try lia.
    destruct negative; cbn [flipIf]; [rewrite <- flipIf_negb; by apply (large_skip true (negb invert))|by apply (large_skip false invert)].
Qed.

(** ** Values *)

Definition SkipsValue (v : Value) : Prop :=
  ∀ f, wellFormed (isCollated f) v = true → ∀ fuel invert t,
    (length (encode ver f v) <= fuel)%nat → Stops invert t →
    ∃ c l, encode ver f v = c :: l ∧ filterKeyFromKeyString ver fuel c invert (flipIf invert l ++ t) = Returned t.

(** Unfolding, with the calls folded. *)
Lemma readBson_S fuel invert l :
  readBson ver (S fuel) invert l =
    '(generic, l) ← readByte invert l;
    if generic =? 0 then Returned l
    else
      '(_, l) ← readCString invert l;
      '(ctype, l) ← readByte invert l;
      l ← filterKeyFromKeyString ver fuel ctype invert l;
      readBson ver fuel invert l.
Proof. done. Qed.

Lemma filterArray_S fuel invert l :
  filterArray ver (S fuel) invert l =
    '(elemType, l) ← readByte invert l;
    if elemType =? 0 then Returned l
    else l ← filterKeyFromKeyString ver fuel elemType invert l; filterArray ver fuel invert l.
Proof. done. Qed.

Lemma filter_numeric fuel c invert l :
  30 <= c <= 51 → filterKeyFromKeyString ver (S fuel) c invert l = skipNumeric ver c invert l.
Proof.
  intros Hc. cbn [filterKeyFromKeyString].
  unfold CType.kMinKey, CType.kMaxKey, CType.kNullish, CType.kUndefined, CType.kBoolTrue, CType.kBoolFalse, CType.kBool, CType.kDate,
    CType.kTimestamp, CType.kOID, CType.kStringLike, CType.kCode, CType.kCodeWithScope, CType.kBinData, CType.kRegEx,
    CType.kDBRef, CType.kObject, CType.kArray.
  repeat match goal with |- context [Z.eqb c ?k] => replace (Z.eqb c k) with false by (symmetry; apply Z.eqb_neq; lia) end.
  reflexivity.
Qed.

Lemma fields_skip f fields :
  Forall (λ field, SkipsValue field.2) fields →
  forallb (λ field, isName field.1 && wellFormed (isCollated f) field.2) fields = true →
  ∀ fuel invert t, (length (encodeFields (λ v, encode ver f v) fields) <= fuel)%nat →
    readBson ver fuel invert (flipIf invert (encodeFields (λ v, encode ver f v) fields) ++ t) = Returned t.
Proof.
  induction fields as [|[name v] fields IH]; intros Hf Hok [|fuel] invert t Hlen;
    cbn [encodeFields encodeField length app forallb fst snd] in *; try lia.
  { rewrite readBson_S, readByte_flip. by destruct invert. }
  apply Forall_cons in Hf as [Hv Hf]. rewrite !andb_true_iff in Hok. destruct Hok as [[Hname Hw] Hok].
  cbn [app fst snd] in *. rewrite <- !app_assoc in Hlen |- *. cbn [app length] in Hlen |- *.
  rewrite !length_app in Hlen. cbn [length] in Hlen. rewrite length_app in Hlen.
  set (more := encodeFields (λ v, encode ver f v) fields) in *.
  assert (Hstop : Stops invert (flipIf invert more ++ t)).
  { destruct (encodeFields_head ver f fields) as (h & l & He & Hh & _). unfold more. rewrite He. by apply flip_stops. }
  destruct (Hv f Hw fuel invert (flipIf invert more ++ t) ltac:(lia) Hstop) as (c & l & Hc & Hr).
  rewrite readBson_S, readByte_flip. cbn [mbind Result_bind]. pose proof (generic_bounds v).
  destruct (Z.eqb_spec (bsonTypeToGenericKeyStringType v) 0); [destruct v; simpl in *; lia|].
  rewrite readName_flip by done. cbn [mbind Result_bind]. rewrite Hc. cbn [app]. rewrite readByte_flip. cbn [mbind Result_bind].
  rewrite flipIf_app, <- app_assoc, Hr. cbn [mbind Result_bind]. apply (IH Hf Hok). lia.
Qed.

Lemma elements_skip f elems :
  Forall (λ field, SkipsValue field.2) elems → forallb (λ field, wellFormed (isCollated f) field.2) elems = true →
  ∀ fuel invert t, (length (encodeElements (λ v, encode ver f v) elems) <= fuel)%nat →
    filterArray ver fuel invert (flipIf invert (encodeElements (λ v, encode ver f v) elems) ++ t) = Returned t.
Proof.
  induction elems as [|[name v] elems IH]; intros Hf Hok fuel invert t Hlen; cbn [fst snd encodeElements length app forallb] in *.
  { destruct fuel; [lia|]. rewrite filterArray_S, readByte_flip. by destruct invert. }
  apply Forall_cons in Hf as [Hv Hf]. cbn [snd] in Hv. rewrite andb_true_iff in Hok. destruct Hok as [Hw Hok].
  rewrite length_app in Hlen. set (more := encodeElements (λ v, encode ver f v) elems) in *.
  destruct (encodeElements_head ver f elems) as (h & l' & He & Hh & _). fold more in He.
  assert (Hstop : Stops invert (flipIf invert more ++ t)) by (rewrite He; by apply flip_stops).
  assert (Hl : (1 <= length more)%nat) by (rewrite He; simpl; lia).
  destruct (encode_head ver f v) as (x & lx & Hx & Hxb). pose proof (generic_bounds v).
  assert (Hlv : (1 <= length (encode ver f v))%nat) by (rewrite Hx; simpl; lia). destruct fuel as [|fuel]; [lia|].
  destruct (Hv f Hw fuel invert (flipIf invert more ++ t) ltac:(lia) Hstop) as (c & l & Hc & Hr).
  rewrite filterArray_S. assert (c = x) as -> by congruence. rewrite Hc. cbn [app]. rewrite readByte_flip.
  cbn [mbind Result_bind]. destruct (Z.eqb_spec x 0); [lia|].
  rewrite flipIf_app, <- app_assoc, Hr. cbn [mbind Result_bind]. apply (IH Hf Hok). lia.
Qed.

Lemma binData_skip invert data type t :
  fitsSize data = true →
  (('(size, l) ← readByte invert (flipIf invert (encodeBinData data type) ++ t);
    '(size, l) ← (if size =? 255 then readWord invert 4 l else Returned (size, l));
    '(_, l) ← readByte invert l;
    skip size l) : Result Bytes) = Returned t.
Proof.
  unfold fitsSize, encodeBinData. rewrite Z.ltb_lt. intros Hl. cbv zeta. set (n := Z.of_nat (length data)) in *.
  assert (Hrest : ∀ k : Z * Bytes, k = (n, flipIf invert (type :: data) ++ t) →
    (('(size, l) ← Returned k; '(_, l) ← readByte invert l; skip size l) : Result Bytes) = Returned t).
  { intros k ->. cbn [mbind Result_bind]. rewrite readByte_flip. cbn [mbind Result_bind]. by apply skip_flip. }
  destruct (Z.ltb_spec n 255) as [Hs|Hs].
  - cbn [app]. rewrite readByte_flip. cbn [mbind Result_bind]. destruct (Z.eqb_spec n 255); [lia|]. by apply (Hrest (_, _)).
  - cbn [app]. rewrite readByte_flip. cbn [mbind Result_bind]. change (255 =? 255) with true. cbv iota.
    rewrite flipIf_app, <- app_assoc, (readWord_flip invert 4) by (change (256 ^ Z.of_nat 4) with (2 ^ 32); lia).
    by apply (Hrest (_, _)).
Qed.

(** Of a first byte that is known, its case of [filterKeyFromKeyString]. *)
Ltac skip_case :=
  cbn [filterKeyFromKeyString];
  repeat match goal with |- context [if ?b then _ else _] =>
    let r := eval vm_compute in b in
    match r with true => idtac | false => idtac end; change b with r; cbv iota end.

Lemma value_skip : ∀ v, SkipsValue v.
Proof.
  refine (value_ind _ _ _ _ _); [intros fields IH|intros elems IH|intros s scope IH|intros v].
  - intros f Hw fuel invert t Hlen Hstop. cbn [encode wellFormed length] in *. destruct fuel as [|fuel]; [lia|].
    eexists _, _. split; [reflexivity|]. transitivity (readBson ver fuel invert (flipIf invert (encodeFields (λ v, encode ver f v) fields) ++ t)); [done|].
    apply (fields_skip f fields IH Hw). lia.
  - intros f Hw fuel invert t Hlen Hstop. cbn [encode wellFormed length] in *. destruct fuel as [|fuel]; [lia|].
    eexists _, _. split; [reflexivity|]. transitivity (filterArray ver fuel invert (flipIf invert (encodeElements (λ v, encode ver f v) elems) ++ t)); [done|].
    rewrite andb_true_iff in Hw. destruct Hw as [_ Hw]. apply (elements_skip f elems IH Hw). lia.
  - intros f Hw fuel invert t Hlen Hstop. cbn [encode wellFormed length] in *. rewrite andb_true_iff in Hw. destruct Hw as [_ Hw].
    destruct fuel as [|fuel]; [lia|]. rewrite length_app in Hlen. eexists _, _. split; [reflexivity|].
    set (more := encodeFields (λ v, encode ver None v) scope) in *.
    transitivity ('(_, l) ← readCStringWithNuls invert (flipIf invert (encodeString s ++ more) ++ t); readBson ver fuel invert l); [done|].
    rewrite flipIf_app, <- app_assoc, readString_flip.
    + cbn [mbind Result_bind]. apply (fields_skip None scope IH Hw). unfold more in Hlen. lia.
    + destruct (encodeFields_head ver None scope) as (h & l & He & Hh & _). unfold more. rewrite He. by apply flip_stops.
  - destruct (isNumeric v) eqn:Hnum.
    { assert (Hgoal : SkipsValue v); [|by destruct v].
      intros f Hw [|fuel] invert t Hlen Hstop; destruct (encode_head ver f v) as (x & lx & Hx & _).
      { rewrite Hx in Hlen. simpl in Hlen. lia. }
      rewrite (encode_number ver f v Hnum). destruct (number_skip (numberOf v) invert t (numberOf_isNumber _ v Hnum Hw)) as (c & l & Hc & Hb & Hr).
      exists c, l. split; [done|]. by rewrite filter_numeric. }
    destruct v; try done; (intros f Hw [|fuel] invert u Hlen Hstop; [exfalso; clear - Hlen; try destruct b; cbn in Hlen; lia|]);
      cbn [wellFormed] in Hw; rewrite ?andb_true_iff in Hw; clear Hlen Hnum; try (eexists _, _; split; [reflexivity|]; skip_case).
    1-4: by destruct invert.
    1-2, 9: by rewrite readString_flip.
    + apply binData_skip. tauto.
    + apply skip_flip. destruct Hw as [_ Hw%Nat.eqb_eq]. by rewrite Hw.
    + destruct b; skip_case; by destruct invert.
    + by apply skip_flip.
    + rewrite readName_flip by tauto. cbn [mbind Result_bind]. rewrite readName_flip by tauto. by destruct invert.
    + unfold fitsSize in Hw. rewrite Z.ltb_lt in Hw.
      rewrite flipIf_app, <- app_assoc, (readWord_flip invert 4) by (change (256 ^ Z.of_nat 4) with (2 ^ 32); lia).
      cbn [mbind Result_bind]. rewrite flipIf_app, <- app_assoc, skip_flip by done. cbn [mbind Result_bind].
      apply skip_flip. destruct Hw as [_ Hw%Nat.eqb_eq]. by rewrite Hw.
    + by apply skip_flip.
Qed.

(** ** Keys *)

Section Keys.
Context (f : StringTransformFn) (ord : Z).

(** A field's first byte, and what is behind its value. *)
Lemma field_skip i v more :
  wellFormed (isCollated f) v = true → Inner more →
  let invert := get ord i =? -1 in
  ∃ x t c l, encodeAt ver f ord i v ++ more = x :: t ∧ readByte invert (x :: t) = Returned (c, l) ∧ 10 <= c <= 240 ∧
    filterKeyFromKeyString ver (2 * S (length l)) c invert l = Returned more.
Proof.
  intros Hw Hmore invert. change (encodeAt ver f ord i v) with (flipIf invert (encode ver f v)).
  destruct (encode_head ver f v) as (c & l & Hc & Hb). pose proof (generic_bounds v).
  destruct (value_skip v f Hw (2 * S (length (flipIf invert l ++ more)))%nat invert more) as (c' & l' & Hc' & Hr);
    [|by apply Inner_stops|].
  { rewrite Hc, length_app, flipIf_length. simpl. lia. }
  assert (c' = c ∧ l' = l) as [-> ->] by (split; congruence). rewrite Hc.
  pose proof (readByte_flip invert c l more) as Hread.
  assert (∃ x t, flipIf invert (c :: l) ++ more = x :: t) as (x & t & Hx) by (destruct invert; by eexists _, _).
  rewrite Hx in Hread |- *. exists x, t, c, (flipIf invert l ++ more). split_and!; done || lia.
Qed.

Lemma keySizeLoop_S fuel i x t :
  keySizeLoop ver (S fuel) ord i (x :: t) =
    let invert := get ord i =? -1 in
    '(ctype, l) ← readByte invert (x :: t);
    if ctype =? kEnd then Returned (Z.of_nat (length (x :: t)))
    else l ← filterKeyFromKeyString ver (2 * S (length l))%nat ctype invert l; keySizeLoop ver fuel ord (S i) l.
Proof. done. Qed.

Lemma keySize_spec s obj :
  wellFormedObj f obj = true → ∀ i fuel, get ord (i + length obj) ≠ -1 → (length obj < fuel)%nat →
  keySizeLoop ver fuel ord i (encodeKey ver f ord i obj ++ kEnd :: s) = Returned (Z.of_nat (length (kEnd :: s))).
Proof.
  induction obj as [|[name v] obj IH]; intros Hw i [|fuel] Hend Hf; cbn [length] in Hend, Hf; try lia.
  { rewrite Nat.add_0_r in Hend. apply Z.eqb_neq in Hend. cbn [encodeKey app]. rewrite keySizeLoop_S. cbv zeta. by rewrite Hend. }
  cbn [wellFormedObj forallb fst snd] in Hw. rewrite andb_true_iff in Hw. destruct Hw as [Hwv Hw].
  cbn [encodeKey]. rewrite <- app_assoc.
  destruct (field_skip i v (encodeKey ver f ord (S i) obj ++ kEnd :: s) Hwv ltac:(apply Inner_key, Inner_end))
    as (x & t & c & l & Hx & Hread & Hc & Hr).
  destruct (first_byte c Hc) as [_ H2]. rewrite Hx, keySizeLoop_S. cbv zeta. rewrite Hread. cbn [mbind Result_bind].
  rewrite H2, Hr. cbn [mbind Result_bind]. apply (IH Hw (S i) fuel); [|lia].
  by replace (S i + length obj)%nat with (i + S (length obj))%nat by lia.
Qed.

Lemma discriminatorLoop_S fuel i x t :
  discriminatorLoop ver (S fuel) ord i (x :: t) =
    let invert := get ord i =? -1 in
    '(ctype, l) ← readByte invert (x :: t);
    if (ctype =? kLess) || (ctype =? kGreater) then
      let ctype := if invert then flipByte ctype else ctype in
      Returned (if ctype =? kLess then kExclusiveBefore else kExclusiveAfter)
    else if ctype =? kEnd then Returned kInclusive
    else l ← filterKeyFromKeyString ver (2 * S (length l))%nat ctype invert l; discriminatorLoop ver fuel ord (S i) l.
Proof. done. Qed.

Lemma discriminator_inner d s : Inner (discriminatorBytes d ++ kEnd :: s).
Proof. destruct d; eexists _, _; (split; [reflexivity|done]). Qed.

(** A discriminator is found in a descending place too, the end is not. *)
Lemma discriminator_spec d s obj :
  wellFormedObj f obj = true → ∀ i fuel, d ≠ kInclusive ∨ get ord (i + length obj) ≠ -1 → (length obj < fuel)%nat →
  discriminatorLoop ver fuel ord i (encodeKey ver f ord i obj ++ discriminatorBytes d ++ kEnd :: s) = Returned d.
Proof.
  induction obj as [|[name v] obj IH]; intros Hw i [|fuel] Hend Hf; cbn [length] in Hend, Hf; try lia.
  { rewrite Nat.add_0_r in Hend. cbn [encodeKey app].
    destruct d; cbn [discriminatorBytes app]; rewrite discriminatorLoop_S; cbv zeta.
    - destruct Hend as [|Hend%Z.eqb_neq]; [done|]. by rewrite Hend.
    - by destruct (get ord i =? -1).
    - by destruct (get ord i =? -1). }
  cbn [wellFormedObj forallb fst snd] in Hw. rewrite andb_true_iff in Hw. destruct Hw as [Hwv Hw].
  cbn [encodeKey]. rewrite <- app_assoc.
  destruct (field_skip i v (encodeKey ver f ord (S i) obj ++ discriminatorBytes d ++ kEnd :: s) Hwv
    ltac:(apply Inner_key, discriminator_inner)) as (x & t & c & l & Hx & Hread & Hc & Hr).
  destruct (first_byte c Hc) as [H1 H2]. rewrite Hx, discriminatorLoop_S. cbv zeta. rewrite Hread. cbn [mbind Result_bind].
  rewrite H1, H2, Hr. cbn [mbind Result_bind]. apply (IH Hw (S i) fuel); [|lia].
  by replace (S i + length obj)%nat with (i + S (length obj))%nat by lia.
Qed.
End Keys.
End Skip.

(** ** Keys for queries *)

(** The fields as they are read back, with names by their numbers. *)
Fixpoint named (nameOf : Z → Bytes) (i : nat) (obj : BSONObj) : BSONObj :=
  match obj with
  | [] => []
  | field :: obj => (nameOf (Z.of_nat i), normalised field.2) :: named nameOf (S i) obj
  end.

Definition discriminatorName (d : Discriminator) : Bytes :=
  match d with kExclusiveBefore => [108] | kExclusiveAfter => [103] | kInclusive => [] end.

Lemma Supplies_own tb bits : Packed tb bits → Forall (λ x, x = 0 ∨ x = 1) bits → Supplies tb 0 bits.
Proof.
  intros Hp Hb. destruct (_isAllZeros tb) eqn:Hz.
  - apply Supplies_zeros; [done|]. destruct Hp as (_ & H & _). by rewrite <- H.
  - exact (Supplies_packed tb tb bits Hp Hb Hz eq_refl 0).
Qed.

Section Pass.
Context (tb : TypeBits) (ver : Version) (decimal : Z → bool → Z → Bytes → nat → Result Out) (maxDepth : nat) (ord : Z).
Context (version : tb_version tb = ver).

Lemma discriminatorPass_S fuel nameOf i x t cur :
  discriminatorPass tb ver decimal maxDepth (S fuel) ord nameOf i (x :: t) cur =
    let invert := get ord i =? -1 in
    '(ctype, l) ← readByte invert (x :: t);
    if (ctype =? kLess) || (ctype =? kGreater) then
      let ctype := if invert then flipByte ctype else ctype in
      '(last, _) ← readByte false l;
      ensures (last =? kEnd) ≫= λ _,
      Returned ([], Some (if ctype =? kLess then [108] else [103], Z.of_nat i - 1))
    else if ctype =? kEnd then Returned ([], None)
    else
      '(v, l, cur) ← toBsonValue tb ver decimal maxDepth (2 * S (length l))%nat ctype invert 1 l cur;
      '(fields, d) ← discriminatorPass tb ver decimal maxDepth fuel ord nameOf (S i) l cur;
      Returned ((nameOf (Z.of_nat i), v) :: fields, d).
Proof. done. Qed.

Lemma pass_spec d s nameOf obj :
  wellFormedObj None obj = true → Forall (λ field, height field.2 < maxDepth)%nat obj →
  ∀ i fuel cur, d ≠ kInclusive ∨ get ord (i + length obj) ≠ -1 → (length obj < fuel)%nat → Supplies tb cur (keyBits ver obj) →
  discriminatorPass tb ver decimal maxDepth fuel ord nameOf i (encodeKey ver None ord i obj ++ discriminatorBytes d ++ kEnd :: s) cur =
    Returned (named nameOf i obj,
              match d with kInclusive => None | _ => Some (discriminatorName d, Z.of_nat (i + length obj) - 1) end).
Proof.
  induction obj as [|[name v] obj IH]; intros Hw Hd i [|fuel] cur Hend Hf Hs; cbn [length] in Hend, Hf; try lia.
  { rewrite Nat.add_0_r in Hend. change (length (@nil (Bytes * Value))) with 0%nat. rewrite Nat.add_0_r. cbn [encodeKey app].
    destruct d; cbn [discriminatorBytes app]; rewrite discriminatorPass_S; cbv zeta.
    - destruct Hend as [|Hend%Z.eqb_neq]; [done|]. by rewrite Hend.
    - by destruct (get ord i =? -1).
    - by destruct (get ord i =? -1). }
  apply Forall_cons in Hd as [Hdv Hd]. cbn [wellFormedObj forallb isCollated fst snd] in *.
  rewrite andb_true_iff in Hw. destruct Hw as [Hwv Hw]. cbn [encodeKey]. rewrite <- app_assoc.
  destruct (field_read tb ver decimal maxDepth ord version i v (encodeKey ver None ord (S i) obj ++ discriminatorBytes d ++ kEnd :: s) cur
    (keyBits ver obj) Hwv Hdv ltac:(apply Inner_key, discriminator_inner) Hs) as (x & t & c & l & cur' & Hx & Hread & Hc & Hr & Hs').
  destruct (first_byte c Hc) as [H1 H2]. rewrite Hx, discriminatorPass_S. cbv zeta. rewrite Hread. cbn [mbind Result_bind].
  rewrite H1, H2, Hr. cbn [mbind Result_bind]. cbn [named length snd].
  replace (i + S (length obj))%nat with (S i + length obj)%nat in * by lia.
  by rewrite (IH Hw Hd (S i) fuel cur') by (done || lia).
Qed.
End Pass.

(** The builder's own type bits. *)
Lemma builder_bits ver obj :
  let tb := appendBits (keyBits ver obj) (newTypeBits ver) in tb_version tb = ver ∧ Supplies tb 0 (keyBits ver obj).
Proof.
  split; [by rewrite appendBits_version|].
  pose proof (appendBits_packed _ _ _ (keyBits_bits ver obj) (Packed_new ver)) as Hp.
  exact (Supplies_own _ _ Hp (keyBits_bits ver obj)).
Qed.

Lemma pass_query ver decimal maxDepth ord d query nameOf cur :
  wellFormedObj None query = true → Forall (λ field, height field.2 < maxDepth)%nat query →
  d ≠ kInclusive ∨ get ord (length query) ≠ -1 →
  let tb := appendBits (keyBits ver query) (newTypeBits ver) in
  let buffer := encodeKey ver None ord 0 query ++ discriminatorBytes d ++ [kEnd] in
  cur = 0%nat →
  discriminatorPass tb ver decimal maxDepth (S (length buffer)) ord nameOf 0 buffer cur =
    Returned (named nameOf 0 query,
              match d with kInclusive => None | _ => Some (discriminatorName d, Z.of_nat (length query) - 1) end).
Proof.
  intros Hw Hd Hend tb buffer ->. destruct (builder_bits ver query) as [Hv Hs]. apply pass_spec; try done.
  unfold buffer. rewrite length_app. pose proof (encodeKey_length ver None ord 0 query). lia.
Qed.

(** C16: Keys for queries are read back.  For both versions and every ordering and discriminator,
    but for a key without a discriminator where the ordering descends behind the last value
    (on which [decodeDiscriminator] stops the server, as [descending_end_not_read] says), building the key of
    a query's well-formed values without a collation throws and aborts nowhere; from its bytes
    alone the discriminator is found, though it is not inverted in a descending place; and with the
    type bits of the builder the values are read, in order and each of its own type, the last of
    them under the name that says the discriminator.  The values nest less deep than the limit. *)
Theorem query_keys_read ver decimal maxDepth ord d query b :
  hasVersion ver b → wellFormedObj None query = true → Forall (λ field, height field.2 < maxDepth)%nat query →
  d ≠ kInclusive ∨ get ord (length query) ≠ -1 →
  ∃ b', resetToQuery query ord d b = Returned b' ∧
    decodeDiscriminator ver (_buffer b') ord = Returned d ∧
    toBsonSafeWithDiscriminator (_typeBits b') ver decimal maxDepth (_buffer b') ord =
      Returned (named (λ i, if i =? Z.of_nat (length query) - 1 then discriminatorName d else []) 0 query).
Proof.
  intros Hver Hw Hd Hend. destruct (resetToQuery_spec ver query ord d b Hver Hw) as (b' & Hb' & Hbuf & Hbits).
  exists b'. split; [done|]. split.
  - rewrite Hbuf. unfold decodeDiscriminator. apply (discriminator_spec ver None ord d [] query Hw); [done|].
    rewrite length_app. pose proof (encodeKey_length ver None ord 0 query). lia.
  - rewrite Hbuf, Hbits. unfold toBsonSafeWithDiscriminator. rewrite pass_query by done. cbn [mbind Result_bind].
    destruct d; cbn [discriminatorName]; [|by rewrite pass_query..].
    assert (Hnames : ∀ g h i, (∀ j, g j = h j) → named g i query = named h i query).
    { intros g h i Hgh. clear - Hgh. revert i. induction query as [|field query IH]; intros i; [done|]. simpl. by rewrite Hgh, IH. }
    f_equal. apply Hnames. intros j. by destruct (j =? _).
Qed.

Lemma query_keys_read_witness :
  named (λ i, if i =? 1 then [103] else []) 0 [([97], NumberLong 5); ([98], NumberDouble 4617315517961601024)] =
    [([], NumberLong 5); ([103], NumberDouble 4617315517961601024)] ∧
  ∃ b', resetToQuery [([97], NumberLong 5); ([98], NumberDouble 4617315517961601024)] 4 kExclusiveAfter (newBuilder V1 0 kInclusive) = Returned b' ∧
    decodeDiscriminator V1 (_buffer b') 4 = Returned kExclusiveAfter ∧
    toBsonSafeWithDiscriminator (_typeBits b') V1 (λ _ _ _ _ _, Terminated) 200 (_buffer b') 4 =
      Returned (named (λ i, if i =? 1 then [103] else []) 0 [([97], NumberLong 5); ([98], NumberDouble 4617315517961601024)]).
Proof.
  split; [reflexivity|].
  apply (query_keys_read V1 (λ _ _ _ _ _, Terminated) 200 4 kExclusiveAfter
    [([97], NumberLong 5); ([98], NumberDouble 4617315517961601024)] (newBuilder V1 0 kInclusive)).
  - done.
  - vm_compute. reflexivity.
  - repeat constructor.
  - left. discriminate.
Defined.

(** ** Record ids *)

(** The size of a key is found, whatever is behind it. *)
Lemma getKeySize_spec ver f ord obj s buffer :
  obj ≠ [] → wellFormedObj f obj = true → get ord (length obj) ≠ -1 →
  buffer = encodeKey ver f ord 0 obj ++ kEnd :: s → Z.of_nat (length buffer) < 2 ^ 32 →
  getKeySize ver buffer ord = Returned (Z.of_nat (length (encodeKey ver f ord 0 obj ++ [kEnd]))).
Proof.
  intros Hne Hw Hend Hb Hsize. pose proof (encodeKey_length ver f ord 0 obj) as Hl.
  assert (Hobj : (1 <= length obj)%nat) by (destruct obj; simpl; [done|lia]).
  assert (Hlen : length buffer = (length (encodeKey ver f ord 0 obj) + S (length s))%nat) by (rewrite Hb, length_app; done).
  assert (Hloop : keySizeLoop ver (S (length buffer)) ord 0 buffer = Returned (Z.of_nat (length (kEnd :: s)))).
  { rewrite Hb at 2. apply keySize_spec; [done|done|]. lia. }
  unfold getKeySize. cbv zeta. rewrite Hloop, length_app. cbn [length].
  destruct (Z.ltb_spec 0 (Z.of_nat (length buffer))); [|lia]. cbn [ensures mbind Result_bind].
  destruct (Z.ltb_spec (Z.of_nat (S (length s))) (Z.of_nat (length buffer))); [|lia].
  cbn [ensures mbind Result_bind]. f_equal. rewrite (Z.mod_small (_ - 1)), Z.mod_small by lia. lia.
Qed.

(** C17: Where a key ends and its record id starts is found.  The bytes of the id end the key, from
    their last one the size of the rest is found, the rest is the key that the same fields have
    without an id, and the id decodes to the one appended, for each id from 0 to the largest of 63
    bits.  Reading over the fields without type bits finds the same size, of the key with the id and of the one
    without, and that there is no discriminator, when the ordering is ascending behind the last
    field.  Serialized without the record id, the key is read back as the key without it. *)
Theorem record_id_round_trip ver ord collation obj id :
  obj ≠ [] → wellFormedObj collation obj = true → isRecordId id →
  ∃ k k0 n,
    indexKey ver ord collation obj (Some id) = Returned k ∧
    indexKey ver ord collation obj None = Returned k0 ∧
    decodeRecordIdAtEnd (keyBytes k) = Returned id ∧
    sizeWithoutRecordId k = Returned n ∧
    take n (keyBytes k) = keyBytes k0 ∧ (2 <= length (keyBytes k) - n <= 9)%nat ∧
    (get ord (length obj) ≠ -1 → Z.of_nat (length (keyBytes k)) < 2 ^ 32 →
     getKeySize ver (keyBytes k) ord = Returned (Z.of_nat n) ∧ getKeySize ver (keyBytes k0) ord = Returned (Z.of_nat n) ∧
     decodeDiscriminator ver (keyBytes k) ord = Returned kInclusive) ∧
    (Z.of_nat (length (keyBytes k)) < 2 ^ 31 → Z.of_nat (length (keyBits ver obj)) < 2 ^ 34 →
     ∃ bytes, serializeWithoutRecordId k = Returned bytes ∧ ∀ rest, deserialize ver (bytes ++ rest) = Returned (k0, rest)).
Proof.
  intros Hne Hw Hid.
  destruct (indexKey_spec ver ord collation obj (Some id) Hne Hw Hid) as (k & Hk & Hs & _ & Hbk & _).
  destruct (indexKey_spec ver ord collation obj None Hne Hw I) as (k0 & Hk0 & _ & _ & Hb0 & _).
  assert (Hb : keyBytes k = keyBytes k0 ++ idBytes id).
  { rewrite Hbk, Hb0, <- app_assoc. done. }
  destruct (id_at_end (keyBytes k0) id Hid) as [Hd Hn]. exists k, k0, (length (keyBytes k0)).
  assert (Hlen : length (idBytes id) = S (S (idExtra id))) by apply bigEndian_length.
  destruct (idExtra_bounds id Hid) as (_ & Hx & _). split_and!; try done.
  - by rewrite Hb.
  - unfold sizeWithoutRecordId. rewrite Hs, Hb, Hn, length_app, Hlen. by rewrite Nat.add_succ_r.
  - rewrite Hb. apply take_app_length.
  - rewrite Hb, length_app, Hlen. lia.
  - rewrite Hb, length_app, Hlen. lia.
  - intros Hend Hsize. rewrite Hb0. split_and!.
    + by apply (getKeySize_spec ver collation ord obj (idBytes id)).
    + apply (getKeySize_spec ver collation ord obj []); try done. rewrite <- Hb0. rewrite Hb, length_app in Hsize. lia.
    + unfold decodeDiscriminator. rewrite Hbk at 2. apply (discriminator_spec ver collation ord kInclusive); [done|by right|].
      rewrite Hbk, length_app. pose proof (encodeKey_length ver collation ord 0 obj). lia.
  - intros Hsize Hbits. pose proof (key_parts ver ord collation obj (Some id) k Hk Hne Hw Hid) as Hparts.
    pose proof (key_parts ver ord collation obj None k0 Hk0 Hne Hw I) as Hparts0.
    pose proof (appendBits_packed _ _ _ (keyBits_bits ver obj) (Packed_new ver)) as Hp. cbn [app] in Hp.
    set (tb := appendBits (keyBits ver obj) (newTypeBits ver)) in *.
    eexists. split; [unfold serializeWithoutRecordId; rewrite Hb, Hn; reflexivity|]. intros rest.
    assert (Hkey : take (length (keyBytes k0)) (_keyBuffer k) = keyBytes k0 ∧ drop (_ksSize k) (_keyBuffer k) = getBuffer tb).
    { rewrite Hparts. cbn [_ksSize _keyBuffer]. split; [|apply drop_app_length].
      rewrite Hb, <- app_assoc. apply take_app_length. }
    destruct Hkey as [-> ->]. rewrite <- !app_assoc.
    transitivity (Returned (mkKeyValue ver (length (keyBytes k0)) (keyBytes k0 ++ getBuffer tb), rest)); [|by rewrite <- Hparts0].
    apply (deserialize_spec ver tb (keyBits ver obj) (keyBytes k0) rest Hp (keyBits_bits ver obj) Hbits).
    rewrite Hb, length_app in Hsize. lia.
Qed.

Lemma record_id_round_trip_witness :
  ∃ k k0 n,
    indexKey V1 0 None sampleFields (Some (2 ^ 63 - 1)) = Returned k ∧
    indexKey V1 0 None sampleFields None = Returned k0 ∧
    decodeRecordIdAtEnd (keyBytes k) = Returned (2 ^ 63 - 1) ∧
    sizeWithoutRecordId k = Returned n ∧
    take n (keyBytes k) = keyBytes k0 ∧ (2 <= length (keyBytes k) - n <= 9)%nat ∧
    (get 0 (length sampleFields) ≠ -1 → Z.of_nat (length (keyBytes k)) < 2 ^ 32 →
     getKeySize V1 (keyBytes k) 0 = Returned (Z.of_nat n) ∧ getKeySize V1 (keyBytes k0) 0 = Returned (Z.of_nat n) ∧
     decodeDiscriminator V1 (keyBytes k) 0 = Returned kInclusive) ∧
    (Z.of_nat (length (keyBytes k)) < 2 ^ 31 → Z.of_nat (length (keyBits V1 sampleFields)) < 2 ^ 34 →
     ∃ bytes, serializeWithoutRecordId k = Returned bytes ∧ ∀ rest, deserialize V1 (bytes ++ rest) = Returned (k0, rest)).
Proof.
  apply (record_id_round_trip V1 0 None sampleFields (2 ^ 63 - 1)).
  - discriminate.
  - vm_compute. reflexivity.
  - split; [vm_compute; discriminate|vm_compute; reflexivity].
Defined.

(** ** Ends in a descending place *)

(** A query on the first field of an index whose second field is descending: [toBsonSafe] throws on its
    key with a discriminator and without; and [decodeDiscriminator], which finds discriminators
    there, stops the server on the key without. *)
Lemma descending_end_not_read :
  ∃ b b', resetToQuery [([97], NumberInt 5)] 2 kExclusiveAfter (newBuilder V1 0 kInclusive) = Returned b ∧
    resetToQuery [([97], NumberInt 5)] 2 kInclusive (newBuilder V1 0 kInclusive) = Returned b' ∧
    toBsonSafe (_typeBits b) V1 (λ _ _ _ _ _, Terminated) 200 (_buffer b) 2 = Thrown 50811 ∧
    toBsonSafe (_typeBits b') V1 (λ _ _ _ _ _, Terminated) 200 (_buffer b') 2 = Thrown 50811 ∧
    decodeDiscriminator V1 (_buffer b) 2 = Returned kExclusiveAfter ∧
    decodeDiscriminator V1 (_buffer b') 2 = Terminated.
Proof. eexists _, _. split; [vm_compute; reflexivity|]. split; [vm_compute; reflexivity|]. vm_compute. auto. Qed.
