(* ===== verification/BsonValidate.v ===== *)
(** The validation of BSON that comes from outside, src/mongo/bson/bson_validate.cpp: a machine with
    a stack of frames over a buffer.  The memory is the list [data]; reading behind its end, which
    in the code is undefined, is [Wild].  Messages of errors are not modelled, but which element
    they print is: it is read without further checks.  An element is given by its position.  The
    version the validator is given is stored in its buffer and read nowhere, so it is left out. *)
From S2P Require Import Prelude KeyBytes.

Definition Bytes : Type := list Z.

(** What a call may come to; [Endless] is running out of fuel. *)
Inductive Checked (A : Type) := Valid (a : A) | Invalid (code idElem : Z) | Wild | Endless.
Arguments Valid {A} _.
Arguments Invalid {A} _ _.
Arguments Wild {A}.
Arguments Endless {A}.

#[global] Instance Checked_bind : MBind Checked := λ A B f m,
  match m with Valid a => f a | Invalid c i => Invalid c i | Wild => Wild | Endless => Endless end.

Definition InvalidBSON : Z := 22.
Definition Overflow : Z := 15.

(** The position of no element, [BSONElement()]. *)
Definition eoo : Z := 0.

Module BSONType.
Definition MinKey : Z := -1.
Definition EOO : Z := 0.
Definition NumberDouble : Z := 1.
Definition String : Z := 2.
Definition Object : Z := 3.
Definition Array : Z := 4.
Definition BinData : Z := 5.
Definition Undefined : Z := 6.
Definition jstOID : Z := 7.
Definition Bool : Z := 8.
Definition Date : Z := 9.
Definition jstNULL : Z := 10.
Definition RegEx : Z := 11.
Definition DBRef : Z := 12.
Definition Code : Z := 13.
Definition Symbol : Z := 14.
Definition CodeWScope : Z := 15.
Definition NumberInt : Z := 16.
Definition bsonTimestamp : Z := 17.
Definition NumberLong : Z := 18.
Definition NumberDecimal : Z := 19.
Definition MaxKey : Z := 127.
End BSONType.

(** A word as a signed integer of [bits] bits. *)
Definition signed (bits v : Z) : Z := (v + 2 ^ (bits - 1)) mod 2 ^ bits - 2 ^ (bits - 1).

Definition kOIDSize : Z := 12.

(** ** The buffer *)

Record Buffer := mkBuffer { _position : Z; _idElem : Z }.

Definition setPosition (pos : Z) (b : Buffer) : Buffer := mkBuffer pos (_idElem b).
Definition setIdElem (idElem : Z) (b : Buffer) : Buffer := mkBuffer (_position b) idElem.

(** [memchr] for a zero, in [n] bytes. *)
Fixpoint memchr (l : Bytes) (n : Z) : Checked (option Z) :=
  if n <=? 0 then Valid None
  else
    match l with
    | [] => Wild
    | x :: l =>
        if x =? 0 then Valid (Some 0)
        else r ← memchr l (n - 1); Valid (match r with Some k => Some (k + 1) | None => None end)
    end.

Section Validate.
Context (data : Bytes) (_maxLength maxDepth : Z).

(** A number of [n] bytes in little endian order, unless it ends behind [_maxLength]. *)
Definition readNumber (n : Z) (b : Buffer) : Checked (option (Z * Buffer)) :=
  if _maxLength <? (_position b + n) mod 2 ^ 64 then Valid None
  else if Z.of_nat (length data) <? _position b + n then Wild
  else
    Valid (Some (ofBigEndian 0 (rev (take (Z.to_nat n) (drop (Z.to_nat (_position b)) data))),
                 setPosition ((_position b + n) mod 2 ^ 64) b)).

Definition makeError {A} (idElem : Z) : Checked A := Invalid InvalidBSON idElem.

Definition readCString (b : Buffer) : Checked (Bytes * Buffer) :=
  x ← memchr (drop (Z.to_nat (_position b)) data) ((_maxLength - _position b) mod 2 ^ 64);
  match x with
  | None => makeError (_idElem b)
  | Some len =>
      Valid (take (Z.to_nat len) (drop (Z.to_nat (_position b)) data), setPosition ((_position b + len + 1) mod 2 ^ 64) b)
  end.

Definition skip (sz : Z) (b : Buffer) : bool * Buffer :=
  let pos := (_position b + sz mod 2 ^ 64) mod 2 ^ 64 in (pos <? _maxLength, setPosition pos b).

Definition readUTF8String (b : Buffer) : Checked Buffer :=
  n ← readNumber 4 b;
  match n with
  | None => makeError (_idElem b)
  | Some (sz, b) =>
      let sz := signed 32 sz in
      if sz <=? 0 then makeError (_idElem b)
      else
        let '(ok, b) := skip (sz - 1) b in
        if negb ok then makeError (_idElem b)
        else
          c ← readNumber 1 b;
          match c with
          | None => makeError (_idElem b)
          | Some (c, b) => if negb (c =? 0) then makeError (_idElem b) else Valid b
          end
  end.

(** [if (!buffer->skip(sz)) return makeError(..); return Status::OK()]. *)
Definition skipOr (sz idElem : Z) (b : Buffer) : Checked Buffer :=
  let '(ok, b) := skip sz b in if ok then Valid b else makeError idElem.

(** ** Elements *)

Inductive State := BeginObj | WithinObj | EndObj | BeginCodeWScope | EndCodeWScope | Done.

(** The part of [validateElementInfo] behind the name. *)
Definition validateValue (type idElem : Z) (nextState : State) (b : Buffer) : Checked (State * Buffer) :=
  let same (r : Checked Buffer) : Checked (State * Buffer) := b ← r; Valid (nextState, b) in
  if (type =? BSONType.MinKey) || (type =? BSONType.MaxKey) || (type =? BSONType.jstNULL) || (type =? BSONType.Undefined)
  then Valid (nextState, b)
  else if type =? BSONType.jstOID then same (skipOr kOIDSize idElem b)
  else if type =? BSONType.NumberInt then same (skipOr 4 idElem b)
  else if type =? BSONType.Bool then
    n ← readNumber 1 b;
    match n with
    | None => makeError idElem
    | Some (val, b) => if negb (val =? 0) && negb (val =? 1) then makeError idElem else Valid (nextState, b)
    end
  else if (type =? BSONType.NumberDouble) || (type =? BSONType.NumberLong) || (type =? BSONType.bsonTimestamp)
          || (type =? BSONType.Date) then same (skipOr 8 idElem b)
  else if type =? BSONType.NumberDecimal then same (skipOr 16 idElem b)
  else if type =? BSONType.DBRef then same (b ← readUTF8String b; skipOr kOIDSize idElem b)
  else if type =? BSONType.RegEx then
    '(_, b) ← readCString b;
    '(_, b) ← readCString b;
    Valid (nextState, b)
  else if (type =? BSONType.Code) || (type =? BSONType.Symbol) || (type =? BSONType.String) then same (readUTF8String b)
  else if type =? BSONType.BinData then
    n ← readNumber 4 b;
    match n with
    | None => makeError idElem
    | Some (sz, b) =>
        let sz := signed 32 sz in
        if (sz <? 0) || (sz =? 2 ^ 31 - 1) then makeError idElem else same (skipOr (1 + sz) idElem b)
    end
  else if type =? BSONType.CodeWScope then Valid (BeginCodeWScope, b)
  else if (type =? BSONType.Object) || (type =? BSONType.Array) then Valid (BeginObj, b)
  else makeError idElem.

(** The next state, the name of the element and the buffer. *)
Definition validateElementInfo (nextState : State) (idElem : Z) (b : Buffer) : Checked (State * Bytes * Buffer) :=
  n ← readNumber 1 b;
  match n with
  | None => makeError idElem
  | Some (byte, b) =>
      let type := signed 8 byte in
      if type =? BSONType.EOO then Valid (EndObj, [], b)
      else
        '(elemName, b) ← readCString b;
        '(nextState, b) ← validateValue type idElem nextState b;
        Valid (nextState, elemName, b)
  end.

(** ** Frames *)

(** The sign bit of the start says whether the frame is of code with a scope. *)
Record Frame := mkFrame { _startPosition : Z; expectedSize : Z }.

Definition ValidationObjectFrame : Frame := mkFrame 0 0.
Definition startPosition (f : Frame) : Z := Z.land (_startPosition f) (2 ^ 31 - 1).
Definition isCodeWithScope (f : Frame) : bool := Z.testbit (_startPosition f) 31.
Definition setStartPosition (pos : Z) (f : Frame) : Frame :=
  mkFrame (Z.lor (Z.land (_startPosition f) (2 ^ 31)) (Z.land pos (2 ^ 31 - 1))) (expectedSize f).
Definition setIsCodeWithScope (b : bool) (f : Frame) : Frame :=
  mkFrame (if b then Z.lor (_startPosition f) (2 ^ 31) else Z.land (_startPosition f) (2 ^ 31 - 1)) (expectedSize f).
Definition setExpectedSize (n : Z) (f : Frame) : Frame := mkFrame (_startPosition f) n.

(** ** The machine *)

(** The variables of [validateBSONIterative]; [curr] is the first of the frames. *)
Record Machine := mkMachine {
  frames : list Frame;
  state : State;
  idElemStartPos : Z;
  idElem : Z;
  buffer : Buffer
}.

Definition initial : Machine := mkMachine [] BeginObj 0 eoo (mkBuffer 0 eoo).

Definition idName : Bytes := [95; 105; 100].

Definition withinObj (m : Machine) : Checked Machine :=
  let atTopLevel := (length (frames m) =? 1)%nat in
  let m :=
    if atTopLevel && negb (idElemStartPos m =? 0) then
      mkMachine (frames m) (state m) 0 (idElemStartPos m) (setIdElem (idElemStartPos m) (buffer m))
    else m in
  let elemStartPos := _position (buffer m) in
  '(nextState, elemName, b) ← validateElementInfo (state m) (idElem m) (buffer m);
  let found :=
    match nextState with EndObj => false | _ => (idElem m =? eoo) && atTopLevel && bool_decide (elemName = idName) end in
  Valid (mkMachine (frames m) nextState (if found then elemStartPos else idElemStartPos m) (idElem m) b).

Definition actualLength (m : Machine) (curr : Frame) : Z := signed 32 ((_position (buffer m) - startPosition curr) mod 2 ^ 64).

(** The start of a frame, with the size that is read; [None] when there is no size. *)
Definition pushFrame (scope : bool) (m : Machine) : Checked (option Machine) :=
  let curr := setIsCodeWithScope scope (setStartPosition (_position (buffer m)) ValidationObjectFrame) in
  n ← readNumber 4 (buffer m);
  match n with
  | None => Valid None
  | Some (size, b) =>
      Valid (Some (mkMachine (setExpectedSize (signed 32 size) curr :: frames m) (state m) (idElemStartPos m) (idElem m) b))
  end.

Definition withState (s : State) (m : Machine) : Machine :=
  mkMachine (frames m) s (idElemStartPos m) (idElem m) (buffer m).

(** One turn of the loop. *)
Definition step (m : Machine) : Checked Machine :=
  match state m with
  | BeginObj =>
      if maxDepth <? Z.of_nat (length (frames m)) then Invalid Overflow eoo
      else
        o ← pushFrame false m;
        match o with
        | None => makeError (idElem m)
        | Some m => withinObj (withState WithinObj m)
        end
  | WithinObj => withinObj m
  | EndObj =>
      match frames m with
      | [] => Wild
      | curr :: rest =>
          if negb (actualLength m curr =? expectedSize curr) then makeError (idElem m)
          else
            let next :=
              match rest with
              | [] => Done
              | curr :: _ => if isCodeWithScope curr then EndCodeWScope else WithinObj
              end in
            Valid (mkMachine rest next (idElemStartPos m) (idElem m) (buffer m))
      end
  | BeginCodeWScope =>
      o ← pushFrame true m;
      match o with
      | None => makeError (idElem m)
      | Some m =>
          b ← readUTF8String (buffer m);
          Valid (mkMachine (frames m) BeginObj (idElemStartPos m) (idElem m) b)
      end
  | EndCodeWScope =>
      match frames m with
      | [] => Wild
      | curr :: rest =>
          if negb (actualLength m curr =? expectedSize curr) then makeError (idElem m)
          else
            match rest with
            | [] => makeError (idElem m)
            | _ => Valid (mkMachine rest WithinObj (idElemStartPos m) (idElem m) (buffer m))
            end
      end
  | Done => Valid m
  end.

Fixpoint loop (fuel : nat) (m : Machine) : Checked Machine :=
  match state m with
  | Done => Valid m
  | _ =>
      match fuel with
      | O => Endless
      | S fuel => m ← step m; loop fuel m
      end
  end.

(** Every turn reads a byte or takes a frame away, and a frame is not put there without reading. *)
Definition enough : nat := Z.to_nat (4 * _maxLength + 8).

Definition validateBSONIterative : Checked Machine := loop enough initial.
End Validate.

(** The buffer ends where the memory does. *)
Definition validateBSON (data : Bytes) (maxLength maxDepth : Z) : Checked Machine :=
  if maxLength <? 5 then Invalid InvalidBSON eoo else validateBSONIterative data maxLength maxDepth.
