(* ===== verification/BsonGrammar.v ===== *)
(** The documents of BSON as trees, their encoding, and that the validator's reads from the buffer
    are those of the parts of the encoding. *)
From S2P Require Import Prelude KeyBytes BsonValidate.

(** ** Documents *)

(** What follows the name of an element: bytes of a fixed size; a string and what is behind it; two names;
    binary data; a document; code with a scope. *)
#[local] Unset Elimination Schemes.
Inductive Payload :=
  | Raw (bytes : Bytes)
  | Text (s after : Bytes)
  | Pattern (pattern flags : Bytes)
  | Binary (subtype : Z) (bytes : Bytes)
  | Nested (fields : list (Z * Bytes * Payload))
  | Scoped (s : Bytes) (fields : list (Z * Bytes * Payload)).
#[local] Set Elimination Schemes.

Definition Field : Type := Z * Bytes * Payload.
Definition fieldType (f : Field) : Z := f.1.1.
Definition fieldName (f : Field) : Bytes := f.1.2.

Definition le32 (n : Z) : Bytes := rev (bigEndian 4 n).
Definition size (l : Bytes) : Z := Z.of_nat (length l).

Definition encodeText (s : Bytes) : Bytes := le32 (size s + 1) ++ s ++ [0].
Definition encodeHeader (type : Z) (name : Bytes) : Bytes := type mod 256 :: name ++ [0].
Definition sized (body : Bytes) : Bytes := le32 (4 + size body) ++ body.

Fixpoint encodePayload (p : Payload) : Bytes :=
  match p with
  | Raw bytes => bytes
  | Text s after => encodeText s ++ after
  | Pattern pattern flags => (pattern ++ [0]) ++ flags ++ [0]
  | Binary subtype bytes => le32 (size bytes) ++ subtype :: bytes
  | Nested fields => sized (flat_map (λ f, encodeHeader f.1.1 f.1.2 ++ encodePayload f.2) fields ++ [0])
  | Scoped s fields =>
      sized (encodeText s ++ sized (flat_map (λ f, encodeHeader f.1.1 f.1.2 ++ encodePayload f.2) fields ++ [0]))
  end.

Definition encodeField (f : Field) : Bytes := encodeHeader f.1.1 f.1.2 ++ encodePayload f.2.
Definition encodeFields (fields : list Field) : Bytes := flat_map encodeField fields.
Definition encodeDocument (fields : list Field) : Bytes := sized (encodeFields fields ++ [0]).

(** ** Well-typed documents *)

(** The sizes of the types whose size is fixed. *)
Definition fixedSize (type : Z) : option nat :=
  if (type =? BSONType.MinKey) || (type =? BSONType.MaxKey) || (type =? BSONType.jstNULL) || (type =? BSONType.Undefined) then Some 0%nat
  else if type =? BSONType.jstOID then Some 12%nat
  else if type =? BSONType.NumberInt then Some 4%nat
  else if type =? BSONType.Bool then Some 1%nat
  else if (type =? BSONType.NumberDouble) || (type =? BSONType.NumberLong) || (type =? BSONType.bsonTimestamp)
          || (type =? BSONType.Date) then Some 8%nat
  else if type =? BSONType.NumberDecimal then Some 16%nat
  else None.

Definition noNul (s : Bytes) : bool := forallb (λ x, negb (x =? 0)) s.

Definition isText (type : Z) : bool := (type =? BSONType.Code) || (type =? BSONType.Symbol) || (type =? BSONType.String).
Definition isDocument (type : Z) : bool := (type =? BSONType.Object) || (type =? BSONType.Array).

Fixpoint typed (type : Z) (p : Payload) : bool :=
  match p with
  | Raw bytes =>
      bool_decide (fixedSize type = Some (length bytes)) &&
      (negb (type =? BSONType.Bool) || bool_decide (bytes = [0] ∨ bytes = [1]))
  | Text s after => isText type && bool_decide (after = []) || (type =? BSONType.DBRef) && (length after =? 12)%nat
  | Pattern pattern flags => (type =? BSONType.RegEx) && noNul pattern && noNul flags
  | Binary _ _ => type =? BSONType.BinData
  | Nested fields => isDocument type && forallb (λ f, noNul f.1.2 && typed f.1.1 f.2) fields
  | Scoped _ fields => (type =? BSONType.CodeWScope) && forallb (λ f, noNul f.1.2 && typed f.1.1 f.2) fields
  end.

Definition fieldOk (f : Field) : bool := noNul f.1.2 && typed f.1.1 f.2.

(** How many frames the machine needs above that of the document. *)
Fixpoint height (p : Payload) : nat :=
  match p with
  | Nested fields => S (foldr (λ f n, Nat.max (height f.2) n) 0%nat fields)
  | Scoped _ fields => S (S (foldr (λ f n, Nat.max (height f.2) n) 0%nat fields))
  | _ => 0%nat
  end.

Definition fieldsHeight (fields : list Field) : nat := foldr (λ f n, Nat.max (height f.2) n) 0%nat fields.

Definition document (maxDepth : Z) (fields : list Field) : Prop :=
  forallb fieldOk fields = true ∧ Z.of_nat (fieldsHeight fields) <= maxDepth.

(** ** Induction on trees *)

Section PayloadInduction.
Variable P : Payload → Prop.
Hypothesis H_nested : ∀ fields, Forall (λ f : Field, P f.2) fields → P (Nested fields).
Hypothesis H_scoped : ∀ s fields, Forall (λ f : Field, P f.2) fields → P (Scoped s fields).
Hypothesis H_leaf : ∀ p, match p with Nested _ | Scoped _ _ => True | _ => P p end.

Definition fields_ind (payload_ind : ∀ p, P p) : ∀ fields : list Field, Forall (λ f, P f.2) fields :=
  fix go fields :=
    match fields with
    | [] => Forall_nil_2 _
    | f :: fields => Forall_cons_2 _ f fields (payload_ind f.2) (go fields)
    end.

Fixpoint payload_ind (p : Payload) : P p :=
  match p as p return P p with
  | Nested fields => H_nested fields (fields_ind payload_ind fields)
  | Scoped s fields => H_scoped s fields (fields_ind payload_ind fields)
  | p => H_leaf p
  end.
End PayloadInduction.

Lemma size_app l m : size (l ++ m) = size l + size m.
Proof. unfold size. rewrite length_app. lia. Qed.

Lemma size_cons x l : size (x :: l) = 1 + size l.
Proof. unfold size. cbn [length]. lia. Qed.

Lemma size_nil : size [] = 0.
Proof. done. Qed.

Lemma size_nonneg l : 0 <= size l.
Proof. unfold size. lia. Qed.

Lemma size_le32 n : size (le32 n) = 4.
Proof. done. Qed.

Lemma encodeFields_app l m : encodeFields (l ++ m) = encodeFields l ++ encodeFields m.
Proof. apply flat_map_app. Qed.

Lemma encodeFields_one f : encodeFields [f] = encodeField f.
Proof. unfold encodeFields. cbn [flat_map]. apply app_nil_r. Qed.

Lemma fieldsHeight_app l m : fieldsHeight (l ++ m) = Nat.max (fieldsHeight l) (fieldsHeight m).
Proof. induction l as [|f l IH]; [done|]. simpl. unfold fieldsHeight in *. rewrite IH. lia. Qed.

(** Four bytes are those of the number they are read as. *)
Lemma le32_read l :
  length l = 4%nat → Forall isByte l → l = le32 (ofBigEndian 0 (rev l)) ∧ 0 <= ofBigEndian 0 (rev l) < 2 ^ 32.
Proof.
  intros Hl Hb. destruct l as [|a [|b [|c [|d [|]]]]]; try done. rewrite !Forall_cons in Hb. unfold isByte in Hb.
  split; [|unfold ofBigEndian; cbn [rev app foldl]; lia].
  unfold le32, ofBigEndian. cbn [rev app foldl bigEndian].
  repeat (f_equal; try (Z.to_euclidean_division_equations; lia)).
Qed.

Lemma le32_value n : 0 <= n < 2 ^ 32 → ofBigEndian 0 (rev (le32 n)) = n.
Proof. intros Hn. unfold le32. rewrite rev_involutive, (ofBigEndian_word 4) by (change (256 ^ Z.of_nat 4) with (2 ^ 32); lia). lia. Qed.

Lemma signed_small n : 0 <= n < 2 ^ 31 → signed 32 n = n.
Proof. intros Hn. unfold signed. rewrite Z.mod_small by (change (2 ^ (32 - 1)) with (2 ^ 31); lia). lia. Qed.

Lemma signed_nonneg n : 0 <= n < 2 ^ 32 → 0 <= signed 32 n → signed 32 n = n ∧ n < 2 ^ 31.
Proof. intros Hn. unfold signed. change (2 ^ (32 - 1)) with (2 ^ 31). Z.to_euclidean_division_equations. lia. Qed.

(** ** Reading *)

Definition advance (n : Z) (b : Buffer) : Buffer := setPosition (_position b + n) b.

Lemma advance_0 b : advance 0 b = b.
Proof. destruct b. unfold advance, setPosition. cbn. f_equal. lia. Qed.

Lemma advance_advance n m b : advance n (advance m b) = advance (m + n) b.
Proof. unfold advance, setPosition. cbn. f_equal. lia. Qed.

Lemma memchr_none l : noNul l = true → memchr l (size l) = Valid None.
Proof.
  induction l as [|x l IH]; [done|]. cbn [noNul forallb]. rewrite andb_true_iff, negb_true_iff. intros [Hx Hl].
  rewrite size_cons. cbn [memchr]. pose proof (size_nonneg l). destruct (Z.leb_spec (1 + size l) 0); [lia|].
  rewrite Hx. replace (1 + size l - 1) with (size l) by lia. by rewrite (IH Hl).
Qed.

Lemma memchr_some s l n : noNul s = true → size s < n → memchr (s ++ 0 :: l) n = Valid (Some (size s)).
Proof.
  revert n. induction s as [|x s IH]; intros n; cbn [noNul forallb app memchr].
  - intros _ Hn. change (size []) with 0 in *. by destruct (Z.leb_spec n 0); [lia|].
  - rewrite andb_true_iff, negb_true_iff, size_cons. intros [Hx Hs] Hn. pose proof (size_nonneg s).
    destruct (Z.leb_spec n 0); [lia|]. rewrite Hx, (IH (n - 1) Hs) by lia. cbn. do 2 f_equal. lia.
Qed.

Lemma split_nul l : noNul l = true ∨ ∃ s l', l = s ++ 0 :: l' ∧ noNul s = true.
Proof.
  induction l as [|x l IH]; [by left|]. destruct (Z.eqb_spec x 0) as [->|Hx]; [right; by exists [], l|].
  apply Z.eqb_neq in Hx. destruct IH as [IH|(s & l' & -> & IH)]; [left|right; exists (x :: s), l']; cbn; by rewrite Hx.
Qed.

Section Reading.
Context (data : Bytes) (bytes : Forall isByte data) (small : size data < 2 ^ 31).

(** What is in front of the buffer's position. *)
Definition At (b : Buffer) (l : Bytes) : Prop := ∃ pre, data = pre ++ l ∧ _position b = size pre.

Lemma At_bounds b l : At b l → 0 <= _position b ∧ _position b + size l = size data.
Proof using All. intros (pre & -> & ->). rewrite size_app. pose proof (size_nonneg pre). lia. Qed.

Lemma At_advance b c l : At b (c ++ l) → At (advance (size c) b) l.
Proof using All.
  intros (pre & Hd & Hp). exists (pre ++ c). rewrite <- app_assoc. split; [done|]. cbn. rewrite size_app. lia.
Qed.

Lemma At_bytes b l : At b l → Forall isByte l.
Proof using All. intros (pre & Hd & _). rewrite Hd in bytes. by apply Forall_app in bytes as [_ ?]. Qed.

Lemma At_drop b l : At b l → drop (Z.to_nat (_position b)) data = l.
Proof using All. intros (pre & -> & ->). unfold size. by rewrite Nat2Z.id, drop_app_length. Qed.

Lemma readNumber_at n b l :
  At b l → 0 <= n < 2 ^ 31 →
  readNumber data (size data) n b =
    if size l <? n then Valid None else Valid (Some (ofBigEndian 0 (rev (take (Z.to_nat n) l)), advance n b)).
Proof using All.
  intros Hb Hn. destruct (At_bounds b l Hb) as [H0 H1]. unfold readNumber. pose proof (size_nonneg l).
  rewrite Z.mod_small by lia. change (Z.of_nat (length data)) with (size data).
  destruct (Z.ltb_spec (size data) (_position b + n)), (Z.ltb_spec (size l) n); try lia; [done|].
  by rewrite (At_drop b l Hb).
Qed.

Lemma skip_at n b l : At b l → 0 <= n < 2 ^ 32 → skip (size data) n b = (n <? size l, advance n b).
Proof using All.
  intros Hb Hn. destruct (At_bounds b l Hb) as [H0 H1]. unfold skip. pose proof (size_nonneg l).
  rewrite (Z.mod_small n), Z.mod_small by lia. unfold advance. f_equal.
  destruct (Z.ltb_spec (_position b + n) (size data)), (Z.ltb_spec n (size l)); done || lia.
Qed.

Lemma readCString_name b s l :
  At b (s ++ 0 :: l) → noNul s = true → readCString data (size data) b = Valid (s, advance (size (s ++ [0])) b).
Proof using All.
  intros Hb Hs. destruct (At_bounds b _ Hb) as [H0 H1]. rewrite size_app, size_cons in H1.
  pose proof (size_nonneg s). pose proof (size_nonneg l). unfold readCString.
  rewrite (At_drop b _ Hb), Z.mod_small, memchr_some by (done || lia). cbn [mbind Checked_bind].
  rewrite Z.mod_small by lia. unfold size at 1. rewrite Nat2Z.id, take_app_length. unfold advance. rewrite size_app, size_cons. do 3 f_equal. change (size []) with 0. lia.
Qed.

Lemma readCString_at b l :
  At b l →
  (∃ s l', l = (s ++ [0]) ++ l' ∧ noNul s = true ∧ readCString data (size data) b = Valid (s, advance (size (s ++ [0])) b)) ∨
  readCString data (size data) b = makeError (_idElem b).
Proof using All.
  intros Hb. destruct (split_nul l) as [Hl|(s & l' & Hl & Hs)].
  - right. destruct (At_bounds b l Hb) as [H0 H1]. pose proof (size_nonneg l). unfold readCString.
    rewrite (At_drop b l Hb). replace ((size data - _position b) mod 2 ^ 64) with (size l) by (rewrite Z.mod_small; lia).
    by rewrite memchr_none.
  - left. exists s, l'. rewrite Hl in Hb. rewrite Hl, <- app_assoc. split; [done|]. split; [done|]. by apply (readCString_name b s l').
Qed.

Lemma readSize_at b l :
  At b l →
  (∃ n l', l = le32 n ++ l' ∧ 0 <= n < 2 ^ 32 ∧ readNumber data (size data) 4 b = Valid (Some (n, advance 4 b))) ∨
  readNumber data (size data) 4 b = Valid None.
Proof using All.
  intros Hb. rewrite (readNumber_at 4 b l Hb) by lia. destruct (Z.ltb_spec (size l) 4) as [|H4]; [by right|left].
  change (Z.to_nat 4) with 4%nat. destruct (le32_read (take 4 l)) as [Hle Hr].
  - rewrite length_take. unfold size in H4. lia.
  - pose proof (At_bytes b l Hb) as Hbl. rewrite <- (take_drop 4 l) in Hbl. by apply Forall_app in Hbl as [? _].
  - eexists _, (drop 4 l). rewrite <- Hle, take_drop. split; [done|]. by split; [exact Hr|].
Qed.

Lemma readText_at b l :
  At b l →
  (∃ s l', l = encodeText s ++ l' ∧ readUTF8String data (size data) b = Valid (advance (size (encodeText s)) b)) ∨
  readUTF8String data (size data) b = makeError (_idElem b).
Proof using All.
  intros Hb. unfold readUTF8String. destruct (readSize_at b l Hb) as [(n & l1 & Hl & Hr & ->)| ->]; [|by right].
  cbn [mbind Checked_bind]. cbv zeta. destruct (Z.leb_spec (signed 32 n) 0) as [|Hpos]; [by right|].
  destruct (signed_nonneg n Hr) as [Hs31 Hn31]; [lia|]. rewrite Hs31 in *. subst l.
  pose proof (At_advance b _ _ Hb) as Hb1. rewrite size_le32 in Hb1.
  rewrite (skip_at (n - 1) _ _ Hb1) by lia. destruct (Z.ltb_spec (n - 1) (size l1)) as [Hin|]; [|by right]. cbn [negb].
  set (s := take (Z.to_nat (n - 1)) l1). set (u := drop (Z.to_nat (n - 1)) l1).
  assert (Hsu : l1 = s ++ u) by (symmetry; apply take_drop).
  assert (Hsz : size s = n - 1) by (unfold s, size in *; rewrite length_take; lia).
  assert (Hb2 : At (advance (n - 1) (advance 4 b)) u) by (rewrite <- Hsz; apply At_advance; by rewrite <- Hsu).
  rewrite (readNumber_at 1 _ u Hb2) by lia.
  destruct (Z.ltb_spec (size u) 1) as [|Hu]; [by right|]. cbn [mbind Checked_bind].
  destruct u as [|x u'] eqn:Hu'; [done|]. change (take (Z.to_nat 1) (x :: u')) with [x]. cbn [rev app].
  change (ofBigEndian 0 [x]) with x. destruct (Z.eqb_spec x 0) as [->|]; [|by right]. left. exists s, u'. cbn [negb].
  assert (Hn : n = size s + 1) by lia. rewrite Hn.
  split.
  - unfold encodeText. rewrite <- !app_assoc, Hsu. done.
  - rewrite !advance_advance. do 2 f_equal. unfold encodeText. rewrite !size_app, size_le32, size_cons. change (size []) with 0. lia.
Qed.

Lemma readText_encoded b s l :
  At b (encodeText s ++ l) → readUTF8String data (size data) b = Valid (advance (size (encodeText s)) b).
Proof using All.
  intros Hb. pose proof (At_bounds b _ Hb) as [H0 H1]. unfold encodeText in *. rewrite !size_app, size_le32, size_cons in *.
  pose proof (size_nonneg s). pose proof (size_nonneg l). change (size []) with 0 in *.
  rewrite <- !app_assoc in Hb. unfold readUTF8String. rewrite (readNumber_at 4 b _ Hb) by lia. rewrite size_app, size_le32.
  pose proof (size_nonneg (s ++ [0] ++ l)). destruct (Z.ltb_spec (4 + size (s ++ [0] ++ l)) 4); [lia|]. cbn [mbind Checked_bind].
  rewrite (take_app_length' (le32 _) _ (Z.to_nat 4)) by done. rewrite le32_value, signed_small by lia.
  destruct (Z.leb_spec (size s + 1) 0); [lia|]. pose proof (At_advance b _ _ Hb) as Hb1. rewrite size_le32 in Hb1.
  rewrite (skip_at _ _ _ Hb1) by lia. rewrite !size_app, size_cons. change (size []) with 0.
  destruct (Z.ltb_spec (size s + 1 - 1) (size s + (1 + 0 + size l))); [|lia]. cbn [negb].
  pose proof (At_advance _ _ _ Hb1) as Hb2. replace (size s + 1 - 1) with (size s) by lia.
  rewrite (readNumber_at 1 _ _ Hb2) by lia. cbn [app]. rewrite size_cons.
  destruct (Z.ltb_spec (1 + size l) 1); [lia|]. cbn [mbind Checked_bind]. change (take (Z.to_nat 1) (0 :: l)) with [0].
  cbn [rev app]. change (ofBigEndian 0 [0] =? 0) with true. cbn [negb]. rewrite !advance_advance. do 2 f_equal; lia.
Qed.

(** ** Values *)

Lemma skipOr_at n i b l :
  At b l → 0 <= n < 2 ^ 32 →
  (∃ c l', l = c ++ l' ∧ size c = n ∧ skipOr (size data) n i b = Valid (advance n b)) ∨ skipOr (size data) n i b = makeError i.
Proof using All.
  intros Hb Hn. unfold skipOr. rewrite (skip_at n b l Hb Hn). destruct (Z.ltb_spec n (size l)); [left|by right].
  exists (take (Z.to_nat n) l), (drop (Z.to_nat n) l). rewrite take_drop. split; [done|]. split; [|done].
  unfold size in *. rewrite length_take. lia.
Qed.

Lemma skipOr_encoded i b c x l : At b (c ++ x :: l) → skipOr (size data) (size c) i b = Valid (advance (size c) b).
Proof using All.
  intros Hb. pose proof (At_bounds b _ Hb) as [H0 H1]. unfold skipOr. rewrite size_app, size_cons in H1.
  pose proof (size_nonneg l). pose proof (size_nonneg c). rewrite (skip_at _ b _ Hb) by lia. rewrite size_app, size_cons.
  by destruct (Z.ltb_spec (size c) (size c + (1 + size l))); [|lia].
Qed.

Lemma validate_fixed type n i next b :
  fixedSize type = Some n → type ≠ BSONType.Bool →
  validateValue data (size data) type i next b =
    if (n =? 0)%nat then Valid (next, b) else b ← skipOr (size data) (Z.of_nat n) i b; Valid (next, b).
Proof using All.
  intros Hf Hb%Z.eqb_neq. unfold fixedSize, validateValue in *. rewrite Hb in *.
  repeat match type of Hf with (if ?c then _ else _) = _ => destruct c; [injection Hf as <-; reflexivity|] end. done.
Qed.

Definition isLeaf (p : Payload) : bool := match p with Nested _ | Scoped _ _ => false | _ => true end.

(** What a value in the buffer may come to. *)
Definition ValueRead (type i : Z) (next : State) (b : Buffer) (l : Bytes) (r : Checked (State * Buffer)) : Prop :=
  (∃ p l', l = encodePayload p ++ l' ∧ typed type p = true ∧ isLeaf p = true ∧ r = Valid (next, advance (size (encodePayload p)) b)) ∨
  isDocument type = true ∧ r = Valid (BeginObj, b) ∨
  type = BSONType.CodeWScope ∧ r = Valid (BeginCodeWScope, b) ∨
  ∃ j, (j = i ∨ j = _idElem b) ∧ r = makeError j.

Lemma fixed_at type n i next b l :
  At b l → fixedSize type = Some n → type ≠ BSONType.Bool → ValueRead type i next b l (validateValue data (size data) type i next b).
Proof using All.
  intros Hb Hf Ht. rewrite (validate_fixed type n) by done.
  assert (Htyped : ∀ c, length c = n → typed type (Raw c) = true).
  { intros c Hc. cbn [typed]. rewrite Hc. apply Z.eqb_neq in Ht. rewrite Ht, bool_decide_eq_true_2 by done. done. }
  destruct (Nat.eqb_spec n 0) as [->|Hn].
  - left. exists (Raw []), l. cbn [encodePayload]. change (size []) with 0. rewrite advance_0. split; [done|]. by rewrite Htyped.
  - assert (Hn16 : (n <= 16)%nat).
    { unfold fixedSize in Hf. repeat match type of Hf with (if ?c then _ else _) = _ => destruct c; [injection Hf as <-; lia|] end. done. }
    destruct (skipOr_at (Z.of_nat n) i b l Hb) as [(c & l' & -> & Hc & ->)|He]; [lia| |].
    + left. exists (Raw c), l'. split; [done|]. rewrite Htyped by (unfold size in Hc; lia). cbn [encodePayload]. by rewrite Hc.
    + right. right. right. exists i. split; [by left|]. by rewrite He.
Qed.

Lemma bool_at i next b l :
  At b l → ValueRead BSONType.Bool i next b l (validateValue data (size data) BSONType.Bool i next b).
Proof using All.
  intros Hb. change (validateValue data (size data) BSONType.Bool i next b) with
    (n ← readNumber data (size data) 1 b;
     match n with
     | None => makeError i
     | Some (val, b) => if negb (val =? 0) && negb (val =? 1) then makeError i else Valid (next, b)
     end : Checked (State * Buffer)).
  assert (Herr : ValueRead BSONType.Bool i next b l (makeError i)) by (right; right; right; exists i; by split; [left|]).
  rewrite (readNumber_at 1 b l Hb) by lia. destruct (Z.ltb_spec (size l) 1) as [|Hl]; [exact Herr|]. cbn [mbind Checked_bind].
  destruct l as [|x l]; [done|]. change (take (Z.to_nat 1) (x :: l)) with [x]. cbn [rev app]. change (ofBigEndian 0 [x]) with x.
  destruct (Z.eqb_spec x 0) as [->|H0]; [left; by exists (Raw [0]), l|].
  destruct (Z.eqb_spec x 1) as [->|H1]; [left; by exists (Raw [1]), l|exact Herr].
Qed.

Lemma text_at type i next b l : At b l → isText type = true → ValueRead type i next b l (validateValue data (size data) type i next b).
Proof using All.
  intros Hb Ht. assert (Hv : validateValue data (size data) type i next b = (b ← readUTF8String data (size data) b; Valid (next, b))).
  { unfold isText in Ht. rewrite !orb_true_iff, !Z.eqb_eq in Ht. by destruct Ht as [[-> | ->] | ->]. }
  rewrite Hv. destruct (readText_at b l Hb) as [(s & l' & -> & ->)|He]; [left|do 3 right].
  - exists (Text s []), l'. cbn [encodePayload typed isLeaf]. rewrite app_nil_r, Ht. by repeat split.
  - exists (_idElem b). split; [by right|]. by rewrite He.
Qed.

Lemma dbref_at i next b l :
  At b l → ValueRead BSONType.DBRef i next b l (validateValue data (size data) BSONType.DBRef i next b).
Proof using All.
  intros Hb. change (validateValue data (size data) BSONType.DBRef i next b) with
    (b ← (b ← readUTF8String data (size data) b; skipOr (size data) kOIDSize i b); Valid (next, b) : Checked (State * Buffer)).
  destruct (readText_at b l Hb) as [(s & l' & -> & ->)|He]; cycle 1.
  { do 3 right. exists (_idElem b). split; [by right|]. by rewrite He. }
  cbn [mbind Checked_bind]. pose proof (At_advance b _ _ Hb) as Hb1.
  destruct (skipOr_at kOIDSize i _ _ Hb1) as [(c & l'' & -> & Hc & ->)|He]; [done| |].
  - left. exists (Text s c), l''. cbn [encodePayload typed isLeaf]. rewrite app_assoc, advance_advance, size_app, Hc.
    split; [done|]. split; [|done]. unfold size in Hc. change kOIDSize with 12 in Hc.
    assert (length c = 12%nat) as -> by lia. by rewrite orb_true_r.
  - do 3 right. exists i. split; [by left|]. by rewrite He.
Qed.

Lemma regex_at i next b l :
  At b l → ValueRead BSONType.RegEx i next b l (validateValue data (size data) BSONType.RegEx i next b).
Proof using All.
  intros Hb. change (validateValue data (size data) BSONType.RegEx i next b) with
    ('(_, b) ← readCString data (size data) b; '(_, b) ← readCString data (size data) b; Valid (next, b) : Checked (State * Buffer)).
  destruct (readCString_at b l Hb) as [(s & l' & -> & Hs & ->)|He]; cycle 1.
  { do 3 right. exists (_idElem b). split; [by right|]. by rewrite He. }
  cbn [mbind Checked_bind]. pose proof (At_advance b _ _ Hb) as Hb1.
  destruct (readCString_at _ _ Hb1) as [(t & l'' & -> & Ht & ->)|He]; cycle 1.
  { do 3 right. exists (_idElem b). split; [by right|]. by rewrite He. }
  left. exists (Pattern s t), l''. cbn [encodePayload typed isLeaf mbind Checked_bind]. rewrite app_assoc, advance_advance, !size_app, Hs, Ht.
  by repeat split.
Qed.

Lemma bindata_at i next b l :
  At b l → ValueRead BSONType.BinData i next b l (validateValue data (size data) BSONType.BinData i next b).
Proof using All.
  intros Hb. assert (Herr : ValueRead BSONType.BinData i next b l (makeError i)) by (right; right; right; exists i; by split; [left|]).
  change (validateValue data (size data) BSONType.BinData i next b) with
    (n ← readNumber data (size data) 4 b;
     match n with
     | None => makeError i
     | Some (sz, b) =>
         let sz := signed 32 sz in
         if (sz <? 0) || (sz =? 2 ^ 31 - 1) then makeError i else b ← skipOr (size data) (1 + sz) i b; Valid (next, b)
     end : Checked (State * Buffer)).
  destruct (readSize_at b l Hb) as [(n & l' & -> & Hn & ->)| ->]; [|exact Herr]. cbn [mbind Checked_bind]. cbv zeta.
  destruct (Z.ltb_spec (signed 32 n) 0) as [|Hpos]; [exact Herr|]. cbn [orb].
  destruct (Z.eqb_spec (signed 32 n) (2 ^ 31 - 1)) as [|Hmax]; [exact Herr|].
  destruct (signed_nonneg n Hn Hpos) as [Hs Hn31]. rewrite Hs in *.
  pose proof (At_advance b _ _ Hb) as Hb1. rewrite size_le32 in Hb1.
  destruct (skipOr_at (1 + n) i _ _ Hb1) as [(c & l'' & -> & Hc & ->)| ->]; [lia| |exact Herr].
  destruct c as [|x c]; [rewrite size_nil in Hc; lia|]. rewrite size_cons in Hc. assert (n = size c) as -> by lia.
  left. exists (Binary x c), l''. cbn [encodePayload typed isLeaf mbind Checked_bind]. rewrite advance_advance, size_app, size_cons, size_le32.
  split; [by rewrite <- !app_assoc|]. by repeat split.
Qed.

(** Reading a value: a payload that is not a document is read whole, a document is left to the machine. *)
Lemma value_at type i next b l : At b l → ValueRead type i next b l (validateValue data (size data) type i next b).
Proof using All.
  intros Hb. destruct (fixedSize type) as [n|] eqn:Hf.
  { destruct (Z.eqb_spec type BSONType.Bool) as [->|]; [by apply bool_at|by apply (fixed_at type n)]. }
  destruct (isText type) eqn:Ht; [by apply text_at|]. destruct (Z.eqb_spec type BSONType.DBRef) as [->|H12]; [by apply dbref_at|].
  destruct (Z.eqb_spec type BSONType.RegEx) as [->|H11]; [by apply regex_at|].
  destruct (Z.eqb_spec type BSONType.BinData) as [->|H5]; [by apply bindata_at|].
  destruct (Z.eqb_spec type BSONType.CodeWScope) as [->|H15]; [by right; right; left|].
  destruct (isDocument type) eqn:Hd.
  { right. left. split; [done|]. unfold isDocument in Hd. rewrite orb_true_iff, !Z.eqb_eq in Hd. by destruct Hd as [-> | ->]. }
  right. right. right. exists i. split; [by left|]. revert Hf. apply Z.eqb_neq in H12, H11, H5, H15.
  unfold validateValue, fixedSize. unfold isText in Ht. unfold isDocument in Hd. rewrite H12, H11, H5, H15, Ht, Hd.
  by repeat match goal with |- context [if ?c then Some _ else _] => destruct c; [done|] end.
Qed.

(** ** Values of the encoding *)

Lemma fixed_encoded type n i next b c x l :
  At b (c ++ x :: l) → fixedSize type = Some n → length c = n → type ≠ BSONType.Bool →
  validateValue data (size data) type i next b = Valid (next, advance (size c) b).
Proof using All.
  intros Hb Hf Hc Ht. rewrite (validate_fixed type n) by done. destruct (Nat.eqb_spec n 0) as [->|Hn].
  - apply length_zero_iff_nil in Hc as ->. by rewrite size_nil, advance_0.
  - rewrite <- Hc. change (Z.of_nat (length c)) with (size c). by rewrite (skipOr_encoded i b c x l).
Qed.

Lemma readSize_encoded n b l :
  At b (le32 n ++ l) → 0 <= n < 2 ^ 32 → readNumber data (size data) 4 b = Valid (Some (n, advance 4 b)).
Proof using All.
  intros Hb Hn. rewrite (readNumber_at 4 b _ Hb) by lia. rewrite size_app, size_le32. pose proof (size_nonneg l).
  destruct (Z.ltb_spec (4 + size l) 4); [lia|]. by rewrite (take_app_length' (le32 _) _ (Z.to_nat 4)), le32_value.
Qed.

Lemma bindata_encoded i next b subtype c x l :
  At b (encodePayload (Binary subtype c) ++ x :: l) →
  validateValue data (size data) BSONType.BinData i next b = Valid (next, advance (size (encodePayload (Binary subtype c))) b).
Proof using All.
  intros Hb. pose proof (At_bounds b _ Hb) as [H0 H1]. cbn [encodePayload] in *. rewrite !size_app, size_le32, !size_cons in *.
  pose proof (size_nonneg c). pose proof (size_nonneg l). rewrite <- app_assoc in Hb.
  change (validateValue data (size data) BSONType.BinData i next b) with
    (n ← readNumber data (size data) 4 b;
     match n with
     | None => makeError i
     | Some (sz, b) =>
         let sz := signed 32 sz in
         if (sz <? 0) || (sz =? 2 ^ 31 - 1) then makeError i else b ← skipOr (size data) (1 + sz) i b; Valid (next, b)
     end : Checked (State * Buffer)).
  rewrite (readSize_encoded _ _ _ Hb) by lia. cbn [mbind Checked_bind]. cbv zeta. rewrite signed_small by lia.
  destruct (Z.ltb_spec (size c) 0); [lia|]. destruct (Z.eqb_spec (size c) (2 ^ 31 - 1)); [lia|]. cbn [orb].
  pose proof (At_advance b _ _ Hb) as Hb1. rewrite size_le32 in Hb1. rewrite <- size_cons with (x := subtype).
  by rewrite (skipOr_encoded i _ _ x l Hb1), <- advance_advance.
Qed.

Lemma text_encoded type s after i next b x l :
  At b (encodePayload (Text s after) ++ x :: l) → typed type (Text s after) = true →
  validateValue data (size data) type i next b = Valid (next, advance (size (encodePayload (Text s after))) b).
Proof using All.
  intros Hb. cbn [typed encodePayload] in *. rewrite <- app_assoc in Hb. pose proof (readText_encoded b s _ Hb) as Hr.
  rewrite orb_true_iff, !andb_true_iff, bool_decide_eq_true. intros [[Ht ->]|[Ht Ha]].
  - rewrite app_nil_r. unfold isText in Ht. rewrite !orb_true_iff, !Z.eqb_eq in Ht.
    assert (Hv : validateValue data (size data) type i next b = (b ← readUTF8String data (size data) b; Valid (next, b)))
      by (by destruct Ht as [[-> | ->] | ->]). by rewrite Hv, Hr.
  - apply Z.eqb_eq in Ht as ->. apply Nat.eqb_eq in Ha.
    change (validateValue data (size data) BSONType.DBRef i next b) with
      (b ← (b ← readUTF8String data (size data) b; skipOr (size data) kOIDSize i b); Valid (next, b) : Checked (State * Buffer)).
    rewrite Hr. cbn [mbind Checked_bind]. pose proof (At_advance b _ _ Hb) as Hb1.
    assert (kOIDSize = size after) as -> by (unfold size; by rewrite Ha).
    by rewrite (skipOr_encoded i _ _ x l Hb1), size_app, <- advance_advance.
Qed.

(** The payload of an element, when a byte follows it. *)
Lemma value_encoded type p i next b x l :
  At b (encodePayload p ++ x :: l) → typed type p = true → isLeaf p = true →
  validateValue data (size data) type i next b = Valid (next, advance (size (encodePayload p)) b).
Proof using All.
  intros Hb Ht Hl. destruct p as [c|s after|s t|subtype c|fields|s fields]; try done.
  - cbn [typed encodePayload] in *. apply andb_true_iff in Ht as [Hf Ht]. apply bool_decide_eq_true in Hf.
    destruct (Z.eqb_spec type BSONType.Bool) as [->|Hn]; [|by apply (fixed_encoded type (length c) i next b c x l)].
    cbn [negb orb] in Ht. apply bool_decide_eq_true in Ht. pose proof (At_bounds b _ Hb) as [_ Hs].
    change (validateValue data (size data) BSONType.Bool i next b) with
      (n ← readNumber data (size data) 1 b;
       match n with
       | None => makeError i
       | Some (val, b) => if negb (val =? 0) && negb (val =? 1) then makeError i else Valid (next, b)
       end : Checked (State * Buffer)).
    rewrite (readNumber_at 1 b _ Hb) by lia. rewrite size_app, size_cons. pose proof (size_nonneg l).
    by destruct Ht as [-> | ->]; (match goal with |- context [?u <? 1] => destruct (Z.ltb_spec u 1) as [Hlt|] end;
      [cbn [size length] in Hlt; unfold size in *; cbn [length] in *; lia|]).
  - by apply (text_encoded type s after i next b x l).
  - cbn [typed encodePayload] in *. rewrite !andb_true_iff, Z.eqb_eq in Ht. destruct Ht as [[-> Hs] Ht].
    change (validateValue data (size data) BSONType.RegEx i next b) with
      ('(_, b) ← readCString data (size data) b; '(_, b) ← readCString data (size data) b; Valid (next, b) : Checked (State * Buffer)).
    rewrite <- app_assoc in Hb. pose proof (At_advance b _ _ Hb) as Hb1. rewrite <- app_assoc in Hb, Hb1.
    rewrite (readCString_name b s _ Hb Hs). cbn [mbind Checked_bind]. rewrite (readCString_name _ t _ Hb1 Ht). cbn [mbind Checked_bind].
    by rewrite advance_advance, (size_app (s ++ [0])).
  - apply Z.eqb_eq in Ht as ->. by apply (bindata_encoded i next b subtype c x l).
Qed.
End Reading.
