(* ===== verification/BsonValidateProps.v ===== *)
(** What the validator of BSON decides: it accepts the encodings of the well-typed documents whose nesting the
    frames allow, with anything behind them, and nothing else; it ends, reads nothing behind the buffer, and
    the element an error prints is a valid one. *)
From S2P Require Import Prelude KeyBytes BsonValidate BsonGrammar.

Lemma signed_byte x : 0 <= x < 256 → -128 <= signed 8 x < 128 ∧ signed 8 x mod 256 = x.
Proof. intros Hx. unfold signed. change (2 ^ (8 - 1)) with 128. change (2 ^ 8) with 256. Z.to_euclidean_division_equations. lia. Qed.

Lemma byte_signed t : -128 <= t < 128 → signed 8 (t mod 256) = t.
Proof. intros Ht. unfold signed. change (2 ^ (8 - 1)) with 128. change (2 ^ 8) with 256. Z.to_euclidean_division_equations. lia. Qed.

Ltac types := unfold BSONType.MinKey, BSONType.MaxKey, BSONType.EOO, BSONType.NumberDouble, BSONType.String, BSONType.Object, BSONType.Array,
  BSONType.BinData, BSONType.Undefined, BSONType.jstOID, BSONType.Bool, BSONType.Date, BSONType.jstNULL, BSONType.RegEx, BSONType.DBRef,
  BSONType.Code, BSONType.Symbol, BSONType.CodeWScope, BSONType.NumberInt, BSONType.bsonTimestamp, BSONType.NumberLong,
  BSONType.NumberDecimal in *; lia.

(** The types of typed payloads are those of the code, and none is the end of an object. *)
Lemma fixedSize_range type n : fixedSize type = Some n → -128 <= type < 128 ∧ type ≠ BSONType.EOO.
Proof.
  unfold fixedSize. intros Hf.
  repeat match type of Hf with (if ?c then _ else _) = _ => destruct c eqn:Hc; [types|clear Hc] end. done.
Qed.

Lemma isDocument_range type : isDocument type = true → -128 <= type < 128 ∧ type ≠ BSONType.EOO ∧ type ≠ BSONType.CodeWScope.
Proof. unfold isDocument. types. Qed.

Lemma typed_range type p : typed type p = true → -128 <= type < 128 ∧ type ≠ BSONType.EOO.
Proof.
  destruct p; cbn [typed]; rewrite ?andb_true_iff, ?orb_true_iff, ?andb_true_iff, ?bool_decide_eq_true; unfold isText, isDocument; intros Ht.
  - destruct Ht as [Ht _]. by eapply fixedSize_range.
  - destruct Ht as [[Ht _]|[Ht _]]; types.
  - destruct Ht as [[Ht _] _]. types.
  - types.
  - destruct Ht as [Ht _]. types.
  - destruct Ht as [Ht _]. types.
Qed.

(** ** Elements *)

Section Elements.
Context (data : Bytes) (bytes : Forall isByte data) (small : size data < 2 ^ 31).

#[local] Abbreviation At := (At data).
#[local] Abbreviation validateValue := (validateValue data (size data)).
#[local] Abbreviation validateElementInfo := (validateElementInfo data (size data)).

(** What an element in the buffer may come to. *)
Inductive InfoRead (next : State) (i : Z) (b : Buffer) : Bytes → Checked (State * Bytes * Buffer) → Prop :=
  | read_end l : InfoRead next i b (0 :: l) (Valid (EndObj, [], advance 1 b))
  | read_leaf f l :
      fieldOk f = true → isLeaf f.2 = true →
      InfoRead next i b (encodeField f ++ l) (Valid (next, fieldName f, advance (size (encodeField f)) b))
  | read_document type name l :
      noNul name = true → isDocument type = true →
      InfoRead next i b (encodeHeader type name ++ l) (Valid (BeginObj, name, advance (size (encodeHeader type name)) b))
  | read_scope name l :
      noNul name = true →
      InfoRead next i b (encodeHeader BSONType.CodeWScope name ++ l)
        (Valid (BeginCodeWScope, name, advance (size (encodeHeader BSONType.CodeWScope name)) b))
  | read_error j l : (j = i ∨ j = _idElem b) → InfoRead next i b l (makeError j).

Lemma size_header type name : size (encodeHeader type name) = 2 + size name.
Proof using Type. unfold encodeHeader. rewrite size_cons, size_app. change (size [0]) with 1. lia. Qed.

Lemma info_name next i b byte name l :
  At b (byte :: name ++ 0 :: l) → noNul name = true → signed 8 byte ≠ BSONType.EOO →
  validateElementInfo next i b =
    ('(nextState, b) ← validateValue (signed 8 byte) i next (advance (2 + size name) b); Valid (nextState, name, b)).
Proof using All.
  intros Hb Hn Ht%Z.eqb_neq. unfold BsonValidate.validateElementInfo. rewrite (readNumber_at data bytes small 1 b _ Hb) by lia.
  rewrite size_cons. pose proof (size_nonneg (name ++ 0 :: l)). destruct (Z.ltb_spec (1 + size (name ++ 0 :: l)) 1); [lia|].
  cbn [mbind Checked_bind]. change (take (Z.to_nat 1) (byte :: name ++ 0 :: l)) with [byte]. cbn [rev app].
  change (ofBigEndian 0 [byte]) with byte. cbv zeta. rewrite Ht.
  assert (Hb1 : At (advance 1 b) (name ++ 0 :: l)) by (exact (At_advance data bytes small b [byte] _ Hb)).
  rewrite (readCString_name data bytes small _ name l Hb1 Hn). cbn [mbind Checked_bind].
  rewrite advance_advance, size_app. change (size [0]) with 1. replace (1 + (size name + 1)) with (2 + size name) by lia. done.
Qed.

Lemma info_at next i b l : At b l → InfoRead next i b l (validateElementInfo next i b).
Proof using All.
  intros Hb. destruct l as [|byte l].
  { unfold BsonValidate.validateElementInfo. rewrite (readNumber_at data bytes small 1 b _ Hb) by lia. by apply read_error; left. }
  assert (Hbyte : 0 <= byte < 256) by (pose proof (At_bytes data bytes small b _ Hb) as [? _]%Forall_cons; done).
  destruct (signed_byte byte Hbyte) as [Hr Hmod]. destruct (Z.eqb_spec (signed 8 byte) BSONType.EOO) as [He|He].
  { rewrite He in Hmod. change (BSONType.EOO mod 256) with 0 in Hmod. subst byte. unfold BsonValidate.validateElementInfo.
    rewrite (readNumber_at data bytes small 1 b _ Hb) by lia. rewrite size_cons. pose proof (size_nonneg l).
    destruct (Z.ltb_spec (1 + size l) 1); [lia|]. apply read_end. }
  assert (Hb1 : At (advance 1 b) l) by (exact (At_advance data bytes small b [byte] _ Hb)).
  destruct (readCString_at data bytes small _ _ Hb1) as [(name & l' & -> & Hn & _)|Herr]; cycle 1.
  { unfold BsonValidate.validateElementInfo. rewrite (readNumber_at data bytes small 1 b _ Hb) by lia. rewrite size_cons.
    pose proof (size_nonneg l). destruct (Z.ltb_spec (1 + size l) 1); [lia|]. cbn [mbind Checked_bind].
    change (take (Z.to_nat 1) (byte :: l)) with [byte]. cbn [rev app]. change (ofBigEndian 0 [byte]) with byte. cbv zeta.
    apply Z.eqb_neq in He. rewrite He, Herr. apply read_error. by right. }
  rewrite <- app_assoc in Hb. rewrite (info_name next i b byte name l' Hb Hn He).
  assert (Hh : byte :: (name ++ [0]) ++ l' = encodeHeader (signed 8 byte) name ++ l') by (unfold encodeHeader; by rewrite Hmod).
  rewrite Hh. rewrite <- (size_header (signed 8 byte) name).
  assert (Hb2 : At (advance (size (encodeHeader (signed 8 byte) name)) b) l').
  { apply (At_advance data bytes small b). rewrite <- Hh, <- app_assoc. exact Hb. }
  destruct (value_at data bytes small (signed 8 byte) i next _ _ Hb2) as [(p & l'' & -> & Ht & Hl & ->)|[[Hd ->]|[[Hc ->]|(j & Hj & ->)]]];
    cbn [mbind Checked_bind].
  - rewrite advance_advance, <- size_app, app_assoc. apply (read_leaf next i b (signed 8 byte, name, p)); [|done].
    apply andb_true_iff. by split.
  - by apply read_document.
  - rewrite Hc. by apply read_scope.
  - by apply read_error.
Qed.

(** The elements of the encoding. *)
Lemma info_leaf next i b f x l :
  At b (encodeField f ++ x :: l) → fieldOk f = true → isLeaf f.2 = true →
  validateElementInfo next i b = Valid (next, fieldName f, advance (size (encodeField f)) b).
Proof using All.
  destruct f as [[type name] p]. unfold encodeField, fieldOk, fieldName. cbn [fst snd]. intros Hb [Hn Ht]%andb_true_iff Hl.
  destruct (typed_range _ _ Ht) as [Hr He]. rewrite <- app_assoc in Hb.
  pose proof (At_advance data bytes small b _ _ Hb) as Hb1. rewrite size_header in Hb1.
  unfold encodeHeader in Hb. cbn [app] in Hb. rewrite <- app_assoc in Hb.
  rewrite (info_name next i b _ name _ Hb Hn); rewrite byte_signed by done; [|done].
  rewrite (value_encoded data bytes small type p i next _ x l Hb1 Ht Hl). cbn [mbind Checked_bind].
  by rewrite advance_advance, size_app, size_header.
Qed.

Lemma info_open next i b type name l :
  At b (encodeHeader type name ++ l) → noNul name = true → (isDocument type = true ∨ type = BSONType.CodeWScope) →
  validateElementInfo next i b =
    Valid (if type =? BSONType.CodeWScope then BeginCodeWScope else BeginObj, name, advance (size (encodeHeader type name)) b).
Proof using All.
  intros Hb Hn Ht. unfold encodeHeader in Hb. cbn [app] in Hb. rewrite <- app_assoc in Hb.
  assert (Hr : -128 <= type < 128 ∧ type ≠ BSONType.EOO).
  { destruct Ht as [Ht | ->]; [|done]. by destruct (isDocument_range type Ht) as (? & ? & _). }
  rewrite (info_name next i b _ name _ Hb Hn); rewrite byte_signed by apply Hr; [|apply Hr]. rewrite size_header.
  destruct Ht as [Ht | ->]; [|done]. unfold isDocument in Ht. rewrite orb_true_iff, !Z.eqb_eq in Ht. by destruct Ht as [-> | ->].
Qed.

Lemma info_end next i b l : At b (0 :: l) → validateElementInfo next i b = Valid (EndObj, [], advance 1 b).
Proof using All.
  intros Hb. unfold BsonValidate.validateElementInfo.
  rewrite (readNumber_at data bytes small 1 b _ Hb) by lia. rewrite size_cons. pose proof (size_nonneg l).
  by destruct (Z.ltb_spec (1 + size l) 1); [lia|].
Qed.
End Elements.

(** ** Frames *)

(** The frame that is pushed at a position, with the size that is read there. *)
Definition frameAt (scope : bool) (pos n : Z) : Frame :=
  setExpectedSize (signed 32 n) (setIsCodeWithScope scope (setStartPosition pos ValidationObjectFrame)).

Lemma land_31 pos : 0 <= pos < 2 ^ 31 → Z.land pos (2 ^ 31 - 1) = pos.
Proof. intros Hp. change (2 ^ 31 - 1) with (Z.ones 31). rewrite Z.land_ones by lia. by apply Z.mod_small. Qed.

Lemma startPosition_frameAt scope pos n : 0 <= pos < 2 ^ 31 → startPosition (frameAt scope pos n) = pos.
Proof.
  intros Hp. unfold startPosition, frameAt, setExpectedSize, setIsCodeWithScope, setStartPosition, ValidationObjectFrame.
  cbn [_startPosition]. rewrite Z.land_0_l, Z.lor_0_l, (land_31 pos Hp). destruct scope.
  - by rewrite Z.land_lor_distr_l, (land_31 pos Hp), Z.lor_0_r.
  - by rewrite !(land_31 pos Hp).
Qed.

Lemma isCodeWithScope_frameAt scope pos n : 0 <= pos < 2 ^ 31 → isCodeWithScope (frameAt scope pos n) = scope.
Proof.
  intros Hp. unfold isCodeWithScope, frameAt, setExpectedSize, setIsCodeWithScope, setStartPosition, ValidationObjectFrame.
  cbn [_startPosition]. rewrite Z.land_0_l, Z.lor_0_l, (land_31 pos Hp).
  assert (Hbit : Z.testbit pos 31 = false) by (rewrite <- (land_31 pos Hp); change (2 ^ 31 - 1) with (Z.ones 31); rewrite Z.land_spec; by rewrite andb_false_r).
  destruct scope; [by rewrite Z.lor_spec, Hbit|]. by rewrite (land_31 pos Hp).
Qed.

Lemma frame_size size n : 0 <= n < 2 ^ 32 → 0 <= size < 2 ^ 31 → signed 32 size = signed 32 n → n = size.
Proof.
  intros Hn Hs He. rewrite (signed_small size Hs) in He. destruct (signed_nonneg n Hn) as [Hn' _]; [lia|]. lia.
Qed.

(** ** The machine *)

(** The element of the top level that is being read, by its position and its name. *)
Definition opened (cur : option (Z * Bytes)) (pre name : Bytes) : option (Z * Bytes) := Some (default (size pre, name) cur).

Section Machines.
Context (data : Bytes) (maxDepth : Z).

(** What has been read for the frames: the first frame is an object with some fields, or code whose scope
    begins, and the others are where it stands. *)
Inductive Within : option (Z * Bytes) → list Frame → Bytes → Prop :=
  | within cur fs pre n fields :
      Starts cur fs pre → 0 <= n < 2 ^ 32 → forallb fieldOk fields = true →
      Z.of_nat (length fs + fieldsHeight fields) <= maxDepth →
      Within cur (frameAt false (size pre) n :: fs) (pre ++ le32 n ++ encodeFields fields)
with InScope : option (Z * Bytes) → list Frame → Bytes → Prop :=
  | in_scope cur fs pre name n s :
      Within cur fs pre → noNul name = true → 0 <= n < 2 ^ 32 →
      InScope (opened cur pre name) (frameAt true (size (pre ++ encodeHeader BSONType.CodeWScope name)) n :: fs)
        ((pre ++ encodeHeader BSONType.CodeWScope name) ++ le32 n ++ encodeText s)
with Starts : option (Z * Bytes) → list Frame → Bytes → Prop :=
  | starts_document : Starts None [] []
  | starts_field cur fs pre type name :
      Within cur fs pre → noNul name = true → isDocument type = true →
      Starts (opened cur pre name) fs (pre ++ encodeHeader type name)
  | starts_scope cur fs pre : InScope cur fs pre → Starts cur fs pre.

Inductive Stage : State → option (Z * Bytes) → list Frame → Bytes → Prop :=
  | stage_begin cur fs c : Starts cur fs c → Stage BeginObj cur fs c
  | stage_within cur fs c : Within cur fs c → Stage WithinObj cur fs c
  | stage_end cur fs c : Within cur fs c → Stage EndObj cur fs (c ++ [0])
  | stage_scope cur fs c name :
      Within cur fs c → noNul name = true →
      Stage BeginCodeWScope (opened cur c name) fs (c ++ encodeHeader BSONType.CodeWScope name)
  | stage_scope_end cur fs c fields :
      InScope cur fs c → forallb fieldOk fields = true → Z.of_nat (length fs + fieldsHeight fields) <= maxDepth →
      Stage EndCodeWScope cur fs (c ++ encodeDocument fields)
  | stage_done fields : document maxDepth fields → Stage Done None [] (encodeDocument fields).

(** The position of a valid element with the name [_id]. *)
Definition Identified (i : Z) : Prop :=
  ∃ pre f rest, data = pre ++ encodeField f ++ rest ∧ i = size pre ∧ fieldOk f = true ∧ fieldName f = idName.

Definition IdOk (i : Z) : Prop := i = eoo ∨ Identified i.

Record Inv (cur : option (Z * Bytes)) (c l : Bytes) (m : Machine) : Prop := {
  inv_stage : Stage (state m) cur (frames m) c;
  inv_data : data = c ++ l;
  inv_position : _position (buffer m) = size c;
  inv_idElem : IdOk (idElem m);
  inv_buffer : IdOk (_idElem (buffer m));
  inv_start :
    idElemStartPos m = 0 ∨ (state m = WithinObj ∧ cur = None ∧ Identified (idElemStartPos m)) ∨ cur = Some (idElemStartPos m, idName)
}.

Lemma within_top cur fs c :
  Within cur fs c → Z.of_nat (length fs) <= maxDepth + 1 ∧ match cur with None => length fs = 1%nat | Some _ => (1 < length fs)%nat end.
Proof using Type.
  destruct 1 as [cur fs pre n fields Hs Hn Hf Hd]. cbn [length]. split; [lia|].
  destruct Hs as [|cur fs pre type name Hw|cur fs pre Hs]; [done| |].
  - cbn. destruct Hw. cbn [length]. lia.
  - destruct Hs as [cur fs pre name m s Hw]. cbn. lia.
Qed.

Lemma within_field cur fs c f :
  Within cur fs c → fieldOk f = true → Z.of_nat (length fs + height f.2) <= maxDepth + 1 → Within cur fs (c ++ encodeField f).
Proof using Type.
  destruct 1 as [cur fs pre n fields Hs Hn Hf Hd]. intros Hok Hh. rewrite <- !app_assoc, <- encodeFields_one, <- encodeFields_app.
  apply within; [done|done| |].
  - rewrite forallb_app, Hf. cbn [forallb]. by rewrite Hok.
  - rewrite fieldsHeight_app. cbn [length] in Hh. unfold fieldsHeight at 2. cbn [foldr]. lia.
Qed.

Lemma within_frame cur fs c :
  size c < 2 ^ 31 → Within cur fs c → ∃ f fs', fs = f :: fs' ∧ isCodeWithScope f = false.
Proof using Type.
  intros Hc. destruct 1 as [cur fs pre n fields]. eexists _, _. split; [done|]. rewrite size_app in Hc.
  apply isCodeWithScope_frameAt. pose proof (size_nonneg pre). pose proof (size_nonneg (le32 n ++ encodeFields fields)). lia.
Qed.

Definition measure (m : Machine) : Z := 2 * (size data - _position (buffer m)) + Z.of_nat (length (frames m)).

(** What a turn may come to. *)
Definition Good (m : Machine) (r : Checked Machine) : Prop :=
  match r with
  | Valid m' => (∃ cur c l, Inv cur c l m') ∧ measure m' < measure m
  | Invalid c i => (c = InvalidBSON ∨ c = Overflow) ∧ IdOk i
  | Wild | Endless => False
  end.
End Machines.

#[global] Instance State_eq_dec : EqDecision State.
Proof. solve_decision. Defined.

(** ** Turns *)

#[local] Arguments le32 : simpl never.
#[local] Arguments encodeText : simpl never.
#[local] Arguments encodeDocument : simpl never.

Section Turns.
Context (data : Bytes) (maxDepth : Z) (bytes : Forall isByte data) (small : size data < 2 ^ 31).

#[local] Abbreviation Inv := (Inv data maxDepth).
#[local] Abbreviation Good := (Good data maxDepth).

Lemma inv_at cur c l m : Inv cur c l m → At data (buffer m) l.
Proof using Type. intros Hi. exists c. split; apply Hi. Qed.

Lemma inv_size cur c l m : Inv cur c l m → 0 <= size c ∧ size c + size l = size data.
Proof using Type. intros Hi. rewrite (inv_data _ _ _ _ _ _ Hi), size_app. pose proof (size_nonneg c). lia. Qed.

(** [idElem] becomes known at the start of the element behind it. *)
Definition settled (m : Machine) : Machine :=
  if (length (frames m) =? 1)%nat && negb (idElemStartPos m =? 0) then
    mkMachine (frames m) (state m) 0 (idElemStartPos m) (setIdElem (idElemStartPos m) (buffer m))
  else m.

Lemma settled_same m : frames (settled m) = frames m ∧ state (settled m) = state m ∧ _position (buffer (settled m)) = _position (buffer m).
Proof using Type. unfold settled. by destruct (_ && _). Qed.

Lemma settled_inv cur c l m : Inv cur c l m → state m = WithinObj → Inv cur c l (settled m) ∧ (cur = None → idElemStartPos (settled m) = 0).
Proof using Type.
  intros Hi Hw. pose proof (inv_stage _ _ _ _ _ _ Hi) as Hs. rewrite Hw in Hs. inversion Hs as [|cur' fs c' Hin| | | |]; subst cur' fs c'.
  destruct (within_top _ _ _ _ Hin) as [_ Ht]. unfold settled. destruct cur as [x|].
  - rewrite (proj2 (Nat.eqb_neq _ _)) by lia. by split.
  - rewrite (proj2 (Nat.eqb_eq _ _) Ht). cbn [andb]. destruct (Z.eqb_spec (idElemStartPos m) 0) as [|Hn]; [by split|]. cbn [negb].
    assert (Hid : Identified data (idElemStartPos m)) by (destruct (inv_start _ _ _ _ _ _ Hi) as [?|[(_ & _ & ?)|?]]; done).
    split; [|done]. split; try apply Hi; cbn; [by right|by right|by left].
Qed.

(** A turn that reads [d]. *)
Lemma good_read m cur c d l cur' fs st start r :
  Inv cur c (d ++ l) m → r = Valid (mkMachine fs st start (idElem m) (advance (size d) (buffer m))) →
  Stage maxDepth st cur' fs (c ++ d) →
  (start = 0 ∨ (st = WithinObj ∧ cur' = None ∧ Identified data start) ∨ cur' = Some (start, idName)) →
  Z.of_nat (length fs) < 2 * size d + Z.of_nat (length (frames m)) → Good m r.
Proof using Type.
  intros Hi -> Hs Hstart Hm. split.
  - exists cur', (c ++ d), l. split; cbn; try apply Hi; [done|by rewrite <- app_assoc; apply Hi| |done].
    rewrite size_app, (inv_position _ _ _ _ _ _ Hi). lia.
  - unfold measure. cbn. lia.
Qed.

Lemma settled_good m cur c l :
  Inv cur c l m → state m = WithinObj → (cur = None → idElemStartPos m = 0) →
  Good m
    ('(nextState, elemName, b) ← validateElementInfo data (size data) (state m) (idElem m) (buffer m);
     let found :=
       match nextState with
       | EndObj => false
       | _ => (idElem m =? eoo) && (length (frames m) =? 1)%nat && bool_decide (elemName = idName)
       end in
     Valid (mkMachine (frames m) nextState (if found then _position (buffer m) else idElemStartPos m) (idElem m) b)).
Proof using All.
  intros Hi Hw Hnone. pose proof (inv_stage _ _ _ _ _ _ Hi) as Hs. rewrite Hw in *.
  inversion Hs as [|cur' fs c' Hin| | | |]; subst cur' fs c'. clear Hs.
  destruct (within_top _ _ _ _ Hin) as [Hdepth Htop]. pose proof (inv_position _ _ _ _ _ _ Hi) as Hp.
  pose proof (inv_data _ _ _ _ _ _ Hi) as Hdata.
  assert (Hstart : idElemStartPos m = 0 ∨ cur = Some (idElemStartPos m, idName)).
  { destruct (inv_start _ _ _ _ _ _ Hi) as [?|[(_ & ? & _)|?]]; [by left|left; by apply Hnone|by right]. }
  assert (Hopen : ∀ name, let found := (idElem m =? eoo) && (length (frames m) =? 1)%nat && bool_decide (name = idName) in
    let start := if found then _position (buffer m) else idElemStartPos m in
    (found = true → cur = None ∧ name = idName) ∧ (start = 0 ∨ opened cur c name = Some (start, idName))).
  { intros name. destruct (_ && _ && _) eqn:Hf; cbn.
    - rewrite !andb_true_iff, Nat.eqb_eq, bool_decide_eq_true in Hf. destruct Hf as [[_ H1] ->]. destruct cur; [lia|].
      split; [done|]. right. by rewrite Hp.
    - split; [done|]. destruct cur; [|left; by apply Hnone]. destruct Hstart as [?|[= ->]]; [by left|by right]. }
  pose proof (info_at data bytes small WithinObj (idElem m) (buffer m) l (inv_at _ _ _ _ Hi)) as Hr.
  revert Hi Hdata. remember (validateElementInfo _ _ _ _ _) as r. clear Heqr.
  destruct Hr as [l|f l Hok Hl|type name l Hn Hd|name l Hn|j l Hj]; intros Hi Hdata; cbn [mbind Checked_bind]; cbv zeta.
  - eapply (good_read m cur c [0] l cur); [exact Hi|done|by apply stage_end|by destruct Hstart; auto|change (size [0]) with 1; lia].
  - destruct (Hopen (fieldName f)) as [Hfound Hst]. revert Hfound Hst. cbv zeta. destruct (_ && _ && _) eqn:Hf; intros Hfound Hst.
    + destruct (Hfound eq_refl) as [-> Hname]. eapply (good_read m None c (encodeField f) l None); [exact Hi|done| | |].
      * apply stage_within, within_field; [done|done|]. destruct (f.2); try done; cbn [height]; lia.
      * right. left. split; [done|]. split; [done|]. by exists c, f, l.
      * unfold encodeField. rewrite size_app, size_header. pose proof (size_nonneg f.1.2). pose proof (size_nonneg (encodePayload f.2)). lia.
    + eapply (good_read m cur c (encodeField f) l cur); [exact Hi|done| | |].
      * apply stage_within, within_field; [done|done|]. destruct (f.2); try done; cbn [height]; lia.
      * destruct Hstart; auto.
      * unfold encodeField. rewrite size_app, size_header. pose proof (size_nonneg f.1.2). pose proof (size_nonneg (encodePayload f.2)). lia.
  - destruct (Hopen name) as [_ Hst]. eapply (good_read m cur c (encodeHeader type name) l (opened cur c name)); [exact Hi|done| | |].
    + by apply stage_begin, starts_field.
    + destruct Hst; auto.
    + rewrite size_header. pose proof (size_nonneg name). lia.
  - destruct (Hopen name) as [_ Hst]. eapply (good_read m cur c (encodeHeader _ name) l (opened cur c name)); [exact Hi|done| | |].
    + by apply stage_scope.
    + destruct Hst; auto.
    + rewrite size_header. pose proof (size_nonneg name). lia.
  - split; [by left|]. destruct Hj as [-> | ->]; apply Hi.
Qed.

Lemma within_good m cur c l : Inv cur c l m → state m = WithinObj → Good m (withinObj data (size data) m).
Proof using All.
  intros Hi0 Hw0. destruct (settled_inv _ _ _ _ Hi0 Hw0) as [Hi Hnone]. destruct (settled_same m) as (Hf & Hst & Hpos).
  assert (Hm : measure data (settled m) = measure data m) by (unfold measure; by rewrite Hf, Hpos).
  rewrite Hw0 in Hst. pose proof (settled_good _ _ _ _ Hi Hst Hnone) as Hg. unfold withinObj. fold (settled m).
  unfold BsonValidateProps.Good in *. rewrite Hm, Hf in Hg. by rewrite Hf.
Qed.

Lemma pushFrame_at scope m cur c l :
  Inv cur c l m →
  pushFrame data (size data) scope m = Valid None ∨
  ∃ n l', l = le32 n ++ l' ∧ 0 <= n < 2 ^ 32 ∧
    pushFrame data (size data) scope m =
      Valid (Some (mkMachine (frameAt scope (size c) n :: frames m) (state m) (idElemStartPos m) (idElem m) (advance 4 (buffer m)))).
Proof using All.
  intros Hi. unfold pushFrame. rewrite (inv_position _ _ _ _ _ _ Hi).
  destruct (readSize_at data bytes small _ l (inv_at _ _ _ _ Hi)) as [(n & l' & -> & Hn & ->)| ->]; [right|by left].
  by exists n, l'.
Qed.

(** The machine is in the midst of an element, whose name is known. *)
Lemma inv_pending cur c l m : Inv cur c l m → state m ≠ WithinObj → idElemStartPos m = 0 ∨ cur = Some (idElemStartPos m, idName).
Proof using Type. intros Hi Hn. destruct (inv_start _ _ _ _ _ _ Hi) as [?|[(? & _)|?]]; [by left|done|by right]. Qed.

Lemma begin_good m cur c l : Inv cur c l m → state m = BeginObj → Good m (step data (size data) maxDepth m).
Proof using All.
  intros Hi Hst. unfold step. rewrite Hst. pose proof (inv_stage _ _ _ _ _ _ Hi) as Hs. rewrite Hst in Hs.
  inversion Hs as [cur' fs c' Hin| | | | |]; subst cur' fs c'. clear Hs.
  destruct (Z.ltb_spec maxDepth (Z.of_nat (length (frames m)))) as [|Hdepth]; [by split; [right|left]|].
  destruct (pushFrame_at false m cur c l Hi) as [->|(n & l' & -> & Hn & ->)]; cbn [mbind Checked_bind].
  { split; [by left|apply Hi]. }
  unfold withState. cbn [frames state idElemStartPos idElem buffer].
  set (m' := mkMachine _ _ _ _ _). assert (Hi' : Inv cur (c ++ le32 n) l' m').
  { split; cbn; try apply Hi.
    - replace (c ++ le32 n) with (c ++ le32 n ++ encodeFields []) by (change (encodeFields []) with (@nil Z); by rewrite app_nil_r).
      apply stage_within, within; [done|done|done|]. change (fieldsHeight []) with 0%nat. lia.
    - rewrite <- app_assoc. apply Hi.
    - rewrite size_app, size_le32, (inv_position _ _ _ _ _ _ Hi). lia.
    - destruct (inv_pending _ _ _ _ Hi); [by rewrite Hst|auto..]. }
  pose proof (within_good m' cur _ _ Hi' eq_refl) as Hg. revert Hg. unfold BsonValidateProps.Good.
  destruct (withinObj data (size data) m') as [m''| | |]; try done. intros [Hm Hlt]. split; [done|].
  assert (measure data m' < measure data m) by (unfold measure, m'; cbn; lia). lia.
Qed.

Lemma scope_good m cur c l : Inv cur c l m → state m = BeginCodeWScope → Good m (step data (size data) maxDepth m).
Proof using All.
  intros Hi Hst. unfold step. rewrite Hst. pose proof (inv_stage _ _ _ _ _ _ Hi) as Hs. rewrite Hst in Hs.
  destruct (pushFrame_at true m cur c l Hi) as [->|(n & l' & -> & Hn & ->)]; cbn [mbind Checked_bind].
  { split; [by left|apply Hi]. }
  cbn [frames state idElemStartPos idElem buffer]. pose proof (At_advance data bytes small _ _ _ (inv_at _ _ _ _ Hi)) as Hat.
  rewrite size_le32 in Hat. destruct (readText_at data bytes small _ _ Hat) as [(s & l'' & -> & ->)| ->]; cbn [mbind Checked_bind].
  - inversion Hs as [| | |cur' fs c' name Hin Hname| |]; subst. pose proof (inv_pending _ _ _ _ Hi) as Hp.
    rewrite app_assoc in Hi. eapply (good_read m _ _ (le32 n ++ encodeText s) l''); [exact Hi| | | |].
    + by rewrite advance_advance, (size_app (le32 n)), size_le32.
    + by apply stage_begin, starts_scope, in_scope.
    + destruct Hp; [by rewrite Hst|auto..].
    + rewrite (size_app (le32 n)), size_le32. pose proof (size_nonneg (encodeText s)). cbn [length]. lia.
  - split; [by left|apply Hi].
Qed.

Lemma prefix_small m cur pre d l : Inv cur (pre ++ d) l m → size pre < 2 ^ 31.
Proof using small.
  intros Hi. pose proof (inv_size _ _ _ _ Hi) as [_ Hs]. rewrite size_app in Hs. pose proof (size_nonneg d). pose proof (size_nonneg l). lia.
Qed.

(** A frame ends where its size says. *)
Lemma actualLength_at m cur pre d l scope n :
  Inv cur (pre ++ d) l m → actualLength m (frameAt scope (size pre) n) = size d.
Proof using small.
  intros Hi. pose proof (inv_size _ _ _ _ Hi) as [_ Hs]. unfold actualLength. rewrite (inv_position _ _ _ _ _ _ Hi).
  rewrite size_app in *. pose proof (size_nonneg pre). pose proof (size_nonneg d). pose proof (size_nonneg l).
  rewrite startPosition_frameAt by lia. replace (size pre + size d - size pre) with (size d) by lia.
  rewrite Z.mod_small by lia. apply signed_small. lia.
Qed.

(** A turn that takes a frame away. *)
Lemma good_pop m cur c l f cur' fs st c' :
  Inv cur c l m → frames m = f :: fs → c = c' → Stage maxDepth st cur' fs c' →
  (idElemStartPos m = 0 ∨ (st = WithinObj ∧ cur' = None ∧ Identified data (idElemStartPos m)) ∨ cur' = Some (idElemStartPos m, idName)) →
  Good m (Valid (mkMachine fs st (idElemStartPos m) (idElem m) (buffer m))).
Proof using Type.
  intros Hi Hf -> Hs Hst. split.
  - exists cur', c', l. split; cbn; try apply Hi; done.
  - unfold measure. cbn. rewrite Hf. cbn [length]. lia.
Qed.

(** The element that ends is [_id] when it is the one that was marked. *)
Lemma closed_start m cur pre type name p rest :
  idElemStartPos m = 0 ∨ opened cur pre name = Some (idElemStartPos m, idName) →
  data = pre ++ encodeField (type, name, p) ++ rest → fieldOk (type, name, p) = true →
  idElemStartPos m = 0 ∨ (WithinObj = WithinObj ∧ cur = None ∧ Identified data (idElemStartPos m)) ∨ cur = Some (idElemStartPos m, idName).
Proof using Type.
  intros [H0|Ho] Hd Hok; [by left|right]. destruct cur as [x|]; [by right|left]. injection Ho as <- ->.
  split; [done|]. split; [done|]. by exists pre, (type, idName, p), rest.
Qed.

(** A size that is as large as what it is the size of. *)
Lemma expected_size m cur pre n d l :
  Inv cur (pre ++ le32 n ++ d) l m → 0 <= n < 2 ^ 32 → size (le32 n ++ d) = signed 32 n → le32 n ++ d = sized d.
Proof using small.
  intros Hi Hn He. pose proof (inv_size _ _ _ _ Hi) as Hsize. pose proof (size_nonneg pre). pose proof (size_nonneg l). pose proof (size_nonneg d).
  rewrite !size_app, size_le32 in *. unfold sized. do 2 f_equal. apply frame_size; [done|lia|]. by rewrite signed_small by lia.
Qed.

Lemma end_good m cur c l : Inv cur c l m → state m = EndObj → Good m (step data (size data) maxDepth m).
Proof using All.
  intros Hi Hst. unfold step. rewrite Hst. pose proof (inv_stage _ _ _ _ _ _ Hi) as Hs. rewrite Hst in Hs.
  pose proof (inv_pending _ _ _ _ Hi ltac:(by rewrite Hst)) as Hp.
  inversion Hs as [| |cur' fs c' Hin| | |]; subst cur' fs c. inversion Hin as [cur' fs pre n fields Hstart Hn Hok Hd Hcur Hfs Hc]. subst cur' c'.
  assert (Hbody : (pre ++ le32 n ++ encodeFields fields) ++ [0] = pre ++ le32 n ++ encodeFields fields ++ [0]) by (by rewrite <- !app_assoc).
  rewrite Hbody in Hi. rewrite (actualLength_at _ _ _ _ _ _ _ Hi).
  destruct (Z.eqb_spec (size (le32 n ++ encodeFields fields ++ [0])) (expectedSize (frameAt false (size pre) n))) as [He|]; cbn [negb].
  2: { split; [by left|apply Hi]. }
  assert (Hdoc : pre ++ le32 n ++ encodeFields fields ++ [0] = pre ++ encodeDocument fields)
    by (f_equal; exact (expected_size _ _ _ _ _ _ Hi Hn He)).
  rewrite Hdoc in Hi. symmetry in Hfs. destruct Hstart as [|cur fs pre type name Hw Hname Htype|cur fs pre Hscope].
  - eapply (good_pop m None _ l _ None [] Done (encodeDocument fields)); [exact Hi|exact Hfs|reflexivity| |by destruct Hp; auto].
    apply stage_done. split; [done|]. cbn [length] in Hd. lia.
  - rewrite <- app_assoc in Hi. destruct (within_frame _ _ _ _ (prefix_small _ _ _ _ _ Hi) Hw) as (f & fs' & Heq & Htop).
    assert (Hnext : match fs with [] => Done | f :: _ => if isCodeWithScope f then EndCodeWScope else WithinObj end = WithinObj)
      by (by rewrite Heq, Htop).
    rewrite Hnext.
    assert (Hfield : fieldOk (type, name, Nested fields) = true) by (unfold fieldOk; cbn [fst snd typed]; rewrite Hname, Htype; exact Hok).
    eapply (good_pop m _ _ l _ cur fs WithinObj (pre ++ encodeField (type, name, Nested fields))); [exact Hi|exact Hfs| | |].
    + done.
    + apply stage_within, (within_field _ _ _ _ (type, name, Nested fields)); [done|done|]. cbn [snd height].
      change (foldr _ _ fields) with (fieldsHeight fields). lia.
    + apply (closed_start m cur pre type name (Nested fields) l); [exact Hp| |exact Hfield].
      rewrite (inv_data _ _ _ _ _ _ Hi). unfold encodeField. cbn [fst snd]. by rewrite <- !app_assoc.
  - assert (Htop : match fs with [] => False | f :: _ => isCodeWithScope f = true end).
    { destruct Hscope as [cur fs pre name n0 s Hw Hname Hn0]. rewrite <- app_assoc in Hi.
      rewrite isCodeWithScope_frameAt; [done|]. split; [apply size_nonneg|exact (prefix_small _ _ _ _ _ Hi)]. }
    destruct fs as [|f fs]; [done|]. rewrite Htop.
    eapply (good_pop m _ _ l _ cur _ EndCodeWScope (pre ++ encodeDocument fields)); [exact Hi|exact Hfs|reflexivity| |destruct Hp; auto].
    by apply stage_scope_end.
Qed.

Lemma scope_end_good m cur c l : Inv cur c l m → state m = EndCodeWScope → Good m (step data (size data) maxDepth m).
Proof using All.
  intros Hi Hst. unfold step. rewrite Hst. pose proof (inv_stage _ _ _ _ _ _ Hi) as Hs. rewrite Hst in Hs.
  pose proof (inv_pending _ _ _ _ Hi ltac:(by rewrite Hst)) as Hp.
  inversion Hs as [| | | |cur' fs c' fields Hin Hok Hd|]; subst cur' fs c.
  inversion Hin as [cur' fs pre name n s Hw Hname Hn Hcur Hfs Hc]. subst cur c'.
  assert (Hbody : ((pre ++ encodeHeader BSONType.CodeWScope name) ++ le32 n ++ encodeText s) ++ encodeDocument fields =
    (pre ++ encodeHeader BSONType.CodeWScope name) ++ le32 n ++ encodeText s ++ encodeDocument fields) by (by rewrite <- !app_assoc).
  rewrite Hbody in Hi. rewrite (actualLength_at _ _ _ _ _ _ _ Hi).
  destruct (Z.eqb_spec (size (le32 n ++ encodeText s ++ encodeDocument fields))
    (expectedSize (frameAt true (size (pre ++ encodeHeader BSONType.CodeWScope name)) n))) as [He|]; cbn [negb].
  2: { split; [by left|apply Hi]. }
  pose proof (expected_size _ _ _ _ _ _ Hi Hn He) as Hsized. rewrite Hsized in Hi.
  set (f := (BSONType.CodeWScope, name, Scoped s fields) : Field).
  assert (Hfield : fieldOk f = true) by (unfold fieldOk; cbn [f fst snd typed]; rewrite Hname; exact Hok).
  assert (Hc : (pre ++ encodeHeader BSONType.CodeWScope name) ++ sized (encodeText s ++ encodeDocument fields) = pre ++ encodeField f)
    by (unfold encodeField; by rewrite <- app_assoc).
  rewrite Hc in Hi. assert (Hnext : Good m (Valid (mkMachine fs WithinObj (idElemStartPos m) (idElem m) (buffer m)))).
  { eapply (good_pop m _ _ l _ cur' fs WithinObj (pre ++ encodeField f)); [exact Hi|by symmetry|done| |].
    - apply stage_within, within_field; [done|done|]. rewrite <- Hfs in Hd. cbn [f snd height length] in *.
      change (foldr _ _ fields) with (fieldsHeight fields). lia.
    - apply (closed_start m cur' pre BSONType.CodeWScope name (Scoped s fields) l); [exact Hp| |exact Hfield].
      rewrite (inv_data _ _ _ _ _ _ Hi). by rewrite <- app_assoc. }
  destruct (within_top _ _ _ _ Hw) as [_ Htop]. destruct fs; [destruct cur'; cbn [length] in Htop; lia|exact Hnext].
Qed.

Lemma step_good m cur c l : Inv cur c l m → state m ≠ Done → Good m (step data (size data) maxDepth m).
Proof using All.
  intros Hi Hn. destruct (state m) eqn:Hst; [by eapply begin_good| |by eapply end_good|by eapply scope_good|by eapply scope_end_good|done].
  unfold step. rewrite Hst. by eapply within_good.
Qed.

(** What the loop comes to. *)
Definition Finished (r : Checked Machine) : Prop :=
  match r with
  | Valid m => ∃ cur c l, Inv cur c l m ∧ state m = Done
  | Invalid c i => (c = InvalidBSON ∨ c = Overflow) ∧ IdOk data i
  | Wild | Endless => False
  end.

Lemma loop_finished fuel m cur c l :
  Inv cur c l m → measure data m < Z.of_nat fuel → Finished (loop data (size data) maxDepth fuel m).
Proof using All.
  revert m cur c l. induction fuel as [|fuel IH]; intros m cur c l Hi Hm.
  - pose proof (inv_size _ _ _ _ Hi). pose proof (size_nonneg l). unfold measure in Hm. rewrite (inv_position _ _ _ _ _ _ Hi) in Hm. lia.
  - destruct (decide (state m = Done)) as [Hd|Hd].
    { cbn [loop]. rewrite Hd. by exists cur, c, l. }
    assert (Hl : loop data (size data) maxDepth (S fuel) m = m ← step data (size data) maxDepth m; loop data (size data) maxDepth fuel m)
      by (cbn [loop]; by destruct (state m)).
    rewrite Hl. pose proof (step_good _ _ _ _ Hi Hd) as Hg. destruct (step data (size data) maxDepth m) as [m'|code i| |]; try done.
    destruct Hg as [(cur' & c' & l' & Hi') Hlt]. apply (IH m' cur' c' l' Hi'). lia.
Qed.

Lemma initial_machine_inv : Inv None [] data initial.
Proof using Type. split; cbn; auto; [apply stage_begin, starts_document|by left|by left]. Qed.

Lemma validate_finished : Finished (validateBSON data (size data) maxDepth).
Proof using All.
  unfold validateBSON. destruct (Z.ltb_spec (size data) 5); [by split; left|].
  apply (loop_finished _ _ _ _ _ initial_machine_inv). unfold measure, enough. cbn. lia.
Qed.
End Turns.

(** ** The encodings are accepted *)

Section Accepts.
Context (data : Bytes) (maxDepth : Z) (bytes : Forall isByte data) (small : size data < 2 ^ 31).

Definition Turn (m m' : Machine) : Prop := step data (size data) maxDepth m = Valid m'.

(** The machine has read [n] bytes. *)
Definition Moved (m m' : Machine) (n : Z) : Prop := frames m' = frames m ∧ _position (buffer m') = _position (buffer m) + n.

Lemma loop_turns fuel m m' : rtc Turn m m' → state m' = Done → loop data (size data) maxDepth fuel m ∈ [Endless; Valid m'].
Proof using All.
  intros Ht Hd. revert fuel. induction Ht as [m|m m1 m' Hstep _ IH]; intros fuel.
  - assert (loop data (size data) maxDepth fuel m = Valid m) as -> by (destruct fuel; cbn [loop]; by rewrite Hd). set_solver.
  - unfold Turn in Hstep. destruct (decide (state m = Done)) as [Hm|Hm].
    { unfold step in Hstep. rewrite Hm in Hstep. injection Hstep as <-. by apply IH. }
    destruct fuel as [|fuel]; [cbn [loop]; destruct (state m); set_solver|].
    assert (Hl : loop data (size data) maxDepth (S fuel) m = m ← step data (size data) maxDepth m; loop data (size data) maxDepth fuel m)
      by (cbn [loop]; by destruct (state m)).
    rewrite Hl, Hstep. by apply IH.
Qed.

Lemma at_moved b b' d l : At data b (d ++ l) → _position b' = _position b + size d → At data b' l.
Proof using All.
  intros Hb Hp. destruct (At_advance data bytes small b d l Hb) as (pre & Hd & Hpre). exists pre. split; [done|].
  rewrite Hp, <- Hpre. done.
Qed.

Lemma at_position b b' l : At data b l → _position b' = _position b → At data b' l.
Proof using All. intros (pre & Hd & Hp) He. exists pre. by rewrite He. Qed.

Lemma within_turn m st name n :
  state m = WithinObj →
  (∀ i b, _position b = _position (buffer m) → validateElementInfo data (size data) WithinObj i b = Valid (st, name, advance n b)) →
  ∃ m', Turn m m' ∧ state m' = st ∧ Moved m m' n.
Proof using All.
  intros Hw Hinfo. destruct (settled_same m) as (Hf & Hst & Hp). unfold Turn, step. rewrite Hw. unfold withinObj. fold (settled m).
  rewrite Hst, Hw, Hinfo by done. cbn [mbind Checked_bind]. eexists. split; [reflexivity|]. split; [done|].
  split; [exact Hf|]. cbn. by rewrite Hp.
Qed.

Lemma begin_turn m n l :
  state m = BeginObj → At data (buffer m) (le32 n ++ l) → 0 <= n < 2 ^ 32 → Z.of_nat (length (frames m)) <= maxDepth →
  ∃ m1, (∀ m', Turn m1 m' → Turn m m') ∧ state m1 = WithinObj ∧
    frames m1 = frameAt false (_position (buffer m)) n :: frames m ∧ _position (buffer m1) = _position (buffer m) + 4.
Proof using All.
  intros Hst Hb Hn Hd. exists (mkMachine (frameAt false (_position (buffer m)) n :: frames m) WithinObj (idElemStartPos m) (idElem m) (advance 4 (buffer m))).
  split; [|done]. intros m' Hm'. unfold Turn, step in *. rewrite Hst. cbn [state] in Hm'.
  destruct (Z.ltb_spec maxDepth (Z.of_nat (length (frames m)))); [lia|]. unfold pushFrame.
  rewrite (readSize_encoded data bytes small n _ l Hb Hn). exact Hm'.
Qed.

(** Where the machine goes when an object ends. *)
Definition after (fs : list Frame) : State :=
  match fs with [] => Done | f :: _ => if isCodeWithScope f then EndCodeWScope else WithinObj end.

Lemma end_turn m pos n fs :
  state m = EndObj → frames m = frameAt false pos n :: fs → _position (buffer m) = pos + n → 0 <= pos < 2 ^ 31 → 0 <= n < 2 ^ 31 →
  ∃ m', Turn m m' ∧ state m' = after fs ∧ frames m' = fs ∧ _position (buffer m') = _position (buffer m).
Proof using All.
  intros Hst Hf Hp Hpos Hn. eexists. split; [|split; [|split]].
  - unfold Turn, step. rewrite Hst, Hf. unfold actualLength. rewrite Hp, startPosition_frameAt by done.
    replace (pos + n - pos) with n by lia. rewrite Z.mod_small by lia. change (expectedSize _) with (signed 32 n).
    rewrite Z.eqb_refl. reflexivity.
  - done.
  - done.
  - done.
Qed.

Lemma scope_turn m n s l :
  state m = BeginCodeWScope → At data (buffer m) (le32 n ++ encodeText s ++ l) → 0 <= n < 2 ^ 32 →
  ∃ m', Turn m m' ∧ state m' = BeginObj ∧ frames m' = frameAt true (_position (buffer m)) n :: frames m ∧
    _position (buffer m') = _position (buffer m) + 4 + size (encodeText s).
Proof using All.
  intros Hst Hb Hn. unfold Turn, step. rewrite Hst. unfold pushFrame. rewrite (readSize_encoded data bytes small n _ _ Hb Hn).
  cbn [mbind Checked_bind frames state idElemStartPos idElem buffer]. pose proof (At_advance data bytes small _ _ _ Hb) as Hb1. rewrite size_le32 in Hb1.
  rewrite (readText_encoded data bytes small _ s l Hb1). cbn [mbind Checked_bind]. by eexists.
Qed.

Lemma scope_end_turn m pos n f fs :
  state m = EndCodeWScope → frames m = frameAt true pos n :: f :: fs → _position (buffer m) = pos + n → 0 <= pos < 2 ^ 31 → 0 <= n < 2 ^ 31 →
  ∃ m', Turn m m' ∧ state m' = WithinObj ∧ frames m' = f :: fs ∧ _position (buffer m') = _position (buffer m).
Proof using All.
  intros Hst Hf Hp Hpos Hn. eexists. split; [|split; [|split]].
  - unfold Turn, step. rewrite Hst, Hf. unfold actualLength. rewrite Hp, startPosition_frameAt by done.
    replace (pos + n - pos) with n by lia. rewrite Z.mod_small by lia. change (expectedSize _) with (signed 32 n).
    rewrite Z.eqb_refl. reflexivity.
  - done.
  - done.
  - done.
Qed.

(** An object can go on. *)
Definition Inside (m : Machine) : Prop :=
  state m = WithinObj ∧ match frames m with [] => False | f :: _ => isCodeWithScope f = false end.

(** A payload is read whole, when a byte follows it. *)
Definition Reads (p : Payload) : Prop :=
  ∀ type name x l m,
    Inside m → At data (buffer m) (encodeField (type, name, p) ++ x :: l) → fieldOk (type, name, p) = true →
    Z.of_nat (length (frames m) + height p) <= maxDepth + 1 →
    ∃ m', rtc Turn m m' ∧ state m' = WithinObj ∧ Moved m m' (size (encodeField (type, name, p))).

Lemma Moved_trans m1 m2 m3 a b : Moved m1 m2 a → Moved m2 m3 b → Moved m1 m3 (a + b).
Proof using All. intros [H1 H2] [H3 H4]. split; [by rewrite H3|lia]. Qed.

Lemma Inside_moved m m' n : Inside m → state m' = WithinObj → Moved m m' n → Inside m'.
Proof using All. intros [_ Hi] Hs [Hf _]. split; [done|]. by rewrite Hf. Qed.

Lemma leaf_reads p : isLeaf p = true → Reads p.
Proof using All.
  intros Hl type name x l m [Hw _] Hb Hok _.
  destruct (within_turn m WithinObj name (size (encodeField (type, name, p))) Hw) as (m' & Ht & Hs & Hm).
  - intros i b Hp. apply (info_leaf data bytes small WithinObj i b (type, name, p) x l); [by eapply at_position|done|done].
  - exists m'. by split; [apply rtc_once|].
Qed.

Lemma encoded_fields_read fields l m :
  Forall (λ f, Reads f.2) fields → Inside m → At data (buffer m) (encodeFields fields ++ 0 :: l) → forallb fieldOk fields = true →
  Z.of_nat (length (frames m) + fieldsHeight fields) <= maxDepth + 1 →
  ∃ m', tc Turn m m' ∧ state m' = EndObj ∧ Moved m m' (size (encodeFields fields ++ [0])).
Proof using All.
  intros Hall. revert m. induction Hall as [|[[type name] p] fields Hf _ IH]; intros m Hi Hb Hok Hd.
  - destruct (within_turn m EndObj [] 1 (proj1 Hi)) as (m' & Ht & Hs & Hm).
    { intros i b Hp. apply (info_end data bytes small WithinObj i b l). by eapply at_position. }
    exists m'. by split; [apply tc_once|].
  - cbn [forallb] in Hok. apply andb_true_iff in Hok as [Hf1 Hok].
    change (encodeFields ((type, name, p) :: fields)) with (encodeField (type, name, p) ++ encodeFields fields) in *.
    change (fieldsHeight ((type, name, p) :: fields)) with (Nat.max (height p) (fieldsHeight fields)) in Hd.
    rewrite <- app_assoc in Hb. assert (∃ x l', encodeFields fields ++ 0 :: l = x :: l') as (x & l' & Hx)
      by (destruct (encodeFields fields) as [|y r]; [by exists 0, l|by exists y, (r ++ 0 :: l)]).
    destruct (Hf type name x l' m Hi) as (m1 & Ht1 & Hs1 & Hm1); [by rewrite <- Hx|done|cbn [snd]; lia|].
    destruct (IH m1) as (m2 & Ht2 & Hs2 & Hm2); [by eapply Inside_moved|by eapply at_moved, Hm1|done|destruct Hm1 as [-> _]; lia|].
    exists m2. split; [by eapply tc_rtc_l|]. split; [done|]. rewrite <- app_assoc, size_app. by eapply Moved_trans.
Qed.

Lemma document_reads fields l m :
  Forall (λ f, Reads f.2) fields → state m = BeginObj → At data (buffer m) (encodeDocument fields ++ l) → forallb fieldOk fields = true →
  Z.of_nat (length (frames m) + fieldsHeight fields) <= maxDepth →
  ∃ m', rtc Turn m m' ∧ state m' = after (frames m) ∧ Moved m m' (size (encodeDocument fields)).
Proof using All.
  intros Hall Hst Hb Hok Hd. destruct (At_bounds data bytes small _ _ Hb) as [H0 H1].
  unfold encodeDocument, sized in *. set (body := encodeFields fields ++ [0]) in *. rewrite !size_app, size_le32 in *.
  pose proof (size_nonneg body). pose proof (size_nonneg l). rewrite <- app_assoc in Hb.
  destruct (begin_turn m (4 + size body) (body ++ l) Hst Hb) as (m1 & Hfirst & Hs1 & Hf1 & Hp1); [lia|lia|].
  destruct (encoded_fields_read fields l m1 Hall) as (m2 & Ht2 & Hs2 & Hf2 & Hp2).
  - split; [done|]. rewrite Hf1. apply isCodeWithScope_frameAt. lia.
  - pose proof (at_moved _ (buffer m1) _ _ Hb Hp1) as Hb1. unfold body in Hb1. by rewrite <- app_assoc in Hb1.
  - done.
  - rewrite Hf1. cbn [length]. lia.
  - rewrite Hf1 in Hf2. fold body in Hp2.
    destruct (end_turn m2 _ _ _ Hs2 Hf2) as (m3 & Ht3 & Hs3 & Hf3 & Hp3); [lia|lia|lia|].
    exists m3. split; [|split; [done|split; [done|lia]]].
    apply tc_rtc. eapply tc_r; [|exact Ht3]. inversion Ht2; subst; [by apply tc_once, Hfirst|]. eapply tc_l; [by apply Hfirst|done].
Qed.

(** The header of an element whose payload is left to the machine. *)
Lemma header_turn type name rest m :
  Inside m → At data (buffer m) (encodeHeader type name ++ rest) → noNul name = true → (isDocument type = true ∨ type = BSONType.CodeWScope) →
  ∃ m', Turn m m' ∧ state m' = (if type =? BSONType.CodeWScope then BeginCodeWScope else BeginObj) ∧
    Moved m m' (size (encodeHeader type name)) ∧ At data (buffer m') rest.
Proof using All.
  intros [Hw _] Hb Hn Ht.
  destruct (within_turn m (if type =? BSONType.CodeWScope then BeginCodeWScope else BeginObj) name (size (encodeHeader type name)) Hw) as (m' & Hturn & Hs & Hm).
  - intros i b Hp. apply (info_open data bytes small WithinObj i b type name rest); [by eapply at_position|done|done].
  - exists m'. do 3 (split; [done|]). by eapply at_moved, Hm.
Qed.

Lemma nested_reads fields : Forall (λ f, Reads f.2) fields → Reads (Nested fields).
Proof using All.
  intros Hall type name x l m Hi Hb Hok Hd. unfold fieldOk in Hok. cbn [fst snd typed] in Hok.
  rewrite !andb_true_iff in Hok. destruct Hok as (Hn & Htype & Hok). unfold encodeField in *. cbn [fst snd] in *. rewrite <- app_assoc in Hb.
  change (encodePayload (Nested fields)) with (encodeDocument fields) in *. change (height (Nested fields)) with (S (fieldsHeight fields)) in Hd.
  destruct (header_turn type name _ m Hi Hb Hn (or_introl Htype)) as (m1 & Ht1 & Hs1 & Hm1 & Hb1).
  destruct (isDocument_range type Htype) as (_ & _ & Hc%Z.eqb_neq). rewrite Hc in Hs1.
  destruct (document_reads fields (x :: l) m1 Hall Hs1 Hb1 Hok) as (m2 & Ht2 & Hs2 & Hm2); [destruct Hm1 as [-> _]; lia|].
  exists m2. split; [by eapply rtc_l|]. rewrite size_app. split; [|by eapply Moved_trans].
  rewrite Hs2. destruct Hm1 as [-> _], Hi as [_ Htop]. unfold after. destruct (frames m); [done|by rewrite Htop].
Qed.

Lemma scoped_reads s fields : Forall (λ f, Reads f.2) fields → Reads (Scoped s fields).
Proof using All.
  intros Hall type name x l m Hi Hb Hok Hd. unfold fieldOk in Hok. cbn [fst snd typed] in Hok.
  rewrite !andb_true_iff, Z.eqb_eq in Hok. destruct Hok as (Hn & -> & Hok). unfold encodeField in *. cbn [fst snd] in *. rewrite <- app_assoc in Hb.
  change (encodePayload (Scoped s fields)) with (sized (encodeText s ++ encodeDocument fields)) in *.
  change (height (Scoped s fields)) with (S (S (fieldsHeight fields))) in Hd.
  destruct (header_turn _ name _ m Hi Hb Hn (or_intror eq_refl)) as (m1 & Ht1 & Hs1 & [Hf1 Hp1] & Hb1).
  destruct (At_bounds data bytes small _ _ Hb1) as [H0 H1]. unfold sized in *. set (body := encodeText s ++ encodeDocument fields) in *.
  rewrite !size_app, size_le32 in *. pose proof (size_nonneg body). pose proof (size_nonneg (x :: l)). rewrite <- app_assoc in Hb1.
  assert (Hb1' : At data (buffer m1) (le32 (4 + size body) ++ encodeText s ++ encodeDocument fields ++ x :: l))
    by (unfold body in Hb1 at 2; by rewrite <- app_assoc in Hb1).
  destruct (scope_turn m1 _ s _ Hs1 Hb1') as (m2 & Ht2 & Hs2 & Hf2 & Hp2); [lia|].
  assert (Hb2 : At data (buffer m2) (encodeDocument fields ++ x :: l)).
  { eapply (at_moved (buffer m1) (buffer m2) (le32 (4 + size body) ++ encodeText s)); [by rewrite <- app_assoc|].
    rewrite size_app, size_le32. lia. }
  destruct (document_reads fields (x :: l) m2 Hall Hs2 Hb2 Hok) as (m3 & Ht3 & Hs3 & Hf3 & Hp3).
  { rewrite Hf2, Hf1. cbn [length]. lia. }
  rewrite Hf2 in Hs3, Hf3. cbn [after] in Hs3. rewrite isCodeWithScope_frameAt in Hs3 by lia.
  assert (Hbody : size body = size (encodeText s) + size (encodeDocument fields)) by (unfold body; by rewrite size_app).
  destruct Hi as [Hw Htop]. destruct (frames m) as [|f fs] eqn:Hfm; [done|]. rewrite Hf1 in Hf3.
  destruct (scope_end_turn m3 _ _ f fs Hs3 Hf3) as (m4 & Ht4 & Hs4 & Hf4 & Hp4); [lia|lia|lia|].
  exists m4. split; [|split; [done|split; [by rewrite Hfm|lia]]].
  eapply rtc_l; [exact Ht1|]. eapply rtc_l; [exact Ht2|]. eapply rtc_r; [exact Ht3|exact Ht4].
Qed.

Lemma payload_reads p : Reads p.
Proof using All.
  apply payload_ind; clear p; [exact nested_reads|exact scoped_reads|]. intros p. destruct p; try done; by apply leaf_reads.
Qed.

Lemma validate_accepts fields rest :
  data = encodeDocument fields ++ rest → document maxDepth fields →
  ∃ m, validateBSON data (size data) maxDepth = Valid m ∧ _position (buffer m) = size (encodeDocument fields).
Proof using All.
  intros Hd [Hok Hh].
  destruct (document_reads fields rest initial) as (m & Ht & Hs & Hf & Hp); [apply Forall_true; intros; apply payload_reads|done|by exists []|done|cbn; lia|].
  exists m. split; [|exact Hp]. cbn [after frames initial] in Hs. pose proof (validate_finished data maxDepth bytes small) as Hfin.
  unfold validateBSON in *. assert (Hlen : 5 <= size data).
  { rewrite Hd. unfold encodeDocument, sized. rewrite !size_app, size_le32. change (size [0]) with 1.
    pose proof (size_nonneg (encodeFields fields)). pose proof (size_nonneg rest). lia. }
  destruct (Z.ltb_spec (size data) 5); [lia|]. unfold validateBSONIterative in *.
  pose proof (loop_turns (enough (size data)) initial m Ht Hs) as Hl. rewrite elem_of_cons, list_elem_of_singleton in Hl.
  destruct Hl as [Hl|Hl]; [by rewrite Hl in Hfin|done].
Qed.
End Accepts.

(** ** What is decided *)

(** C7: The validator accepts exactly the buffers that begin with the encoding of a well-typed document
    whose nesting the limit allows, and what it has read is that document. *)
Theorem validate_exact data maxDepth n (bytes : Forall isByte data) (small : size data < 2 ^ 31) :
  (∃ m, validateBSON data (size data) maxDepth = Valid m ∧ _position (buffer m) = n) ↔
  (∃ fields rest, data = encodeDocument fields ++ rest ∧ document maxDepth fields ∧ n = size (encodeDocument fields)).
Proof.
  split.
  - intros (m & Hm & <-). pose proof (validate_finished data maxDepth bytes small) as Hf. rewrite Hm in Hf.
    destruct Hf as (cur & c & l & Hi & Hd). pose proof (inv_stage _ _ _ _ _ _ Hi) as Hs. rewrite Hd in Hs.
    pose proof (inv_data _ _ _ _ _ _ Hi) as Hdata. pose proof (inv_position _ _ _ _ _ _ Hi) as Hp.
    inversion Hs as [| | | | |fields Hdoc]; subst c. by exists fields, l.
  - intros (fields & rest & Hd & Hdoc & ->). by apply (validate_accepts data maxDepth bytes small fields rest).
Qed.

Definition sampleFields : list Field :=
  [(BSONType.NumberInt, idName, Raw [1; 0; 0; 0]);
   (BSONType.Object, [97], Nested [(BSONType.String, [98], Text [120] []); (BSONType.Bool, [99], Raw [1])]);
   (BSONType.CodeWScope, [100], Scoped [120] [(BSONType.BinData, [101], Binary 0 [7; 8])])].

Definition isByteb (x : Z) : bool := (0 <=? x) && (x <? 256).

Lemma bytes_check l : forallb isByteb l = true → Forall isByte l.
Proof. rewrite forallb_forall. intros Hl. apply List.Forall_forall. intros x Hx%Hl. unfold isByteb, isByte in *. lia. Qed.

Lemma validate_exact_witness :
  (∃ m, validateBSON (encodeDocument sampleFields ++ [1; 2]) (size (encodeDocument sampleFields ++ [1; 2])) 2 = Valid m ∧
     _position (buffer m) = 63) ∧
  ¬ ∃ m, validateBSON (encodeDocument sampleFields ++ [1; 2]) (size (encodeDocument sampleFields ++ [1; 2])) 1 = Valid m ∧
     _position (buffer m) = 63.
Proof.
  assert (bytes : Forall isByte (encodeDocument sampleFields ++ [1; 2])) by (apply bytes_check; reflexivity).
  split.
  - apply (validate_exact _ 2 63 bytes); [reflexivity|]. exists sampleFields, [1; 2]. repeat split; vm_compute; congruence.
  - intros (m & Hm & _). vm_compute in Hm. discriminate Hm.
Defined.

(** C8: Whatever the buffer holds, the validator ends and reads nothing behind it; when it refuses the buffer,
    the element it prints is none or a complete and valid element with the name [_id]. *)
Theorem validate_safe data maxDepth (bytes : Forall isByte data) (small : size data < 2 ^ 31) :
  match validateBSON data (size data) maxDepth with
  | Valid m => 5 <= _position (buffer m) <= size data
  | Invalid code idElem => (code = InvalidBSON ∨ code = Overflow) ∧ IdOk data idElem
  | Wild | Endless => False
  end.
Proof.
  pose proof (validate_finished data maxDepth bytes small) as Hf. destruct (validateBSON data (size data) maxDepth) as [m| | |]; try exact Hf.
  destruct Hf as (cur & c & l & Hi & Hd). pose proof (inv_size _ _ _ _ _ _ Hi) as Hsize. rewrite (inv_position _ _ _ _ _ _ Hi).
  pose proof (inv_stage _ _ _ _ _ _ Hi) as Hs. rewrite Hd in Hs. inversion Hs as [| | | | |fields Hdoc Hst Hcur Hfs Hc].
  split; [|pose proof (size_nonneg l); rewrite Hc; lia]. unfold encodeDocument, sized. rewrite !size_app, size_le32. change (size [0]) with 1.
  pose proof (size_nonneg (encodeFields fields)). lia.
Qed.

Lemma validate_safe_witness :
  let data := le32 100 ++ encodeField (BSONType.NumberInt, idName, Raw [1; 0; 0; 0]) ++ encodeHeader BSONType.Bool [97] ++ [2; 0] in
  validateBSON data (size data) 2 = Invalid InvalidBSON 4 ∧ IdOk data 4.
Proof.
  intros data. assert (bytes : Forall isByte data) by (apply bytes_check; reflexivity).
  assert (He : validateBSON data (size data) 2 = Invalid InvalidBSON 4) by (vm_compute; reflexivity).
  pose proof (validate_safe data 2 bytes eq_refl) as Hs. rewrite He in Hs. split; [exact He|]. exact (proj2 Hs).
Defined.

(** No version refuses a decimal, which the oldest version does not have. *)
Lemma decimals_accepted :
  let data := encodeDocument [(BSONType.NumberDecimal, [97], Raw (repeat 0 16))] in
  ∃ m, validateBSON data (size data) 0 = Valid m.
Proof. eexists. vm_compute. reflexivity. Qed.
